(* ===== verification/_CoqProject ===== *)
-Q . S2P
Prelude.v
RustStr.v
RustStrFacts.v
Subst.v
Validation.v
Identifiers.v
Paths.v
OciRef.v
Target.v
Ast.v
Diagnostics.v
Lexer.v
Grammar.v
GrammarFacts.v
RecipeGrammar.v
GrammarRefines.v
RecipeRefines.v
Validator.v
Parse.v
ArgScope.v
Image.v
Json.v
Layout.v
LayoutFacts.v
Calendar.v
StepCache.v
BuildState.v
Directives.v
EngineBuild.v
CrossStage.v
BuildSpec.v
BuildModel.v
BuildFacts.v
BuildRefines.v
BaseImage.v
Orchestrate.v
Ssrf.v
IpText.v
Fetch.v
Cpio.v
Kernel.v
InitrdModules.v
Initrd.v
Disk.v
Compile.v
Behaviours.v
HostFs.v
Compression.v
Materialize.v
Pack.v
SeccompProfile.v
Seccomp.v
Sandbox.v
Bundle.v
HostNet.v
VmNet.v
Gateway.v
Staging.v
BuildStaging.v
Introspect.v
RunShell.v
BootTree.v
BootRun.v
RuntimeConfig.v
BootAdd.v
Bootable.v
Vmm.v
VmmControl.v
Artifact.v
Archive.v
RegistryAuth.v
RegistryClient.v
ProcessRegistry.v
CliRun.v
