(* ===== verification/Prelude.v ===== *)
(** * A verification of umf: recipes, builds, images, sandboxes and machines

    umf builds bootable OS images and containers from recipes, a superset of
    Dockerfiles.  A recipe is text; the crate umf-parser turns it into the
    syntax tree of umf-core; umf-builder expands the build arguments and runs
    the directives stage by stage, with a cache of layers, in containers
    (umf-engine) or, for bootable images, in micro-VMs (umf-vmm) behind a policed
    network (umf-networking); umf-oci keeps the images in an OCI layout on disk
    and turns layers into trees and back; umf-compile projects a bootable image
    into a disk.  This development models the path from text to tree, from tree
    to stored image, from stored image to container, machine or disk, function
    by function, and proves it correct.

    ** The program's parts and their models

    - The scanner, crates/umf-parser/src/lexer.rs, is a cursor over the bytes
      of the source with a one-line shell-payload mode.  [Lexer] has its state
      as the record [Lexer] and one definition for each method ([run],
      [lex_string], [lex_number], [lex_word], [lex_long_option], ...).
    - The parser, crates/umf-parser/src/grammar.rs, is a recursive descent over
      the tokens with error recovery at the end of a line and at the next [FROM].
      [Grammar] has its state as the record [Parser] and one definition for each
      method ([parse_top], [parse_stage], [parse_directive], [parse_run], ...),
      in the monad [P] of explicit state passing.
    - The semantic pass, validator.rs, is [Validator]; the diagnostics and their
      caps, diagnostics.rs, are [Diagnostics]; the pipeline of lib.rs is [Parse].
    - The syntax tree, crates/umf-core/src/ast/, is [Ast].  The validated
      newtypes of crates/umf-core/src/types/ are [Validation] (the error type,
      the class of newtypes), [Identifiers], [Paths] and [OciRef].
    - The expansion of ${NAME}, crates/umf-core/src/subst.rs, is [Subst]; the
      scope of ARG, crates/umf-builder/src/arg_subst.rs, is [ArgScope].
    - Architectures, boot flavours, filesystem labels and targets,
      crates/umf-core/src/{l0,architecture,boot,label}.rs, are [Target].
    - The state of a stage build, crates/umf-builder/src/engine_build/state.rs, is
      the record [BuildState.BuildState]; the metadata directives are in
      [Directives]; RUN, ADD, the walk over the directives and the restart
      without the cache (run.rs, add.rs, directives.rs, mod.rs) in
      [EngineBuild], in the monad [Step] of the cache and errors.  The texts
      behind the cache keys, cache.rs, are [StepCache]; the clock, util.rs,
      [Calendar].
    - [CrossStage] is the check of references between stages, [BaseImage] the
      reading of base images (base_image.rs, platform.rs) and the emission of
      images (crates/umf-oci/src/image/), [Orchestrate] the builds of all stages
      (mod.rs: build, build_container_stages) with downloads and secrets.
    - [Image] is the data of images, [Json] the document model, [Layout] the
      image layout of crates/umf-oci/src/registry/layout.rs: blobs, references,
      referrers and garbage collection; [LayoutFacts] its theorems.
    - [Ssrf] is the egress policy, crates/umf-networking/src/ssrf.rs, with the
      addresses as integers; [IpText] the address parser of the standard
      library; [Fetch] the downloads of ADD <url>, engine_build/fetch.rs, and
      the policy cell of crates/umf-engine/src/rootless.rs.
    - The initramfs of crates/umf-builder/src/{kernel,initrd}.rs: [Kernel] finds
      the kernel of a tree, [InitrdModules] selects its modules, with the load
      loop of the init script, [Cpio] is the archive writer
      (initrd/cpio_newc.rs) with a reader of the format, and [Initrd] puts them
      together with the init scripts.
    - The disk projection of crates/umf-compile/src/: [Disk] has the geometry,
      the partition table and the partition windows of partition.rs; [Compile]
      the boot partition, the unified kernel image (uki.rs) and the boot manifest
      of an image (image.rs).
    - [HostFs] is a file system with symbolic links, by real location, and the
      calls of [std::fs] and [std::path] the code makes.  The layers of
      crates/umf-oci/src/ are on it: [Compression] recognises and decodes
      payloads (format.rs, compression.rs), [Materialize] applies layers with
      their whiteouts (materialize.rs, whiteout.rs), [Pack] packs a directory
      (image/tar_util.rs).
    - The containers of crates/umf-engine/src/: [SeccompProfile] and [Seccomp] the
      syscall filter, [Sandbox] the runtime specification and what changes it,
      [Bundle] the bundles and the two ways a container is started.
    - The networks of crates/umf-networking/src/: [HostNet] (lib.rs) and [VmNet]
      (vmnet.rs) on a model of the kernel's links, routes, tables and forwarding
      switch in which every operation may fail, and [Gateway]
      (rootless_net/gateway.rs) over a network stack and sockets that answer
      anything.
    - The bootable builder, crates/umf-builder/src/bootable/: [Staging] (fsutil.rs)
      and [BuildStaging] (crates/umf-oci/src/staging.rs) write into the staging
      directory; [Introspect] (introspect.rs, resolver/) finds kernels and
      userlands; [BootAdd] is ADD, [RunShell] and [BootRun] (run.rs,
      vm_runner.rs) are RUN, [RuntimeConfig] (runtime_config.rs,
      runtime_writer.rs) is EXPOSE, [BootTree] reads the kernel and the
      initramfs off the tree, and [Bootable] puts them together (mod.rs,
      validate.rs).
    - Virtual machines, crates/umf-vmm/src/: [Vmm] is the specification of a
      machine and QEMU's command line, with a reader of QEMU's options;
      [VmmControl] starts, awaits, asks and stops machines on both backends.
    - Storage and registries, crates/umf-oci/src/: [Artifact] (image/artifact.rs,
      image/index.rs) emits artifacts and image indexes, [Archive] (archive.rs)
      saves and loads them, [RegistryAuth] (registry/auth.rs) finds
      credentials, and [RegistryClient] (registry/client.rs, referrers.rs) pulls
      and pushes.
    - Command line, src/cli/: [ProcessRegistry] is the record of builds and
      runs and umf ps (process.rs, ps.rs); [CliRun] is umf run (run.rs, util.rs),
      which starts containers or machines.
    - [BuildSpec] is the builder without a cache, as a specification;
      [BuildFacts] and [BuildRefines] prove the builder against it; [BuildModel]
      is a small host on which theorems are applied.
    - [RustStr] and [RustStrFacts] hold what the code uses of Rust's str, char
      and integers, with the theory of UTF-8 boundaries.

    The parser calls the scanner's tokens, the newtypes' constructors through
    the class [Validation.NewType], and the diagnostics through
    [Validation.ValidationError]; the pipeline composes the three passes.  The
    builder asks the host through the class [BuildState.Host] (archives, hashes,
    the container runtime, the file system, the layout it reads); what the
    cache relies on is the class [BuildRefines.HostLaws] (no collisions, blobs
    addressed by content, commands that are reproducible up to the archives of
    the trees they read and write).  The layout takes the hash and the parsers
    of documents as parameters.  Downloads, pulls and bundles are parameters of
    [Orchestrate]; [Fetch.fetch_at] is the download that is put there.

    The resolver, the HTTP client and URLs are the class [Fetch.Net], whose laws
    [Fetch.NetLaws] say which address a request is sent to, the proxy of the
    environment first; the partition table is the class [Disk.Gpt] with the laws
    [Disk.GptLaws]; the tools and file systems of a projection are the class
    [Compile.Projector].  The tar and zip crates are the classes
    [Materialize.TarCrate], [BuildStaging.TarUnpack] and [BuildStaging.ZipCrate],
    temporary files [BuildStaging.TempFiles], the kernel's packet filter
    [HostNet.Nft], the network stack and the sockets of the gateway classes of
    [Gateway], the micro-VM of a step [BootRun.MicroVm], the machine, its
    process and the clock [VmmControl.Vmm], where calls without a timeout may
    never answer.  Each class has an instance on which
    the theorems are applied ([Fetch.ModelNet], [Disk.ModelGpt],
    [Compile.ModelImage], [BuildStaging.ModelTemp], ...).

    [BootRun.step_spec] is the machine of a RUN step; [Vmm.micro_vm] is the same as
    umf-vmm takes it, and [Vmm.run_step_network] follows it down to the options
    QEMU reads.  [Bootable.build_vm] composes all of the bootable builder's files.

    ** Conventions

    A Rust string is the list of its UTF-8 bytes ([str]) and every offset is a
    byte offset, as in the source.  A Rust [Result] is [result].  A computation
    that can panic or loop returns an [outcome]: [Val], [Panic] (a slice off a
    character boundary, an index out of range) or [OutOfFuel].  A parsing
    function of type [P A] maps a state to an outcome of an optional result and
    a state; [None] is the [None] the source returns after reporting.

    Loops that are not structural carry fuel: the scanner one more than the
    bytes of the source, each loop of the parser one more than the number of
    tokens.  Each iteration consumes a byte or a token, which the termination
    theorems prove: on UTF-8 input neither [OutOfFuel] nor [Panic] is reached
    ([Lexer.tokenize_total], [Parse.parse_with_warnings_total]).  The input
    hypothesis [utf8] is what the type [&str] guarantees.

    A stage is attempted at most twice, and [EngineBuild.attempts] has fuel two,
    which [BuildFacts.stage_build_returns] shows enough; the walk over manifests has
    one level for each blob and two more, enough by [LayoutFacts.collect_returns].

    A download follows at most ten redirects, by structural recursion; the loop
    over the chunks has one unit of fuel for each byte under the ceiling and one
    more, enough by [Fetch.fetch_ends].  The loop over module dependencies has
    the length of the queue and of all dependency lists, enough by
    [InitrdModules.modules_closed].

    The loops that poll a machine have fuel for as many sleeps as fit before
    their deadline and one more round, enough because time does not run
    backwards and a sleep lasts ([VmmControl.shutdown_stops]); an answer that
    never comes is [OutOfFuel] too.  Copies and
    removals of trees have fuel for the depth of the tree.  A blob is
    transferred in at most three rounds, and a tree of indexes has fuel for its
    height, which is finite since no hash contains itself.

    Numbers keep their width where it matters: the fields of an archive are
    taken modulo 2^32, disk sizes are checked against 2^64 and seeks against
    the range of [i64]; a literal is a [u64] whose
    overflow is reported, a port is checked against [u16], and positions are
    natural numbers since the source is capped at 8 MiB.

    ** What the theorems show

    - Language: [Lexer.lexes] is a declarative lexical grammar and
      [RecipeGrammar.recipe] a declarative grammar of recipes, with no state, no
      recovery and no fuel.  [RecipeRefines.parser_recognises_language] shows
      that the scanner and the parser recognise exactly that language on
      [RecipeGrammar.conventional] texts, those without the forms that comments
      and code treat differently, and
      [RecipeRefines.language_unambiguous] that it is unambiguous.
      [GrammarRefines] relates each parsing function to its rule, and
      [Parse.parse_with_warnings_accepts] is the same for the whole pipeline.
    - Well-formedness: [GrammarFacts] is a total-correctness calculus for [P]
      ([ok]): every function returns, keeps the invariant of the state, and
      either yields a well-formed value or has reported an error.
      [Parse.parse_with_warnings_total] sums it up for recipes, and
      [GrammarFacts.parse_directive_reports] for one directive.
    - Diagnostics: they point into the source, are errors, and are bounded.
    - Newtypes: each constructor accepts a grammar given apart from the code
      (references: the documented one, [OciRef.OciReference_new_documented]), and
      errors carry the first offending offset.
    - Expansion: [Subst.substitute_refines] and the theorems of [ArgScope] give
      the declarative meaning of ${NAME} and the precedence of overrides,
      defaults and inherited values.
    - Builds: [BuildRefines.cached_build_refines] shows that the cache and the
      restart change nothing: the layers and the configuration are those of
      the build without a cache, up to what archives keep of the trees that are
      packed.  It covers RUN without secret mounts, ADD of
      a file, from a stage, of an image and of a URL to a file path, with
      fields free of newlines: [Behaviours] shows what happens outside.
      [StepCache.cache_key_separates] is the same for the keys alone.
      [BuildFacts] gives the history of an image, and
      [Orchestrate.staged_lookups_succeed] that the download of each URL and the image of each
      earlier stage are there when the walk asks for them.
    - Storage: [LayoutFacts] shows that the layout is addressed by content,
      that references form a map, that paths stay inside and that garbage
      collection is exact where no digest is both content and a manifest with
      references; [BaseImage.emitted_image_is_a_base] that what is
      emitted can be built on, and what is lost.
    - Egress: [Ssrf.classify_exact] gives the ranges of each category, and
      [Ssrf.filter_agrees_with_proxy] how the two enforcements agree;
      [Fetch.fetch_only_vetted] that no download connects to a denied address
      itself: without a proxy in the environment every address was vetted, with one
      only the proxy is reached besides,
      [Fetch.prefetched_payloads] that what builds use is what was received.
    - Initramfs: [Cpio.cpio_roundtrip] reads archives back;
      [InitrdModules.modules_closed] and [InitrdModules.init_loads_modules] show
      that the modules needed are embedded and loaded; [Initrd.initramfs_unpacks]
      that the whole archive unpacks.
    - Disks: [Disk.view_refines_device] shows that a partition window is a
      device and [Disk.partitions_isolated] that the partitions do not touch one
      another; [Compile.esp_from_image] and [Compile.loader_entry_uninjected]
      that a hostile image can neither read host files onto the disk nor add
      boot directives, whatever bytes its file names have.
    - Layers: [Pack.pack_unpack_overlay] shows that a layer packed from an overlay
      and applied to its lower tree gives the tree the overlay showed;
      [Materialize.apply_tar_contained] that no layer reaches outside its target;
      [Compression.decode_tar_stream_exact] that the size ceiling holds.
    - Sandboxes: [Sandbox.container_sandboxed] gives the confinement of every
      specification, [Seccomp.filtered_profile_confines] of its filter, and
      [Bundle.only_sandboxed_started] that nothing else is started: steps of a
      build share one bundle, whose mounts add up ([Bundle.run_steps]).
    - Networks: [HostNet.live_networks_policed] is an invariant of all builds of
      a host under failures, as long as setups and ends do not overlap; [VmNet.vmnet_leaves_nothing] and
      [Gateway.gateway_polices] are the same for machines and rootless
      containers.
    - Bootable builds: [Bootable.quiet_build_leaves_host] shows that layers and
      sources nobody vouches for cannot change the host through the staging
      directory, [Bootable.bootable_base_inherited] that an image hands its way
      of booting on to a recipe that names it exactly; [Staging],
      [BuildStaging], [RunShell], [RuntimeConfig] (a firewall that denies by default) and
      [Introspect] have the theorems of its parts.
    - Machines: [Vmm.qemu_reads_spec] reads the command line back;
      [VmmControl.shutdown_stops] shows that stopping a machine ends, if its
      socket answers, and stops it, [VmmControl.spawn_leaves_nothing] that starting one leaks nothing.
    - Registries: [RegistryClient.pull_complete] and
      [RegistryClient.push_ordered] hold for every registry,
      [Archive.archive_roundtrip] for every complete and unambiguous layout; [Artifact.artifact_listed],
      [Artifact.index_composed] and [RegistryAuth.auth_of_host] are about
      signatures, platforms and credentials.
    - The command line: [CliRun.run_starts_as_asked] shows that umf run starts
      what the flags ask for and the image allows, and returns when that ends,
      [ProcessRegistry.ps_prunes_finished] that pruning spares what runs.
    - [Behaviours], and the [Example]s of each file, evaluate the model where the code and its documentation
      differ.

    ** What is not modelled

    Rendering of diagnostics by the ariadne crate, serde derives and tracing.
    Modes, owners and times of files: the nodes of [HostFs] carry none.
    Interleavings of builds inside a setup or an end of a network.  What a command does
    ([BuildState.Host.execute]) is a function of the bundle as it was prepared.
    In the builder: the removal of secret mount points, metrics, the benchmark
    and the probing of the host.  In the projection: the writers of the root
    file system, which run mkfs or pack SquashFS, and the FAT volume.  In the
    engine and the networks: mounts, the entry of namespaces, the container
    runtime and the encoding of netlink messages, which are system calls.  In
    umf-oci: the HTTP of the oci-client crate and the encoder of erofs.  The rest of the command line is argument parsing by the
    clap crate, output, and calls of the operations modelled here. *)

(** * Prelude: results, outcomes, notations and automation shared by every
    file. *)

From stdpp Require Export base tactics list strings gmap.
From Stdlib Require Export Ascii NArith Lia ZifyBool ZifyN ZifyNat.

Declare Scope umf_scope.
Delimit Scope umf_scope with umf.
Open Scope umf_scope.

(** ** Rust strings

    A Rust [String] or [&str] is the list of its UTF-8 bytes.  A Rocq string
    literal denotes the bytes the same literal has in the Rust source. *)

Abbreviation str := (list ascii).

Definition bytes_of (s : string) : str := String.list_ascii_of_string s.
Coercion bytes_of : string >-> list.

(** ** Results: [Result<T, E>] *)

Inductive result (E A : Type) : Type :=
| Ok (a : A)
| Err (e : E).
Arguments Ok {E A} a.
Arguments Err {E A} e.

#[export] Instance result_ret {E} : MRet (result E) := fun A a => Ok a.
#[export] Instance result_bind {E} : MBind (result E) :=
  fun A B k r => match r with Ok a => k a | Err e => Err e end.

(** [Result::map_err] and [Option::ok_or]. *)
Definition map_err {E F A} (f : E -> F) (r : result E A) : result F A :=
  match r with Ok a => Ok a | Err e => Err (f e) end.
Definition ok_or {E A} (o : option A) (e : E) : result E A :=
  match o with Some a => Ok a | None => Err e end.

Definition is_ok {E A} (r : result E A) : bool :=
  match r with Ok _ => true | Err _ => false end.

(** ** Outcomes of a computation that may panic

    [Panic] is a Rust panic (a slice off a character boundary, an index out of
    range).  [OutOfFuel] is reached only when a loop is given less fuel than it
    has iterations; the termination theorems show it is never reached. *)

Inductive outcome (A : Type) : Type :=
| Val (a : A)
| Panic
| OutOfFuel.
Arguments Val {A} a.
Arguments Panic {A}.
Arguments OutOfFuel {A}.

#[export] Instance outcome_ret : MRet outcome := fun A a => Val a.
#[export] Instance outcome_bind : MBind outcome :=
  fun A B k r =>
    match r with Val a => k a | Panic => Panic | OutOfFuel => OutOfFuel end.

(** An [option] read as a partial operation that panics when undefined. *)
Definition or_panic {A} (o : option A) : outcome A :=
  match o with Some a => Val a | None => Panic end.

(** ** Automation *)

Create HintDb umf.

(** Case analysis on every [if] and [match] of the goal or of a hypothesis. *)
Ltac cases :=
  repeat match goal with
    | |- context [if ?b then _ else _] => destruct b eqn:?
    | |- context [match ?x with _ => _ end] => destruct x eqn:?
    end.

Ltac cases_in H :=
  repeat match type of H with
    | context [if ?b then _ else _] => destruct b eqn:?
    | context [match ?x with _ => _ end] => destruct x eqn:?
    end.

(** Turns boolean connectives into propositional ones. *)
Ltac bools :=
  repeat match goal with
    | H : _ && _ = true |- _ => apply andb_true_iff in H as [? ?]
    | H : _ || _ = false |- _ => apply orb_false_iff in H as [? ?]
    | H : negb _ = true |- _ => apply negb_true_iff in H
    | H : negb _ = false |- _ => apply negb_false_iff in H
    | H : bool_decide _ = true |- _ => apply bool_decide_eq_true in H
    | H : bool_decide _ = false |- _ => apply bool_decide_eq_false in H
    | |- _ && _ = true => apply andb_true_iff; split
    end.

(** ** Results: inversion lemmas *)

Lemma bind_Ok {E A B} (r : result E A) (k : A -> result E B) b :
  (r ≫= k) = Ok b <-> exists a, r = Ok a /\ k a = Ok b.
Proof.
  destruct r; simpl; (split; [intros; try discriminate; eauto|]); intros (x & ? & ?); congruence.
Qed.

Lemma map_err_Ok {E F A} (f : E -> F) (r : result E A) a :
  map_err f r = Ok a <-> r = Ok a.
Proof. destruct r; simpl; split; congruence. Qed.

Lemma bind_Val {A B} (r : outcome A) (k : A -> outcome B) b :
  (r ≫= k) = Val b <-> exists a, r = Val a /\ k a = Val b.
Proof.
  destruct r; simpl; (split; [intros; try discriminate; eauto|]); intros (x & ? & ?); congruence.
Qed.

(** ** Lists *)

Section lists.
Context {A : Type}.
Implicit Types (p : A -> bool) (l : list A).

(** Length of the longest prefix whose elements satisfy [p]: the distance a
    [while p(bytes[pos]) { pos += 1 }] loop travels. *)
Fixpoint count_while p l : nat :=
  match l with
  | [] => 0
  | x :: l' => if p x then S (count_while p l') else 0
  end.

Lemma count_while_le p l : count_while p l <= length l.
Proof. induction l as [|x l IH]; simpl; [lia|]. destruct (p x); lia. Qed.

Lemma count_while_take p l :
  Forall (fun x => p x = true) (take (count_while p l) l).
Proof.
  induction l as [|x l IH]; simpl; [constructor|].
  destruct (p x) eqn:E; simpl; constructor; auto.
Qed.

(** The loop stops at the end of the list or at an element refused by [p]. *)
Lemma count_while_stop p l x :
  l !! count_while p l = Some x -> p x = false.
Proof.
  induction l as [|y l IH]; simpl; [done|].
  destruct (p y) eqn:E; simpl; [apply IH|]. congruence.
Qed.

Lemma count_while_app p l1 l2 :
  Forall (fun x => p x = true) l1 ->
  count_while p (l1 ++ l2) = length l1 + count_while p l2.
Proof. induction 1 as [|x l Hx _ IH]; simpl; [done|]. by rewrite Hx, IH. Qed.

Lemma count_while_all p l :
  Forall (fun x => p x = true) l -> count_while p l = length l.
Proof.
  intros H. rewrite <- (app_nil_r l) at 1. rewrite count_while_app by done.
  simpl. lia.
Qed.

Lemma forallb_eq p q l : (forall x, p x = q x) -> forallb p l = forallb q l.
Proof. intros H. induction l as [|x l IH]; simpl; [done|]. by rewrite H, IH. Qed.

Lemma drop_cons_lookup l i x l' : drop i l = x :: l' -> l !! i = Some x.
Proof.
  intros H. pose proof (lookup_drop l i 0) as HL.
  rewrite H, Nat.add_0_r in HL. by simpl in HL.
Qed.

Lemma drop_cons_S l i x l' : drop i l = x :: l' -> drop (S i) l = l'.
Proof.
  intros H. replace (S i) with (i + 1) by lia. by rewrite <- drop_drop, H.
Qed.

Lemma drop_nonempty l i : i < length l -> exists x l', drop i l = x :: l'.
Proof.
  intros H. destruct (drop i l) as [|x l'] eqn:E; [|eauto].
  apply (f_equal length) in E. rewrite length_drop in E. simpl in E. lia.
Qed.
End lists.

#[export] Hint Resolve count_while_le : umf.
