(* ===== verification/RustStr.v ===== *)
(** * RustStr: the parts of Rust's [str] and [char] the program uses.

    A [str] is a list of bytes; a [char] is represented by the bytes of its
    UTF-8 encoding, so that [ch.len_utf8()] is the length of the list and
    [String::push] is concatenation. *)

From stdpp Require Import sorting.
From S2P Require Import Prelude.

(** ** Bytes *)

Definition code (c : ascii) : N := N_of_ascii c.

Definition in_range (lo hi c : ascii) : bool :=
  ((code lo <=? code c) && (code c <=? code hi))%N.

Definition is_ascii_digit (c : ascii) : bool := in_range "0" "9" c.
Definition is_ascii_lowercase (c : ascii) : bool := in_range "a" "z" c.
Definition is_ascii_uppercase (c : ascii) : bool := in_range "A" "Z" c.
Definition is_ascii_alphabetic (c : ascii) : bool :=
  is_ascii_lowercase c || is_ascii_uppercase c.
Definition is_ascii_alphanumeric (c : ascii) : bool :=
  is_ascii_alphabetic c || is_ascii_digit c.
Definition is_ascii_hexdigit (c : ascii) : bool :=
  is_ascii_digit c || in_range "a" "f" c || in_range "A" "F" c.

(** Whether [c] is one of the bytes of [cs]: [matches!(c, b'a' | b'b' | ...)]. *)
Definition one_of (cs : str) (c : ascii) : bool := bool_decide (c ∈ cs).

Definition nul : ascii := "000".
Definition tab : ascii := "009".
Definition lf : ascii := "010".
Definition cr : ascii := "013".
Definition dquote : ascii := "034".
Definition squote : ascii := "039".
Definition backslash : ascii := "092".

(** ** UTF-8 *)

Definition is_cont (c : ascii) : bool := ((128 <=? code c) && (code c <? 192))%N.
Definition is_ascii (c : ascii) : bool := (code c <? 128)%N.

(** Length of the encoding that starts with byte [c], as the decoder behind
    [str::chars] computes it. *)
Definition utf8_width (c : ascii) : nat :=
  if (code c <? 128)%N then 1
  else if (code c <? 224)%N then 2
  else if (code c <? 240)%N then 3
  else 4.

(** The well-formed encodings of one Unicode scalar value. *)
Definition valid_char (ch : str) : bool :=
  match ch with
  | [a] => is_ascii a
  | [a; b] => in_range "194" "223" a && is_cont b
  | [a; b; c] =>
      ((bool_decide (a = "224"%char) && in_range "160" "191" b)
       || (bool_decide (a = "237"%char) && in_range "128" "159" b)
       || ((in_range "225" "236" a || in_range "238" "239" a) && is_cont b))
      && is_cont c
  | [a; b; c; d] =>
      ((bool_decide (a = "240"%char) && in_range "144" "191" b)
       || (bool_decide (a = "244"%char) && in_range "128" "143" b)
       || (in_range "241" "243" a && is_cont b))
      && is_cont c && is_cont d
  | _ => false
  end.

(** The invariant of the type [str]. *)
Inductive utf8 : str -> Prop :=
| utf8_nil : utf8 []
| utf8_char ch s : valid_char ch = true -> utf8 s -> utf8 (ch ++ s).

(** [str::chars]: the decoder takes [utf8_width] bytes at a time. *)
Fixpoint chars (s : str) : list str :=
  match s with
  | [] => []
  | a :: s1 =>
      match utf8_width a, s1 with
      | 2, b :: s2 => [a; b] :: chars s2
      | 3, b :: c :: s3 => [a; b; c] :: chars s3
      | 4, b :: c :: d :: s4 => [a; b; c; d] :: chars s4
      | _, _ => [a] :: chars s1
      end
  end.

(** [String::from_utf8_lossy], and so [to_string_lossy] on Linux: each longest run of bytes that begins a
    character without completing one becomes U+FFFD. *)
Definition lead3 (a b : ascii) : bool :=
  (bool_decide (a = "224"%char) && in_range "160" "191" b) || (bool_decide (a = "237"%char) && in_range "128" "159" b)
  || ((in_range "225" "236" a || in_range "238" "239" a) && is_cont b).
Definition lead4 (a b : ascii) : bool :=
  (bool_decide (a = "240"%char) && in_range "144" "191" b) || (bool_decide (a = "244"%char) && in_range "128" "143" b)
  || (in_range "241" "243" a && is_cont b).
Definition replacement : str := ["239"%char; "191"%char; "189"%char].

Fixpoint from_utf8_lossy (s : str) : str :=
  match s with
  | [] => []
  | a :: s1 =>
      if is_ascii a then a :: from_utf8_lossy s1
      else match s1 with
           | [] => replacement
           | b :: s2 =>
               if in_range "194" "223" a && is_cont b then a :: b :: from_utf8_lossy s2
               else if lead3 a b then
                 match s2 with
                 | [] => replacement
                 | c :: s3 => if is_cont c then a :: b :: c :: from_utf8_lossy s3 else replacement ++ from_utf8_lossy s2
                 end
               else if lead4 a b then
                 match s2 with
                 | [] => replacement
                 | c :: s3 =>
                     if is_cont c then
                       match s3 with
                       | [] => replacement
                       | d :: s4 => if is_cont d then a :: b :: c :: d :: from_utf8_lossy s4 else replacement ++ from_utf8_lossy s3
                       end
                     else replacement ++ from_utf8_lossy s2
                 end
               else replacement ++ from_utf8_lossy s1
           end
  end.

Fixpoint indices_from (i : nat) (l : list str) : list (nat * str) :=
  match l with
  | [] => []
  | ch :: l' => (i, ch) :: indices_from (i + length ch) l'
  end.

(** [str::char_indices]: each character with the byte offset it starts at. *)
Definition char_indices (s : str) : list (nat * str) := indices_from 0 (chars s).

(** A byte predicate on a [char]: [ch.is_ascii_digit()] and the like hold of
    one-byte characters only. *)
Definition char_is (p : ascii -> bool) (ch : str) : bool :=
  match ch with [c] => is_ascii c && p c | _ => false end.

(** [b as char] for a byte: the Latin-1 code point [b]. *)
Definition u8_as_char (c : ascii) : str :=
  if (code c <? 128)%N then [c]
  else if (code c <? 192)%N then ["194"%char; c]
  else ["195"%char; ascii_of_N (code c - 64)].

(** [raw.chars().next()]. *)
Definition first_char (s : str) : option str := head (chars s).

(** [str::is_char_boundary]. *)
Definition is_char_boundary (s : str) (i : nat) : bool :=
  match i with
  | 0 => true
  | _ => match s !! i with
         | Some c => negb (is_cont c)
         | None => bool_decide (i = length s)
         end
  end.

(** [&s[a..b]]; [None] stands for the panic. *)
Definition slice (s : str) (a b : nat) : option str :=
  if bool_decide (a <= b) && bool_decide (b <= length s)
     && is_char_boundary s a && is_char_boundary s b
  then Some (take (b - a) (drop a s)) else None.

(** ** Searching *)

(** [s.find(c)] for an ASCII character [c]. *)
Fixpoint find_byte (c : ascii) (s : str) : option nat :=
  match s with
  | [] => None
  | a :: s' => if Ascii.eqb a c then Some 0 else S <$> find_byte c s'
  end.

(** [s.rfind(c)]. *)
Fixpoint rfind_byte (c : ascii) (s : str) : option nat :=
  match s with
  | [] => None
  | a :: s' =>
      match rfind_byte c s' with
      | Some i => Some (S i)
      | None => if Ascii.eqb a c then Some 0 else None
      end
  end.

Definition contains_byte (c : ascii) (s : str) : bool :=
  existsb (fun a => Ascii.eqb a c) s.

(** [s.strip_prefix(pre)] and [s.starts_with(pre)]. *)
Fixpoint strip_prefix (pre s : str) : option str :=
  match pre, s with
  | [], _ => Some s
  | a :: pre', b :: s' => if Ascii.eqb a b then strip_prefix pre' s' else None
  | _ :: _, [] => None
  end.
Definition starts_with (pre s : str) : bool :=
  match strip_prefix pre s with Some _ => true | None => false end.
Definition ends_with_byte (c : ascii) (s : str) : bool :=
  match last s with Some a => Ascii.eqb a c | None => false end.

(** [s.contains(needle)]. *)
Fixpoint contains (needle s : str) : bool :=
  starts_with needle s
  || match s with [] => false | _ :: s' => contains needle s' end.

(** [s.split_once(c)]. *)
Definition split_once (c : ascii) (s : str) : option (str * str) :=
  match find_byte c s with
  | Some i => Some (take i s, drop (S i) s)
  | None => None
  end.

(** [s.split(c)]: always at least one piece. *)
Fixpoint split (c : ascii) (s : str) : list str :=
  match s with
  | [] => [[]]
  | a :: s' =>
      if Ascii.eqb a c then [] :: split c s'
      else match split c s' with
           | piece :: rest => (a :: piece) :: rest
           | [] => [[a]]
           end
  end.

(** [s.to_ascii_uppercase()]. *)
Definition to_ascii_uppercase (s : str) : str :=
  (fun c => if is_ascii_lowercase c then ascii_of_N (code c - 32) else c) <$> s.

(** ** Machine integers *)

Definition u16_max : N := 65535.
Definition u32_max : N := 4294967295.
Definition u64_max : N := 18446744073709551615.

Definition digit_value (c : ascii) : N := code c - 48.

(** Value of a run of decimal digits, unbounded. *)
Definition decimal_from (n : N) (s : str) : N :=
  fold_left (fun n c => (n * 10 + digit_value c)%N) s n.
Definition decimal (s : str) : N := decimal_from 0 s.

(** [s.parse::<uN>()]: an optional [+], then at least one digit, no overflow. *)
Definition parse_unsigned (max : N) (s : str) : option N :=
  let body := match s with "+"%char :: s' => s' | _ => s end in
  match body with
  | [] => None
  | _ => if forallb is_ascii_digit body && (decimal body <=? max)%N
         then Some (decimal body) else None
  end.

(** [n.to_string()] for an unsigned integer. *)
Fixpoint to_decimal_fuel (fuel : nat) (n : N) : str :=
  match fuel with
  | 0 => []
  | S fuel' =>
      let d := ascii_of_N (48 + n mod 10) in
      if (n <? 10)%N then [d] else to_decimal_fuel fuel' (n / 10) ++ [d]
  end.
Definition to_decimal (n : N) : str := to_decimal_fuel (S (N.to_nat (N.log2 n))) n.
Definition nat_to_decimal (n : nat) : str := to_decimal (N.of_nat n).

(** A slice whose bounds come from a search in the same string, so that they
    are in range and on character boundaries. *)
Definition sub (s : str) (a b : nat) : str := take (b - a) (drop a s).

(** The loop [for (i, ch) in chars { if !ok(ch) { return Err(..ch, i..) } }]:
    the first character refused by [ok], with its offset. *)
Definition first_rejected (ok : str -> bool) (l : list (nat * str)) : option (nat * str) :=
  List.find (fun '(_, ch) => negb (ok ch)) l.

(** ** Trimming, lines and words *)

(** [s.trim_start_matches(c)] and [s.trim_end_matches(c)]. *)
Definition trim_start (c : ascii) (s : str) : str := drop (count_while (Ascii.eqb c) s) s.
Definition trim_end (c : ascii) (s : str) : str := rev (trim_start c (rev s)).

(** [s.strip_suffix(pat)]. *)
Definition strip_suffix (pat s : str) : option str := (fun r => rev r) <$> strip_prefix (rev pat) (rev s).

(** [str::trim]: the characters with the property White_Space, by their UTF-8
    bytes. *)
Definition is_white_space (ch : str) : bool :=
  match ch with
  | [c] => ((9 <=? code c) && (code c <=? 13) || (code c =? 32))%N
  | [a; b] => ((code a =? 194) && ((code b =? 133) || (code b =? 160)))%N
  | [a; b; c] =>
      ((code a =? 225) && (code b =? 154) && (code c =? 128)
       || (code a =? 226) && (code b =? 128) && ((code c <=? 138) || (code c =? 168) || (code c =? 169) || (code c =? 175))
       || (code a =? 226) && (code b =? 129) && (code c =? 159)
       || (code a =? 227) && (code b =? 128) && (code c =? 128))%N
  | _ => false
  end.
Definition trim_chars (l : list str) : list str := drop (count_while is_white_space l) l.
Definition trim (s : str) : str := concat (rev (trim_chars (rev (trim_chars (chars s))))).

(** [str::split_whitespace], over the characters: the words, the one being read
    last. *)
Fixpoint words (cur : str) (l : list str) : list str :=
  match l with
  | [] => match cur with [] => [] | _ => [cur] end
  | ch :: l =>
      if is_white_space ch then match cur with [] => words [] l | _ => cur :: words [] l end
      else words (cur ++ ch) l
  end.
Definition split_whitespace (s : str) : list str := words [] (chars s).

(** [str::lines]: a line ends at a newline, whose carriage return goes with it. *)
Definition strip_cr (line : str) : str := default line (strip_suffix [cr] line).
Fixpoint lines_from (cur s : str) : list str :=
  match s with
  | [] => match cur with [] => [] | _ => [cur] end
  | c :: s => if Ascii.eqb c lf then strip_cr cur :: lines_from [] s else lines_from (cur ++ [c]) s
  end.
Definition lines (s : str) : list str := lines_from [] s.

(** ** Order *)

(** The byte order of [str], and [Vec::sort]. *)
Fixpoint str_leb (a b : str) : bool :=
  match a, b with
  | [], _ => true
  | _ :: _, [] => false
  | x :: a, y :: b => (code x <? code y)%N || ((code x =? code y)%N && str_leb a b)
  end.
Definition str_le (a b : str) : Prop := str_leb a b = true.
#[export] Instance str_le_dec : RelDecision str_le.
Proof. intros a b. unfold str_le. apply _. Defined.
Definition sort_strs (l : list str) : list str := merge_sort str_le l.
