(* ===== verification/RustStrFacts.v ===== *)
(** * RustStrFacts: lemmas on the string model of [RustStr]. *)

From stdpp Require Import sorting.
From S2P Require Import Prelude RustStr.

(** ** Reasoning by enumeration of the 256 bytes *)

Definition all_bytes : list ascii := ascii_of_N ∘ N.of_nat <$> seq 0 256.

Lemma all_bytes_complete c : In c all_bytes.
Proof.
  apply list_elem_of_In, list_elem_of_fmap. exists (N.to_nat (code c)). split.
  - simpl. unfold compose, code. rewrite N2Nat.id. by rewrite ascii_N_embedding.
  - apply elem_of_seq. pose proof (N_ascii_bounded c). unfold code. lia.
Qed.

Lemma by_bytes (P : ascii -> bool) : forallb P all_bytes = true -> forall c, P c = true.
Proof. intros H c. by apply (proj1 (forallb_forall _ _) H), all_bytes_complete. Qed.

Lemma by_bytes2 (P Q : ascii -> bool) :
  forallb (fun c => implb (P c) (Q c)) all_bytes = true ->
  forall c, P c = true -> Q c = true.
Proof. intros H c HP. pose proof (by_bytes _ H c) as HI. simpl in HI. by rewrite HP in HI. Qed.

Lemma is_ascii_not_cont c : is_ascii c = true -> is_cont c = false.
Proof.
  intros H. apply negb_true_iff. revert c H.
  apply (by_bytes2 is_ascii (fun c => negb (is_cont c))). vm_compute. reflexivity.
Qed.

Lemma utf8_width_pos c : 1 <= utf8_width c.
Proof. unfold utf8_width. cases; lia. Qed.

(** ** Encodings *)

Lemma valid_char_nonempty ch : valid_char ch = true -> 1 <= length ch.
Proof. destruct ch; simpl; [done|lia]. Qed.

(** A lead byte of a well-formed encoding announces its length and is followed
    by continuation bytes only. *)
Lemma valid_char_lead a ch :
  valid_char (a :: ch) = true ->
  utf8_width a = S (length ch) /\ is_cont a = false
  /\ Forall (fun c => is_cont c = true) ch.
Proof.
  assert (HR : forall lo hi b, in_range lo hi b = true ->
    (128 <=? code lo)%N = true -> (code hi <? 192)%N = true -> is_cont b = true).
  { intros lo hi b H ??. unfold in_range in H. unfold is_cont. bools; lia. }
  intros H. unfold utf8_width, is_cont at 1.
  destruct ch as [|b [|c [|d [|]]]]; simpl in H; try done; bools.
  - unfold is_ascii in H. rewrite H. split_and!; [done|lia|done].
  - unfold in_range in *. bools. change (code "194") with 194%N in *.
    change (code "223") with 223%N in *.
    destruct (code a <? 128)%N eqn:?; [lia|]. destruct (code a <? 224)%N eqn:?; [|lia].
    split_and!; [done|lia|by repeat constructor].
  - assert (Hab : (224 <=? code a)%N = true /\ (code a <? 240)%N = true /\ is_cont b = true).
    { repeat (apply orb_true_iff in H as [H|H]); bools; subst;
        try (split_and!; [done|done|]; by eapply HR).
      apply orb_true_iff in H as [H|H]; unfold in_range in H; bools;
        change (code "225") with 225%N in *; change (code "236") with 236%N in *;
        change (code "238") with 238%N in *; change (code "239") with 239%N in *;
        split_and!; done || lia. }
    destruct Hab as (?&?&?).
    destruct (code a <? 128)%N eqn:?; [lia|]. destruct (code a <? 224)%N eqn:?; [lia|].
    destruct (code a <? 240)%N eqn:?; [|lia].
    split_and!; [done|lia|by repeat constructor].
  - assert (Hab : (240 <=? code a)%N = true /\ is_cont b = true).
    { repeat match goal with H : _ || _ = true |- _ => apply orb_true_iff in H as [H|H] end;
        bools; subst; try (split_and!; [done|]; by eapply HR).
      match goal with H : in_range _ _ a = true |- _ => unfold in_range in H end. bools.
      change (code "241") with 241%N in *. split_and!; done || lia. }
    destruct Hab as (?&?).
    destruct (code a <? 128)%N eqn:?; [lia|]. destruct (code a <? 224)%N eqn:?; [lia|].
    destruct (code a <? 240)%N eqn:?; [lia|].
    split_and!; [done|lia|by repeat constructor].
Qed.

Lemma chars_char ch s : valid_char ch = true -> chars (ch ++ s) = ch :: chars s.
Proof.
  intros H. destruct ch as [|a ch]; [done|].
  destruct (valid_char_lead _ _ H) as (Hw & _ & _).
  destruct ch as [|b [|c [|d [|]]]]; simpl in H |- *; rewrite ?Hw; done.
Qed.

Lemma utf8_chars s : utf8 s -> Forall (fun ch => valid_char ch = true) (chars s).
Proof. induction 1; [constructor|]. rewrite chars_char by done. by constructor. Qed.

Lemma chars_concat s : utf8 s -> concat (chars s) = s.
Proof. induction 1; [done|]. rewrite chars_char by done. simpl. by f_equal. Qed.

Lemma utf8_app s1 s2 : utf8 s1 -> utf8 s2 -> utf8 (s1 ++ s2).
Proof. induction 1; [done|]. intros. rewrite <- app_assoc. constructor; auto. Qed.

Lemma utf8_cons_ascii c s : is_ascii c = true -> utf8 s -> utf8 (c :: s).
Proof. intros Hc Hs. by apply (utf8_char [c]). Qed.

Lemma utf8_inv c s :
  utf8 (c :: s) -> exists ch s', c :: s = ch ++ s' /\ valid_char ch = true /\ utf8 s'.
Proof. inversion 1; subst. eauto. Qed.

Lemma utf8_tail_ascii c s : is_ascii c = true -> utf8 (c :: s) -> utf8 s.
Proof.
  intros Hc H. destruct (utf8_inv _ _ H) as (ch & s' & E & Hv & Hs').
  destruct ch as [|a ch]; [done|]. simpl in E. injection E as -> ->.
  destruct (valid_char_lead _ _ Hv) as (Hw & _ & _).
  unfold utf8_width in Hw. unfold is_ascii in Hc. rewrite Hc in Hw.
  destruct ch; [done|]. simpl in Hw. lia.
Qed.

Lemma utf8_head_not_cont c s : utf8 (c :: s) -> is_cont c = false.
Proof.
  intros H. destruct (utf8_inv _ _ H) as (ch & s' & E & Hv & _).
  destruct ch as [|a ch]; [done|]. simpl in E. injection E as -> ->.
  by destruct (valid_char_lead _ _ Hv) as (_ & ? & _).
Qed.

(** The first character of a non-empty string, and what follows it. *)
Lemma first_char_spec s :
  utf8 s -> s <> [] ->
  exists ch s', first_char s = Some ch /\ s = ch ++ s' /\ valid_char ch = true /\ utf8 s'.
Proof.
  intros H Hne. destruct H as [|ch s' Hv Hs]; [done|].
  exists ch, s'. unfold first_char. rewrite chars_char by done. done.
Qed.

(** ** Character boundaries *)

Lemma boundary_utf8_drop s i :
  utf8 s -> i <= length s -> is_char_boundary s i = true -> utf8 (drop i s).
Proof.
  intros H. revert i. induction H as [|ch s Hv Hs IH]; intros i Hi Hb.
  { simpl in Hi. assert (i = 0) as -> by lia. constructor. }
  destruct i as [|i]; [by constructor|].
  destruct (decide (S i < length ch)) as [Hlt|Hge].
  - exfalso. destruct ch as [|a ch]; [simpl in Hlt; lia|].
    destruct (valid_char_lead _ _ Hv) as (_ & _ & Hc).
    unfold is_char_boundary in Hb. simpl in Hb, Hlt.
    rewrite lookup_app_l in Hb by lia.
    destruct (ch !! i) as [c|] eqn:E.
    + rewrite (Forall_lookup_1 _ _ _ _ Hc E) in Hb. done.
    + apply lookup_ge_None in E. lia.
  - rewrite drop_app_ge by lia. rewrite length_app in Hi.
    apply IH; [lia|]. unfold is_char_boundary in *.
    rewrite lookup_app_r in Hb by lia.
    destruct (S i - length ch) eqn:E; [done|].
    destruct (s !! S n); [done|]. bools. rewrite length_app in Hb.
    apply bool_decide_eq_true. lia.
Qed.

Lemma utf8_drop_boundary s i :
  i <= length s -> utf8 (drop i s) -> is_char_boundary s i = true.
Proof.
  intros Hi H. unfold is_char_boundary. destruct i as [|i]; [done|].
  destruct (s !! S i) as [c|] eqn:E.
  - rewrite (drop_S _ _ _ E) in H. apply utf8_head_not_cont in H. by rewrite H.
  - apply lookup_ge_None in E. apply bool_decide_eq_true. lia.
Qed.

(** A position where an ASCII byte stands, or the end, is a boundary. *)
Lemma boundary_at_ascii s i c :
  s !! i = Some c -> is_ascii c = true -> is_char_boundary s i = true.
Proof.
  intros E Hc. unfold is_char_boundary. destruct i; [done|].
  by rewrite E, (is_ascii_not_cont _ Hc).
Qed.

Lemma boundary_at_end s : is_char_boundary s (length s) = true.
Proof.
  unfold is_char_boundary. destruct (length s) as [|n] eqn:E; [done|].
  rewrite (proj2 (lookup_ge_None s (S n))) by lia. by apply bool_decide_eq_true.
Qed.

(** The position after an ASCII byte that stands at a boundary is a boundary. *)
Lemma boundary_after_ascii s i c :
  utf8 s -> is_char_boundary s i = true -> s !! i = Some c -> is_ascii c = true ->
  is_char_boundary s (S i) = true.
Proof.
  intros Hs Hb E Hc. pose proof (lookup_lt_Some _ _ _ E).
  apply utf8_drop_boundary; [lia|].
  apply (utf8_tail_ascii c); [done|]. rewrite <- (drop_S _ _ _ E).
  apply boundary_utf8_drop; [done|lia|done].
Qed.

Lemma slice_ok s a b :
  a <= b -> b <= length s -> is_char_boundary s a = true -> is_char_boundary s b = true ->
  slice s a b = Some (take (b - a) (drop a s)).
Proof.
  intros. unfold slice. rewrite !bool_decide_eq_true_2 by done.
  by match goal with H : is_char_boundary s a = true, H' : is_char_boundary s b = true |- _ =>
    rewrite H, H' end.
Qed.

Lemma slice_Some s a b t :
  slice s a b = Some t ->
  a <= b /\ b <= length s /\ is_char_boundary s a = true
  /\ is_char_boundary s b = true /\ t = take (b - a) (drop a s).
Proof. unfold slice. case_match; [|done]. bools. intros [= <-]. done. Qed.

Lemma utf8_prefix s1 s2 : utf8 (s1 ++ s2) -> utf8 s2 -> utf8 s1.
Proof.
  intros H. remember (s1 ++ s2) as s eqn:E. revert s1 s2 E.
  induction H as [|ch s Hv Hs IH]; intros s1 s2 E H2.
  { symmetry in E. apply app_eq_nil in E as [-> _]. constructor. }
  destruct (app_eq_inv _ _ _ _ E) as [(k & -> & ->)|(k & -> & ->)].
  - destruct k as [|c k].
    + rewrite app_nil_r in *. rewrite <- (app_nil_r s1). constructor; [done|constructor].
    + destruct s1 as [|a s1]; [constructor|]. exfalso. simpl in Hv.
      destruct (valid_char_lead _ _ Hv) as (_ & _ & Hc).
      apply Forall_app in Hc as [_ Hc]. inversion Hc as [|?? Hcc _]; subst.
      simpl in H2. apply utf8_head_not_cont in H2. congruence.
  - constructor; [done|]. by apply (IH k s2).
Qed.

Lemma slice_utf8 s a b t : utf8 s -> slice s a b = Some t -> utf8 t.
Proof.
  intros Hs H. apply slice_Some in H as (Hab & Hb & Ba & Bb & ->).
  apply (utf8_prefix _ (drop b s)).
  - replace (drop b s) with (drop (b - a) (drop a s)).
    + rewrite take_drop. apply boundary_utf8_drop; [done|lia|done].
    + rewrite drop_drop. f_equal. lia.
  - apply boundary_utf8_drop; done.
Qed.

(** ** Characters of ASCII strings *)

Lemma chars_ascii s :
  forallb is_ascii s = true -> chars s = (fun c => [c]) <$> s.
Proof.
  induction s as [|c s IH]; simpl; [done|]. intros H. bools.
  unfold utf8_width. unfold is_ascii in *. rewrite H. by rewrite IH.
Qed.

Lemma utf8_ascii s : forallb is_ascii s = true -> utf8 s.
Proof.
  induction s as [|c s IH]; simpl; [constructor|]. intros H. bools.
  apply utf8_cons_ascii; auto.
Qed.

(** Whatever the bytes are, reading them leniently gives text. *)
Lemma lossy_utf8 s : utf8 (from_utf8_lossy s).
Proof.
  assert (Hr : forall t, utf8 t -> utf8 (replacement ++ t)) by (intros t Ht; apply (utf8_char replacement t); [reflexivity|done]).
  assert (Hn : utf8 replacement) by (rewrite <- (app_nil_r replacement); apply Hr; constructor).
  remember (length s) as n eqn:En. revert s En. induction (lt_wf n) as [n _ IH]. intros [|a s1] ->; [constructor|].
  assert (IH' : forall t, length t <= length s1 -> utf8 (from_utf8_lossy t)) by (intros t Ht; apply (IH (length t)); [cbn; lia|done]).
  cbn [from_utf8_lossy]. destruct (is_ascii a) eqn:Ha; [by apply utf8_cons_ascii; [|apply IH'; lia]|].
  destruct s1 as [|b s2]; [done|]. destruct (in_range "194" "223" a && is_cont b) eqn:H2.
  { apply (utf8_char [a; b]); [exact H2|]. apply IH'. cbn. lia. }
  destruct (lead3 a b) eqn:H3; [|destruct (lead4 a b) eqn:H4; [|apply Hr, IH'; lia]].
  - destruct s2 as [|c s3]; [done|]. destruct (is_cont c) eqn:Hc; [|apply Hr, IH'; cbn; lia].
    apply (utf8_char [a; b; c]); [|apply IH'; cbn; lia]. cbn [valid_char]. unfold lead3 in H3. by rewrite H3, Hc.
  - destruct s2 as [|c s3]; [done|]. destruct (is_cont c) eqn:Hc; [|apply Hr, IH'; cbn; lia].
    destruct s3 as [|d s4]; [done|]. destruct (is_cont d) eqn:Hd; [|apply Hr, IH'; cbn; lia].
    apply (utf8_char [a; b; c; d]); [|apply IH'; cbn; lia]. cbn [valid_char]. unfold lead4 in H4. by rewrite H4, Hc, Hd.
Qed.


Lemma char_is_ascii p c : char_is p [c] = is_ascii c && p c.
Proof. done. Qed.

(** Checking every character with an ASCII predicate is checking every byte. *)
Lemma forallb_chars (p : ascii -> bool) s :
  utf8 s -> forallb (char_is p) (chars s) = forallb (fun c => is_ascii c && p c) s.
Proof.
  induction 1 as [|ch s Hv Hs IH]; [done|].
  rewrite chars_char by done. simpl. rewrite IH, forallb_app. f_equal.
  destruct ch as [|a ch]; [done|]. destruct ch as [|b ch]; [by simpl; rewrite andb_true_r|].
  destruct (valid_char_lead _ _ Hv) as (Hw & _ & _).
  simpl. unfold utf8_width in Hw. unfold is_ascii.
  destruct (code a <? 128)%N; [simpl in Hw; lia|done].
Qed.

Lemma indices_from_app i l1 l2 :
  indices_from i (l1 ++ l2) =
  indices_from i l1 ++ indices_from (i + length (concat l1)) l2.
Proof.
  revert i. induction l1 as [|ch l1 IH]; intros i; simpl; [by rewrite Nat.add_0_r|].
  rewrite IH, length_app. by rewrite Nat.add_assoc.
Qed.

Lemma indices_from_snd i l : (indices_from i l).*2 = l.
Proof. revert i. induction l as [|ch l IH]; intros i; simpl; [done|]. by rewrite IH. Qed.

(** An index produced by [char_indices] points into the string. *)
Lemma char_indices_lt s i ch :
  utf8 s -> (i, ch) ∈ char_indices s -> i < length s /\ is_char_boundary s i = true.
Proof.
  intros H Hin. unfold char_indices in Hin.
  apply list_elem_of_split in Hin as (l1 & l2 & E).
  pose proof (chars_concat _ H) as HC. pose proof (utf8_chars _ H) as HV.
  pose proof (indices_from_snd 0 (chars s)) as Hs. rewrite E in Hs.
  rewrite fmap_app, fmap_cons in Hs. simpl in Hs.
  rewrite <- Hs in HC, HV, E. rewrite indices_from_app in E.
  apply app_inj_1 in E as [_ E].
  2:{ by rewrite <- (length_fmap snd (indices_from _ _)), indices_from_snd, length_fmap. }
  simpl in E. injection E as Ei _. apply Forall_app in HV as [HV1 HV2].
  inversion HV2 as [|? ? Hch HV3]; subst.
  assert (Hu : forall l, Forall (fun ch => valid_char ch = true) l -> utf8 (concat l)).
  { induction 1; simpl; constructor; done. }
  rewrite concat_app. rewrite length_app. simpl. rewrite length_app.
  pose proof (valid_char_nonempty _ Hch). split; [lia|].
  apply utf8_drop_boundary; [rewrite !length_app; lia|].
  rewrite drop_app_length'; [|done]. apply (Hu (ch :: l2.*2)). by constructor.
Qed.

(** ** Searching *)

Lemma find_byte_Some c s i :
  find_byte c s = Some i -> s !! i = Some c /\ c ∉ take i s.
Proof.
  revert i. induction s as [|a s IH]; intros i; simpl; [done|].
  destruct (Ascii.eqb_spec a c) as [->|Hne].
  - intros [= <-]. split; [done|]. simpl. apply not_elem_of_nil.
  - destruct (find_byte c s) as [j|]; simpl; [|done]. intros [= <-].
    destruct (IH j eq_refl) as [H1 H2]. split; [done|]. simpl.
    rewrite not_elem_of_cons. done.
Qed.

Lemma find_byte_None c s : find_byte c s = None <-> c ∉ s.
Proof.
  induction s as [|a s IH]; simpl; [by split; [intros _; apply not_elem_of_nil|]|].
  rewrite not_elem_of_cons. destruct (Ascii.eqb_spec a c) as [->|Hne].
  - split; [done|]. by intros [? _].
  - rewrite fmap_None, IH. intuition congruence.
Qed.

Lemma find_byte_lt c s i : find_byte c s = Some i -> i < length s.
Proof. intros H. apply find_byte_Some in H as [H _]. by apply lookup_lt_Some in H. Qed.

Lemma rfind_byte_None c s : rfind_byte c s = None <-> c ∉ s.
Proof.
  induction s as [|a s IH]; simpl; [by split; [intros _; apply not_elem_of_nil|]|].
  rewrite not_elem_of_cons. destruct (rfind_byte c s) as [j|].
  - split; [done|]. intros [_ H]. by apply IH in H.
  - destruct (Ascii.eqb_spec a c) as [->|Hne]; [naive_solver|].
    split; [|done]. intros _. split; [congruence|]. by apply IH.
Qed.

Lemma rfind_byte_Some c s i :
  rfind_byte c s = Some i -> s !! i = Some c /\ c ∉ drop (S i) s.
Proof.
  revert i. induction s as [|a s IH]; intros i; simpl; [done|].
  destruct (rfind_byte c s) as [j|] eqn:E.
  - intros [= <-]. by apply IH.
  - destruct (Ascii.eqb_spec a c) as [->|Hne]; [|done]. intros [= <-]. split; [done|].
    simpl. rewrite drop_0. by apply rfind_byte_None.
Qed.

Lemma rfind_byte_lt c s i : rfind_byte c s = Some i -> i < length s.
Proof. intros H. apply rfind_byte_Some in H as [H _]. by apply lookup_lt_Some in H. Qed.

Lemma contains_byte_spec c s : contains_byte c s = true <-> c ∈ s.
Proof.
  unfold contains_byte. rewrite existsb_exists. split.
  - intros (x & Hx & E). apply Ascii.eqb_eq in E as ->. by apply list_elem_of_In.
  - intros H. exists c. split; [by apply list_elem_of_In|]. apply Ascii.eqb_refl.
Qed.

Lemma contains_byte_false c s : contains_byte c s = false <-> c ∉ s.
Proof. rewrite <- contains_byte_spec. destruct (contains_byte c s); naive_solver. Qed.

Lemma strip_prefix_spec pre s t : strip_prefix pre s = Some t <-> s = pre ++ t.
Proof.
  revert s. induction pre as [|a pre IH]; intros s; simpl; [naive_solver|].
  destruct s as [|b s]; [naive_solver|].
  destruct (Ascii.eqb_spec a b) as [->|Hne]; [rewrite IH|]; naive_solver.
Qed.

Lemma starts_with_spec pre s : starts_with pre s = true <-> exists t, s = pre ++ t.
Proof.
  unfold starts_with. destruct (strip_prefix pre s) as [t|] eqn:E.
  - apply strip_prefix_spec in E. naive_solver.
  - split; [done|]. intros [t ->].
    rewrite (proj2 (strip_prefix_spec pre (pre ++ t) t)) in E; done.
Qed.

(** [split] cuts the string at every separator and nowhere else. *)
Lemma split_nonempty c s : split c s <> [].
Proof.
  destruct s as [|a s]; simpl; [done|]. destruct (Ascii.eqb a c); [done|].
  by destruct (split c s).
Qed.

Lemma split_no_sep c s : c ∉ s -> split c s = [s].
Proof.
  induction s as [|a s IH]; simpl; [done|]. rewrite not_elem_of_cons. intros [Hne Hs].
  destruct (Ascii.eqb_spec a c) as [->|]; [done|]. by rewrite IH.
Qed.

Lemma split_app c s1 s2 : c ∉ s1 -> split c (s1 ++ c :: s2) = s1 :: split c s2.
Proof.
  induction s1 as [|a s1 IH]; simpl.
  - intros _. by rewrite Ascii.eqb_refl.
  - rewrite not_elem_of_cons. intros [Hne Hs].
    destruct (Ascii.eqb_spec a c) as [->|]; [done|]. by rewrite IH.
Qed.

#[export] Hint Resolve utf8_nil utf8_app utf8_ascii boundary_at_end : umf.

Lemma utf8_app_ascii c s1 s2 :
  is_ascii c = true -> utf8 (s1 ++ c :: s2) -> utf8 s1 /\ utf8 s2.
Proof.
  intros Hc Hu. assert (utf8 (c :: s2)) as H2.
  { rewrite <- (drop_app_length s1 (c :: s2)). apply boundary_utf8_drop; [done| |].
    - rewrite length_app. lia.
    - apply (boundary_at_ascii _ _ c); [|done]. by apply list_lookup_middle. }
  split; [by apply (utf8_prefix _ (c :: s2))|by apply utf8_tail_ascii in H2].
Qed.

Lemma split_find c s :
  split c s = match find_byte c s with
              | Some i => take i s :: split c (drop (S i) s)
              | None => [s]
              end.
Proof.
  destruct (find_byte c s) as [i|] eqn:E; [|by apply split_no_sep, find_byte_None].
  apply find_byte_Some in E as [E Hn].
  rewrite <- (take_drop i s) at 1. rewrite (drop_S _ _ _ E). by apply split_app.
Qed.

Lemma find_byte_app c s1 s2 : c ∉ s1 -> find_byte c (s1 ++ c :: s2) = Some (length s1).
Proof.
  induction s1 as [|a s1 IH]; simpl; [by rewrite Ascii.eqb_refl|].
  rewrite not_elem_of_cons. intros [Hne Hs].
  destruct (Ascii.eqb_spec a c) as [->|]; [done|]. by rewrite IH.
Qed.

Lemma split_once_app c a b : c ∉ a -> split_once c (a ++ c :: b) = Some (a, b).
Proof.
  intros H. unfold split_once. rewrite find_byte_app by done. f_equal. f_equal; [apply take_app_length|].
  rewrite drop_app_ge by lia. by replace (S (length a) - length a)%nat with 1%nat by lia.
Qed.

Lemma strip_suffix_app pre suf : strip_suffix suf (pre ++ suf) = Some pre.
Proof.
  unfold strip_suffix. rewrite rev_app_distr.
  assert (H : strip_prefix (rev suf) (rev suf ++ rev pre) = Some (rev pre)) by by apply strip_prefix_spec.
  rewrite H. cbn. by rewrite rev_involutive.
Qed.

Lemma ascii_not_in (p : ascii -> bool) c s : p c = false -> forallb p s = true -> c ∉ s.
Proof.
  intros Hc HF Hin. rewrite forallb_forall in HF.
  rewrite (HF c) in Hc; [done|]. by apply list_elem_of_In.
Qed.

(** ** Order *)

Lemma sort_strs_Permutation l : sort_strs l ≡ₚ l.
Proof. apply merge_sort_Permutation. Qed.

Lemma sort_strs_Forall (Q : str -> Prop) l : Forall Q l -> Forall Q (sort_strs l).
Proof. by rewrite sort_strs_Permutation. Qed.

#[export] Instance str_le_total : Total str_le.
Proof.
  unfold str_le. intros a. induction a as [|x a IH]; intros [|y b]; simpl; auto.
  destruct (N.lt_trichotomy (code x) (code y)) as [H|[H|H]].
  - left. apply N.ltb_lt in H. by rewrite H.
  - rewrite H, N.eqb_refl, !orb_true_iff, !andb_true_iff. destruct (IH b); [left|right]; right; done.
  - right. apply N.ltb_lt in H. by rewrite H.
Qed.

#[export] Instance str_le_trans : Transitive str_le.
Proof.
  unfold str_le. intros a. induction a as [|x a IH]; intros [|y b] [|z c]; simpl; try done.
  rewrite !orb_true_iff, !andb_true_iff, !N.ltb_lt, !N.eqb_eq. intros [H|[H H']] [K|[K K']]; [left; lia..|].
  right. split; [lia|]. eauto.
Qed.

#[export] Instance str_le_antisymm : AntiSymm (=) str_le.
Proof.
  unfold str_le. intros a. induction a as [|x a IH]; intros [|y b]; simpl; try done.
  rewrite !orb_true_iff, !andb_true_iff, !N.ltb_lt, !N.eqb_eq. intros [H|[H H']] [K|[K K']]; try lia.
  f_equal; [|by apply IH]. unfold code in H. rewrite <- (ascii_N_embedding x), H. apply ascii_N_embedding.
Qed.

Lemma sort_strs_sorted l : StronglySorted str_le (sort_strs l).
Proof. apply (StronglySorted_merge_sort str_le l). Qed.

(** Sorting forgets the order of its input. *)
Lemma sort_strs_perm l l' : l ≡ₚ l' -> sort_strs l = sort_strs l'.
Proof.
  intros H. apply (StronglySorted_unique str_le); [apply sort_strs_sorted..|]. by rewrite !sort_strs_Permutation.
Qed.

(** ** A text for the values of a countable type: the digits of their codes *)

Fixpoint bits (p : positive) : str := match p with xH => [] | xO p => "0"%char :: bits p | xI p => "1"%char :: bits p end.
Fixpoint of_bits (s : str) : positive :=
  match s with [] => xH | c :: s => if Ascii.eqb c "0" then xO (of_bits s) else xI (of_bits s) end.
Lemma of_bits_bits p : of_bits (bits p) = p.
Proof. induction p as [p IH|p IH|]; cbn; by rewrite ?IH. Qed.

Definition code_text `{Countable A} (a : A) : str := bits (encode a).
Definition of_code_text `{Countable A} (s : str) : option A := decode (of_bits s).
Lemma code_text_roundtrip `{Countable A} (a : A) : of_code_text (code_text a) = Some a.
Proof. unfold of_code_text, code_text. by rewrite of_bits_bits, decode_encode. Qed.
