(* ===== verification/Subst.v ===== *)
(** * Subst: build-time [${NAME}] / [$NAME] expansion
    (crates/umf-core/src/subst.rs). *)

From Equations Require Import Equations.
From S2P Require Import Prelude RustStr RustStrFacts.

(** ** The code *)

Definition is_name_start (c : str) : bool :=
  char_is (fun b => Ascii.eqb b "_" || is_ascii_alphabetic b) c.

Definition is_name_continue (c : str) : bool :=
  char_is (fun b => Ascii.eqb b "_" || is_ascii_alphanumeric b) c.

Definition is_valid_name (name : str) : bool :=
  match chars name with
  | c :: rest => is_name_start c && forallb is_name_continue rest
  | [] => false
  end.

(** The [${NAME}] scan: the text up to the closing brace, whether a brace was
    found, and the characters left. *)
Fixpoint scan_braced (l : list str) : str * bool * list str :=
  match l with
  | [] => ([], false, [])
  | nc :: l' =>
      if decide (nc = "}") then ([], true, l')
      else let r := scan_braced l' in (nc ++ r.1.1, r.1.2, r.2)
  end.

(** The [$NAME] scan: the longest run of name characters. *)
Fixpoint scan_name (l : list str) : str * list str :=
  match l with
  | [] => ([], [])
  | nc :: l' =>
      if is_name_continue nc then let r := scan_name l' in (nc ++ r.1, r.2)
      else ([], l)
  end.

Section substitute.
Variable lookup : str -> option str.

(** What replaces [${name}] and [$name]. *)
Definition expand_braced (name : str) (closed : bool) : str :=
  match lookup name with
  | Some val =>
      if closed && is_valid_name name then val
      else "${" ++ name ++ (if closed then "}" else "")
  | None => "${" ++ name ++ (if closed then "}" else "")
  end.

Definition expand_bare (name : str) : str :=
  match lookup name with Some val => val | None => "$" ++ name end.

Lemma scan_braced_shorter l : length (scan_braced l).2 <= length l.
Proof. induction l as [|c l IH]; simpl; [lia|]. case_decide; simpl; lia. Qed.

Lemma scan_name_shorter l : length (scan_name l).2 <= length l.
Proof. induction l as [|c l IH]; simpl; [lia|]. case_match; simpl; lia. Qed.

Equations? subst_chars (l : list str) : str by wf (length l) lt :=
  subst_chars [] := [];
  subst_chars [c] := c;
  subst_chars (c :: c2 :: l2) :=
    if decide (c <> "$") then c ++ subst_chars (c2 :: l2)
    else if decide (c2 = "{") then
      expand_braced (scan_braced l2).1.1 (scan_braced l2).1.2
      ++ subst_chars (scan_braced l2).2
    else if is_name_start c2 then
      expand_bare (scan_name (c2 :: l2)).1 ++ subst_chars (scan_name (c2 :: l2)).2
    else "$" ++ subst_chars (c2 :: l2).
Proof.
  - simpl. lia.
  - pose proof (scan_braced_shorter l2). simpl. lia.
  - pose proof (scan_name_shorter (c2 :: l2)). simpl in *. lia.
  - simpl. lia.
Qed.

Definition substitute (input : str) : str :=
  if negb (contains_byte "$" input) then input else subst_chars (chars input).
End substitute.

Fixpoint contains_placeholder_chars (l : list str) : bool :=
  match l with
  | [] => false
  | c :: l' =>
      match l' with
      | next :: _ =>
          (bool_decide (c = "$") && (bool_decide (next = "{") || is_name_start next))
          || contains_placeholder_chars l'
      | [] => false
      end
  end.

Definition contains_placeholder (input : str) : bool :=
  contains_placeholder_chars (chars input).

Example substitute_ex :
  substitute (fun n => if decide (n = "VER") then Some ("1.0" : str) else None)
    "a-${VER} $VER $VERSION $(date) ${VER" = "a-1.0 1.0 $VERSION $(date) ${VER".
Proof. vm_compute. reflexivity. Qed.

(** ** What expansion means

    A declarative semantics on bytes, independent of the scanning loops. *)

Definition name_start_byte (b : ascii) : bool := Ascii.eqb b "_" || is_ascii_alphabetic b.
Definition name_byte (b : ascii) : bool := Ascii.eqb b "_" || is_ascii_alphanumeric b.

(** [[A-Za-z_][A-Za-z0-9_]*] *)
Definition identifier (name : str) : bool :=
  match name with c :: r => name_start_byte c && forallb name_byte r | [] => false end.

Definition starts_in (p : ascii -> bool) (s : str) : bool :=
  match s with c :: _ => p c | [] => false end.

Inductive expands (f : str -> option str) : str -> str -> Prop :=
| exp_nil : expands f [] []
| exp_literal c s t :
    c <> "$"%char -> expands f s t -> expands f (c :: s) (c :: t)
| exp_dollar s t :
    starts_in (fun c => Ascii.eqb c "{" || name_start_byte c) s = false ->
    expands f s t -> expands f ("$"%char :: s) ("$"%char :: t)
| exp_braced name s t :
    "}"%char ∉ name -> expands f s t ->
    expands f ("${" ++ name ++ "}" ++ s)
      (match f name with
       | Some v => if identifier name then v else "${" ++ name ++ "}"
       | None => "${" ++ name ++ "}"
       end ++ t)
| exp_unclosed name : "}"%char ∉ name -> expands f ("${" ++ name) ("${" ++ name)
| exp_bare name s t :
    identifier name = true -> starts_in name_byte s = false -> expands f s t ->
    expands f ("$" ++ name ++ s) (default ("$" ++ name) (f name) ++ t).

(** ** Lemmas *)

Definition valid_chars (l : list str) : Prop := Forall (fun ch => valid_char ch = true) l.

Lemma valid_chars_utf8 l : valid_chars l -> utf8 (concat l).
Proof. induction 1; simpl; by constructor. Qed.

Lemma valid_chars_concat l : valid_chars l -> chars (concat l) = l.
Proof. induction 1; simpl; [done|]. rewrite chars_char by done. by f_equal. Qed.

(** A one-byte character is that byte; the bytes of a longer one are not ASCII. *)
Lemma valid_char_cases ch :
  valid_char ch = true ->
  (exists c, ch = [c] /\ is_ascii c = true) \/ Forall (fun c => is_ascii c = false) ch.
Proof.
  intros H. destruct ch as [|a ch]; [done|]. destruct ch as [|b ch]; [left; eauto|right].
  destruct (valid_char_lead _ _ H) as (Hw & _ & Hc). constructor.
  - unfold utf8_width in Hw. unfold is_ascii. destruct (code a <? 128)%N; [simpl in Hw; lia|done].
  - eapply Forall_impl; [exact Hc|]. intros c Hcc. unfold is_cont in Hcc. unfold is_ascii. lia.
Qed.

Lemma valid_char_single ch c :
  valid_char ch = true -> c ∈ ch -> is_ascii c = true -> ch = [c].
Proof.
  intros Hv Hin Hc. destruct (valid_char_cases _ Hv) as [(d & -> & _)|HF].
  - by apply list_elem_of_singleton in Hin as ->.
  - rewrite Forall_forall in HF. rewrite (HF _ Hin) in Hc. done.
Qed.

Lemma starts_in_chars (p : ascii -> bool) ch s :
  valid_char ch = true -> (forall c, p c = true -> is_ascii c = true) ->
  starts_in p (ch ++ s) = char_is p ch.
Proof.
  intros Hv Hp. destruct (valid_char_cases _ Hv) as [(c & -> & Hc)|HF]; simpl.
  - by rewrite Hc.
  - destruct ch as [|a ch]; [done|]. inversion HF as [|?? Ha _]; subst.
    assert (p a = false) as Hpa.
    { destruct (p a) eqn:E; [|done]. rewrite (Hp _ E) in Ha. done. }
    simpl. rewrite Hpa. destruct ch; [by rewrite Ha|done].
Qed.

Lemma name_byte_ascii c : name_byte c = true -> is_ascii c = true.
Proof. revert c. apply (by_bytes2 name_byte is_ascii). vm_compute. reflexivity. Qed.

Lemma name_start_name c : name_start_byte c = true -> name_byte c = true.
Proof. revert c. apply (by_bytes2 name_start_byte name_byte). vm_compute. reflexivity. Qed.

Lemma is_valid_name_identifier name : utf8 name -> is_valid_name name = identifier name.
Proof.
  intros H. unfold is_valid_name, identifier.
  destruct H as [|ch s Hv Hs]; [done|]. rewrite chars_char by done.
  destruct (valid_char_cases _ Hv) as [(c & -> & Hc)|HF].
  - simpl. unfold is_name_start. simpl. rewrite Hc. simpl. f_equal.
    unfold is_name_continue. rewrite forallb_chars by done.
    apply forallb_eq. intros c'. fold (name_byte c').
    destruct (name_byte c') eqn:E; [by rewrite (name_byte_ascii _ E)|by rewrite andb_false_r].
  - destruct ch as [|a [|b ch]]; [done| |];
      inversion HF as [|?? Ha _]; subst; simpl; unfold is_name_start; simpl; rewrite ?Ha; simpl.
    all: destruct (name_start_byte a) eqn:E; [|done];
      apply name_start_name, name_byte_ascii in E; congruence.
Qed.

Lemma scan_braced_spec l :
  valid_chars l ->
  let '(name, closed, rest) := scan_braced l in
  concat l = name ++ (if closed then "}" ++ concat rest else [])
  /\ ("}"%char ∉ name) /\ utf8 name /\ valid_chars rest /\ (closed = false -> rest = []).
Proof.
  induction 1 as [|ch l Hv Hl IH]; simpl.
  { split_and!; [done|apply not_elem_of_nil|constructor|constructor|done]. }
  case_decide as Hd; simpl.
  { subst. split_and!; [done|apply not_elem_of_nil|constructor|done|done]. }
  destruct (scan_braced l) as [[name closed] rest]. simpl.
  destruct IH as (E & Hn & Hu & Hr & Hc). split_and!; try done.
  - by rewrite E, app_assoc.
  - rewrite not_elem_of_app. split; [|done]. intros Hin. apply Hd.
    by apply (valid_char_single ch).
  - apply utf8_app; [|done]. rewrite <- (app_nil_r ch). by constructor; [|constructor].
Qed.

Lemma scan_name_spec l :
  valid_chars l ->
  let '(name, rest) := scan_name l in
  concat l = name ++ concat rest /\ forallb name_byte name = true
  /\ starts_in name_byte (concat rest) = false /\ valid_chars rest.
Proof.
  induction 1 as [|ch l Hv Hl IH]; simpl; [by split_and!; try constructor|].
  destruct (is_name_continue ch) eqn:E; simpl.
  - destruct (scan_name l) as [name rest]. simpl. destruct IH as (E1 & E2 & E3 & E4).
    unfold is_name_continue, char_is in E. destruct ch as [|c [|]]; try done. bools.
    split_and!; [by simpl; rewrite E1| |done|done]. by simpl; apply andb_true_iff.
  - split_and!; [done|done| |by constructor].
    rewrite (starts_in_chars name_byte ch); [|done|apply name_byte_ascii]. exact E.
Qed.

Lemma expands_literal_char f ch s t :
  "$"%char ∉ ch -> expands f s t -> expands f (ch ++ s) (ch ++ t).
Proof.
  induction ch as [|c ch IH]; simpl; [done|]. rewrite not_elem_of_cons. intros [? ?] ?.
  constructor; [congruence|auto].
Qed.

Lemma dollar_char ch : valid_char ch = true -> ch <> "$" -> "$"%char ∉ ch.
Proof. intros Hv Hne Hin. apply Hne. by apply (valid_char_single ch). Qed.

Lemma expands_braced_tail f l t :
  valid_chars l ->
  (valid_chars (scan_braced l).2 -> expands f (concat (scan_braced l).2) t) ->
  ((scan_braced l).1.2 = false -> t = []) ->
  expands f ("${" ++ concat l) (expand_braced f (scan_braced l).1.1 (scan_braced l).1.2 ++ t).
Proof.
  intros HV Ht Hnil. pose proof (scan_braced_spec l HV) as Hs.
  destruct (scan_braced l) as [[name closed] rest]. simpl in *.
  destruct Hs as (-> & Hn & Hu & Hr & Hc). unfold expand_braced.
  rewrite is_valid_name_identifier by done. destruct closed; simpl.
  - assert (expands f (concat rest) t) as H by auto.
    apply (exp_braced f name _ _ Hn) in H. exact H.
  - rewrite Hnil by done. destruct (f name); rewrite !app_nil_r; by apply exp_unclosed.
Qed.

Lemma expands_bare_tail f c2 l t :
  valid_chars (c2 :: l) -> is_name_start c2 = true ->
  (valid_chars (scan_name (c2 :: l)).2 -> expands f (concat (scan_name (c2 :: l)).2) t) ->
  expands f ("$" ++ concat (c2 :: l)) (expand_bare f (scan_name (c2 :: l)).1 ++ t).
Proof.
  intros HV Hs Ht. pose proof (scan_name_spec _ HV) as Hn.
  destruct (scan_name (c2 :: l)) as [name rest] eqn:E. simpl in Ht, Hn |- *.
  destruct Hn as (-> & Hall & Hstop & Hr).
  unfold is_name_start, char_is in Hs. destruct c2 as [|c [|]]; try done. bools.
  apply (exp_bare f name (concat rest) t); [|done|auto].
  simpl in E. unfold is_name_continue in E. simpl in E. fold (name_byte c) in E.
  rewrite (name_start_name c) in E by done. rewrite H in E. simpl in E.
  injection E as <- _. simpl in Hall |- *. by bools.
Qed.

Lemma subst_chars_nil f : subst_chars f [] = [].
Proof. by simp subst_chars. Qed.

Lemma subst_chars_expands f l :
  valid_chars l -> expands f (concat l) (subst_chars f l).
Proof.
  funelim (subst_chars f l); intros HV.
  - constructor.
  - inversion HV as [|?? Hv _]; subst. simpl. rewrite app_nil_r.
    destruct (decide (c = "$")) as [->|Hne]; [by apply exp_dollar; [|constructor]|].
    rewrite <- (app_nil_r c). apply expands_literal_char; [by apply dollar_char|constructor].
  - inversion HV as [|?? Hv HV2]; subst. inversion HV2 as [|?? Hv2 HV3]; subst.
    simpl concat. case_decide as Hc.
    { apply expands_literal_char; [by apply dollar_char|auto]. }
    assert (c = "$") as -> by (destruct (decide (c = "$")); [done|exfalso; eauto]).
    case_decide as Hb; [subst c2|].
    { apply expands_braced_tail; [done|auto|]. intros Hf.
      pose proof (scan_braced_spec l2 HV3) as Hs.
      destruct (scan_braced l2) as [[n cl] r]. simpl in *.
      destruct Hs as (_&_&_&_&Hnil). rewrite Hnil by done. apply subst_chars_nil. }
    destruct (is_name_start c2) eqn:En; [by apply (expands_bare_tail f c2 l2); auto|].
    apply exp_dollar; [|auto].
    rewrite (starts_in_chars (fun c => Ascii.eqb c "{" || name_start_byte c)); [|done|].
    + unfold is_name_start, char_is in En. unfold char_is. destruct c2 as [|c [|]]; try done.
      fold (name_start_byte c) in En. destruct (Ascii.eqb_spec c "{") as [->|]; [done|exact En].
    + apply (by_bytes2 (fun c => Ascii.eqb c "{" || name_start_byte c) is_ascii).
      vm_compute. reflexivity.
Qed.

Lemma substitute_expands f s : utf8 s -> expands f s (substitute f s).
Proof.
  intros H. unfold substitute. destruct (contains_byte "$" s) eqn:E; simpl.
  - rewrite <- (chars_concat s H) at 1. apply subst_chars_expands. by apply utf8_chars.
  - apply contains_byte_false in E. rewrite <- (app_nil_r s).
    apply expands_literal_char; [done|constructor].
Qed.

(** The declarative rules are deterministic. *)
Lemma split_at_unique (c : ascii) a1 b1 a2 b2 :
  c ∉ a1 -> c ∉ a2 -> a1 ++ c :: b1 = a2 ++ c :: b2 -> a1 = a2 /\ b1 = b2.
Proof.
  revert a2. induction a1 as [|x a1 IH]; intros [|y a2] H1 H2 E; simpl in E; simplify_eq.
  - done.
  - rewrite not_elem_of_cons in H2. naive_solver.
  - rewrite not_elem_of_cons in H1. naive_solver.
  - rewrite not_elem_of_cons in H1, H2. destruct (IH a2) as [-> ->]; naive_solver.
Qed.

Lemma run_unique (p : ascii -> bool) a1 b1 a2 b2 :
  forallb p a1 = true -> forallb p a2 = true ->
  starts_in p b1 = false -> starts_in p b2 = false ->
  a1 ++ b1 = a2 ++ b2 -> a1 = a2 /\ b1 = b2.
Proof.
  revert a2. induction a1 as [|x a1 IH]; intros [|y a2] H1 H2 S1 S2 E; simpl in *;
    bools; subst; simpl in *; try congruence.
  - done.
  - injection E as -> E. destruct (IH a2) as [-> ->]; auto.
Qed.

Lemma identifier_names name : identifier name = true -> forallb name_byte name = true.
Proof.
  destruct name as [|c r]; simpl; [done|]. intros H. bools; [by apply name_start_name|done].
Qed.

Lemma identifier_start name s :
  identifier name = true ->
  starts_in (fun c => Ascii.eqb c "{" || name_start_byte c) (name ++ s) = true
  /\ starts_in (fun c => Ascii.eqb c "{") (name ++ s) = false.
Proof.
  destruct name as [|c r]; simpl; [done|]. intros H. bools. rewrite H, orb_true_r. split; [done|].
  destruct (Ascii.eqb_spec c "{") as [->|]; done.
Qed.

(** A bare name never starts with a brace. *)
Lemma identifier_not_brace name s r :
  identifier name = true -> name ++ s = "{"%char :: r -> False.
Proof.
  intros Hn E. destruct (identifier_start name s Hn) as [_ H]. rewrite E in H. done.
Qed.

Lemma expands_det f s t1 t2 : expands f s t1 -> expands f s t2 -> t1 = t2.
Proof.
  intros H1. revert t2.
  induction H1 as [|c s t Hc _ IH|s t Hs _ IH|name s t Hn _ IH|name Hn|name s t Hn Hs _ IH];
    intros t2 H2; inversion H2; subst; simplify_eq/=; try done; clear H2.
  all: try match goal with
    | H : identifier ?n = true, E : _ = ?n ++ _ |- _ =>
        exfalso; by eapply (identifier_not_brace n); [|symmetry]
    | H : identifier ?n = true, E : ?n ++ _ = "{"%char :: _ |- _ =>
        exfalso; by eapply (identifier_not_brace n)
    | H : identifier ?n = true, S : starts_in _ (?n ++ ?s) = false |- _ =>
        destruct (identifier_start n s H) as [? _]; congruence
    end.
  - f_equal; auto.
  - f_equal; auto.
  - match goal with E : _ ++ _ = _ ++ _ |- _ => apply split_at_unique in E as [-> ->]; [|done..] end.
    f_equal; auto.
  - exfalso. match goal with H : "}"%char ∉ _ |- _ => apply H end. set_solver.
  - exfalso. match goal with H : "}"%char ∉ _ |- _ => apply H end. set_solver.
  - match goal with E : _ ++ _ = _ ++ _ |- _ =>
      apply (run_unique name_byte) in E as [-> ->]; [|by eauto using identifier_names..] end.
    f_equal; auto.
Qed.

(** Only the values of the lookup matter. *)
Lemma expands_ext f g s t : (forall n, f n = g n) -> expands f s t -> expands g s t.
Proof.
  intros Hfg. induction 1; rewrite ?Hfg;
    [by constructor|by constructor|by constructor|by apply exp_braced|by apply exp_unclosed|by apply exp_bare].
Qed.

(** Expansion of text that carries no placeholder. *)
Lemma contains_placeholder_false_expands f l :
  valid_chars l -> contains_placeholder_chars l = false -> expands f (concat l) (concat l).
Proof.
  induction 1 as [|ch l Hv Hl IH]; simpl; [constructor|].
  intros H. destruct (decide (ch = "$")) as [->|Hne].
  2:{ apply expands_literal_char; [by apply dollar_char|]. apply IH.
      destruct l; [done|]. by apply orb_false_iff in H as [_ H]. }
  apply exp_dollar.
  - inversion Hl as [|ch2 l2 Hv2 _]; subst; [done|]. simpl.
    apply orb_false_iff in H as [H _]. rewrite bool_decide_eq_true_2 in H by done. simpl in H.
    apply orb_false_iff in H as [Hb Hs]. bools.
    rewrite (starts_in_chars (fun c => Ascii.eqb c "{" || name_start_byte c)); [|done|].
    + unfold is_name_start, char_is in Hs. unfold char_is. destruct ch2 as [|c [|]]; try done.
      fold (name_start_byte c) in Hs. destruct (Ascii.eqb_spec c "{") as [->|]; [done|exact Hs].
    + apply (by_bytes2 (fun c => Ascii.eqb c "{" || name_start_byte c) is_ascii).
      vm_compute. reflexivity.
  - apply IH. destruct l; [done|]. by apply orb_false_iff in H as [_ H].
Qed.

Lemma expands_none s t : expands (fun _ => None) s t -> s = t.
Proof.
  induction 1; simpl in *; subst; try done.
  - by rewrite <- app_assoc.
Qed.

(** ** Properties *)

(** C32 (refinement): [substitute] implements the declarative expansion rules,
    and nothing else: on every valid UTF-8 input, [t] is derivable for [s]
    exactly when the code returns [t].  Known names expand, unknown, malformed
    and unclosed references stay verbatim, and [$NAME] takes the longest name. *)
Theorem substitute_refines f s t :
  utf8 s -> (expands f s t <-> substitute f s = t).
Proof.
  intros H. split; [|intros <-; by apply substitute_expands].
  intros He. eapply expands_det; [by apply substitute_expands|done].
Qed.

Lemma substitute_refines_witness :
  expands (fun n => if decide (n = "V") then Some ("2" : str) else None) "x$V" "x2".
Proof. apply substitute_refines; [apply utf8_ascii; reflexivity|vm_compute; reflexivity]. Defined.

(** A text in which [contains_placeholder] finds nothing is
    left untouched by [substitute], whatever is in scope; this is what lets the
    parser validate such an operand at once. *)
Theorem no_placeholder_substitute f s :
  utf8 s -> contains_placeholder s = false -> substitute f s = s.
Proof.
  intros H Hc. apply (expands_det f s); [by apply substitute_expands|].
  rewrite <- (chars_concat s H). apply contains_placeholder_false_expands; [|done].
  by apply utf8_chars.
Qed.

Lemma no_placeholder_substitute_witness :
  substitute (fun _ => Some ("v" : str)) "$(date) $1 a$" = "$(date) $1 a$".
Proof.
  apply no_placeholder_substitute; [apply utf8_ascii; reflexivity|vm_compute; reflexivity].
Defined.

(** With nothing in scope every text is returned verbatim;
    no reference is ever blanked. *)
Theorem substitute_unknown_verbatim s : utf8 s -> substitute (fun _ => None) s = s.
Proof. intros H. symmetry. by apply expands_none, substitute_expands. Qed.

Lemma substitute_unknown_verbatim_witness :
  substitute (fun _ => None) "${A} $B ${C" = "${A} $B ${C".
Proof. apply substitute_unknown_verbatim. apply utf8_ascii. reflexivity. Defined.
