(* ===== verification/Validation.v ===== *)
(** * Validation: the interface between the validated newtypes and the parser
    (crates/umf-core/src/types/mod.rs and the shared helper of identifier/mod.rs). *)

From S2P Require Import Prelude RustStr RustStrFacts Subst.

(** The trait [ValidationError]: where in the input the problem starts, an
    optional hint, and the [Display] text. *)
Class ValidationError (E : Type) := {
  offset : E -> option nat;
  hint : E -> option str;
  to_string : E -> str
}.

(** What a validated newtype promises its clients: the constructor keeps the
    text verbatim, and a reported offset lies inside the input. *)
Class NewType (T E : Type) `{ValidationError E} := {
  new : str -> result E T;
  as_str : T -> str;
  new_as_str : forall raw v, new raw = Ok v -> as_str v = raw;
  new_offset_le : forall raw e o,
    utf8 raw -> new raw = Err e -> offset e = Some o -> o <= length raw
}.

(** [reject_nul]: the offset of the first NUL byte is the error. *)
Definition reject_nul (raw : str) : result nat unit :=
  match find_byte nul raw with Some pos => Err pos | None => Ok tt end.

(** ** Lemmas shared by the newtypes *)

Lemma first_rejected_None ok l :
  first_rejected ok l = None <-> forallb ok l.*2 = true.
Proof.
  unfold first_rejected. induction l as [|[i ch] l IH]; simpl; [done|].
  destruct (ok ch) eqn:E; simpl; [exact IH|done].
Qed.

Lemma first_rejected_Some ok l i ch :
  first_rejected ok l = Some (i, ch) -> (i, ch) ∈ l /\ ok ch = false.
Proof.
  unfold first_rejected. intros H. apply find_some in H as [H1 H2].
  split; [by apply list_elem_of_In|]. by apply negb_true_iff.
Qed.

Lemma first_rejected_tail_lt raw i0 ch0 l ok i ch :
  utf8 raw -> char_indices raw = (i0, ch0) :: l -> first_rejected ok l = Some (i, ch) ->
  i < length raw.
Proof.
  intros Hu E H. apply first_rejected_Some in H as [H _].
  apply (char_indices_lt raw i ch Hu). rewrite E. by right.
Qed.

Lemma first_rejected_lt raw ok i ch :
  utf8 raw -> first_rejected ok (char_indices raw) = Some (i, ch) -> i < length raw.
Proof.
  intros Hu H. apply first_rejected_Some in H as [H _]. by apply (char_indices_lt raw i ch).
Qed.

Lemma char_indices_snd raw : (char_indices raw).*2 = chars raw.
Proof. apply indices_from_snd. Qed.

Lemma char_indices_nil raw : char_indices raw = [] -> raw = [].
Proof.
  unfold char_indices. destruct raw as [|a raw]; [done|]. simpl. intros H. exfalso.
  destruct (utf8_width a) as [|[|[|[|[|]]]]]; destruct raw as [|b [|c [|d raw]]]; done.
Qed.

Lemma reject_nul_spec raw : reject_nul raw = Ok tt <-> nul ∉ raw.
Proof.
  unfold reject_nul. rewrite <- find_byte_None. destruct (find_byte nul raw); split; done.
Qed.

Lemma char_is_or p ch c :
  is_ascii c = true ->
  char_is p ch || bool_decide (ch = [c]) = char_is (fun b => p b || Ascii.eqb b c) ch.
Proof.
  intros Hc. unfold char_is. destruct ch as [|b [|b' ch]].
  - done.
  - destruct (Ascii.eqb_spec b c) as [->|Hne].
    + rewrite bool_decide_eq_true_2 by done. by rewrite Hc, !orb_true_r.
    + rewrite bool_decide_eq_false_2 by congruence. by rewrite !orb_false_r.
  - rewrite bool_decide_eq_false_2 by discriminate. done.
Qed.

Lemma char_is_orb p q ch : char_is p ch || char_is q ch = char_is (fun b => p b || q b) ch.
Proof. unfold char_is. destruct ch as [|b [|]]; try done. by rewrite <- andb_orb_distrib_r. Qed.

Lemma char_is_ext p q ch : (forall b, p b = q b) -> char_is p ch = char_is q ch.
Proof. intros H. unfold char_is. destruct ch as [|b [|]]; try done. by rewrite H. Qed.

Lemma char_indices_char ch s :
  valid_char ch = true ->
  char_indices (ch ++ s) = (0, ch) :: indices_from (length ch) (chars s).
Proof. intros H. unfold char_indices. by rewrite chars_char. Qed.

Lemma forallb_ascii_and p s :
  (forall c, p c = true -> is_ascii c = true) ->
  forallb (fun c => is_ascii c && p c) s = forallb p s.
Proof.
  intros H. apply forallb_eq. intros c.
  destruct (p c) eqn:E; [by rewrite (H _ E)|by rewrite andb_false_r].
Qed.

Lemma first_rejected_ext p q l :
  (forall ch, p ch = q ch) -> first_rejected p l = first_rejected q l.
Proof.
  intros H. unfold first_rejected. induction l as [|[i ch] l IH]; simpl; [done|].
  rewrite H. by destruct (q ch).
Qed.

(** The shape shared by the identifier constructors: the first character is
    checked with [p], the others with [q]. *)
Lemma leading_rest_spec (p q : ascii -> bool) raw :
  utf8 raw ->
  (forall c, p c = true -> is_ascii c = true) -> (forall c, q c = true -> is_ascii c = true) ->
  match char_indices raw with
  | [] => false
  | (_, first) :: rest =>
      char_is p first && match first_rejected (char_is q) rest with Some _ => false | None => true end
  end = match raw with c :: r => p c && forallb q r | [] => false end.
Proof.
  intros H Hp Hq. destruct H as [|ch s Hv Hs]; [done|].
  rewrite char_indices_char by done.
  assert (match first_rejected (char_is q) (indices_from (length ch) (chars s)) with
          | Some _ => false | None => true end = forallb q s) as ->.
  { rewrite <- (forallb_ascii_and q s Hq), <- (forallb_chars q s Hs).
    rewrite <- (indices_from_snd (length ch) (chars s)) at 2.
    destruct (first_rejected _ _) as [[i c]|] eqn:E.
    - symmetry. apply not_true_iff_false. rewrite <- first_rejected_None. by rewrite E.
    - symmetry. by apply first_rejected_None. }
  rewrite <- (starts_in_chars p ch s Hv Hp).
  destruct (valid_char_cases _ Hv) as [(c & -> & Hc)|HF]; [done|].
  destruct ch as [|a ch]; [done|]. simpl. inversion HF as [|?? Ha _]; subst.
  destruct (p a) eqn:E; [|done]. apply Hp in E. congruence.
Qed.

Lemma utf8_take_find c s i :
  is_ascii c = true -> utf8 s -> find_byte c s = Some i ->
  utf8 (take i s) /\ utf8 (drop (S i) s).
Proof.
  intros Hc Hu H. pose proof (find_byte_lt _ _ _ H). apply find_byte_Some in H as [H _].
  assert (utf8 (drop i s)) as Hd.
  { apply boundary_utf8_drop; [done|lia|]. by eapply boundary_at_ascii. }
  split.
  - apply (utf8_prefix _ (drop i s)); [by rewrite take_drop|done].
  - rewrite (drop_S _ _ _ H) in Hd. by apply utf8_tail_ascii in Hd.
Qed.

Lemma rfind_byte_app c s1 s2 : c ∉ s2 -> rfind_byte c (s1 ++ c :: s2) = Some (length s1).
Proof.
  intros H. induction s1 as [|a s1 IH]; simpl.
  - rewrite (proj2 (rfind_byte_None c s2) H). by rewrite Ascii.eqb_refl.
  - by rewrite IH.
Qed.

(** A loop that checks every character with an ASCII predicate checks bytes. *)
Lemma first_rejected_bytes (p : ascii -> bool) raw :
  utf8 raw -> (forall c, p c = true -> is_ascii c = true) ->
  match first_rejected (char_is p) (char_indices raw) with
  | None => true | Some _ => false end = forallb p raw.
Proof.
  intros Hu Hp. rewrite <- (forallb_ascii_and p raw Hp), <- forallb_chars by done.
  rewrite <- (char_indices_snd raw). destruct (first_rejected _ _) as [[]|] eqn:E.
  - symmetry. apply not_true_iff_false. rewrite <- first_rejected_None. by rewrite E.
  - symmetry. by apply first_rejected_None.
Qed.

Lemma char_indices_Forall_lt raw :
  utf8 raw -> Forall (fun '(i, _) => i < length raw) (char_indices raw).
Proof.
  intros Hu. apply Forall_forall. intros [i ch] Hin. by apply (char_indices_lt raw i ch).
Qed.

(** Solves the offset obligations of a newtype: every offset comes from a
    search in the input. *)
Ltac offset_le :=
  intros; simplify_eq/=;
  repeat match goal with
    | H : find_byte _ _ = Some _ |- _ => apply find_byte_lt in H
    | H : rfind_byte _ _ = Some _ |- _ => apply rfind_byte_lt in H
    | Hu : utf8 ?raw, H : first_rejected _ (char_indices ?raw) = Some _ |- _ =>
        apply (first_rejected_lt raw _ _ _ Hu) in H
    | Hu : utf8 ?raw, E : char_indices ?raw = _ :: ?l, H : first_rejected _ ?l = Some _ |- _ =>
        apply (first_rejected_tail_lt raw _ _ _ _ _ _ Hu E) in H
    end; try lia.
