(* ===== verification/Identifiers.v ===== *)
(** * Identifiers: the identifier newtypes
    (crates/umf-core/src/types/identifier/{env,label,stage,unit,user}.rs). *)

From S2P Require Import Prelude RustStr RustStrFacts Validation Subst.

(** ** Environment and ARG names and values (env.rs) *)

Record EnvVarName := { EnvVarName_0 : str }.

Inductive EnvVarNameError :=
| EnvVarNameError_Empty
| EnvVarNameError_InvalidLeadingChar (ch : str)
| EnvVarNameError_InvalidChar (ch : str) (off : nat).

Definition EnvVarName_new (raw : str) : result EnvVarNameError EnvVarName :=
  match char_indices raw with
  | [] => Err EnvVarNameError_Empty
  | (_, first) :: rest =>
      if negb (char_is is_ascii_alphabetic first || bool_decide (first = "_")) then
        Err (EnvVarNameError_InvalidLeadingChar first)
      else
        match first_rejected
                (fun ch => char_is is_ascii_alphanumeric ch || bool_decide (ch = "_")) rest with
        | Some (i, ch) => Err (EnvVarNameError_InvalidChar ch i)
        | None => Ok {| EnvVarName_0 := raw |}
        end
  end.

#[export] Instance EnvVarNameError_validation : ValidationError EnvVarNameError := {
  offset e := match e with
    | EnvVarNameError_Empty => None
    | EnvVarNameError_InvalidLeadingChar _ => Some 0
    | EnvVarNameError_InvalidChar _ o => Some o
    end;
  hint _ := Some ("env var names follow POSIX: `[A-Za-z_][A-Za-z0-9_]*`" : str);
  to_string e := match e with
    | EnvVarNameError_Empty => "environment variable name cannot be empty"
    | EnvVarNameError_InvalidLeadingChar ch =>
        "environment variable name must start with a letter or `_`, not `" ++ ch ++ "`"
    | EnvVarNameError_InvalidChar ch _ =>
        "environment variable name may only contain letters, digits, and `_` — found `"
        ++ ch ++ "`"
    end
}.

Record EnvVarValue := { EnvVarValue_0 : str }.

Inductive EnvVarValueError := EnvVarValueError_NulByte (off : nat).

Definition EnvVarValue_new (raw : str) : result EnvVarValueError EnvVarValue :=
  match reject_nul raw with
  | Err o => Err (EnvVarValueError_NulByte o)
  | Ok _ => Ok {| EnvVarValue_0 := raw |}
  end.

#[export] Instance EnvVarValueError_validation : ValidationError EnvVarValueError := {
  offset e := match e with EnvVarValueError_NulByte o => Some o end;
  hint _ := None;
  to_string _ := "environment variable value cannot contain a NUL byte"
}.

(** ** Label keys and values (label.rs) *)

Record LabelKey := { LabelKey_0 : str }.

Inductive LabelKeyError :=
| LabelKeyError_Empty
| LabelKeyError_InvalidSegmentStart (ch : str) (off : nat)
| LabelKeyError_InvalidChar (ch : str) (off : nat)
| LabelKeyError_LeadingSeparator (ch : str) (off : nat)
| LabelKeyError_TrailingSeparator (off : nat)
| LabelKeyError_ConsecutiveSeparators (off : nat).

(** First loop of [LabelKey::new]: the alphabet and the separator rules.
    Returns the final value of [prev_was_separator]. *)
Fixpoint LabelKey_scan (prev_was_separator : bool) (l : list (nat * str))
    : result LabelKeyError bool :=
  match l with
  | [] => Ok prev_was_separator
  | (i, ch) :: l' =>
      if char_is (in_range "a" "z") ch || char_is (in_range "0" "9") ch then
        LabelKey_scan false l'
      else if bool_decide (ch = ".") || bool_decide (ch = "-") then
        if prev_was_separator then Err (LabelKeyError_ConsecutiveSeparators i)
        else if bool_decide (i = 0) then Err (LabelKeyError_LeadingSeparator ch 0)
        else LabelKey_scan true l'
      else Err (LabelKeyError_InvalidChar ch i)
  end.

(** [if let Some(first) = segment.chars().next() && !first.is_ascii_lowercase()]. *)
Definition LabelKey_segment_start (segment : str) (segment_start : nat)
    : result LabelKeyError unit :=
  match first_char segment with
  | Some first =>
      if negb (char_is is_ascii_lowercase first)
      then Err (LabelKeyError_InvalidSegmentStart first segment_start) else Ok tt
  | None => Ok tt
  end.

(** Second loop: each [.]-segment starts with a letter.  Returns the start of
    the last segment. *)
Fixpoint LabelKey_segments (raw : str) (segment_start : nat) (l : list (nat * str))
    : result LabelKeyError nat :=
  match l with
  | [] => Ok segment_start
  | (i, ch) :: l' =>
      if bool_decide (ch = ".") then
        _ ← LabelKey_segment_start (sub raw segment_start i) segment_start;
        LabelKey_segments raw (i + 1) l'
      else LabelKey_segments raw segment_start l'
  end.

Definition LabelKey_new (raw : str) : result LabelKeyError LabelKey :=
  match raw with
  | [] => Err LabelKeyError_Empty
  | b0 :: _ =>
      if negb (is_ascii_lowercase b0) then
        Err (LabelKeyError_InvalidSegmentStart (default ("?" : str) (first_char raw)) 0)
      else
        prev_was_separator ← LabelKey_scan false (char_indices raw);
        if prev_was_separator : bool then
          Err (LabelKeyError_TrailingSeparator (length raw - 1))
        else
          segment_start ← LabelKey_segments raw 0 (char_indices raw);
          _ ← LabelKey_segment_start (drop segment_start raw) segment_start;
          Ok {| LabelKey_0 := raw |}
  end.

#[export] Instance LabelKeyError_validation : ValidationError LabelKeyError := {
  offset e := match e with
    | LabelKeyError_Empty => None
    | LabelKeyError_InvalidSegmentStart _ o | LabelKeyError_InvalidChar _ o
    | LabelKeyError_LeadingSeparator _ o | LabelKeyError_TrailingSeparator o
    | LabelKeyError_ConsecutiveSeparators o => Some o
    end;
  hint _ := Some ("OCI label keys are reverse-DNS, e.g. `org.imagilux.umf.author`" : str);
  to_string e := match e with
    | LabelKeyError_Empty => "label key cannot be empty"
    | LabelKeyError_InvalidSegmentStart ch _ =>
        "label key segment must start with a lowercase letter, not `" ++ ch ++ "`"
    | LabelKeyError_InvalidChar ch _ =>
        "label key may only contain lowercase letters, digits, `.`, and `-` — found `"
        ++ ch ++ "`"
    | LabelKeyError_LeadingSeparator ch _ => "label key cannot start with `" ++ ch ++ "`"
    | LabelKeyError_TrailingSeparator _ => "label key cannot end with a separator"
    | LabelKeyError_ConsecutiveSeparators _ =>
        "label key cannot contain consecutive separators"
    end
}.

Record LabelValue := { LabelValue_0 : str }.

Inductive LabelValueError := LabelValueError_NulByte (off : nat).

Definition LabelValue_new (raw : str) : result LabelValueError LabelValue :=
  match reject_nul raw with
  | Err o => Err (LabelValueError_NulByte o)
  | Ok _ => Ok {| LabelValue_0 := raw |}
  end.

#[export] Instance LabelValueError_validation : ValidationError LabelValueError := {
  offset e := match e with LabelValueError_NulByte o => Some o end;
  hint _ := None;
  to_string _ := "label value cannot contain a NUL byte"
}.

(** ** Stage names and secret ids (stage.rs) *)

Inductive BareIdentifierViolation :=
| BareIdentifier_Empty
| BareIdentifier_InvalidLeadingChar (ch : str)
| BareIdentifier_InvalidChar (ch : str) (off : nat).

Definition validate_bare_identifier (raw : str) : result BareIdentifierViolation unit :=
  match char_indices raw with
  | [] => Err BareIdentifier_Empty
  | (_, first) :: rest =>
      if negb (char_is is_ascii_alphabetic first || bool_decide (first = "_")) then
        Err (BareIdentifier_InvalidLeadingChar first)
      else
        match first_rejected
                (fun ch => char_is is_ascii_alphanumeric ch || bool_decide (ch = "_")
                           || bool_decide (ch = "-")) rest with
        | Some (i, ch) => Err (BareIdentifier_InvalidChar ch i)
        | None => Ok tt
        end
  end.

Record StageName := { StageName_0 : str }.

Inductive StageNameError :=
| StageNameError_Empty
| StageNameError_InvalidLeadingChar (ch : str)
| StageNameError_InvalidChar (ch : str) (off : nat).

Definition StageName_new (raw : str) : result StageNameError StageName :=
  match validate_bare_identifier raw with
  | Ok _ => Ok {| StageName_0 := raw |}
  | Err BareIdentifier_Empty => Err StageNameError_Empty
  | Err (BareIdentifier_InvalidLeadingChar ch) => Err (StageNameError_InvalidLeadingChar ch)
  | Err (BareIdentifier_InvalidChar ch o) => Err (StageNameError_InvalidChar ch o)
  end.

#[export] Instance StageNameError_validation : ValidationError StageNameError := {
  offset e := match e with
    | StageNameError_Empty => None
    | StageNameError_InvalidLeadingChar _ => Some 0
    | StageNameError_InvalidChar _ o => Some o
    end;
  hint _ := Some ("stage names look like identifiers: e.g. `builder`, `runtime-stage`" : str);
  to_string e := match e with
    | StageNameError_Empty => "stage name cannot be empty"
    | StageNameError_InvalidLeadingChar ch =>
        "stage name must start with a letter or `_`, not `" ++ ch ++ "`"
    | StageNameError_InvalidChar ch _ =>
        "stage name may only contain letters, digits, `_`, and `-` — found `" ++ ch ++ "`"
    end
}.

Record SecretId := { SecretId_0 : str }.

Inductive SecretIdError :=
| SecretIdError_Empty
| SecretIdError_InvalidLeadingChar (ch : str)
| SecretIdError_InvalidChar (ch : str) (off : nat).

Definition SecretId_new (raw : str) : result SecretIdError SecretId :=
  match validate_bare_identifier raw with
  | Ok _ => Ok {| SecretId_0 := raw |}
  | Err BareIdentifier_Empty => Err SecretIdError_Empty
  | Err (BareIdentifier_InvalidLeadingChar ch) => Err (SecretIdError_InvalidLeadingChar ch)
  | Err (BareIdentifier_InvalidChar ch o) => Err (SecretIdError_InvalidChar ch o)
  end.

#[export] Instance SecretIdError_validation : ValidationError SecretIdError := {
  offset e := match e with
    | SecretIdError_Empty => None
    | SecretIdError_InvalidLeadingChar _ => Some 0
    | SecretIdError_InvalidChar _ o => Some o
    end;
  hint _ := Some ("secret ids look like identifiers: e.g. `signing-key`" : str);
  to_string e := match e with
    | SecretIdError_Empty => "secret id cannot be empty"
    | SecretIdError_InvalidLeadingChar ch =>
        "secret id must start with a letter or `_`, not `" ++ ch ++ "`"
    | SecretIdError_InvalidChar ch _ =>
        "secret id may only contain letters, digits, `_`, and `-` — found `" ++ ch ++ "`"
    end
}.

(** ** User specs (user.rs) *)

Record Username := { Username_0 : str }.

Inductive UsernameError :=
| UsernameError_Empty
| UsernameError_EmptyUser
| UsernameError_EmptyGroup (off : nat)
| UsernameError_TooLong (off len : nat)
| UsernameError_InvalidLeadingChar (ch : str) (off : nat)
| UsernameError_InvalidChar (ch : str) (off : nat)
| UsernameError_NumericOverflow (off : nat).

Definition MAX_LOGIN_LEN : nat := 32.

(** The body loop of [validate_user_component]; [break]s at [body_end]. *)
Fixpoint user_body (body_end base_offset : nat) (l : list (nat * str))
    : result UsernameError unit :=
  match l with
  | [] => Ok tt
  | (i, ch) :: l' =>
      if bool_decide (body_end <= i) then Ok tt
      else if negb (char_is is_ascii_lowercase ch || char_is is_ascii_digit ch
                    || bool_decide (ch = "_") || bool_decide (ch = "-"))
      then Err (UsernameError_InvalidChar ch (base_offset + i))
      else user_body body_end base_offset l'
  end.

Definition validate_user_component (component : str) (base_offset : nat)
    : result UsernameError unit :=
  if forallb (char_is is_ascii_digit) (chars component) then
    match parse_unsigned u32_max component with
    | None => Err (UsernameError_NumericOverflow base_offset)
    | Some _ => Ok tt
    end
  else if bool_decide (MAX_LOGIN_LEN < length component) then
    Err (UsernameError_TooLong base_offset (length component))
  else
    match char_indices component with
    | [] => Err UsernameError_Empty
    | (_, first) :: rest =>
        if negb (char_is is_ascii_lowercase first || bool_decide (first = "_")) then
          Err (UsernameError_InvalidLeadingChar first base_offset)
        else
          let end_byte := length component in
          let trailing_dollar := ends_with_byte "$" component in
          let body_end := if trailing_dollar then end_byte - 1 else end_byte in
          user_body body_end base_offset rest
    end.

Definition Username_new (raw : str) : result UsernameError Username :=
  if bool_decide (raw = []) then Err UsernameError_Empty
  else
    let '(user, group_offset) :=
      match find_byte ":" raw with
      | Some pos => (take pos raw, Some (pos + 1))
      | None => (raw, None)
      end in
    if bool_decide (user = []) then Err UsernameError_EmptyUser
    else
      _ ← validate_user_component user 0;
      _ ← match group_offset with
          | Some off =>
              let group := drop off raw in
              if bool_decide (group = []) then Err (UsernameError_EmptyGroup off)
              else validate_user_component group off
          | None => Ok tt
          end;
      Ok {| Username_0 := raw |}.

#[export] Instance UsernameError_validation : ValidationError UsernameError := {
  offset e := match e with
    | UsernameError_Empty | UsernameError_EmptyUser => None
    | UsernameError_EmptyGroup o | UsernameError_TooLong o _
    | UsernameError_InvalidLeadingChar _ o | UsernameError_InvalidChar _ o
    | UsernameError_NumericOverflow o => Some o
    end;
  hint _ := Some ("examples: `nginx`, `1000`, `nginx:nginx`, `0:0`" : str);
  to_string e := match e with
    | UsernameError_Empty => "user spec cannot be empty"
    | UsernameError_EmptyUser => "user component cannot be empty"
    | UsernameError_EmptyGroup _ => "group component cannot be empty"
    | UsernameError_TooLong _ len =>
        "login-name component is " ++ nat_to_decimal len ++ " chars — POSIX limit is 32"
    | UsernameError_InvalidLeadingChar ch _ =>
        "login name must start with a lowercase letter or `_`, not `" ++ ch ++ "`"
    | UsernameError_InvalidChar ch _ =>
        "login name may only contain lowercase letters, digits, `_`, and `-` — found `"
        ++ ch ++ "`"
    | UsernameError_NumericOverflow _ => "numeric uid/gid must fit in 32 bits"
    end
}.

(** ** Service unit names (unit.rs) *)

Inductive UnitSuffix :=
| UnitSuffix_Service | UnitSuffix_Socket | UnitSuffix_Timer | UnitSuffix_Target
| UnitSuffix_Path | UnitSuffix_Mount | UnitSuffix_Device | UnitSuffix_Swap
| UnitSuffix_Slice | UnitSuffix_Scope | UnitSuffix_Automount.

Definition UnitSuffix_as_str (u : UnitSuffix) : str :=
  match u with
  | UnitSuffix_Service => "service"
  | UnitSuffix_Socket => "socket"
  | UnitSuffix_Timer => "timer"
  | UnitSuffix_Target => "target"
  | UnitSuffix_Path => "path"
  | UnitSuffix_Mount => "mount"
  | UnitSuffix_Device => "device"
  | UnitSuffix_Swap => "swap"
  | UnitSuffix_Slice => "slice"
  | UnitSuffix_Scope => "scope"
  | UnitSuffix_Automount => "automount"
  end.

Definition UnitSuffix_from_str (s : str) : option UnitSuffix :=
  if decide (s = "service") then Some UnitSuffix_Service
  else if decide (s = "socket") then Some UnitSuffix_Socket
  else if decide (s = "timer") then Some UnitSuffix_Timer
  else if decide (s = "target") then Some UnitSuffix_Target
  else if decide (s = "path") then Some UnitSuffix_Path
  else if decide (s = "mount") then Some UnitSuffix_Mount
  else if decide (s = "device") then Some UnitSuffix_Device
  else if decide (s = "swap") then Some UnitSuffix_Swap
  else if decide (s = "slice") then Some UnitSuffix_Slice
  else if decide (s = "scope") then Some UnitSuffix_Scope
  else if decide (s = "automount") then Some UnitSuffix_Automount
  else None.

Record ServiceUnitName := {
  unit_raw : str;
  suffix_start : option nat;
  unit_suffix : option UnitSuffix
}.

Inductive ServiceUnitNameError :=
| ServiceUnitNameError_Empty
| ServiceUnitNameError_EmptyBareName
| ServiceUnitNameError_InvalidChar (ch : str) (off : nat)
| ServiceUnitNameError_UnknownSuffix (suf : str) (off : nat).

Definition ServiceUnitName_new (raw : str) : result ServiceUnitNameError ServiceUnitName :=
  let plain := {| unit_raw := raw; suffix_start := None; unit_suffix := None |} in
  if bool_decide (raw = []) then Err ServiceUnitNameError_Empty
  else
    match first_rejected
            (fun ch => char_is is_ascii_alphanumeric ch || char_is (one_of "_.-@:") ch)
            (char_indices raw) with
    | Some (i, ch) => Err (ServiceUnitNameError_InvalidChar ch i)
    | None =>
        match rfind_byte "." raw with
        | Some dot_pos =>
            let tail := drop (dot_pos + 1) raw in
            if negb (bool_decide (tail = []))
               && forallb (char_is is_ascii_alphabetic) (chars tail) then
              match UnitSuffix_from_str tail with
              | Some suf =>
                  if bool_decide (dot_pos = 0) then Err ServiceUnitNameError_EmptyBareName
                  else Ok {| unit_raw := raw; suffix_start := Some (dot_pos + 1);
                             unit_suffix := Some suf |}
              | None => Err (ServiceUnitNameError_UnknownSuffix tail (dot_pos + 1))
              end
            else Ok plain
        | None => Ok plain
        end
    end.

Definition bare_name (u : ServiceUnitName) : str :=
  match suffix_start u with
  | Some pos => take (pos - 1) (unit_raw u)
  | None => unit_raw u
  end.

Definition with_default_suffix (u : ServiceUnitName) (dflt : UnitSuffix) : str :=
  match unit_suffix u with
  | Some _ => unit_raw u
  | None => unit_raw u ++ "." ++ UnitSuffix_as_str dflt
  end.

#[export] Instance ServiceUnitNameError_validation : ValidationError ServiceUnitNameError := {
  offset e := match e with
    | ServiceUnitNameError_Empty | ServiceUnitNameError_EmptyBareName => None
    | ServiceUnitNameError_InvalidChar _ o | ServiceUnitNameError_UnknownSuffix _ o => Some o
    end;
  hint _ := Some ("examples: `nginx`, `nginx.service`, `getty@tty1.service`" : str);
  to_string e := match e with
    | ServiceUnitNameError_Empty => "service unit name cannot be empty"
    | ServiceUnitNameError_EmptyBareName =>
        "service unit name has an empty base — needs a name before the `.<suffix>`"
    | ServiceUnitNameError_InvalidChar ch _ =>
        "service unit name may only contain letters, digits, `_`, `.`, `-`, `@`, and `:` — found `"
        ++ ch ++ "`"
    | ServiceUnitNameError_UnknownSuffix suf _ =>
        "unknown service unit suffix `." ++ suf ++ "` — expected one of `service`, `socket`, `timer`, `target`, `path`, `mount`, `device`, `swap`, `slice`, `scope`, `automount`"
    end
}.

(** ** Reference grammars *)

(** [[A-Za-z_][A-Za-z0-9_-]*] *)
Definition bare_identifier (raw : str) : bool :=
  match raw with
  | c :: r => name_start_byte c && forallb (fun b => name_byte b || Ascii.eqb b "-") r
  | [] => false
  end.

Definition label_separator (c : ascii) : bool := Ascii.eqb c "." || Ascii.eqb c "-".
Definition label_byte (c : ascii) : bool :=
  in_range "a" "z" c || in_range "0" "9" c || label_separator c.

(** The documented label-key grammar: the alphabet, every [.]-segment non-empty
    and starting with a letter, no two adjacent separators, none at the end. *)
Record label_key_grammar (raw : str) : Prop := {
  lk_alphabet : Forall (fun c => label_byte c = true) raw;
  lk_segments : Forall (fun seg => starts_in is_ascii_lowercase seg = true) (split "." raw);
  lk_adjacent : forall i c d, raw !! i = Some c -> raw !! S i = Some d ->
    label_separator c = true -> label_separator d = false;
  lk_last : forall c, last raw = Some c -> label_separator c = false
}.

Definition login_byte (b : ascii) : bool :=
  is_ascii_lowercase b || is_ascii_digit b || Ascii.eqb b "_" || Ascii.eqb b "-".

(** A login name [[a-z_][a-z0-9_-]*\$?] of at most 32 bytes, or a number that
    fits in 32 bits. *)
Definition user_component (c : str) : bool :=
  if negb (bool_decide (c = [])) && forallb is_ascii_digit c then (decimal c <=? u32_max)%N
  else bool_decide (length c <= 32)
       && match c with
          | b :: r => (is_ascii_lowercase b || Ascii.eqb b "_")
                      && forallb login_byte (if ends_with_byte "$" r then take (length r - 1) r else r)
          | [] => false
          end.

(** One component, or two separated by the first colon. *)
Definition user_spec (raw : str) : bool :=
  match split_once ":" raw with
  | Some (user, group) => user_component user && user_component group
  | None => user_component raw
  end.

(** ** Lemmas *)

Lemma start_byte_ascii c : name_start_byte c = true -> is_ascii c = true.
Proof. intros H. by apply name_byte_ascii, name_start_name. Qed.

(** The two spellings of a leading-character test. *)
Lemma alpha_or_underscore ch :
  char_is is_ascii_alphabetic ch || bool_decide (ch = "_") = char_is name_start_byte ch.
Proof.
  rewrite (char_is_or _ _ "_") by done. apply char_is_ext. intros b.
  unfold name_start_byte. apply orb_comm.
Qed.

Lemma alnum_or_underscore ch :
  char_is is_ascii_alphanumeric ch || bool_decide (ch = "_") = char_is name_byte ch.
Proof.
  rewrite (char_is_or _ _ "_") by done. apply char_is_ext. intros b.
  unfold name_byte. apply orb_comm.
Qed.

Lemma EnvVarName_is_ok raw : utf8 raw -> is_ok (EnvVarName_new raw) = identifier raw.
Proof.
  intros H. unfold identifier.
  rewrite <- (leading_rest_spec name_start_byte name_byte raw H start_byte_ascii name_byte_ascii).
  unfold EnvVarName_new. destruct (char_indices raw) as [|[i first] rest]; [done|].
  rewrite alpha_or_underscore. destruct (char_is name_start_byte first); simpl; [|done].
  rewrite (first_rejected_ext _ (char_is name_byte)) by apply alnum_or_underscore.
  by destruct (first_rejected _ rest) as [[]|].
Qed.

Lemma validate_bare_identifier_is_ok raw :
  utf8 raw -> is_ok (validate_bare_identifier raw) = bare_identifier raw.
Proof.
  intros H. unfold bare_identifier.
  rewrite <- (leading_rest_spec name_start_byte (fun b => name_byte b || Ascii.eqb b "-") raw H
                start_byte_ascii); cycle 1.
  { apply (by_bytes2 (fun b => name_byte b || Ascii.eqb b "-") is_ascii). vm_compute. reflexivity. }
  unfold validate_bare_identifier. destruct (char_indices raw) as [|[i first] rest]; [done|].
  rewrite alpha_or_underscore. destruct (char_is name_start_byte first); simpl; [|done].
  rewrite (first_rejected_ext _ (char_is (fun b => name_byte b || Ascii.eqb b "-"))).
  - by destruct (first_rejected _ rest) as [[]|].
  - intros ch. rewrite alnum_or_underscore. by rewrite (char_is_or _ _ "-").
Qed.

Lemma StageName_new_Ok raw v :
  StageName_new raw = Ok v <-> is_ok (validate_bare_identifier raw) = true /\ v = {| StageName_0 := raw |}.
Proof.
  unfold StageName_new. destruct (validate_bare_identifier raw) as [[]|[| |]]; simpl;
    naive_solver.
Qed.

Lemma SecretId_new_Ok raw v :
  SecretId_new raw = Ok v <-> is_ok (validate_bare_identifier raw) = true /\ v = {| SecretId_0 := raw |}.
Proof.
  unfold SecretId_new. destruct (validate_bare_identifier raw) as [[]|[| |]]; simpl;
    naive_solver.
Qed.

Lemma EnvVarName_new_Ok raw v :
  EnvVarName_new raw = Ok v <-> is_ok (EnvVarName_new raw) = true /\ v = {| EnvVarName_0 := raw |}.
Proof.
  unfold EnvVarName_new. destruct (char_indices raw) as [|[i first] rest]; [naive_solver|].
  destruct (negb _); [naive_solver|]. destruct (first_rejected _ rest) as [[]|]; naive_solver.
Qed.

(** *** Label keys *)

Definition label_alnum (c : ascii) : bool := in_range "a" "z" c || in_range "0" "9" c.

Lemma label_byte_ascii c : label_byte c = true -> is_ascii c = true.
Proof. revert c. apply (by_bytes2 label_byte is_ascii). vm_compute. reflexivity. Qed.

Lemma label_alnum_not_sep c : label_alnum c = true -> label_separator c = false.
Proof.
  intros H. apply negb_true_iff. revert c H.
  apply (by_bytes2 label_alnum (fun c => negb (label_separator c))). vm_compute. reflexivity.
Qed.

(** The first loop on bytes: [None] when it stops with an error. *)
Fixpoint separators (prev : bool) (s : str) : option bool :=
  match s with
  | [] => Some prev
  | c :: s' =>
      if label_alnum c then separators false s'
      else if label_separator c && negb prev then separators true s' else None
  end.

Lemma LabelKey_scan_bytes prev i s :
  utf8 s -> 0 < i ->
  match LabelKey_scan prev (indices_from i (chars s)) with Ok b => Some b | Err _ => None end
  = separators prev s.
Proof.
  intros H. revert prev i. induction H as [|ch s Hv Hs IH]; intros prev i Hi; [done|].
  rewrite chars_char by done. simpl. rewrite char_is_orb.
  destruct (valid_char_cases _ Hv) as [(c & -> & Hc)|HF].
  - simpl. rewrite Hc. fold (label_alnum c). destruct (label_alnum c) eqn:E; simpl.
    { apply IH. lia. }
    unfold label_separator.
    destruct (Ascii.eqb_spec c ".") as [->|H1]; simpl.
    { destruct prev; simpl; [done|]. rewrite bool_decide_eq_false_2 by lia. apply IH. lia. }
    rewrite bool_decide_eq_false_2 by congruence. simpl.
    destruct (Ascii.eqb_spec c "-") as [->|H2]; simpl.
    { destruct prev; simpl; [done|]. rewrite bool_decide_eq_false_2 by lia. apply IH. lia. }
    by rewrite bool_decide_eq_false_2 by congruence.
  - destruct ch as [|a ch]; [done|]. inversion HF as [|?? Ha _]; subst.
    assert (label_alnum a = false) as Hal.
    { destruct (label_alnum a) eqn:E; [|done].
      rewrite (label_byte_ascii a) in Ha; [done|]. unfold label_byte. fold (label_alnum a).
      by rewrite E. }
    assert (label_separator a = false) as Hsep.
    { unfold label_separator. destruct (Ascii.eqb_spec a ".") as [->|]; [done|].
      by destruct (Ascii.eqb_spec a "-") as [->|]. }
    simpl. rewrite Hal, Hsep. simpl.
    assert (forall c, is_ascii c = true -> bool_decide (a :: ch = [c]) = false) as Hne.
    { intros c Hc. apply bool_decide_eq_false_2. intros [= -> _]. congruence. }
    rewrite (Hne "."%char), (Hne "-"%char) by done.
    unfold char_is. destruct ch as [|b ch]; rewrite ?Ha; done.
Qed.

(** What the byte loop accepts. *)
Lemma separators_spec prev s b :
  separators prev s = Some b ->
  Forall (fun c => label_byte c = true) s
  /\ (prev = true -> starts_in label_separator s = false)
  /\ (forall i c d, s !! i = Some c -> s !! S i = Some d ->
        label_separator c = true -> label_separator d = false)
  /\ b = match last s with Some c => label_separator c | None => prev end.
Proof.
  revert prev. induction s as [|c s IH]; intros prev; simpl.
  { intros [= ->]. by split_and!. }
  destruct (label_alnum c) eqn:E.
  - intros H. apply IH in H as (H1 & H2 & H3 & H4).
    pose proof (label_alnum_not_sep _ E) as Hc. split_and!.
    + constructor; [|done]. unfold label_byte. fold (label_alnum c). by rewrite E.
    + done.
    + intros [|i] c' d; simpl; [intros; simplify_eq; congruence|apply H3].
    + rewrite last_cons. destruct (last s); [done|]. by rewrite Hc.
  - destruct (label_separator c && negb prev) eqn:E2; [|done].
    apply andb_true_iff in E2 as [Hc Hp]. destruct prev; [done|].
    intros H. apply IH in H as (H1 & H2 & H3 & H4). split_and!.
    + constructor; [|done]. unfold label_byte. by rewrite Hc, orb_true_r.
    + done.
    + intros [|i] c' d; simpl; [|apply H3]. intros [= <-] Hd _. 
      destruct s; simpl in *; [done|]. injection Hd as ->. by apply H2.
    + rewrite last_cons. destruct (last s); [done|]. by rewrite Hc.
Qed.

Lemma separators_complete prev s :
  Forall (fun c => label_byte c = true) s ->
  (prev = true -> starts_in label_separator s = false) ->
  (forall i c d, s !! i = Some c -> s !! S i = Some d ->
     label_separator c = true -> label_separator d = false) ->
  separators prev s = Some (match last s with Some c => label_separator c | None => prev end).
Proof.
  intros HF. revert prev. induction HF as [|c s Hc _ IH]; intros prev Hp Hadj; [done|].
  simpl. destruct (label_alnum c) eqn:E.
  - rewrite IH; [|done|intros i; apply (Hadj (S i))].
    rewrite last_cons. destruct (last s); [done|]. by rewrite label_alnum_not_sep.
  - unfold label_byte in Hc. fold (label_alnum c) in Hc. rewrite E in Hc. simpl in Hc.
    rewrite Hc. destruct prev; simpl in *; [specialize (Hp eq_refl); congruence|].
    rewrite IH; [|intros _|intros i; apply (Hadj (S i))].
    + rewrite last_cons. destruct (last s); [done|]. by rewrite Hc.
    + destruct s as [|d s]; [done|]. simpl. by apply (Hadj 0 c d).
Qed.

Definition segment_ok (seg : str) : bool :=
  match seg with c :: _ => is_ascii_lowercase c | [] => true end.

Lemma LabelKey_segment_start_ok seg st :
  forallb is_ascii seg = true -> is_ok (LabelKey_segment_start seg st) = segment_ok seg.
Proof.
  intros H. unfold LabelKey_segment_start, first_char. rewrite chars_ascii by done.
  destruct seg as [|c seg]; simpl in *; [done|]. bools. rewrite H. simpl.
  by destruct (is_ascii_lowercase c).
Qed.

(** The second loop, started in the middle of a segment [cur]. *)
Lemma LabelKey_segments_ok pre cur s :
  forallb is_ascii (cur ++ s) = true -> "."%char ∉ cur ->
  is_ok (st ← LabelKey_segments (pre ++ cur ++ s) (length pre)
                (indices_from (length pre + length cur) (chars s));
         LabelKey_segment_start (drop st (pre ++ cur ++ s)) st)
  = forallb segment_ok (split "." (cur ++ s)).
Proof.
  revert pre cur. induction s as [|c s IH]; intros pre cur HA Hcur.
  - rewrite app_nil_r in *. simpl. rewrite drop_app_length, LabelKey_segment_start_ok by done.
    rewrite split_no_sep by done. simpl. by rewrite andb_true_r.
  - rewrite forallb_app in HA. apply andb_true_iff in HA as [HA1 HA2].
    rewrite chars_ascii by done. cbn [fmap list_fmap indices_from LabelKey_segments length].
    rewrite <- chars_ascii by (simpl in HA2; by bools).
    simpl in HA2. apply andb_true_iff in HA2 as [Hc HA2].
    destruct (Ascii.eqb_spec c ".") as [->|Hne].
    + rewrite bool_decide_eq_true_2 by done.
      unfold sub. replace (length pre + length cur - length pre) with (length cur) by lia.
      rewrite drop_app_length, take_app_length.
      rewrite split_app by done. simpl. rewrite <- (LabelKey_segment_start_ok cur (length pre)) by done.
      destruct (LabelKey_segment_start cur (length pre)); simpl; [|done].
      specialize (IH (pre ++ cur ++ ["."%char]) []). simpl in IH.
      rewrite !length_app in IH. simpl in IH. rewrite <- !app_assoc in IH. simpl in IH.
      rewrite <- IH; [|done|apply not_elem_of_nil].
      by replace (length pre + (length cur + 1) + 0) with (length pre + length cur + 1) by lia;
        replace (length pre + (length cur + 1)) with (length pre + length cur + 1) by lia.
    + rewrite bool_decide_eq_false_2 by (by intros [= ->]).
      specialize (IH pre (cur ++ [c])). rewrite <- !app_assoc in IH. simpl in IH.
      rewrite length_app in IH. simpl in IH. rewrite Nat.add_assoc in IH. apply IH.
      * rewrite forallb_app. simpl. by rewrite HA1, Hc.
      * rewrite not_elem_of_app, list_elem_of_singleton. split; congruence.
Qed.

Lemma split_tail_nonempty s :
  (forall i, s !! i = Some "."%char -> s !! S i <> Some "."%char) ->
  last s <> Some "."%char ->
  Forall (fun p => p <> []) (tail (split "." s)).
Proof.
  induction s as [|a s IH]; intros Hadj Hl; [constructor|]. simpl.
  assert (HIH : Forall (fun p => p <> []) (tail (split "." s))).
  { apply IH; [intros i; apply (Hadj (S i))|]. intros E. apply Hl. by rewrite last_cons, E. }
  destruct (Ascii.eqb_spec a ".") as [->|Hne]; simpl.
  - destruct s as [|b s]; [by exfalso; apply Hl|]. specialize (Hadj 0 eq_refl). simpl in *.
    destruct (Ascii.eqb_spec b ".") as [->|]; [done|].
    destruct (split "." s); simpl in *; by constructor.
  - pose proof (split_nonempty "." s). by destruct (split "." s).
Qed.

(** The reference grammar, one piece at a time. *)
Lemma split_segments_ok s :
  starts_in is_ascii_lowercase s = true ->
  (forall i, s !! i = Some "."%char -> s !! S i <> Some "."%char) ->
  last s <> Some "."%char ->
  Forall (fun seg => starts_in is_ascii_lowercase seg = true) (split "." s)
  <-> forallb segment_ok (split "." s) = true.
Proof.
  intros Hs Hadj Hl. pose proof (split_tail_nonempty s Hadj Hl) as Ht.
  assert (HF : Forall (fun p => p <> []) (split "." s)).
  { destruct s as [|a s]; [done|]. simpl in *.
    destruct (Ascii.eqb_spec a ".") as [->|]; [done|].
    destruct (split "." s); simpl in *; by constructor. }
  clear -HF. induction HF as [|p l Hp _ IH]; simpl; [done|].
  rewrite Forall_cons, andb_true_iff, IH. destruct p; done.
Qed.

(** Both loops together, on a key that starts with a letter. *)
Lemma LabelKey_new_letter b raw :
  utf8 (b :: raw) -> is_ascii_lowercase b = true ->
  is_ok (LabelKey_new (b :: raw)) = true <->
  separators false (b :: raw) = Some false
  /\ forallb segment_ok (split "." (b :: raw)) = true.
Proof.
  intros Hu Hb.
  assert (Hba : is_ascii b = true).
  { clear Hu. revert b Hb. apply (by_bytes2 is_ascii_lowercase is_ascii).
    vm_compute. reflexivity. }
  pose proof (utf8_tail_ascii _ _ Hba Hu) as Hu'.
  assert (Hscan : match LabelKey_scan false (char_indices (b :: raw)) with
                  | Ok p => Some p | Err _ => None end = separators false (b :: raw)).
  { change (b :: raw) with ([b] ++ raw). rewrite char_indices_char by done. simpl.
    rewrite Hba. simpl. unfold label_alnum. unfold is_ascii_lowercase in Hb. rewrite Hb.
    apply LabelKey_scan_bytes; [done|lia]. }
  set (G := forallb segment_ok (split "." (b :: raw))).
  unfold LabelKey_new. rewrite Hb. simpl negb. cbv iota. rewrite <- Hscan.
  destruct (LabelKey_scan false (char_indices (b :: raw))) as [p|e]; simpl; [|split; naive_solver].
  destruct p; [split; naive_solver|].
  destruct (separators_spec false (b :: raw) false) as (HF & _ & _ & _); [by rewrite <- Hscan|].
  pose proof (LabelKey_segments_ok [] [] (b :: raw)) as Hseg.
  rewrite !app_nil_l in Hseg. unfold G. rewrite <- Hseg; [|clear -HF|apply not_elem_of_nil].
  - clear. unfold char_indices. change (length [] + length []) with 0. change (length []) with 0.
    destruct (LabelKey_segments _ _ _) as [st|]; simpl; [|naive_solver].
    destruct (LabelKey_segment_start _ _); simpl; naive_solver.
  - induction HF as [|c l Hc _ IH]; simpl; [done|].
    by rewrite (label_byte_ascii _ Hc), IH.
Qed.

Lemma LabelKey_new_grammar raw :
  utf8 raw -> (is_ok (LabelKey_new raw) = true <-> label_key_grammar raw).
Proof.
  intros Hu. destruct raw as [|b raw].
  { split; [done|]. intros [_ H _ _]. simpl in H. by inversion H. }
  destruct (is_ascii_lowercase b) eqn:Hb; cycle 1.
  { unfold LabelKey_new. rewrite Hb. split; [done|]. intros [_ H _ _]. exfalso. simpl in H.
    destruct (Ascii.eqb b "."); [by inversion H|].
    pose proof (split_nonempty "." raw). destruct (split "." raw); [done|].
    inversion H as [|?? H']; subst. simpl in H'. congruence. }
  rewrite LabelKey_new_letter by done. split.
  - intros [Hs Hseg]. apply separators_spec in Hs as (HF & _ & Hadj & Hl).
    assert (Hdot : forall i, (b :: raw) !! i = Some "."%char -> (b :: raw) !! S i <> Some "."%char).
    { intros i H1 H2. by specialize (Hadj i _ _ H1 H2 eq_refl). }
    assert (Hlast : forall c, last (b :: raw) = Some c -> label_separator c = false).
    { intros c E. by rewrite E in Hl. }
    split; try done. apply split_segments_ok; try done.
    intros E. by specialize (Hlast _ E).
  - intros [HF Hseg Hadj Hl]. split.
    + rewrite separators_complete by done. rewrite last_cons in *.
      destruct (last raw); by rewrite Hl.
    + apply split_segments_ok; try done.
      * intros i H1 H2. by specialize (Hadj i _ _ H1 H2 eq_refl).
      * intros E. by specialize (Hl _ E).
Qed.

(** *** User specs *)

Lemma login_byte_ascii c : login_byte c = true -> is_ascii c = true.
Proof. revert c. apply (by_bytes2 login_byte is_ascii). vm_compute. reflexivity. Qed.

Lemma digit_ascii c : is_ascii_digit c = true -> is_ascii c = true.
Proof. revert c. apply (by_bytes2 is_ascii_digit is_ascii). vm_compute. reflexivity. Qed.

Lemma login_char ch :
  char_is is_ascii_lowercase ch || char_is is_ascii_digit ch || bool_decide (ch = "_")
  || bool_decide (ch = "-") = char_is login_byte ch.
Proof. by rewrite char_is_orb, (char_is_or _ _ "_"), (char_is_or _ _ "-") by done. Qed.

Lemma user_body_ok off r1 r2 i :
  utf8 r1 ->
  is_ok (user_body (i + length r1) off (indices_from i (chars (r1 ++ r2)))) = forallb login_byte r1.
Proof.
  intros H. revert i. induction H as [|ch s Hv Hs IH]; intros i.
  - simpl. rewrite Nat.add_0_r. destruct (chars r2); simpl; [done|].
    by rewrite bool_decide_eq_true_2 by lia.
  - rewrite <- app_assoc, chars_char by done. simpl. rewrite length_app.
    pose proof (valid_char_nonempty _ Hv).
    rewrite bool_decide_eq_false_2 by lia. rewrite login_char.
    rewrite forallb_app, <- (IH (i + length ch)), <- Nat.add_assoc.
    destruct (char_is login_byte ch) eqn:E; simpl.
    + unfold char_is in E. destruct ch as [|c [|]]; try done. bools. simpl. by rewrite H1.
    + destruct (valid_char_cases _ Hv) as [(c & -> & Hc)|HF].
      * simpl in E. rewrite Hc in E. simpl in E. simpl. by rewrite E.
      * destruct ch as [|c ch]; [done|]. inversion HF as [|?? Ha _]; subst. simpl.
        destruct (login_byte c) eqn:E2; [|done]. apply login_byte_ascii in E2. congruence.
Qed.

Lemma ends_with_snoc c r : ends_with_byte c r = true -> exists r1, r = r1 ++ [c].
Proof.
  unfold ends_with_byte. destruct (last r) as [a|] eqn:E; [|done].
  intros H. apply Ascii.eqb_eq in H as ->. apply last_Some in E as [r1 ->]. eauto.
Qed.

Lemma parse_unsigned_digits max c :
  c <> [] -> forallb is_ascii_digit c = true ->
  parse_unsigned max c = if (decimal c <=? max)%N then Some (decimal c) else None.
Proof.
  intros Hne H. unfold parse_unsigned. destruct c as [|b r]; [done|].
  pose proof H as H'. simpl in H'. bools.
  assert (b <> "+"%char) by (intros ->; done).
  assert (match b :: r with "+"%char :: s' => s' | _ => b :: r end = b :: r) as ->.
  { destruct b as [[] [] [] [] [] [] [] []]; try done. }
  cbv zeta. rewrite H. by destruct (decimal (b :: r) <=? max)%N.
Qed.

Lemma validate_user_component_ok c off :
  utf8 c -> c <> [] -> is_ok (validate_user_component c off) = user_component c.
Proof.
  intros Hu Hne. unfold validate_user_component, user_component.
  rewrite forallb_chars, (forallb_ascii_and _ _ digit_ascii) by done.
  rewrite (bool_decide_eq_false_2 (c = [])) by done. simpl negb. rewrite andb_true_l.
  destruct (forallb is_ascii_digit c) eqn:Hd.
  { rewrite parse_unsigned_digits by done. by destruct (decimal c <=? u32_max)%N. }
  unfold MAX_LOGIN_LEN. destruct (decide (32 < length c)) as [Hl|Hl].
  { rewrite bool_decide_eq_true_2 by done. rewrite bool_decide_eq_false_2 by lia. done. }
  rewrite bool_decide_eq_false_2 by done. rewrite bool_decide_eq_true_2 by lia.
  rewrite andb_true_l. destruct Hu as [|ch s Hv Hs]; [done|].
  rewrite char_indices_char, (char_is_or _ _ "_") by done.
  destruct (valid_char_cases _ Hv) as [(b & -> & Hb)|HF]; cycle 1.
  { destruct ch as [|a ch]; [done|]. inversion HF as [|?? Ha _]; subst.
    assert (is_ascii_lowercase a || Ascii.eqb a "_" = false) as Hf.
    { destruct (_ || _) eqn:E; [|done]. exfalso.
      rewrite (login_byte_ascii a) in Ha; [done|]. unfold login_byte.
      apply orb_true_iff in E as [E|E]; rewrite E; by rewrite ?orb_true_r. }
    simpl app. cbv beta iota. rewrite Hf. unfold char_is. by destruct ch; rewrite ?Ha. }
  simpl app. simpl char_is. rewrite Hb. cbv beta iota. simpl negb.
  destruct (is_ascii_lowercase b || Ascii.eqb b "_") eqn:E; simpl; [|done].
  assert (He : ends_with_byte "$" (b :: s) = ends_with_byte "$" s).
  { unfold ends_with_byte. rewrite last_cons. destruct (last s); [done|].
    destruct (Ascii.eqb_spec b "$") as [->|]; done. }
  rewrite He. destruct (ends_with_byte "$" s) eqn:Es.
  - apply ends_with_snoc in Es as [r1 ->]. rewrite length_app. simpl.
    replace (length r1 + 1 - 0) with (1 + length r1) by lia.
    replace (length r1 + 1 - 1) with (length r1) by lia. rewrite take_app_length.
    apply (user_body_ok off r1 ["$"%char] 1). apply (utf8_prefix _ ["$"%char]); [done|].
    by apply utf8_ascii.
  - pose proof (user_body_ok off s [] 1 Hs) as HB. rewrite app_nil_r in HB. exact HB.
Qed.

Lemma Username_is_ok raw : utf8 raw -> is_ok (Username_new raw) = user_spec raw.
Proof.
  intros Hu. unfold Username_new, user_spec, split_once.
  destruct (decide (raw = [])) as [->|Hne]; [done|].
  rewrite bool_decide_eq_false_2 by done.
  destruct (find_byte ":" raw) as [i|] eqn:E; cbv beta iota zeta.
  - destruct (utf8_take_find ":" raw i eq_refl Hu E) as [Hu1 Hu2].
    replace (i + 1) with (S i) by lia.
    destruct (decide (take i raw = [])) as [->|Hne1]; [done|].
    rewrite bool_decide_eq_false_2 by done.
    rewrite <- (validate_user_component_ok (take i raw) 0) by done.
    destruct (validate_user_component (take i raw) 0) as [[]|]; simpl; [|done].
    destruct (decide (drop (S i) raw = [])) as [->|Hne2]; [done|].
    rewrite bool_decide_eq_false_2 by done.
    rewrite <- (validate_user_component_ok (drop (S i) raw) (S i)) by done.
    by destruct (validate_user_component _ (S i)) as [[]|].
  - rewrite bool_decide_eq_false_2 by done.
    rewrite <- (validate_user_component_ok raw 0) by done.
    by destruct (validate_user_component raw 0) as [[]|].
Qed.

(** *** Unit names *)

Lemma UnitSuffix_from_as_str u : UnitSuffix_from_str (UnitSuffix_as_str u) = Some u.
Proof. destruct u; reflexivity. Qed.

Lemma UnitSuffix_from_str_Some s u : UnitSuffix_from_str s = Some u -> s = UnitSuffix_as_str u.
Proof. unfold UnitSuffix_from_str. intros H. repeat case_decide; by simplify_eq. Qed.

Lemma unit_new_parts raw u :
  ServiceUnitName_new raw = Ok u ->
  unit_raw u = raw /\ bare_name u <> []
  /\ raw = bare_name u ++ match unit_suffix u with
                          | Some s => "." ++ UnitSuffix_as_str s
                          | None => []
                          end.
Proof.
  unfold ServiceUnitName_new. destruct (decide (raw = [])) as [->|Hne]; [done|].
  rewrite bool_decide_eq_false_2 by done. cbv zeta.
  destruct (first_rejected _ _) as [[]|]; [done|].
  assert (Hplain : {| unit_raw := raw; suffix_start := None; unit_suffix := None |} = u ->
    unit_raw u = raw /\ bare_name u <> []
    /\ raw = bare_name u ++ match unit_suffix u with
                            | Some s => "." ++ UnitSuffix_as_str s | None => [] end).
  { intros <-. simpl. by rewrite app_nil_r. }
  destruct (rfind_byte "." raw) as [i|] eqn:E; [|intros [= H]; auto].
  destruct (negb _ && _) eqn:E2; [|intros [= H]; auto].
  destruct (UnitSuffix_from_str _) as [suf|] eqn:E3; [|done].
  destruct (decide (i = 0)) as [->|Hi]; [done|]. rewrite bool_decide_eq_false_2 by done.
  intros [= <-]. unfold bare_name. simpl. replace (i + 1 - 1) with i by lia.
  pose proof (rfind_byte_lt _ _ _ E) as Hlt. apply rfind_byte_Some in E as [E _].
  apply UnitSuffix_from_str_Some in E3. rewrite <- E3. split_and!; [done| |].
  - intros H. apply (f_equal length) in H. rewrite length_take in H. simpl in H. lia.
  - replace (i + 1) with (S i) by lia. change ("." ++ drop (S i) raw) with ("."%char :: drop (S i) raw).
    by rewrite <- (drop_S _ _ _ E), take_drop.
Qed.

Definition unit_byte (c : ascii) : bool := is_ascii_alphanumeric c || one_of "_.-@:" c.

Lemma unit_byte_ascii c : unit_byte c = true -> is_ascii c = true.
Proof. revert c. apply (by_bytes2 unit_byte is_ascii). vm_compute. reflexivity. Qed.

Lemma unit_first_rejected raw :
  utf8 raw ->
  match first_rejected
          (fun ch => char_is is_ascii_alphanumeric ch || char_is (one_of "_.-@:") ch)
          (char_indices raw) with None => true | Some _ => false end = forallb unit_byte raw.
Proof.
  intros Hu. rewrite (first_rejected_ext _ (char_is unit_byte)) by (intros; apply char_is_orb).
  apply first_rejected_bytes; [done|apply unit_byte_ascii].
Qed.

(** A name followed by a known suffix parses, and splits where it was joined. *)
Lemma unit_new_suffixed raw s :
  utf8 raw -> raw <> [] -> forallb unit_byte raw = true ->
  ServiceUnitName_new (raw ++ "." ++ UnitSuffix_as_str s)
  = Ok {| unit_raw := raw ++ "." ++ UnitSuffix_as_str s;
          suffix_start := Some (length raw + 1); unit_suffix := Some s |}.
Proof.
  intros Hu Hne Hb. set (full := raw ++ "." ++ UnitSuffix_as_str s).
  assert (Hs : forallb is_ascii (UnitSuffix_as_str s) = true
               /\ forallb is_ascii_alphabetic (UnitSuffix_as_str s) = true
               /\ forallb unit_byte (UnitSuffix_as_str s) = true
               /\ UnitSuffix_as_str s <> []) by (destruct s; done).
  destruct Hs as (Ha & Hal & Hub & Hn).
  assert (Hfull : utf8 full) by (apply utf8_app; [done|]; by apply utf8_ascii).
  unfold ServiceUnitName_new. rewrite bool_decide_eq_false_2; cycle 1.
  { intros H. apply Hne. by apply app_eq_nil in H as [? _]. }
  pose proof (unit_first_rejected full Hfull) as HR.
  assert (forallb unit_byte full = true) as Hall.
  { unfold full. rewrite forallb_app, Hb. simpl. by rewrite Hub. }
  rewrite Hall in HR. destruct (first_rejected _ (char_indices full)) as [[]|]; [done|].
  cbv zeta. unfold full at 1. change ("." ++ UnitSuffix_as_str s) with ("."%char :: UnitSuffix_as_str s).
  rewrite rfind_byte_app; cycle 1.
  { intros Hin. rewrite forallb_forall in Hal. apply list_elem_of_In in Hin.
    by specialize (Hal _ Hin). }
  assert (drop (length raw + 1) full = UnitSuffix_as_str s) as ->.
  { unfold full. rewrite <- drop_drop, drop_app_length. done. }
  rewrite forallb_chars by by apply utf8_ascii.
  assert (forallb (fun c => is_ascii c && is_ascii_alphabetic c) (UnitSuffix_as_str s) = true) as ->
    by (destruct s; done).
  rewrite bool_decide_eq_false_2 by done. simpl. rewrite UnitSuffix_from_as_str.
  rewrite bool_decide_eq_false_2; [done|]. by destruct raw.
Qed.

Lemma unit_new_bytes raw u : utf8 raw -> ServiceUnitName_new raw = Ok u -> forallb unit_byte raw = true.
Proof.
  intros Hu. unfold ServiceUnitName_new. destruct (decide (raw = [])) as [->|Hne]; [done|].
  rewrite bool_decide_eq_false_2 by done. cbv zeta. rewrite <- (unit_first_rejected raw Hu).
  by destruct (first_rejected _ _) as [[]|].
Qed.

(** *** Offsets *)

Lemma LabelKey_scan_offset prev l e o :
  LabelKey_scan prev l = Err e -> offset e = Some o -> o = 0 \/ exists ch, (o, ch) ∈ l.
Proof.
  revert prev. induction l as [|[i ch] l IH]; intros prev; simpl; [done|].
  intros H Ho. assert (Hrec : forall p, LabelKey_scan p l = Err e -> o = 0 \/ exists c, (o, c) ∈ (i, ch) :: l).
  { intros p Hp. destruct (IH p Hp Ho) as [?|[c Hc]]; [by left|right; exists c; by right]. }
  cases_in H; simplify_eq/=; eauto; right; exists ch; by left.
Qed.

Lemma LabelKey_segments_offset raw st l :
  st <= length raw -> Forall (fun '(i, _) => i < length raw) l ->
  match LabelKey_segments raw st l with
  | Ok st' => st' <= length raw
  | Err e => forall o, offset e = Some o -> o <= length raw
  end.
Proof.
  intros Hst HF. revert st Hst. induction HF as [|[i ch] l Hi _ IH]; intros st Hst; simpl; [done|].
  case_bool_decide; [|by apply IH].
  unfold LabelKey_segment_start. destruct (first_char _) as [f|]; simpl; [|apply IH; lia].
  destruct (negb _); simpl; [by intros o [= <-]|apply IH; lia].
Qed.

Lemma user_body_offset be off l e o n :
  Forall (fun '(i, _) => i < n) l -> user_body be off l = Err e -> offset e = Some o -> o <= off + n.
Proof.
  induction 1 as [|[i ch] l Hi _ IH]; simpl; [done|].
  case_bool_decide; [done|]. destruct (negb _); [|exact IH]. intros [= <-] [= <-]. lia.
Qed.

Lemma validate_user_component_offset c off e o :
  utf8 c -> validate_user_component c off = Err e -> offset e = Some o -> o <= off + length c.
Proof.
  intros Hu. pose proof (char_indices_Forall_lt c Hu) as HF. unfold validate_user_component.
  destruct (forallb _ _).
  { destruct (parse_unsigned _ _); [done|]. intros [= <-] [= <-]. lia. }
  case_bool_decide; [intros [= <-] [= <-]; lia|].
  destruct (char_indices c) as [|[i first] rest]; [by intros [= <-]|].
  destruct (negb _); [intros [= <-] [= <-]; lia|]. cbv zeta.
  inversion HF as [|?? _ HF']; subst. by apply user_body_offset.
Qed.

(** ** Every identifier newtype honours the interface *)

#[export] Program Instance EnvVarName_NewType : NewType EnvVarName EnvVarNameError := {
  new := EnvVarName_new; as_str := EnvVarName_0
}.
Next Obligation. intros raw v H. by apply EnvVarName_new_Ok in H as [_ ->]. Qed.
Next Obligation.
  intros raw e o Hu H Ho. unfold EnvVarName_new in H.
  destruct (char_indices raw) as [|[i f] l] eqn:E; cases_in H; offset_le.
Qed.

#[export] Program Instance EnvVarValue_NewType : NewType EnvVarValue EnvVarValueError := {
  new := EnvVarValue_new; as_str := EnvVarValue_0
}.
Next Obligation. unfold EnvVarValue_new. intros. case_match; by simplify_eq. Qed.
Next Obligation.
  unfold EnvVarValue_new, reject_nul. intros raw e o Hu H Ho.
  destruct (find_byte nul raw) eqn:E; offset_le.
Qed.

#[export] Program Instance LabelValue_NewType : NewType LabelValue LabelValueError := {
  new := LabelValue_new; as_str := LabelValue_0
}.
Next Obligation. unfold LabelValue_new. intros. case_match; by simplify_eq. Qed.
Next Obligation.
  unfold LabelValue_new, reject_nul. intros raw e o Hu H Ho.
  destruct (find_byte nul raw) eqn:E; offset_le.
Qed.

Lemma validate_bare_identifier_offset raw :
  utf8 raw ->
  match validate_bare_identifier raw with
  | Err (BareIdentifier_InvalidChar _ o) => o <= length raw
  | _ => True
  end.
Proof.
  intros Hu. unfold validate_bare_identifier.
  destruct (char_indices raw) as [|[i f] l] eqn:E; [done|]. destruct (negb _); [done|].
  destruct (first_rejected _ l) as [[j c]|] eqn:E2; [|done]. offset_le.
Qed.

#[export] Program Instance StageName_NewType : NewType StageName StageNameError := {
  new := StageName_new; as_str := StageName_0
}.
Next Obligation. intros raw v H. by apply StageName_new_Ok in H as [_ ->]. Qed.
Next Obligation.
  intros raw e o Hu H Ho. pose proof (validate_bare_identifier_offset raw Hu).
  unfold StageName_new in H. cases_in H; offset_le.
Qed.

#[export] Program Instance SecretId_NewType : NewType SecretId SecretIdError := {
  new := SecretId_new; as_str := SecretId_0
}.
Next Obligation. intros raw v H. by apply SecretId_new_Ok in H as [_ ->]. Qed.
Next Obligation.
  intros raw e o Hu H Ho. pose proof (validate_bare_identifier_offset raw Hu).
  unfold SecretId_new in H. cases_in H; offset_le.
Qed.

#[export] Program Instance LabelKey_NewType : NewType LabelKey LabelKeyError := {
  new := LabelKey_new; as_str := LabelKey_0
}.
Next Obligation.
  intros raw v H. unfold LabelKey_new in H. destruct raw; [done|]. destruct (negb _); [done|].
  apply bind_Ok in H as ([] & _ & H); [done|].
  apply bind_Ok in H as (st & _ & H). apply bind_Ok in H as (? & _ & H). by simplify_eq.
Qed.
Next Obligation.
  intros raw e o Hu H Ho. pose proof (char_indices_Forall_lt raw Hu) as HF.
  destruct raw as [|b raw]; [by simplify_eq/=|]. unfold LabelKey_new in H.
  destruct (negb _); [simplify_eq/=; lia|].
  destruct (LabelKey_scan _ _) as [[]|e'] eqn:E; simpl in H; simplify_eq.
  - injection Ho as <-. simpl. lia.
  - pose proof (LabelKey_segments_offset (b :: raw) 0 _ ltac:(lia) HF) as HS.
    destruct (LabelKey_segments _ _ _) as [st|e'] eqn:E2; simpl in H; simplify_eq; [|by apply HS].
    unfold LabelKey_segment_start in H. destruct (first_char _); [|done].
    destruct (negb _); [|done]. simpl in H. simplify_eq/=. done.
  - destruct (LabelKey_scan_offset _ _ _ _ E Ho) as [->|[ch Hin]]; [lia|].
    rewrite Forall_forall in HF. specialize (HF _ Hin). simpl in HF |- *. lia.
Qed.

#[export] Program Instance Username_NewType : NewType Username UsernameError := {
  new := Username_new; as_str := Username_0
}.
Next Obligation.
  intros raw v H. unfold Username_new in H. case_bool_decide; [done|].
  destruct (match find_byte _ _ with Some _ => _ | None => _ end) as [u g].
  case_bool_decide; [done|]. apply bind_Ok in H as (? & _ & H).
  apply bind_Ok in H as (? & _ & H). by simplify_eq.
Qed.
Next Obligation.
  intros raw e o Hu H Ho. unfold Username_new in H. case_bool_decide; [by simplify_eq/=|].
  destruct (find_byte ":" raw) as [i|] eqn:E; cbv beta iota zeta in H.
  - destruct (utf8_take_find ":" raw i eq_refl Hu E) as [Hu1 Hu2].
    pose proof (find_byte_lt _ _ _ E).
    replace (i + 1) with (S i) in H by lia. case_bool_decide; [by simplify_eq/=|].
    destruct (validate_user_component (take i raw) 0) as [[]|e'] eqn:E1; simpl in H; cycle 1.
    { simplify_eq. pose proof (validate_user_component_offset _ _ _ _ Hu1 E1 Ho) as HL.
      rewrite length_take in HL. lia. }
    case_bool_decide; [simplify_eq/=; lia|].
    destruct (validate_user_component (drop (S i) raw) (S i)) as [[]|e'] eqn:E2; simplify_eq/=.
    pose proof (validate_user_component_offset _ _ _ _ Hu2 E2 Ho) as HL.
    rewrite length_drop in HL. lia.
  - case_bool_decide; [done|].
    destruct (validate_user_component raw 0) as [[]|e'] eqn:E1; simplify_eq/=.
    exact (validate_user_component_offset _ _ _ _ Hu E1 Ho).
Qed.

#[export] Program Instance ServiceUnitName_NewType : NewType ServiceUnitName ServiceUnitNameError := {
  new := ServiceUnitName_new; as_str := unit_raw
}.
Next Obligation. intros raw v H. by apply unit_new_parts in H as [? _]. Qed.
Next Obligation.
  intros raw e o Hu H Ho. unfold ServiceUnitName_new in H. case_bool_decide; [by simplify_eq/=|].
  cbv zeta in H. cases_in H; offset_le.
Qed.

(** ** Properties *)

(** The constructors of environment names, stage names and
    secret ids accept exactly their documented grammars
    [[A-Za-z_][A-Za-z0-9_]*] and [[A-Za-z_][A-Za-z0-9_-]*], and keep the text. *)
Theorem identifier_constructors_exact raw :
  utf8 raw ->
  (EnvVarName_new raw = Ok {| EnvVarName_0 := raw |} <-> identifier raw = true)
  /\ (StageName_new raw = Ok {| StageName_0 := raw |} <-> bare_identifier raw = true)
  /\ (SecretId_new raw = Ok {| SecretId_0 := raw |} <-> bare_identifier raw = true).
Proof.
  intros Hu. rewrite EnvVarName_new_Ok, StageName_new_Ok, SecretId_new_Ok.
  rewrite EnvVarName_is_ok, validate_bare_identifier_is_ok by done. naive_solver.
Qed.

Lemma identifier_constructors_exact_witness :
  EnvVarName_new "PATH_2" = Ok {| EnvVarName_0 := "PATH_2" |}
  /\ StageName_new "run-time" = Ok {| StageName_0 := "run-time" |}.
Proof.
  split.
  - apply (identifier_constructors_exact "PATH_2"); [by apply utf8_ascii|reflexivity].
  - apply (identifier_constructors_exact "run-time"); [by apply utf8_ascii|reflexivity].
Defined.

(** C34 (equivalence): [LabelKey::new] accepts exactly the documented
    reverse-DNS grammar: the alphabet [[a-z0-9.-]], every [.]-segment non-empty
    and starting with a letter, no consecutive and no trailing separators. *)
Theorem LabelKey_new_exact raw :
  utf8 raw -> (LabelKey_new raw = Ok {| LabelKey_0 := raw |} <-> label_key_grammar raw).
Proof.
  intros Hu. rewrite <- (LabelKey_new_grammar raw Hu).
  split; [by intros ->|]. destruct (LabelKey_new raw) as [v|] eqn:E; [|done].
  intros _. pose proof (new_as_str (T := LabelKey) raw v E) as Hv. simpl in Hv.
  destruct v. simpl in Hv. by subst.
Qed.

Lemma LabelKey_new_exact_witness : label_key_grammar "org.imagilux.umf-x.type2".
Proof.
  apply (LabelKey_new_exact "org.imagilux.umf-x.type2"); [by apply utf8_ascii|].
  vm_compute. reflexivity.
Defined.

(** C35 (equivalence): [Username::new] accepts exactly a login name of at most 32
    bytes or a number that fits in 32 bits, optionally followed by [:] and a
    group of the same shape. *)
Theorem Username_new_exact raw :
  utf8 raw -> (Username_new raw = Ok {| Username_0 := raw |} <-> user_spec raw = true).
Proof.
  intros Hu. rewrite <- (Username_is_ok raw Hu).
  split; [by intros ->|]. destruct (Username_new raw) as [v|] eqn:E; [|done].
  intros _. pose proof (new_as_str (T := Username) raw v E) as Hv. simpl in Hv.
  destruct v. simpl in Hv. by subst.
Qed.

Lemma Username_new_exact_witness :
  Username_new "svc$:4294967295" = Ok {| Username_0 := "svc$:4294967295" |}.
Proof.
  apply (Username_new_exact "svc$:4294967295"); [by apply utf8_ascii|vm_compute; reflexivity].
Defined.

(** Qualifying a unit name with a default suffix yields a unit
    name with the same base, whose suffix is the one already present or else the
    default; and every parsed name is its base followed by its suffix. *)
Theorem unit_with_default_suffix raw u d :
  utf8 raw -> ServiceUnitName_new raw = Ok u ->
  raw = bare_name u ++ match unit_suffix u with
                       | Some s => "." ++ UnitSuffix_as_str s | None => [] end
  /\ exists u', ServiceUnitName_new (with_default_suffix u d) = Ok u'
       /\ bare_name u' = bare_name u /\ unit_suffix u' = Some (default d (unit_suffix u)).
Proof.
  intros Hu H. pose proof (unit_new_parts _ _ H) as (Hraw & Hne & Hsplit). split; [done|].
  unfold with_default_suffix. rewrite Hraw. destruct (unit_suffix u) as [s|] eqn:Es; simpl.
  - exists u. done.
  - assert (bare_name u = raw) as Hb by (by rewrite Hsplit, app_nil_r).
    rewrite Hb in Hne |- *. pose proof (unit_new_suffixed raw d Hu Hne (unit_new_bytes _ _ Hu H)) as HN.
    simpl in HN. rewrite HN. eexists. split; [done|]. split; [|done].
    unfold bare_name. simpl. replace (length raw + 1 - 1) with (length raw) by lia.
    apply take_app_length.
Qed.

Lemma unit_with_default_suffix_witness :
  exists u', ServiceUnitName_new "getty@tty1.service" = Ok u'
    /\ bare_name u' = "getty@tty1" /\ unit_suffix u' = Some UnitSuffix_Service.
Proof.
  pose proof (unit_with_default_suffix "getty@tty1"
    {| unit_raw := "getty@tty1"; suffix_start := None; unit_suffix := None |} UnitSuffix_Service)
    as [_ H]; [by apply utf8_ascii|vm_compute; reflexivity|]. exact H.
Defined.
