(* ===== verification/Paths.v ===== *)
(** * Paths: image paths and download URLs
    (crates/umf-core/src/types/path.rs and url.rs). *)

From S2P Require Import Prelude RustStr RustStrFacts Subst Validation.

(** ** Absolute paths *)

Record AbsolutePath := { AbsolutePath_0 : str }.

Inductive AbsolutePathError :=
| AbsolutePathError_Empty
| AbsolutePathError_NotAbsolute (ch : str)
| AbsolutePathError_NulByte (off : nat)
| AbsolutePathError_Backslash (off : nat)
| AbsolutePathError_TrailingSlash (off : nat)
| AbsolutePathError_EmptyComponent (off : nat).

(** The loop that refuses [//]. *)
Fixpoint AbsolutePath_components (prev_slash : bool) (l : list (nat * str))
    : result AbsolutePathError unit :=
  match l with
  | [] => Ok tt
  | (i, ch) :: l' =>
      if bool_decide (ch = "/") then
        if prev_slash then Err (AbsolutePathError_EmptyComponent i)
        else AbsolutePath_components true l'
      else AbsolutePath_components false l'
  end.

Definition AbsolutePath_new (raw : str) : result AbsolutePathError AbsolutePath :=
  if bool_decide (raw = []) then Err AbsolutePathError_Empty
  else if negb (starts_with "/" raw) then
    Err (AbsolutePathError_NotAbsolute (default ("?" : str) (first_char raw)))
  else match find_byte nul raw with
  | Some pos => Err (AbsolutePathError_NulByte pos)
  | None => match find_byte backslash raw with
  | Some pos => Err (AbsolutePathError_Backslash pos)
  | None =>
      if bool_decide (1 < length raw) && ends_with_byte "/" raw then
        Err (AbsolutePathError_TrailingSlash (length raw - 1))
      else
        _ ← AbsolutePath_components false (char_indices raw);
        Ok {| AbsolutePath_0 := raw |}
  end end.

#[export] Instance AbsolutePathError_validation : ValidationError AbsolutePathError := {
  offset e := match e with
    | AbsolutePathError_Empty => None
    | AbsolutePathError_NotAbsolute _ => Some 0
    | AbsolutePathError_NulByte o | AbsolutePathError_Backslash o
    | AbsolutePathError_TrailingSlash o | AbsolutePathError_EmptyComponent o => Some o
    end;
  hint _ := Some ("paths in the image are absolute and use `/`, e.g. `/etc/nginx/nginx.conf`" : str);
  to_string e := match e with
    | AbsolutePathError_Empty => "path cannot be empty"
    | AbsolutePathError_NotAbsolute ch =>
        "path must be absolute (start with `/`), found `" ++ ch ++ "`"
    | AbsolutePathError_NulByte _ => "path cannot contain a NUL byte"
    | AbsolutePathError_Backslash _ => "path cannot contain `\` — UMF images are Linux"
    | AbsolutePathError_TrailingSlash _ => "path cannot end with `/` (except the root `/`)"
    | AbsolutePathError_EmptyComponent _ =>
        "path cannot contain an empty component (consecutive `/`)"
    end
}.

(** ** Paths as written in a recipe *)

Record RecipePath := { RecipePath_0 : str }.

Inductive RecipePathError :=
| RecipePathError_Empty
| RecipePathError_NulByte (off : nat)
| RecipePathError_Backslash (off : nat).

Definition RecipePath_new (raw : str) : result RecipePathError RecipePath :=
  if bool_decide (raw = []) then Err RecipePathError_Empty
  else match find_byte nul raw with
  | Some pos => Err (RecipePathError_NulByte pos)
  | None => match find_byte backslash raw with
  | Some pos => Err (RecipePathError_Backslash pos)
  | None => Ok {| RecipePath_0 := raw |}
  end end.

Definition is_absolute (p : RecipePath) : bool := starts_with "/" (RecipePath_0 p).

Definition has_trailing_slash (p : RecipePath) : bool :=
  bool_decide (1 < length (RecipePath_0 p)) && ends_with_byte "/" (RecipePath_0 p).

#[export] Instance RecipePathError_validation : ValidationError RecipePathError := {
  offset e := match e with
    | RecipePathError_Empty => None
    | RecipePathError_NulByte o | RecipePathError_Backslash o => Some o
    end;
  hint _ := Some ("paths may be absolute (`/etc/nginx`) or relative to the current WORKDIR (`./conf`); a trailing `/` is allowed and forces directory semantics on ADD/COPY destinations" : str);
  to_string e := match e with
    | RecipePathError_Empty => "path cannot be empty"
    | RecipePathError_NulByte _ => "path cannot contain a NUL byte"
    | RecipePathError_Backslash _ => "path cannot contain `\` — UMF images are Linux"
    end
}.

(** ** URLs *)

Record HttpsUrl := {
  url_raw : str;
  authority_start : nat;
  https : bool
}.

Inductive HttpsUrlError :=
| HttpsUrlError_MissingScheme
| HttpsUrlError_EmptyAuthority
| HttpsUrlError_NulByte (off : nat).

(** The scheme test, written out in both constructors of the source. *)
Definition url_scheme (raw : str) : result HttpsUrlError (nat * bool) :=
  match strip_prefix "https://" raw with
  | Some [] => Err HttpsUrlError_EmptyAuthority
  | Some _ => Ok (8, true)
  | None =>
      match strip_prefix "http://" raw with
      | Some [] => Err HttpsUrlError_EmptyAuthority
      | Some _ => Ok (7, false)
      | None => Err HttpsUrlError_MissingScheme
      end
  end.

Definition HttpsUrl_new (raw : str) : result HttpsUrlError HttpsUrl :=
  '(authority_start, https) ← url_scheme raw;
  match find_byte nul raw with
  | Some pos => Err (HttpsUrlError_NulByte pos)
  | None => Ok {| url_raw := raw; authority_start := authority_start; https := https |}
  end.

Definition HttpsUrl_new_allowing_placeholders (raw : str) : result HttpsUrlError HttpsUrl :=
  if negb (contains_placeholder raw) then HttpsUrl_new raw
  else
    '(authority_start, https) ← url_scheme raw;
    match find_byte nul raw with
    | Some pos => Err (HttpsUrlError_NulByte pos)
    | None => Ok {| url_raw := raw; authority_start := authority_start; https := https |}
    end.

(** [&self.raw[self.authority_start..]]; [None] is the panic. *)
Definition authority_and_path (u : HttpsUrl) : option str :=
  slice (url_raw u) (authority_start u) (length (url_raw u)).

#[export] Instance HttpsUrlError_validation : ValidationError HttpsUrlError := {
  offset e := match e with
    | HttpsUrlError_MissingScheme => Some 0
    | HttpsUrlError_EmptyAuthority => None
    | HttpsUrlError_NulByte o => Some o
    end;
  hint _ := Some ("only `http://` and `https://` are recognised — local files use a plain path" : str);
  to_string e := match e with
    | HttpsUrlError_MissingScheme => "URL must begin with `http://` or `https://`"
    | HttpsUrlError_EmptyAuthority => "URL has no authority after the scheme"
    | HttpsUrlError_NulByte _ => "URL cannot contain a NUL byte"
    end
}.

(** ** Reference grammars *)

Definition path_byte (c : ascii) : bool :=
  negb (Ascii.eqb c nul) && negb (Ascii.eqb c backslash).

(** A component: non-empty, without [/], NUL or backslash. *)
Definition path_component (comp : str) : Prop :=
  comp <> [] /\ Forall (fun c => path_byte c = true /\ c <> "/"%char) comp.

(** The root, or one or more components each introduced by a slash. *)
Definition absolute_grammar (raw : str) : Prop :=
  raw = "/" \/ exists comps, comps <> [] /\ Forall path_component comps
                             /\ raw = concat ((fun c => "/" ++ c) <$> comps).

(** ** Lemmas *)

(** The loop on bytes. *)
Fixpoint single_slashes (prev : bool) (s : str) : bool :=
  match s with
  | [] => true
  | c :: s' => if Ascii.eqb c "/" then negb prev && single_slashes true s'
               else single_slashes false s'
  end.

Lemma single_slashes_skip prev ch s :
  ch <> [] -> "/"%char ∉ ch -> single_slashes prev (ch ++ s) = single_slashes false s.
Proof.
  revert prev. induction ch as [|c ch IH]; [done|]. intros prev _.
  rewrite not_elem_of_cons. intros [Hc Hch]. simpl.
  destruct (Ascii.eqb_spec c "/") as [->|_]; [done|].
  destruct ch as [|d ch]; [done|]. by apply IH.
Qed.

Lemma AbsolutePath_components_bytes prev i s :
  utf8 s ->
  is_ok (AbsolutePath_components prev (indices_from i (chars s))) = single_slashes prev s.
Proof.
  intros H. revert prev i. induction H as [|ch s Hv Hs IH]; intros prev i; [done|].
  rewrite chars_char by done. simpl. case_bool_decide as E.
  - subst. simpl. by destruct prev.
  - rewrite IH. symmetry. apply single_slashes_skip.
    + intros ->. done.
    + intros Hin. by apply E, (valid_char_single _ "/"%char).
Qed.

Lemma ends_with_byte_app c s d : ends_with_byte c (s ++ [d]) = Ascii.eqb d c.
Proof. unfold ends_with_byte. by rewrite last_snoc. Qed.

(** What the three byte conditions say together: a path is cut at its slashes. *)
Lemma single_slashes_grammar comp s :
  Forall (fun c => path_byte c = true) (comp ++ s) -> "/"%char ∉ comp ->
  comp <> [] -> single_slashes false s = true -> ends_with_byte "/" (comp ++ s) = false ->
  exists c' comps, Forall path_component (c' :: comps)
    /\ comp ++ s = c' ++ concat ((fun c => "/" ++ c) <$> comps).
Proof.
  remember (length s) as n eqn:En. revert comp s En.
  induction n as [n IH] using lt_wf_ind. intros comp s En HF Hc Hne Hs He.
  destruct s as [|b s].
  { exists comp, []. simpl. rewrite ?app_nil_r in *. split; [|done]. constructor; [|done].
    split; [done|]. rewrite Forall_forall in *. intros x Hx. split; [by apply HF|]. intros ->. done. }
  simpl in Hs. destruct (Ascii.eqb_spec b "/") as [->|Hb].
  - simpl in Hs. destruct s as [|b s].
    { rewrite ends_with_byte_app in He. done. }
    simpl in Hs. destruct (Ascii.eqb_spec b "/") as [->|Hb]; [done|].
    apply Forall_app in HF as [HF1 HF2]. inversion HF2 as [|?? _ HF3]; subst.
    destruct (IH (length s)) with (comp := [b]) (s := s) as (c' & comps & HC & E).
    + simpl. lia.
    + done.
    + exact HF3.
    + rewrite list_elem_of_singleton. congruence.
    + done.
    + done.
    + revert He. unfold ends_with_byte. rewrite last_app.
      change ("/"%char :: b :: s) with (["/"%char] ++ [b] ++ s). rewrite (last_app ["/"%char]).
      change (([b] ++ s)) with (b :: s). by rewrite last_cons; destruct (last s).
    + exists comp, (c' :: comps). split.
      * constructor; [|done]. split; [done|]. rewrite Forall_forall in *.
        intros x Hx. split; [by apply HF1|]. intros ->. done.
      * simpl in E |- *. by rewrite E.
  - destruct (IH (length s)) with (comp := comp ++ [b]) (s := s) as (c' & comps & HC & E).
    + subst. simpl. lia.
    + done.
    + by rewrite <- app_assoc.
    + rewrite not_elem_of_app, list_elem_of_singleton. split; congruence.
    + by destruct comp.
    + done.
    + by rewrite <- app_assoc.
    + exists c', comps. split; [done|]. by rewrite <- app_assoc in E.
Qed.

Lemma grammar_single_slashes prev comps :
  prev = false -> Forall path_component comps ->
  single_slashes prev (concat ((fun c => "/" ++ c) <$> comps)) = true.
Proof.
  intros ->. induction 1 as [|c comps [Hne Hc] _ IH]; [done|]. simpl.
  destruct c as [|a c]; [done|]. rewrite (single_slashes_skip true (a :: c)); [done|done|].
  rewrite Forall_forall in Hc. intros Hin. by apply (Hc _ Hin).
Qed.

Lemma grammar_last comps :
  comps <> [] -> Forall path_component comps ->
  ends_with_byte "/" (concat ((fun c => "/" ++ c) <$> comps)) = false.
Proof.
  intros Hne HF. destruct (exists_last Hne) as (l & c & ->).
  apply Forall_app in HF as [_ HF]. inversion HF as [|?? [Hc1 Hc2] _]; subst.
  destruct (exists_last Hc1) as (c' & d & ->). apply Forall_app in Hc2 as [_ Hd].
  inversion Hd as [|?? [_ Hd'] _]; subst.
  rewrite fmap_app, concat_app. simpl. rewrite app_nil_r.
  change ("/"%char :: c' ++ [d]) with (("/" ++ c') ++ [d]).
  rewrite app_assoc, ends_with_byte_app. by apply Ascii.eqb_neq.
Qed.

Lemma path_bytes_spec raw :
  Forall (fun c => path_byte c = true) raw <-> (nul ∉ raw) /\ (backslash ∉ raw).
Proof.
  unfold path_byte. induction raw as [|c raw IH].
  - split; [by split; apply not_elem_of_nil|constructor].
  - rewrite Forall_cons, !not_elem_of_cons, IH, andb_true_iff, !negb_true_iff, !Ascii.eqb_neq.
    intuition congruence.
Qed.

Lemma grammar_bytes comps :
  Forall path_component comps ->
  Forall (fun c => path_byte c = true) (concat ((fun c => "/" ++ c) <$> comps)).
Proof.
  induction 1 as [|c comps [_ Hc] _ IH]; simpl; [constructor|]. constructor; [done|].
  apply Forall_app. split; [|done]. eapply Forall_impl; [done|]. by intros x [? _].
Qed.

(** [AbsolutePath_new] as conditions on bytes. *)
Lemma AbsolutePath_new_bytes raw v :
  utf8 raw ->
  AbsolutePath_new raw = Ok v <->
  v = {| AbsolutePath_0 := raw |} /\ starts_with "/" raw = true
  /\ Forall (fun c => path_byte c = true) raw
  /\ (1 < length raw -> ends_with_byte "/" raw = false) /\ single_slashes false raw = true.
Proof.
  intros Hu. rewrite <- (AbsolutePath_components_bytes false 0 raw Hu), path_bytes_spec.
  rewrite <- !find_byte_None. unfold AbsolutePath_new. fold (char_indices raw).
  destruct (decide (raw = [])) as [->|Hne].
  { split; [done|]. by intros (_ & ? & _). }
  rewrite bool_decide_eq_false_2 by done.
  destruct (starts_with "/" raw); simpl; [|naive_solver].
  destruct (find_byte nul raw); [naive_solver|].
  destruct (find_byte backslash raw); [naive_solver|].
  destruct (decide (1 < length raw)) as [Hl|Hl].
  - rewrite bool_decide_eq_true_2 by done. destruct (ends_with_byte "/" raw); simpl; [naive_solver|].
    destruct (AbsolutePath_components _ _) as [[]|]; simpl; naive_solver.
  - rewrite bool_decide_eq_false_2 by done. simpl.
    destruct (AbsolutePath_components _ _) as [[]|]; simpl; naive_solver.
Qed.

Lemma absolute_bytes_grammar raw :
  starts_with "/" raw = true -> Forall (fun c => path_byte c = true) raw ->
  (1 < length raw -> ends_with_byte "/" raw = false) -> single_slashes false raw = true ->
  absolute_grammar raw.
Proof.
  intros (t & ->)%starts_with_spec HF He Hs. destruct t as [|b t]; [by left|right].
  simpl in Hs. destruct (Ascii.eqb_spec b "/") as [->|Hb]; [done|].
  inversion HF as [|?? _ HF']; subst.
  destruct (single_slashes_grammar [b] t) as (c & comps & HC & E).
  - done.
  - rewrite list_elem_of_singleton. congruence.
  - done.
  - done.
  - specialize (He ltac:(simpl; lia)). unfold ends_with_byte in *. simpl in He. by destruct t.
  - exists (c :: comps). split; [done|]. split; [done|]. simpl in E |- *. by rewrite E.
Qed.

Lemma AbsolutePath_components_offset prev l e o n :
  Forall (fun '(i, _) => i < n) l -> AbsolutePath_components prev l = Err e ->
  offset e = Some o -> o <= n.
Proof.
  intros HF. revert prev. induction HF as [|[i ch] l Hi _ IH]; intros prev; simpl; [done|].
  case_bool_decide; [|apply IH]. destruct prev; [|apply IH]. intros [= <-] [= <-]. lia.
Qed.

#[export] Program Instance AbsolutePath_NewType : NewType AbsolutePath AbsolutePathError := {
  new := AbsolutePath_new;
  as_str := AbsolutePath_0
}.
Next Obligation.
  intros raw v H. unfold AbsolutePath_new in H. cases_in H; try done.
  apply bind_Ok in H as ([] & _ & [= <-]). done.
Qed.
Next Obligation.
  intros raw e o Hu H Ho. unfold AbsolutePath_new in H. cases_in H; try offset_le.
  destruct (AbsolutePath_components _ _) eqn:E; simpl in H; [done|]. simplify_eq.
  eapply AbsolutePath_components_offset; [by apply char_indices_Forall_lt|done|done].
Qed.

#[export] Program Instance RecipePath_NewType : NewType RecipePath RecipePathError := {
  new := RecipePath_new;
  as_str := RecipePath_0
}.
Next Obligation. intros raw v H. unfold RecipePath_new in H. cases_in H; by simplify_eq. Qed.
Next Obligation. intros raw e o Hu H. unfold RecipePath_new in H. cases_in H; offset_le. Qed.

Lemma url_scheme_Ok raw n b :
  url_scheme raw = Ok (n, b) ->
  exists t, t <> [] /\ raw = (if b then "https://" else "http://") ++ t /\ n = if b then 8 else 7.
Proof.
  unfold url_scheme. destruct (strip_prefix "https://" raw) as [t|] eqn:E1.
  { apply strip_prefix_spec in E1. destruct t as [|a t]; [done|]. intros [= <- <-]. by exists (a :: t). }
  destruct (strip_prefix "http://" raw) as [t|] eqn:E2; [|done].
  apply strip_prefix_spec in E2. destruct t as [|a t]; [done|]. intros [= <- <-]. by exists (a :: t).
Qed.

Lemma HttpsUrl_new_Ok raw u :
  HttpsUrl_new raw = Ok u -> url_raw u = raw /\ (nul ∉ raw)
  /\ exists t, t <> [] /\ raw = (if https u then "https://" else "http://") ++ t
               /\ authority_start u = if https u then 8 else 7.
Proof.
  unfold HttpsUrl_new. destruct (url_scheme raw) as [[n b]|] eqn:E; simpl; [|done].
  destruct (find_byte nul raw) eqn:E2; [done|]. intros [= <-]. simpl.
  split; [done|]. split; [by apply find_byte_None|]. by apply url_scheme_Ok.
Qed.

#[export] Program Instance HttpsUrl_NewType : NewType HttpsUrl HttpsUrlError := {
  new := HttpsUrl_new;
  as_str := url_raw
}.
Next Obligation. intros raw v H. by apply HttpsUrl_new_Ok in H as [? _]. Qed.
Next Obligation.
  intros raw e o Hu H. unfold HttpsUrl_new in H.
  destruct (url_scheme raw) as [[n b]|e'] eqn:E; simpl in H.
  - cases_in H; offset_le.
  - injection H as <-. unfold url_scheme in E. cases_in E; offset_le.
Qed.

(** ** Properties *)

(** C36 (functional): [AbsolutePath::new] accepts a text exactly when it is the
    root or a sequence of non-empty components, each introduced by one slash,
    without NUL and backslash; the path is kept verbatim. *)
Theorem AbsolutePath_new_exact raw :
  utf8 raw ->
  (AbsolutePath_new raw = Ok {| AbsolutePath_0 := raw |} <-> absolute_grammar raw)
  /\ (forall v, AbsolutePath_new raw = Ok v -> v = {| AbsolutePath_0 := raw |}).
Proof.
  intros Hu. split; [rewrite AbsolutePath_new_bytes by done; split|].
  - intros (_ & H1 & H2 & H3 & H4). by apply absolute_bytes_grammar.
  - intros [->|(comps & Hne & HF & ->)].
    + split_and!; try done; [|simpl; lia]. by repeat constructor.
    + split_and!; [done| |by apply grammar_bytes|by intros _; apply grammar_last|
                   by apply grammar_single_slashes].
      destruct comps; [done|]. by apply starts_with_spec; eexists.
  - intros v H. by apply AbsolutePath_new_bytes in H as [? _].
Qed.

Lemma AbsolutePath_new_exact_witness :
  AbsolutePath_new "/etc/nginx" = Ok {| AbsolutePath_0 := "/etc/nginx" |}.
Proof.
  apply (proj1 (AbsolutePath_new_exact "/etc/nginx" (utf8_ascii "/etc/nginx" eq_refl))).
  right. exists ["etc" : str; "nginx" : str]. split; [done|].
  split; [|reflexivity]. by repeat (constructor; [split; [done|by repeat constructor]|]).
Defined.

(** An accepted URL splits at its recorded authority offset
    without a panic into its scheme and a non-empty remainder, and a text with
    placeholders is held to the same rules as one without. *)
Theorem HttpsUrl_authority raw u :
  utf8 raw -> HttpsUrl_new_allowing_placeholders raw = Ok u ->
  HttpsUrl_new raw = Ok u
  /\ exists rest, authority_and_path u = Some rest /\ rest <> [] /\ (nul ∉ rest)
       /\ raw = (if https u then "https://" else "http://") ++ rest.
Proof.
  intros Hu H. assert (HttpsUrl_new raw = Ok u) as HN.
  { unfold HttpsUrl_new_allowing_placeholders in H. by destruct (negb _). }
  split; [done|]. apply HttpsUrl_new_Ok in HN as (Hr & Hnul & t & Ht & E & Ha).
  exists t. split_and!; [|done|by rewrite E, not_elem_of_app in Hnul; destruct Hnul|done].
  unfold authority_and_path. rewrite Hr, Ha. rewrite E in Hu |- *.
  assert (Hlen : (if https u then 8 else 7)
                 = length ((if https u then "https://" else "http://") : str)) by by destruct (https u).
  rewrite Hlen, slice_ok; [|rewrite length_app; lia|done| |apply boundary_at_end].
  - by rewrite drop_app_length, length_app, Nat.add_comm, Nat.add_sub, take_ge.
  - apply utf8_drop_boundary; [rewrite length_app; lia|]. rewrite drop_app_length.
    destruct (https u); simpl in Hu; by repeat (apply utf8_tail_ascii in Hu; [|done]).
Qed.

Lemma HttpsUrl_authority_witness :
  exists rest, authority_and_path
    {| url_raw := "https://h/${V}"; authority_start := 8; https := true |} = Some rest.
Proof.
  destruct (HttpsUrl_authority "https://h/${V}"
    {| url_raw := "https://h/${V}"; authority_start := 8; https := true |})
    as [_ (rest & H & _)]; [by apply utf8_ascii|vm_compute; reflexivity|by exists rest].
Defined.
