(* ===== verification/OciRef.v ===== *)
(** * OciRef: OCI distribution references (crates/umf-core/src/types/oci.rs). *)

From S2P Require Import Prelude RustStr RustStrFacts Subst Validation.

Record OciReference := { oci_raw : str }.

Inductive OciReferenceError :=
| OciReferenceError_Empty
| OciReferenceError_NulByte (off : nat)
| OciReferenceError_EmptyName (off : nat)
| OciReferenceError_EmptyTag (off : nat)
| OciReferenceError_TagTooLong (len off : nat)
| OciReferenceError_TagBadLeadingChar (ch : str) (off : nat)
| OciReferenceError_TagBadChar (ch : str) (off : nat)
| OciReferenceError_HostEmpty (off : nat)
| OciReferenceError_HostBadComponent (off : nat)
| OciReferenceError_HostBadChar (ch : str) (off : nat)
| OciReferenceError_HostPortEmpty (off : nat)
| OciReferenceError_HostPortInvalid (off : nat) (got : str)
| OciReferenceError_PathComponentEmpty (off : nat)
| OciReferenceError_PathComponentBadEdgeChar (ch : str) (off : nat)
| OciReferenceError_PathComponentBadChar (ch : str) (off : nat)
| OciReferenceError_PathComponentBadSeparator (off : nat)
| OciReferenceError_DigestMissingColon (off : nat)
| OciReferenceError_DigestMissingAlgorithm (off : nat)
| OciReferenceError_DigestMissingHex (off : nat)
| OciReferenceError_DigestHexTooShort (len off : nat)
| OciReferenceError_DigestBadAlgorithmChar (ch : str) (off : nat)
| OciReferenceError_DigestBadHexChar (ch : str) (off : nat).

#[export] Instance OciReferenceError_validation : ValidationError OciReferenceError := {
  offset e := match e with
    | OciReferenceError_Empty => None
    | OciReferenceError_NulByte o | OciReferenceError_EmptyName o
    | OciReferenceError_EmptyTag o | OciReferenceError_TagTooLong _ o
    | OciReferenceError_TagBadLeadingChar _ o | OciReferenceError_TagBadChar _ o
    | OciReferenceError_HostEmpty o | OciReferenceError_HostBadComponent o
    | OciReferenceError_HostBadChar _ o | OciReferenceError_HostPortEmpty o
    | OciReferenceError_HostPortInvalid o _ | OciReferenceError_PathComponentEmpty o
    | OciReferenceError_PathComponentBadEdgeChar _ o
    | OciReferenceError_PathComponentBadChar _ o
    | OciReferenceError_PathComponentBadSeparator o
    | OciReferenceError_DigestMissingColon o | OciReferenceError_DigestMissingAlgorithm o
    | OciReferenceError_DigestMissingHex o | OciReferenceError_DigestHexTooShort _ o
    | OciReferenceError_DigestBadAlgorithmChar _ o
    | OciReferenceError_DigestBadHexChar _ o => Some o
    end;
  hint _ := Some ("examples: `alpine:3.21`, `imagilux/kernel-linux:7.0`, `quay.io/proj/img:tag`" : str);
  to_string e := match e with
    | OciReferenceError_Empty => "OCI reference cannot be empty"
    | OciReferenceError_NulByte _ => "OCI reference cannot contain a NUL byte"
    | OciReferenceError_EmptyName _ => "OCI reference is missing the repository name"
    | OciReferenceError_EmptyTag _ => "OCI reference tag cannot be empty"
    | OciReferenceError_TagTooLong len _ =>
        "OCI reference tag is " ++ nat_to_decimal len
        ++ " chars — distribution-spec limit is 128"
    | OciReferenceError_TagBadLeadingChar ch _ =>
        "OCI reference tag must start with an alphanumeric character or `_`, found `"
        ++ ch ++ "`"
    | OciReferenceError_TagBadChar ch _ =>
        "OCI reference tag contains invalid character `" ++ ch ++ "`"
    | OciReferenceError_HostEmpty _ => "OCI reference host cannot be empty"
    | OciReferenceError_HostBadComponent _ => "OCI reference host has an empty component"
    | OciReferenceError_HostBadChar ch _ =>
        "OCI reference host contains invalid character `" ++ ch ++ "`"
    | OciReferenceError_HostPortEmpty _ => "OCI reference host port cannot be empty"
    | OciReferenceError_HostPortInvalid _ got =>
        "OCI reference host port `" ++ got ++ "` is not a valid 0..=65535 integer"
    | OciReferenceError_PathComponentEmpty _ =>
        "OCI reference path component cannot be empty"
    | OciReferenceError_PathComponentBadEdgeChar ch _ =>
        "OCI reference path component edge must be `[a-z0-9]`, found `" ++ ch ++ "`"
    | OciReferenceError_PathComponentBadChar ch _ =>
        "OCI reference path component contains invalid character `" ++ ch ++ "`"
    | OciReferenceError_PathComponentBadSeparator _ =>
        "OCI reference path component has a malformed separator run"
    | OciReferenceError_DigestMissingColon _ =>
        "OCI reference digest must be `<algorithm>:<hex>`"
    | OciReferenceError_DigestMissingAlgorithm _ =>
        "OCI reference digest is missing the algorithm"
    | OciReferenceError_DigestMissingHex _ => "OCI reference digest is missing the hex body"
    | OciReferenceError_DigestHexTooShort len _ =>
        "OCI reference digest hex body is " ++ nat_to_decimal len
        ++ " chars — needs at least 32"
    | OciReferenceError_DigestBadAlgorithmChar ch _ =>
        "OCI reference digest algorithm contains invalid character `" ++ ch ++ "`"
    | OciReferenceError_DigestBadHexChar ch _ =>
        "OCI reference digest hex body contains non-hex character `" ++ ch ++ "`"
    end
}.

(** ** The pieces *)

Definition parse_digest (body : str) (base_offset : nat) : result OciReferenceError unit :=
  match find_byte ":" body with
  | None => Err (OciReferenceError_DigestMissingColon base_offset)
  | Some colon =>
      let algorithm := take colon body in
      let hex := drop (colon + 1) body in
      if bool_decide (algorithm = []) then
        Err (OciReferenceError_DigestMissingAlgorithm base_offset)
      else if bool_decide (hex = []) then
        Err (OciReferenceError_DigestMissingHex (base_offset + colon + 1))
      else match first_rejected
                   (fun ch => char_is is_ascii_lowercase ch || char_is is_ascii_digit ch
                              || char_is (one_of "+._-") ch)
                   (char_indices algorithm) with
      | Some (i, ch) => Err (OciReferenceError_DigestBadAlgorithmChar ch (base_offset + i))
      | None =>
          if bool_decide (length hex < 32) then
            Err (OciReferenceError_DigestHexTooShort (length hex) (base_offset + colon + 1))
          else match first_rejected (char_is is_ascii_hexdigit) (char_indices hex) with
          | Some (i, ch) =>
              Err (OciReferenceError_DigestBadHexChar ch (base_offset + colon + 1 + i))
          | None => Ok tt
          end
      end
  end.

Definition validate_tag (tag : str) (base_offset : nat) : result OciReferenceError unit :=
  if bool_decide (128 < length tag) then
    Err (OciReferenceError_TagTooLong (length tag) base_offset)
  else match char_indices tag with
  | [] => Err (OciReferenceError_EmptyTag base_offset)
  | (_, first) :: chars =>
      if negb (char_is is_ascii_alphanumeric first || bool_decide (first = "_")) then
        Err (OciReferenceError_TagBadLeadingChar first base_offset)
      else match first_rejected
                   (fun ch => char_is is_ascii_alphanumeric ch || char_is (one_of "_.-") ch)
                   chars with
      | Some (i, ch) => Err (OciReferenceError_TagBadChar ch (base_offset + i))
      | None => Ok tt
      end
  end.

(** [name_and_tag] is a prefix of the reference, so the pointer difference the
    source computes is [0]. *)
Definition split_tag (name_and_tag : str) : result OciReferenceError (str * option str) :=
  match rfind_byte ":" name_and_tag with
  | None => Ok (name_and_tag, None)
  | Some last_colon =>
      let after := drop (last_colon + 1) name_and_tag in
      if contains_byte "/" after then Ok (name_and_tag, None)
      else
        let before := take last_colon name_and_tag in
        if bool_decide (before = []) then Err (OciReferenceError_EmptyName 0)
        else if bool_decide (after = []) then
          Err (OciReferenceError_EmptyTag (last_colon + 1))
        else
          _ ← validate_tag after (last_colon + 1);
          Ok (before, Some after)
  end.

(** The loop [while i <= bytes.len()] shared by hosts and repositories: [rest]
    is [bytes[i..]], and [check component start] runs at each separator and at
    the end. *)
Fixpoint each_component {E} (sep : ascii) (check : str -> nat -> result E unit)
    (s : str) (start i : nat) (rest : str) : result E unit :=
  match rest with
  | [] => check (sub s start i) start
  | b :: rest' =>
      if Ascii.eqb b sep then
        _ ← check (sub s start i) start;
        each_component sep check s (i + 1) (i + 1) rest'
      else each_component sep check s start (i + 1) rest'
  end.

Definition host_component_check (base_offset : nat) (component : str) (start : nat)
    : result OciReferenceError unit :=
  match head component, last component with
  | Some first, Some last =>
      if negb (is_ascii_alphanumeric first) || negb (is_ascii_alphanumeric last) then
        Err (OciReferenceError_HostBadComponent (base_offset + start))
      else match first_rejected
                   (fun ch => char_is is_ascii_alphanumeric ch || bool_decide (ch = "-"))
                   (char_indices component) with
      | Some (j, ch) => Err (OciReferenceError_HostBadChar ch (base_offset + start + j))
      | None => Ok tt
      end
  | _, _ => Err (OciReferenceError_HostBadComponent (base_offset + start))
  end.

Definition validate_host (host : str) (base_offset : nat) : result OciReferenceError unit :=
  if bool_decide (host = []) then Err (OciReferenceError_HostEmpty base_offset)
  else each_component "." (host_component_check base_offset) host 0 0 host.

Definition parse_host (head : str) (base_offset : nat)
    : result OciReferenceError (str * option N) :=
  '(host_str, port) ←
    match rfind_byte ":" head with
    | Some port_colon =>
        let port_str := drop (port_colon + 1) head in
        if bool_decide (port_str = []) then
          Err (OciReferenceError_HostPortEmpty (base_offset + port_colon + 1))
        else
          port ← ok_or (parse_unsigned u16_max port_str)
                   (OciReferenceError_HostPortInvalid (base_offset + port_colon + 1) port_str);
          Ok (take port_colon head, Some port)
    | None => Ok (head, None)
    end;
  _ ← validate_host host_str base_offset;
  Ok (host_str, port).

(** The character loop of [validate_path_component]. *)
Fixpoint path_component_scan (base_offset : nat) (prev_was_dot : bool) (underscore_run : nat)
    (l : list (nat * str)) : result OciReferenceError unit :=
  match l with
  | [] => Ok tt
  | (i, ch) :: l' =>
      if char_is (in_range "a" "z") ch || char_is (in_range "0" "9") ch then
        path_component_scan base_offset false 0 l'
      else if bool_decide (ch = ".") then
        if prev_was_dot then Err (OciReferenceError_PathComponentBadSeparator (base_offset + i))
        else path_component_scan base_offset true 0 l'
      else if bool_decide (ch = "_") then
        if bool_decide (2 < underscore_run + 1) then
          Err (OciReferenceError_PathComponentBadSeparator (base_offset + i))
        else path_component_scan base_offset false (underscore_run + 1) l'
      else if bool_decide (ch = "-") then
        path_component_scan base_offset false 0 l'
      else Err (OciReferenceError_PathComponentBadChar ch (base_offset + i))
  end.

Definition validate_path_component (component : str) (base_offset : nat)
    : result OciReferenceError unit :=
  match head component, last component with
  | Some first, Some last =>
      if negb (is_ascii_lowercase first || is_ascii_digit first) then
        Err (OciReferenceError_PathComponentBadEdgeChar (u8_as_char first) base_offset)
      else if negb (is_ascii_lowercase last || is_ascii_digit last) then
        Err (OciReferenceError_PathComponentBadEdgeChar (u8_as_char last)
               (base_offset + length component - 1))
      else path_component_scan base_offset false 0 (char_indices component)
  | _, _ => Err (OciReferenceError_PathComponentEmpty base_offset)
  end.

Definition validate_repository (repo : str) (base_offset : nat)
    : result OciReferenceError unit :=
  if bool_decide (repo = []) then Err (OciReferenceError_EmptyName base_offset)
  else each_component "/"
         (fun component start => validate_path_component component (base_offset + start))
         repo 0 0 repo.

Definition looks_like_host (head : str) : bool :=
  bool_decide (head = "localhost") || contains_byte "." head || contains_byte ":" head.

Definition split_host (name : str) (base_offset : nat)
    : result OciReferenceError (option str * option N * str) :=
  if bool_decide (name = []) then Err (OciReferenceError_EmptyName base_offset)
  else match find_byte "/" name with
  | None =>
      _ ← validate_path_component name base_offset;
      Ok (None, None, name)
  | Some slash =>
      let head := take slash name in
      let tail := drop (slash + 1) name in
      if looks_like_host head then
        '(host, port) ← parse_host head base_offset;
        _ ← validate_repository tail (base_offset + slash + 1);
        Ok (Some host, port, tail)
      else
        _ ← validate_repository name base_offset;
        Ok (None, None, name)
  end.

(** ** The constructors *)

Definition OciReference_new (raw : str) : result OciReferenceError OciReference :=
  if bool_decide (raw = []) then Err OciReferenceError_Empty
  else match find_byte nul raw with
  | Some pos => Err (OciReferenceError_NulByte pos)
  | None =>
      name_and_tag ←
        match find_byte "@" raw with
        | Some at_pos =>
            _ ← parse_digest (drop (at_pos + 1) raw) (at_pos + 1);
            Ok (take at_pos raw)
        | None => Ok raw
        end;
      '(name, _) ← split_tag name_and_tag;
      _ ← split_host name 0;
      Ok {| oci_raw := raw |}
  end.

Definition OciReference_new_allowing_placeholders (raw : str)
    : result OciReferenceError OciReference :=
  if negb (contains_placeholder raw) then OciReference_new raw
  else if bool_decide (raw = []) then Err OciReferenceError_Empty
  else match find_byte nul raw with
  | Some pos => Err (OciReferenceError_NulByte pos)
  | None => Ok {| oci_raw := raw |}
  end.

Example OciReference_ex1 :
  is_ok (OciReference_new "quay.io:443/proj/img_a.b:v1.0-rc@sha256:0123456789abcdef0123456789abcdef")
  = true.
Proof. vm_compute. reflexivity. Qed.

Example OciReference_ex2 :
  OciReference_new "repo:tag/x" = Err (OciReferenceError_HostPortInvalid 5 "tag").
Proof. vm_compute. reflexivity. Qed.

(** ** Reference grammars

    [documented] is the grammar of the module's documentation, with hosts that are
    names or IPv4 addresses; [reference_grammar] is what the code accepts, and
    [admissible] a superset of both, bracketed hosts included. *)

Definition alnum_lower (c : ascii) : bool := is_ascii_lowercase c || is_ascii_digit c.
Definition ends_in (p : ascii -> bool) (s : str) : bool :=
  match last s with Some c => p c | None => false end.

Definition repo_byte (c : ascii) : bool :=
  alnum_lower c || Ascii.eqb c "." || Ascii.eqb c "_" || Ascii.eqb c "-".

(** A path component: lower-case alphanumeric at both ends, and neither [..]
    nor [___] inside. *)
Definition path_component_grammar (c : str) : bool :=
  starts_in alnum_lower c && ends_in alnum_lower c && forallb repo_byte c
  && negb (contains ".." c) && negb (contains "___" c).

Definition tag_start (c : ascii) : bool := is_ascii_alphanumeric c || Ascii.eqb c "_".
Definition tag_byte (c : ascii) : bool := is_ascii_alphanumeric c || one_of "_.-" c.

(** [[\w][\w.-]{0,127}] *)
Definition tag_grammar (t : str) : bool :=
  bool_decide (length t <= 128)
  && match t with c :: r => tag_start c && forallb tag_byte r | [] => false end.

Definition algorithm_byte (c : ascii) : bool :=
  is_ascii_lowercase c || is_ascii_digit c || one_of "+._-" c.

(** [algorithm ":" hex] with at least 32 hexadecimal digits. *)
Definition digest_grammar (d : str) : bool :=
  match split_once ":" d with
  | Some (alg, hex) =>
      negb (bool_decide (alg = [])) && forallb algorithm_byte alg
      && bool_decide (32 <= length hex) && forallb is_ascii_hexdigit hex
  | None => false
  end.

Definition host_byte (c : ascii) : bool := is_ascii_alphanumeric c || Ascii.eqb c "-".
Definition host_component_grammar (c : str) : bool :=
  starts_in is_ascii_alphanumeric c && ends_in is_ascii_alphanumeric c && forallb host_byte c.

Definition host_grammar (h : str) : bool := forallb host_component_grammar (split "." h).

Definition port_part (port : option str) : str :=
  match port with Some p => ":" ++ p | None => [] end.

(** [host [":" port]] with a port below 65536. *)
Definition domain_grammar (d : str) : Prop :=
  exists host port, d = host ++ port_part port /\ host_grammar host = true
    /\ forall p, port = Some p -> is_Some (parse_unsigned u16_max p).

(** [[domain "/"] path-component ["/" path-component]*], where the first of
    several segments is the domain when it looks like a host. *)
Definition name_grammar (name : str) : Prop :=
  match split "/" name with
  | (hd :: _ :: _) as comps =>
      if looks_like_host hd
      then domain_grammar hd /\ forallb path_component_grammar (tail comps) = true
      else forallb path_component_grammar comps = true
  | comps => forallb path_component_grammar comps = true
  end.

(** [name [":" tag] ["@" digest]] *)
Definition reference_grammar (raw : str) : Prop :=
  exists name tag digest,
    raw = (name ++ port_part tag) ++ match digest with Some d => "@" ++ d | None => [] end
    /\ name_grammar name
    /\ (forall t, tag = Some t -> tag_grammar t = true)
    /\ (forall d, digest = Some d -> digest_grammar d = true).

(** *** The documented grammar *)

Definition alpha_numeric (s : str) : Prop := s <> [] /\ Forall (fun c => alnum_lower c = true) s.

(** [/[_.]|__|[-]*/] *)
Definition separator (s : str) : Prop :=
  s = ("_" : str) \/ s = ("." : str) \/ s = ("__" : str) \/ Forall (fun c => c = "-"%char) s.

(** [alpha-numeric [separator alpha-numeric]*] *)
Inductive doc_path_component : str -> Prop :=
| dpc_last a : alpha_numeric a -> doc_path_component a
| dpc_more a sep c : alpha_numeric a -> separator sep -> doc_path_component c -> doc_path_component (a ++ sep ++ c).

(** [host [":" port]], the host a domain name or an IPv4 address. *)
Definition doc_domain (d : str) : Prop :=
  exists host port, d = host ++ port_part port /\ host_grammar host = true
    /\ forall p, port = Some p -> p <> [] /\ forallb is_ascii_digit p = true /\ (decimal p <= 65535)%N.

(** [[domain "/"] path-component ["/" path-component]*], the first of several
    segments being a domain iff it looks like a host. *)
Definition doc_name (name : str) : Prop :=
  match split "/" name with
  | (hd :: _ :: _) as comps => if looks_like_host hd then doc_domain hd /\ Forall doc_path_component (tail comps) else Forall doc_path_component comps
  | comps => Forall doc_path_component comps
  end.

(** [name [":" tag] ["@" digest]] *)
Definition documented (raw : str) : Prop :=
  exists name tag digest,
    raw = (name ++ port_part tag) ++ match digest with Some d => "@" ++ d | None => [] end
    /\ doc_name name
    /\ (forall t, tag = Some t -> tag_grammar t = true)
    /\ (forall d, digest = Some d -> digest_grammar d = true).

(** A reference of [reference_grammar], or one with a bracketed host. *)
Definition bracketed (raw : str) : Prop := exists host rest, raw = "[" ++ host ++ "]" ++ rest.
Definition admissible (raw : str) : Prop := reference_grammar raw \/ bracketed raw.

(** ** Lemmas *)

(** The component loop checks every piece of [split]. *)
Lemma each_component_ok {E} sep (check : str -> nat -> result E unit) (ok : str -> bool)
    pre cur rest :
  is_ascii sep = true -> (forall c st, utf8 c -> is_ok (check c st) = ok c) ->
  utf8 (cur ++ rest) -> sep ∉ cur ->
  is_ok (each_component sep check (pre ++ cur ++ rest) (length pre) (length pre + length cur) rest)
  = forallb ok (split sep (cur ++ rest)).
Proof.
  intros Hsep Hck. revert pre cur. induction rest as [|b rest IH]; intros pre cur Hu Hcur.
  - simpl. rewrite app_nil_r in *. unfold sub. rewrite drop_app_length, Nat.add_comm, Nat.add_sub.
    rewrite take_ge by done. rewrite split_no_sep by done. rewrite Hck by done.
    simpl. by rewrite andb_true_r.
  - simpl each_component. destruct (Ascii.eqb_spec b sep) as [->|Hb].
    + destruct (utf8_app_ascii sep cur rest Hsep Hu) as [Hu1 Hu2].
      unfold sub. replace (length pre + length cur - length pre) with (length cur) by lia.
      rewrite drop_app_length, take_app_length.
      rewrite split_app by done. simpl. rewrite <- (Hck cur (length pre)) by done.
      destruct (check cur (length pre)); simpl; [|done].
      specialize (IH (pre ++ cur ++ [sep]) []). simpl in IH.
      rewrite !length_app in IH. simpl in IH. rewrite <- !app_assoc in IH. simpl in IH.
      rewrite <- IH; [|done|apply not_elem_of_nil].
      f_equal. f_equal; lia.
    + specialize (IH pre (cur ++ [b])). rewrite <- !app_assoc in IH. simpl in IH.
      rewrite length_app in IH. simpl in IH. rewrite Nat.add_assoc in IH. apply IH; [done|].
      rewrite not_elem_of_app, list_elem_of_singleton. split; congruence.
Qed.

Lemma each_component_all {E} sep (check : str -> nat -> result E unit) (ok : str -> bool) s :
  is_ascii sep = true -> (forall c st, utf8 c -> is_ok (check c st) = ok c) -> utf8 s ->
  is_ok (each_component sep check s 0 0 s) = forallb ok (split sep s).
Proof.
  intros Hsep Hck Hu. apply (each_component_ok sep check ok [] []); try done.
  apply not_elem_of_nil.
Qed.

(** *** Path components *)

Lemma contains_cons n c s : contains n (c :: s) = starts_with n (c :: s) || contains n s.
Proof. done. Qed.

Lemma starts_with_cons a n c s : starts_with (a :: n) (c :: s) = Ascii.eqb a c && starts_with n s.
Proof. unfold starts_with. simpl. by destruct (Ascii.eqb a c). Qed.

Lemma starts_with_nil s : starts_with [] s = true.
Proof. by destruct s. Qed.

(** A byte outside the needle separates the text. *)
Lemma contains_skip n c s :
  n <> [] -> c ∉ n -> forall pre, Forall (fun a => a ∈ n) pre -> length pre < length n ->
  contains n (pre ++ c :: s) = contains n s.
Proof.
  intros Hne Hc.
  assert (Hno : forall m pre, c ∉ m -> length pre < length m ->
            starts_with m (pre ++ c :: s) = false).
  { induction m as [|a m IH]; intros pre Hm Hl; simpl in Hl; [lia|].
    apply not_elem_of_cons in Hm as [Ha Hm]. destruct pre as [|b pre]; simpl in *.
    - rewrite starts_with_cons. destruct (Ascii.eqb_spec a c) as [->|]; done.
    - rewrite starts_with_cons, IH by (done || lia). apply andb_false_r. }
  induction pre as [|b pre IH]; intros HF Hl; simpl app; rewrite contains_cons.
  - pose proof (Hno n [] Hc Hl) as E. simpl in E. by rewrite E.
  - pose proof (Hno n (b :: pre) Hc Hl) as E. simpl in E. rewrite E. inversion HF; subst. simpl. apply IH; [done|simpl in *; lia].
Qed.

(** The loop of [validate_path_component] on bytes, with the separators already
    seen put back in front. *)
Lemma path_component_scan_bytes base dot run i s :
  utf8 s -> run <= 2 -> (dot = true -> run = 0) ->
  is_ok (path_component_scan base dot run (indices_from i (chars s)))
  = forallb repo_byte s && negb (contains ".." ((if dot then ["."%char] else []) ++ s))
    && negb (contains "___" (replicate run "_"%char ++ s)).
Proof.
  intros H. revert dot run i. induction H as [|ch s Hv Hs IH]; intros dot run i Hr Hd.
  { simpl. destruct dot; [rewrite (Hd eq_refl); done|]. by destruct run as [|[|[|]]]; [| | |lia]. }
  rewrite chars_char by done. simpl indices_from. cbn [path_component_scan].
  destruct (valid_char_cases _ Hv) as [(c & -> & Hc)|HF]; cycle 1.
  { destruct ch as [|a ch]; [done|]. inversion HF as [|?? Ha _]; subst.
    assert (repo_byte a = false) as Hra.
    { destruct (repo_byte a) eqn:E; [|done].
      rewrite (by_bytes2 repo_byte is_ascii ltac:(vm_compute; reflexivity) a E) in Ha. done. }
    rewrite !bool_decide_eq_false_2 by (intros [= -> _]; done).
    cbn [app forallb]. rewrite Hra. unfold char_is. destruct ch; by rewrite ?Ha. }
  cbn [app char_is forallb]. rewrite Hc. cbn [andb].
  change (in_range "a" "z" c || in_range "0" "9" c) with (alnum_lower c).
  unfold repo_byte at 1.
  assert (Hdot : c <> "."%char ->
    contains ".." ((if dot then ["."%char] else []) ++ c :: s) = contains ".." s).
  { intros Hne. apply contains_skip; [done| |by destruct dot; repeat constructor|
      destruct dot; simpl; lia]. set_unfold. naive_solver. }
  assert (Hrun : c <> "_"%char ->
    contains "___" (replicate run "_"%char ++ c :: s) = contains "___" s).
  { intros Hne. apply contains_skip; [done| | |rewrite length_replicate; simpl; lia].
    - set_unfold. naive_solver.
    - apply Forall_forall. intros x Hx. apply elem_of_replicate in Hx as [-> _]. by left. }
  destruct (alnum_lower c) eqn:Ea.
  { rewrite IH, Hdot, Hrun by (done || lia || (intros ->; done)). done. }
  cbn [orb]. destruct (Ascii.eqb_spec c ".") as [->|H1].
  { rewrite bool_decide_eq_true_2 by done. rewrite Hrun by done. destruct dot.
    - simpl. by rewrite andb_false_r.
    - rewrite IH by (done || lia). done. }
  rewrite bool_decide_eq_false_2 by (by intros [= ->]).
  destruct (Ascii.eqb_spec c "_") as [->|H2].
  { rewrite bool_decide_eq_true_2 by done. rewrite Hdot by done. case_bool_decide as E.
    - assert (run = 2) as -> by lia. simpl.
      by rewrite andb_false_r.
    - rewrite IH by (done || lia). cbn [app]. f_equal. f_equal. f_equal.
      destruct run as [|[|[|]]]; [reflexivity..|lia|lia]. }
  rewrite bool_decide_eq_false_2 by (by intros [= ->]).
  destruct (Ascii.eqb_spec c "-") as [->|H3].
  { rewrite bool_decide_eq_true_2 by done. rewrite IH, Hdot, Hrun by (done || lia). done. }
  by rewrite bool_decide_eq_false_2 by (by intros [= ->]).
Qed.

Lemma validate_path_component_ok c off :
  utf8 c -> is_ok (validate_path_component c off) = path_component_grammar c.
Proof.
  intros Hu. unfold validate_path_component, path_component_grammar, ends_in, starts_in.
  destruct c as [|a c]; [done|]. cbn [head]. rewrite last_cons.
  fold (alnum_lower a). destruct (alnum_lower a); [|by destruct (last c)].
  destruct (last c) as [b|]; cbn [negb andb].
  - fold (alnum_lower b). destruct (alnum_lower b); [|done].
    apply path_component_scan_bytes; [done|lia|done].
  - fold (alnum_lower a). destruct (alnum_lower a); [|done].
    apply path_component_scan_bytes; [done|lia|done].
Qed.

(** *** Hosts, tags and digests *)

Lemma host_component_check_ok off c st :
  utf8 c -> is_ok (host_component_check off c st) = host_component_grammar c.
Proof.
  intros Hu. unfold host_component_check, host_component_grammar, ends_in, starts_in.
  rewrite (first_rejected_ext _ (char_is host_byte)) by (intros; by apply char_is_or).
  rewrite <- (first_rejected_bytes host_byte c Hu); cycle 1.
  { apply (by_bytes2 host_byte is_ascii). vm_compute. reflexivity. }
  destruct c as [|a c]; [done|]. cbn [head]. rewrite last_cons.
  destruct (last c) as [b|]; destruct (is_ascii_alphanumeric a); cbn [negb andb orb]; try done.
  - destruct (is_ascii_alphanumeric b); [|done]. by destruct (first_rejected _ _) as [[]|].
  - by destruct (first_rejected _ _) as [[]|].
Qed.

Lemma validate_host_ok h off : utf8 h -> is_ok (validate_host h off) = host_grammar h.
Proof.
  intros Hu. unfold validate_host, host_grammar. case_bool_decide as E; [by subst|].
  apply each_component_all; try done. intros. by apply host_component_check_ok.
Qed.

Lemma validate_repository_ok r off :
  utf8 r -> is_ok (validate_repository r off) = forallb path_component_grammar (split "/" r).
Proof.
  intros Hu. unfold validate_repository. case_bool_decide as E; [by subst|].
  apply each_component_all; try done. intros. by apply validate_path_component_ok.
Qed.

Lemma validate_tag_ok t off : utf8 t -> is_ok (validate_tag t off) = tag_grammar t.
Proof.
  intros Hu. unfold validate_tag, tag_grammar.
  destruct (decide (128 < length t)) as [Hl|Hl].
  { rewrite bool_decide_eq_true_2, bool_decide_eq_false_2 by lia. done. }
  rewrite bool_decide_eq_false_2, bool_decide_eq_true_2 by lia. cbn [andb].
  rewrite <- (leading_rest_spec tag_start tag_byte t Hu); cycle 1.
  { apply (by_bytes2 tag_start is_ascii). vm_compute. reflexivity. }
  { apply (by_bytes2 tag_byte is_ascii). vm_compute. reflexivity. }
  destruct (char_indices t) as [|[i f] l]; [done|].
  rewrite (char_is_or _ _ "_"%char) by done. fold tag_start.
  change (fun b => is_ascii_alphanumeric b || Ascii.eqb b "_") with tag_start.
  destruct (char_is tag_start f); [|done]. cbn [negb andb].
  rewrite (first_rejected_ext _ (char_is tag_byte)) by (intros; apply char_is_orb).
  by destruct (first_rejected _ l) as [[]|].
Qed.

Lemma parse_digest_ok d off : utf8 d -> is_ok (parse_digest d off) = digest_grammar d.
Proof.
  intros Hu. unfold parse_digest, digest_grammar, split_once.
  destruct (find_byte ":" d) as [i|] eqn:E; [|done]. cbv zeta.
  destruct (utf8_take_find ":" d i eq_refl Hu E) as [Hu1 Hu2].
  rewrite Nat.add_1_r. destruct (decide (take i d = [])) as [Ha|Ha].
  { by rewrite !bool_decide_eq_true_2 by done. }
  rewrite !(bool_decide_eq_false_2 (take i d = [])) by done. cbn [negb andb].
  rewrite (first_rejected_ext _ (char_is algorithm_byte)); cycle 1.
  { intros ch. by rewrite !char_is_orb. }
  assert (forall c, algorithm_byte c = true -> is_ascii c = true) as HA.
  { apply (by_bytes2 algorithm_byte is_ascii). vm_compute. reflexivity. }
  assert (forall c, is_ascii_hexdigit c = true -> is_ascii c = true) as HX.
  { apply (by_bytes2 is_ascii_hexdigit is_ascii). vm_compute. reflexivity. }
  rewrite <- (first_rejected_bytes algorithm_byte (take i d) Hu1 HA).
  rewrite <- (first_rejected_bytes is_ascii_hexdigit (drop (S i) d) Hu2 HX).
  case_bool_decide as Hh; [rewrite Hh; simpl; by rewrite andb_false_r|].
  destruct (first_rejected _ (char_indices (take i d))) as [[]|]; [done|]. cbn [andb].
  destruct (decide (length (drop (S i) d) < 32)).
  - by rewrite bool_decide_eq_true_2, bool_decide_eq_false_2 by lia.
  - rewrite bool_decide_eq_false_2, bool_decide_eq_true_2 by lia.
    by destruct (first_rejected _ (char_indices (drop (S i) d))) as [[]|].
Qed.

(** *** Names *)

Lemma split_pieces_not_in c (p : str -> bool) s :
  (forall t, p t = true -> c ∉ t) ->
  forall sep, sep <> c -> forallb p (split sep s) = true -> c ∉ s.
Proof.
  intros Hp sep Hne. remember (length s) as n eqn:En. revert s En.
  induction n as [n IH] using lt_wf_ind. intros s ->. rewrite split_find.
  destruct (find_byte sep s) as [i|] eqn:E; simpl; intros H; bools; [|by apply Hp].
  pose proof (find_byte_lt _ _ _ E). apply find_byte_Some in E as [E _].
  rewrite <- (take_drop i s), not_elem_of_app, (drop_S _ _ _ E), not_elem_of_cons.
  split; [by apply Hp|]. split; [congruence|].
  eapply IH; [|reflexivity|done]. rewrite length_drop. lia.
Qed.

Lemma host_no_byte c h : host_byte c = false -> c <> "."%char -> host_grammar h = true -> c ∉ h.
Proof.
  intros Hc Hd. apply split_pieces_not_in; [|congruence]. intros t H.
  unfold host_component_grammar in H. bools. by eapply ascii_not_in.
Qed.

Lemma path_component_no_byte c t :
  repo_byte c = false -> path_component_grammar t = true -> c ∉ t.
Proof. intros Hc H. unfold path_component_grammar in H. bools. by eapply ascii_not_in. Qed.

Lemma port_digits p n : parse_unsigned u16_max p = Some n ->
  p <> [] /\ forall c, c <> "+"%char -> is_ascii_digit c = false -> c ∉ p.
Proof.
  intros H. split; [by intros ->|]. intros c Hc Hd Hin. unfold parse_unsigned in H.
  set (body := match p with "+"%char :: s' => s' | _ => p end) in H.
  assert (c ∈ body) as Hb.
  { subst body. destruct p as [|a p]; [done|].
    destruct (decide (a = "+"%char)) as [->|Ha].
    - apply elem_of_cons in Hin as [->|]; done.
    - by destruct a as [[] [] [] [] [] [] [] []]. }
  destruct body as [|b r]; [by apply not_elem_of_nil in Hb|].
  destruct (forallb is_ascii_digit (b :: r)) eqn:E; [|done].
  by apply (ascii_not_in is_ascii_digit c) in E.
Qed.

Lemma parse_host_ok d off : utf8 d -> (is_ok (parse_host d off) = true <-> domain_grammar d).
Proof.
  intros Hu. unfold parse_host. split.
  - destruct (rfind_byte ":" d) as [i|] eqn:E.
    + case_bool_decide as Hp; [done|]. rewrite Nat.add_1_r in *.
      destruct (parse_unsigned u16_max (drop (S i) d)) as [n|] eqn:En; simpl; [|done].
      apply rfind_byte_Some in E as [E _].
      assert (d = take i d ++ ":" ++ drop (S i) d) as Ed.
      { change (":" ++ drop (S i) d) with (":"%char :: drop (S i) d).
        by rewrite <- (drop_S _ _ _ E), take_drop. }
      assert (utf8 (take i d)) as Hu1.
      { rewrite Ed in Hu. by apply (utf8_app_ascii ":") in Hu as [? _]. }
      pose proof (validate_host_ok (take i d) off Hu1) as HV.
      destruct (validate_host (take i d) off); simpl; [|done]. intros _.
      exists (take i d), (Some (drop (S i) d)). split_and!; [done|done|].
      intros p [= <-]. by rewrite En.
    + simpl. pose proof (validate_host_ok d off Hu) as HV.
      destruct (validate_host d off); simpl; [|done]. intros _.
      exists d, None. split_and!; [by rewrite app_nil_r|done|done].
  - intros (host & [p|] & -> & Hh & Hp).
    + destruct (Hp p eq_refl) as [n Hn]. pose proof (port_digits _ _ Hn) as [Hpe Hpd].
      cbn [port_part] in *. change (":" ++ p) with (":"%char :: p) in *.
      rewrite rfind_byte_app by by apply Hpd. rewrite Nat.add_1_r.
      cbv zeta.
      replace (drop (S (length host)) (host ++ ":"%char :: p)) with p; cycle 1.
      { rewrite <- Nat.add_1_r, <- drop_drop, drop_app_length. done. }
      rewrite bool_decide_eq_false_2 by done. rewrite Hn. simpl. rewrite take_app_length.
      apply (utf8_app_ascii ":") in Hu as [Hu1 _]; [|done].
      rewrite <- (validate_host_ok host off Hu1) in Hh. by destruct (validate_host host off).
    + cbn [port_part] in *. rewrite app_nil_r in *.
      rewrite (proj2 (rfind_byte_None ":" host)) by by apply host_no_byte.
      simpl. rewrite <- (validate_host_ok host off Hu) in Hh. by destruct (validate_host host off).
Qed.

Lemma split_host_ok name off :
  utf8 name -> (is_ok (split_host name off) = true <-> name_grammar name).
Proof.
  intros Hu. unfold split_host, name_grammar. case_bool_decide as Hn; [by subst|].
  rewrite split_find. destruct (find_byte "/" name) as [i|] eqn:E.
  - destruct (utf8_take_find "/" name i eq_refl Hu E) as [Hu1 Hu2]. rewrite Nat.add_1_r.
    pose proof (split_nonempty "/" (drop (S i) name)) as Hne.
    pose proof (validate_repository_ok (drop (S i) name) (off + i + 1) Hu2) as HR.
    pose proof (validate_repository_ok name off Hu) as HN. rewrite split_find, E in HN.
    destruct (split "/" (drop (S i) name)) as [|c comps]; [done|].
    cbv beta iota zeta. cbn [tl]. destruct (looks_like_host (take i name)).
    + rewrite <- (parse_host_ok (take i name) off Hu1), <- HR.
      destruct (parse_host (take i name) off) as [[]|]; simpl; [|naive_solver].
      destruct (validate_repository _ _); simpl; naive_solver.
    + rewrite <- HN. by destruct (validate_repository name off).
  - cbn [forallb]. rewrite andb_true_r, <- (validate_path_component_ok name off Hu).
    by destruct (validate_path_component name off).
Qed.

(** After the last colon of a name there is a slash: a colon can only belong
    to the port of the first segment. *)
Lemma name_grammar_colon name i :
  name_grammar name -> rfind_byte ":" name = Some i -> contains_byte "/" (drop (S i) name) = true.
Proof.
  intros HG E. apply rfind_byte_Some in E as [E _]. unfold name_grammar in HG.
  assert (Hcomp : forall c, forallb path_component_grammar (split "/" c) = true -> ":"%char ∉ c).
  { intros c. apply split_pieces_not_in; [|done]. intros t. by apply path_component_no_byte. }
  assert (Hin : ":"%char ∈ name) by by eapply list_elem_of_lookup_2.
  rewrite split_find in HG. destruct (find_byte "/" name) as [j|] eqn:Ej; cycle 1.
  { exfalso. apply (Hcomp name); [|done]. by rewrite split_find, Ej. }
  pose proof (split_nonempty "/" (drop (S j) name)) as Hne.
  destruct (split "/" (drop (S j) name)) as [|c comps] eqn:Es; [done|].
  destruct (looks_like_host (take j name)) eqn:El; cycle 1.
  { exfalso. apply (Hcomp name); [|done]. by rewrite split_find, Ej, Es. }
  destruct HG as [_ HG]. cbn [tl] in HG. rewrite <- Es in HG. apply Hcomp in HG.
  apply find_byte_Some in Ej as [Ej _]. apply contains_byte_spec.
  destruct (decide (i < j)) as [Hlt|Hge].
  - apply list_elem_of_lookup. exists (j - S i). rewrite lookup_drop.
    by replace (S i + (j - S i)) with j by lia.
  - exfalso. destruct (decide (i = j)) as [->|]; [congruence|]. apply HG.
    apply list_elem_of_lookup. exists (i - S j). rewrite lookup_drop.
    by replace (S j + (i - S j)) with i by lia.
Qed.

(** The bytes a name cannot contain. *)
Lemma name_grammar_no_byte c name :
  repo_byte c = false -> host_byte c = false -> is_ascii_digit c = false ->
  one_of ".:/+" c = false -> name_grammar name -> c ∉ name.
Proof.
  unfold name_grammar, one_of. intros Hr Hh Hd Ho HG. apply bool_decide_eq_false in Ho.
  assert (c <> "."%char /\ c <> ":"%char /\ c <> "/"%char /\ c <> "+"%char) as (H1 & H2 & H3 & H4).
  { clear -Ho. split_and!; intros ->; apply Ho; set_solver. }
  assert (Hcomp : forall n, forallb path_component_grammar (split "/" n) = true -> c ∉ n).
  { intros n. apply split_pieces_not_in; [|congruence]. intros t. by apply path_component_no_byte. }
  destruct (split "/" name) as [|hd [|c' comps]] eqn:Es; [by apply Hcomp; rewrite Es..|].
  destruct (looks_like_host hd); [|by apply Hcomp; rewrite Es].
  destruct HG as [(host & port & -> & Hhost & Hp) HG]. rewrite split_find in Es.
  destruct (find_byte "/" name) as [j|] eqn:Ej; [|done]. injection Es as E1 E2.
  cbn [tl] in HG. rewrite <- E2 in HG. apply Hcomp in HG. apply find_byte_Some in Ej as [Ej _].
  rewrite <- (take_drop j name), E1, (drop_S _ _ _ Ej), not_elem_of_app, not_elem_of_cons.
  split; [|done]. rewrite not_elem_of_app. split; [by apply host_no_byte|].
  destruct port as [p|]; [|apply not_elem_of_nil]. cbn [port_part].
  destruct (Hp p eq_refl) as [n Hn]. apply port_digits in Hn as [_ Hn].
  change (":" ++ p) with (":"%char :: p). rewrite not_elem_of_cons. split; [done|]. by apply Hn.
Qed.

(** *** Tags *)

Lemma split_tag_Ok nt name tag :
  utf8 nt -> split_tag nt = Ok (name, tag) ->
  nt = name ++ port_part tag /\ utf8 name /\ forall t, tag = Some t -> tag_grammar t = true.
Proof.
  intros Hu. unfold split_tag. destruct (rfind_byte ":" nt) as [i|] eqn:E; cycle 1.
  { intros [= <- <-]. by rewrite app_nil_r. }
  rewrite Nat.add_1_r. cbv zeta. apply rfind_byte_Some in E as [E _].
  destruct (contains_byte "/" _) eqn:Ec; [intros [= <- <-]; by rewrite app_nil_r|].
  case_bool_decide as H1; [done|]. case_bool_decide as H2; [done|].
  assert (nt = take i nt ++ ":"%char :: drop (S i) nt) as Ed.
  { by rewrite <- (drop_S _ _ _ E), take_drop. }
  assert (utf8 (take i nt) /\ utf8 (drop (S i) nt)) as [Hu1 Hu2].
  { rewrite Ed in Hu. by apply (utf8_app_ascii ":") in Hu. }
  pose proof (validate_tag_ok (drop (S i) nt) (S i) Hu2) as HT.
  destruct (validate_tag _ _); simpl; [|done]. intros [= <- <-].
  split_and!; [done|done|]. by intros t [= <-].
Qed.

Lemma tag_grammar_spec t : tag_grammar t = true -> t <> [] /\ forall c, tag_byte c = false -> c ∉ t.
Proof.
  unfold tag_grammar. destruct t as [|a t]; [by rewrite andb_false_r|]. intros H. bools.
  split; [done|]. intros c Hc Hin. apply (ascii_not_in tag_byte c (a :: t)) in Hin; [done|done|].
  simpl. bools; [|done].
  apply (by_bytes2 tag_start tag_byte); [vm_compute; reflexivity|done].
Qed.

Lemma split_tag_complete name tag :
  utf8 (name ++ port_part tag) -> name_grammar name -> (forall t, tag = Some t -> tag_grammar t = true) ->
  exists tag', split_tag (name ++ port_part tag) = Ok (name, tag').
Proof.
  intros Hu HG HT. unfold split_tag. destruct tag as [t|]; cbn [port_part].
  - specialize (HT t eq_refl). pose proof (tag_grammar_spec t HT) as [Hne Hc].
    cbn [port_part] in Hu. change (":" ++ t) with (":"%char :: t) in *.
    rewrite rfind_byte_app by by apply Hc. rewrite Nat.add_1_r. cbv zeta.
    replace (drop (S (length name)) (name ++ ":"%char :: t)) with t; cycle 1.
    { rewrite <- Nat.add_1_r, <- drop_drop, drop_app_length. done. }
    rewrite (proj2 (contains_byte_false "/" t)) by by apply Hc. rewrite take_app_length.
    rewrite (bool_decide_eq_false_2 (name = [])) by (by intros ->).
    rewrite bool_decide_eq_false_2 by done.
    apply (utf8_app_ascii ":") in Hu as [_ Hu2]; [|done].
    rewrite <- (validate_tag_ok t (S (length name)) Hu2) in HT.
    destruct (validate_tag _ _); simpl; [eauto|done].
  - rewrite app_nil_r. destruct (rfind_byte ":" name) as [i|] eqn:E; [|eauto].
    rewrite Nat.add_1_r. cbv zeta. rewrite (name_grammar_colon name i) by done. eauto.
Qed.

(** *** Offsets *)

(** Every offset [r] reports is at most [n]. *)
Definition offset_within {A} (r : result OciReferenceError A) (n : nat) : Prop :=
  match r with Ok _ => True | Err e => forall o, offset e = Some o -> o <= n end.

Lemma offset_within_bind {A B} (r : result OciReferenceError A) (k : A -> result _ B) n :
  offset_within r n -> (forall a, r = Ok a -> offset_within (k a) n) -> offset_within (r ≫= k) n.
Proof. destruct r; simpl; auto. Qed.

Lemma offset_within_le {A} (r : result OciReferenceError A) m n :
  m <= n -> offset_within r m -> offset_within r n.
Proof. intros Hmn. destruct r; simpl; [done|]. intros H o Ho. specialize (H o Ho). lia. Qed.

Ltac within :=
  repeat (case_bool_decide || case_match); simpl;
  try done; try (intros ? [= <-]; offset_le).

Lemma parse_digest_within d off : utf8 d -> offset_within (parse_digest d off) (off + length d).
Proof.
  intros Hu. unfold parse_digest. destruct (find_byte ":" d) as [i|] eqn:E; [|within].
  pose proof (find_byte_lt _ _ _ E) as Hi. destruct (utf8_take_find ":" d i eq_refl Hu E) as [Hu1 Hu2].
  rewrite Nat.add_1_r. cbv zeta. case_bool_decide; [within|]. case_bool_decide; [within|].
  destruct (first_rejected _ (char_indices (take i d))) as [[j ch]|] eqn:E1.
  { apply (first_rejected_lt (take i d)) in E1; [|done]. rewrite length_take in E1. within. }
  case_bool_decide; [within|].
  destruct (first_rejected _ (char_indices (drop (S i) d))) as [[j ch]|] eqn:E2; [|done].
  apply (first_rejected_lt (drop (S i) d)) in E2; [|done]. rewrite length_drop in E2. within.
Qed.

Lemma validate_tag_within t off : utf8 t -> offset_within (validate_tag t off) (off + length t).
Proof.
  intros Hu. unfold validate_tag. case_bool_decide; [within|].
  destruct (char_indices t) as [|[i f] l] eqn:E; [within|]. destruct (negb _); [within|].
  destruct (first_rejected _ l) as [[j ch]|] eqn:E1; [|done].
  apply (first_rejected_tail_lt t _ _ _ _ _ _ Hu E) in E1. within.
Qed.

Lemma each_component_within sep (check : str -> nat -> result OciReferenceError unit) n s pre cur rest :
  s = pre ++ cur ++ rest -> is_ascii sep = true -> utf8 (cur ++ rest) -> sep ∉ cur ->
  (forall c st, utf8 c -> st + length c <= length s -> offset_within (check c st) n) ->
  offset_within (each_component sep check s (length pre) (length pre + length cur) rest) n.
Proof.
  intros -> Hsep. revert pre cur.
  induction rest as [|b rest IH]; intros pre cur Hu Hcur Hck; simpl each_component;
    unfold sub; replace (length pre + length cur - length pre) with (length cur) by lia;
    rewrite drop_app_length, ?take_app_length.
  - apply Hck; [|rewrite !length_app; simpl; lia]. by rewrite app_nil_r in Hu.
  - destruct (Ascii.eqb_spec b sep) as [->|Hb].
    + destruct (utf8_app_ascii sep cur rest Hsep Hu) as [Hu1 Hu2].
      apply offset_within_bind; [apply Hck; [done|rewrite !length_app; lia]|]. intros _ _.
      specialize (IH (pre ++ cur ++ [sep]) []). rewrite !length_app in IH.
      rewrite <- !app_assoc in IH. simpl in IH.
      replace (length pre + (length cur + 1) + 0) with (length pre + length cur + 1) in IH by lia.
      replace (length pre + (length cur + 1)) with (length pre + length cur + 1) in IH by lia.
      apply IH; [done|apply not_elem_of_nil|].
      intros c st Hc Hl. apply Hck; [done|]. rewrite !length_app in *. simpl in *. lia.
    + specialize (IH pre (cur ++ [b])). rewrite <- !app_assoc in IH. simpl in IH.
      replace (length pre + length (cur ++ [b])) with (length pre + length cur + 1) in IH
        by (rewrite length_app; simpl; lia). apply IH; [done| |done].
      rewrite not_elem_of_app, list_elem_of_singleton. split; congruence.
Qed.

Lemma each_component_all_within sep (check : str -> nat -> result OciReferenceError unit) n s :
  is_ascii sep = true -> utf8 s ->
  (forall c st, utf8 c -> st + length c <= length s -> offset_within (check c st) n) ->
  offset_within (each_component sep check s 0 0 s) n.
Proof.
  intros Hsep Hu Hck. apply (each_component_within sep check n s [] [] s); try done.
  apply not_elem_of_nil.
Qed.

Lemma validate_host_within h off : utf8 h -> offset_within (validate_host h off) (off + length h).
Proof.
  intros Hu. unfold validate_host. case_bool_decide; [within|].
  apply each_component_all_within; [done..|]. intros c st Hc Hl. unfold host_component_check.
  destruct (head c), (last c); try within.
Qed.

Lemma path_component_scan_within off dot run l n :
  Forall (fun '(i, _) => i < n) l -> offset_within (path_component_scan off dot run l) (off + n).
Proof.
  intros HF. revert dot run. induction HF as [|[i ch] l Hi _ IH]; intros dot run; [done|].
  cbn [path_component_scan]. repeat (case_bool_decide || case_match); simplify_eq;
    try apply IH; simpl; intros ? [= <-]; lia.
Qed.

Lemma validate_path_component_within c off :
  utf8 c -> offset_within (validate_path_component c off) (off + length c).
Proof.
  intros Hu. unfold validate_path_component. destruct (head c), (last c); try within.
  destruct (negb _); [within|]. destruct (negb _); [within|].
  apply path_component_scan_within, Forall_forall. intros [i ch] Hin.
  by apply (char_indices_lt c i ch Hu).
Qed.

Lemma validate_repository_within r off :
  utf8 r -> offset_within (validate_repository r off) (off + length r).
Proof.
  intros Hu. unfold validate_repository. case_bool_decide; [within|].
  apply each_component_all_within; [done..|]. intros c st Hc Hl.
  eapply offset_within_le; [|by apply validate_path_component_within]. lia.
Qed.

Lemma parse_host_within d off : utf8 d -> offset_within (parse_host d off) (off + length d).
Proof.
  intros Hu. unfold parse_host. destruct (rfind_byte ":" d) as [i|] eqn:E.
  - pose proof (rfind_byte_lt _ _ _ E). apply rfind_byte_Some in E as [E _]. cbv zeta.
    case_bool_decide; [simpl; intros ? [= <-]; lia|].
    destruct (parse_unsigned _ _); simpl; [|intros ? [= <-]; lia].
    apply offset_within_bind; [|done].
    eapply offset_within_le; [|apply validate_host_within].
    + rewrite length_take. lia.
    + rewrite <- (take_drop i d), (drop_S _ _ _ E) in Hu.
      by apply (utf8_app_ascii ":") in Hu as [? _].
  - simpl. apply offset_within_bind; [|done]. by apply validate_host_within.
Qed.

Lemma split_host_within name off : utf8 name -> offset_within (split_host name off) (off + length name).
Proof.
  intros Hu. unfold split_host. case_bool_decide; [within|].
  destruct (find_byte "/" name) as [i|] eqn:E.
  - pose proof (find_byte_lt _ _ _ E) as Hi.
    destruct (utf8_take_find "/" name i eq_refl Hu E) as [Hu1 Hu2]. cbv zeta.
    destruct (looks_like_host _); (apply offset_within_bind; [|intros []]); try done.
    + eapply offset_within_le; [|by apply parse_host_within]. rewrite length_take. lia.
    + intros _. apply offset_within_bind; [|done]. rewrite Nat.add_1_r in *.
      eapply offset_within_le; [|by apply validate_repository_within]. rewrite length_drop. lia.
    + by apply validate_repository_within.
  - apply offset_within_bind; [|done]. by apply validate_path_component_within.
Qed.

Lemma split_tag_within nt : utf8 nt -> offset_within (split_tag nt) (length nt).
Proof.
  intros Hu. unfold split_tag. destruct (rfind_byte ":" nt) as [i|] eqn:E; [|done].
  pose proof (rfind_byte_lt _ _ _ E). apply rfind_byte_Some in E as [E _]. cbv zeta.
  rewrite Nat.add_1_r. destruct (contains_byte _ _); [done|]. case_bool_decide; [within|].
  case_bool_decide; [within|]. apply offset_within_bind; [|done].
  eapply offset_within_le; [|apply validate_tag_within]; [rewrite length_drop; lia|].
  rewrite <- (take_drop i nt), (drop_S _ _ _ E) in Hu. by apply (utf8_app_ascii ":") in Hu as [_ ?].
Qed.

Lemma OciReference_new_within raw : utf8 raw -> offset_within (OciReference_new raw) (length raw).
Proof.
  intros Hu. unfold OciReference_new. case_bool_decide; [within|].
  destruct (find_byte nul raw) as [i|] eqn:En; [within|].
  assert (HN : forall nt, utf8 nt -> length nt <= length raw ->
    offset_within ('(name, _) ← split_tag nt; _ ← split_host name 0; Ok {| oci_raw := raw |}) (length raw)).
  { intros nt Hnt Hl. apply offset_within_bind.
    - eapply offset_within_le; [|by apply split_tag_within]. done.
    - intros [name tag] Et. apply split_tag_Ok in Et as (-> & Hname & _); [|done].
      apply offset_within_bind; [|done]. rewrite length_app in Hl.
      eapply offset_within_le; [|by apply split_host_within]. lia. }
  destruct (find_byte "@" raw) as [i|] eqn:E; [|by apply HN].
  pose proof (find_byte_lt _ _ _ E). destruct (utf8_take_find "@" raw i eq_refl Hu E) as [Hu1 Hu2].
  rewrite Nat.add_1_r. pose proof (parse_digest_within (drop (S i) raw) (S i) Hu2) as HD.
  rewrite length_drop in HD. destruct (parse_digest _ _); simpl in HD |- *.
  - apply HN; [done|]. rewrite length_take. lia.
  - intros o Ho. specialize (HD o Ho). lia.
Qed.

#[export] Program Instance OciReference_NewType : NewType OciReference OciReferenceError := {
  new := OciReference_new; as_str := oci_raw
}.
Next Obligation.
  intros raw v H. unfold OciReference_new in H. cases_in H; try done.
  all: repeat match goal with
    | H : (_ ≫= _) = Ok _ |- _ => apply bind_Ok in H as ([] & ? & ?) || apply bind_Ok in H as (? & ? & ?)
    end; by simplify_eq/=.
Qed.
Next Obligation.
  intros raw e o Hu H Ho. pose proof (OciReference_new_within raw Hu) as HW.
  rewrite H in HW. by apply HW.
Qed.

(** *** Both directions of the grammar *)

Lemma tag_part_no_byte tag c :
  c = nul \/ c = "@"%char -> (forall t, tag = Some t -> tag_grammar t = true) -> c ∉ port_part tag.
Proof.
  intros Hc HT. destruct tag as [t|]; [|apply not_elem_of_nil].
  destruct (tag_grammar_spec t (HT t eq_refl)) as [_ H]. cbn [port_part].
  change (":" ++ t) with (":"%char :: t). rewrite not_elem_of_cons.
  destruct Hc as [E|E]; subst; (split; [done|by apply H]).
Qed.

Lemma digest_no_nul d : digest_grammar d = true -> nul ∉ "@" ++ d.
Proof.
  unfold digest_grammar, split_once. destruct (find_byte ":" d) as [i|] eqn:E; [|done].
  intros H. bools. apply find_byte_Some in E as [E _].
  change ("@" ++ d) with ("@"%char :: d). rewrite not_elem_of_cons. split; [done|].
  rewrite <- (take_drop i d), (drop_S _ _ _ E), not_elem_of_app, not_elem_of_cons.
  split_and!; [by apply (ascii_not_in algorithm_byte)|done|by apply (ascii_not_in is_ascii_hexdigit)].
Qed.

(** Peeling the digest off finds the name and the tag. *)
Lemma OciReference_complete raw name tag digest :
  utf8 raw ->
  raw = (name ++ port_part tag) ++ match digest with Some d => "@" ++ d | None => [] end ->
  "@"%char ∉ name ++ port_part tag -> (forall d, digest = Some d -> digest_grammar d = true) ->
  exists nt, name ++ port_part tag = nt /\ utf8 nt
    /\ match find_byte "@" raw with
       | Some at_pos =>
           _ ← parse_digest (drop (at_pos + 1) raw) (at_pos + 1); Ok (take at_pos raw)
       | None => Ok raw
       end = (Ok nt : result OciReferenceError str).
Proof.
  intros Hu E Hat HD. exists (name ++ port_part tag). split; [done|].
  destruct digest as [d|]; cycle 1.
  { rewrite app_nil_r in E. subst raw. split; [done|]. by rewrite (proj2 (find_byte_None _ _) Hat). }
  change ("@" ++ d) with ("@"%char :: d) in E. rewrite E in Hu.
  apply (utf8_app_ascii "@") in Hu as [Hu1 Hu2]; [|done]. split; [done|].
  rewrite E, find_byte_app by done. rewrite <- drop_drop, drop_app_length, take_app_length. simpl.
  specialize (HD d eq_refl).
  rewrite <- (parse_digest_ok d (length (name ++ port_part tag) + 1) Hu2) in HD.
  by destruct (parse_digest _ _).
Qed.

Lemma OciReference_sound raw v :
  utf8 raw -> OciReference_new raw = Ok v -> reference_grammar raw.
Proof.
  intros Hu. unfold OciReference_new. case_bool_decide; [done|].
  destruct (find_byte nul raw) eqn:En; [done|].
  assert (HN : forall nt, utf8 nt ->
    ('(name, _) ← split_tag nt; _ ← split_host name 0; Ok {| oci_raw := raw |}) = Ok v ->
    exists name tag, nt = name ++ port_part tag /\ name_grammar name
      /\ forall t, tag = Some t -> tag_grammar t = true).
  { intros nt Hnt H0. apply bind_Ok in H0 as ([name tag] & Et & H0).
    apply bind_Ok in H0 as (r & Er & _). apply split_tag_Ok in Et as (-> & Hname & HT); [|done].
    exists name, tag. split_and!; [done| |done]. apply (split_host_ok name 0); [done|]. by rewrite Er. }
  destruct (find_byte "@" raw) as [i|] eqn:E.
  - destruct (utf8_take_find "@" raw i eq_refl Hu E) as [Hu1 Hu2].
    apply find_byte_Some in E as [E _]. rewrite Nat.add_1_r.
    pose proof (parse_digest_ok (drop (S i) raw) (S i) Hu2) as HD.
    destruct (parse_digest _ _); simpl; [|done]. intros H0.
    destruct (HN _ Hu1 H0) as (name & tag & Ent & HG & HT).
    exists name, tag, (Some (drop (S i) raw)). split_and!; [|done|done|by intros d [= <-]].
    rewrite <- Ent. change ("@" ++ drop (S i) raw) with ("@"%char :: drop (S i) raw).
    by rewrite <- (drop_S _ _ _ E), take_drop.
  - simpl. intros H0. destruct (HN _ Hu H0) as (name & tag & Ent & HG & HT).
    exists name, tag, None. split_and!; [by rewrite app_nil_r|done|done|done].
Qed.

(** What the code accepts. *)
Lemma OciReference_accepts raw :
  utf8 raw ->
  (OciReference_new raw = Ok {| oci_raw := raw |} <-> reference_grammar raw).
Proof.
  intros Hu. split; [by apply OciReference_sound|]. intros (name & tag & digest & E & HN & HT & HD).
  assert (Hb : forall c, c = nul \/ c = "@"%char -> c ∉ name ++ port_part tag).
  { intros c Hc. rewrite not_elem_of_app. split.
    - by apply name_grammar_no_byte; destruct Hc as [E'|E']; rewrite ?E'.
    - by apply tag_part_no_byte. }
  assert (Hn : nul ∉ raw).
  { rewrite E, not_elem_of_app. split; [apply Hb; by left|].
    destruct digest as [d|]; [|apply not_elem_of_nil]. by apply digest_no_nul, HD. }
  unfold OciReference_new. rewrite bool_decide_eq_false_2; cycle 1.
  { intros ->. symmetry in E. apply app_eq_nil in E as [E _]. apply app_eq_nil in E as [E _].
    by subst. }
  rewrite (proj2 (find_byte_None nul raw) Hn).
  destruct (OciReference_complete raw name tag digest) as (nt & Ent & Hnt & ->);
    [done|done|by apply Hb; right|done|].
  simpl. rewrite <- Ent. destruct (split_tag_complete name tag) as [tag' Et];
    [by rewrite Ent|done|done|].
  rewrite Et. simpl. rewrite <- Ent in Hnt. apply split_tag_Ok in Et as (_ & Hu' & _); [|done].
  apply (split_host_ok name 0) in HN; [|done]. by destruct (split_host name 0).
Qed.

(** *** The documented grammar is accepted *)

(** Neither two dots nor three underscores. *)
Definition run_free (n : str) : Prop := n = (".." : str) \/ n = ("___" : str).

Lemma contains_skip_all n s t : n <> [] -> Forall (fun c => c ∉ n) s -> contains n (s ++ t) = contains n t.
Proof. intros Hn. induction 1 as [|c s Hc _ IH]; [done|]. cbn [app]. rewrite <- IH. apply (contains_skip n c (s ++ t) Hn Hc []); [constructor|]. by destruct n; [|cbn; lia]. Qed.

Lemma alnum_not_in n c : run_free n -> alnum_lower c = true -> c ∉ n.
Proof.
  intros Hn Hc Hin. destruct Hn as [->| ->]; cbn in Hin; repeat (apply elem_of_cons in Hin as [->|Hin]; [done|]); by apply elem_of_nil in Hin.
Qed.

(** A separator is made of other bytes, or is shorter than the run. *)
Lemma separator_run n sep : run_free n -> separator sep ->
  Forall (fun c => c ∉ n) sep \/ (Forall (fun c => c ∈ n) sep /\ length sep < length n).
Proof.
  intros [->| ->] [->|[->|[->|H]]]; try (left; by repeat constructor; vm_compute; set_solver).
  all: try (right; split; [by repeat constructor; vm_compute; set_solver|cbn; lia]).
  all: left; eapply Forall_impl; [exact H|]; intros c ->; set_solver.
Qed.

Lemma doc_component_head c : doc_path_component c -> exists a t, c = a :: t /\ alnum_lower a = true.
Proof. destruct 1 as [s [Hn Hs]|s sep c [Hn Hs] _ _]; destruct s as [|x s]; try done; apply Forall_cons in Hs as [Hx _]; by eexists _, _. Qed.

Lemma doc_component_run n c : run_free n -> doc_path_component c -> contains n c = false.
Proof.
  intros Hn. assert (Hne : n <> []) by (destruct Hn as [->| ->]; done). assert (Hl : 0 < length n) by (destruct Hn as [->| ->]; cbn; lia).
  assert (Ha : forall a t, alpha_numeric a -> contains n (a ++ t) = contains n t).
  { intros a t [_ H]. apply contains_skip_all; [done|]. eapply Forall_impl; [exact H|]. intros x. by apply alnum_not_in. }
  induction 1 as [a H|a sep c H Hsep Hc IH].
  - rewrite <- (app_nil_r a), Ha by done. by destruct Hn as [->| ->].
  - rewrite Ha by done. destruct (separator_run n sep Hn Hsep) as [Hs|[Hs Hlen]]; [by rewrite contains_skip_all|].
    destruct (doc_component_head c Hc) as (x & t & -> & Hx). pose proof (alnum_not_in n x Hn Hx) as Hxn.
    rewrite (contains_skip n x t Hne Hxn sep Hs Hlen). by rewrite <- (contains_skip n x t Hne Hxn [] (Forall_nil_2 _) Hl).
Qed.

Lemma doc_component_bytes c : doc_path_component c -> forallb repo_byte c = true /\ ends_in alnum_lower c = true.
Proof.
  assert (Hb : forall x, alnum_lower x = true -> repo_byte x = true) by (intros x H; unfold repo_byte; by rewrite H).
  assert (Ha : forall a, alpha_numeric a -> forallb repo_byte a = true).
  { intros a [_ H]. apply forallb_forall. intros x Hx%list_elem_of_In. rewrite Forall_forall in H. by apply Hb, H. }
  induction 1 as [a H|a sep c H Hsep Hc [IH1 IH2]].
  - split; [by apply Ha|]. destruct H as [Hn H]. unfold ends_in. destruct (last a) as [x|] eqn:E; [|by apply last_None in E].
    rewrite Forall_forall in H. apply H. by apply last_Some_elem_of.
  - split.
    + rewrite !forallb_app, IH1, (Ha a H), andb_true_r. cbn [andb]. destruct Hsep as [->|[->|[->|Hd]]]; [done..|].
      apply forallb_forall. intros x Hx%list_elem_of_In. rewrite Forall_forall in Hd. by rewrite (Hd x Hx).
    + unfold ends_in in *. rewrite app_assoc, last_app. destruct (last c); [done|]. discriminate IH2.
Qed.

Lemma doc_component_accepted c : doc_path_component c -> path_component_grammar c = true.
Proof.
  intros H. unfold path_component_grammar. destruct (doc_component_bytes c H) as [-> ->].
  rewrite (doc_component_run _ c (or_introl eq_refl) H), (doc_component_run _ c (or_intror eq_refl) H).
  destruct (doc_component_head c H) as (a & t & -> & Ha). cbn. by rewrite Ha.
Qed.

Lemma doc_components_accepted l : Forall doc_path_component l -> forallb path_component_grammar l = true.
Proof. intros H. apply forallb_forall. intros c Hc%list_elem_of_In. rewrite Forall_forall in H. by apply doc_component_accepted, H. Qed.

Lemma doc_domain_accepted d : doc_domain d -> domain_grammar d.
Proof.
  intros (host & port & -> & Hh & Hp). exists host, port. split_and!; [done|done|]. intros p E. destruct (Hp p E) as (Hn & Hd & Hv).
  assert (Hd' : forallb is_ascii_digit p = true) by done. unfold parse_unsigned.
  assert (Eb : match p with "+"%char :: s' => s' | _ => p end = p) by (destruct p as [|[[] [] [] [] [] [] [] []] p]; done).
  rewrite Eb. destruct p as [|c p]; [done|]. rewrite Hd. cbn [andb]. rewrite (proj2 (N.leb_le _ _)) by exact Hv. by eexists.
Qed.

Lemma documented_accepted raw : documented raw -> reference_grammar raw.
Proof.
  intros (name & tag & digest & E & HN & HT & HD). exists name, tag, digest. split_and!; [done| |done|done].
  unfold doc_name, name_grammar in *. destruct (split "/" name) as [|hd [|x comps]]; [by apply doc_components_accepted..|].
  destruct (looks_like_host hd); [|by apply doc_components_accepted]. destruct HN as [H1 H2].
  split; [by apply doc_domain_accepted|by apply doc_components_accepted].
Qed.

(** ** Properties *)

(** C33 (functional): [OciReference::new] accepts every reference of the documented
    grammar whose host is a name or an IPv4 address, with a port below 65536, a tag of at most 128
    characters and a digest of at least 32 hexadecimal digits, and keeps it
    verbatim; and it accepts nothing but names of lower-case path components without
    runs of dots or of three underscores, behind a host where the first of several
    segments looks like one, with such a tag and such a digest.  Nothing is
    said of bracketed IPv6 hosts. *)
Theorem OciReference_new_documented raw :
  utf8 raw ->
  (documented raw -> OciReference_new raw = Ok {| oci_raw := raw |})
  /\ forall v, OciReference_new raw = Ok v -> v = {| oci_raw := raw |} /\ admissible raw.
Proof.
  intros Hu. split; [intros H; by apply OciReference_accepts, documented_accepted|]. intros v H. split.
  - pose proof (new_as_str (T := OciReference) raw v H) as Hv. destruct v as [t]. cbn in Hv. by subst.
  - left. by eapply OciReference_sound.
Qed.

Lemma OciReference_new_documented_witness :
  OciReference_new "localhost:5000/team/a__b.c-d:1.0" = Ok {| oci_raw := "localhost:5000/team/a__b.c-d:1.0" |}.
Proof.
  apply (proj1 (OciReference_new_documented "localhost:5000/team/a__b.c-d:1.0" ltac:(by apply utf8_ascii))).
  exists "localhost:5000/team/a__b.c-d", (Some ("1.0" : str)), None. split_and!; [done| |by intros t [= <-]|done].
  assert (Ha : forall a : str, forallb alnum_lower a && negb (bool_decide (a = [])) = true -> alpha_numeric a).
  { intros a H. bools. split; [done|]. apply List.Forall_forall, forallb_forall. assumption. }
  split.
  - exists "localhost", (Some ("5000" : str)). split_and!; [done|done|]. intros p [= <-]. split_and!; [done|done|by vm_compute].
  - constructor; [apply dpc_last, Ha; reflexivity|]. constructor; [|constructor].
    apply (dpc_more "a" "__" "b.c-d"); [apply Ha; reflexivity|unfold separator; tauto|].
    apply (dpc_more "b" "." "c-d"); [apply Ha; reflexivity|unfold separator; tauto|].
    apply (dpc_more "c" "-" "d"); [apply Ha; reflexivity|unfold separator; do 3 right; by repeat constructor|].
    apply dpc_last, Ha; reflexivity.
Defined.

(** A reference accepted with placeholders allowed is kept
    verbatim, is non-empty and free of NUL, and escapes the strict grammar only
    when it does contain a placeholder. *)
Theorem OciReference_placeholders raw v :
  utf8 raw -> OciReference_new_allowing_placeholders raw = Ok v ->
  v = {| oci_raw := raw |} /\ raw <> [] /\ (nul ∉ raw)
  /\ (contains_placeholder raw = false -> reference_grammar raw).
Proof.
  intros Hu H. unfold OciReference_new_allowing_placeholders in H.
  destruct (contains_placeholder raw); simpl in H.
  - case_bool_decide; [done|]. destruct (find_byte nul raw) eqn:E; [done|].
    injection H as <-. split_and!; [done|done|by apply find_byte_None|done].
  - pose proof (new_as_str (T := OciReference) raw v H) as Hv. destruct v as [r]. simpl in Hv. subst r.
    split_and!; [done| | |by intros _; eapply OciReference_sound].
    + intros ->. done.
    + unfold OciReference_new in H. case_bool_decide; [done|].
      destruct (find_byte nul raw) eqn:E; [done|]. by apply find_byte_None.
Qed.

Lemma OciReference_placeholders_witness :
  bytes_of "app:${TAG}" <> [] /\ (nul ∉ bytes_of "app:${TAG}").
Proof.
  destruct (OciReference_placeholders "app:${TAG}" {| oci_raw := "app:${TAG}" |})
    as (_ & H1 & H2 & _); [by apply utf8_ascii|vm_compute; reflexivity|by split].
Defined.
