(* ===== verification/Target.v ===== *)
(** * Target: what a build targets — artifact kinds, CPU architectures and root
    filesystems (crates/umf-core/src/l0.rs, architecture.rs, boot.rs, label.rs). *)

From S2P Require Import Prelude RustStr RustStrFacts.

(** ** Artifact kinds (l0.rs) *)

Inductive Payload := Payload_Kernel | Payload_Rootfs | Payload_Bootloader | Payload_Firmware.

Inductive L0Kind :=
| L0Kind_Scratch
| L0Kind_Container
| L0Kind_Bootable
| L0Kind_KernelBuildEnv
| L0Kind_Payload (p : Payload)
| L0Kind_Unknown (s : str).

Inductive L0Source := L0Source_Label | L0Source_Inferred.

#[export] Instance Payload_eq_dec : EqDecision Payload.
Proof. solve_decision. Defined.
#[export] Instance L0Kind_eq_dec : EqDecision L0Kind.
Proof. solve_decision. Defined.

Definition L0Kind_from_label (value : str) : L0Kind :=
  if decide (value = "container") then L0Kind_Container
  else if decide (value = "bootable") then L0Kind_Bootable
  else if decide (value = "kernel-build-env") then L0Kind_KernelBuildEnv
  else if decide (value = "kernel") then L0Kind_Payload Payload_Kernel
  else if decide (value = "rootfs") then L0Kind_Payload Payload_Rootfs
  else if decide (value = "bootloader") then L0Kind_Payload Payload_Bootloader
  else if decide (value = "firmware") then L0Kind_Payload Payload_Firmware
  else L0Kind_Unknown value.

Definition is_payload (k : L0Kind) : bool :=
  match k with L0Kind_Payload _ => true | _ => false end.

Definition is_kernel (k : L0Kind) : bool :=
  match k with L0Kind_Payload Payload_Kernel => true | _ => false end.

Definition is_valid_from (k : L0Kind) (bootable_build : bool) : bool :=
  match k with
  | L0Kind_Bootable => true
  | _ =>
      if bootable_build then is_kernel k
      else match k with
           | L0Kind_Scratch | L0Kind_Container | L0Kind_KernelBuildEnv => true
           | _ => false
           end
  end.

Definition Payload_fmt (p : Payload) : str :=
  match p with
  | Payload_Kernel => "kernel"
  | Payload_Rootfs => "rootfs"
  | Payload_Bootloader => "bootloader"
  | Payload_Firmware => "firmware"
  end.

Definition L0Kind_fmt (k : L0Kind) : str :=
  match k with
  | L0Kind_Scratch => "scratch"
  | L0Kind_Container => "container"
  | L0Kind_Bootable => "bootable"
  | L0Kind_KernelBuildEnv => "kernel-build-env"
  | L0Kind_Payload p => Payload_fmt p
  | L0Kind_Unknown s => s
  end.

(** ** Architectures (architecture.rs) *)

Inductive Architecture := X86_64 | Aarch64.

#[export] Instance Architecture_eq_dec : EqDecision Architecture.
Proof. solve_decision. Defined.

Inductive PlatformParseReason :=
| PlatformParseReason_MissingSeparator
| PlatformParseReason_UnsupportedOs (os : str)
| PlatformParseReason_UnsupportedArchitecture (arch : str).

Record PlatformParseError := {
  platform_input : str;
  reason : PlatformParseReason
}.

Definition from_arch_str (s : str) : option Architecture :=
  if decide (s = "amd64" \/ s = "x86_64") then Some X86_64
  else if decide (s = "arm64" \/ s = "aarch64") then Some Aarch64
  else None.

Definition from_platform_str (s : str) : result PlatformParseError Architecture :=
  '((os, arch) : str * str) ← ok_or (split_once "/" s)
     {| platform_input := s; reason := PlatformParseReason_MissingSeparator |};
  if negb (bool_decide (os = "linux")) then
    Err {| platform_input := s; reason := PlatformParseReason_UnsupportedOs os |}
  else
    ok_or (from_arch_str arch)
      {| platform_input := s; reason := PlatformParseReason_UnsupportedArchitecture arch |}.

Definition qemu_binary_name (a : Architecture) : str :=
  match a with X86_64 => "qemu-system-x86_64" | Aarch64 => "qemu-system-aarch64" end.
Definition uefi_fallback_filename (a : Architecture) : str :=
  match a with X86_64 => "BOOTX64.EFI" | Aarch64 => "BOOTAA64.EFI" end.
Definition systemd_boot_filename (a : Architecture) : str :=
  match a with X86_64 => "systemd-bootx64.efi" | Aarch64 => "systemd-bootaa64.efi" end.
Definition linux_arch_string (a : Architecture) : str :=
  match a with X86_64 => "x86_64" | Aarch64 => "aarch64" end.
Definition oci_arch_string (a : Architecture) : str :=
  match a with X86_64 => "amd64" | Aarch64 => "arm64" end.
Definition serial_console (a : Architecture) : str :=
  match a with X86_64 => "ttyS0" | Aarch64 => "ttyAMA0" end.
Definition Architecture_fmt (a : Architecture) : str := linux_arch_string a.

(** ** Root filesystems (boot.rs) *)

Inductive RootfsFs := Squashfs | Ext4 | Erofs.

#[export] Instance RootfsFs_eq_dec : EqDecision RootfsFs.
Proof. solve_decision. Defined.

Definition RootfsFs_default : RootfsFs := Squashfs.
Definition RootfsFs_ALL : list RootfsFs := [Squashfs; Ext4; Erofs].

Definition RootfsFs_as_str (fs : RootfsFs) : str :=
  match fs with Squashfs => "squashfs" | Ext4 => "ext4" | Erofs => "erofs" end.

Definition RootfsFs_from_token (token : str) : option RootfsFs :=
  List.find (fun fs => bool_decide (RootfsFs_as_str fs = token)) RootfsFs_ALL.

Definition host_mkfs (fs : RootfsFs) : option str :=
  match fs with Squashfs => None | Ext4 => Some ("mkfs.ext4" : str) | Erofs => Some ("mkfs.erofs" : str) end.

Definition is_read_only (fs : RootfsFs) : bool :=
  match fs with Squashfs | Erofs => true | Ext4 => false end.

(** [[T]::join]. *)
Fixpoint join (sep : str) (l : list str) : str :=
  match l with
  | [] => []
  | [s] => s
  | s :: l' => s ++ sep ++ join sep l'
  end.

Definition supported_tokens : str := join ", " (RootfsFs_as_str <$> RootfsFs_ALL).

Record UnsupportedRootfsFs := { UnsupportedRootfsFs_0 : str }.

Definition RootfsFs_from_str (s : str) : result UnsupportedRootfsFs RootfsFs :=
  ok_or (RootfsFs_from_token s) {| UnsupportedRootfsFs_0 := s |}.

Definition UnsupportedRootfsFs_fmt (e : UnsupportedRootfsFs) : str :=
  "unsupported root filesystem `" ++ UnsupportedRootfsFs_0 e
  ++ "` (supported: " ++ supported_tokens ++ ")".

Definition ROOTFS_PARTLABEL : str := "ROOTFS".

(** ** Label names (label.rs) *)

Definition NAMESPACE : str := "org.imagilux.umf".
Definition TYPE : str := "org.imagilux.umf.type".
Definition SPEC_VERSION : str := "org.imagilux.umf.spec".
Definition CURRENT_SPEC_VERSION : str := "0.0.1".
Definition ENTRYPOINT : str := "org.imagilux.umf.entrypoint".
Definition KERNEL_RELEASE : str := "org.imagilux.umf.kernel.release".
Definition KERNEL_VMLINUZ : str := "org.imagilux.umf.kernel.vmlinuz".
Definition KERNEL_CMDLINE : str := "org.imagilux.umf.kernel.cmdline".
Definition INITRAMFS : str := "org.imagilux.umf.initramfs".
Definition ROOTFS_FS : str := "org.imagilux.umf.rootfs.fs".
Definition FLAVOR : str := "org.imagilux.umf.flavor".

(** ** Properties *)

(** The label values the builder recognises. *)
Definition known_label (v : str) : Prop :=
  v ∈ [("container" : str); ("bootable" : str); ("kernel-build-env" : str); ("kernel" : str);
       ("rootfs" : str); ("bootloader" : str); ("firmware" : str)].

Lemma from_label_fmt v : L0Kind_fmt (L0Kind_from_label v) = v.
Proof. unfold L0Kind_from_label. repeat case_decide; by subst. Qed.

Lemma from_label_unknown v : ~ known_label v -> L0Kind_from_label v = L0Kind_Unknown v.
Proof.
  unfold known_label, L0Kind_from_label. intros H.
  repeat case_decide; subst; try done; exfalso; apply H; set_solver.
Qed.

(** Printing the kind read from a type label gives the label
    back, and reading a printed kind gives the kind back — except for [scratch],
    which is no label, and for an unknown kind spelt like a known one. *)
Theorem L0Kind_label_roundtrip :
  (forall v, L0Kind_fmt (L0Kind_from_label v) = v)
  /\ (forall k, L0Kind_from_label (L0Kind_fmt k) = k <->
        match k with
        | L0Kind_Scratch => False
        | L0Kind_Unknown s => ~ known_label s
        | _ => True
        end).
Proof.
  split; [apply from_label_fmt|]. intros k. destruct k as [| | | |p|s]; try done.
  - by destruct p.
  - split; [|apply from_label_unknown]. intros H Hk. simpl in H. unfold known_label in Hk.
    repeat (apply elem_of_cons in Hk as [E|Hk]; [by subst|]). by apply not_elem_of_nil in Hk.
Qed.

(** Which type labels may start a build — a bootable image starts
    any build; beyond it a bootable build starts from a kernel only, and a
    container build from a container or a kernel build environment. *)
Theorem valid_from_labels v b :
  is_valid_from (L0Kind_from_label v) b = true <->
  v = "bootable"
  \/ (if b then v = "kernel" else v = "container" \/ v = "kernel-build-env").
Proof.
  split.
  - intros H. rewrite <- (from_label_fmt v).
    destruct (L0Kind_from_label v) as [| | | |p|s] eqn:E; destruct b; try done; auto.
    + exfalso. unfold L0Kind_from_label in E. repeat case_decide; done.
    + destruct p; try done. auto.
  - destruct b; intros H; repeat destruct H as [H|H]; by subst.
Qed.

(** Both spellings of each architecture parse to it, with or
    without the platform prefix, and every accepted platform is one of these. *)
Theorem platform_roundtrip s a :
  from_platform_str s = Ok a <->
  s = "linux/" ++ oci_arch_string a \/ s = "linux/" ++ linux_arch_string a.
Proof.
  split.
  - unfold from_platform_str, split_once. destruct (find_byte "/" s) as [i|] eqn:E; [|done].
    simpl. case_bool_decide as Ho; [|done]. unfold from_arch_str. simpl.
    apply find_byte_Some in E as [E _].
    assert (s = "linux/" ++ drop (S i) s) as Es.
    { rewrite <- (take_drop i s) at 1. rewrite Ho, (drop_S _ _ _ E). done. }
    case_decide as H1; [|case_decide as H2]; simpl; [| |done]; intros [= <-]; rewrite Es;
      [destruct H1 as [H|H]|destruct H2 as [H|H]]; rewrite H; auto.
  - intros H. destruct a; destruct H as [H|H]; by subst.
Qed.

(** A filesystem token names exactly one supported
    filesystem, and an unsupported one is reported verbatim. *)
Theorem RootfsFs_token_roundtrip s :
  (forall fs, RootfsFs_from_str s = Ok fs <-> RootfsFs_as_str fs = s)
  /\ (forall e, RootfsFs_from_str s = Err e -> UnsupportedRootfsFs_0 e = s
        /\ forall fs, RootfsFs_as_str fs <> s).
Proof.
  assert (H : forall fs, RootfsFs_from_token s = Some fs <-> RootfsFs_as_str fs = s).
  { intros fs. unfold RootfsFs_from_token. simpl. split.
    - repeat case_bool_decide; intros; by simplify_eq.
    - intros <-. by destruct fs. }
  unfold RootfsFs_from_str. split.
  - intros fs. rewrite <- H. destruct (RootfsFs_from_token s); simpl; naive_solver.
  - intros e. destruct (RootfsFs_from_token s) as [fs|] eqn:E; [done|]. intros [= <-].
    split; [done|]. intros fs Hfs. by apply H in Hfs.
Qed.
