(* ===== verification/Ast.v ===== *)
(** * Ast: spans and the abstract syntax tree (crates/umf-core/src/ast/). *)

From S2P Require Import Prelude RustStr Identifiers Paths OciRef.

(** ** Spans (span.rs) *)

Record Span := mkSpan { start : nat; end_ : nat }.

(** [Span::len] saturates at zero, as natural subtraction does. *)
Definition Span_len (s : Span) : nat := end_ s - start s.
Definition Span_is_empty (s : Span) : bool := bool_decide (end_ s = start s).

Record Spanned (T : Type) := mkSpanned { value : T; span : Span }.
Arguments mkSpanned {T} _ _.
Arguments value {T} _.
Arguments span {T} _.

(** ** Directives (directive.rs) *)

Record Label := { label_key : Spanned LabelKey; label_value : Spanned LabelValue; label_span : Span }.
Record Env := { env_key : Spanned EnvVarName; env_value : Spanned EnvVarValue; env_span : Span }.
Record Arg := {
  arg_name : Spanned EnvVarName;
  arg_default : option (Spanned EnvVarValue);
  arg_span : Span
}.
Record Shell := { shell_argv : list (Spanned str); shell_span : Span }.
Record User := { user_name : Spanned Username; user_span : Span }.
Record Workdir := { workdir_path : Spanned RecipePath; workdir_span : Span }.

Inductive RunCommand :=
| RunCommand_Shell (s : Spanned str)
| RunCommand_Exec (l : list (Spanned str)).

Inductive RunMountKind :=
| RunMountKind_Secret (id : Spanned SecretId) (target : option (Spanned RecipePath)).

Record RunMount := { mount_kind : RunMountKind; mount_span : Span }.
Record Run := { run_command : RunCommand; run_mounts : list RunMount; run_span : Span }.

Inductive AddSource :=
| AddSource_Url (u : Spanned HttpsUrl)
| AddSource_Path (p : Spanned str)
| AddSource_Oci (r : Spanned OciReference).

Definition AddSource_span (a : AddSource) : Span :=
  match a with
  | AddSource_Url s => span s
  | AddSource_Path s => span s
  | AddSource_Oci s => span s
  end.

Definition AddSource_as_str (a : AddSource) : str :=
  match a with
  | AddSource_Url s => url_raw (value s)
  | AddSource_Path s => value s
  | AddSource_Oci s => oci_raw (value s)
  end.

Record Add := {
  add_source : AddSource;
  add_destination : Spanned RecipePath;
  add_from : option (Spanned StageName);
  add_plain_copy : bool;
  add_span : Span
}.

Inductive EntrypointInit :=
| EntrypointInit_Systemd
| EntrypointInit_OpenRc
| EntrypointInit_Path (s : Spanned str)
| EntrypointInit_Exec (l : list (Spanned str))
| EntrypointInit_None.

Definition is_init_system (i : EntrypointInit) : bool :=
  match i with EntrypointInit_Systemd | EntrypointInit_OpenRc => true | _ => false end.

Definition is_binary (i : EntrypointInit) : bool :=
  match i with EntrypointInit_Path _ | EntrypointInit_Exec _ => true | _ => false end.

Record Entrypoint := { entrypoint_init : EntrypointInit; entrypoint_span : Span }.

Inductive ExposeProtocol := ExposeProtocol_Tcp | ExposeProtocol_Udp.

(** [expose_port] is a [u16]. *)
Record Expose := { expose_port : N; expose_protocol : ExposeProtocol; expose_span : Span }.

Inductive CmdForm :=
| CmdForm_Shell (s : Spanned str)
| CmdForm_Exec (l : list (Spanned str)).

Record Cmd := { cmd_command : CmdForm; cmd_span : Span }.
Record Volume := { volume_paths : list (Spanned str); volume_span : Span }.
Record Stopsignal := { stopsignal_signal : Spanned str; stopsignal_span : Span }.

Inductive Directive :=
| Directive_Label (d : Label)
| Directive_Env (d : Env)
| Directive_Arg (d : Arg)
| Directive_Shell (d : Shell)
| Directive_User (d : User)
| Directive_Workdir (d : Workdir)
| Directive_Run (d : Run)
| Directive_Add (d : Add)
| Directive_Entrypoint (d : Entrypoint)
| Directive_Expose (d : Expose)
| Directive_Cmd (d : Cmd)
| Directive_Volume (d : Volume)
| Directive_Stopsignal (d : Stopsignal).

Definition Directive_span (d : Directive) : Span :=
  match d with
  | Directive_Label d => label_span d
  | Directive_Env d => env_span d
  | Directive_Arg d => arg_span d
  | Directive_Shell d => shell_span d
  | Directive_User d => user_span d
  | Directive_Workdir d => workdir_span d
  | Directive_Run d => run_span d
  | Directive_Add d => add_span d
  | Directive_Entrypoint d => entrypoint_span d
  | Directive_Expose d => expose_span d
  | Directive_Cmd d => cmd_span d
  | Directive_Volume d => volume_span d
  | Directive_Stopsignal d => stopsignal_span d
  end.

(** ** Stages (tree.rs) *)

Inductive FromSource :=
| FromSource_Scratch
| FromSource_Reference (r : Spanned OciReference).

Record FromArg := { from_source : FromSource; from_span : Span }.

Record Stage := {
  stage_from : FromArg;
  stage_name : option (Spanned StageName);
  stage_directives : list Directive;
  stage_span : Span
}.

Record Ast := { global_args : list Arg; stages : list Stage }.

(** [Ast::default()]. *)
Definition Ast_default : Ast := {| global_args := []; stages := [] |}.
