(* ===== verification/Diagnostics.v ===== *)
(** * Diagnostics: source-spanned diagnostics and their bounds
    (crates/umf-parser/src/diagnostics.rs). *)

From S2P Require Import Prelude RustStr RustStrFacts Subst Validation Paths Ast.

Inductive Severity := Severity_Error | Severity_Warning | Severity_Advice.

#[export] Instance Severity_eq_dec : EqDecision Severity.
Proof. solve_decision. Defined.

Record Annotation := mkAnnotation { ann_span : Span; ann_message : str }.

Record Diagnostic := {
  severity : Severity;
  message : str;
  primary : Annotation;
  notes : list Annotation;
  diag_hint : option str
}.

Definition Diagnostic_new (sev : Severity) (msg : str) (primary : Annotation) : Diagnostic :=
  {| severity := sev; message := msg; primary := primary; notes := []; diag_hint := None |}.

Definition error (msg : str) (primary : Annotation) : Diagnostic :=
  Diagnostic_new Severity_Error msg primary.
Definition warning (msg : str) (primary : Annotation) : Diagnostic :=
  Diagnostic_new Severity_Warning msg primary.
Definition advice (msg : str) (primary : Annotation) : Diagnostic :=
  Diagnostic_new Severity_Advice msg primary.

Definition with_note (d : Diagnostic) (note : Annotation) : Diagnostic :=
  {| severity := severity d; message := message d; primary := primary d;
     notes := notes d ++ [note]; diag_hint := diag_hint d |}.

Definition with_hint (d : Diagnostic) (h : str) : Diagnostic :=
  {| severity := severity d; message := message d; primary := primary d;
     notes := notes d; diag_hint := Some h |}.

(** [while !raw.is_char_boundary(start) { start -= 1; }] *)
Fixpoint snap_down (raw : str) (start : nat) : nat :=
  if is_char_boundary raw start then start
  else match start with 0 => 0 | S start' => snap_down raw start' end.

(** The span of the character a validation error points at; [None] is a panic
    of the slice. *)
Definition error_span (off : option nat) (raw : str) (token_span : Span) : option Span :=
  match off with
  | Some offset =>
      if bool_decide (offset < length raw) then
        let start0 := snap_down raw offset in
        let absolute_start := start token_span + start0 in
        tail ← slice raw start0 (length raw);
        let ch_len := match first_char tail with Some ch => length ch | None => 1 end in
        let absolute_end := min (absolute_start + ch_len) (end_ token_span) in
        Some (mkSpan absolute_start absolute_end)
      else Some token_span
  | None => Some token_span
  end.

Definition from_validation_error `{ValidationError E} (err : E) (raw : str) (token_span : Span)
    (directive arg_label : str) : outcome Diagnostic :=
  sub_span ← or_panic (error_span (offset err) raw token_span);
  let msg := to_string err in
  let diag := error ("invalid " ++ directive ++ " " ++ arg_label ++ ": " ++ msg)
                    (mkAnnotation sub_span msg) in
  Val (match hint err with Some h => with_hint diag h | None => diag end).

(** ** Bounded collection *)

Definition MAX_COLLECTED_DIAGNOSTICS : nat := 256.

Definition limit_marker : Diagnostic :=
  error ("too many diagnostics; further errors suppressed after "
         ++ nat_to_decimal MAX_COLLECTED_DIAGNOSTICS)
        (mkAnnotation (mkSpan 0 0) "diagnostic limit reached").

Definition push_capped (sink : list Diagnostic) (diag : Diagnostic) : list Diagnostic * bool :=
  if bool_decide (length sink < MAX_COLLECTED_DIAGNOSTICS) then (sink ++ [diag], true)
  else if bool_decide (length sink = MAX_COLLECTED_DIAGNOSTICS) then (sink ++ [limit_marker], false)
  else (sink, false).

Definition MAX_RENDERED_DIAGNOSTICS : nat := 50.

(** [report_all] up to the renderer: the diagnostics handed to [report] and the
    number announced on the summary line, if there is one. *)
Definition report_all (diagnostics : list Diagnostic) : list Diagnostic * option nat :=
  (take MAX_RENDERED_DIAGNOSTICS diagnostics,
   if bool_decide (MAX_RENDERED_DIAGNOSTICS < length diagnostics)
   then Some (length diagnostics - MAX_RENDERED_DIAGNOSTICS) else None).

(** ** Lemmas *)

(** An error with no secondary annotation. *)
Definition is_plain_error (d : Diagnostic) : bool :=
  bool_decide (severity d = Severity_Error) && match notes d with [] => true | _ => false end.

Lemma is_plain_error_true d : is_plain_error d = true <-> severity d = Severity_Error /\ notes d = [].
Proof.
  unfold is_plain_error. rewrite andb_true_iff, bool_decide_eq_true. destruct (notes d); naive_solver.
Qed.

Lemma snap_down_spec raw i :
  snap_down raw i <= i /\ is_char_boundary raw (snap_down raw i) = true.
Proof.
  induction i as [|i IH]; cbn [snap_down]; [done|].
  destruct (is_char_boundary raw (S i)) eqn:E; [done|]. destruct IH. split; [lia|done].
Qed.

Lemma snap_down_max raw i j :
  j <= i -> is_char_boundary raw j = true -> j <= snap_down raw i.
Proof.
  intros Hj Hb. induction i as [|i IH]; cbn [snap_down]; [done|].
  destruct (is_char_boundary raw (S i)) eqn:E; [done|].
  apply IH. destruct (decide (j = S i)) as [->|]; [congruence|lia].
Qed.

Lemma utf8_first_char_boundary raw i ch :
  utf8 raw -> i < length raw -> is_char_boundary raw i = true ->
  first_char (drop i raw) = Some ch ->
  valid_char ch = true /\ i + length ch <= length raw
  /\ is_char_boundary raw (i + length ch) = true.
Proof.
  intros Hu Hi Hb Hf. pose proof (boundary_utf8_drop raw i Hu ltac:(lia) Hb) as Hd.
  destruct (first_char_spec (drop i raw) Hd) as (ch' & s' & Hf' & E & Hv & Hs').
  { intros E. apply (f_equal length) in E. rewrite length_drop in E. simpl in E. lia. }
  rewrite Hf in Hf'. injection Hf' as <-. split; [done|].
  assert (i + length ch <= length raw).
  { apply (f_equal length) in E. rewrite length_drop, length_app in E. lia. }
  split; [done|]. apply utf8_drop_boundary; [done|].
  rewrite <- drop_drop, E, drop_app_length. done.
Qed.

(** The span a validation error is mapped to. *)
Lemma error_span_spec off raw sp :
  utf8 raw ->
  exists sp', error_span off raw sp = Some sp'
    /\ ((sp' = sp /\ forall o, off = Some o -> length raw <= o)
        \/ exists o st ch, off = Some o /\ o < length raw /\ st <= o
             /\ is_char_boundary raw st = true /\ first_char (drop st raw) = Some ch
             /\ valid_char ch = true /\ o < st + length ch /\ st + length ch <= length raw
             /\ sp' = mkSpan (start sp + st) (min (start sp + st + length ch) (end_ sp))).
Proof.
  intros Hu. unfold error_span. destruct off as [o|]; [|by eexists; split; [|left]].
  case_bool_decide as Ho; cycle 1.
  { eexists. split; [done|]. left. split; [done|]. intros o' [= <-]. lia. }
  destruct (snap_down_spec raw o) as [Hle Hb].
  rewrite slice_ok by (done || lia || apply boundary_at_end). cbn [mbind option_bind].
  rewrite take_ge by (rewrite length_drop; lia).
  destruct (first_char_spec (drop (snap_down raw o) raw)) as (ch & s' & Hf & _ & Hv & _).
  { apply boundary_utf8_drop; [done|lia|done]. }
  { intros E. apply (f_equal length) in E. rewrite length_drop in E. simpl in E. lia. }
  rewrite Hf. eexists. split; [done|]. right.
  destruct (utf8_first_char_boundary raw (snap_down raw o) ch Hu ltac:(lia) Hb Hf) as (_ & Hl & Hb').
  exists o, (snap_down raw o), ch. split_and!; try done.
  destruct (decide (snap_down raw o + length ch <= o)) as [Hc|]; [|lia].
  pose proof (snap_down_max raw o _ Hc Hb'). pose proof (valid_char_nonempty _ Hv). lia.
Qed.

Lemma from_validation_error_total `{ValidationError E} (err : E) raw sp d a :
  utf8 raw -> exists diag, from_validation_error err raw sp d a = Val diag
    /\ is_plain_error diag = true
    /\ error_span (offset err) raw sp = Some (ann_span (primary diag)).
Proof.
  intros Hu. unfold from_validation_error.
  destruct (error_span_spec (offset err) raw sp Hu) as (sp' & -> & _). simpl.
  eexists. split; [done|]. by destruct (hint err).
Qed.

Lemma push_capped_length sink d :
  length sink <= S MAX_COLLECTED_DIAGNOSTICS ->
  length (push_capped sink d).1 <= S MAX_COLLECTED_DIAGNOSTICS.
Proof.
  intros H. unfold push_capped. repeat case_bool_decide; simpl; rewrite ?length_app; simpl; lia.
Qed.

Lemma push_capped_nonempty sink d : (push_capped sink d).1 <> [].
Proof.
  unfold push_capped. repeat case_bool_decide; simpl; [by destruct sink..|].
  intros ->. simpl in *. unfold MAX_COLLECTED_DIAGNOSTICS in *. lia.
Qed.

Lemma push_capped_prefix sink d : exists t, (push_capped sink d).1 = sink ++ t.
Proof. unfold push_capped. repeat case_bool_decide; simpl; eauto. exists []. by rewrite app_nil_r. Qed.

Lemma push_capped_errors sink d :
  is_plain_error d = true -> Forall (fun d => is_plain_error d = true) sink ->
  Forall (fun d => is_plain_error d = true) (push_capped sink d).1.
Proof.
  intros Hd HF. unfold push_capped. repeat case_bool_decide; simpl; [| |done];
    (apply Forall_app; split; [done|by repeat constructor]).
Qed.

(** Pushing a whole sequence through the cap. *)
Lemma push_all_capped sink ds :
  length sink <= MAX_COLLECTED_DIAGNOSTICS ->
  fold_left (fun s d => (push_capped s d).1) ds sink
  = if bool_decide (length sink + length ds <= MAX_COLLECTED_DIAGNOSTICS)
    then sink ++ ds
    else take MAX_COLLECTED_DIAGNOSTICS (sink ++ ds) ++ [limit_marker].
Proof.
  revert sink. induction ds as [|d ds IH]; intros sink Hs; cbn [fold_left length].
  { rewrite Nat.add_0_r, bool_decide_eq_true_2 by done. by rewrite app_nil_r. }
  destruct (decide (length sink < MAX_COLLECTED_DIAGNOSTICS)) as [Hlt|Hge].
  - replace (push_capped sink d).1 with (sink ++ [d]).
    + rewrite IH; rewrite length_app; cbn [length]; [|lia].
      rewrite <- app_assoc. cbn [app]. by rewrite <- Nat.add_assoc.
    + unfold push_capped. by rewrite bool_decide_eq_true_2.
  - assert (length sink = MAX_COLLECTED_DIAGNOSTICS) as E by lia.
    rewrite bool_decide_eq_false_2 by lia.
    replace (push_capped sink d).1 with (sink ++ [limit_marker]); cycle 1.
    { unfold push_capped. by rewrite bool_decide_eq_false_2, bool_decide_eq_true_2 by lia. }
    rewrite take_app_le, take_ge by lia.
    assert (Hstop : forall l, length l = S MAX_COLLECTED_DIAGNOSTICS ->
              fold_left (fun s d => (push_capped s d).1) ds l = l).
    { clear. intros l Hl. induction ds as [|x ds IH]; [done|]. cbn [fold_left].
      unfold push_capped at 2. rewrite !bool_decide_eq_false_2 by lia. exact IH. }
    apply Hstop. rewrite length_app. simpl. lia.
Qed.

(** ** Properties *)

(** Turning a validation error into a diagnostic never panics,
    whatever offset the error reports, and the reported span stays inside the
    token's span when the validated text is no longer than the token; an offset
    inside the text gives a non-empty span that starts on a character. *)
Theorem from_validation_error_safe `{ValidationError E} (err : E) raw sp d a :
  utf8 raw -> start sp + length raw <= end_ sp ->
  exists diag, from_validation_error err raw sp d a = Val diag
    /\ start sp <= start (ann_span (primary diag))
    /\ end_ (ann_span (primary diag)) <= end_ sp
    /\ (forall o, offset err = Some o -> o < length raw ->
          start (ann_span (primary diag)) <= start sp + o < end_ (ann_span (primary diag))
          /\ is_char_boundary raw (start (ann_span (primary diag)) - start sp) = true).
Proof.
  intros Hu Hlen. destruct (from_validation_error_total err raw sp d a Hu) as (diag & E1 & _ & Hsp).
  exists diag. split; [done|].
  destruct (error_span_spec (offset err) raw sp Hu) as (sp' & E2 & HC).
  rewrite Hsp in E2. injection E2 as ->.
  destruct HC as [[-> Hout]|(o & st & ch & Ho & Hlt & Hst & Hb & _ & Hv & Ho2 & Hl & ->)].
  - split_and!; [lia|lia|]. intros o Ho Hlt. specialize (Hout o Ho). lia.
  - simpl. pose proof (valid_char_nonempty _ Hv). split_and!; [lia|lia|].
    intros o' Ho' _. rewrite Ho in Ho'. injection Ho' as <-. split; [lia|].
    by replace (start sp + st - start sp) with st by lia.
Qed.

Lemma from_validation_error_safe_witness :
  exists diag, from_validation_error (RecipePathError_Backslash 2) ("ab" ++ [backslash])
    (mkSpan 5 8) "WORKDIR" "path" = Val diag /\ start (ann_span (primary diag)) <= 7.
Proof.
  destruct (from_validation_error_safe (RecipePathError_Backslash 2) ("ab" ++ [backslash])
    (mkSpan 5 8) "WORKDIR" "path") as (diag & H & _ & _ & H2);
    [by apply utf8_ascii|simpl; lia|].
  exists diag. split; [done|]. apply (H2 2); [done|simpl; lia].
Defined.

(** Collecting diagnostics through the cap keeps the first 256
    verbatim and at most one marker after them, so the sink never exceeds 257;
    nothing is lost below the cap. *)
Theorem push_capped_bounded ds :
  let sink := fold_left (fun s d => (push_capped s d).1) ds [] in
  length sink <= 257
  /\ take 256 sink = take 256 ds
  /\ (length ds <= 256 -> sink = ds)
  /\ (256 < length ds -> sink = take 256 ds ++ [limit_marker]).
Proof.
  cbv zeta. rewrite push_all_capped by (simpl; lia). cbn [length app plus].
  change MAX_COLLECTED_DIAGNOSTICS with 256.
  destruct (decide (length ds <= 256)) as [Hl|Hl].
  - rewrite bool_decide_eq_true_2 by done. split_and!; [lia|done|done|lia].
  - rewrite bool_decide_eq_false_2 by done.
    assert (length (take 256 ds) = 256) as E by (rewrite length_take; lia).
    split_and!; [rewrite length_app, E; simpl; lia| |lia|done].
    by rewrite take_app_le, take_take, Nat.min_id by lia.
Qed.

(** Rendering shows at most 50 diagnostics, the first ones, and
    the summary line accounts for exactly the ones left out. *)
Theorem report_all_bounded ds :
  let '(shown, more) := report_all ds in
  length shown <= 50 /\ (exists rest, ds = shown ++ rest /\ length rest = default 0 more)
  /\ (more = None <-> shown = ds).
Proof.
  unfold report_all. change MAX_RENDERED_DIAGNOSTICS with 50. rewrite length_take.
  split_and!; [lia| |].
  - exists (drop 50 ds). split; [by rewrite take_drop|]. rewrite length_drop.
    case_bool_decide; simpl; lia.
  - case_bool_decide; split; try done; intros H'.
    + apply (f_equal length) in H'. rewrite length_take in H'. lia.
    + apply take_ge. lia.
Qed.
