(* ===== verification/Lexer.v ===== *)
(** * Lexer: the byte-level scanner (crates/umf-parser/src/lexer.rs). *)

From S2P Require Import Prelude RustStr RustStrFacts Subst Ast Diagnostics.

(** ** Tokens *)

Inductive Punct := Punct_Equals | Punct_Comma | Punct_LBracket | Punct_RBracket.

Inductive Keyword :=
| KW_From | KW_As | KW_Label | KW_Env | KW_Arg | KW_Bootloader | KW_Rootfs | KW_Shell
| KW_User | KW_Workdir | KW_Run | KW_Add | KW_Entrypoint | KW_Expose | KW_Enable
| KW_Disable | KW_Hostname | KW_Locale | KW_Timezone | KW_Cmd | KW_Volume
| KW_Stopsignal | KW_Copy.

Inductive TokenKind :=
| TokenKind_Keyword (k : Keyword)
| TokenKind_Ident (s : str)
| TokenKind_String (s : str)
| TokenKind_Number (n : N)
| TokenKind_Punct (p : Punct)
| TokenKind_LongOption (name : str) (value : option str)
| TokenKind_Newline.

Record Token := mkToken { kind : TokenKind; tok_span : Span }.

#[export] Instance Punct_eq_dec : EqDecision Punct.
Proof. solve_decision. Defined.
#[export] Instance Keyword_eq_dec : EqDecision Keyword.
Proof. solve_decision. Defined.
#[export] Instance TokenKind_eq_dec : EqDecision TokenKind.
Proof. solve_decision. Defined.

Definition Keyword_lookup (s : str) : option Keyword :=
  if decide (s = "FROM") then Some KW_From
  else if decide (s = "AS") then Some KW_As
  else if decide (s = "LABEL") then Some KW_Label
  else if decide (s = "ENV") then Some KW_Env
  else if decide (s = "ARG") then Some KW_Arg
  else if decide (s = "BOOTLOADER") then Some KW_Bootloader
  else if decide (s = "ROOTFS") then Some KW_Rootfs
  else if decide (s = "SHELL") then Some KW_Shell
  else if decide (s = "USER") then Some KW_User
  else if decide (s = "WORKDIR") then Some KW_Workdir
  else if decide (s = "RUN") then Some KW_Run
  else if decide (s = "ADD") then Some KW_Add
  else if decide (s = "ENTRYPOINT") then Some KW_Entrypoint
  else if decide (s = "EXPOSE") then Some KW_Expose
  else if decide (s = "ENABLE") then Some KW_Enable
  else if decide (s = "DISABLE") then Some KW_Disable
  else if decide (s = "HOSTNAME") then Some KW_Hostname
  else if decide (s = "LOCALE") then Some KW_Locale
  else if decide (s = "TIMEZONE") then Some KW_Timezone
  else if decide (s = "CMD") then Some KW_Cmd
  else if decide (s = "VOLUME") then Some KW_Volume
  else if decide (s = "STOPSIGNAL") then Some KW_Stopsignal
  else if decide (s = "COPY") then Some KW_Copy
  else None.

(** ** State *)

Record Lexer := {
  source : str;
  pos : nat;
  tokens : list Token;
  errors : list Diagnostic;
  in_shell_payload : bool
}.

Definition Lexer_new (src : str) : Lexer :=
  {| source := src; pos := 0; tokens := []; errors := []; in_shell_payload := false |}.

Definition set_pos (p : nat) (l : Lexer) : Lexer :=
  {| source := source l; pos := p; tokens := tokens l; errors := errors l;
     in_shell_payload := in_shell_payload l |}.

Definition push_error (d : Diagnostic) (l : Lexer) : Lexer :=
  {| source := source l; pos := pos l; tokens := tokens l;
     errors := (push_capped (errors l) d).1; in_shell_payload := in_shell_payload l |}.

Definition peek (l : Lexer) (offset : nat) : option ascii := source l !! (pos l + offset).

Definition push_token (t : Token) (l : Lexer) : Lexer :=
  {| source := source l; pos := pos l; tokens := tokens l ++ [t]; errors := errors l;
     in_shell_payload :=
       match kind t with
       | TokenKind_Keyword (KW_Run | KW_Cmd | KW_Entrypoint) => true
       | TokenKind_Newline => false
       | _ => in_shell_payload l
       end |}.

Definition emit (k : TokenKind) (len : nat) (l : Lexer) : Lexer :=
  set_pos (pos l + len) (push_token (mkToken k (mkSpan (pos l) (pos l + len))) l).

(** ** Character classes *)

Definition is_word_cont (c : ascii) : bool :=
  negb (one_of [" "%char; tab; cr; lf; "="%char; ","%char; "["%char; "]"%char;
                dquote; squote; backslash] c)
  && (32 <=? code c)%N.

Definition is_word_start (c : ascii) : bool := is_word_cont c && negb (is_ascii_digit c).

(** ** Scanners *)

(** [while pos < len && p(bytes[pos]) { pos += 1 }]. *)
Definition advance_while (p : ascii -> bool) (l : Lexer) : Lexer :=
  set_pos (pos l + count_while p (drop (pos l) (source l))) l.

Definition skip_comment (l : Lexer) : Lexer :=
  advance_while (fun c => negb (Ascii.eqb c lf)) l.

(** What the character after a backslash resolves to. *)
Definition escape (c : ascii) : option ascii :=
  if Ascii.eqb c "n" then Some lf
  else if Ascii.eqb c "t" then Some tab
  else if Ascii.eqb c "r" then Some cr
  else if Ascii.eqb c backslash then Some backslash
  else if Ascii.eqb c dquote then Some dquote
  else if Ascii.eqb c squote then Some squote
  else None.

Definition push_escaped (ch : ascii) (l : Lexer) (value : str) : Lexer * str :=
  (set_pos (pos l + 1) l, value ++ [ch]).

Definition unterminated (start : nat) (quote : ascii) (l : Lexer) : Lexer :=
  push_error
    (with_hint
       (error "unterminated string literal"
          (mkAnnotation (mkSpan start (pos l)) "string starts here but never closes"))
       ("add a closing " ++ u8_as_char quote ++ " to terminate")) l.

(** [self.source[self.pos..].chars().next()]; the slice may panic. *)
Definition next_char (l : Lexer) : outcome (option str) :=
  tail ← or_panic (slice (source l) (pos l) (length (source l)));
  Val (first_char tail).

(** The loop of [lex_string]; one iteration per unit of fuel. *)
Fixpoint lex_string_loop (fuel : nat) (start : nat) (quote : ascii) (value : str) (l : Lexer)
    : outcome Lexer :=
  match fuel with
  | 0 => OutOfFuel
  | S fuel' =>
      match source l !! pos l with
      | None => Val (unterminated start quote l)
      | Some c =>
          if Ascii.eqb c quote then
            let l := set_pos (pos l + 1) l in
            Val (push_token (mkToken (TokenKind_String value) (mkSpan start (pos l))) l)
          else if Ascii.eqb c backslash then
            let l := set_pos (pos l + 1) l in
            match source l !! pos l with
            | None => Val (unterminated start quote l)
            | Some e =>
                match escape e with
                | Some ch =>
                    let '(l, value) := push_escaped ch l value in
                    lex_string_loop fuel' start quote value l
                | None =>
                    next ← next_char l;
                    match next with
                    | None => Val (unterminated start quote l)
                    | Some ch =>
                        lex_string_loop fuel' start quote (value ++ ch)
                          (set_pos (pos l + length ch) l)
                    end
                end
            end
          else
            next ← next_char l;
            match next with
            | None => Val (unterminated start quote l)
            | Some ch =>
                lex_string_loop fuel' start quote (value ++ ch) (set_pos (pos l + length ch) l)
            end
      end
  end.

Definition lex_string (quote : ascii) (l : Lexer) : outcome Lexer :=
  lex_string_loop (S (length (source l))) (pos l) quote [] (set_pos (pos l + 1) l).

(** [n.checked_mul(10).and_then(|m| m.checked_add(digit))] on [u64]. *)
Definition checked_push_digit (n digit : N) : option N :=
  if (n * 10 <=? u64_max)%N then
    if (n * 10 + digit <=? u64_max)%N then Some (n * 10 + digit)%N else None
  else None.

(** The digit loop: value, overflow flag and number of digits consumed. *)
Fixpoint lex_digits (rest : str) (n : N) (overflowed : bool) : N * bool * nat :=
  match rest with
  | c :: rest' =>
      if is_ascii_digit c then
        let '(n', o') := match checked_push_digit n (digit_value c) with
                         | Some next => (next, overflowed)
                         | None => (u64_max, true)
                         end in
        let '(n'', o'', k) := lex_digits rest' n' o' in (n'', o'', S k)
      else (n, overflowed, 0)
  | [] => (n, overflowed, 0)
  end.

Definition lex_number (l : Lexer) : Lexer :=
  let start := pos l in
  let '(n, overflowed, k) := lex_digits (drop (pos l) (source l)) 0 false in
  let l := set_pos (pos l + k) l in
  let span := mkSpan start (pos l) in
  let l := if overflowed : bool then
             push_error
               (with_hint
                  (error "integer literal too large"
                     (mkAnnotation span "does not fit in a 64-bit unsigned integer"))
                  ("the maximum supported value is " ++ to_decimal u64_max
                   ++ "; the literal was clamped to it")) l
           else l in
  push_token (mkToken (TokenKind_Number n) span) l.

Definition lex_word (l : Lexer) : outcome Lexer :=
  let start := pos l in
  let l := advance_while is_word_cont l in
  text ← or_panic (slice (source l) start (pos l));
  let k := match Keyword_lookup text with
           | Some k => TokenKind_Keyword k
           | None => TokenKind_Ident text
           end in
  Val (push_token (mkToken k (mkSpan start (pos l))) l).

Definition is_option_break (c : ascii) : bool := one_of [" "%char; tab; lf; cr] c.

Definition lex_long_option (l : Lexer) : outcome Lexer :=
  let start := pos l in
  let l := set_pos (pos l + 2) l in
  let name_start := pos l in
  let l := advance_while is_word_cont l in
  name ← or_panic (slice (source l) name_start (pos l));
  '(value, l) ←
    (if bool_decide (peek l 0 = Some "="%char) then
       let l := set_pos (pos l + 1) l in
       let value_start := pos l in
       let l := advance_while (fun c => negb (is_option_break c)) l in
       value ← or_panic (slice (source l) value_start (pos l));
       Val (Some value, l)
     else Val (None, l));
  Val (push_token (mkToken (TokenKind_LongOption name value) (mkSpan start (pos l))) l).

Definition unexpected_character (c : ascii) (l : Lexer) : Lexer :=
  set_pos (pos l + 1)
    (push_error
       (with_hint
          (error ("unexpected character `" ++ u8_as_char c ++ "`")
             (mkAnnotation (mkSpan (pos l) (pos l + 1)) "not allowed here"))
          "control characters are not allowed here; printable text (including UTF-8) is accepted within words, and arbitrary bytes inside quoted strings") l).

(** ** The main loop *)

(** The body of [run]: one [match] on the byte at the current position. *)
Definition run_step (c : ascii) (l : Lexer) : outcome Lexer :=
  if one_of [" "%char; tab; cr] c then Val (set_pos (pos l + 1) l)
  else if Ascii.eqb c lf then Val (emit TokenKind_Newline 1 l)
  else if Ascii.eqb c backslash && bool_decide (peek l 1 = Some lf) then
    Val (set_pos (pos l + 2) l)
  else if Ascii.eqb c backslash && bool_decide (peek l 1 = Some cr)
          && bool_decide (peek l 2 = Some lf) then
    Val (set_pos (pos l + 3) l)
  else if Ascii.eqb c "#" && negb (in_shell_payload l) then Val (skip_comment l)
  else if Ascii.eqb c dquote || Ascii.eqb c squote then lex_string c l
  else if Ascii.eqb c "=" then Val (emit (TokenKind_Punct Punct_Equals) 1 l)
  else if Ascii.eqb c "," then Val (emit (TokenKind_Punct Punct_Comma) 1 l)
  else if Ascii.eqb c "[" then Val (emit (TokenKind_Punct Punct_LBracket) 1 l)
  else if Ascii.eqb c "]" then Val (emit (TokenKind_Punct Punct_RBracket) 1 l)
  else if Ascii.eqb c "-" && bool_decide (peek l 1 = Some "-"%char) then lex_long_option l
  else if is_ascii_digit c then Val (lex_number l)
  else if is_word_start c then lex_word l
  else Val (unexpected_character c l).

Fixpoint run (fuel : nat) (l : Lexer) : outcome Lexer :=
  match fuel with
  | 0 => OutOfFuel
  | S fuel' =>
      match source l !! pos l with
      | None => Val l
      | Some c => l' ← run_step c l; run fuel' l'
      end
  end.

(** Every iteration consumes a byte, so one more unit of fuel than there are
    bytes is enough. *)
Definition tokenize (src : str) : outcome (list Token * list Diagnostic) :=
  l ← run (S (length src)) (Lexer_new src);
  Val (tokens l, errors l).

Definition kinds (r : outcome (list Token * list Diagnostic)) : list TokenKind :=
  match r with Val (ts, _) => kind <$> ts | _ => [] end.

Example tokenize_ex :
  kinds (tokenize ("FROM a:1 # x" ++ [lf] ++ "RUN echo #1 " ++ [dquote] ++ "q" ++ [dquote]))
  = [TokenKind_Keyword KW_From; TokenKind_Ident "a:1"; TokenKind_Newline;
     TokenKind_Keyword KW_Run; TokenKind_Ident "echo"; TokenKind_Ident "#1";
     TokenKind_String "q"].
Proof. vm_compute. reflexivity. Qed.

Example tokenize_ex2 :
  kinds (tokenize "USER 1000 --mount=type=x,b 18446744073709551616")
  = [TokenKind_Keyword KW_User; TokenKind_Number 1000;
     TokenKind_LongOption "mount" (Some ("type=x,b" : str)); TokenKind_Number u64_max].
Proof. vm_compute. reflexivity. Qed.

(** ** Declarative lexical grammar

    [lex_item payload rest text ot] holds when the text [text] at the front of
    [rest] is one lexical item; [ot] is the kind of token it stands for, or
    [None] for blanks, comments and line continuations.  Words, numbers and
    options are maximal. *)

Definition punct_char (p : Punct) : ascii :=
  match p with
  | Punct_Equals => "="
  | Punct_Comma => ","
  | Punct_LBracket => "["
  | Punct_RBracket => "]"
  end.

(** Text between the quotes [q] and the value it denotes. *)
Inductive unescapes (q : ascii) : str -> str -> Prop :=
| unescapes_nil : unescapes q [] []
| unescapes_escape e c body v :
    escape e = Some c -> unescapes q body v -> unescapes q (backslash :: e :: body) (c :: v)
| unescapes_other ch e ch' body v :
    ch = e :: ch' -> valid_char ch = true -> escape e = None ->
    unescapes q body v -> unescapes q (backslash :: ch ++ body) (ch ++ v)
| unescapes_char ch e ch' body v :
    ch = e :: ch' -> valid_char ch = true -> e <> q -> e <> backslash ->
    unescapes q body v -> unescapes q (ch ++ body) (ch ++ v).

Definition is_quote (q : ascii) : bool := Ascii.eqb q dquote || Ascii.eqb q squote.
Definition is_blank (c : ascii) : bool := one_of [" "%char; tab; cr] c.
Definition not_lf (c : ascii) : bool := negb (Ascii.eqb c lf).
Definition option_byte (c : ascii) : bool := negb (is_option_break c).

Definition word_kind (text : str) : TokenKind :=
  match Keyword_lookup text with
  | Some k => TokenKind_Keyword k
  | None => TokenKind_Ident text
  end.

Inductive lex_item (payload : bool) : str -> str -> option TokenKind -> Prop :=
| item_blank c r : is_blank c = true -> lex_item payload (c :: r) [c] None
| item_continuation r : lex_item payload (backslash :: lf :: r) [backslash; lf] None
| item_continuation_crlf r :
    lex_item payload (backslash :: cr :: lf :: r) [backslash; cr; lf] None
| item_comment body r :
    payload = false -> forallb not_lf body = true -> starts_in not_lf r = false ->
    lex_item payload (("#" ++ body) ++ r) ("#" ++ body) None
| item_newline r : lex_item payload (lf :: r) [lf] (Some TokenKind_Newline)
| item_punct p r : lex_item payload (punct_char p :: r) [punct_char p] (Some (TokenKind_Punct p))
| item_string q body v r :
    is_quote q = true -> unescapes q body v ->
    lex_item payload ((q :: body ++ [q]) ++ r) (q :: body ++ [q]) (Some (TokenKind_String v))
| item_number text r :
    text <> [] -> forallb is_ascii_digit text = true -> starts_in is_ascii_digit r = false ->
    (decimal text <= u64_max)%N ->
    lex_item payload (text ++ r) text (Some (TokenKind_Number (decimal text)))
| item_option name r :
    forallb is_word_cont name = true -> starts_in is_word_cont r = false ->
    starts_in (Ascii.eqb "=") r = false ->
    lex_item payload (("--" ++ name) ++ r) ("--" ++ name) (Some (TokenKind_LongOption name None))
| item_option_value name v r :
    forallb is_word_cont name = true -> forallb option_byte v = true ->
    starts_in option_byte r = false ->
    lex_item payload (("--" ++ name ++ "=" ++ v) ++ r) ("--" ++ name ++ "=" ++ v)
      (Some (TokenKind_LongOption name (Some v)))
| item_word text r :
    starts_in is_word_start text = true -> forallb is_word_cont text = true ->
    starts_in is_word_cont r = false ->
    starts_with "--" text = false -> (payload = false -> starts_with "#" text = false) ->
    lex_item payload (text ++ r) text (Some (word_kind text)).

(** Whether the rest of the line is a shell payload after a token. *)
Definition payload_after (payload : bool) (k : TokenKind) : bool :=
  match k with
  | TokenKind_Keyword (KW_Run | KW_Cmd | KW_Entrypoint) => true
  | TokenKind_Newline => false
  | _ => payload
  end.

(** A text is cut into items from front to back. *)
Inductive lexes : nat -> bool -> str -> list Token -> Prop :=
| lexes_nil p payload : lexes p payload [] []
| lexes_skip p payload rest text toks :
    lex_item payload rest text None ->
    lexes (p + length text) payload (drop (length text) rest) toks ->
    lexes p payload rest toks
| lexes_token p payload rest text k toks :
    lex_item payload rest text (Some k) ->
    lexes (p + length text) (payload_after payload k) (drop (length text) rest) toks ->
    lexes p payload rest (mkToken k (mkSpan p (p + length text)) :: toks).

(** ** Lemmas on the scanners *)

Lemma starts_in_lookup p (s : str) : (forall c, s !! 0 = Some c -> p c = false) -> starts_in p s = false.
Proof. destruct s as [|a s]; [done|]. intros H. by apply H. Qed.

(** A maximal run of bytes satisfying [p], cut off the front. *)
Lemma count_while_split p (s : str) :
  exists a r, s = a ++ r /\ length a = count_while p s /\ forallb p a = true /\ starts_in p r = false.
Proof.
  exists (take (count_while p s) s), (drop (count_while p s) s).
  pose proof (count_while_le p s). split_and!.
  - by rewrite take_drop.
  - rewrite length_take. lia.
  - pose proof (count_while_take p s) as HF. apply forallb_forall. intros x Hx.
    rewrite Forall_forall in HF. apply HF. by apply list_elem_of_In.
  - apply starts_in_lookup. intros c Hc. rewrite lookup_drop, Nat.add_0_r in Hc.
    by apply count_while_stop in Hc.
Qed.

Lemma count_while_run p (a r : str) :
  forallb p a = true -> starts_in p r = false -> count_while p (a ++ r) = length a.
Proof.
  intros Ha Hr. rewrite count_while_app.
  - destruct r as [|b r]; simpl in *; [lia|]. rewrite Hr. lia.
  - apply Forall_forall. intros x Hx. rewrite forallb_forall in Ha. apply Ha.
    by apply list_elem_of_In.
Qed.

(** The part of the state every scanner relies on. *)
Record at_boundary (l : Lexer) : Prop := {
  ab_utf8 : utf8 (source l);
  ab_le : pos l <= length (source l);
  ab_boundary : is_char_boundary (source l) (pos l) = true
}.

Lemma at_boundary_rest l : at_boundary l -> utf8 (drop (pos l) (source l)).
Proof. intros [H1 H2 H3]. by apply boundary_utf8_drop. Qed.

Lemma slice_rest l a r :
  at_boundary l -> drop (pos l) (source l) = a ++ r -> utf8 a -> utf8 r ->
  slice (source l) (pos l) (pos l + length a) = Some a.
Proof.
  intros [H1 H2 H3] E Ha Hr.
  assert (pos l + length a <= length (source l)) as Hl.
  { apply (f_equal length) in E. rewrite length_drop, length_app in E. lia. }
  rewrite slice_ok; [|lia|done|done|].
  - rewrite E, Nat.add_comm, Nat.add_sub. by rewrite take_app_length.
  - apply utf8_drop_boundary; [done|]. by rewrite <- drop_drop, E, drop_app_length.
Qed.

(** Cutting a run of bytes off a well-formed text leaves a well-formed text
    when the run stops at an ASCII byte or at the end. *)
Lemma utf8_run p (a r : str) :
  (forall c, is_ascii c = false -> p c = true) ->
  utf8 (a ++ r) -> forallb p a = true -> starts_in p r = false -> utf8 a /\ utf8 r.
Proof.
  intros Hp Hu Ha Hr. destruct r as [|c r].
  - rewrite app_nil_r in Hu. split; [done|constructor].
  - simpl in Hr. assert (is_ascii c = true) as Hc.
    { destruct (is_ascii c) eqn:E; [done|]. rewrite Hp in Hr; done. }
    pose proof Hu as Hu'. apply (utf8_app_ascii c) in Hu as [Hu1 Hu2]; [|done].
    split; [done|]. by apply utf8_cons_ascii.
Qed.

Lemma utf8_ascii_run p (a r : str) :
  (forall c, p c = true -> is_ascii c = true) ->
  utf8 (a ++ r) -> forallb p a = true -> utf8 a /\ utf8 r.
Proof.
  intros Hp Hu Ha. induction a as [|c a IH]; simpl in *; [split; [constructor|done]|].
  bools. apply utf8_tail_ascii in Hu; [|by apply Hp]. destruct (IH Hu) as [Hu1 Hu2]; [done|].
  split; [|done]. apply utf8_cons_ascii; [by apply Hp|done].
Qed.

(** Consuming [n] bytes, with or without a token. *)
Definition advance (n : nat) (ot : option TokenKind) (l : Lexer) : Lexer :=
  match ot with
  | None => set_pos (pos l + n) l
  | Some k => emit k n l
  end.

(** *** Strings *)

Lemma next_char_spec l :
  at_boundary l -> pos l < length (source l) ->
  exists ch r, next_char l = Val (Some ch) /\ drop (pos l) (source l) = ch ++ r
    /\ valid_char ch = true /\ utf8 r.
Proof.
  intros Hb Hl. pose proof (at_boundary_rest l Hb) as Hr. destruct Hb as [H1 H2 H3].
  unfold next_char. rewrite slice_ok by (done || lia || apply boundary_at_end).
  rewrite take_ge by (rewrite length_drop; lia). simpl.
  destruct (first_char_spec _ Hr) as (ch & r & -> & E & Hv & Hs); [|by exists ch, r].
  intros E. apply (f_equal length) in E. rewrite length_drop in E. simpl in E. lia.
Qed.

Lemma at_boundary_set l n a r :
  at_boundary l -> drop (pos l) (source l) = a ++ r -> utf8 r -> n = length a ->
  at_boundary (set_pos (pos l + n) l) /\ drop (pos l + n) (source l) = r.
Proof.
  intros [H1 H2 H3] E Hr ->. assert (pos l + length a <= length (source l)).
  { apply (f_equal length) in E. rewrite length_drop, length_app in E. lia. }
  assert (drop (pos l + length a) (source l) = r) as Ed.
  { by rewrite <- drop_drop, E, drop_app_length. }
  split; [|done]. split; simpl; [done|done|]. apply utf8_drop_boundary; [done|]. by rewrite Ed.
Qed.

Lemma set_pos_set_pos p1 p2 l : set_pos p1 (set_pos p2 l) = set_pos p1 l.
Proof. done. Qed.

Lemma quote_ascii q : is_quote q = true -> is_ascii q = true.
Proof. revert q. apply (by_bytes2 is_quote is_ascii). vm_compute. reflexivity. Qed.

Lemma quote_not_backslash q : is_quote q = true -> Ascii.eqb backslash q = false.
Proof.
  intros H. apply negb_true_iff. revert q H.
  apply (by_bytes2 is_quote (fun q => negb (Ascii.eqb backslash q))). vm_compute. reflexivity.
Qed.

Lemma escape_ascii e c : escape e = Some c -> is_ascii e = true.
Proof.
  intros H. apply (by_bytes2 (fun e => match escape e with Some _ => true | None => false end) is_ascii);
    [vm_compute; reflexivity|]. by rewrite H.
Qed.

Lemma drop_lookup_cons (s : str) i c r : drop i s = c :: r -> s !! i = Some c.
Proof. apply drop_cons_lookup. Qed.

Lemma utf8_tail_char ch r : valid_char ch = true -> utf8 (ch ++ r) -> utf8 r.
Proof.
  intros Hv Hu. rewrite <- (drop_app_length ch r). apply boundary_utf8_drop; [done| |].
  - rewrite length_app. lia.
  - destruct (utf8_first_char_boundary (ch ++ r) 0 ch Hu) as (_ & _ & H); [|done| |done].
    + pose proof (valid_char_nonempty _ Hv). rewrite length_app. lia.
    + rewrite drop_0. unfold first_char. by rewrite chars_char.
Qed.

Lemma next_char_is l ch r :
  at_boundary l -> drop (pos l) (source l) = ch ++ r -> valid_char ch = true ->
  next_char l = Val (Some ch).
Proof.
  intros Hb E Hv. pose proof (at_boundary_rest l Hb) as Hr. destruct Hb as [H1 H2 H3].
  unfold next_char. rewrite slice_ok by (done || lia || apply boundary_at_end).
  rewrite take_ge by (rewrite length_drop; lia). simpl. rewrite E.
  unfold first_char. by rewrite chars_char.
Qed.

(** One iteration of the loop for each constructor of [unescapes]. *)
Lemma lex_string_loop_complete q body v :
  unescapes q body v -> forall r fuel start value l,
  is_quote q = true -> at_boundary l -> drop (pos l) (source l) = body ++ q :: r -> utf8 r ->
  length body < fuel ->
  lex_string_loop fuel start q value l
  = Val (push_token (mkToken (TokenKind_String (value ++ v)) (mkSpan start (pos l + length body + 1)))
           (set_pos (pos l + length body + 1) l)).
Proof.
  induction 1 as [|e c body v He _ IH|ch e ch' body v -> Hv He _ IH|ch e ch' body v -> Hv Hq Hb _ IH];
    intros r fuel start val l Hquote Hl E Hr Hf;
    (destruct fuel as [|fuel]; [simpl in Hf; lia|]); cbn [lex_string_loop].
  - rewrite (drop_lookup_cons _ _ _ _ E), Ascii.eqb_refl. simpl. rewrite app_nil_r.
    by replace (pos l + 0 + 1) with (pos l + 1) by lia.
  - rewrite (drop_lookup_cons _ _ _ _ E), (quote_not_backslash q) by done.
    rewrite Ascii.eqb_refl. cbv zeta.
    assert (drop (pos l + 1) (source l) = e :: body ++ q :: r) as E1.
    { rewrite <- drop_drop, E. done. }
    cbn [set_pos source pos]. rewrite (drop_lookup_cons _ _ _ _ E1), He. cbn [push_escaped].
    cbv beta iota. rewrite set_pos_set_pos. cbn [set_pos pos].
    pose proof (at_boundary_rest l Hl) as Hu. rewrite E in Hu.
    apply utf8_tail_ascii in Hu; [|done]. apply utf8_tail_ascii in Hu; [|by eapply escape_ascii].
    destruct (at_boundary_set l 2 [backslash; e] (body ++ q :: r) Hl E Hu eq_refl) as [Hl' E'].
    replace (pos l + 1 + 1) with (pos l + 2) by lia.
    rewrite (IH r fuel start (val ++ [c]) (set_pos (pos l + 2) l)); [|done|done|done|done|simpl in Hf; lia].
    rewrite <- app_assoc. cbn [pos set_pos app length].
    by replace (pos l + 2 + length body + 1) with (pos l + S (S (length body)) + 1) by lia.
  - rewrite (drop_lookup_cons _ _ _ _ E), (quote_not_backslash q) by done.
    rewrite Ascii.eqb_refl. cbv zeta.
    pose proof (at_boundary_rest l Hl) as Hu. rewrite E in Hu. apply utf8_tail_ascii in Hu; [|done].
    change (utf8 (((e :: ch') ++ body) ++ q :: r)) in Hu. rewrite <- app_assoc in Hu.
    destruct (at_boundary_set l 1 [backslash] ((e :: ch') ++ body ++ q :: r) Hl) as [Hl1 E1];
      [by rewrite E; simpl; rewrite <- app_assoc|done|done|].
    cbn [set_pos source pos]. rewrite (drop_lookup_cons _ _ _ _ E1), He.
    rewrite (next_char_is (set_pos (pos l + 1) l) (e :: ch') (body ++ q :: r)) by done.
    cbn [mbind outcome_bind]. rewrite set_pos_set_pos. cbn [set_pos pos].
    replace (pos l + 1 + length (e :: ch')) with (pos l + length (backslash :: e :: ch')) by (simpl; lia).
    assert (Hu2 : utf8 (body ++ q :: r)) by (by apply (utf8_tail_char (e :: ch'))).
    destruct (at_boundary_set l (length (backslash :: e :: ch')) (backslash :: e :: ch') (body ++ q :: r) Hl)
      as [Hl' E']; [by rewrite E; simpl; rewrite <- app_assoc|done|done|].
    rewrite (IH r fuel start (val ++ e :: ch') (set_pos (pos l + length (backslash :: e :: ch')) l));
      [|done|done|done|done|simpl in Hf; rewrite length_app in Hf; lia].
    rewrite <- app_assoc. cbn [pos set_pos length app].
    by replace (pos l + S (S (length ch')) + length body + 1)
      with (pos l + S (S (length (ch' ++ body))) + 1) by (rewrite length_app; lia).
  - cbn [app] in E. rewrite (drop_lookup_cons _ _ _ _ E).
    rewrite (proj2 (Ascii.eqb_neq e q)), (proj2 (Ascii.eqb_neq e backslash)) by done.
    pose proof (at_boundary_rest l Hl) as Hu. rewrite E in Hu.
    change (e :: (ch' ++ body) ++ q :: r) with (((e :: ch') ++ body) ++ q :: r) in E, Hu.
    rewrite <- app_assoc in E, Hu.
    rewrite (next_char_is l (e :: ch') (body ++ q :: r)) by done.
    cbn [mbind outcome_bind].
    assert (Hu2 : utf8 (body ++ q :: r)) by (by apply (utf8_tail_char (e :: ch'))).
    destruct (at_boundary_set l (length (e :: ch')) (e :: ch') (body ++ q :: r) Hl E Hu2 eq_refl)
      as [Hl' E'].
    rewrite (IH r fuel start (val ++ e :: ch') (set_pos (pos l + length (e :: ch')) l));
      [|done|done|done|done|simpl in Hf; rewrite length_app in Hf; lia].
    rewrite <- app_assoc. cbn [pos set_pos length app].
    by replace (pos l + S (length ch') + length body + 1)
      with (pos l + S (length (ch' ++ body)) + 1) by (rewrite length_app; lia).
Qed.

(** Text after an opening quote in which the quote never closes. *)
Inductive unclosed (q : ascii) : str -> Prop :=
| unclosed_nil : unclosed q []
| unclosed_backslash : unclosed q [backslash]
| unclosed_escape e c rest :
    escape e = Some c -> unclosed q rest -> unclosed q (backslash :: e :: rest)
| unclosed_other ch e ch' rest :
    ch = e :: ch' -> valid_char ch = true -> escape e = None ->
    unclosed q rest -> unclosed q (backslash :: ch ++ rest)
| unclosed_char ch e ch' rest :
    ch = e :: ch' -> valid_char ch = true -> e <> q -> e <> backslash ->
    unclosed q rest -> unclosed q (ch ++ rest).

Lemma string_cases q rest :
  utf8 rest -> is_quote q = true ->
  (exists body v r, rest = body ++ q :: r /\ unescapes q body v /\ utf8 r) \/ unclosed q rest.
Proof.
  intros Hu Hq. remember (length rest) as n eqn:En. revert rest Hu En.
  induction n as [n IH] using lt_wf_ind. intros rest Hu ->.
  destruct rest as [|c rest]; [right; constructor|].
  destruct (decide (c = q)) as [->|Hcq].
  { left. exists [], [], rest. split_and!; [done|constructor|].
    apply utf8_tail_ascii in Hu; [done|by apply quote_ascii]. }
  destruct (decide (c = backslash)) as [->|Hcb]; cycle 1.
  { destruct (utf8_inv _ _ Hu) as (ch & r & E & Hv & Hr). destruct ch as [|e ch']; [done|].
    injection E as -> ->. destruct (IH (length r)) with (rest := r) as [(body & v & r' & -> & HU & Hr')|HU];
      [simpl; rewrite length_app; lia|done|done| |].
    - left. exists ((e :: ch') ++ body), ((e :: ch') ++ v), r'. split_and!; [|by econstructor|done].
      simpl. by rewrite <- app_assoc.
    - right. change (e :: ch' ++ r) with ((e :: ch') ++ r). by econstructor. }
  apply utf8_tail_ascii in Hu; [|done].
  destruct rest as [|e rest]; [right; constructor|].
  destruct (escape e) as [c|] eqn:He.
  - apply utf8_tail_ascii in Hu; [|by eapply escape_ascii].
    destruct (IH (length rest)) with (rest := rest) as [(body & v & r' & -> & HU & Hr')|HU];
      [simpl; lia|done|done| |].
    + left. exists (backslash :: e :: body), (c :: v), r'. split_and!; [done|by constructor|done].
    + right. by econstructor.
  - destruct (utf8_inv _ _ Hu) as (ch & r & E & Hv & Hr). destruct ch as [|e' ch']; [done|].
    injection E as <- ->. destruct (IH (length r)) with (rest := r) as [(body & v & r' & -> & HU & Hr')|HU];
      [simpl; rewrite length_app; lia|done|done| |].
    + left. exists (backslash :: (e :: ch') ++ body), ((e :: ch') ++ v), r'.
      split_and!; [|by econstructor|done]. simpl. by rewrite <- app_assoc.
    + right. change (backslash :: e :: ch' ++ r) with (backslash :: (e :: ch') ++ r). by econstructor.
Qed.

Lemma at_boundary_end l : drop (pos l) (source l) = [] -> at_boundary l -> set_pos (length (source l)) l = l.
Proof.
  intros E [_ Hle _]. apply (f_equal length) in E. rewrite length_drop in E. simpl in E.
  assert (length (source l) = pos l) as -> by lia. by destruct l.
Qed.

(** The loop runs to the end of the source when the quote never closes. *)
Lemma lex_string_loop_unclosed q rest :
  unclosed q rest -> forall fuel start value l,
  is_quote q = true -> at_boundary l -> drop (pos l) (source l) = rest -> length rest < fuel ->
  lex_string_loop fuel start q value l = Val (unterminated start q (set_pos (length (source l)) l)).
Proof.
  induction 1 as [| |e c rest He _ IH|ch e ch' rest -> Hv He _ IH|ch e ch' rest -> Hv Hq Hb _ IH];
    intros fuel start val l Hquote Hl E Hf;
    (destruct fuel as [|fuel]; [simpl in Hf; lia|]); cbn [lex_string_loop].
  - rewrite (at_boundary_end l E Hl). destruct Hl as [_ Hle _].
    rewrite (proj2 (lookup_ge_None (source l) (pos l))); [done|].
    apply (f_equal length) in E. rewrite length_drop in E. simpl in E. lia.
  - rewrite (drop_lookup_cons _ _ _ _ E), (quote_not_backslash q), Ascii.eqb_refl by done.
    cbv zeta. cbn [set_pos source pos].
    apply (f_equal length) in E. rewrite length_drop in E. simpl in E.
    rewrite (proj2 (lookup_ge_None (source l) (pos l + 1))) by lia.
    by replace (length (source l)) with (pos l + 1) by lia.
  - rewrite (drop_lookup_cons _ _ _ _ E), (quote_not_backslash q), Ascii.eqb_refl by done. cbv zeta.
    assert (drop (pos l + 1) (source l) = e :: rest) as E1 by (by rewrite <- drop_drop, E).
    cbn [set_pos source pos]. rewrite (drop_lookup_cons _ _ _ _ E1), He. cbn [push_escaped].
    cbv beta iota. rewrite set_pos_set_pos. cbn [set_pos pos].
    pose proof (at_boundary_rest l Hl) as Hu. rewrite E in Hu.
    apply utf8_tail_ascii in Hu; [|done]. apply utf8_tail_ascii in Hu; [|by eapply escape_ascii].
    destruct (at_boundary_set l 2 [backslash; e] rest Hl E Hu eq_refl) as [Hl' E'].
    replace (pos l + 1 + 1) with (pos l + 2) by lia.
    rewrite (IH fuel start (val ++ [c]) (set_pos (pos l + 2) l)); [done|done|done|done|simpl in Hf; lia].
  - rewrite (drop_lookup_cons _ _ _ _ E), (quote_not_backslash q), Ascii.eqb_refl by done. cbv zeta.
    pose proof (at_boundary_rest l Hl) as Hu. rewrite E in Hu. apply utf8_tail_ascii in Hu; [|done].
    destruct (at_boundary_set l 1 [backslash] ((e :: ch') ++ rest) Hl E Hu eq_refl) as [Hl1 E1].
    cbn [set_pos source pos]. rewrite (drop_lookup_cons _ _ _ _ E1), He.
    rewrite (next_char_is (set_pos (pos l + 1) l) (e :: ch') rest) by done.
    cbn [mbind outcome_bind]. rewrite set_pos_set_pos. cbn [set_pos pos].
    replace (pos l + 1 + length (e :: ch')) with (pos l + length (backslash :: e :: ch')) by (simpl; lia).
    assert (Hu2 : utf8 rest) by (by apply (utf8_tail_char (e :: ch'))).
    destruct (at_boundary_set l (length (backslash :: e :: ch')) (backslash :: e :: ch') rest Hl E Hu2 eq_refl)
      as [Hl' E'].
    rewrite (IH fuel start (val ++ e :: ch') (set_pos (pos l + length (backslash :: e :: ch')) l));
      [done|done|done|done|simpl in Hf; rewrite length_app in Hf; lia].
  - pose proof E as E0. cbn [app] in E0. rewrite (drop_lookup_cons _ _ _ _ E0).
    rewrite (proj2 (Ascii.eqb_neq e q)), (proj2 (Ascii.eqb_neq e backslash)) by done.
    pose proof (at_boundary_rest l Hl) as Hu. rewrite E in Hu.
    rewrite (next_char_is l (e :: ch') rest) by done. cbn [mbind outcome_bind].
    assert (Hu2 : utf8 rest) by (by apply (utf8_tail_char (e :: ch'))).
    destruct (at_boundary_set l (length (e :: ch')) (e :: ch') rest Hl E Hu2 eq_refl) as [Hl' E'].
    rewrite (IH fuel start (val ++ e :: ch') (set_pos (pos l + length (e :: ch')) l));
      [done|done|done|done|simpl in Hf; rewrite length_app in Hf; lia].
Qed.

(** *** Numbers *)

Lemma digit_value_le c : is_ascii_digit c = true -> (digit_value c <= 9)%N.
Proof.
  intros H. apply N.leb_le. revert c H.
  apply (by_bytes2 is_ascii_digit (fun c => (digit_value c <=? 9)%N)). vm_compute. reflexivity.
Qed.

Lemma decimal_from_ge n s : (n <= decimal_from n s)%N.
Proof.
  revert n. induction s as [|c s IH]; intros n; unfold decimal_from; simpl; [lia|].
  etransitivity; [|apply IH]. lia.
Qed.

(** The digit loop computes the value of the run clamped to [u64::MAX], and
    flags exactly the runs that do not fit. *)
Lemma lex_digits_spec a r m :
  forallb is_ascii_digit a = true -> starts_in is_ascii_digit r = false ->
  lex_digits (a ++ r) (N.min m u64_max) (u64_max <? m)%N
  = (N.min (decimal_from m a) u64_max, (u64_max <? decimal_from m a)%N, length a).
Proof.
  intros Ha Hr. revert m. induction a as [|c a IH]; intros m.
  { destruct r as [|b r]; simpl in *; [done|]. by rewrite Hr. }
  simpl in Ha. bools. cbn [app lex_digits]. rewrite H.
  specialize (IH H0 (m * 10 + digit_value c)%N). unfold decimal_from in *. cbn [fold_left length].
  assert ((match checked_push_digit (N.min m u64_max) (digit_value c) with
           | Some next => (next, (u64_max <? m)%N) | None => (u64_max, true) end)
          = (N.min (m * 10 + digit_value c) u64_max, (u64_max <? m * 10 + digit_value c)%N)) as ->.
  { pose proof (digit_value_le c H). unfold checked_push_digit.
    assert (u64_max = 18446744073709551615)%N as Hu by done.
    destruct (N.leb_spec (N.min m u64_max * 10) u64_max);
      [destruct (N.leb_spec (N.min m u64_max * 10 + digit_value c) u64_max)|];
      f_equal; destruct (N.ltb_spec u64_max m);
      destruct (N.ltb_spec u64_max (m * 10 + digit_value c)); try done; lia. }
  by rewrite IH.
Qed.

Lemma lex_number_spec l a r :
  drop (pos l) (source l) = a ++ r ->
  forallb is_ascii_digit a = true -> starts_in is_ascii_digit r = false ->
  lex_number l
  = (if (u64_max <? decimal a)%N then
       push_error
         (with_hint
            (error "integer literal too large"
               (mkAnnotation (mkSpan (pos l) (pos l + length a))
                  "does not fit in a 64-bit unsigned integer"))
            ("the maximum supported value is " ++ to_decimal u64_max
             ++ "; the literal was clamped to it"))
     else id) (emit (TokenKind_Number (N.min (decimal a) u64_max)) (length a) l).
Proof.
  intros E Ha Hr. unfold lex_number. rewrite E.
  pose proof (lex_digits_spec a r 0 Ha Hr) as H.
  change (N.min 0 u64_max) with 0%N in H. change (u64_max <? 0)%N with false in H. rewrite H.
  fold (decimal a). cbv beta iota zeta. by destruct (u64_max <? decimal a)%N.
Qed.

(** *** Words and options *)

Lemma word_cont_high c : is_ascii c = false -> is_word_cont c = true.
Proof.
  intros H. apply negb_true_iff in H. revert c H.
  apply (by_bytes2 (fun c => negb (is_ascii c)) is_word_cont). vm_compute. reflexivity.
Qed.

Lemma option_byte_high c : is_ascii c = false -> option_byte c = true.
Proof.
  intros H. apply negb_true_iff in H. revert c H.
  apply (by_bytes2 (fun c => negb (is_ascii c)) option_byte). vm_compute. reflexivity.
Qed.

Lemma lex_word_spec l a r :
  at_boundary l -> drop (pos l) (source l) = a ++ r ->
  forallb is_word_cont a = true -> starts_in is_word_cont r = false ->
  lex_word l = Val (emit (word_kind a) (length a) l).
Proof.
  intros Hl E Ha Hr. pose proof (at_boundary_rest l Hl) as Hu. rewrite E in Hu.
  destruct (utf8_run is_word_cont a r word_cont_high Hu Ha Hr) as [Hua Hur].
  unfold lex_word, advance_while. cbn [set_pos pos source].
  rewrite E, count_while_run by done. rewrite (slice_rest l a r) by done. done.
Qed.

Lemma lex_long_option_spec l name v r :
  at_boundary l ->
  drop (pos l) (source l) = ("--" ++ name ++ match v with Some v => "=" ++ v | None => [] end) ++ r ->
  forallb is_word_cont name = true ->
  match v with
  | Some v => forallb option_byte v = true /\ starts_in option_byte r = false
  | None => starts_in is_word_cont r = false /\ starts_in (Ascii.eqb "=") r = false
  end ->
  lex_long_option l
  = Val (emit (TokenKind_LongOption name v)
           (length ("--" ++ name ++ match v with Some v => "=" ++ v | None => [] end)) l).
Proof.
  intros Hl E Hn Hv. pose proof (at_boundary_rest l Hl) as Hu. rewrite E in Hu.
  set (tail := match v with Some v => "=" ++ v | None => [] end) in *.
  assert (Ht : starts_in is_word_cont (tail ++ r) = false).
  { subst tail. destruct v as [v|]; [done|]. by destruct Hv. }
  assert (Hu0 : utf8 (name ++ tail ++ r)).
  { rewrite <- !app_assoc in Hu. do 2 (apply utf8_tail_ascii in Hu; [|done]). done. }
  destruct (utf8_run is_word_cont name (tail ++ r) word_cont_high Hu0 Hn Ht) as [Hun Hut].
  destruct (at_boundary_set l 2 "--" (name ++ tail ++ r) Hl) as [Hl2 E2];
    [by rewrite E, <- !app_assoc|done|done|].
  unfold lex_long_option, advance_while. cbn [set_pos pos source].
  rewrite E2, count_while_run by done.
  pose proof (slice_rest (set_pos (pos l + 2) l) name (tail ++ r) Hl2 E2 Hun Hut) as Hs.
  cbn [set_pos pos source] in Hs. rewrite Hs. cbn [or_panic mbind outcome_bind]. clear Hs.
  destruct (at_boundary_set (set_pos (pos l + 2) l) (length name) name (tail ++ r) Hl2 E2 Hut eq_refl)
    as [Hl3 E3]. cbn [set_pos pos source] in E3, Hl3.
  unfold peek. cbn [set_pos pos source]. rewrite Nat.add_0_r.
  destruct v as [v|]; subst tail.
  - destruct Hv as [Hv1 Hv2]. change ("=" ++ v) with ("="%char :: v) in *.
    rewrite (drop_lookup_cons _ _ _ _ E3), bool_decide_eq_true_2 by done.
    assert (Huv : utf8 (v ++ r)) by (apply utf8_tail_ascii in Hut; done).
    destruct (utf8_run option_byte v r option_byte_high Huv Hv1 Hv2) as [Huv1 Huv2].
    destruct (at_boundary_set _ 1 "=" (v ++ r) Hl3 E3 Huv eq_refl) as [Hl4 E4].
    cbn [set_pos pos source] in Hl4, E4. rewrite E4.
    change (fun c => negb (is_option_break c)) with option_byte. rewrite count_while_run by done.
    pose proof (slice_rest _ v r Hl4 E4 Huv1 Huv2) as Hs. cbn [set_pos pos source] in Hs. rewrite Hs.
    cbn [or_panic mbind outcome_bind]. unfold emit. cbn [length app].
    rewrite !length_app. cbn [length].
    by replace (pos l + 2 + length name + 1 + length v) with (pos l + S (S (length name + S (length v)))) by lia.
  - destruct Hv as [_ Hv2]. rewrite bool_decide_eq_false_2; cycle 1.
    { intros Hc. destruct r as [|b r]; simpl in E3.
      - apply (f_equal length) in E3. rewrite length_drop in E3. simpl in E3.
        apply lookup_lt_Some in Hc. lia.
      - rewrite (drop_lookup_cons _ _ _ _ E3) in Hc. injection Hc as ->. done. }
    cbn [mbind outcome_bind]. rewrite app_nil_r. unfold emit. cbn [length app].
    by replace (pos l + 2 + length name) with (pos l + S (S (length name))) by lia.
Qed.

(** *** One step of the main loop *)

(** The tests of [run_step] that come before words and numbers. *)
Definition special (c : ascii) : bool :=
  is_blank c || Ascii.eqb c lf || Ascii.eqb c backslash || is_quote c
  || Ascii.eqb c "=" || Ascii.eqb c "," || Ascii.eqb c "[" || Ascii.eqb c "]".

Lemma word_start_not_special c : is_word_start c = true -> special c = false /\ is_ascii_digit c = false.
Proof.
  intros H. split.
  - apply negb_true_iff. revert c H.
    apply (by_bytes2 is_word_start (fun c => negb (special c))). vm_compute. reflexivity.
  - unfold is_word_start in H. bools. done.
Qed.

Lemma digit_not_special c :
  is_ascii_digit c = true -> special c = false /\ Ascii.eqb c "#" = false /\ Ascii.eqb c "-" = false.
Proof.
  intros H. pose proof (by_bytes2 is_ascii_digit
    (fun c => negb (special c) && negb (Ascii.eqb c "#") && negb (Ascii.eqb c "-"))) as HB.
  specialize (HB ltac:(vm_compute; reflexivity) c H). simpl in HB. bools. done.
Qed.

(** [run_step] on a byte that none of the special tests accepts. *)
Lemma run_step_plain c l :
  special c = false ->
  run_step c l
  = if Ascii.eqb c "#" && negb (in_shell_payload l) then Val (skip_comment l)
    else if Ascii.eqb c "-" && bool_decide (peek l 1 = Some "-"%char) then lex_long_option l
    else if is_ascii_digit c then Val (lex_number l)
    else if is_word_start c then lex_word l
    else Val (unexpected_character c l).
Proof.
  unfold special, is_quote. intros H. bools. unfold run_step. fold (is_blank c).
  repeat match goal with H : _ = false |- _ => rewrite H; clear H end. done.
Qed.

Lemma peek_drop l n c r r' : drop (pos l) (source l) = r ++ c :: r' -> length r = n -> peek l n = Some c.
Proof.
  intros E <-. unfold peek. apply (drop_cons_lookup _ _ c r').
  by rewrite <- drop_drop, E, drop_app_length.
Qed.

Lemma peek_starts_dash l a r :
  drop (pos l) (source l) = a ++ r -> starts_in is_word_start a = true ->
  starts_with "--" a = false -> starts_in is_word_cont r = false ->
  forall c, (source l) !! pos l = Some c ->
  Ascii.eqb c "-" && bool_decide (peek l 1 = Some "-"%char) = false.
Proof.
  intros E Ha Hd Hr c Hc. destruct a as [|b a]; [done|]. simpl in E.
  rewrite (drop_lookup_cons _ _ _ _ E) in Hc. injection Hc as ->.
  destruct (Ascii.eqb_spec c "-") as [->|]; [|done]. simpl. apply bool_decide_eq_false_2.
  intros Hp. unfold peek in Hp. assert (drop (pos l + 1) (source l) = a ++ r) as E1.
  { by rewrite <- drop_drop, E. }
  destruct a as [|d a].
  - destruct r as [|d r]; simpl in E1.
    + apply (f_equal length) in E1. rewrite length_drop in E1. apply lookup_lt_Some in Hp. simpl in E1. lia.
    + rewrite (drop_lookup_cons _ _ _ _ E1) in Hp. injection Hp as ->. done.
  - simpl in E1. rewrite (drop_lookup_cons _ _ _ _ E1) in Hp. injection Hp as ->. done.
Qed.

Lemma skip_comment_spec l body r :
  drop (pos l) (source l) = ("#" ++ body) ++ r ->
  forallb not_lf body = true -> starts_in not_lf r = false ->
  skip_comment l = set_pos (pos l + length ("#" ++ body)) l.
Proof.
  intros E Hb Hr. unfold skip_comment, advance_while.
  change (fun c => negb (Ascii.eqb c lf)) with not_lf. rewrite E.
  by rewrite count_while_run.
Qed.

Lemma lex_string_spec l q body v r :
  at_boundary l -> drop (pos l) (source l) = (q :: body ++ [q]) ++ r ->
  is_quote q = true -> unescapes q body v -> utf8 r ->
  lex_string q l = Val (emit (TokenKind_String v) (length (q :: body ++ [q])) l).
Proof.
  intros Hl E Hq HU Hr. unfold lex_string. pose proof (at_boundary_rest l Hl) as Hu. rewrite E in Hu.
  assert (E' : drop (pos l) (source l) = [q] ++ body ++ q :: r) by (rewrite E; simpl; by rewrite <- app_assoc).
  apply utf8_tail_ascii in Hu; [|by apply quote_ascii].
  change (utf8 ((body ++ [q]) ++ r)) in Hu. rewrite <- app_assoc in Hu.
  destruct (at_boundary_set l 1 [q] (body ++ q :: r) Hl E' Hu eq_refl) as [Hl1 E1].
  rewrite (lex_string_loop_complete q body v HU r); [|done|done|done|done|].
  - cbn [set_pos pos app]. unfold emit. cbn [length]. rewrite length_app. cbn [length].
    by replace (pos l + 1 + length body + 1) with (pos l + S (length body + 1)) by lia.
  - apply (f_equal length) in E. rewrite length_drop, length_app in E. simpl in E.
    rewrite length_app in E. lia.
Qed.

(** Every item of the grammar is scanned in one step. *)
Lemma run_step_item l c rest text ot :
  at_boundary l -> drop (pos l) (source l) = rest -> (source l) !! pos l = Some c ->
  lex_item (in_shell_payload l) rest text ot -> utf8 (drop (length text) rest) ->
  run_step c l = Val (advance (length text) ot l).
Proof.
  intros Hl E Hc HI Hr.
  destruct HI as [b r Hb|r|r|body r Hp Hbody Hrr|r|p r|q body v r Hq HU|text r Hne Ha Hrr Hmax
    |name r Hn H1 H2|name v r Hn Hv Hrr|text r Hs Ha Hrr Hd Hh].
  - rewrite (drop_lookup_cons _ _ _ _ E) in Hc. injection Hc as <-.
    unfold run_step. fold (is_blank b). by rewrite Hb.
  - rewrite (drop_lookup_cons _ _ _ _ E) in Hc. injection Hc as <-. unfold run_step. cbn.
    by rewrite (peek_drop l 1 lf [backslash] r), bool_decide_eq_true_2.
  - rewrite (drop_lookup_cons _ _ _ _ E) in Hc. injection Hc as <-. unfold run_step. cbn.
    rewrite (peek_drop l 1 cr [backslash] (lf :: r)), (peek_drop l 2 lf [backslash; cr] r) by done.
    by rewrite bool_decide_eq_false_2, !bool_decide_eq_true_2.
  - rewrite (drop_lookup_cons _ _ _ _ E) in Hc. injection Hc as <-.
    rewrite run_step_plain by done. rewrite Hp. simpl. by rewrite (skip_comment_spec l body r).
  - by rewrite (drop_lookup_cons _ _ _ _ E) in Hc; injection Hc as <-.
  - rewrite (drop_lookup_cons _ _ _ _ E) in Hc. injection Hc as <-. by destruct p.
  - pose proof E as E0. simpl in E0. rewrite (drop_lookup_cons _ _ _ _ E0) in Hc. injection Hc as <-.
    rewrite drop_app_length in Hr.
    assert (run_step q l = lex_string q l) as ->; [|by apply (lex_string_spec l q body v r)].
    unfold is_quote in Hq. apply orb_true_iff in Hq as [Hq|Hq]; apply Ascii.eqb_eq in Hq as ->; done.
  - destruct text as [|d text]; [done|]. pose proof E as E0. simpl in E0.
    rewrite (drop_lookup_cons _ _ _ _ E0) in Hc. injection Hc as <-.
    pose proof Ha as Ha'. simpl in Ha'. bools.
    destruct (digit_not_special d H) as (Hsp & H1 & H2). rewrite run_step_plain by done.
    rewrite H1, H2, H. simpl. rewrite (lex_number_spec l (d :: text) r) by done.
    rewrite (proj2 (N.ltb_ge _ _)) by done. by rewrite N.min_l.
  - pose proof E as E0. simpl in E0. rewrite (drop_lookup_cons _ _ _ _ E0) in Hc. injection Hc as <-.
    rewrite run_step_plain by done. rewrite (peek_drop l 1 "-" ["-"%char] (name ++ r)) by done.
    rewrite bool_decide_eq_true_2 by done. simpl.
    pose proof (lex_long_option_spec l name None r Hl) as HS. cbv beta iota in HS.
    rewrite app_nil_r in HS. by rewrite HS.
  - pose proof E as E0. simpl in E0. rewrite (drop_lookup_cons _ _ _ _ E0) in Hc. injection Hc as <-.
    rewrite run_step_plain by done.
    rewrite (peek_drop l 1 "-" ["-"%char] ((name ++ "=" ++ v) ++ r)) by done.
    rewrite bool_decide_eq_true_2 by done. simpl.
    by rewrite (lex_long_option_spec l name (Some v) r Hl E).
  - pose proof (peek_starts_dash l text r E Hs Hd Hrr c Hc) as Hdash.
    destruct text as [|d text]; [done|]. simpl in Hs. pose proof E as E0. simpl in E0.
    rewrite (drop_lookup_cons _ _ _ _ E0) in Hc. injection Hc as <-.
    destruct (word_start_not_special d Hs) as [Hsp Hdig]. rewrite run_step_plain by done.
    rewrite Hdash, Hdig, Hs, (lex_word_spec l (d :: text) r) by done.
    destruct (Ascii.eqb_spec d "#") as [->|]; [|done].
    destruct (in_shell_payload l); [done|]. by specialize (Hh eq_refl).
Qed.

Lemma lex_item_prefix payload rest text ot :
  lex_item payload rest text ot -> rest = text ++ drop (length text) rest /\ text <> [].
Proof.
  destruct 1; split; simpl; rewrite ?drop_0, ?drop_app_length; try done.
  intros ->. done.
Qed.

Lemma lex_item_utf8 payload rest text ot :
  utf8 rest -> lex_item payload rest text ot -> utf8 (drop (length text) rest).
Proof.
  intros Hu HI. destruct HI as [b r Hb|r|r|body r Hp Hbody Hrr|r|p r|q body v r Hq HU|text r Hne Ha Hrr Hmax
    |name r Hn H1 H2|name v r Hn Hv Hrr|text r Hs Ha Hrr Hd Hh]; rewrite ?drop_app_length; simpl; rewrite ?drop_0.
  - apply utf8_tail_ascii in Hu; [done|]. revert b Hb Hu. clear. intros b Hb _. revert b Hb.
    apply (by_bytes2 is_blank is_ascii). vm_compute. reflexivity.
  - by do 2 (apply utf8_tail_ascii in Hu; [|done]).
  - by do 3 (apply utf8_tail_ascii in Hu; [|done]).
  - apply (utf8_run not_lf ("#" ++ body) r); [|done|done|done]. clear. intros c H.
    apply negb_true_iff in H. revert c H. apply (by_bytes2 (fun c => negb (is_ascii c)) not_lf).
    vm_compute. reflexivity.
  - by apply utf8_tail_ascii in Hu.
  - apply utf8_tail_ascii in Hu; [done|]. by destruct p.
  - replace ((q :: body ++ [q]) ++ r) with ((q :: body) ++ q :: r) in Hu by (simpl; by rewrite <- app_assoc).
    apply (utf8_app_ascii q) in Hu as [_ Hu]; [done|by apply quote_ascii].
  - by apply (utf8_ascii_run is_ascii_digit) in Hu as [_ ?]; [|apply Identifiers.digit_ascii|].
  - rewrite <- app_assoc in Hu. do 2 (apply utf8_tail_ascii in Hu; [|done]).
    by apply (utf8_run is_word_cont) in Hu as [_ ?]; [|apply word_cont_high|..].
  - rewrite <- !app_assoc in Hu. do 2 (apply utf8_tail_ascii in Hu; [|done]).
    change (utf8 (name ++ "="%char :: v ++ r)) in Hu.
    apply (utf8_app_ascii "=") in Hu as [_ Hu]; [|done].
    by apply (utf8_run option_byte) in Hu as [_ ?]; [|apply option_byte_high|..].
  - by apply (utf8_run is_word_cont) in Hu as [_ ?]; [|apply word_cont_high|..].
Qed.

(** The steps that report an error: an unexpected byte, a string that never
    closes, or a number that does not fit. *)
Definition error_step (l l' : Lexer) : Prop :=
  exists n ot d, l' = push_error d (advance n ot l) /\ is_plain_error d = true
    /\ 0 < n /\ pos l + n <= length (source l) /\ utf8 (drop (pos l + n) (source l))
    /\ ann_span (primary d) = mkSpan (pos l) (pos l + n)
    /\ (ot = None
        \/ exists text, drop (pos l) (source l) = text ++ drop (pos l + n) (source l)
             /\ length text = n /\ forallb is_ascii_digit text = true
             /\ (u64_max < decimal text)%N /\ ot = Some (TokenKind_Number u64_max)).

Lemma unexpected_error_step c l r :
  drop (pos l) (source l) = c :: r -> utf8 r -> error_step l (unexpected_character c l).
Proof.
  intros E Hr. eexists 1, None, _. split; [reflexivity|]. split_and!; try done; try lia; [| |by left].
  - apply (f_equal length) in E. rewrite length_drop in E. simpl in E. lia.
  - by rewrite <- drop_drop, E.
Qed.

Lemma unclosed_error_step q l r :
  at_boundary l -> drop (pos l) (source l) = q :: r -> is_quote q = true -> unclosed q r ->
  exists l', lex_string q l = Val l' /\ error_step l l'.
Proof.
  intros Hl E Hq HU. pose proof (at_boundary_rest l Hl) as Hu. rewrite E in Hu.
  apply utf8_tail_ascii in Hu; [|by apply quote_ascii].
  destruct (at_boundary_set l 1 [q] r Hl E Hu eq_refl) as [Hl1 E1].
  assert (length (source l) = pos l + S (length r)) as Hlen.
  { destruct Hl as [_ Hle _]. apply (f_equal length) in E. rewrite length_drop in E. simpl in E. lia. }
  unfold lex_string. rewrite (lex_string_loop_unclosed q r HU) by (done || lia).
  eexists. split; [done|]. cbn [set_pos source]. rewrite set_pos_set_pos.
  eexists (S (length r)), None, _. cbn [advance]. split; [by rewrite <- Hlen|].
  split_and!; try done; try lia; [|by simpl; rewrite Hlen|by left].
  rewrite <- Hlen, drop_ge by lia. constructor.
Qed.

Lemma item_of_option payload (r : str) :
  exists text ot, lex_item payload ("--" ++ r) text ot.
Proof.
  destruct (count_while_split is_word_cont r) as (name & r1 & -> & _ & Hn & Hr1).
  destruct (starts_in (Ascii.eqb "=") r1) eqn:Eq.
  - destruct r1 as [|b r1]; [done|]. cbn [starts_in] in Eq. apply Ascii.eqb_eq in Eq as <-.
    destruct (count_while_split option_byte r1) as (v & r2 & -> & _ & Hv & Hr2).
    eexists _, _. pose proof (item_option_value payload name v r2 Hn Hv Hr2) as H.
    rewrite <- !app_assoc in H. exact H.
  - eexists _, _. pose proof (item_option payload name r1 Hn Hr1 Eq) as H.
    rewrite <- app_assoc in H. exact H.
Qed.

(** A byte the main loop meets either starts an item or causes an error step. *)
Definition step_ok (l : Lexer) (c : ascii) (r : str) : Prop :=
  (exists text ot, lex_item (in_shell_payload l) (c :: r) text ot)
  \/ exists l', run_step c l = Val l' /\ error_step l l'.

Lemma backslash_step l r :
  at_boundary l -> drop (pos l) (source l) = backslash :: r -> step_ok l backslash r.
Proof.
  intros Hl E. pose proof (at_boundary_rest l Hl) as Hu. rewrite E in Hu.
  apply utf8_tail_ascii in Hu; [|done].
  assert (E1 : drop (pos l + 1) (source l) = r) by (by rewrite <- drop_drop, E).
  assert (E2 : drop (pos l + 2) (source l) = drop 1 r) by (by rewrite <- drop_drop, E).
  assert (Hpk : forall n c, peek l n = Some c -> exists r', drop (pos l + n) (source l) = c :: r').
  { intros n c H. unfold peek in H. eexists. by apply drop_S. }
  destruct (decide (peek l 1 = Some lf)) as [Hp|Hp].
  { left. destruct (Hpk _ _ Hp) as [r' E']. rewrite E1 in E'. rewrite E'. eexists _, _. apply item_continuation. }
  destruct (decide (peek l 1 = Some cr /\ peek l 2 = Some lf)) as [[Hp1 Hp2]|Hp'].
  { left. destruct (Hpk _ _ Hp1) as [r1 E1']. destruct (Hpk _ _ Hp2) as [r2 E2'].
    rewrite E1 in E1'. rewrite E2, E1' in E2'. simpl in E2'. rewrite drop_0 in E2'.
    rewrite E1', E2'. eexists _, _. apply item_continuation_crlf. }
  right. eexists. split; [|by apply (unexpected_error_step backslash l r)].
  unfold run_step. cbn. rewrite bool_decide_eq_false_2 by done.
  destruct (decide (peek l 1 = Some cr)) as [Hc|Hc].
  - rewrite (bool_decide_eq_true_2 _ Hc), bool_decide_eq_false_2 by naive_solver. done.
  - by rewrite (bool_decide_eq_false_2 _ Hc).
Qed.

Lemma quote_step l q r :
  at_boundary l -> drop (pos l) (source l) = q :: r -> is_quote q = true -> step_ok l q r.
Proof.
  intros Hl E Hq. pose proof (at_boundary_rest l Hl) as Hu. rewrite E in Hu.
  apply utf8_tail_ascii in Hu; [|by apply quote_ascii].
  destruct (string_cases q r Hu Hq) as [(body & v & r' & -> & HU & _)|HU].
  - left. eexists _, _. pose proof (item_string (in_shell_payload l) q body v r' Hq HU) as H.
    simpl in H. rewrite <- app_assoc in H. exact H.
  - right. assert (run_step q l = lex_string q l) as ->; [|by apply (unclosed_error_step q l r)].
    unfold is_quote in Hq. apply orb_true_iff in Hq as [Hq|Hq]; apply Ascii.eqb_eq in Hq as ->; done.
Qed.

Lemma digit_step l c r :
  at_boundary l -> drop (pos l) (source l) = c :: r -> is_ascii_digit c = true -> step_ok l c r.
Proof.
  intros Hl E Hd. pose proof (at_boundary_rest l Hl) as Hu. rewrite E in Hu.
  destruct (count_while_split is_ascii_digit (c :: r)) as (a & r' & Er & Hlen & Ha & Hr').
  assert (Hne : a <> []) by (intros ->; simpl in Er; subst r'; simpl in Hr'; congruence).
  unfold step_ok. rewrite Er in E, Hu |- *. destruct (N.le_gt_cases (decimal a) u64_max) as [Hm|Hm].
  { left. eexists _, _. by apply item_number. }
  right. destruct (digit_not_special c Hd) as (Hsp & H1 & H2). eexists.
  split; [rewrite run_step_plain by done; rewrite H1, H2, Hd; simpl; reflexivity|].
  rewrite (lex_number_spec l a r') by done. rewrite (proj2 (N.ltb_lt _ _)), N.min_r by lia.
  assert (Ed : drop (pos l + length a) (source l) = r') by (by rewrite <- drop_drop, E, drop_app_length).
  apply (utf8_ascii_run is_ascii_digit) in Hu as [_ Hu]; [|apply Identifiers.digit_ascii|done].
  eexists (length a), (Some _), _. split; [reflexivity|]. rewrite Ed. split_and!; try done.
  - by destruct a; simpl; [|lia].
  - apply (f_equal length) in E. rewrite length_drop, length_app in E.
    destruct Hl as [_ Hle _]. lia.
  - right. exists a. done.
Qed.

Lemma plain_step l c r :
  at_boundary l -> drop (pos l) (source l) = c :: r -> special c = false ->
  is_ascii_digit c = false -> step_ok l c r.
Proof.
  intros Hl E Hsp Hd. pose proof (at_boundary_rest l Hl) as Hu. rewrite E in Hu.
  destruct (decide (c = "#"%char /\ in_shell_payload l = false)) as [[-> Hp]|Hc].
  { left. destruct (count_while_split not_lf r) as (body & r' & -> & _ & Hb & Hr').
    eexists _, _. exact (item_comment _ body r' Hp Hb Hr'). }
  destruct (starts_with "--" (c :: r)) eqn:Hdash.
  { left. apply starts_with_spec in Hdash as [r' ->]. apply item_of_option. }
  destruct (is_word_start c) eqn:Hw.
  { left. destruct (count_while_split is_word_cont (c :: r)) as (a & r' & Er & Hlen & Ha & Hr').
    assert (is_word_cont c = true) as Hwc by (unfold is_word_start in Hw; by bools).
    destruct a as [|d a]; [simpl in Er; subst r'; simpl in Hr'; congruence|].
    pose proof Er as Er'. injection Er' as <- Er'. rewrite Er in *. eexists _, _. apply item_word; try done.
    - destruct (starts_with "--" (c :: a)) eqn:Es; [|done].
      apply starts_with_spec in Es as [t Et]. rewrite Et in Hdash. rewrite <- app_assoc in Hdash.
      assert (starts_with "--" ("--" ++ t ++ r') = true) as HH by (apply starts_with_spec; by eexists).
      rewrite HH in Hdash. done.
    - intros Hp. destruct (starts_with "#" (c :: a)) eqn:Es; [|done].
      apply starts_with_spec in Es as [t Et]. injection Et as -> _. by exfalso; apply Hc. }
  right. eexists. split; cycle 1.
  { apply (unexpected_error_step c l r); [done|].
    destruct (is_ascii c) eqn:Ha; [by apply utf8_tail_ascii in Hu|].
    apply word_cont_high in Ha. unfold is_word_start in Hw. by rewrite Ha, Hd in Hw. }
  rewrite run_step_plain by done. rewrite Hd, Hw.
  assert (Ascii.eqb c "#" && negb (in_shell_payload l) = false) as ->.
  { destruct (Ascii.eqb_spec c "#"); [|done]. destruct (in_shell_payload l); naive_solver. }
  assert (Ascii.eqb c "-" && bool_decide (peek l 1 = Some "-"%char) = false) as ->; [|done].
  destruct (Ascii.eqb_spec c "-") as [->|]; [|done]. done.
Qed.

Lemma run_step_cases l c r :
  at_boundary l -> drop (pos l) (source l) = c :: r -> step_ok l c r.
Proof.
  intros Hl E.
  destruct (is_blank c) eqn:H1; [left; eexists _, _; by constructor|].
  destruct (decide (c = lf)) as [->|H2]; [left; eexists _, _; apply item_newline|].
  destruct (decide (c = backslash)) as [->|H3]; [by apply backslash_step|].
  destruct (is_quote c) eqn:H4; [by apply quote_step|].
  destruct (decide (c = "="%char)) as [->|H5]; [left; eexists _, _; apply (item_punct _ Punct_Equals)|].
  destruct (decide (c = ","%char)) as [->|H6]; [left; eexists _, _; apply (item_punct _ Punct_Comma)|].
  destruct (decide (c = "["%char)) as [->|H7]; [left; eexists _, _; apply (item_punct _ Punct_LBracket)|].
  destruct (decide (c = "]"%char)) as [->|H8]; [left; eexists _, _; apply (item_punct _ Punct_RBracket)|].
  destruct (is_ascii_digit c) eqn:H9; [by apply digit_step|].
  apply plain_step; [done|done| |done].
  unfold special. rewrite H1, H4. repeat rewrite (proj2 (Ascii.eqb_neq _ _)) by done. done.
Qed.

(** ** The step relation *)

Inductive lex_step (l : Lexer) : Lexer -> Prop :=
| lex_step_item text ot :
    lex_item (in_shell_payload l) (drop (pos l) (source l)) text ot ->
    lex_step l (advance (length text) ot l)
| lex_step_error l' : error_step l l' -> lex_step l l'.

Lemma advance_pos n ot l : pos (advance n ot l) = pos l + n.
Proof. by destruct ot. Qed.
Lemma advance_source n ot l : source (advance n ot l) = source l.
Proof. by destruct ot. Qed.
Lemma advance_errors n ot l : errors (advance n ot l) = errors l.
Proof. by destruct ot. Qed.

Definition to_token (p n : nat) (k : TokenKind) : Token := mkToken k (mkSpan p (p + n)).

Lemma advance_tokens n ot l :
  tokens (advance n ot l) = tokens l ++ option_list (to_token (pos l) n <$> ot).
Proof. destruct ot; simpl; [done|]. by rewrite app_nil_r. Qed.
Lemma advance_payload n ot l :
  in_shell_payload (advance n ot l)
  = match ot with Some k => payload_after (in_shell_payload l) k | None => in_shell_payload l end.
Proof. by destruct ot. Qed.

Lemma lex_step_progress l l' :
  at_boundary l -> lex_step l l' -> at_boundary l' /\ source l' = source l /\ pos l < pos l'.
Proof.
  intros Hl HS. destruct HS as [text ot HI|l' (n & ot & d & -> & _ & Hn & Hle & Hu & _)].
  - pose proof (at_boundary_rest l Hl) as Hu. pose proof (lex_item_utf8 _ _ _ _ Hu HI) as Hr.
    destruct (lex_item_prefix _ _ _ _ HI) as [E Hne].
    destruct (at_boundary_set l _ text _ Hl E Hr eq_refl) as [[B1 B2 B3] _].
    split; [|split; [apply advance_source|rewrite advance_pos; by destruct text; simpl; [|lia]]].
    split; rewrite ?advance_source, ?advance_pos; done.
  - destruct Hl as [H1 H2 H3]. simpl. rewrite advance_source, advance_pos.
    split; [|split; [done|lia]]. split; simpl; rewrite ?advance_source, ?advance_pos; [done|done|].
    by apply utf8_drop_boundary.
Qed.

Lemma run_step_is_step l c :
  at_boundary l -> source l !! pos l = Some c -> exists l', run_step c l = Val l' /\ lex_step l l'.
Proof.
  intros Hl Hc. pose proof (drop_S _ _ _ Hc) as E.
  destruct (run_step_cases l c _ Hl E) as [(text & ot & HI)|(l' & E' & HE)].
  - rewrite <- E in HI. eexists. split; [|by apply lex_step_item].
    eapply run_step_item; [done|reflexivity|done|done|].
    eapply lex_item_utf8; [by apply at_boundary_rest|done].
  - exists l'. split; [done|]. by apply lex_step_error.
Qed.

(** With more fuel than bytes left, the loop reaches the end of the source. *)
Lemma run_reaches fuel l :
  at_boundary l -> length (source l) - pos l < fuel ->
  exists l', run fuel l = Val l' /\ rtc lex_step l l' /\ at_boundary l'
    /\ source l' = source l /\ pos l' = length (source l).
Proof.
  revert l. induction fuel as [|fuel IH]; intros l Hl Hf; [lia|]. cbn [run].
  destruct (source l !! pos l) as [c|] eqn:Hc.
  - destruct (run_step_is_step l c Hl Hc) as (l1 & -> & HS). cbn [mbind outcome_bind].
    destruct (lex_step_progress l l1 Hl HS) as (Hl1 & Es & Hp).
    destruct (IH l1 Hl1) as (l' & E & Hr & Hb & Es' & Hpos).
    { rewrite Es. apply lookup_lt_Some in Hc. lia. }
    exists l'. split_and!; [done|by eapply rtc_l|done|congruence|congruence].
  - exists l. split_and!; [done|done|done|done|]. apply lookup_ge_None in Hc. destruct Hl. lia.
Qed.

Lemma Lexer_new_boundary s : utf8 s -> at_boundary (Lexer_new s).
Proof. intros H. split; simpl; [done|lia|done]. Qed.

Lemma tokenize_reaches s :
  utf8 s -> exists l, tokenize s = Val (tokens l, errors l) /\ rtc lex_step (Lexer_new s) l
    /\ at_boundary l /\ source l = s /\ pos l = length s.
Proof.
  intros H. destruct (run_reaches (S (length s)) (Lexer_new s)) as (l & E & Hr & Hb & Es & Hp).
  - by apply Lexer_new_boundary.
  - simpl. lia.
  - exists l. unfold tokenize. rewrite E. done.
Qed.

(** An invariant of the step relation holds of the final state. *)
Lemma rtc_invariant (P : Lexer -> Prop) l l' :
  (forall x y, at_boundary x -> P x -> lex_step x y -> P y) ->
  at_boundary l -> P l -> rtc lex_step l l' -> P l'.
Proof.
  intros HP Hl H0 HR. induction HR as [|x y z HS _ IH]; [done|].
  destruct (lex_step_progress x y Hl HS) as (Hy & _). apply IH; [done|]. exact (HP x y Hl H0 HS).
Qed.

(** *** Clean runs *)

Lemma error_step_errors l l' : error_step l l' -> errors l' <> [].
Proof. intros (n & ot & d & -> & _). simpl. apply push_capped_nonempty. Qed.

Lemma lex_step_errors_mono l l' : lex_step l l' -> errors l' = [] -> errors l = [].
Proof.
  intros [text ot _|l'' HE]; [by rewrite advance_errors|]. intros H. by apply error_step_errors in HE.
Qed.

Lemma rtc_errors_mono l l' : rtc lex_step l l' -> errors l' = [] -> errors l = [].
Proof. induction 1; [done|]. intros. eapply lex_step_errors_mono; eauto. Qed.

Lemma clean_run_lexes l l' :
  rtc lex_step l l' -> at_boundary l -> pos l' = length (source l) -> errors l' = [] ->
  exists toks, tokens l' = tokens l ++ toks
    /\ lexes (pos l) (in_shell_payload l) (drop (pos l) (source l)) toks.
Proof.
  induction 1 as [l|l l1 l' HS HR IH]; intros Hl Hp He.
  { exists []. rewrite app_nil_r. split; [done|]. rewrite Hp, drop_ge by done. constructor. }
  destruct (lex_step_progress l l1 Hl HS) as (Hl1 & Es & _).
  destruct IH as (toks & Et & HL); [done|congruence|done|].
  destruct HS as [text ot HI|l1 HE]; cycle 1.
  { exfalso. apply (error_step_errors l l1 HE). by eapply rtc_errors_mono. }
  rewrite advance_tokens in Et. rewrite advance_pos, advance_payload, advance_source in HL.
  rewrite <- drop_drop in HL. exists (option_list (to_token (pos l) (length text) <$> ot) ++ toks).
  rewrite app_assoc. split; [done|]. destruct ot as [k|]; simpl.
  - by eapply lexes_token.
  - by eapply lexes_skip.
Qed.

Lemma lexes_run p payload rest toks :
  lexes p payload rest toks -> forall fuel l,
  at_boundary l -> p = pos l -> payload = in_shell_payload l -> rest = drop (pos l) (source l) ->
  length rest < fuel ->
  exists l', run fuel l = Val l' /\ tokens l' = tokens l ++ toks /\ errors l' = errors l.
Proof.
  assert (Hstep : forall l text ot fuel, at_boundary l ->
    lex_item (in_shell_payload l) (drop (pos l) (source l)) text ot ->
    run (S fuel) l = run fuel (advance (length text) ot l)
    /\ at_boundary (advance (length text) ot l)
    /\ 0 < length text <= length (drop (pos l) (source l))
    /\ length (drop (length text) (drop (pos l) (source l)))
       = length (drop (pos l) (source l)) - length text).
  { intros l text ot fuel Hl HI. destruct (lex_item_prefix _ _ _ _ HI) as [E Hne].
    destruct text as [|c text]; [done|]. simpl in E. pose proof (drop_cons_lookup _ _ _ _ E) as Hc.
    pose proof (lex_item_utf8 _ _ _ _ (at_boundary_rest l Hl) HI) as Hu. cbn [run]. rewrite Hc.
    rewrite (run_step_item l c _ (c :: text) ot Hl eq_refl Hc HI Hu).
    split_and!; [done| |simpl; lia|rewrite E; simpl; rewrite length_app; lia|by rewrite length_drop].
    by apply (lex_step_progress l _ Hl), lex_step_item. }
  induction 1 as [p payload|p payload rest text toks HI _ IH|p payload rest text k toks HI _ IH];
    intros fuel l Hl -> -> Er Hf; (destruct fuel as [|fuel]; [lia|]).
  - exists l. cbn [run]. rewrite (proj2 (lookup_ge_None (source l) (pos l))).
    + by rewrite app_nil_r.
    + apply (f_equal length) in Er. rewrite length_drop in Er. simpl in Er. lia.
  - subst rest. destruct (Hstep l text None fuel Hl HI) as (-> & Hl1 & Hlen & Hd).
    destruct (IH fuel (advance (length text) None l)) as (l' & -> & Et & Ee);
      [done|done|done|by rewrite drop_drop|rewrite Hd; lia|]. by exists l'.
  - subst rest. destruct (Hstep l text (Some k) fuel Hl HI) as (-> & Hl1 & Hlen & Hd).
    destruct (IH fuel (advance (length text) (Some k) l)) as (l' & -> & Et & Ee);
      [done|done|done|by rewrite drop_drop|rewrite Hd; lia|].
    exists l'. split_and!; [done| |done]. rewrite Et, advance_tokens. simpl. by rewrite <- app_assoc.
Qed.

(** *** What a token says about the source, errors or not *)

(** The text a token of kind [k] is read from. *)
Definition token_text (k : TokenKind) (text : str) : Prop :=
  match k with
  | TokenKind_Keyword kw => Keyword_lookup text = Some kw
  | TokenKind_Ident s =>
      text = s /\ Keyword_lookup s = None /\ starts_in is_word_start s = true
      /\ forallb is_word_cont s = true
  | TokenKind_String v =>
      exists q body, text = q :: body ++ [q] /\ is_quote q = true /\ unescapes q body v
  | TokenKind_Number n =>
      text <> [] /\ forallb is_ascii_digit text = true /\ n = N.min (decimal text) u64_max
  | TokenKind_Punct p => text = [punct_char p]
  | TokenKind_LongOption name value =>
      forallb is_word_cont name = true
      /\ text = "--" ++ name ++ match value with Some v => "=" ++ v | None => [] end
      /\ (forall v, value = Some v -> forallb option_byte v = true)
  | TokenKind_Newline => text = [lf]
  end.

Definition token_ok (src : str) (t : Token) : Prop :=
  start (tok_span t) < end_ (tok_span t)
  /\ exists text, slice src (start (tok_span t)) (end_ (tok_span t)) = Some text
       /\ token_text (kind t) text.

(** Tokens in source order, none overlapping the next, all before [p]. *)
Fixpoint ordered_before (ts : list Token) (p : nat) : Prop :=
  match ts with
  | [] => True
  | t :: ts' =>
      end_ (tok_span t) <= p
      /\ Forall (fun t' => end_ (tok_span t) <= start (tok_span t')) ts'
      /\ ordered_before ts' p
  end.

Lemma ordered_before_snoc ts t p :
  ordered_before ts (start (tok_span t)) -> start (tok_span t) <= end_ (tok_span t) ->
  end_ (tok_span t) <= p -> ordered_before (ts ++ [t]) p.
Proof.
  intros H Ht Hp. induction ts as [|x ts IH]; simpl in *; [done|].
  destruct H as (H1 & H2 & H3). split_and!; [lia| |by apply IH].
  apply Forall_app. split; [done|]. by repeat constructor.
Qed.

Lemma ordered_before_le ts p q : p <= q -> ordered_before ts p -> ordered_before ts q.
Proof.
  intros Hpq. induction ts as [|t ts IH]; simpl; [done|]. intros (H1 & H2 & H3).
  split_and!; [lia|done|auto].
Qed.

Lemma lex_item_token_text payload rest text k :
  lex_item payload rest text (Some k) -> token_text k text.
Proof.
  inversion 1; subst; simpl; try done.
  - by eexists _, _.
  - split_and!; [done|done|]. by rewrite N.min_l.
  - by rewrite app_nil_r.
  - split_and!; [done|done|]. by intros v' [= <-].
  - unfold word_kind. destruct (Keyword_lookup text) eqn:E; simpl; [done|done].
Qed.

Record lexer_inv (l : Lexer) : Prop := {
  li_tokens : Forall (token_ok (source l)) (tokens l);
  li_ordered : ordered_before (tokens l) (pos l);
  li_errors : length (errors l) <= S MAX_COLLECTED_DIAGNOSTICS;
  li_severity : Forall (fun d => is_plain_error d = true) (errors l);
  li_spans : Forall (fun d => start (ann_span (primary d)) <= end_ (ann_span (primary d))
                              /\ end_ (ann_span (primary d)) <= length (source l)) (errors l)
}.

Lemma lexer_inv_token l n k text :
  at_boundary l -> lexer_inv l -> drop (pos l) (source l) = text ++ drop (pos l + n) (source l) ->
  length text = n -> 0 < n -> utf8 (drop (pos l + n) (source l)) -> token_text k text ->
  lexer_inv (advance n (Some k) l).
Proof.
  intros Hl [I1 I2 I3 I4 I5] E Hn Hpos Hu HT. subst n.
  assert (Hle : pos l + length text <= length (source l)).
  { apply (f_equal length) in E. rewrite length_app, !length_drop in E. destruct Hl. lia. }
  split; simpl; try done.
  - apply Forall_app. split; [done|]. constructor; [|constructor]. split; simpl; [lia|].
    exists text. split; [|done].
    pose proof (at_boundary_rest l Hl) as Hr. rewrite E in Hr. pose proof (utf8_prefix _ _ Hr Hu).
    by apply (slice_rest l text _ Hl E).
  - apply ordered_before_snoc; simpl; [done|lia|lia].
Qed.

Lemma lexer_inv_skip l n : lexer_inv l -> lexer_inv (advance n None l).
Proof.
  intros [I1 I2 I3 I4 I5]. split; simpl; try done. eapply ordered_before_le; [|done]. lia.
Qed.

Lemma push_capped_Forall (P : Diagnostic -> Prop) sink d :
  P d -> P limit_marker -> Forall P sink -> Forall P (push_capped sink d).1.
Proof.
  intros Hd Hm HF. unfold push_capped. repeat case_bool_decide; simpl; [| |done];
    (apply Forall_app; split; [done|by repeat constructor]).
Qed.

Lemma lexer_inv_error l d :
  lexer_inv l -> is_plain_error d = true -> start (ann_span (primary d)) <= end_ (ann_span (primary d)) ->
  end_ (ann_span (primary d)) <= length (source l) -> lexer_inv (push_error d l).
Proof.
  intros [I1 I2 I3 I4 I5] Hd Hs He. split; simpl; try done.
  - by apply push_capped_length.
  - by apply push_capped_errors.
  - apply push_capped_Forall; [done|simpl; lia|done].
Qed.

Lemma lexer_inv_step l l' : at_boundary l -> lexer_inv l -> lex_step l l' -> lexer_inv l'.
Proof.
  intros Hl HI HS. destruct HS as [text ot Hit|l' (n & ot & d & -> & Hd & Hn & Hle & Hu & Hsp & Hot)].
  - destruct ot as [k|]; [|by apply lexer_inv_skip].
    destruct (lex_item_prefix _ _ _ _ Hit) as [E Hne].
    apply (lexer_inv_token l _ k text); [done|done| |done| | |by eapply lex_item_token_text].
    + by rewrite <- drop_drop.
    + by destruct text; simpl; [|lia].
    + rewrite <- drop_drop. eapply lex_item_utf8; [by apply at_boundary_rest|done].
  - apply lexer_inv_error; [|done|by rewrite Hsp; simpl; lia|by rewrite Hsp, advance_source].
    destruct Hot as [->|(text & E & Ht & Hdig & Hmax & ->)]; [by apply lexer_inv_skip|].
    apply (lexer_inv_token l n _ text); try done. simpl.
    split_and!; [by destruct text; simpl in *; [lia|]|done|]. rewrite N.min_r; [done|lia].
Qed.

Lemma lexer_inv_new s : lexer_inv (Lexer_new s).
Proof. split; simpl; try constructor. lia. Qed.

Lemma tokenize_inv s :
  utf8 s -> exists l, tokenize s = Val (tokens l, errors l) /\ lexer_inv l /\ source l = s
    /\ pos l = length s.
Proof.
  intros H. destruct (tokenize_reaches s H) as (l & E & HR & _ & Es & Hp). exists l.
  split_and!; [done| |done|done]. eapply (rtc_invariant lexer_inv); [apply lexer_inv_step| | |done].
  - by apply Lexer_new_boundary.
  - apply lexer_inv_new.
Qed.

(** Strings carried by a token are well-formed text. *)
Lemma unescapes_utf8 q body v : unescapes q body v -> utf8 v.
Proof.
  induction 1 as [|e c body v He _ IH|ch e ch' body v -> Hv He _ IH|ch e ch' body v -> Hv Hq Hb _ IH].
  - constructor.
  - apply utf8_cons_ascii; [|done]. unfold escape in He. clear IH.
    repeat match type of He with (if ?b then _ else _) = _ => destruct b end; by simplify_eq.
  - by constructor.
  - by constructor.
Qed.

(** *** Keywords *)

Definition keyword_text (k : Keyword) : str :=
  match k with
  | KW_From => "FROM" | KW_As => "AS" | KW_Label => "LABEL" | KW_Env => "ENV" | KW_Arg => "ARG"
  | KW_Bootloader => "BOOTLOADER" | KW_Rootfs => "ROOTFS" | KW_Shell => "SHELL"
  | KW_User => "USER" | KW_Workdir => "WORKDIR" | KW_Run => "RUN" | KW_Add => "ADD"
  | KW_Entrypoint => "ENTRYPOINT" | KW_Expose => "EXPOSE" | KW_Enable => "ENABLE"
  | KW_Disable => "DISABLE" | KW_Hostname => "HOSTNAME" | KW_Locale => "LOCALE"
  | KW_Timezone => "TIMEZONE" | KW_Cmd => "CMD" | KW_Volume => "VOLUME"
  | KW_Stopsignal => "STOPSIGNAL" | KW_Copy => "COPY"
  end.

Lemma Keyword_lookup_text k : Keyword_lookup (keyword_text k) = Some k.
Proof. destruct k; reflexivity. Qed.

Lemma Keyword_lookup_Some s k : Keyword_lookup s = Some k -> s = keyword_text k.
Proof.
  unfold Keyword_lookup. intros H.
  repeat match type of H with
    | (if decide (s = ?t) then _ else _) = _ =>
        destruct (decide (s = t)) as [E|_]; [injection H as <-; exact E|]
    end. done.
Qed.

(** *** Quoting *)

(** A quoted literal for a value: [\] and the quote are escaped. *)
Definition quote_char (q : ascii) (ch : str) : str :=
  if bool_decide (ch = [q]) || bool_decide (ch = [backslash]) then backslash :: ch else ch.
Definition quote_value (q : ascii) (v : str) : str := concat (quote_char q <$> chars v).

Lemma quote_value_unescapes q v :
  is_quote q = true -> utf8 v -> unescapes q (quote_value q v) v.
Proof.
  intros Hq. unfold quote_value. induction 1 as [|ch s Hv Hs IH]; [constructor|].
  rewrite chars_char by done. cbn [fmap list_fmap concat]. unfold quote_char at 1.
  assert (Hesc : forall c, c = q \/ c = backslash -> escape c = Some c).
  { intros c [E|E]; subst c; [|done]. unfold is_quote in Hq.
    apply orb_true_iff in Hq as [H|H]; apply Ascii.eqb_eq in H as ->; done. }
  destruct (bool_decide (ch = [q]) || bool_decide (ch = [backslash])) eqn:E.
  - apply orb_true_iff in E as [E|E]; apply bool_decide_eq_true in E as ->;
      (apply unescapes_escape; [apply Hesc; auto|done]).
  - apply orb_false_iff in E as [E1 E2]. apply bool_decide_eq_false in E1, E2.
    destruct ch as [|e ch]; [done|].
    assert (forall c, is_ascii c = true -> e :: ch <> [c] -> e <> c) as Hne.
    { intros c Hc Hn ->. destruct (valid_char_cases _ Hv) as [(d & Hd & _)|HF]; [congruence|].
      inversion HF; congruence. }
    apply (unescapes_char q (e :: ch) e ch); [done|done|apply Hne; [by apply quote_ascii|done]|
      by apply Hne|done].
Qed.

(** Runs without an error are the derivations of the lexical grammar. *)
Lemma tokenize_lexes src toks :
  utf8 src -> (tokenize src = Val (toks, []) <-> lexes 0 false src toks).
Proof.
  intros H. split.
  - destruct (tokenize_reaches src H) as (l & E & HR & _ & Es & Hp). rewrite E.
    intros [= <- He]. destruct (clean_run_lexes _ _ HR) as (ts & Et & HL); try done.
    + by apply Lexer_new_boundary.
    + simpl in *. by rewrite Et.
  - intros HL. destruct (lexes_run _ _ _ _ HL (S (length src)) (Lexer_new src)) as (l & E & Et & Ee);
      [by apply Lexer_new_boundary|done|done|done|lia|].
    unfold tokenize. rewrite E. simpl in *. by rewrite Et, Ee.
Qed.

(** ** Properties *)

(** The scanner never panics and never runs out of steps on
    well-formed UTF-8 — every slice it takes is on character boundaries, and
    every iteration consumes at least one byte. *)
Theorem tokenize_total src :
  utf8 src -> exists toks errs, tokenize src = Val (toks, errs).
Proof. intros H. destruct (tokenize_reaches src H) as (l & E & _). eauto. Qed.

Lemma tokenize_total_witness :
  exists toks errs, tokenize ("RUN echo " ++ ["195"%char; "169"%char] ++ [dquote]) = Val (toks, errs).
Proof.
  apply tokenize_total. apply utf8_app; [by apply utf8_ascii|].
  apply (utf8_char ["195"%char; "169"%char]); [done|by apply utf8_ascii].
Defined.

(** The scanner reports no error exactly on the texts of the
    lexical grammar, and then its tokens are the grammar's: every byte belongs
    to one item, words, numbers and options are maximal, comments are skipped
    outside shell payloads only, and spans are the items' positions. *)
Theorem tokenize_refines src toks :
  utf8 src -> (tokenize src = Val (toks, []) <-> lexes 0 false src toks).
Proof. apply tokenize_lexes. Qed.

Lemma tokenize_refines_witness :
  lexes 0 false "RUN a#b"
    [mkToken (TokenKind_Keyword KW_Run) (mkSpan 0 3); mkToken (TokenKind_Ident "a#b") (mkSpan 4 7)].
Proof.
  apply tokenize_refines; [by apply utf8_ascii|vm_compute; reflexivity].
Defined.

(** With or without errors, the tokens come in source order
    without overlapping, each has a non-empty span on character boundaries
    inside the source, and its content is what that slice of the source reads
    as: keywords and identifiers verbatim, numbers by value clamped to
    [u64::MAX], strings unquoted and unescaped, options cut at the first [=]. *)
Theorem tokenize_tokens src toks errs :
  utf8 src -> tokenize src = Val (toks, errs) ->
  Forall (token_ok src) toks /\ ordered_before toks (length src).
Proof.
  intros H E. destruct (tokenize_inv src H) as (l & E' & [I1 I2 _ _ _] & Es & Hp).
  rewrite E in E'. injection E' as -> ->. rewrite Es in I1. by rewrite Hp in I2.
Qed.

Lemma tokenize_tokens_witness :
  Forall (token_ok "EXPOSE 80/tcp")
    [mkToken (TokenKind_Keyword KW_Expose) (mkSpan 0 6); mkToken (TokenKind_Number 80) (mkSpan 7 9);
     mkToken (TokenKind_Ident "/tcp") (mkSpan 9 13)].
Proof.
  eapply (tokenize_tokens "EXPOSE 80/tcp" _ []); [by apply utf8_ascii|vm_compute; reflexivity].
Defined.

(** Whatever the input, the scanner keeps at most 257
    diagnostics, all of them errors that point into the source. *)
Theorem tokenize_errors_bounded src toks errs :
  utf8 src -> tokenize src = Val (toks, errs) ->
  length errs <= 257 /\ Forall (fun d => is_plain_error d = true
    /\ start (ann_span (primary d)) <= end_ (ann_span (primary d)) <= length src) errs.
Proof.
  intros H E. destruct (tokenize_inv src H) as (l & E' & [_ _ I3 I4 I5] & Es & Hp).
  rewrite E in E'. injection E' as -> ->. rewrite Es in I5. split; [exact I3|].
  rewrite Forall_forall in *. intros d Hd. split; [by apply I4|]. by apply I5.
Qed.

Lemma tokenize_errors_bounded_witness :
  length (errors (unexpected_character nul (Lexer_new [nul]))) <= 257.
Proof.
  destruct (tokenize_errors_bounded [nul] [] (errors (unexpected_character nul (Lexer_new [nul]))))
    as [H _]; [by apply utf8_ascii|vm_compute; reflexivity|exact H].
Defined.

(** The keyword table is a bijection between the 23 keywords
    and their upper-case spellings. *)
Theorem Keyword_lookup_exact s k : Keyword_lookup s = Some k <-> s = keyword_text k.
Proof. split; [apply Keyword_lookup_Some|intros ->; apply Keyword_lookup_text]. Qed.

(** Any text written as a quoted literal, with the quote and
    the backslash escaped, is scanned back to exactly that text as one token. *)
Theorem quoted_string_roundtrip q v :
  is_quote q = true -> utf8 v ->
  tokenize (q :: quote_value q v ++ [q])
  = Val ([mkToken (TokenKind_String v) (mkSpan 0 (length (quote_value q v) + 2))], []).
Proof.
  intros Hq Hv. pose proof (quote_value_unescapes q v Hq Hv) as HU.
  assert (Hu : utf8 (q :: quote_value q v ++ [q])).
  { apply utf8_cons_ascii; [by apply quote_ascii|]. apply utf8_app; [|by apply utf8_ascii; simpl; rewrite quote_ascii].
    clear HU. unfold quote_value. induction Hv as [|ch s Hc Hs IH]; [constructor|].
    rewrite chars_char by done. cbn [fmap list_fmap concat]. apply utf8_app; [|done].
    unfold quote_char. destruct (_ || _); [apply utf8_cons_ascii; [done|]|];
      rewrite <- (app_nil_r ch); (constructor; [done|constructor]). }
  destruct (lexes_run 0 false (q :: quote_value q v ++ [q])
    [mkToken (TokenKind_String v) (mkSpan 0 (length (quote_value q v) + 2))]) with
    (fuel := S (length (q :: quote_value q v ++ [q]))) (l := Lexer_new (q :: quote_value q v ++ [q]))
    as (l & E & Et & Ee); [|by apply Lexer_new_boundary|done|done|done|lia|].
  - pose proof (item_string false q _ v [] Hq HU) as HI. rewrite app_nil_r in HI.
    assert (length (q :: quote_value q v ++ [q]) = length (quote_value q v) + 2) as El.
    { simpl. rewrite length_app. simpl. lia. }
    rewrite <- El. apply (lexes_token 0 false _ _ _ [] HI). rewrite drop_ge by lia. constructor.
  - unfold tokenize. rewrite E. cbn [mbind outcome_bind]. by rewrite Et, Ee.
Qed.

Lemma quoted_string_roundtrip_witness :
  kinds (tokenize (dquote :: quote_value dquote ([dquote] ++ "a\" ++ [lf]) ++ [dquote]))
  = [TokenKind_String ([dquote] ++ "a\" ++ [lf])].
Proof.
  rewrite (quoted_string_roundtrip dquote ([dquote] ++ "a\" ++ [lf])); [done|done|by apply utf8_ascii].
Defined.
