(* ===== verification/Grammar.v ===== *)
(** * Grammar: the recursive-descent parser (crates/umf-parser/src/grammar.rs).

    A method of the source's [Parser] that returns [Option<A>] is a computation
    [P A]: it threads the parser state, may stop with [None] (the [?] operator),
    and may panic.  Loops that consume tokens take fuel; [with_fuel] provides
    one more unit than there are tokens. *)

From S2P Require Import Prelude RustStr RustStrFacts Subst Validation Identifiers Paths OciRef.
From S2P Require Import Ast Diagnostics Lexer.

(** ** State *)

Record Parser := {
  p_source : str;
  p_tokens : list Token;
  p_pos : nat;
  p_global_args : list Arg;
  p_stages : list Stage;
  p_errors : list Diagnostic;
  p_warnings : list Diagnostic;
  p_pending : list Directive
}.

Definition Parser_new (source : str) (tokens : list Token) : Parser :=
  {| p_source := source; p_tokens := tokens; p_pos := 0; p_global_args := []; p_stages := [];
     p_errors := []; p_warnings := []; p_pending := [] |}.

Definition set_p_pos (n : nat) (p : Parser) : Parser :=
  {| p_source := p_source p; p_tokens := p_tokens p; p_pos := n;
     p_global_args := p_global_args p; p_stages := p_stages p; p_errors := p_errors p;
     p_warnings := p_warnings p; p_pending := p_pending p |}.
Definition add_error (d : Diagnostic) (p : Parser) : Parser :=
  {| p_source := p_source p; p_tokens := p_tokens p; p_pos := p_pos p;
     p_global_args := p_global_args p; p_stages := p_stages p; p_errors := p_errors p ++ [d];
     p_warnings := p_warnings p; p_pending := p_pending p |}.
Definition add_warning (d : Diagnostic) (p : Parser) : Parser :=
  {| p_source := p_source p; p_tokens := p_tokens p; p_pos := p_pos p;
     p_global_args := p_global_args p; p_stages := p_stages p; p_errors := p_errors p;
     p_warnings := p_warnings p ++ [d]; p_pending := p_pending p |}.
Definition add_global_arg (a : Arg) (p : Parser) : Parser :=
  {| p_source := p_source p; p_tokens := p_tokens p; p_pos := p_pos p;
     p_global_args := p_global_args p ++ [a]; p_stages := p_stages p; p_errors := p_errors p;
     p_warnings := p_warnings p; p_pending := p_pending p |}.
Definition add_stage (s : Stage) (p : Parser) : Parser :=
  {| p_source := p_source p; p_tokens := p_tokens p; p_pos := p_pos p;
     p_global_args := p_global_args p; p_stages := p_stages p ++ [s]; p_errors := p_errors p;
     p_warnings := p_warnings p; p_pending := p_pending p |}.
Definition set_pending (ds : list Directive) (p : Parser) : Parser :=
  {| p_source := p_source p; p_tokens := p_tokens p; p_pos := p_pos p;
     p_global_args := p_global_args p; p_stages := p_stages p; p_errors := p_errors p;
     p_warnings := p_warnings p; p_pending := ds |}.

(** ** The parser monad *)

Definition P (A : Type) : Type := Parser -> outcome (option A * Parser).

#[export] Instance P_ret : MRet P := fun A a p => Val (Some a, p).
#[export] Instance P_bind : MBind P := fun A B k m p =>
  match m p with
  | Val (Some a, p') => k a p'
  | Val (None, p') => Val (None, p')
  | Panic => Panic
  | OutOfFuel => OutOfFuel
  end.

(** [return None]. *)
Definition none {A} : P A := fun p => Val (None, p).
(** [if let Some(x) = m] and [match m]: observes the failure. *)
Definition try {A} (m : P A) : P (option A) := fun p =>
  match m p with
  | Val (r, p') => Val (Some r, p')
  | Panic => Panic
  | OutOfFuel => OutOfFuel
  end.
(** Reading the state, and updates of it that always succeed. *)
Definition gets {A} (f : Parser -> A) : P A := fun p => Val (Some (f p), p).
Definition modify (f : Parser -> Parser) : P unit := fun p => Val (Some tt, f p).
(** A computation outside the parser that may panic. *)
Definition lift {A} (o : outcome A) : P A := fun p =>
  match o with Val a => Val (Some a, p) | Panic => Panic | OutOfFuel => OutOfFuel end.
Definition with_fuel {A} (f : nat -> P A) : P A := fun p => f (S (length (p_tokens p))) p.

Definition push_err (d : Diagnostic) : P unit := modify (add_error d).
Definition push_warning (d : Diagnostic) : P unit := modify (add_warning d).
(** [self.errors.push(d); return None;] *)
Definition fail_with {A} (d : Diagnostic) : P A := _ ← push_err d; none.

(** [self.source[a..b].to_string()]. *)
Definition source_slice (a b : nat) : P str := fun p =>
  match slice (p_source p) a b with Some t => Val (Some t, p) | None => Panic end.

(** ** Text helpers *)

(** A text between double quotes. *)
Definition dq (s : str) : str := [dquote] ++ s ++ [dquote].
(** A text between back quotes. *)
Definition bq (s : str) : str := "`" ++ s ++ "`".

Definition unsupported_dockerfile_directive (name : str) : option str :=
  if decide (name = "MAINTAINER") then
    Some ("record authorship with `LABEL org.opencontainers.image.authors=...`" : str)
  else if decide (name = "HEALTHCHECK") then
    Some ("health checks are configured by the runtime, not the recipe" : str)
  else if decide (name = "ONBUILD") then
    Some ("umf has no build triggers; inline the steps in the consuming recipe" : str)
  else None.

Definition name_looks_secret (name : str) : bool :=
  let upper := to_ascii_uppercase name in
  existsb (fun needle => contains needle upper)
    [("PASSWORD" : str); ("TOKEN" : str); ("SECRET" : str); ("KEY" : str)].

Definition describe (k : TokenKind) : str :=
  match k with
  | TokenKind_Keyword _ => "a keyword"
  | TokenKind_Ident _ => "an identifier"
  | TokenKind_String _ => "a string"
  | TokenKind_Number _ => "a number"
  | TokenKind_Punct _ => "punctuation"
  | TokenKind_LongOption _ _ => "a long option"
  | TokenKind_Newline => "end of line"
  end.

Definition pair_span (st index : nat) (key value : Span) : Span :=
  if bool_decide (index = 0) then mkSpan st (end_ value) else mkSpan (start key) (end_ value).

Definition shell_keyword_argv (parts : list str) (sp : Span) : list (Spanned str) :=
  (fun p => mkSpanned p sp) <$> parts.

Definition is_local_path (s : str) : bool :=
  bool_decide (s = ".") || bool_decide (s = "..") || starts_with "./" s
  || starts_with "../" s || starts_with "/" s || starts_with "~/" s.

Definition looks_like_oci_ref (s : str) : bool := contains_byte ":" s || contains_byte "@" s.

(** ** Low-level token helpers *)

Definition p_peek (p : Parser) : option Token := p_tokens p !! p_pos p.
Definition p_peek_kind (p : Parser) : option TokenKind := kind <$> p_peek p.
Definition p_peek_punct (p : Parser) : option Punct :=
  match p_peek_kind p with Some (TokenKind_Punct x) => Some x | _ => None end.

Definition is_newline (t : Token) : bool :=
  match kind t with TokenKind_Newline => true | _ => false end.
Definition is_from (t : Token) : bool :=
  match kind t with TokenKind_Keyword KW_From => true | _ => false end.

Definition eof_span (p : Parser) : Span :=
  match last (p_tokens p) with
  | Some t => mkSpan (end_ (tok_span t)) (end_ (tok_span t))
  | None => mkSpan 0 0
  end.
Definition current_or_eof_span (p : Parser) : Span :=
  match p_peek p with Some t => tok_span t | None => eof_span p end.

(** [self.tokens[self.pos - 1].span.end], which panics past the end. *)
Definition last_consumed_end : P nat := fun p =>
  if bool_decide (p_pos p = 0) then Val (Some 0, p)
  else match p_tokens p !! (p_pos p - 1) with
       | Some t => Val (Some (end_ (tok_span t)), p)
       | None => Panic
       end.

Definition p_advance : P Token := fun p =>
  match p_tokens p !! p_pos p with
  | Some t => Val (Some t, set_p_pos (p_pos p + 1) p)
  | None => Val (None, p)
  end.

(** [self.advance();] as a statement. *)
Definition p_skip : P unit := _ ← try p_advance; mret tt.

Definition advance_or_err (msg hint : str) : P Token :=
  r ← try p_advance;
  match r with
  | Some tok =>
      if is_newline tok then
        sp ← gets eof_span;
        fail_with (with_hint (error msg (mkAnnotation sp "unexpected end of line")) hint)
      else mret tok
  | None =>
      sp ← gets eof_span;
      fail_with (with_hint (error msg (mkAnnotation sp "unexpected end of file")) hint)
  end.

Definition match_keyword (kw : Keyword) : P bool :=
  k ← gets p_peek_kind;
  if bool_decide (k = Some (TokenKind_Keyword kw)) then _ ← p_skip; mret true else mret false.

Definition expect_keyword (kw : Keyword) (msg hint : str) : P Token :=
  k ← gets p_peek_kind;
  if bool_decide (k = Some (TokenKind_Keyword kw)) then p_advance
  else
    sp ← gets current_or_eof_span;
    fail_with (error msg (mkAnnotation sp hint)).

(** The loops that only skip tokens: their length is that of the longest prefix
    of the remaining tokens that satisfies the loop condition. *)
Definition remaining (p : Parser) : list Token := drop (p_pos p) (p_tokens p).
Definition skip_newlines : P unit :=
  modify (fun p => set_p_pos (p_pos p + count_while is_newline (remaining p)) p).

(** Stops after the newline, or at the end of the input. *)
Definition recover_to_eol : P unit :=
  modify (fun p =>
    let n := count_while (fun t => negb (is_newline t)) (remaining p) in
    set_p_pos (p_pos p + n + match remaining p !! n with Some _ => 1 | None => 0 end) p).

Definition recover_to_next_stage : P unit :=
  modify (fun p => set_p_pos (p_pos p + count_while (fun t => negb (is_from t)) (remaining p)) p).

Definition expect_newline_after (directive : str) : P unit :=
  t ← gets p_peek;
  match t with
  | Some tok =>
      if is_newline tok then mret tt
      else
        _ ← push_err (error ("unexpected extra arguments for " ++ directive)
                        (mkAnnotation (tok_span tok) "expected end of line"));
        recover_to_eol
  | None => mret tt
  end.

(** The loop of the shell forms: consumes the line and returns the end of its
    last token, or [cmd_start] when there is none. *)
Definition slurp_line (cmd_start : nat) : P nat := fun p =>
  let line := take (count_while (fun t => negb (is_newline t)) (remaining p)) (remaining p) in
  let cmd_end := match last line with Some t => end_ (tok_span t) | None => cmd_start end in
  Val (Some cmd_end, set_p_pos (p_pos p + length line) p).

(** ** Shared helpers *)

Definition validated {T E} `{ValidationError E} (raw : str) (token_span : Span)
    (directive arg_label : str) (constructor : str -> result E T) : P (Spanned T) :=
  match constructor raw with
  | Ok v => mret (mkSpanned v token_span)
  | Err err =>
      d ← lift (from_validation_error err raw token_span directive arg_label);
      fail_with d
  end.

Definition is_value_word (t : Token) : bool :=
  match kind t with TokenKind_Ident _ | TokenKind_Number _ => true | _ => false end.

(** The loop of [splice_value]: end of the run of adjacent words and numbers,
    and the number of tokens in it. *)
Fixpoint splice_run (rest : list Token) (end0 : nat) : nat * nat :=
  match rest with
  | next :: rest' =>
      if bool_decide (start (tok_span next) = end0) && is_value_word next then
        let '(e, n) := splice_run rest' (end_ (tok_span next)) in (e, S n)
      else (end0, 0)
  | [] => (end0, 0)
  end.

Definition splice_value (first : Token) (first_text : str) : P (str * nat) :=
  match kind first with
  | TokenKind_String _ => mret (first_text, end_ (tok_span first))
  | _ =>
      r ← gets (fun p => splice_run (remaining p) (end_ (tok_span first)));
      _ ← modify (fun p => set_p_pos (p_pos p + r.2) p);
      text ← source_slice (start (tok_span first)) r.1;
      mret (text, r.1)
  end.

(** The text of a value token. *)
Definition value_text (k : TokenKind) : option str :=
  match k with
  | TokenKind_Ident s | TokenKind_String s => Some s
  | TokenKind_Number n => Some (to_decimal n)
  | _ => None
  end.

Definition parse_key_value (directive : str) : P (Spanned str * Spanned str * nat) :=
  key_tok ← advance_or_err ("expected key after " ++ directive) "syntax: `KEY=VALUE`";
  key_text ← match kind key_tok with
             | TokenKind_Ident s => mret s
             | TokenKind_Keyword _ =>
                 source_slice (start (tok_span key_tok)) (end_ (tok_span key_tok))
             | _ => fail_with (error ("expected key after " ++ directive)
                                 (mkAnnotation (tok_span key_tok) "expected an identifier"))
             end;
  let key := mkSpanned key_text (tok_span key_tok) in
  eq_tok ← advance_or_err "expected `=` between key and value" "syntax: `KEY=VALUE`";
  if negb (bool_decide (kind eq_tok = TokenKind_Punct Punct_Equals)) then
    fail_with (error "expected `=` between key and value"
                 (mkAnnotation (tok_span eq_tok) "missing `=`"))
  else
    val_tok ← advance_or_err "expected value after `=`"
                "value may be an identifier, number, or quoted string";
    match value_text (kind val_tok) with
    | None => fail_with (error "expected value after `=`"
                (mkAnnotation (tok_span val_tok) "expected identifier, number, or string"))
    | Some first_text =>
        '(val_text, end0) ← splice_value val_tok first_text;
        mret (key, mkSpanned val_text (mkSpan (start (tok_span val_tok)) end0), end0)
    end.

Fixpoint key_value_loop (fuel : nat) (directive : str) (pairs : list (Spanned str * Spanned str))
    : P (list (Spanned str * Spanned str)) :=
  match fuel with
  | 0 => lift OutOfFuel
  | S fuel' =>
      '(key, value, _) ← parse_key_value directive;
      let pairs := pairs ++ [(key, value)] in
      k ← gets p_peek_kind;
      match k with
      | Some (TokenKind_Ident _) => key_value_loop fuel' directive pairs
      | _ => mret pairs
      end
  end.

Definition parse_key_value_list (directive : str) : P (list (Spanned str * Spanned str)) :=
  with_fuel (fun fuel => key_value_loop fuel directive []).

Definition take_first_queue_rest (built : list Directive) : P Directive :=
  match built with
  | [] => none
  | first :: rest => _ ← modify (fun p => set_pending (p_pending p ++ rest) p); mret first
  end.

Definition expect_ident_arg (directive : str) : P (str * Span) :=
  tok ← advance_or_err ("expected argument after " ++ directive) "see the spec for accepted values";
  match kind tok with
  | TokenKind_Ident s => mret (s, tok_span tok)
  | _ => fail_with (error ("expected argument after " ++ directive)
                      (mkAnnotation (tok_span tok) "expected an identifier"))
  end.

(** ** Metadata directives *)

(** The loop of [parse_label] over the pairs, from index [i] on. *)
Fixpoint build_labels (st i : nat) (pairs : list (Spanned str * Spanned str)) : P (list Directive) :=
  match pairs with
  | [] => mret []
  | (raw_key, raw_value) :: pairs' =>
      key ← validated (value raw_key) (span raw_key) "LABEL" "key" LabelKey_new;
      val ← validated (value raw_value) (span raw_value) "LABEL" "value" LabelValue_new;
      let sp := pair_span st i (span key) (span val) in
      rest ← build_labels st (S i) pairs';
      mret (Directive_Label {| label_key := key; label_value := val; label_span := sp |} :: rest)
  end.

Definition parse_label (st : nat) : P Directive :=
  pairs ← parse_key_value_list "LABEL";
  _ ← expect_newline_after "LABEL";
  built ← build_labels st 0 pairs;
  take_first_queue_rest built.

Fixpoint build_envs (st i : nat) (pairs : list (Spanned str * Spanned str)) : P (list Directive) :=
  match pairs with
  | [] => mret []
  | (raw_key, raw_value) :: pairs' =>
      key ← validated (value raw_key) (span raw_key) "ENV" "key" EnvVarName_new;
      val ← validated (value raw_value) (span raw_value) "ENV" "value" EnvVarValue_new;
      let sp := pair_span st i (span key) (span val) in
      rest ← build_envs st (S i) pairs';
      mret (Directive_Env {| env_key := key; env_value := val; env_span := sp |} :: rest)
  end.

Definition parse_env (st : nat) : P Directive :=
  pairs ← parse_key_value_list "ENV";
  _ ← expect_newline_after "ENV";
  built ← build_envs st 0 pairs;
  take_first_queue_rest built.

(** The optional [=default] of [ARG]: the value and the end of the directive. *)
Definition parse_arg_default (name_end : nat) : P (option (Spanned EnvVarValue) * nat) :=
  x ← gets p_peek_punct;
  if bool_decide (x = Some Punct_Equals) then
    _ ← p_skip;
    val_tok ← advance_or_err "expected default value after `=`"
                "ARG default can be an identifier or quoted string";
    match value_text (kind val_tok) with
    | None => fail_with (error "expected default value"
                (mkAnnotation (tok_span val_tok) "expected identifier, number, or string"))
    | Some first_text =>
        '(val_text, end0) ← splice_value val_tok first_text;
        let sp := mkSpan (start (tok_span val_tok)) end0 in
        dflt ← validated val_text sp "ARG" "default" EnvVarValue_new;
        mret (Some dflt, end0)
    end
  else mret (None, name_end).

Definition secret_name_warning (name : str) (sp : Span) : Diagnostic :=
  with_hint
    (warning ("`ARG " ++ name ++ "` has a secret-shaped name; a build arg is not a secret channel")
       (mkAnnotation sp "secret-shaped ARG name"))
    "for sensitive material use `RUN --mount=type=secret,id=…`: it never enters a layer, the image history, or the cache key".

Definition parse_arg (st : nat) : P Directive :=
  name_tok ← advance_or_err "expected argument name after ARG"
               "ARG takes a name with an optional default — e.g. `ARG VERSION=1.0`";
  name_text ← match kind name_tok with
              | TokenKind_Ident s => mret s
              | TokenKind_Keyword _ =>
                  source_slice (start (tok_span name_tok)) (end_ (tok_span name_tok))
              | _ => fail_with (error "expected argument name after ARG"
                                  (mkAnnotation (tok_span name_tok) "expected an identifier"))
              end;
  name ← validated name_text (tok_span name_tok) "ARG" "name" EnvVarName_new;
  '(dflt, end0) ← parse_arg_default (end_ (span name));
  _ ← expect_newline_after "ARG";
  let sp := mkSpan st end0 in
  _ ← (if name_looks_secret (EnvVarName_0 (value name))
       then push_warning (secret_name_warning (EnvVarName_0 (value name)) sp) else mret tt);
  mret (Directive_Arg {| arg_name := name; arg_default := dflt; arg_span := sp |}).

(** ** Removed directives *)

Definition removed_directive (sp : Span) (name replacement : str) : P Directive :=
  fail_with (with_hint (error (bq name ++ " is not a UMF directive") (mkAnnotation sp "not a directive"))
               replacement).

(** ** Arrays of strings *)

(** The loop of [parse_string_array]; [array] names the form in diagnostics and
    [hint] is the hint of the two end-of-line errors.  [parse_entrypoint_exec]
    has the same loop with its own texts. *)
Fixpoint string_array_loop (fuel : nat) (array element hint : str) (items : list (Spanned str))
    : P (list (Spanned str) * nat) :=
  match fuel with
  | 0 => lift OutOfFuel
  | S fuel' =>
      tok ← advance_or_err ("expected string in " ++ array) hint;
      match kind tok with
      | TokenKind_String s =>
          let items := items ++ [mkSpanned s (tok_span tok)] in
          sep ← advance_or_err ("expected `,` or `]` in " ++ array) hint;
          match kind sep with
          | TokenKind_Punct Punct_Comma => string_array_loop fuel' array element hint items
          | TokenKind_Punct Punct_RBracket => mret (items, end_ (tok_span sep))
          | _ => fail_with (error ("expected `,` or `]` in " ++ array)
                              (mkAnnotation (tok_span sep) "unexpected token here"))
          end
      | _ => fail_with (error ("expected quoted string in " ++ array)
                          (mkAnnotation (tok_span tok) element))
      end
  end.

Definition parse_string_array (directive : str) : P (list (Spanned str) * nat) :=
  lbracket ← p_advance;
  k ← gets p_peek_kind;
  if bool_decide (k = Some (TokenKind_Punct Punct_RBracket)) then
    tok ← p_advance;
    fail_with (error (directive ++ " array form requires at least one element")
                 (mkAnnotation (mkSpan (start (tok_span lbracket)) (end_ (tok_span tok)))
                    "expected a quoted string before `]`"))
  else
    with_fuel (fun fuel =>
      string_array_loop fuel (directive ++ " array form") "each element must be a quoted string"
        ("array form: [" ++ dq "a" ++ ", " ++ dq "b" ++ ", ...]") []).

(** ** Build-step directives *)

Definition parse_shell (st : nat) : P Directive :=
  k ← gets p_peek_kind;
  '(argv, end0) ←
    (if bool_decide (k = Some (TokenKind_Punct Punct_LBracket)) then parse_string_array "SHELL"
     else
       '(text, sp) ← expect_ident_arg "SHELL";
       argv ← (if decide (text = bytes_of "bash") then
                 mret (shell_keyword_argv [("/bin/bash" : str); ("-c" : str)] sp)
               else if decide (text = bytes_of "sh") then
                 mret (shell_keyword_argv [("/bin/sh" : str); ("-c" : str)] sp)
               else if decide (text = bytes_of "powershell") then
                 mret (shell_keyword_argv [("powershell" : str); ("-command" : str)] sp)
               else if decide (text = bytes_of "none") then mret []
               else fail_with (error ("unknown SHELL value " ++ bq text)
                      (mkAnnotation sp
                         ("SHELL accepts `bash`, `sh`, `powershell`, `none`, or an exec array like `["
                          ++ dq "/bin/bash" ++ ", " ++ dq "-c" ++ "]`"))));
       mret (argv, end_ sp));
  _ ← expect_newline_after "SHELL";
  mret (Directive_Shell {| shell_argv := argv; shell_span := mkSpan st end0 |}).

Definition parse_user (st : nat) : P Directive :=
  '(text, sp) ← expect_ident_arg "USER";
  name ← validated text sp "USER" "name" Username_new;
  _ ← expect_newline_after "USER";
  mret (Directive_User {| user_name := name; user_span := mkSpan st (end_ sp) |}).

Definition parse_workdir (st : nat) : P Directive :=
  '(text, sp) ← expect_ident_arg "WORKDIR";
  path ← validated text sp "WORKDIR" "path" RecipePath_new;
  _ ← expect_newline_after "WORKDIR";
  mret (Directive_Workdir {| workdir_path := path; workdir_span := mkSpan st (end_ sp) |}).

(** *** RUN *)

(** The keys of a [--mount] value; the last occurrence of each wins. *)
Record mount_fields := { mf_type : option str; mf_id : option str; mf_target : option str }.

Definition mount_pair (m : mount_fields) (pair : str) : mount_fields :=
  let '(key, val) := match split_once "=" pair with Some kv => kv | None => (pair, []) end in
  if decide (key = bytes_of "type") then
    {| mf_type := Some val; mf_id := mf_id m; mf_target := mf_target m |}
  else if decide (key = bytes_of "id") then
    {| mf_type := mf_type m; mf_id := Some val; mf_target := mf_target m |}
  else if decide (key = bytes_of "target") then
    {| mf_type := mf_type m; mf_id := mf_id m; mf_target := Some val |}
  else m.

Definition mount_error {A} (d : Diagnostic) : outcome (result Diagnostic A) := Val (Err d).

(** [RecipePath::new] on the optional target. *)
Definition mount_target (target : option str) (sp : Span)
    : outcome (result Diagnostic (option (Spanned RecipePath))) :=
  match target with
  | None => Val (Ok None)
  | Some t =>
      match RecipePath_new t with
      | Ok p => Val (Ok (Some (mkSpanned p sp)))
      | Err err =>
          d ← from_validation_error err t sp "RUN --mount=type=secret" "target";
          mount_error d
      end
  end.

Definition secret_mount (id target : option str) (sp : Span) : outcome (result Diagnostic RunMount) :=
  match id with
  | None =>
      mount_error (with_hint (error "RUN --mount=type=secret requires an id"
                                (mkAnnotation sp "expected id=<id>"))
                     "example: `--mount=type=secret,id=signing-key`")
  | Some raw_id =>
      match SecretId_new raw_id with
      | Err err =>
          d ← from_validation_error err raw_id sp "RUN --mount=type=secret" "id";
          mount_error d
      | Ok sid =>
          t ← mount_target target sp;
          match t with
          | Err d => mount_error d
          | Ok target =>
              Val (Ok {| mount_kind := RunMountKind_Secret (mkSpanned sid sp) target;
                         mount_span := sp |})
          end
      end
  end.

Definition parse_run_mount_value (val : str) (sp : Span) : outcome (result Diagnostic RunMount) :=
  let m := fold_left mount_pair (split "," val) {| mf_type := None; mf_id := None; mf_target := None |} in
  match mf_type m with
  | Some kind_str =>
      if decide (kind_str = bytes_of "secret") then secret_mount (mf_id m) (mf_target m) sp
      else
        mount_error (with_hint (error "unsupported --mount type"
                       (mkAnnotation sp ("type=" ++ kind_str ++ " is not yet supported")))
                       "only `type=secret` is implemented in this release")
  | None =>
      mount_error (with_hint (error "RUN --mount requires type=..."
                                (mkAnnotation sp "expected type=<kind>"))
                     "example: `--mount=type=secret,id=k`")
  end.

(** The [while let] loop over the leading long options of [RUN]. *)
Fixpoint run_mounts_loop (fuel : nat) (mounts : list RunMount) : P (list RunMount) :=
  match fuel with
  | 0 => lift OutOfFuel
  | S fuel' =>
      k ← gets p_peek_kind;
      match k with
      | Some (TokenKind_LongOption name _) =>
          if negb (bool_decide (name = bytes_of "mount")) then
            sp ← gets current_or_eof_span;
            fail_with (with_hint (error ("unsupported RUN option `--" ++ name ++ "`")
                                    (mkAnnotation sp "not supported"))
                         "`RUN` accepts `--mount=type=secret,id=<id>,target=<path>`")
          else
            tok ← p_advance;
            match kind tok with
            | TokenKind_LongOption _ (Some v) =>
                r ← lift (parse_run_mount_value v (tok_span tok));
                match r with
                | Ok m => run_mounts_loop fuel' (mounts ++ [m])
                | Err diag => fail_with diag
                end
            | TokenKind_LongOption _ None =>
                fail_with (with_hint (error "RUN --mount requires a value"
                             (mkAnnotation (tok_span tok) "expected --mount=type=<kind>,..."))
                             "example: `RUN --mount=type=secret,id=k,target=/run/secrets/k cat /run/secrets/k`")
            | _ => run_mounts_loop fuel' mounts
            end
      | _ => mret mounts
      end
  end.

Definition parse_run (st : nat) : P Directive :=
  mounts ← with_fuel (fun fuel => run_mounts_loop fuel []);
  first ← gets p_peek;
  match first with
  | None =>
      sp ← gets eof_span;
      fail_with (error "expected command after RUN"
                   (mkAnnotation sp "RUN must be followed by a command"))
  | Some first_tok =>
      if is_newline first_tok then
        fail_with (error "expected command after RUN"
                     (mkAnnotation (tok_span first_tok) "RUN must be followed by a command"))
      else
        let cmd_start := start (tok_span first_tok) in
        if bool_decide (kind first_tok = TokenKind_Punct Punct_LBracket) then
          '(argv, end0) ← parse_string_array "RUN";
          _ ← expect_newline_after "RUN";
          mret (Directive_Run {| run_command := RunCommand_Exec argv; run_mounts := mounts;
                                 run_span := mkSpan st end0 |})
        else
          cmd_end ← slurp_line cmd_start;
          raw ← source_slice cmd_start cmd_end;
          _ ← expect_newline_after "RUN";
          mret (Directive_Run
                  {| run_command := RunCommand_Shell (mkSpanned raw (mkSpan cmd_start cmd_end));
                     run_mounts := mounts; run_span := mkSpan st cmd_end |})
  end.

(** *** ADD and COPY *)

Definition add_option_hint (verb name : str) : str :=
  if bool_decide (name = bytes_of "chown") || bool_decide (name = bytes_of "chmod") then
    "`" ++ verb ++ " --" ++ name ++ "` is not implemented yet; set ownership or mode in a following `RUN chown …` / `RUN chmod …` step"
  else bq verb ++ " accepts `--from=<stage>`".

(** The [while let] loop over the leading long options of [ADD]. *)
Fixpoint add_options_loop (fuel : nat) (verb : str) (from : option (Spanned StageName))
    : P (option (Spanned StageName)) :=
  match fuel with
  | 0 => lift OutOfFuel
  | S fuel' =>
      k ← gets p_peek_kind;
      match k with
      | Some (TokenKind_LongOption _ _) =>
          tok ← p_advance;
          match kind tok with
          | TokenKind_LongOption name value =>
              if negb (bool_decide (name = bytes_of "from")) then
                fail_with (with_hint (error ("unsupported " ++ verb ++ " option `--" ++ name ++ "`")
                                        (mkAnnotation (tok_span tok) "not supported"))
                             (add_option_hint verb name))
              else
                match value with
                | None =>
                    fail_with (with_hint (error (verb ++ " --from requires a value")
                                 (mkAnnotation (tok_span tok) "expected --from=<stage>"))
                                 ("example: `" ++ verb ++ " --from=builder /src /dst`"))
                | Some v =>
                    f ← validated v (tok_span tok) verb "--from stage name" StageName_new;
                    add_options_loop fuel' verb (Some f)
                end
          | _ => add_options_loop fuel' verb from
          end
      | _ => mret from
      end
  end.

(** The source classified by scheme and shape. *)
Definition classify_source (src_text : str) (sp : Span) (verb : str) : P AddSource :=
  match match strip_prefix "oci://" src_text with
        | Some rest => Some rest
        | None => strip_prefix "https+oci://" src_text
        end with
  | Some rest =>
      r ← validated rest sp verb "OCI image reference" OciReference_new_allowing_placeholders;
      mret (AddSource_Oci r)
  | None =>
      if starts_with "http://" src_text || starts_with "https://" src_text then
        u ← validated src_text sp verb "source URL" HttpsUrl_new_allowing_placeholders;
        mret (AddSource_Url u)
      else if is_local_path src_text then mret (AddSource_Path (mkSpanned src_text sp))
      else if looks_like_oci_ref src_text then
        r ← validated src_text sp verb "OCI image reference" OciReference_new_allowing_placeholders;
        mret (AddSource_Oci r)
      else mret (AddSource_Path (mkSpanned src_text sp))
  end.

Definition ident_or_string (k : TokenKind) : option str :=
  match k with TokenKind_Ident s | TokenKind_String s => Some s | _ => None end.

Definition parse_add (st : nat) (plain_copy : bool) : P Directive :=
  let verb : str := if plain_copy then "COPY" else "ADD" in
  from ← with_fuel (fun fuel => add_options_loop fuel verb None);
  src_tok ← advance_or_err ("expected source after " ++ verb)
              (verb ++ " takes <source> <destination>");
  match ident_or_string (kind src_tok) with
  | None => fail_with (error ("expected source path after " ++ verb)
                         (mkAnnotation (tok_span src_tok) "expected identifier or string"))
  | Some src_text =>
      src ← classify_source src_text (tok_span src_tok) verb;
      dst_tok ← advance_or_err "expected destination after source"
                  (verb ++ " takes <source> <destination>");
      match ident_or_string (kind dst_tok) with
      | None => fail_with (error "expected destination path after source"
                             (mkAnnotation (tok_span dst_tok) "expected identifier or string"))
      | Some dst_text =>
          destination ← validated dst_text (tok_span dst_tok) verb "destination" RecipePath_new;
          let end0 := end_ (span destination) in
          _ ← expect_newline_after verb;
          mret (Directive_Add {| add_source := src; add_destination := destination;
                                 add_from := from; add_plain_copy := plain_copy;
                                 add_span := mkSpan st end0 |})
      end
  end.

(** ** Runtime-config directives *)

Definition parse_entrypoint_shell_path : P (EntrypointInit * nat) :=
  cmd_start ← gets (fun p => match p_peek p with
                             | Some t => start (tok_span t)
                             | None => start (eof_span p)
                             end);
  cmd_end ← slurp_line cmd_start;
  raw ← source_slice cmd_start cmd_end;
  mret (EntrypointInit_Path (mkSpanned raw (mkSpan cmd_start cmd_end)), cmd_end).

Definition parse_entrypoint_exec : P (EntrypointInit * nat) :=
  lbracket ← p_advance;
  k ← gets p_peek_kind;
  if bool_decide (k = Some (TokenKind_Punct Punct_RBracket)) then
    tok ← p_advance;
    fail_with (error "ENTRYPOINT exec form requires at least one argument"
                 (mkAnnotation (mkSpan (start (tok_span lbracket)) (end_ (tok_span tok)))
                    "expected a quoted string before `]`"))
  else
    '(argv, end0) ← with_fuel (fun fuel =>
      string_array_loop fuel "ENTRYPOINT exec form" "each argv entry must be a quoted string"
        ("ENTRYPOINT exec form: [" ++ dq "argv0" ++ ", " ++ dq "argv1" ++ ", ...]") []);
    mret (EntrypointInit_Exec argv, end0).

(** The keyword forms: [systemd], [openrc] and [none]. *)
Definition parse_entrypoint_keyword (s : str) : P (EntrypointInit * nat) :=
  tok ← p_advance;
  init ← (if decide (s = bytes_of "systemd") then mret EntrypointInit_Systemd
          else if decide (s = bytes_of "openrc") then mret EntrypointInit_OpenRc
          else if decide (s = bytes_of "none") then mret EntrypointInit_None
          else fail_with (with_hint (error ("unknown ENTRYPOINT value " ++ bq s)
                 (mkAnnotation (tok_span tok)
                    "ENTRYPOINT keyword must be `systemd`, `openrc`, or `none`"))
                 ("to run a binary as PID 1, use a leading `/` (e.g. `ENTRYPOINT /myapp`) or exec form `ENTRYPOINT ["
                  ++ dq "/myapp" ++ ", ...]`")));
  mret (init, end_ (tok_span tok)).

(** The forms of [ENTRYPOINT], by the first token. *)
Definition parse_entrypoint_form (first_kind : TokenKind) : P (EntrypointInit * nat) :=
  match first_kind with
  | TokenKind_Punct Punct_LBracket => parse_entrypoint_exec
  | TokenKind_Ident s =>
      if starts_with "/" s then parse_entrypoint_shell_path else parse_entrypoint_keyword s
  | _ =>
      tok ← p_advance;
      fail_with (error "expected ENTRYPOINT argument"
                   (mkAnnotation (tok_span tok)
                      "expected `systemd`/`openrc`/`none`, a `/path`, or exec form"))
  end.

Definition parse_entrypoint_rest (st : nat) (first_kind : TokenKind) : P Directive :=
  '(init, end0) ← parse_entrypoint_form first_kind;
  _ ← expect_newline_after "ENTRYPOINT";
  mret (Directive_Entrypoint {| entrypoint_init := init; entrypoint_span := mkSpan st end0 |}).

Definition parse_entrypoint (st : nat) : P Directive :=
  k ← gets p_peek_kind;
  match k with
  | None | Some TokenKind_Newline =>
      sp ← gets current_or_eof_span;
      fail_with (with_hint (error "expected argument after ENTRYPOINT"
                              (mkAnnotation sp "ENTRYPOINT requires a value"))
                   ("accepted: `systemd` | `openrc` | `none` | `/path/to/bin [args]` | `["
                    ++ dq "argv0" ++ ", ...]`"))
  | Some first_kind => parse_entrypoint_rest st first_kind
  end.

(** The two forms of the command, by the first token. *)
Definition parse_cmd_form (first_kind : TokenKind) : P (CmdForm * nat) :=
  if bool_decide (first_kind = TokenKind_Punct Punct_LBracket) then
    '(argv, end0) ← parse_string_array "CMD";
    mret (CmdForm_Exec argv, end0)
  else
    cmd_start ← gets (fun p => match p_peek p with
                               | Some t => start (tok_span t)
                               | None => start (eof_span p)
                               end);
    cmd_end ← slurp_line cmd_start;
    raw ← source_slice cmd_start cmd_end;
    mret (CmdForm_Shell (mkSpanned raw (mkSpan cmd_start cmd_end)), cmd_end).

Definition parse_cmd_rest (st : nat) (first_kind : TokenKind) : P Directive :=
  '(command, end0) ← parse_cmd_form first_kind;
  _ ← expect_newline_after "CMD";
  mret (Directive_Cmd {| cmd_command := command; cmd_span := mkSpan st end0 |}).

Definition parse_cmd (st : nat) : P Directive :=
  k ← gets p_peek_kind;
  match k with
  | None | Some TokenKind_Newline =>
      sp ← gets current_or_eof_span;
      fail_with (with_hint (error "expected a command after CMD" (mkAnnotation sp "CMD requires a value"))
                   ("`CMD <command>` (shell form) or `CMD [" ++ dq "argv0" ++ ", ...]` (exec form)"))
  | Some first_kind => parse_cmd_rest st first_kind
  end.

(** The loop over space-separated mount points. *)
Fixpoint volume_loop (fuel : nat) (paths : list (Spanned str)) (end0 : nat)
    : P (list (Spanned str) * nat) :=
  match fuel with
  | 0 => lift OutOfFuel
  | S fuel' =>
      t ← gets p_peek;
      match t with
      | None => mret (paths, end0)
      | Some tok =>
          match kind tok with
          | TokenKind_Newline => mret (paths, end0)
          | TokenKind_Ident s | TokenKind_String s =>
              _ ← p_skip;
              volume_loop fuel' (paths ++ [mkSpanned s (tok_span tok)]) (end_ (tok_span tok))
          | _ => fail_with (error "expected a path after VOLUME"
                              (mkAnnotation (tok_span tok) "VOLUME takes mount-point paths"))
          end
      end
  end.

Definition parse_volume_rest (st : nat) (first_kind : TokenKind) : P Directive :=
  '(paths, end0) ←
    (if bool_decide (first_kind = TokenKind_Punct Punct_LBracket) then parse_string_array "VOLUME"
     else with_fuel (fun fuel => volume_loop fuel [] st));
  _ ← expect_newline_after "VOLUME";
  mret (Directive_Volume {| volume_paths := paths; volume_span := mkSpan st end0 |}).

Definition parse_volume (st : nat) : P Directive :=
  k ← gets p_peek_kind;
  match k with
  | None | Some TokenKind_Newline =>
      sp ← gets current_or_eof_span;
      fail_with (error "expected a path after VOLUME"
                   (mkAnnotation sp "VOLUME requires at least one mount point"))
  | Some first_kind => parse_volume_rest st first_kind
  end.

Definition parse_stopsignal (st : nat) : P Directive :=
  tok ← advance_or_err "expected a signal after STOPSIGNAL"
          "e.g. `STOPSIGNAL SIGTERM` or `STOPSIGNAL 15`";
  match match kind tok with
        | TokenKind_Ident s => Some s
        | TokenKind_Number n => Some (to_decimal n)
        | _ => None
        end with
  | None => fail_with (error "expected a signal after STOPSIGNAL"
                         (mkAnnotation (tok_span tok) "expected a signal name or number"))
  | Some signal =>
      _ ← expect_newline_after "STOPSIGNAL";
      mret (Directive_Stopsignal {| stopsignal_signal := mkSpanned signal (tok_span tok);
                                    stopsignal_span := mkSpan st (end_ (tok_span tok)) |})
  end.

(** *** EXPOSE *)

Definition protocol_of (text : str) : option ExposeProtocol :=
  if decide (text = "tcp") then Some ExposeProtocol_Tcp
  else if decide (text = "udp") then Some ExposeProtocol_Udp
  else None.

Definition parse_expose_entry : P (N * ExposeProtocol * Span) :=
  port_tok ← advance_or_err "expected port number after EXPOSE"
               "EXPOSE takes `<port>[/<protocol>]` — e.g. `EXPOSE 80` or `EXPOSE 80/tcp`";
  port ← match kind port_tok with
         | TokenKind_Number n =>
             if (n <=? u16_max)%N then mret n
             else fail_with (error ("port " ++ to_decimal n ++ " out of range")
                               (mkAnnotation (tok_span port_tok) "ports must fit in u16 (0..=65535)"))
         | _ => fail_with (error "expected port number after EXPOSE"
                             (mkAnnotation (tok_span port_tok) "expected a number"))
         end;
  k ← gets p_peek_kind;
  let has_proto := match k with Some (TokenKind_Ident s) => starts_with "/" s | _ => false end in
  if negb has_proto then mret (port, ExposeProtocol_Tcp, tok_span port_tok)
  else
    proto_tok ← advance_or_err "expected `/<protocol>` after port"
                  "EXPOSE syntax: `EXPOSE <port>/<protocol>`";
    match kind proto_tok with
    | TokenKind_Ident proto_text =>
        let stripped := default proto_text (strip_prefix "/" proto_text) in
        match protocol_of stripped with
        | Some protocol =>
            mret (port, protocol, mkSpan (start (tok_span port_tok)) (end_ (tok_span proto_tok)))
        | None => fail_with (error ("unknown protocol " ++ bq stripped)
                               (mkAnnotation (tok_span proto_tok) "EXPOSE accepts `/tcp` or `/udp`"))
        end
    | _ => fail_with (error "expected `/<protocol>` after port"
                        (mkAnnotation (tok_span proto_tok) "expected `/tcp` or `/udp`"))
    end.

Fixpoint expose_loop (fuel : nat) (st : nat) (built : list Directive) : P (list Directive) :=
  match fuel with
  | 0 => lift OutOfFuel
  | S fuel' =>
      '(port, protocol, espan) ← parse_expose_entry;
      let sp := match built with [] => mkSpan st (end_ espan) | _ => espan end in
      let built := built ++ [Directive_Expose {| expose_port := port; expose_protocol := protocol;
                                                 expose_span := sp |}] in
      k ← gets p_peek_kind;
      match k with
      | Some (TokenKind_Number _) => expose_loop fuel' st built
      | _ => mret built
      end
  end.

Definition parse_expose (st : nat) : P Directive :=
  built ← with_fuel (fun fuel => expose_loop fuel st []);
  _ ← expect_newline_after "EXPOSE";
  take_first_queue_rest built.

(** ** Dispatch *)

(** The [match kw] of [parse_directive], after the keyword token [tok]. *)
Definition dispatch (tok : Token) (kw : Keyword) : P Directive :=
  let st := start (tok_span tok) in
  match kw with
  | KW_From => fail_with (error "unexpected FROM inside a stage"
                 (mkAnnotation (tok_span tok) "FROM starts a new stage and cannot be nested"))
  | KW_As => fail_with (error "AS is only valid in a FROM clause"
               (mkAnnotation (tok_span tok) "remove or move into the FROM line"))
  | KW_Label => parse_label st
  | KW_Env => parse_env st
  | KW_Arg => parse_arg st
  | KW_Bootloader => removed_directive (tok_span tok) "BOOTLOADER"
      "set boot packaging with `LABEL org.imagilux.umf.flavor=systemd-boot|uki` instead"
  | KW_Rootfs => removed_directive (tok_span tok) "ROOTFS"
      "add the userland with `ADD --from=<ref> / /` instead"
  | KW_Shell => parse_shell st
  | KW_User => parse_user st
  | KW_Workdir => parse_workdir st
  | KW_Run => parse_run st
  | KW_Add => parse_add st false
  | KW_Copy => parse_add st true
  | KW_Entrypoint => parse_entrypoint st
  | KW_Expose => parse_expose st
  | KW_Enable => removed_directive (tok_span tok) "ENABLE"
      "enable the unit directly instead: `ADD`/`COPY` the `.service` file (or let the package manager place it), or `RUN systemctl enable <unit>`"
  | KW_Disable => removed_directive (tok_span tok) "DISABLE"
      "act on the unit directly instead: remove/mask it, or `RUN systemctl disable <unit>`"
  | KW_Hostname => removed_directive (tok_span tok) "HOSTNAME"
      "set the hostname at first boot with cloud-init / ignition instead"
  | KW_Locale => removed_directive (tok_span tok) "LOCALE"
      "set the locale at first boot with cloud-init / ignition instead"
  | KW_Timezone => removed_directive (tok_span tok) "TIMEZONE"
      "set the timezone at first boot with cloud-init / ignition instead"
  | KW_Cmd => parse_cmd st
  | KW_Volume => parse_volume st
  | KW_Stopsignal => parse_stopsignal st
  end.

Definition parse_directive : P Directive :=
  t ← gets p_peek;
  match t with
  | None => none
  | Some tok =>
      match kind tok with
      | TokenKind_Keyword kw => _ ← p_skip; dispatch tok kw
      | k =>
          match match k with TokenKind_Ident name => option_map (pair name) (unsupported_dockerfile_directive name) | _ => None end with
          | Some (name, hint) =>
              _ ← push_warning (with_hint
                    (warning (bq name ++ " is not supported by umf and is ignored")
                       (mkAnnotation (tok_span tok) "unsupported directive, skipped")) hint);
              none
          | None =>
              fail_with (error "expected a directive keyword"
                           (mkAnnotation (tok_span tok) ("found " ++ describe k ++ " here")))
          end
      end
  end.

(** ** Stages and the top level *)

(** [None | Some(TokenKind::Keyword(Keyword::From)) => break]. *)
Definition ends_stage (k : option TokenKind) : bool :=
  match k with None | Some (TokenKind_Keyword KW_From) => true | _ => false end.

(** The directive loop of [parse_stage]. *)
Fixpoint stage_loop (fuel : nat) (directives : list Directive) : P (list Directive) :=
  match fuel with
  | 0 => lift OutOfFuel
  | S fuel' =>
      _ ← skip_newlines;
      k ← gets p_peek_kind;
      if ends_stage k then mret directives
      else
        d ← try parse_directive;
        directives ← match d with
                     | Some d =>
                         pending ← gets p_pending;
                         _ ← modify (set_pending []);
                         mret (directives ++ [d] ++ pending)
                     | None => _ ← recover_to_eol; mret directives
                     end;
        n ← gets (fun p => length (p_errors p));
        if bool_decide (MAX_COLLECTED_DIAGNOSTICS < n) then mret directives
        else stage_loop fuel' directives
  end.

(** The reference of [FROM]. *)
Definition parse_from_source (arg_ident : str) (sp : Span) : P FromSource :=
  if decide (arg_ident = "scratch") then mret FromSource_Scratch
  else
    oci ← validated arg_ident sp "FROM" "reference" OciReference_new_allowing_placeholders;
    mret (FromSource_Reference oci).

(** The optional [AS <name>]: the name and the end of the [FROM] line. *)
Definition parse_stage_name (arg_end : nat) : P (option (Spanned StageName) * nat) :=
  has_as ← match_keyword KW_As;
  if has_as : bool then
    name_tok ← advance_or_err "expected stage name after AS"
                 "use a bare identifier — e.g. `FROM debian:bookworm AS builder`";
    match kind name_tok with
    | TokenKind_Ident name_text =>
        name ← validated name_text (tok_span name_tok) "AS" "stage name" StageName_new;
        mret (Some name, end_ (tok_span name_tok))
    | _ => fail_with (error "expected stage name after AS"
                        (mkAnnotation (tok_span name_tok) "expected an identifier"))
    end
  else mret (None, arg_end).

Definition parse_stage : P Stage :=
  from_kw ← expect_keyword KW_From "expected FROM at start of stage"
              "every UMF stage must begin with a FROM directive";
  let stage_start := start (tok_span from_kw) in
  arg_tok ← advance_or_err "expected reference after FROM"
    "FROM takes either an OCI image reference (e.g. `debian:bookworm`) or `scratch`";
  match kind arg_tok with
  | TokenKind_Ident arg_ident =>
      src ← parse_from_source arg_ident (tok_span arg_tok);
      '(name, after_name_end) ← parse_stage_name (end_ (tok_span arg_tok));
      let from := {| from_source := src; from_span := mkSpan stage_start after_name_end |} in
      _ ← expect_newline_after "FROM";
      directives ← with_fuel (fun fuel => stage_loop fuel []);
      last_end ← last_consumed_end;
      mret {| stage_from := from; stage_name := name; stage_directives := directives;
              stage_span := mkSpan stage_start (max last_end after_name_end) |}
  | _ =>
      fail_with (with_hint (error "expected reference after FROM"
                   (mkAnnotation (tok_span arg_tok) "expected an identifier or `scratch`"))
                   "example: `FROM debian:bookworm`")
  end.

Fixpoint global_args_loop (fuel : nat) : P unit :=
  match fuel with
  | 0 => lift OutOfFuel
  | S fuel' =>
      _ ← skip_newlines;
      t ← gets p_peek;
      match t with
      | None => mret tt
      | Some tok =>
          match kind tok with
          | TokenKind_Keyword KW_Arg =>
              _ ← p_skip;
              d ← try (parse_arg (start (tok_span tok)));
              _ ← match d with
                  | Some (Directive_Arg arg) => modify (add_global_arg arg)
                  | _ => recover_to_eol
                  end;
              global_args_loop fuel'
          | TokenKind_Keyword KW_From => mret tt
          | k =>
              push_err (with_hint (error "only ARG may appear before FROM"
                          (mkAnnotation (tok_span tok)
                             ("found " ++ describe k ++ " before the first FROM")))
                          "ARG is the only directive allowed before FROM; move this after the FROM line")
          end
      end
  end.

Definition parse_global_args : P unit := with_fuel global_args_loop.

Fixpoint top_loop (fuel : nat) : P unit :=
  match fuel with
  | 0 => lift OutOfFuel
  | S fuel' =>
      more ← gets (fun p => bool_decide (p_pos p < length (p_tokens p)));
      if negb more then mret tt
      else
        s ← try parse_stage;
        _ ← match s with
            | Some stage => modify (add_stage stage)
            | None => recover_to_next_stage
            end;
        _ ← skip_newlines;
        n ← gets (fun p => length (p_errors p));
        if bool_decide (MAX_COLLECTED_DIAGNOSTICS < n) then mret tt else top_loop fuel'
  end.

Definition parse_top : P unit :=
  _ ← skip_newlines;
  _ ← parse_global_args;
  with_fuel top_loop.

(** [grammar::parse]. *)
Definition grammar_parse (src : str) (toks : list Token)
    : outcome (result (list Diagnostic) (Ast * list Diagnostic)) :=
  '(_, p) ← parse_top (Parser_new src toks);
  match p_errors p with
  | [] => Val (Ok ({| global_args := p_global_args p; stages := p_stages p |}, p_warnings p))
  | _ => Val (Err (p_errors p))
  end.

(** Scanning and parsing a text, for the examples. *)
Definition parse_text (src : str) : outcome (result (list Diagnostic) (Ast * list Diagnostic)) :=
  '(toks, _) ← tokenize src; grammar_parse src toks.

Example grammar_ex :
  match parse_text ("ARG V=1.0" ++ [lf] ++ "FROM a:${V} AS b" ++ [lf] ++ "ENV A=1 B=x" ++ [lf]
                    ++ "RUN echo hi  there" ++ [lf] ++ "EXPOSE 80 443/udp" ++ [lf]) with
  | Val (Ok (ast, [])) =>
      (length (global_args ast),
       (fun s => (length (stage_directives s), Directive_span <$> stage_directives s)) <$> stages ast)
  | _ => (0, [])
  end = (1, [(5, [mkSpan 27 34; mkSpan 35 38; mkSpan 39 57; mkSpan 58 67; mkSpan 68 75])]).
Proof. vm_compute. reflexivity. Qed.
