(* ===== verification/GrammarFacts.v ===== *)
(** * GrammarFacts: a total-correctness calculus for the parser monad, and the
    well-formedness of everything the parser produces. *)

From S2P Require Import Prelude RustStr RustStrFacts Subst Validation Identifiers Paths OciRef.
From S2P Require Import Ast Diagnostics Lexer Grammar.

(** ** Well-formed syntax trees *)

(** A value its newtype's constructor accepts. *)
Definition valid {T E} `{NewType T E} (v : T) : Prop := new (as_str v) = Ok v.

Lemma valid_new {T E} `{NewType T E} raw (v : T) : new raw = Ok v -> valid v.
Proof. intros Hn. unfold valid. by rewrite (new_as_str raw v Hn). Qed.

Lemma url_placeholder_raw raw u :
  HttpsUrl_new_allowing_placeholders raw = Ok u -> HttpsUrl_new_allowing_placeholders (url_raw u) = Ok u.
Proof.
  intros H. assert (HttpsUrl_new raw = Ok u) as HN.
  { unfold HttpsUrl_new_allowing_placeholders in H. by destruct (negb _). }
  apply HttpsUrl_new_Ok in HN as (-> & _). done.
Qed.

Lemma oci_placeholder_raw raw v :
  OciReference_new_allowing_placeholders raw = Ok v ->
  OciReference_new_allowing_placeholders (oci_raw v) = Ok v.
Proof.
  intros H. assert (oci_raw v = raw) as ->; [|done].
  unfold OciReference_new_allowing_placeholders in H. destruct (negb _).
  - exact (new_as_str (T := OciReference) raw v H).
  - case_bool_decide; [done|]. destruct (find_byte nul raw); [done|]. by injection H as <-.
Qed.

Section tree.
Context (src : str).

Definition span_in (sp : Span) : Prop := start sp <= end_ sp <= length src.

(** A text taken verbatim from the source at its span, and not empty. *)
Definition verbatim (s : Spanned str) : Prop :=
  value s <> [] /\ slice src (start (span s)) (end_ (span s)) = Some (value s).

Definition arg_ok (a : Arg) : Prop :=
  valid (value (arg_name a)) /\ (forall d, arg_default a = Some d -> valid (value d))
  /\ span_in (arg_span a).

Definition mount_ok (m : RunMount) : Prop :=
  match mount_kind m with
  | RunMountKind_Secret id target =>
      valid (value id) /\ (forall t, target = Some t -> valid (value t))
  end.

Definition source_ok (a : AddSource) : Prop :=
  match a with
  | AddSource_Url u => HttpsUrl_new_allowing_placeholders (url_raw (value u)) = Ok (value u)
  | AddSource_Oci r => OciReference_new_allowing_placeholders (oci_raw (value r)) = Ok (value r)
  | AddSource_Path p =>
      is_local_path (value p) = true \/ looks_like_oci_ref (value p) = false
  end.

Definition directive_ok (d : Directive) : Prop :=
  span_in (Directive_span d) /\
  match d with
  | Directive_Label l => valid (value (label_key l)) /\ valid (value (label_value l))
  | Directive_Env e => valid (value (env_key e)) /\ valid (value (env_value e))
  | Directive_Arg a => arg_ok a
  | Directive_Shell _ => True
  | Directive_User u => valid (value (user_name u))
  | Directive_Workdir w => valid (value (workdir_path w))
  | Directive_Run r =>
      Forall mount_ok (run_mounts r)
      /\ match run_command r with
         | RunCommand_Shell s => verbatim s
         | RunCommand_Exec l => l <> []
         end
  | Directive_Add a =>
      source_ok (add_source a) /\ valid (value (add_destination a))
      /\ (forall f, add_from a = Some f -> valid (value f) /\ span_in (span f))
  | Directive_Entrypoint e =>
      match entrypoint_init e with
      | EntrypointInit_Path s => verbatim s /\ starts_with "/" (value s) = true
      | EntrypointInit_Exec l => l <> []
      | _ => True
      end
  | Directive_Expose e => (expose_port e <= u16_max)%N
  | Directive_Cmd c =>
      match cmd_command c with
      | CmdForm_Shell s => verbatim s
      | CmdForm_Exec l => l <> []
      end
  | Directive_Volume v => volume_paths v <> []
  | Directive_Stopsignal _ => True
  end.

Definition stage_ok (s : Stage) : Prop :=
  match from_source (stage_from s) with
  | FromSource_Scratch => True
  | FromSource_Reference r =>
      OciReference_new_allowing_placeholders (oci_raw (value r)) = Ok (value r)
  end
  /\ (forall n, stage_name s = Some n -> valid (value n) /\ span_in (span n))
  /\ Forall directive_ok (stage_directives s)
  /\ span_in (from_span (stage_from s)) /\ span_in (stage_span s).

Definition diagnostic_ok (sev : Severity) (d : Diagnostic) : Prop :=
  severity d = sev /\ span_in (ann_span (primary d))
  /\ Forall (fun a => span_in (ann_span a)) (notes d).
End tree.

(** ** Weakest preconditions *)

(** [m] neither panics nor runs out of fuel from [p], and its result satisfies
    [Q]. *)
Definition wp {A} (m : P A) (p : Parser) (Q : option A -> Parser -> Prop) : Prop :=
  exists r p', m p = Val (r, p') /\ Q r p'.

Lemma wp_mono {A} (m : P A) p (Q Q' : option A -> Parser -> Prop) :
  (forall r p', Q r p' -> Q' r p') -> wp m p Q -> wp m p Q'.
Proof. intros H (r & p' & E & HQ). exists r, p'. auto. Qed.

Lemma wp_bind {A B} (m : P A) (k : A -> P B) p Q :
  wp m p (fun r p' => match r with Some a => wp (k a) p' Q | None => Q None p' end) ->
  wp (m ≫= k) p Q.
Proof.
  intros (r & p1 & E & H). unfold mbind, P_bind. unfold wp. rewrite E.
  destruct r as [a|]; [|eauto]. destruct H as (r & p2 & E2 & H). eauto.
Qed.

Section parser.
Context (src : str) (toks : list Token).
Hypothesis Hsrc : utf8 src.
Hypothesis Htoks : Forall (token_ok src) toks.
Hypothesis Hord : ordered_before toks (length src).

(** *** Tokens *)

Lemma ordered_lookup ts n i j t u :
  ordered_before ts n -> ts !! i = Some t -> ts !! j = Some u -> i < j ->
  end_ (tok_span t) <= start (tok_span u).
Proof.
  revert i j. induction ts as [|x ts IH]; intros i j; simpl; [done|].
  intros (_ & HF & HO) Hi Hj Hlt. destruct i as [|i].
  - simpl in Hi. injection Hi as ->. destruct j as [|j]; [lia|]. simpl in Hj.
    rewrite Forall_forall in HF. apply HF. by eapply list_elem_of_lookup_2.
  - destruct j as [|j]; [lia|]. simpl in *. eapply IH; eauto. lia.
Qed.

Lemma token_at i t :
  toks !! i = Some t -> token_ok src t /\ start (tok_span t) < end_ (tok_span t)
                        /\ end_ (tok_span t) <= length src.
Proof.
  intros H. assert (token_ok src t) as Ht.
  { rewrite Forall_forall in Htoks. apply Htoks. by eapply list_elem_of_lookup_2. }
  split; [done|]. destruct Ht as [Hlt (text & Hs & _)]. split; [done|].
  by apply slice_Some in Hs as (_ & ? & _).
Qed.

Lemma token_span_in i t : toks !! i = Some t -> span_in src (tok_span t).
Proof. intros H. destruct (token_at i t H) as (_ & ? & ?). split; lia. Qed.

(** *** States *)

Definition tree_inv (p : Parser) : Prop :=
  Forall (directive_ok src) (p_pending p) /\ Forall (arg_ok src) (p_global_args p)
  /\ Forall (stage_ok src) (p_stages p).

Definition pinv (p : Parser) : Prop :=
  p_source p = src /\ p_tokens p = toks /\ p_pos p <= length toks /\ tree_inv p.

(** What every parsing function preserves: the input, the well-formedness of
    the tree built so far and the diagnostics already there; it only moves
    forward and adds well-formed diagnostics. *)
Record frame (p p' : Parser) : Prop := {
  fr_inv : pinv p';
  fr_pos : p_pos p <= p_pos p';
  fr_errors : exists es, p_errors p' = p_errors p ++ es
                         /\ Forall (diagnostic_ok src Severity_Error) es;
  fr_warnings : exists ws, p_warnings p' = p_warnings p ++ ws
                           /\ Forall (diagnostic_ok src Severity_Warning) ws
}.

Definition grew (p p' : Parser) : Prop := length (p_errors p) < length (p_errors p').

Lemma frame_refl p : pinv p -> frame p p.
Proof.
  intros H. split; try done; exists []; rewrite app_nil_r; by split.
Qed.

Lemma frame_trans p1 p2 p3 : frame p1 p2 -> frame p2 p3 -> frame p1 p3.
Proof.
  intros [A1 A2 (es & A6 & A6') (ws & A7 & A7')] [B1 B2 (es' & B6 & B6') (ws' & B7 & B7')].
  split; [done|lia| |].
  - exists (es ++ es'). rewrite B6, A6, app_assoc. split; [done|]. by apply Forall_app.
  - exists (ws ++ ws'). rewrite B7, A7, app_assoc. split; [done|]. by apply Forall_app.
Qed.

Lemma grew_frame_l p1 p2 p3 : frame p1 p2 -> grew p2 p3 -> grew p1 p3.
Proof.
  intros [_ _ (es & E & _) _]. unfold grew. rewrite E, length_app. lia.
Qed.

Lemma grew_frame_r p1 p2 p3 : grew p1 p2 -> frame p2 p3 -> grew p1 p3.
Proof.
  intros H [_ _ (es & E & _) _]. unfold grew in *. rewrite E, length_app. lia.
Qed.

Lemma frame_set_pos p n :
  pinv p -> p_pos p <= n <= length toks -> frame p (set_p_pos n p).
Proof.
  intros (H1 & H2 & H3 & H4) Hn. split; simpl; try done; [|lia|exists []; by rewrite app_nil_r..].
  split_and!; [done|done|simpl; lia|done].
Qed.

Lemma frame_add_error p d : pinv p -> diagnostic_ok src Severity_Error d -> frame p (add_error d p).
Proof.
  intros H Hd. split; simpl; try done; [|exists []; by rewrite app_nil_r].
  exists [d]. split; [done|]. constructor; [done|constructor].
Qed.

Lemma frame_add_warning p d :
  pinv p -> diagnostic_ok src Severity_Warning d -> frame p (add_warning d p).
Proof.
  intros H Hd. split; simpl; try done; [exists []; by rewrite app_nil_r|].
  exists [d]. split; [done|]. constructor; [done|constructor].
Qed.

(** *** The calculus

    [ok m p R]: from a state that satisfies the invariant, [m] terminates
    without a panic; it succeeds with a result that satisfies [R], or fails
    after reporting at least one error. *)

Definition ok {A} (m : P A) (p : Parser) (R : A -> Parser -> Prop) : Prop :=
  pinv p ->
  wp m p (fun r p' => frame p p' /\ match r with Some a => R a p' | None => grew p p' end).

Lemma ok_bind {A B} (m : P A) (k : A -> P B) p R1 R :
  ok m p R1 -> (forall a p', frame p p' -> R1 a p' -> ok (k a) p' R) -> ok (m ≫= k) p R.
Proof.
  intros Hm Hk Hp. apply wp_bind. specialize (Hm Hp). revert Hm. apply wp_mono.
  intros r p1 [HF HR]. destruct r as [a|]; [|done].
  specialize (Hk a p1 HF HR (fr_inv _ _ HF)). revert Hk. apply wp_mono.
  intros r' p2 [HF' HR']. split; [by eapply frame_trans|].
  destruct r'; [done|]. by eapply grew_frame_l.
Qed.

Lemma ok_weaken {A} (m : P A) p (R R' : A -> Parser -> Prop) :
  (forall a p', frame p p' -> R a p' -> R' a p') -> ok m p R -> ok m p R'.
Proof.
  intros H Hm Hp. specialize (Hm Hp). revert Hm. apply wp_mono.
  intros [a|] p' [HF HR]; split; auto.
Qed.

Lemma ok_ret {A} (a : A) p (R : A -> Parser -> Prop) : R a p -> ok (mret a) p R.
Proof. intros H Hp. exists (Some a), p. split; [done|]. split; [by apply frame_refl|done]. Qed.

Lemma ok_gets {A} (f : Parser -> A) p (R : A -> Parser -> Prop) : R (f p) p -> ok (gets f) p R.
Proof. intros H Hp. eexists _, p. split; [done|]. split; [by apply frame_refl|done]. Qed.

Lemma ok_modify f p (R : unit -> Parser -> Prop) :
  (pinv p -> frame p (f p)) -> R tt (f p) -> ok (modify f) p R.
Proof. intros Hf H Hp. eexists _, _. split; [done|]. split; [by apply Hf|done]. Qed.

Lemma ok_push_err d p (R : unit -> Parser -> Prop) :
  diagnostic_ok src Severity_Error d -> R tt (add_error d p) -> ok (push_err d) p R.
Proof. intros Hd H. apply ok_modify; [|done]. intros Hp. by apply frame_add_error. Qed.

Lemma ok_push_warning d p (R : unit -> Parser -> Prop) :
  diagnostic_ok src Severity_Warning d -> R tt (add_warning d p) -> ok (push_warning d) p R.
Proof. intros Hd H. apply ok_modify; [|done]. intros Hp. by apply frame_add_warning. Qed.

Lemma ok_fail {A} d p (R : A -> Parser -> Prop) :
  diagnostic_ok src Severity_Error d -> ok (fail_with d) p R.
Proof.
  intros Hd Hp. exists None, (add_error d p). split; [done|]. split; [by apply frame_add_error|].
  unfold grew. simpl. rewrite length_app. simpl. lia.
Qed.

Lemma ok_lift {A} (o : outcome A) a p (R : A -> Parser -> Prop) :
  o = Val a -> R a p -> ok (lift o) p R.
Proof. intros -> H Hp. exists (Some a), p. split; [done|]. split; [by apply frame_refl|done]. Qed.

Lemma ok_slice a b t p (R : str -> Parser -> Prop) :
  slice src a b = Some t -> R t p -> ok (source_slice a b) p R.
Proof.
  intros Hs H Hp. exists (Some t), p. unfold source_slice. pose proof Hp as (-> & _). rewrite Hs.
  split; [done|]. split; [by apply frame_refl|done].
Qed.

Lemma ok_with_fuel {A} (f : nat -> P A) p (R : A -> Parser -> Prop) :
  ok (f (S (length toks))) p R -> ok (with_fuel f) p R.
Proof. intros H Hp. unfold with_fuel, wp. pose proof Hp as (_ & -> & _). by apply H. Qed.

Lemma ok_inv {A} (m : P A) p (R : A -> Parser -> Prop) : (pinv p -> ok m p R) -> ok m p R.
Proof. intros H Hp. by apply H. Qed.

(** Observing the failure of a computation. *)
Lemma ok_try {A} (m : P A) p (R : A -> Parser -> Prop) (R' : option A -> Parser -> Prop) :
  ok m p R -> (forall a p', frame p p' -> R a p' -> R' (Some a) p') ->
  (forall p', frame p p' -> grew p p' -> R' None p') -> ok (try m) p R'.
Proof.
  intros Hm H1 H2 Hp. destruct (Hm Hp) as (r & p' & E & HF & HR).
  exists (Some r), p'. unfold try. rewrite E. split; [done|]. split; [done|].
  destruct r; [by apply H1|by apply H2].
Qed.

(** *** Token helpers *)

Lemma eof_span_in p : pinv p -> span_in src (eof_span p).
Proof.
  intros (_ & H2 & _). unfold eof_span. rewrite H2. destruct (last toks) as [t|] eqn:E.
  - rewrite last_lookup in E. destruct (token_at _ _ E) as (_ & _ & ?). split; simpl; lia.
  - split; simpl; lia.
Qed.

Lemma current_span_in p : pinv p -> span_in src (current_or_eof_span p).
Proof.
  intros Hp. unfold current_or_eof_span, p_peek. destruct (p_tokens p !! p_pos p) as [t|] eqn:E.
  - destruct Hp as (_ & H2 & _). rewrite H2 in E. by eapply token_span_in.
  - by apply eof_span_in.
Qed.

Lemma peek_toks p t : pinv p -> p_peek p = Some t <-> toks !! p_pos p = Some t.
Proof. intros (_ & H2 & _). unfold p_peek. by rewrite H2. Qed.

Lemma ok_advance p t (R : Token -> Parser -> Prop) :
  p_peek p = Some t -> R t (set_p_pos (p_pos p + 1) p) -> ok p_advance p R.
Proof.
  intros Ht HR Hp. exists (Some t), (set_p_pos (p_pos p + 1) p). unfold p_advance.
  unfold p_peek in Ht. rewrite Ht. split; [done|]. split; [|done].
  apply frame_set_pos; [done|]. destruct Hp as (_ & H2 & _). rewrite H2 in Ht.
  apply lookup_lt_Some in Ht. lia.
Qed.

Lemma ok_skip p t (R : unit -> Parser -> Prop) :
  p_peek p = Some t -> R tt (set_p_pos (p_pos p + 1) p) -> ok p_skip p R.
Proof.
  intros Ht HR Hp. exists (Some tt), (set_p_pos (p_pos p + 1) p).
  unfold p_skip, mbind, P_bind, try, p_advance. unfold p_peek in Ht. rewrite Ht. split; [done|].
  split; [|done]. apply frame_set_pos; [done|]. destruct Hp as (_ & H2 & _). rewrite H2 in Ht.
  apply lookup_lt_Some in Ht. lia.
Qed.

Lemma diag_error msg ann : span_in src (ann_span ann) -> diagnostic_ok src Severity_Error (error msg ann).
Proof. by intros H. Qed.

Lemma diag_error_hint msg ann h :
  span_in src (ann_span ann) -> diagnostic_ok src Severity_Error (with_hint (error msg ann) h).
Proof. by intros H. Qed.

(** The next token, which is not a newline. *)
Definition next_token (p : Parser) (t : Token) (p' : Parser) : Prop :=
  toks !! p_pos p = Some t /\ p_pos p' = p_pos p + 1 /\ is_newline t = false.

Lemma ok_advance_or_err m h p : ok (advance_or_err m h) p (next_token p).
Proof.
  intros Hp. unfold advance_or_err, mbind, P_bind, try, p_advance, wp.
  pose proof Hp as (_ & H2 & _). rewrite H2.
  destruct (toks !! p_pos p) as [t|] eqn:E.
  - assert (HF : frame p (set_p_pos (p_pos p + 1) p)).
    { apply frame_set_pos; [done|]. apply lookup_lt_Some in E. lia. }
    destruct (is_newline t) eqn:En.
    + destruct (ok_fail (A := Token) (with_hint (error m (mkAnnotation (eof_span (set_p_pos (p_pos p + 1) p))
        "unexpected end of line")) h) (set_p_pos (p_pos p + 1) p) (next_token p)) as (r & p' & E' & HF' & HR).
      * apply diag_error_hint. simpl. apply eof_span_in, HF.
      * apply HF.
      * exists r, p'. split; [exact E'|]. split; [by eapply frame_trans|].
        destruct r; [done|]. by eapply grew_frame_l.
    + exists (Some t), (set_p_pos (p_pos p + 1) p). split; [done|]. split; [done|]. done.
  - destruct (ok_fail (A := Token) (with_hint (error m (mkAnnotation (eof_span p)
        "unexpected end of file")) h) p (next_token p)) as (r & p' & E' & HF' & HR).
    + apply diag_error_hint. simpl. by apply eof_span_in.
    + done.
    + exists r, p'. done.
Qed.

(** *** Positions *)

(** The start of a token already consumed. *)
Definition bound (st : nat) (p : Parser) : Prop :=
  exists i t, i < p_pos p /\ toks !! i = Some t /\ start (tok_span t) = st.

Lemma bound_pos st p p' : p_pos p <= p_pos p' -> bound st p -> bound st p'.
Proof. intros H (i & t & Hi & Ht & E). exists i, t. split_and!; [lia|done|done]. Qed.

Lemma bound_frame st p p' : frame p p' -> bound st p -> bound st p'.
Proof. intros HF. apply bound_pos, HF. Qed.

Lemma bound_token st p j t :
  bound st p -> toks !! j = Some t -> p_pos p <= j -> st <= start (tok_span t).
Proof.
  intros (i & u & Hi & Hu & <-) Ht Hj. destruct (token_at i u Hu) as (_ & Hlt & _).
  pose proof (ordered_lookup toks _ i j u t Hord Hu Ht ltac:(lia)). lia.
Qed.

(** [e] closes a span opened by any token consumed before [p]. *)
Definition closes (p : Parser) (e : nat) : Prop :=
  e <= length src /\ forall st, bound st p -> st <= e.

Lemma closes_token p j t : toks !! j = Some t -> p_pos p <= j -> closes p (end_ (tok_span t)).
Proof.
  intros Ht Hj. destruct (token_at j t Ht) as (_ & Hlt & Hle). split; [done|].
  intros st Hst. pose proof (bound_token st p j t Hst Ht Hj). lia.
Qed.

Lemma closes_frame p p' e : frame p p' -> closes p' e -> closes p e.
Proof. intros HF [H1 H2]. split; [done|]. intros st Hst. apply H2. by eapply bound_frame. Qed.

Lemma closes_pos p p' e : p_pos p <= p_pos p' -> closes p' e -> closes p e.
Proof. intros HF [H1 H2]. split; [done|]. intros st Hst. apply H2. by eapply bound_pos. Qed.

Lemma closes_span p st e : bound st p -> closes p e -> span_in src (mkSpan st e).
Proof. intros Hst [H1 H2]. split; simpl; [by apply H2|done]. Qed.

(** *** Texts *)

(** A text read from the span [sp], possibly unescaped. *)
Definition fits (raw : str) (sp : Span) : Prop :=
  utf8 raw /\ start sp + length raw <= end_ sp /\ span_in src sp.

Lemma slice_length a b t : slice src a b = Some t -> length t = b - a.
Proof.
  intros H. apply slice_Some in H as (H1 & H2 & _ & _ & ->).
  rewrite length_take, length_drop. lia.
Qed.

Lemma fits_slice a b t : slice src a b = Some t -> fits t (mkSpan a b).
Proof.
  intros H. pose proof (slice_length _ _ _ H) as Hl. pose proof (slice_utf8 _ _ _ _ Hsrc H) as Hu.
  apply slice_Some in H as (H1 & H2 & _). split_and!; [done|simpl; lia|split; simpl; lia].
Qed.

Lemma token_slice i t : toks !! i = Some t ->
  exists text, slice src (start (tok_span t)) (end_ (tok_span t)) = Some text
    /\ fits text (tok_span t) /\ token_text (kind t) text.
Proof.
  intros H. destruct (token_at i t H) as ([_ (text & Hs & HT)] & _). exists text.
  split_and!; [done| |done]. pose proof (fits_slice _ _ _ Hs) as HF. by destruct (tok_span t).
Qed.

Lemma unescapes_length q body v : unescapes q body v -> length v <= length body.
Proof.
  induction 1 as [|e c body v He _ IH|ch e ch' body v -> Hv He _ IH|ch e ch' body v -> Hv Hq Hb _ IH];
    simpl; rewrite ?length_app; lia.
Qed.

Lemma fits_ident i t s : toks !! i = Some t -> kind t = TokenKind_Ident s -> fits s (tok_span t).
Proof.
  intros H Hk. destruct (token_slice i t H) as (text & _ & HF & HT). rewrite Hk in HT.
  by destruct HT as [-> _].
Qed.

Lemma fits_string i t s : toks !! i = Some t -> kind t = TokenKind_String s -> fits s (tok_span t).
Proof.
  intros H Hk. destruct (token_slice i t H) as (text & _ & (_ & HL & HS) & HT). rewrite Hk in HT.
  destruct HT as (q & body & -> & _ & HU). split_and!; [by eapply unescapes_utf8| |done].
  apply unescapes_length in HU. simpl in HL. rewrite length_app in HL. simpl in HL. lia.
Qed.

Lemma fits_ident_or_string i t s :
  toks !! i = Some t -> ident_or_string (kind t) = Some s -> fits s (tok_span t).
Proof.
  intros H Hk. destruct (kind t) eqn:E; try done; injection Hk as <-;
    [by eapply fits_ident|by eapply fits_string].
Qed.

Lemma utf8_app_inv s1 s2 : utf8 (s1 ++ s2) -> utf8 s1 -> utf8 s2.
Proof.
  intros Hu Hs1. induction Hs1 as [|ch s Hv Hs IH]; [done|]. apply IH.
  rewrite <- app_assoc in Hu. by apply utf8_tail_char in Hu.
Qed.

Lemma fits_option_value i t name v :
  toks !! i = Some t -> kind t = TokenKind_LongOption name (Some v) -> fits v (tok_span t).
Proof.
  intros H Hk. destruct (token_slice i t H) as (text & _ & (HU & HL & HS) & HT). rewrite Hk in HT.
  destruct HT as (Hn & -> & _). split_and!; [| |done].
  - do 2 (apply utf8_tail_ascii in HU; [|done]).
    change (utf8 (name ++ "="%char :: v)) in HU. by apply (utf8_app_ascii "=") in HU as [_ ?].
  - simpl in HL. rewrite !length_app in HL. simpl in HL. lia.
Qed.

(** The source from the start of one token to the end of a later one. *)
Lemma slice_tokens i j t u :
  toks !! i = Some t -> toks !! j = Some u -> i <= j ->
  exists text, slice src (start (tok_span t)) (end_ (tok_span u)) = Some text /\ text <> [].
Proof.
  intros Hi Hj Hij. destruct (token_at i t Hi) as ([_ (x & Hx & _)] & Ht1 & Ht2).
  destruct (token_at j u Hj) as ([_ (y & Hy & _)] & Hu1 & Hu2).
  apply slice_Some in Hx as (_ & _ & B1 & _ & _). apply slice_Some in Hy as (_ & _ & _ & B2 & _).
  assert (start (tok_span t) < end_ (tok_span u)).
  { destruct (decide (i = j)) as [->|]; [by simplify_eq|].
    pose proof (ordered_lookup toks _ i j t u Hord Hi Hj ltac:(lia)). lia. }
  pose proof (slice_ok src (start (tok_span t)) (end_ (tok_span u)) ltac:(lia) Hu2 B1 B2) as E.
  eexists. split; [done|]. intros H0. apply (f_equal length) in H0.
  rewrite length_take, length_drop in H0. simpl in H0. lia.
Qed.

Lemma slice_prefix a b c s t :
  slice src a b = Some s -> slice src a c = Some t -> b <= c -> exists r, t = s ++ r.
Proof.
  intros H1 H2 Hbc. apply slice_Some in H1 as (_ & _ & _ & _ & ->).
  apply slice_Some in H2 as (_ & _ & _ & _ & ->).
  exists (drop (b - a) (take (c - a) (drop a src))).
  rewrite <- (take_drop (b - a) (take (c - a) (drop a src))) at 1. f_equal.
  rewrite take_take. f_equal. lia.
Qed.

(** *** Specifications of the shared helpers *)

Lemma validation_diagnostic `{ValidationError E} (err : E) raw sp d a :
  fits raw sp ->
  exists diag, from_validation_error err raw sp d a = Val diag
    /\ diagnostic_ok src Severity_Error diag.
Proof.
  intros (Hu & Hl & Hs).
  destruct (from_validation_error_total err raw sp d a Hu) as (diag & E1 & He & Hsp).
  exists diag. split; [done|]. apply is_plain_error_true in He as [He Hn].
  split_and!; [done| |by rewrite Hn].
  destruct (error_span_spec (offset err) raw sp Hu) as (sp' & E2 & HC).
  rewrite Hsp in E2. injection E2 as ->.
  destruct HC as [[-> _]|(o & st & ch & _ & _ & _ & _ & _ & Hv & _ & Hl2 & ->)]; [done|].
  pose proof (valid_char_nonempty _ Hv). destruct Hs. split; simpl; lia.
Qed.

Lemma ok_validated {T E} `{ValidationError E} raw sp d a (c : str -> result E T) p :
  fits raw sp ->
  ok (validated raw sp d a c) p (fun v p' => p' = p /\ span v = sp /\ c raw = Ok (value v)).
Proof.
  intros Hf. unfold validated. destruct (c raw) as [v|err].
  - by apply ok_ret.
  - destruct (validation_diagnostic err raw sp d a Hf) as (diag & E1 & Hd).
    eapply ok_bind; [by apply (ok_lift _ diag _ (fun x p' => x = diag))|].
    intros x p' _ ->. by apply ok_fail.
Qed.

Lemma ok_expect_newline d p : ok (expect_newline_after d) p (fun _ _ => True).
Proof.
  apply ok_inv. intros Hp. unfold expect_newline_after.
  eapply ok_bind; [by apply (ok_gets _ _ (fun t p' => t = p_peek p /\ p' = p))|].
  intros t p' _ [-> ->]. destruct (p_peek p) as [tok|] eqn:E; [|by apply ok_ret].
  destruct (is_newline tok); [by apply ok_ret|]. apply (peek_toks p tok Hp) in E.
  eapply ok_bind; [apply ok_push_err with (R := fun _ _ => True); [|done]|].
  - apply diag_error. by eapply token_span_in.
  - intros _ p1 HF _. apply ok_modify; [|done]. intros Hp1. apply frame_set_pos; [done|].
    destruct Hp1 as (_ & H2 & H3 & _). unfold remaining. rewrite H2.
    set (n := count_while _ _). pose proof (count_while_le (fun t => negb (is_newline t)) (drop (p_pos p1) toks)).
    rewrite length_drop in H. fold n in H.
    destruct (drop (p_pos p1) toks !! n) as [t|] eqn:El; [|lia].
    apply lookup_lt_Some in El. rewrite length_drop in El. lia.
Qed.

Lemma ok_recover_to_eol p :
  ok recover_to_eol p (fun _ p' => p_pos p < length toks -> p_pos p < p_pos p').
Proof.
  apply ok_inv. intros (H1 & H2 & H3 & _). apply ok_modify.
  - intros Hp. apply frame_set_pos; [done|]. unfold remaining. rewrite H2.
    set (n := count_while _ _). pose proof (count_while_le (fun t => negb (is_newline t)) (drop (p_pos p) toks)).
    rewrite length_drop in H. fold n in H.
    destruct (drop (p_pos p) toks !! n) as [t|] eqn:El; [|lia].
    apply lookup_lt_Some in El. rewrite length_drop in El. lia.
  - simpl. intros Hlt. unfold remaining. rewrite H2.
    destruct (drop_nonempty toks (p_pos p) Hlt) as (t & l & ->). simpl.
    destruct (is_newline t); simpl; lia.
Qed.

Lemma ok_skip_newlines p :
  ok skip_newlines p (fun _ p' => forall t, p_peek p' = Some t -> is_newline t = false).
Proof.
  apply ok_inv. intros (H1 & H2 & H3 & _). apply ok_modify.
  - intros Hp. apply frame_set_pos; [done|]. unfold remaining. rewrite H2.
    pose proof (count_while_le is_newline (drop (p_pos p) toks)) as H. rewrite length_drop in H. lia.
  - intros t Ht. unfold p_peek in Ht. simpl in Ht. rewrite H2 in Ht. unfold remaining in Ht.
    rewrite H2, <- lookup_drop in Ht. by apply count_while_stop in Ht.
Qed.

Lemma ok_recover_to_next_stage p :
  ok recover_to_next_stage p
    (fun _ p' => forall t, p_peek p = Some t -> is_from t = false -> p_pos p < p_pos p').
Proof.
  apply ok_inv. intros (H1 & H2 & H3 & _). apply ok_modify.
  - intros Hp. apply frame_set_pos; [done|]. unfold remaining. rewrite H2.
    pose proof (count_while_le (fun t => negb (is_from t)) (drop (p_pos p) toks)) as H.
    rewrite length_drop in H. lia.
  - simpl. intros t Ht Hn. unfold p_peek in Ht. rewrite H2 in Ht. unfold remaining. rewrite H2.
    rewrite (drop_S _ _ _ Ht). simpl. rewrite Hn. simpl. lia.
Qed.

(** *** Rules with the continuation *)

Lemma ok_gets_bind {A B} (f : Parser -> A) (k : A -> P B) p R :
  ok (k (f p)) p R -> ok (gets f ≫= k) p R.
Proof.
  intros H. eapply ok_bind; [by apply (ok_gets _ _ (fun x p' => x = f p /\ p' = p))|].
  by intros x p' _ [-> ->].
Qed.

Lemma ok_next_bind {B} m h (k : Token -> P B) p R :
  (forall t p', frame p p' -> next_token p t p' -> ok (k t) p' R) ->
  ok (advance_or_err m h ≫= k) p R.
Proof. intros H. eapply ok_bind; [apply ok_advance_or_err|]. exact H. Qed.

Lemma ok_validated_bind {T E B} `{ValidationError E} raw sp d a (c : str -> result E T)
    (k : Spanned T -> P B) p R :
  fits raw sp -> (forall v, span v = sp -> c raw = Ok (value v) -> ok (k v) p R) ->
  ok (validated raw sp d a c ≫= k) p R.
Proof.
  intros Hf Hk. eapply ok_bind; [by apply ok_validated|].
  intros v p' _ (-> & Hs & Hc). by apply Hk.
Qed.

Lemma ok_slice_bind {B} a b t (k : str -> P B) p R :
  slice src a b = Some t -> ok (k t) p R -> ok (source_slice a b ≫= k) p R.
Proof.
  intros Hs H. eapply ok_bind; [by apply (ok_slice a b t _ (fun x p' => x = t /\ p' = p))|].
  by intros x p' _ [-> ->].
Qed.

Lemma ok_newline_bind {B} d (k : unit -> P B) p R :
  (forall p', frame p p' -> ok (k tt) p' R) -> ok (expect_newline_after d ≫= k) p R.
Proof.
  intros H. eapply ok_bind; [apply ok_expect_newline|]. intros [] p' HF _. by apply H.
Qed.

Lemma ok_fuel_bind {A B} (f : nat -> P A) (k : A -> P B) p R :
  ok (f (S (length toks)) ≫= k) p R -> ok (with_fuel f ≫= k) p R.
Proof.
  intros H Hp. specialize (H Hp). unfold wp, mbind, P_bind, with_fuel in *.
  pose proof Hp as (_ & -> & _). exact H.
Qed.

Lemma ok_advance_bind {B} t (k : Token -> P B) p R :
  p_peek p = Some t ->
  (frame p (set_p_pos (p_pos p + 1) p) -> ok (k t) (set_p_pos (p_pos p + 1) p) R) ->
  ok (p_advance ≫= k) p R.
Proof.
  intros Ht H. eapply ok_bind; [apply (ok_advance p t
    (fun x p' => x = t /\ p' = set_p_pos (p_pos p + 1) p) Ht); done|].
  intros x p' HF [-> ->]. by apply H.
Qed.

Lemma ok_skip_bind {B} t (k : unit -> P B) p R :
  p_peek p = Some t ->
  (frame p (set_p_pos (p_pos p + 1) p) -> ok (k tt) (set_p_pos (p_pos p + 1) p) R) ->
  ok (p_skip ≫= k) p R.
Proof.
  intros Ht H. eapply ok_bind; [apply (ok_skip p t
    (fun _ p' => p' = set_p_pos (p_pos p + 1) p) Ht); done|].
  intros [] p' HF ->. by apply H.
Qed.

Lemma next_span p t p' : next_token p t p' -> span_in src (tok_span t).
Proof. intros (H & _). by eapply token_span_in. Qed.

Lemma next_closes p t p' : next_token p t p' -> closes p (end_ (tok_span t)).
Proof. intros (H & _). by eapply closes_token. Qed.

(** Fails with an error at the token just read. *)
Lemma ok_fail_at {A} msg note p t p' p0 (R : A -> Parser -> Prop) :
  next_token p t p' -> ok (fail_with (error msg (mkAnnotation (tok_span t) note))) p0 R.
Proof. intros H. apply ok_fail, diag_error. by eapply next_span. Qed.

Lemma ok_fail_at_hint {A} msg note h p t p' p0 (R : A -> Parser -> Prop) :
  next_token p t p' -> ok (fail_with (with_hint (error msg (mkAnnotation (tok_span t) note)) h)) p0 R.
Proof. intros H. apply ok_fail, diag_error_hint. by eapply next_span. Qed.

(** *** Values *)

Lemma splice_run_spec i e0 t0 :
  toks !! i = Some t0 -> e0 = end_ (tok_span t0) ->
  exists u, toks !! (i + (splice_run (drop (S i) toks) e0).2) = Some u
    /\ (splice_run (drop (S i) toks) e0).1 = end_ (tok_span u).
Proof.
  intros Ht He. remember (drop (S i) toks) as rest eqn:Er. revert i e0 t0 Ht He Er.
  induction rest as [|t rest IH]; intros i e0 t0 Ht He Er; simpl.
  { exists t0. by rewrite Nat.add_0_r. }
  destruct (bool_decide _ && is_value_word t); simpl; [|exists t0; by rewrite Nat.add_0_r].
  destruct (IH (S i) (end_ (tok_span t)) t) as (u & Hu & Eu); [|done| |].
  - symmetry in Er. by apply drop_cons_lookup in Er.
  - symmetry in Er. by apply drop_cons_S in Er.
  - destruct (splice_run rest (end_ (tok_span t))) as [e n]. simpl in *.
    exists u. by rewrite Nat.add_succ_r.
Qed.

Lemma ok_splice_value p0 t p text :
  next_token p0 t p -> value_text (kind t) = Some text ->
  ok (splice_value t text) p
    (fun r p' => fits r.1 (mkSpan (start (tok_span t)) r.2) /\ closes p0 r.2).
Proof.
  intros Hn Hv. pose proof Hn as (Ht & Hpos & _). apply ok_inv. intros (H1 & H2 & H3 & _).
  unfold splice_value.
  assert (Hword : ok (r ← gets (fun p => splice_run (remaining p) (end_ (tok_span t)));
      _ ← modify (fun p => set_p_pos (p_pos p + r.2) p);
      text ← source_slice (start (tok_span t)) r.1; mret (text, r.1)) p
    (fun r p' => fits r.1 (mkSpan (start (tok_span t)) r.2) /\ closes p0 r.2)).
  { apply ok_gets_bind. unfold remaining. rewrite H2, Hpos, Nat.add_1_r.
    destruct (splice_run_spec (p_pos p0) _ t Ht eq_refl) as (u & Hu & Eu).
    set (r := splice_run _ _) in *. destruct (slice_tokens _ _ t u Ht Hu ltac:(lia)) as (s & Hs & _).
    rewrite <- Eu in Hs. eapply ok_bind.
    - apply ok_modify with (R := fun _ _ => True); [|done]. intros Hp. apply frame_set_pos; [done|].
      apply lookup_lt_Some in Hu. lia.
    - intros _ p1 _ _. apply (ok_slice_bind _ _ s); [done|]. apply ok_ret. simpl. split.
      + by apply fits_slice.
      + rewrite Eu. eapply closes_token; [done|lia]. }
  destruct (kind t) eqn:Ek; try done. injection Hv as ->. apply ok_ret. simpl. split.
  - pose proof (fits_string _ _ _ Ht Ek). by destruct (tok_span t).
  - by eapply next_closes.
Qed.

Lemma keyword_slice i t kw :
  toks !! i = Some t -> kind t = TokenKind_Keyword kw ->
  slice src (start (tok_span t)) (end_ (tok_span t)) = Some (keyword_text kw)
  /\ fits (keyword_text kw) (tok_span t).
Proof.
  intros Ht Hk. destruct (token_slice i t Ht) as (text & Hs & HF & HT). rewrite Hk in HT.
  apply Keyword_lookup_Some in HT. by subst.
Qed.

(** A key or a name: an identifier, or a keyword read back from the source. *)
Lemma ok_name_text p0 t p d :
  next_token p0 t p -> diagnostic_ok src Severity_Error d ->
  ok (match kind t with
      | TokenKind_Ident s => mret s
      | TokenKind_Keyword _ => source_slice (start (tok_span t)) (end_ (tok_span t))
      | _ => fail_with d
      end) p (fun s p' => fits s (tok_span t) /\ p' = p).
Proof.
  intros (Ht & _) Hd. destruct (kind t) as [kw|s| | | | |] eqn:Ek; try by apply ok_fail.
  - destruct (keyword_slice _ _ _ Ht Ek) as [Hs HF]. by apply (ok_slice _ _ (keyword_text kw)).
  - apply ok_ret. split; [by eapply fits_ident|done].
Qed.

Definition pair_ok (p : Parser) (kv : Spanned str * Spanned str) : Prop :=
  fits (value kv.1) (span kv.1) /\ fits (value kv.2) (span kv.2)
  /\ closes p (end_ (span kv.2)) /\ start (span kv.1) <= end_ (span kv.2).

Lemma pair_ok_pos p p' kv : p_pos p <= p_pos p' -> pair_ok p' kv -> pair_ok p kv.
Proof. intros H (H1 & H2 & H3 & H4). split_and!; try done. by eapply closes_pos. Qed.

Lemma ok_key_value d p :
  ok (parse_key_value d) p (fun r p' => pair_ok p r.1 /\ p_pos p < p_pos p').
Proof.
  unfold parse_key_value. apply ok_next_bind. intros key_tok p1 F1 N1.
  eapply ok_bind; [eapply ok_name_text; [done|apply diag_error; by eapply next_span]|].
  intros key_text p1' _ [Hkey ->]. cbv zeta.
  apply ok_next_bind. intros eq_tok p2 F2 N2. destruct (negb _); [by eapply ok_fail_at|].
  apply ok_next_bind. intros val_tok p3 F3 N3.
  destruct (value_text (kind val_tok)) as [text|] eqn:Ev; [|by eapply ok_fail_at].
  eapply ok_bind; [by eapply ok_splice_value|]. intros [val e] p4 F4 [Hval Hcl].
  apply ok_ret. simpl in *. destruct N1 as (T1 & P1 & _), N2 as (T2 & P2 & _), N3 as (T3 & P3 & _).
  split; [|destruct F4 as [_ ? _ _]; lia]. split_and!; simpl; [done|done| |].
  - eapply closes_pos; [|done]. lia.
  - destruct Hval as (_ & _ & [Hs _]). simpl in Hs.
    pose proof (ordered_lookup toks _ _ _ key_tok val_tok Hord T1 T3 ltac:(lia)).
    destruct (token_at _ _ T1) as (_ & ? & _). lia.
Qed.

Lemma ok_key_value_loop d fuel p0 pairs p :
  length toks - p_pos p < fuel -> p_pos p0 <= p_pos p -> Forall (pair_ok p0) pairs ->
  ok (key_value_loop fuel d pairs) p (fun r p' => Forall (pair_ok p0) r /\ r <> []).
Proof.
  revert pairs p. induction fuel as [|fuel IH]; intros pairs p Hf Hp0 HF; [lia|]. cbn [key_value_loop].
  eapply ok_bind; [apply ok_key_value|]. intros [[key val] e] p1 F1 [Hpr Hlt]. cbn [fst] in Hpr.
  cbv beta zeta. apply ok_gets_bind.
  assert (HF' : Forall (pair_ok p0) (pairs ++ [(key, val)])).
  { apply Forall_app. split; [done|]. constructor; [|constructor]. by eapply pair_ok_pos. }
  assert (Hret : ok (mret (pairs ++ [(key, val)])) p1 (fun r p' => Forall (pair_ok p0) r /\ r <> [])).
  { apply ok_ret. split; [done|]. by destruct pairs. }
  destruct (p_peek_kind p1) as [[]|] eqn:Ek; try done.
  apply IH; [|destruct F1 as [_ ? _ _]; lia|done].
  unfold p_peek_kind, p_peek in Ek. destruct F1 as [(_ & E2 & _) _ _ _]. rewrite E2 in Ek.
  destruct (toks !! p_pos p1) as [t|] eqn:Et; [|done]. apply lookup_lt_Some in Et. lia.
Qed.

Lemma ok_key_value_list d p :
  ok (parse_key_value_list d) p (fun r p' => Forall (pair_ok p) r /\ r <> []).
Proof. apply ok_with_fuel, ok_key_value_loop; [lia|done|constructor]. Qed.

(** *** Directives

    A directive parser is started after its keyword, whose start [st] is the
    start of the directive. *)

Definition directive_post (d : Directive) (_ : Parser) : Prop := directive_ok src d.

Lemma ok_take_first built p :
  built <> [] -> Forall (directive_ok src) built -> ok (take_first_queue_rest built) p directive_post.
Proof.
  intros Hne HF. destruct HF as [|d ds Hd HF]; [done|]. simpl. eapply ok_bind.
  - apply ok_modify with (R := fun _ _ => True); [|done]. intros (H1 & H2 & H3 & (H4 & H5 & H6)).
    split; simpl; try done; [|exists []; by rewrite app_nil_r..].
    split_and!; [done|done|done|]. split_and!; [by apply Forall_app|done|done].
  - intros _ p' _ _. by apply ok_ret.
Qed.

Lemma pair_span_in p st i key val :
  bound st p -> closes p (end_ val) -> start key <= end_ val -> span_in src (pair_span st i key val).
Proof.
  intros Hst Hc Hk. unfold pair_span. case_bool_decide; [by eapply closes_span|].
  destruct Hc. split; simpl; lia.
Qed.

Lemma ok_build_labels p0 st i pairs p :
  bound st p0 -> Forall (pair_ok p0) pairs ->
  ok (build_labels st i pairs) p (fun r _ => Forall (directive_ok src) r /\ length r = length pairs).
Proof.
  intros Hst HF. revert i p. induction HF as [|[k v] pairs (Hk & Hv & Hc & Hkv) _ IH]; intros i p.
  { apply ok_ret. by split. }
  cbn [build_labels]. simpl in *. apply ok_validated_bind; [done|]. intros key Sk Ek.
  apply ok_validated_bind; [done|]. intros val Sv Ev. eapply ok_bind; [apply IH|].
  intros rest p' _ [HR HL]. apply ok_ret. split; [|simpl; by rewrite HL]. constructor; [|done].
  split; simpl; [rewrite Sk, Sv; by eapply pair_span_in|].
  split; [by eapply (valid_new (T := LabelKey))|by eapply (valid_new (T := LabelValue))].
Qed.

Lemma ok_build_envs p0 st i pairs p :
  bound st p0 -> Forall (pair_ok p0) pairs ->
  ok (build_envs st i pairs) p (fun r _ => Forall (directive_ok src) r /\ length r = length pairs).
Proof.
  intros Hst HF. revert i p. induction HF as [|[k v] pairs (Hk & Hv & Hc & Hkv) _ IH]; intros i p.
  { apply ok_ret. by split. }
  cbn [build_envs]. simpl in *. apply ok_validated_bind; [done|]. intros key Sk Ek.
  apply ok_validated_bind; [done|]. intros val Sv Ev. eapply ok_bind; [apply IH|].
  intros rest p' _ [HR HL]. apply ok_ret. split; [|simpl; by rewrite HL]. constructor; [|done].
  split; simpl; [rewrite Sk, Sv; by eapply pair_span_in|].
  split; [by eapply (valid_new (T := EnvVarName))|by eapply (valid_new (T := EnvVarValue))].
Qed.

Lemma built_nonempty {A B} (r : list A) (pairs : list B) :
  length r = length pairs -> pairs <> [] -> r <> [].
Proof. intros Hl Hne ->. by destruct pairs. Qed.

Lemma ok_label st p : bound st p -> ok (parse_label st) p directive_post.
Proof.
  intros Hst. unfold parse_label. eapply ok_bind; [apply ok_key_value_list|].
  intros pairs p1 _ [HF Hne]. apply ok_newline_bind. intros p2 _.
  eapply ok_bind; [by eapply ok_build_labels|]. intros built p3 _ [HB HL].
  apply ok_take_first; [by eapply built_nonempty|done].
Qed.

Lemma ok_env st p : bound st p -> ok (parse_env st) p directive_post.
Proof.
  intros Hst. unfold parse_env. eapply ok_bind; [apply ok_key_value_list|].
  intros pairs p1 _ [HF Hne]. apply ok_newline_bind. intros p2 _.
  eapply ok_bind; [by eapply ok_build_envs|]. intros built p3 _ [HB HL].
  apply ok_take_first; [by eapply built_nonempty|done].
Qed.

Lemma peek_punct_token p x :
  p_peek_punct p = Some x -> exists t, p_peek p = Some t /\ kind t = TokenKind_Punct x.
Proof.
  unfold p_peek_punct, p_peek_kind. destruct (p_peek p) as [t|]; simpl; [|done].
  destruct (kind t) eqn:E; try done. intros [= ->]. eauto.
Qed.

Lemma peek_kind_token p k : p_peek_kind p = Some k -> exists t, p_peek p = Some t /\ kind t = k.
Proof. unfold p_peek_kind. destruct (p_peek p) as [t|]; simpl; [|done]. intros [= <-]. eauto. Qed.

Lemma ok_arg_default p0 e p :
  frame p0 p -> closes p0 e ->
  ok (parse_arg_default e) p
    (fun r _ => (forall d, r.1 = Some d -> valid (value d)) /\ closes p0 r.2).
Proof.
  intros F0 He. unfold parse_arg_default. apply ok_gets_bind. case_bool_decide as Hx; [|by apply ok_ret].
  destruct (peek_punct_token _ _ Hx) as (eq & Heq & _).
  apply (ok_skip_bind eq); [done|]. intros F1. apply ok_next_bind. intros t p2 F2 N.
  destruct (value_text (kind t)) as [text|] eqn:Ev; [|by eapply ok_fail_at].
  eapply ok_bind; [by eapply ok_splice_value|]. intros [v e'] p3 F3 [Hv Hc]. simpl in *. cbv zeta.
  apply ok_validated_bind; [done|]. intros d Sd Ed. apply ok_ret. simpl. split.
  - intros d' [= <-]. by eapply (valid_new (T := EnvVarValue)).
  - eapply closes_frame; [|done]. by eapply frame_trans.
Qed.

Lemma ok_arg st p :
  bound st p -> ok (parse_arg st) p (fun d _ => exists a, d = Directive_Arg a /\ arg_ok src a).
Proof.
  intros Hst. unfold parse_arg. apply ok_next_bind. intros t p1 F1 N.
  eapply ok_bind; [eapply ok_name_text; [done|apply diag_error; by eapply next_span]|].
  intros name_text p1' _ [Hf ->]. apply ok_validated_bind; [done|]. intros name Sn En.
  eapply ok_bind; [apply (ok_arg_default p)|].
  - done.
  - rewrite Sn. by eapply next_closes.
  - intros [dflt e] p2 F2 [Hd Hc]. simpl in *. apply ok_newline_bind. intros p3 F3. cbv zeta.
    assert (Hs : span_in src (mkSpan st e)) by (by eapply closes_span).
    eapply ok_bind.
    + destruct (name_looks_secret _); [|by apply (ok_ret tt _ (fun _ _ => True))].
      by apply (ok_push_warning _ _ (fun _ _ => True)).
    + intros _ p4 _ _. apply ok_ret. eexists. split; [done|]. split_and!; simpl; [|done|done..].
      by eapply (valid_new (T := EnvVarName)).
Qed.

(** *** Arrays *)

Lemma ok_string_array_loop array element hint fuel p0 items p :
  length toks - p_pos p < fuel -> p_pos p0 <= p_pos p ->
  ok (string_array_loop fuel array element hint items) p
    (fun r _ => r.1 <> [] /\ closes p0 r.2).
Proof.
  revert items p. induction fuel as [|fuel IH]; intros items p Hf Hp0; [lia|].
  cbn [string_array_loop]. apply ok_next_bind. intros t p1 F1 N1.
  destruct (kind t) eqn:Ek; try by eapply ok_fail_at.
  apply ok_next_bind. intros sep p2 F2 N2.
  destruct N1 as (T1 & P1 & _). pose proof N2 as (T2 & P2 & _).
  apply lookup_lt_Some in T1. pose proof (lookup_lt_Some _ _ _ T2).
  destruct (kind sep) as [| | | |[]| |] eqn:Es; try by eapply ok_fail_at.
  - apply IH; lia.
  - apply ok_ret. split; simpl; [by destruct items|]. eapply closes_token; [done|lia].
Qed.

Lemma ok_string_array d p :
  (exists t, p_peek p = Some t) ->
  ok (parse_string_array d) p (fun r _ => r.1 <> [] /\ closes p r.2).
Proof.
  intros [lb Hlb]. apply ok_inv. intros Hp. unfold parse_string_array.
  apply (ok_advance_bind lb); [done|]. intros F1. apply ok_gets_bind. case_bool_decide as Hk.
  - destruct (peek_kind_token _ _ Hk) as (rb & Hrb & _).
    apply (ok_advance_bind rb); [done|]. intros F2. apply ok_fail, diag_error. simpl.
    apply (peek_toks p) in Hlb; [|done]. apply peek_toks in Hrb; [|apply F1]. simpl in Hrb.
    pose proof (token_at _ _ Hlb) as (_ & ? & _). pose proof (token_at _ _ Hrb) as (_ & ? & ?).
    pose proof (ordered_lookup toks _ _ _ lb rb Hord Hlb Hrb ltac:(lia)). split; simpl; lia.
  - apply ok_with_fuel, ok_string_array_loop; simpl; lia.
Qed.

Lemma ok_ident_arg d p :
  ok (expect_ident_arg d) p (fun r p' => fits r.1 r.2 /\ closes p (end_ r.2)).
Proof.
  unfold expect_ident_arg. apply ok_next_bind. intros t p1 F1 N1.
  destruct (kind t) eqn:Ek; try by eapply ok_fail_at. apply ok_ret. simpl.
  split; [|by eapply next_closes]. destruct N1 as (T1 & _). by eapply fits_ident.
Qed.

Lemma ok_shell st p : bound st p -> ok (parse_shell st) p directive_post.
Proof.
  intros Hst. unfold parse_shell. apply ok_gets_bind. eapply ok_bind with (R1 := fun r _ => closes p r.2).
  - case_bool_decide as Hk.
    + destruct (peek_kind_token _ _ Hk) as (t & Ht & _).
      eapply ok_weaken; [|apply ok_string_array; by exists t]. by intros r p' _ [_ H].
    + eapply ok_bind; [apply ok_ident_arg|]. intros [text sp] p1 F1 [Hf Hc]. simpl in *.
      eapply ok_bind with (R1 := fun _ _ => True); [|intros argv p2 _ _; by apply ok_ret].
      repeat case_decide; try by apply ok_ret. apply ok_fail, diag_error. by destruct Hf as (_ & _ & ?).
  - intros [argv e] p1 F1 Hc. simpl in *. apply ok_newline_bind. intros p2 F2. apply ok_ret.
    split; [|done]. simpl. by eapply closes_span.
Qed.

Lemma ok_user st p : bound st p -> ok (parse_user st) p directive_post.
Proof.
  intros Hst. unfold parse_user. eapply ok_bind; [apply ok_ident_arg|].
  intros [text sp] p1 F1 [Hf Hc]. simpl in *. apply ok_validated_bind; [done|]. intros name Sn En.
  apply ok_newline_bind. intros p2 F2. apply ok_ret.
  split; simpl; [by eapply closes_span|by eapply (valid_new (T := Username))].
Qed.

Lemma ok_workdir st p : bound st p -> ok (parse_workdir st) p directive_post.
Proof.
  intros Hst. unfold parse_workdir. eapply ok_bind; [apply ok_ident_arg|].
  intros [text sp] p1 F1 [Hf Hc]. simpl in *. apply ok_validated_bind; [done|]. intros path Sn En.
  apply ok_newline_bind. intros p2 F2. apply ok_ret.
  split; simpl; [by eapply closes_span|by eapply (valid_new (T := RecipePath))].
Qed.

(** *** RUN *)

(** A part of an option value fits in the option's span. *)
Definition part (v s : str) : Prop := utf8 s /\ length s <= length v.

Lemma fits_part v s sp : fits v sp -> part v s -> fits s sp.
Proof. intros (H1 & H2 & H3) [H4 H5]. split_and!; [done|lia|done]. Qed.

Lemma split_parts c v : is_ascii c = true -> utf8 v -> Forall (part v) (split c v).
Proof.
  intros Hc. remember (length v) as n eqn:En. revert v En.
  induction n as [n IH] using lt_wf_ind. intros v -> Hv. rewrite split_find.
  destruct (find_byte c v) as [i|] eqn:E; [|constructor; [by split|constructor]].
  pose proof (find_byte_lt _ _ _ E). destruct (utf8_take_find c v i Hc Hv E) as [H1 H2].
  constructor; [split; [done|rewrite length_take; lia]|].
  specialize (IH (length (drop (S i) v))). rewrite length_drop in IH.
  specialize (IH ltac:(lia) (drop (S i) v)). rewrite length_drop in IH.
  eapply Forall_impl; [by apply IH|]. intros s [Hs Hl]. split; [done|]. rewrite length_drop in Hl. lia.
Qed.

Definition fields_ok (v : str) (m : mount_fields) : Prop :=
  (forall s, mf_type m = Some s -> part v s) /\ (forall s, mf_id m = Some s -> part v s)
  /\ (forall s, mf_target m = Some s -> part v s).

Lemma mount_pair_ok v m s : part v s -> fields_ok v m -> fields_ok v (mount_pair m s).
Proof.
  intros [Hu Hl] (H1 & H2 & H3). unfold mount_pair.
  assert (Hval : forall k w, match split_once "=" s with Some kv => kv | None => (s, []) end = (k, w) ->
            part v w).
  { intros k w. unfold split_once. destruct (find_byte "=" s) as [i|] eqn:E.
    - intros [= <- <-]. destruct (utf8_take_find "=" s i eq_refl Hu E) as [_ ?].
      split; [done|]. rewrite length_drop. lia.
    - intros [= <- <-]. split; [constructor|simpl; lia]. }
  destruct (match split_once "=" s with Some kv => kv | None => (s, []) end) as [k w] eqn:E.
  specialize (Hval k w eq_refl). repeat case_decide; (split_and!; simpl; try done);
    intros ? [= <-]; done.
Qed.

Lemma mount_fields_ok v :
  utf8 v ->
  fields_ok v (fold_left mount_pair (split "," v) {| mf_type := None; mf_id := None; mf_target := None |}).
Proof.
  intros Hv. pose proof (split_parts "," v eq_refl Hv) as HF.
  assert (H0 : fields_ok v {| mf_type := None; mf_id := None; mf_target := None |}) by done.
  revert H0. generalize {| mf_type := None; mf_id := None; mf_target := None |}.
  induction HF as [|s l Hs _ IH]; intros m Hm; [done|]. simpl. apply IH. by apply mount_pair_ok.
Qed.

Definition mount_result (r : result Diagnostic RunMount) : Prop :=
  match r with Ok m => mount_ok m | Err d => diagnostic_ok src Severity_Error d end.

Lemma mount_target_ok t sp :
  span_in src sp -> (forall s, t = Some s -> fits s sp) ->
  exists r, mount_target t sp = Val r
    /\ match r with
       | Ok t' => forall x, t' = Some x -> valid (value x)
       | Err d => diagnostic_ok src Severity_Error d
       end.
Proof.
  intros Hsp Ht. destruct t as [t|]; cbn [mount_target]; [|by eexists].
  destruct (RecipePath_new t) as [v|err] eqn:E.
  - eexists. split; [done|]. intros x [= <-]. by eapply (valid_new (T := RecipePath)).
  - destruct (validation_diagnostic err t sp "RUN --mount=type=secret" "target") as (d & -> & Hd); [by apply Ht|].
    by eexists.
Qed.

Lemma run_mount_value_ok v sp :
  fits v sp -> exists r, parse_run_mount_value v sp = Val r /\ mount_result r.
Proof.
  intros Hf. pose proof Hf as (Hu & _ & Hsp). unfold parse_run_mount_value. cbv zeta.
  destruct (mount_fields_ok v Hu) as (_ & Hid & Htg). set (m := fold_left _ _ _) in *.
  destruct (mf_type m) as [ty|]; [|by eexists]. case_decide; [|by eexists].
  unfold secret_mount. destruct (mf_id m) as [raw|] eqn:Eid; [|by eexists].
  destruct (SecretId_new raw) as [sid|err] eqn:Es.
  - destruct (mount_target_ok (mf_target m) sp Hsp) as (r & -> & Hr).
    { intros s Hs. eapply fits_part; [done|]. by apply Htg. }
    simpl. destruct r as [t|d]; eexists; (split; [done|]); simpl; [|done].
    split; [by eapply (valid_new (T := SecretId))|done].
  - destruct (validation_diagnostic err raw sp "RUN --mount=type=secret" "id") as (d & -> & Hd).
    { eapply fits_part; [done|]. by apply Hid. }
    by eexists.
Qed.

Lemma ok_run_mounts fuel mounts p :
  length toks - p_pos p < fuel -> Forall mount_ok mounts ->
  ok (run_mounts_loop fuel mounts) p (fun r _ => Forall mount_ok r).
Proof.
  revert mounts p. induction fuel as [|fuel IH]; intros mounts p Hf HF; [lia|]. cbn [run_mounts_loop].
  apply ok_inv. intros Hp. apply ok_gets_bind.
  destruct (p_peek_kind p) as [[| | | | |name v|]|] eqn:Ek; try by apply ok_ret.
  destruct (peek_kind_token _ _ Ek) as (t & Ht & Hk).
  pose proof Ht as Ht'. apply (peek_toks p t Hp) in Ht'. case_bool_decide; simpl.
  - apply (ok_advance_bind t); [done|]. intros F1. rewrite Hk. destruct v as [v|].
    + pose proof (fits_option_value _ _ _ _ Ht' Hk) as Hfit.
      destruct (run_mount_value_ok v (tok_span t) Hfit) as (r & Er & Hr).
      eapply ok_bind; [by apply (ok_lift _ r _ (fun x p' => x = r /\ p' = set_p_pos (p_pos p + 1) p))|].
      intros x p' _ [-> ->]. destruct r as [m|d]; [|by apply ok_fail].
      apply IH; [simpl; apply lookup_lt_Some in Ht'; lia|]. apply Forall_app. split; [done|].
      constructor; [done|constructor].
    + apply ok_fail, diag_error_hint. by eapply token_span_in.
  - apply ok_gets_bind, ok_fail, diag_error_hint. by apply current_span_in.
Qed.

(** The rest of a line that starts with the token [t]. *)
Lemma ok_slurp_line p t :
  p_peek p = Some t -> is_newline t = false ->
  ok (slurp_line (start (tok_span t))) p
    (fun e p' => closes p e /\ end_ (tok_span t) <= e
       /\ exists raw, slice src (start (tok_span t)) e = Some raw /\ raw <> []).
Proof.
  intros Ht Hn Hp. pose proof (proj1 (peek_toks p t Hp) Ht) as Ht'. pose proof Hp as (_ & E2 & E3 & _).
  set (n := count_while (fun t => negb (is_newline t)) (drop (p_pos p) toks)).
  assert (Hn1 : 1 <= n).
  { unfold n. rewrite (drop_S _ _ _ Ht'). simpl. rewrite Hn. simpl. lia. }
  assert (Hn2 : n <= length toks - p_pos p).
  { unfold n. pose proof (count_while_le (fun t => negb (is_newline t)) (drop (p_pos p) toks)) as H.
    by rewrite length_drop in H. }
  assert (Hlen : length (take n (drop (p_pos p) toks)) = n) by (rewrite length_take, length_drop; lia).
  destruct (lookup_lt_is_Some_2 toks (p_pos p + (n - 1)) ltac:(lia)) as [u Hu].
  assert (Hlast : last (take n (drop (p_pos p) toks)) = Some u).
  { rewrite last_lookup, Hlen. replace (pred n) with (n - 1) by lia.
    rewrite lookup_take_lt, lookup_drop by lia. done. }
  exists (Some (end_ (tok_span u))), (set_p_pos (p_pos p + n) p). split.
  { unfold slurp_line, remaining. rewrite E2. fold n. by rewrite Hlast, Hlen. }
  split; [apply frame_set_pos; [done|lia]|]. split_and!.
  - eapply closes_token; [done|lia].
  - destruct (decide (n = 1)) as [->|Hn'].
    + rewrite Nat.add_0_r in Hu. simplify_eq. done.
    + pose proof (ordered_lookup toks _ _ _ t u Hord Ht' Hu ltac:(lia)).
      destruct (token_at _ _ Hu) as (_ & ? & _). lia.
  - by apply (slice_tokens (p_pos p) (p_pos p + (n - 1))); [|done|lia].
Qed.

Lemma ok_run st p : bound st p -> ok (parse_run st) p directive_post.
Proof.
  intros Hst. unfold parse_run.
  apply ok_fuel_bind. eapply ok_bind; [apply ok_run_mounts; [lia|constructor]|].
  intros mounts p1 F1 Hm. apply ok_inv. intros Hp1. apply ok_gets_bind.
  assert (Hst1 : bound st p1) by (by eapply bound_frame).
  destruct (p_peek p1) as [t|] eqn:Ht.
  2: { apply ok_gets_bind, ok_fail, diag_error. by apply eof_span_in. }
  pose proof (proj1 (peek_toks p1 t Hp1) Ht) as Ht'.
  destruct (is_newline t) eqn:En; [apply ok_fail, diag_error; by eapply token_span_in|].
  cbv zeta. case_bool_decide.
  - eapply ok_bind; [apply ok_string_array; by exists t|]. intros [argv e] p2 F2 [Hne Hc].
    apply ok_newline_bind. intros p3 F3. apply ok_ret. simpl in *.
    split; simpl; [by eapply closes_span|done].
  - eapply ok_bind; [by apply ok_slurp_line|]. intros e p2 F2 (Hc & _ & raw & Hs & Hne).
    apply (ok_slice_bind _ _ raw); [done|]. apply ok_newline_bind. intros p3 F3. apply ok_ret.
    split; simpl; [by eapply closes_span|done].
Qed.

(** *** ADD and COPY *)

Definition from_ok (f : option (Spanned StageName)) : Prop := forall n, f = Some n -> valid (value n) /\ span_in src (span n).

Lemma ok_add_options fuel verb f p :
  length toks - p_pos p < fuel -> from_ok f ->
  ok (add_options_loop fuel verb f) p (fun r _ => from_ok r).
Proof.
  revert f p. induction fuel as [|fuel IH]; intros f p Hf Hok; [lia|]. cbn [add_options_loop].
  apply ok_inv. intros Hp. apply ok_gets_bind.
  destruct (p_peek_kind p) as [[| | | | |name v|]|] eqn:Ek; try by apply ok_ret.
  destruct (peek_kind_token _ _ Ek) as (t & Ht & Hk).
  pose proof Ht as Ht'. apply (peek_toks p t Hp) in Ht'.
  apply (ok_advance_bind t); [done|]. intros F1. rewrite Hk. case_bool_decide; simpl.
  - destruct v as [v|]; [|apply ok_fail, diag_error_hint; by eapply token_span_in].
    apply ok_validated_bind; [by eapply fits_option_value|]. intros n Sn En.
    apply IH; [simpl; apply lookup_lt_Some in Ht'; lia|].
    intros n' [= <-]. rewrite Sn. split; [by eapply (valid_new (T := StageName))|].
    by eapply token_span_in.
  - apply ok_fail, diag_error_hint. by eapply token_span_in.
Qed.

Lemma fits_suffix pre s sp : fits (pre ++ s) sp -> utf8 pre -> fits s sp.
Proof.
  intros (H1 & H2 & H3) Hp. split_and!; [by eapply utf8_app_inv| |done].
  rewrite length_app in H2. lia.
Qed.

Lemma ok_classify text sp verb p :
  fits text sp -> ok (classify_source text sp verb) p (fun a _ => source_ok a).
Proof.
  intros Hf. unfold classify_source.
  assert (Hoci : forall rest, fits rest sp ->
    ok (r ← validated rest sp verb "OCI image reference" OciReference_new_allowing_placeholders;
        mret (AddSource_Oci r)) p (fun a _ => source_ok a)).
  { intros rest Hr. apply ok_validated_bind; [done|]. intros v Sv Ev. apply ok_ret. simpl.
    by eapply oci_placeholder_raw. }
  destruct (strip_prefix "oci://" text) as [rest|] eqn:E1.
  { apply Hoci. apply strip_prefix_spec in E1. subst.
    eapply fits_suffix; [done|]. by apply utf8_ascii. }
  destruct (strip_prefix "https+oci://" text) as [rest|] eqn:E2.
  { apply Hoci. apply strip_prefix_spec in E2. subst.
    eapply fits_suffix; [done|]. by apply utf8_ascii. }
  destruct (_ || _).
  { apply ok_validated_bind; [done|]. intros u Su Eu. apply ok_ret. simpl. by eapply url_placeholder_raw. }
  destruct (is_local_path text) eqn:E3; [apply ok_ret; by left|].
  destruct (looks_like_oci_ref text) eqn:E4; [by apply Hoci|]. apply ok_ret. by right.
Qed.

Lemma ok_add st b p : bound st p -> ok (parse_add st b) p directive_post.
Proof.
  intros Hst. unfold parse_add. cbv zeta. set (verb := if b then _ else _).
  apply ok_fuel_bind. eapply ok_bind; [apply ok_add_options; [lia|done]|].
  intros from p1 F1 Hfrom. apply ok_next_bind. intros st_tok p2 F2 N2.
  destruct (ident_or_string (kind st_tok)) as [text|] eqn:E2; [|by eapply ok_fail_at].
  pose proof N2 as (T2 & _). eapply ok_bind; [apply ok_classify; by eapply fits_ident_or_string|].
  intros source p3 F3 Hsrc3. apply ok_next_bind. intros dst p4 F4 N4.
  destruct (ident_or_string (kind dst)) as [dtext|] eqn:E4; [|by eapply ok_fail_at].
  pose proof N4 as (T4 & _). apply ok_validated_bind; [by eapply fits_ident_or_string|].
  intros dest Sd Ed. apply ok_newline_bind. intros p5 F5. apply ok_ret. split; simpl.
  - rewrite Sd. apply (closes_span p3); [|by eapply next_closes].
    eapply bound_frame; [|done]. by do 2 (eapply frame_trans; [done|]).
  - split_and!; [done|by eapply (valid_new (T := RecipePath))|done].
Qed.

(** *** ENTRYPOINT and CMD *)

Lemma ok_entrypoint_exec p :
  (exists t, p_peek p = Some t) ->
  ok parse_entrypoint_exec p
    (fun r _ => closes p r.2 /\ match r.1 with EntrypointInit_Exec l => l <> [] | _ => False end).
Proof.
  intros [lb Hlb]. apply ok_inv. intros Hp. unfold parse_entrypoint_exec.
  apply (ok_advance_bind lb); [done|]. intros F1. apply ok_gets_bind. case_bool_decide as Hk.
  - destruct (peek_kind_token _ _ Hk) as (rb & Hrb & _).
    apply (ok_advance_bind rb); [done|]. intros F2. apply ok_fail, diag_error. simpl.
    apply (peek_toks p) in Hlb; [|done]. apply peek_toks in Hrb; [|apply F1]. simpl in Hrb.
    pose proof (token_at _ _ Hlb) as (_ & ? & _). pose proof (token_at _ _ Hrb) as (_ & ? & ?).
    pose proof (ordered_lookup toks _ _ _ lb rb Hord Hlb Hrb ltac:(lia)). split; simpl; lia.
  - apply ok_fuel_bind. eapply ok_bind; [apply (ok_string_array_loop _ _ _ _ p); simpl; lia|].
    intros [argv e] p1 _ [Hne Hc]. by apply ok_ret.
Qed.

Lemma ok_entrypoint_path p t s :
  p_peek p = Some t -> kind t = TokenKind_Ident s -> starts_with "/" s = true ->
  ok parse_entrypoint_shell_path p
    (fun r _ => closes p r.2 /\ match r.1 with
       | EntrypointInit_Path x => verbatim src x /\ starts_with "/" (value x) = true
       | _ => False end).
Proof.
  intros Ht Hk Hs. apply ok_inv. intros Hp. pose proof (proj1 (peek_toks p t Hp) Ht) as Ht'.
  unfold parse_entrypoint_shell_path. apply ok_gets_bind. rewrite Ht.
  eapply ok_bind; [apply ok_slurp_line; [done|]; unfold is_newline; by rewrite Hk|].
  intros e p1 F1 (Hc & Hle & raw & Hraw & Hne). apply (ok_slice_bind _ _ raw); [done|].
  apply ok_ret. simpl. split; [done|]. split; [done|].
  destruct (token_slice _ _ Ht') as (text & Htext & _ & HT). rewrite Hk in HT.
  destruct HT as [-> _]. destruct (slice_prefix _ _ _ _ _ Htext Hraw Hle) as [r ->].
  apply starts_with_spec in Hs as [u ->]. apply starts_with_spec. exists (u ++ r).
  by rewrite app_assoc.
Qed.

Lemma ok_entrypoint_keyword p t s :
  p_peek p = Some t ->
  ok (parse_entrypoint_keyword s) p
    (fun r _ => closes p r.2 /\ match r.1 with
       | EntrypointInit_Path _ | EntrypointInit_Exec _ => False | _ => True end).
Proof.
  intros Ht. apply ok_inv. intros Hp. pose proof (proj1 (peek_toks p t Hp) Ht) as Ht'.
  unfold parse_entrypoint_keyword. apply (ok_advance_bind t); [done|]. intros F1.
  eapply ok_bind with (R1 := fun i _ => match i with
       | EntrypointInit_Path _ | EntrypointInit_Exec _ => False | _ => True end).
  - repeat case_decide; try by apply ok_ret. apply ok_fail, diag_error_hint. by eapply token_span_in.
  - intros i p' _ Hi. apply ok_ret. split; [|done]. by eapply closes_token.
Qed.

(** The result of a form of [ENTRYPOINT]. *)
Definition init_post (p : Parser) (r : EntrypointInit * nat) (_ : Parser) : Prop :=
  closes p r.2 /\ match r.1 with
    | EntrypointInit_Path x => verbatim src x /\ starts_with "/" (value x) = true
    | EntrypointInit_Exec l => l <> []
    | _ => True
    end.

Lemma ok_entrypoint_form p k :
  p_peek_kind p = Some k -> ok (parse_entrypoint_form k) p (init_post p).
Proof.
  intros Ek. apply ok_inv. intros Hp. destruct (peek_kind_token _ _ Ek) as (t & Ht & Hk).
  assert (Hbad : forall note, ok (A := EntrypointInit * nat) (tok ← p_advance;
    fail_with (error "expected ENTRYPOINT argument" (mkAnnotation (tok_span tok) note))) p (init_post p)).
  { intros note. apply (ok_advance_bind t); [done|]. intros F1. apply ok_fail, diag_error.
    apply (peek_toks p t Hp) in Ht. by eapply token_span_in. }
  destruct k as [kw|s|s|n|x|name v|]; try apply Hbad; unfold parse_entrypoint_form.
  - destruct (starts_with "/" s) eqn:Es.
    + eapply ok_weaken; [|by eapply ok_entrypoint_path]. unfold init_post. intros [[] e] p' _; simpl; tauto.
    + eapply ok_weaken; [|by eapply ok_entrypoint_keyword]. unfold init_post. intros [[] e] p' _; simpl; tauto.
  - destruct x; try apply Hbad.
    eapply ok_weaken; [|apply ok_entrypoint_exec; by exists t]. unfold init_post.
    intros [[] e] p' _; simpl; tauto.
Qed.

Lemma ok_entrypoint st p : bound st p -> ok (parse_entrypoint st) p directive_post.
Proof.
  intros Hst. unfold parse_entrypoint. apply ok_inv. intros Hp. apply ok_gets_bind.
  assert (Herr : forall note h, ok (A := Directive) (sp ← gets current_or_eof_span;
    fail_with (with_hint (error "expected argument after ENTRYPOINT" (mkAnnotation sp note)) h))
    p directive_post).
  { intros note h. apply ok_gets_bind, ok_fail, diag_error_hint. by apply current_span_in. }
  assert (Hrest : forall k, p_peek_kind p = Some k -> ok (parse_entrypoint_rest st k) p directive_post).
  { intros k Hk. eapply ok_bind; [by apply ok_entrypoint_form|]. intros [init e] p1 F1 [Hc Hi]. simpl in *.
    apply ok_newline_bind. intros p2 F2. apply ok_ret. split; simpl; [by eapply closes_span|].
    by destruct init. }
  destruct (p_peek_kind p) as [[]|]; try apply Herr; by apply Hrest.
Qed.

Lemma ok_cmd_form p k : p_peek_kind p = Some k -> k <> TokenKind_Newline ->
  ok (parse_cmd_form k) p (fun r _ => closes p r.2 /\
    match r.1 with CmdForm_Shell s => verbatim src s | CmdForm_Exec l => l <> [] end).
Proof.
  intros Ek Hn. destruct (peek_kind_token _ _ Ek) as (t & Ht & Hk). unfold parse_cmd_form. case_bool_decide.
  - eapply ok_bind; [apply ok_string_array; exists t; by subst|]. intros [argv e] p1 F1 [Hne Hc].
    by apply ok_ret.
  - apply ok_gets_bind. rewrite Ht. eapply ok_bind.
    + apply ok_slurp_line; [done|]. unfold is_newline. destruct (kind t); congruence.
    + intros e p1 F1 (Hc & _ & raw & Hs & Hne). apply (ok_slice_bind _ _ raw); [done|].
      by apply ok_ret.
Qed.

Lemma ok_cmd st p : bound st p -> ok (parse_cmd st) p directive_post.
Proof.
  intros Hst. unfold parse_cmd. apply ok_inv. intros Hp. apply ok_gets_bind.
  assert (Herr : forall note h, ok (A := Directive) (sp ← gets current_or_eof_span;
    fail_with (with_hint (error "expected a command after CMD" (mkAnnotation sp note)) h))
    p directive_post).
  { intros note h. apply ok_gets_bind, ok_fail, diag_error_hint. by apply current_span_in. }
  assert (Hrest : forall k, p_peek_kind p = Some k -> k <> TokenKind_Newline ->
    ok (parse_cmd_rest st k) p directive_post).
  { intros k Hk Hn. eapply ok_bind; [by apply ok_cmd_form|]. intros [cmd e] p1 F1 [Hc Hi]. simpl in *.
    apply ok_newline_bind. intros p2 F2. apply ok_ret. split; simpl; [by eapply closes_span|done]. }
  destruct (p_peek_kind p) as [[]|]; try apply Herr; by apply Hrest.
Qed.

(** *** VOLUME, STOPSIGNAL and EXPOSE *)

Lemma ok_volume_loop fuel p0 paths e p :
  length toks - p_pos p < fuel -> p_pos p0 <= p_pos p ->
  (paths <> [] -> closes p0 e) ->
  (paths = [] -> exists t, p_peek p = Some t /\ is_newline t = false) ->
  ok (volume_loop fuel paths e) p (fun r _ => r.1 <> [] /\ closes p0 r.2).
Proof.
  revert paths e p. induction fuel as [|fuel IH]; intros paths e p Hf Hp0 He Hne; [lia|].
  cbn [volume_loop]. apply ok_inv. intros Hp. apply ok_gets_bind.
  assert (Hret : paths <> [] -> ok (mret (paths, e)) p (fun r _ => r.1 <> [] /\ closes p0 r.2)).
  { intros Hn. apply ok_ret. split; [done|by apply He]. }
  destruct (p_peek p) as [t|] eqn:Ht; cycle 1.
  { apply Hret. intros E0. by destruct (Hne E0) as (? & ? & _). }
  pose proof (proj1 (peek_toks p t Hp) Ht) as Ht'.
  assert (Hgo : forall s, ok (_ ← p_skip;
    volume_loop fuel (paths ++ [mkSpanned s (tok_span t)]) (end_ (tok_span t))) p
    (fun r _ => r.1 <> [] /\ closes p0 r.2)).
  { intros s. apply (ok_skip_bind t); [done|]. intros F1. apply IH; simpl.
    - apply lookup_lt_Some in Ht'. lia.
    - lia.
    - intros _. by eapply closes_token.
    - by destruct paths. }
  destruct (kind t) eqn:Ek;
    first [apply Hgo | by (apply ok_fail, diag_error; by eapply token_span_in) | idtac].
  apply Hret. intros E0. destruct (Hne E0) as (t' & [= <-] & Hs). unfold is_newline in Hs. by rewrite Ek in Hs.
Qed.

Lemma ok_volume st p : bound st p -> ok (parse_volume st) p directive_post.
Proof.
  intros Hst. unfold parse_volume. apply ok_inv. intros Hp. apply ok_gets_bind.
  assert (Herr : forall note, ok (A := Directive) (sp ← gets current_or_eof_span;
    fail_with (error "expected a path after VOLUME" (mkAnnotation sp note))) p directive_post).
  { intros note. apply ok_gets_bind, ok_fail, diag_error. by apply current_span_in. }
  assert (Hrest : forall k, p_peek_kind p = Some k -> k <> TokenKind_Newline ->
    ok (parse_volume_rest st k) p directive_post).
  { intros k Ek Hn. destruct (peek_kind_token _ _ Ek) as (t & Ht & Hk).
    eapply ok_bind with (R1 := fun r _ => r.1 <> [] /\ closes p r.2).
    - case_bool_decide; [apply ok_string_array; exists t; by subst|].
      apply ok_with_fuel, ok_volume_loop; [lia|done|done|]. intros _. exists t. split; [done|].
      unfold is_newline. destruct (kind t); congruence.
    - intros [paths e] p1 F1 [Hne Hc]. simpl in *. apply ok_newline_bind. intros p2 F2. apply ok_ret.
      split; simpl; [by eapply closes_span|done]. }
  destruct (p_peek_kind p) as [[]|]; try apply Herr; by apply Hrest.
Qed.

Lemma ok_stopsignal st p : bound st p -> ok (parse_stopsignal st) p directive_post.
Proof.
  intros Hst. unfold parse_stopsignal. apply ok_next_bind. intros t p1 F1 N1.
  destruct (match kind t with TokenKind_Ident s => Some s | TokenKind_Number n => Some (to_decimal n)
            | _ => None end); [|by eapply ok_fail_at].
  apply ok_newline_bind. intros p2 F2. apply ok_ret. split; [|done]. simpl.
  eapply closes_span; [done|by eapply next_closes].
Qed.

Lemma ok_expose_entry p :
  ok parse_expose_entry p (fun r p' =>
    (r.1.1 <= u16_max)%N /\ closes p (end_ r.2) /\ start r.2 <= end_ r.2 /\ p_pos p < p_pos p').
Proof.
  unfold parse_expose_entry. apply ok_next_bind. intros t p1 F1 N1. pose proof N1 as (T1 & P1 & _).
  destruct (token_at _ _ T1) as (_ & Hlt & _).
  eapply ok_bind with (R1 := fun n p' => (n <= u16_max)%N /\ p' = p1).
  { destruct (kind t) as [| | |n| | |]; try by eapply ok_fail_at.
    destruct (n <=? u16_max)%N eqn:En; [|by eapply ok_fail_at]. apply ok_ret.
    split; [by apply N.leb_le|done]. }
  intros port p1' _ [Hport ->]. apply ok_gets_bind. cbv zeta. destruct (negb _).
  { apply ok_ret. simpl. split_and!; [done|by eapply next_closes|lia|lia]. }
  apply ok_next_bind. intros pt p2 F2 N2. pose proof N2 as (T2 & P2 & _).
  destruct (kind pt); try by eapply ok_fail_at. destruct (protocol_of _); [|by eapply ok_fail_at].
  pose proof (ordered_lookup toks _ _ _ t pt Hord T1 T2 ltac:(lia)).
  destruct (token_at _ _ T2) as (_ & ? & _).
  apply ok_ret. simpl. split_and!; [done| |lia|lia]. eapply closes_token; [done|lia].
Qed.

Lemma ok_expose_loop fuel p0 st built p :
  length toks - p_pos p < fuel -> p_pos p0 <= p_pos p -> bound st p0 ->
  Forall (directive_ok src) built ->
  ok (expose_loop fuel st built) p (fun r _ => Forall (directive_ok src) r /\ r <> []).
Proof.
  revert built p. induction fuel as [|fuel IH]; intros built p Hf Hp0 Hst HF; [lia|]. cbn [expose_loop].
  eapply ok_bind; [apply ok_expose_entry|]. intros [[port proto] sp] p1 F1 (Hport & Hc & Hs & Hlt).
  simpl in *. apply ok_gets_bind. set (d := Directive_Expose _).
  assert (HF' : Forall (directive_ok src) (built ++ [d])).
  { apply Forall_app. split; [done|]. constructor; [|constructor]. split; [|done]. simpl.
    destruct built; [|destruct Hc; split; lia]. eapply closes_span; [done|]. by eapply closes_pos. }
  assert (Hret : ok (mret (built ++ [d])) p1 (fun r _ => Forall (directive_ok src) r /\ r <> [])).
  { apply ok_ret. split; [done|]. by destruct built. }
  destruct (p_peek_kind p1) as [[]|] eqn:Ek; try done.
  apply IH; [|destruct F1 as [_ ? _ _]; lia|done|done].
  destruct (peek_kind_token _ _ Ek) as (t & Ht & _). apply peek_toks in Ht; [|apply F1].
  apply lookup_lt_Some in Ht. lia.
Qed.

Lemma ok_expose st p : bound st p -> ok (parse_expose st) p directive_post.
Proof.
  intros Hst. unfold parse_expose.
  apply ok_fuel_bind. eapply ok_bind; [apply (ok_expose_loop _ p); [lia|done|done|constructor]|].
  intros built p1 _ [HB Hne]. apply ok_newline_bind. intros p2 _. by apply ok_take_first.
Qed.

(** *** Dispatch *)

Lemma ok_dispatch p0 t kw p :
  toks !! p_pos p0 = Some t -> p_pos p = p_pos p0 + 1 -> ok (dispatch t kw) p directive_post.
Proof.
  intros Ht Hp. assert (Hst : bound (start (tok_span t)) p).
  { exists (p_pos p0), t. split_and!; [lia|done|done]. }
  pose proof (token_span_in _ _ Ht) as Hsp. unfold dispatch, removed_directive.
  destruct kw; try by (apply ok_fail, diag_error); try by (apply ok_fail, diag_error_hint).
  - by apply ok_label.
  - by apply ok_env.
  - eapply ok_weaken; [|by apply ok_arg]. intros d p' _ (a & -> & Ha). split; [|done]. by apply Ha.
  - by apply ok_shell.
  - by apply ok_user.
  - by apply ok_workdir.
  - by apply ok_run.
  - by apply ok_add.
  - by apply ok_entrypoint.
  - by apply ok_expose.
  - by apply ok_cmd.
  - by apply ok_volume.
  - by apply ok_stopsignal.
  - by apply ok_add.
Qed.

Definition warned (p p' : Parser) : Prop := length (p_warnings p) < length (p_warnings p').

(** A directive that is not parsed has been reported, as an error or, for the
    known unsupported ones, as a warning. *)
Lemma wp_directive p t :
  pinv p -> p_peek p = Some t ->
  wp parse_directive p (fun r p' => frame p p' /\
    match r with
    | Some d => directive_ok src d /\ p_pos p < p_pos p'
    | None => grew p p' \/ warned p p'
    end).
Proof.
  intros Hp Ht. pose proof (proj1 (peek_toks p t Hp) Ht) as Ht'.
  pose proof (token_span_in _ _ Ht') as Hsp.
  assert (Hok : forall m, ok m p (fun d p' => directive_ok src d /\ p_pos p < p_pos p') ->
    wp m p (fun r p' => frame p p' /\ match r with
      | Some d => directive_ok src d /\ p_pos p < p_pos p' | None => grew p p' \/ warned p p' end)).
  { intros m Hm. eapply wp_mono; [|exact (Hm Hp)]. intros [d|] p' [HF HR]; split; auto. }
  assert (Herr : forall msg note, ok (A := Directive) (fail_with (error msg (mkAnnotation (tok_span t) note))) p
    (fun d p' => directive_ok src d /\ p_pos p < p_pos p')).
  { intros msg note. by apply ok_fail, diag_error. }
  unfold parse_directive. apply wp_bind. exists (Some (p_peek p)), p. split; [done|]. rewrite Ht.
  destruct (kind t) as [kw|name|s|n|x|on ov|] eqn:Ek; try by apply Hok, Herr.
  - apply Hok. apply (ok_skip_bind t); [done|]. intros F1.
    eapply ok_weaken; [|apply (ok_dispatch p); [done|done]]. intros d p' F2 Hd. split; [done|].
    destruct F2 as [_ ? _ _]. simpl in *. lia.
  - destruct (unsupported_dockerfile_directive name) as [h|]; simpl; [|by apply Hok, Herr].
    eexists None, _. split; [done|]. split; [by apply frame_add_warning|]. right. unfold warned. simpl.
    rewrite length_app. simpl. lia.
Qed.

(** *** Stages *)

Lemma ok_try_wp {A} (m : P A) p (Q : option A -> Parser -> Prop) :
  (pinv p -> wp m p (fun r p' => frame p p' /\ Q r p')) -> ok (try m) p Q.
Proof.
  intros H Hp. destruct (H Hp) as (r & p' & E & HF & HQ). exists (Some r), p'.
  unfold try. rewrite E. done.
Qed.

Lemma ok_set_pending p ds (R : unit -> Parser -> Prop) :
  Forall (directive_ok src) ds -> R tt (set_pending ds p) -> ok (modify (set_pending ds)) p R.
Proof.
  intros Hds HR. apply ok_modify; [|done]. intros (H1 & H2 & H3 & (H4 & H5 & H6)).
  split; simpl; try done; exists []; by rewrite app_nil_r.
Qed.

(** One round of the directive loop: a directive and the ones queued with it,
    or a skipped line. *)
Lemma ok_stage_round ds p t :
  p_peek p = Some t -> Forall (directive_ok src) ds ->
  ok (d ← try parse_directive;
      match d with
      | Some d =>
          pending ← gets p_pending;
          _ ← modify (set_pending []);
          mret (ds ++ [d] ++ pending)
      | None => _ ← recover_to_eol; mret ds
      end) p (fun r p' => Forall (directive_ok src) r /\ p_pos p < p_pos p').
Proof.
  intros Ht HF. apply ok_inv. intros Hp. pose proof (proj1 (peek_toks p t Hp) Ht) as Ht'.
  pose proof (lookup_lt_Some _ _ _ Ht') as Hlt.
  eapply ok_bind.
  - apply ok_try_wp with (Q := fun d p' => match d with
      | Some d => directive_ok src d /\ p_pos p < p_pos p' | None => True end).
    intros _. eapply wp_mono; [|by eapply wp_directive]. intros [d|] p' [? ?]; by split.
  - intros [d|] p1 F1 HQ.
    + destruct HQ as [Hd Hpos]. apply ok_inv. intros (_ & _ & _ & (Hpend & _)). apply ok_gets_bind.
      eapply ok_bind; [apply ok_set_pending with (R := fun _ p' => p_pos p1 <= p_pos p'); done|].
      intros [] p2 F2 Hp2. apply ok_ret. split; [|lia]. apply Forall_app. split; [done|].
      by constructor.
    + eapply ok_bind; [apply ok_recover_to_eol|]. intros [] p2 F2 Hp2. apply ok_ret. split; [done|].
      destruct F1 as [_ ? _ _], F2 as [_ ? _ _]. destruct (decide (p_pos p1 < length toks)); [|lia].
      specialize (Hp2 ltac:(done)). lia.
Qed.

Lemma bind_assoc {A B C} (m : P A) (f : A -> P B) (g : B -> P C) p :
  ((m ≫= f) ≫= g) p = (m ≫= (fun a => f a ≫= g)) p.
Proof. unfold mbind, P_bind. by destruct (m p) as [[[]]| |]. Qed.

Lemma ok_eq {A} (m m' : P A) p (R : A -> Parser -> Prop) : m p = m' p -> ok m p R -> ok m' p R.
Proof. intros E H Hp. unfold wp. rewrite <- E. by apply H. Qed.

Lemma ok_stage_loop fuel ds p :
  length toks - p_pos p < fuel -> Forall (directive_ok src) ds ->
  ok (stage_loop fuel ds) p (fun r _ => Forall (directive_ok src) r).
Proof.
  revert ds p. induction fuel as [|fuel IH]; intros ds p Hf HF; [lia|]. cbn [stage_loop].
  eapply ok_bind; [apply ok_skip_newlines|]. intros [] p1 F1 _. apply ok_gets_bind.
  destruct (ends_stage (p_peek_kind p1)) eqn:Ef; [by apply ok_ret|].
  destruct (p_peek_kind p1) as [k|] eqn:Ek; [|done].
  destruct (peek_kind_token _ _ Ek) as (t & Ht & _).
  eapply ok_eq; [apply bind_assoc|]. eapply ok_bind; [by eapply ok_stage_round|].
  intros ds' p2 F2 [HF' Hpos]. apply ok_gets_bind. case_bool_decide; [by apply ok_ret|].
  apply IH; [|done]. destruct F1 as [I1 ? _ _]. apply peek_toks in Ht; [|done].
  apply lookup_lt_Some in Ht. lia.
Qed.

Lemma ok_from_source text sp p :
  fits text sp -> ok (parse_from_source text sp) p (fun s _ =>
    match s with FromSource_Scratch => True
    | FromSource_Reference r => OciReference_new_allowing_placeholders (oci_raw (value r)) = Ok (value r) end).
Proof.
  intros Hf. unfold parse_from_source. case_decide; [by apply ok_ret|].
  apply ok_validated_bind; [done|]. intros v Sv Ev. apply ok_ret. by eapply oci_placeholder_raw.
Qed.

Lemma ok_stage_name p0 e p :
  p_pos p0 <= p_pos p -> closes p0 e ->
  ok (parse_stage_name e) p (fun r _ => from_ok r.1 /\ closes p0 r.2).
Proof.
  intros Hp0 He. unfold parse_stage_name.
  eapply ok_bind with (R1 := fun _ p' => p_pos p <= p_pos p').
  - unfold match_keyword. apply ok_gets_bind. case_bool_decide as Hk; [|by apply ok_ret].
    destruct (peek_kind_token _ _ Hk) as (t & Ht & _). apply (ok_skip_bind t); [done|]. intros F.
    apply ok_ret. simpl. lia.
  - intros b p1 F1 Hpos. destruct b; [|by apply ok_ret]. apply ok_next_bind. intros t p2 F2 N2.
    destruct (kind t) eqn:Ek; try by eapply ok_fail_at. pose proof N2 as (T2 & _).
    apply ok_validated_bind; [by eapply fits_ident|]. intros v Sv Ev. apply ok_ret. simpl. split.
    + intros n [= <-]. rewrite Sv. split; [by eapply (valid_new (T := StageName))|].
      by eapply token_span_in.
    + eapply closes_token; [done|lia].
Qed.

Lemma ok_last_consumed_end p : ok last_consumed_end p (fun e _ => e <= length src).
Proof.
  intros Hp. pose proof Hp as (_ & E2 & E3 & _). unfold wp, last_consumed_end. case_bool_decide as H0.
  - eexists _, _. split; [done|]. split; [by apply frame_refl|]. lia.
  - destruct (lookup_lt_is_Some_2 toks (p_pos p - 1) ltac:(lia)) as [u Hu]. rewrite E2, Hu.
    eexists _, _. split; [done|]. split; [by apply frame_refl|]. by apply (token_at _ _ Hu).
Qed.

(** What [parse_stage] does after the [FROM] keyword. *)
Lemma ok_stage_rest t p0 p :
  toks !! p_pos p0 = Some t -> p_pos p = p_pos p0 + 1 ->
  ok (arg_tok ← advance_or_err "expected reference after FROM"
        "FROM takes either an OCI image reference (e.g. `debian:bookworm`) or `scratch`";
      match kind arg_tok with
      | TokenKind_Ident arg_ident =>
          src ← parse_from_source arg_ident (tok_span arg_tok);
          '(name, after_name_end) ← parse_stage_name (end_ (tok_span arg_tok));
          let from := {| from_source := src; from_span := mkSpan (start (tok_span t)) after_name_end |} in
          _ ← expect_newline_after "FROM";
          directives ← with_fuel (fun fuel => stage_loop fuel []);
          last_end ← last_consumed_end;
          mret {| stage_from := from; stage_name := name; stage_directives := directives;
                  stage_span := mkSpan (start (tok_span t)) (max last_end after_name_end) |}
      | _ =>
          fail_with (with_hint (error "expected reference after FROM"
                       (mkAnnotation (tok_span arg_tok) "expected an identifier or `scratch`"))
                       "example: `FROM debian:bookworm`")
      end) p (fun s _ => stage_ok src s).
Proof.
  intros Ht Hpos. assert (Hst : bound (start (tok_span t)) p).
  { exists (p_pos p0), t. split_and!; [lia|done|done]. }
  apply ok_next_bind. intros arg p1 F1 N1. pose proof N1 as (T1 & P1 & _).
  destruct (kind arg) eqn:Ek; try by eapply ok_fail_at_hint.
  eapply ok_bind; [apply ok_from_source; by eapply fits_ident|]. intros source p2 F2 Hsource.
  eapply ok_bind; [apply (ok_stage_name p)|].
  { destruct F2 as [_ ? _ _]. lia. }
  { by eapply next_closes. }
  intros [name e] p3 F3 [Hname Hc]. simpl in *. apply ok_newline_bind. intros p4 F4.
  apply ok_fuel_bind. eapply ok_bind; [apply ok_stage_loop; [lia|constructor]|]. intros ds p5 F5 HD.
  eapply ok_bind with (R1 := fun e' _ => e' <= length src).
  - apply ok_last_consumed_end.
  - intros e' p6 F6 He'. apply ok_ret. pose proof (closes_span p _ _ Hst Hc) as [S1 S2]. simpl in *.
    split_and!; simpl; try done. split; simpl; lia.
Qed.

(** A stage that is not parsed leaves the parser behind its [FROM], or in
    front of the token that should have been one. *)
Lemma wp_stage p t :
  pinv p -> p_peek p = Some t ->
  wp parse_stage p (fun r p' => frame p p' /\
    (p_pos p < p_pos p' \/ (r = None /\ p_pos p' = p_pos p /\ is_from t = false)) /\
    match r with Some s => stage_ok src s | None => grew p p' end).
Proof.
  intros Hp Ht. pose proof (proj1 (peek_toks p t Hp) Ht) as Ht'.
  assert (Hk : p_peek_kind p = Some (kind t)) by (unfold p_peek_kind; by rewrite Ht).
  unfold parse_stage, expect_keyword. apply wp_bind.
  destruct (decide (kind t = TokenKind_Keyword KW_From)) as [Hf|Hf].
  - destruct (ok_advance p t (fun x p' => x = t /\ p' = set_p_pos (p_pos p + 1) p) Ht ltac:(done) Hp)
      as (r & p1 & E1 & F1 & HR).
    exists (Some t), (set_p_pos (p_pos p + 1) p). split.
    { unfold mbind, P_bind, gets. rewrite Hk, Hf, bool_decide_eq_true_2 by done.
      unfold p_advance. unfold p_peek in Ht. by rewrite Ht. }
    assert (F2 : frame p (set_p_pos (p_pos p + 1) p)).
    { apply frame_set_pos; [done|]. apply lookup_lt_Some in Ht'. lia. }
    pose proof (ok_stage_rest t p (set_p_pos (p_pos p + 1) p) Ht' eq_refl (fr_inv _ _ F2)) as HW.
    eapply wp_mono; [|exact HW]. intros r' p' [F3 HR']. split_and!.
    + by eapply frame_trans.
    + left. destruct F3 as [_ HP3 _ _]. simpl in HP3. lia.
    + destruct r'; [done|]. by eapply grew_frame_l.
  - destruct (ok_fail (A := Token) (error "expected FROM at start of stage" (mkAnnotation
      (current_or_eof_span p) "every UMF stage must begin with a FROM directive")) p (fun _ _ => True))
      as (r & p1 & E1 & F1 & HR).
    { apply diag_error. by apply current_span_in. }
    { done. }
    injection E1 as <- <-. exists None, (add_error (error "expected FROM at start of stage" (mkAnnotation
      (current_or_eof_span p) "every UMF stage must begin with a FROM directive")) p). split.
    { unfold mbind, P_bind, gets. rewrite Hk, bool_decide_eq_false_2 by congruence. done. }
    split; [done|]. split; [|done]. right. split_and!; [done|done|].
    unfold is_from. by destruct (kind t) as [[]| | | | | |].
Qed.

Lemma ok_global_args fuel p : length toks - p_pos p < fuel -> ok (global_args_loop fuel) p (fun _ _ => True).
Proof.
  revert p. induction fuel as [|fuel IH]; intros p Hf; [lia|]. cbn [global_args_loop].
  eapply ok_bind; [apply ok_skip_newlines|]. intros [] p1 F1 _. apply ok_inv. intros Hp1.
  apply ok_gets_bind. destruct (p_peek p1) as [t|] eqn:Ht; [|by apply ok_ret].
  pose proof (proj1 (peek_toks p1 t Hp1) Ht) as Ht'.
  assert (Herr : forall note h, ok (push_err (with_hint (error "only ARG may appear before FROM"
    (mkAnnotation (tok_span t) note)) h)) p1 (fun _ _ => True)).
  { intros note h. apply ok_push_err; [|done]. apply diag_error_hint. by eapply token_span_in. }
  destruct (kind t) as [[]| | | | | |] eqn:Ek; try apply Herr; [by apply ok_ret|].
  apply (ok_skip_bind t); [done|]. intros F2.
  assert (Hst : bound (start (tok_span t)) (set_p_pos (p_pos p1 + 1) p1)).
  { exists (p_pos p1), t. split_and!; [simpl; lia|done|done]. }
  eapply ok_bind; [eapply (ok_try _ _ _ (fun d p' => match d with
      | Some d => exists a, d = Directive_Arg a /\ arg_ok src a | None => True end) (ok_arg _ _ Hst)); done|].
  intros d p2 F3 Hd. eapply ok_bind with (R1 := fun _ p' => p_pos p2 <= p_pos p').
  - assert (Hrec : ok recover_to_eol p2 (fun _ p' => p_pos p2 <= p_pos p')).
    { eapply ok_weaken; [|apply ok_recover_to_eol]. intros _ p' HF _. apply HF. }
    destruct d as [d|]; [|done]. destruct Hd as (a & -> & Ha). apply ok_modify; [|done].
    intros (H1 & H2 & H3 & (H4 & H5 & H6)). split; simpl; try done; [|exists []; by rewrite app_nil_r..].
    split_and!; [done|done|done|]. split_and!; [done| |done]. apply Forall_app. split; [done|].
    constructor; [done|constructor].
  - intros [] p3 F4 Hp3. apply IH. destruct F1 as [_ ? _ _], F3 as [_ HP3 _ _]. simpl in HP3.
    apply lookup_lt_Some in Ht'. lia.
Qed.

Lemma ok_top_loop fuel p : length toks - p_pos p < fuel -> ok (top_loop fuel) p (fun _ _ => True).
Proof.
  revert p. induction fuel as [|fuel IH]; intros p Hf; [lia|]. cbn [top_loop]. apply ok_inv. intros Hp.
  apply ok_gets_bind. pose proof Hp as (_ & E2 & _). rewrite E2. case_bool_decide as Hlt; [|by apply ok_ret].
  cbn [negb]. destruct (lookup_lt_is_Some_2 toks (p_pos p) Hlt) as [t Ht'].
  pose proof (proj2 (peek_toks p t Hp) Ht') as Ht.
  eapply ok_bind; [apply ok_try_wp with (Q := fun s p' =>
    (p_pos p < p_pos p' \/ (s = None /\ p_pos p' = p_pos p /\ is_from t = false))
    /\ match s with Some s => stage_ok src s | None => True end)|].
  - intros _. eapply wp_mono; [|by eapply wp_stage]. intros r p' (H1 & H2 & H3). split; [done|].
    split; [done|]. by destruct r.
  - intros s p1 F1 [Hpos Hs]. eapply ok_bind with (R1 := fun _ p' => p_pos p < p_pos p').
    + destruct s as [s|].
      * destruct Hpos as [Hpos|[? _]]; [|done]. apply ok_modify; [|done].
        intros (H1 & H2 & H3 & (H4 & H5 & H6)). split; simpl; try done; [|exists []; by rewrite app_nil_r..].
        split_and!; [done|done|done|]. split_and!; [done|done|]. apply Forall_app. split; [done|].
        constructor; [done|constructor].
      * eapply ok_weaken; [|apply ok_recover_to_next_stage]. intros [] p' F2 HR.
        destruct Hpos as [Hpos|(_ & Hpos & Hf')]; [destruct F2 as [_ ? _ _]; lia|].
        rewrite <- Hpos. apply (HR t); [|done]. destruct F1 as [I1 _ _ _].
        apply (peek_toks p1 t I1). by rewrite Hpos.
    + intros [] p2 F2 Hp2. eapply ok_bind; [apply ok_skip_newlines|]. intros [] p3 F3 _.
      apply ok_gets_bind. case_bool_decide; [by apply ok_ret|]. apply IH.
      destruct F3 as [_ ? _ _]. lia.
Qed.

Lemma ok_parse_top p : ok parse_top p (fun _ _ => True).
Proof.
  unfold parse_top. eapply ok_bind; [apply ok_skip_newlines|]. intros _ p1 _ _.
  eapply ok_bind; [apply ok_with_fuel, ok_global_args; lia|]. intros _ p2 _ _.
  apply ok_with_fuel, ok_top_loop. lia.
Qed.

(** The whole parser, on tokens the scanner produced. *)
Lemma grammar_parse_spec :
  exists r, grammar_parse src toks = Val r /\
    match r with
    | Ok (ast, ws) =>
        Forall (arg_ok src) (global_args ast) /\ Forall (stage_ok src) (stages ast)
        /\ Forall (diagnostic_ok src Severity_Warning) ws
    | Err es => es <> [] /\ Forall (diagnostic_ok src Severity_Error) es
    end.
Proof.
  assert (H0 : pinv (Parser_new src toks)).
  { split_and!; [done|done|simpl; lia|]. split_and!; constructor. }
  destruct (ok_parse_top (Parser_new src toks) H0) as (r & p & E & [HI _ (es & Hes & HF) (ws & Hws & HW)] & _).
  unfold grammar_parse. rewrite E. simpl in *. destruct HI as (_ & _ & _ & (_ & HA & HS)).
  destruct (p_errors p) as [|e es'] eqn:Ee.
  - eexists. split; [done|]. simpl. by rewrite Hws.
  - eexists. split; [done|]. split; [done|by rewrite Hes].
Qed.
End parser.

(** ** On the output of the scanner *)

Lemma tokenize_grammar src :
  utf8 src -> exists toks errs, tokenize src = Val (toks, errs)
    /\ Forall (token_ok src) toks /\ ordered_before toks (length src)
    /\ Forall (diagnostic_ok src Severity_Error) errs.
Proof.
  intros H. destruct (tokenize_inv src H) as (l & E & [I1 I2 _ I4 I5] & Es & Hp).
  exists (tokens l), (errors l). rewrite Es in I1, I5. rewrite Hp in I2. split_and!; [done..|].
  rewrite Forall_forall in *. intros d Hd. specialize (I4 d Hd). specialize (I5 d Hd).
  apply is_plain_error_true in I4 as [H4 Hn]. split_and!; [done|done|by rewrite Hn].
Qed.

(** ** Properties *)

(** No line of a stage is dropped silently.  From any state the
    parser can be in, [parse_directive] returns; it either yields a well-formed
    directive and has moved forward, or it has added an error, or a warning for
    a known unsupported directive.  It never loses diagnostics or parts of the
    tree it was given. *)
Theorem parse_directive_reports src toks errs p :
  utf8 src -> tokenize src = Val (toks, errs) -> pinv src toks p -> p_pos p < length toks ->
  exists r p', parse_directive p = Val (r, p')
    /\ pinv src toks p' /\ p_pos p <= p_pos p'
    /\ p_errors p `prefix_of` p_errors p' /\ p_warnings p `prefix_of` p_warnings p'
    /\ match r with
       | Some d => directive_ok src d /\ p_pos p < p_pos p'
       | None => p_errors p' <> p_errors p \/ p_warnings p' <> p_warnings p
       end.
Proof.
  intros Hu HT Hp Hlt. destruct (tokenize_grammar src Hu) as (toks' & errs' & E & H1 & H2 & _).
  rewrite E in HT. injection HT as -> ->. destruct (lookup_lt_is_Some_2 _ _ Hlt) as [t Ht].
  assert (Hk : p_peek p = Some t) by (by apply (peek_toks src toks)).
  destruct (wp_directive src toks Hu H1 H2 p t Hp Hk)
    as (r & p' & Er & [HI Hpos (es & He & _) (ws & Hw & _)] & HR).
  exists r, p'. split_and!; [done|done|done|by exists es|by exists ws|].
  destruct r as [d|]; [done|]. unfold grew, warned in HR.
  destruct HR as [HR|HR]; [left|right]; intros EE; rewrite EE in HR; lia.
Qed.

Lemma parse_directive_reports_witness :
  let toks := [mkToken (TokenKind_Ident "BOGUS") (mkSpan 0 5)] in
  exists r p', parse_directive (Parser_new "BOGUS" toks) = Val (r, p')
    /\ p_pos (Parser_new "BOGUS" toks) <= p_pos p'.
Proof.
  destruct (parse_directive_reports "BOGUS" [mkToken (TokenKind_Ident "BOGUS") (mkSpan 0 5)] []
    (Parser_new "BOGUS" [mkToken (TokenKind_Ident "BOGUS") (mkSpan 0 5)]))
    as (r & p' & E & _ & H & _); [by apply utf8_ascii|vm_compute; reflexivity| |simpl; lia|eauto].
  split_and!; [done|done|simpl; lia|]. split_and!; constructor.
Defined.
