(* ===== verification/RecipeGrammar.v ===== *)
(** * RecipeGrammar: the recipe language, declaratively.

    What a token list of a recipe means, line by line, with no parser state, no
    error recovery and no lookahead beyond the longest-value rule.  The
    refinement of the parser to this grammar is in GrammarRefines. *)

From S2P Require Import Prelude RustStr RustStrFacts Subst Validation Identifiers Paths OciRef.
From S2P Require Import Ast Diagnostics Lexer Grammar.

(** A line ends at a newline token or at the end of the input. *)
Definition eol (ts : list Token) : bool :=
  match ts with [] => true | t :: _ => is_newline t end.

Abbreviation tok_start t := (start (tok_span t)).
Abbreviation tok_end t := (end_ (tok_span t)).

Section recipe.
Context (src : str).

(** ** Names and values *)

(** A name: an identifier, or a keyword spelled as in the source. *)
Inductive name_token (t : Token) : str -> Prop :=
| name_ident s : kind t = TokenKind_Ident s -> name_token t s
| name_keyword kw s :
    kind t = TokenKind_Keyword kw -> slice src (tok_start t) (tok_end t) = Some s -> name_token t s.

(** Words and numbers that touch, from offset [e] to offset [e']. *)
Inductive word_run : nat -> list Token -> nat -> Prop :=
| word_run_nil e : word_run e [] e
| word_run_cons e t ts e' :
    tok_start t = e -> is_value_word t = true -> word_run (tok_end t) ts e' -> word_run e (t :: ts) e'.

(** The tokens [rest] continue a run of words that ends at [e]. *)
Definition continues (e : nat) (rest : list Token) : bool :=
  match rest with t :: _ => bool_decide (tok_start t = e) && is_value_word t | [] => false end.

(** A value: a quoted string, or the longest run of touching words, verbatim. *)
Inductive value_tokens : list Token -> Spanned str -> list Token -> Prop :=
| value_string t s rest :
    kind t = TokenKind_String s -> value_tokens [t] (mkSpanned s (mkSpan (tok_start t) (tok_end t))) rest
| value_words t ts e text rest :
    is_value_word t = true -> word_run (tok_end t) ts e -> continues e rest = false ->
    slice src (tok_start t) e = Some text ->
    value_tokens (t :: ts) (mkSpanned text (mkSpan (tok_start t) e)) rest.

Definition starts_key (rest : list Token) : bool :=
  match rest with t :: _ => match kind t with TokenKind_Ident _ => true | _ => false end | [] => false end.

(** [key=value key=value ...]: only the first key may be a keyword. *)
Inductive pairs : list Token -> list (Spanned str * Spanned str) -> list Token -> Prop :=
| pairs_one key eq k vs v rest :
    name_token key k -> kind eq = TokenKind_Punct Punct_Equals -> value_tokens vs v rest ->
    starts_key rest = false -> pairs (key :: eq :: vs) [(mkSpanned k (tok_span key), v)] rest
| pairs_more key eq k vs v more ps rest :
    name_token key k -> kind eq = TokenKind_Punct Punct_Equals -> value_tokens vs v (more ++ rest) ->
    starts_key (more ++ rest) = true -> pairs more ps rest ->
    pairs (key :: eq :: vs ++ more) ((mkSpanned k (tok_span key), v) :: ps) rest.

(** The pairs of [LABEL] and [ENV], validated; the first directive spans from
    the keyword. *)
Inductive labels (st : nat) : nat -> list (Spanned str * Spanned str) -> list Directive -> Prop :=
| labels_nil i : labels st i [] []
| labels_cons i k v ps key val ds :
    LabelKey_new (value k) = Ok key -> LabelValue_new (value v) = Ok val -> labels st (S i) ps ds ->
    labels st i ((k, v) :: ps)
      (Directive_Label {| label_key := mkSpanned key (span k); label_value := mkSpanned val (span v);
                          label_span := pair_span st i (span k) (span v) |} :: ds).

Inductive envs (st : nat) : nat -> list (Spanned str * Spanned str) -> list Directive -> Prop :=
| envs_nil i : envs st i [] []
| envs_cons i k v ps key val ds :
    EnvVarName_new (value k) = Ok key -> EnvVarValue_new (value v) = Ok val -> envs st (S i) ps ds ->
    envs st i ((k, v) :: ps)
      (Directive_Env {| env_key := mkSpanned key (span k); env_value := mkSpanned val (span v);
                        env_span := pair_span st i (span k) (span v) |} :: ds).

(** [name] or [name=default]: the declaration and the end of it. *)
Inductive arg_tokens (st : nat) : list Token -> Arg -> Prop :=
| arg_plain t s name :
    name_token t s -> EnvVarName_new s = Ok name ->
    arg_tokens st [t] {| arg_name := mkSpanned name (tok_span t); arg_default := None;
                         arg_span := mkSpan st (tok_end t) |}
| arg_with_default t eq s name vs v dflt :
    name_token t s -> EnvVarName_new s = Ok name -> kind eq = TokenKind_Punct Punct_Equals ->
    value_tokens vs v [] -> EnvVarValue_new (value v) = Ok dflt ->
    arg_tokens st (t :: eq :: vs)
      {| arg_name := mkSpanned name (tok_span t); arg_default := Some (mkSpanned dflt (span v));
         arg_span := mkSpan st (end_ (span v)) |}.

Definition arg_warnings (a : Arg) : list Diagnostic :=
  if name_looks_secret (EnvVarName_0 (value (arg_name a)))
  then [secret_name_warning (EnvVarName_0 (value (arg_name a))) (arg_span a)] else [].

(** ** Commands *)

(** [[QaQ, QbQ]] (with quotes for Q), and where it ends. *)
Inductive elements : list Token -> list (Spanned str) -> nat -> Prop :=
| elements_last t c s :
    kind t = TokenKind_String s -> kind c = TokenKind_Punct Punct_RBracket ->
    elements [t; c] [mkSpanned s (tok_span t)] (tok_end c)
| elements_more t c s ts xs e :
    kind t = TokenKind_String s -> kind c = TokenKind_Punct Punct_Comma -> elements ts xs e ->
    elements (t :: c :: ts) (mkSpanned s (tok_span t) :: xs) e.

Definition is_lbracket (t : Token) : bool := bool_decide (kind t = TokenKind_Punct Punct_LBracket).

Definition array (ts : list Token) (xs : list (Spanned str)) (e : nat) : Prop :=
  exists t body, ts = t :: body /\ is_lbracket t = true /\ elements body xs e.

(** The rest of a line, verbatim. *)
Definition payload (ts : list Token) (s : Spanned str) : Prop :=
  exists t u text, head ts = Some t /\ last ts = Some u
    /\ slice src (tok_start t) (tok_end u) = Some text
    /\ s = mkSpanned text (mkSpan (tok_start t) (tok_end u)).

Definition is_option (t : Token) : bool :=
  match kind t with TokenKind_LongOption _ _ => true | _ => false end.

Definition mount_option (t : Token) (m : RunMount) : Prop :=
  exists v, kind t = TokenKind_LongOption "mount" (Some v)
    /\ parse_run_mount_value v (tok_span t) = Val (Ok m).

Definition from_option (t : Token) (n : Spanned StageName) : Prop :=
  exists v, kind t = TokenKind_LongOption "from" (Some v) /\ StageName_new v = Ok (value n)
    /\ span n = tok_span t.

(** Where an [ADD] source comes from. *)
Definition oci_scheme (s : str) : option str :=
  match strip_prefix "oci://" s with Some r => Some r | None => strip_prefix "https+oci://" s end.
Definition http_scheme (s : str) : bool := starts_with "http://" s || starts_with "https://" s.

Inductive source_of (s : str) (sp : Span) : AddSource -> Prop :=
| source_oci_scheme ref r :
    oci_scheme s = Some ref -> OciReference_new_allowing_placeholders ref = Ok r ->
    source_of s sp (AddSource_Oci (mkSpanned r sp))
| source_url u :
    oci_scheme s = None -> http_scheme s = true -> HttpsUrl_new_allowing_placeholders s = Ok u ->
    source_of s sp (AddSource_Url (mkSpanned u sp))
| source_reference r :
    oci_scheme s = None -> http_scheme s = false -> is_local_path s = false ->
    looks_like_oci_ref s = true -> OciReference_new_allowing_placeholders s = Ok r ->
    source_of s sp (AddSource_Oci (mkSpanned r sp))
| source_path :
    oci_scheme s = None -> http_scheme s = false ->
    is_local_path s = true \/ looks_like_oci_ref s = false ->
    source_of s sp (AddSource_Path (mkSpanned s sp)).

(** ** Ports *)

Definition starts_protocol (rest : list Token) : bool :=
  match rest with
  | t :: _ => match kind t with TokenKind_Ident s => starts_with "/" s | _ => false end
  | [] => false
  end.
Definition starts_number (rest : list Token) : bool :=
  match rest with t :: _ => match kind t with TokenKind_Number _ => true | _ => false end | [] => false end.

Inductive port : list Token -> N * ExposeProtocol * Span -> list Token -> Prop :=
| port_default t n rest :
    kind t = TokenKind_Number n -> (n <= u16_max)%N -> starts_protocol rest = false ->
    port [t] (n, ExposeProtocol_Tcp, tok_span t) rest
| port_protocol t u n s proto rest :
    kind t = TokenKind_Number n -> (n <= u16_max)%N ->
    kind u = TokenKind_Ident ("/" ++ s) -> protocol_of s = Some proto ->
    port [t; u] (n, proto, mkSpan (tok_start t) (tok_end u)) rest.

Inductive ports : list Token -> list (N * ExposeProtocol * Span) -> list Token -> Prop :=
| ports_one ts e rest : port ts e rest -> starts_number rest = false -> ports ts [e] rest
| ports_more ts e more es rest :
    port ts e (more ++ rest) -> starts_number (more ++ rest) = true -> ports more es rest ->
    ports (ts ++ more) (e :: es) rest.

Definition expose (e : N * ExposeProtocol * Span) (sp : Span) : Directive :=
  Directive_Expose {| expose_port := e.1.1; expose_protocol := e.1.2; expose_span := sp |}.

Definition exposes (st : nat) (es : list (N * ExposeProtocol * Span)) : list Directive :=
  match es with
  | [] => []
  | e :: es => expose e (mkSpan st (end_ e.2)) :: ((fun e => expose e e.2) <$> es)
  end.

(** ** Lines *)

Definition shell_of (s : str) (sp : Span) : option (list (Spanned str)) :=
  if decide (s = bytes_of "bash") then
    Some (shell_keyword_argv [("/bin/bash" : str); ("-c" : str)] sp)
  else if decide (s = bytes_of "sh") then Some (shell_keyword_argv [("/bin/sh" : str); ("-c" : str)] sp)
  else if decide (s = bytes_of "powershell") then
    Some (shell_keyword_argv [("powershell" : str); ("-command" : str)] sp)
  else if decide (s = bytes_of "none") then Some []
  else None.

Definition init_of (s : str) : option EntrypointInit :=
  if decide (s = bytes_of "systemd") then Some EntrypointInit_Systemd
  else if decide (s = bytes_of "openrc") then Some EntrypointInit_OpenRc
  else if decide (s = bytes_of "none") then Some EntrypointInit_None
  else None.

Definition signal_of (k : TokenKind) : option str :=
  match k with
  | TokenKind_Ident s => Some s
  | TokenKind_Number n => Some (to_decimal n)
  | _ => None
  end.

(** The two keywords that place files, and whether they only copy. *)
Definition copies (kw : Keyword) : option bool :=
  match kw with KW_Add => Some false | KW_Copy => Some true | _ => None end.

Definition path_token (t : Token) (p : Spanned str) : Prop :=
  ident_or_string (kind t) = Some (value p) /\ span p = tok_span t.

(** What follows the keyword [kw] of a line that starts at [st]: the directives
    and the warnings of the line. *)
Inductive arguments (st : nat) : Keyword -> list Token -> list Directive -> list Diagnostic -> Prop :=
| args_label ts ps ds :
    pairs ts ps [] -> labels st 0 ps ds -> arguments st KW_Label ts ds []
| args_env ts ps ds :
    pairs ts ps [] -> envs st 0 ps ds -> arguments st KW_Env ts ds []
| args_arg ts a :
    arg_tokens st ts a -> arguments st KW_Arg ts [Directive_Arg a] (arg_warnings a)
| args_shell_exec ts xs e :
    array ts xs e ->
    arguments st KW_Shell ts [Directive_Shell {| shell_argv := xs; shell_span := mkSpan st e |}] []
| args_shell_keyword t s xs :
    kind t = TokenKind_Ident s -> shell_of s (tok_span t) = Some xs ->
    arguments st KW_Shell [t]
      [Directive_Shell {| shell_argv := xs; shell_span := mkSpan st (tok_end t) |}] []
| args_user t s n :
    kind t = TokenKind_Ident s -> Username_new s = Ok n ->
    arguments st KW_User [t]
      [Directive_User {| user_name := mkSpanned n (tok_span t); user_span := mkSpan st (tok_end t) |}] []
| args_workdir t s n :
    kind t = TokenKind_Ident s -> RecipePath_new s = Ok n ->
    arguments st KW_Workdir [t]
      [Directive_Workdir {| workdir_path := mkSpanned n (tok_span t); workdir_span := mkSpan st (tok_end t) |}] []
| args_run_exec opts mounts ts xs e :
    Forall2 mount_option opts mounts -> array ts xs e ->
    arguments st KW_Run (opts ++ ts)
      [Directive_Run {| run_command := RunCommand_Exec xs; run_mounts := mounts;
                        run_span := mkSpan st e |}] []
| args_run_shell opts mounts t ts s :
    Forall2 mount_option opts mounts -> is_option t = false -> is_lbracket t = false ->
    payload (t :: ts) s ->
    arguments st KW_Run (opts ++ t :: ts)
      [Directive_Run {| run_command := RunCommand_Shell s; run_mounts := mounts;
                        run_span := mkSpan st (end_ (span s)) |}] []
| args_add kw copy opts froms t u s source d dest :
    copies kw = Some copy -> Forall2 from_option opts froms -> ident_or_string (kind t) = Some s ->
    source_of s (tok_span t) source ->
    ident_or_string (kind u) = Some d -> RecipePath_new d = Ok dest ->
    arguments st kw (opts ++ [t; u])
      [Directive_Add {| add_source := source; add_destination := mkSpanned dest (tok_span u);
                        add_from := last froms; add_plain_copy := copy;
                        add_span := mkSpan st (tok_end u) |}] []
| args_entrypoint_exec ts xs e :
    array ts xs e ->
    arguments st KW_Entrypoint ts
      [Directive_Entrypoint {| entrypoint_init := EntrypointInit_Exec xs; entrypoint_span := mkSpan st e |}] []
| args_entrypoint_path t ts s p :
    kind t = TokenKind_Ident p -> starts_with "/" p = true -> payload (t :: ts) s ->
    arguments st KW_Entrypoint (t :: ts)
      [Directive_Entrypoint {| entrypoint_init := EntrypointInit_Path s;
                               entrypoint_span := mkSpan st (end_ (span s)) |}] []
| args_entrypoint_keyword t s init :
    kind t = TokenKind_Ident s -> starts_with "/" s = false -> init_of s = Some init ->
    arguments st KW_Entrypoint [t]
      [Directive_Entrypoint {| entrypoint_init := init; entrypoint_span := mkSpan st (tok_end t) |}] []
| args_expose ts es :
    ports ts es [] -> arguments st KW_Expose ts (exposes st es) []
| args_cmd_exec ts xs e :
    array ts xs e ->
    arguments st KW_Cmd ts [Directive_Cmd {| cmd_command := CmdForm_Exec xs; cmd_span := mkSpan st e |}] []
| args_cmd_shell t ts s :
    is_lbracket t = false -> payload (t :: ts) s ->
    arguments st KW_Cmd (t :: ts)
      [Directive_Cmd {| cmd_command := CmdForm_Shell s; cmd_span := mkSpan st (end_ (span s)) |}] []
| args_volume_exec ts xs e :
    array ts xs e ->
    arguments st KW_Volume ts [Directive_Volume {| volume_paths := xs; volume_span := mkSpan st e |}] []
| args_volume ts xs u :
    Forall2 path_token ts xs -> last ts = Some u ->
    arguments st KW_Volume ts
      [Directive_Volume {| volume_paths := xs; volume_span := mkSpan st (tok_end u) |}] []
| args_stopsignal t s :
    signal_of (kind t) = Some s ->
    arguments st KW_Stopsignal [t]
      [Directive_Stopsignal {| stopsignal_signal := mkSpanned s (tok_span t);
                               stopsignal_span := mkSpan st (tok_end t) |}] [].

Definition unsupported_warning (t : Token) (name hint : str) : Diagnostic :=
  with_hint (warning (bq name ++ " is not supported by umf and is ignored")
               (mkAnnotation (tok_span t) "unsupported directive, skipped")) hint.

Definition no_newline (ts : list Token) : Prop := Forall (fun t => is_newline t = false) ts.

(** A line of a stage. *)
Inductive line : list Token -> list Directive -> list Diagnostic -> Prop :=
| line_directive t kw ts ds ws :
    kind t = TokenKind_Keyword kw -> no_newline ts -> arguments (tok_start t) kw ts ds ws ->
    line (t :: ts) ds ws
| line_unsupported t name hint ts :
    kind t = TokenKind_Ident name -> unsupported_dockerfile_directive name = Some hint ->
    no_newline ts -> line (t :: ts) [] [unsupported_warning t name hint].

(** ** Stages and recipes *)

Definition stage_end (ts : list Token) : bool :=
  match ts with [] => true | t :: _ => is_from t end.

(** The lines of a stage, up to the next [FROM] or the end. *)
Inductive body : list Token -> list Directive -> list Diagnostic -> list Token -> Prop :=
| body_end ts : stage_end ts = true -> body ts [] [] ts
| body_blank t ts ds ws rest : is_newline t = true -> body ts ds ws rest -> body (t :: ts) ds ws rest
| body_line l ts ds ws ds' ws' rest :
    line l ds ws -> eol ts = true -> body ts ds' ws' rest ->
    body (l ++ ts) (ds ++ ds') (ws ++ ws') rest.

Inductive from_of (t : Token) : FromSource -> Prop :=
| from_scratch : kind t = TokenKind_Ident "scratch" -> from_of t FromSource_Scratch
| from_reference s r :
    kind t = TokenKind_Ident s -> s <> "scratch" -> OciReference_new_allowing_placeholders s = Ok r ->
    from_of t (FromSource_Reference (mkSpanned r (tok_span t))).

(** The optional [AS name], after a reference that ends at [e]. *)
Inductive stage_alias (e : nat) : list Token -> option (Spanned StageName) -> nat -> Prop :=
| alias_none : stage_alias e [] None e
| alias_some a t s n :
    kind a = TokenKind_Keyword KW_As -> kind t = TokenKind_Ident s -> StageName_new s = Ok n ->
    stage_alias e [a; t] (Some (mkSpanned n (tok_span t))) (tok_end t).

(** [FROM source [AS name]] and its body; a stage ends with its last token. *)
Inductive stage : list Token -> Stage -> list Diagnostic -> list Token -> Prop :=
| stage_intro f t source al name e ts rest ds ws u :
    is_from f = true -> from_of t source -> stage_alias (tok_end t) al name e ->
    eol (ts ++ rest) = true -> body (ts ++ rest) ds ws rest -> last (f :: t :: al ++ ts) = Some u ->
    stage (f :: t :: al ++ ts)
      {| stage_from := {| from_source := source; from_span := mkSpan (tok_start f) e |};
         stage_name := name; stage_directives := ds;
         stage_span := mkSpan (tok_start f) (max (tok_end u) e) |} ws rest.

Inductive stages_of : list Token -> list Stage -> list Diagnostic -> Prop :=
| stages_nil : stages_of [] [] []
| stages_cons ts rest s ss ws ws' :
    stage ts s ws rest -> stages_of rest ss ws' -> stages_of (ts ++ rest) (s :: ss) (ws ++ ws').

(** The [ARG] lines before the first [FROM]. *)
Inductive preamble : list Token -> list Arg -> list Diagnostic -> list Token -> Prop :=
| preamble_end ts : stage_end ts = true -> preamble ts [] [] ts
| preamble_blank t ts args ws rest :
    is_newline t = true -> preamble ts args ws rest -> preamble (t :: ts) args ws rest
| preamble_arg t l a ts args ws rest :
    kind t = TokenKind_Keyword KW_Arg -> no_newline l -> arg_tokens (tok_start t) l a ->
    eol ts = true -> preamble ts args ws rest ->
    preamble (t :: l ++ ts) (a :: args) (arg_warnings a ++ ws) rest.

Definition recipe (ts : list Token) (ast : Ast) (ws : list Diagnostic) : Prop :=
  exists rest ws1 ws2, preamble ts (global_args ast) ws1 rest /\ stages_of rest (stages ast) ws2
    /\ ws = ws1 ++ ws2.
End recipe.

(** ** Conventional texts

    The texts without the forms that the documentation and the code treat
    differently: numeric users, keywords as keys after the first pair of a line,
    options unknown to [RUN], [ADD] and [COPY], and words with a [#] inside. *)

Definition is_number (t : Token) : bool := match kind t with TokenKind_Number _ => true | _ => false end.
Definition is_equals (t : Token) : bool := bool_decide (kind t = TokenKind_Punct Punct_Equals).
Definition is_keyword (t : Token) : bool := match kind t with TokenKind_Keyword _ => true | _ => false end.
Definition takes_key (t : Token) : bool :=
  match kind t with TokenKind_Keyword (KW_Label | KW_Env | KW_Arg) => true | _ => false end.
Definition is_user (t : Token) : bool := match kind t with TokenKind_Keyword KW_User => true | _ => false end.

Fixpoint users_named (ts : list Token) : bool :=
  match ts with
  | t :: ((u :: _) as rest) => negb (is_user t && is_number u) && users_named rest
  | _ => true
  end.
(** [first]: the token follows the keyword of a line that takes keys. *)
Fixpoint keys_plain (first : bool) (ts : list Token) : bool :=
  match ts with
  | t :: ((u :: _) as rest) => (first || negb (is_keyword t && is_equals u)) && keys_plain (takes_key t) rest
  | _ => true
  end.
(** [known]: the option the line takes, while only options followed its keyword. *)
Fixpoint options_known (known : option str) (ts : list Token) : bool :=
  match ts with
  | [] => true
  | t :: rest =>
      match kind t with
      | TokenKind_LongOption name _ => match known with Some k => bool_decide (name = k) | None => true end && options_known known rest
      | TokenKind_Keyword KW_Run => options_known (Some ("mount" : str)) rest
      | TokenKind_Keyword (KW_Add | KW_Copy) => options_known (Some ("from" : str)) rest
      | _ => options_known None rest
      end
  end.
Definition hash_free (t : Token) : bool :=
  match kind t with
  | TokenKind_Ident s => negb (contains_byte "#" s)
  | TokenKind_LongOption name v => negb (contains_byte "#" name) && match v with Some s => negb (contains_byte "#" s) | None => true end
  | _ => true
  end.

Definition conventional (ts : list Token) : bool :=
  users_named ts && keys_plain false ts && options_known None ts && forallb hash_free ts.

