(* ===== verification/GrammarRefines.v ===== *)
(** * GrammarRefines: the parser recognises exactly the declarative recipe
    language.

    A run is clean when it ends with no error collected; errors are never
    removed, so each step of a clean run is clean.  For every parsing function
    the clean runs are the derivations of RecipeGrammar, both ways. *)

From S2P Require Import Prelude RustStr RustStrFacts Subst Validation Identifiers Paths OciRef.
From S2P Require Import Ast Diagnostics Lexer Grammar RecipeGrammar.

(** ** Clean runs *)

Definition clean {A} (m : P A) (p : Parser) (a : A) (p' : Parser) : Prop :=
  m p = Val (Some a, p') /\ p_errors p' = [].

(** Errors are never removed. *)
Class Mono {A} (m : P A) : Prop :=
  mono : forall p r p', m p = Val (r, p') -> p_errors p' = [] -> p_errors p = [].

#[export] Instance mono_ret {A} (a : A) : Mono (mret a).
Proof. intros p r p' [= <- <-]. done. Qed.
#[export] Instance mono_none {A} : Mono (A := A) none.
Proof. intros p r p' [= <- <-]. done. Qed.
#[export] Instance mono_gets {A} (f : Parser -> A) : Mono (gets f).
Proof. intros p r p' [= <- <-]. done. Qed.
#[export] Instance mono_bind {A B} (m : P A) (k : A -> P B) : Mono m -> (forall a, Mono (k a)) -> Mono (m ≫= k).
Proof.
  intros Hm Hk p r p'. unfold mbind, P_bind. destruct (m p) as [[[a|] q]| |] eqn:E; try done.
  - intros E' He. eapply Hm; [exact E|]. eapply (Hk a); [exact E'|done].
  - intros [= <- <-]. by eapply Hm.
Qed.
#[export] Instance mono_try {A} (m : P A) : Mono m -> Mono (try m).
Proof.
  intros Hm p r p'. unfold try. destruct (m p) as [[r' q]| |] eqn:E; try done.
  intros [= <- <-]. by eapply Hm.
Qed.
#[export] Instance mono_lift {A} (o : outcome A) : Mono (lift o).
Proof. intros p r p'. unfold lift. destruct o; try done. intros [= <- <-]. done. Qed.
#[export] Instance mono_with_fuel {A} (f : nat -> P A) : (forall n, Mono (f n)) -> Mono (with_fuel f).
Proof. intros H p r p' E. by eapply H. Qed.
#[export] Instance mono_push_err d : Mono (push_err d).
Proof. intros p r p' [= <- <-] H. by apply app_eq_nil in H as [? ?]. Qed.
#[export] Instance mono_slice a b : Mono (source_slice a b).
Proof. intros p r p'. unfold source_slice. destruct (slice _ _ _); [|done]. intros [= <- <-]. done. Qed.
#[export] Instance mono_advance : Mono p_advance.
Proof. intros p r p'. unfold p_advance. destruct (_ !! _); intros [= <- <-]; done. Qed.
#[export] Instance mono_slurp e : Mono (slurp_line e).
Proof. intros p r p' [= <- <-]. done. Qed.
#[export] Instance mono_last_consumed : Mono last_consumed_end.
Proof.
  intros p r p'. unfold last_consumed_end. case_bool_decide; [by intros [= <- <-]|].
  destruct (_ !! _); [|done]. by intros [= <- <-].
Qed.

(** An update that keeps the errors. *)
Lemma mono_modify f : (forall p, p_errors (f p) = p_errors p) -> Mono (modify f).
Proof. intros H p r p' [= <- <-]. by rewrite H. Qed.
#[export] Hint Extern 1 (Mono (modify _)) => (apply mono_modify; intros; reflexivity) : typeclass_instances.
#[export] Hint Extern 1 (Mono (push_warning _)) => (apply mono_modify; intros; reflexivity) : typeclass_instances.
#[export] Hint Extern 2 (Mono (if ?b then _ else _)) => destruct b : typeclass_instances.
#[export] Hint Extern 3 (Mono (match ?x with _ => _ end)) => destruct x : typeclass_instances.
#[export] Hint Extern 2 (Mono (let _ := _ in _)) => cbv zeta : typeclass_instances.

#[export] Instance mono_fail {A} d : Mono (A := A) (fail_with d).
Proof. apply _. Qed.
#[export] Instance mono_skip : Mono p_skip.
Proof. apply _. Qed.
#[export] Instance mono_advance_or_err m h : Mono (advance_or_err m h).
Proof. apply _. Qed.
#[export] Instance mono_match_keyword kw : Mono (match_keyword kw).
Proof. apply _. Qed.
#[export] Instance mono_expect_keyword kw m h : Mono (expect_keyword kw m h).
Proof. apply _. Qed.
#[export] Instance mono_skip_newlines : Mono skip_newlines.
Proof. by apply mono_modify. Qed.
#[export] Instance mono_recover_to_eol : Mono recover_to_eol.
Proof. by apply mono_modify. Qed.
#[export] Instance mono_recover_to_next_stage : Mono recover_to_next_stage.
Proof. by apply mono_modify. Qed.
#[export] Instance mono_expect_newline d : Mono (expect_newline_after d).
Proof. apply _. Qed.
#[export] Instance mono_validated {T E} `{ValidationError E} raw sp d a (c : str -> result E T) :
  Mono (validated raw sp d a c).
Proof. unfold validated. apply _. Qed.
#[export] Instance mono_splice t s : Mono (splice_value t s).
Proof. unfold splice_value. destruct (kind t); apply _. Qed.
#[export] Instance mono_key_value d : Mono (parse_key_value d).
Proof. apply _. Qed.
#[export] Instance mono_key_value_loop n d ps : Mono (key_value_loop n d ps).
Proof. revert ps. induction n; intros ps; cbn [key_value_loop]; apply _. Qed.
#[export] Instance mono_take_first ds : Mono (take_first_queue_rest ds).
Proof. unfold take_first_queue_rest. apply _. Qed.
#[export] Instance mono_ident_arg d : Mono (expect_ident_arg d).
Proof. apply _. Qed.
#[export] Instance mono_build_labels st i ps : Mono (build_labels st i ps).
Proof. revert i. induction ps as [|[]]; intros i; cbn [build_labels]; apply _. Qed.
#[export] Instance mono_build_envs st i ps : Mono (build_envs st i ps).
Proof. revert i. induction ps as [|[]]; intros i; cbn [build_envs]; apply _. Qed.
#[export] Instance mono_arg_default e : Mono (parse_arg_default e).
Proof. apply _. Qed.
#[export] Instance mono_arg st : Mono (parse_arg st).
Proof. apply _. Qed.
#[export] Instance mono_array_loop n a e h xs : Mono (string_array_loop n a e h xs).
Proof. revert xs. induction n; intros xs; cbn [string_array_loop]; apply _. Qed.
#[export] Instance mono_array d : Mono (parse_string_array d).
Proof. apply _. Qed.
#[export] Instance mono_mounts n ms : Mono (run_mounts_loop n ms).
Proof. revert ms. induction n; intros ms; cbn [run_mounts_loop]; apply _. Qed.
#[export] Instance mono_add_options n v f : Mono (add_options_loop n v f).
Proof. revert f. induction n; intros f; cbn [add_options_loop]; apply _. Qed.
#[export] Instance mono_classify s sp v : Mono (classify_source s sp v).
Proof. unfold classify_source. apply _. Qed.
#[export] Instance mono_volume_loop n ps e : Mono (volume_loop n ps e).
Proof. revert ps e. induction n; intros ps e; cbn [volume_loop]; apply _. Qed.
#[export] Instance mono_expose_entry : Mono parse_expose_entry.
Proof. apply _. Qed.
#[export] Instance mono_expose_loop n st ds : Mono (expose_loop n st ds).
Proof. revert ds. induction n; intros ds; cbn [expose_loop]; apply _. Qed.
#[export] Instance mono_cmd_form k : Mono (parse_cmd_form k).
Proof. unfold parse_cmd_form. apply _. Qed.
#[export] Instance mono_cmd_rest st k : Mono (parse_cmd_rest st k).
Proof. unfold parse_cmd_rest. apply _. Qed.
#[export] Instance mono_entrypoint_keyword s : Mono (parse_entrypoint_keyword s).
Proof. unfold parse_entrypoint_keyword. apply _. Qed.
#[export] Instance mono_entrypoint_exec : Mono parse_entrypoint_exec.
Proof. unfold parse_entrypoint_exec. apply _. Qed.
#[export] Instance mono_entrypoint_path : Mono parse_entrypoint_shell_path.
Proof. unfold parse_entrypoint_shell_path. apply _. Qed.
#[export] Instance mono_entrypoint_form k : Mono (parse_entrypoint_form k).
Proof. unfold parse_entrypoint_form. apply _. Qed.
#[export] Instance mono_entrypoint_rest st k : Mono (parse_entrypoint_rest st k).
Proof. unfold parse_entrypoint_rest. apply _. Qed.
#[export] Instance mono_volume_rest st k : Mono (parse_volume_rest st k).
Proof. unfold parse_volume_rest. apply _. Qed.
#[export] Instance mono_dispatch t kw : Mono (dispatch t kw).
Proof. unfold dispatch. destruct kw; apply _. Qed.
#[export] Instance mono_directive : Mono parse_directive.
Proof. unfold parse_directive. apply _. Qed.
#[export] Instance mono_stage_loop n ds : Mono (stage_loop n ds).
Proof. revert ds. induction n; intros ds; cbn [stage_loop]; apply _. Qed.
#[export] Instance mono_from_source s sp : Mono (parse_from_source s sp).
Proof. unfold parse_from_source. apply _. Qed.
#[export] Instance mono_stage_name e : Mono (parse_stage_name e).
Proof. unfold parse_stage_name. apply _. Qed.
#[export] Instance mono_stage : Mono parse_stage.
Proof. unfold parse_stage. apply _. Qed.
#[export] Instance mono_global_args n : Mono (global_args_loop n).
Proof. induction n; cbn [global_args_loop]; apply _. Qed.
#[export] Instance mono_top_loop n : Mono (top_loop n).
Proof. induction n; cbn [top_loop]; apply _. Qed.

(** ** Steps of a clean run *)

#[export] Typeclasses Opaque mret mbind P_ret P_bind none gets modify lift try with_fuel push_err push_warning
  fail_with source_slice p_advance p_skip advance_or_err match_keyword expect_keyword skip_newlines
  recover_to_eol recover_to_next_stage expect_newline_after slurp_line last_consumed_end validated
  splice_value parse_key_value key_value_loop parse_key_value_list take_first_queue_rest
  expect_ident_arg build_labels parse_label build_envs parse_env parse_arg_default parse_arg
  removed_directive string_array_loop parse_string_array parse_shell parse_user parse_workdir
  run_mounts_loop parse_run add_options_loop classify_source parse_add parse_entrypoint_shell_path
  parse_entrypoint_exec parse_entrypoint_keyword parse_entrypoint parse_cmd parse_cmd_form parse_cmd_rest
  parse_entrypoint_form parse_entrypoint_rest parse_volume_rest volume_loop parse_volume
  parse_stopsignal parse_expose_entry expose_loop parse_expose dispatch parse_directive stage_loop
  parse_from_source parse_stage_name parse_stage global_args_loop parse_global_args top_loop parse_top.

Ltac mono := intros; cbv beta; apply _.

Lemma clean_bind {A B} (m : P A) (k : A -> P B) p b p'' :
  (forall a, Mono (k a)) ->
  clean (m ≫= k) p b p'' <-> exists a p', clean m p a p' /\ clean (k a) p' b p''.
Proof.
  intros Hk. unfold clean, mbind, P_bind. split.
  - intros [E He]. destruct (m p) as [[[a|] q]| |] eqn:Em; try done. exists a, q.
    split_and!; [done| |done|done]. by eapply Hk.
  - intros (a & q & [-> _] & [E He]). done.
Qed.

Lemma clean_bind_inv {A B} (m : P A) (k : A -> P B) p b p'' :
  clean (m ≫= k) p b p'' -> (forall a, Mono (k a)) ->
  exists a p', clean m p a p' /\ clean (k a) p' b p''.
Proof. intros H Hk. by apply clean_bind. Qed.

Lemma clean_inv {A} (m : P A) p a p' : Mono m -> clean m p a p' -> p_errors p = [].
Proof. intros Hm [E He]. by eapply Hm. Qed.

(** The state after [n] more tokens. *)
Definition after (n : nat) (p : Parser) : Parser := set_p_pos (p_pos p + n) p.

Lemma after_after m n p : after m (after n p) = after (n + m) p.
Proof. unfold after. simpl. by rewrite Nat.add_assoc. Qed.

Lemma after_0 p : after 0 p = p.
Proof. unfold after. rewrite Nat.add_0_r. by destruct p. Qed.

Lemma remaining_after n p : remaining (after n p) = drop n (remaining p).
Proof. unfold remaining, after. simpl. by rewrite drop_drop. Qed.

Lemma remaining_after_1 p t ts : remaining p = t :: ts -> remaining (after 1 p) = ts.
Proof. intros H. by rewrite remaining_after, H. Qed.

Lemma remaining_after_app p ts rest : remaining p = ts ++ rest -> remaining (after (length ts) p) = rest.
Proof. intros H. by rewrite remaining_after, H, drop_app_length. Qed.

Lemma peek_remaining p : p_peek p = head (remaining p).
Proof. unfold p_peek, remaining. rewrite <- (Nat.add_0_r (p_pos p)) at 1. rewrite <- lookup_drop. by destruct (drop _ _). Qed.

Lemma peek_kind_remaining p : p_peek_kind p = kind <$> head (remaining p).
Proof. unfold p_peek_kind. by rewrite peek_remaining. Qed.

Lemma fuel_remaining p : length (remaining p) <= length (p_tokens p).
Proof. unfold remaining. rewrite length_drop. lia. Qed.

(** Inversion of the primitive steps. *)

Lemma clean_ret {A} (a b : A) p p' : clean (mret a) p b p' -> b = a /\ p' = p.
Proof. by intros [[= <- <-] _]. Qed.
Lemma clean_gets {A} (f : Parser -> A) p a p' : clean (gets f) p a p' -> a = f p /\ p' = p.
Proof. by intros [[= <- <-] _]. Qed.
Lemma clean_modify f p a p' : clean (modify f) p a p' -> p' = f p.
Proof. by intros [[= <- <-] _]. Qed.
Lemma clean_none {A} p (a : A) p' : clean none p a p' -> False.
Proof. by intros [? _]. Qed.
Lemma clean_fail {A} d p (a : A) p' : clean (fail_with d) p a p' -> False.
Proof. by intros [? _]. Qed.
Lemma clean_push_err d p a p' : clean (push_err d) p a p' -> False.
Proof. intros [[= <- <-] H]. by apply app_eq_nil in H as [? ?]. Qed.
Lemma clean_lift {A} (o : outcome A) p a p' : clean (lift o) p a p' -> o = Val a /\ p' = p.
Proof. unfold lift. destruct o; intros [E _]; simplify_eq; try done. Qed.
Lemma clean_slice a b p t p' : clean (source_slice a b) p t p' -> slice (p_source p) a b = Some t /\ p' = p.
Proof. unfold source_slice. intros [E _]. destruct (slice _ a b); by simplify_eq. Qed.

Lemma advance_eq p :
  p_advance p = match remaining p with t :: _ => Val (Some t, after 1 p) | [] => Val (None, p) end.
Proof.
  unfold p_advance. change (p_tokens p !! p_pos p) with (p_peek p). rewrite peek_remaining.
  by destruct (remaining p).
Qed.

Lemma clean_advance p t p' :
  clean p_advance p t p' -> exists ts, remaining p = t :: ts /\ p' = after 1 p.
Proof.
  intros [E _]. rewrite advance_eq in E. destruct (remaining p) as [|x ts]; [done|].
  injection E as <- <-. eauto.
Qed.

Lemma skip_eq p : p_skip p = Val (Some tt, match remaining p with [] => p | _ => after 1 p end).
Proof.
  unfold p_skip, try, mbind, P_bind. rewrite advance_eq. by destruct (remaining p).
Qed.

Lemma clean_skip p a p' : clean p_skip p a p' -> p' = match remaining p with [] => p | _ => after 1 p end.
Proof. intros [E _]. rewrite skip_eq in E. by injection E as _ <-. Qed.

Lemma clean_advance_or_err m h p t p' :
  clean (advance_or_err m h) p t p' ->
  exists ts, remaining p = t :: ts /\ is_newline t = false /\ p' = after 1 p.
Proof.
  unfold advance_or_err. rewrite clean_bind by mono. intros (r & q & [E He] & H).
  unfold try in E. rewrite advance_eq in E. destruct (remaining p) as [|x ts] eqn:Er; injection E as <- <-.
  - apply clean_bind_inv in H as (? & ? & _ & H); [|mono]. by apply clean_fail in H.
  - destruct (is_newline x) eqn:En.
    + apply clean_bind_inv in H as (? & ? & _ & H); [|mono]. by apply clean_fail in H.
    + apply clean_ret in H as [-> ->]. eauto.
Qed.

Lemma clean_validated {T E} `{ValidationError E} raw sp d a (c : str -> result E T) p v p' :
  clean (validated raw sp d a c) p v p' -> exists x, c raw = Ok x /\ v = mkSpanned x sp /\ p' = p.
Proof.
  unfold validated. destruct (c raw) as [x|e] eqn:Ec.
  - intros [-> ->]%clean_ret. eauto.
  - rewrite clean_bind by mono. intros (? & ? & _ & HF). by apply clean_fail in HF.
Qed.

Lemma clean_newline d p a p' :
  clean (expect_newline_after d) p a p' -> eol (remaining p) = true /\ p' = p.
Proof.
  unfold expect_newline_after. rewrite clean_bind by mono. intros (t & q & [-> ->]%clean_gets & H).
  rewrite peek_remaining in H. destruct (remaining p) as [|x ts]; simpl in *.
  - by apply clean_ret in H as [_ ->].
  - destruct (is_newline x); [by apply clean_ret in H as [_ ->]|].
    apply clean_bind_inv in H as (? & ? & H & _); [|mono]. by apply clean_push_err in H.
Qed.

Lemma clean_fuel {A} (f : nat -> P A) p a p' :
  clean (with_fuel f) p a p' <-> clean (f (S (length (p_tokens p)))) p a p'.
Proof. done. Qed.

(** Construction of the primitive steps. *)

Section construct.
Context (p : Parser) (Hp : p_errors p = []).

Lemma cl_ret {A} (a : A) : clean (mret a) p a p.
Proof. done. Qed.
Lemma cl_gets {A} (f : Parser -> A) : clean (gets f) p (f p) p.
Proof. done. Qed.
Lemma cl_lift {A} (o : outcome A) a : o = Val a -> clean (lift o) p a p.
Proof. by intros ->. Qed.
Lemma cl_slice a b t : slice (p_source p) a b = Some t -> clean (source_slice a b) p t p.
Proof. intros E. unfold clean, source_slice. by rewrite E. Qed.
Lemma cl_advance t ts : remaining p = t :: ts -> clean p_advance p t (after 1 p).
Proof. intros E. unfold clean. by rewrite advance_eq, E. Qed.
Lemma cl_skip t ts : remaining p = t :: ts -> clean p_skip p tt (after 1 p).
Proof. intros E. unfold clean. by rewrite skip_eq, E. Qed.
Lemma cl_next m h t ts : remaining p = t :: ts -> is_newline t = false -> clean (advance_or_err m h) p t (after 1 p).
Proof.
  intros E Hn. unfold clean, advance_or_err, mbind, P_bind, try. rewrite advance_eq, E. simpl. by rewrite Hn.
Qed.
Lemma cl_validated {T E} `{ValidationError E} raw sp d a (c : str -> result E T) x :
  c raw = Ok x -> clean (validated raw sp d a c) p (mkSpanned x sp) p.
Proof. intros Ec. unfold validated. by rewrite Ec. Qed.
Lemma cl_newline d : eol (remaining p) = true -> clean (expect_newline_after d) p tt p.
Proof.
  intros E. unfold clean, expect_newline_after, mbind, P_bind, gets. rewrite peek_remaining.
  destruct (remaining p) as [|t ts]; simpl in *; [done|]. by rewrite E.
Qed.
End construct.

(** Eliminates one equation between states, results or pairs of results. *)
Ltac elim_eq H :=
  lazymatch type of H with
  | ?x = ?y =>
      first [ is_var x; subst x | is_var y; subst y
            | let H1 := fresh "EQ" in let H2 := fresh "EQ" in injection H as H1 H2; elim_eq H1; elim_eq H2
            | let H1 := fresh "EQ" in injection H as H1; elim_eq H1
            | discriminate H
            | idtac ]
  end.
Ltac elim_eqs H1 H2 := elim_eq H1; elim_eq H2.

(** Takes a clean run apart. *)
Ltac cinv :=
  repeat match goal with
    | H : clean (_ ≫= _) _ _ _ |- _ =>
        apply clean_bind_inv in H as (? & ? & ? & H); [|by mono]
    | H : clean (mret _) _ _ _ |- _ =>
        let E := fresh "EQ" in apply clean_ret in H as [H E]; elim_eqs H E
    | H : clean (gets _) _ _ _ |- _ =>
        let E := fresh "EQ" in apply clean_gets in H as [H E]; elim_eqs H E
    | H : clean none _ _ _ |- _ => by apply clean_none in H
    | H : clean (fail_with _) _ _ _ |- _ => by apply clean_fail in H
    | H : clean (push_err _) _ _ _ |- _ => by apply clean_push_err in H
    | H : clean (lift _) _ _ _ |- _ =>
        let E := fresh "EQ" in apply clean_lift in H as [H E]; elim_eq E; try discriminate H
    | H : clean (source_slice _ _) _ _ _ |- _ =>
        let E := fresh "EQ" in apply clean_slice in H as [H E]; elim_eq E
    | H : clean (validated _ _ _ _ _) _ _ _ |- _ =>
        let E1 := fresh "EQ" in let E2 := fresh "EQ" in apply clean_validated in H as (? & H & E1 & E2); elim_eqs E1 E2
    | H : clean (modify _) _ _ _ |- _ => apply clean_modify in H; elim_eq H
    | H : clean (let '(_, _) := ?x in _) _ _ _ |- _ => destruct x eqn:?
    | H : clean (if ?b then _ else _) _ _ _ |- _ => destruct b eqn:?
    | H : clean (match ?x with _ => _ end) _ _ _ |- _ => destruct x eqn:?
    end.

(** The first step of a clean run to construct. *)
Ltac cstep := apply clean_bind; [by mono|]; eexists _, _; split.

(** ** Values and pairs *)

Lemma splice_run_inv rest : forall e e' n,
  splice_run rest e = (e', n) ->
  word_run e (take n rest) e' /\ continues e' (drop n rest) = false /\ n <= length rest.
Proof.
  induction rest as [|t rest IH]; intros e e' n; simpl.
  - intros [= <- <-]. split_and!; [constructor|done|lia].
  - destruct (_ && _) eqn:E.
    + destruct (splice_run rest _) as [e1 n1] eqn:E1. intros [= <- <-].
      destruct (IH _ _ _ E1) as (H1 & H2 & H3). bools. simpl. split_and!; [by constructor|done|lia].
    + intros [= <- <-]. split_and!; [constructor|exact E|lia].
Qed.

Lemma splice_run_complete e ts e' rest :
  word_run e ts e' -> continues e' rest = false -> splice_run (ts ++ rest) e = (e', length ts).
Proof.
  induction 1 as [e|e t ts e' Hs Hw _ IH]; intros Hc; simpl.
  - destruct rest as [|t rest]; [done|]. simpl in *. by rewrite Hc.
  - rewrite Hs, bool_decide_eq_true_2, Hw by done. simpl.
    by rewrite (IH Hc).
Qed.

Lemma word_run_no_newline e ts e' : word_run e ts e' -> no_newline ts.
Proof.
  induction 1; constructor; [|done]. unfold is_value_word in *. unfold is_newline.
  by destruct (kind t).
Qed.

(** Inverts the arguments of a known keyword. *)
Ltac args_inv H := inversion_clear H; try (by match goal with E : copies _ = Some _ |- _ => inversion E end).

Section refine.
Context (src : str).

Lemma value_text_word t s : value_text (kind t) = Some s ->
  (exists x, kind t = TokenKind_String x /\ x = s) \/ is_value_word t = true.
Proof. unfold value_text, is_value_word. destruct (kind t); naive_solver. Qed.

Lemma splice_word t s : is_value_word t = true ->
  splice_value t s
  = (r ← gets (fun p => splice_run (remaining p) (end_ (tok_span t)));
     _ ← modify (fun p => set_p_pos (p_pos p + r.2) p);
     text ← source_slice (start (tok_span t)) r.1;
     mret (text, r.1)).
Proof. unfold splice_value, is_value_word. by destruct (kind t). Qed.

Lemma clean_splice t s p r p' :
  p_source p = src -> value_text (kind t) = Some s -> clean (splice_value t s) p r p' ->
  exists ts rest, remaining p = ts ++ rest
    /\ value_tokens src (t :: ts) (mkSpanned r.1 (mkSpan (tok_start t) r.2)) rest
    /\ p' = after (length ts) p.
Proof.
  intros Hs Hv H. destruct (value_text_word t s Hv) as [(x & Hk & ->)|Hw].
  - unfold splice_value in H. rewrite Hk in H. cinv. exists [], (remaining p). split_and!; [done| |by rewrite after_0].
    by constructor.
  - rewrite splice_word in H by done. cinv.
    destruct (splice_run (remaining p) (end_ (tok_span t))) as [e n] eqn:E; simpl in *.
    destruct (splice_run_inv _ _ _ _ E) as (HR1 & HR2 & HR3).
    exists (take n (remaining p)), (drop n (remaining p)).
    split_and!; [by rewrite take_drop| |by rewrite length_take, Nat.min_l by lia].
    rewrite <- Hs. by apply value_words.
Qed.

Lemma cl_splice t s p ts v rest :
  p_errors p = [] -> p_source p = src -> remaining p = ts ++ rest -> value_text (kind t) = Some s ->
  value_tokens src (t :: ts) v rest ->
  clean (splice_value t s) p (value v, end_ (span v)) (after (length ts) p) /\ start (span v) = tok_start t.
Proof.
  intros He Hs Hr Hv HV. inversion HV as [? x ? Hk|? ? e text ? Hw HR Hc Hsl]; subst; simpl.
  - split; [|done]. unfold splice_value. rewrite Hk in *. injection Hv as ->. by rewrite after_0.
  - split; [|done]. assert (splice_run (remaining p) (end_ (tok_span t)) = (e, length ts)) as E.
    { rewrite Hr. by apply splice_run_complete. }
    rewrite splice_word by done. cstep; [by apply cl_gets|]. rewrite E. simpl.
    cstep; [done|]. cstep; [by apply cl_slice|]. done.
Qed.

Lemma value_tokens_shape ts v rest : value_tokens src ts v rest ->
  exists t ts' s, ts = t :: ts' /\ value_text (kind t) = Some s /\ no_newline ts.
Proof.
  intros H. inversion H as [t s ? Hk|t ts' e text ? Hw HR]; subst.
  - exists t, [], s. rewrite Hk. split_and!; [done|done|]. repeat constructor. unfold is_newline. by rewrite Hk.
  - exists t, ts'. unfold is_value_word in Hw. destruct (kind t) eqn:Ek; try done; eexists; (split_and!; [done|done|]);
      (constructor; [unfold is_newline; by rewrite Ek|by eapply word_run_no_newline]).
Qed.

Lemma name_token_line t s : name_token src t s -> is_newline t = false.
Proof. unfold is_newline. by intros [? ->|? ? -> _]. Qed.

(** The text of a key or an argument name. *)
Lemma clean_name t d p s p' :
  p_source p = src ->
  clean (match kind t with
         | TokenKind_Ident s => mret s
         | TokenKind_Keyword _ => source_slice (start (tok_span t)) (end_ (tok_span t))
         | _ => fail_with d
         end) p s p' -> name_token src t s /\ p' = p.
Proof.
  intros <- H. destruct (kind t) eqn:Ek; cinv; (split; [|done]).
  - by eapply name_keyword.
  - by apply name_ident.
Qed.

Lemma cl_name t d p s :
  p_source p = src -> p_errors p = [] -> name_token src t s ->
  clean (match kind t with
         | TokenKind_Ident s => mret s
         | TokenKind_Keyword _ => source_slice (start (tok_span t)) (end_ (tok_span t))
         | _ => fail_with d
         end) p s p.
Proof.
  intros <- He [? ->|? ? -> ?]; [by apply cl_ret|by apply cl_slice].
Qed.

Lemma clean_key_value d p k v e p' :
  p_source p = src -> clean (parse_key_value d) p (k, v, e) p' ->
  exists key eq ks vs rest, remaining p = key :: eq :: vs ++ rest /\ name_token src key ks
    /\ kind eq = TokenKind_Punct Punct_Equals /\ value_tokens src vs v rest
    /\ k = mkSpanned ks (tok_span key) /\ p' = after (2 + length vs) p.
Proof.
  intros Hs H. unfold parse_key_value in H.
  apply clean_bind_inv in H as (key & p1 & (ts1 & E1 & N1 & ->)%clean_advance_or_err & H); [|mono].
  apply clean_bind_inv in H as (ks & p2 & [HN ->]%clean_name & H); [|done|mono].
  apply clean_bind_inv in H as (eq & p3 & (ts2 & E2 & N2 & ->)%clean_advance_or_err & H); [|mono].
  rewrite (remaining_after_1 _ _ _ E1) in E2. subst ts1. destruct (negb _) eqn:Heq; [by apply clean_fail in H|].
  bools. apply clean_bind_inv in H as (val & p4 & (ts3 & E3 & N3 & ->)%clean_advance_or_err & H); [|mono].
  rewrite !after_after, remaining_after, E1 in E3. simpl in E3. rewrite drop_0 in E3. subst ts2.
  destruct (value_text (kind val)) as [s|] eqn:Ev; [|by apply clean_fail in H].
  apply clean_bind_inv in H as (r & p5 & (ts & rest & E4 & HV & ->)%clean_splice & H); [|done|done|mono].
  destruct r as [text end0]. cinv. rewrite !after_after, remaining_after, E1 in E4. simpl in E4. rewrite drop_0 in E4. subst ts3.
  exists key, eq, ks, (val :: ts), rest. split_and!; try done. by rewrite !after_after.
Qed.

Lemma cl_key_value d p key eq ks vs v rest :
  p_source p = src -> p_errors p = [] -> remaining p = key :: eq :: vs ++ rest ->
  name_token src key ks -> kind eq = TokenKind_Punct Punct_Equals -> value_tokens src vs v rest ->
  clean (parse_key_value d) p (mkSpanned ks (tok_span key), v, end_ (span v)) (after (2 + length vs) p).
Proof.
  intros Hs He Hr HN Heq HV. destruct (value_tokens_shape _ _ _ HV) as (t & ts & s & -> & Ht & Hn).
  unfold parse_key_value. cstep; [eapply cl_next; [done|exact Hr|by eapply name_token_line]|].
  cstep; [by apply cl_name|].
  cstep; [eapply cl_next; [done|by eapply remaining_after_1|unfold is_newline; by rewrite Heq]|].
  rewrite bool_decide_eq_true_2 by done. simpl.
  cstep; [eapply cl_next; [done|by rewrite !after_after, remaining_after, Hr|by inversion Hn]|].
  rewrite Ht.
  destruct (cl_splice t s (after 1 (after 1 (after 1 p))) ts v rest) as [HC Hst]; try done.
  { by rewrite !after_after, remaining_after, Hr. }
  cstep; [exact HC|]. simpl. rewrite !after_after, <- Hst. destruct v as [text [a b]]. simpl.
  done.
Qed.

Lemma starts_key_spec p : starts_key (remaining p) = match p_peek_kind p with
  | Some (TokenKind_Ident _) => true | _ => false end.
Proof. rewrite peek_kind_remaining. by destruct (remaining p). Qed.

Lemma clean_key_value_loop d n : forall acc p ps p',
  p_source p = src -> clean (key_value_loop n d acc) p ps p' ->
  exists ts rest qs, remaining p = ts ++ rest /\ pairs src ts qs rest /\ ps = acc ++ qs
    /\ p' = after (length ts) p.
Proof.
  induction n as [|n IH]; intros acc p ps p' Hs H; cbn [key_value_loop] in H; [by cinv|].
  apply clean_bind_inv in H as ([[k v] e] & p1 & HK & H); [|mono].
  destruct (clean_key_value _ _ _ _ _ _ Hs HK) as (key & eq & ks & vs & rest & Hr & HN & Heq & HV & -> & ->).
  apply clean_bind_inv in H as (k & p2 & [-> ->]%clean_gets & H); [|mono].
  assert (Hrest : remaining (after (2 + length vs) p) = rest).
  { rewrite remaining_after, Hr. simpl. by rewrite drop_app_length. }
  pose proof (starts_key_spec (after (2 + length vs) p)) as HSK. rewrite Hrest in HSK.
  destruct (starts_key rest) eqn:HS.
  - destruct (p_peek_kind _) as [[]|]; try done.
    apply IH in H as (ts & rest' & qs & E & HP & -> & ->); [|done].
    rewrite Hrest in E. subst rest. exists (key :: eq :: vs ++ ts), rest'. eexists. split_and!.
    + rewrite Hr. simpl. by rewrite app_assoc.
    + by eapply pairs_more.
    + by rewrite <- app_assoc.
    + rewrite after_after. f_equal. simpl. rewrite length_app. lia.
  - exists (key :: eq :: vs), rest. eexists.
    destruct (p_peek_kind _) as [[]|]; try done; apply clean_ret in H as [-> ->];
      (split_and!; [done|by eapply pairs_one|done|done]).
Qed.

Lemma cl_key_value_loop d ts qs rest : pairs src ts qs rest -> forall n acc p,
  p_source p = src -> p_errors p = [] -> remaining p = ts ++ rest -> length ts < n ->
  clean (key_value_loop n d acc) p (acc ++ qs) (after (length ts) p).
Proof.
  induction 1 as [key eq k vs v rest HN Heq HV HS|key eq k vs v more ps rest HN Heq HV HS HP IH];
    intros [|n] acc p Hsrc He Hr Hn; try lia; cbn [key_value_loop].
  - cstep; [by apply (cl_key_value d p key eq k vs v rest)|]. simpl.
    cstep; [by apply cl_gets|]. assert (Hrest : remaining (after (2 + length vs) p) = rest).
    { rewrite remaining_after, Hr. simpl. by rewrite drop_app_length. }
    pose proof (starts_key_spec (after (2 + length vs) p)) as HSK. rewrite Hrest, HS in HSK.
    destruct (p_peek_kind _) as [[]|]; try done.
  - simpl in Hr. rewrite <- app_assoc in Hr. cstep; [by apply (cl_key_value d p key eq k vs v (more ++ rest))|]. simpl.
    cstep; [by apply cl_gets|].
    assert (Hrest : remaining (after (2 + length vs) p) = more ++ rest).
    { rewrite remaining_after, Hr. simpl. by rewrite drop_app_length. }
    pose proof (starts_key_spec (after (2 + length vs) p)) as HSK. rewrite Hrest, HS in HSK.
    destruct (p_peek_kind _) as [[]|]; try done.
    replace (after (S (S (length (vs ++ more)))) p) with (after (length more) (after (2 + length vs) p)).
    + replace (acc ++ (mkSpanned k (tok_span key), v) :: ps)
        with ((acc ++ [(mkSpanned k (tok_span key), v)]) ++ ps) by (by rewrite <- app_assoc).
      apply IH; [done|done|done|]. simpl in Hn. rewrite length_app in Hn. lia.
    + rewrite after_after, length_app. done.
Qed.

(** ** Lines

    The state after a line of [n] tokens that gives one directive, queues [ds]
    and warns [ws]. *)

Definition consumed (n : nat) (ds : list Directive) (ws : list Diagnostic) (p : Parser) : Parser :=
  {| p_source := p_source p; p_tokens := p_tokens p; p_pos := p_pos p + n;
     p_global_args := p_global_args p; p_stages := p_stages p; p_errors := p_errors p;
     p_warnings := p_warnings p ++ ws; p_pending := p_pending p ++ ds |}.

Lemma consumed_nil n p : consumed n [] [] p = after n p.
Proof. unfold consumed, after, set_p_pos. by rewrite !app_nil_r. Qed.

(** The parsing function [m] of the keyword [kw] recognises the arguments of
    that keyword. *)
Definition accepts (m : P Directive) (st : nat) (kw : Keyword) : Prop :=
  forall p d p', p_source p = src -> p_errors p = [] ->
    (clean m p d p' <->
     exists ts rest ds ws, remaining p = ts ++ rest /\ eol rest = true /\ no_newline ts
       /\ arguments src st kw ts (d :: ds) ws /\ p' = consumed (length ts) ds ws p).

Lemma eol_continues e rest : eol rest = true -> continues e rest = false.
Proof.
  destruct rest as [|t rest]; [done|]. simpl. unfold is_newline, is_value_word.
  destruct (kind t); try done. by rewrite andb_false_r.
Qed.

Lemma eol_starts rest : eol rest = true ->
  starts_key rest = false /\ starts_number rest = false /\ starts_protocol rest = false.
Proof.
  destruct rest as [|t rest]; [done|]. simpl. unfold is_newline. by destruct (kind t).
Qed.

Lemma value_tokens_ext ts v rest rest' :
  (forall e, continues e rest = continues e rest') -> value_tokens src ts v rest -> value_tokens src ts v rest'.
Proof.
  intros HC HV. inversion HV; subst; [by constructor|]. apply value_words; try done. by rewrite <- HC.
Qed.

Lemma pairs_nonempty ts ps rest : pairs src ts ps rest -> ts <> [].
Proof. by intros []. Qed.

Lemma pairs_eol ts ps rest rest' :
  pairs src ts ps rest -> eol rest = true -> eol rest' = true -> pairs src ts ps rest'.
Proof.
  induction 1 as [key eq k vs v rest HN Heq HV HS|key eq k vs v more ps rest HN Heq HV HS HP IH]; intros Hr Hr'.
  - apply pairs_one; try done; [|by apply eol_starts]. eapply value_tokens_ext; [|exact HV].
    intros e. by rewrite !eol_continues.
  - destruct more as [|t more]; [by apply pairs_nonempty in HP|]. apply pairs_more; try done; [|auto].
    by eapply value_tokens_ext; [|exact HV].
Qed.

Lemma pairs_line ts ps rest : pairs src ts ps rest -> no_newline ts.
Proof.
  induction 1 as [key eq k vs v rest HN Heq HV HS|key eq k vs v more ps rest HN Heq HV HS HP IH];
    destruct (value_tokens_shape _ _ _ HV) as (_ & _ & _ & _ & _ & Hn);
    (constructor; [by eapply name_token_line|]); (constructor; [unfold is_newline; by rewrite Heq|]); [done|].
  by apply Forall_app.
Qed.

(** A list of directives whose first is returned and the rest queued. *)
Lemma clean_take_first built p d p' :
  clean (take_first_queue_rest built) p d p' <->
  exists ds, built = d :: ds /\ p_errors p = [] /\ p' = set_pending (p_pending p ++ ds) p.
Proof.
  unfold take_first_queue_rest. split.
  - intros H. pose proof (clean_inv _ _ _ _ _ H) as He. destruct built as [|x ds]; [by cinv|]. cinv. eauto.
  - intros (ds & -> & He & ->). cstep; [done|]. done.
Qed.

Lemma clean_labels st ps : forall i p ds p', p_errors p = [] ->
  clean (build_labels st i ps) p ds p' <-> labels st i ps ds /\ p' = p.
Proof.
  induction ps as [|[k v] ps IH]; intros i p ds p' He; cbn [build_labels].
  - split; [intros H; cinv; by split; [constructor|]|]. intros [HL ->]. by inversion HL.
  - split.
    + intros H. apply clean_bind_inv in H as (? & ? & (key & Hk & -> & ->)%clean_validated & H); [|mono].
      apply clean_bind_inv in H as (? & ? & (val & Hv & -> & ->)%clean_validated & H); [|mono].
      apply clean_bind_inv in H as (ds' & ? & [HL ->]%IH & H); [|done|mono]. cinv. by split; [constructor|].
    + intros [HL ->]. inversion HL; subst. cstep; [by apply cl_validated|]. cstep; [by apply cl_validated|].
      cstep; [by apply IH|]. done.
Qed.

Lemma clean_envs st ps : forall i p ds p', p_errors p = [] ->
  clean (build_envs st i ps) p ds p' <-> envs st i ps ds /\ p' = p.
Proof.
  induction ps as [|[k v] ps IH]; intros i p ds p' He; cbn [build_envs].
  - split; [intros H; cinv; by split; [constructor|]|]. intros [HL ->]. by inversion HL.
  - split.
    + intros H. apply clean_bind_inv in H as (? & ? & (key & Hk & -> & ->)%clean_validated & H); [|mono].
      apply clean_bind_inv in H as (? & ? & (val & Hv & -> & ->)%clean_validated & H); [|mono].
      apply clean_bind_inv in H as (ds' & ? & [HL ->]%IH & H); [|done|mono]. cinv. by split; [constructor|].
    + intros [HL ->]. inversion HL; subst. cstep; [by apply cl_validated|]. cstep; [by apply cl_validated|].
      cstep; [by apply IH|]. done.
Qed.

(** The two directives made of pairs. *)
Lemma accepts_pairs st kw name (build : nat -> nat -> list (Spanned str * Spanned str) -> P (list Directive))
    (rel : nat -> nat -> list (Spanned str * Spanned str) -> list Directive -> Prop) :
  (forall i ps p ds p', p_errors p = [] -> clean (build st i ps) p ds p' <-> rel st i ps ds /\ p' = p) ->
  (forall i ps, Mono (build st i ps)) ->
  (forall ts ds ws, arguments src st kw ts ds ws <-> exists ps, pairs src ts ps [] /\ rel st 0 ps ds /\ ws = []) ->
  accepts (pairs ← parse_key_value_list name; _ ← expect_newline_after name;
           built ← build st 0 pairs; take_first_queue_rest built) st kw.
Proof.
  intros HB HM HA p d p' Hs He. split.
  - intros H. apply clean_bind_inv in H as (ps & p1 & H1 & H); [|mono].
    unfold parse_key_value_list in H1. apply clean_fuel in H1.
    apply clean_key_value_loop in H1 as (ts & rest & qs & Hr & HP & -> & ->); [|done].
    apply clean_bind_inv in H as (? & p2 & [Hn ->]%clean_newline & H); [|mono].
    rewrite (remaining_after_app _ _ _ Hr) in Hn.
    apply clean_bind_inv in H as (built & p3 & [HL ->]%HB & H); [|done|mono].
    apply clean_take_first in H as (ds & -> & _ & ->). exists ts, rest, ds, []. split_and!; try done.
    + by eapply pairs_line.
    + apply HA. exists qs. split_and!; [by eapply pairs_eol|done|done].
    + unfold consumed. by rewrite app_nil_r.
  - intros (ts & rest & ds & ws & Hr & Hn & Hl & (ps & HP & HL & ->)%HA & ->).
    cstep. { apply clean_fuel. apply (cl_key_value_loop name ts ps rest); try done; [by eapply pairs_eol|].
      pose proof (fuel_remaining p) as HF. rewrite Hr, length_app in HF. lia. }
    cstep; [apply cl_newline; [done|by rewrite (remaining_after_app _ _ _ Hr)]|].
    cstep; [by apply HB|]. apply clean_take_first. exists ds. split_and!; [done|done|].
    unfold consumed. by rewrite app_nil_r.
Qed.

Lemma accepts_label st : accepts (parse_label st) st KW_Label.
Proof.
  apply (accepts_pairs st KW_Label "LABEL" build_labels labels).
  - intros. by apply clean_labels.
  - apply _.
  - intros ts ds ws. split; [intros HA; args_inv HA; eauto|]. intros (ps & HP & HL & ->). by eapply args_label.
Qed.

Lemma accepts_env st : accepts (parse_env st) st KW_Env.
Proof.
  apply (accepts_pairs st KW_Env "ENV" build_envs envs).
  - intros. by apply clean_envs.
  - apply _.
  - intros ts ds ws. split; [intros HA; args_inv HA; eauto|]. intros (ps & HP & HL & ->). by eapply args_env.
Qed.

(** *** ARG *)

Lemma arg_line st ts a : arg_tokens src st ts a -> no_newline ts.
Proof.
  intros [t s name HN _|t eq s name vs v dflt HN _ Heq HV _].
  - constructor; [by eapply name_token_line|constructor].
  - destruct (value_tokens_shape _ _ _ HV) as (_ & _ & _ & _ & _ & Hn).
    constructor; [by eapply name_token_line|]. constructor; [unfold is_newline; by rewrite Heq|done].
Qed.

Lemma value_tokens_eol ts v rest rest' :
  eol rest = true -> eol rest' = true -> value_tokens src ts v rest -> value_tokens src ts v rest'.
Proof. intros H H'. apply value_tokens_ext. intros e. by rewrite !eol_continues. Qed.

Lemma clean_arg_default e p r p' :
  p_source p = src -> clean (parse_arg_default e) p r p' ->
  (r = (None, e) /\ p' = p)
  \/ exists eq vs v dflt rest, remaining p = eq :: vs ++ rest /\ kind eq = TokenKind_Punct Punct_Equals
       /\ value_tokens src vs v rest /\ EnvVarValue_new (value v) = Ok dflt
       /\ r = (Some (mkSpanned dflt (span v)), end_ (span v)) /\ p' = after (1 + length vs) p.
Proof.
  intros Hs H. unfold parse_arg_default in H.
  apply clean_bind_inv in H as (x & p1 & [-> ->]%clean_gets & H); [|mono].
  case_bool_decide as Hx; [|cinv; by left]. right. unfold p_peek_punct in Hx.
  rewrite peek_kind_remaining in Hx. destruct (remaining p) as [|eq ts] eqn:Er; [done|]. simpl in Hx.
  destruct (kind eq) as [| | | |pp| |] eqn:Ek; try done. injection Hx as ->.
  apply clean_bind_inv in H as (? & p2 & ->%clean_skip & H); [|mono]. rewrite Er in H.
  apply clean_bind_inv in H as (val & p3 & (ts1 & E1 & N1 & ->)%clean_advance_or_err & H); [|mono].
  rewrite (remaining_after_1 _ _ _ Er) in E1. subst ts.
  destruct (value_text (kind val)) as [s|] eqn:Ev; [|by apply clean_fail in H].
  apply clean_bind_inv in H as ([text e'] & p4 & (ts & rest & E2 & HV & ->)%clean_splice & H); [|done|done|mono].
  rewrite after_after, remaining_after, Er in E2. simpl in E2. rewrite drop_0 in E2. subst ts1.
  apply clean_bind_inv in H as (? & p5 & (dflt & Hd & -> & ->)%clean_validated & H); [|mono]. cinv.
  exists eq, (val :: ts). do 3 eexists. split_and!; [done|done|exact HV|exact Hd|done|]. by rewrite !after_after.
Qed.

Lemma cl_arg_default e p eq vs v dflt rest :
  p_source p = src -> p_errors p = [] -> remaining p = eq :: vs ++ rest ->
  kind eq = TokenKind_Punct Punct_Equals -> value_tokens src vs v rest ->
  EnvVarValue_new (value v) = Ok dflt ->
  clean (parse_arg_default e) p (Some (mkSpanned dflt (span v)), end_ (span v)) (after (1 + length vs) p).
Proof.
  intros Hs He Hr Hk HV Hd. destruct (value_tokens_shape _ _ _ HV) as (t & ts & s & -> & Ht & Hn).
  unfold parse_arg_default. cstep; [by apply cl_gets|]. unfold p_peek_punct.
  rewrite peek_kind_remaining, Hr. simpl. rewrite Hk, bool_decide_eq_true_2 by done.
  cstep; [by eapply cl_skip|].
  cstep; [eapply cl_next; [done|by eapply remaining_after_1|by inversion Hn]|]. rewrite Ht.
  destruct (cl_splice t s (after 1 (after 1 p)) ts v rest) as [HC Hst]; try done.
  { by rewrite !after_after, remaining_after, Hr. }
  cstep; [exact HC|]. simpl. cstep; [by apply cl_validated|]. rewrite !after_after, <- Hst.
  by destruct v as [text [a b]].
Qed.

Lemma cl_arg_no_default e p :
  p_errors p = [] -> eol (remaining p) = true -> clean (parse_arg_default e) p (None, e) p.
Proof.
  intros He Hn. unfold parse_arg_default. cstep; [by apply cl_gets|].
  rewrite bool_decide_eq_false_2; [done|]. unfold p_peek_punct. rewrite peek_kind_remaining.
  destruct (remaining p) as [|t ts]; [done|]. simpl in *. unfold is_newline in Hn. by destruct (kind t).
Qed.

(** The warning about a secret-shaped name. *)
Lemma clean_secret_warning a p x p' :
  p_errors p = [] ->
  clean (if name_looks_secret (EnvVarName_0 (value (arg_name a)))
         then push_warning (secret_name_warning (EnvVarName_0 (value (arg_name a))) (arg_span a)) else mret tt)
    p x p' <-> p' = consumed 0 [] (arg_warnings a) p.
Proof.
  intros He. unfold arg_warnings, consumed. destruct (name_looks_secret _).
  - split; [intros [[= <- <-] _]|intros ->; destruct x]; unfold add_warning; rewrite Nat.add_0_r, app_nil_r; done.
  - split; [intros [[= <- <-] _]|intros ->; destruct x]; rewrite Nat.add_0_r, !app_nil_r; by destruct p.
Qed.

Lemma clean_arg st p d p' : p_source p = src -> p_errors p = [] ->
  clean (parse_arg st) p d p' ->
  exists a ts rest, d = Directive_Arg a /\ remaining p = ts ++ rest /\ eol rest = true
    /\ arg_tokens src st ts a /\ p' = consumed (length ts) [] (arg_warnings a) p.
Proof.
  intros Hs He.
  intros H. unfold parse_arg in H.
  apply clean_bind_inv in H as (t & p1 & (ts1 & E1 & N1 & ->)%clean_advance_or_err & H); [|mono].
  apply clean_bind_inv in H as (s & p2 & [HN ->]%clean_name & H); [|done|mono].
  apply clean_bind_inv in H as (? & p3 & (name & Hk & -> & ->)%clean_validated & H); [|mono].
  apply clean_bind_inv in H as ([dflt e] & p4 & HD & H); [|mono].
  apply clean_arg_default in HD as [[[= -> ->] ->]|(eq & vs & v & df & rest & Hr & Heq & HV & Hd & [= -> ->] & ->)]; [| |done];
  (apply clean_bind_inv in H as (? & p5 & [Hn ->]%clean_newline & H); [|mono]);
  cbv zeta in H; (apply clean_bind_inv in H as (? & p6 & HW & H); [|mono]); apply clean_ret in H as [-> ->].
  - rewrite (remaining_after_1 _ _ _ E1) in Hn.
    eexists {| arg_name := mkSpanned name (tok_span t); arg_default := None; arg_span := mkSpan st (tok_end t) |}, [t], ts1.
    apply (clean_secret_warning {| arg_name := mkSpanned name (tok_span t); arg_default := None;
      arg_span := mkSpan st (tok_end t) |}) in HW as ->; [|done].
    split_and!; [done|done|done|by eapply arg_plain|]. unfold consumed. simpl. by rewrite Nat.add_0_r.
  - rewrite (remaining_after_1 _ _ _ E1) in Hr. subst ts1. rewrite after_after, remaining_after, E1 in Hn.
    simpl in Hn. rewrite drop_app_length in Hn.
    eexists {| arg_name := mkSpanned name (tok_span t); arg_default := Some (mkSpanned df (span v));
      arg_span := mkSpan st (end_ (span v)) |}, (t :: eq :: vs), rest.
    apply (clean_secret_warning {| arg_name := mkSpanned name (tok_span t); arg_default := Some (mkSpanned df (span v));
      arg_span := mkSpan st (end_ (span v)) |}) in HW as ->; [|done].
    split_and!; [done|done|done| |].
    + eapply arg_with_default; try done. by eapply (value_tokens_eol _ _ rest []).
    + unfold consumed. simpl. f_equal. lia.
Qed.

Lemma cl_arg st p a ts rest : p_source p = src -> p_errors p = [] ->
  remaining p = ts ++ rest -> eol rest = true -> arg_tokens src st ts a ->
  clean (parse_arg st) p (Directive_Arg a) (consumed (length ts) [] (arg_warnings a) p).
Proof.
  intros Hs He Hr Hn HA. unfold parse_arg.
  inversion HA as [t s name HN Hk|t eq s name vs v dflt HN Hk Heq HV Hd]; subst ts a; simpl in Hr.
  - cstep; [eapply cl_next; [done|exact Hr|by eapply name_token_line]|].
    cstep; [by apply cl_name|]. cstep; [by apply cl_validated|].
    cstep; [apply cl_arg_no_default; [done|by rewrite (remaining_after_1 _ _ _ Hr)]|].
    cstep; [apply cl_newline; [done|by rewrite (remaining_after_1 _ _ _ Hr)]|]. cbv zeta.
    cstep; [by apply (clean_secret_warning {| arg_name := mkSpanned name (tok_span t); arg_default := None;
      arg_span := mkSpan st (tok_end t) |} _ tt)|].
    split; [|done]. unfold mret, P_ret, consumed. simpl. by rewrite Nat.add_0_r.
  - assert (Hr2 : remaining (after (1 + length vs) (after 1 p)) = rest).
    { rewrite after_after, remaining_after, Hr. simpl. by rewrite drop_app_length. }
    cstep; [eapply cl_next; [done|exact Hr|by eapply name_token_line]|].
    cstep; [by apply cl_name|]. cstep; [by apply cl_validated|].
    cstep; [eapply (cl_arg_default _ (after 1 p) eq vs v dflt rest); try done;
      [by eapply remaining_after_1|by eapply (value_tokens_eol _ _ [] rest)]|].
    cstep; [apply cl_newline; [done|by rewrite Hr2]|]. cbv zeta.
    cstep; [by apply (clean_secret_warning {| arg_name := mkSpanned name (tok_span t);
      arg_default := Some (mkSpanned dflt (span v)); arg_span := mkSpan st (end_ (span v)) |} _ tt)|].
    split; [|done]. unfold mret, P_ret, consumed. simpl. do 3 f_equal. lia.
Qed.

Lemma accepts_arg st : accepts (parse_arg st) st KW_Arg.
Proof.
  intros p d p' Hs He. split.
  - intros (a & ts & rest & -> & Hr & Hn & HA & ->)%clean_arg; [|done|done]. exists ts, rest, [], (arg_warnings a).
    split_and!; try done; [by eapply arg_line|by constructor].
  - intros (ts & rest & ds & ws & Hr & Hn & Hl & HA & ->). args_inv HA. by eapply cl_arg.
Qed.

(** *** Arrays *)

Lemma elements_line ts xs e : elements ts xs e -> no_newline ts.
Proof.
  unfold is_newline.
  induction 1 as [t c s Ht Hc|t c s ts xs e Ht Hc _ IH];
    (constructor; [unfold is_newline; by rewrite Ht|]); (constructor; [unfold is_newline; by rewrite Hc|]); done.
Qed.

Lemma array_line ts xs e : array ts xs e -> no_newline ts.
Proof.
  intros (t & body & -> & Ht & HE). constructor; [|by eapply elements_line].
  unfold is_lbracket in Ht. bools. unfold is_newline. by rewrite Ht.
Qed.

Lemma clean_array_loop n a el h : forall acc p xs e p',
  clean (string_array_loop n a el h acc) p (xs, e) p' ->
  exists ts rest ys, remaining p = ts ++ rest /\ elements ts ys e /\ xs = acc ++ ys /\ p' = after (length ts) p.
Proof.
  induction n as [|n IH]; intros acc p xs e p' H; cbn [string_array_loop] in H; [by cinv|].
  apply clean_bind_inv in H as (t & p1 & (ts1 & E1 & N1 & ->)%clean_advance_or_err & H); [|mono].
  destruct (kind t) as [| |s| | | |] eqn:Et; try by apply clean_fail in H. cbv zeta in H.
  apply clean_bind_inv in H as (c & p2 & (ts2 & E2 & N2 & ->)%clean_advance_or_err & H); [|mono].
  rewrite (remaining_after_1 _ _ _ E1) in E2. subst ts1.
  destruct (kind c) as [| | | |[]| |] eqn:Ec; try by apply clean_fail in H.
  - apply IH in H as (ts & rest & ys & Hr & HE & -> & ->).
    rewrite after_after, remaining_after, E1 in Hr. simpl in Hr. rewrite drop_0 in Hr. subst ts2.
    exists (t :: c :: ts), rest. eexists. split_and!; [done|by apply elements_more|by rewrite <- app_assoc|].
    rewrite !after_after. f_equal.
  - apply clean_ret in H as [[= -> ->] ->]. exists [t; c], ts2. eexists.
    split_and!; [done|by apply elements_last|done|by rewrite after_after].
Qed.

Lemma cl_array_loop a el h ts ys e : elements ts ys e -> forall n acc p rest,
  p_errors p = [] -> remaining p = ts ++ rest -> length ts < n ->
  clean (string_array_loop n a el h acc) p (acc ++ ys, e) (after (length ts) p).
Proof.
  induction 1 as [t c s Ht Hc|t c s ts xs e Ht Hc _ IH]; intros [|n] acc p rest He Hr Hn; simpl in Hn; try lia;
    cbn [string_array_loop]; simpl in Hr;
    (cstep; [eapply cl_next; [done|exact Hr|unfold is_newline; by rewrite Ht]|]); rewrite Ht; cbv zeta;
    (cstep; [eapply cl_next; [done|by eapply remaining_after_1|unfold is_newline; by rewrite Hc]|]); rewrite Hc.
  - rewrite after_after. done.
  - replace (acc ++ mkSpanned s (tok_span t) :: xs) with ((acc ++ [mkSpanned s (tok_span t)]) ++ xs)
      by (by rewrite <- app_assoc).
    replace (after (length (t :: c :: ts)) p) with (after (length ts) (after 1 (after 1 p)))
      by (by rewrite !after_after).
    apply (IH n _ _ rest); [done| |lia]. by rewrite after_after, remaining_after, Hr.
Qed.

(** The exec form, from an opening bracket. *)
Lemma clean_array d p t ts1 xs e p' :
  remaining p = t :: ts1 -> is_lbracket t = true -> clean (parse_string_array d) p (xs, e) p' ->
  exists ts rest, remaining p = ts ++ rest /\ array ts xs e /\ p' = after (length ts) p.
Proof.
  intros Hr Ht H. unfold parse_string_array in H.
  apply clean_bind_inv in H as (t' & p1 & (ts2 & E1 & ->)%clean_advance & H); [|mono].
  apply clean_bind_inv in H as (? & p2 & [-> ->]%clean_gets & H); [|mono].
  case_bool_decide; [by cinv|]. apply clean_fuel in H.
  apply clean_array_loop in H as (ts & rest & ys & E2 & HE & -> & ->).
  rewrite (remaining_after_1 _ _ _ Hr) in E2. subst ts1. exists (t :: ts), rest.
  split_and!; [done|by exists t, ts|by rewrite after_after].
Qed.

Lemma cl_array_body p t body xs e rest a el h :
  p_errors p = [] -> remaining p = (t :: body) ++ rest -> elements body xs e ->
  p_peek_kind (after 1 p) <> Some (TokenKind_Punct Punct_RBracket)
  /\ clean (with_fuel (fun fuel => string_array_loop fuel a el h [])) (after 1 p) (xs, e)
       (after (length (t :: body)) p).
Proof.
  intros He Hr HE. pose proof (remaining_after_1 _ _ _ Hr) as Hr1. split.
  - rewrite peek_kind_remaining, Hr1. destruct HE as [u c s Hu _|u c s ts xs e Hu _ _]; simpl; by rewrite Hu.
  - apply clean_fuel. replace (after (length (t :: body)) p) with (after (length body) (after 1 p))
      by (by rewrite after_after).
    apply (cl_array_loop a el h body xs e HE _ [] _ rest); [done|done|].
    pose proof (fuel_remaining (after 1 p)) as HF. rewrite Hr1, length_app in HF. lia.
Qed.

Lemma cl_array d p ts xs e rest :
  p_errors p = [] -> remaining p = ts ++ rest -> array ts xs e ->
  clean (parse_string_array d) p (xs, e) (after (length ts) p).
Proof.
  intros He Hr (t & body & -> & Ht & HE). unfold parse_string_array.
  destruct (cl_array_body p t body xs e rest (d ++ " array form") "each element must be a quoted string"
    ("array form: [" ++ dq "a" ++ ", " ++ dq "b" ++ ", ...]") He Hr HE) as [Hk HC].
  cstep; [by eapply cl_advance|]. cstep; [by apply cl_gets|].
  rewrite bool_decide_eq_false_2 by done. exact HC.
Qed.

Lemma array_head p ts xs e rest :
  remaining p = ts ++ rest -> array ts xs e ->
  p_peek_kind p = Some (TokenKind_Punct Punct_LBracket).
Proof.
  intros Hr (t & body & -> & Ht & _). rewrite peek_kind_remaining, Hr. simpl. unfold is_lbracket in Ht.
  bools. by rewrite Ht.
Qed.

Lemma peek_lbracket p :
  p_peek_kind p = Some (TokenKind_Punct Punct_LBracket) ->
  exists t ts, remaining p = t :: ts /\ is_lbracket t = true.
Proof.
  rewrite peek_kind_remaining. destruct (remaining p) as [|t ts]; [done|]. intros [= Hk]. exists t, ts.
  split; [done|]. unfold is_lbracket. by rewrite bool_decide_eq_true_2.
Qed.

Ltac line_out ts rest := exists ts, rest, [], []; split_and!; try done; [..|by rewrite consumed_nil].

(** *** USER, WORKDIR, STOPSIGNAL and SHELL *)

Lemma clean_ident_arg d p s sp p' :
  clean (expect_ident_arg d) p (s, sp) p' ->
  exists t ts, remaining p = t :: ts /\ kind t = TokenKind_Ident s /\ sp = tok_span t /\ p' = after 1 p.
Proof.
  intros H. unfold expect_ident_arg in H.
  apply clean_bind_inv in H as (t & p1 & (ts1 & E1 & N1 & ->)%clean_advance_or_err & H); [|mono].
  destruct (kind t) as [|s'| | | | |] eqn:Et; try by apply clean_fail in H.
  apply clean_ret in H as [[= -> ->] ->]. eauto 10.
Qed.

Lemma cl_ident_arg d p t ts s :
  p_errors p = [] -> remaining p = t :: ts -> kind t = TokenKind_Ident s ->
  clean (expect_ident_arg d) p (s, tok_span t) (after 1 p).
Proof.
  intros He Hr Hk. unfold expect_ident_arg.
  cstep; [eapply cl_next; [done|exact Hr|unfold is_newline; by rewrite Hk]|]. by rewrite Hk.
Qed.

Lemma ident_line t s : kind t = TokenKind_Ident s -> no_newline [t].
Proof. intros Hk. repeat constructor. unfold is_newline. by rewrite Hk. Qed.

Lemma accepts_user st : accepts (parse_user st) st KW_User.
Proof.
  intros p d p' Hs He. unfold parse_user. split.
  - intros H. apply clean_bind_inv in H as ([s sp] & p1 & (t & ts & Hr & Hk & -> & ->)%clean_ident_arg & H); [|mono].
    apply clean_bind_inv in H as (? & p2 & (n & Hv & -> & ->)%clean_validated & H); [|mono].
    apply clean_bind_inv in H as (? & p3 & [Hn ->]%clean_newline & H); [|mono].
    rewrite (remaining_after_1 _ _ _ Hr) in Hn. apply clean_ret in H as [-> ->].
    line_out [t] ts; [by eapply ident_line|by eapply args_user].
  - intros (ts & rest & ds & ws & Hr & Hn & Hl & HA & ->). revert Hr Hl. args_inv HA; intros Hr Hl; simpl in Hr.
    cstep; [by eapply cl_ident_arg|]. cstep; [by apply cl_validated|].
    cstep; [apply cl_newline; [done|by rewrite (remaining_after_1 _ _ _ Hr)]|]. by rewrite consumed_nil.
Qed.

Lemma accepts_workdir st : accepts (parse_workdir st) st KW_Workdir.
Proof.
  intros p d p' Hs He. unfold parse_workdir. split.
  - intros H. apply clean_bind_inv in H as ([s sp] & p1 & (t & ts & Hr & Hk & -> & ->)%clean_ident_arg & H); [|mono].
    apply clean_bind_inv in H as (? & p2 & (n & Hv & -> & ->)%clean_validated & H); [|mono].
    apply clean_bind_inv in H as (? & p3 & [Hn ->]%clean_newline & H); [|mono].
    rewrite (remaining_after_1 _ _ _ Hr) in Hn. apply clean_ret in H as [-> ->].
    line_out [t] ts; [by eapply ident_line|by eapply args_workdir].
  - intros (ts & rest & ds & ws & Hr & Hn & Hl & HA & ->). revert Hr Hl. args_inv HA; intros Hr Hl; simpl in Hr.
    cstep; [by eapply cl_ident_arg|]. cstep; [by apply cl_validated|].
    cstep; [apply cl_newline; [done|by rewrite (remaining_after_1 _ _ _ Hr)]|]. by rewrite consumed_nil.
Qed.

Lemma accepts_stopsignal st : accepts (parse_stopsignal st) st KW_Stopsignal.
Proof.
  intros p d p' Hs He. unfold parse_stopsignal. split.
  - intros H. apply clean_bind_inv in H as (t & p1 & (ts & Hr & N1 & ->)%clean_advance_or_err & H); [|mono].
    change (match kind t with TokenKind_Ident s => Some s | TokenKind_Number n => Some (to_decimal n) | _ => None end)
      with (signal_of (kind t)) in H.
    destruct (signal_of (kind t)) as [s|] eqn:Es; [|by apply clean_fail in H].
    apply clean_bind_inv in H as (? & p3 & [Hn ->]%clean_newline & H); [|mono].
    rewrite (remaining_after_1 _ _ _ Hr) in Hn. apply clean_ret in H as [-> ->].
    line_out [t] ts; [by repeat constructor|by eapply args_stopsignal].
  - intros (ts & rest & ds & ws & Hr & Hn & Hl & HA & ->). revert Hr Hl. args_inv HA; intros Hr Hl; simpl in Hr.
    cstep; [eapply cl_next; [done|exact Hr|by inversion Hl]|].
    change (match kind t with TokenKind_Ident s => Some s | TokenKind_Number n => Some (to_decimal n) | _ => None end)
      with (signal_of (kind t)). rewrite H.
    cstep; [apply cl_newline; [done|by rewrite (remaining_after_1 _ _ _ Hr)]|]. by rewrite consumed_nil.
Qed.

Lemma accepts_shell st : accepts (parse_shell st) st KW_Shell.
Proof.
  intros p d p' Hs He. unfold parse_shell. split.
  - intros H. apply clean_bind_inv in H as (k & p0 & [-> ->]%clean_gets & H); [|mono].
    apply clean_bind_inv in H as ([xs e] & p1 & HX & H); [|mono].
    apply clean_bind_inv in H as (? & p3 & [Hn ->]%clean_newline & H); [|mono]. apply clean_ret in H as [-> ->].
    case_bool_decide as Hk.
    + apply peek_lbracket in Hk as (t & ts1 & Hr1 & Ht).
      destruct (clean_array _ _ _ _ _ _ _ Hr1 Ht HX) as (ts & rest & Hr & HA & ->).
      rewrite (remaining_after_app _ _ _ Hr) in Hn.
      line_out ts rest; [by eapply array_line|by eapply args_shell_exec].
    + apply clean_bind_inv in HX as ([s sp] & p2 & (t & ts & Hr & Hk' & -> & ->)%clean_ident_arg & HX); [|mono].
      apply clean_bind_inv in HX as (argv & p3' & HV & HX); [|mono]. apply clean_ret in HX as [[= -> ->] ->].
      assert (shell_of s (tok_span t) = Some argv /\ p3' = after 1 p) as [Hsh ->].
      { unfold shell_of. repeat case_decide; try (by apply clean_ret in HV as [-> ->]). by apply clean_fail in HV. }
      rewrite (remaining_after_1 _ _ _ Hr) in Hn.
      line_out [t] ts; [by eapply ident_line|by eapply args_shell_keyword].
  - intros (ts & rest & ds & ws & Hr & Hn & Hl & HA & ->). revert Hr Hl. args_inv HA; intros Hr Hl.
    + cstep; [by apply cl_gets|]. rewrite (array_head _ _ _ _ _ Hr H), bool_decide_eq_true_2 by done.
      cstep; [by eapply cl_array|]. simpl.
      cstep; [apply cl_newline; [done|by rewrite (remaining_after_app _ _ _ Hr)]|]. by rewrite consumed_nil.
    + simpl in Hr. cstep; [by apply cl_gets|]. rewrite peek_kind_remaining, Hr. cbn [head fmap option_fmap option_map].
      rewrite H, bool_decide_eq_false_2 by done. cstep.
      { cstep; [by eapply cl_ident_arg|]. cstep.
        - instantiate (2 := xs). instantiate (1 := after 1 p). unfold shell_of in H0.
          repeat case_decide; try discriminate H0; injection H0 as <-; by apply cl_ret.
        - by apply cl_ret. }
      simpl. cstep; [apply cl_newline; [done|by rewrite (remaining_after_1 _ _ _ Hr)]|]. by rewrite consumed_nil.
Qed.

(** *** Shell payloads *)

Lemma line_split l : exists ts rest, l = ts ++ rest /\ no_newline ts /\ eol rest = true.
Proof.
  induction l as [|t l (ts & rest & -> & Hn & He)].
  - exists [], []. split_and!; [done|constructor|done].
  - destruct (is_newline t) eqn:E; [by exists [], (t :: ts ++ rest); split_and!; [|constructor|]|].
    exists (t :: ts), rest. split_and!; [done|by constructor|done].
Qed.

Lemma slurp_eq p cs ts rest u :
  remaining p = ts ++ rest -> no_newline ts -> eol rest = true -> last ts = Some u ->
  slurp_line cs p = Val (Some (tok_end u), after (length ts) p).
Proof.
  intros Hr Hn He Hu. unfold slurp_line.
  assert (count_while (fun t => negb (is_newline t)) (remaining p) = length ts) as ->.
  { rewrite Hr, count_while_app.
    - destruct rest as [|x rest]; simpl in *; [lia|]. rewrite He. simpl. lia.
    - eapply Forall_impl; [exact Hn|]. intros t Ht. simpl in *. by rewrite Ht. }
  by rewrite Hr, take_app_length, Hu.
Qed.

Lemma last_cons_Some {A} (t : A) ts : exists u, last (t :: ts) = Some u.
Proof. destruct (last (t :: ts)) as [u|] eqn:E; [eauto|]. by apply last_None in E. Qed.

(** The rest of a line as a command. *)
Lemma clean_payload {B} p t ts1 (k : str -> nat -> P B) b p' :
  p_source p = src -> remaining p = t :: ts1 -> is_newline t = false -> (forall x y, Mono (k x y)) ->
  clean (cmd_end ← slurp_line (tok_start t); raw ← source_slice (tok_start t) cmd_end; k raw cmd_end) p b p' ->
  exists ts rest s, remaining p = (t :: ts) ++ rest /\ eol rest = true /\ no_newline (t :: ts)
    /\ payload src (t :: ts) s /\ span s = mkSpan (tok_start t) (end_ (span s))
    /\ clean (k (value s) (end_ (span s))) (after (length (t :: ts)) p) b p'.
Proof.
  intros Hs Hr Ht HM H. destruct (line_split ts1) as (ts & rest & -> & Hn & He).
  destruct (last_cons_Some t ts) as [u Hu].
  apply clean_bind_inv in H as (e & p1 & [E _] & H); [|mono].
  rewrite (slurp_eq p _ (t :: ts) rest u) in E; [|done|by constructor|done|done]. injection E as <- <-.
  apply clean_bind_inv in H as (raw & p2 & [Hsl ->]%clean_slice & H); [|mono].
  exists ts, rest, (mkSpanned raw (mkSpan (tok_start t) (tok_end u))). split_and!; try done; [by constructor|].
  exists t, u, raw. rewrite <- Hs. split_and!; done.
Qed.

Lemma cl_payload {B} p t ts rest s (k : str -> nat -> P B) b p' :
  p_source p = src -> p_errors p = [] -> remaining p = (t :: ts) ++ rest -> eol rest = true ->
  no_newline (t :: ts) -> payload src (t :: ts) s -> (forall x y, Mono (k x y)) ->
  (span s = mkSpan (tok_start t) (end_ (span s)) ->
   clean (k (value s) (end_ (span s))) (after (length (t :: ts)) p) b p') ->
  clean (cmd_end ← slurp_line (tok_start t); raw ← source_slice (tok_start t) cmd_end; k raw cmd_end) p b p'.
Proof.
  intros Hs He Hr Hn Hl (t' & u & text & [= <-] & Hu & Hsl & ->) HM Hk.
  cstep; [split; [by eapply slurp_eq|done]|]. cstep; [apply cl_slice; [done|]; simpl; by rewrite Hs|].
  by apply Hk.
Qed.

Lemma peek_not_eol p k : p_peek_kind p = Some k -> k <> TokenKind_Newline ->
  exists t ts, remaining p = t :: ts /\ kind t = k /\ is_newline t = false.
Proof.
  rewrite peek_kind_remaining. destruct (remaining p) as [|t ts]; [done|]. intros [= <-] Hk.
  exists t, ts. split_and!; [done|done|]. unfold is_newline. by destruct (kind t).
Qed.

Lemma lbracket_false t : is_lbracket t = false -> kind t <> TokenKind_Punct Punct_LBracket.
Proof. unfold is_lbracket. intros H. by bools. Qed.

Lemma clean_cmd_form p k c e p' :
  p_source p = src -> p_peek_kind p = Some k -> k <> TokenKind_Newline ->
  clean (parse_cmd_form k) p (c, e) p' ->
  exists ts rest, remaining p = ts ++ rest /\ no_newline ts /\ p' = after (length ts) p
    /\ forall st, arguments src st KW_Cmd ts
         [Directive_Cmd {| cmd_command := c; cmd_span := mkSpan st e |}] [].
Proof.
  intros Hs Ek Hkn H. destruct (peek_not_eol _ _ Ek Hkn) as (t & ts1 & Hr1 & Hk & Ht).
  unfold parse_cmd_form in H. case_bool_decide as Hb.
  - apply clean_bind_inv in H as ([xs e'] & p2 & HX & H); [|mono]. apply clean_ret in H as [[= -> ->] ->].
    apply (clean_array _ _ t ts1) in HX as (ts & rest & Hr & HA & ->);
      [|done|by unfold is_lbracket; rewrite Hk; apply bool_decide_eq_true_2].
    exists ts, rest. split_and!; [done|by eapply array_line|done|]. intros st. by apply args_cmd_exec.
  - apply clean_bind_inv in H as (cs & p2 & [-> ->]%clean_gets & H); [|mono].
    rewrite peek_remaining, Hr1 in H. simpl in H.
    apply (clean_payload _ _ ts1 (fun raw e => mret (CmdForm_Shell (mkSpanned raw (mkSpan (tok_start t) e)), e)))
      in H as (ts & rest & s & Hr & He' & Hl & HP & Hsp & H); [|done|done|done|mono].
    apply clean_ret in H as [[= -> ->] ->]. exists (t :: ts), rest. split_and!; [done|done|done|]. intros st.
    rewrite <- Hsp. destruct s. apply args_cmd_shell; [|done]. unfold is_lbracket.
    rewrite Hk. by apply bool_decide_eq_false_2.
Qed.

Lemma accepts_cmd st : accepts (parse_cmd st) st KW_Cmd.
Proof.
  intros p d p' Hs He. unfold parse_cmd. split.
  - intros H. apply clean_bind_inv in H as (k & p0 & [-> ->]%clean_gets & H); [|mono].
    destruct (p_peek_kind p) as [k|] eqn:Ek; [|by cinv].
    assert (Hkn : k <> TokenKind_Newline) by (intros ->; by cinv).
    assert (H' : clean (parse_cmd_rest st k) p d p') by (by destruct k). clear H.
    apply clean_bind_inv in H' as ([c e] & p1 & HX & H); [|mono].
    apply clean_cmd_form in HX as (ts & rest & Hr & Hl & -> & HA); [|done|done|done].
    apply clean_bind_inv in H as (? & p3 & [Hn ->]%clean_newline & H); [|mono]. apply clean_ret in H as [-> ->].
    rewrite (remaining_after_app _ _ _ Hr) in Hn. line_out ts rest.
  - intros (ts & rest & ds & ws & Hr & Hn & Hl & HA & ->).
    assert (HC : forall k, p_peek_kind p = Some k -> k <> TokenKind_Newline -> forall c e,
      d = Directive_Cmd {| cmd_command := c; cmd_span := mkSpan st e |} -> ws = [] -> ds = [] ->
      clean (parse_cmd_form k) p (c, e) (after (length ts) p) ->
      clean (parse_cmd st) p d (consumed (length ts) ds ws p)).
    { intros k Ek Hk c e -> -> -> HC. unfold parse_cmd. cstep; [by apply cl_gets|]. rewrite Ek.
      enough (clean (parse_cmd_rest st k) p (Directive_Cmd {| cmd_command := c; cmd_span := mkSpan st e |})
        (consumed (length ts) [] [] p)) by (by destruct k).
      cstep; [exact HC|]. simpl.
      cstep; [apply cl_newline; [done|by rewrite (remaining_after_app _ _ _ Hr)]|]. by rewrite consumed_nil. }
    revert Hr Hl HC. args_inv HA; intros Hr Hl HC.
    + eapply HC; [by eapply array_head|done|done|done|done|]. unfold parse_cmd_form.
      rewrite bool_decide_eq_true_2 by done. cstep; [by eapply cl_array|]. simpl. by apply cl_ret.
    + eapply (HC (kind t)); [by rewrite peek_kind_remaining, Hr| |done|done|done|].
      { inversion Hl as [|? ? Hx]. unfold is_newline in Hx. intros E. by rewrite E in Hx. }
      unfold parse_cmd_form. rewrite bool_decide_eq_false_2 by (by apply lbracket_false).
      cstep; [by apply cl_gets|]. rewrite peek_remaining, Hr. simpl.
      apply (cl_payload p t ts0 rest s (fun raw e => mret (CmdForm_Shell (mkSpanned raw (mkSpan (tok_start t) e)), e)));
        try done; [mono|]. intros Hsp. rewrite <- Hsp. destruct s. by apply cl_ret.
Qed.

(** *** ENTRYPOINT *)

Lemma clean_entrypoint_exec p t ts1 init e p' :
  remaining p = t :: ts1 -> is_lbracket t = true -> clean parse_entrypoint_exec p (init, e) p' ->
  exists ts rest xs, remaining p = ts ++ rest /\ array ts xs e /\ init = EntrypointInit_Exec xs
    /\ p' = after (length ts) p.
Proof.
  intros Hr Ht H. unfold parse_entrypoint_exec in H.
  apply clean_bind_inv in H as (t' & p1 & (ts2 & E1 & ->)%clean_advance & H); [|mono].
  apply clean_bind_inv in H as (? & p2 & [-> ->]%clean_gets & H); [|mono].
  case_bool_decide; [by cinv|].
  apply clean_bind_inv in H as ([xs e'] & p2 & HX & H); [|mono]. apply clean_ret in H as [[= -> ->] ->].
  apply clean_fuel, clean_array_loop in HX as (ts & rest & ys & E2 & HE & -> & ->).
  rewrite (remaining_after_1 _ _ _ Hr) in E2. subst ts1. exists (t :: ts), rest, ys.
  split_and!; [done|by exists t, ts|done|by rewrite after_after].
Qed.

Lemma clean_entrypoint_form p k init e p' :
  p_source p = src -> p_peek_kind p = Some k -> k <> TokenKind_Newline ->
  clean (parse_entrypoint_form k) p (init, e) p' ->
  exists ts rest, remaining p = ts ++ rest /\ no_newline ts /\ p' = after (length ts) p
    /\ forall st, arguments src st KW_Entrypoint ts
         [Directive_Entrypoint {| entrypoint_init := init; entrypoint_span := mkSpan st e |}] [].
Proof.
  intros Hs Ek Hkn H. destruct (peek_not_eol _ _ Ek Hkn) as (t & ts1 & Hr1 & Hk & Ht).
  unfold parse_entrypoint_form in H. destruct k as [|s| | |[]| |]; try by cinv.
  - destruct (starts_with "/" s) eqn:Es.
    + unfold parse_entrypoint_shell_path in H.
      apply clean_bind_inv in H as (cs & p2 & [-> ->]%clean_gets & H); [|mono].
      rewrite peek_remaining, Hr1 in H. simpl in H.
      apply (clean_payload _ _ ts1 (fun raw e => mret (EntrypointInit_Path (mkSpanned raw (mkSpan (tok_start t) e)), e)))
        in H as (ts & rest & x & Hr & He' & Hl & HP & Hsp & H); [|done|done|done|mono].
      apply clean_ret in H as [[= -> ->] ->]. exists (t :: ts), rest. split_and!; [done|done|done|]. intros st.
      rewrite <- Hsp. destruct x. by eapply args_entrypoint_path.
    + unfold parse_entrypoint_keyword in H.
      apply clean_bind_inv in H as (t' & p1 & (ts2 & E1 & ->)%clean_advance & H); [|mono].
      rewrite Hr1 in E1. injection E1 as <- <-.
      apply clean_bind_inv in H as (i & p2 & HI & H); [|mono]. apply clean_ret in H as [[= -> ->] ->].
      assert (init_of s = Some i /\ p2 = after 1 p) as [Hi ->].
      { unfold init_of. repeat case_decide; try (by apply clean_ret in HI as [-> ->]). by apply clean_fail in HI. }
      exists [t], ts1. split_and!; [done|by eapply ident_line|done|]. intros st. by eapply args_entrypoint_keyword.
  - apply (clean_entrypoint_exec _ t ts1) in H as (ts & rest & xs & Hr & HA & -> & ->);
      [|done|by unfold is_lbracket; rewrite Hk].
    exists ts, rest. split_and!; [done|by eapply array_line|done|]. intros st. by apply args_entrypoint_exec.
Qed.

Lemma cl_entrypoint_exec p ts rest xs e :
  p_errors p = [] -> remaining p = ts ++ rest -> array ts xs e ->
  clean parse_entrypoint_exec p (EntrypointInit_Exec xs, e) (after (length ts) p).
Proof.
  intros He Hr (t & body & -> & Ht & HE). unfold parse_entrypoint_exec.
  destruct (cl_array_body p t body xs e rest "ENTRYPOINT exec form" "each argv entry must be a quoted string"
    ("ENTRYPOINT exec form: [" ++ dq "argv0" ++ ", " ++ dq "argv1" ++ ", ...]") He Hr HE) as [Hk HC].
  cstep; [by eapply cl_advance|]. cstep; [by apply cl_gets|].
  rewrite bool_decide_eq_false_2 by done. cstep; [exact HC|]. done.
Qed.

Lemma cl_entrypoint_keyword p t ts s init :
  p_errors p = [] -> remaining p = t :: ts -> init_of s = Some init ->
  clean (parse_entrypoint_keyword s) p (init, tok_end t) (after 1 p).
Proof.
  intros He Hr Hi. unfold parse_entrypoint_keyword. cstep; [by eapply cl_advance|]. cstep.
  - instantiate (2 := init). instantiate (1 := after 1 p). unfold init_of in Hi.
    repeat case_decide; try discriminate Hi; injection Hi as <-; by apply cl_ret.
  - by apply cl_ret.
Qed.

Lemma accepts_entrypoint st : accepts (parse_entrypoint st) st KW_Entrypoint.
Proof.
  intros p d p' Hs He. unfold parse_entrypoint. split.
  - intros H. apply clean_bind_inv in H as (k & p0 & [-> ->]%clean_gets & H); [|mono].
    destruct (p_peek_kind p) as [k|] eqn:Ek; [|by cinv].
    assert (Hkn : k <> TokenKind_Newline) by (intros ->; by cinv).
    assert (H' : clean (parse_entrypoint_rest st k) p d p') by (by destruct k). clear H.
    apply clean_bind_inv in H' as ([c e] & p1 & HX & H); [|mono].
    apply clean_entrypoint_form in HX as (ts & rest & Hr & Hl & -> & HA); [|done|done|done].
    apply clean_bind_inv in H as (? & p3 & [Hn ->]%clean_newline & H); [|mono]. apply clean_ret in H as [-> ->].
    rewrite (remaining_after_app _ _ _ Hr) in Hn. line_out ts rest.
  - intros (ts & rest & ds & ws & Hr & Hn & Hl & HA & ->).
    assert (HC : forall k, p_peek_kind p = Some k -> k <> TokenKind_Newline -> forall i e,
      d = Directive_Entrypoint {| entrypoint_init := i; entrypoint_span := mkSpan st e |} -> ws = [] -> ds = [] ->
      clean (parse_entrypoint_form k) p (i, e) (after (length ts) p) ->
      clean (parse_entrypoint st) p d (consumed (length ts) ds ws p)).
    { intros k Ek Hk i e -> -> -> HC. unfold parse_entrypoint. cstep; [by apply cl_gets|]. rewrite Ek.
      enough (clean (parse_entrypoint_rest st k) p
        (Directive_Entrypoint {| entrypoint_init := i; entrypoint_span := mkSpan st e |})
        (consumed (length ts) [] [] p)) by (by destruct k).
      cstep; [exact HC|]. simpl.
      cstep; [apply cl_newline; [done|by rewrite (remaining_after_app _ _ _ Hr)]|]. by rewrite consumed_nil. }
    revert Hr Hl HC. args_inv HA; intros Hr Hl HC.
    + eapply HC; [by eapply array_head|done|done|done|done|]. by eapply cl_entrypoint_exec.
    + eapply (HC (kind t)); [by rewrite peek_kind_remaining, Hr|by rewrite H|done|done|done|].
      rewrite H. unfold parse_entrypoint_form. rewrite H0. cstep; [by apply cl_gets|].
      rewrite peek_remaining, Hr. simpl.
      apply (cl_payload p t ts0 rest s (fun raw e => mret (EntrypointInit_Path (mkSpanned raw (mkSpan (tok_start t) e)), e)));
        try done; [mono|]. intros Hsp. rewrite <- Hsp. destruct s. by apply cl_ret.
    + eapply (HC (kind t)); [by rewrite peek_kind_remaining, Hr|by rewrite H|done|done|done|].
      rewrite H. unfold parse_entrypoint_form. rewrite H0. by eapply cl_entrypoint_keyword.
Qed.

(** *** VOLUME *)

Lemma paths_line ts xs : Forall2 path_token ts xs -> no_newline ts.
Proof.
  induction 1 as [|t x ts xs [Ht _] _ IH]; constructor; [|done]. unfold is_newline. by destruct (kind t).
Qed.

Lemma path_token_intro t s : ident_or_string (kind t) = Some s -> path_token t (mkSpanned s (tok_span t)).
Proof. by split. Qed.

Lemma clean_volume_loop n : forall acc e p xs e' p',
  clean (volume_loop n acc e) p (xs, e') p' ->
  exists ts rest ys, remaining p = ts ++ rest /\ eol rest = true /\ Forall2 path_token ts ys /\ xs = acc ++ ys
    /\ e' = default e ((fun u => tok_end u) <$> last ts) /\ p' = after (length ts) p.
Proof.
  induction n as [|n IH]; intros acc e p xs e' p' H; cbn [volume_loop] in H; [by cinv|].
  apply clean_bind_inv in H as (k & p0 & [-> ->]%clean_gets & H); [|mono]. rewrite peek_remaining in H.
  assert (Hstop : eol (remaining p) = true -> clean (mret (acc, e)) p (xs, e') p' ->
    exists ts rest ys, remaining p = ts ++ rest /\ eol rest = true /\ Forall2 path_token ts ys /\ xs = acc ++ ys
    /\ e' = default e ((fun u => tok_end u) <$> last ts) /\ p' = after (length ts) p).
  { intros Hn [[= -> ->] ->]%clean_ret. exists [], (remaining p), []. split_and!; try done; [by rewrite app_nil_r|].
    by rewrite after_0. }
  destruct (remaining p) as [|t ts1] eqn:Hr; simpl in H; [by apply Hstop|].
  assert (Hgo : forall s, ident_or_string (kind t) = Some s ->
    clean (_ ← p_skip; volume_loop n (acc ++ [mkSpanned s (tok_span t)]) (tok_end t)) p (xs, e') p' ->
    exists ts rest ys, t :: ts1 = ts ++ rest /\ eol rest = true /\ Forall2 path_token ts ys /\ xs = acc ++ ys
    /\ e' = default e ((fun u => tok_end u) <$> last ts) /\ p' = after (length ts) p).
  { intros s Hs HC. apply clean_bind_inv in HC as (? & p1 & ->%clean_skip & HC); [|mono]. rewrite Hr in HC.
    apply IH in HC as (ts & rest & ys & E & Hn & HF & -> & -> & ->).
    rewrite (remaining_after_1 _ _ _ Hr) in E. subst ts1.
    exists (t :: ts), rest, (mkSpanned s (tok_span t) :: ys). split_and!; [done|done| |by rewrite <- app_assoc| |].
    - constructor; [by apply path_token_intro|done].
    - rewrite last_cons. by destruct (last ts).
    - by rewrite after_after. }
  destruct (kind t) as [|s|s| | | |] eqn:Ek; try by apply clean_fail in H.
  - by apply (Hgo s).
  - by apply (Hgo s).
  - apply Hstop; [|done]. simpl. unfold is_newline. by rewrite Ek.
Qed.

Lemma cl_volume_loop ts ys : Forall2 path_token ts ys -> forall n acc e p rest,
  p_errors p = [] -> remaining p = ts ++ rest -> eol rest = true -> length ts < n ->
  clean (volume_loop n acc e) p (acc ++ ys, default e ((fun u => tok_end u) <$> last ts)) (after (length ts) p).
Proof.
  induction 1 as [|t [s sp] ts ys [Ht Hsp] HF IH]; intros [|n] acc e p rest He Hr Hn Hlen; simpl in Hlen; try lia;
    cbn [volume_loop]; (cstep; [by apply cl_gets|]); rewrite peek_remaining, Hr; simpl.
  - rewrite app_nil_r, after_0. destruct rest as [|t rest]; simpl in *; [done|]. unfold is_newline in Hn.
    by destruct (kind t).
  - simpl in Ht, Hsp. subst sp.
    enough (clean (_ ← p_skip; volume_loop n (acc ++ [mkSpanned s (tok_span t)]) (tok_end t)) p
      (acc ++ mkSpanned s (tok_span t) :: ys, default e ((fun u => tok_end u) <$> last (t :: ts)))
      (after (S (length ts)) p)) as HC.
    { unfold ident_or_string in Ht. destruct (kind t); try done; injection Ht as ->; exact HC. }
    cstep; [by eapply cl_skip|]. specialize (IH n (acc ++ [mkSpanned s (tok_span t)]) (tok_end t) (after 1 p) rest).
    rewrite <- app_assoc, after_after in IH. rewrite last_cons.
    replace (default e ((fun u => tok_end u) <$> (match last ts with Some y => Some y | None => Some t end)))
      with (default (tok_end t) ((fun u => tok_end u) <$> last ts)) by (by destruct (last ts)).
    apply IH; [done|by eapply remaining_after_1|done|lia].
Qed.

Lemma accepts_volume st : accepts (parse_volume st) st KW_Volume.
Proof.
  intros p d p' Hs He. unfold parse_volume. split.
  - intros H. apply clean_bind_inv in H as (k & p0 & [-> ->]%clean_gets & H); [|mono].
    destruct (p_peek_kind p) as [k|] eqn:Ek; [|by cinv].
    assert (Hkn : k <> TokenKind_Newline) by (intros ->; by cinv).
    assert (H' : clean (parse_volume_rest st k) p d p') by (by destruct k). clear H.
    destruct (peek_not_eol _ _ Ek Hkn) as (t & ts1 & Hr1 & Hk & Ht).
    apply clean_bind_inv in H' as ([c e] & p1 & HX & H); [|mono].
    apply clean_bind_inv in H as (? & p3 & [Hn ->]%clean_newline & H); [|mono]. apply clean_ret in H as [-> ->].
    case_bool_decide as Hb.
    + apply (clean_array _ _ t ts1) in HX as (ts & rest & Hr & HA & ->);
        [|done|by unfold is_lbracket; rewrite Hk; apply bool_decide_eq_true_2].
      rewrite (remaining_after_app _ _ _ Hr) in Hn.
      line_out ts rest; [by eapply array_line|by apply args_volume_exec].
    + apply clean_fuel, clean_volume_loop in HX as (ts & rest & ys & Hr & Hn' & HF & -> & -> & ->).
      destruct ts as [|t0 ts].
      { rewrite Hr in Hr1. simpl in Hr1. subst rest. simpl in Hn'. congruence. }
      destruct (last_cons_Some t0 ts) as [u Hu]. rewrite Hu.
      line_out (t0 :: ts) rest; [by eapply paths_line|by apply args_volume].
  - intros (ts & rest & ds & ws & Hr & Hn & Hl & HA & ->).
    assert (HC : forall k, p_peek_kind p = Some k -> k <> TokenKind_Newline -> forall xs e,
      d = Directive_Volume {| volume_paths := xs; volume_span := mkSpan st e |} -> ws = [] -> ds = [] ->
      clean (if bool_decide (k = TokenKind_Punct Punct_LBracket) then parse_string_array "VOLUME"
             else with_fuel (fun fuel => volume_loop fuel [] st)) p (xs, e) (after (length ts) p) ->
      clean (parse_volume st) p d (consumed (length ts) ds ws p)).
    { intros k Ek Hk xs e -> -> -> HC. unfold parse_volume. cstep; [by apply cl_gets|]. rewrite Ek.
      enough (clean (parse_volume_rest st k) p (Directive_Volume {| volume_paths := xs; volume_span := mkSpan st e |})
        (consumed (length ts) [] [] p)) by (by destruct k).
      cstep; [exact HC|]. simpl.
      cstep; [apply cl_newline; [done|by rewrite (remaining_after_app _ _ _ Hr)]|]. by rewrite consumed_nil. }
    revert Hr Hl HC. args_inv HA; intros Hr Hl HC.
    + eapply HC; [by eapply array_head|done|done|done|done|].
      rewrite bool_decide_eq_true_2 by done. by eapply cl_array.
    + destruct ts as [|t ts]; [done|].
      assert (exists s, ident_or_string (kind t) = Some s) as [s Hk] by (inversion H as [|? ? ? ? [Hk _]]; eauto).
      eapply (HC (kind t)); [by rewrite peek_kind_remaining, Hr|by intros E; rewrite E in Hk|done|done|done|].
      rewrite bool_decide_eq_false_2 by (intros E; by rewrite E in Hk). apply clean_fuel.
      pose proof (cl_volume_loop (t :: ts) xs H (S (length (p_tokens p))) [] st p rest He Hr Hn) as HV.
      rewrite H0 in HV. apply HV. pose proof (fuel_remaining p) as HF. rewrite Hr, length_app in HF. lia.
Qed.

(** *** RUN *)

Definition starts_option (rest : list Token) : bool :=
  match rest with t :: _ => is_option t | [] => false end.

Lemma options_line {A} (R : Token -> A -> Prop) opts xs :
  (forall t x, R t x -> is_newline t = false) -> Forall2 R opts xs -> no_newline opts.
Proof. intros HR. induction 1; constructor; [by eapply HR|done]. Qed.

Lemma mount_option_line t m : mount_option t m -> is_newline t = false.
Proof. intros (v & Hk & _). unfold is_newline. by rewrite Hk. Qed.

Lemma clean_mounts n : forall acc p ms p',
  clean (run_mounts_loop n acc) p ms p' ->
  exists opts rest mounts, remaining p = opts ++ rest /\ Forall2 mount_option opts mounts
    /\ starts_option rest = false /\ ms = acc ++ mounts /\ p' = after (length opts) p.
Proof.
  induction n as [|n IH]; intros acc p ms p' H; cbn [run_mounts_loop] in H; [by cinv|].
  apply clean_bind_inv in H as (k & p0 & [-> ->]%clean_gets & H); [|mono].
  rewrite peek_kind_remaining in H.
  assert (Hstop : starts_option (remaining p) = false -> clean (mret acc) p ms p' ->
    exists opts rest mounts, remaining p = opts ++ rest /\ Forall2 mount_option opts mounts
    /\ starts_option rest = false /\ ms = acc ++ mounts /\ p' = after (length opts) p).
  { intros Hn [-> ->]%clean_ret. exists [], (remaining p), []. split_and!; try done; [by rewrite app_nil_r|].
    by rewrite after_0. }
  destruct (remaining p) as [|t ts1] eqn:Hr; simpl in H; [by apply Hstop|].
  destruct (is_option t) eqn:Ho; [|apply Hstop; [done|]; unfold is_option in Ho; by destruct (kind t)].
  unfold is_option in Ho. destruct (kind t) as [| | | | |name v|] eqn:Ek; try done. clear Ho Hstop.
  destruct (negb _) eqn:Hb; [by cinv|]. bools. subst name.
  apply clean_bind_inv in H as (t' & p1 & (ts2 & E1 & ->)%clean_advance & H); [|mono].
  rewrite Hr in E1. injection E1 as <- <-. rewrite Ek in H. destruct v as [v|]; [|by cinv].
  apply clean_bind_inv in H as (r & p2 & [Hm ->]%clean_lift & H); [|mono].
  destruct r as [m|]; [|by cinv]. apply IH in H as (opts & rest & mounts & E & HF & Hn & -> & ->).
  rewrite (remaining_after_1 _ _ _ Hr) in E. subst ts1.
  exists (t :: opts), rest, (m :: mounts). split_and!; [done| |done|by rewrite <- app_assoc|by rewrite after_after].
  constructor; [by exists v|done].
Qed.

Lemma cl_mounts opts mounts : Forall2 mount_option opts mounts -> forall n acc p rest,
  p_errors p = [] -> remaining p = opts ++ rest -> starts_option rest = false -> length opts < n ->
  clean (run_mounts_loop n acc) p (acc ++ mounts) (after (length opts) p).
Proof.
  induction 1 as [|t m opts mounts (v & Hk & Hm) HF IH]; intros [|n] acc p rest He Hr Hn Hlen; simpl in Hlen; try lia;
    cbn [run_mounts_loop]; (cstep; [by apply cl_gets|]); rewrite peek_kind_remaining, Hr; simpl.
  - rewrite app_nil_r, after_0. destruct rest as [|t rest]; simpl in *; [done|]. unfold is_option in Hn.
    by destruct (kind t).
  - rewrite Hk, bool_decide_eq_true_2 by done. simpl. cstep; [by eapply cl_advance|]. rewrite Hk.
    cstep; [by apply cl_lift|]. specialize (IH n (acc ++ [m]) (after 1 p) rest).
    rewrite <- app_assoc, after_after in IH. apply IH; [done|by eapply remaining_after_1|done|lia].
Qed.

Lemma clean_run st p d p' : p_source p = src ->
  clean (parse_run st) p d p' ->
  exists ts rest, remaining p = ts ++ rest /\ eol rest = true /\ no_newline ts
    /\ arguments src st KW_Run ts [d] [] /\ p' = after (length ts) p.
Proof.
  intros Hs H. unfold parse_run in H.
  apply clean_bind_inv in H as (ms & p1 & HM & H); [|mono].
  apply clean_fuel, clean_mounts in HM as (opts & rest1 & mounts & Hr & HF & Hno & -> & ->).
  pose proof (options_line _ _ _ mount_option_line HF) as Hlo.
  pose proof (remaining_after_app _ _ _ Hr) as Hr1.
  apply clean_bind_inv in H as (f & p2 & [-> ->]%clean_gets & H); [|mono].
  rewrite peek_remaining, Hr1 in H. destruct rest1 as [|t ts1]; simpl in H; [by cinv|].
  destruct (is_newline t) eqn:Ht; [by cinv|]. case_bool_decide as Hb.
  - apply clean_bind_inv in H as ([xs e] & p3 & HX & H); [|mono].
    apply (clean_array _ _ t ts1) in HX as (ts & rest & Hr2 & HA & ->);
      [|done|by unfold is_lbracket; apply bool_decide_eq_true_2].
    apply clean_bind_inv in H as (? & p4 & [Hn ->]%clean_newline & H); [|mono]. apply clean_ret in H as [-> ->].
    rewrite (remaining_after_app _ _ _ Hr2) in Hn. exists (opts ++ ts), rest. split_and!; [|done| | |].
    + rewrite Hr, <- app_assoc. f_equal. by rewrite <- Hr1.
    + apply Forall_app. split; [done|by eapply array_line].
    + by apply args_run_exec.
    + by rewrite after_after, length_app.
  - apply (clean_payload _ _ ts1 (fun raw e => _ ← expect_newline_after "RUN";
        mret (Directive_Run {| run_command := RunCommand_Shell (mkSpanned raw (mkSpan (tok_start t) e));
                               run_mounts := mounts; run_span := mkSpan st e |})))
      in H as (ts & rest & s & Hr2 & He' & Hl & HP & Hsp & H); [|done|done|done|mono].
    apply clean_bind_inv in H as (? & p4 & [Hn ->]%clean_newline & H); [|mono]. apply clean_ret in H as [-> ->].
    exists (opts ++ t :: ts), rest. split_and!; [|done|by apply Forall_app| |by rewrite after_after, length_app].
    + rewrite Hr, <- app_assoc. f_equal. by rewrite <- Hr1.
    + rewrite <- Hsp. destruct s. apply args_run_shell; [done|done| |done].
      unfold is_lbracket. by apply bool_decide_eq_false_2.
Qed.

Lemma cl_run st p t ts1 opts mounts rest1 d q :
  p_errors p = [] -> remaining p = opts ++ rest1 -> Forall2 mount_option opts mounts ->
  starts_option rest1 = false -> rest1 = t :: ts1 -> is_newline t = false ->
  clean (if bool_decide (kind t = TokenKind_Punct Punct_LBracket) then
           '(argv, end0) ← parse_string_array "RUN";
           _ ← expect_newline_after "RUN";
           mret (Directive_Run {| run_command := RunCommand_Exec argv; run_mounts := mounts;
                                  run_span := mkSpan st end0 |})
         else
           cmd_end ← slurp_line (tok_start t);
           raw ← source_slice (tok_start t) cmd_end;
           _ ← expect_newline_after "RUN";
           mret (Directive_Run
                   {| run_command := RunCommand_Shell (mkSpanned raw (mkSpan (tok_start t) cmd_end));
                      run_mounts := mounts; run_span := mkSpan st cmd_end |})) (after (length opts) p) d q ->
  clean (parse_run st) p d q.
Proof.
  intros He Hr HF Hno -> Ht HC. unfold parse_run. cstep.
  { apply clean_fuel. apply (cl_mounts opts mounts HF _ [] _ (t :: ts1)); [done|done|done|].
    pose proof (fuel_remaining p) as HL. rewrite Hr, length_app in HL. simpl in HL. lia. }
  cstep; [by apply cl_gets|]. rewrite peek_remaining, (remaining_after_app _ _ _ Hr). simpl.
  by rewrite Ht.
Qed.

Lemma accepts_run st : accepts (parse_run st) st KW_Run.
Proof.
  intros p d p' Hs He. split.
  - intros (ts & rest & Hr & Hn & Hl & HA & ->)%clean_run; [|done]. line_out ts rest.
  - intros (ts & rest & ds & ws & Hr & Hn & Hl & HA & ->). revert Hr Hl. args_inv HA; intros Hr Hl;
      rewrite <- app_assoc in Hr; pose proof (remaining_after_app _ _ _ Hr) as Hr1; rewrite consumed_nil, length_app,
      <- (after_after _ (length opts)).
    + destruct H0 as (t & body & -> & Ht & HE). unfold is_lbracket in Ht. bools.
      eapply cl_run; [done|exact Hr|done| |done| |].
      { simpl. unfold is_option. by rewrite Ht. } { unfold is_newline. by rewrite Ht. }
      rewrite bool_decide_eq_true_2 by done.
      cstep. { apply (cl_array _ _ (t :: body) xs e rest); [done|done|]. exists t, body. unfold is_lbracket. by rewrite Ht. }
      cbv beta iota. cstep; [apply cl_newline; [done|by rewrite (remaining_after_app _ _ _ Hr1)]|]. done.
    + assert (Hl' : no_newline (t :: ts0)) by (by apply Forall_app in Hl as [_ ?]).
      eapply cl_run; [done|exact Hr|done|done|done|by inversion Hl'|].
      rewrite bool_decide_eq_false_2 by (by apply lbracket_false).
      apply (cl_payload _ t ts0 rest s (fun raw e => _ ← expect_newline_after "RUN";
        mret (Directive_Run {| run_command := RunCommand_Shell (mkSpanned raw (mkSpan (tok_start t) e));
                               run_mounts := mounts; run_span := mkSpan st e |}))); try done; [mono|].
      intros Hsp. cstep; [apply cl_newline; [done|by rewrite (remaining_after_app _ _ _ Hr1)]|].
      rewrite <- Hsp. by destruct s.
Qed.

(** *** ADD and COPY *)

Definition from_after (f : option (Spanned StageName)) (ns : list (Spanned StageName)) : option (Spanned StageName) :=
  match last ns with Some n => Some n | None => f end.

Lemma from_after_cons f n ns : from_after f (n :: ns) = from_after (Some n) ns.
Proof. unfold from_after. rewrite last_cons. by destruct (last ns). Qed.

Lemma from_after_None ns : from_after None ns = last ns.
Proof. unfold from_after. by destruct (last ns). Qed.

Lemma from_option_line t n : from_option t n -> is_newline t = false.
Proof. intros (v & Hk & _). unfold is_newline. by rewrite Hk. Qed.

Lemma clean_add_options n verb : forall f p f' p',
  clean (add_options_loop n verb f) p f' p' ->
  exists opts rest froms, remaining p = opts ++ rest /\ Forall2 from_option opts froms
    /\ starts_option rest = false /\ f' = from_after f froms /\ p' = after (length opts) p.
Proof.
  induction n as [|n IH]; intros f p f' p' H; cbn [add_options_loop] in H; [by cinv|].
  apply clean_bind_inv in H as (k & p0 & [-> ->]%clean_gets & H); [|mono].
  rewrite peek_kind_remaining in H.
  assert (Hstop : starts_option (remaining p) = false -> clean (mret f) p f' p' ->
    exists opts rest froms, remaining p = opts ++ rest /\ Forall2 from_option opts froms
    /\ starts_option rest = false /\ f' = from_after f froms /\ p' = after (length opts) p).
  { intros Hn [-> ->]%clean_ret. exists [], (remaining p), []. split_and!; try done. by rewrite after_0. }
  destruct (remaining p) as [|t ts1] eqn:Hr; simpl in H; [by apply Hstop|].
  destruct (is_option t) eqn:Ho; [|apply Hstop; [done|]; unfold is_option in Ho; by destruct (kind t)].
  unfold is_option in Ho. destruct (kind t) as [| | | | |name v|] eqn:Ek; try done. clear Ho Hstop.
  apply clean_bind_inv in H as (t' & p1 & (ts2 & E1 & ->)%clean_advance & H); [|mono].
  rewrite Hr in E1. injection E1 as <- <-. rewrite Ek in H.
  destruct (negb _) eqn:Hb; [by cinv|]. bools. subst name. destruct v as [v|]; [|by cinv].
  apply clean_bind_inv in H as (? & p2 & (m & Hm & -> & ->)%clean_validated & H); [|mono].
  apply IH in H as (opts & rest & froms & E & HF & Hn & -> & ->).
  rewrite (remaining_after_1 _ _ _ Hr) in E. subst ts1.
  exists (t :: opts), rest, (mkSpanned m (tok_span t) :: froms).
  split_and!; [done| |done|by rewrite from_after_cons|by rewrite after_after].
  constructor; [by exists v|done].
Qed.

Lemma cl_add_options verb opts froms : Forall2 from_option opts froms -> forall n f p rest,
  p_errors p = [] -> remaining p = opts ++ rest -> starts_option rest = false -> length opts < n ->
  clean (add_options_loop n verb f) p (from_after f froms) (after (length opts) p).
Proof.
  induction 1 as [|t [m sp] opts froms (v & Hk & Hm & Hsp) HF IH]; intros [|n] f p rest He Hr Hn Hlen;
    simpl in Hlen; try lia;
    cbn [add_options_loop]; (cstep; [by apply cl_gets|]); rewrite peek_kind_remaining, Hr; simpl.
  - rewrite after_0. destruct rest as [|t rest]; simpl in *; [done|]. unfold is_option in Hn.
    by destruct (kind t).
  - simpl in Hsp, Hm. subst sp. rewrite Hk. cstep; [by eapply cl_advance|].
    rewrite Hk, bool_decide_eq_true_2 by done. simpl.
    cstep; [by apply cl_validated|]. rewrite from_after_cons.
    specialize (IH n (Some (mkSpanned m (tok_span t))) (after 1 p) rest).
    rewrite after_after in IH. apply IH; [done|by eapply remaining_after_1|done|lia].
Qed.

Lemma clean_classify s sp verb p a p' :
  clean (classify_source s sp verb) p a p' -> source_of s sp a /\ p' = p.
Proof.
  unfold classify_source. change (match strip_prefix "oci://" s with
    | Some rest => Some rest | None => strip_prefix "https+oci://" s end) with (oci_scheme s).
  change (starts_with "http://" s || starts_with "https://" s) with (http_scheme s).
  destruct (oci_scheme s) as [r|] eqn:Eo.
  - intros H. apply clean_bind_inv in H as (? & p1 & (x & Hx & -> & ->)%clean_validated & H); [|mono].
    apply clean_ret in H as [-> ->]. split; [by eapply source_oci_scheme|done].
  - destruct (http_scheme s) eqn:Eh.
    { intros H. apply clean_bind_inv in H as (? & p1 & (x & Hx & -> & ->)%clean_validated & H); [|mono].
      apply clean_ret in H as [-> ->]. split; [by eapply source_url|done]. }
    destruct (is_local_path s) eqn:El.
    { intros [-> ->]%clean_ret. split; [apply source_path; auto|done]. }
    destruct (looks_like_oci_ref s) eqn:Er.
    + intros H. apply clean_bind_inv in H as (? & p1 & (x & Hx & -> & ->)%clean_validated & H); [|mono].
      apply clean_ret in H as [-> ->]. split; [by eapply source_reference|done].
    + intros [-> ->]%clean_ret. split; [apply source_path; auto|done].
Qed.

Lemma cl_classify s sp verb p a :
  p_errors p = [] -> source_of s sp a -> clean (classify_source s sp verb) p a p.
Proof.
  intros He H. unfold classify_source. change (match strip_prefix "oci://" s with
    | Some rest => Some rest | None => strip_prefix "https+oci://" s end) with (oci_scheme s).
  change (starts_with "http://" s || starts_with "https://" s) with (http_scheme s).
  destruct H as [r x -> Hx|x -> -> Hx|x -> -> -> -> Hx| -> -> Hx].
  - cstep; [by apply cl_validated|]. done.
  - cstep; [by apply cl_validated|]. done.
  - cstep; [by apply cl_validated|]. done.
  - destruct Hx as [->| ->]; [done|]. by destruct (is_local_path s).
Qed.

Lemma ident_or_string_line t s : ident_or_string (kind t) = Some s -> is_newline t = false.
Proof. unfold is_newline. by destruct (kind t). Qed.

Lemma accepts_add st kw copy : copies kw = Some copy -> accepts (parse_add st copy) st kw.
Proof.
  intros Hkw p d p' Hs He. unfold parse_add. cbv zeta. set (verb := if copy then _ else _). split.
  - intros H. apply clean_bind_inv in H as (f & p1 & HO & H); [|mono].
    apply clean_fuel, clean_add_options in HO as (opts & rest1 & froms & Hr & HF & Hno & -> & ->).
    pose proof (remaining_after_app _ _ _ Hr) as Hr1.
    apply clean_bind_inv in H as (t & p2 & (ts2 & E2 & N2 & ->)%clean_advance_or_err & H); [|mono].
    rewrite Hr1 in E2. subst rest1. destruct (ident_or_string (kind t)) as [s|] eqn:Et; [|by cinv].
    apply clean_bind_inv in H as (source & p3 & [HS ->]%clean_classify & H); [|mono].
    apply clean_bind_inv in H as (u & p4 & (ts3 & E3 & N3 & ->)%clean_advance_or_err & H); [|mono].
    rewrite (remaining_after_1 _ _ _ Hr1) in E3. subst ts2.
    destruct (ident_or_string (kind u)) as [x|] eqn:Eu; [|by cinv].
    apply clean_bind_inv in H as (? & p5 & (dest & Hd & -> & ->)%clean_validated & H); [|mono]. cbv zeta in H.
    apply clean_bind_inv in H as (? & p6 & [Hn ->]%clean_newline & H); [|mono]. apply clean_ret in H as [-> ->].
    rewrite !after_after, remaining_after, Hr, drop_app_ge in Hn by lia.
    rewrite (Nat.add_comm (length opts)), Nat.add_sub in Hn. simpl in Hn. rewrite drop_0 in Hn.
    exists (opts ++ [t; u]), ts3, [], []. split_and!; [by rewrite <- app_assoc|done| | |].
    + apply Forall_app. split; [by eapply options_line, HF; apply from_option_line|by repeat constructor].
    + rewrite from_after_None. by eapply args_add.
    + by rewrite consumed_nil, !after_after, length_app.
  - intros (ts & rest & ds & ws & Hr & Hn & Hl & HA & ->).
    assert (HX : exists opts froms t u s source x dest, ts = opts ++ [t; u] /\ ws = [] /\ ds = []
      /\ Forall2 from_option opts froms /\ ident_or_string (kind t) = Some s /\ source_of s (tok_span t) source
      /\ ident_or_string (kind u) = Some x /\ RecipePath_new x = Ok dest
      /\ d = Directive_Add {| add_source := source; add_destination := mkSpanned dest (tok_span u);
                              add_from := last froms; add_plain_copy := copy; add_span := mkSpan st (tok_end u) |}).
    { revert Hkw. inversion_clear HA as [ | | | | | | | | |? ? ? ? ? ? ? ? ? ? Hc HF Ht HS Hu Hd| | | | | | | | | ]; intros Hkw; try done.
      rewrite Hkw in Hc. injection Hc as <-. do 8 eexists. split_and!; done. }
    clear HA. destruct HX as (opts & froms & t & u & s & source & x & dest & -> & -> & -> & HF & Ht & HS & Hu & Hd & ->).
    rewrite <- app_assoc in Hr. pose proof (remaining_after_app _ _ _ Hr) as Hr1. simpl in Hr1.
    cstep. { apply clean_fuel. apply (cl_add_options verb opts froms HF _ None p (t :: u :: rest)); try done.
      - simpl. unfold is_option. by destruct (kind t).
      - pose proof (fuel_remaining p) as HL. rewrite Hr, length_app in HL. lia. }
    cstep; [eapply cl_next; [done|exact Hr1|by eapply ident_or_string_line]|]. rewrite Ht.
    cstep; [by apply cl_classify|].
    cstep; [eapply cl_next; [done|by eapply remaining_after_1|by eapply ident_or_string_line]|]. rewrite Hu.
    cstep; [by apply cl_validated|]. cbv zeta.
    cstep; [apply cl_newline; [done|by erewrite remaining_after_1; [|by eapply remaining_after_1]]|].
    rewrite consumed_nil, !after_after, length_app. simpl. rewrite from_after_None.
    by replace (length opts + 1 + 1) with (length opts + 2) by lia.
Qed.

(** *** EXPOSE *)

Lemma starts_protocol_spec p : starts_protocol (remaining p) =
  match p_peek_kind p with Some (TokenKind_Ident s) => starts_with "/" s | _ => false end.
Proof. rewrite peek_kind_remaining. by destruct (remaining p). Qed.

Lemma clean_port p e p' :
  clean parse_expose_entry p e p' ->
  exists ts rest, remaining p = ts ++ rest /\ port ts e rest /\ p' = after (length ts) p.
Proof.
  intros H. unfold parse_expose_entry in H.
  apply clean_bind_inv in H as (t & p1 & (ts1 & Hr & N1 & ->)%clean_advance_or_err & H); [|mono].
  apply clean_bind_inv in H as (n & p2 & HN & H); [|mono].
  assert (Hn : kind t = TokenKind_Number n /\ (n <= u16_max)%N /\ p2 = after 1 p).
  { destruct (kind t) as [| | |n'| | |]; try by cinv. destruct (N.leb_spec n' u16_max); [|by cinv].
    by apply clean_ret in HN as [-> ->]. }
  destruct Hn as (Hk & Hle & ->). clear HN.
  apply clean_bind_inv in H as (k & p0 & [-> ->]%clean_gets & H); [|mono]. cbv zeta in H.
  rewrite <- starts_protocol_spec, (remaining_after_1 _ _ _ Hr) in H.
  destruct (starts_protocol ts1) eqn:Ep; cbn [negb] in H.
  - apply clean_bind_inv in H as (u & p2 & (ts2 & E2 & N2 & ->)%clean_advance_or_err & H); [|mono].
    rewrite (remaining_after_1 _ _ _ Hr) in E2. subst ts1. simpl in Ep.
    destruct (kind u) as [|s| | | | |] eqn:Eu; try done. apply starts_with_spec in Ep as [s' ->].
    change ("/" ++ s') with ("/"%char :: s') in H. cbn [strip_prefix default] in H.
    change (strip_prefix "/" ("/"%char :: s')) with (Some s') in H. simpl in H.
    destruct (protocol_of s') as [proto|] eqn:Eproto; [|by cinv]. apply clean_ret in H as [-> ->].
    exists [t; u], ts2. split_and!; [done|by eapply port_protocol|by rewrite after_after].
  - apply clean_ret in H as [-> ->]. exists [t], ts1. split_and!; [done|by apply port_default|done].
Qed.

Lemma cl_port p ts e rest :
  p_errors p = [] -> remaining p = ts ++ rest -> port ts e rest ->
  clean parse_expose_entry p e (after (length ts) p).
Proof.
  intros He Hr HP. unfold parse_expose_entry.
  destruct HP as [t n rest Hk Hn Hsp|t u n s proto rest Hk Hn Hu Hproto]; simpl in Hr;
    (cstep; [eapply cl_next; [done|exact Hr|unfold is_newline; by rewrite Hk]|]);
    (cstep; [rewrite Hk, (proj2 (N.leb_le _ _) Hn); by apply cl_ret|]);
    (cstep; [by apply cl_gets|]); cbv zeta;
    rewrite <- starts_protocol_spec, (remaining_after_1 _ _ _ Hr).
  - by rewrite Hsp.
  - simpl. rewrite Hu. simpl.
    cstep; [eapply cl_next; [done|by eapply remaining_after_1|unfold is_newline; by rewrite Hu]|].
    rewrite Hu. simpl. rewrite Hproto, after_after. done.
Qed.

Definition exposes_after (st : nat) (built : list Directive) (es : list (N * ExposeProtocol * Span)) : list Directive :=
  match built with [] => exposes st es | _ => built ++ ((fun e => expose e e.2) <$> es) end.

Lemma starts_number_spec p : starts_number (remaining p) =
  match p_peek_kind p with Some (TokenKind_Number _) => true | _ => false end.
Proof. rewrite peek_kind_remaining. by destruct (remaining p). Qed.

(** One entry appended to the directives built so far. *)
Lemma exposes_step st built e es :
  exposes_after st (built ++ [expose e (match built with [] => mkSpan st (end_ e.2) | _ => e.2 end)]) es
  = exposes_after st built (e :: es).
Proof. destruct built as [|d built]; [done|]. simpl. by rewrite <- app_assoc. Qed.

Lemma clean_expose_loop n st : forall built p ds p',
  clean (expose_loop n st built) p ds p' ->
  exists ts rest es, remaining p = ts ++ rest /\ ports ts es rest /\ ds = exposes_after st built es
    /\ p' = after (length ts) p.
Proof.
  induction n as [|n IH]; intros built p ds p' H; cbn [expose_loop] in H; [by cinv|].
  apply clean_bind_inv in H as ([[port proto] sp] & p1 & (ts & rest & Hr & HP & ->)%clean_port & H); [|mono].
  cbv zeta in H. apply clean_bind_inv in H as (k & p0 & [-> ->]%clean_gets & H); [|mono].
  pose proof (starts_number_spec (after (length ts) p)) as HS. rewrite (remaining_after_app _ _ _ Hr) in HS.
  pose proof (exposes_step st built (port, proto, sp)) as Hstep. unfold expose at 1 in Hstep. simpl in Hstep.
  destruct (starts_number rest) eqn:Es.
  - destruct (p_peek_kind _) as [[]|]; try done.
    apply IH in H as (ts' & rest' & es & Hr' & HP' & -> & ->).
    rewrite (remaining_after_app _ _ _ Hr) in Hr'. subst rest.
    exists (ts ++ ts'), rest', ((port, proto, sp) :: es).
    split_and!; [by rewrite <- app_assoc|by apply ports_more|apply Hstep|by rewrite after_after, length_app].
  - exists ts, rest, [(port, proto, sp)]. rewrite <- Hstep.
    destruct (p_peek_kind _) as [[]|]; try done; apply clean_ret in H as [-> ->];
      (split_and!; [done|by apply ports_one| |done]); by destruct built; simpl; rewrite ?app_nil_r.
Qed.

Lemma cl_expose_loop st ts es rest : ports ts es rest -> forall n built p,
  p_errors p = [] -> remaining p = ts ++ rest -> length ts < n ->
  clean (expose_loop n st built) p (exposes_after st built es) (after (length ts) p).
Proof.
  induction 1 as [ts [[port proto] sp] rest HP Hn|ts [[port proto] sp] more es rest HP Hn HPs IH];
    intros [|n] built p He Hr Hlen; try lia; cbn [expose_loop]; rewrite <- exposes_step.
  - cstep; [by eapply cl_port|]. cbv beta iota zeta. cstep; [by apply cl_gets|].
    pose proof (starts_number_spec (after (length ts) p)) as HS. rewrite (remaining_after_app _ _ _ Hr), Hn in HS.
    replace (exposes_after st _ []) with (built ++ [expose (port, proto, sp)
      (match built with [] => mkSpan st (end_ sp) | _ => sp end)]) by (by destruct built; simpl; rewrite ?app_nil_r).
    by destruct (p_peek_kind _) as [[]|].
  - rewrite <- app_assoc in Hr. cstep; [by eapply cl_port|]. cbv beta iota zeta. cstep; [by apply cl_gets|].
    pose proof (starts_number_spec (after (length ts) p)) as HS. rewrite (remaining_after_app _ _ _ Hr), Hn in HS.
    destruct (p_peek_kind _) as [[]|]; try done. rewrite length_app, <- after_after.
    apply IH; [done|by apply remaining_after_app|]. rewrite length_app in Hlen.
    destruct HP; simpl in *; lia.
Qed.

Lemma port_line ts e rest : port ts e rest -> no_newline ts.
Proof. intros [t n ? Hk|t u n s pr ? Hk _ Hu _]; repeat constructor; unfold is_newline; by rewrite ?Hk, ?Hu. Qed.

Lemma ports_line ts es rest : ports ts es rest -> no_newline ts.
Proof.
  induction 1 as [ts e rest HP _|ts e more es rest HP _ _ IH]; [by eapply port_line|].
  apply Forall_app. split; [by eapply port_line|done].
Qed.

Lemma port_ext ts e rest rest' : starts_protocol rest = starts_protocol rest' -> port ts e rest -> port ts e rest'.
Proof.
  intros E HP. revert E. destruct HP as [t n rest Hk Hn Hs|t u n s pr rest Hk Hn Hu Hp]; intros E.
  - apply port_default; [done|done|congruence].
  - by eapply port_protocol.
Qed.

Lemma ports_nonempty ts es rest : ports ts es rest -> ts <> [].
Proof. intros [ts' e ? HP _|ts' e more es' ? HP _ _]; by destruct HP. Qed.

Lemma ports_eol ts es rest rest' : ports ts es rest -> eol rest = true -> eol rest' = true -> ports ts es rest'.
Proof.
  induction 1 as [ts e rest HP Hn|ts e more es rest HP Hn HPs IH]; intros Hr Hr'.
  - apply ports_one; [|by apply eol_starts]. eapply port_ext; [|exact HP].
    destruct (eol_starts _ Hr) as (_ & _ & ->). by destruct (eol_starts _ Hr') as (_ & _ & ->).
  - destruct more as [|t more]; [by apply ports_nonempty in HPs|]. apply ports_more; [|done|auto].
    by eapply port_ext; [|exact HP].
Qed.

Lemma accepts_expose st : accepts (parse_expose st) st KW_Expose.
Proof.
  intros p d p' Hs He. unfold parse_expose. split.
  - intros H. apply clean_bind_inv in H as (built & p1 & HL & H); [|mono].
    apply clean_fuel, clean_expose_loop in HL as (ts & rest & es & Hr & HP & -> & ->).
    apply clean_bind_inv in H as (? & p2 & [Hn ->]%clean_newline & H); [|mono].
    rewrite (remaining_after_app _ _ _ Hr) in Hn.
    apply clean_take_first in H as (ds & E & _ & ->). exists ts, rest, ds, []. split_and!; try done.
    + by eapply ports_line.
    + rewrite <- E. apply args_expose. by eapply ports_eol.
    + unfold consumed. by rewrite app_nil_r.
  - intros (ts & rest & ds & ws & Hr & Hn & Hl & HA & ->).
    assert (exists es, ports ts es [] /\ d :: ds = exposes st es /\ ws = []) as (es & HP & E & ->).
    { inversion HA; subst; try (by match goal with E : copies _ = Some _ |- _ => inversion E end). eauto. }
    cstep. { apply clean_fuel. apply (cl_expose_loop st ts es rest); try done; [by eapply ports_eol|].
      pose proof (fuel_remaining p) as HF. rewrite Hr, length_app in HF. lia. }
    cstep; [apply cl_newline; [done|by rewrite (remaining_after_app _ _ _ Hr)]|].
    apply clean_take_first. exists ds. split_and!; [done|done|].
    unfold consumed. by rewrite app_nil_r.
Qed.

(** ** Dispatch *)

Lemma accepts_dispatch t kw : accepts (dispatch t kw) (tok_start t) kw.
Proof.
  assert (Hfail : forall (m : P Directive), (forall p d p', ~ clean m p d p') ->
    (forall ts ds ws, ~ arguments src (tok_start t) kw ts ds ws) -> accepts m (tok_start t) kw).
  { intros m Hm HA p d p' _ _. split; [by intros ?%Hm|]. by intros (? & ? & ? & ? & _ & _ & _ & ?%HA & _). }
  unfold dispatch, removed_directive. cbv zeta.
  destruct kw;
    try (apply Hfail; [by intros p d p' ?%clean_fail|intros ts ds ws HA; by args_inv HA]).
  - apply accepts_label.
  - apply accepts_env.
  - apply accepts_arg.
  - apply accepts_shell.
  - apply accepts_user.
  - apply accepts_workdir.
  - apply accepts_run.
  - by apply accepts_add.
  - apply accepts_entrypoint.
  - apply accepts_expose.
  - apply accepts_cmd.
  - apply accepts_volume.
  - apply accepts_stopsignal.
  - by apply accepts_add.
Qed.
End refine.
