(* ===== verification/RecipeRefines.v ===== *)
(** * RecipeRefines: from lines to whole recipes.

    The loops over lines and stages recognise the recipes of RecipeGrammar.
    That a failed line has reported an error comes from the total-correctness
    calculus of GrammarFacts. *)

From S2P Require Import Prelude RustStr RustStrFacts Subst Validation Identifiers Paths OciRef.
From S2P Require Import Ast Diagnostics Lexer Grammar GrammarFacts RecipeGrammar GrammarRefines.

Lemma clean_try {A} (m : P A) p r p' :
  clean (try m) p r p' <->
  (exists a, r = Some a /\ clean m p a p') \/ (r = None /\ m p = Val (None, p') /\ p_errors p' = []).
Proof.
  unfold clean, try. split.
  - intros [E He]. destruct (m p) as [[[a|] q]| |]; try done; injection E as <- <-; eauto 6.
  - intros [(a & -> & E & He)|(-> & E & He)]; by rewrite E.
Qed.

Lemma consumed_consumed n1 ds1 ws1 n2 ds2 ws2 p :
  consumed n2 ds2 ws2 (consumed n1 ds1 ws1 p) = consumed (n1 + n2) (ds1 ++ ds2) (ws1 ++ ws2) p.
Proof. unfold consumed. simpl. by rewrite Nat.add_assoc, <- !app_assoc. Qed.

Lemma remaining_consumed n ds ws p : remaining (consumed n ds ws p) = drop n (remaining p).
Proof. unfold remaining, consumed. simpl. by rewrite drop_drop. Qed.

Lemma remaining_consumed_app p ts rest ds ws :
  remaining p = ts ++ rest -> remaining (consumed (length ts) ds ws p) = rest.
Proof. intros H. by rewrite remaining_consumed, H, drop_app_length. Qed.

Lemma bind_val {A B} (m : P A) (k : A -> P B) p a q : m p = Val (Some a, q) -> (m ≫= k) p = k a q.
Proof. intros E. unfold mbind, P_bind. by rewrite E. Qed.

(** Leading newlines make no difference to a loop that starts by skipping them. *)
Lemma skip_newlines_after p t ts {A} (k : unit -> P A) :
  remaining p = t :: ts -> is_newline t = true ->
  (skip_newlines ≫= k) p = (skip_newlines ≫= k) (after 1 p).
Proof.
  intros Hr Ht. unfold mbind, P_bind, skip_newlines, modify. rewrite (remaining_after_1 _ _ _ Hr), Hr.
  simpl. rewrite Ht. by rewrite <- Nat.add_assoc.
Qed.

Lemma newlines_split l : exists nls rest, l = nls ++ rest /\ Forall (fun t => is_newline t = true) nls
  /\ match rest with t :: _ => is_newline t = false | [] => True end.
Proof.
  induction l as [|t l (nls & rest & -> & Hn & Hr)].
  - by exists [], [].
  - destruct (is_newline t) eqn:E; [|by exists [], (t :: nls ++ rest)].
    exists (t :: nls), rest. split_and!; [done|by constructor|done].
Qed.

Lemma skip_newlines_eq p nls rest :
  remaining p = nls ++ rest -> Forall (fun t => is_newline t = true) nls ->
  match rest with t :: _ => is_newline t = false | [] => True end ->
  skip_newlines p = Val (Some tt, after (length nls) p).
Proof.
  intros Hr Hn Hs. unfold skip_newlines, modify.
  assert (count_while is_newline (remaining p) = length nls) as ->; [|done].
  rewrite Hr, count_while_app by done. destruct rest as [|t rest]; simpl; [lia|]. rewrite Hs. lia.
Qed.

(** The end of the last token consumed. *)
Lemma last_consumed_eq p0 p ts rest u :
  remaining p0 = ts ++ rest -> last ts = Some u -> p_tokens p = p_tokens p0 -> p_pos p = p_pos p0 + length ts ->
  last_consumed_end p = Val (Some (tok_end u), p).
Proof.
  intros Hr Hl Ht Hp. rewrite last_lookup in Hl. pose proof (lookup_lt_Some _ _ _ Hl) as Hlt.
  unfold last_consumed_end. rewrite bool_decide_eq_false_2 by lia. rewrite Ht, Hp.
  replace (p_pos p0 + length ts - 1) with (p_pos p0 + pred (length ts)) by lia.
  rewrite <- lookup_drop. fold (remaining p0). by rewrite Hr, lookup_app_l, Hl by lia.
Qed.

(** ** The FROM line *)

Lemma clean_from_source t s p a p' :
  kind t = TokenKind_Ident s -> p_errors p = [] ->
  (clean (parse_from_source s (tok_span t)) p a p' <-> from_of t a /\ p' = p).
Proof.
  intros Hk He. unfold parse_from_source. split.
  - intros HC. case_decide as Hd; cinv; (split; [|done]).
    + apply from_scratch. by rewrite Hk, Hd.
    + by apply (from_reference t s).
  - intros [HF ->]. inversion HF as [Hk'|s' r Hk' Hne Hr]; subst; rewrite Hk in Hk'; injection Hk' as ->.
    + by rewrite decide_True by done.
    + rewrite decide_False by done. cstep; [by apply cl_validated|]. by apply cl_ret.
Qed.

Lemma peek_keyword p kw :
  p_peek_kind p = Some (TokenKind_Keyword kw) -> exists t ts, remaining p = t :: ts /\ kind t = TokenKind_Keyword kw.
Proof. rewrite peek_kind_remaining. destruct (remaining p) as [|t ts]; [done|]. intros [= E]. eauto. Qed.

Lemma clean_match_keyword kw p b p' :
  clean (match_keyword kw) p b p' ->
  if b then exists t ts, remaining p = t :: ts /\ kind t = TokenKind_Keyword kw /\ p' = after 1 p else p' = p.
Proof.
  unfold match_keyword. intros HC. apply clean_bind_inv in HC as (k & q & [-> ->]%clean_gets & HC); [|mono].
  case_bool_decide as Hk; [|by apply clean_ret in HC as [-> ->]].
  destruct (peek_keyword _ _ Hk) as (t & ts & Hr & Ht).
  apply clean_bind_inv in HC as (x & q & ->%clean_skip & HC); [|mono].
  apply clean_ret in HC as [-> ->]. rewrite Hr. eauto 6.
Qed.

Lemma clean_stage_name e p name e' p' :
  clean (parse_stage_name e) p (name, e') p' ->
  exists al rest, remaining p = al ++ rest /\ stage_alias e al name e' /\ p' = after (length al) p.
Proof.
  unfold parse_stage_name. intros HC. apply clean_bind_inv in HC as (b & q & HK%clean_match_keyword & HC); [|mono].
  destruct b.
  - destruct HK as (a & ts & Hr & Ha & ->).
    apply clean_bind_inv in HC as (t & q & (ts' & Hr' & _ & ->)%clean_advance_or_err & HC); [|mono].
    rewrite (remaining_after_1 _ _ _ Hr) in Hr'. subst ts. destruct (kind t) eqn:Ht; cinv.
    exists [a; t], ts'. split_and!; [done|by eapply alias_some|by rewrite after_after].
  - cinv. exists [], (remaining p). split_and!; [done|constructor|by rewrite after_0].
Qed.

Lemma cl_stage_name e p al rest name e' :
  p_errors p = [] -> remaining p = al ++ rest -> eol rest = true -> stage_alias e al name e' ->
  clean (parse_stage_name e) p (name, e') (after (length al) p).
Proof.
  intros He Hr Hn HA. unfold parse_stage_name, match_keyword. destruct HA as [|a t s n Ha Ht Hs].
  - cstep; [cstep; [by apply cl_gets|]|].
    + rewrite peek_kind_remaining, Hr. rewrite bool_decide_eq_false_2; [by apply cl_ret|].
      simpl. destruct rest as [|x rest]; [done|]. simpl in *. unfold is_newline in Hn. by destruct (kind x).
    + simpl. rewrite after_0. by apply cl_ret.
  - simpl in Hr. cstep; [cstep; [by apply cl_gets|]|].
    + rewrite peek_kind_remaining, Hr. rewrite bool_decide_eq_true_2 by (simpl; by rewrite Ha).
      cstep; [by eapply cl_skip|]. by apply cl_ret.
    + simpl. cstep; [eapply cl_next; [done|by eapply remaining_after_1|unfold is_newline; by rewrite Ht]|].
      rewrite Ht. cstep; [by apply cl_validated|]. rewrite after_after. by apply cl_ret.
Qed.

Section recipes.
Context (src : str).

Lemma line_head l ds ws : line src l ds ws ->
  exists t l', l = t :: l' /\ is_newline t = false /\ is_from t = false /\ no_newline l'.
Proof.
  intros [t kw ts ds' ws' Hk Hn HA|t name hint ts Hk Hu Hn]; exists t, ts; (split_and!; [done|..]); try done;
    unfold is_newline, is_from; rewrite Hk; try done.
  destruct kw; try done. exfalso. by args_inv HA.
Qed.

Lemma body_suffix ts ds ws rest : body src ts ds ws rest -> exists pre, ts = pre ++ rest.
Proof.
  induction 1 as [ts _|t ts ds ws rest _ _ [pre ->]|l ts ds ws ds' ws' rest _ _ _ [pre ->]].
  - by exists [].
  - by exists (t :: pre).
  - exists (l ++ pre). by rewrite app_assoc.
Qed.

Lemma body_blanks nls ts ds ws rest :
  Forall (fun t => is_newline t = true) nls -> body src ts ds ws rest -> body src (nls ++ ts) ds ws rest.
Proof. induction 1; simpl; [done|]. intros H'. apply body_blank; auto. Qed.

Lemma body_stage_end ts ds ws rest : body src ts ds ws rest -> stage_end rest = true.
Proof. by induction 1. Qed.

(** ** Completeness *)

(** A recognised line. *)
Lemma cl_directive p t kw ts rest d ds ws :
  p_source p = src -> p_errors p = [] -> remaining p = (t :: ts) ++ rest -> eol rest = true -> no_newline ts ->
  kind t = TokenKind_Keyword kw -> arguments src (tok_start t) kw ts (d :: ds) ws ->
  clean parse_directive p d (consumed (length (t :: ts)) ds ws p).
Proof.
  intros Hs He Hr Hn Hl Hk HA. simpl in Hr. unfold parse_directive. cstep; [by apply cl_gets|].
  rewrite peek_remaining, Hr. cbn [head]. rewrite Hk. cstep; [by eapply cl_skip|].
  apply (accepts_dispatch src); [done|done|]. exists ts, rest, ds, ws.
  split_and!; [by eapply remaining_after_1|done|done|done|].
  rewrite <- (consumed_nil 1 p), consumed_consumed. done.
Qed.

Lemma arguments_nonempty st kw ts ds ws : arguments src st kw ts ds ws -> ds <> [].
Proof.
  intros [? ? ? HP HL|? ? ? HP HL| | | | | | | | | | | |? es HP| | | | | ]; try done.
  - intros ->. inversion HL; subst. by inversion HP.
  - intros ->. inversion HL; subst. by inversion HP.
  - by inversion HP.
Qed.

Lemma unsupported_eq p t name hint ts :
  remaining p = t :: ts -> kind t = TokenKind_Ident name -> unsupported_dockerfile_directive name = Some hint ->
  parse_directive p = Val (None, consumed 0 [] [unsupported_warning t name hint] p).
Proof.
  intros Hr Hk Hu. unfold parse_directive, mbind, P_bind, gets. rewrite peek_remaining, Hr. cbn [head]. rewrite Hk, Hu.
  simpl. unfold consumed. rewrite Nat.add_0_r, app_nil_r. by destruct p.
Qed.

Lemma recover_to_eol_eq p ts rest :
  remaining p = ts ++ rest -> no_newline ts -> eol rest = true ->
  recover_to_eol p = Val (Some tt, match rest with [] => after (length ts) p | _ => after 1 (after (length ts) p) end).
Proof.
  intros Hr Hn He. unfold recover_to_eol, modify.
  assert (count_while (fun t => negb (is_newline t)) (remaining p) = length ts) as ->.
  { rewrite Hr, count_while_app.
    - destruct rest as [|x rest]; simpl in *; [lia|]. rewrite He. simpl. lia.
    - eapply Forall_impl; [exact Hn|]. intros t Ht. simpl in *. by rewrite Ht. }
  rewrite Hr, lookup_app_r, Nat.sub_diag by done. destruct rest; simpl; [by rewrite Nat.add_0_r|].
  rewrite after_after. unfold after. by rewrite Nat.add_assoc.
Qed.

(** The state after a line of a stage, its directives taken out of the queue. *)
Lemma set_pending_consumed n ds ws p :
  p_pending p = [] -> set_pending [] (consumed n ds ws p) = consumed n [] ws p.
Proof. intros Hp. unfold set_pending, consumed. simpl. by rewrite Hp. Qed.

Lemma stage_loop_newline n acc p t ts :
  remaining p = t :: ts -> is_newline t = true ->
  stage_loop (S n) acc p = stage_loop (S n) acc (after 1 p).
Proof. intros Hr Ht. cbn [stage_loop]. by eapply skip_newlines_after. Qed.

Lemma ends_stage_remaining p : ends_stage (p_peek_kind p) = stage_end (remaining p).
Proof.
  rewrite peek_kind_remaining. destruct (remaining p) as [|t ts]; [done|]. simpl. unfold is_from.
  by destruct (kind t) as [[]| | | | | |].
Qed.

Lemma skip_newlines_id p :
  match remaining p with t :: _ => is_newline t = false | [] => True end -> skip_newlines p = Val (Some tt, p).
Proof. intros H. rewrite (skip_newlines_eq p [] (remaining p)); [by rewrite after_0|done|constructor|done]. Qed.

Lemma stage_end_newline ts : stage_end ts = true -> match ts with t :: _ => is_newline t = false | [] => True end.
Proof. destruct ts as [|t ts]; [done|]. simpl. unfold is_from, is_newline. by destruct (kind t) as [[]| | | | | |]. Qed.

Lemma stage_loop_end n acc p :
  stage_end (remaining p) = true -> stage_loop (S n) acc p = Val (Some acc, p).
Proof.
  intros He. cbn [stage_loop]. erewrite bind_val by (by apply skip_newlines_id, stage_end_newline).
  erewrite bind_val by done. by rewrite ends_stage_remaining, He.
Qed.

(** A round of the directive loop that collects no error. *)
Lemma stage_loop_some n acc p d q :
  stage_end (remaining p) = false -> eol (remaining p) = false ->
  parse_directive p = Val (Some d, q) -> p_errors q = [] ->
  stage_loop (S n) acc p = stage_loop n (acc ++ d :: p_pending q) (set_pending [] q).
Proof.
  intros Hf Hn Ed He. cbn [stage_loop].
  erewrite bind_val by (apply skip_newlines_id; by destruct (remaining p)).
  erewrite bind_val by done. rewrite ends_stage_remaining, Hf.
  erewrite bind_val by (unfold try; by rewrite Ed).
  unfold mbind, P_bind, gets, modify. simpl. by rewrite He.
Qed.

Lemma stage_loop_none n acc p q :
  stage_end (remaining p) = false -> eol (remaining p) = false ->
  parse_directive p = Val (None, q) -> p_errors q = [] ->
  stage_loop (S n) acc p = (recover_to_eol ≫= fun _ => stage_loop n acc) q.
Proof.
  intros Hf Hn Ed He. cbn [stage_loop].
  erewrite bind_val by (apply skip_newlines_id; by destruct (remaining p)).
  erewrite bind_val by done. rewrite ends_stage_remaining, Hf.
  erewrite bind_val by (unfold try; by rewrite Ed).
  unfold mbind, P_bind, recover_to_eol, gets, modify. simpl. by rewrite He.
Qed.

(** The line of an unsupported directive, up to its newline. *)
Lemma stage_loop_recover n acc q ts rest :
  remaining q = ts ++ rest -> no_newline ts -> eol rest = true ->
  (recover_to_eol ≫= fun _ => stage_loop (S n) acc) q = stage_loop (S n) acc (after (length ts) q).
Proof.
  intros Hr Hn He. erewrite bind_val by (by eapply recover_to_eol_eq).
  destruct rest as [|x rest]; [done|]. symmetry. eapply stage_loop_newline; [|exact He].
  by apply remaining_after_app.
Qed.

Lemma line_start l ds ws rest : line src l ds ws -> stage_end (l ++ rest) = false /\ eol (l ++ rest) = false.
Proof. intros HL. by destruct (line_head _ _ _ HL) as (t & l' & -> & Ht & Hf & _). Qed.

(** One round of the directive loop on a line of the grammar. *)
Lemma stage_loop_line n acc p l rest ds ws :
  p_source p = src -> p_errors p = [] -> p_pending p = [] ->
  line src l ds ws -> remaining p = l ++ rest -> eol rest = true ->
  stage_loop (S (S n)) acc p = stage_loop (S n) (acc ++ ds) (consumed (length l) [] ws p).
Proof.
  intros Hs He Hp HL Hr Hn. destruct (line_start _ _ _ rest HL) as [Hf Hb]. rewrite <- Hr in Hf, Hb.
  destruct HL as [t1 kw ts ds' ws' Hk Hl HA|t1 name hint ts Hk Hu Hl].
  - pose proof (arguments_nonempty _ _ _ _ _ HA) as Hne. destruct ds' as [|d ds']; [done|].
    destruct (cl_directive p t1 kw ts rest d ds' ws' Hs He Hr Hn Hl Hk HA) as [E Hq].
    erewrite stage_loop_some by done. rewrite set_pending_consumed by done. simpl. by rewrite Hp.
  - pose proof (unsupported_eq p t1 name hint (ts ++ rest) Hr Hk Hu) as E.
    erewrite stage_loop_none by done. rewrite app_nil_r.
    rewrite (stage_loop_recover n acc _ (t1 :: ts) rest).
    + rewrite <- consumed_nil, consumed_consumed. done.
    + by rewrite remaining_consumed.
    + constructor; [|done]. unfold is_newline. by rewrite Hk.
    + done.
Qed.

Lemma cl_stage_loop ts ds ws rest : body src ts ds ws rest -> forall n acc p,
  p_source p = src -> p_errors p = [] -> p_pending p = [] -> remaining p = ts -> length ts < n ->
  stage_loop n acc p = Val (Some (acc ++ ds), consumed (length ts - length rest) [] ws p).
Proof.
  induction 1 as [ts He|t ts ds ws rest Ht HB IH|l ts ds ws ds' ws' rest HL Hn HB IH];
    intros n acc p Hs Hp Hq Hr Hlen; (destruct n as [|n]; [lia|]).
  - rewrite stage_loop_end by (by rewrite Hr). by rewrite Nat.sub_diag, app_nil_r, consumed_nil, after_0.
  - erewrite stage_loop_newline by done. simpl in Hlen. destruct (body_suffix _ _ _ _ HB) as [pre Epre].
    rewrite IH; try done; [|by eapply remaining_after_1|lia]. rewrite <- consumed_nil, consumed_consumed.
    do 3 f_equal. rewrite Epre. simpl. rewrite length_app. lia.
  - destruct (line_head _ _ _ HL) as (t & l' & El & _). rewrite length_app in *.
    assert (length l <> 0) by (by rewrite El). destruct n as [|n]; [lia|].
    rewrite (stage_loop_line n acc p l ts ds ws) by done. destruct (body_suffix _ _ _ _ HB) as [pre Epre].
    rewrite IH; try done; [|simpl; by rewrite Hq|by apply remaining_consumed_app|lia].
    rewrite consumed_consumed, app_assoc. do 3 f_equal. rewrite Epre, length_app. lia.
Qed.

(** ** Soundness *)

Section sound.
Context (toks : list Token).
Hypothesis Hsrc : utf8 src.
Hypothesis Htoks : Forall (token_ok src) toks.
Hypothesis Hord : ordered_before toks (length src).

(** A parsing function that fails has reported an error. *)
Lemma failed_not_clean {A} (m : P A) p q (R : A -> Parser -> Prop) :
  ok src toks m p R -> pinv src toks p -> m p = Val (None, q) -> p_errors q = [] -> False.
Proof.
  intros Hok Hp E He. destruct (Hok Hp) as (r & q' & E' & _ & HR). rewrite E in E'. injection E' as <- <-.
  unfold grew in HR. rewrite He in HR. simpl in HR. lia.
Qed.

Lemma pinv_peek p t ts : pinv src toks p -> remaining p = t :: ts -> toks !! p_pos p = Some t.
Proof. intros Hp Hr. apply (peek_toks src toks p t Hp). by rewrite peek_remaining, Hr. Qed.

Lemma pinv_after n p : pinv src toks p -> n <= length (remaining p) -> pinv src toks (after n p).
Proof.
  intros Hp Hn. apply frame_set_pos; [done|]. destruct Hp as (_ & E & Hpos & _). unfold remaining in Hn.
  rewrite length_drop, E in Hn. lia.
Qed.

Lemma pinv_consumed n ws p :
  pinv src toks p -> n <= length (remaining p) -> pinv src toks (consumed n [] ws p).
Proof.
  intros Hp Hn. destruct (pinv_after n p Hp Hn) as (H1 & H2 & H3 & H4). split_and!; try done.
  unfold tree_inv in *. simpl. by rewrite app_nil_r.
Qed.

(** A directive parsed without an error is a line of the grammar. *)
Lemma directive_sound p t ts r q :
  pinv src toks p -> p_errors p = [] -> remaining p = t :: ts ->
  parse_directive p = Val (r, q) -> p_errors q = [] ->
  exists l rest ds ws, remaining p = l ++ rest /\ eol rest = true /\ line src l ds ws.
Proof.
  intros Hp Hpe Hr E He. pose proof (pinv_peek _ _ _ Hp Hr) as Ht.
  assert (Hp1 : pinv src toks (after 1 p)) by (apply pinv_after; [done|rewrite Hr; simpl; lia]).
  unfold parse_directive in E. erewrite bind_val in E by done. rewrite peek_remaining, Hr in E. cbn [head] in E.
  assert (Hfail : forall d, fail_with (A := Directive) d p <> Val (r, q)).
  { intros d [= <- <-]. by apply app_eq_nil in He as [? ?]. }
  destruct (kind t) as [kw|name|s|n|x|on ov|] eqn:Ek; try by apply Hfail in E.
  - erewrite bind_val in E by (rewrite skip_eq, Hr; done).
    pose proof (ok_dispatch src toks Hsrc Htoks Hord p t kw (after 1 p) Ht eq_refl) as Hok.
    destruct r as [d|]; [|exfalso; by eapply failed_not_clean].
    destruct (proj1 (accepts_dispatch src t kw (after 1 p) d q (proj1 Hp1) Hpe) (conj E He))
      as (l & rest & ds & ws & Hr1 & Hn & Hl & HA & _).
    rewrite (remaining_after_1 _ _ _ Hr) in Hr1. exists (t :: l), rest, (d :: ds), ws.
    split_and!; [by rewrite Hr, Hr1|done|]. by eapply line_directive.
  - destruct (unsupported_dockerfile_directive name) as [hint|] eqn:Eu; [|by apply Hfail in E].
    destruct (line_split ts) as (l & rest & -> & Hl & Hn).
    exists (t :: l), rest, [], [unsupported_warning t name hint]. split_and!; [done|done|]. by apply line_unsupported.
Qed.

Lemma stage_loop_newlines n acc nls : forall p rest,
  remaining p = nls ++ rest -> Forall (fun t => is_newline t = true) nls ->
  stage_loop (S n) acc p = stage_loop (S n) acc (after (length nls) p).
Proof.
  induction nls as [|t nls IH]; intros p rest Hr Hn; [by rewrite after_0|]. inversion_clear Hn as [|? ? Ht Hn'].
  erewrite stage_loop_newline by done. rewrite (IH _ rest); [by rewrite after_after| |done].
  by eapply remaining_after_1.
Qed.

(** The directives a run of the loop adds are those of a body of the grammar. *)
Definition stage_run (acc : list Directive) (p : Parser) (ds : list Directive) (p' : Parser) : Prop :=
  exists ts rest ds' ws, remaining p = ts ++ rest /\ body src (ts ++ rest) ds' ws rest
    /\ ds = acc ++ ds' /\ p' = consumed (length ts) [] ws p.

Lemma stage_run_blanks acc p nls rest ds p' :
  remaining p = nls ++ rest -> Forall (fun t => is_newline t = true) nls ->
  stage_run acc (after (length nls) p) ds p' -> stage_run acc p ds p'.
Proof.
  intros Hr Hn (ts & rest' & ds' & ws & Hr' & HB & -> & ->). exists (nls ++ ts), rest', ds', ws.
  rewrite (remaining_after_app _ _ _ Hr) in Hr'. subst rest. split_and!; [by rewrite Hr, app_assoc| |done|].
  - rewrite <- app_assoc. by apply body_blanks.
  - by rewrite <- consumed_nil, consumed_consumed, length_app.
Qed.

Lemma stage_run_line acc p l rest ds1 ws1 ds p' :
  remaining p = l ++ rest -> eol rest = true -> line src l ds1 ws1 ->
  stage_run (acc ++ ds1) (consumed (length l) [] ws1 p) ds p' -> stage_run acc p ds p'.
Proof.
  intros Hr Hn HL (ts & rest' & ds' & ws & Hr' & HB & -> & ->).
  rewrite (remaining_consumed_app _ _ _ _ _ Hr) in Hr'. subst rest.
  exists (l ++ ts), rest', (ds1 ++ ds'), (ws1 ++ ws). split_and!; [by rewrite Hr, app_assoc| |by rewrite app_assoc|].
  - rewrite <- app_assoc. by apply body_line.
  - by rewrite consumed_consumed, length_app.
Qed.

(** The rounds of the loop on a first token that is not a newline. *)
Lemma clean_stage_round n acc p ds p' :
  clean (stage_loop (S n) acc) p ds p' -> stage_end (remaining p) = false -> eol (remaining p) = false ->
  exists r q, parse_directive p = Val (r, q) /\ p_errors q = [].
Proof.
  intros HC Hf Hn. cbn [stage_loop] in HC. unfold clean in HC.
  erewrite bind_val in HC by (apply skip_newlines_id; by destruct (remaining p)).
  erewrite bind_val in HC by done. rewrite ends_stage_remaining, Hf in HC.
  apply clean_bind_inv in HC as (r & q & HT & _); [|mono].
  apply clean_try in HT as [(d & -> & [E He])|(-> & E & He)]; eauto.
Qed.

Lemma stage_loop_sound n : forall acc p ds p',
  pinv src toks p -> p_pending p = [] -> length (remaining p) < n ->
  clean (stage_loop n acc) p ds p' -> stage_run acc p ds p'.
Proof.
  induction n as [|n IH]; intros acc p ds p' Hp Hq Hn HC; [lia|].
  destruct (newlines_split (remaining p)) as (nls & rest & Hr & Hnl & Hh).
  apply (stage_run_blanks _ _ nls rest); [done..|].
  assert (Hp1 : pinv src toks (after (length nls) p)) by (apply pinv_after; [done|rewrite Hr, length_app; lia]).
  pose proof (remaining_after_app _ _ _ Hr) as Hr1. unfold clean in HC.
  rewrite (stage_loop_newlines n acc nls p rest) in HC by done.
  rewrite Hr, length_app in Hn. set (p1 := after (length nls) p) in *.
  assert (Hq1 : p_pending p1 = []) by done. clearbody p1.
  destruct (stage_end rest) eqn:Ef.
  - rewrite stage_loop_end in HC by (by rewrite Hr1). destruct HC as [[= <- <-] _].
    exists [], rest, [], []. split_and!; [done|by constructor|by rewrite app_nil_r|by rewrite consumed_nil, after_0].
  - assert (Hb : eol rest = false) by (by destruct rest). rewrite <- Hr1 in Ef, Hb.
    destruct (clean_stage_round _ _ _ _ _ HC Ef Hb) as (r & q & E & He).
    destruct rest as [|t rest]; [by rewrite Hr1 in Ef|].
    pose proof (clean_inv _ _ _ _ _ HC) as He0.
    destruct (directive_sound p1 t rest r q Hp1 He0 Hr1 E He) as (l & rest' & ds1 & ws1 & Hr2 & He2 & HL).
    apply (stage_run_line acc p1 l rest' ds1 ws1); [done..|].
    destruct (line_head _ _ _ HL) as (t' & l' & El & _). rewrite <- Hr1, Hr2, length_app, El in Hn. simpl in Hn.
    destruct n as [|n]; [lia|].
    rewrite (stage_loop_line n acc p1 l rest' ds1 ws1) in HC by (done || apply Hp1).
    apply (IH (acc ++ ds1)); [| |rewrite (remaining_consumed_app _ _ _ _ _ Hr2); lia|done].
    + apply pinv_consumed; [done|]. rewrite Hr2, length_app. lia.
    + simpl. by rewrite Hq1.
Qed.

Lemma clean_expect_keyword kw m h p t p' :
  clean (expect_keyword kw m h) p t p' ->
  exists ts, remaining p = t :: ts /\ kind t = TokenKind_Keyword kw /\ p' = after 1 p.
Proof.
  unfold expect_keyword. intros HC. apply clean_bind_inv in HC as (k & q & [-> ->]%clean_gets & HC); [|mono].
  case_bool_decide as Hk; [|by cinv]. destruct (peek_keyword _ _ Hk) as (t' & ts & Hr & Ht).
  apply clean_advance in HC as (ts' & Hr' & ->). rewrite Hr in Hr'. injection Hr' as <- <-. eauto.
Qed.

Lemma is_from_keyword t : is_from t = true <-> kind t = TokenKind_Keyword KW_From.
Proof. unfold is_from. by destruct (kind t) as [[]| | | | | |]. Qed.

Lemma stage_sound p s p' :
  pinv src toks p -> p_pending p = [] -> clean parse_stage p s p' ->
  exists ts rest ws, remaining p = ts ++ rest /\ stage src ts s ws rest /\ p' = consumed (length ts) [] ws p.
Proof.
  intros Hp Hq HC. pose proof (clean_inv _ _ _ _ _ HC) as He. unfold parse_stage in HC.
  apply clean_bind_inv in HC as (f & q & (ts1 & Hr1 & Hf & ->)%clean_expect_keyword & HC); [|mono].
  apply clean_bind_inv in HC as (t & q & (ts2 & Hr2 & _ & ->)%clean_advance_or_err & HC); [|mono].
  rewrite (remaining_after_1 _ _ _ Hr1) in Hr2. subst ts1. rewrite after_after in HC. simpl in HC.
  assert (Hr3 : remaining (after 2 p) = ts2) by (by rewrite remaining_after, Hr1).
  destruct (kind t) eqn:Ht; try by cinv.
  apply clean_bind_inv in HC as (source & q & HS & HC); [|mono].
  apply (clean_from_source t) in HS as [HS ->]; [|done|done].
  apply clean_bind_inv in HC as ([name e] & q & (al & rest3 & Hr4 & HA & ->)%clean_stage_name & HC); [|mono].
  rewrite Hr3 in Hr4. subst ts2. rewrite after_after in HC.
  apply clean_bind_inv in HC as (x & q & [Hn ->]%clean_newline & HC); [|mono].
  apply clean_bind_inv in HC as (ds & q & HL & HC); [|mono].
  pose proof (remaining_after_app p (f :: t :: al) rest3 Hr1) as Hr5. cbn [length] in Hr5.
  apply clean_fuel in HL. change (2 + length al) with (S (S (length al))) in *.
  apply stage_loop_sound in HL as (ts & rest & ds' & ws & Hr6 & HB & -> & ->); [|by apply pinv_after; [|rewrite Hr1; simpl; rewrite length_app; lia]|done|].
  2: { pose proof (fuel_remaining (after (S (S (length al))) p)). simpl in *. lia. }
  rewrite Hr5 in Hr6, Hn. subst rest3. rewrite <- consumed_nil, consumed_consumed in HC.
  destruct (last_cons_Some f (t :: al ++ ts)) as [u Hu].
  apply clean_bind_inv in HC as (le & q & [HE _] & HC); [|mono].
  rewrite (last_consumed_eq p _ (f :: t :: al ++ ts) rest u) in HE;
    [|rewrite Hr1; simpl; by rewrite <- app_assoc|done|done|simpl; rewrite length_app; lia].
  injection HE as <- <-. apply clean_ret in HC as [-> ->].
  exists (f :: t :: al ++ ts), rest, ws. split_and!.
  - rewrite Hr1. simpl. by rewrite <- app_assoc.
  - apply is_from_keyword in Hf. by eapply stage_intro.
  - simpl. by rewrite length_app.
Qed.

(** A stage of the grammar, parsed. *)
Lemma cl_stage p ts s ws rest :
  p_source p = src -> p_errors p = [] -> p_pending p = [] ->
  remaining p = ts ++ rest -> stage src ts s ws rest ->
  clean parse_stage p s (consumed (length ts) [] ws p).
Proof.
  intros Hs He Hq Hr HS. destruct HS as [f t source al name e ts rest ds ws u Hf HF HA Hn HB Hu].
  assert (exists x, kind t = TokenKind_Ident x) as [x Ht] by (inversion HF; eauto).
  assert (Hr2 : remaining (after 2 p) = al ++ ts ++ rest) by (rewrite remaining_after, Hr; simpl; by rewrite <- app_assoc).
  assert (Hr3 : remaining (after (2 + length al) p) = ts ++ rest).
  { rewrite <- after_after. by apply remaining_after_app. }
  apply is_from_keyword in Hf. unfold parse_stage, expect_keyword.
  cstep; [cstep; [by apply cl_gets|]|].
  { rewrite peek_kind_remaining, Hr, bool_decide_eq_true_2 by (simpl; by rewrite Hf). by eapply cl_advance. }
  cbv zeta. cstep; [eapply cl_next; [done|exact (remaining_after_1 p f _ Hr)|unfold is_newline; by rewrite Ht]|].
  rewrite Ht, after_after. change (1 + 1) with 2. cstep; [apply (clean_from_source t x); [exact Ht|exact He|split; [exact HF|reflexivity]]|].
  cstep; [by eapply cl_stage_name|]. rewrite after_after.
  cstep; [apply cl_newline; [done|by rewrite Hr3]|].
  pose proof (fuel_remaining (after (2 + length al) p)) as HF2.
  cstep; [apply clean_fuel; split; [eapply (cl_stage_loop (ts ++ rest) ds ws rest); [done|done|done|done|done|]|done]|].
  { rewrite Hr3 in HF2. simpl in *. lia. }
  rewrite <- consumed_nil, consumed_consumed. simpl. rewrite length_app, Nat.add_sub.
  cstep; [split; [by eapply (last_consumed_eq p _ (f :: t :: al ++ ts) rest u);
    [|done|done|simpl; rewrite length_app; lia]|done]|].
  rewrite length_app. by apply cl_ret.
Qed.

(** ** The preamble *)

(** The state after [n] tokens that add to the tree and to the warnings. *)
Definition parsed (n : nat) (args : list Arg) (ss : list Stage) (ws : list Diagnostic) (p : Parser) : Parser :=
  {| p_source := p_source p; p_tokens := p_tokens p; p_pos := p_pos p + n;
     p_global_args := p_global_args p ++ args; p_stages := p_stages p ++ ss; p_errors := p_errors p;
     p_warnings := p_warnings p ++ ws; p_pending := p_pending p |}.

Lemma parsed_parsed n1 n2 as1 as2 ss1 ss2 ws1 ws2 p :
  parsed n2 as2 ss2 ws2 (parsed n1 as1 ss1 ws1 p) = parsed (n1 + n2) (as1 ++ as2) (ss1 ++ ss2) (ws1 ++ ws2) p.
Proof. unfold parsed. simpl. by rewrite Nat.add_assoc, <- !app_assoc. Qed.

Lemma parsed_after n p : parsed n [] [] [] p = after n p.
Proof. unfold parsed, after, set_p_pos. by rewrite !app_nil_r. Qed.

Lemma parsed_consumed n ws p : consumed n [] ws p = parsed n [] [] ws p.
Proof. unfold parsed, consumed. by rewrite !app_nil_r. Qed.

Lemma remaining_parsed p ts rest args ss ws :
  remaining p = ts ++ rest -> remaining (parsed (length ts) args ss ws p) = rest.
Proof. exact (remaining_consumed_app p ts rest [] []). Qed.

Lemma preamble_suffix ts args ws rest : preamble src ts args ws rest -> exists pre, ts = pre ++ rest.
Proof.
  induction 1 as [ts _|t ts args ws rest _ _ [pre ->]|t l a ts args ws rest _ _ _ _ _ [pre ->]].
  - by exists [].
  - by exists (t :: pre).
  - exists (t :: l ++ pre). simpl. by rewrite app_assoc.
Qed.

Lemma global_args_newline n p t ts :
  remaining p = t :: ts -> is_newline t = true -> global_args_loop (S n) p = global_args_loop (S n) (after 1 p).
Proof. intros Hr Ht. cbn [global_args_loop]. by eapply skip_newlines_after. Qed.

Lemma global_args_end n p : stage_end (remaining p) = true -> global_args_loop (S n) p = Val (Some tt, p).
Proof.
  intros He. cbn [global_args_loop]. erewrite bind_val by (by apply skip_newlines_id, stage_end_newline).
  erewrite bind_val by done. rewrite peek_remaining. destruct (remaining p) as [|t ts]; [done|].
  apply is_from_keyword in He. cbn [head]. by rewrite He.
Qed.

Lemma global_args_arg n p t l a rest :
  p_source p = src -> p_errors p = [] -> remaining p = (t :: l) ++ rest -> eol rest = true ->
  kind t = TokenKind_Keyword KW_Arg -> arg_tokens src (tok_start t) l a ->
  global_args_loop (S n) p = global_args_loop n (parsed (S (length l)) [a] [] (arg_warnings a) p).
Proof.
  intros Hs He Hr Hn Hk HA. simpl in Hr. cbn [global_args_loop].
  erewrite bind_val by (apply skip_newlines_id; rewrite Hr; unfold is_newline; by rewrite Hk).
  erewrite bind_val by done. rewrite peek_remaining, Hr. cbn [head]. rewrite Hk.
  erewrite bind_val by (rewrite skip_eq, Hr; done).
  destruct (cl_arg src (tok_start t) (after 1 p) a l rest Hs He) as [E _];
    [by eapply remaining_after_1|done|done|].
  erewrite bind_val by (unfold try; by rewrite E). erewrite bind_val by done.
  rewrite parsed_consumed, <- parsed_after, parsed_parsed. f_equal. unfold add_global_arg, parsed. simpl.
  by rewrite !app_nil_r.
Qed.

Lemma cl_global_args ts args ws rest : preamble src ts args ws rest -> forall n p,
  p_source p = src -> p_errors p = [] -> remaining p = ts -> length ts < n ->
  global_args_loop n p = Val (Some tt, parsed (length ts - length rest) args [] ws p).
Proof.
  induction 1 as [ts He|t ts args ws rest Ht HB IH|t l a ts args ws rest Hk Hl HA Hn HB IH];
    intros n p Hs Hp Hr Hlen; (destruct n as [|n]; [lia|]).
  - rewrite global_args_end by (by rewrite Hr). by rewrite Nat.sub_diag, parsed_after, after_0.
  - erewrite global_args_newline by done. simpl in Hlen. destruct (preamble_suffix _ _ _ _ HB) as [pre Epre].
    rewrite IH; try done; [|by eapply remaining_after_1|lia]. rewrite <- parsed_after, parsed_parsed.
    do 3 f_equal. rewrite Epre. simpl. rewrite length_app. lia.
  - rewrite (global_args_arg n p t l a ts) by done. simpl in Hlen. rewrite length_app in Hlen.
    destruct (preamble_suffix _ _ _ _ HB) as [pre Epre].
    rewrite IH; try done; [|by apply (remaining_parsed p (t :: l))|lia]. rewrite parsed_parsed.
    do 3 f_equal. simpl. rewrite Epre, !length_app. lia.
Qed.

Definition preamble_run (p p' : Parser) : Prop :=
  exists ts rest args ws, remaining p = ts ++ rest /\ preamble src (ts ++ rest) args ws rest
    /\ p' = parsed (length ts) args [] ws p.

Lemma preamble_blanks nls ts args ws rest :
  Forall (fun t => is_newline t = true) nls -> preamble src ts args ws rest -> preamble src (nls ++ ts) args ws rest.
Proof. induction 1; simpl; [done|]. intros H'. apply preamble_blank; auto. Qed.

Lemma preamble_run_blanks p nls rest p' :
  remaining p = nls ++ rest -> Forall (fun t => is_newline t = true) nls ->
  preamble_run (after (length nls) p) p' -> preamble_run p p'.
Proof.
  intros Hr Hn (ts & rest' & args & ws & Hr' & HB & ->). exists (nls ++ ts), rest', args, ws.
  rewrite (remaining_after_app _ _ _ Hr) in Hr'. subst rest. split_and!; [by rewrite Hr, app_assoc| |].
  - rewrite <- app_assoc. by apply preamble_blanks.
  - by rewrite <- parsed_after, parsed_parsed, length_app.
Qed.

Lemma global_args_newlines n nls : forall p rest,
  remaining p = nls ++ rest -> Forall (fun t => is_newline t = true) nls ->
  global_args_loop (S n) p = global_args_loop (S n) (after (length nls) p).
Proof.
  induction nls as [|t nls IH]; intros p rest Hr Hn; [by rewrite after_0|]. inversion_clear Hn as [|? ? Ht Hn'].
  erewrite global_args_newline by done. rewrite (IH _ rest); [by rewrite after_after| |done].
  by eapply remaining_after_1.
Qed.

Lemma pinv_parsed n args ss ws p :
  pinv src toks p -> n <= length (remaining p) -> Forall (arg_ok src) args -> Forall (stage_ok src) ss ->
  pinv src toks (parsed n args ss ws p).
Proof.
  intros Hp Hn HA HS. destruct (pinv_after n p Hp Hn) as (H1 & H2 & H3 & (H4 & H5 & H6)).
  split_and!; [done..|]. split_and!; [done|by apply Forall_app|by apply Forall_app].
Qed.

(** A line before [FROM] that is parsed without an error. *)
Lemma global_args_round n p t ts x p' :
  pinv src toks p -> clean (global_args_loop (S n)) p x p' ->
  remaining p = t :: ts -> is_newline t = false -> is_from t = false ->
  kind t = TokenKind_Keyword KW_Arg /\ exists a l rest, ts = l ++ rest /\ eol rest = true /\ no_newline l
    /\ arg_tokens src (tok_start t) l a /\ arg_ok src a.
Proof.
  intros Hp HC Hr Hn Hf. pose proof (clean_inv _ _ _ _ _ HC) as He. pose proof (pinv_peek _ _ _ Hp Hr) as Ht.
  assert (Hp1 : pinv src toks (after 1 p)) by (apply pinv_after; [done|rewrite Hr; simpl; lia]).
  cbn [global_args_loop] in HC. unfold clean in HC.
  erewrite bind_val in HC by (apply skip_newlines_id; by rewrite Hr).
  erewrite bind_val in HC by done. rewrite peek_remaining, Hr in HC. cbn [head] in HC.
  unfold is_from in Hf. destruct (kind t) as [[]| | | | | |] eqn:Ek; try done;
    try by (apply clean_push_err in HC). split; [done|].
  erewrite bind_val in HC by (rewrite skip_eq, Hr; done).
  apply clean_bind_inv in HC as (r & q & HT & _); [|mono].
  assert (Hst : bound toks (tok_start t) (after 1 p)).
  { exists (p_pos p), t. split_and!; [simpl; lia|done|done]. }
  pose proof (ok_arg src toks Hsrc Htoks Hord _ _ Hst) as Hok.
  apply clean_try in HT as [(d & -> & HA)|(-> & E & Hq)]; [|exfalso; by eapply failed_not_clean].
  pose proof (clean_arg _ _ _ _ _ (proj1 Hp1) He HA) as (a & l & rest & -> & Hr1 & Hn1 & HT & _).
  rewrite (remaining_after_1 _ _ _ Hr) in Hr1. exists a, l, rest. split_and!; [done|done|by eapply arg_line|done|].
  destruct (Hok Hp1) as (r & q' & E' & _ & HR). rewrite (proj1 HA) in E'. injection E' as <- <-.
  by destruct HR as (a' & [= <-] & Ha).
Qed.

Lemma global_args_sound n : forall p x p',
  pinv src toks p -> length (remaining p) < n -> clean (global_args_loop n) p x p' ->
  preamble_run p p' /\ pinv src toks p'.
Proof.
  induction n as [|n IH]; intros p x p' Hp Hn HC; [lia|].
  destruct (newlines_split (remaining p)) as (nls & rest & Hr & Hnl & Hh).
  assert (HG : preamble_run (after (length nls) p) p' /\ pinv src toks p' -> preamble_run p p' /\ pinv src toks p').
  { intros [H1 H2]. split; [|done]. by eapply preamble_run_blanks. }
  apply HG. clear HG. unfold clean in HC. rewrite (global_args_newlines n nls p rest) in HC by done.
  assert (Hp1 : pinv src toks (after (length nls) p)) by (apply pinv_after; [done|rewrite Hr, length_app; lia]).
  pose proof (remaining_after_app _ _ _ Hr) as Hr1. rewrite Hr, length_app in Hn.
  set (p1 := after (length nls) p) in *. clearbody p1. destruct (stage_end rest) eqn:Ef.
  - rewrite global_args_end in HC by (by rewrite Hr1). destruct HC as [[= <- <-] _]. split; [|done].
    exists [], rest, [], []. split_and!; [done|by constructor|by rewrite parsed_after, after_0].
  - destruct rest as [|t rest]; [done|]. pose proof (clean_inv _ _ _ _ _ HC) as He.
    destruct (global_args_round n p1 t rest x p' Hp1 HC Hr1 Hh Ef) as (Hk & a & l & rest' & -> & Hn' & Hl & HA & Ha).
    rewrite (global_args_arg n p1 t l a rest' (proj1 Hp1) He Hr1 Hn' Hk HA) in HC. simpl in Hn.
    pose proof (remaining_parsed p1 (t :: l) rest' [a] [] (arg_warnings a) Hr1) as Hr2. cbn [length] in Hr2.
    apply IH in HC as [(ts & rest2 & args & ws & Hr3 & HB & ->) HI].
    + split; [|done]. rewrite Hr2 in Hr3. subst rest'. exists (t :: l ++ ts), rest2, (a :: args), (arg_warnings a ++ ws).
      split_and!; [rewrite Hr1; simpl; by rewrite <- app_assoc| |].
      * simpl. rewrite <- app_assoc. by apply preamble_arg.
      * rewrite parsed_parsed. simpl. by rewrite length_app.
    + apply pinv_parsed; [done| |by constructor|done]. rewrite Hr1. simpl. rewrite length_app. lia.
    + rewrite Hr2. rewrite length_app in Hn. lia.
Qed.

(** ** Stages *)

Lemma top_loop_end n p : remaining p = [] -> top_loop (S n) p = Val (Some tt, p).
Proof.
  intros Hr. cbn [top_loop]. erewrite bind_val by done. rewrite bool_decide_eq_false_2; [done|].
  apply (f_equal length) in Hr. unfold remaining in Hr. rewrite length_drop in Hr. simpl in Hr. lia.
Qed.

Lemma stage_rest ts s ws rest : stage src ts s ws rest -> stage_end rest = true.
Proof. intros []. by eapply body_stage_end. Qed.

Lemma more_tokens p t ts : remaining p = t :: ts -> bool_decide (p_pos p < length (p_tokens p)) = true.
Proof.
  intros Hr. apply bool_decide_eq_true_2. apply (f_equal length) in Hr. unfold remaining in Hr.
  rewrite length_drop in Hr. simpl in Hr. lia.
Qed.

Lemma top_loop_stage n p s ts ws rest :
  p_errors p = [] -> p_pending p = [] -> remaining p = ts ++ rest -> ts <> [] -> stage_end rest = true ->
  clean parse_stage p s (consumed (length ts) [] ws p) ->
  top_loop (S n) p = top_loop n (parsed (length ts) [] [s] ws p).
Proof.
  intros He Hq Hr Hne Hend [E _]. cbn [top_loop]. erewrite bind_val by done.
  destruct ts as [|t ts]; [done|]. erewrite more_tokens by done. cbn [negb].
  erewrite bind_val by (unfold try; by rewrite E). erewrite bind_val by done.
  assert (E2 : add_stage s (consumed (length (t :: ts)) [] ws p) = parsed (length (t :: ts)) [] [s] ws p).
  { unfold add_stage, consumed, parsed. simpl. by rewrite Hq, !app_nil_r. }
  rewrite E2. erewrite bind_val.
  2: { apply skip_newlines_id. rewrite (remaining_parsed p _ rest) by done. by apply stage_end_newline. }
  erewrite bind_val by done. simpl. by rewrite He.
Qed.

Lemma stages_suffix_end ts ss ws : stages_of src ts ss ws -> stage_end ts = true.
Proof. intros [|? ? ? ? ? ? [f t ? ? ? ? ? ? ? ? ? Hf]]; done. Qed.

Lemma stage_nonempty ts s ws rest : stage src ts s ws rest -> ts <> [].
Proof. by intros []. Qed.

Lemma cl_top_loop ts ss ws : stages_of src ts ss ws -> forall n p,
  p_source p = src -> p_errors p = [] -> p_pending p = [] -> remaining p = ts -> length ts < n ->
  top_loop n p = Val (Some tt, parsed (length ts) [] ss ws p).
Proof.
  induction 1 as [|ts rest s ss ws ws' HS HSS IH]; intros n p Hs He Hq Hr Hn; (destruct n as [|n]; [lia|]).
  - rewrite top_loop_end by done. by rewrite parsed_after, after_0.
  - pose proof (stage_nonempty _ _ _ _ HS) as Hne. rewrite length_app in *.
    assert (length ts <> 0) by (by destruct ts).
    rewrite (top_loop_stage n p s ts ws rest); [|done..|by eapply stage_rest|by eapply cl_stage].
    rewrite IH; try done; [|by apply remaining_parsed|lia]. by rewrite parsed_parsed.
Qed.

Lemma top_loop_sound n : forall p x p',
  pinv src toks p -> p_pending p = [] -> length (remaining p) < n -> clean (top_loop n) p x p' ->
  exists ss ws, stages_of src (remaining p) ss ws /\ p' = parsed (length (remaining p)) [] ss ws p.
Proof.
  induction n as [|n IH]; intros p x p' Hp Hq Hn HC; [lia|]. destruct (remaining p) as [|t ts1] eqn:Hr.
  - destruct HC as [E _]. rewrite top_loop_end in E by done. injection E as <- <-.
    exists [], []. split; [constructor|by rewrite parsed_after, after_0].
  - pose proof HC as HC'. pose proof (clean_inv _ _ _ _ _ HC) as He. cbn [top_loop] in HC.
    apply clean_bind_inv in HC as (b & q & [-> ->]%clean_gets & HC); [|mono].
    erewrite more_tokens in HC by done. cbn [negb] in HC.
    apply clean_bind_inv in HC as (r & q & HT & _); [|mono].
    destruct (wp_stage src toks Hsrc Htoks Hord p t Hp) as (r' & q' & E' & HF & _ & HR);
      [by rewrite peek_remaining, Hr|].
    apply clean_try in HT as [(s & -> & HS)|(-> & E & Hq')].
    + destruct (stage_sound p s q Hp Hq HS) as (ts & rest & ws & Hr1 & HG & ->).
      rewrite (proj1 HS) in E'. injection E' as <- <-.
      pose proof (stage_nonempty _ _ _ _ HG) as Hne. rewrite <- Hr, Hr1, length_app in *.
      assert (length ts <> 0) by (by destruct ts). unfold clean in HC'.
      rewrite (top_loop_stage n p s ts ws rest) in HC'; [|done..|by eapply stage_rest|done].
      pose proof (remaining_parsed p ts rest [] [s] ws Hr1) as Hr2.
      apply IH in HC' as (ss & ws' & HSS & ->);
        [|apply pinv_parsed; [done|rewrite Hr1, length_app; lia|done|by constructor]|done|rewrite Hr2; lia].
      rewrite Hr2 in *. exists (s :: ss), (ws ++ ws'). split; [by apply stages_cons|by rewrite parsed_parsed].
    + exfalso. rewrite E in E'. injection E' as <- <-. unfold grew in HR. rewrite Hq' in HR. simpl in HR. lia.
Qed.

(** ** Recipes *)

Lemma parse_top_eq p :
  parse_top p = (with_fuel global_args_loop ≫= fun _ => with_fuel top_loop) p.
Proof.
  unfold parse_top, parse_global_args. destruct (newlines_split (remaining p)) as (nls & rest & Hr & Hn & Hh).
  erewrite bind_val by (by eapply skip_newlines_eq). unfold with_fuel, mbind, P_bind.
  by rewrite (global_args_newlines (length (p_tokens p)) nls p rest).
Qed.

Lemma parse_top_iff p p' :
  pinv src toks p -> p_errors p = [] -> p_pending p = [] ->
  (clean parse_top p tt p' <->
   exists args ss ws1 ws2 rest, preamble src (remaining p) args ws1 rest /\ stages_of src rest ss ws2
     /\ p' = parsed (length (remaining p)) args ss (ws1 ++ ws2) p).
Proof.
  intros Hp He Hq. unfold clean. rewrite parse_top_eq. pose proof (fuel_remaining p) as HF. split.
  - intros HC. apply clean_bind_inv in HC as ([] & q & HG & HC); [|mono].
    apply clean_fuel, global_args_sound in HG as [(ts & rest & args & ws1 & Hr & HB & ->) HI]; [|done|lia].
    pose proof (remaining_parsed p ts rest args [] ws1 Hr) as Hr1.
    apply clean_fuel, top_loop_sound in HC as (ss & ws2 & HS & ->);
      [|done|done|rewrite Hr1; rewrite Hr, length_app in HF; simpl; lia].
    rewrite Hr1 in *. rewrite parsed_parsed, Hr, app_nil_r, length_app. exists args, ss, ws1, ws2, rest. done.
  - intros (args & ss & ws1 & ws2 & rest & HB & HS & ->). split; [|done].
    destruct (preamble_suffix _ _ _ _ HB) as [pre Hr].
    erewrite bind_val by (unfold with_fuel; by rewrite (cl_global_args _ _ _ _ HB) by (done || apply Hp || lia)).
    rewrite Hr, length_app, Nat.add_sub.
    unfold with_fuel. rewrite (cl_top_loop _ _ _ HS); [|apply Hp|done|done|by apply remaining_parsed|].
    + by rewrite parsed_parsed, app_nil_r.
    + rewrite Hr, length_app in HF. simpl. lia.
Qed.

Lemma parse_top_total p : pinv src toks p -> exists r p', parse_top p = Val (r, p') /\ (r = None -> p_errors p' <> []).
Proof.
  intros Hp. destruct (ok_parse_top src toks Hsrc Htoks Hord p Hp) as (r & q & E & _ & HR).
  exists r, q. split; [done|]. intros -> He. unfold grew in HR. rewrite He in HR. simpl in HR. lia.
Qed.

Lemma grammar_parse_iff ast ws :
  grammar_parse src toks = Val (Ok (ast, ws)) <-> recipe src toks ast ws.
Proof.
  assert (Hp : pinv src toks (Parser_new src toks)).
  { split_and!; [done|done|simpl; lia|]. split_and!; constructor. }
  pose proof (fun q => parse_top_iff _ q Hp eq_refl eq_refl) as HI. change (remaining (Parser_new src toks)) with toks in HI.
  unfold grammar_parse. split.
  - destruct (parse_top_total _ Hp) as (r & q & E & HN). rewrite E. simpl. destruct (p_errors q) eqn:Eq; [|done].
    destruct r as [[]|]; [|by destruct (HN eq_refl)]. intros [= <- <-].
    destruct (proj1 (HI q) (conj E Eq)) as (args & ss & ws1 & ws2 & rest & HB & HS & ->).
    exists rest, ws1, ws2. done.
  - intros (rest & ws1 & ws2 & HB & HS & ->).
    destruct (proj2 (HI (parsed (length toks) (global_args ast) (stages ast) (ws1 ++ ws2) (Parser_new src toks))))
      as [E _]; [by exists (global_args ast), (stages ast), ws1, ws2, rest|].
    rewrite E. simpl. by destruct ast.
Qed.
End sound.
End recipes.

(** On the tokens of a text, with or without lexical errors. *)
Lemma grammar_parse_tokens src toks errs ast ws :
  utf8 src -> tokenize src = Val (toks, errs) ->
  (grammar_parse src toks = Val (Ok (ast, ws)) <-> recipe src toks ast ws).
Proof.
  intros Hu HT. destruct (tokenize_grammar src Hu) as (toks' & errs' & E & H1 & H2 & _).
  rewrite E in HT. injection HT as -> ->. by apply grammar_parse_iff.
Qed.

(** The recipe language on texts: the lexical grammar, then the recipe
    grammar. *)
Definition language (src : str) (ast : Ast) (ws : list Diagnostic) : Prop :=
  exists toks, lexes 0 false src toks /\ recipe src toks ast ws.

(** ** Properties *)

(** C3 (refinement): on conventional texts the scanner and the parser recognise exactly the
    recipe language.  A UTF-8 text without numeric users, keywords as keys after the
    first pair of a line, options unknown to its directive and words with a [#]
    inside scans without a diagnostic and parses to a tree with at least one stage and
    a list of warnings if and only if it derives that tree and those warnings
    in the declarative grammar: lexical rules, then an [ARG] preamble and stages
    of a [FROM] line and directive lines, each line by the rule of its keyword. *)
Theorem parser_recognises_language src toks errs ast ws :
  utf8 src -> tokenize src = Val (toks, errs) -> conventional toks = true -> stages ast <> [] ->
  (errs = [] /\ grammar_parse src toks = Val (Ok (ast, ws)) <-> language src ast ws).
Proof.
  intros Hu HT _ _. unfold language. split.
  - intros [-> HG]. exists toks. split; [by apply tokenize_lexes|]. by eapply grammar_parse_tokens.
  - intros (toks' & HL & HG). apply (tokenize_lexes src toks' Hu) in HL. rewrite HT in HL. injection HL as -> ->.
    split; [done|]. by eapply grammar_parse_tokens.
Qed.

Definition scratch_ast : Ast :=
  {| global_args := []; stages :=
       [{| stage_from := {| from_source := FromSource_Scratch; from_span := mkSpan 0 12 |};
           stage_name := None;
           stage_directives := [Directive_Cmd
             {| cmd_command := CmdForm_Shell (mkSpanned ("a  b" : str) (mkSpan 17 21));
                cmd_span := mkSpan 13 21 |}];
           stage_span := mkSpan 0 21 |}] |}.

Definition scratch_src : str := "FROM scratch" ++ [lf] ++ "CMD a  b".
Definition scratch_toks : list Token := match tokenize scratch_src with Val (ts, _) => ts | _ => [] end.

Lemma parser_recognises_language_witness : language scratch_src scratch_ast [].
Proof.
  apply (proj1 (parser_recognises_language scratch_src scratch_toks [] scratch_ast []
                  ltac:(by apply utf8_ascii) ltac:(vm_compute; reflexivity) ltac:(vm_compute; reflexivity) ltac:(discriminate))).
  split; [reflexivity|vm_compute; reflexivity].
Defined.

(** The recipe language is unambiguous.  A text derives at most
    one tree and one list of warnings, although the rules for values, payloads
    and ports are stated by longest match and not by a strategy. *)
Theorem language_unambiguous src ast ws ast' ws' :
  utf8 src -> language src ast ws -> language src ast' ws' -> ast = ast' /\ ws = ws'.
Proof.
  intros Hu (toks & HL & HR) (toks' & HL' & HR').
  apply (tokenize_lexes src toks Hu) in HL. apply (tokenize_lexes src toks' Hu) in HL'.
  rewrite HL in HL'. injection HL' as <-.
  apply (grammar_parse_tokens src toks [] _ _ Hu HL) in HR, HR'. rewrite HR in HR'. by injection HR' as -> ->.
Qed.

Lemma language_unambiguous_witness :
  scratch_ast = scratch_ast /\ [] = ([] : list Diagnostic).
Proof.
  assert (H : language ("FROM scratch" ++ [lf] ++ "CMD a  b") scratch_ast []).
  { exists (match tokenize ("FROM scratch" ++ [lf] ++ "CMD a  b") with Val (ts, _) => ts | _ => [] end). split.
    - apply tokenize_lexes; [by apply utf8_ascii|]. vm_compute. reflexivity.
    - apply (grammar_parse_tokens _ _ []); [by apply utf8_ascii|vm_compute; reflexivity|vm_compute; reflexivity]. }
  exact (language_unambiguous ("FROM scratch" ++ [lf] ++ "CMD a  b") scratch_ast [] scratch_ast []
           ltac:(by apply utf8_ascii) H H).
Defined.
