(* ===== verification/Validator.v ===== *)
(** * Validator: the semantic pass over the syntax tree
    (crates/umf-parser/src/validator.rs).

    The source's [HashMap]s, used as maps from a name to the span that first
    declared it, are finite maps; the diagnostics vector is threaded through. *)

From S2P Require Import Prelude RustStr RustStrFacts Subst Validation Identifiers Paths OciRef.
From S2P Require Import Ast Diagnostics.

(** ** The code *)

Inductive SingletonKind := SingletonKind_Entrypoint.

#[export] Instance SingletonKind_eq_dec : EqDecision SingletonKind.
Proof. solve_decision. Defined.

#[export] Program Instance SingletonKind_countable : Countable SingletonKind :=
  {| encode _ := 1%positive; decode _ := Some SingletonKind_Entrypoint |}.
Next Obligation. by intros []. Qed.

Definition SingletonKind_label (k : SingletonKind) : str :=
  match k with SingletonKind_Entrypoint => "ENTRYPOINT" end.

Definition singleton_kind (d : Directive) : option SingletonKind :=
  match d with
  | Directive_Entrypoint _ => Some SingletonKind_Entrypoint
  | _ => None
  end.

Definition duplicate_stage_name (name : Spanned StageName) (first_span : Span) : Diagnostic :=
  with_hint
    (with_note
       (error ("duplicate stage name `" ++ as_str (value name) ++ "`")
          (mkAnnotation (span name) "redeclared here"))
       (mkAnnotation first_span "first declared here"))
    "stage names must be unique within a multi-stage build".

(** The loop of [check_stage_name_uniqueness]. *)
Fixpoint stage_names_loop (seen : gmap str Span) (stages : list Stage)
    (diagnostics : list Diagnostic) : list Diagnostic :=
  match stages with
  | [] => diagnostics
  | stage :: rest =>
      match stage_name stage with
      | None => stage_names_loop seen rest diagnostics
      | Some name =>
          match seen !! as_str (value name) with
          | Some first_span =>
              stage_names_loop seen rest (diagnostics ++ [duplicate_stage_name name first_span])
          | None =>
              stage_names_loop (<[as_str (value name) := span name]> seen) rest diagnostics
          end
      end
  end.

Definition check_stage_name_uniqueness (ast : Ast) (diagnostics : list Diagnostic) : list Diagnostic :=
  stage_names_loop ∅ (stages ast) diagnostics.

Definition duplicate_singleton (kind : SingletonKind) (span first_span : Span) : Diagnostic :=
  with_hint
    (with_note
       (error ("duplicate " ++ SingletonKind_label kind ++ " directive in stage")
          (mkAnnotation span "duplicate here"))
       (mkAnnotation first_span "first declared here"))
    (SingletonKind_label kind ++ " accepts at most one instance per stage").

(** The loop of [check_no_duplicate_singletons]. *)
Fixpoint singletons_loop (firsts : gmap SingletonKind Span) (directives : list Directive)
    (diagnostics : list Diagnostic) : list Diagnostic :=
  match directives with
  | [] => diagnostics
  | directive :: rest =>
      match singleton_kind directive with
      | None => singletons_loop firsts rest diagnostics
      | Some kind =>
          match firsts !! kind with
          | Some first_span =>
              singletons_loop firsts rest
                (diagnostics ++ [duplicate_singleton kind (Directive_span directive) first_span])
          | None =>
              singletons_loop (<[kind := Directive_span directive]> firsts) rest diagnostics
          end
      end
  end.

Definition check_no_duplicate_singletons (stage : Stage) (diagnostics : list Diagnostic)
    : list Diagnostic :=
  singletons_loop ∅ (stage_directives stage) diagnostics.

Definition validate_stage (stage : Stage) (diagnostics : list Diagnostic) : list Diagnostic :=
  check_no_duplicate_singletons stage diagnostics.

Definition validate (ast : Ast) : list Diagnostic :=
  fold_left (fun diagnostics stage => validate_stage stage diagnostics) (stages ast)
    (check_stage_name_uniqueness ast []).

(** ** What it means

    Both loops report the repetitions of a key in a list of keyed spans, each
    against the first occurrence of its key. *)

Section repeats.
Context {K : Type} `{Countable K} {I : Type}.
Variables (key : I -> K) (at_ : I -> Span).

Definition first_of (k : K) (l : list I) : option Span :=
  at_ <$> List.find (fun i => bool_decide (key i = k)) l.

(** The items of [l] whose key occurs earlier, in [pre] or in [l], with the
    span of the earliest occurrence. *)
Fixpoint repeats (pre l : list I) : list (I * Span) :=
  match l with
  | [] => []
  | i :: rest =>
      match first_of (key i) pre with
      | Some sp => (i, sp) :: repeats (pre ++ [i]) rest
      | None => repeats (pre ++ [i]) rest
      end
  end.

Lemma first_of_snoc k pre i :
  first_of k (pre ++ [i])
  = match first_of k pre with
    | Some sp => Some sp
    | None => if bool_decide (key i = k) then Some (at_ i) else None
    end.
Proof.
  unfold first_of. induction pre as [|j pre IH]; cbn [List.find app].
  - by destruct (bool_decide _).
  - destruct (bool_decide (key j = k)); [done|apply IH].
Qed.

Lemma first_of_None k l : first_of k l = None <-> k ∉ (key <$> l).
Proof.
  unfold first_of. induction l as [|i l IH]; cbn [List.find fmap list_fmap].
  - split; [by intros _ ?%elem_of_nil|done].
  - rewrite not_elem_of_cons. case_bool_decide as E; simpl.
    + split; [done|]. intros [? _]. by subst.
    + rewrite IH. split; [intros ?; split; [congruence|done]|by intros [_ ?]].
Qed.

Lemma repeats_nil pre l :
  repeats pre l = [] <-> NoDup (key <$> l) /\ forall i, i ∈ l -> key i ∉ (key <$> pre).
Proof.
  revert pre. induction l as [|i l IH]; intros pre; cbn [repeats fmap list_fmap].
  { split; [|done]. intros _. split; [constructor|]. by intros i ?%elem_of_nil. }
  rewrite NoDup_cons. destruct (first_of (key i) pre) as [sp|] eqn:E.
  - split; [done|]. intros [_ Hp]. specialize (Hp i ltac:(left)). apply first_of_None in Hp. congruence.
  - apply first_of_None in E. rewrite IH. rewrite fmap_app. cbn [fmap list_fmap].
    split; intros (H1 & H2); split_and!.
    + intros (j & Hj & Hin)%list_elem_of_fmap. apply (H2 j Hin). rewrite <- Hj. set_solver.
    + apply H1.
    + intros j [->|Hj]%elem_of_cons; [done|]. specialize (H2 j Hj). set_solver.
    + apply H1.
    + intros j Hj. specialize (H2 j ltac:(by right)). rewrite not_elem_of_app. split; [done|].
      intros [Hk|?%elem_of_nil]%elem_of_cons; [|done]. destruct H1 as [H1 _]. apply H1. rewrite <- Hk.
      by apply list_elem_of_fmap_2.
Qed.

Lemma repeats_In pre l i sp :
  (i, sp) ∈ repeats pre l -> i ∈ l /\ exists j, j ∈ pre ++ l /\ sp = at_ j /\ key j = key i.
Proof.
  revert pre. induction l as [|x l IH]; intros pre; cbn [repeats]; [by intros ?%elem_of_nil|].
  assert (Hrest : (i, sp) ∈ repeats (pre ++ [x]) l ->
    i ∈ x :: l /\ exists j, j ∈ pre ++ x :: l /\ sp = at_ j /\ key j = key i).
  { intros (H1 & j & H2 & H3)%IH. split; [by right|]. exists j. split; [|done].
    by rewrite <- app_assoc in H2. }
  destruct (first_of (key x) pre) as [sp'|] eqn:E; [|done].
  intros [[= -> ->]|Hin]%elem_of_cons; [|by apply Hrest]. split; [left|].
  unfold first_of in E. destruct (List.find _ pre) as [j|] eqn:F; [|done]. injection E as <-.
  apply List.find_some in F as [F1 F2]. exists j. split_and!; [|done|by bools].
  apply elem_of_app. left. by apply list_elem_of_In.
Qed.
End repeats.

Definition names_of (ss : list Stage) : list (Spanned StageName) := omap stage_name ss.
Definition entrypoints_of (ds : list Directive) : list Directive :=
  filter (fun d => is_Some (singleton_kind d)) ds.

Definition name_key (n : Spanned StageName) : str := as_str (value n).

(** The map of the loop is the first-occurrence function of what it has seen. *)
Lemma stage_names_loop_spec ss : forall seen pre diags,
  (forall k, seen !! k = first_of name_key span k pre) ->
  stage_names_loop seen ss diags
  = diags ++ ((fun '(n, sp) => duplicate_stage_name n sp) <$> repeats name_key span pre (names_of ss)).
Proof.
  induction ss as [|s ss IH]; intros seen pre diags Hseen; cbn [stage_names_loop names_of omap list_omap].
  { by rewrite app_nil_r. }
  destruct (stage_name s) as [n|]; [|by apply IH]. fold (names_of ss). cbn [repeats].
  rewrite Hseen. change (as_str (value n)) with (name_key n).
  destruct (first_of name_key span (name_key n) pre) as [sp|] eqn:E.
  - rewrite (IH _ (pre ++ [n])); [by rewrite <- app_assoc|]. intros k. rewrite first_of_snoc, Hseen.
    destruct (first_of _ _ k pre) eqn:E'; [done|]. case_bool_decide; [congruence|done].
  - rewrite (IH _ (pre ++ [n])); [done|]. intros k. rewrite first_of_snoc.
    destruct (decide (name_key n = k)) as [<-|Hne].
    + rewrite lookup_insert_eq, E. by rewrite bool_decide_eq_true_2.
    + rewrite lookup_insert_ne, Hseen, bool_decide_eq_false_2 by done. by destruct (first_of _ _ k pre).
Qed.

Definition singleton_key (d : Directive) : SingletonKind :=
  default SingletonKind_Entrypoint (singleton_kind d).

Lemma singletons_loop_spec ds : forall firsts pre diags,
  (forall k, firsts !! k = first_of singleton_key Directive_span k pre) ->
  singletons_loop firsts ds diags
  = diags ++ ((fun '(d, sp) => duplicate_singleton (singleton_key d) (Directive_span d) sp)
              <$> repeats singleton_key Directive_span pre (entrypoints_of ds)).
Proof.
  induction ds as [|d ds IH]; intros firsts pre diags Hf; cbn [singletons_loop entrypoints_of].
  { by rewrite app_nil_r. }
  unfold entrypoints_of. rewrite filter_cons. fold (entrypoints_of ds).
  destruct (singleton_kind d) as [k|] eqn:Ek; cycle 1.
  { rewrite decide_False by (by intros [? ?]). by apply IH. }
  rewrite decide_True by done. assert (singleton_key d = k) as Hk by (unfold singleton_key; by rewrite Ek).
  cbn [repeats]. rewrite Hf, Hk. destruct (first_of _ _ k pre) as [sp|] eqn:E.
  - rewrite (IH _ (pre ++ [d])); [by rewrite <- app_assoc; cbn [fmap list_fmap]; rewrite Hk|].
    intros k'. rewrite first_of_snoc, Hf. destruct (first_of _ _ k' pre) eqn:E'; [done|].
    case_bool_decide; [congruence|done].
  - rewrite (IH _ (pre ++ [d])); [done|]. intros k'. rewrite first_of_snoc, Hk.
    destruct (decide (k = k')) as [<-|Hne].
    + rewrite lookup_insert_eq, E. by rewrite bool_decide_eq_true_2.
    + rewrite lookup_insert_ne, Hf, bool_decide_eq_false_2 by done. by destruct (first_of _ _ k' pre).
Qed.

(** The reports of a stage. *)
Definition stage_reports (s : Stage) : list Diagnostic :=
  (fun '(d, sp) => duplicate_singleton (singleton_key d) (Directive_span d) sp)
  <$> repeats singleton_key Directive_span [] (entrypoints_of (stage_directives s)).

Lemma validate_reports ast :
  validate ast
  = ((fun '(n, sp) => duplicate_stage_name n sp) <$> repeats name_key span [] (names_of (stages ast)))
    ++ concat (stage_reports <$> stages ast).
Proof.
  unfold validate, check_stage_name_uniqueness. rewrite (stage_names_loop_spec _ _ []); [|done].
  cbn [app]. generalize (repeats name_key span [] (names_of (stages ast))). intros r.
  generalize ((fun '(n, sp) => duplicate_stage_name n sp) <$> r). intros acc. clear r.
  revert acc. induction (stages ast) as [|s ss IH]; intros acc; cbn [fold_left fmap list_fmap concat].
  { by rewrite app_nil_r. }
  unfold validate_stage, check_no_duplicate_singletons.
  rewrite (singletons_loop_spec _ _ []); [|done]. rewrite IH, <- app_assoc. done.
Qed.

Lemma concat_nil_Forall {A} (l : list (list A)) : concat l = [] <-> Forall (eq []) l.
Proof.
  induction l as [|x l IH]; simpl; [split; [constructor|done]|].
  rewrite Forall_cons, <- IH. split; [by intros [-> ->]%app_eq_nil|by intros [<- ->]].
Qed.

Lemma entrypoints_unique l : NoDup (singleton_key <$> l) <-> length l <= 1.
Proof.
  assert (Hall : forall d d', singleton_key d = singleton_key d').
  { intros d d'. by destruct (singleton_key d), (singleton_key d'). }
  destruct l as [|a [|b l]]; cbn [fmap list_fmap length].
  - split; [lia|constructor].
  - split; [lia|intros _; apply NoDup_singleton].
  - split; [|lia]. rewrite NoDup_cons. intros [Hn _]. exfalso. apply Hn. rewrite (Hall a b). left.
Qed.

(** A structurally sound tree. *)
Definition names_unique (ast : Ast) : Prop := NoDup (name_key <$> names_of (stages ast)).
Definition one_entrypoint (s : Stage) : Prop := length (entrypoints_of (stage_directives s)) <= 1.

Lemma validate_nil ast :
  validate ast = [] <-> names_unique ast /\ Forall one_entrypoint (stages ast).
Proof.
  rewrite validate_reports. unfold names_unique. split.
  - intros [Hn Hs]%app_eq_nil. apply fmap_nil_inv in Hn. apply repeats_nil in Hn as [Hn _].
    split; [done|]. apply concat_nil_Forall in Hs. rewrite Forall_fmap in Hs. eapply Forall_impl; [exact Hs|].
    clear Hs. unfold compose. intros s Hs. symmetry in Hs. apply fmap_nil_inv in Hs. apply repeats_nil in Hs as [Hs _].
    by apply entrypoints_unique in Hs.
  - intros [Hn Hs]. apply app_nil. split.
    + rewrite (proj2 (repeats_nil name_key span [] _)); [done|]. split; [done|]. by intros ? _ ?%elem_of_nil.
    + apply concat_nil_Forall. rewrite Forall_fmap. eapply Forall_impl; [exact Hs|].
      clear Hs. intros s Hs.
      unfold compose, stage_reports. rewrite (proj2 (repeats_nil singleton_key Directive_span [] _)); [done|].
      split; [by apply entrypoints_unique|]. by intros ? _ ?%elem_of_nil.
Qed.

(** ** Properties *)

(** The pass accepts exactly the trees whose stage names are
    pairwise different and whose stages have at most one [ENTRYPOINT]. *)
Theorem validate_sound_complete ast :
  validate ast = [] <->
  NoDup (name_key <$> names_of (stages ast)) /\ Forall one_entrypoint (stages ast).
Proof. apply validate_nil. Qed.

(** Its reports are one per redeclaration, stage names first
    and in source order, then the extra [ENTRYPOINT]s stage by stage, each with
    a note at the earliest declaration of the same name (or the first
    [ENTRYPOINT] of the stage). *)
Theorem validate_exact ast :
  validate ast
  = ((fun '(n, sp) => duplicate_stage_name n sp) <$> repeats name_key span [] (names_of (stages ast)))
    ++ concat ((fun s => match entrypoints_of (stage_directives s) with
                         | [] => []
                         | first :: extra =>
                             (fun d => duplicate_singleton SingletonKind_Entrypoint (Directive_span d)
                                         (Directive_span first)) <$> extra
                         end) <$> stages ast).
Proof.
  rewrite validate_reports. f_equal. f_equal. apply list_fmap_ext. intros _ s _. unfold stage_reports.
  assert (Hone : forall d, singleton_key d = SingletonKind_Entrypoint) by (intros d; by destruct (singleton_key d)).
  destruct (entrypoints_of (stage_directives s)) as [|first extra]; [done|]. cbn [repeats].
  unfold first_of at 1. cbn [List.find fmap option_fmap option_map app].
  assert (Hgen : forall l pre, repeats singleton_key Directive_span (first :: pre) l
            = (fun d => (d, Directive_span first)) <$> l).
  { induction l as [|d l IH]; intros pre; cbn [repeats]; [done|]. unfold first_of.
    cbn [List.find]. rewrite bool_decide_eq_true_2 by (by rewrite !Hone).
    cbn [fmap option_fmap option_map list_fmap]. f_equal. apply (IH (pre ++ [d])). }
  rewrite Hgen, <- list_fmap_compose. apply list_fmap_ext. intros _ d _. simpl. by rewrite Hone.
Qed.
