(* ===== verification/Parse.v ===== *)
(** * Parse: the parsing pipeline (crates/umf-parser/src/lib.rs): size cap,
    scanner, grammar and semantic pass, composed. *)

From S2P Require Import Prelude RustStr RustStrFacts Subst Validation Identifiers Paths OciRef.
From S2P Require Import Ast Diagnostics Lexer Grammar GrammarFacts RecipeGrammar GrammarRefines RecipeRefines Validator.

(** ** The code *)

Definition MAX_SOURCE_BYTES : N := 8 * 1024 * 1024.

Definition oversized (len : N) : Diagnostic :=
  with_hint
    (error ("recipe is " ++ to_decimal len ++ " bytes, exceeding the " ++ to_decimal MAX_SOURCE_BYTES
            ++ "-byte parser limit")
       (mkAnnotation (mkSpan 0 1) "input exceeds the maximum recipe size"))
    "reduce the recipe size; this cap bounds memory against accidental or hostile oversized inputs".

Definition parse_with_warnings (source : str)
    : outcome (result (list Diagnostic) (Ast * list Diagnostic)) :=
  if (MAX_SOURCE_BYTES <? N.of_nat (length source))%N then
    Val (Err [oversized (N.of_nat (length source))])
  else
    '(tokens, diagnostics) ← tokenize source;
    r ← grammar_parse source tokens;
    match r with
    | Ok (ast, warnings) =>
        match diagnostics ++ validate ast with
        | [] => Val (Ok (ast, warnings))
        | diagnostics' => Val (Err diagnostics')
        end
    | Err parse_errors => Val (Err (diagnostics ++ parse_errors))
    end.

Definition parse (source : str) : outcome (result (list Diagnostic) Ast) :=
  r ← parse_with_warnings source;
  Val (match r with Ok (ast, _) => Ok ast | Err ds => Err ds end).

Example parse_ex :
  match parse ("FROM scratch AS a" ++ [lf] ++ "FROM b:1 AS a" ++ [lf]) with
  | Val (Err [d]) => (message d, primary d, notes d)
  | _ => ([], mkAnnotation (mkSpan 0 0) [], [])
  end = ("duplicate stage name `a`" : str, mkAnnotation (mkSpan 30 31) "redeclared here",
         [mkAnnotation (mkSpan 16 17) "first declared here"]).
Proof. vm_compute. reflexivity. Qed.

(** ** Lemmas *)

Lemma names_of_ok src ss n :
  Forall (stage_ok src) ss -> n ∈ names_of ss -> valid (value n) /\ span_in src (span n).
Proof.
  intros HF (s & Hs & Hn)%list_elem_of_omap. rewrite Forall_forall in HF.
  by apply (HF s Hs) in Hn.
Qed.

Lemma entrypoints_of_ok src ds d :
  Forall (directive_ok src) ds -> d ∈ entrypoints_of ds -> span_in src (Directive_span d).
Proof.
  intros HF [_ Hd]%list_elem_of_filter. rewrite Forall_forall in HF. by apply HF in Hd as [? _].
Qed.

(** The semantic pass points into the source. *)
Lemma validate_diagnostics src ast :
  Forall (stage_ok src) (stages ast) -> Forall (diagnostic_ok src Severity_Error) (validate ast).
Proof.
  intros HF. rewrite validate_reports. apply Forall_app. split; rewrite Forall_forall; intros d.
  - intros ([n sp] & -> & (Hn & j & Hj & -> & _)%repeats_In)%list_elem_of_fmap. simpl in *.
    destruct (names_of_ok _ _ _ HF Hn), (names_of_ok _ _ _ HF Hj). split_and!; [done|done|by apply Forall_singleton].
  - intros (l & (s & <- & Hs)%in_map_iff & Hd)%list_elem_of_In%in_concat.
    apply list_elem_of_In in Hs, Hd.
    rewrite Forall_forall in HF. destruct (HF s Hs) as (_ & _ & HD & _).
    apply list_elem_of_fmap in Hd as ([e sp] & -> & (Hn & j & Hj & -> & _)%repeats_In). simpl in *.
    pose proof (entrypoints_of_ok _ _ _ HD Hn). pose proof (entrypoints_of_ok _ _ _ HD Hj).
    split_and!; [done|done|by apply Forall_singleton].
Qed.

(** ** Properties *)

(** C1 (termination, type): on every UTF-8 recipe the pipeline returns; it
    never panics and never gets stuck.  What it accepts is a well-formed tree:
    every identifier, path, URL and reference satisfies its own validator, every
    span lies in the source, stage names are unique, stages have at most one
    [ENTRYPOINT], and the rest is warnings.  What it refuses comes with at least
    one diagnostic, and every one is an error that points into the source. *)
Theorem parse_with_warnings_total source :
  utf8 source ->
  exists r, parse_with_warnings source = Val r /\
    match r with
    | Ok (ast, warnings) =>
        (N.of_nat (length source) <= MAX_SOURCE_BYTES)%N
        /\ Forall (arg_ok source) (global_args ast) /\ Forall (stage_ok source) (stages ast)
        /\ NoDup (name_key <$> names_of (stages ast)) /\ Forall one_entrypoint (stages ast)
        /\ Forall (diagnostic_ok source Severity_Warning) warnings
    | Err ds => ds <> [] /\ Forall (diagnostic_ok source Severity_Error) ds
    end.
Proof.
  intros Hu. unfold parse_with_warnings. destruct (N.ltb_spec MAX_SOURCE_BYTES (N.of_nat (length source))) as [Hbig|Hle].
  { eexists. split; [done|]. split; [done|]. apply Forall_singleton. split_and!; [done| |done].
    split; simpl; unfold MAX_SOURCE_BYTES in Hbig; lia. }
  destruct (tokenize_grammar source Hu) as (toks & errs & -> & HT & HO & HE).
  destruct (grammar_parse_spec source toks Hu HT HO) as (r & Er & HR). simpl. rewrite Er. simpl.
  destruct r as [[ast ws]|es].
  - destruct HR as (HA & HS & HW). pose proof (validate_diagnostics source ast HS) as HV.
    destruct (errs ++ validate ast) as [|d ds] eqn:E.
    + apply app_eq_nil in E as [_ E]. apply validate_nil in E as [E1 E2].
      eexists. split; [done|]. by split_and!.
    + eexists. split; [done|]. split; [done|]. rewrite <- E. by apply Forall_app.
  - destruct HR as [Hne HF]. eexists. split; [done|]. split; [|by apply Forall_app].
    by intros [_ ?]%app_eq_nil.
Qed.

Lemma parse_with_warnings_total_witness :
  exists r, parse_with_warnings "FROM scratch" = Val r.
Proof.
  destruct (parse_with_warnings_total "FROM scratch") as (r & E & _); [by apply utf8_ascii|eauto].
Defined.

(** C2 (refinement): a conventional recipe, one without numeric users, keywords as
    keys after the first pair of a line, options unknown to its directive and
    words with a [#] inside, is accepted with a tree of at least one stage exactly
    when it is within the size cap, it is a text of the recipe language, and the tree it
    derives is structurally sound: stage names are unique and no stage has two
    [ENTRYPOINT]s.  The tree and the warnings are then the derived ones. *)
Theorem parse_with_warnings_accepts source toks errs ast warnings :
  utf8 source -> tokenize source = Val (toks, errs) -> conventional toks = true -> stages ast <> [] ->
  (parse_with_warnings source = Val (Ok (ast, warnings)) <->
   (N.of_nat (length source) <= MAX_SOURCE_BYTES)%N
   /\ language source ast warnings /\ names_unique ast /\ Forall one_entrypoint (stages ast)).
Proof.
  intros Hu ET _ _. unfold parse_with_warnings.
  destruct (N.ltb_spec MAX_SOURCE_BYTES (N.of_nat (length source))) as [Hbig|Hle].
  { split; [done|]. intros [? _]. lia. }
  destruct (tokenize_grammar source Hu) as (toks' & errs' & ET' & HT & HO & _). rewrite ET in ET'. injection ET' as <- <-. rewrite ET. simpl.
  destruct (grammar_parse_spec source toks Hu HT HO) as (r & Er & _). rewrite Er. simpl. split.
  - destruct r as [[ast' ws]|es]; [|done]. destruct (errs ++ validate ast') as [|d ds] eqn:E; [|done].
    apply app_eq_nil in E as [-> E]. intros [= -> ->]. split; [done|]. split; [|by apply validate_nil].
    exists toks. split; [by apply tokenize_lexes|]. by eapply grammar_parse_tokens.
  - intros (_ & (toks' & HL & HG) & HV). apply (tokenize_lexes source toks' Hu) in HL. rewrite ET in HL.
    injection HL as -> ->. apply (grammar_parse_tokens _ _ _ _ _ Hu ET) in HG. rewrite Er in HG.
    injection HG as ->. simpl. by rewrite (proj2 (validate_nil ast) HV).
Qed.

Lemma parse_with_warnings_accepts_witness :
  language scratch_src scratch_ast [] /\ names_unique scratch_ast.
Proof.
  destruct (proj1 (parse_with_warnings_accepts scratch_src scratch_toks [] scratch_ast []
         ltac:(by apply utf8_ascii) ltac:(vm_compute; reflexivity) ltac:(vm_compute; reflexivity) ltac:(discriminate))
         ltac:(vm_compute; reflexivity)) as (_ & HL & HN & _).
  by split.
Defined.
