(* ===== verification/ArgScope.v ===== *)
(** * ArgScope: the build-time [ARG] scope (crates/umf-builder/src/arg_subst.rs).

    The source's [BTreeMap<String, String>]s are finite maps: only lookups and
    insertions are used, never the iteration order. *)

From S2P Require Import Prelude RustStr RustStrFacts Subst Validation Identifiers Paths OciRef Ast.

(** ** The code *)

Abbreviation scope := (gmap str str).

(** [Option::or_else]. *)
Definition or_else {A} (o : option A) (f : option A) : option A :=
  match o with Some a => Some a | None => f end.

Definition arg_name_str (arg : Arg) : str := as_str (value (arg_name arg)).
Definition arg_default_str (arg : Arg) : option str := (fun d => as_str (value d)) <$> arg_default arg.

Definition apply_arg_to_scope (sc : scope) (arg : Arg) (build_args : scope) : scope :=
  let name := arg_name_str arg in
  let value := or_else (or_else (build_args !! name) (arg_default_str arg)) (sc !! name) in
  match value with
  | Some v => <[name := v]> sc
  | None => sc
  end.

Definition resolve_global_args (ast : Ast) (build_args : scope) : scope :=
  fold_left (fun sc arg => apply_arg_to_scope sc arg build_args) (global_args ast) ∅.

Definition subst_with (sc : scope) (text : str) : str := substitute (fun n => sc !! n) text.

(** ** What it means *)

(** The declarations of [n], in order. *)
Definition declarations (n : str) (args : list Arg) : list Arg :=
  filter (fun a => arg_name_str a = n) args.

(** The default of the last declaration that has one. *)
Definition last_default (n : str) (args : list Arg) : option str :=
  last (omap arg_default_str (declarations n args)).

(** The value of [n] after [args], over a scope [base] the declarations extend. *)
Definition resolved (build_args base : scope) (args : list Arg) (n : str) : option str :=
  if decide (declarations n args = []) then base !! n
  else or_else (or_else (build_args !! n) (last_default n args)) (base !! n).

Lemma last_omap_snoc {A B} (f : A -> option B) l x :
  last (omap f (l ++ [x])) = or_else (f x) (last (omap f l)).
Proof.
  rewrite omap_app. simpl. destruct (f x) as [y|]; simpl; [by rewrite last_snoc|by rewrite app_nil_r].
Qed.

Lemma declarations_snoc n args a :
  declarations n (args ++ [a])
  = declarations n args ++ (if decide (arg_name_str a = n) then [a] else []).
Proof. unfold declarations. rewrite filter_app, filter_cons. by case_decide. Qed.

Lemma apply_lookup sc a ba n :
  apply_arg_to_scope sc a ba !! n
  = if decide (arg_name_str a = n)
    then or_else (or_else (ba !! n) (arg_default_str a)) (sc !! n) else sc !! n.
Proof.
  unfold apply_arg_to_scope. case_decide as E.
  - rewrite <- E. destruct (or_else (or_else _ _) (sc !! _)) as [v|] eqn:Ev.
    + by rewrite lookup_insert_eq.
    + unfold or_else in Ev. by repeat case_match.
  - destruct (or_else _ _); [|done]. by rewrite lookup_insert_ne.
Qed.

Lemma fold_args_lookup ba base args n :
  fold_left (fun sc arg => apply_arg_to_scope sc arg ba) args base !! n = resolved ba base args n.
Proof.
  induction args as [|a args IH] using rev_ind; [done|].
  rewrite fold_left_app. cbn [fold_left]. rewrite apply_lookup, IH. unfold resolved, last_default.
  rewrite declarations_snoc. destruct (decide (arg_name_str a = n)) as [E|E].
  - rewrite (decide_False (P := _ ++ _ = [])) by (by intros [_ ?]%app_eq_nil).
    rewrite last_omap_snoc. destruct (decide (declarations n args = [])) as [->|].
    + simpl. by destruct (ba !! n), (arg_default_str a), (base !! n).
    + generalize (last (omap arg_default_str (declarations n args))). intros d.
      unfold or_else. by destruct (ba !! n), (arg_default_str a), d, (base !! n).
  - by rewrite app_nil_r.
Qed.

(** ** Properties *)

(** One [ARG] sets its own name only, to the [--build-arg]
    override, else its default, else the value in scope; with none of the three
    the scope is unchanged. *)
Theorem apply_arg_to_scope_exact sc a ba :
  (forall n, n <> arg_name_str a -> apply_arg_to_scope sc a ba !! n = sc !! n)
  /\ apply_arg_to_scope sc a ba !! arg_name_str a
     = match ba !! arg_name_str a, arg_default_str a with
       | Some v, _ => Some v
       | None, Some v => Some v
       | None, None => sc !! arg_name_str a
       end.
Proof.
  split.
  - intros n Hn. rewrite apply_lookup. by rewrite decide_False.
  - rewrite apply_lookup, decide_True by done. by destruct (ba !! _), (arg_default_str a).
Qed.

(** The build-global scope in closed form.  A name is in it
    exactly when it is declared before [FROM] and has an override or a default
    in one of its declarations; the override wins whatever the order, and
    otherwise the last declared default.  An override for a name that is not
    declared is ignored. *)
Theorem resolve_global_args_exact ast ba n :
  resolve_global_args ast ba !! n
  = if decide (n ∈ (arg_name_str <$> global_args ast))
    then match ba !! n with Some v => Some v | None => last_default n (global_args ast) end
    else None.
Proof.
  unfold resolve_global_args. rewrite fold_args_lookup. unfold resolved. rewrite lookup_empty.
  assert (declarations n (global_args ast) = [] <-> n ∉ (arg_name_str <$> global_args ast)) as HD.
  { unfold declarations. induction (global_args ast) as [|a l IH]; [set_solver|].
    rewrite filter_cons. cbn [fmap list_fmap]. rewrite not_elem_of_cons, <- IH. case_decide; set_solver. }
  destruct (decide (n ∈ _)) as [Hin|Hin].
  - rewrite decide_False by (by rewrite HD; intros ?). by destruct (ba !! n), (last_default n _).
  - by rewrite decide_True by (by apply HD).
Qed.

(** A recipe text expanded in the scope of a stage (the
    build-global scope extended by the [ARG]s before it) is the declarative
    expansion in which each reference has the value the precedence rules give
    its name; names with no value stay verbatim. *)
Theorem subst_with_scope_refines ast ba stage_args text :
  utf8 text ->
  let stage_scope :=
    fold_left (fun sc arg => apply_arg_to_scope sc arg ba) stage_args (resolve_global_args ast ba) in
  forall t, subst_with stage_scope text = t
    <-> expands (resolved ba (resolve_global_args ast ba) stage_args) text t.
Proof.
  intros Hu stage_scope t.
  assert (Hs : expands (fun n => stage_scope !! n) text (subst_with stage_scope text))
    by (by apply substitute_expands).
  split.
  - intros <-. eapply expands_ext; [|exact Hs]. intros n. apply fold_args_lookup.
  - intros Ht. eapply expands_det; [exact Hs|]. eapply expands_ext; [|exact Ht].
    intros n. symmetry. apply fold_args_lookup.
Qed.

Definition example_arg (n d : str) : Arg :=
  {| arg_name := mkSpanned {| EnvVarName_0 := n |} (mkSpan 0 0);
     arg_default := Some (mkSpanned {| EnvVarValue_0 := d |} (mkSpan 0 0)); arg_span := mkSpan 0 0 |}.

Lemma subst_with_scope_refines_witness :
  expands (resolved {["V" : str := "2" : str]}
             (resolve_global_args {| global_args := [example_arg "V" "1"; example_arg "W" "x"]; stages := [] |}
                {["V" : str := "2" : str]}) [example_arg "W" "y"])
    "${V}-$W-$U" "2-y-$U".
Proof.
  apply (subst_with_scope_refines _ _ _ "${V}-$W-$U"); [apply utf8_ascii; reflexivity|].
  vm_compute. reflexivity.
Defined.
