(* ===== verification/Image.v ===== *)
(** * Image: the image configuration a build produces
    (crates/umf-oci/src/image/mod.rs and serde.rs).

    Archives, compression and JSON are other crates' code: the functions that
    need them take them as arguments. *)

From S2P Require Import Prelude RustStr Target.

(** ** Layers *)

Inductive LayerCompression := LayerCompression_Gzip | LayerCompression_Zstd.

Definition media_type (c : LayerCompression) : str :=
  match c with
  | LayerCompression_Gzip => "application/vnd.oci.image.layer.v1.tar+gzip"
  | LayerCompression_Zstd => "application/vnd.oci.image.layer.v1.tar+zstd"
  end.

Record LayerSource := { layer_data : str; layer_media_type : str; layer_diff_id : str }.

Definition is_oci_layer_media_type (m : str) : bool :=
  bool_decide (m = "application/vnd.oci.image.layer.v1.tar")
  || bool_decide (m = "application/vnd.oci.image.layer.v1.tar+gzip")
  || bool_decide (m = "application/vnd.oci.image.layer.v1.tar+zstd")
  || bool_decide (m = "application/vnd.docker.image.rootfs.diff.tar.gzip").

(** [sha256_digest] of registry/layout.rs. *)
Definition sha256_digest (sha256_hex : str -> str) (data : str) : str := "sha256:" ++ sha256_hex data.

Section layers.
Context {E : Type} (sha256_hex : str -> str) (compress : LayerCompression -> str -> result E str).

(** [LayerSource::from_directory_with], given the archive of the directory. *)
Definition layer_of_tar (tar_bytes : str) (c : LayerCompression) : result E LayerSource :=
  let diff_id := sha256_digest sha256_hex tar_bytes in
  data ← compress c tar_bytes;
  Ok {| layer_data := data; layer_media_type := media_type c; layer_diff_id := diff_id |}.

(** [LayerSource::normalized], given the decoder of the archive. *)
Definition normalized (decode : str -> result E str) (l : LayerSource) (c : LayerCompression)
    : result E LayerSource :=
  if is_oci_layer_media_type (layer_media_type l) then Ok l
  else
    tar_bytes ← decode (layer_data l);
    layer_of_tar tar_bytes c.
End layers.

(** ** Configuration *)

Record HistoryEntry := {
  history_created : option str;
  history_created_by : option str;
  history_author : option str;
  history_comment : option str;
  history_empty_layer : bool
}.

Record ContainerConfig := {
  cc_user : option str;
  cc_env : list str;
  cc_entrypoint : option (list str);
  cc_cmd : option (list str);
  cc_working_dir : option str;
  cc_exposed_ports : list str;
  cc_volumes : list str;
  cc_stop_signal : option str;
  cc_labels : gmap str str
}.

Definition ContainerConfig_default : ContainerConfig :=
  {| cc_user := None; cc_env := []; cc_entrypoint := None; cc_cmd := None; cc_working_dir := None;
     cc_exposed_ports := []; cc_volumes := []; cc_stop_signal := None; cc_labels := ∅ |}.

Record ImageConfig := {
  ic_architecture : str;
  ic_os : str;
  ic_created : option str;
  ic_author : option str;
  ic_container : ContainerConfig;
  ic_history : list HistoryEntry;
  ic_umf_type : L0Kind;
  ic_umf_spec : option str
}.

Definition ImageConfig_default : ImageConfig :=
  {| ic_architecture := "amd64"; ic_os := "linux"; ic_created := None; ic_author := None;
     ic_container := ContainerConfig_default; ic_history := []; ic_umf_type := L0Kind_Container;
     ic_umf_spec := None |}.

(** ** The emitted document *)

Record OciDescriptor := { desc_media_type : str; desc_digest : str; desc_size : Z; desc_annotations : option (gmap str str) }.

(** The parts of the OCI image-config document that [emit_image] computes. *)
Record OciImageConfigDoc := {
  doc_architecture : str;
  doc_os : str;
  doc_created : option str;
  doc_author : option str;
  doc_config : ContainerConfig;
  doc_exposed_ports : gset str;
  doc_volumes : gset str;
  doc_diff_ids : list str;
  doc_history : list HistoryEntry
}.

Definition set_labels (f : gmap str str -> gmap str str) (c : ContainerConfig) : ContainerConfig :=
  {| cc_user := cc_user c; cc_env := cc_env c; cc_entrypoint := cc_entrypoint c; cc_cmd := cc_cmd c;
     cc_working_dir := cc_working_dir c; cc_exposed_ports := cc_exposed_ports c; cc_volumes := cc_volumes c;
     cc_stop_signal := cc_stop_signal c; cc_labels := f (cc_labels c) |}.

Definition final_labels (config : ImageConfig) : gmap str str :=
  <[SPEC_VERSION := default CURRENT_SPEC_VERSION (ic_umf_spec config)]>
  (<[TYPE := L0Kind_fmt (ic_umf_type config)]> (cc_labels (ic_container config))).

Definition config_doc (layers : list LayerSource) (config : ImageConfig) : OciImageConfigDoc :=
  {| doc_architecture := ic_architecture config; doc_os := ic_os config; doc_created := ic_created config;
     doc_author := ic_author config;
     doc_config := set_labels (fun _ => final_labels config) (ic_container config);
     doc_exposed_ports := list_to_set (cc_exposed_ports (ic_container config));
     doc_volumes := list_to_set (cc_volumes (ic_container config));
     doc_diff_ids := layer_diff_id <$> layers;
     doc_history := ic_history config |}.

Definition layer_descriptors (sha256_hex : str -> str) (layers : list LayerSource) : list OciDescriptor :=
  (fun l => {| desc_media_type := layer_media_type l;
               desc_digest := sha256_digest sha256_hex (layer_data l);
               desc_size := Z.of_nat (length (layer_data l)); desc_annotations := None |}) <$> layers.
