(* ===== verification/Json.v ===== *)
(** * Json: the document model of serde_json, as far as the OCI code reads it. *)

From S2P Require Import Prelude RustStr.

(** [serde_json::Value]. *)
#[local] Unset Elimination Schemes.
Inductive Value :=
| Value_Null
| Value_Bool (b : bool)
| Value_Number (text : str)
| Value_String (s : str)
| Value_Array (l : list Value)
| Value_Object (members : gmap str Value).
#[local] Set Elimination Schemes.

(** [Value::get], [as_str], [as_array] and [as_object]. *)
Definition get (key : str) (v : Value) : option Value :=
  match v with Value_Object ms => ms !! key | _ => None end.
Definition value_str (v : Value) : option str := match v with Value_String s => Some s | _ => None end.
Definition value_array (v : Value) : option (list Value) := match v with Value_Array l => Some l | _ => None end.
Definition value_object (v : Value) : option (gmap str Value) :=
  match v with Value_Object ms => Some ms | _ => None end.
