(* ===== verification/Layout.v ===== *)
(** * Layout: the on-disk OCI image layout (crates/umf-oci/src/registry/layout.rs).

    The layout directory is a record: the files of [blobs/sha256], the entries of
    [index.json], and the sizes of the files and subtrees of the two side caches.
    File operations succeed; the parser of manifests (oci-client) is a parameter. *)

From S2P Require Import Prelude RustStr Image Json.

(** ** Errors (registry/error.rs) *)

(** [Io] of a missing file apart from other I/O errors, and the two messages of
    [MalformedDigest] as two constructors. *)
Inductive RegistryError :=
| RegistryError_Distribution (message : str)
| RegistryError_Reference (message : str)
| RegistryError_IoNotFound
| RegistryError_Io (message : str)
| RegistryError_Json (message : str)
| RegistryError_DigestMismatch (expected found : str)
| RegistryError_InvalidLayout (message : str)
| RegistryError_NotFound (reference : str)
| RegistryError_MalformedDigest (digest : str)
| RegistryError_UnsupportedAlgorithm (algo : str)
| RegistryError_BadVariant (variant : str)
| RegistryError_InvalidMediaType (media : str)
| RegistryError_Erofs (message : str).

#[export] Instance RegistryError_eq_dec : EqDecision RegistryError.
Proof. solve_decision. Defined.

(** ** Documents (oci-client's manifest types) *)

Record Platform := { platform_os : str; platform_architecture : str; platform_variant : option str }.

Record ImageIndexEntry := {
  ie_media_type : str;
  ie_digest : str;
  ie_size : Z;
  ie_platform : option Platform;
  ie_annotations : option (gmap str str)
}.

Record OciImageManifest := {
  mf_config : OciDescriptor;
  mf_layers : list OciDescriptor;
  mf_subject : option OciDescriptor;
  mf_artifact_type : option str;
  mf_annotations : option (gmap str str)
}.

Inductive OciManifest :=
| OciManifest_Image (m : OciImageManifest)
| OciManifest_ImageIndex (manifests : list ImageIndexEntry).

Record ReferrerDescriptor := {
  rd_media_type : str;
  rd_digest : str;
  rd_size : Z;
  rd_artifact_type : option str;
  rd_annotations : option (gmap str str)
}.

Definition OCI_IMAGE_MEDIA_TYPE : str := "application/vnd.oci.image.manifest.v1+json".
Definition REF_NAME_ANNOTATION : str := "org.opencontainers.image.ref.name".

(** ** The layout *)

Record ImageLayout := {
  blobs : gmap str str;
  index : list ImageIndexEntry;
  erofs_cache : gmap str N;
  block_cache : gmap str N
}.

Definition with_blobs (b : gmap str str) (L : ImageLayout) : ImageLayout :=
  {| blobs := b; index := index L; erofs_cache := erofs_cache L; block_cache := block_cache L |}.
(** [write_index]. *)
Definition write_index (ix : list ImageIndexEntry) (L : ImageLayout) : ImageLayout :=
  {| blobs := blobs L; index := ix; erofs_cache := erofs_cache L; block_cache := block_cache L |}.
Definition with_erofs_cache (c : gmap str N) (L : ImageLayout) : ImageLayout :=
  {| blobs := blobs L; index := index L; erofs_cache := c; block_cache := block_cache L |}.
Definition with_block_cache (c : gmap str N) (L : ImageLayout) : ImageLayout :=
  {| blobs := blobs L; index := index L; erofs_cache := erofs_cache L; block_cache := c |}.

Definition is_nil {A} (l : list A) : bool := match l with [] => true | _ => false end.

Definition split_digest (digest : str) : result RegistryError (str * str) :=
  match split_once ":" digest with
  | Some (algo, hex) =>
      if negb (is_nil algo) && negb (is_nil hex) && forallb is_ascii_hexdigit hex then
        if bool_decide (algo = "sha256") then Ok (algo, hex) else Err (RegistryError_UnsupportedAlgorithm algo)
      else Err (RegistryError_MalformedDigest digest)
  | None => Err (RegistryError_MalformedDigest digest)
  end.

(** The file names the paths end in; [blob_path] is [blobs/sha256/<name>]. *)
Definition blob_path (digest : str) : result RegistryError str :=
  '(_, hex) ← split_digest digest; Ok hex.
Definition erofs_cache_path (layer_digest : str) : result RegistryError str :=
  '(_, hex) ← split_digest layer_digest; Ok (hex ++ ".erofs").
Definition block_cache_path (image_digest variant : str) : result RegistryError (str * str) :=
  '(_, hex) ← split_digest image_digest;
  if is_nil variant || negb (forallb is_ascii_hexdigit variant) then Err (RegistryError_BadVariant variant)
  else Ok (hex, variant ++ ".img").

Definition ref_name_of (e : ImageIndexEntry) : option str :=
  ie_annotations e ≫= fun a => a !! REF_NAME_ANNOTATION.

Definition annotate (ref_name : str) (e : ImageIndexEntry) : ImageIndexEntry :=
  {| ie_media_type := ie_media_type e; ie_digest := ie_digest e; ie_size := ie_size e; ie_platform := ie_platform e;
     ie_annotations := Some (<[REF_NAME_ANNOTATION := ref_name]> (default ∅ (ie_annotations e))) |}.

Definition upsert_ref (ref_name : str) (e : ImageIndexEntry) (L : ImageLayout) : ImageLayout :=
  write_index (filter (fun x => ref_name_of x <> Some ref_name) (index L) ++ [annotate ref_name e]) L.

Definition layout_lookup_ref (L : ImageLayout) (ref_name : str) : option ImageIndexEntry :=
  snd <$> list_find (fun e => ref_name_of e = Some ref_name) (index L).

Definition list_refs (L : ImageLayout) : list (str * ImageIndexEntry) :=
  omap (fun e => (fun n => (n, e)) <$> ref_name_of e) (index L).

Definition remove_ref (ref_name : str) (L : ImageLayout) : bool * ImageLayout :=
  let kept := filter (fun x => ref_name_of x <> Some ref_name) (index L) in
  let removed := negb (bool_decide (length (index L) = length kept)) in
  (removed, if removed then write_index kept L else L).

Definition upsert_untagged (e : ImageIndexEntry) (L : ImageLayout) : ImageLayout :=
  write_index (filter (fun x => ~ (ref_name_of x = None /\ ie_digest x = ie_digest e)) (index L) ++ [e]) L.

Section layout.
Context (sha256_hex : str -> str) (parse_manifest : str -> option OciManifest) (parse_json : str -> option Value).

Notation digest_of := (sha256_digest sha256_hex).

Definition has_blob (L : ImageLayout) (digest : str) : bool :=
  match blob_path digest with Ok name => bool_decide (is_Some (blobs L !! name)) | Err _ => false end.

Definition read_blob (L : ImageLayout) (digest : str) : result RegistryError str :=
  name ← blob_path digest;
  bytes ← ok_or (blobs L !! name) RegistryError_IoNotFound;
  let computed := digest_of bytes in
  if bool_decide (computed = digest) then Ok bytes else Err (RegistryError_DigestMismatch digest computed).

Definition write_blob_with_digest (data expected : str) (L : ImageLayout) : result RegistryError ImageLayout :=
  let computed := digest_of data in
  if bool_decide (computed = expected) then
    dest ← blob_path expected;
    match blobs L !! dest with
    | Some _ => Ok L
    | None => Ok (with_blobs (<[dest := data]> (blobs L)) L)
    end
  else Err (RegistryError_DigestMismatch expected computed).

Definition write_blob (data : str) (L : ImageLayout) : result RegistryError (str * ImageLayout) :=
  let digest := digest_of data in
  L ← write_blob_with_digest data digest L;
  Ok (digest, L).

(** *** Referrers *)

Definition referrer (L : ImageLayout) (subject_digest : str) (artifact_type : option str) (e : ImageIndexEntry)
    : option ReferrerDescriptor :=
  if negb (bool_decide (ie_media_type e = OCI_IMAGE_MEDIA_TYPE)) then None
  else
    match read_blob L (ie_digest e) with
    | Err _ => None
    | Ok bytes =>
        match parse_manifest bytes with
        | Some (OciManifest_Image m) =>
            if negb (bool_decide (desc_digest <$> mf_subject m = Some subject_digest)) then None
            else if match artifact_type with
                    | Some filter => negb (bool_decide (mf_artifact_type m = Some filter))
                    | None => false
                    end then None
            else Some {| rd_media_type := ie_media_type e; rd_digest := ie_digest e; rd_size := ie_size e;
                         rd_artifact_type := mf_artifact_type m; rd_annotations := mf_annotations m |}
        | _ => None
        end
    end.

Definition list_referrers (L : ImageLayout) (subject_digest : str) (artifact_type : option str)
    : list ReferrerDescriptor := omap (referrer L subject_digest artifact_type) (index L).

(** *** Garbage collection *)

(** Runs a walk over a list, threading the set it collects. *)
Fixpoint walk_all {X} (f : str -> X -> outcome (result RegistryError X)) (ds : list str) (out : X)
    : outcome (result RegistryError X) :=
  match ds with
  | [] => Val (Ok out)
  | d :: ds =>
      r ← f d out;
      match r with
      | Ok out => walk_all f ds out
      | Err e => Val (Err e)
      end
  end.

Definition image_blobs (m : OciImageManifest) : list str := desc_digest (mf_config m) :: (desc_digest <$> mf_layers m).

Fixpoint collect_reachable (fuel : nat) (L : ImageLayout) (digest : str) (out : gset str)
    : outcome (result RegistryError (gset str)) :=
  match fuel with
  | 0 => OutOfFuel
  | S fuel =>
      if decide (digest ∈ out) then Val (Ok out)
      else
        let out := {[digest]} ∪ out in
        match read_blob L digest with
        | Err RegistryError_IoNotFound => Val (Ok out)
        | Err e => Val (Err e)
        | Ok bytes =>
            match parse_manifest bytes with
            | None => Val (Ok out)
            | Some (OciManifest_Image m) => Val (Ok (list_to_set (image_blobs m) ∪ out))
            | Some (OciManifest_ImageIndex es) => walk_all (collect_reachable fuel L) (ie_digest <$> es) out
            end
        end
  end.

(** One level for each blob, and two for the digests that are not. *)
Definition walk_fuel (L : ImageLayout) : nat := 2 + size (blobs L).

Definition reachable_set (L : ImageLayout) : outcome (result RegistryError (gset str)) :=
  walk_all (collect_reachable (walk_fuel L) L) (ie_digest <$> index L) ∅.

(** [prune_dir]: drops the entries whose key is not live; how many and how large.
    Removing an entry may fail ([removes] says of which it does not): then it stays and is not
    counted. *)
Definition dead (key_of : str -> option str) (is_live : str -> bool) (name : str) : bool :=
  match key_of name with Some k => negb (is_live k) | None => false end.

Definition prune_dir {A} (removes : str -> bool) (size_of : A -> N) (key_of : str -> option str) (is_live : str -> bool) (files : gmap str A)
    : gmap str A * (nat * N) :=
  let gone name := dead key_of is_live name && removes name in
  let removed := filter (fun f => gone f.1 = true) (map_to_list files) in
  (filter (fun f => gone f.1 = false) files,
   (length removed, foldr (fun f n => size_of f.2 + n)%N 0%N removed)).

Definition sha256_key (name : str) : option str := Some ("sha256:" ++ name).

Definition prune_blobs (removes : str -> bool) (L : ImageLayout) : outcome (result RegistryError (nat * N) * ImageLayout) :=
  r ← reachable_set L;
  match r with
  | Err e => Val (Err e, L)
  | Ok reachable =>
      let '(kept, n) := prune_dir removes (fun b => N.of_nat (length b)) sha256_key (fun d => bool_decide (d ∈ reachable)) (blobs L) in
      Val (Ok n, with_blobs kept L)
  end.

(** [rootfs.diff_ids] of an image config. *)
Definition diff_id_values (raw : Value) : option (list Value) :=
  rootfs ← get "rootfs" raw; ids ← get "diff_ids" rootfs; value_array ids.

(** [collect_reachable_diff_ids]: no set of visited digests. *)
Fixpoint collect_reachable_diff_ids (fuel : nat) (L : ImageLayout) (digest : str) (out : gset str)
    : outcome (result RegistryError (gset str)) :=
  match fuel with
  | 0 => OutOfFuel
  | S fuel =>
      match read_blob L digest with
      | Err _ => Val (Ok out)
      | Ok bytes =>
          match parse_manifest bytes with
          | None => Val (Ok out)
          | Some (OciManifest_Image m) =>
              match read_blob L (desc_digest (mf_config m)) with
              | Err _ => Val (Ok out)
              | Ok cfg_bytes =>
                  match (cfg ← parse_json cfg_bytes; diff_id_values cfg) with
                  | Some ids => Val (Ok (list_to_set (omap value_str ids) ∪ out))
                  | None => Val (Ok out)
                  end
              end
          | Some (OciManifest_ImageIndex es) => walk_all (collect_reachable_diff_ids fuel L) (ie_digest <$> es) out
          end
      end
  end.


Definition erofs_key (name : str) : option str := (fun h => "sha256:" ++ h) <$> strip_suffix ".erofs" name.

Definition prune_erofs_cache (removes : str -> bool) (fuel : nat) (L : ImageLayout) : outcome (result RegistryError (nat * N) * ImageLayout) :=
  r ← walk_all (collect_reachable_diff_ids fuel L) (ie_digest <$> index L) ∅;
  match r with
  | Err e => Val (Err e, L)
  | Ok reachable =>
      let '(kept, n) := prune_dir removes (fun s => s) erofs_key (fun d => bool_decide (d ∈ reachable)) (erofs_cache L) in
      Val (Ok n, with_erofs_cache kept L)
  end.

Definition prune_block_cache (removes : str -> bool) (L : ImageLayout) : (nat * N) * ImageLayout :=
  let live : gset str := list_to_set (ie_digest <$> index L) in
  let '(kept, n) := prune_dir removes (fun s => s) sha256_key (fun d => bool_decide (d ∈ live)) (block_cache L) in
  (n, with_block_cache kept L).

Definition image_disk_size (L : ImageLayout) (digest : str) : outcome (result RegistryError N) :=
  r ← collect_reachable (walk_fuel L) L digest ∅;
  match r with
  | Err e => Val (Err e)
  | Ok reachable =>
      Val (Ok (foldr (fun d n => match blob_path d with
                                 | Ok name => match blobs L !! name with
                                              | Some b => N.of_nat (length b) + n
                                              | None => n
                                              end
                                 | Err _ => n
                                 end)%N 0%N (elements reachable)))
  end.
End layout.
