(* ===== verification/LayoutFacts.v ===== *)
(** * LayoutFacts: correctness of the image layout: content addressing, references
    and garbage collection. *)

From S2P Require Import Prelude RustStr RustStrFacts Image Json Layout.

(** ** Digests *)

Definition hex_name (s : str) : Prop := s <> [] /\ forallb is_ascii_hexdigit s = true.

Lemma split_digest_sha256 h : hex_name h -> split_digest ("sha256:" ++ h) = Ok ("sha256" : str, h).
Proof.
  intros [Hn Hx]. unfold split_digest, split_once.
  change (find_byte ":" ("sha256:" ++ h)) with (Some 6). cbn [take drop app bytes_of].
  change (drop 7 ("sha256:" ++ h)) with h. change (take 6 ("sha256:" ++ h)) with ("sha256" : str). rewrite Hx.
  destruct h; [done|]. reflexivity.
Qed.

Lemma split_once_inv c s a b : split_once c s = Some (a, b) -> s = a ++ c :: b.
Proof.
  unfold split_once. destruct (find_byte c s) as [i|] eqn:E; [|done]. intros [= <- <-].
  apply find_byte_Some in E as [E _]. symmetry. by apply take_drop_middle.
Qed.

Lemma split_digest_inv d a h : split_digest d = Ok (a, h) -> a = "sha256" /\ d = "sha256:" ++ h /\ hex_name h.
Proof.
  unfold split_digest. destruct (split_once ":" d) as [[a' h']|] eqn:E; [|done].
  destruct (negb (is_nil a') && negb (is_nil h') && forallb is_ascii_hexdigit h') eqn:Ec; [|done].
  case_bool_decide as Ha; [|done]. intros [= <- <-]. subst a'. bools. apply split_once_inv in E. split; [done|].
  split; [done|]. split; [by intros ->|done].
Qed.

Lemma blob_path_inv d name : blob_path d = Ok name <-> d = "sha256:" ++ name /\ hex_name name.
Proof.
  unfold blob_path. split.
  - intros ([a h] & (_ & -> & Hh)%split_digest_inv & [= <-])%bind_Ok. done.
  - intros [-> Hh]. by rewrite split_digest_sha256.
Qed.

Section facts.
Implicit Types (L : ImageLayout) (out : gset str).
Context (sha256_hex : str -> str) (parse_manifest : str -> option OciManifest).

Notation digest_of := (sha256_digest sha256_hex).
Notation read_blob := (read_blob sha256_hex).
Notation write_blob := (write_blob sha256_hex).
Notation write_blob_with_digest := (write_blob_with_digest sha256_hex).
Notation collect_reachable := (collect_reachable sha256_hex parse_manifest).
Notation reachable_set := (reachable_set sha256_hex parse_manifest).
Notation prune_blobs := (prune_blobs sha256_hex parse_manifest).

(** ** Content addressing *)

(** Every blob is stored under the hash of its bytes. *)
Definition addressed (L : ImageLayout) : Prop := map_Forall (fun name bytes => sha256_hex bytes = name) (blobs L).

Lemma read_blob_Ok L d bytes :
  read_blob L d = Ok bytes -> digest_of bytes = d /\ blobs L !! sha256_hex bytes = Some bytes.
Proof.
  unfold Layout.read_blob. intros (name & [-> Hn]%blob_path_inv & (b & Hb & HR)%bind_Ok)%bind_Ok.
  destruct (blobs L !! name) as [b'|] eqn:E; [|done].
  injection Hb as ->. case_bool_decide as HD; [|done]. injection HR as ->. split; [done|].
  apply app_inv_head in HD. by rewrite HD.
Qed.

(** In an addressed layout a blob that is there can be read. *)
Lemma read_blob_addressed L d :
  addressed L -> read_blob L d = (name ← blob_path d; ok_or (blobs L !! name) RegistryError_IoNotFound).
Proof.
  intros HA. unfold Layout.read_blob. destruct (blob_path d) as [name|e] eqn:E; simpl; [|done].
  apply blob_path_inv in E as [-> _]. destruct (blobs L !! name) as [b|] eqn:Eb; simpl; [|done].
  rewrite bool_decide_eq_true_2; [done|]. pose proof (HA _ _ Eb) as HE. simpl in HE. unfold sha256_digest. by rewrite HE.
Qed.

(** ** Garbage collection *)

(** The digests a blob refers to. *)
Definition children (L : ImageLayout) (d : str) : list str :=
  match read_blob L d with
  | Ok bytes =>
      match parse_manifest bytes with
      | Some (OciManifest_Image m) => image_blobs m
      | Some (OciManifest_ImageIndex es) => ie_digest <$> es
      | None => []
      end
  | Err _ => []
  end.

(** [d] is an image index that lists [c]; an image made of [c]. *)
Definition lists (L : ImageLayout) (d c : str) : Prop :=
  exists bytes es, read_blob L d = Ok bytes /\ parse_manifest bytes = Some (OciManifest_ImageIndex es)
    /\ c ∈ ie_digest <$> es.
Definition made_of (L : ImageLayout) (d c : str) : Prop :=
  exists bytes m, read_blob L d = Ok bytes /\ parse_manifest bytes = Some (OciManifest_Image m) /\ c ∈ image_blobs m.

(** The manifests reachable from the index, the blobs of their images, and both. *)
Definition manifest (L : ImageLayout) (d : str) : Prop := exists r, r ∈ ie_digest <$> index L /\ rtc (lists L) r d.
Definition part (L : ImageLayout) (c : str) : Prop := exists d, manifest L d /\ made_of L d c.
Definition referenced (L : ImageLayout) (d : str) : Prop := manifest L d \/ part L d.

Lemma lists_children L d c : lists L d c -> c ∈ children L d.
Proof. intros (bytes & es & HR & HP & HC). unfold children. by rewrite HR, HP. Qed.
Lemma made_of_children L d c : made_of L d c -> c ∈ children L d.
Proof. intros (bytes & m & HR & HP & HC). unfold children. by rewrite HR, HP. Qed.

Lemma manifest_lists L d c : manifest L d -> lists L d c -> manifest L c.
Proof. intros (r & Hr & HT) HL. exists r. split; [done|]. by eapply rtc_r. Qed.

(** What a walk adds to the set it is given: manifests whose references it has
    also added, and parts of images. *)
Definition settled (L : ImageLayout) (out : gset str) (x : str) : Prop :=
  (manifest L x /\ forall c, c ∈ children L x -> c ∈ out) \/ part L x.
Definition extends (L : ImageLayout) (out out' : gset str) : Prop :=
  out ⊆ out' /\ forall x, x ∈ out' -> x ∈ out \/ settled L out' x.

Lemma settled_mono L out out' x : out ⊆ out' -> settled L out x -> settled L out' x.
Proof. intros HS [[HM HC]|HP]; [left|by right]. split; [done|]. intros c Hc. apply HS. by apply HC. Qed.

Lemma extends_trans L o1 o2 o3 : extends L o1 o2 -> extends L o2 o3 -> extends L o1 o3.
Proof.
  intros [S1 E1] [S2 E2]. split; [set_solver|]. intros x Hx. destruct (E2 x Hx) as [H2|H2]; [|by right].
  destruct (E1 x H2) as [H1|H1]; [by left|]. right. by eapply settled_mono.
Qed.

Lemma walk_all_extends (L : ImageLayout) (f : str -> gset str -> outcome (result RegistryError (gset str))) (ds : list str) (out out' : gset str) :
  (forall d o o', d ∈ ds -> f d o = Val (Ok o') -> extends L o o' /\ d ∈ o') ->
  walk_all f ds out = Val (Ok out') -> extends L out out' /\ forall d, d ∈ ds -> d ∈ out'.
Proof.
  revert out. induction ds as [|d ds IH]; intros out HF; cbn [walk_all].
  { intros [= <-]. split; [by split; [done|left]|]. intros d []%not_elem_of_nil. }
  intros ([o|e] & E & HW)%bind_Val; [|done].
  destruct (HF d out o) as [HE HD]; [by left|done|].
  destruct (IH o) as [HE' HD']; [intros; apply HF; [by right|done]|done|].
  split; [by eapply extends_trans|]. intros x [->|Hx]%elem_of_cons; [|by apply HD']. apply HE'. done.
Qed.

Lemma collect_extends L fuel d out out' :
  manifest L d -> collect_reachable fuel L d out = Val (Ok out') -> extends L out out' /\ d ∈ out'.
Proof.
  revert d out out'. induction fuel as [|fuel IH]; intros d out out' HM; [done|]. cbn [Layout.collect_reachable].
  destruct (decide (d ∈ out)) as [Hd|Hd]; [intros [= <-]; split; [by split; [done|left]|done]|]. cbv zeta.
  assert (HL : children L d = [] -> extends L out ({[d]} ∪ out) /\ d ∈ {[d]} ∪ out).
  { intros HC. split; [|set_solver]. split; [set_solver|]. intros x [->%elem_of_singleton|Hx]%elem_of_union; [|by left].
    right. left. split; [done|]. rewrite HC. by intros c ?%not_elem_of_nil. }
  unfold children in HL.
  destruct (read_blob L d) as [bytes|e] eqn:ER.
  2: { destruct e; try done. intros [= <-]. by apply HL. }
  destruct (parse_manifest bytes) as [[m|es]|] eqn:EP; [| |intros [= <-]; by apply HL].
  - intros HO. assert (out' = list_to_set (image_blobs m) ∪ ({[d]} ∪ out)) as -> by congruence.
    split; [|set_solver]. split; [set_solver|].
    intros x [Hx%elem_of_list_to_set|[->%elem_of_singleton|Hx]%elem_of_union]%elem_of_union; [| |by left]; right.
    + right. exists d. split; [done|]. by exists bytes, m.
    + left. split; [done|]. intros c. unfold children. rewrite ER, EP. set_solver.
  - intros HW. apply (walk_all_extends L) in HW as [[HS HE] HD].
    2: { intros c o o' Hc. apply IH. eapply manifest_lists; [done|]. by exists bytes, es. }
    split; [|set_solver]. split; [set_solver|]. intros x Hx. destruct (HE x Hx) as [[->%elem_of_singleton|Hx']%elem_of_union|Hx'];
      [|by left|by right]. right. left. split; [done|]. intros c. unfold children. rewrite ER, EP. apply HD.
Qed.

(** No digest is used both as a part of an image and as a manifest that refers to
    others. *)
Definition unambiguous (L : ImageLayout) : Prop := forall d, manifest L d -> part L d -> children L d = [].

Lemma reachable_set_exact L out :
  unambiguous L -> reachable_set L = Val (Ok out) -> forall d, d ∈ out <-> referenced L d.
Proof.
  intros HU HW. apply (walk_all_extends L) in HW as [[_ HE] HD].
  2: { intros d o o' Hd. apply collect_extends. exists d. split; [done|apply rtc_refl]. }
  assert (HC : forall d c, d ∈ out -> manifest L d -> c ∈ children L d -> c ∈ out).
  { intros d c Hd HM Hc. destruct (HE d Hd) as [[]%not_elem_of_empty|[[_ HC]|HP]]; [by apply HC|].
    rewrite (HU d HM HP) in Hc. by apply not_elem_of_nil in Hc. }
  assert (HM : forall d, manifest L d -> d ∈ out).
  { intros d (r & Hr & HT). assert (Hm : manifest L r) by (exists r; split; [done|apply rtc_refl]).
    specialize (HD r Hr). clear Hr. induction HT as [d|d c e Hs HT IH]; [done|].
    apply IH; [eapply HC; [done|done|by apply lists_children]|by eapply manifest_lists]. }
  intros d. split.
  - intros Hd. destruct (HE d Hd) as [[]%not_elem_of_empty|[[Hm _]|Hp]]; [by left|by right].
  - intros [Hm|(e & Hm & Ho)]; [by apply HM|]. eapply HC; [by apply HM|done|by apply made_of_children].
Qed.

(** *** Termination *)

(** The blobs a walk has not seen. *)
Definition unseen (L : ImageLayout) (out : gset str) : nat :=
  size (filter (fun f => "sha256:" ++ f.1 ∉ out) (blobs L)).

Lemma unseen_mono L out out' : out ⊆ out' -> unseen L out' <= unseen L out.
Proof.
  intros HS. unfold unseen. apply map_subseteq_size. apply map_filter_subseteq_ext. intros k b _ HN. set_solver.
Qed.

Lemma unseen_visit L d bytes out :
  read_blob L d = Ok bytes -> d ∉ out -> unseen L ({[d]} ∪ out) < unseen L out.
Proof.
  intros [<- HB]%read_blob_Ok Hd. unfold unseen.
  assert (HK : filter (fun f => "sha256:" ++ f.1 ∉ out) (blobs L) !! sha256_hex bytes = Some bytes)
    by (by apply map_lookup_filter_Some).
  apply map_subset_size, strict_spec_alt. split.
  - apply map_filter_subseteq_ext. intros k b _ HN. set_solver.
  - intros HE. rewrite <- HE in HK. apply map_lookup_filter_Some in HK as [_ HN]. apply HN. set_solver.
Qed.

Lemma walk_all_subset f (ds : list str) out out' :
  (forall d o o', f d o = Val (Ok o') -> o ⊆ o') -> walk_all f ds out = Val (Ok out') -> out ⊆ out'.
Proof.
  intros HF. revert out. induction ds as [|d ds IH]; intros out; cbn [walk_all].
  { by intros [= <-]. }
  intros ([o|e] & E & HW)%bind_Val; [|done]. transitivity o; [by eapply HF|by apply IH].
Qed.

Lemma collect_subset L fuel d out out' : collect_reachable fuel L d out = Val (Ok out') -> out ⊆ out'.
Proof.
  revert d out out'. induction fuel as [|fuel IH]; intros d out out'; [done|]. cbn [Layout.collect_reachable].
  destruct (decide (d ∈ out)); [by intros [= <-]|]. cbv zeta.
  destruct (read_blob L d) as [bytes|e]; [|destruct e; try done; intros [= <-]; set_solver].
  destruct (parse_manifest bytes) as [[m|es]|]; [intros [= <-]; set_solver| |intros [= <-]; set_solver].
  intros HW. apply walk_all_subset in HW; [set_solver|]. intros; by eapply IH.
Qed.

Lemma walk_all_returns L f (ds : list str) out n :
  (forall d o o', f d o = Val (Ok o') -> o ⊆ o') ->
  (forall d o, unseen L o < n -> exists r, f d o = Val r) ->
  unseen L out < n -> exists r, walk_all f ds out = Val r.
Proof.
  intros HS HF. revert out. induction ds as [|d ds IH]; intros out Hn; cbn [walk_all]; [eauto|].
  destruct (HF d out Hn) as [[o|e] E]; rewrite E; simpl; [|eauto]. apply IH.
  pose proof (unseen_mono L _ _ (HS _ _ _ E)). lia.
Qed.

Lemma collect_returns L fuel d out : unseen L out < fuel -> exists r, collect_reachable fuel L d out = Val r.
Proof.
  revert d out. induction fuel as [|fuel IH]; intros d out Hf; [lia|]. cbn [Layout.collect_reachable].
  destruct (decide (d ∈ out)) as [Hd|Hd]; [eauto|]. cbv zeta.
  destruct (read_blob L d) as [bytes|e] eqn:ER; [|destruct e; eauto].
  destruct (parse_manifest bytes) as [[m|es]|]; [eauto| |eauto].
  pose proof (unseen_visit L d bytes out ER Hd).
  apply (walk_all_returns L _ _ _ fuel); [intros; by eapply collect_subset|apply IH|lia].
Qed.

Lemma unseen_fuel L out : unseen L out < walk_fuel L.
Proof. unfold unseen, walk_fuel. pose proof (map_size_filter (fun f => "sha256:" ++ f.1 ∉ out) (blobs L)). lia. Qed.

Lemma reachable_set_returns L : exists r, reachable_set L = Val r.
Proof.
  apply (walk_all_returns L _ _ _ (walk_fuel L)); [intros; by eapply collect_subset| |apply unseen_fuel].
  intros d o _. apply collect_returns, unseen_fuel.
Qed.

(** *** Pruning *)

Lemma walk_all_error f (ds : list str) out e (P : Prop) :
  (forall d o, d ∈ ds -> f d o = Val (Err e) -> P) -> walk_all f ds out = Val (Err e) -> P.
Proof.
  revert out. induction ds as [|d ds IH]; intros out HF; cbn [walk_all]; [done|].
  intros ([o|e'] & E & HW)%bind_Val; [|injection HW as ->; by eapply HF; [left|]].
  apply (IH o); [intros; eapply HF; [by right|done]|done].
Qed.

(** A walk fails on a manifest that is there and cannot be read. *)
Definition unreadable (L : ImageLayout) (e : RegistryError) : Prop :=
  e <> RegistryError_IoNotFound /\ exists d, manifest L d /\ read_blob L d = Err e.

Lemma collect_error L fuel d out e : manifest L d -> collect_reachable fuel L d out = Val (Err e) -> unreadable L e.
Proof.
  revert d out. induction fuel as [|fuel IH]; intros d out HM; [done|]. cbn [Layout.collect_reachable].
  destruct (decide (d ∈ out)); [done|]. cbv zeta. destruct (read_blob L d) as [bytes|e'] eqn:ER.
  - destruct (parse_manifest bytes) as [[m|es]|] eqn:EP; [done| |done]. apply walk_all_error.
    intros c o Hc. apply IH. eapply manifest_lists; [done|]. by exists bytes, es.
  - intros HE. destruct (decide (e' = RegistryError_IoNotFound)) as [->|Hn]; [done|].
    assert (e = e') as -> by (destruct e'; congruence). split; [done|]. eauto.
Qed.

Lemma prune_dir_lookup {A} (removes : str -> bool) (size_of : A -> N) (live : gset str) (files : gmap str A) name :
  (prune_dir removes size_of sha256_key (fun d => bool_decide (d ∈ live)) files).1 !! name
  = if decide ("sha256:" ++ name ∈ live) then files !! name else if removes name then None else files !! name.
Proof.
  unfold prune_dir. cbn [fst].
  assert (Hk : forall b, (dead sha256_key (fun d => bool_decide (d ∈ live)) name && removes name = false -> files !! name = b ->
    filter (fun f => dead sha256_key (fun d => bool_decide (d ∈ live)) f.1 && removes f.1 = false) files !! name = b)).
  { intros [b|] Hd E; [by apply map_lookup_filter_Some|]. apply map_lookup_filter_None. by left. }
  case_decide as HD; [|destruct (removes name) eqn:Hr].
  - apply Hk; [|done]. unfold dead. simpl. by rewrite bool_decide_eq_true_2.
  - apply map_lookup_filter_None. right. intros b _. unfold dead. simpl. by rewrite bool_decide_eq_false_2, Hr.
  - apply Hk; [|done]. by rewrite andb_false_r.
Qed.

(** The number of entries that are gone. *)
Lemma prune_dir_count {A} (removes : str -> bool) (size_of : A -> N) (key_of : str -> option str) (is_live : str -> bool) (files : gmap str A) :
  let '(kept, (n, _)) := prune_dir removes size_of key_of is_live files in (n + size kept = size files)%nat.
Proof.
  unfold prune_dir. induction files as [|name a files Hn IH] using map_ind; [done|].
  assert (Hl : length (filter (fun f : str * A => dead key_of is_live f.1 && removes f.1 = true) (map_to_list (<[name := a]> files)))
    = ((if dead key_of is_live name && removes name then 1 else 0)
       + length (filter (fun f : str * A => dead key_of is_live f.1 && removes f.1 = true) (map_to_list files)))%nat).
  { rewrite (map_to_list_insert files name a) by done. rewrite filter_cons. cbn [fst]. by case_decide; destruct (_ && _). }
  rewrite Hl. rewrite map_filter_insert. cbn [fst]. rewrite map_size_insert_None by done. destruct (dead key_of is_live name && removes name) eqn:E.
  - rewrite decide_False by done. rewrite delete_id by done. lia.
  - rewrite decide_True by done. rewrite map_size_insert_None; [lia|]. apply map_lookup_filter_None. by left.
Qed.

(** C20 (safety): garbage collection of the blob store is exact.  It always ends;
    it fails only on a reachable manifest that is stored and cannot be read, and
    then removes nothing; otherwise it keeps the index, keeps every
    blob of every image the index reaches, through nested image indexes, readable as
    before, removes every other blob, except those whose files the system refuses to remove,
    which stay, and counts the ones that are gone.  It supposes that no digest is both a config or layer of
    an image and a manifest with references of its own, and that the blob
    directory can be listed. *)
Theorem prune_blobs_exact (removes : str -> bool) L : unambiguous L ->
  exists r L', prune_blobs removes L = Val (r, L') /\ index L' = index L /\
    match r with
    | Err e => L' = L /\ unreadable L e
    | Ok (n, _) => (forall d, referenced L d -> read_blob L' d = read_blob L d)
        /\ (forall name, referenced L ("sha256:" ++ name) -> blobs L' !! name = blobs L !! name)
        /\ (forall name, ~ referenced L ("sha256:" ++ name) -> blobs L' !! name = if removes name then None else blobs L !! name)
        /\ (n + size (blobs L') = size (blobs L))%nat
    end.
Proof.
  intros HU. unfold Layout.prune_blobs. destruct (reachable_set_returns L) as [[out|e] E]; rewrite E; cbn [mbind outcome_bind].
  2: { eexists _, L. split; [done|]. split; [done|]. split; [done|]. eapply walk_all_error; [|exact E].
       intros d o Hd. apply collect_error. exists d. split; [done|apply rtc_refl]. }
  pose proof (reachable_set_exact L out HU E) as HX.
  pose proof (fun name => prune_dir_lookup removes (fun b => N.of_nat (length b)) out (blobs L) name) as HK.
  pose proof (prune_dir_count removes (fun b => N.of_nat (length b)) sha256_key (fun d => bool_decide (d ∈ out)) (blobs L)) as HN.
  destruct (prune_dir _ _ _ _ (blobs L)) as [kept [n bytes]]. cbn [fst] in HK.
  assert (HR : forall name, referenced L ("sha256:" ++ name) -> kept !! name = blobs L !! name).
  { intros name Hn%HX. rewrite HK. by rewrite decide_True. }
  eexists _, (with_blobs kept L). split; [done|]. split; [done|]. split_and!.
  - intros d Hd. unfold Layout.read_blob. destruct (blob_path d) as [name|] eqn:EP; simpl; [|done].
    apply blob_path_inv in EP as [-> _]. by rewrite HR.
  - exact HR.
  - intros name Hn. simpl. rewrite HK, decide_False; [done|]. by rewrite HX.
  - exact HN.
Qed.

(** ** The blob store *)

Section store.
Context (sha256_hex_name : forall s, hex_name (sha256_hex s)).

Lemma digest_path s : blob_path (digest_of s) = Ok (sha256_hex s).
Proof. by apply blob_path_inv. Qed.

Lemma read_blob_stored L bytes : blobs L !! sha256_hex bytes = Some bytes -> read_blob L (digest_of bytes) = Ok bytes.
Proof.
  intros HB. unfold Layout.read_blob. rewrite digest_path. simpl. rewrite HB. simpl. by rewrite bool_decide_eq_true_2.
Qed.


(** Nothing else is stored under the hash of [data]. *)
Definition no_collision (L : ImageLayout) (data : str) : Prop := forall b, blobs L !! sha256_hex data = Some b -> b = data.

(** A blob written can be read back under the digest returned,
    and no other read changes, unless another blob with the same hash is
    already stored. *)
Theorem write_blob_roundtrip L data :
  no_collision L data ->
  exists L', write_blob data L = Ok (digest_of data, L') /\ read_blob L' (digest_of data) = Ok data
    /\ index L' = index L /\ forall d, d <> digest_of data -> read_blob L' d = read_blob L d.
Proof.
  intros HC. unfold Layout.write_blob, Layout.write_blob_with_digest. cbv zeta.
  rewrite bool_decide_eq_true_2 by done. rewrite (digest_path data). cbn [mbind result_bind]. destruct (blobs L !! sha256_hex data) as [b|] eqn:E.
  - rewrite (HC b E) in E. eexists. split; [done|]. split; [by apply read_blob_stored|done].
  - eexists. split; [done|]. split; [apply read_blob_stored; apply lookup_insert_eq|]. split; [done|].
    intros d Hd. unfold Layout.read_blob. destruct (blob_path d) as [name|] eqn:EP; simpl; [|done].
    apply blob_path_inv in EP as [-> _]. rewrite lookup_insert_ne; [done|]. intros <-. by apply Hd.
Qed.
End store.

(** *** Reachable layouts *)

Section steps.
Context (parse_json : str -> option Value).

Definition empty_layout : ImageLayout := {| blobs := ∅; index := []; erofs_cache := ∅; block_cache := ∅ |}.

Inductive layout_step (L : ImageLayout) : ImageLayout -> Prop :=
| step_write data expected L' : write_blob_with_digest data expected L = Ok L' -> layout_step L L'
| step_upsert r e : layout_step L (upsert_ref r e L)
| step_untagged e : layout_step L (upsert_untagged e L)
| step_remove r : layout_step L (remove_ref r L).2
| step_prune_blobs removes r L' : prune_blobs removes L = Val (r, L') -> layout_step L L'
| step_prune_erofs removes fuel r L' :
    prune_erofs_cache sha256_hex parse_manifest parse_json removes fuel L = Val (r, L') -> layout_step L L'
| step_prune_blocks removes : layout_step L (prune_block_cache removes L).2.

Lemma write_addressed L data expected L' :
  addressed L -> write_blob_with_digest data expected L = Ok L' -> addressed L'.
Proof.
  intros HA. unfold Layout.write_blob_with_digest. case_bool_decide as HD; [|done].
  intros (name & HP & HW)%bind_Ok. rewrite <- HD in HP. apply blob_path_inv in HP as [HE _]. apply app_inv_head in HE.
  destruct (blobs L !! name); injection HW as <-; [done|]. apply map_Forall_insert_2; done.
Qed.

Lemma prune_addressed removes L r L' : addressed L -> prune_blobs removes L = Val (r, L') -> addressed L'.
Proof.
  intros HA. unfold Layout.prune_blobs. intros ([out|e] & _ & HP)%bind_Val; [|by injection HP as _ <-].
  injection HP as _ <-. intros name b Hb. simpl in Hb. apply map_lookup_filter_Some in Hb as [Hb _]. by apply HA.
Qed.

Lemma step_addressed L L' : addressed L -> layout_step L L' -> addressed L'.
Proof.
  intros HA [data expected L1 HW|r e|e|r|removes r L1 HP|removes fuel r L1 HP|removes]; try done.
  - by eapply write_addressed.
  - unfold remove_ref. simpl. by case_bool_decide.
  - by eapply prune_addressed.
  - apply bind_Val in HP as ([out|e] & _ & HP); by injection HP as _ <-.
Qed.

(** A layout that was only ever changed by the operations of the
    layout never reports corruption: a blob whose file is there is read, and
    every file holds the bytes its name is the hash of. *)
Theorem layouts_addressed L :
  rtc layout_step empty_layout L ->
  addressed L /\ forall d, read_blob L d = (name ← blob_path d; ok_or (blobs L !! name) RegistryError_IoNotFound).
Proof.
  intros HT. assert (HA : addressed L).
  { assert (HE : addressed empty_layout) by apply map_Forall_empty. revert HE.
    induction HT as [L|L1 L2 L3 HS _ IH]; [done|]. intros HA. apply IH. by eapply step_addressed. }
  split; [done|]. intros d. by apply read_blob_addressed.
Qed.

End steps.

End facts.

(** ** References *)

Definition find_ref (r : str) (ix : list ImageIndexEntry) : option ImageIndexEntry :=
  snd <$> list_find (fun e => ref_name_of e = Some r) ix.

Lemma find_ref_cons r e ix : find_ref r (e :: ix) = if decide (ref_name_of e = Some r) then Some e else find_ref r ix.
Proof. unfold find_ref. simpl. destruct (decide _); [done|]. by destruct (list_find _ ix). Qed.

Lemma find_ref_upsert r r' x ix :
  ref_name_of x = Some r ->
  find_ref r' (filter (fun e => ref_name_of e <> Some r) ix ++ [x]) = if decide (r' = r) then Some x else find_ref r' ix.
Proof.
  intros Hx. induction ix as [|e ix IH].
  - cbn [filter list_filter app]. rewrite find_ref_cons, Hx. repeat case_decide; congruence.
  - rewrite filter_cons. destruct (decide (ref_name_of e <> Some r)) as [Hn|Hn].
    + cbn [app]. rewrite find_ref_cons, IH, find_ref_cons. repeat case_decide; congruence.
    + rewrite IH, find_ref_cons. assert (ref_name_of e = Some r) by (destruct (decide (ref_name_of e = Some r)); done).
      repeat case_decide; congruence.
Qed.

Lemma lookup_upsert_ref L r e r' :
  layout_lookup_ref (upsert_ref r e L) r' = if decide (r' = r) then Some (annotate r e) else layout_lookup_ref L r'.
Proof. apply find_ref_upsert. unfold ref_name_of, annotate. simpl. by rewrite lookup_insert_eq. Qed.

Lemma find_ref_remove r r' ix :
  find_ref r' (filter (fun e => ref_name_of e <> Some r) ix) = if decide (r' = r) then None else find_ref r' ix.
Proof.
  induction ix as [|e ix IH]; [by destruct (decide _)|]. rewrite filter_cons.
  destruct (decide (ref_name_of e <> Some r)) as [Hn|Hn].
  - rewrite find_ref_cons, IH, find_ref_cons. repeat case_decide; congruence.
  - rewrite IH, find_ref_cons. assert (ref_name_of e = Some r) by (destruct (decide (ref_name_of e = Some r)); done).
    repeat case_decide; congruence.
Qed.

Lemma filter_full {A} (P : A -> Prop) `{!forall x, Decision (P x)} (l : list A) :
  length l = length (filter P l) -> filter P l = l.
Proof.
  induction l as [|x l IH]; [done|]. rewrite filter_cons. destruct (decide (P x)); simpl.
  - intros [= HL]. by rewrite IH.
  - pose proof (length_filter P l). lia.
Qed.

Lemma filter_ref_length r ix :
  length ix = length (filter (fun e => ref_name_of e <> Some r) ix) <-> find_ref r ix = None.
Proof.
  induction ix as [|e ix IH]; [done|]. rewrite filter_cons, find_ref_cons.
  pose proof (length_filter (fun e => ref_name_of e <> Some r) ix) as HL.
  destruct (decide (ref_name_of e <> Some r)) as [Hn|Hn]; simpl.
  - rewrite decide_False, <- IH by done. lia.
  - rewrite decide_True by (destruct (decide (ref_name_of e = Some r)); done). split; [lia|done].
Qed.

Lemma lookup_remove_ref L r r' :
  layout_lookup_ref (remove_ref r L).2 r' = if decide (r' = r) then None else layout_lookup_ref L r'.
Proof.
  change (layout_lookup_ref L r') with (find_ref r' (index L)). rewrite <- find_ref_remove.
  unfold remove_ref. simpl. case_bool_decide as HL; [|done]. by rewrite filter_full.
Qed.

(** The map [f] with [o] at [r]. *)
Definition updated (r : str) (o : option ImageIndexEntry) (f : str -> option ImageIndexEntry) (r' : str)
    : option ImageIndexEntry := if decide (r' = r) then o else f r'.

(** The index is a map from reference names to entries: an
    inserted entry is found under its name, a removed one no longer, other names keep
    theirs, and [remove_ref] tells whether the name was there. *)
Theorem references_exact L r e r' :
  layout_lookup_ref (upsert_ref r e L) r' = updated r (Some (annotate r e)) (layout_lookup_ref L) r'
  /\ layout_lookup_ref (remove_ref r L).2 r' = updated r None (layout_lookup_ref L) r'
  /\ ((remove_ref r L).1 = true <-> is_Some (layout_lookup_ref L r)).
Proof.
  split_and!; [apply lookup_upsert_ref|apply lookup_remove_ref|].
  change (layout_lookup_ref L r) with (find_ref r (index L)). unfold remove_ref. simpl.
  rewrite negb_true_iff, bool_decide_eq_false, filter_ref_length. apply not_eq_None_Some.
Qed.
(** ** Paths *)

Definition plain_name (name : str) : Prop := name <> [] /\ ~ ("/"%char ∈ name) /\ name <> "." /\ name <> "..".

Lemma hexdigit_not (c : ascii) s : is_ascii_hexdigit c = false -> forallb is_ascii_hexdigit s = true -> c ∉ s.
Proof.
  intros Hc Hs Hi. rewrite forallb_forall in Hs. apply list_elem_of_In in Hi. apply Hs in Hi. congruence.
Qed.

Lemma hex_plain h suffix : hex_name h -> ~ ("/"%char ∈ suffix) -> plain_name (h ++ suffix).
Proof.
  intros [Hn Hx] Hs. destruct h as [|c h]; [done|]. split_and!; [done| | |].
  - rewrite elem_of_app. intros [Hi|Hi]; [|done]. by eapply (hexdigit_not "/").
  - intros E. injection E as -> _. by simpl in Hx.
  - intros E. injection E as -> _. by simpl in Hx.
Qed.

(** Whatever digest or variant a manifest gives, the names the
    layout joins into paths are single file names: never empty, with no
    separator, and neither of the two dot entries. *)
Theorem layout_paths_contained d v :
  (forall name, blob_path d = Ok name -> plain_name name)
  /\ (forall name, erofs_cache_path d = Ok name -> plain_name name)
  /\ (forall dir name, block_cache_path d v = Ok (dir, name) -> plain_name dir /\ plain_name name).
Proof.
  split_and!.
  - intros name [_ Hn]%blob_path_inv. rewrite <- (app_nil_r name). apply hex_plain; [done|]. by apply not_elem_of_nil.
  - intros name ([a h] & (_ & _ & Hh)%split_digest_inv & [= <-])%bind_Ok. apply hex_plain; [done|].
    by apply (bool_decide_eq_false_1 ("/"%char ∈ (".erofs" : str))).
  - intros dir name ([a h] & (_ & _ & Hh)%split_digest_inv & HV)%bind_Ok.
    destruct (is_nil v) eqn:En; [done|]. destruct (forallb is_ascii_hexdigit v) eqn:Ex; [|done]. injection HV as <- <-.
    split.
    + rewrite <- (app_nil_r h). apply hex_plain; [done|]. by apply not_elem_of_nil.
    + apply hex_plain; [split; [by intros ->|done]|]. by apply (bool_decide_eq_false_1 ("/"%char ∈ (".img" : str))).
Qed.

(** ** A small layout *)

Module ModelLayout.
Definition hex_digit (n : N) : ascii := default "0"%char (("0123456789abcdef" : str) !! N.to_nat n).
Definition hexify (s : str) : str := "0" ++ flat_map (fun c => [hex_digit (code c / 16); hex_digit (code c mod 16)])%N s.

Lemma hexify_name s : hex_name (hexify s).
Proof.
  split; [done|]. unfold hexify. simpl. induction s as [|c s IH]; [done|]. simpl. rewrite IH.
  by destruct c as [[] [] [] [] [] [] [] []].
Qed.

Definition digit_value (c : ascii) : N := N.of_nat (default 0 (find_byte c "0123456789abcdef")).
Fixpoint unhex (s : str) : str :=
  match s with a :: b :: s => ascii_of_N (16 * digit_value a + digit_value b) :: unhex s | _ => [] end.

Lemma hexify_inj s t : hexify s = hexify t -> s = t.
Proof.
  assert (HU : forall s, unhex (tail (hexify s)) = s).
  { intros u. unfold hexify. simpl. induction u as [|c u IH]; [done|]. simpl. rewrite IH. f_equal.
    by destruct c as [[] [] [] [] [] [] [] []]. }
  intros E. by rewrite <- (HU s), E.
Qed.

Definition desc (s : str) : OciDescriptor := {| desc_media_type := []; desc_digest := sha256_digest hexify s; desc_size := 0; desc_annotations := None |}.
Definition entry (s : str) : ImageIndexEntry :=
  {| ie_media_type := OCI_IMAGE_MEDIA_TYPE; ie_digest := sha256_digest hexify s; ie_size := 0; ie_platform := None;
     ie_annotations := None |}.

(** [M] is an image of config [c] and layer [l]; [I] an index that lists it. *)
Definition parse (bytes : str) : option OciManifest :=
  if decide (bytes = "M") then
    Some (OciManifest_Image {| mf_config := desc "c"; mf_layers := [desc "l"]; mf_subject := None;
                               mf_artifact_type := None; mf_annotations := None |})
  else if decide (bytes = "I") then Some (OciManifest_ImageIndex [entry "M"])
  else None.

Definition files : list str := ["I" : str; "M" : str; "c" : str; "l" : str; "junk" : str].
Definition layout : ImageLayout :=
  {| blobs := list_to_map ((fun f => (hexify f, f)) <$> files); index := [annotate "img" (entry "I")];
     erofs_cache := ∅; block_cache := ∅ |}.

Lemma layout_unambiguous : unambiguous hexify parse layout.
Proof.
  intros d _ (d' & _ & bytes & m & _ & HP & Hd). unfold parse in HP.
  destruct (decide (bytes = "M")); [|by destruct (decide (bytes = "I"))]. injection HP as <-.
  apply elem_of_cons in Hd as [->|Hd]; [by vm_compute|]. apply list_elem_of_singleton in Hd as ->. by vm_compute.
Qed.
End ModelLayout.

(** The unreferenced blob goes, and the image stays readable through the index. *)
Lemma prune_blobs_exact_witness :
  exists r L', prune_blobs ModelLayout.hexify ModelLayout.parse (fun _ => true) ModelLayout.layout = Val (r, L')
    /\ index L' = index ModelLayout.layout /\ is_ok r = true.
Proof.
  destruct (prune_blobs_exact ModelLayout.hexify ModelLayout.parse (fun _ => true) ModelLayout.layout ModelLayout.layout_unambiguous)
    as (r & L' & E & HI & _). exists r, L'. split; [exact E|]. split; [exact HI|].
  assert (H : match prune_blobs ModelLayout.hexify ModelLayout.parse (fun _ => true) ModelLayout.layout with Val (r, _) => is_ok r | _ => false end = true)
    by (vm_compute; reflexivity).
  rewrite E in H. exact H.
Defined.

Lemma write_blob_roundtrip_witness :
  exists L', write_blob ModelLayout.hexify "new" ModelLayout.layout
             = Ok (sha256_digest ModelLayout.hexify "new", L')
    /\ read_blob ModelLayout.hexify L' (sha256_digest ModelLayout.hexify "new") = Ok (bytes_of "new").
Proof.
  destruct (write_blob_roundtrip ModelLayout.hexify ModelLayout.hexify_name ModelLayout.layout "new") as (L' & E & HR & _).
  - intros b Hb. vm_compute in Hb. discriminate Hb.
  - by exists L'.
Defined.

Lemma layouts_addressed_witness :
  exists L, rtc (layout_step ModelLayout.hexify ModelLayout.parse (fun _ => None)) empty_layout L
    /\ addressed ModelLayout.hexify L /\ index L = [annotate "img" (ModelLayout.entry "M")].
Proof.
  eexists. assert (HT : rtc (layout_step ModelLayout.hexify ModelLayout.parse (fun _ => None)) empty_layout
    (upsert_ref "img" (ModelLayout.entry "M") (with_blobs {[ModelLayout.hexify "M" := "M" : str]} empty_layout))).
  { eapply rtc_l; [|apply rtc_once, step_upsert].
    apply (step_write _ _ _ _ "M" (sha256_digest ModelLayout.hexify "M")). reflexivity. }
  split; [exact HT|]. split; [|done].
  exact (proj1 (layouts_addressed ModelLayout.hexify ModelLayout.parse (fun _ => None) _ HT)).
Defined.
