(* ===== verification/Calendar.v ===== *)
(** * Calendar: timestamps of the image history
    (crates/umf-builder/src/engine_build/util.rs).

    [civil_from_epoch] turns seconds since 1970 into a civil date with integer
    arithmetic; it is checked against the calendar given as a successor
    function on dates. *)

From S2P Require Import Prelude RustStr.
From Stdlib Require Import ZArith.
Open Scope Z_scope.

(** ** The code *)

(** [x as i32]. *)
Definition as_i32 (x : Z) : Z := (x + 2 ^ 31) mod 2 ^ 32 - 2 ^ 31.

(** Rust's [/] on signed integers truncates. *)
Definition civil_from_epoch (epoch_secs : Z) : Z * Z * Z * (Z * Z * Z) :=
  let secs_per_day := 86400 in
  let days := epoch_secs / secs_per_day in
  let day_secs := epoch_secs mod secs_per_day in
  let hh := Z.quot day_secs 3600 in
  let mm := Z.quot (Z.rem day_secs 3600) 60 in
  let ss := Z.rem day_secs 60 in
  let z := days + 719468 in
  let era := Z.quot (if 0 <=? z then z else z - 146096) 146097 in
  let doe := z - era * 146097 in
  let yoe := Z.quot (doe - Z.quot doe 1460 + Z.quot doe 36524 - Z.quot doe 146096) 365 in
  let y := yoe + era * 400 in
  let doy := doe - (365 * yoe + Z.quot yoe 4 - Z.quot yoe 100) in
  let mp := Z.quot (5 * doy + 2) 153 in
  let d := (doy - Z.quot (153 * mp + 2) 5) + 1 in
  let m := if mp <? 10 then mp + 3 else mp - 9 in
  let y := if m <=? 2 then y + 1 else y in
  (as_i32 y, m, d, (hh, mm, ss)).

(** [format!("{n:0width$}")], for the widths the timestamp uses. *)
Definition zero_pad (width : nat) (digits : str) : str :=
  repeat ("0" : ascii) (width - length digits) ++ digits.
Definition pad_Z (width : nat) (n : Z) : str :=
  if 0 <=? n then zero_pad width (to_decimal (Z.to_N n))
  else "-" ++ zero_pad (width - 1) (to_decimal (Z.to_N (- n))).

(** [now_rfc3339], given the seconds it read. *)
Definition rfc3339 (epoch_secs : Z) : str :=
  let '(year, month, day, (hh, mm, ss)) := civil_from_epoch epoch_secs in
  pad_Z 4 year ++ "-" ++ pad_Z 2 month ++ "-" ++ pad_Z 2 day ++ "T"
  ++ pad_Z 2 hh ++ ":" ++ pad_Z 2 mm ++ ":" ++ pad_Z 2 ss ++ "Z".

Example rfc3339_ex :
  rfc3339 1709251199 = "2024-02-29T23:59:59Z" /\ rfc3339 (-1) = "1969-12-31T23:59:59Z".
Proof. split; vm_compute; reflexivity. Qed.

(** ** The calendar *)

Definition leap (y : Z) : bool :=
  (y mod 4 =? 0) && (negb (y mod 100 =? 0) || (y mod 400 =? 0)).

Definition days_in_month (y m : Z) : Z :=
  if m =? 2 then if leap y then 29 else 28
  else if (m =? 4) || (m =? 6) || (m =? 9) || (m =? 11) then 30 else 31.

Definition next_day (date : Z * Z * Z) : Z * Z * Z :=
  let '(y, m, d) := date in
  if d <? days_in_month y m then (y, m, d + 1)
  else if m <? 12 then (y, m + 1, 1)
  else (y + 1, 1, 1).

(** ** One era of 400 years *)

(** The date of day [doe] of an era, with the year counted in the era. *)
Definition era_date (doe : Z) : Z * Z * Z :=
  let yoe := Z.quot (doe - Z.quot doe 1460 + Z.quot doe 36524 - Z.quot doe 146096) 365 in
  let doy := doe - (365 * yoe + Z.quot yoe 4 - Z.quot yoe 100) in
  let mp := Z.quot (5 * doy + 2) 153 in
  let d := (doy - Z.quot (153 * mp + 2) 5) + 1 in
  let m := if mp <? 10 then mp + 3 else mp - 9 in
  (if m <=? 2 then yoe + 1 else yoe, m, d).

Definition date_eqb (a b : Z * Z * Z) : bool :=
  (a.1.1 =? b.1.1) && (a.1.2 =? b.1.2) && (a.2 =? b.2).

Definition in_calendar (date : Z * Z * Z) : bool :=
  let '(y, m, d) := date in
  (0 <=? y) && (y <=? 400) && (1 <=? m) && (m <=? 12) && (1 <=? d) && (d <=? days_in_month y m).

Definition day_ok (doe : Z) : bool :=
  in_calendar (era_date doe)
  && ((146096 <=? doe) || date_eqb (next_day (era_date doe)) (era_date (doe + 1))).

Fixpoint days_ok (n : nat) (doe : Z) : bool :=
  match n with O => true | S n => day_ok doe && days_ok n (doe + 1) end.

Lemma days_ok_at n : forall doe k, days_ok n doe = true -> doe <= k < doe + Z.of_nat n -> day_ok k = true.
Proof.
  induction n as [|n IH]; intros doe k H Hk; [lia|]. simpl in H. bools.
  destruct (Z.eq_dec k doe) as [->|]; [done|]. apply (IH (doe + 1)); [done|lia].
Qed.

Lemma era_ok k : 0 <= k < 146097 -> day_ok k = true.
Proof.
  intros H. apply (days_ok_at (Z.to_nat 146097) 0); [vm_compute; reflexivity|lia].
Qed.

(** ** Any day *)

Definition shift_years (k : Z) (date : Z * Z * Z) : Z * Z * Z :=
  let '(y, m, d) := date in (y + k, m, d).

Lemma leap_shift y e : leap (y + e * 400) = leap y.
Proof.
  unfold leap.
  assert (H4 : (y + e * 400) mod 4 = y mod 4) by
    (replace (y + e * 400) with (y + e * 100 * 4) by lia; apply Z_mod_plus_full).
  assert (H100 : (y + e * 400) mod 100 = y mod 100) by
    (replace (y + e * 400) with (y + e * 4 * 100) by lia; apply Z_mod_plus_full).
  by rewrite H4, H100, Z_mod_plus_full.
Qed.

Lemma days_in_month_shift y e m : days_in_month (y + e * 400) m = days_in_month y m.
Proof. unfold days_in_month. by rewrite leap_shift. Qed.

Lemma next_day_shift e date : next_day (shift_years (e * 400) date) = shift_years (e * 400) (next_day date).
Proof.
  destruct date as [[y m] d]. simpl. rewrite days_in_month_shift.
  destruct (d <? _); [done|]. destruct (m <? 12); [done|]. simpl. do 2 f_equal. lia.
Qed.

(** The date of a day, counted from 1970-01-01. *)
Definition day_date (days : Z) : Z * Z * Z :=
  let z := days + 719468 in
  shift_years (z / 146097 * 400) (era_date (z mod 146097)).

Lemma era_quot z : Z.quot (if 0 <=? z then z else z - 146096) 146097 = z / 146097.
Proof. destruct (Z.leb_spec 0 z); Z.to_euclidean_division_equations; lia. Qed.

Lemma civil_from_epoch_day e :
  civil_from_epoch e
  = (let '(y, m, d) := day_date (e / 86400) in (as_i32 y, m, d),
     (Z.quot (e mod 86400) 3600, Z.quot (Z.rem (e mod 86400) 3600) 60, Z.rem (e mod 86400) 60)).
Proof.
  unfold civil_from_epoch, day_date. cbv zeta. rewrite era_quot.
  set (z := e / 86400 + 719468).
  replace (z - z / 146097 * 146097) with (z mod 146097) by (pose proof (Z.div_mod z 146097); lia).
  unfold era_date, shift_years. destruct (_ <=? 2); do 4 f_equal; lia.
Qed.

Lemma day_date_next days : day_date (days + 1) = next_day (day_date days).
Proof.
  unfold day_date. set (z := days + 719468). replace (days + 1 + 719468) with (z + 1) by lia.
  rewrite next_day_shift. pose proof (Z.mod_pos_bound z 146097) as Hz. pose proof (Z.div_mod z 146097) as Hd.
  pose proof (era_ok (z mod 146097) ltac:(lia)) as Hok. unfold day_ok in Hok. apply andb_true_iff in Hok as [_ H0].
  destruct (Z.eq_dec (z mod 146097) 146096) as [Em|Em].
  - assert ((z + 1) / 146097 = z / 146097 + 1 /\ (z + 1) mod 146097 = 0) as [-> ->].
    { split; Z.to_euclidean_division_equations; lia. }
    rewrite Em. change (next_day (era_date 146096)) with (400, 3, 1). change (era_date 0) with (0, 3, 1).
    unfold shift_years. do 2 f_equal. lia.
  - assert ((z + 1) / 146097 = z / 146097 /\ (z + 1) mod 146097 = z mod 146097 + 1) as [-> ->].
    { split; Z.to_euclidean_division_equations; lia. }
    apply orb_true_iff in H0 as [H0|H0]; [apply Z.leb_le in H0; lia|]. unfold date_eqb in H0. bools.
    f_equal. destruct (next_day _) as [[a b] c], (era_date _) as [[a' b'] c']. simpl in *.
    by repeat match goal with H : (_ =? _) = true |- _ => apply Z.eqb_eq in H; subst end.
Qed.

Lemma day_date_valid days : let '(y, m, d) := day_date days in
  1 <= m <= 12 /\ 1 <= d <= days_in_month y m
  /\ (days + 719468) / 146097 * 400 <= y <= (days + 719468) / 146097 * 400 + 400.
Proof.
  unfold day_date. set (z := days + 719468).
  pose proof (era_ok (z mod 146097) (Z.mod_pos_bound z 146097 eq_refl)) as Hok. unfold day_ok in Hok. bools.
  destruct (era_date (z mod 146097)) as [[y m] d]. simpl in *. rewrite days_in_month_shift. bools. lia.
Qed.

(** The seconds for which the year is an [i32]. *)
Definition year_fits (e : Z) : Prop := - 67000000000000000 <= e <= 67000000000000000.

Lemma as_i32_id y : - 2 ^ 31 <= y < 2 ^ 31 -> as_i32 y = y.
Proof. intros H. unfold as_i32. rewrite Z.mod_small; lia. Qed.

Lemma civil_date_day e : year_fits e -> (civil_from_epoch e).1 = day_date (e / 86400).
Proof.
  intros He. rewrite civil_from_epoch_day. pose proof (day_date_valid (e / 86400)) as HV.
  destruct (day_date (e / 86400)) as [[y m] d]. cbn [fst]. rewrite as_i32_id; [done|]. unfold year_fits in He.
  Z.to_euclidean_division_equations. lia.
Qed.

(** ** Properties *)

(** The dates of history entries follow the calendar.  The
    epoch is 1970-01-01; one day later the date is the next day of the
    Gregorian calendar with its leap years, before and after the epoch; months,
    days, hours, minutes and seconds are in range, and the time of day is the
    number of seconds into the day.  These determine the date of every second
    whose year is an [i32]. *)
Theorem civil_from_epoch_calendar e :
  year_fits e -> year_fits (e + 86400) ->
  civil_from_epoch 0 = (1970, 1, 1, (0, 0, 0))
  /\ (civil_from_epoch (e + 86400)).1 = next_day (civil_from_epoch e).1
  /\ let '(y, m, d, (hh, mm, ss)) := civil_from_epoch e in
     1 <= m <= 12 /\ 1 <= d <= days_in_month y m
     /\ 0 <= hh < 24 /\ 0 <= mm < 60 /\ 0 <= ss < 60
     /\ hh * 3600 + mm * 60 + ss = e mod 86400.
Proof.
  intros He He'. split_and!; [reflexivity| |].
  - rewrite !civil_date_day by done. replace ((e + 86400) / 86400) with (e / 86400 + 1) by
      (Z.to_euclidean_division_equations; lia). apply day_date_next.
  - pose proof (civil_date_day e He) as Hd. pose proof (day_date_valid (e / 86400)) as HV.
    rewrite civil_from_epoch_day in *. destruct (day_date (e / 86400)) as [[y m] d]. cbn [fst] in Hd.
    injection Hd as ->. split_and!; try (by apply HV); Z.to_euclidean_division_equations; lia.
Qed.

Lemma civil_from_epoch_calendar_witness :
  (civil_from_epoch (951782400 + 86400)).1 = next_day (civil_from_epoch 951782400).1.
Proof.
  apply (civil_from_epoch_calendar 951782400); unfold year_fits; lia.
Defined.
