(* ===== verification/StepCache.v ===== *)
(** * StepCache: the keys of the layer cache
    (crates/umf-builder/src/engine_build/cache.rs).

    A key is the SHA-256 of a text that lists the inputs of a step.  The hash
    comes from the crates sha2 and hex and is a parameter; the texts are the
    code's own, and this file shows how far they tell steps apart. *)

From S2P Require Import Prelude RustStr RustStrFacts.

(** ** The code *)

(** [for x in l { hasher.update(x); hasher.update([c]) }]. *)
Definition terminated (c : ascii) (l : list str) : str := concat ((fun x => x ++ [c]) <$> l).

(** What [parent_state_hash] hashes, given the diff ids of the layers. *)
Definition parent_state_text (base new : list str) : str :=
  terminated lf base ++ "--" ++ [lf] ++ terminated lf new.

(** What each key function hashes. *)
Definition run_key_text (arch codec parent : str) (argv env : list str) (cwd user : option str)
    (secret_ids : list str) : str :=
  "RUN" ++ [lf] ++ "arch:" ++ arch ++ [lf] ++ "codec:" ++ codec ++ [lf] ++ parent ++ [lf]
  ++ terminated nul argv ++ [lf] ++ "env:" ++ [lf] ++ terminated lf env
  ++ "cwd:" ++ default [] cwd ++ [lf] ++ "user:" ++ default [] user ++ [lf] ++ "secrets:" ++ [lf]
  ++ terminated lf (sort_strs secret_ids).

Definition add_key_text (arch codec parent src_digest dst : str) : str :=
  "ADD" ++ [lf] ++ "arch:" ++ arch ++ [lf] ++ "codec:" ++ codec ++ [lf] ++ parent ++ [lf]
  ++ src_digest ++ [lf] ++ dst.

Definition url_add_key_text (codec parent payload_digest dst : str) : str :=
  "ADD-URL" ++ [lf] ++ "codec:" ++ codec ++ [lf] ++ parent ++ [lf] ++ payload_digest ++ [lf] ++ dst.

Definition oci_image_add_key_text (codec parent manifest_digest dst : str) : str :=
  "ADD-OCI" ++ [lf] ++ "codec:" ++ codec ++ [lf] ++ parent ++ [lf] ++ manifest_digest ++ [lf] ++ dst.

Definition cross_stage_add_key_text (codec parent producer_manifest_digest src_path dst : str) : str :=
  "ADD-FROM" ++ [lf] ++ "codec:" ++ codec ++ [lf] ++ parent ++ [lf] ++ producer_manifest_digest ++ [lf]
  ++ src_path ++ [lf] ++ dst.

(** The source of a local [ADD]: a file, or the entries of a tree in the order
    of their paths, the root first. *)
Inductive EntryKind :=
| Entry_File (bytes : str)
| Entry_Symlink (target : str)
| Entry_Other.
Record SourceEntry := { entry_rel : str; entry_mode : N; entry_kind : EntryKind }.
Inductive Source :=
| Source_File (name : option str) (mode : N) (bytes : str)
| Source_Tree (name : option str) (entries : list SourceEntry).

(** [format!("{mode:o}")]. *)
Fixpoint to_octal_fuel (fuel : nat) (n : N) : str :=
  match fuel with
  | 0 => []
  | S fuel' => if (n <? 8)%N then [ascii_of_N (48 + n)]
               else to_octal_fuel fuel' (n / 8) ++ [ascii_of_N (48 + n mod 8)]
  end.
Definition to_octal (n : N) : str := to_octal_fuel (S (N.to_nat (N.log2 n))) n.

Definition mode_line (mode : N) : str := "mode:" ++ to_octal mode ++ [lf].

Definition entry_text (e : SourceEntry) : str :=
  entry_rel e ++ [lf] ++ mode_line (entry_mode e)
  ++ match entry_kind e with
     | Entry_File bytes => bytes
     | Entry_Symlink target => "->" ++ target
     | Entry_Other => []
     end
  ++ [lf].

Definition add_source_text (src : Source) : str :=
  match src with
  | Source_File name mode bytes => "file:" ++ default [] name ++ [lf] ++ mode_line mode ++ bytes
  | Source_Tree _ entries => concat (entry_text <$> entries)
  end.

Section keys.
Context (sha256_hex : str -> str).

Definition parent_hash (base new : list str) : str := sha256_hex (parent_state_text base new).
Definition add_source_digest (src : Source) : str := sha256_hex (add_source_text src).
Definition run_cache_key arch codec parent argv env cwd user secret_ids : str :=
  sha256_hex (run_key_text arch codec parent argv env cwd user secret_ids).
Definition add_cache_key arch codec parent src_digest dst : str :=
  sha256_hex (add_key_text arch codec parent src_digest dst).
Definition url_add_cache_key codec parent payload_digest dst : str :=
  sha256_hex (url_add_key_text codec parent payload_digest dst).
Definition oci_image_add_cache_key codec parent manifest_digest dst : str :=
  sha256_hex (oci_image_add_key_text codec parent manifest_digest dst).
Definition cross_stage_add_cache_key codec parent producer src_path dst : str :=
  sha256_hex (cross_stage_add_key_text codec parent producer src_path dst).
End keys.

(** ** Lines *)

Definition free (c : ascii) (s : str) : Prop := c ∉ s.
#[export] Instance free_dec c s : Decision (free c s).
Proof. unfold free. apply _. Defined.

Lemma free_app c a b : free c (a ++ b) <-> free c a /\ free c b.
Proof. unfold free. rewrite elem_of_app. tauto. Qed.

Lemma free_cons c x s : free c (x :: s) <-> c <> x /\ free c s.
Proof. unfold free. rewrite elem_of_cons. tauto. Qed.

(** Text up to the first separator is determined. *)
Lemma line_inj c a b x y : free c a -> free c b -> a ++ c :: x = b ++ c :: y -> a = b /\ x = y.
Proof.
  revert b. induction a as [|u a IH]; intros [|v b] Ha Hb E; simpl in E.
  - by injection E as ->.
  - injection E as -> _. apply free_cons in Hb as [? _]. done.
  - injection E as <- _. apply free_cons in Ha as [? _]. done.
  - injection E as <- E. apply free_cons in Ha as [_ Ha], Hb as [_ Hb].
    destruct (IH b Ha Hb E) as [-> ->]. done.
Qed.

Lemma terminated_cons c x l : terminated c (x :: l) = x ++ c :: terminated c l.
Proof. unfold terminated. simpl. by rewrite <- app_assoc. Qed.

Lemma terminated_free c d l : Forall (free d) l -> c <> d -> free d (terminated c l).
Proof.
  intros H Hcd. induction H as [|x l Hx _ IH]; [by unfold free; intros ?%not_elem_of_nil|].
  rewrite terminated_cons. apply free_app. split; [done|]. apply free_cons. split; [congruence|done].
Qed.

(** A list of terminated items, followed by text without the terminator. *)
Lemma terminated_inj c l l' r r' :
  Forall (free c) l -> Forall (free c) l' -> free c r -> free c r' ->
  terminated c l ++ r = terminated c l' ++ r' -> l = l' /\ r = r'.
Proof.
  intros Hl. revert l'. induction Hl as [|x l Hx _ IH]; intros l' Hl' Hr Hr' E;
    destruct Hl' as [|y l' Hy Hl']; rewrite ?terminated_cons, <- ?app_assoc in E; simpl in E.
  - done.
  - exfalso. subst r. apply free_app in Hr as [_ Hr]. apply free_cons in Hr as [? _]. done.
  - exfalso. subst r'. apply free_app in Hr' as [_ Hr']. apply free_cons in Hr' as [? _]. done.
  - apply line_inj in E as [-> E]; [|done|done]. by destruct (IH l' Hl' Hr Hr' E) as [-> ->].
Qed.

(** A list of lines, followed by a line of another shape. *)
Lemma lines_until_inj (stop : str -> Prop) l l' s s' t t' :
  Forall (fun x => free lf x /\ ~ stop x) l -> Forall (fun x => free lf x /\ ~ stop x) l' ->
  free lf s -> free lf s' -> stop s -> stop s' ->
  terminated lf l ++ s ++ lf :: t = terminated lf l' ++ s' ++ lf :: t' -> l = l' /\ s = s' /\ t = t'.
Proof.
  intros Hl. revert l'. induction Hl as [|x l [Hx Hnx] _ IH]; intros l' Hl' Hs Hs' Hp Hp' E;
    destruct Hl' as [|y l' [Hy Hny] Hl']; rewrite ?terminated_cons, <- ?app_assoc in E; simpl in E.
  - by apply line_inj in E as [-> ->].
  - apply line_inj in E as [-> _]; done.
  - apply line_inj in E as [-> _]; done.
  - apply line_inj in E as [-> E]; [|done|done].
    by destruct (IH l' Hl' Hs Hs' Hp Hp' E) as (-> & -> & ->).
Qed.

(** ** The inputs of steps *)

Inductive step_input :=
| Input_Run (arch codec parent : str) (argv env : list str) (cwd user : option str) (secret_ids : list str)
| Input_Add (arch codec parent src_digest dst : str)
| Input_AddUrl (codec parent payload_digest dst : str)
| Input_AddOci (codec parent manifest_digest dst : str)
| Input_AddFrom (codec parent producer src_path dst : str).

Definition input_text (i : step_input) : str :=
  match i with
  | Input_Run arch codec parent argv env cwd user ids => run_key_text arch codec parent argv env cwd user ids
  | Input_Add arch codec parent src dst => add_key_text arch codec parent src dst
  | Input_AddUrl codec parent payload dst => url_add_key_text codec parent payload dst
  | Input_AddOci codec parent digest dst => oci_image_add_key_text codec parent digest dst
  | Input_AddFrom codec parent producer src dst => cross_stage_add_key_text codec parent producer src dst
  end.

Definition is_cwd_line (s : str) : Prop := starts_with "cwd:" s = true.

(** What the layout of the text needs: one-line fields, arguments without a NUL
    and environment entries that are not taken for the next field. *)
Definition well_framed (i : step_input) : Prop :=
  match i with
  | Input_Run arch codec parent argv env cwd user ids =>
      Forall (free lf) [arch; codec; parent; default [] cwd; default [] user]
      /\ Forall (free nul) [arch; codec; parent; default [] cwd; default [] user]
      /\ Forall (free nul) argv
      /\ Forall (fun e => free lf e /\ ~ is_cwd_line e) env /\ Forall (free nul) env
      /\ Forall (free lf) ids /\ Forall (free nul) ids
  | Input_Add arch codec parent src dst => Forall (free lf) [arch; codec; parent; src]
  | Input_AddUrl codec parent payload dst => Forall (free lf) [codec; parent; payload]
  | Input_AddOci codec parent digest dst => Forall (free lf) [codec; parent; digest]
  | Input_AddFrom codec parent producer src dst => Forall (free lf) [codec; parent; producer; src]
  end.

(** Inputs that are the same step: an absent working directory or user reads as
    an empty one, and the order of the secrets does not matter. *)
Definition same_input (i j : step_input) : Prop :=
  match i, j with
  | Input_Run arch codec parent argv env cwd user ids, Input_Run arch' codec' parent' argv' env' cwd' user' ids' =>
      arch = arch' /\ codec = codec' /\ parent = parent' /\ argv = argv' /\ env = env'
      /\ default [] cwd = default [] cwd' /\ default [] user = default [] user' /\ ids ≡ₚ ids'
  | Input_Run _ _ _ _ _ _ _ _, _ | _, Input_Run _ _ _ _ _ _ _ _ => False
  | i, j => i = j
  end.

Ltac line E := apply line_inj in E as [? E]; [|done|done].
Ltac forall_inv :=
  repeat match goal with H : Forall _ (_ :: _) |- _ => apply Forall_cons in H as [? H] end.

Lemma literal_free c (s : string) : bool_decide (c ∈ bytes_of s) = false -> free c s.
Proof. apply bool_decide_eq_false. Qed.

(** The fields of a [RUN] after its arguments. *)
Lemma run_tail_inj env env' cwd cwd' user user' ids ids' :
  Forall (fun e => free lf e /\ ~ is_cwd_line e) env -> Forall (fun e => free lf e /\ ~ is_cwd_line e) env' ->
  free lf cwd -> free lf cwd' -> free lf user -> free lf user' ->
  Forall (free lf) ids -> Forall (free lf) ids' ->
  terminated lf env ++ "cwd:" ++ cwd ++ [lf] ++ "user:" ++ user ++ [lf] ++ "secrets:" ++ [lf] ++ terminated lf ids
  = terminated lf env' ++ "cwd:" ++ cwd' ++ [lf] ++ "user:" ++ user' ++ [lf] ++ "secrets:" ++ [lf]
    ++ terminated lf ids' ->
  env = env' /\ cwd = cwd' /\ user = user' /\ ids = ids'.
Proof.
  intros He He' Hc Hc' Hu Hu' Hi Hi' E.
  destruct (lines_until_inj is_cwd_line env env' ("cwd:" ++ cwd) ("cwd:" ++ cwd')
    ("user:" ++ user ++ [lf] ++ "secrets:" ++ [lf] ++ terminated lf ids)
    ("user:" ++ user' ++ [lf] ++ "secrets:" ++ [lf] ++ terminated lf ids')) as (-> & Ec & E').
  1, 2: done.
  1, 2: apply free_app; split; [by apply literal_free|done].
  1, 2: done.
  { by rewrite <- !app_assoc. }
  apply app_inv_head in Ec, E'. line E'. do 2 apply app_inv_head in E'.
  destruct (terminated_inj lf ids ids' [] []) as [-> _]; try done; try by apply not_elem_of_nil.
  by rewrite !app_nil_r.
Qed.

Lemma run_rest_nul_free env cwd user ids :
  Forall (free nul) env -> free nul cwd -> free nul user -> Forall (free nul) ids ->
  free nul ([lf] ++ "env:" ++ [lf] ++ terminated lf env ++ "cwd:" ++ cwd ++ [lf] ++ "user:" ++ user ++ [lf]
            ++ "secrets:" ++ [lf] ++ terminated lf ids).
Proof.
  intros. repeat (apply free_app; split); try done; try (by apply literal_free); try (by apply terminated_free);
    by apply (bool_decide_eq_false_1 (nul ∈ [lf])).
Qed.

Lemma run_text_inj arch codec parent argv env cwd user ids arch' codec' parent' argv' env' cwd' user' ids' :
  well_framed (Input_Run arch codec parent argv env cwd user ids) ->
  well_framed (Input_Run arch' codec' parent' argv' env' cwd' user' ids') ->
  run_key_text arch codec parent argv env cwd user ids
  = run_key_text arch' codec' parent' argv' env' cwd' user' ids' ->
  same_input (Input_Run arch codec parent argv env cwd user ids)
             (Input_Run arch' codec' parent' argv' env' cwd' user' ids').
Proof.
  intros (H1 & H2 & H3 & H4 & H5 & H6 & H7) (H1' & H2' & H3' & H4' & H5' & H6' & H7') E. forall_inv.
  unfold run_key_text in E. do 3 apply app_inv_head in E. line E. apply app_inv_head in E. line E. line E.
  apply terminated_inj in E as [-> E]; [|done|done|..].
  2, 3: apply run_rest_nul_free; try done; by apply sort_strs_Forall.
  do 3 apply app_inv_head in E.
  apply run_tail_inj in E as (-> & Ec & Eu & Ei); try done; try by apply sort_strs_Forall.
  split_and!; try done. by rewrite <- (sort_strs_Permutation ids), Ei, sort_strs_Permutation.
Qed.

Lemma input_text_inj i j :
  well_framed i -> well_framed j -> input_text i = input_text j -> same_input i j.
Proof.
  destruct i, j; simpl input_text; intros Hi Hj E; try (by simpl in E; discriminate E).
  - by apply run_text_inj.
  - simpl in Hi, Hj. forall_inv. unfold add_key_text in E. do 3 apply app_inv_head in E. line E.
    apply app_inv_head in E. line E. line E. line E. simpl. congruence.
  - simpl in Hi, Hj. forall_inv. unfold url_add_key_text in E. do 3 apply app_inv_head in E. line E. line E. line E.
    simpl. congruence.
  - simpl in Hi, Hj. forall_inv. unfold oci_image_add_key_text in E. do 3 apply app_inv_head in E. line E. line E.
    line E. simpl. congruence.
  - simpl in Hi, Hj. forall_inv. unfold cross_stage_add_key_text in E. do 3 apply app_inv_head in E. line E. line E.
    line E. line E. simpl. congruence.
Qed.

(** The parent state of a step: the chain of layers, base and new. *)
Lemma parent_state_inj base new base' new' :
  Forall (fun d => free lf d /\ d <> "--") base -> Forall (fun d => free lf d /\ d <> "--") base' ->
  Forall (free lf) new -> Forall (free lf) new' ->
  parent_state_text base new = parent_state_text base' new' -> base = base' /\ new = new'.
Proof.
  intros Hb Hb' Hn Hn' E. unfold parent_state_text in E.
  destruct (lines_until_inj (fun s => s = "--") base base' "--" "--" (terminated lf new) (terminated lf new'))
    as (-> & _ & E'); try done; try by apply literal_free.
  destruct (terminated_inj lf new new' [] []) as [-> _]; try done; try by apply not_elem_of_nil.
  by rewrite !app_nil_r.
Qed.

(** A single file is determined by the text that is hashed for it. *)
Definition octal_value (s : str) : N := fold_left (fun a c => 8 * a + (code c - 48))%N s 0%N.

Definition octal_ok (n : nat) : bool :=
  (octal_value (to_octal (N.of_nat n)) =? N.of_nat n)%N && bool_decide (free lf (to_octal (N.of_nat n))).

Lemma octal_small m : (m < 4096)%N -> octal_value (to_octal m) = m /\ free lf (to_octal m).
Proof.
  intros Hm. assert (HA : forallb octal_ok (seq 0 4096) = true) by (vm_compute; reflexivity).
  rewrite forallb_forall in HA. specialize (HA (N.to_nat m)). rewrite in_seq in HA.
  specialize (HA ltac:(lia)). unfold octal_ok in HA. rewrite N2Nat.id in HA. bools.
  split; [by apply N.eqb_eq|done].
Qed.

Lemma file_text_inj n m b n' m' b' :
  free lf n -> free lf n' -> (m < 4096)%N -> (m' < 4096)%N ->
  add_source_text (Source_File (Some n) m b) = add_source_text (Source_File (Some n') m' b') ->
  n = n' /\ m = m' /\ b = b'.
Proof.
  intros Hn Hn' Hm Hm' E. unfold add_source_text, mode_line in E. rewrite <- !app_assoc in E.
  destruct (octal_small m Hm) as [Em Fm], (octal_small m' Hm') as [Em' Fm'].
  apply app_inv_head in E. line E. apply app_inv_head in E. line E. split_and!; [done| |done].
  rewrite <- Em, <- Em'. congruence.
Qed.

(** ** Properties *)

(** The key of a step. *)
Definition cache_key (sha256_hex : str -> str) (i : step_input) : str :=
  match i with
  | Input_Run arch codec parent argv env cwd user ids =>
      run_cache_key sha256_hex arch codec parent argv env cwd user ids
  | Input_Add arch codec parent src dst => add_cache_key sha256_hex arch codec parent src dst
  | Input_AddUrl codec parent payload dst => url_add_cache_key sha256_hex codec parent payload dst
  | Input_AddOci codec parent digest dst => oci_image_add_cache_key sha256_hex codec parent digest dst
  | Input_AddFrom codec parent producer src dst => cross_stage_add_cache_key sha256_hex codec parent producer src dst
  end.

(** Cache keys tell steps apart.  If the hash has no collision, two
    steps with the same key are the same step: the same kind, architecture,
    codec, parent layers, command, environment, working directory and user, and
    the same secrets in some order.  This holds for every input whose fields are
    one line, whose arguments have no NUL and whose environment entries do not
    read as the working-directory field. *)
Theorem cache_key_separates (sha256_hex : str -> str) i j :
  (forall s t, sha256_hex s = sha256_hex t -> s = t) ->
  well_framed i -> well_framed j ->
  cache_key sha256_hex i = cache_key sha256_hex j -> same_input i j.
Proof. intros Hinj Hi Hj E. apply input_text_inj; [done..|]. by destruct i, j; apply Hinj in E. Qed.

Lemma cache_key_separates_witness :
  let i ids := Input_Run "amd64" "gzip" "p" [("/bin/sh" : str); ("-c" : str)] [("A=1" : str)] None
                 (Some (bytes_of "build")) ids in
  same_input (i [("b" : str); ("a" : str)]) (i [("a" : str); ("b" : str)]).
Proof.
  apply (cache_key_separates (fun s => s)); [done| | |vm_compute; reflexivity];
    split_and!; repeat constructor; try (by apply (bool_decide_unpack (free _ _)); vm_compute);
    by intros ?.
Defined.
