(* ===== verification/BuildState.v ===== *)
(** * BuildState: the state of a stage build and its metadata directives
    (crates/umf-builder/src/engine_build/state.rs, directives.rs and
    fsutil.rs::resolve_workdir).

    What the builder asks of the host (archives, hashes, the clock, the
    container runtime and the file system) is the class [Host]. *)

From S2P Require Import Prelude RustStr RustStrFacts Subst Validation Identifiers Paths OciRef.
From S2P Require Import Target Ast ArgScope Image Json Layout Calendar StepCache.
Close Scope Z_scope.

(** ** Errors (mod.rs) *)

Inductive EngineError :=
| EngineError_ImageNotInLayout (reference : str)
| EngineError_NoManifestForPlatform (arch : str)
| EngineError_BuildAborted (stage_index step_index : nat)
| EngineError_LayerCountMismatch (layers diff_ids : nat)
| EngineError_UnsupportedLayerMediaType (media_type : str)
| EngineError_SerialiseSpec (e : str)
| EngineError_Io (e : str)
| EngineError_Json (e : str)
| EngineError_Registry (e : RegistryError)
| EngineError_Runtime (message : str).

Inductive EngineBuildError :=
| MultiStageNotSupported
| BaseImageArchMismatch (reference want found : str)
| AddUrlFetchFailed (url detail : str)
| AddUrlEgressDenied (url target address category : str)
| AddUrlArchiveUnsupported (url format : str)
| AddUrlExtractFailed (url format detail : str)
| Staging (e : str)
| AddFromUnknownStage (stage : str)
| AddFromForwardReference (stage : str)
| AddFromSelf (stage : str)
| NestedBootableStage (stage_index : nat) (from : str)
| MissingSecret (id : str)
| SecretResolution (id reason : str)
| AddSourceNotFound (path context : str)
| CopyRemoteSource (reference kind : str)
| AddPathTraversal (kind path : str)
| RunFailed (code : Z) (summary : str)
| NoManifestForPlatform (arch : str)
| BaseImageLayerCountMismatch (layers diff_ids : nat)
| Engine (e : EngineError)
| Registry (e : RegistryError)
| InvalidReference (reference detail : str)
| Io (e : str)
| Json (e : str).

(** ** The host *)

(** [RunSpec] and [BindMount] of umf-engine. *)
Record BindMount := { host_path : str; container_path : str; read_only : bool }.
Record RunSpec := {
  spec_id : str;
  spec_argv : list str;
  spec_env : list str;
  spec_working_dir : option str;
  spec_user : option str;
  spec_bind_mounts : list BindMount
}.

(** [umf_oci::format::Format]. *)
Inductive Format :=
| Format_Tar | Format_Gzip | Format_Zstd | Format_Xz | Format_Bzip2 | Format_Zip | Format_Squashfs
| Format_Unknown.

Record FetchedUrl := { fetched_digest : str; fetched_payload : str }.

Class Host := {
  (** The contents of a directory tree, and a prepared OCI bundle. *)
  Dir : Type;
  Bundle : Type;
  (** SHA-256 in hexadecimal; the archive of a tree; compression. *)
  sha256_hex : str -> str;
  build_tar : Dir -> result EngineBuildError str;
  compress : LayerCompression -> str -> result EngineBuildError str;
  (** The seconds read for the [n]th history entry. *)
  clock : nat -> Z;
  (** A fresh tree with the directories of a path. *)
  create_dir_all : str -> result EngineBuildError Dir;
  (** The lower directories of the base image; a run of a command on an overlay
      of lower directories, newest first: its exit code and its upper. *)
  base_lowers : Bundle -> list Dir;
  execute : Bundle -> list Dir -> RunSpec -> result EngineBuildError (option Z * Dir);
  (** The upper without the mount points of the secrets. *)
  scrub_secret_mountpoints : Dir -> list str -> Dir;
  (** [context_dir.join(path)], when it exists, and whether it stays inside. *)
  context_name : str;
  context_source : str -> option Source;
  context_contained : str -> result EngineBuildError unit;
  (** A path in the root file system of a built image. *)
  image_source : str -> str -> result EngineBuildError (option Source);
  image_contained : str -> str -> result EngineBuildError unit;
  (** The whole root file system of an image, placed at a path. *)
  image_rootfs_at : str -> str -> result EngineBuildError Dir;
  (** A copy of a source placed at a path of a fresh tree. *)
  copy_source : Source -> str -> result EngineBuildError Dir;
  (** A payload: its format, unpacked at a path, placed as a file. *)
  sniff_format : FetchedUrl -> result EngineBuildError Format;
  unpack_at : Format -> FetchedUrl -> str -> result str Dir;
  place_file : FetchedUrl -> str -> result EngineBuildError Dir;
  (** The OCI layout: blobs and references; [oci_client]'s reference parser. *)
  blob : str -> option (result EngineBuildError str);
  lookup_ref : str -> result EngineBuildError (option str);
  canonical_ref : str -> result str str
}.

(** ** State (state.rs) *)

Section state.
Context `{H : Host}.

Record BaseImage := { base_image_layers : list LayerSource; base_image_config : ImageConfig }.

Record BuildState := {
  image_config : ImageConfig;
  base_layers : list LayerSource;
  new_layers : list LayerSource;
  upper_guards : list Dir;
  current_shell : list str;
  adopted_from_cache : bool;
  compression : LayerCompression;
  arg_scope : scope
}.

Definition set_image_config (f : ImageConfig -> ImageConfig) (st : BuildState) : BuildState :=
  {| image_config := f (image_config st); base_layers := base_layers st; new_layers := new_layers st;
     upper_guards := upper_guards st; current_shell := current_shell st;
     adopted_from_cache := adopted_from_cache st; compression := compression st; arg_scope := arg_scope st |}.

Definition set_umf_type (k : L0Kind) (c : ImageConfig) : ImageConfig :=
  {| ic_architecture := ic_architecture c; ic_os := ic_os c; ic_created := ic_created c;
     ic_author := ic_author c; ic_container := ic_container c; ic_history := ic_history c;
     ic_umf_type := k; ic_umf_spec := ic_umf_spec c |}.

Definition set_container (f : ContainerConfig -> ContainerConfig) (c : ImageConfig) : ImageConfig :=
  {| ic_architecture := ic_architecture c; ic_os := ic_os c; ic_created := ic_created c;
     ic_author := ic_author c; ic_container := f (ic_container c); ic_history := ic_history c;
     ic_umf_type := ic_umf_type c; ic_umf_spec := ic_umf_spec c |}.

Definition add_history (e : HistoryEntry) (c : ImageConfig) : ImageConfig :=
  {| ic_architecture := ic_architecture c; ic_os := ic_os c; ic_created := ic_created c;
     ic_author := ic_author c; ic_container := ic_container c; ic_history := ic_history c ++ [e];
     ic_umf_type := ic_umf_type c; ic_umf_spec := ic_umf_spec c |}.

Definition BuildState_new (base : BaseImage) (c : LayerCompression) (globals : scope) : BuildState :=
  {| image_config := set_umf_type L0Kind_Container (base_image_config base);
     base_layers := base_image_layers base; new_layers := []; upper_guards := [];
     current_shell := [("/bin/sh" : str); ("-c" : str)]; adopted_from_cache := false; compression := c;
     arg_scope := globals |}.

Definition state_subst (st : BuildState) (text : str) : str := substitute (fun n => arg_scope st !! n) text.

Definition lower_stack (st : BuildState) (bottom : list Dir) : list Dir :=
  rev (upper_guards st) ++ bottom.

Definition assemble_layer_chain (st : BuildState) : list LayerSource := base_layers st ++ new_layers st.

(** The history entry of a line, stamped by the clock. *)
Definition history_entry (st : BuildState) (line : str) (empty : bool) : HistoryEntry :=
  {| history_created := Some (rfc3339 (clock (length (ic_history (image_config st)))));
     history_created_by := Some line; history_author := Some (bytes_of "umf-engine");
     history_comment := None; history_empty_layer := empty |}.

Definition push_metadata_history (line : str) (st : BuildState) : BuildState :=
  set_image_config (add_history (history_entry st line true)) st.

(** [LayerSource::from_directory_with]. *)
Definition package (c : LayerCompression) (upper : Dir) : result EngineBuildError LayerSource :=
  tar ← build_tar upper;
  layer_of_tar sha256_hex compress tar c.

Definition push_new_layer (upper : Dir) (line : str) (st : BuildState)
    : result EngineBuildError (LayerSource * BuildState) :=
  source ← package (compression st) upper;
  Ok (source,
      {| image_config := add_history (history_entry st line false) (image_config st);
         base_layers := base_layers st; new_layers := new_layers st ++ [source];
         upper_guards := upper_guards st ++ [upper]; current_shell := current_shell st;
         adopted_from_cache := adopted_from_cache st; compression := compression st;
         arg_scope := arg_scope st |}).

Definition adopt_cached_layer (layer : LayerSource) (line : str) (st : BuildState) : BuildState :=
  {| image_config := add_history (history_entry st line false) (image_config st);
     base_layers := base_layers st; new_layers := new_layers st ++ [layer];
     upper_guards := upper_guards st; current_shell := current_shell st; adopted_from_cache := true;
     compression := compression st; arg_scope := arg_scope st |}.

Definition set_current_shell (argv : list str) (st : BuildState) : BuildState :=
  {| image_config := image_config st; base_layers := base_layers st; new_layers := new_layers st;
     upper_guards := upper_guards st; current_shell := argv; adopted_from_cache := adopted_from_cache st;
     compression := compression st; arg_scope := arg_scope st |}.

Definition set_arg_scope (sc : scope) (st : BuildState) : BuildState :=
  {| image_config := image_config st; base_layers := base_layers st; new_layers := new_layers st;
     upper_guards := upper_guards st; current_shell := current_shell st;
     adopted_from_cache := adopted_from_cache st; compression := compression st; arg_scope := sc |}.
End state.
Arguments BuildState {H}.
