(* ===== verification/Directives.v ===== *)
(** * Directives: the metadata directives of a stage
    (crates/umf-builder/src/engine_build/directives.rs, fsutil.rs). *)

From S2P Require Import Prelude RustStr RustStrFacts Subst Validation Identifiers Paths OciRef.
From S2P Require Import Target Ast ArgScope Image Json Layout BuildState.

(** ** The code *)

(** *** Prompts *)

Inductive StepKind := StepKind_Run | StepKind_Add | StepKind_Metadata.

Definition classify_directive (d : Directive) : StepKind :=
  match d with
  | Directive_Run _ => StepKind_Run
  | Directive_Add _ => StepKind_Add
  | _ => StepKind_Metadata
  end.

(** [s.replace('\n', " ")]. *)
Definition one_line (s : str) : str := (fun c => if Ascii.eqb c lf then (" " : ascii) else c) <$> s.

Definition truncate_for_prompt (s : str) (max : nat) : str :=
  let oneline := one_line s in
  if bool_decide (length (chars oneline) <= max) then oneline
  else concat (take (max - 1) (chars oneline)) ++ "…".

Definition describe_directive (d : Directive) : str :=
  let raw : str :=
    match d with
    | Directive_Run r =>
        "RUN " ++ match run_command r with
                  | RunCommand_Shell s => value s
                  | RunCommand_Exec parts => join " " (value <$> parts)
                  end
    | Directive_Add a =>
        "ADD " ++ AddSource_as_str (add_source a) ++ " " ++ as_str (value (add_destination a))
    | Directive_Label _ => "LABEL"
    | Directive_Env _ => "ENV"
    | Directive_Arg _ => "ARG"
    | Directive_User _ => "USER"
    | Directive_Workdir _ => "WORKDIR"
    | Directive_Entrypoint _ => "ENTRYPOINT"
    | Directive_Expose _ => "EXPOSE"
    | Directive_Shell _ => "SHELL"
    | Directive_Cmd _ => "CMD"
    | Directive_Volume _ => "VOLUME"
    | Directive_Stopsignal _ => "STOPSIGNAL"
    end in
  truncate_for_prompt raw 80.

(** *** Working directories *)


Definition resolve_workdir (current requested : str) : str :=
  if starts_with "/" requested then requested
  else trim_end "/" current ++ "/" ++ requested.

(** *** Container settings *)

Definition with_user (u : option str) (c : ContainerConfig) : ContainerConfig :=
  {| cc_user := u; cc_env := cc_env c; cc_entrypoint := cc_entrypoint c; cc_cmd := cc_cmd c;
     cc_working_dir := cc_working_dir c; cc_exposed_ports := cc_exposed_ports c; cc_volumes := cc_volumes c;
     cc_stop_signal := cc_stop_signal c; cc_labels := cc_labels c |}.
Definition with_env (env : list str) (c : ContainerConfig) : ContainerConfig :=
  {| cc_user := cc_user c; cc_env := env; cc_entrypoint := cc_entrypoint c; cc_cmd := cc_cmd c;
     cc_working_dir := cc_working_dir c; cc_exposed_ports := cc_exposed_ports c; cc_volumes := cc_volumes c;
     cc_stop_signal := cc_stop_signal c; cc_labels := cc_labels c |}.
Definition with_entrypoint (argv : option (list str)) (c : ContainerConfig) : ContainerConfig :=
  {| cc_user := cc_user c; cc_env := cc_env c; cc_entrypoint := argv; cc_cmd := cc_cmd c;
     cc_working_dir := cc_working_dir c; cc_exposed_ports := cc_exposed_ports c; cc_volumes := cc_volumes c;
     cc_stop_signal := cc_stop_signal c; cc_labels := cc_labels c |}.
Definition with_cmd (argv : option (list str)) (c : ContainerConfig) : ContainerConfig :=
  {| cc_user := cc_user c; cc_env := cc_env c; cc_entrypoint := cc_entrypoint c; cc_cmd := argv;
     cc_working_dir := cc_working_dir c; cc_exposed_ports := cc_exposed_ports c; cc_volumes := cc_volumes c;
     cc_stop_signal := cc_stop_signal c; cc_labels := cc_labels c |}.
Definition with_working_dir (d : option str) (c : ContainerConfig) : ContainerConfig :=
  {| cc_user := cc_user c; cc_env := cc_env c; cc_entrypoint := cc_entrypoint c; cc_cmd := cc_cmd c;
     cc_working_dir := d; cc_exposed_ports := cc_exposed_ports c; cc_volumes := cc_volumes c;
     cc_stop_signal := cc_stop_signal c; cc_labels := cc_labels c |}.
Definition with_exposed_ports (ps : list str) (c : ContainerConfig) : ContainerConfig :=
  {| cc_user := cc_user c; cc_env := cc_env c; cc_entrypoint := cc_entrypoint c; cc_cmd := cc_cmd c;
     cc_working_dir := cc_working_dir c; cc_exposed_ports := ps; cc_volumes := cc_volumes c;
     cc_stop_signal := cc_stop_signal c; cc_labels := cc_labels c |}.
Definition with_volumes (vs : list str) (c : ContainerConfig) : ContainerConfig :=
  {| cc_user := cc_user c; cc_env := cc_env c; cc_entrypoint := cc_entrypoint c; cc_cmd := cc_cmd c;
     cc_working_dir := cc_working_dir c; cc_exposed_ports := cc_exposed_ports c; cc_volumes := vs;
     cc_stop_signal := cc_stop_signal c; cc_labels := cc_labels c |}.
Definition with_stop_signal (s : option str) (c : ContainerConfig) : ContainerConfig :=
  {| cc_user := cc_user c; cc_env := cc_env c; cc_entrypoint := cc_entrypoint c; cc_cmd := cc_cmd c;
     cc_working_dir := cc_working_dir c; cc_exposed_ports := cc_exposed_ports c; cc_volumes := cc_volumes c;
     cc_stop_signal := s; cc_labels := cc_labels c |}.

Section directives.
Context `{H : Host}.

Definition container (st : BuildState) : ContainerConfig := ic_container (image_config st).
Definition update_container (f : ContainerConfig -> ContainerConfig) (st : BuildState) : BuildState :=
  set_image_config (set_container f) st.

(** [vec.push(x)] unless [vec.contains(&x)]. *)
Definition push_unique (x : str) (l : list str) : list str := if decide (x ∈ l) then l else l ++ [x].

(** *** Handlers *)

Definition apply_workdir (st : BuildState) (wd : Workdir) : result EngineBuildError BuildState :=
  let original := as_str (value (workdir_path wd)) in
  let requested := state_subst st original in
  let current := default (bytes_of "/") (cc_working_dir (container st)) in
  let resolved := resolve_workdir current requested in
  upper ← create_dir_all (trim_start "/" resolved);
  '(_, st) ← push_new_layer upper ("WORKDIR " ++ original) st;
  Ok (update_container (with_working_dir (Some resolved)) st).

Definition apply_user (st : BuildState) (u : User) : BuildState :=
  let original := as_str (value (user_name u)) in
  let st := push_metadata_history ("USER " ++ original) st in
  update_container (with_user (Some (state_subst st original))) st.

Definition apply_env (st : BuildState) (e : Env) : BuildState :=
  let key := as_str (value (env_key e)) in
  let original_value := as_str (value (env_value e)) in
  let entry := key ++ "=" ++ state_subst st original_value in
  let prefix := key ++ "=" in
  let env := filter (fun e => starts_with prefix e = false) (cc_env (container st)) in
  let st := update_container (with_env (env ++ [entry])) st in
  push_metadata_history ("ENV " ++ key ++ "=" ++ original_value) st.

Definition apply_shell (st : BuildState) (s : Shell) : BuildState :=
  let argv := value <$> shell_argv s in
  let st := push_metadata_history ("SHELL " ++ match argv with [] => "(none)" | _ => "switched" end) st in
  set_current_shell argv st.

Definition apply_label (st : BuildState) (l : Label) : BuildState :=
  let key := as_str (value (label_key l)) in
  let original_value := as_str (value (label_value l)) in
  let st := push_metadata_history ("LABEL " ++ key ++ "=" ++ original_value) st in
  update_container (set_labels (insert key (state_subst st original_value))) st.

Definition apply_arg (build_args : scope) (st : BuildState) (arg : Arg) : BuildState :=
  set_arg_scope (apply_arg_to_scope (arg_scope st) arg build_args) st.

(** The argv of a shell-form [CMD] or [ENTRYPOINT]. *)
Definition shell_command (st : BuildState) (original : str) : list str :=
  match current_shell st with [] => [("/bin/sh" : str); ("-c" : str)] | argv => argv end
  ++ [state_subst st original].

Definition apply_entrypoint (st : BuildState) (init : EntrypointInit) : BuildState :=
  match init with
  | EntrypointInit_Path s =>
      let original := value s in
      let st := update_container (with_entrypoint (Some (shell_command st original))) st in
      push_metadata_history ("ENTRYPOINT " ++ original) st
  | EntrypointInit_Exec parts =>
      let argv := (fun p => state_subst st (value p)) <$> parts in
      let st := push_metadata_history ("ENTRYPOINT " ++ join " " (value <$> parts)) st in
      update_container (with_entrypoint (Some argv)) st
  | EntrypointInit_None =>
      update_container (with_entrypoint None) (push_metadata_history "ENTRYPOINT none" st)
  | EntrypointInit_Systemd =>
      push_metadata_history "ENTRYPOINT systemd"
        (update_container (with_entrypoint (Some [("/usr/sbin/init" : str)])) st)
  | EntrypointInit_OpenRc =>
      push_metadata_history "ENTRYPOINT openrc"
        (update_container (with_entrypoint (Some [("/sbin/openrc-init" : str)])) st)
  end.

Definition protocol_str (p : ExposeProtocol) : str :=
  match p with ExposeProtocol_Tcp => "tcp" | ExposeProtocol_Udp => "udp" end.

Definition apply_expose (st : BuildState) (e : Expose) : BuildState :=
  let entry := to_decimal (expose_port e) ++ "/" ++ protocol_str (expose_protocol e) in
  let st := update_container
              (with_exposed_ports (push_unique entry (cc_exposed_ports (container st)))) st in
  push_metadata_history ("EXPOSE " ++ entry) st.

Definition apply_cmd (st : BuildState) (c : Cmd) : BuildState :=
  let '(argv, history) :=
    match cmd_command c with
    | CmdForm_Shell s => (shell_command st (value s), value s)
    | CmdForm_Exec parts =>
        ((fun p => state_subst st (value p)) <$> parts, join " " (value <$> parts))
    end in
  let st := push_metadata_history ("CMD " ++ history) st in
  update_container (with_cmd (Some argv)) st.

Definition apply_volume (st : BuildState) (v : Volume) : BuildState :=
  let volumes := fold_left (fun vs p => push_unique (state_subst st (value p)) vs) (volume_paths v)
                   (cc_volumes (container st)) in
  let st := update_container (with_volumes volumes) st in
  push_metadata_history ("VOLUME " ++ join " " (value <$> volume_paths v)) st.

Definition apply_stopsignal (st : BuildState) (s : Stopsignal) : BuildState :=
  let sig := value (stopsignal_signal s) in
  let st := push_metadata_history ("STOPSIGNAL " ++ sig) st in
  update_container (with_stop_signal (Some sig)) st.
End directives.
