(* ===== verification/EngineBuild.v ===== *)
(** * EngineBuild: the walk over the directives of a stage, with the layer cache
    (crates/umf-builder/src/engine_build/{mod,directives,run,add,cache,fetch}.rs).

    The cache directory is a finite map threaded through the steps; what is
    stored stays stored when a later step fails. *)

From S2P Require Import Prelude RustStr RustStrFacts Subst Validation Identifiers Paths OciRef.
From S2P Require Import Target Ast ArgScope Image Json Layout StepCache BuildState Directives.

(** ** The step cache *)

Record CachedStep := {
  blob_digest : str;
  cached_diff_id : str;
  cached_media_type : str;
  history_line : str
}.
Abbreviation Cache := (gmap str CachedStep).

(** A computation with the cache and errors. *)
Definition Step (A : Type) : Type := Cache -> result EngineBuildError A * Cache.
#[export] Instance Step_ret : MRet Step := fun A a c => (Ok a, c).
#[export] Instance Step_bind : MBind Step := fun A B k m c =>
  match m c with (Ok a, c') => k a c' | (Err e, c') => (Err e, c') end.
Definition of_result {A} (r : result EngineBuildError A) : Step A := fun c => (r, c).
Definition cache_lookup (key : str) : Step (option CachedStep) := fun c => (Ok (c !! key), c).
Definition cache_store (key : str) (entry : CachedStep) : Step unit := fun c => (Ok tt, <[key := entry]> c).

Inductive StepFlow := StepFlow_Continue | StepFlow_RebuildWithoutCache.

Record BuildCtx := {
  ctx_secrets : gmap str str;
  ctx_produced : gmap str str;
  ctx_fetched_urls : gmap str FetchedUrl;
  ctx_architecture : Architecture;
  ctx_compression : LayerCompression;
  ctx_globals : scope;
  ctx_build_args : scope
}.

Record StepInfo := {
  info_stage_index : nat;
  info_stage_total : nat;
  info_step_index : nat;
  info_step_total : nat;
  info_kind : StepKind;
  info_description : str
}.

(** ** Paths of [ADD] (add.rs, fetch.rs) *)

(** [Path::components] has a [ParentDir]. *)
Definition has_parent_dir (raw : str) : bool := existsb (fun p : str => bool_decide (p = "..")) (split "/" raw).

Definition reject_traversal (kind raw : str) : result EngineBuildError unit :=
  if has_parent_dir raw then Err (AddPathTraversal kind raw) else Ok tt.

Definition source_name (src : Source) : option str :=
  match src with Source_File name _ _ | Source_Tree name _ => name end.
Definition is_dir (src : Source) : bool := match src with Source_Tree _ _ => true | _ => false end.

Definition compute_add_destination (dst : str) (src : Source) : str :=
  if ends_with_byte "/" dst then dst ++ default (bytes_of "file") (source_name src)
  else if is_dir src then dst ++ "/"
  else dst.

(** [s.split_once(pat)]. *)
Fixpoint split_once_str (pat s : str) : option (str * str) :=
  match strip_prefix pat s with
  | Some rest => Some ([], rest)
  | None => match s with
            | [] => None
            | c :: s' => option_map (fun p => (c :: p.1, p.2)) (split_once_str pat s')
            end
  end.

Definition url_leaf (url : str) : str :=
  let no_fragment := default url (head (split "#" url)) in
  let no_query := default no_fragment (head (split "?" no_fragment)) in
  let after_scheme := match split_once_str "://" no_query with Some (_, r) => r | None => no_query end in
  match last (split "/" after_scheme) with
  | Some leaf => if negb (bool_decide (leaf = [])) && negb (bool_decide (leaf = after_scheme))
                 then leaf else "download"
  | None => "download"
  end.

Definition plain_copy_rejected_kind (source : AddSource) : option str :=
  match source with
  | AddSource_Url _ => Some (bytes_of "a URL")
  | AddSource_Oci _ => Some (bytes_of "an OCI image reference")
  | AddSource_Path _ => None
  end.

Definition Format_as_str (f : Format) : str :=
  match f with
  | Format_Tar => "tar" | Format_Gzip => "gzip" | Format_Zstd => "zstd" | Format_Xz => "xz"
  | Format_Bzip2 => "bzip2" | Format_Zip => "zip" | Format_Squashfs => "squashfs" | Format_Unknown => "unknown"
  end.

Section build.
Context `{H : Host}.

(** ** Cache entries *)

Definition layer_from_cache (entry : CachedStep) : result EngineBuildError (option LayerSource) :=
  match blob (blob_digest entry) with
  | None => Ok None
  | Some bytes =>
      bytes ← bytes;
      Ok (Some {| layer_data := bytes; layer_media_type := cached_media_type entry;
                  layer_diff_id := cached_diff_id entry |})
  end.

(** The lookup every layer step starts with. *)
Definition cached_layer (lookup_cache : bool) (key : str) : Step (option (LayerSource * str)) :=
  if lookup_cache then
    entry ← cache_lookup key;
    match entry with
    | None => mret None
    | Some entry =>
        reused ← of_result (layer_from_cache entry);
        mret (option_map (fun l => (l, history_line entry)) reused)
    end
  else mret None.

Definition store_layer_cache (key : str) (layer : LayerSource) (line : str) : Step unit :=
  cache_store key {| blob_digest := sha256_digest sha256_hex (layer_data layer);
                     cached_diff_id := layer_diff_id layer; cached_media_type := layer_media_type layer;
                     history_line := line |}.

(** [package_and_cache_upper], and the end of [apply_run]. *)
Definition package_and_cache_upper (st : BuildState) (key : str) (upper : Dir) (line : str) : Step BuildState :=
  '(layer, st) ← of_result (push_new_layer upper line st);
  _ ← store_layer_cache key layer line;
  mret st.

Definition parent_state_hash (st : BuildState) : str :=
  parent_hash sha256_hex (layer_diff_id <$> base_layers st) (layer_diff_id <$> new_layers st).

(** ** RUN (run.rs) *)

(** The executed argv and the history line. *)
Definition run_argv (st : BuildState) (command : RunCommand) : list str * str :=
  match command with
  | RunCommand_Shell s =>
      (current_shell st ++ [state_subst st (value s)], "RUN " ++ value s)
  | RunCommand_Exec parts =>
      ((fun p => state_subst st (value p)) <$> parts, "RUN " ++ join " " (value <$> parts))
  end.

(** The bind mounts, the ids and the container paths of the secrets. *)
Fixpoint secret_mounts (secrets : gmap str str) (mounts : list RunMount)
    : result EngineBuildError (list BindMount * list str * list str) :=
  match mounts with
  | [] => Ok ([], [], [])
  | m :: mounts =>
      let '(RunMountKind_Secret id target) := mount_kind m in
      let id_str := as_str (value id) in
      host ← ok_or (secrets !! id_str) (MissingSecret id_str);
      let path := match target with Some t => as_str (value t) | None => "/run/secrets/" ++ id_str end in
      '(binds, ids, targets) ← secret_mounts secrets mounts;
      Ok ({| host_path := host; container_path := path; read_only := true |} :: binds,
          id_str :: ids, path :: targets)
  end.

Definition run_key (ctx : BuildCtx) (st : BuildState) (argv : list str) (ids : list str) : str :=
  run_cache_key sha256_hex (oci_arch_string (ctx_architecture ctx)) (media_type (compression st))
    (parent_state_hash st) argv (cc_env (container st)) (cc_working_dir (container st))
    (cc_user (container st)) ids.

Definition apply_run (ctx : BuildCtx) (bundle : Bundle) (st : BuildState) (run : Run) (step_n : nat)
    (lookup_cache : bool) : Step (StepFlow * BuildState) :=
  let '(argv, summary) := run_argv st (run_command run) in
  '(binds, ids, targets) ← of_result (secret_mounts (ctx_secrets ctx) (run_mounts run));
  let key := run_key ctx st argv ids in
  hit ← cached_layer lookup_cache key;
  match hit with
  | Some (reused, line) => mret (StepFlow_Continue, adopt_cached_layer reused line st)
  | None =>
      if adopted_from_cache st then mret (StepFlow_RebuildWithoutCache, st)
      else
        let spec := {| spec_id := "umf-build-step-" ++ nat_to_decimal step_n; spec_argv := argv;
                       spec_env := cc_env (container st); spec_working_dir := cc_working_dir (container st);
                       spec_user := cc_user (container st); spec_bind_mounts := binds |} in
        '(exit_code, upper) ← of_result (execute bundle (lower_stack st (base_lowers bundle)) spec);
        if bool_decide (exit_code = Some 0%Z) then
          st ← package_and_cache_upper st key (scrub_secret_mountpoints upper targets) summary;
          mret (StepFlow_Continue, st)
        else of_result (Err (RunFailed (default (-1)%Z exit_code) summary))
  end.

(** ** ADD (add.rs) *)

(** A layer step that needs no overlay: a hit is adopted, a miss builds the
    upper and stores the layer. *)
Definition cached_add (lookup_cache : bool) (st : BuildState) (key line : str) (build_upper : result EngineBuildError Dir)
    : Step BuildState :=
  hit ← cached_layer lookup_cache key;
  match hit with
  | Some (reused, line) => mret (adopt_cached_layer reused line st)
  | None =>
      upper ← of_result build_upper;
      package_and_cache_upper st key upper line
  end.

(** The upper of [stage_copy_layer]. *)
Definition copy_upper (src : Source) (dst : str) : result EngineBuildError Dir :=
  copy_source src (trim_start "/" (compute_add_destination dst src)).

Definition apply_add_from_stage (ctx : BuildCtx) (st : BuildState) (src_path dst from_stage : str)
    (lookup_cache : bool) (line : str) : Step BuildState :=
  producer_ref ← of_result (ok_or (ctx_produced ctx !! from_stage) (AddFromUnknownStage from_stage));
  found ← of_result (lookup_ref producer_ref);
  digest ← of_result (ok_or found (Registry (RegistryError_NotFound producer_ref)));
  let key := cross_stage_add_cache_key sha256_hex (media_type (compression st)) (parent_state_hash st)
               digest src_path dst in
  cached_add lookup_cache st key line (
    src ← image_source producer_ref (trim_start "/" src_path);
    src ← ok_or src (AddSourceNotFound src_path ("stage `" ++ from_stage ++ "` rootfs"));
    _ ← image_contained producer_ref (trim_start "/" src_path);
    copy_upper src dst).

(** The upper of a fetched payload. *)
Definition url_upper (url dst : str) (fetched : FetchedUrl) : result EngineBuildError Dir :=
  format ← sniff_format fetched;
  match format with
  | Format_Tar | Format_Gzip | Format_Zstd | Format_Xz | Format_Bzip2 | Format_Zip =>
      map_err (AddUrlExtractFailed url (Format_as_str format)) (unpack_at format fetched (trim_start "/" dst))
  | Format_Squashfs => Err (AddUrlArchiveUnsupported url (Format_as_str format))
  | Format_Unknown =>
      let dst_inside := if ends_with_byte "/" dst then dst ++ url_leaf url else dst in
      _ ← reject_traversal "destination" dst_inside;
      place_file fetched (trim_start "/" dst_inside)
  end.

Definition apply_add_url (ctx : BuildCtx) (st : BuildState) (url_raw dst_raw : str) (lookup_cache : bool)
    : Step BuildState :=
  let line := "ADD " ++ url_raw ++ " " ++ dst_raw in
  let url := state_subst st url_raw in
  let dst := state_subst st dst_raw in
  _ ← of_result (reject_traversal "destination" dst);
  fetched ← of_result (ok_or (ctx_fetched_urls ctx !! url)
                         (AddUrlFetchFailed url "payload was not staged by the fetch phase"));
  let key := url_add_cache_key sha256_hex (media_type (compression st)) (parent_state_hash st)
               (fetched_digest fetched) dst in
  cached_add lookup_cache st key line (url_upper url dst fetched).

Definition apply_add_oci_image (st : BuildState) (image_ref_raw dst_raw : str) (lookup_cache : bool)
    : Step BuildState :=
  let line := "ADD " ++ image_ref_raw ++ " " ++ dst_raw in
  let image_ref := state_subst st image_ref_raw in
  let dst := state_subst st dst_raw in
  _ ← of_result (reject_traversal "destination" dst);
  canonical ← of_result (map_err (InvalidReference image_ref) (canonical_ref image_ref));
  found ← of_result (lookup_ref canonical);
  digest ← of_result (ok_or found (Registry (RegistryError_NotFound canonical)));
  let key := oci_image_add_cache_key sha256_hex (media_type (compression st)) (parent_state_hash st) digest dst in
  cached_add lookup_cache st key line (image_rootfs_at canonical dst).

Definition apply_add (ctx : BuildCtx) (st : BuildState) (add : Add) (lookup_cache : bool) : Step BuildState :=
  let dst_raw := as_str (value (add_destination add)) in
  match (if add_plain_copy add then plain_copy_rejected_kind (add_source add) else None) with
  | Some kind => of_result (Err (CopyRemoteSource (AddSource_as_str (add_source add)) kind))
  | None =>
      match add_source add with
      | AddSource_Url u => apply_add_url ctx st (url_raw (value u)) dst_raw lookup_cache
      | AddSource_Oci r => apply_add_oci_image st (oci_raw (value r)) dst_raw lookup_cache
      | AddSource_Path p =>
          let src_raw := value p in
          let src_path := state_subst st src_raw in
          let dst := state_subst st dst_raw in
          let verb : str := if add_plain_copy add then "COPY" else "ADD" in
          _ ← of_result (reject_traversal "source" src_path);
          _ ← of_result (reject_traversal "destination" dst);
          match add_from add with
          | Some from =>
              apply_add_from_stage ctx st src_path dst (as_str (value from)) lookup_cache
                (verb ++ " --from=" ++ as_str (value from) ++ " " ++ src_raw ++ " " ++ dst_raw)
          | None =>
              let rel := trim_start "/" src_path in
              src ← of_result (ok_or (context_source rel) (AddSourceNotFound src_path context_name));
              _ ← of_result (context_contained rel);
              let key := add_cache_key sha256_hex (oci_arch_string (ctx_architecture ctx))
                           (media_type (compression st)) (parent_state_hash st)
                           (add_source_digest sha256_hex src) dst in
              cached_add lookup_cache st key (verb ++ " " ++ src_raw ++ " " ++ dst_raw) (copy_upper src dst)
          end
      end
  end.

(** ** The walk (directives.rs, mod.rs) *)

Definition continue_with (r : result EngineBuildError BuildState) : Step (StepFlow * BuildState) :=
  st ← of_result r; mret (StepFlow_Continue, st).

Definition apply_directive (ctx : BuildCtx) (bundle : Bundle) (st : BuildState) (d : Directive) (step_n : nat)
    (lookup_cache : bool) : Step (StepFlow * BuildState) :=
  match d with
  | Directive_Run run => apply_run ctx bundle st run step_n lookup_cache
  | Directive_Add add => st ← apply_add ctx st add lookup_cache; mret (StepFlow_Continue, st)
  | Directive_Workdir wd => continue_with (apply_workdir st wd)
  | Directive_User u => continue_with (Ok (apply_user st u))
  | Directive_Env e => continue_with (Ok (apply_env st e))
  | Directive_Arg arg => continue_with (Ok (apply_arg (ctx_build_args ctx) st arg))
  | Directive_Shell s => continue_with (Ok (apply_shell st s))
  | Directive_Label l => continue_with (Ok (apply_label st l))
  | Directive_Entrypoint ep => continue_with (Ok (apply_entrypoint st (entrypoint_init ep)))
  | Directive_Expose e => continue_with (Ok (apply_expose st e))
  | Directive_Cmd c => continue_with (Ok (apply_cmd st c))
  | Directive_Volume v => continue_with (Ok (apply_volume st v))
  | Directive_Stopsignal s => continue_with (Ok (apply_stopsignal st s))
  end.

Section stage.
Context (ctx : BuildCtx) (bundle : Bundle) (hook : option (StepInfo -> bool))
        (stage_index stage_total step_total : nat).

(** [h.before_step(&info)] asks to abort. *)
Definition aborts (d : Directive) (step_n : nat) : bool :=
  match hook with
  | Some before_step =>
      before_step {| info_stage_index := stage_index; info_stage_total := stage_total;
                     info_step_index := step_n; info_step_total := step_total;
                     info_kind := classify_directive d; info_description := describe_directive d |}
  | None => false
  end.

(** The loop over the directives; [None] asks for a rebuild without the cache. *)
Fixpoint walk (lookup_cache : bool) (ds : list Directive) (st : BuildState) (step_n : nat)
    : Step (option BuildState) :=
  match ds with
  | [] => mret (Some st)
  | d :: ds =>
      let step_n := step_n + 1 in
      if aborts d step_n then of_result (Err (Engine (EngineError_BuildAborted stage_index step_n)))
      else
        '(flow, st) ← apply_directive ctx bundle st d step_n lookup_cache;
        match flow with
        | StepFlow_RebuildWithoutCache => mret None
        | StepFlow_Continue => walk lookup_cache ds st step_n
        end
  end.

(** The attempts of [build_one_stage]: with cache lookups, then without. *)
Fixpoint attempts (fuel : nat) (lookup_cache : bool) (ds : list Directive) (base : BaseImage) (c : Cache)
    : outcome (result EngineBuildError BuildState * Cache) :=
  match fuel with
  | 0 => OutOfFuel
  | S fuel' =>
      match walk lookup_cache ds (BuildState_new base (ctx_compression ctx) (ctx_globals ctx)) 0 c with
      | (Err e, c) => Val (Err e, c)
      | (Ok (Some st), c) => Val (Ok st, c)
      | (Ok None, c) => attempts fuel' false ds base c
      end
  end.

(** The layers and the configuration [build_one_stage] emits. *)
Definition build_one_stage (ds : list Directive) (base : BaseImage) (c : Cache)
    : outcome (result EngineBuildError (list LayerSource * ImageConfig) * Cache) :=
  '(r, c) ← attempts 2 true ds base c;
  Val (st ← r; Ok (assemble_layer_chain st, image_config st), c).
End stage.
End build.
