(* ===== verification/CrossStage.v ===== *)
(** * CrossStage: references between the stages of a recipe
    (crates/umf-builder/src/engine_build/mod.rs, [check_cross_stage_refs]). *)

From S2P Require Import Prelude RustStr RustStrFacts Subst Validation Identifiers Paths OciRef.
From S2P Require Import Target Ast ArgScope Image Json Layout StepCache BuildState.

Definition stage_name_str (s : Stage) : option str := (fun n => as_str (value n)) <$> stage_name s.

Definition add_from_str (d : Directive) : option str :=
  match d with Directive_Add a => (fun n => as_str (value n)) <$> add_from a | _ => None end.

(** The loops of [check_cross_stage_refs]: [later] are the stages after [own]. *)
Fixpoint check_stage_refs (seen : gset str) (own : option str) (later : list (option str)) (ds : list Directive)
    : result EngineBuildError unit :=
  match ds with
  | [] => Ok tt
  | d :: ds =>
      match add_from_str d with
      | None => check_stage_refs seen own later ds
      | Some target =>
          if decide (target ∈ seen) then check_stage_refs seen own later ds
          else if bool_decide (own = Some target) then Err (AddFromSelf target)
          else if bool_decide (Some target ∈ later) then Err (AddFromForwardReference target)
          else Err (AddFromUnknownStage target)
      end
  end.

Fixpoint check_stages (seen : gset str) (ss : list Stage) : result EngineBuildError unit :=
  match ss with
  | [] => Ok tt
  | s :: ss =>
      _ ← check_stage_refs seen (stage_name_str s) (stage_name_str <$> ss) (stage_directives s);
      check_stages (match stage_name_str s with Some n => {[n]} ∪ seen | None => seen end) ss
  end.

Definition check_cross_stage_refs (ast : Ast) : result EngineBuildError unit := check_stages ∅ (stages ast).

(** ** Correctness *)

Definition named (t : str) (s : Stage) : Prop := stage_name_str s = Some t.

(** Stage [s], at position [i], has an [ADD --from=t]. *)
Definition refers (ss : list Stage) (i : nat) (s : Stage) (t : str) : Prop :=
  ss !! i = Some s /\ exists d, d ∈ stage_directives s /\ add_from_str d = Some t.

Definition named_before (ss : list Stage) (i : nat) (t : str) : Prop :=
  exists j s, j < i /\ ss !! j = Some s /\ named t s.
Definition named_after (ss : list Stage) (i : nat) (t : str) : Prop :=
  exists j s, i < j /\ ss !! j = Some s /\ named t s.

(** What the outcome of the check says of a reference [t] from a stage. *)
Inductive bad_reference (before own after : Prop) (t : str) : EngineBuildError -> Prop :=
| bad_self : ~ before -> own -> bad_reference before own after t (AddFromSelf t)
| bad_forward : ~ before -> ~ own -> after -> bad_reference before own after t (AddFromForwardReference t)
| bad_unknown : ~ before -> ~ own -> ~ after -> bad_reference before own after t (AddFromUnknownStage t).

Lemma check_stage_refs_spec seen own later ds :
  match check_stage_refs seen own later ds with
  | Ok _ => forall d t, d ∈ ds -> add_from_str d = Some t -> t ∈ seen
  | Err e => exists d t, d ∈ ds /\ add_from_str d = Some t
      /\ bad_reference (t ∈ seen) (own = Some t) (Some t ∈ later) t e
  end.
Proof.
  induction ds as [|d ds IH]; simpl.
  { intros d t []%not_elem_of_nil. }
  destruct (add_from_str d) as [t|] eqn:Ed; [|].
  - destruct (decide (t ∈ seen)) as [Hs|Hs].
    + destruct (check_stage_refs seen own later ds) as [[]|e].
      * intros d' t' [->|Hd]%elem_of_cons E; [congruence|by eapply IH].
      * destruct IH as (d' & t' & Hd & IH). exists d', t'. split; [by right|done].
    + repeat case_bool_decide; exists d, t; (split; [by left|]); (split; [done|]); by constructor.
  - destruct (check_stage_refs seen own later ds) as [[]|e].
    + intros d' t' [->|Hd]%elem_of_cons E; [congruence|by eapply IH].
    + destruct IH as (d' & t' & Hd & IH). exists d', t'. split; [by right|done].
Qed.

Lemma named_before_snoc pre s ss t :
  named_before (pre ++ s :: ss) (S (length pre)) t <-> named_before (pre ++ s :: ss) (length pre) t \/ named t s.
Proof.
  split.
  - intros (j & s' & Hj & Hl & Hn). destruct (decide (j = length pre)) as [->|].
    + rewrite list_lookup_middle in Hl by done. injection Hl as ->. by right.
    + left. exists j, s'. split; [lia|done].
  - intros [(j & s' & Hj & HR)|Hn]; [exists j, s'; split; [lia|done]|].
    exists (length pre), s. rewrite list_lookup_middle by done. split; [lia|done].
Qed.

Lemma named_after_middle pre s ss t :
  named_after (pre ++ s :: ss) (length pre) t <-> Some t ∈ stage_name_str <$> ss.
Proof.
  rewrite list_elem_of_fmap. split.
  - intros (j & s' & Hj & Hl & Hn). exists s'. split; [done|].
    rewrite lookup_app_r, lookup_cons in Hl by lia. destruct (j - length pre) eqn:E; [lia|].
    by eapply list_elem_of_lookup_2.
  - intros (s' & Hn & [k Hk]%list_elem_of_lookup). exists (S (length pre + k)), s'. split; [lia|]. split; [|done].
    rewrite lookup_app_r, lookup_cons by lia. by replace (S (length pre + k) - length pre) with (S k) by lia.
Qed.

Lemma bad_reference_iff (p p' q q' r r' : Prop) t e :
  (p <-> p') -> (q <-> q') -> (r <-> r') -> bad_reference p q r t e -> bad_reference p' q' r' t e.
Proof. intros Hp Hq Hr []; constructor; tauto. Qed.

Lemma check_stages_spec pre ss seen :
  (forall t, t ∈ seen <-> named_before (pre ++ ss) (length pre) t) ->
  match check_stages seen ss with
  | Ok _ => forall i s t, length pre <= i -> refers (pre ++ ss) i s t -> named_before (pre ++ ss) i t
  | Err e => exists i s t, refers (pre ++ ss) i s t
      /\ bad_reference (named_before (pre ++ ss) i t) (named t s) (named_after (pre ++ ss) i t) t e
  end.
Proof.
  revert pre seen. induction ss as [|s ss IH]; intros pre seen HS; simpl.
  { intros i s t Hi [Hl _]. rewrite app_nil_r, lookup_ge_None_2 in Hl by lia. done. }
  pose proof (check_stage_refs_spec seen (stage_name_str s) (stage_name_str <$> ss) (stage_directives s)) as HD.
  destruct (check_stage_refs _ _ _ _) as [[]|e]; simpl.
  - specialize (IH (pre ++ [s]) (match stage_name_str s with Some n => {[n]} ∪ seen | None => seen end)).
    rewrite <- app_assoc, length_app, Nat.add_1_r in IH. cbn [app] in IH.
    assert (HN : forall t, t ∈ match stage_name_str s with Some n => {[n]} ∪ seen | None => seen end
                  <-> named_before (pre ++ s :: ss) (S (length pre)) t).
    { intros t. rewrite named_before_snoc, <- HS. unfold named. destruct (stage_name_str s); set_solver. }
    specialize (IH HN). destruct (check_stages _ ss) as [[]|e]; [|done].
    intros i s' t Hi HR. destruct (decide (i = length pre)) as [->|]; [|apply (IH i s' t); [lia|done]].
    destruct HR as (Hl & d & Hd & Ht). rewrite list_lookup_middle in Hl by done. injection Hl as ->.
    apply HS. by eapply HD.
  - destruct HD as (d & t & Hd & Ht & HB). exists (length pre), s, t. split.
    + split; [by apply list_lookup_middle|]. by exists d.
    + eapply bad_reference_iff; [apply HS|done| |exact HB]. symmetry. apply named_after_middle.
Qed.

(** C34 (error): the check of references between stages is exact.  It passes if
    and only if every [ADD --from] names a stage declared before its own; a
    failure reports such a reference that does not, and tells a reference to its
    own stage, to a later one and to none apart. *)
Theorem check_cross_stage_refs_exact ast :
  match check_cross_stage_refs ast with
  | Ok _ => forall i s t, refers (stages ast) i s t -> named_before (stages ast) i t
  | Err e => exists i s t, refers (stages ast) i s t
      /\ bad_reference (named_before (stages ast) i t) (named t s) (named_after (stages ast) i t) t e
  end.
Proof.
  pose proof (check_stages_spec [] (stages ast) ∅) as HC. unfold check_cross_stage_refs.
  assert (HS : forall t, t ∈ (∅ : gset str) <-> named_before ([] ++ stages ast) 0 t).
  { intros t. split; [set_solver|]. intros (j & s & Hj & _). lia. }
  specialize (HC HS). simpl in HC. destruct (check_stages ∅ (stages ast)); [|done].
  intros i s t. apply HC. lia.
Qed.
