(* ===== verification/BuildSpec.v ===== *)
(** * BuildSpec: a stage build without a cache, as a specification.

    [ref_walk] builds a stage with no cache and no rebuild: every layer step is
    executed on the full stack of the layers before it.  [BuildRefines] shows
    that the builder with its cache gives the same image. *)

From S2P Require Import Prelude RustStr RustStrFacts Subst Validation Identifiers Paths OciRef.
From S2P Require Import Target Ast ArgScope Image Json Layout StepCache BuildState Directives EngineBuild.

(** ** The specification *)

Section spec.
Context `{H : Host}.

(** A layer step ready to run: the inputs of its key, what builds its upper, and
    its line of history. *)
Record Prepared := { prep_input : step_input; prep_upper : result EngineBuildError Dir; prep_line : str }.

Definition run_upper (bundle : Bundle) (st : BuildState) (spec : RunSpec) (targets : list str) (summary : str)
    : result EngineBuildError Dir :=
  '(exit_code, upper) ← execute bundle (lower_stack st (base_lowers bundle)) spec;
  if bool_decide (exit_code = Some 0%Z) then Ok (scrub_secret_mountpoints upper targets)
  else Err (RunFailed (default (-1)%Z exit_code) summary).

Definition prepare_run (ctx : BuildCtx) (bundle : Bundle) (st : BuildState) (run : Run) (step_n : nat)
    : result EngineBuildError Prepared :=
  let '(argv, summary) := run_argv st (run_command run) in
  '(binds, ids, targets) ← secret_mounts (ctx_secrets ctx) (run_mounts run);
  Ok {| prep_input := Input_Run (oci_arch_string (ctx_architecture ctx)) (media_type (compression st))
          (parent_state_hash st) argv (cc_env (container st)) (cc_working_dir (container st))
          (cc_user (container st)) ids;
        prep_upper := run_upper bundle st
          {| spec_id := "umf-build-step-" ++ nat_to_decimal step_n; spec_argv := argv;
             spec_env := cc_env (container st); spec_working_dir := cc_working_dir (container st);
             spec_user := cc_user (container st); spec_bind_mounts := binds |} targets summary;
        prep_line := summary |}.

Definition prepare_from (ctx : BuildCtx) (st : BuildState) (src_path dst from line : str)
    : result EngineBuildError Prepared :=
  producer ← ok_or (ctx_produced ctx !! from) (AddFromUnknownStage from);
  found ← lookup_ref producer;
  digest ← ok_or found (Registry (RegistryError_NotFound producer));
  Ok {| prep_input := Input_AddFrom (media_type (compression st)) (parent_state_hash st) digest src_path dst;
        prep_upper :=
          src ← image_source producer (trim_start "/" src_path);
          src ← ok_or src (AddSourceNotFound src_path ("stage `" ++ from ++ "` rootfs"));
          _ ← image_contained producer (trim_start "/" src_path);
          copy_upper src dst;
        prep_line := line |}.

Definition prepare_url (ctx : BuildCtx) (st : BuildState) (url_raw dst_raw : str)
    : result EngineBuildError Prepared :=
  let url := state_subst st url_raw in
  let dst := state_subst st dst_raw in
  _ ← reject_traversal "destination" dst;
  fetched ← ok_or (ctx_fetched_urls ctx !! url) (AddUrlFetchFailed url "payload was not staged by the fetch phase");
  Ok {| prep_input := Input_AddUrl (media_type (compression st)) (parent_state_hash st) (fetched_digest fetched) dst;
        prep_upper := url_upper url dst fetched;
        prep_line := "ADD " ++ url_raw ++ " " ++ dst_raw |}.

Definition prepare_oci (st : BuildState) (ref_raw dst_raw : str) : result EngineBuildError Prepared :=
  let image_ref := state_subst st ref_raw in
  let dst := state_subst st dst_raw in
  _ ← reject_traversal "destination" dst;
  canonical ← map_err (InvalidReference image_ref) (canonical_ref image_ref);
  found ← lookup_ref canonical;
  digest ← ok_or found (Registry (RegistryError_NotFound canonical));
  Ok {| prep_input := Input_AddOci (media_type (compression st)) (parent_state_hash st) digest dst;
        prep_upper := image_rootfs_at canonical dst;
        prep_line := "ADD " ++ ref_raw ++ " " ++ dst_raw |}.

Definition prepare_local (ctx : BuildCtx) (st : BuildState) (src_path dst line : str)
    : result EngineBuildError Prepared :=
  let rel := trim_start "/" src_path in
  src ← ok_or (context_source rel) (AddSourceNotFound src_path context_name);
  _ ← context_contained rel;
  Ok {| prep_input := Input_Add (oci_arch_string (ctx_architecture ctx)) (media_type (compression st))
          (parent_state_hash st) (add_source_digest sha256_hex src) dst;
        prep_upper := copy_upper src dst;
        prep_line := line |}.

Definition prepare_add (ctx : BuildCtx) (st : BuildState) (add : Add) : result EngineBuildError Prepared :=
  let dst_raw := as_str (value (add_destination add)) in
  match (if add_plain_copy add then plain_copy_rejected_kind (add_source add) else None) with
  | Some kind => Err (CopyRemoteSource (AddSource_as_str (add_source add)) kind)
  | None =>
      match add_source add with
      | AddSource_Url u => prepare_url ctx st (url_raw (value u)) dst_raw
      | AddSource_Oci r => prepare_oci st (oci_raw (value r)) dst_raw
      | AddSource_Path p =>
          let src_path := state_subst st (value p) in
          let dst := state_subst st dst_raw in
          let verb : str := if add_plain_copy add then "COPY" else "ADD" in
          _ ← reject_traversal "source" src_path;
          _ ← reject_traversal "destination" dst;
          match add_from add with
          | Some from => prepare_from ctx st src_path dst (as_str (value from))
              (verb ++ " --from=" ++ as_str (value from) ++ " " ++ value p ++ " " ++ dst_raw)
          | None => prepare_local ctx st src_path dst (verb ++ " " ++ value p ++ " " ++ dst_raw)
          end
      end
  end.

(** A directive is a layer step or changes the state directly. *)
Inductive Action :=
| Action_Layer (p : result EngineBuildError Prepared)
| Action_State (r : result EngineBuildError BuildState).

Definition action (ctx : BuildCtx) (bundle : Bundle) (st : BuildState) (d : Directive) (step_n : nat) : Action :=
  match d with
  | Directive_Run run => Action_Layer (prepare_run ctx bundle st run step_n)
  | Directive_Add add => Action_Layer (prepare_add ctx st add)
  | Directive_Workdir wd => Action_State (apply_workdir st wd)
  | Directive_User u => Action_State (Ok (apply_user st u))
  | Directive_Env e => Action_State (Ok (apply_env st e))
  | Directive_Arg arg => Action_State (Ok (apply_arg (ctx_build_args ctx) st arg))
  | Directive_Shell s => Action_State (Ok (apply_shell st s))
  | Directive_Label l => Action_State (Ok (apply_label st l))
  | Directive_Entrypoint ep => Action_State (Ok (apply_entrypoint st (entrypoint_init ep)))
  | Directive_Expose e => Action_State (Ok (apply_expose st e))
  | Directive_Cmd c => Action_State (Ok (apply_cmd st c))
  | Directive_Volume v => Action_State (Ok (apply_volume st v))
  | Directive_Stopsignal s => Action_State (Ok (apply_stopsignal st s))
  end.

Definition ref_layer (st : BuildState) (p : Prepared) : result EngineBuildError BuildState :=
  upper ← prep_upper p;
  '(_, st) ← push_new_layer upper (prep_line p) st;
  Ok st.

Definition ref_step (ctx : BuildCtx) (bundle : Bundle) (st : BuildState) (d : Directive) (step_n : nat)
    : result EngineBuildError BuildState :=
  match action ctx bundle st d step_n with
  | Action_Layer p => p ← p; ref_layer st p
  | Action_State r => r
  end.

Section stage.
Context (ctx : BuildCtx) (bundle : Bundle) (hook : option (StepInfo -> bool))
        (stage_index stage_total step_total : nat).

Fixpoint ref_walk (ds : list Directive) (st : BuildState) (step_n : nat) : result EngineBuildError BuildState :=
  match ds with
  | [] => Ok st
  | d :: ds =>
      let step_n := step_n + 1 in
      if aborts hook stage_index stage_total step_total d step_n
      then Err (Engine (EngineError_BuildAborted stage_index step_n))
      else st ← ref_step ctx bundle st d step_n; ref_walk ds st step_n
  end.

(** The image of a stage. *)
Definition ref_stage (ds : list Directive) (base : BaseImage) : result EngineBuildError BuildState :=
  ref_walk ds (BuildState_new base (ctx_compression ctx) (ctx_globals ctx)) 0.
End stage.

(** ** The builder's steps in these terms *)

Definition prep_key (p : Prepared) : str := cache_key sha256_hex (prep_input p).

(** A layer step of the builder; only [RUN] needs the overlay. *)
Definition layer_step (overlay : bool) (lookup_cache : bool) (st : BuildState) (p : Prepared)
    : Step (StepFlow * BuildState) :=
  hit ← cached_layer lookup_cache (prep_key p);
  match hit with
  | Some (reused, line) => mret (StepFlow_Continue, adopt_cached_layer reused line st)
  | None =>
      if overlay && adopted_from_cache st then mret (StepFlow_RebuildWithoutCache, st)
      else
        upper ← of_result (prep_upper p);
        st ← package_and_cache_upper st (prep_key p) upper (prep_line p);
        mret (StepFlow_Continue, st)
  end.

Lemma Step_bind_assoc {A B C} (m : Step A) (f : A -> Step B) (g : B -> Step C) c :
  ((m ≫= f) ≫= g) c = (m ≫= (fun a => f a ≫= g)) c.
Proof. unfold mbind, Step_bind. by destruct (m c) as [[]]. Qed.

Lemma of_result_bind {A B} (r : result EngineBuildError A) (k : A -> Step B) c :
  (of_result r ≫= k) c = match r with Ok a => k a c | Err e => (Err e, c) end.
Proof. by destruct r. Qed.

Lemma Step_bind_ext {A B} (m : Step A) (f g : A -> Step B) c :
  (forall a c, f a c = g a c) -> (m ≫= f) c = (m ≫= g) c.
Proof. intros HE. unfold mbind, Step_bind. by destruct (m c) as [[]]. Qed.

Definition needs_overlay (d : Directive) : bool := match d with Directive_Run _ => true | _ => false end.

(** What [apply_directive] does with an action. *)
Definition run_action (overlay lookup_cache : bool) (st : BuildState) (a : Action) : Step (StepFlow * BuildState) :=
  match a with
  | Action_Layer p => p ← of_result p; layer_step overlay lookup_cache st p
  | Action_State r => continue_with r
  end.

Lemma cached_add_eq lookup st i line up c :
  (st' ← cached_add lookup st (cache_key sha256_hex i) line up; mret (StepFlow_Continue, st')) c
  = layer_step false lookup st {| prep_input := i; prep_upper := up; prep_line := line |} c.
Proof.
  unfold cached_add, layer_step. rewrite Step_bind_assoc. apply Step_bind_ext.
  intros [[l h]|] c'; [done|]. simpl andb. cbv iota. rewrite Step_bind_assoc. done.
Qed.

Lemma apply_run_eq ctx bundle st run n lookup c :
  apply_run ctx bundle st run n lookup c
  = run_action true lookup st (Action_Layer (prepare_run ctx bundle st run n)) c.
Proof.
  unfold apply_run, run_action, prepare_run. destruct (run_argv st (run_command run)) as [argv summary].
  rewrite of_result_bind. destruct (secret_mounts _ _) as [[[binds ids] targets]|e]; [|done].
  cbn [mbind result_bind]. rewrite of_result_bind. unfold layer_step. apply Step_bind_ext.
  intros [[l h]|] c'; [done|]. cbn [andb]. destruct (adopted_from_cache st); [done|].
  rewrite !of_result_bind. unfold run_upper. simpl.
  destruct (execute _ _ _) as [[code upper]|e]; [|done]. simpl. by destruct (bool_decide _).
Qed.

Ltac of_results :=
  repeat (rewrite ?Step_bind_assoc, ?of_result_bind; simpl;
          match goal with
          | |- (match ?r with Ok _ => _ | Err _ => _ end) _ = _ => destruct r; simpl; [|done]
          | |- match ?r with Ok _ => _ | Err _ => _ end = _ => destruct r; simpl; [|done]
          end).

Lemma apply_add_eq ctx st add lookup c :
  (st' ← apply_add ctx st add lookup; mret (StepFlow_Continue, st')) c
  = run_action false lookup st (Action_Layer (prepare_add ctx st add)) c.
Proof.
  unfold apply_add, prepare_add, run_action. destruct (if add_plain_copy add then _ else None); [done|].
  destruct (add_source add).
  - unfold apply_add_url, prepare_url. of_results. by rewrite <- cached_add_eq.
  - cbv zeta. of_results. destruct (add_from add).
    + unfold apply_add_from_stage, prepare_from. of_results. by rewrite <- cached_add_eq.
    + unfold prepare_local. cbv zeta. of_results. by rewrite <- cached_add_eq.
  - unfold apply_add_oci_image, prepare_oci. of_results. by rewrite <- cached_add_eq.
Qed.

Lemma apply_directive_eq ctx bundle st d n lookup c :
  apply_directive ctx bundle st d n lookup c
  = run_action (needs_overlay d) lookup st (action ctx bundle st d n) c.
Proof.
  destruct d; try done; [apply apply_run_eq|apply apply_add_eq].
Qed.
End spec.
