(* ===== verification/BuildModel.v ===== *)
(** * BuildModel: a small host, on which the theorems about builds are applied.

    Trees are the strings that name what is in them; the hash doubles every byte
    so that it is one line; a command writes its arguments on top of what is
    below it.  The store holds the layer of [ADD a /x]. *)

From S2P Require Import Prelude RustStr RustStrFacts Subst Validation Identifiers Paths OciRef.
From S2P Require Import Target Ast ArgScope Image Json Layout StepCache BuildState Directives EngineBuild.

Module Model.
Definition hex (s : str) : str := flat_map (fun c => if decide (c = lf) then ["x"; "1"]%char else [c; "0"]%char) s.

Lemma hex_inj s t : hex s = hex t -> s = t.
Proof.
  revert t. induction s as [|c s IH]; intros [|c' t] E; try done; simpl in E; try (by repeat case_decide).
  repeat case_decide; simplify_eq/=; f_equal; by apply IH.
Qed.

Lemma hex_line s : free lf (hex s).
Proof.
  induction s as [|c s IH]; [by apply not_elem_of_nil|]. simpl. apply free_app. split; [|done].
  unfold free. case_decide; rewrite !not_elem_of_cons; split_and!; try done; apply not_elem_of_nil.
Qed.

#[export] Instance host : Host := {|
  Dir := str; Bundle := unit; sha256_hex := hex; build_tar := Ok; compress := fun _ => Ok;
  clock := fun n => Z.of_nat n; create_dir_all := Ok; base_lowers := fun _ => [];
  execute := fun _ lowers spec => Ok (Some 0%Z, concat (spec_argv spec) ++ concat lowers);
  scrub_secret_mountpoints := fun u _ => u; context_name := "ctx";
  context_source := fun p => if decide (p = "a") then Some (Source_File (Some (bytes_of "a")) 420 "hi") else None;
  context_contained := fun _ => Ok tt; image_source := fun _ _ => Ok None; image_contained := fun _ _ => Ok tt;
  image_rootfs_at := fun r p => Ok (r ++ p); copy_source := fun _ p => Ok p;
  sniff_format := fun _ => Ok Format_Unknown; unpack_at := fun _ _ p => Ok p; place_file := fun _ p => Ok p;
  blob := fun d => if decide (d = sha256_digest hex "x") then Some (Ok (bytes_of "x")) else None;
  lookup_ref := fun r => Ok (Some r); canonical_ref := Ok
|}.

Definition ctx : BuildCtx :=
  {| ctx_secrets := ∅; ctx_produced := ∅; ctx_fetched_urls := ∅; ctx_architecture := X86_64;
     ctx_compression := LayerCompression_Gzip; ctx_globals := ∅; ctx_build_args := ∅ |}.

Definition base : BaseImage := {| base_image_layers := []; base_image_config := ImageConfig_default |}.

Definition spanned {T} (v : T) : Spanned T := mkSpanned v (mkSpan 0 0).

Definition add_a : Directive :=
  Directive_Add {| add_source := AddSource_Path (spanned (bytes_of "a")); add_destination := spanned ({| RecipePath_0 := "/x" |});
                   add_from := None; add_plain_copy := false; add_span := mkSpan 0 0 |}.
Definition run_sh (s : str) : Directive :=
  Directive_Run {| run_command := RunCommand_Shell (spanned s); run_mounts := []; run_span := mkSpan 0 0 |}.

Definition build_list (ds : list Directive) (c : Cache) := build_one_stage ctx tt None 1 1 (length ds) ds base c.

Definition is_built {A} (o : outcome (result EngineBuildError A * Cache)) : bool :=
  match o with Val (Ok _, _) => true | _ => false end.

Lemma is_built_inv {A} (o : outcome (result EngineBuildError A * Cache)) :
  is_built o = true -> exists a c, o = Val (Ok a, c).
Proof. destruct o as [[[a|e] c]| |]; try done. eauto. Qed.

(** A stage of two layers builds. *)
Lemma builds : is_built (build_list [add_a; run_sh "y"] ∅) = true.
Proof. vm_compute. reflexivity. Qed.
End Model.
