(* ===== verification/BuildFacts.v ===== *)
(** * BuildFacts: properties of stage builds that hold on every host and with
    every cache. *)

From S2P Require Import Prelude RustStr RustStrFacts Subst Validation Identifiers Paths OciRef.
From S2P Require Import Target Ast ArgScope Image Json Layout StepCache BuildState Directives EngineBuild BuildSpec BuildModel.

(** The line of history of a directive, read off the recipe alone. *)
Definition directive_line (d : Directive) : option str :=
  match d with
  | Directive_Run run => Some ("RUN " ++ match run_command run with
      | RunCommand_Shell s => value s
      | RunCommand_Exec parts => join " " (value <$> parts)
      end)
  | Directive_Add add =>
      let verb : str := if add_plain_copy add then "COPY" else "ADD" in
      let dst := as_str (value (add_destination add)) in
      Some (verb ++ match add_source add, add_from add with
                    | AddSource_Path p, Some from => " --from=" ++ as_str (value from) ++ " " ++ value p ++ " " ++ dst
                    | source, _ => " " ++ AddSource_as_str source ++ " " ++ dst
                    end)
  | Directive_Workdir wd => Some ("WORKDIR " ++ as_str (value (workdir_path wd)))
  | Directive_User u => Some ("USER " ++ as_str (value (user_name u)))
  | Directive_Env e => Some ("ENV " ++ as_str (value (env_key e)) ++ "=" ++ as_str (value (env_value e)))
  | Directive_Label l => Some ("LABEL " ++ as_str (value (label_key l)) ++ "=" ++ as_str (value (label_value l)))
  | Directive_Arg _ => None
  | Directive_Shell s => Some ("SHELL " ++ match shell_argv s with [] => "(none)" | _ => "switched" end)
  | Directive_Entrypoint ep => Some ("ENTRYPOINT " ++ match entrypoint_init ep with
      | EntrypointInit_Systemd => "systemd"
      | EntrypointInit_OpenRc => "openrc"
      | EntrypointInit_Path s => value s
      | EntrypointInit_Exec parts => join " " (value <$> parts)
      | EntrypointInit_None => "none"
      end)
  | Directive_Expose e =>
      Some ("EXPOSE " ++ to_decimal (expose_port e) ++ "/" ++ protocol_str (expose_protocol e))
  | Directive_Cmd c => Some ("CMD " ++ match cmd_command c with
      | CmdForm_Shell s => value s
      | CmdForm_Exec parts => join " " (value <$> parts)
      end)
  | Directive_Volume v => Some ("VOLUME " ++ join " " (value <$> volume_paths v))
  | Directive_Stopsignal s => Some ("STOPSIGNAL " ++ value (stopsignal_signal s))
  end.

Section facts.
Context `{H : Host}.

(** ** What a layer step does to the state and to the cache *)

Inductive layer_effect (lookup : bool) (s : BuildState) (p : Prepared) (c : Cache)
    : result EngineBuildError (StepFlow * BuildState) -> Cache -> Prop :=
| effect_error e : layer_effect lookup s p c (Err e) c
| effect_rebuild : adopted_from_cache s = true -> layer_effect lookup s p c (Ok (StepFlow_RebuildWithoutCache, s)) c
| effect_hit entry l :
    lookup = true -> c !! prep_key p = Some entry -> layer_from_cache entry = Ok (Some l) ->
    layer_effect lookup s p c (Ok (StepFlow_Continue, adopt_cached_layer l (history_line entry) s)) c
| effect_built upper l s' entry :
    prep_upper p = Ok upper -> push_new_layer upper (prep_line p) s = Ok (l, s') -> history_line entry = prep_line p ->
    layer_effect lookup s p c (Ok (StepFlow_Continue, s')) (<[prep_key p := entry]> c).

Lemma layer_step_effect ov lookup s p c r c' :
  layer_step ov lookup s p c = (r, c') -> layer_effect lookup s p c r c'.
Proof.
  unfold layer_step, cached_layer, package_and_cache_upper.
  assert (HM : (if ov && adopted_from_cache s then mret (StepFlow_RebuildWithoutCache, s)
     else upper ← of_result (prep_upper p);
          st ← package_and_cache_upper s (prep_key p) upper (prep_line p); mret (StepFlow_Continue, st)) c = (r, c') ->
     layer_effect lookup s p c r c').
  { destruct (ov && adopted_from_cache s) eqn:Ea.
    - intros [= <- <-]. apply effect_rebuild. by apply andb_true_iff in Ea as [_ ->].
    - rewrite of_result_bind. destruct (prep_upper p) as [up|e] eqn:Ep; [|intros [= <- <-]; constructor].
      unfold package_and_cache_upper. rewrite Step_bind_assoc, of_result_bind.
      destruct (push_new_layer up (prep_line p) s) as [[l s']|e] eqn:El; [|intros [= <- <-]; constructor].
      intros [= <- <-]. by eapply effect_built. }
  destruct lookup; [|exact HM]. unfold mbind at 1, Step_bind at 1, mbind at 1, Step_bind at 1, cache_lookup.
  destruct (c !! prep_key p) as [entry|] eqn:Ek; [|exact HM].
  rewrite of_result_bind. destruct (layer_from_cache entry) as [[l|]|e] eqn:El; simpl; [|exact HM|].
  - intros [= <- <-]. by eapply effect_hit.
  - intros [= <- <-]. constructor.
Qed.

(** ** How the state grows

    From [s] to [s'] the history gains [n] entries, whose lines are all in [A],
    and one layer for each of them that is not marked empty. *)

Definition entry_ok (A : str -> Prop) (h : HistoryEntry) : Prop :=
  exists line, history_created_by h = Some line /\ A line.

Definition with_layer_entries (hs : list HistoryEntry) : list HistoryEntry :=
  filter (fun h => history_empty_layer h = false) hs.

Record grows (A : str -> Prop) (n : nat) (s s' : BuildState) : Prop := {
  grows_base : base_layers s' = base_layers s;
  grows_tail : exists hs ls,
    ic_history (image_config s') = ic_history (image_config s) ++ hs /\ new_layers s' = new_layers s ++ ls
    /\ length hs = n /\ length (with_layer_entries hs) = length ls /\ Forall (entry_ok A) hs
}.

Lemma grows_refl A s s' :
  ic_history (image_config s') = ic_history (image_config s) -> base_layers s' = base_layers s ->
  new_layers s' = new_layers s -> grows A 0 s s'.
Proof. intros Eh Eb En. split; [done|]. exists [], []. rewrite !app_nil_r. by split_and!. Qed.

Lemma grows_trans A n m s1 s2 s3 : grows A n s1 s2 -> grows A m s2 s3 -> grows A (n + m) s1 s3.
Proof.
  intros [B1 (hs & ls & Eh & El & En & Ef & HF)] [B2 (hs' & ls' & Eh' & El' & En' & Ef' & HF')].
  split; [congruence|]. exists (hs ++ hs'), (ls ++ ls'). unfold with_layer_entries in *.
  rewrite filter_app, !length_app, Eh', Eh, El', El, !app_assoc. split_and!; try lia; try done.
  by apply Forall_app.
Qed.

Lemma grows_line (A : str -> Prop) s s' line :
  A line -> ic_history (image_config s') = ic_history (image_config s) ++ [history_entry s line true] ->
  base_layers s' = base_layers s -> new_layers s' = new_layers s -> grows A 1 s s'.
Proof.
  intros HA Eh Eb En. split; [done|]. exists [history_entry s line true], []. rewrite app_nil_r. split_and!; try done.
  repeat constructor. by exists line.
Qed.

Lemma grows_layer (A : str -> Prop) s s' line l :
  A line -> ic_history (image_config s') = ic_history (image_config s) ++ [history_entry s line false] ->
  base_layers s' = base_layers s -> new_layers s' = new_layers s ++ [l] -> grows A 1 s s'.
Proof.
  intros HA Eh Eb En. split; [done|]. exists [history_entry s line false], [l]. split_and!; try done.
  repeat constructor. by exists line.
Qed.

Lemma push_grows (A : str -> Prop) up line s l s' :
  A line -> push_new_layer up line s = Ok (l, s') ->
  grows A 1 s s' /\ adopted_from_cache s' = adopted_from_cache s.
Proof.
  unfold push_new_layer. intros HA (l' & _ & [= <- <-])%bind_Ok. split; [|done]. by eapply grows_layer.
Qed.

(** ** Steps *)

Definition lines_of (d : Directive) : nat := match directive_line d with Some _ => 1 | None => 0 end.

Definition allowed (A : str -> Prop) (d : Directive) : Prop := forall line, directive_line d = Some line -> A line.
Definition cache_lines (A : str -> Prop) (c : Cache) : Prop := map_Forall (fun _ e => A (history_line e)) c.

Lemma state_action_grows A ctx b s d n s' :
  allowed A d -> action ctx b s d n = Action_State (Ok s') ->
  grows A (lines_of d) s s' /\ adopted_from_cache s' = adopted_from_cache s.
Proof.
  intros HA E. destruct d; try discriminate E; injection E as E;
    try (rewrite <- E; split; [|done]; first [by apply grows_refl|eapply grows_line; [by apply HA|done..]]).
  - rewrite <- E. split; [|done]. destruct d as [[|p ps] sp]; (eapply grows_line; [by apply HA|done..]).
  - apply bind_Ok in E as (up & _ & E). apply bind_Ok in E as ([l st] & HP & [= <-]).
    apply (push_grows A) in HP as [HG HE]; [|by apply HA]. split; [|done].
    destruct HG as [HB HT]. by split.
  - rewrite <- E. destruct d as [[] sp]; (split; [|done]; eapply grows_line; [by apply HA|done..]).
  - rewrite <- E. destruct d as [[] sp]; (split; [|done]; eapply grows_line; [by apply HA|done..]).
Qed.

Lemma prepare_line ctx b s d n p :
  action ctx b s d n = Action_Layer (Ok p) -> directive_line d = Some (prep_line p).
Proof.
  destruct d as [| | | | | |run|add| | | | |]; try done; intros [= E].
  - unfold prepare_run, run_argv in E. simpl.
    destruct (run_command run); (apply bind_Ok in E as ([[binds ids] targets] & _ & [= <-])); done.
  - unfold prepare_add in E. simpl.
    destruct (if add_plain_copy add then _ else None) eqn:Ec; [done|].
    destruct (add_source add) as [u|path|r] eqn:Es.
    + destruct (add_plain_copy add); [done|].
      by apply bind_Ok in E as (? & _ & (? & _ & [= <-])%bind_Ok).
    + apply bind_Ok in E as (? & _ & (? & _ & E)%bind_Ok). destruct (add_from add) as [from|].
      * by apply bind_Ok in E as (? & _ & (? & _ & (? & _ & [= <-])%bind_Ok)%bind_Ok).
      * by apply bind_Ok in E as (? & _ & (? & _ & [= <-])%bind_Ok).
    + destruct (add_plain_copy add); [done|].
      by apply bind_Ok in E as (? & _ & (? & _ & (? & _ & (? & _ & [= <-])%bind_Ok)%bind_Ok)%bind_Ok).
Qed.

(** One directive of the builder, with any cache. *)
Lemma directive_grows A ctx b s d n lookup c r c' :
  allowed A d -> cache_lines A c -> apply_directive ctx b s d n lookup c = (r, c') ->
  cache_lines A c' /\ forall flow s', r = Ok (flow, s') ->
    (flow = StepFlow_Continue -> grows A (lines_of d) s s')
    /\ (lookup = false -> adopted_from_cache s = false -> flow = StepFlow_Continue /\ adopted_from_cache s' = false).
Proof.
  intros HA HC. rewrite apply_directive_eq. unfold run_action.
  destruct (action ctx b s d n) as [[p|e]|[u|e]] eqn:Ea.
  - rewrite of_result_bind. intros HE%layer_step_effect. pose proof (prepare_line _ _ _ _ _ _ Ea) as HL.
    assert (Hn : lines_of d = 1) by (unfold lines_of; by rewrite HL). rewrite Hn. specialize (HA _ HL).
    destruct HE as [e|Hs|entry l -> Hk Hl|upper l s' entry Hu Hp He].
    + by split.
    + split; [done|]. intros flow s' [= <- <-]. split; [done|]. congruence.
    + split; [done|]. intros flow s' [= <- <-]. split; [|done]. intros _.
      eapply grows_layer; [exact (HC _ _ Hk)|done..].
    + split; [apply map_Forall_insert_2; [by rewrite He|done]|]. intros flow s1 [= <- <-].
      apply (push_grows A) in Hp as [HG Hf]; [|done]. split; [done|]. intros _ Hs. by rewrite Hf.
  - intros [= <- <-]. by split.
  - intros [= <- <-]. split; [done|]. intros flow s' [= <- <-].
    apply (state_action_grows A) in Ea as [HG Hf]; [|done]. split; [done|]. intros _ Hs. by rewrite Hf.
  - intros [= <- <-]. by split.
Qed.

(** ** Stages *)

Section stage.
Context (ctx : BuildCtx) (b : Bundle) (hook : option (StepInfo -> bool)) (stage_index stage_total step_total : nat).

Definition recipe_lines (ds : list Directive) : list str := omap directive_line ds.

Lemma walk_grows A lookup ds s n c r c' :
  Forall (allowed A) ds -> cache_lines A c ->
  walk ctx b hook stage_index stage_total step_total lookup ds s n c = (r, c') ->
  cache_lines A c' /\ forall o, r = Ok o ->
    (forall s', o = Some s' -> grows A (length (recipe_lines ds)) s s')
    /\ (lookup = false -> adopted_from_cache s = false -> exists s', o = Some s').
Proof.
  revert s n c. induction ds as [|d ds IH]; intros s n c HA HC; cbn [walk].
  { intros [= <- <-]. split; [done|]. intros o [= <-]. split; [|eauto]. intros s' [= <-]. by apply grows_refl. }
  cbv zeta. destruct (aborts _ _ _ _ _ _); [intros [= <- <-]; by split|].
  inversion_clear HA as [|? ? Hd Hds]. unfold mbind, Step_bind.
  destruct (apply_directive ctx b s d (n + 1) lookup c) as [r1 c1] eqn:E.
  apply (directive_grows A) in E as [HC1 HR]; [|done..]. destruct r1 as [[flow s1]|e]; [|intros [= <- <-]; by split].
  destruct (HR _ _ eq_refl) as [HG HF]. destruct flow.
  - intros Hw. destruct (IH _ _ _ Hds HC1 Hw) as [HC' HR']. split; [done|]. intros o Ho.
    destruct (HR' o Ho) as [HG' HF']. split.
    + intros s' Hs'. specialize (HG eq_refl). specialize (HG' _ Hs').
      replace (length (recipe_lines (d :: ds))) with (lines_of d + length (recipe_lines ds)).
      * by eapply grows_trans.
      * unfold lines_of, recipe_lines. simpl. by destruct (directive_line d).
    + intros Hl Hs. apply HF'; [done|]. by apply HF.
  - intros [= <- <-]. split; [done|]. intros o [= <-]. split; [done|]. intros Hl Hs. by destruct (HF Hl Hs) as [? _].
Qed.

Definition any_line (l : str) : Prop := True.

Lemma any_allowed ds : Forall (allowed any_line) ds.
Proof. apply Forall_true. by intros d line _. Qed.
Lemma any_cached c : cache_lines any_line c.
Proof. by intros k e _. Qed.

(** A stage build ends: with an image or an error, after at most one restart,
    whatever the host answers and whatever the cache holds. *)
Lemma stage_build_returns ds base c :
  exists r c', build_one_stage ctx b hook stage_index stage_total step_total ds base c = Val (r, c').
Proof.
  unfold build_one_stage. cbn [attempts].
  destruct (walk ctx b hook stage_index stage_total step_total true ds _ 0 c) as [[[s|]|e] c1]; simpl; eauto.
  destruct (walk ctx b hook stage_index stage_total step_total false ds _ 0 c1) as [r c2] eqn:E.
  apply (walk_grows any_line) in E as [_ HR]; [|apply any_allowed|apply any_cached].
  destruct r as [o|e]; simpl; [|eauto]. destruct (HR o eq_refl) as [_ HF]. destruct (HF eq_refl eq_refl) as [s ->].
  simpl. eauto.
Qed.

Lemma stage_build_grows A ds base c layers config c' :
  Forall (allowed A) ds -> cache_lines A c ->
  build_one_stage ctx b hook stage_index stage_total step_total ds base c = Val (Ok (layers, config), c') ->
  exists s', grows A (length (recipe_lines ds)) (BuildState_new base (ctx_compression ctx) (ctx_globals ctx)) s'
    /\ layers = assemble_layer_chain s' /\ config = image_config s'.
Proof.
  intros HA HC. unfold build_one_stage. intros ([r c1] & E & HE)%bind_Val.
  injection HE as HE _. apply bind_Ok in HE as (s' & -> & [= <- <-]). exists s'. split; [|done].
  cbn [attempts] in E.
  destruct (walk ctx b hook stage_index stage_total step_total true ds _ 0 c) as [[[s|]|e] c2] eqn:E1; try done.
  - injection E as -> _. apply (walk_grows A) in E1 as [_ HR]; [|done..]. by apply (HR (Some s')).
  - apply (walk_grows A) in E1 as [HC2 _]; [|done..].
    destruct (walk ctx b hook stage_index stage_total step_total false ds _ 0 c2) as [[[s|]|e] c3] eqn:E2; try done.
    injection E as -> _. apply (walk_grows A) in E2 as [_ HR]; [|done..]. by apply (HR (Some s')).
Qed.

(** The history and the layers of a built image stay in step:
    the entries that are not marked empty exceed those of the base by the number of
    layers put on top of the base's, so they pair up when the base's do. *)
Theorem history_matches_layers ds base c layers config c' :
  build_one_stage ctx b hook stage_index stage_total step_total ds base c = Val (Ok (layers, config), c') ->
  exists new, layers = base_image_layers base ++ new
    /\ length (with_layer_entries (ic_history config))
       = length (with_layer_entries (ic_history (base_image_config base))) + length new.
Proof.
  intros (s' & [Eb (hs & ls & Eh & El & _ & Ef & _)] & -> & ->)%(stage_build_grows any_line);
    [|apply any_allowed|apply any_cached].
  exists ls. unfold assemble_layer_chain, with_layer_entries in *. rewrite Eh, El, Eb, filter_app, !length_app. simpl.
  split; [done|lia].
Qed.

(** The history of a built image is the base's, then one entry for
    each directive but [ARG], in whose lines no build argument is expanded: every line is
    that of a directive as the recipe spells it, or one the cache held. *)
Theorem history_lines_verbatim ds base c layers config c' :
  build_one_stage ctx b hook stage_index stage_total step_total ds base c = Val (Ok (layers, config), c') ->
  exists hs, ic_history config = ic_history (base_image_config base) ++ hs
    /\ length hs = length (recipe_lines ds)
    /\ Forall (entry_ok (fun l => l ∈ recipe_lines ds \/ exists k e, c !! k = Some e /\ l = history_line e)) hs.
Proof.
  intros (s' & [Eb (hs & ls & Eh & El & En & Ef & HF)] & -> & ->)%(stage_build_grows
    (fun l => l ∈ recipe_lines ds \/ exists k e, c !! k = Some e /\ l = history_line e)).
  - by exists hs.
  - apply Forall_forall. intros d Hd line Hl. left. unfold recipe_lines. apply list_elem_of_omap. eauto.
  - intros k e He. right. eauto.
Qed.
End stage.
End facts.

(** ** Witnesses *)

Lemma history_matches_layers_witness :
  exists layers config c', Model.build_list [Model.add_a; Model.run_sh "y"] ∅ = Val (Ok (layers, config), c')
    /\ length (with_layer_entries (ic_history config)) = length layers.
Proof.
  destruct (Model.is_built_inv _ Model.builds) as ([layers config] & c' & E).
  exists layers, config, c'. split; [done|].
  by destruct (history_matches_layers (H:=Model.host) Model.ctx tt None 1 1 2 [Model.add_a; Model.run_sh "y"] Model.base ∅
           layers config c' E) as (new & -> & ->).
Defined.

Lemma history_lines_verbatim_witness :
  exists layers config c' hs, Model.build_list [Model.add_a; Model.run_sh "y"] ∅ = Val (Ok (layers, config), c')
    /\ ic_history config = hs /\ length hs = 2.
Proof.
  destruct (Model.is_built_inv _ Model.builds) as ([layers config] & c' & E).
  destruct (history_lines_verbatim (H:=Model.host) Model.ctx tt None 1 1 2 [Model.add_a; Model.run_sh "y"] Model.base ∅
           layers config c' E) as (hs & Eh & El & _).
  by exists layers, config, c', hs.
Defined.
