(* ===== verification/BuildRefines.v ===== *)
(** * BuildRefines: the builder with its cache refines the build without one. *)

From S2P Require Import Prelude RustStr RustStrFacts Subst Validation Identifiers Paths OciRef.
From S2P Require Import Target Ast ArgScope Image Json Layout StepCache BuildState Directives EngineBuild BuildSpec BuildModel.

(** ** What the cache relies on *)

Definition same_run (s s' : RunSpec) : Prop :=
  spec_argv s = spec_argv s' /\ spec_env s = spec_env s' /\ spec_working_dir s = spec_working_dir s'
  /\ spec_user s = spec_user s' /\ spec_bind_mounts s = spec_bind_mounts s'.

(** Trees with one archive: they may differ in what the archive leaves out
    (times of modification, owners, special files). *)
Definition same_archive `{H : Host} (u u' : Dir) : Prop := build_tar u = build_tar u'.

Class HostLaws (H : Host) := {
  (** The bundle was prepared from an image with these diff ids. *)
  bundle_for : Bundle -> list str -> Prop;
  (** The hash has no collision and is one line of text. *)
  sha256_inj : forall s t, sha256_hex s = sha256_hex t -> s = t;
  sha256_line : forall s, free lf (sha256_hex s);
  (** Blobs are addressed by content, and those present can be read. *)
  blob_content : forall d bytes, blob d = Some (Ok bytes) -> sha256_digest sha256_hex bytes = d;
  blob_readable : forall d e, blob d <> Some (Err e);
  (** Commands are reproducible: the exit code and the archive of what a run
      writes depend on the image, on what the archives of the layers on top record
      and on the command, not on the name of the container or the time. *)
  execute_image : forall b b' ids lowers lowers' spec spec' code up,
    bundle_for b ids -> bundle_for b' ids -> same_run spec spec' -> Forall2 same_archive lowers lowers' ->
    execute b (lowers ++ base_lowers b) spec = Ok (code, up) ->
    exists up', execute b' (lowers' ++ base_lowers b') spec' = Ok (code, up') /\ same_archive up up';
  (** Without secrets there is no mount point to scrub. *)
  scrub_none : forall u, scrub_secret_mountpoints u [] = u;
  (** An image is determined by the digest of its manifest. *)
  image_source_digest : forall r r' d p s,
    lookup_ref r = Ok (Some d) -> lookup_ref r' = Ok (Some d) -> image_source r p = Ok s -> image_source r' p = Ok s;
  image_contained_digest : forall r r' d p,
    lookup_ref r = Ok (Some d) -> lookup_ref r' = Ok (Some d) ->
    image_contained r p = Ok tt -> image_contained r' p = Ok tt;
  image_rootfs_digest : forall r r' d p u,
    lookup_ref r = Ok (Some d) -> lookup_ref r' = Ok (Some d) ->
    image_rootfs_at r p = Ok u -> image_rootfs_at r' p = Ok u
}.

Section refine.
Context `{HL : HostLaws}.

(** ** Reference states *)

Definition wf_diff_id (d : str) : Prop := free lf d /\ d <> "--".

(** Every new layer is the archive of the directory kept for it. *)
Record complete (bundle : Bundle) (u : BuildState) : Prop := {
  co_layers : Forall2 (fun up l => package (compression u) up = Ok l) (upper_guards u) (new_layers u);
  co_base : Forall wf_diff_id (layer_diff_id <$> base_layers u);
  co_bundle : bundle_for bundle (layer_diff_id <$> base_layers u)
}.

Lemma package_inv c up l : package c up = Ok l -> exists tar,
  build_tar up = Ok tar /\ layer_media_type l = media_type c /\ layer_diff_id l = sha256_digest sha256_hex tar.
Proof.
  unfold package, layer_of_tar. intros (tar & E & (data & _ & [= <-])%bind_Ok)%bind_Ok. eauto.
Qed.

Lemma sha256_digest_inj s t : sha256_digest sha256_hex s = sha256_digest sha256_hex t -> s = t.
Proof. intros E. unfold sha256_digest in E. apply app_inv_head in E. by apply sha256_inj. Qed.

Lemma sha256_digest_line s : free lf (sha256_digest sha256_hex s).
Proof. apply free_app. split; [by apply literal_free|apply sha256_line]. Qed.

(** A layer depends on its tree through the archive only. *)
Lemma package_archive c up up' : same_archive up up' -> package c up = package c up'.
Proof. unfold same_archive, package. by intros ->. Qed.

(** The diff ids of the layers determine the directories, up to their archives. *)
Lemma uppers_determined c c' ups ups' ls ls' :
  Forall2 (fun up l => package c up = Ok l) ups ls -> Forall2 (fun up l => package c' up = Ok l) ups' ls' ->
  layer_diff_id <$> ls = layer_diff_id <$> ls' -> Forall2 same_archive ups ups'.
Proof.
  intros HF. revert ups' ls'. induction HF as [|up l ups ls Hp _ IH]; intros ups' ls' HF' E;
    destruct HF' as [|up' l' ups' ls' Hp' HF']; try done. simpl in E. injection E as Ed E.
  destruct (package_inv _ _ _ Hp) as (t & Et & _ & Dt), (package_inv _ _ _ Hp') as (t' & Et' & _ & Dt').
  rewrite Dt, Dt' in Ed. apply sha256_digest_inj in Ed as ->.
  constructor; [unfold same_archive; congruence|]. by eapply IH.
Qed.

Lemma complete_diff_ids bundle u : complete bundle u -> Forall (free lf) (layer_diff_id <$> new_layers u).
Proof.
  intros [HF _ _]. apply Forall_fmap, Forall_forall. intros l Hl.
  apply list_elem_of_lookup in Hl as [i Hi]. destruct (Forall2_lookup_r _ _ _ _ _ HF Hi) as (up & _ & Hp).
  destruct (package_inv _ _ _ Hp) as (t & _ & _ & E).
  unfold compose. rewrite E. apply sha256_digest_line.
Qed.

(** Equal parent hashes: the same layers below. *)
Lemma parent_determined b b' u u' :
  complete b u -> complete b' u' -> parent_state_hash u = parent_state_hash u' ->
  layer_diff_id <$> base_layers u = layer_diff_id <$> base_layers u' /\ Forall2 same_archive (upper_guards u) (upper_guards u').
Proof.
  intros Hc Hc' E. apply sha256_inj in E.
  apply parent_state_inj in E as [Eb En];
    [|exact (co_base _ _ Hc)|exact (co_base _ _ Hc')|by eapply complete_diff_ids..].
  split; [done|]. eapply uppers_determined; [apply (co_layers _ _ Hc)|apply (co_layers _ _ Hc')|done].
Qed.

Lemma media_type_inj c c' : media_type c = media_type c' -> c = c'.
Proof. by destruct c, c'. Qed.

(** ** The steps the cache covers

    A [RUN] without secret mounts, in a state whose working directory and user
    are not empty strings; an [ADD] of one file, or from a stage or an image,
    or of a URL to a path that is not a directory.  Their inputs are well
    framed. *)

Definition ctx_ok (ctx : BuildCtx) : Prop :=
  map_Forall (fun _ f => fetched_digest f = sha256_digest sha256_hex (fetched_payload f)) (ctx_fetched_urls ctx).

Definition plain_run (u : BuildState) (run : Run) : Prop :=
  run_mounts run = [] /\ cc_working_dir (container u) <> Some [] /\ cc_user (container u) <> Some [].

Definition plain_add (u : BuildState) (add : Add) : Prop :=
  match add_source add, add_from add with
  | AddSource_Url _, _ => ends_with_byte "/" (state_subst u (as_str (value (add_destination add)))) = false
  | AddSource_Path p, None =>
      forall src, context_source (trim_start "/" (state_subst u (value p))) = Some src ->
        exists name mode bytes, src = Source_File (Some name) mode bytes /\ free lf name /\ (mode < 4096)%N
  | _, _ => True
  end.

Inductive reference_step : LayerCompression -> Prepared -> Prop :=
| reference_run ctx bundle u run n p :
    complete bundle u -> plain_run u run -> prepare_run ctx bundle u run n = Ok p ->
    well_framed (prep_input p) -> reference_step (compression u) p
| reference_add ctx bundle u add p :
    complete bundle u -> ctx_ok ctx -> plain_add u add -> prepare_add ctx u add = Ok p ->
    well_framed (prep_input p) -> reference_step (compression u) p.

(** An entry that can be read back is the layer the step would build. *)
Definition coherent (c : Cache) : Prop :=
  forall comp p e l, reference_step comp p -> c !! prep_key p = Some e -> layer_from_cache e = Ok (Some l) ->
    exists up, prep_upper p = Ok up /\ package comp up = Ok l.

(** ** The key determines the result *)

(** What a prepared [RUN] is. *)
Lemma prepare_run_inv ctx bundle u run n p :
  prepare_run ctx bundle u run n = Ok p -> run_mounts run = [] ->
  exists argv spec summary, prep_input p = Input_Run (oci_arch_string (ctx_architecture ctx))
      (media_type (compression u)) (parent_state_hash u) argv (cc_env (container u))
      (cc_working_dir (container u)) (cc_user (container u)) []
    /\ prep_upper p = run_upper bundle u spec [] summary /\ spec_argv spec = argv /\ spec_env spec = cc_env (container u)
    /\ spec_working_dir spec = cc_working_dir (container u) /\ spec_user spec = cc_user (container u)
    /\ spec_bind_mounts spec = [].
Proof.
  unfold prepare_run. intros E Hm. destruct (run_argv u (run_command run)) as [argv summary].
  rewrite Hm in E. cbn in E. injection E as <-. eexists argv, _, summary. by split_and!.
Qed.

Lemma run_upper_Ok bundle u spec targets summary up :
  run_upper bundle u spec targets summary = Ok up <->
  exists dir, execute bundle (lower_stack u (base_lowers bundle)) spec = Ok (Some 0%Z, dir)
              /\ up = scrub_secret_mountpoints dir targets.
Proof.
  unfold run_upper. rewrite bind_Ok. split.
  - intros ([code dir] & E & HR). case_bool_decide; simplify_eq. eauto.
  - intros (dir & E & ->). exists (Some 0%Z, dir). split; [done|]. by rewrite bool_decide_eq_true_2.
Qed.

Lemma default_not_nil (o o' : option str) : o <> Some [] -> o' <> Some [] -> default [] o = default [] o' -> o = o'.
Proof. destruct o, o'; simpl; intros; congruence. Qed.

Lemma run_determined b b' u u' spec spec' summary summary' up :
  complete b u -> complete b' u' -> parent_state_hash u = parent_state_hash u' -> same_run spec spec' ->
  run_upper b u spec [] summary = Ok up ->
  exists up', run_upper b' u' spec' [] summary' = Ok up' /\ same_archive up up'.
Proof.
  intros Hc Hc' HP HS (dir & E & ->)%run_upper_Ok.
  destruct (parent_determined _ _ _ _ Hc Hc' HP) as [Eb Eu]. unfold lower_stack in E.
  assert (HR : Forall2 same_archive (rev (upper_guards u)) (rev (upper_guards u')))
    by (rewrite !rev_alt; by apply Forall2_reverse).
  destruct (execute_image b b' (layer_diff_id <$> base_layers u) _ _ _ spec' _ _ (co_bundle _ _ Hc)
    ltac:(rewrite Eb; apply (co_bundle _ _ Hc')) HS HR E) as (dir' & E' & HD).
  exists dir'. rewrite scrub_none. split; [|done]. apply run_upper_Ok. exists dir'. by rewrite scrub_none.
Qed.

(** What a prepared [ADD] is. *)
Inductive add_shape (ctx : BuildCtx) (u : BuildState) (add : Add) (p : Prepared) : Prop :=
| shape_url url dst f :
    ends_with_byte "/" dst = false -> ctx_fetched_urls ctx !! url = Some f ->
    prep_input p = Input_AddUrl (media_type (compression u)) (parent_state_hash u) (fetched_digest f) dst ->
    prep_upper p = url_upper url dst f -> add_shape ctx u add p
| shape_oci r d dst :
    lookup_ref r = Ok (Some d) ->
    prep_input p = Input_AddOci (media_type (compression u)) (parent_state_hash u) d dst ->
    prep_upper p = image_rootfs_at r dst -> add_shape ctx u add p
| shape_from r d path dst err :
    lookup_ref r = Ok (Some d) ->
    prep_input p = Input_AddFrom (media_type (compression u)) (parent_state_hash u) d path dst ->
    prep_upper p = (src ← image_source r (trim_start "/" path); src ← ok_or src err;
                    _ ← image_contained r (trim_start "/" path); copy_upper src dst) -> add_shape ctx u add p
| shape_file name mode bytes dst :
    free lf name -> (mode < 4096)%N ->
    prep_input p = Input_Add (oci_arch_string (ctx_architecture ctx)) (media_type (compression u))
      (parent_state_hash u) (add_source_digest sha256_hex (Source_File (Some name) mode bytes)) dst ->
    prep_upper p = copy_upper (Source_File (Some name) mode bytes) dst -> add_shape ctx u add p.

Lemma ok_or_Ok {E A} (o : option A) (e : E) a : ok_or o e = Ok a <-> o = Some a.
Proof. destruct o; simpl; split; congruence. Qed.

Lemma prepare_add_inv ctx u add p :
  prepare_add ctx u add = Ok p -> plain_add u add -> add_shape ctx u add p.
Proof.
  unfold prepare_add, plain_add. destruct (if add_plain_copy add then _ else None); [done|].
  destruct (add_source add) as [url|path|r].
  - intros (? & _ & (f & Hf%ok_or_Ok & [= <-])%bind_Ok)%bind_Ok Hd. by eapply shape_url.
  - destruct (add_from add) as [from|]; cbv zeta.
    + intros (? & _ & (? & _ & (r & _ & (o & Ho & (d & ->%ok_or_Ok & [= <-])%bind_Ok)%bind_Ok)%bind_Ok)%bind_Ok)%bind_Ok _.
      by eapply shape_from.
    + intros (? & _ & (? & _ & (src & Hs%ok_or_Ok & (? & _ & [= <-])%bind_Ok)%bind_Ok)%bind_Ok)%bind_Ok HP.
      destruct (HP _ Hs) as (name & mode & bytes & -> & Hn & Hm). by eapply shape_file.
  - intros (? & _ & (c & _ & (o & Ho & (d & ->%ok_or_Ok & [= <-])%bind_Ok)%bind_Ok)%bind_Ok)%bind_Ok _.
    by eapply shape_oci.
Qed.

Lemma url_upper_name url url' dst f up :
  ends_with_byte "/" dst = false -> url_upper url dst f = Ok up -> url_upper url' dst f = Ok up.
Proof.
  intros Hd. unfold url_upper. rewrite Hd, !bind_Ok. intros (fm & E & HF). exists fm. split; [done|].
  destruct fm; try done; apply map_err_Ok; by apply map_err_Ok in HF.
Qed.

Lemma fetched_determined ctx ctx' url url' f f' :
  ctx_ok ctx -> ctx_ok ctx' -> ctx_fetched_urls ctx !! url = Some f -> ctx_fetched_urls ctx' !! url' = Some f' ->
  fetched_digest f = fetched_digest f' -> f = f'.
Proof.
  intros HC HC' Hf Hf' E. pose proof (HC _ _ Hf) as D. pose proof (HC' _ _ Hf') as D'. simpl in D, D'.
  assert (fetched_payload f = fetched_payload f') by (apply sha256_digest_inj; congruence).
  destruct f, f'. simpl in *. congruence.
Qed.

Lemma stage_source_determined r r' d path dst err err' up :
  lookup_ref r = Ok (Some d) -> lookup_ref r' = Ok (Some d) ->
  (src ← image_source r path; src ← ok_or src err; _ ← image_contained r path; copy_upper src dst) = Ok up ->
  (src ← image_source r' path; src ← ok_or src err'; _ ← image_contained r' path; copy_upper src dst) = Ok up.
Proof.
  intros Hd Hd' (o & E1 & (src & ->%ok_or_Ok & ([] & E2 & E3)%bind_Ok)%bind_Ok)%bind_Ok.
  apply bind_Ok. exists (Some src). split; [by apply (image_source_digest r r' d)|]. simpl.
  apply bind_Ok. exists tt. split; [by apply (image_contained_digest r r' d)|done].
Qed.

(** An [ADD] and another step with the same key. *)
Lemma add_determined ctx ctx' u u' add add' p p' up :
  ctx_ok ctx -> ctx_ok ctx' -> add_shape ctx u add p -> add_shape ctx' u' add' p' ->
  prep_input p = prep_input p' ->
  compression u = compression u' /\ (prep_upper p = Ok up -> prep_upper p' = Ok up).
Proof.
  intros HC HC' HS HS' E.
  destruct HS as [url dst f Hd Hf Ei Eu|r d dst Hl Ei Eu|r d path dst err Hl Ei Eu|name mode bytes dst Hn Hm Ei Eu];
  destruct HS' as [url' dst' f' Hd' Hf' Ei' Eu'|r' d' dst' Hl' Ei' Eu'|r' d' path' dst' err' Hl' Ei' Eu'
                  |name' mode' bytes' dst' Hn' Hm' Ei' Eu'];
  rewrite Ei, Ei' in E; try discriminate E; rewrite Eu, Eu'.
  - injection E as Ec _ Ed ->. split; [by apply media_type_inj|].
    rewrite (fetched_determined ctx ctx' url url' f f') by done. by apply url_upper_name.
  - injection E as Ec _ -> ->. split; [by apply media_type_inj|]. by apply (image_rootfs_digest r r' d').
  - injection E as Ec _ -> -> ->. split; [by apply media_type_inj|]. by eapply stage_source_determined.
  - injection E as _ Ec _ Ed ->. split; [by apply media_type_inj|].
    apply sha256_inj, file_text_inj in Ed as (-> & -> & ->); done.
Qed.

Lemma reference_functional comp p comp' p' up :
  reference_step comp p -> reference_step comp' p' -> prep_key p = prep_key p' ->
  comp = comp' /\ (prep_upper p = Ok up -> exists up', prep_upper p' = Ok up' /\ same_archive up up').
Proof.
  intros HR HR' E. unfold prep_key, cache_key in E.
  assert (HI : forall i j, well_framed i -> well_framed j -> cache_key sha256_hex i = cache_key sha256_hex j ->
    same_input i j).
  { intros i j Hi Hj HE. apply input_text_inj; [done..|]. by destruct i, j; apply sha256_inj in HE. }
  destruct HR as [ctx b u run n p Hc (Hm & Hw & Hu) HP Hf|ctx b u add p Hc HX HA HP Hf],
    HR' as [ctx' b' u' run' n' p' Hc' (Hm' & Hw' & Hu') HP' Hf'|ctx' b' u' add' p' Hc' HX' HA' HP' Hf'];
    apply (HI _ _ Hf Hf') in E.
  - destruct (prepare_run_inv _ _ _ _ _ _ HP Hm) as (argv & sp & su & Ei & Eu & S1 & S2 & S3 & S4 & S5).
    destruct (prepare_run_inv _ _ _ _ _ _ HP' Hm') as (argv' & sp' & su' & Ei' & Eu' & S1' & S2' & S3' & S4' & S5').
    rewrite Ei, Ei' in E. destruct E as (_ & Ec & Ep & Ea & Ee & Ed & Es & _).
    apply default_not_nil in Ed, Es; [|done..]. split; [by apply media_type_inj|]. rewrite Eu, Eu'.
    apply (run_determined b b' u u' sp sp' su su' up Hc Hc' Ep). unfold same_run. split_and!; congruence.
  - exfalso. destruct (prepare_run_inv _ _ _ _ _ _ HP Hm) as (argv & sp & su & Ei & _). rewrite Ei in E.
    destruct (prepare_add_inv _ _ _ _ HP' HA') as [? ? ? _ _ Ei'|? ? ? _ Ei'|? ? ? ? ? _ Ei'|? ? ? ? _ _ Ei'];
      by rewrite Ei' in E.
  - exfalso. destruct (prepare_run_inv _ _ _ _ _ _ HP' Hm') as (argv & sp & su & Ei & _). rewrite Ei in E.
    destruct (prepare_add_inv _ _ _ _ HP HA) as [? ? ? _ _ Ei'|? ? ? _ Ei'|? ? ? ? ? _ Ei'|? ? ? ? _ _ Ei'];
      by rewrite Ei' in E.
  - pose proof (prepare_add_inv _ _ _ _ HP HA) as HS. pose proof (prepare_add_inv _ _ _ _ HP' HA') as HS'.
    assert (EI : prep_input p = prep_input p').
    { by destruct HS as [? ? ? _ _ Ei|? ? ? _ Ei|? ? ? ? ? _ Ei|? ? ? ? _ _ Ei],
        HS' as [? ? ? _ _ Ei'|? ? ? _ Ei'|? ? ? ? ? _ Ei'|? ? ? ? _ _ Ei']; rewrite Ei, Ei' in *. }
    destruct (add_determined ctx ctx' u u' add add' p p' up HX HX' HS HS' EI) as [Ec HU].
    split; [done|]. intros Hu. exists up. split; [auto|done].
Qed.

(** ** The cache stays coherent *)

Definition entry_of (l : LayerSource) (line : str) : CachedStep :=
  {| blob_digest := sha256_digest sha256_hex (layer_data l); cached_diff_id := layer_diff_id l;
     cached_media_type := layer_media_type l; history_line := line |}.

Lemma layer_from_entry l line l' : layer_from_cache (entry_of l line) = Ok (Some l') -> l' = l.
Proof.
  unfold layer_from_cache, entry_of. simpl. destruct (blob _) as [[bytes|e]|] eqn:E; [|done|done].
  intros [= <-]. apply blob_content, sha256_digest_inj in E as ->. by destruct l.
Qed.

Lemma coherent_store c comp p up l line :
  coherent c -> reference_step comp p -> prep_upper p = Ok up -> package comp up = Ok l ->
  coherent (<[prep_key p := entry_of l line]> c).
Proof.
  intros HC HR Hu Hl comp' p' e l' HR' He Hl'. destruct (decide (prep_key p = prep_key p')) as [Ek|Ek].
  - rewrite Ek, lookup_insert_eq in He. injection He as <-. apply layer_from_entry in Hl' as ->.
    destruct (reference_functional _ _ _ _ up HR HR' Ek) as [<- HU].
    destruct (HU Hu) as (up' & Hu' & HA). exists up'. split; [done|]. by rewrite <- (package_archive _ _ _ HA).
  - rewrite lookup_insert_ne in He by done. by eapply HC.
Qed.

(** ** What the cache can change

    The builder's state, less its history, the directories it kept and whether
    it took a layer from the cache. *)

Definition no_history (c : ImageConfig) : ImageConfig :=
  {| ic_architecture := ic_architecture c; ic_os := ic_os c; ic_created := ic_created c;
     ic_author := ic_author c; ic_container := ic_container c; ic_history := [];
     ic_umf_type := ic_umf_type c; ic_umf_spec := ic_umf_spec c |}.

Definition core (st : BuildState) : BuildState :=
  {| image_config := no_history (image_config st); base_layers := base_layers st; new_layers := new_layers st;
     upper_guards := []; current_shell := current_shell st; adopted_from_cache := false;
     compression := compression st; arg_scope := arg_scope st |}.

Record sim (s u : BuildState) : Prop := {
  sim_core : core s = core u;
  sim_uppers : adopted_from_cache s = false -> upper_guards s = upper_guards u;
  sim_reference : adopted_from_cache u = false
}.

Definition with_layer (l : LayerSource) (st : BuildState) : BuildState :=
  {| image_config := image_config st; base_layers := base_layers st; new_layers := new_layers st ++ [l];
     upper_guards := upper_guards st; current_shell := current_shell st;
     adopted_from_cache := adopted_from_cache st; compression := compression st; arg_scope := arg_scope st |}.

Lemma push_core up line s u : core s = core u ->
  match push_new_layer up line u with
  | Ok (l, u') => exists s', push_new_layer up line s = Ok (l, s') /\ core s' = core u'
      /\ upper_guards s' = upper_guards s ++ [up] /\ upper_guards u' = upper_guards u ++ [up]
      /\ adopted_from_cache s' = adopted_from_cache s /\ adopted_from_cache u' = adopted_from_cache u
      /\ package (compression u) up = Ok l
  | Err e => push_new_layer up line s = Err e
  end.
Proof.
  intros E. unfold push_new_layer.
  replace (package (compression s) up) with (package (compression u) up) by (f_equal; symmetry; exact (f_equal compression E)).
  destruct (package (compression u) up) as [l|e]; simpl; [|done]. eexists. split_and!; try done.
  change (with_layer l (core s) = with_layer l (core u)). by rewrite E.
Qed.

Lemma adopt_core l line s u u' up : core s = core u -> push_new_layer up line u = Ok (l, u') ->
  forall line', core (adopt_cached_layer l line' s) = core u'.
Proof.
  intros E. unfold push_new_layer. intros (l' & _ & [= -> <-])%bind_Ok line'.
  change (with_layer l (core s) = with_layer l (core u)). by rewrite E.
Qed.

(** The metadata directives depend on the core only. *)
Lemma metadata_core (f : BuildState -> BuildState) s u :
  (forall st, core (f st) = core (f (core st))) ->
  (forall st, adopted_from_cache (f st) = adopted_from_cache st /\ upper_guards (f st) = upper_guards st) ->
  sim s u -> sim (f s) (f u).
Proof.
  intros HC HF [E HU HA]. split.
  - by rewrite (HC s), (HC u), E.
  - destruct (HF s) as [-> ->], (HF u) as [_ ->]. done.
  - by destruct (HF u) as [-> _].
Qed.

Lemma workdir_core s u wd : sim s u ->
  match apply_workdir u wd with
  | Ok u' => exists s', apply_workdir s wd = Ok s' /\ sim s' u'
  | Err e => apply_workdir s wd = Err e
  end.
Proof.
  intros [E HU HA]. unfold apply_workdir. cbv zeta.
  assert (HS : forall t, state_subst s t = state_subst u t).
  { intros t. change (state_subst (core s) t = state_subst (core u) t). by rewrite E. }
  assert (container s = container u) as -> by (change (container (core s) = container (core u)); by rewrite E).
  rewrite HS. set (dir := resolve_workdir _ _).
  destruct (create_dir_all _) as [up|e]; simpl; [|done].
  pose proof (push_core up ("WORKDIR " ++ as_str (value (workdir_path wd))) s u E) as HP. simpl in HP.
  destruct (push_new_layer _ _ u) as [[l u']|e]; simpl; [|by rewrite HP].
  destruct HP as (s' & -> & E' & Es & Eu & As & Au & _). simpl. eexists. split; [done|]. split; simpl.
  - change (update_container (with_working_dir (Some dir)) (core s') = update_container (with_working_dir (Some dir)) (core u')).
    by rewrite E'.
  - rewrite As, Es, Eu. intros H'. by rewrite HU.
  - by rewrite Au.
Qed.

Lemma state_action_sim ctx b s u d n r :
  sim s u -> action ctx b u d n = Action_State r ->
  match r with
  | Ok u' => exists s', action ctx b s d n = Action_State (Ok s') /\ sim s' u'
  | Err e => action ctx b s d n = Action_State (Err e)
  end.
Proof.
  intros HS HA. destruct d; try discriminate HA; injection HA as <-;
    try (eexists; split; [reflexivity|];
         first [apply (metadata_core (fun st => apply_label st d))|apply (metadata_core (fun st => apply_env st d))
               |apply (metadata_core (fun st => apply_arg (ctx_build_args ctx) st d))
               |apply (metadata_core (fun st => apply_shell st d))|apply (metadata_core (fun st => apply_user st d))
               |apply (metadata_core (fun st => apply_entrypoint st (entrypoint_init d)))
               |apply (metadata_core (fun st => apply_expose st d))|apply (metadata_core (fun st => apply_cmd st d))
               |apply (metadata_core (fun st => apply_volume st d))
               |apply (metadata_core (fun st => apply_stopsignal st d))]; [| |exact HS]; intros st;
         try done; by destruct d as [[] ?]).
  pose proof (workdir_core s u d HS) as HW. simpl action. destruct (apply_workdir u d) as [u'|e]; [|by rewrite HW].
  destruct HW as (s' & -> & HS'). eauto.
Qed.

(** ** Layer steps *)

Lemma prepare_add_core ctx st add : prepare_add ctx st add = prepare_add ctx (core st) add.
Proof. done. Qed.

Lemma prepare_add_sim ctx s u add : core s = core u -> prepare_add ctx s add = prepare_add ctx u add.
Proof. intros E. by rewrite (prepare_add_core ctx s), (prepare_add_core ctx u), E. Qed.

(** A [RUN] prepared in the two states: the same step, on the directories each
    state has. *)
Lemma prepare_run_sim ctx b s u run n : core s = core u ->
  match prepare_run ctx b u run n with
  | Ok pu => exists ps, prepare_run ctx b s run n = Ok ps /\ prep_input ps = prep_input pu
      /\ prep_line ps = prep_line pu /\ (upper_guards s = upper_guards u -> prep_upper ps = prep_upper pu)
  | Err e => prepare_run ctx b s run n = Err e
  end.
Proof.
  intros E. unfold prepare_run.
  assert (run_argv s (run_command run) = run_argv u (run_command run)) as ->.
  { change (run_argv (core s) (run_command run) = run_argv (core u) (run_command run)). by rewrite E. }
  destruct (run_argv u (run_command run)) as [argv summary].
  destruct (secret_mounts _ _) as [[[binds ids] targets]|e]; simpl; [|done]. eexists. split; [done|]. simpl.
  assert (container s = container u) as -> by (change (container (core s) = container (core u)); by rewrite E).
  assert (compression s = compression u) as -> by exact (f_equal compression E).
  assert (parent_state_hash s = parent_state_hash u) as ->.
  { change (parent_state_hash (core s) = parent_state_hash (core u)). by rewrite E. }
  split_and!; [done|done|]. intros EU. unfold run_upper, lower_stack. by rewrite EU.
Qed.

(** A layer taken from a coherent cache is the reference's. *)
Lemma hit_sim comp p s u c lookup l line :
  coherent c -> reference_step comp p -> comp = compression u -> sim s u ->
  cached_layer lookup (prep_key p) c = (Ok (Some (l, line)), c) ->
  exists u', ref_layer u p = Ok u' /\ sim (adopt_cached_layer l line s) u'.
Proof.
  intros HC HR -> [E HU HA] HL'. unfold cached_layer in HL'. destruct lookup; [|done].
  unfold mbind, Step_bind, cache_lookup in HL'. destruct (c !! prep_key p) as [e|] eqn:He; [|done].
  unfold of_result in HL'. destruct (layer_from_cache e) as [[l'|]|] eqn:El; try done.
  injection HL' as <- _. destruct (HC _ _ _ _ HR He El) as (up & Hup & Hpk).
  unfold ref_layer. rewrite Hup. simpl.
  destruct (push_new_layer up (prep_line p) u) as [[l2 u']|e'] eqn:EP;
    [|by unfold push_new_layer in EP; rewrite Hpk in EP].
  assert (l2 = l') as -> by (unfold push_new_layer in EP; rewrite Hpk in EP; by injection EP as <- _).
  simpl. exists u'. split; [done|]. split; [by eapply adopt_core|done|].
  pose proof (push_core up (prep_line p) u u eq_refl) as HP. rewrite EP in HP. destruct HP as (? & _ & _ & _ & _ & _ & -> & _).
  done.
Qed.

Lemma cached_layer_cases lookup key c :
  cached_layer lookup key c = (Ok None, c)
  \/ (lookup = true /\ exists l line, cached_layer lookup key c = (Ok (Some (l, line)), c)).
Proof.
  unfold cached_layer. destruct lookup; [|by left]. unfold mbind, Step_bind, cache_lookup.
  destruct (c !! key) as [e|]; [|by left]. unfold of_result.
  destruct (layer_from_cache e) as [[l|]|err] eqn:El; [right; eauto|by left|].
  exfalso. unfold layer_from_cache in El. destruct (blob (blob_digest e)) as [[]|] eqn:Eb; try done.
  by apply blob_readable in Eb.
Qed.

(** The outcome of a step of the builder against the reference's. *)
Definition step_sim (lookup : bool) (r : result EngineBuildError (StepFlow * BuildState)) (ref : result EngineBuildError BuildState)
    : Prop :=
  (lookup = true /\ exists s', r = Ok (StepFlow_RebuildWithoutCache, s'))
  \/ match ref with
     | Ok u' => exists s', r = Ok (StepFlow_Continue, s') /\ sim s' u' /\ (lookup = false -> adopted_from_cache s' = false)
     | Err e => r = Err e
     end.

Lemma layer_step_sim ov lookup s u ps pu c :
  sim s u -> coherent c -> reference_step (compression u) pu -> (lookup = false -> adopted_from_cache s = false) ->
  prep_input ps = prep_input pu -> prep_line ps = prep_line pu ->
  (ov && adopted_from_cache s = false -> prep_upper ps = prep_upper pu) ->
  exists r c', layer_step ov lookup s ps c = (r, c') /\ coherent c' /\ step_sim lookup r (ref_layer u pu).
Proof.
  intros HS HC HR HA Ei El Eu. unfold layer_step.
  assert (prep_key ps = prep_key pu) as -> by (unfold prep_key; by rewrite Ei).
  destruct (cached_layer_cases lookup (prep_key pu) c) as [E|(-> & l & line & E)].
  - unfold mbind at 1, Step_bind at 1. rewrite E. destruct (ov && adopted_from_cache s) eqn:Ea.
    + eexists _, c. split; [done|]. split; [done|]. left. split; [|eauto].
      apply andb_true_iff in Ea as [_ Ea]. destruct lookup; [done|]. by rewrite HA in Ea.
    + rewrite of_result_bind, Eu, El by done. unfold ref_layer. destruct (prep_upper pu) as [up|e] eqn:Ep; simpl.
      2: { eexists _, c. split; [done|]. split; [done|]. by right. }
      pose proof (push_core up (prep_line pu) s u (sim_core _ _ HS)) as HP.
      unfold package_and_cache_upper. rewrite Step_bind_assoc, of_result_bind.
      destruct (push_new_layer up (prep_line pu) u) as [[l u']|e]; simpl.
      2: { rewrite HP. eexists _, c. split; [done|]. split; [done|]. by right. }
      destruct HP as (s' & -> & E' & Es & Eus & As & Au & Hpk). eexists _, _. split; [done|]. split.
      * by eapply coherent_store.
      * right. exists s'. split; [done|]. split; [|by rewrite As]. destruct HS as [_ HU HA']. split; [done| |by rewrite Au].
        rewrite As, Es, Eus. intros H'. by rewrite HU.
  - unfold mbind, Step_bind. rewrite E. destruct (hit_sim _ _ _ _ _ _ _ _ HC HR eq_refl HS E) as (u' & -> & HS').
    eexists _, c. split; [done|]. split; [done|]. right. eauto 6.
Qed.

(** What the theorem asks of a directive in a reference state. *)
Definition covered (ctx : BuildCtx) (b : Bundle) (u : BuildState) (d : Directive) : Prop :=
  match d with
  | Directive_Run run => plain_run u run /\ forall n p, prepare_run ctx b u run n = Ok p -> well_framed (prep_input p)
  | Directive_Add add => plain_add u add /\ forall p, prepare_add ctx u add = Ok p -> well_framed (prep_input p)
  | _ => True
  end.

(** The steps outside the cache keep the flag. *)
Lemma state_action_adopted ctx b s d n s' :
  action ctx b s d n = Action_State (Ok s') -> adopted_from_cache s' = adopted_from_cache s.
Proof.
  intros HA. destruct d; try discriminate HA; injection HA as HA;
    try (by rewrite <- HA; first [done|destruct d as [[] ?]]).
  apply bind_Ok in HA as (up & _ & HA). apply bind_Ok in HA as ([l st] & HP & [= <-]).
  unfold push_new_layer in HP. by apply bind_Ok in HP as (? & _ & [= _ <-]).
Qed.

Lemma directive_sim ctx b s u d n lookup c :
  sim s u -> complete b u -> ctx_ok ctx -> covered ctx b u d -> coherent c ->
  (lookup = false -> adopted_from_cache s = false) ->
  exists r c', apply_directive ctx b s d n lookup c = (r, c') /\ coherent c'
    /\ step_sim lookup r (ref_step ctx b u d n).
Proof.
  intros HS HC HX HV HH HA. rewrite apply_directive_eq. unfold ref_step.
  destruct (action ctx b u d n) as [pu|r] eqn:Ea.
  - unfold run_action. destruct d as [| | | | | |run|add| | | | |]; try discriminate Ea; injection Ea as <-.
    + cbn [action needs_overlay]. destruct HV as [HV HW].
      pose proof (prepare_run_sim ctx b s u run n (sim_core _ _ HS)) as HP.
      rewrite of_result_bind. destruct (prepare_run ctx b u run n) as [pu|e] eqn:Ep; simpl.
      2: { rewrite HP. eexists _, c. split; [done|]. split; [done|]. by right. }
      destruct HP as (ps & -> & Ei & El & Eu). apply layer_step_sim; try done.
      * eapply reference_run; [done|done|exact Ep|by eapply HW].
      * intros Ha. apply Eu. by apply (sim_uppers _ _ HS).
    + cbn [action needs_overlay]. destruct HV as [HV HW].
      rewrite of_result_bind, (prepare_add_sim ctx s u add (sim_core _ _ HS)).
      destruct (prepare_add ctx u add) as [pu|e] eqn:Ep; simpl.
      2: { eexists _, c. split; [done|]. split; [done|]. by right. }
      apply layer_step_sim; try done. eapply reference_add; [done|done|done|exact Ep|by apply HW].
  - pose proof (state_action_sim ctx b s u d n r HS Ea) as HP. destruct r as [u'|e].
    + destruct HP as (s' & Es & HS'). rewrite Es. eexists _, c. split; [done|]. split; [done|]. right. exists s'.
      split_and!; [done|done|]. intros Hl. by rewrite (state_action_adopted _ _ _ _ _ _ Es), HA.
    + rewrite HP. eexists _, c. split; [done|]. split; [done|]. by right.
Qed.

(** ** The walk *)

Lemma push_complete b u up line l u' :
  complete b u -> push_new_layer up line u = Ok (l, u') -> complete b u'.
Proof.
  intros [HF HB HG]. unfold push_new_layer. intros (l' & Hp & [= -> <-])%bind_Ok. split; simpl; [|done..].
  apply Forall2_app; [done|]. by constructor.
Qed.

Lemma ref_step_complete ctx b u d n u' : complete b u -> ref_step ctx b u d n = Ok u' -> complete b u'.
Proof.
  intros HC. unfold ref_step. destruct (action ctx b u d n) as [p|r] eqn:Ea.
  - unfold ref_layer. intros (q & _ & (up & _ & ([l st] & HP & [= <-])%bind_Ok)%bind_Ok)%bind_Ok.
    by eapply push_complete.
  - intros ->. destruct d; try discriminate Ea; injection Ea as Ea;
      try (rewrite <- Ea; first [by destruct HC|destruct d as [[] ?]; by destruct HC]).
    apply bind_Ok in Ea as (up & _ & Ea). apply bind_Ok in Ea as ([l st] & HP & [= <-]).
    apply (push_complete _ _ _ _ _ _ HC) in HP. by destruct HP.
Qed.

(** The directives of a stage, each in the state the reference reaches. *)
Fixpoint covered_walk (ctx : BuildCtx) (b : Bundle) (ds : list Directive) (u : BuildState) (n : nat) : Prop :=
  match ds with
  | [] => True
  | d :: ds => covered ctx b u d
      /\ forall u', ref_step ctx b u d (n + 1) = Ok u' -> covered_walk ctx b ds u' (n + 1)
  end.

Section stage.
Context (ctx : BuildCtx) (b : Bundle) (hook : option (StepInfo -> bool)) (stage_index stage_total step_total : nat).
Context (HX : ctx_ok ctx).

Lemma walk_sim lookup ds s u n c :
  sim s u -> complete b u -> covered_walk ctx b ds u n -> coherent c ->
  (lookup = false -> adopted_from_cache s = false) ->
  exists r c', walk ctx b hook stage_index stage_total step_total lookup ds s n c = (r, c') /\ coherent c'
    /\ ((lookup = true /\ r = Ok None)
        \/ match ref_walk ctx b hook stage_index stage_total step_total ds u n with
           | Ok u' => exists s', r = Ok (Some s') /\ sim s' u'
           | Err e => r = Err e
           end).
Proof.
  revert s u n c. induction ds as [|d ds IH]; intros s u n c HS HC HV HH HA.
  { exists (Ok (Some s)), c. split_and!; [done|done|]. right. by exists s. }
  cbn [walk ref_walk]. cbv zeta. destruct (aborts _ _ _ _ _ _).
  { eexists _, c. split_and!; [done|done|]. by right. }
  destruct HV as [HV HW].
  destruct (directive_sim ctx b s u d (n + 1) lookup c HS HC HX HV HH HA) as (r & c' & E & HH' & HR).
  unfold mbind at 1, Step_bind at 1. rewrite E. destruct HR as [(-> & s' & ->)|HR].
  { exists (Ok None), c'. split_and!; [done|done|]. by left. }
  destruct (ref_step ctx b u d (n + 1)) as [u'|e] eqn:Er; simpl.
  - destruct HR as (s' & -> & HS' & HA'). apply IH; try done; [by eapply ref_step_complete|by apply HW].
  - subst r. eexists _, c'. split_and!; [done|done|]. by right.
Qed.

Lemma start_sim base : sim (BuildState_new base (ctx_compression ctx) (ctx_globals ctx))
                           (BuildState_new base (ctx_compression ctx) (ctx_globals ctx)).
Proof. done. Qed.

Lemma attempts_sim ds base c :
  let u0 := BuildState_new base (ctx_compression ctx) (ctx_globals ctx) in
  complete b u0 -> covered_walk ctx b ds u0 0 -> coherent c ->
  exists r c', attempts ctx b hook stage_index stage_total step_total 2 true ds base c = Val (r, c') /\ coherent c'
    /\ match ref_stage ctx b hook stage_index stage_total step_total ds base with
       | Ok u => exists s, r = Ok s /\ sim s u
       | Err e => r = Err e
       end.
Proof.
  intros u0 HC HV HH. unfold ref_stage. fold u0. cbn [attempts]. fold u0.
  destruct (walk_sim true ds u0 u0 0 c) as (r & c1 & -> & HH1 & HR); try done.
  destruct HR as [[_ ->]|HR].
  - destruct (walk_sim false ds u0 u0 0 c1) as (r & c2 & -> & HH2 & [[? _]|HR]); try done.
    destruct (ref_walk _ _ _ _ _ _ ds u0 0) as [u|e]; [destruct HR as (s & -> & HS)|subst r];
      eexists _, c2; eauto.
  - destruct (ref_walk _ _ _ _ _ _ ds u0 0) as [u|e]; [destruct HR as (s & -> & HS)|subst r];
      eexists _, c1; eauto.
Qed.

End stage.
End refine.

(** ** The laws on a host *)

Module ModelLaws.
Import Model.

#[export] Instance laws : HostLaws host.
Proof.
  refine {| bundle_for := fun _ ids => ids = [] |}; simpl.
  - apply hex_inj.
  - apply hex_line.
  - intros d bytes. case_decide; [|done]. by intros [= <-].
  - intros d e. by case_decide.
  - intros b b' ids lowers lowers' spec spec' code up _ _ (E & _) HF.
    assert (lowers = lowers') as -> by (induction HF as [|? ? ? ? HA _ IH]; [done|]; injection HA as ->; by rewrite IH).
    rewrite E. unfold same_archive. eauto.
  - done.
  - congruence.
  - done.
  - congruence.
Defined.

Lemma nothing_fetched : ctx_ok ctx.
Proof. apply map_Forall_empty. Qed.

Lemma start_complete : complete tt (BuildState_new base LayerCompression_Gzip ∅).
Proof. split; simpl; [constructor|constructor|done]. Qed.

Lemma no_entries : coherent ∅.
Proof. intros comp p e l _ He. by rewrite lookup_empty in He. Qed.

Lemma framed (P : Prop) `{Decision P} : bool_decide P = true -> P.
Proof. apply bool_decide_eq_true_1. Qed.

Lemma all_covered : covered_walk ctx tt [add_a; run_sh "y"] (BuildState_new base LayerCompression_Gzip ∅) 0.
Proof.
  split; [|intros u [= <-]; split; [|done]].
  - split.
    + intros src [= <-]. eexists _, _, _. split; [done|]. split; [by apply (framed (free _ _))|done].
    + intros p [= <-]. repeat constructor; by apply (framed (free _ _)); vm_compute.
  - split; [done|]. intros n p [= <-].
    split_and!; repeat constructor; by apply (framed (free _ _)); vm_compute.
Qed.
End ModelLaws.

