(* ===== verification/BaseImage.v ===== *)
(** * BaseImage: emitting an image into a layout and reading a base image back
    (crates/umf-oci/src/image/mod.rs::emit_image, serde.rs;
    crates/umf-builder/src/engine_build/base_image.rs, platform.rs).

    The JSON text of documents is oci-client's and serde_json's: parsers and
    printers are parameters. *)

From S2P Require Import Prelude RustStr Target Image Json Layout LayoutFacts Identifiers Paths OciRef Ast.
From S2P Require Import Subst ArgScope Calendar StepCache BuildState.

(** ** The config document (serde.rs) *)

Definition opt_field (key : str) (v : option Value) (ms : gmap str Value) : gmap str Value :=
  match v with Some v => <[key := v]> ms | None => ms end.
Definition str_list (l : list str) : Value := Value_Array (Value_String <$> l).
(** [skip_serializing_if = "Vec::is_empty"] and ["BTreeMap::is_empty"]. *)
Definition non_empty {A} (l : list A) (v : Value) : option Value := match l with [] => None | _ => Some v end.
Definition empty_objects (s : gset str) : option Value :=
  if decide (s = ∅) then None else Some (Value_Object (set_to_map (fun k => (k, Value_Object ∅)) s)).
Definition str_map (m : gmap str str) : option Value :=
  if decide (m = ∅) then None else Some (Value_Object (Value_String <$> m)).

Definition history_value (h : HistoryEntry) : Value :=
  Value_Object
    (opt_field "created" (Value_String <$> history_created h)
    (opt_field "created_by" (Value_String <$> history_created_by h)
    (opt_field "author" (Value_String <$> history_author h)
    (opt_field "comment" (Value_String <$> history_comment h)
    (opt_field "empty_layer" (if history_empty_layer h then Some (Value_Bool true) else None) ∅))))).

Definition container_value (doc : OciImageConfigDoc) : Value :=
  let c := doc_config doc in
  Value_Object
    (opt_field "User" (Value_String <$> cc_user c)
    (opt_field "Env" (non_empty (cc_env c) (str_list (cc_env c)))
    (opt_field "Entrypoint" (str_list <$> cc_entrypoint c)
    (opt_field "Cmd" (str_list <$> cc_cmd c)
    (opt_field "WorkingDir" (Value_String <$> cc_working_dir c)
    (opt_field "ExposedPorts" (empty_objects (doc_exposed_ports doc))
    (opt_field "Volumes" (empty_objects (doc_volumes doc))
    (opt_field "StopSignal" (Value_String <$> cc_stop_signal c)
    (opt_field "Labels" (str_map (cc_labels c)) ∅))))))))).

Definition rootfs_value (diff_ids : list str) : Value :=
  Value_Object (<["type" : str := Value_String "layers"]> (<["diff_ids" : str := str_list diff_ids]> ∅)).

Definition config_value (doc : OciImageConfigDoc) : Value :=
  Value_Object
    (<["architecture" : str := Value_String (doc_architecture doc)]>
    (<["os" : str := Value_String (doc_os doc)]>
    (opt_field "created" (Value_String <$> doc_created doc)
    (opt_field "author" (Value_String <$> doc_author doc)
    (<["config" : str := container_value doc]>
    (<["rootfs" : str := rootfs_value (doc_diff_ids doc)]>
    (opt_field "history" (non_empty (doc_history doc) (Value_Array (history_value <$> doc_history doc))) ∅))))))).

(** ** Emission *)

Definition IMAGE_CONFIG_MEDIA_TYPE : str := "application/vnd.oci.image.config.v1+json".

Section emit.
Context (sha256_hex : str -> str) (print_json : Value -> str) (print_manifest : OciImageManifest -> str).

Fixpoint write_layers (layers : list LayerSource) (L : ImageLayout) : result RegistryError ImageLayout :=
  match layers with
  | [] => Ok L
  | l :: layers =>
      L ← write_blob_with_digest sha256_hex (layer_data l) (sha256_digest sha256_hex (layer_data l)) L;
      write_layers layers L
  end.

Definition image_manifest (layers : list LayerSource) (config_bytes config_digest : str) : OciImageManifest :=
  {| mf_config := {| desc_media_type := IMAGE_CONFIG_MEDIA_TYPE; desc_digest := config_digest;
                     desc_size := Z.of_nat (length config_bytes); desc_annotations := None |};
     mf_layers := layer_descriptors sha256_hex layers; mf_subject := None; mf_artifact_type := None;
     mf_annotations := None |}.

Definition emit_image (layers : list LayerSource) (config : ImageConfig) (ref_name : str) (L : ImageLayout)
    : result RegistryError (ImageIndexEntry * ImageLayout) :=
  L ← write_layers layers L;
  let config_bytes := print_json (config_value (config_doc layers config)) in
  '(config_digest, L) ← write_blob sha256_hex config_bytes L;
  let manifest_bytes := print_manifest (image_manifest layers config_bytes config_digest) in
  let manifest_digest := sha256_digest sha256_hex manifest_bytes in
  L ← write_blob_with_digest sha256_hex manifest_bytes manifest_digest L;
  let e := {| ie_media_type := OCI_IMAGE_MEDIA_TYPE; ie_digest := manifest_digest;
              ie_size := Z.of_nat (length manifest_bytes); ie_platform := None; ie_annotations := None |} in
  Ok (e, upsert_ref ref_name e L).
End emit.

(** ** The base image *)

(** [select_for_arch]. *)
Definition platform_matches (want : str) (e : ImageIndexEntry) : bool :=
  match ie_platform e with
  | Some p => bool_decide (platform_os p = "linux") && bool_decide (platform_architecture p = want)
  | None => false
  end.
Definition variant_less (e : ImageIndexEntry) : bool :=
  match ie_platform e with Some p => is_nil (default [] (platform_variant p)) | None => false end.

Definition select_for_arch (es : list ImageIndexEntry) (architecture : Architecture) : option ImageIndexEntry :=
  let want := oci_arch_string architecture in
  match List.find (fun e => platform_matches want e && variant_less e) es with
  | Some e => Some e
  | None => List.find (platform_matches want) es
  end.

Definition scratch_base_image (architecture : Architecture) : BaseImage :=
  {| base_image_layers := [];
     base_image_config :=
       {| ic_architecture := oci_arch_string architecture; ic_os := ic_os ImageConfig_default;
          ic_created := ic_created ImageConfig_default; ic_author := ic_author ImageConfig_default;
          ic_container := ic_container ImageConfig_default; ic_history := ic_history ImageConfig_default;
          ic_umf_type := ic_umf_type ImageConfig_default; ic_umf_spec := ic_umf_spec ImageConfig_default |} |}.

Definition strings (l : list Value) : list str := omap value_str l.
Definition some_argv (l : list Value) : option (list str) := match strings l with [] => None | argv => Some argv end.
Definition some_str (s : str) : option str := match s with [] => None | s => Some s end.

Definition container_from_raw (cfg : Value) : ContainerConfig :=
  {| cc_env := match get "Env" cfg ≫= value_array with Some l => strings l | None => [] end;
     cc_entrypoint := match get "Entrypoint" cfg ≫= value_array with Some l => some_argv l | None => None end;
     cc_cmd := match get "Cmd" cfg ≫= value_array with Some l => some_argv l | None => None end;
     cc_working_dir := match get "WorkingDir" cfg ≫= value_str with Some s => some_str s | None => None end;
     cc_user := match get "User" cfg ≫= value_str with Some s => some_str s | None => None end;
     cc_labels := match get "Labels" cfg ≫= value_object with Some ms => omap value_str ms | None => ∅ end;
     cc_exposed_ports := []; cc_volumes := []; cc_stop_signal := None |}.

Definition image_config_from_raw (raw : Value) (architecture : Architecture) : ImageConfig :=
  {| ic_architecture := oci_arch_string architecture;
     ic_os := match get "os" raw ≫= value_str with Some s => s | None => "linux" end;
     ic_created := None; ic_author := None;
     ic_container := match get "config" raw with Some cfg => container_from_raw cfg | None => ContainerConfig_default end;
     ic_history := []; ic_umf_type := L0Kind_Container; ic_umf_spec := None |}.

Definition extract_diff_ids (raw : Value) : list str :=
  match diff_id_values raw with Some ids => strings ids | None => [] end.

Section resolve.
Context (sha256_hex : str -> str) (parse_manifest : str -> option OciManifest)
        (parse_image : str -> option OciImageManifest) (parse_json : str -> option Value)
        (compress : LayerCompression -> str -> result EngineBuildError str)
        (decode : str -> result EngineBuildError str).

Notation read L d := (map_err Registry (read_blob sha256_hex L d)).

(** The layers of a manifest, paired with their diff ids. *)
Fixpoint base_layers_of (L : ImageLayout) (c : LayerCompression) (ds : list OciDescriptor) (ids : list str)
    : result EngineBuildError (list LayerSource) :=
  match ds, ids with
  | d :: ds, id :: ids =>
      blob ← read L (desc_digest d);
      l ← normalized sha256_hex compress decode
            {| layer_data := blob; layer_media_type := desc_media_type d; layer_diff_id := id |} c;
      ls ← base_layers_of L c ds ids;
      Ok (l :: ls)
  | _, _ => Ok []
  end.

(** The manifest of a reference, and whether its architecture is unverified. *)
Definition base_manifest (L : ImageLayout) (e : ImageIndexEntry) (architecture : Architecture)
    : result EngineBuildError (OciImageManifest * bool) :=
  manifest_bytes ← read L (ie_digest e);
  match parse_manifest manifest_bytes with
  | None => Err (BuildState.Json "manifest")
  | Some (OciManifest_Image m) => Ok (m, true)
  | Some (OciManifest_ImageIndex es) =>
      chosen ← ok_or (select_for_arch es architecture) (NoManifestForPlatform (oci_arch_string architecture));
      child_bytes ← read L (ie_digest chosen);
      m ← ok_or (parse_image child_bytes) (BuildState.Json "manifest");
      Ok (m, false)
  end.

(** A manifest that was not chosen by its platform must not be for another one. *)
Definition check_base_arch (ref_name want : str) (arch_unverified : bool) (raw : Value) : result EngineBuildError unit :=
  match (if arch_unverified then get "architecture" raw ≫= value_str else None) with
  | Some found => if bool_decide (found = want) then Ok tt else Err (BaseImageArchMismatch ref_name want found)
  | None => Ok tt
  end.

Definition resolve_base_image (L : ImageLayout) (ref_name : str) (architecture : Architecture) (c : LayerCompression)
    : result EngineBuildError BaseImage :=
  e ← ok_or (layout_lookup_ref L ref_name) (Registry (RegistryError_NotFound ref_name));
  '(m, arch_unverified) ← base_manifest L e architecture;
  config_bytes ← read L (desc_digest (mf_config m));
  raw ← ok_or (parse_json config_bytes) (BuildState.Json "config");
  _ ← check_base_arch ref_name (oci_arch_string architecture) arch_unverified raw;
  let diff_ids := extract_diff_ids raw in
  if bool_decide (length diff_ids = length (mf_layers m)) then
    layers ← base_layers_of L c (mf_layers m) diff_ids;
    Ok {| base_image_layers := layers; base_image_config := image_config_from_raw raw architecture |}
  else Err (BaseImageLayerCountMismatch (length (mf_layers m)) (length diff_ids)).
End resolve.

(** ** What a base image passes on *)

Definition inherited (architecture : Architecture) (config : ImageConfig) : ImageConfig :=
  let c := ic_container config in
  {| ic_architecture := oci_arch_string architecture; ic_os := ic_os config; ic_created := None; ic_author := None;
     ic_container :=
       {| cc_user := cc_user c ≫= some_str; cc_env := cc_env c;
          cc_entrypoint := cc_entrypoint c ≫= fun l => if is_nil l then None else Some l;
          cc_cmd := cc_cmd c ≫= fun l => if is_nil l then None else Some l;
          cc_working_dir := cc_working_dir c ≫= some_str;
          cc_exposed_ports := []; cc_volumes := []; cc_stop_signal := None; cc_labels := final_labels config |};
     ic_history := []; ic_umf_type := L0Kind_Container; ic_umf_spec := None |}.

Lemma opt_field_eq key v ms : ms !! key = None -> opt_field key v ms !! key = v.
Proof. intros HN. destruct v; simpl; [apply lookup_insert_eq|done]. Qed.
Lemma opt_field_ne k key v ms : key <> k -> opt_field key v ms !! k = ms !! k.
Proof. intros HN. destruct v; simpl; [by apply lookup_insert_ne|done]. Qed.

(** Looks a member up in a document built from fields. *)
Ltac skip_fields := repeat first [rewrite opt_field_ne by done | rewrite lookup_insert_ne by done].
Ltac field :=
  cbn [get]; skip_fields;
  first [rewrite opt_field_eq by (skip_fields; apply lookup_empty) | rewrite lookup_insert_eq].

Lemma strings_str_list l : strings (Value_String <$> l) = l.
Proof. induction l as [|x l IH]; [done|]. change (x :: strings (Value_String <$> l) = x :: l). by rewrite IH. Qed.

Lemma omap_strings (m : gmap str str) : omap value_str (Value_String <$> m) = m.
Proof. apply map_eq. intros k. rewrite lookup_omap, lookup_fmap. by destruct (m !! k). Qed.

Lemma final_labels_some config : str_map (final_labels config) = Some (Value_Object (Value_String <$> final_labels config)).
Proof. unfold str_map. rewrite decide_False; [done|]. unfold final_labels. apply insert_non_empty. Qed.

Lemma argv_from_value (o : option (list str)) :
  match (str_list <$> o) ≫= value_array with Some l => some_argv l | None => None end
  = o ≫= fun l => if is_nil l then None else Some l.
Proof. destruct o as [l|]; [|done]. simpl. unfold some_argv. rewrite strings_str_list. by destruct l. Qed.

Lemma str_from_value (o : option str) :
  match (Value_String <$> o) ≫= value_str with Some s => some_str s | None => None end = o ≫= some_str.
Proof. by destruct o. Qed.

Lemma env_from_value (l : list str) :
  match non_empty l (str_list l) ≫= value_array with Some l => strings l | None => [] end = l.
Proof. destruct l as [|x l]; [done|]. apply (strings_str_list (x :: l)). Qed.

Lemma container_from_value layers config arch :
  container_from_raw (container_value (config_doc layers config)) = ic_container (inherited arch config).
Proof.
  unfold container_from_raw, container_value, inherited. cbn [doc_config config_doc ic_container].
  unfold set_labels. cbn [cc_user cc_env cc_entrypoint cc_cmd cc_working_dir cc_labels cc_stop_signal].
  f_equal.
  - field. apply str_from_value.
  - field. apply env_from_value.
  - field. apply argv_from_value.
  - field. apply argv_from_value.
  - field. apply str_from_value.
  - field. rewrite final_labels_some. apply omap_strings.
Qed.

Lemma config_from_value layers config arch :
  image_config_from_raw (config_value (config_doc layers config)) arch = inherited arch config.
Proof.
  unfold image_config_from_raw, config_value. field. field. by rewrite (container_from_value layers config arch).
Qed.

Lemma diff_ids_from_value layers config :
  extract_diff_ids (config_value (config_doc layers config)) = layer_diff_id <$> layers.
Proof.
  unfold extract_diff_ids, diff_id_values, config_value. field. cbn [mbind option_bind]. unfold rootfs_value. field.
  apply strings_str_list.
Qed.

Lemma arch_from_value layers config :
  get "architecture" (config_value (config_doc layers config)) = Some (Value_String (ic_architecture config)).
Proof. unfold config_value. by field. Qed.

(** ** Emission, then resolution *)

Section roundtrip.
Context (sha256_hex : str -> str).
Context (sha256_hex_name : forall s, hex_name (sha256_hex s)).
Context (sha256_hex_inj : forall s t, sha256_hex s = sha256_hex t -> s = t).

Definition stored (L : ImageLayout) (data : str) : Prop := blobs L !! sha256_hex data = Some data.

(** From [L] to [L'] blobs were added and the index kept. *)
Definition grown (L L' : ImageLayout) : Prop := index L' = index L /\ forall data, stored L data -> stored L' data.

Lemma write_stored L data :
  addressed sha256_hex L ->
  exists L', write_blob_with_digest sha256_hex data (sha256_digest sha256_hex data) L = Ok L'
    /\ addressed sha256_hex L' /\ grown L L' /\ stored L' data.
Proof.
  intros HA. unfold write_blob_with_digest. rewrite bool_decide_eq_true_2 by done.
  rewrite (digest_path sha256_hex sha256_hex_name data). cbn [mbind result_bind].
  destruct (blobs L !! sha256_hex data) as [b|] eqn:E.
  - exists L. pose proof (HA _ _ E) as Eb. simpl in Eb. apply sha256_hex_inj in Eb as ->. by split_and!.
  - eexists. split; [done|]. split; [by apply map_Forall_insert_2|]. split; [split; [done|]|apply lookup_insert_eq].
    intros x Hx. unfold stored in *. simpl. rewrite lookup_insert_ne; [done|]. congruence.
Qed.

Lemma grown_trans L1 L2 L3 : grown L1 L2 -> grown L2 L3 -> grown L1 L3.
Proof. intros [E1 S1] [E2 S2]. split; [congruence|auto]. Qed.

Lemma write_layers_stored layers L :
  addressed sha256_hex L ->
  exists L', write_layers sha256_hex layers L = Ok L' /\ addressed sha256_hex L' /\ grown L L'
    /\ Forall (fun l => stored L' (layer_data l)) layers.
Proof.
  revert L. induction layers as [|l layers IH]; intros L HA; cbn [write_layers].
  { exists L. split_and!; [done|done|by split|constructor]. }
  destruct (write_stored L (layer_data l) HA) as (L1 & -> & HA1 & HG1 & HS1). cbn [mbind result_bind].
  destruct (IH L1 HA1) as (L2 & E & HA2 & HG2 & HS2). exists L2. split_and!; [done|done|by eapply grown_trans|].
  constructor; [by apply HG2|done].
Qed.

Lemma base_layers_stored compress decode L c layers :
  Forall (fun l => stored L (layer_data l)) layers ->
  Forall (fun l => is_oci_layer_media_type (layer_media_type l) = true) layers ->
  base_layers_of sha256_hex compress decode L c (layer_descriptors sha256_hex layers) (layer_diff_id <$> layers) = Ok layers.
Proof.
  intros HS HM. induction layers as [|l layers IH]; [done|].
  inversion_clear HS as [|? ? HS1 HS2]. inversion_clear HM as [|? ? HM1 HM2].
  cbn [layer_descriptors fmap list_fmap base_layers_of desc_digest desc_media_type].
  rewrite (read_blob_stored sha256_hex sha256_hex_name L (layer_data l) HS1). cbn [map_err mbind result_bind].
  unfold normalized. cbn [layer_media_type]. rewrite HM1. cbn [mbind result_bind].
  unfold layer_descriptors in IH. rewrite IH by done. cbn [mbind result_bind]. by destruct l.
Qed.

Lemma emit_image_tags print_json print_manifest layers config r L e L' :
  emit_image sha256_hex print_json print_manifest layers config r L = Ok (e, L') ->
  layout_lookup_ref L' r = Some (annotate r e).
Proof.
  unfold emit_image. intros (L1 & _ & ([d L2] & _ & (L3 & _ & [= <- <-])%bind_Ok)%bind_Ok)%bind_Ok.
  by rewrite lookup_upsert_ref, decide_True.
Qed.

(** Emission stores the layers, the configuration and the manifest. *)
Lemma emit_image_ok print_json print_manifest L layers config ref_name :
  let config_bytes := print_json (config_value (config_doc layers config)) in
  let m := image_manifest sha256_hex layers config_bytes (sha256_digest sha256_hex config_bytes) in
  addressed sha256_hex L ->
  exists e L', emit_image sha256_hex print_json print_manifest layers config ref_name L = Ok (e, L')
    /\ addressed sha256_hex L'
    /\ (forall r, r <> ref_name -> layout_lookup_ref L' r = layout_lookup_ref L r)
    /\ layout_lookup_ref L' ref_name = Some (annotate ref_name e)
    /\ ie_digest e = sha256_digest sha256_hex (print_manifest m)
    /\ stored L' (print_manifest m) /\ stored L' config_bytes /\ Forall (fun l => stored L' (layer_data l)) layers.
Proof.
  intros config_bytes m HA. unfold emit_image, write_blob.
  destruct (write_layers_stored layers L HA) as (L1 & -> & HA1 & HG1 & HS1). cbn [mbind result_bind]. fold config_bytes.
  destruct (write_stored L1 config_bytes HA1) as (L2 & -> & HA2 & HG2 & HS2). cbn [mbind result_bind]. fold m.
  destruct (write_stored L2 (print_manifest m) HA2) as (L3 & -> & HA3 & HG3 & HS3). cbn [mbind result_bind].
  eexists _, _. split_and!; [done|done| | |done|done|by apply HG3|].
  - intros r Hr. rewrite lookup_upsert_ref, decide_False by done. unfold layout_lookup_ref.
    destruct HG1 as [E1 _], HG2 as [E2 _], HG3 as [E3 _]. by rewrite E3, E2, E1.
  - by rewrite lookup_upsert_ref, decide_True.
  - eapply Forall_impl; [exact HS1|]. intros l Hl. by apply HG3, HG2.
Qed.

(** C26 (roundtrip): an image emitted under a name can be built on.  Reading it
    back as a base gives its layers unchanged and its configuration, with the
    labels the emission added, without its exposed ports, volumes, stop signal
    and history; a build for another architecture is refused; every other
    name still denotes what it did. *)
Theorem emitted_image_is_a_base print_json print_manifest parse_manifest parse_image parse_json compress decode
    L layers config ref_name arch c :
  let config_bytes := print_json (config_value (config_doc layers config)) in
  let m := image_manifest sha256_hex layers config_bytes (sha256_digest sha256_hex config_bytes) in
  parse_json config_bytes = Some (config_value (config_doc layers config)) ->
  parse_manifest (print_manifest m) = Some (OciManifest_Image m) ->
  Forall (fun l => is_oci_layer_media_type (layer_media_type l) = true) layers ->
  addressed sha256_hex L ->
  exists e L', emit_image sha256_hex print_json print_manifest layers config ref_name L = Ok (e, L')
    /\ addressed sha256_hex L'
    /\ (forall r, r <> ref_name -> layout_lookup_ref L' r = layout_lookup_ref L r)
    /\ resolve_base_image sha256_hex parse_manifest parse_image parse_json compress decode L' ref_name arch c
       = if decide (ic_architecture config = oci_arch_string arch)
         then Ok {| base_image_layers := layers; base_image_config := inherited arch config |}
         else Err (BaseImageArchMismatch ref_name (oci_arch_string arch) (ic_architecture config)).
Proof.
  intros config_bytes m HJ HM HT HA.
  destruct (emit_image_ok print_json print_manifest L layers config ref_name HA)
    as (e & L4 & E & HA4 & Ho & Hl & Hd & HS3 & HSC & HSL). fold config_bytes m in Hd, HS3, HSC.
  exists e, L4. split; [done|]. split; [done|]. split; [done|].
  unfold resolve_base_image. rewrite Hl.
  cbn [ok_or mbind result_bind]. unfold base_manifest. cbn [annotate ie_digest]. rewrite Hd.
  rewrite (read_blob_stored sha256_hex sha256_hex_name L4 (print_manifest m) HS3). cbn [map_err mbind result_bind].
  rewrite HM. cbn [mbind result_bind]. cbn [m image_manifest mf_config mf_layers desc_digest].
  rewrite (read_blob_stored sha256_hex sha256_hex_name L4 config_bytes HSC). cbn [map_err mbind result_bind].
  rewrite HJ. cbn [ok_or mbind result_bind]. unfold check_base_arch. rewrite arch_from_value.
  cbn [mbind option_bind value_str]. case_decide as HX.
  - rewrite (bool_decide_eq_true_2 (ic_architecture config = oci_arch_string arch)) by done. cbn [mbind result_bind].
    rewrite diff_ids_from_value, config_from_value.
    assert (HL : length (layer_diff_id <$> layers) = length (layer_descriptors sha256_hex layers))
      by (unfold layer_descriptors; by rewrite !length_fmap).
    rewrite (bool_decide_eq_true_2 _ HL). by rewrite base_layers_stored.
  - by rewrite (bool_decide_eq_false_2 (ic_architecture config = oci_arch_string arch)) by done.
Qed.
End roundtrip.

(** An image of one layer, emitted into an empty layout and read back as a base. *)
Lemma emitted_image_is_a_base_witness :
  let l := {| layer_data := "x"; layer_media_type := media_type LayerCompression_Gzip; layer_diff_id := "sha256:0" |} in
  let doc := config_value (config_doc [l] ImageConfig_default) in
  let m := image_manifest ModelLayout.hexify [l] "J" (sha256_digest ModelLayout.hexify "J") in
  exists e L',
    emit_image ModelLayout.hexify (fun _ => "J") (fun _ => "M") [l] ImageConfig_default "img" empty_layout = Ok (e, L')
    /\ resolve_base_image ModelLayout.hexify (fun b => if decide (b = "M") then Some (OciManifest_Image m) else None)
         (fun _ => None) (fun b => if decide (b = "J") then Some doc else None) (fun _ => Ok) Ok L' "img" X86_64
         LayerCompression_Gzip
       = Ok {| base_image_layers := [l]; base_image_config := inherited X86_64 ImageConfig_default |}.
Proof.
  intros l doc m.
  destruct (emitted_image_is_a_base ModelLayout.hexify ModelLayout.hexify_name ModelLayout.hexify_inj
    (fun _ => "J") (fun _ => "M") (fun b => if decide (b = "M") then Some (OciManifest_Image m) else None)
    (fun _ => None) (fun b => if decide (b = "J") then Some doc else None) (fun _ => Ok) Ok
    empty_layout [l] ImageConfig_default "img" X86_64 LayerCompression_Gzip) as (e & L' & E & _ & _ & HR).
  - reflexivity.
  - reflexivity.
  - by constructor.
  - apply map_Forall_empty.
  - exists e, L'. split; [exact E|]. rewrite HR. reflexivity.
Defined.
