(* ===== verification/Orchestrate.v ===== *)
(** * Orchestrate: the builds of a recipe's stages, composed
    (crates/umf-builder/src/engine_build/mod.rs and secrets.rs).

    The layout is threaded through the stages; the cache too.  Pulls, downloads,
    bundles and the inspection of images are services of the host. *)

From S2P Require Import Prelude RustStr RustStrFacts Subst Validation Identifiers Paths OciRef.
From S2P Require Import Target Ast ArgScope Image Json Layout LayoutFacts StepCache BuildState Directives EngineBuild.
From S2P Require Import CrossStage BuildSpec BuildModel BuildFacts BaseImage.

(** ** Secrets (secrets.rs) *)

Inductive SecretSource := SecretSource_File (path : str) | SecretSource_Env (name : str).
Record SecretInput := { secret_id : str; secret_source : SecretSource }.

Section secrets.
Context (path_exists : str -> bool) (env_var : str -> option str) (temp_file : str -> result EngineBuildError str).

(** The host path of every secret; a later input with the same id wins. *)
Fixpoint resolve_secrets (inputs : list SecretInput) (by_id : gmap str str) : result EngineBuildError (gmap str str) :=
  match inputs with
  | [] => Ok by_id
  | i :: inputs =>
      path ← match secret_source i with
             | SecretSource_File p =>
                 if path_exists p then Ok p
                 else Err (SecretResolution (secret_id i) ("source file `" ++ p ++ "` does not exist"))
             | SecretSource_Env name =>
                 match env_var name with
                 | Some v => temp_file v
                 | None => Err (SecretResolution (secret_id i) ("environment variable `" ++ name ++ "` is not set"))
                 end
             end;
      resolve_secrets inputs (<[secret_id i := path]> by_id)
  end.
End secrets.

Record EngineBuildOptions := {
  opt_architecture : Architecture;
  opt_compression : LayerCompression;
  opt_secrets : list SecretInput;
  opt_hook : option (StepInfo -> bool);
  opt_build_args : scope
}.

(** ** Downloads before the walk *)

Section prefetch.
Context (fetch_url : str -> result EngineBuildError FetchedUrl) (build_args : scope).

(** The loop over the directives of a stage. *)
Fixpoint prefetch_stage (ds : list Directive) (stage_args : scope) (fetched : gmap str FetchedUrl)
    : result EngineBuildError (gmap str FetchedUrl) :=
  match ds with
  | [] => Ok fetched
  | Directive_Arg arg :: ds => prefetch_stage ds (apply_arg_to_scope stage_args arg build_args) fetched
  | Directive_Add add :: ds =>
      match (if add_plain_copy add then None else Some (add_source add)) with
      | Some (AddSource_Url u) =>
          let url := subst_with stage_args (url_raw (value u)) in
          match fetched !! url with
          | Some _ => prefetch_stage ds stage_args fetched
          | None => payload ← fetch_url url; prefetch_stage ds stage_args (<[url := payload]> fetched)
          end
      | _ => prefetch_stage ds stage_args fetched
      end
  | _ :: ds => prefetch_stage ds stage_args fetched
  end.

Fixpoint prefetch (ss : list Stage) (globals : scope) (fetched : gmap str FetchedUrl)
    : result EngineBuildError (gmap str FetchedUrl) :=
  match ss with
  | [] => Ok fetched
  | s :: ss => fetched ← prefetch_stage (stage_directives s) globals fetched; prefetch ss globals fetched
  end.
End prefetch.

(** ** Stages *)

Definition internal_ref (i : nat) : str := "umf-build/stage-" ++ nat_to_decimal i ++ ":internal".
Definition stage_ref (final_ref : str) (i total : nat) : str :=
  if bool_decide (i + 1 = total) then final_ref else internal_ref i.
Definition record_stage (s : Stage) (r : str) (produced : gmap str str) : gmap str str :=
  match stage_name_str s with Some n => <[n := r]> produced | None => produced end.

Definition is_scratch (s : Stage) : bool :=
  match from_source (stage_from s) with FromSource_Scratch => true | FromSource_Reference _ => false end.
Definition from_ref (globals : scope) (s : Stage) : str :=
  match from_source (stage_from s) with
  | FromSource_Scratch => "scratch"
  | FromSource_Reference r => substitute (fun n => globals !! n) (oci_raw (value r))
  end.

(** [u32::try_from(n).unwrap_or(u32::MAX)]. *)
Definition saturate_u32 (n : nat) : nat := if (Z.of_nat n <? 2 ^ 32)%Z then n else Z.to_nat (2 ^ 32 - 1).

Section build.
Context (host : ImageLayout -> Host).
Context (path_exists : str -> bool) (env_var : str -> option str) (temp_file : str -> result EngineBuildError str)
        (fetch_url : str -> result EngineBuildError FetchedUrl)
        (pull_into_layout : str -> ImageLayout -> result EngineBuildError (str * ImageLayout))
        (resolve_base : ImageLayout -> str -> Architecture -> LayerCompression -> result EngineBuildError BaseImage)
        (bundle_from_image : forall L : ImageLayout, str -> Architecture -> result EngineBuildError (@Bundle (host L)))
        (bundle_from_scratch : forall L : ImageLayout, Architecture -> result EngineBuildError (@Bundle (host L)))
        (emit : list LayerSource -> ImageConfig -> str -> ImageLayout -> result EngineBuildError (ImageIndexEntry * ImageLayout))
        (is_kernel_image : ImageLayout -> str -> bool).

(** The [ADD <oci-ref>] sources of a stage, pulled before the walk. *)
Fixpoint prepull (build_args : scope) (ds : list Directive) (args : scope) (L : ImageLayout)
    : result EngineBuildError ImageLayout :=
  match ds with
  | [] => Ok L
  | Directive_Arg arg :: ds => prepull build_args ds (apply_arg_to_scope args arg build_args) L
  | Directive_Add add :: ds =>
      match (if add_plain_copy add then None else Some (add_source add)) with
      | Some (AddSource_Oci r) =>
          '(_, L) ← pull_into_layout (subst_with args (oci_raw (value r))) L;
          prepull build_args ds args L
      | _ => prepull build_args ds args L
      end
  | _ :: ds => prepull build_args ds args L
  end.

(** The reference of the [FROM] image in the layout. *)
Definition canonical_from (globals : scope) (s : Stage) (L : ImageLayout) : result EngineBuildError (str * ImageLayout) :=
  if is_scratch s then Ok (from_ref globals s, L) else pull_into_layout (from_ref globals s) L.

Record StageInputs := { in_layout : ImageLayout; in_base : BaseImage; in_bundle : @Bundle (host in_layout) }.

(** The base image and the bundle each attempt starts from. *)
Definition stage_base (ctx : BuildCtx) (s : Stage) (canonical : str) (L : ImageLayout)
    : result EngineBuildError StageInputs :=
  if is_scratch s then
    bundle ← bundle_from_scratch L (ctx_architecture ctx);
    Ok {| in_layout := L; in_base := scratch_base_image (ctx_architecture ctx); in_bundle := bundle |}
  else
    base ← resolve_base L canonical (ctx_architecture ctx) (ctx_compression ctx);
    bundle ← bundle_from_image L canonical (ctx_architecture ctx);
    Ok {| in_layout := L; in_base := base; in_bundle := bundle |}.

(** Everything [build_one_stage] does before its loop. *)
Definition stage_inputs (ctx : BuildCtx) (s : Stage) (L : ImageLayout) : result EngineBuildError StageInputs :=
  '(canonical, L) ← canonical_from (ctx_globals ctx) s L;
  L ← prepull (ctx_build_args ctx) (stage_directives s) (ctx_globals ctx) L;
  stage_base ctx s canonical L.

(** A stage, from its [FROM] to the emitted image. *)
Definition build_stage (ctx : BuildCtx) (s : Stage) (r : str) (hook : option (StepInfo -> bool))
    (stage_index stage_total : nat) (L : ImageLayout) (c : Cache)
    : outcome (result EngineBuildError (ImageIndexEntry * ImageLayout) * Cache) :=
  match stage_inputs ctx s L with
  | Err e => Val (Err e, c)
  | Ok i =>
      '(built, c) ← build_one_stage ctx (in_bundle i) hook stage_index stage_total
                      (saturate_u32 (length (stage_directives s))) (stage_directives s) (in_base i) c;
      Val ('(layers, config) ← built; emit layers config r (in_layout i), c)
  end.

Definition stage_ctx (options : EngineBuildOptions) (secrets : gmap str str) (fetched : gmap str FetchedUrl)
    (globals : scope) (produced : gmap str str) : BuildCtx :=
  {| ctx_secrets := secrets; ctx_produced := produced; ctx_fetched_urls := fetched;
     ctx_architecture := opt_architecture options; ctx_compression := opt_compression options;
     ctx_globals := globals; ctx_build_args := opt_build_args options |}.

(** The loop over the stages; [refs] gives the reference each is emitted under. *)
Fixpoint build_stages (mk : gmap str str -> BuildCtx) (refs : nat -> str) (hook : option (StepInfo -> bool)) (total i : nat)
    (ss : list Stage) (produced : gmap str str) (last : option ImageIndexEntry) (L : ImageLayout) (c : Cache)
    : outcome (result EngineBuildError (option ImageIndexEntry * gmap str str * ImageLayout) * Cache) :=
  match ss with
  | [] => Val (Ok (last, produced, L), c)
  | s :: ss =>
      '(r, c) ← build_stage (mk produced) s (refs i) hook (i + 1) total L c;
      match r with
      | Err e => Val (Err e, c)
      | Ok (entry, L) =>
          build_stages mk refs hook total (i + 1) ss (record_stage s (refs i) produced) (Some entry) L c
      end
  end.

(** [prepare_staged_build]: the check of references, the secrets and the downloads. *)
Definition prepare_staged_build (ast : Ast) (fetch_stages : list Stage) (options : EngineBuildOptions)
    : result EngineBuildError (gmap str str * gmap str FetchedUrl) :=
  _ ← check_cross_stage_refs ast;
  secrets ← resolve_secrets path_exists env_var temp_file (opt_secrets options) ∅;
  fetched ← prefetch fetch_url (opt_build_args options) fetch_stages
              (resolve_global_args ast (opt_build_args options)) ∅;
  Ok (secrets, fetched).

Definition build (ast : Ast) (final_ref : str) (options : EngineBuildOptions) (L : ImageLayout) (c : Cache)
    : outcome (result EngineBuildError (ImageIndexEntry * ImageLayout) * Cache) :=
  match stages ast with
  | [] => Val (Err (Engine (EngineError_Runtime "AST has no stages")), c)
  | _ =>
      match prepare_staged_build ast (stages ast) options with
      | Err e => Val (Err e, c)
      | Ok (secrets, fetched) =>
          let globals := resolve_global_args ast (opt_build_args options) in
          let total := length (stages ast) in
          '(r, c) ← build_stages (stage_ctx options secrets fetched globals) (fun i => stage_ref final_ref i total)
                      (opt_hook options) total 0 (stages ast) ∅ None L c;
          Val ('(last, _, L) ← r;
               entry ← ok_or last (Engine (EngineError_Runtime "no stages built"));
               Ok (entry, L), c)
      end
  end.

(** The guard of [build_container_stages]: no earlier stage starts from a kernel. *)
Fixpoint reject_nested_bootable (i : nat) (ss : list Stage) (L : ImageLayout) : result EngineBuildError ImageLayout :=
  match ss with
  | [] => Ok L
  | s :: ss =>
      match from_source (stage_from s) with
      | FromSource_Scratch => reject_nested_bootable (i + 1) ss L
      | FromSource_Reference r =>
          '(canonical, L) ← pull_into_layout (oci_raw (value r)) L;
          if is_kernel_image L canonical then Err (NestedBootableStage i (oci_raw (value r)))
          else reject_nested_bootable (i + 1) ss L
      end
  end.

Definition build_container_stages (ast : Ast) (options : EngineBuildOptions) (L : ImageLayout) (c : Cache)
    : outcome (result EngineBuildError (gmap str str * ImageLayout) * Cache) :=
  let total := length (stages ast) in
  if decide (total <= 1) then Val (Ok (∅, L), c)
  else
    let container_stages := take (total - 1) (stages ast) in
    match reject_nested_bootable 0 container_stages L with
    | Err e => Val (Err e, c)
    | Ok L =>
        match prepare_staged_build ast container_stages options with
        | Err e => Val (Err e, c)
        | Ok (secrets, fetched) =>
            let globals := resolve_global_args ast (opt_build_args options) in
            '(r, c) ← build_stages (stage_ctx options secrets fetched globals) internal_ref (opt_hook options) total 0
                        container_stages ∅ None L c;
            Val ('(_, produced, L) ← r; Ok (produced, L), c)
        end
    end.

Definition build_single_stage (ast : Ast) (final_ref : str) (options : EngineBuildOptions) (L : ImageLayout) (c : Cache)
    : outcome (result EngineBuildError (ImageIndexEntry * ImageLayout) * Cache) :=
  if decide (1 < length (stages ast)) then Val (Err MultiStageNotSupported, c) else build ast final_ref options L c.
End build.

(** ** The stages of a build end *)

Section facts.
Context (host : ImageLayout -> Host).
Context (path_exists : str -> bool) (env_var : str -> option str) (temp_file : str -> result EngineBuildError str)
        (fetch_url : str -> result EngineBuildError FetchedUrl)
        (pull_into_layout : str -> ImageLayout -> result EngineBuildError (str * ImageLayout))
        (resolve_base : ImageLayout -> str -> Architecture -> LayerCompression -> result EngineBuildError BaseImage)
        (bundle_from_image : forall L : ImageLayout, str -> Architecture -> result EngineBuildError (@Bundle (host L)))
        (bundle_from_scratch : forall L : ImageLayout, Architecture -> result EngineBuildError (@Bundle (host L)))
        (emit : list LayerSource -> ImageConfig -> str -> ImageLayout -> result EngineBuildError (ImageIndexEntry * ImageLayout)).

Notation build_stage := (build_stage host pull_into_layout resolve_base bundle_from_image bundle_from_scratch emit).
Notation build_stages := (build_stages host pull_into_layout resolve_base bundle_from_image bundle_from_scratch emit).
Notation build := (build host path_exists env_var temp_file fetch_url pull_into_layout resolve_base bundle_from_image
                         bundle_from_scratch emit).

Lemma build_stage_returns ctx s r hook i n L c : exists res c', build_stage ctx s r hook i n L c = Val (res, c').
Proof.
  unfold Orchestrate.build_stage. destruct (stage_inputs _ _ _ _ _ _ _ _) as [si|e]; [|eauto].
  destruct (stage_build_returns ctx (in_bundle host si) hook i n (saturate_u32 (length (stage_directives s)))
              (stage_directives s) (in_base host si) c) as (res & c' & E). rewrite E. simpl. eauto.
Qed.

Lemma build_stages_returns mk refs hook n i ss produced last L c :
  exists res c', build_stages mk refs hook n i ss produced last L c = Val (res, c').
Proof.
  revert i produced last L c. induction ss as [|s ss IH]; intros; cbn [Orchestrate.build_stages]; [eauto|].
  destruct (build_stage_returns (mk produced) s (refs i) hook (i + 1) n L c) as (res & c' & E). rewrite E. simpl.
  destruct res as [[entry L']|e]; [apply IH|eauto].
Qed.

(** A build of any recipe ends, in an image or in an error,
    whatever the host and the registries answer. *)
Theorem build_returns ast final_ref options L c : exists res c', build ast final_ref options L c = Val (res, c').
Proof.
  unfold Orchestrate.build. destruct (stages ast) as [|s0 ss]; [eauto|].
  destruct (prepare_staged_build _ _ _ _ _ _ _) as [[secrets fetched]|e]; [|eauto]. cbv zeta.
  edestruct build_stages_returns as (res & c' & E). rewrite E. simpl. eauto.
Qed.

(** ** What a stage can look up *)

Fixpoint produced_after (refs : nat -> str) (i : nat) (ss : list Stage) (produced : gmap str str) : gmap str str :=
  match ss with
  | [] => produced
  | s :: ss => produced_after refs (i + 1) ss (record_stage s (refs i) produced)
  end.

Lemma build_stages_produced mk refs hook n i ss produced last L c last' produced' L' c' :
  build_stages mk refs hook n i ss produced last L c = Val (Ok (last', produced', L'), c') ->
  produced' = produced_after refs i ss produced.
Proof.
  revert i produced last L c. induction ss as [|s ss IH]; intros i produced last L c; cbn [Orchestrate.build_stages].
  { by intros [= _ <- _ _]. }
  intros ([[[entry L1]|e] c1] & _ & HB)%bind_Val; [|done]. by apply IH in HB.
Qed.

(** Every stage of a loop that succeeded was built and emitted under its own
    reference. *)
Lemma build_stages_emitted mk refs hook n i ss produced last L c res c' j s :
  build_stages mk refs hook n i ss produced last L c = Val (Ok res, c') -> ss !! j = Some s ->
  exists produced0 L0 c0 entry L1 c1,
    build_stage (mk produced0) s (refs (i + j)) hook (i + j + 1) n L0 c0 = Val (Ok (entry, L1), c1).
Proof.
  revert i j produced last L c. induction ss as [|s0 ss IH]; intros i j produced last L c; [done|]. cbn [Orchestrate.build_stages].
  intros ([[[entry L1]|e] c1] & H0 & HB)%bind_Val; [|done]. destruct j as [|j]; simpl.
  - intros [= <-]. rewrite Nat.add_0_r. eauto 10.
  - intros Hj. destruct (IH (i + 1) j _ _ _ _ HB Hj) as (p & L0 & c0 & e0 & L2 & c2 & E).
    rewrite <- Nat.add_assoc in E. simpl in E. eauto 10.
Qed.
End facts.

(** The last of the stages with a name, and its position. *)
Definition last_named (t : str) (ss : list Stage) (j : nat) (s : Stage) : Prop :=
  ss !! j = Some s /\ named t s /\ forall k s', j < k -> ss !! k = Some s' -> ~ named t s'.

Lemma produced_after_other refs i ss produced t :
  (forall k s, ss !! k = Some s -> ~ named t s) -> produced_after refs i ss produced !! t = produced !! t.
Proof.
  revert i produced. induction ss as [|s ss IH]; intros i produced HN; [done|]. cbn [produced_after].
  rewrite IH by (intros k s' Hk; exact (HN (S k) s' Hk)). pose proof (HN 0 s eq_refl) as Hs. unfold named in Hs. unfold record_stage.
  destruct (stage_name_str s) as [n|]; [|done]. rewrite lookup_insert_ne; [done|congruence].
Qed.

Lemma produced_after_last refs i ss produced t j s :
  last_named t ss j s -> produced_after refs i ss produced !! t = Some (refs (i + j)).
Proof.
  revert i j produced. induction ss as [|s0 ss IH]; intros i j produced (Hl & Hn & HL); [done|]. cbn [produced_after].
  destruct j as [|j]; simpl in Hl.
  - injection Hl as ->. rewrite produced_after_other by (intros k s' Hk; apply (HL (S k)); [lia|done]).
    unfold record_stage. by rewrite Hn, lookup_insert_eq, Nat.add_0_r.
  - rewrite (IH (i + 1) j); [f_equal; f_equal; lia|]. split_and!; [done..|]. intros k s' Hk. apply (HL (S k)). lia.
Qed.

(** Of the stages with a name one is the last. *)
Lemma last_named_exists t ss s : s ∈ ss -> named t s -> exists j s', last_named t ss j s'.
Proof.
  intros Hs Hn. revert s Hs Hn. induction ss as [|s0 ss IH]; intros s Hs Hn; [by apply not_elem_of_nil in Hs|].
  destruct (decide (Exists (fun s' => stage_name_str s' = Some t) ss)) as [HE|HE].
  - apply Exists_exists in HE as (s1 & H1 & Hn1). destruct (IH s1 H1 Hn1) as (j & s' & Hl & Hn' & HL).
    exists (S j), s'. split_and!; [done..|]. intros [|k] s2 Hk; [lia|]. apply HL. lia.
  - apply elem_of_cons in Hs as [->|Hs]; [|destruct HE; apply Exists_exists; eauto].
    exists 0, s0. split_and!; [done..|]. intros [|k] s2 Hk Hl Hn2; [lia|]. apply HE, Exists_exists.
    exists s2. split; [by eapply list_elem_of_lookup_2|done].
Qed.

(** The scope after a directive. *)
Definition scope_after (build_args : scope) (sc : scope) (d : Directive) : scope :=
  match d with Directive_Arg arg => apply_arg_to_scope sc arg build_args | _ => sc end.

Section visits.
Context `{H : Host} (ctx : BuildCtx) (b : Bundle) (lookup : bool).

(** The walk arrives at a directive, in a state. *)
Inductive visits : list Directive -> BuildState -> nat -> Cache -> Directive -> BuildState -> Prop :=
| visit_here d ds s n c : visits (d :: ds) s n c d s
| visit_next d ds s n c s1 c1 d' s' :
    apply_directive ctx b s d (n + 1) lookup c = (Ok (StepFlow_Continue, s1), c1) ->
    visits ds s1 (n + 1) c1 d' s' -> visits (d :: ds) s n c d' s'.

Lemma push_scope up line s l s' : push_new_layer up line s = Ok (l, s') -> arg_scope s' = arg_scope s.
Proof. unfold push_new_layer. by intros (? & _ & [= _ <-])%bind_Ok. Qed.

Lemma directive_scope s d n c s' c' :
  apply_directive ctx b s d n lookup c = (Ok (StepFlow_Continue, s'), c') ->
  arg_scope s' = scope_after (ctx_build_args ctx) (arg_scope s) d.
Proof.
  rewrite apply_directive_eq. unfold run_action. destruct (action ctx b s d n) as [[p|e]|[u|e]] eqn:Ea; try done.
  - rewrite of_result_bind. intros HE%layer_step_effect.
    assert (HD : scope_after (ctx_build_args ctx) (arg_scope s) d = arg_scope s) by (by destruct d). rewrite HD.
    inversion HE as [|?|entry l ? ? ?|upper l s1 entry Hu Hp He]; subst; [done|by eapply push_scope].
  - intros [= <- <-]. destruct d; try discriminate Ea; injection Ea as Ea;
      try (rewrite <- Ea; first [done|by destruct d as [[] ?]]).
    apply bind_Ok in Ea as (up & _ & Ea). apply bind_Ok in Ea as ([l st] & HP & [= <-]). by apply push_scope in HP.
Qed.

Lemma visits_scope ds s n c d s' :
  visits ds s n c d s' ->
  exists pre post, ds = pre ++ d :: post
    /\ arg_scope s' = fold_left (scope_after (ctx_build_args ctx)) pre (arg_scope s).
Proof.
  induction 1 as [d ds s n c|d ds s n c s1 c1 d' s' HA _ IH]; [by exists [], ds|].
  destruct IH as (pre & post & -> & HS). exists (d :: pre), post. split; [done|]. simpl.
  by rewrite HS, (directive_scope _ _ _ _ _ _ HA).
Qed.
End visits.

(** The downloads cover the walk. *)
Definition url_of (d : Directive) : option str :=
  match d with
  | Directive_Add add =>
      match (if add_plain_copy add then None else Some (add_source add)) with
      | Some (AddSource_Url u) => Some (url_raw (value u))
      | _ => None
      end
  | _ => None
  end.

Section prefetch_facts.
Context (fetch_url : str -> result EngineBuildError FetchedUrl) (build_args : scope).
Notation prefetch_stage := (prefetch_stage fetch_url build_args).
Notation prefetch := (prefetch fetch_url build_args).

(** One directive of [prefetch_stage]. *)
Lemma prefetch_stage_cons d ds sc m :
  prefetch_stage (d :: ds) sc m =
  match url_of d with
  | Some u =>
      let url := subst_with sc u in
      match m !! url with
      | Some _ => prefetch_stage ds sc m
      | None => payload ← fetch_url url; prefetch_stage ds sc (<[url := payload]> m)
      end
  | None => prefetch_stage ds (scope_after build_args sc d) m
  end.
Proof.
  destruct d as [| | | | | | |add| | | | |]; try done. cbn [Orchestrate.prefetch_stage url_of].
  destruct (if add_plain_copy add then None else Some (add_source add)) as [[]|]; done.
Qed.

Lemma url_of_scope d sc u : url_of d = Some u -> scope_after build_args sc d = sc.
Proof. by destruct d. Qed.

(** Every payload is what its URL was downloaded as. *)
Definition downloaded (m : gmap str FetchedUrl) : Prop := map_Forall (fun url f => fetch_url url = Ok f) m.

Lemma prefetch_stage_covers ds sc m m' :
  prefetch_stage ds sc m = Ok m' -> downloaded m ->
  downloaded m' /\ (forall k, is_Some (m !! k) -> is_Some (m' !! k))
  /\ forall pre d post u, ds = pre ++ d :: post -> url_of d = Some u ->
       is_Some (m' !! subst_with (fold_left (scope_after build_args) pre sc) u).
Proof.
  revert sc m. induction ds as [|d ds IH]; intros sc m.
  { intros [= <-] HD. split_and!; [done..|]. intros pre d post u E. by destruct pre. }
  rewrite prefetch_stage_cons. destruct (url_of d) as [u|] eqn:Eu; cbv zeta.
  - assert (HI : forall m1, prefetch_stage ds sc m1 = Ok m' -> downloaded m1 -> is_Some (m1 !! subst_with sc u) ->
        (forall k, is_Some (m !! k) -> is_Some (m1 !! k)) ->
        downloaded m' /\ (forall k, is_Some (m !! k) -> is_Some (m' !! k))
        /\ forall pre d' post u', d :: ds = pre ++ d' :: post -> url_of d' = Some u' ->
             is_Some (m' !! subst_with (fold_left (scope_after build_args) pre sc) u')).
    { intros m1 HP HD HS HM. destruct (IH _ _ HP HD) as (HD' & HK & HC). split_and!; [done|auto|]. intros [|d0 pre] d' post u' E Hu.
      - injection E as <- <-. rewrite Eu in Hu. injection Hu as <-. by apply HK.
      - injection E as <- ->. simpl. rewrite (url_of_scope _ _ _ Eu). by eapply HC. }
    destruct (m !! subst_with sc u) as [p|] eqn:Em.
    + intros HP HD. apply (HI m); [done|done|by eexists|done].
    + intros (payload & Hf & HP)%bind_Ok HD. apply (HI _ HP); [by apply map_Forall_insert_2|by rewrite lookup_insert_eq|].
      intros k Hk. destruct (decide (k = subst_with sc u)) as [->|]; [by rewrite lookup_insert_eq|].
      by rewrite lookup_insert_ne.
  - intros HP HD. destruct (IH _ _ HP HD) as (HD' & HK & HC). split_and!; [done..|]. intros [|d0 pre] d' post u' E Hu.
    + injection E as <- <-. congruence.
    + injection E as <- ->. simpl. by eapply HC.
Qed.

Lemma prefetch_keeps ss sc m m' :
  prefetch ss sc m = Ok m' -> downloaded m -> downloaded m' /\ forall k, is_Some (m !! k) -> is_Some (m' !! k).
Proof.
  revert m. induction ss as [|s ss IH]; intros m; [by intros [= <-]|].
  intros (m1 & H1 & HP)%bind_Ok HD. apply prefetch_stage_covers in H1 as (HD1 & HK & _); [|done].
  apply IH in HP as [HD' HK']; [|done]. split; auto.
Qed.

Lemma prefetch_covers ss sc m' s pre d post u :
  prefetch ss sc ∅ = Ok m' -> s ∈ ss -> stage_directives s = pre ++ d :: post -> url_of d = Some u ->
  let url := subst_with (fold_left (scope_after build_args) pre sc) u in
  exists f, m' !! url = Some f /\ fetch_url url = Ok f.
Proof.
  intros HP Hs Ed Hu url. assert (HE : downloaded ∅) by apply map_Forall_empty.
  assert (HL : is_Some (m' !! url)).
  { revert HP HE. generalize (∅ : gmap str FetchedUrl).
    induction Hs as [s ss|s x ss Hs IH]; intros m (m1 & HS & HP)%bind_Ok HD;
      apply prefetch_stage_covers in HS as (HD1 & _ & HC); [|done| |done].
    - apply (prefetch_keeps _ _ _ _ HP HD1). by eapply HC.
    - by eapply IH. }
  destruct HL as [f Hf]. exists f. split; [done|]. by apply (proj1 (prefetch_keeps _ _ _ _ HP HE)) in Hf.
Qed.
End prefetch_facts.

(** ** Composition *)

Section composition.
Context (host : ImageLayout -> Host).
Context (path_exists : str -> bool) (env_var : str -> option str) (temp_file : str -> result EngineBuildError str)
        (fetch_url : str -> result EngineBuildError FetchedUrl)
        (pull_into_layout : str -> ImageLayout -> result EngineBuildError (str * ImageLayout))
        (resolve_base : ImageLayout -> str -> Architecture -> LayerCompression -> result EngineBuildError BaseImage)
        (bundle_from_image : forall L : ImageLayout, str -> Architecture -> result EngineBuildError (@Bundle (host L)))
        (bundle_from_scratch : forall L : ImageLayout, Architecture -> result EngineBuildError (@Bundle (host L))).

Lemma from_named_before ast before s after t :
  check_cross_stage_refs ast = Ok tt -> stages ast = before ++ s :: after ->
  (exists d, d ∈ stage_directives s /\ add_from_str d = Some t) -> exists s', s' ∈ before /\ named t s'.
Proof.
  intros HC HS HD. pose proof (check_stages_spec [] (stages ast) ∅) as HX. simpl in HX.
  unfold check_cross_stage_refs in HC. rewrite HC in HX.
  destruct (HX ltac:(intros t'; split; [set_solver|intros (j & ? & ? & _); lia]) (length before) s t)
    as (j & s' & Hj & Hl & Hn); [lia|split; [|done]|].
  - rewrite HS. by apply list_lookup_middle.
  - exists s'. split; [|done]. rewrite HS, lookup_app_l in Hl by done. by eapply list_elem_of_lookup_2.
Qed.

(** C6 (safety): what a stage looks up while it is built is what was prepared for
    it.  Once the checks and downloads of [prepare_staged_build] have passed and the
    stages before have been built, every [ADD <url>] the walk arrives at finds
    the payload downloaded from exactly that URL, expanded in the scope of that
    moment, and every [ADD --from] finds the reference under which the
    stage it names, the last of that name before it, was built and emitted. *)
Theorem staged_lookups_succeed emit ast options refs hook total before s after
    secrets fetched last produced L c L1 c1 :
  prepare_staged_build path_exists env_var temp_file fetch_url ast (stages ast) options = Ok (secrets, fetched) ->
  stages ast = before ++ s :: after ->
  let globals := resolve_global_args ast (opt_build_args options) in
  let mk := stage_ctx options secrets fetched globals in
  build_stages host pull_into_layout resolve_base bundle_from_image bundle_from_scratch emit
    mk refs hook total 0 before ∅ None L c = Val (Ok (last, produced, L1), c1) ->
  forall (H : Host) (b : Bundle) base lookup c2 d s',
    visits (mk produced) b lookup (stage_directives s)
      (BuildState_new base (opt_compression options) globals) 0 c2 d s' ->
    (forall u, url_of d = Some u ->
       exists f, ctx_fetched_urls (mk produced) !! state_subst s' u = Some f /\ fetch_url (state_subst s' u) = Ok f)
    /\ (forall t, add_from_str d = Some t ->
       exists j s0, last_named t before j s0 /\ ctx_produced (mk produced) !! t = Some (refs j)
         /\ exists produced0 L0 c0 entry L0' c0',
              build_stage host pull_into_layout resolve_base bundle_from_image bundle_from_scratch emit
                (mk produced0) s0 (refs j) hook (j + 1) total L0 c0 = Val (Ok (entry, L0'), c0')).
Proof.
  intros HP HS globals mk HB H b base lookup c2 d s' HV.
  apply bind_Ok in HP as ([] & HC & HP). apply bind_Ok in HP as (sec & _ & HP). apply bind_Ok in HP as (fet & HF & [= -> ->]).
  pose proof (build_stages_produced _ _ _ _ _ _ _ _ _ _ _ _ _ _ _ _ _ _ _ _ HB) as HQ.
  apply visits_scope in HV as (pre & post & Ed & Hsc). split.
  - intros u Hu. change (state_subst s' u) with (subst_with (arg_scope s') u). rewrite Hsc. simpl.
    eapply prefetch_covers; [exact HF| |exact Ed|done]. rewrite HS. set_solver.
  - intros t Ht. destruct (from_named_before ast before s after t HC HS) as (s0 & Hs0 & Hn).
    { exists d. split; [|done]. rewrite Ed. set_solver. }
    destruct (last_named_exists t before s0 Hs0 Hn) as (j & s1 & Hj). exists j, s1. split_and!; [done| |].
    + simpl. rewrite HQ. exact (produced_after_last refs 0 before ∅ t j s1 Hj).
    + exact (build_stages_emitted _ _ _ _ _ _ _ _ _ _ _ _ _ _ _ _ _ _ j s1 HB (proj1 Hj)).
Qed.

(** A successful build leaves its image under the requested
    name: the entry returned is the one the layout has for it, whatever the
    services did before. *)
Theorem build_tags_image sha256_hex print_json print_manifest ast final_ref options L c entry L' c' :
  let emit layers config r L :=
    map_err Registry (emit_image sha256_hex print_json print_manifest layers config r L) in
  build host path_exists env_var temp_file fetch_url pull_into_layout resolve_base bundle_from_image
    bundle_from_scratch emit ast final_ref options L c = Val (Ok (entry, L'), c') ->
  layout_lookup_ref L' final_ref = Some (annotate final_ref entry).
Proof.
  intros emit. unfold build. destruct (stages ast) as [|s0 ss0] eqn:ES; [done|]. rewrite <- ES.
  assert (HN : stages ast <> []) by (by rewrite ES). clear ES.
  destruct (prepare_staged_build _ _ _ _ _ _ _) as [[secrets fetched]|e]; [|done]. cbv zeta.
  set (mk := stage_ctx options secrets fetched _). set (total := length (stages ast)).
  assert (HT : total = 0 + length (stages ast)) by done. revert HN HT. generalize 0 (∅ : gmap str str) (@None ImageIndexEntry) L c.
  clearbody total. induction (stages ast) as [|s ss IH]; intros i produced last L0 c0 HN HT; [done|].
  cbn [build_stages]. destruct (build_stage _ _ _ _ _ _ _ _ _ _ _ _ _ _) as [[[[e1 L1]|e1] c1]| |] eqn:EB; try done.
  cbn [mbind outcome_bind].
  destruct ss as [|s1 ss].
  - simpl. intros [= <- <- _]. unfold build_stage in EB. destruct (stage_inputs _ _ _ _ _ _ _ _) as [si|]; [|done].
    apply bind_Val in EB as ([built c2] & _ & EB). injection EB as EB _.
    apply bind_Ok in EB as ([layers config] & _ & EB). unfold emit in EB. apply map_err_Ok in EB.
    apply emit_image_tags in EB. unfold stage_ref in EB. by rewrite bool_decide_eq_true_2 in EB by (simpl in *; lia).
  - intros HB. eapply IH; [done| |exact HB]. simpl in *. lia.
Qed.
End composition.

(** ** Two stages

    [FROM scratch AS a], [ADD a /x]; then [FROM scratch], [ADD https://h/x /y] and
    [ADD --from=a /x /z]. *)

Module TwoStages.
Import Model.

Definition stage_a : Stage :=
  {| stage_from := {| from_source := FromSource_Scratch; from_span := mkSpan 0 0 |};
     stage_name := Some (spanned {| StageName_0 := "a" |}); stage_directives := [add_a]; stage_span := mkSpan 0 0 |}.
Definition add_url : Directive :=
  Directive_Add {| add_source := AddSource_Url (spanned {| url_raw := "https://h/x"; authority_start := 8; https := true |});
                   add_destination := spanned {| RecipePath_0 := "/y" |}; add_from := None; add_plain_copy := false;
                   add_span := mkSpan 0 0 |}.
Definition add_from_a : Directive :=
  Directive_Add {| add_source := AddSource_Path (spanned (bytes_of "/x"));
                   add_destination := spanned {| RecipePath_0 := "/z" |};
                   add_from := Some (spanned {| StageName_0 := "a" |}); add_plain_copy := false; add_span := mkSpan 0 0 |}.
Definition stage_b : Stage :=
  {| stage_from := {| from_source := FromSource_Scratch; from_span := mkSpan 0 0 |};
     stage_name := None; stage_directives := [add_url; add_from_a]; stage_span := mkSpan 0 0 |}.

Definition ast : Ast := {| global_args := []; stages := [stage_a; stage_b] |}.
Definition options : EngineBuildOptions :=
  {| opt_architecture := X86_64; opt_compression := LayerCompression_Gzip; opt_secrets := []; opt_hook := None;
     opt_build_args := ∅ |}.

Definition fetch (url : str) : result EngineBuildError FetchedUrl := Ok {| fetched_digest := url; fetched_payload := url |}.
Definition pull (r : str) (L : ImageLayout) : result EngineBuildError (str * ImageLayout) := Ok (r, L).
Definition resolve (L : ImageLayout) (r : str) (a : Architecture) (c : LayerCompression) : result EngineBuildError BaseImage :=
  Ok base.
Definition bundle (L : ImageLayout) (r : str) (a : Architecture) : result EngineBuildError unit := Ok tt.
Definition emit (layers : list LayerSource) (config : ImageConfig) (r : str) (L : ImageLayout) :=
  map_err Registry (emit_image ModelLayout.hexify (fun _ => "J") (fun _ => "M") layers config r L).

Definition mk (fetched : gmap str FetchedUrl) := stage_ctx options ∅ fetched ∅.
Definition fetched : gmap str FetchedUrl := {["https://h/x" : str := {| fetched_digest := "https://h/x"; fetched_payload := "https://h/x" |}]}.

Definition first_stage :=
  build_stages (fun _ => host) pull resolve bundle (fun L => bundle L []) emit (mk fetched) internal_ref None 2 0 [stage_a] ∅
    None empty_layout ∅.

Lemma first_stage_builds : is_built first_stage = true.
Proof. vm_compute. reflexivity. Qed.

Definition single : Ast := {| global_args := []; stages := [stage_a] |}.
Definition single_build :=
  Orchestrate.build (fun _ => host) (fun _ => true) (fun _ => None) Ok fetch pull resolve bundle (fun L => bundle L []) emit
    single "img:1" options empty_layout ∅.

Lemma single_builds : is_built single_build = true.
Proof. vm_compute. reflexivity. Qed.
End TwoStages.

Lemma staged_lookups_succeed_witness :
  exists last produced L1 c1,
    TwoStages.first_stage = Val (Ok (last, produced, L1), c1) /\ produced !! ("a" : str) = Some (internal_ref 0).
Proof.
  destruct (Model.is_built_inv _ TwoStages.first_stage_builds) as ([[last produced] L1] & c1 & E).
  exists last, produced, L1, c1. split; [done|].
  destruct (proj2 (staged_lookups_succeed (fun _ => Model.host) (fun _ => true) (fun _ => None) Ok TwoStages.fetch
    TwoStages.pull TwoStages.resolve TwoStages.bundle (fun L => TwoStages.bundle L []) TwoStages.emit TwoStages.ast
    TwoStages.options internal_ref None 2 [TwoStages.stage_a] TwoStages.stage_b [] ∅ TwoStages.fetched last produced
    empty_layout ∅ L1 c1 eq_refl eq_refl E Model.host tt Model.base false ∅ TwoStages.add_from_a _
    ltac:(eapply visit_next; [reflexivity|apply visit_here])) "a" eq_refl) as ([|j] & s0 & (Hl & _ & _) & HP & _); [exact HP|done].
Defined.

Lemma build_tags_image_witness :
  exists entry L' c', TwoStages.single_build = Val (Ok (entry, L'), c')
    /\ layout_lookup_ref L' "img:1" = Some (annotate "img:1" entry).
Proof.
  destruct (Model.is_built_inv _ TwoStages.single_builds) as ([entry L'] & c' & E).
  exists entry, L', c'. split; [done|].
  exact (build_tags_image (fun _ => Model.host) (fun _ => true) (fun _ => None) Ok TwoStages.fetch TwoStages.pull
    TwoStages.resolve TwoStages.bundle (fun L => TwoStages.bundle L []) ModelLayout.hexify (fun _ => "J") (fun _ => "M")
    TwoStages.single "img:1" TwoStages.options empty_layout ∅ entry L' c' E).
Defined.
