(* ===== verification/Ssrf.v ===== *)
(** * Ssrf: the egress policy (crates/umf-networking/src/ssrf.rs).

    An address is the integer of its bits: 32 for IPv4, 128 for IPv6. *)

From Stdlib Require Import ZifyBool.
From S2P Require Import Prelude RustStr RustStrFacts Target.
#[local] Open Scope Z_scope.

(** ** Addresses *)

Inductive IpAddr := IpAddr_V4 (a : Z) | IpAddr_V6 (a : Z).

Definition ip_valid (ip : IpAddr) : Prop :=
  match ip with IpAddr_V4 a => 0 <= a < 2 ^ 32 | IpAddr_V6 a => 0 <= a < 2 ^ 128 end.

#[export] Instance IpAddr_eq_dec : EqDecision IpAddr.
Proof. solve_decision. Defined.

(** [Ipv4Addr::octets] and [Ipv6Addr::octets]. *)
Definition octet4 (i a : Z) : Z := Z.land (Z.shiftr a (24 - 8 * i)) 255.
Definition octet6 (i a : Z) : Z := Z.land (Z.shiftr a (120 - 8 * i)) 255.

(** [Ipv6Addr::to_ipv4_mapped]. *)
Definition to_ipv4_mapped (a : Z) : option Z :=
  if Z.shiftr a 32 =? 65535 then Some (Z.land a (2 ^ 32 - 1)) else None.

(** ** Categories *)

Inductive AddressCategory :=
| AddressCategory_Loopback
| AddressCategory_LinkLocal
| AddressCategory_Rfc1918
| AddressCategory_UniqueLocal
| AddressCategory_Cgnat.

#[export] Instance AddressCategory_eq_dec : EqDecision AddressCategory.
Proof. solve_decision. Defined.

Definition AddressCategory_ALL : list AddressCategory :=
  [AddressCategory_Loopback; AddressCategory_LinkLocal; AddressCategory_Rfc1918; AddressCategory_UniqueLocal;
   AddressCategory_Cgnat].

Definition AddressCategory_as_str (c : AddressCategory) : str :=
  match c with
  | AddressCategory_Loopback => "loopback"
  | AddressCategory_LinkLocal => "link-local"
  | AddressCategory_Rfc1918 => "rfc1918"
  | AddressCategory_UniqueLocal => "ula"
  | AddressCategory_Cgnat => "cgnat"
  end.

Definition v4_cidrs (c : AddressCategory) : list str :=
  match c with
  | AddressCategory_Loopback => ["127.0.0.0/8" : str]
  | AddressCategory_LinkLocal => ["169.254.0.0/16" : str]
  | AddressCategory_Rfc1918 => ["10.0.0.0/8" : str; "172.16.0.0/12" : str; "192.168.0.0/16" : str]
  | AddressCategory_UniqueLocal => []
  | AddressCategory_Cgnat => ["100.64.0.0/10" : str]
  end.

Record ParseCategoryError := { error_token : str }.

Definition to_ascii_lowercase (s : str) : str :=
  (fun c => if is_ascii_uppercase c then ascii_of_N (code c + 32) else c) <$> s.

Definition AddressCategory_from_str (s : str) : result ParseCategoryError AddressCategory :=
  let norm := to_ascii_lowercase (trim s) in
  if bool_decide (norm = "loopback") then Ok AddressCategory_Loopback
  else if bool_decide (norm = "link-local") || bool_decide (norm = "linklocal") then Ok AddressCategory_LinkLocal
  else if bool_decide (norm = "rfc1918") || bool_decide (norm = "rfc-1918") then Ok AddressCategory_Rfc1918
  else if bool_decide (norm = "ula") || bool_decide (norm = "unique-local") then Ok AddressCategory_UniqueLocal
  else if bool_decide (norm = "cgnat") then Ok AddressCategory_Cgnat
  else Err {| error_token := norm |}.

(** ** Classification *)

Definition classify_v4 (a : Z) : option AddressCategory :=
  let o0 := octet4 0 a in
  let o1 := octet4 1 a in
  if (o0 =? 127) || (a =? 0) then Some AddressCategory_Loopback
  else if (o0 =? 169) && (o1 =? 254) then Some AddressCategory_LinkLocal
  else if (o0 =? 100) && (Z.land o1 192 =? 64) then Some AddressCategory_Cgnat
  else if (o0 =? 10) || (o0 =? 172) && (16 <=? o1) && (o1 <=? 31) || (o0 =? 192) && (o1 =? 168)
       then Some AddressCategory_Rfc1918
  else None.

Definition classify_v6 (a : Z) : option AddressCategory :=
  if (a =? 1) || (a =? 0) then Some AddressCategory_Loopback
  else
    let first := octet6 0 a in
    let second := octet6 1 a in
    if (first =? 254) && (Z.land second 192 =? 128) then Some AddressCategory_LinkLocal
    else if Z.land first 254 =? 252 then Some AddressCategory_UniqueLocal
    else None.

Definition classify (ip : IpAddr) : option AddressCategory :=
  match ip with
  | IpAddr_V4 a => classify_v4 a
  | IpAddr_V6 a => match to_ipv4_mapped a with Some v4 => classify_v4 v4 | None => classify_v6 a end
  end.

(** ** The policy *)

Inductive EgressDecision := EgressDecision_Allow | EgressDecision_Deny (c : AddressCategory).
#[export] Instance EgressDecision_eq_dec : EqDecision EgressDecision.
Proof. solve_decision. Defined.
Record Denied := { denied_ip : IpAddr; denied_category : AddressCategory }.

(** The denied categories; a [BTreeSet], of which only membership is used. *)
Record EgressPolicy := { denied : list AddressCategory }.

Definition EgressPolicy_default : EgressPolicy := {| denied := AddressCategory_ALL |}.
Definition with_allowed (allow : list AddressCategory) : EgressPolicy :=
  {| denied := fold_left (fun d c => filter (fun x => x <> c) d) allow AddressCategory_ALL |}.

(** [spec.split([',', ' ', '\t', '\n'])]. *)
Fixpoint split_any (seps : str) (s : str) : list str :=
  match s with
  | [] => [[]]
  | c :: s =>
      if one_of seps c then [] :: split_any seps s
      else match split_any seps s with
           | piece :: rest => (c :: piece) :: rest
           | [] => [[c]]
           end
  end.
Definition separators : str := [","%char; " "%char; tab; lf].

Fixpoint parse_tokens (tokens : list str) : result ParseCategoryError (list AddressCategory) :=
  match tokens with
  | [] => Ok []
  | t :: tokens =>
      if bool_decide (trim t = []) then parse_tokens tokens
      else c ← AddressCategory_from_str t; cs ← parse_tokens tokens; Ok (c :: cs)
  end.

Definition from_allow_list (spec : str) : result ParseCategoryError EgressPolicy :=
  allow ← parse_tokens (split_any separators spec);
  Ok (with_allowed allow).

Definition from_env (var : option str) : result ParseCategoryError EgressPolicy :=
  match var with Some spec => from_allow_list spec | None => Ok EgressPolicy_default end.

Definition denies (p : EgressPolicy) (c : AddressCategory) : bool := bool_decide (c ∈ denied p).

Definition denied_v4_cidrs (p : EgressPolicy) : list str :=
  concat (v4_cidrs <$> filter (fun c => denies p c = true) AddressCategory_ALL).

Definition decision (p : EgressPolicy) (ip : IpAddr) : EgressDecision :=
  match classify ip with
  | Some c => if denies p c then EgressDecision_Deny c else EgressDecision_Allow
  | None => EgressDecision_Allow
  end.

Definition check (p : EgressPolicy) (ip : IpAddr) : result Denied unit :=
  match decision p ip with
  | EgressDecision_Allow => Ok tt
  | EgressDecision_Deny c => Err {| denied_ip := ip; denied_category := c |}
  end.

Definition filter_resolved (p : EgressPolicy) (ips : list IpAddr) : list IpAddr :=
  filter (fun ip => decision p ip = EgressDecision_Allow) ips.

(** ** The ranges *)

Definition in_prefix (width len base a : Z) : Prop := Z.shiftr a (width - len) = Z.shiftr base (width - len).

Definition v4 (a b c d : Z) : Z := ((a * 256 + b) * 256 + c) * 256 + d.
(** The IPv6 address whose first group is [g]. *)
Definition v6_group (g : Z) : Z := Z.shiftl g 112.

(** The destinations of a category, as the documentation lists them. *)
Definition internal_v4 (c : AddressCategory) (a : Z) : Prop :=
  match c with
  | AddressCategory_Loopback => in_prefix 32 8 (v4 127 0 0 0) a \/ a = 0
  | AddressCategory_LinkLocal => in_prefix 32 16 (v4 169 254 0 0) a
  | AddressCategory_Rfc1918 =>
      in_prefix 32 8 (v4 10 0 0 0) a \/ in_prefix 32 12 (v4 172 16 0 0) a \/ in_prefix 32 16 (v4 192 168 0 0) a
  | AddressCategory_UniqueLocal => False
  | AddressCategory_Cgnat => in_prefix 32 10 (v4 100 64 0 0) a
  end.
Definition internal_v6 (c : AddressCategory) (a : Z) : Prop :=
  match c with
  | AddressCategory_Loopback => a = 1 \/ a = 0
  | AddressCategory_LinkLocal => in_prefix 128 10 (v6_group 65152) a
  | AddressCategory_UniqueLocal => in_prefix 128 7 (v6_group 64512) a
  | _ => False
  end.
(** An IPv4-mapped address, in [::ffff:0:0/96], is the address it maps. *)
Definition internal (c : AddressCategory) (ip : IpAddr) : Prop :=
  match ip with
  | IpAddr_V4 a => internal_v4 c a
  | IpAddr_V6 a => (in_prefix 128 96 (65535 * 2 ^ 32) a /\ internal_v4 c (a mod 2 ^ 32))
                   \/ (~ in_prefix 128 96 (65535 * 2 ^ 32) a /\ internal_v6 c a)
  end.

Lemma byte_mask o : 0 <= o < 256 -> Z.land o 192 = 64 * (o / 64) /\ Z.land o 254 = 2 * (o / 2).
Proof.
  intros Ho. assert (HF : forallb (fun n => let o := Z.of_nat n in (Z.land o 192 =? 64 * (o / 64)) && (Z.land o 254 =? 2 * (o / 2)))
    (seq 0 256) = true) by (vm_compute; reflexivity).
  rewrite forallb_forall in HF. specialize (HF (Z.to_nat o)). rewrite in_seq in HF. specialize (HF ltac:(lia)).
  cbv zeta in HF. rewrite Z2Nat.id in HF by lia. bools. split; by apply Z.eqb_eq.
Qed.

Lemma shiftr_div a n : 0 <= n -> Z.shiftr a n = a / 2 ^ n.
Proof. apply Z.shiftr_div_pow2. Qed.

Lemma octet4_div i a : 0 <= i <= 3 -> octet4 i a = a / 2 ^ (24 - 8 * i) mod 256.
Proof. intros Hi. unfold octet4. change 255 with (Z.ones 8). rewrite Z.land_ones, Z.shiftr_div_pow2 by lia. done. Qed.
Lemma octet6_div i a : 0 <= i <= 15 -> octet6 i a = a / 2 ^ (120 - 8 * i) mod 256.
Proof. intros Hi. unfold octet6. change 255 with (Z.ones 8). rewrite Z.land_ones, Z.shiftr_div_pow2 by lia. done. Qed.

(** The prefixes of an address in terms of its first octets. *)
Record v4_parts (a o0 o1 : Z) : Prop := {
  vp_o0 : 0 <= o0 < 256; vp_o1 : 0 <= o1 < 256;
  vp_8 : a / 2 ^ 24 = o0;
  vp_10 : a / 2 ^ 22 = o0 * 4 + o1 / 64;
  vp_12 : a / 2 ^ 20 = o0 * 16 + o1 / 16;
  vp_16 : a / 2 ^ 16 = o0 * 256 + o1
}.

Lemma v4_octets a : 0 <= a < 2 ^ 32 -> v4_parts a (octet4 0 a) (octet4 1 a).
Proof.
  intros Ha. rewrite !octet4_div by lia. change (24 - 8 * 0) with 24. change (24 - 8 * 1) with 16.
  change (2 ^ 32) with 4294967296 in Ha. change (2 ^ 24) with 16777216. change (2 ^ 16) with 65536.
  split; change (2 ^ 24) with 16777216; change (2 ^ 22) with 4194304; change (2 ^ 20) with 1048576;
    change (2 ^ 16) with 65536; Z.to_euclidean_division_equations; lia.
Qed.

Lemma classify_v4_exact a c : 0 <= a < 2 ^ 32 -> classify_v4 a = Some c <-> internal_v4 c a.
Proof.
  intros Ha. destruct (v4_octets a Ha) as [H0 H1 E8 E10 E12 E16]. destruct (byte_mask _ H1) as [HM _].
  unfold classify_v4. rewrite HM. clear HM. set (o0 := octet4 0 a) in *. set (o1 := octet4 1 a) in *. clearbody o0 o1.
  assert (P8 : forall x, in_prefix 32 8 (v4 x 0 0 0) a <-> o0 = x).
  { intros x. unfold in_prefix, v4. rewrite !shiftr_div by lia. change (32 - 8) with 24. rewrite E8.
    change (2 ^ 24) with 16777216. Z.to_euclidean_division_equations; lia. }
  assert (P16 : forall x y, in_prefix 32 16 (v4 x y 0 0) a <-> o0 * 256 + o1 = x * 256 + y).
  { intros x y. unfold in_prefix, v4. rewrite !shiftr_div by lia. change (32 - 16) with 16. rewrite E16.
    change (2 ^ 16) with 65536. Z.to_euclidean_division_equations; lia. }
  assert (P12 : in_prefix 32 12 (v4 172 16 0 0) a <-> o0 * 16 + o1 / 16 = 2753).
  { unfold in_prefix. rewrite shiftr_div by lia. change (32 - 12) with 20. by rewrite E12. }
  assert (P10 : in_prefix 32 10 (v4 100 64 0 0) a <-> o0 * 4 + o1 / 64 = 401).
  { unfold in_prefix. rewrite shiftr_div by lia. change (32 - 10) with 22. by rewrite E10. }
  assert (Z0 : a = 0 -> o0 = 0) by (intros ->; by rewrite <- E8).
  clear E8 E10 E12 E16 Ha.
  assert (Hq : exists q, o1 / 64 = q /\ 64 * q <= o1 < 64 * q + 64)
    by (eexists; split; [reflexivity|Z.to_euclidean_division_equations; lia]).
  assert (Hr : exists r, o1 / 16 = r /\ 16 * r <= o1 < 16 * r + 16)
    by (eexists; split; [reflexivity|Z.to_euclidean_division_equations; lia]).
  destruct Hq as (q & Eq & Hq), Hr as (r & Er & Hr). rewrite Eq, ?Er in *. clear Eq Er.
  destruct c; unfold internal_v4; rewrite ?P8, ?P16, ?P12, ?P10; clear P8 P16 P12 P10;
    repeat match goal with |- context [if ?b then _ else _] => destruct b eqn:? end;
    split; intros; first [discriminate|reflexivity|exfalso; lia|lia].
Qed.

Lemma v6_octets a : 0 <= a < 2 ^ 128 ->
  0 <= octet6 0 a < 256 /\ 0 <= octet6 1 a < 256
  /\ a / 2 ^ 118 = octet6 0 a * 4 + octet6 1 a / 64 /\ a / 2 ^ 121 = octet6 0 a / 2.
Proof.
  intros Ha. rewrite !octet6_div by lia. change (120 - 8 * 0) with 120. change (120 - 8 * 1) with 112.
  assert (E : a / 2 ^ 120 = a / 2 ^ 112 / 256) by (rewrite Z.div_div by lia; f_equal).
  assert (E1 : a / 2 ^ 118 = a / 2 ^ 112 / 64) by (rewrite Z.div_div by lia; f_equal).
  assert (E2 : a / 2 ^ 121 = a / 2 ^ 112 / 512) by (rewrite Z.div_div by lia; f_equal).
  assert (H0 : 0 <= a / 2 ^ 112 < 65536).
  { split; [apply Z.div_pos; lia|]. apply Z.div_lt_upper_bound; lia. }
  rewrite E, E1, E2. set (h := a / 2 ^ 112) in *. clearbody h. clear E E1 E2 Ha.
  split_and!; Z.to_euclidean_division_equations; lia.
Qed.

Lemma classify_v6_exact a c : 0 <= a < 2 ^ 128 -> classify_v6 a = Some c <-> internal_v6 c a.
Proof.
  intros Ha. destruct (v6_octets a Ha) as (H0 & H1 & E10 & E7).
  destruct (byte_mask _ H1) as [M1 _]. destruct (byte_mask _ H0) as [_ M0]. unfold classify_v6. cbv zeta. rewrite M1, M0. clear M1 M0.
  set (o0 := octet6 0 a) in *. set (o1 := octet6 1 a) in *. clearbody o0 o1.
  assert (P10 : in_prefix 128 10 (v6_group 65152) a <-> o0 * 4 + o1 / 64 = 1018).
  { unfold in_prefix. rewrite shiftr_div by lia. change (128 - 10) with 118. by rewrite E10. }
  assert (P7 : in_prefix 128 7 (v6_group 64512) a <-> o0 / 2 = 126).
  { unfold in_prefix. rewrite shiftr_div by lia. change (128 - 7) with 121. by rewrite E7. }
  assert (Z0 : a = 0 \/ a = 1 -> o0 / 2 = 0 /\ o0 * 4 + o1 / 64 = 0) by (intros [->| ->]; by rewrite <- E7, <- E10).
  clear E10 E7 Ha.
  assert (Hq : exists q, o1 / 64 = q /\ 64 * q <= o1 < 64 * q + 64)
    by (eexists; split; [reflexivity|Z.to_euclidean_division_equations; lia]).
  assert (Hr : exists r, o0 / 2 = r /\ 2 * r <= o0 < 2 * r + 2)
    by (eexists; split; [reflexivity|Z.to_euclidean_division_equations; lia]).
  destruct Hq as (q & Eq & Hq), Hr as (r & Er & Hr). rewrite Eq, Er in *. clear Eq Er.
  destruct c; unfold internal_v6; rewrite ?P10, ?P7; clear P10 P7;
    repeat match goal with |- context [if ?b then _ else _] => destruct b eqn:? end;
    split; intros; first [discriminate|reflexivity|exfalso; lia|lia].
Qed.

Lemma classify_internal ip c : ip_valid ip -> classify ip = Some c <-> internal c ip.
Proof.
  destruct ip as [a|a]; cbn [ip_valid classify internal]; intros Ha; [exact (classify_v4_exact a c Ha)|].
  assert (HP : in_prefix 128 96 (65535 * 2 ^ 32) a <-> Z.shiftr a 32 = 65535) by done. rewrite HP. unfold to_ipv4_mapped.
  destruct (Z.eqb_spec (Z.shiftr a 32) 65535) as [E|E].
  - change (2 ^ 32 - 1) with (Z.ones 32). rewrite Z.land_ones, classify_v4_exact by (try apply Z.mod_pos_bound; lia). tauto.
  - rewrite classify_v6_exact by done. tauto.
Qed.

(** Classification is exact: an address is put in a category if
    and only if it is in one of the ranges the category stands for, an IPv4-mapped
    IPv6 address being judged as the IPv4 address it carries. *)
Theorem classify_exact ip c : ip_valid ip -> classify ip = Some c <-> internal c ip.
Proof. apply classify_internal. Qed.

Lemma classify_exact_witness :
  classify (IpAddr_V6 (65535 * 2 ^ 32 + v4 169 254 169 254)) = Some AddressCategory_LinkLocal.
Proof.
  apply (classify_exact (IpAddr_V6 (65535 * 2 ^ 32 + v4 169 254 169 254)) AddressCategory_LinkLocal);
    [split; [by vm_compute|by vm_compute]|]. left. by vm_compute.
Defined.

(** ** The packet filter of the rootful path *)

(** The text [a.b.c.d/n] of a prefix. *)
Definition parse_cidr (text : str) : option (Z * Z) :=
  match split "/" text with
  | [addr; len] =>
      match (fun o => Z.of_N (decimal o)) <$> split "." addr with
      | [a; b; c; d] => Some (v4 a b c d, Z.of_N (decimal len))
      | _ => None
      end
  | _ => None
  end.

Definition cidr_matches (a : Z) (text : str) : bool :=
  match parse_cidr text with
  | Some (base, len) => Z.shiftr a (32 - len) =? Z.shiftr base (32 - len)
  | None => false
  end.

Lemma cidrs_exact c a : 0 < a < 2 ^ 32 -> existsb (cidr_matches a) (v4_cidrs c) = true <-> classify_v4 a = Some c.
Proof.
  intros Ha. rewrite classify_v4_exact by lia. destruct c; cbn [v4_cidrs existsb]; unfold cidr_matches;
    repeat match goal with |- context [parse_cidr ?t] => let v := eval vm_compute in (parse_cidr t) in
             change (parse_cidr t) with v end;
    cbv iota beta; rewrite ?orb_false_r, ?orb_true_iff, ?Z.eqb_eq; unfold internal_v4, in_prefix; cbn [v4]; try done.
  split; [by left|]. intros [E| ->]; [done|lia].
Qed.

(** Away from 0.0.0.0 the dropped prefixes are the refused categories. *)
Lemma filter_agrees_nonzero p a : 0 < a < 2 ^ 32 ->
  existsb (cidr_matches a) (denied_v4_cidrs p) = true <-> check p (IpAddr_V4 a) <> Ok tt.
Proof.
  intros Ha. unfold check, decision, denied_v4_cidrs. cbn [classify]. rewrite existsb_exists. split.
  - intros (t & (ts & Hts & Ht)%in_concat & HM).
    apply list_elem_of_In, list_elem_of_fmap in Hts as (c & -> & [Hd _]%list_elem_of_filter).
    assert (HC : classify_v4 a = Some c).
    { apply cidrs_exact; [done|]. apply existsb_exists. by exists t. }
    by rewrite HC, Hd.
  - destruct (classify_v4 a) as [c|] eqn:HC; [|done]. destruct (denies p c) eqn:Hd; [|done]. intros _.
    apply cidrs_exact, existsb_exists in HC as (t & Ht & HM); [|done]. exists t. split; [|done].
    apply in_concat. exists (v4_cidrs c). split; [|done].
    apply list_elem_of_In, list_elem_of_fmap. exists c. split; [done|]. apply list_elem_of_filter. split; [done|].
    destruct c; set_solver.
Qed.

(** No prefix of the filter holds 0.0.0.0, whatever the policy denies. *)
Lemma filter_passes_unspecified p : existsb (cidr_matches 0) (denied_v4_cidrs p) = false.
Proof.
  apply not_true_iff_false. rewrite existsb_exists. unfold denied_v4_cidrs.
  intros (t & (ts & Hts & Ht)%in_concat & HM).
  apply list_elem_of_In, list_elem_of_fmap in Hts as (c & -> & _).
  assert (HF : existsb (cidr_matches 0) (v4_cidrs c) = false) by (by destruct c; vm_compute).
  apply not_true_iff_false in HF. apply HF, existsb_exists. by exists t.
Qed.



(** ** Allow lists *)

Lemma with_allowed_denies cs c : denies (with_allowed cs) c = negb (bool_decide (c ∈ cs)).
Proof.
  unfold denies, with_allowed. cbn [denied].
  assert (HF : forall d : list AddressCategory, c ∈ fold_left (fun d c => filter (fun x => x <> c) d) cs d <-> c ∈ d /\ c ∉ cs).
  { induction cs as [|x cs IH]; intros d; simpl; [set_solver|]. rewrite IH, list_elem_of_filter. set_solver. }
  assert (HA : c ∈ AddressCategory_ALL) by (destruct c; set_solver).
  case_bool_decide as H1; case_bool_decide as H2; try done; rewrite HF in H1; tauto.
Qed.

Lemma split_any_app seps (s t : str) x :
  Forall (fun c => one_of seps c = false) s -> one_of seps x = true ->
  split_any seps (s ++ x :: t) = s :: split_any seps t.
Proof.
  intros HS Hx. induction HS as [|c s Hc _ IH]; simpl; [by rewrite Hx|]. by rewrite Hc, IH.
Qed.

Lemma split_any_one seps (s : str) : Forall (fun c => one_of seps c = false) s -> split_any seps s = [s].
Proof. induction 1 as [|c s Hc _ IH]; simpl; [done|]. by rewrite Hc, IH. Qed.

Lemma names_plain c : Forall (fun x => one_of separators x = false) (AddressCategory_as_str c).
Proof. destruct c; repeat constructor. Qed.

Lemma parse_name c tokens :
  parse_tokens (AddressCategory_as_str c :: tokens) = (cs ← parse_tokens tokens; Ok (c :: cs)).
Proof. by destruct c. Qed.

(** An allow list of category names, joined by any of the
    accepted separators, is read as the policy that allows exactly those
    categories. *)
Theorem allow_list_roundtrip sep cs : one_of separators sep = true ->
  exists p, from_allow_list (join [sep] (AddressCategory_as_str <$> cs)) = Ok p
    /\ forall c, denies p c = negb (bool_decide (c ∈ cs)).
Proof.
  intros Hs. exists (with_allowed cs). split; [|intros; apply with_allowed_denies]. unfold from_allow_list.
  assert (HP : parse_tokens (split_any separators (join [sep] (AddressCategory_as_str <$> cs))) = Ok cs).
  { induction cs as [|c [|c' cs] IH]; [done| |].
    - cbn [fmap list_fmap join]. rewrite split_any_one by apply names_plain. apply parse_name.
    - change (join [sep] (AddressCategory_as_str <$> c :: c' :: cs))
        with (AddressCategory_as_str c ++ sep :: join [sep] (AddressCategory_as_str <$> c' :: cs)).
      rewrite split_any_app by (try apply names_plain; done). by rewrite parse_name, IH. }
  by rewrite HP.
Qed.

Lemma allow_list_roundtrip_witness :
  exists p, from_allow_list "ula rfc1918" = Ok p /\ denies p AddressCategory_Rfc1918 = false.
Proof.
  destruct (allow_list_roundtrip " " [AddressCategory_UniqueLocal; AddressCategory_Rfc1918] eq_refl) as (p & E & HD).
  exists p. split; [exact E|]. by rewrite HD.
Defined.
