(* ===== verification/IpText.v ===== *)
(** * IpText: [IpAddr::from_str] of the standard library.

    A reader takes the text that is left and gives the value it reads and the
    rest, or fails and consumes nothing, as [Parser::read_atomically]. *)

From Stdlib Require Import ZifyBool.
From S2P Require Import Prelude RustStr Ssrf.
#[local] Open Scope Z_scope.

Definition reader (A : Type) := str -> option (A * str).

(** [char::to_digit(radix)] for the radixes 10 and 16. *)
Definition to_digit (radix : Z) (c : ascii) : option Z :=
  let d :=
    if is_ascii_digit c then Some (Z.of_N (code c) - 48)
    else if is_ascii_lowercase c then Some (Z.of_N (code c) - 87)
    else if is_ascii_uppercase c then Some (Z.of_N (code c) - 55)
    else None in
  match d with Some n => if n <? radix then Some n else None | None => None end.

(** The digits at the front: their value, their number and the rest. *)
Fixpoint read_digits (radix acc : Z) (count : nat) (s : str) : Z * nat * str :=
  match s with
  | c :: t =>
      match to_digit radix c with
      | Some d => read_digits radix (acc * radix + d) (S count) t
      | None => (acc, count, s)
      end
  | [] => (acc, count, s)
  end.

(** [Parser::read_number] into an integer below [limit]. *)
Definition read_number (radix : Z) (max_digits : nat) (allow_zero_prefix : bool) (limit : Z) : reader Z := fun s =>
  let '(n, count, rest) := read_digits radix 0 0 s in
  let has_leading_zero := match s with c :: _ => bool_decide (c = "0"%char) | [] => false end in
  if (max_digits <? count)%nat then None
  else if (count =? 0)%nat then None
  else if negb allow_zero_prefix && has_leading_zero && (1 <? count)%nat then None
  else if n <? limit then Some (n, rest) else None.

Definition read_given_char (c : ascii) : reader unit := fun s =>
  match s with x :: t => if bool_decide (x = c) then Some (tt, t) else None | [] => None end.

(** [Parser::read_separator]. *)
Definition read_separator {A} (sep : ascii) (index : nat) (inner : reader A) : reader A := fun s =>
  match index with
  | O => inner s
  | S _ => '(_, s) ← read_given_char sep s; inner s
  end.

Definition read_ipv4_addr : reader Z := fun s =>
  let part i s := read_separator "." i (read_number 10 3 false 256) s in
  '(a, s) ← part 0%nat s; '(b, s) ← part 1%nat s; '(c, s) ← part 2%nat s; '(d, s) ← part 3%nat s;
  Some (v4 a b c d, s).

(** [read_groups]: at most [left] groups from index [i] on; whether the last two
    were written as an IPv4 address. *)
Fixpoint read_groups (left i : nat) (s : str) : list Z * bool * str :=
  match left with
  | O => ([], false, s)
  | S left' =>
      match (if bool_decide (left' = O) then None else read_separator ":" i read_ipv4_addr s) with
      | Some (a, rest) => ([a / 65536; a mod 65536], true, rest)
      | None =>
          match read_separator ":" i (read_number 16 4 true 65536) s with
          | Some (g, rest) =>
              let '(gs, ipv4, rest) := read_groups left' (S i) rest in (g :: gs, ipv4, rest)
          | None => ([], false, s)
          end
      end
  end.

Definition v6_of_groups (gs : list Z) : Z := fold_left (fun a g => a * 65536 + g) gs 0.

Definition read_ipv6_addr : reader Z := fun s =>
  let '(head, head_ipv4, s) := read_groups 8 0 s in
  if bool_decide (length head = 8%nat) then Some (v6_of_groups head, s)
  else if head_ipv4 then None
  else
    '(_, s) ← read_given_char ":" s; '(_, s) ← read_given_char ":" s;
    let '(tail, _, s) := read_groups (8 - (length head + 1)) 0 s in
    Some (v6_of_groups (head ++ replicate (8 - length head - length tail) 0 ++ tail), s).

Definition IpAddr_from_str (s : str) : option IpAddr :=
  match read_ipv4_addr s with
  | Some (a, []) => Some (IpAddr_V4 a)
  | Some _ => None
  | None => match read_ipv6_addr s with Some (a, []) => Some (IpAddr_V6 a) | _ => None end
  end.

Example literals :
  IpAddr_from_str "169.254.169.254" = Some (IpAddr_V4 (v4 169 254 169 254))
  /\ IpAddr_from_str "1.2.3.04" = None /\ IpAddr_from_str "1.2.3.256" = None /\ IpAddr_from_str "1.2.3" = None
  /\ IpAddr_from_str "::1" = Some (IpAddr_V6 1) /\ IpAddr_from_str "::" = Some (IpAddr_V6 0)
  /\ IpAddr_from_str "fe80::1:2" = Some (IpAddr_V6 (v6_group 65152 + 65538))
  /\ IpAddr_from_str "::ffff:10.0.0.1" = Some (IpAddr_V6 (65535 * 2 ^ 32 + v4 10 0 0 1))
  /\ IpAddr_from_str "1:2:3:4:5:6:7:8:9" = None /\ IpAddr_from_str "1:2:3:4:5:6:7::8" = None
  /\ IpAddr_from_str "1.2.3.4::" = None /\ IpAddr_from_str "[::1]" = None.
Proof. by vm_compute. Qed.

(** ** Bounds *)

Lemma to_digit_range radix c d : to_digit radix c = Some d -> 0 <= d.
Proof.
  unfold to_digit, is_ascii_digit, is_ascii_lowercase, is_ascii_uppercase, in_range. intros H. cases_in H; simplify_eq;
    repeat match goal with H : _ && _ = true |- _ => apply andb_true_iff in H as [? ?] end;
    change (code "0") with 48%N in *; change (code "a") with 97%N in *; change (code "A") with 65%N in *; lia.
Qed.

Lemma read_digits_nonneg radix acc count s n k rest :
  0 <= radix -> 0 <= acc -> read_digits radix acc count s = (n, k, rest) -> 0 <= n.
Proof.
  intros Hr. revert acc count. induction s as [|c s IH]; intros acc count Ha; simpl; [by intros; simplify_eq|].
  destruct (to_digit radix c) eqn:E; [|by intros; simplify_eq]. apply IH. apply to_digit_range in E. nia.
Qed.

Lemma read_number_range radix m z limit s n rest :
  0 <= radix -> read_number radix m z limit s = Some (n, rest) -> 0 <= n < limit.
Proof.
  intros Hr. unfold read_number. destruct (read_digits radix 0 0 s) as [[v k] r] eqn:E. intros H. cases_in H; simplify_eq.
  apply read_digits_nonneg in E; lia.
Qed.

Lemma read_separator_range {A} (P : A -> Prop) sep i (inner : reader A) s a rest :
  (forall s a rest, inner s = Some (a, rest) -> P a) -> read_separator sep i inner s = Some (a, rest) -> P a.
Proof.
  intros HI. destruct i; simpl; [apply HI|]. destruct (read_given_char sep s) as [[[] t]|]; [|done]. apply HI.
Qed.

Lemma read_ipv4_range s a rest : read_ipv4_addr s = Some (a, rest) -> 0 <= a < 2 ^ 32.
Proof.
  unfold read_ipv4_addr. intros H.
  repeat (let Hp := fresh in apply bind_Some in H as ([? ?] & Hp & H);
          apply (read_separator_range (fun n => 0 <= n < 256)) in Hp; [|by intros ???; apply read_number_range]).
  simplify_eq. unfold v4. lia.
Qed.

Definition group_ok (g : Z) : Prop := 0 <= g < 65536.

Lemma read_groups_range left i s gs b rest :
  read_groups left i s = (gs, b, rest) -> Forall group_ok gs /\ (length gs <= left)%nat.
Proof.
  revert i s gs b rest. induction left as [|left IH]; intros i s gs b rest H; cbn [read_groups] in H; [simplify_eq; split; [constructor|done]|].
  destruct (if bool_decide (left = O) then None else read_separator ":" i read_ipv4_addr s) as [[a t]|] eqn:E.
  - case_bool_decide as Hl; [done|]. apply (read_separator_range (fun n => 0 <= n < 2 ^ 32)) in E; [|apply read_ipv4_range].
    simplify_eq. split; [|simpl; lia]. unfold group_ok. repeat constructor; try (apply Z.mod_pos_bound; lia).
    + apply Z.div_pos; lia.
    + apply Z.div_lt_upper_bound; lia.
  - destruct (read_separator ":" i (read_number 16 4 true 65536) s) as [[g t]|] eqn:En; [|simplify_eq; split; [constructor|simpl; lia]].
    destruct (read_groups left (S i) t) as [[gs' b'] r'] eqn:Eg. simplify_eq. apply IH in Eg as [Hg Hl].
    apply (read_separator_range group_ok) in En; [|by intros ???; apply read_number_range].
    split; [by constructor|simpl; lia].
Qed.

Lemma v6_of_groups_range gs k a :
  Forall group_ok gs -> 0 <= a < 65536 ^ k -> 0 <= k ->
  0 <= fold_left (fun a g => a * 65536 + g) gs a < 65536 ^ (k + Z.of_nat (length gs)).
Proof.
  intros HF. revert a k. induction HF as [|g gs Hg _ IH]; intros a k Ha Hk; cbn [fold_left length].
  - by rewrite Z.add_0_r.
  - replace (k + Z.of_nat (S (length gs))) with (k + 1 + Z.of_nat (length gs)) by lia. apply IH; [|lia].
    unfold group_ok in Hg. rewrite Z.pow_add_r by lia. nia.
Qed.

Lemma groups_valid gs : Forall group_ok gs -> length gs = 8%nat -> ip_valid (IpAddr_V6 (v6_of_groups gs)).
Proof.
  intros HF HL. unfold ip_valid, v6_of_groups. pose proof (v6_of_groups_range gs 0 0 HF ltac:(lia) ltac:(lia)) as H.
  rewrite HL in H. exact H.
Qed.

Lemma read_ipv6_valid s a rest : read_ipv6_addr s = Some (a, rest) -> ip_valid (IpAddr_V6 a).
Proof.
  unfold read_ipv6_addr. destruct (read_groups 8 0 s) as [[head h4] s1] eqn:Eh. apply read_groups_range in Eh as [Hh Lh].
  case_bool_decide as H8; [intros; simplify_eq; by apply groups_valid|]. destruct h4; [done|]. intros H.
  apply bind_Some in H as ([[] s2] & _ & H). apply bind_Some in H as ([[] s3] & _ & H).
  destruct (read_groups (8 - (length head + 1)) 0 s3) as [[tail t4] s4] eqn:Et. apply read_groups_range in Et as [Ht Lt].
  simplify_eq. apply groups_valid.
  - repeat (apply Forall_app_2; [done|]). apply Forall_app_2; [|done]. apply Forall_replicate. unfold group_ok. lia.
  - rewrite !length_app, length_replicate. lia.
Qed.

Lemma IpAddr_from_str_valid s ip : IpAddr_from_str s = Some ip -> ip_valid ip.
Proof.
  unfold IpAddr_from_str. destruct (read_ipv4_addr s) as [[a [|]]|] eqn:E4; intros H; simplify_eq.
  - exact (read_ipv4_range _ _ _ E4).
  - destruct (read_ipv6_addr s) as [[a [|]]|] eqn:E6; simplify_eq. exact (read_ipv6_valid _ _ _ E6).
Qed.
