(* ===== verification/Fetch.v ===== *)
(** * Fetch: the downloads of [ADD <url>]
    (crates/umf-builder/src/engine_build/fetch.rs, and the policy cell of
    crates/umf-engine/src/rootless.rs).

    URLs, the resolver, the HTTP client and the file system are the class [Net];
    its answers depend on a state that every request changes, so a name may
    resolve to another address at each hop. *)

From Stdlib Require Import ZifyBool.
From S2P Require Import Prelude RustStr RustStrFacts Paths Ast ArgScope Image BuildState BuildModel Orchestrate Ssrf IpText.
#[local] Open Scope Z_scope.

(** ** The policy of the process (rootless.rs) *)

(** [EGRESS_POLICY], a [OnceLock]. *)
Definition PolicyCell := option EgressPolicy.

Definition egress_policy (env : option str) (cell : PolicyCell) : EgressPolicy * PolicyCell :=
  let p := match cell with
           | Some p => p
           | None => match from_env env with Ok p => p | Err _ => EgressPolicy_default end
           end in
  (p, Some p).

Definition set_egress_policy (p : EgressPolicy) (cell : PolicyCell) : PolicyCell :=
  match cell with Some q => Some q | None => Some p end.

(** [Err]: the message of the unknown category. *)
Definition set_egress_policy_from_arg (spec : str) (cell : PolicyCell) : result ParseCategoryError unit * PolicyCell :=
  match from_allow_list spec with
  | Ok p => (Ok tt, set_egress_policy p cell)
  | Err e => (Err e, cell)
  end.

(** ** The network *)

Definition MAX_REDIRECTS : nat := 10.
Definition MAX_URL_FETCH_BYTES : Z := 8 * 1024 * 1024 * 1024.

(** A client whose resolver answers [client_addr] for [client_host]. *)
Record Client := { client_host : str; client_addr : IpAddr; client_port : Z }.

Record Response := {
  resp_status : Z;
  (** The [Location] header, where it is present and is text. *)
  resp_location : option str;
  (** The answer of the i-th call of [Response::chunk]. *)
  resp_chunk : nat -> result str (option str)
}.

(** The operations on the temporary file. *)
Inductive IoOp := IoOp_New | IoOp_Write (chunk : str) | IoOp_Flush.

Class Net := {
  Url : Type;
  World : Type;
  url_parse : str -> result str Url;
  url_join : Url -> str -> result str Url;
  url_text : Url -> str;
  host_str : Url -> option str;
  port_or_known_default : Url -> option Z;
  ip_text : IpAddr -> str;
  status_text : Z -> str;
  is_redirection : Z -> bool;
  is_success : Z -> bool;
  hash_hex : str -> str;
  lookup_host : World -> str -> Z -> result str (list IpAddr) * World;
  client_build : Client -> result str unit;
  (** The request, and the address its connection goes to. *)
  send : World -> Client -> Url -> result str Response * World;
  dial : World -> Client -> Url -> IpAddr;
  (** The proxy the environment configures for a URL, if any: the client is
      built without [no_proxy]. *)
  proxy_for : Url -> option IpAddr;
  temp_io : World -> IoOp -> result str unit
}.

Definition fetch_failed (url detail : str) : EngineBuildError := AddUrlFetchFailed url detail.

Section fetch.
Context {N : Net}.

Definition egress_denied (original : str) (target : Url) (address category : str) : EngineBuildError :=
  AddUrlEgressDenied original (url_text target) address category.

Definition resolve_allowed (w : World) (original : str) (target : Url) (host : str) (port : Z) (policy : EgressPolicy)
    : result EngineBuildError IpAddr * World :=
  match IpAddr_from_str host with
  | Some ip =>
      (match check policy ip with
       | Ok _ => Ok ip
       | Err d => Err (egress_denied original target (ip_text (denied_ip d)) (AddressCategory_as_str (denied_category d)))
       end, w)
  | None =>
      match lookup_host w host port with
      | (Err e, w) => (Err (fetch_failed original ("resolving " ++ host ++ ": " ++ e)), w)
      | (Ok resolved, w) =>
          (match resolved with
           | [] => Err (fetch_failed original (host ++ " resolved to no addresses"))
           | first :: _ =>
               match filter_resolved policy resolved with
               | ip :: _ => Ok ip
               | [] =>
                   let '(address, category) :=
                     match check policy first with
                     | Err d => (ip_text (denied_ip d), AddressCategory_as_str (denied_category d))
                     | Ok _ => (host, "host-internal" : str)
                     end in
                   Err (egress_denied original target address category)
               end
           end, w)
      end
  end.

Definition vetted_client (w : World) (original : str) (target : Url) (policy : EgressPolicy)
    : result EngineBuildError Client * World :=
  match host_str target with
  | None => (Err (fetch_failed original (url_text target ++ " has no host")), w)
  | Some host =>
      let port := default 443 (port_or_known_default target) in
      match resolve_allowed w original target host port policy with
      | (Err e, w) => (Err e, w)
      | (Ok allowed, w) =>
          let client := {| client_host := host; client_addr := allowed; client_port := port |} in
          (match client_build client with
           | Ok _ => Ok client
           | Err e => Err (fetch_failed original e)
           end, w)
      end
  end.

(** The addresses dialled, the final response or the error, and the world. *)
Definition hop_result : Type := list IpAddr * result EngineBuildError Response * World.

(** The loop over the hops, with [more] redirects still to follow. *)
Fixpoint follow (more : nat) (w : World) (url : str) (target : Url) (policy : EgressPolicy) : hop_result :=
  match vetted_client w url target policy with
  | (Err e, w) => ([], Err e, w)
  | (Ok client, w) =>
      let addr := dial w client target in
      match send w client target with
      | (Err e, w) => ([addr], Err (fetch_failed url e), w)
      | (Ok response, w) =>
          let status := resp_status response in
          if is_redirection status then
            match more with
            | O => ([addr], Err (fetch_failed url ("exceeded " ++ nat_to_decimal MAX_REDIRECTS ++ " redirects")), w)
            | S more =>
                match resp_location response with
                | None => ([addr], Err (fetch_failed url ("HTTP " ++ status_text status ++ " without a Location")), w)
                | Some location =>
                    match url_join target location with
                    | Err e => ([addr], Err (fetch_failed url ("bad redirect target: " ++ e)), w)
                    | Ok next =>
                        let '(dials, r, w) := follow more w url next policy in (addr :: dials, r, w)
                    end
                end
            end
          else if is_success status then ([addr], Ok response, w)
          else ([addr], Err (fetch_failed url ("HTTP " ++ status_text status)), w)
      end
  end.

(** The loop over the chunks, from the i-th on; [file] is what was written. *)
Fixpoint read_body (cap : Z) (fuel : nat) (w : World) (url : str) (response : Response) (i : nat) (total : Z) (file : str)
    : outcome (result EngineBuildError str) :=
  match fuel with
  | O => OutOfFuel
  | S fuel =>
      match resp_chunk response i with
      | Err e => Val (Err (fetch_failed url e))
      | Ok None => Val (map_err Io (_ ← temp_io w IoOp_Flush; Ok file))
      | Ok (Some chunk) =>
          let total := total + Z.of_nat (length chunk) in
          if cap <? total then
            Val (Err (fetch_failed url ("payload exceeds the " ++ to_decimal (Z.to_N cap) ++ "-byte ceiling")))
          else
            match temp_io w (IoOp_Write chunk) with
            | Err e => Val (Err (Io e))
            | Ok _ => read_body cap fuel w url response (S i) total (file ++ chunk)
            end
      end
  end.

Definition fetch_url (fuel : nat) (policy : EgressPolicy) (w : World) (url : str)
    : list IpAddr * outcome (result EngineBuildError FetchedUrl) :=
  match url_parse url with
  | Err e => ([], Val (Err (fetch_failed url e)))
  | Ok target =>
      let '(dials, r, w) := follow MAX_REDIRECTS w url target policy in
      (dials,
       match r with
       | Err e => Val (Err e)
       | Ok response =>
           match temp_io w IoOp_New with
           | Err e => Val (Err (Io e))
           | Ok _ =>
               r ← read_body MAX_URL_FETCH_BYTES fuel w url response 0 0 [];
               Val (payload ← r; Ok {| fetched_digest := sha256_digest hash_hex payload; fetched_payload := payload |})
           end
       end)
  end.
End fetch.

(** What the code relies on.  A resolver gives addresses.  It knows no name in
    brackets.  The client dials the proxy of the URL when the environment
    configures one; without a proxy it dials the address of a literal, which a URL
    writes in brackets for IPv6, and otherwise the address the name is pinned
    to. *)
Class NetLaws (N : Net) := {
  lookup_valid : forall w host port ips w', lookup_host w host port = (Ok ips, w') -> Forall ip_valid ips;
  lookup_brackets : forall w host port, starts_with "[" host = true -> exists e w', lookup_host w host port = (Err e, w');
  dial_proxy : forall w client target ip, proxy_for target = Some ip -> dial w client target = ip;
  dial_literal : forall w client target host ip,
    proxy_for target = None -> host_str target = Some host -> IpAddr_from_str host = Some ip -> dial w client target = ip;
  dial_pinned : forall w client target host,
    proxy_for target = None -> host_str target = Some host -> starts_with "[" host = false -> IpAddr_from_str host = None ->
    client_host client = host -> dial w client target = client_addr client
}.

(** An address no denied range holds. *)
Definition vetted (policy : EgressPolicy) (ip : IpAddr) : Prop :=
  forall c, denies policy c = true -> ~ internal c ip.

(** Where a connection may go: to an address no denied range holds, or to a
    proxy of the environment. *)
Definition allowed_dial {N : Net} (policy : EgressPolicy) (ip : IpAddr) : Prop :=
  vetted policy ip \/ exists target, proxy_for target = Some ip.

(** A response whose chunks are not empty. *)
Definition chunks_flow (r : Response) : Prop := forall i chunk, resp_chunk r i = Ok (Some chunk) -> chunk <> [].

Section laws.
Context {N : Net} {L : NetLaws N}.

Lemma check_vetted policy ip : ip_valid ip -> check policy ip = Ok tt -> vetted policy ip.
Proof.
  unfold check, decision, vetted. intros Hv H c Hd Hi. apply (classify_internal ip c Hv) in Hi. by rewrite Hi, Hd in H.
Qed.

Lemma filter_vetted policy ips ip :
  Forall ip_valid ips -> ip ∈ filter_resolved policy ips -> vetted policy ip.
Proof.
  intros HF [Hd Hin]%list_elem_of_filter. rewrite Forall_forall in HF. apply check_vetted; [by apply HF|].
  unfold check. by rewrite Hd.
Qed.

Lemma resolve_allowed_vetted w url target host port policy ip w' :
  resolve_allowed w url target host port policy = (Ok ip, w') ->
  vetted policy ip
  /\ (IpAddr_from_str host = Some ip \/ (IpAddr_from_str host = None /\ starts_with "[" host = false)).
Proof.
  unfold resolve_allowed. destruct (IpAddr_from_str host) as [a|] eqn:Ei.
  - destruct (check policy a) as [[]|d] eqn:Ec; intros; simplify_eq. split; [|by left].
    apply check_vetted; [|done]. by apply IpAddr_from_str_valid in Ei.
  - destruct (lookup_host w host port) as [[ips|e] w1] eqn:El; [|done]. destruct ips as [|a ips]; [done|].
    destruct (filter_resolved policy (a :: ips)) as [|b l] eqn:Ef; intros; simplify_eq.
    + by destruct (check policy a) as [|].
    + split.
      * apply (filter_vetted _ (a :: ips)); [by apply lookup_valid in El|]. rewrite Ef. apply list_elem_of_here.
      * right. split; [done|]. destruct (starts_with "[" host) eqn:Eb; [|done].
        destruct (lookup_brackets w host port Eb) as (e & w2 & E). congruence.
Qed.

Lemma vetted_client_dials w url target policy client w' w'' :
  vetted_client w url target policy = (Ok client, w') -> allowed_dial policy (dial w'' client target).
Proof.
  destruct (proxy_for target) as [p|] eqn:Ep; [intros _; right; exists target; by rewrite (dial_proxy w'' client target p)|].
  unfold vetted_client. destruct (host_str target) as [host|] eqn:Eh; [|done].
  destruct (resolve_allowed _ _ _ _ _ _) as [[ip|e] w1] eqn:Er; [|done].
  destruct (client_build _) as [[]|]; intros; simplify_eq. apply resolve_allowed_vetted in Er as [Hv [Hl|[Hn Hb]]]; left.
  - by rewrite (dial_literal w'' _ target host ip).
  - by rewrite (dial_pinned w'' _ target host).
Qed.

(** The addresses of a hop that ends the loop, and of one that goes on. *)
Definition dials_ok (policy : EgressPolicy) (bound : nat) (dials : list IpAddr) : Prop :=
  Forall (allowed_dial policy) dials /\ (length dials <= bound)%nat.

Lemma dials_ok_nil policy bound : dials_ok policy bound [].
Proof. split; [constructor|simpl; lia]. Qed.
Lemma dials_ok_cons policy bound ip dials :
  allowed_dial policy ip -> dials_ok policy bound dials -> dials_ok policy (S bound) (ip :: dials).
Proof. intros Hv [HF HL]. split; [by constructor|simpl; lia]. Qed.
#[local] Hint Resolve dials_ok_nil dials_ok_cons : umf.

Lemma follow_dials more w url target policy : dials_ok policy (S more) (follow more w url target policy).1.1.
Proof.
  revert w target. induction more as [|more IH]; intros w target; cbn [follow];
    (destruct (vetted_client w url target policy) as [[client|e] w1] eqn:Ev; [|simpl; auto with umf]);
    apply (vetted_client_dials _ _ _ _ _ _ w1) in Ev;
    (destruct (send w1 client target) as [[resp|e] w2]; [|simpl; auto with umf]);
    (destruct (is_redirection (resp_status resp)); [|destruct (is_success (resp_status resp)); simpl; auto with umf]);
    [simpl; auto with umf|].
  destruct (resp_location resp); [|simpl; auto with umf]. destruct (url_join target _) as [next|e]; [|simpl; auto with umf].
  specialize (IH w2 next). destruct (follow more w2 url next policy) as [[ds r] w3]. simpl in *. auto with umf.
Qed.
End laws.

Section body.
Context {N : Net}.

(** The bytes of the chunks [i], [i + 1], ... up to the end of the response. *)
Inductive body_from (r : Response) : nat -> str -> Prop :=
| body_end i : resp_chunk r i = Ok None -> body_from r i []
| body_chunk i chunk rest :
    resp_chunk r i = Ok (Some chunk) -> body_from r (S i) rest -> body_from r i (chunk ++ rest).

Lemma read_body_sound cap fuel w url r i total file payload :
  total = Z.of_nat (length file) -> total <= cap ->
  read_body cap fuel w url r i total file = Val (Ok payload) ->
  exists rest, payload = file ++ rest /\ body_from r i rest /\ Z.of_nat (length payload) <= cap.
Proof.
  revert i total file. induction fuel as [|fuel IH]; intros i total file Ht Hc; [done|]. cbn [read_body].
  destruct (resp_chunk r i) as [[chunk|]|e] eqn:E; [| |done].
  - destruct (Z.ltb_spec cap (total + Z.of_nat (length chunk))) as [|Hle]; [done|].
    destruct (temp_io w (IoOp_Write chunk)); [|done]. intros H.
    apply IH in H as (rest & -> & Hb & Hl); [|rewrite length_app; lia|lia].
    exists (chunk ++ rest). rewrite app_assoc. split_and!; [done|by constructor|done].
  - destruct (temp_io w IoOp_Flush); [|done]. intros; simplify_eq/=. exists []. rewrite app_nil_r.
    split_and!; [done|by constructor|lia].
Qed.

(** With as much fuel as bytes are left under the ceiling, the loop ends. *)
Lemma read_body_returns cap fuel w url r i total file :
  chunks_flow r -> cap - total < Z.of_nat fuel -> total <= cap ->
  exists x, read_body cap fuel w url r i total file = Val x.
Proof.
  intros Hf. revert i total file. induction fuel as [|fuel IH]; intros i total file Hc Ht; [lia|]. cbn [read_body].
  destruct (resp_chunk r i) as [[chunk|]|e] eqn:E; [|eauto|eauto].
  destruct (Z.ltb_spec cap (total + Z.of_nat (length chunk))) as [|Hle]; [eauto|].
  destruct (temp_io w (IoOp_Write chunk)); [|eauto]. apply IH; [|lia]. apply Hf in E. destruct chunk; [done|]. simpl; lia.
Qed.
End body.

Section results.
Context {N : Net}.

(** [answered policy w target resp w']: the request for [target], made in the
    world [w] over a vetted client, is answered by [resp], directly or at the end
    of the redirects the answers name. *)
Inductive answered (policy : EgressPolicy) (url : str) : World -> Url -> Response -> World -> Prop :=
| answered_directly w target client w1 resp w2 :
    vetted_client w url target policy = (Ok client, w1) -> send w1 client target = (Ok resp, w2) ->
    is_redirection (resp_status resp) = false -> answered policy url w target resp w2
| answered_redirect w target client w1 moved w2 location next resp w3 :
    vetted_client w url target policy = (Ok client, w1) -> send w1 client target = (Ok moved, w2) ->
    is_redirection (resp_status moved) = true -> resp_location moved = Some location ->
    url_join target location = Ok next -> answered policy url w2 next resp w3 -> answered policy url w target resp w3.

Lemma answered_sent policy url w target resp w' :
  answered policy url w target resp w' -> exists w0 client next, send w0 client next = (Ok resp, w').
Proof. induction 1; eauto. Qed.

(** The response a fetch ends with is a success, and the answer to its URL. *)
Lemma follow_response more w url target policy dials resp w' :
  follow more w url target policy = (dials, Ok resp, w') ->
  is_success (resp_status resp) = true /\ answered policy url w target resp w'.
Proof.
  revert w target dials. induction more as [|more IH]; intros w target dials; cbn [follow];
    (destruct (vetted_client w url target policy) as [[client|e] w1] eqn:Ev; [|done]);
    (destruct (send w1 client target) as [[r|e] w2] eqn:Es; [|done]);
    (destruct (is_redirection (resp_status r)) eqn:Er;
     [|destruct (is_success (resp_status r)) eqn:?; intros; simplify_eq; eauto using answered_directly]); [done|].
  destruct (resp_location r) as [location|] eqn:El; [|done]. destruct (url_join target _) as [next|e] eqn:Ej; [|done].
  destruct (follow more w2 url next policy) as [[ds r'] w3] eqn:Ef. intros; simplify_eq.
  apply IH in Ef as [Hs Ha]. eauto using answered_redirect.
Qed.

(** The payload of a download of [url]: the whole body of the response that
    answers it, a success, within the ceiling and under its digest. *)
Definition payload_ok (policy : EgressPolicy) (w : World) (url : str) (f : FetchedUrl) : Prop :=
  fetched_digest f = sha256_digest hash_hex (fetched_payload f)
  /\ Z.of_nat (length (fetched_payload f)) <= MAX_URL_FETCH_BYTES
  /\ exists target resp w', url_parse url = Ok target /\ answered policy url w target resp w'
       /\ is_success (resp_status resp) = true /\ body_from resp 0 (fetched_payload f).

Lemma fetch_url_payload fuel policy w url f :
  (fetch_url fuel policy w url).2 = Val (Ok f) -> payload_ok policy w url f.
Proof.
  unfold fetch_url. destruct (url_parse url) as [target|e] eqn:Eu; [|done].
  destruct (follow MAX_REDIRECTS w url target policy) as [[dials r] w1] eqn:Ef. cbn [snd].
  destruct r as [resp|e]; [|done]. apply follow_response in Ef as [Hs Ha].
  destruct (temp_io w1 IoOp_New); [|done]. intros H. apply bind_Val in H as (x & Hr & H). destruct x as [payload|e]; simplify_eq/=.
  apply read_body_sound in Hr as (rest & -> & Hb & Hl); [|done|unfold MAX_URL_FETCH_BYTES; lia].
  split_and!; [done|done|]. cbn [fetched_payload app]. eauto 10.
Qed.

(** The bytes under the ceiling, one more than a chunk each can take. *)
Definition enough_fuel : nat := S (Z.to_nat MAX_URL_FETCH_BYTES).

Lemma fetch_url_returns policy w url :
  (forall w client target resp w', send w client target = (Ok resp, w') -> chunks_flow resp) ->
  exists r, (fetch_url enough_fuel policy w url).2 = Val r.
Proof.
  intros Hf. unfold fetch_url. destruct (url_parse url) as [target|e]; [|eauto].
  destruct (follow MAX_REDIRECTS w url target policy) as [[dials r] w1] eqn:Ef. cbn [snd].
  destruct r as [resp|e]; [|eauto]. destruct (temp_io w1 IoOp_New); [|eauto].
  apply follow_response in Ef as [_ (w0 & client & next & Hs)%answered_sent].
  edestruct (read_body_returns MAX_URL_FETCH_BYTES enough_fuel w1 url resp 0 0 []) as [x Hx];
    [by eapply Hf|unfold enough_fuel; lia|unfold MAX_URL_FETCH_BYTES; lia|]. rewrite Hx. eauto.
Qed.

(** A name in brackets is never fetched: an IPv6 literal is not read as one. *)
Lemma bracketed_not_literal (h : str) : starts_with "[" h = true -> IpAddr_from_str h = None.
Proof.
  destruct h as [|c h]; [done|]. unfold starts_with. cbn [bytes_of strip_prefix String.list_ascii_of_string].
  destruct (Ascii.eqb_spec "[" c); [|done]. subst. by intros _.
Qed.
End results.

(** ** The downloads of a build *)

Section prefetch.
Context {N : Net}.

(** [fetch_url] as the downloads of a build use it, each URL once, in the world
    of its moment. *)
Definition fetch_at (policy : EgressPolicy) (world_of : str -> World) (url : str) : result EngineBuildError FetchedUrl :=
  match (fetch_url enough_fuel policy (world_of url) url).2 with
  | Val r => r
  | _ => Err (Io [])
  end.

Lemma fetch_at_payload policy world_of url f : fetch_at policy world_of url = Ok f -> payload_ok policy (world_of url) url f.
Proof.
  unfold fetch_at. destruct (fetch_url enough_fuel policy (world_of url) url).2 as [r| |] eqn:E; [|done..].
  intros ->. by apply fetch_url_payload in E.
Qed.

Lemma prefetch_stage_payloads policy world_of build_args ds args m m' :
  map_Forall (fun url => payload_ok policy (world_of url) url) m ->
  prefetch_stage (fetch_at policy world_of) build_args ds args m = Ok m' ->
  map_Forall (fun url => payload_ok policy (world_of url) url) m'.
Proof.
  revert args m. induction ds as [|d ds IH]; intros args m Hm; cbn [prefetch_stage]; [by intros; simplify_eq|].
  destruct d; try (by apply IH). destruct (if add_plain_copy _ then _ else _) as [[]|]; try (by apply IH).
  destruct (m !! _); [by apply IH|]. intros H. apply bind_Ok in H as (f & Hf & H). apply fetch_at_payload in Hf.
  revert H. apply IH. by apply map_Forall_insert_2.
Qed.
End prefetch.

(** ** Properties *)

(** C5 (safety): a fetch makes at most eleven connections, and where the
    environment configures no HTTP proxy each goes to an address outside every
    range the policy denies, whatever names resolve to at each hop and wherever
    redirects point; with a proxy, each goes to such an address or to the proxy.
    What the fetch returns is the whole body of the successful response that
    answers its URL, directly or at the end of the redirects, within the ceiling
    and under its digest. *)
Theorem fetch_only_vetted {N : Net} {L : NetLaws N} fuel policy w url dials r :
  fetch_url fuel policy w url = (dials, r) ->
  ((forall target, proxy_for target = None) -> Forall (vetted policy) dials)
  /\ Forall (allowed_dial policy) dials /\ (length dials <= MAX_REDIRECTS + 1)%nat
  /\ forall f, r = Val (Ok f) -> payload_ok policy w url f.
Proof.
  intros H. assert (Hd : dials_ok policy (S MAX_REDIRECTS) dials).
  { revert H. unfold fetch_url. destruct (url_parse url) as [target|e]; [|intros; simplify_eq; apply dials_ok_nil].
    pose proof (follow_dials MAX_REDIRECTS w url target policy) as HF.
    destruct (follow MAX_REDIRECTS w url target policy) as [[ds r'] w']. by intros; simplify_eq. }
  destruct Hd as [HF HL]. split_and!; [|done|lia|].
  { intros HP. eapply Forall_impl; [exact HF|]. intros ip [HV|[t Ht]]; [done|]. by rewrite HP in Ht. }
  intros f ->. apply (fetch_url_payload fuel policy w url). by rewrite H.
Qed.

(** A fetch ends, in a payload or an error, even when the
    server's response never does, as long as its chunks are not empty. *)
Theorem fetch_ends {N : Net} policy w url :
  (forall w client target resp w', send w client target = (Ok resp, w') -> chunks_flow resp) ->
  exists r, (fetch_url enough_fuel policy w url).2 = Val r.
Proof. apply fetch_url_returns. Qed.

(** Every payload the preparation of a build stages is the body of a
    successful response within the ceiling, and its digest, which the layer
    cache is keyed on, is the hash of its bytes. *)
Theorem prefetched_payloads {N : Net} policy world_of build_args ss globals m :
  prefetch (fetch_at policy world_of) build_args ss globals ∅ = Ok m ->
  map_Forall (fun url => payload_ok policy (world_of url) url) m.
Proof.
  assert (HE : map_Forall (fun url => payload_ok policy (world_of url) url) (∅ : gmap str FetchedUrl)) by apply map_Forall_empty.
  revert HE. generalize (∅ : gmap str FetchedUrl). induction ss as [|s ss IH]; intros m0 H0; cbn [prefetch]; [by intros; simplify_eq|].
  intros H. apply bind_Ok in H as (m1 & H1 & H). apply prefetch_stage_payloads in H1; [|done]. by apply (IH m1).
Qed.

(** ** A network *)

(** [a.test] redirects to [rebind.test], which resolves to a public address
    and to the metadata address; [meta.test] resolves to the latter only. *)
Module ModelNet.

Definition public : IpAddr := IpAddr_V4 (v4 93 184 216 34).
Definition metadata : IpAddr := IpAddr_V4 (v4 169 254 169 254).
Definition answers (host : str) : result str (list IpAddr) :=
  if starts_with "[" host then Err ("unknown name" : str)
  else if bool_decide (host = "a.test") then Ok [public]
  else if bool_decide (host = "rebind.test") then Ok [metadata; public]
  else if bool_decide (host = "meta.test") then Ok [metadata]
  else Err ("unknown name" : str).
Definition page (target : str) : Response :=
  if bool_decide (target = "https://a.test")
  then {| resp_status := 302; resp_location := Some (bytes_of "https://rebind.test"); resp_chunk := fun _ => Ok None |}
  else {| resp_status := 200; resp_location := None;
          resp_chunk := fun i => match i with O => Ok (Some (bytes_of "body")) | _ => Ok None end |}.

(** A URL is [https://] and its host. *)
Definition net : Net := {|
  Url := str; World := nat;
  url_parse := Ok; url_join := fun _ l => Ok l; url_text := fun u => u;
  host_str := strip_prefix "https://";
  port_or_known_default := fun _ => None; ip_text := fun _ => []; status_text := fun n => to_decimal (Z.to_N n);
  is_redirection := fun n => (300 <=? n) && (n <? 400); is_success := fun n => (200 <=? n) && (n <? 300);
  hash_hex := fun s => s;
  lookup_host := fun w host _ => (answers host, S w);
  client_build := fun _ => Ok tt;
  send := fun w _ target => (Ok (page target), S w);
  dial := fun _ client target =>
    match strip_prefix "https://" target with
    | Some host => match IpAddr_from_str host with Some ip => ip | None => client_addr client end
    | None => client_addr client
    end;
  proxy_for := fun _ => None;
  temp_io := fun _ _ => Ok tt
|}.

Definition stage : Stage :=
  {| stage_from := {| from_source := FromSource_Scratch; from_span := mkSpan 0 0 |}; stage_name := None;
     stage_directives :=
       [Directive_Add {| add_source := AddSource_Url (Model.spanned {| url_raw := "https://a.test"; authority_start := 8; https := true |});
                         add_destination := Model.spanned {| RecipePath_0 := "/y" |}; add_from := None;
                         add_plain_copy := false; add_span := mkSpan 0 0 |}];
     stage_span := mkSpan 0 0 |}.
Definition fetched : FetchedUrl := {| fetched_digest := "sha256:body"; fetched_payload := "body" |}.

Lemma answers_valid host ips : answers host = Ok ips -> Forall ip_valid ips.
Proof.
  unfold answers. repeat case_match; intros; simplify_eq; repeat constructor; cbv; done.
Qed.

Definition laws : NetLaws net.
Proof.
  split; cbn [net lookup_host host_str dial client_host World Url].
  - intros w host port ips w' H. apply (answers_valid host). congruence.
  - intros w host port H. exists ("unknown name" : str), (S w). unfold answers. by rewrite H.
  - done.
  - intros w client target host ip _ Hh Hi. by rewrite Hh, Hi.
  - intros w client target host _ Hh Hb Hi Hc. by rewrite Hh, Hi.
Defined.
End ModelNet.

Lemma fetch_only_vetted_witness :
  (fetch_url (N:=ModelNet.net) 3 EgressPolicy_default 0%nat "https://a.test").1 = [ModelNet.public; ModelNet.public]
  /\ ~ internal AddressCategory_LinkLocal ModelNet.public
  /\ exists f, (fetch_url (N:=ModelNet.net) 3 EgressPolicy_default 0%nat "https://a.test").2 = Val (Ok f) /\ fetched_payload f = "body".
Proof.
  destruct (fetch_only_vetted (N:=ModelNet.net) (L:=ModelNet.laws) 3 EgressPolicy_default 0%nat "https://a.test" _ _ (surjective_pairing _))
    as (HF & _ & _ & _).
  specialize (HF (fun _ => eq_refl)).
  assert (E : (fetch_url (N:=ModelNet.net) 3 EgressPolicy_default 0%nat "https://a.test").1 = [ModelNet.public; ModelNet.public]) by (by vm_compute).
  rewrite E in HF. split_and!; [exact E| |eexists; split; [vm_compute; reflexivity|done]].
  apply Forall_cons in HF as [HV _]. by apply (HV AddressCategory_LinkLocal).
Defined.

Lemma fetch_ends_witness :
  exists r, (fetch_url (N:=ModelNet.net) enough_fuel EgressPolicy_default 0%nat "https://meta.test").2 = Val r.
Proof.
  apply (fetch_ends (N:=ModelNet.net)). intros w client target resp w' H i chunk. injection H as <- _. unfold ModelNet.page.
  case_bool_decide; simpl; [done|]. destruct i; [|done]. intros E. by injection E as <-.
Defined.

Lemma prefetched_payloads_witness :
  exists m f, prefetch (fetch_at (N:=ModelNet.net) EgressPolicy_default (fun _ => 0%nat)) ∅ [ModelNet.stage] ∅ ∅ = Ok m
    /\ m !! ("https://a.test" : str) = Some f /\ payload_ok (N:=ModelNet.net) EgressPolicy_default 0%nat "https://a.test" f.
Proof.
  assert (E : prefetch (fetch_at (N:=ModelNet.net) EgressPolicy_default (fun _ => 0%nat)) ∅ [ModelNet.stage] ∅ ∅
    = Ok {["https://a.test" : str := ModelNet.fetched]}).
  { unfold fetch_at. assert (HF : exists n, enough_fuel = S (S n)) by (exists (pred (Z.to_nat MAX_URL_FETCH_BYTES)); unfold enough_fuel, MAX_URL_FETCH_BYTES; lia).
    destruct HF as [n ->]. vm_compute. reflexivity. }
  exists {["https://a.test" : str := ModelNet.fetched]}, ModelNet.fetched. split_and!; [exact E|by rewrite lookup_singleton_eq|].
  exact (prefetched_payloads (N:=ModelNet.net) _ _ _ _ _ _ E _ _ (lookup_singleton_eq _ _)).
Defined.

(** The same network behind a proxy on the metadata address: the policy is asked
    about the public address, and the connection goes to the proxy. *)
Module ProxyNet.
Definition net : Net := {|
  Url := str; World := nat;
  url_parse := Ok; url_join := fun _ l => Ok l; url_text := fun u => u;
  host_str := strip_prefix "https://";
  port_or_known_default := fun _ => None; ip_text := fun _ => []; status_text := fun n => to_decimal (Z.to_N n);
  is_redirection := fun n => (300 <=? n) && (n <? 400); is_success := fun n => (200 <=? n) && (n <? 300);
  hash_hex := fun s => s;
  lookup_host := fun w host _ => (ModelNet.answers host, S w);
  client_build := fun _ => Ok tt;
  send := fun w _ target => (Ok (ModelNet.page target), S w);
  dial := fun _ _ _ => ModelNet.metadata;
  proxy_for := fun _ => Some ModelNet.metadata;
  temp_io := fun _ _ => Ok tt
|}.
Definition laws : NetLaws net.
Proof.
  split; cbn [net lookup_host host_str dial client_host World Url proxy_for].
  - intros w host port ips w' H. apply (ModelNet.answers_valid host). congruence.
  - intros w host port H. exists ("unknown name" : str), (S w). unfold ModelNet.answers. by rewrite H.
  - congruence.
  - done.
  - done.
Defined.

Example proxied_unvetted :
  (fetch_url (N:=net) 3 EgressPolicy_default 0%nat "https://a.test").1 = [ModelNet.metadata; ModelNet.metadata]
  /\ check EgressPolicy_default ModelNet.metadata <> Ok tt.
Proof. split; by vm_compute. Qed.
End ProxyNet.

(** The names that resolve inside are refused. *)
Example internal_refused :
  fetch_url (N:=ModelNet.net) 3 EgressPolicy_default 0%nat "https://meta.test"
    = ([], Val (Err (AddUrlEgressDenied "https://meta.test" "https://meta.test" [] "link-local")))
  /\ (fetch_url (N:=ModelNet.net) 3 (with_allowed [AddressCategory_LinkLocal]) 0%nat "https://meta.test").1 = [ModelNet.metadata]
  /\ (fetch_url (N:=ModelNet.net) 3 EgressPolicy_default 0%nat "https://127.0.0.1").1 = [].
Proof. split_and!; by vm_compute. Qed.

(** An IPv6 literal is never fetched, whatever the policy allows: its host has
    brackets, so it is looked up as a name. *)
Lemma ipv6_literals_fail {N : Net} {L : NetLaws N} fuel policy w url target host :
  url_parse url = Ok target -> host_str target = Some host -> starts_with "[" host = true ->
  exists detail, fetch_url fuel policy w url = ([], Val (Err (AddUrlFetchFailed url detail))).
Proof.
  intros Hu Hh Hb. unfold fetch_url. rewrite Hu. unfold MAX_REDIRECTS. cbn [follow]. unfold vetted_client, resolve_allowed.
  rewrite Hh, (bracketed_not_literal _ Hb). destruct (lookup_brackets w host (default 443 (port_or_known_default target)) Hb) as (e & w' & E).
  rewrite E. eauto.
Qed.
