(* ===== verification/Cpio.v ===== *)
(** * Cpio: the initramfs archive writer
    (crates/umf-builder/src/initrd/cpio_newc.rs), and a reader of the format.

    A path of an entry is its text, as [Path::to_string_lossy] gives it. *)

From Stdlib Require Import ZifyBool.
From S2P Require Import Prelude RustStr RustStrFacts Ssrf IpText.
#[local] Open Scope Z_scope.

(** ** The writer *)

Definition NEWC_MAGIC : str := "070701".
Definition S_IFMT : Z := 61440.
Definition S_IFREG : Z := 32768.
Definition S_IFDIR : Z := 16384.
Definition S_IFLNK : Z := 40960.

Inductive CpioKind :=
| CpioKind_File (bytes : str)
| CpioKind_Directory
| CpioKind_Symlink (target : str).

Record CpioEntry := {
  cpio_path : str;
  cpio_kind : CpioKind;
  cpio_mode : Z;
  cpio_uid : Z;
  cpio_gid : Z;
  cpio_mtime : Z
}.

(** [n as u32]. *)
Definition as_u32 (n : nat) : Z := Z.of_nat n mod 2 ^ 32.

Definition hex_digit (n : Z) : ascii :=
  nth (Z.to_nat n) ("0123456789ABCDEF" : str) "0"%char.

(** [format!("{value:08X}")] of a [u32]. *)
Definition push_hex (out : str) (value : Z) : str :=
  out ++ ((fun i => hex_digit (Z.land (Z.shiftr value (4 * i)) 15)) <$> [7; 6; 5; 4; 3; 2; 1; 0]).

Definition pad_to_4 (out : str) : str :=
  out ++ replicate ((4 - length out mod 4) mod 4)%nat nul.

Definition write_header (out : str) (ino mode uid gid nlink mtime filesize namesize : Z) : str :=
  fold_left push_hex [ino; mode; uid; gid; nlink; mtime; filesize; 0; 0; 0; 0; namesize; 0] (out ++ NEWC_MAGIC).

Definition filetype (k : CpioKind) : Z :=
  match k with CpioKind_File _ => S_IFREG | CpioKind_Directory => S_IFDIR | CpioKind_Symlink _ => S_IFLNK end.
Definition kind_payload (k : CpioKind) : str :=
  match k with CpioKind_File bytes => bytes | CpioKind_Directory => [] | CpioKind_Symlink target => target end.
Definition nlink (k : CpioKind) : Z := match k with CpioKind_Directory => 2 | _ => 1 end.
Definition mode_of (e : CpioEntry) : Z :=
  Z.lor (Z.land (filetype (cpio_kind e)) S_IFMT) (Z.land (cpio_mode e) 4095).

Definition write_entry (out : str) (ino : Z) (e : CpioEntry) : str :=
  let name_len_with_nul := (length (cpio_path e) + 1)%nat in
  let out := write_header out ino (mode_of e) (cpio_uid e) (cpio_gid e) (nlink (cpio_kind e)) (cpio_mtime e)
               (as_u32 (length (kind_payload (cpio_kind e)))) (as_u32 name_len_with_nul) in
  let out := pad_to_4 (out ++ cpio_path e ++ [nul]) in
  pad_to_4 (out ++ kind_payload (cpio_kind e)).

Definition trailer_name : str := "TRAILER!!!".
Definition write_trailer (out : str) : str :=
  let out := write_header out 0 0 0 0 1 0 0 (as_u32 (length trailer_name + 1)) in
  pad_to_4 (out ++ trailer_name ++ [nul]).

(** The loop of [CpioWriter::finish], from the i-th entry on. *)
Fixpoint write_entries (out : str) (i : nat) (entries : list CpioEntry) : str :=
  match entries with
  | [] => out
  | e :: entries => write_entries (write_entry out (as_u32 i + 1) e) (S i) entries
  end.
Definition finish (entries : list CpioEntry) : str := write_trailer (write_entries [] 0 entries).

(** ** A reader of the format

    It follows the layout of the documentation: a header of 110 bytes, the name
    and its NUL, padding, the data, padding, until the trailer. *)

Record Node := { node_fields : list Z; node_name : str; node_data : str }.

Fixpoint hex_value (acc : Z) (s : str) : option Z :=
  match s with
  | [] => Some acc
  | c :: s => d ← to_digit 16 c; hex_value (acc * 16 + d) s
  end.

Definition take_exact (n : nat) : reader str := fun s =>
  if (length s <? n)%nat then None else Some (take n s, drop n s).
Fixpoint read_fields (n : nat) : reader (list Z) := fun s =>
  match n with
  | O => Some ([], s)
  | S n => '(text, s) ← take_exact 8 s; v ← hex_value 0 text; '(vs, s) ← read_fields n s; Some (v :: vs, s)
  end.
Definition padding (n : nat) : nat := ((4 - n mod 4) mod 4)%nat.

Definition read_node : reader Node := fun s =>
  '(magic, s) ← take_exact 6 s;
  if bool_decide (magic = NEWC_MAGIC) then
    '(fields, s) ← read_fields 13 s;
    filesize ← fields !! 6%nat;
    namesize ← fields !! 11%nat;
    '(name, s) ← take_exact (Z.to_nat namesize) s;
    '(_, s) ← take_exact (padding (110 + Z.to_nat namesize)) s;
    '(data, s) ← take_exact (Z.to_nat filesize) s;
    '(_, s) ← take_exact (padding (Z.to_nat filesize)) s;
    if bool_decide (last name = Some nul) then
      Some ({| node_fields := take 6 fields; node_name := take (length name - 1) name; node_data := data |}, s)
    else None
  else None.

Fixpoint read_nodes (fuel : nat) (s : str) : option (list Node) :=
  match fuel with
  | O => None
  | S fuel =>
      '(n, s) ← read_node s;
      if bool_decide (node_name n = trailer_name) then Some []
      else ns ← read_nodes fuel s; Some (n :: ns)
  end.
(** As much fuel as bytes: an entry has at least 110. *)
Definition unpack (archive : str) : option (list Node) := read_nodes (length archive) archive.

(** ** Hexadecimal fields *)

Definition u32 (v : Z) : Prop := 0 <= v < 2 ^ 32.

Lemma hex_digit_value n : 0 <= n < 16 -> to_digit 16 (hex_digit n) = Some n.
Proof.
  intros Hn. assert (HF : forallb (fun k => bool_decide (to_digit 16 (hex_digit (Z.of_nat k)) = Some (Z.of_nat k))) (seq 0 16) = true)
    by (vm_compute; reflexivity).
  rewrite forallb_forall in HF. specialize (HF (Z.to_nat n)). rewrite in_seq, Z2Nat.id in HF by lia.
  apply bool_decide_eq_true in HF; [done|lia].
Qed.

Definition hex8 (v : Z) : str := push_hex [] v.

Lemma push_hex_app out v : push_hex out v = out ++ hex8 v.
Proof. done. Qed.

Lemma nibble_value v i acc s : 0 <= i ->
  hex_value acc (hex_digit (Z.land (Z.shiftr v (4 * i)) 15) :: s) = hex_value (acc * 16 + v / 16 ^ i mod 16) s.
Proof.
  intros Hi. cbn [hex_value]. change 15 with (Z.ones 4). rewrite Z.land_ones, Z.shiftr_div_pow2 by lia.
  rewrite hex_digit_value by (apply Z.mod_pos_bound; lia). cbn [mbind option_bind].
  rewrite (Z.pow_mul_r 2 4 i) by lia. done.
Qed.

Lemma hex_step v i acc : 0 <= i -> acc = v / 16 ^ (i + 1) -> acc * 16 + v / 16 ^ i mod 16 = v / 16 ^ i.
Proof.
  intros Hi ->. rewrite Z.pow_add_r, <- Z.div_div by lia. change (16 ^ 1) with 16.
  pose proof (Z.div_mod (v / 16 ^ i) 16 ltac:(lia)). lia.
Qed.

Lemma hex8_value v : u32 v -> hex_value 0 (hex8 v) = Some v.
Proof.
  intros Hv. unfold hex8, push_hex. cbn [app fmap list_fmap].
  assert (H8 : 0 = v / 16 ^ (7 + 1)).
  { symmetry. apply Z.div_small. unfold u32 in Hv. lia. }
  rewrite (nibble_value v 7), (hex_step v 7) by (try exact H8; lia).
  rewrite (nibble_value v 6), (hex_step v 6) by (try reflexivity; lia).
  rewrite (nibble_value v 5), (hex_step v 5) by (try reflexivity; lia).
  rewrite (nibble_value v 4), (hex_step v 4) by (try reflexivity; lia).
  rewrite (nibble_value v 3), (hex_step v 3) by (try reflexivity; lia).
  rewrite (nibble_value v 2), (hex_step v 2) by (try reflexivity; lia).
  rewrite (nibble_value v 1), (hex_step v 1) by (try reflexivity; lia).
  rewrite (nibble_value v 0), (hex_step v 0) by (try reflexivity; lia).
  cbn [hex_value]. by rewrite Z.div_1_r.
Qed.

(** ** Reading back what was written *)

Lemma take_exact_app (a b : str) : take_exact (length a) (a ++ b) = Some (a, b).
Proof.
  unfold take_exact. rewrite length_app. destruct (Nat.ltb_spec (length a + length b) (length a)); [lia|].
  by rewrite take_app_length, drop_app_length.
Qed.
Lemma take_exact_eq n (a b : str) : n = length a -> take_exact n (a ++ b) = Some (a, b).
Proof. intros ->. apply take_exact_app. Qed.

Definition fields_text (fields : list Z) : str := concat (hex8 <$> fields).

Lemma fold_push_hex fields out : fold_left push_hex fields out = out ++ fields_text fields.
Proof.
  revert out. induction fields as [|v fields IH]; intros out; cbn [fold_left]; [by rewrite app_nil_r|].
  rewrite IH, push_hex_app, <- app_assoc. done.
Qed.

Lemma read_fields_text fields rest : Forall u32 fields ->
  read_fields (length fields) (fields_text fields ++ rest) = Some (fields, rest).
Proof.
  intros HF. induction HF as [|v fields Hv _ IH]; [done|]. cbn [length read_fields].
  unfold fields_text. cbn [fmap list_fmap concat]. rewrite <- app_assoc.
  rewrite (take_exact_eq 8 (hex8 v)) by done. cbn [mbind option_bind]. rewrite hex8_value by done. cbn [mbind option_bind].
  change (concat (hex8 <$> fields)) with (fields_text fields). by rewrite IH.
Qed.

Lemma fields_text_length fields : length (fields_text fields) = (8 * length fields)%nat.
Proof.
  unfold fields_text. induction fields as [|v fields IH]; [done|]. cbn [fmap list_fmap concat length].
  rewrite length_app, IH. change (length (hex8 v)) with 8%nat. lia.
Qed.

(** The bytes of one entry. *)
Definition node_bytes (fields : list Z) (name data : str) : str :=
  NEWC_MAGIC ++ fields_text (fields ++ [as_u32 (length data); 0; 0; 0; 0; as_u32 (length name + 1); 0])
  ++ name ++ [nul] ++ replicate (padding (110 + (length name + 1))) nul ++ data ++ replicate (padding (length data)) nul.

Lemma padding_add a b : (a mod 4 = 0)%nat -> padding (a + b) = padding b.
Proof.
  intros Ha. unfold padding. apply Nat.Div0.mod_divides in Ha as [q ->]. do 2 f_equal.
  rewrite (Nat.add_comm (4 * q)), (Nat.mul_comm 4). by rewrite Nat.Div0.mod_add.
Qed.
Lemma padded_length n : ((n + padding n) mod 4 = 0)%nat.
Proof.
  unfold padding. pose proof (Nat.div_mod n 4 ltac:(lia)) as E. pose proof (Nat.mod_upper_bound n 4 ltac:(lia)).
  rewrite Nat.Div0.add_mod. destruct (n mod 4)%nat as [|[|[|[|r]]]]; [done..|lia].
Qed.

Lemma node_bytes_length fields name data : length fields = 6%nat -> (length (node_bytes fields name data) mod 4 = 0)%nat.
Proof.
  intros HL. unfold node_bytes. rewrite !length_app, fields_text_length, !length_replicate, length_app, HL.
  change (length NEWC_MAGIC) with 6%nat. cbn [length].
  set (n := length name). set (d := length data).
  replace (6 + (8 * (6 + 7) + (n + (1 + (padding (110 + (n + 1)) + (d + padding d))))))%nat
    with ((110 + (n + 1) + padding (110 + (n + 1))) + (d + padding d))%nat by lia.
  rewrite Nat.Div0.add_mod, !padded_length. done.
Qed.

Lemma write_header_text out fields filesize namesize : length fields = 6%nat ->
  match fields with
  | [ino; mode; uid; gid; nl; mtime] => write_header out ino mode uid gid nl mtime filesize namesize
  | _ => []
  end = out ++ NEWC_MAGIC ++ fields_text (fields ++ [filesize; 0; 0; 0; 0; namesize; 0]).
Proof.
  destruct fields as [|ino [|mode [|uid [|gid [|nl [|mtime [|]]]]]]]; try done. intros _. unfold write_header.
  by rewrite fold_push_hex, <- app_assoc.
Qed.

Definition entry_fields (ino : Z) (e : CpioEntry) : list Z :=
  [ino; mode_of e; cpio_uid e; cpio_gid e; nlink (cpio_kind e); cpio_mtime e].

Lemma pad_to_4_eq out : pad_to_4 out = out ++ replicate (padding (length out)) nul.
Proof. done. Qed.

(** Both padded writes, after an aligned prefix. *)
Lemma padded_writes out fields name data : (length out mod 4 = 0)%nat -> length fields = 6%nat ->
  pad_to_4 (pad_to_4 ((out ++ NEWC_MAGIC ++ fields_text (fields ++ [as_u32 (length data); 0; 0; 0; 0; as_u32 (length name + 1); 0]))
                      ++ name ++ [nul]) ++ data)
  = out ++ node_bytes fields name data.
Proof.
  intros Ho Hf. rewrite !pad_to_4_eq. unfold node_bytes.
  set (text := fields_text _). assert (HT : length text = 104%nat).
  { unfold text. rewrite fields_text_length, length_app, Hf. done. }
  set (h := ((out ++ NEWC_MAGIC ++ text) ++ name ++ [nul])).
  assert (HH : length h = (length out + (110 + (length name + 1)))%nat).
  { unfold h. rewrite !length_app, HT. change (length NEWC_MAGIC) with 6%nat. cbn [length]. lia. }
  rewrite HH, padding_add by done.
  assert (HD : padding (length ((h ++ replicate (padding (110 + (length name + 1))) nul) ++ data)) = padding (length data)).
  { rewrite length_app. apply padding_add. rewrite length_app, length_replicate, HH, <- Nat.add_assoc, Nat.Div0.add_mod, Ho, padded_length.
    done. }
  rewrite HD. unfold h. by rewrite <- !app_assoc.
Qed.

Lemma write_entry_bytes out ino e : (length out mod 4 = 0)%nat ->
  write_entry out ino e = out ++ node_bytes (entry_fields ino e) (cpio_path e) (kind_payload (cpio_kind e)).
Proof.
  intros Ho. unfold write_entry. cbv zeta.
  pose proof (write_header_text out (entry_fields ino e) (as_u32 (length (kind_payload (cpio_kind e)))) (as_u32 (length (cpio_path e) + 1)) eq_refl) as HW.
  cbn [entry_fields] in HW. rewrite HW. by apply padded_writes.
Qed.

Lemma write_trailer_bytes out : (length out mod 4 = 0)%nat ->
  write_trailer out = out ++ node_bytes [0; 0; 0; 0; 1; 0] trailer_name [].
Proof.
  intros Ho. rewrite <- padded_writes by done. rewrite app_nil_r, (pad_to_4_eq (pad_to_4 _)).
  set (p := pad_to_4 _). assert (HP : (length p mod 4 = 0)%nat).
  { unfold p. rewrite pad_to_4_eq, length_app, length_replicate. apply padded_length. }
  assert (Hz : padding (length p) = 0%nat) by (unfold padding; by rewrite HP). rewrite Hz, app_nil_r. unfold p, write_trailer.
  f_equal. f_equal. exact (write_header_text out [0; 0; 0; 0; 1; 0] 0 (as_u32 (length trailer_name + 1)) eq_refl).
Qed.

(** Sizes that fit the fields. *)
Definition sizes_ok (name data : str) : Prop := Z.of_nat (length name) + 1 < 2 ^ 32 /\ Z.of_nat (length data) < 2 ^ 32.

Lemma as_u32_small n : Z.of_nat n < 2 ^ 32 -> Z.to_nat (as_u32 n) = n.
Proof. intros Hn. unfold as_u32. rewrite Z.mod_small by lia. lia. Qed.
Lemma as_u32_range n : u32 (as_u32 n).
Proof. unfold u32, as_u32. apply Z.mod_pos_bound. lia. Qed.

Lemma read_node_bytes fields name data rest :
  Forall u32 fields -> length fields = 6%nat -> sizes_ok name data ->
  read_node (node_bytes fields name data ++ rest)
  = Some ({| node_fields := fields; node_name := name; node_data := data |}, rest).
Proof.
  intros HF HL [Hn Hd]. unfold read_node, node_bytes. rewrite <- !app_assoc. rewrite (take_exact_eq 6 NEWC_MAGIC) by done.
  cbn [mbind option_bind]. rewrite bool_decide_eq_true_2 by done.
  set (all := fields ++ [as_u32 (length data); 0; 0; 0; 0; as_u32 (length name + 1); 0]).
  assert (HA : Forall u32 all).
  { apply Forall_app_2; [done|]. pose proof (as_u32_range (length data)). pose proof (as_u32_range (length name + 1)).
    assert (u32 0) by (unfold u32; lia).
    repeat (apply Forall_cons_2; [done|]). apply Forall_nil_2. }
  assert (HN : length all = 13%nat) by (unfold all; rewrite length_app, HL; done).
  rewrite <- HN, read_fields_text by done. cbn [mbind option_bind].
  assert (H6 : all !! 6%nat = Some (as_u32 (length data))) by (unfold all; rewrite lookup_app_r by lia; by rewrite HL).
  assert (H11 : all !! 11%nat = Some (as_u32 (length name + 1))) by (unfold all; rewrite lookup_app_r by lia; by rewrite HL).
  rewrite H6, H11. cbn [mbind option_bind]. rewrite !as_u32_small by lia.
  rewrite (app_assoc name [nul]), (take_exact_eq (length name + 1) (name ++ [nul])) by (rewrite length_app; done).
  cbn [mbind option_bind]. rewrite (take_exact_eq _ (replicate _ nul)) by (by rewrite length_replicate). cbn [mbind option_bind].
  rewrite (take_exact_eq (length data) data) by done. cbn [mbind option_bind].
  rewrite (take_exact_eq _ (replicate _ nul)) by (by rewrite length_replicate). cbn [mbind option_bind].
  rewrite last_snoc, bool_decide_eq_true_2 by done. rewrite length_app, take_app_length' by (cbn [length]; lia).
  unfold all. by rewrite <- HL, take_app_length.
Qed.

(** What the archive holds of an entry. *)
Definition node_of (i : nat) (e : CpioEntry) : Node :=
  {| node_fields := entry_fields (as_u32 i + 1) e; node_name := cpio_path e; node_data := kind_payload (cpio_kind e) |}.

Record entry_ok (e : CpioEntry) : Prop := {
  ok_sizes : sizes_ok (cpio_path e) (kind_payload (cpio_kind e));
  ok_name : cpio_path e <> trailer_name;
  ok_uid : u32 (cpio_uid e);
  ok_gid : u32 (cpio_gid e);
  ok_mtime : u32 (cpio_mtime e)
}.

Lemma lor_range a b n : 0 <= n -> 0 <= a < 2 ^ n -> 0 <= b < 2 ^ n -> 0 <= Z.lor a b < 2 ^ n.
Proof.
  intros Hn Ha Hb. assert (H0 : 0 <= Z.lor a b) by (apply Z.lor_nonneg; lia). split; [done|].
  destruct (Z.eq_dec (Z.lor a b) 0) as [->|]; [lia|]. apply Z.log2_lt_pow2; [lia|]. rewrite Z.log2_lor by lia.
  assert (HL : forall x, 0 <= x < 2 ^ n -> x = 0 \/ Z.log2 x < n).
  { intros x Hx. destruct (Z.eq_dec x 0); [by left|right]. apply Z.log2_lt_pow2; lia. }
  destruct (HL a Ha) as [->|La], (HL b Hb) as [->|Lb]; cbn [Z.log2] in *.
  - by rewrite Z.lor_0_l in *.
  - pose proof (Z.log2_nonneg b). lia.
  - pose proof (Z.log2_nonneg a). lia.
  - lia.
Qed.

Lemma mode_range e : u32 (mode_of e).
Proof.
  assert (HR : 0 <= mode_of e < 2 ^ 16).
  { apply lor_range; [lia|destruct (cpio_kind e); done|]. change 4095 with (Z.ones 12). rewrite Z.land_ones by lia.
    pose proof (Z.mod_pos_bound (cpio_mode e) (2 ^ 12) ltac:(lia)). lia. }
  unfold u32. lia.
Qed.

Lemma entry_fields_ok i e : entry_ok e -> Z.of_nat i + 1 < 2 ^ 32 -> Forall u32 (entry_fields (as_u32 i + 1) e).
Proof.
  intros [_ _ Hu Hg Hm] Hi. assert (Hn : u32 (nlink (cpio_kind e))) by (unfold u32; destruct (cpio_kind e); simpl; lia).
  assert (Hino : u32 (as_u32 i + 1)) by (unfold u32, as_u32; rewrite Z.mod_small by lia; lia).
  pose proof (mode_range e). unfold entry_fields. repeat (apply Forall_cons_2; [done|]). apply Forall_nil_2.
Qed.

Lemma read_entries entries out i fuel :
  Forall entry_ok entries -> (length out mod 4 = 0)%nat -> Z.of_nat (i + length entries) < 2 ^ 32 ->
  exists bytes, write_trailer (write_entries out i entries) = out ++ bytes
    /\ (length entries < length bytes)%nat
    /\ ((length entries < fuel)%nat -> read_nodes fuel bytes = Some (imap (fun k => node_of (i + k)) entries)).
Proof.
  intros HF. revert out i fuel. induction HF as [|e entries He _ IH]; intros out i fuel Ho Hi; cbn [write_entries].
  - eexists. split; [by apply write_trailer_bytes|]. split; [by vm_compute; lia|].
    destruct fuel as [|fuel]; [simpl; lia|]. intros _. cbn [read_nodes]. rewrite <- (app_nil_r (node_bytes _ _ _)).
    rewrite read_node_bytes; [|repeat (apply Forall_cons_2; [unfold u32; lia|]); apply Forall_nil_2|done|split; by vm_compute].
    cbn [mbind option_bind node_name]. by rewrite bool_decide_eq_true_2.
  - rewrite write_entry_bytes by done. set (b := node_bytes _ _ _).
    assert (Hb : (length (out ++ b) mod 4 = 0)%nat)
      by (unfold b; rewrite length_app, Nat.Div0.add_mod, Ho, node_bytes_length by done; done).
    cbn [length] in Hi. destruct (IH (out ++ b) (S i) (pred fuel) Hb ltac:(lia)) as (bytes & E & HL & HR).
    exists (b ++ bytes). rewrite app_assoc. split; [done|]. split.
    { rewrite length_app. unfold b, node_bytes. rewrite length_app. change (length NEWC_MAGIC) with 6%nat. cbn [length]. lia. }
    cbn [length]. intros Hfuel. destruct fuel as [|fuel]; [lia|]. cbn [read_nodes pred] in *. unfold b.
    rewrite read_node_bytes; [|apply entry_fields_ok; [done|lia]|done|apply He].
    cbn [mbind option_bind node_name]. rewrite bool_decide_eq_false_2 by apply He. rewrite HR by lia. cbn [mbind option_bind].
    cbn [imap]. f_equal. f_equal; [by rewrite Nat.add_0_r|]. apply imap_ext. intros k x _. cbn. f_equal. lia.
Qed.

Lemma unpack_finish entries :
  Forall entry_ok entries -> Z.of_nat (length entries) < 2 ^ 32 ->
  unpack (finish entries) = Some (imap node_of entries).
Proof.
  intros HF HL. unfold unpack, finish.
  destruct (read_entries entries [] 0 (length (write_trailer (write_entries [] 0 entries))) HF eq_refl HL) as (bytes & E & Hb & HR).
  cbn [app] in E. rewrite E in *. by apply HR.
Qed.

(** C36 (roundtrip): an archive the writer emits is read back as the entries
    pushed, in order, each with its number, type and permission bits, owner and
    time, name and contents; for names other than the trailer's and sizes below
    4 GiB. *)
Theorem cpio_roundtrip entries :
  Forall entry_ok entries -> Z.of_nat (length entries) < 2 ^ 32 ->
  unpack (finish entries) = Some (imap node_of entries).
Proof. apply unpack_finish. Qed.

Definition sample_file : CpioEntry :=
  {| cpio_path := "init"; cpio_kind := CpioKind_File "exec sh"; cpio_mode := 493; cpio_uid := 0; cpio_gid := 0; cpio_mtime := 0 |}.

Lemma cpio_roundtrip_witness :
  Z.of_nat (length (finish [sample_file])) = 248
  /\ option_map (map node_name) (unpack (finish [sample_file])) = Some ["init" : str].
Proof.
  split; [by vm_compute|]. rewrite (cpio_roundtrip [sample_file]); [done| |done].
  apply Forall_cons_2; [|apply Forall_nil_2]. split; [split; by vm_compute|done|split; by vm_compute..].
Defined.
