(* ===== verification/Kernel.v ===== *)
(** * Kernel: finding the kernel of a staging tree
    (crates/umf-builder/src/kernel.rs).

    A path is the list of its components, under the staging directory. *)

From stdpp Require Import sorting.
From S2P Require Import Prelude RustStr RustStrFacts.

Abbreviation path := (list str).

Inductive FileType := FileType_File | FileType_Dir | FileType_Other.
#[export] Instance FileType_eq_dec : EqDecision FileType.
Proof. solve_decision. Defined.

Inductive KernelLayoutError := NoVmlinuz | NoModules (release : str) | KernelIo (e : str).

Record KernelLayout := { release : str; vmlinuz : path; modules : path }.

(** A directory: [None] when the path is none, else its listing. *)
Definition Listings : Type := path -> option (result str (list (str * FileType))).

Section detect.
Context (read_dir : Listings).

(** The names of the entries of a type, sorted. *)
Definition listed_names (t : FileType) (keep : str -> bool) (dir : path) : result str (list str) :=
  match read_dir dir with
  | None => Ok []
  | Some (Err e) => Err e
  | Some (Ok entries) => Ok (sort_strs (filter (fun n => keep n = true) (fst <$> filter (fun e => e.2 = t) entries)))
  end.

Definition collect_module_releases (root : path) : result str (list str) := listed_names FileType_Dir (fun _ => true) root.
Definition collect_vmlinuz (boot : path) : result str (list str) := listed_names FileType_File (starts_with "vmlinuz") boot.

Definition vmlinuz_suffix (name : str) : option str := strip_prefix "vmlinuz-" name.

Definition dir_is_non_empty (dir : path) : result str bool :=
  match read_dir dir with
  | None => Ok false
  | Some (Err e) => Err e
  | Some (Ok entries) => Ok (negb (bool_decide (entries = [])))
  end.

Definition modules_root : path := ["lib" : str; "modules" : str].
Definition layout_of (name r : str) : KernelLayout :=
  {| release := r; vmlinuz := ["boot" : str; name]; modules := modules_root ++ [r] |}.

(** The loop that pairs a kernel image with a release. *)
Fixpoint pair_suffix (releases names : list str) : result KernelLayoutError (option KernelLayout) :=
  match names with
  | [] => Ok None
  | name :: names =>
      match vmlinuz_suffix name with
      | Some suffix =>
          if bool_decide (suffix ∈ releases) then
            nonempty ← map_err KernelIo (dir_is_non_empty (modules_root ++ [suffix]));
            if nonempty : bool then Ok (Some (layout_of name suffix)) else pair_suffix releases names
          else pair_suffix releases names
      | None => pair_suffix releases names
      end
  end.

Definition detect_kernel_layout : result KernelLayoutError KernelLayout :=
  releases ← map_err KernelIo (collect_module_releases modules_root);
  match releases with
  | [] => Err (NoModules "<none>")
  | first_release :: _ =>
      names ← map_err KernelIo (collect_vmlinuz ["boot" : str]);
      match names with
      | [] => Err NoVmlinuz
      | first_name :: _ =>
          found ← pair_suffix releases names;
          match found with
          | Some k => Ok k
          | None =>
              nonempty ← map_err KernelIo (dir_is_non_empty (modules_root ++ [first_release]));
              if nonempty : bool then Ok (layout_of first_name first_release) else Err (NoModules first_release)
          end
      end
  end.
End detect.

(** ** What is found *)

(** An entry of a listing, and a pair the code accepts: the directory of a
    release with something in it, and the kernel image named after it. *)
Definition listed (read_dir : Listings) (dir : path) (name : str) (t : FileType) : Prop :=
  exists entries, read_dir dir = Some (Ok entries) /\ (name, t) ∈ entries.
Definition full_dir (read_dir : Listings) (dir : path) : Prop :=
  exists entries, read_dir dir = Some (Ok entries) /\ entries <> [].
Definition pairs (read_dir : Listings) (name r : str) : Prop :=
  name = "vmlinuz-" ++ r /\ listed read_dir ["boot" : str] name FileType_File
  /\ listed read_dir modules_root r FileType_Dir /\ full_dir read_dir (modules_root ++ [r]).

Section facts.
Context (read_dir : Listings).

Lemma names_of_spec t keep dir l : listed_names read_dir t keep dir = Ok l ->
  StronglySorted str_le l /\ forall n, n ∈ l <-> listed read_dir dir n t /\ keep n = true.
Proof.
  unfold listed_names, listed. destruct (read_dir dir) as [[entries|e]|]; intros; simplify_eq.
  - split; [apply sort_strs_sorted|]. intros n. rewrite sort_strs_Permutation, list_elem_of_filter, list_elem_of_fmap.
    split; [intros (Hk & [n' t'] & -> & [Ht Hin]%list_elem_of_filter)|intros [(es & E & Hin) Hk]]; simplify_eq/=.
    + split; [|done]. eauto.
    + split; [done|]. exists (n, t). split; [done|]. by apply list_elem_of_filter.
  - split; [constructor|]. intros n. split; [by intros ?%elem_of_nil|]. by intros [(es & E & _) _].
Qed.

Lemma dir_is_non_empty_spec dir : dir_is_non_empty read_dir dir = Ok true <-> full_dir read_dir dir.
Proof.
  unfold dir_is_non_empty, full_dir. destruct (read_dir dir) as [[entries|e]|].
  - case_bool_decide; simpl; naive_solver.
  - naive_solver.
  - naive_solver.
Qed.

Lemma pair_suffix_spec releases names found :
  pair_suffix read_dir releases names = Ok found ->
  match found with
  | Some k => exists before name after r, names = before ++ name :: after /\ k = layout_of name r
      /\ name = "vmlinuz-" ++ r /\ r ∈ releases /\ full_dir read_dir (modules_root ++ [r])
      /\ forall m q, m ∈ before -> m = "vmlinuz-" ++ q -> q ∈ releases -> ~ full_dir read_dir (modules_root ++ [q])
  | None => forall m q, m ∈ names -> m = "vmlinuz-" ++ q -> q ∈ releases -> ~ full_dir read_dir (modules_root ++ [q])
  end.
Proof.
  induction names as [|name names IH]; cbn [pair_suffix]; [intros; simplify_eq; by intros m q ?%elem_of_nil|].
  assert (HS : (forall q, name = "vmlinuz-" ++ q -> q ∈ releases -> ~ full_dir read_dir (modules_root ++ [q])) ->
    pair_suffix read_dir releases names = Ok found ->
    match found with
    | Some k => exists before n after r, name :: names = before ++ n :: after /\ k = layout_of n r
        /\ n = "vmlinuz-" ++ r /\ r ∈ releases /\ full_dir read_dir (modules_root ++ [r])
        /\ forall m q, m ∈ before -> m = "vmlinuz-" ++ q -> q ∈ releases -> ~ full_dir read_dir (modules_root ++ [q])
    | None => forall m q, m ∈ name :: names -> m = "vmlinuz-" ++ q -> q ∈ releases -> ~ full_dir read_dir (modules_root ++ [q])
    end).
  { intros Hn H. apply IH in H. destruct found as [k|].
    - destruct H as (before & n & after & r & -> & Hk & Hr & Hin & Hf & Hb). exists (name :: before), n, after, r.
      split_and!; [done..|]. intros m q [->|Hm]%elem_of_cons; [apply Hn|by apply Hb].
    - intros m q [->|Hm]%elem_of_cons; [apply Hn|by apply H]. }
  unfold vmlinuz_suffix. destruct (strip_prefix _ name) as [suffix|] eqn:Es.
  - apply strip_prefix_spec in Es. subst name. assert (HI : forall q, "vmlinuz-" ++ suffix = "vmlinuz-" ++ q -> q = suffix)
      by (intros q E; by apply (inj (app _)) in E). case_bool_decide as Hin.
    + destruct (dir_is_non_empty read_dir (modules_root ++ [suffix])) as [[|]|] eqn:Ed; cbn [map_err mbind result_bind]; intros H;
        [|revert H; apply HS; intros q ->%HI _ Hf; apply dir_is_non_empty_spec in Hf; congruence|done].
      injection H as <-. exists [], ("vmlinuz-" ++ suffix), names, suffix. apply dir_is_non_empty_spec in Ed.
      split_and!; try done. by intros m q ?%elem_of_nil.
    + apply HS. by intros q ->%HI.
  - apply HS. intros q E. assert (HP := proj2 (strip_prefix_spec "vmlinuz-" name q) E). congruence.
Qed.
End facts.

Lemma str_le_refl a : str_le a a.
Proof. by destruct (str_le_total a a). Qed.

(** The element after a prefix is least among what the prefix leaves. *)
Lemma sorted_least before x after (y : str) :
  StronglySorted str_le (before ++ x :: after) -> y ∈ before ++ x :: after -> y ∉ before -> str_le x y.
Proof.
  intros HS Hy Hn. apply StronglySorted_app in HS as (_ & _ & HS). apply StronglySorted_cons in HS as [HF _].
  rewrite Forall_forall in HF. rewrite elem_of_app, elem_of_cons in Hy. destruct Hy as [?|[->|Hy]]; [done|apply str_le_refl|by apply HF].
Qed.

(** The kernel found is a pair of an image named after a
    release and that release's non-empty module directory, the first such image
    in the order of names, if there is one; else the first image and the first
    release. *)
Theorem detect_kernel_layout_exact (read_dir : Listings) k :
  detect_kernel_layout read_dir = Ok k ->
  exists name r, k = layout_of name r
    /\ listed read_dir ["boot" : str] name FileType_File /\ starts_with "vmlinuz" name = true
    /\ listed read_dir modules_root r FileType_Dir /\ full_dir read_dir (modules_root ++ [r])
    /\ ((pairs read_dir name r /\ forall m q, pairs read_dir m q -> str_le name m)
        \/ ((forall m q, ~ pairs read_dir m q)
            /\ (forall m, listed read_dir ["boot" : str] m FileType_File -> starts_with "vmlinuz" m = true -> str_le name m)
            /\ forall q, listed read_dir modules_root q FileType_Dir -> str_le r q)).
Proof.
  unfold detect_kernel_layout. intros H. apply bind_Ok in H as (releases & Hr & H). apply map_err_Ok, names_of_spec in Hr as [Sr Hr].
  destruct releases as [|r0 releases]; [done|]. apply bind_Ok in H as (names & Hn & H). apply map_err_Ok, names_of_spec in Hn as [Sn Hn].
  destruct names as [|n0 names]; [done|]. apply bind_Ok in H as (found & Hf & H). apply pair_suffix_spec in Hf.
  assert (HP : forall m q, pairs read_dir m q -> m ∈ n0 :: names /\ m = "vmlinuz-" ++ q /\ q ∈ r0 :: releases
    /\ full_dir read_dir (modules_root ++ [q])).
  { intros m q (-> & Hb & Hm & Hd). split_and!; [apply Hn; by split|done|apply Hr; by split|done]. }
  assert (Least : forall (x y : str) l, StronglySorted str_le (x :: l) -> y ∈ x :: l -> str_le x y)
    by (intros x y l HS Hy; apply (sorted_least [] x l); [done..|apply not_elem_of_nil]).
  destruct found as [k'|].
  - injection H as <-. destruct Hf as (before & name & after & r & E & -> & Enm & Hin & Hfull & Hb). exists name, r.
    assert (Hname : name ∈ n0 :: names) by (rewrite E, elem_of_app, elem_of_cons; tauto).
    apply Hn in Hname as [Hl Hv]. apply Hr in Hin as [Hd _]. split_and!; try done. left. split; [done|].
    intros m q Hp. destruct (HP m q Hp) as (Hm & Em & Hq & Hf). rewrite E in Sn, Hm. apply (sorted_least before name after); [done..|].
    intros Hbm. by apply (Hb m q).
  - apply bind_Ok in H as ([] & Hd & H); [|done]. injection H as <-. apply map_err_Ok, dir_is_non_empty_spec in Hd.
    exists n0, r0. destruct (proj1 (Hn n0) ltac:(by left)) as [Hl Hv]. destruct (proj1 (Hr r0) ltac:(by left)) as [Hlr _].
    split_and!; try done. right. split_and!.
    + intros m q Hp. destruct (HP m q Hp) as (Hm & Em & Hq & Hf'). by apply (Hf m q).
    + intros m Hm Hs. apply (Least n0 m names Sn), Hn. by split.
    + intros q Hq. apply (Least r0 q releases Sr), Hr. by split.
Qed.

(** The order in which directories are listed does not matter. *)
Definition same_listing (a b : option (result str (list (str * FileType)))) : Prop :=
  match a, b with
  | Some (Ok es), Some (Ok es') => es ≡ₚ es'
  | a, b => a = b
  end.

Lemma names_of_perm rd rd' t keep dir :
  same_listing (rd dir) (rd' dir) -> listed_names rd t keep dir = listed_names rd' t keep dir.
Proof.
  unfold same_listing, listed_names. destruct (rd dir) as [[es|e]|], (rd' dir) as [[es'|e']|]; intros H; simplify_eq; try done.
  f_equal. apply sort_strs_perm. by rewrite H.
Qed.

Lemma dir_is_non_empty_perm rd rd' dir :
  same_listing (rd dir) (rd' dir) -> dir_is_non_empty rd dir = dir_is_non_empty rd' dir.
Proof.
  unfold same_listing, dir_is_non_empty. destruct (rd dir) as [[es|e]|], (rd' dir) as [[es'|e']|]; intros H; simplify_eq; try done.
  do 2 f_equal. apply bool_decide_ext. split; intros ->; [by apply Permutation_nil_l in H|by apply Permutation_nil_r in H].
Qed.

(** Which kernel is found does not depend on the order in
    which the file system lists its directories. *)
Theorem detect_kernel_layout_stable (rd rd' : Listings) :
  (forall dir, same_listing (rd dir) (rd' dir)) -> detect_kernel_layout rd = detect_kernel_layout rd'.
Proof.
  intros H. unfold detect_kernel_layout, collect_module_releases, collect_vmlinuz.
  rewrite (names_of_perm rd rd' _ _ modules_root), (names_of_perm rd rd' _ _ ["boot" : str]) by apply H.
  assert (HP : forall rs ns, pair_suffix rd rs ns = pair_suffix rd' rs ns).
  { intros rs ns. induction ns as [|n ns IH]; [done|]. cbn [pair_suffix]. destruct (vmlinuz_suffix n); [|done].
    rewrite (dir_is_non_empty_perm rd rd') by apply H. by rewrite IH. }
  destruct (map_err KernelIo (listed_names rd' FileType_Dir _ _)) as [[|r rs]|]; cbn [mbind result_bind]; try done.
  destruct (map_err KernelIo (listed_names rd' FileType_File _ _)) as [[|n ns]|]; cbn [mbind result_bind]; try done.
  by rewrite HP, (dir_is_non_empty_perm rd rd') by apply H.
Qed.

(** Two releases, two images: the pair wins over the first of each. *)
Definition sample_dirs (flip : bool) : Listings := fun dir =>
  if bool_decide (dir = ["boot" : str]) then
    Some (Ok (if flip then [("vmlinuz" : str, FileType_File); ("vmlinuz-6.6" : str, FileType_File)]
              else [("vmlinuz-6.6" : str, FileType_File); ("vmlinuz" : str, FileType_File)]))
  else if bool_decide (dir = modules_root) then Some (Ok [("6.6" : str, FileType_Dir); ("5.1" : str, FileType_Dir)])
  else if bool_decide (dir = modules_root ++ ["6.6" : str]) then Some (Ok [("kernel" : str, FileType_Dir)])
  else None.

Lemma detect_kernel_layout_exact_witness :
  exists k, detect_kernel_layout (sample_dirs false) = Ok k /\ release k = "6.6"
    /\ full_dir (sample_dirs false) (modules_root ++ [release k]).
Proof.
  exists (layout_of "vmlinuz-6.6" "6.6"). split; [by vm_compute|]. split; [done|].
  destruct (detect_kernel_layout_exact (sample_dirs false) (layout_of "vmlinuz-6.6" "6.6") ltac:(by vm_compute))
    as (name & r & E & _ & _ & _ & Hf & _). replace (release (layout_of "vmlinuz-6.6" "6.6")) with r by (by injection E). exact Hf.
Defined.

Lemma detect_kernel_layout_stable_witness :
  detect_kernel_layout (sample_dirs false) = detect_kernel_layout (sample_dirs true).
Proof.
  apply detect_kernel_layout_stable. intros dir. unfold sample_dirs. repeat case_bool_decide; simpl; try done. apply Permutation_swap.
Defined.
