(* ===== verification/InitrdModules.v ===== *)
(** * InitrdModules: the kernel modules of an initramfs
    (crates/umf-builder/src/initrd.rs: modules_allowlist, collect_modules_for,
    with_dependencies, parse_modules_dep, and the load loop of the init script).

    A module file is the list of the components of its path under the modules
    directory, so its first component is [kernel]. *)

From stdpp Require Import sorting.
From S2P Require Import Prelude RustStr RustStrFacts Kernel.

Inductive InitramfsFlavor := InitramfsFlavor_Boot | InitramfsFlavor_Run.

Definition modules_allowlist (flavor : InitramfsFlavor) : list str :=
  match flavor with
  | InitramfsFlavor_Boot =>
      ["virtio" : str; "virtio_ring" : str; "virtio_pci" : str; "virtio_pci_modern_dev" : str;
       "virtio_blk" : str; "virtio_scsi" : str; "nvme_core" : str; "nvme" : str; "libata" : str;
       "libahci" : str; "ahci" : str; "ata_piix" : str; "ata_generic" : str; "scsi_mod" : str; "sd_mod" : str;
       "mmc_core" : str; "mmc_block" : str; "sdhci" : str; "sdhci_pci" : str; "sdhci_acpi" : str;
       "usb_common" : str; "usbcore" : str; "ehci_hcd" : str; "ehci_pci" : str; "xhci_hcd" : str;
       "xhci_pci" : str; "usb_storage" : str; "squashfs" : str; "ext4" : str; "erofs" : str; "libcrc32c" : str;
       "crc32c" : str; "crc32c_generic" : str; "crc32c_intel" : str]
  | InitramfsFlavor_Run =>
      ["virtio" : str; "virtio_ring" : str; "virtio_pci" : str; "virtio_pci_modern_dev" : str;
       "virtio_blk" : str; "squashfs" : str; "ext4" : str; "erofs" : str; "libcrc32c" : str; "crc32c" : str;
       "crc32c_generic" : str; "crc32c_intel" : str; "9p" : str; "9pnet" : str; "9pnet_virtio" : str;
       "virtio_net" : str]
  end.

(** ** Names *)

Definition module_key (stem : str) : str := (fun c => if Ascii.eqb c "-" then "_"%char else c) <$> stem.

Definition module_stem (filename : str) : str :=
  match strip_suffix ".ko.zst" filename with
  | Some s => s
  | None =>
      match strip_suffix ".ko.xz" filename with
      | Some s => s
      | None =>
          match strip_suffix ".ko.gz" filename with
          | Some s => s
          | None => default filename (strip_suffix ".ko" filename)
          end
      end
  end.

(** [Path::file_name] of a text: the last component, which is neither [.] (left
    out of the components) nor [..]. *)
Definition file_name_of (text : str) : option str :=
  match last (filter (fun c => c <> [] /\ c <> ("." : str)) (split "/" text)) with
  | Some c => if bool_decide (c = "..") then None else Some c
  | None => None
  end.
Definition stem_of (text : str) : option str := (fun n => module_key (module_stem n)) <$> file_name_of text.

(** The order of paths, by components. *)
Fixpoint path_leb (a b : path) : bool :=
  match a, b with
  | [], _ => true
  | _ :: _, [] => false
  | x :: a, y :: b => if bool_decide (x = y) then path_leb a b else str_leb x y
  end.
Definition path_le (a b : path) : Prop := path_leb a b = true.
#[export] Instance path_le_dec : RelDecision path_le.
Proof. intros a b. unfold path_le. apply _. Defined.
Definition sort_paths (l : list path) : list path := merge_sort path_le l.

(** ** Dependencies *)

Definition dep_line (line : str) : option (str * list str) :=
  '(target, rest) ← split_once ":" line;
  target ← stem_of (trim target);
  Some (target, omap stem_of (split_whitespace rest)).

Fixpoint dep_lines (ls : list str) (m : gmap str (list str)) : gmap str (list str) :=
  match ls with
  | [] => m
  | line :: ls => dep_lines ls (match dep_line line with Some (k, v) => <[k := v]> m | None => m end)
  end.

(** [text]: the file [modules.dep], where it can be read. *)
Definition parse_modules_dep (text : option str) : gmap str (list str) :=
  match text with Some t => dep_lines (lines t) ∅ | None => ∅ end.

Definition name_of (p : path) : str := default [] (last p).
Definition key_of (p : path) : str := module_key (module_stem (name_of p)).
Definition is_module (p : path) : bool := negb (bool_decide (module_stem (name_of p) = name_of p)).

(** The modules of the tree by key; the last one of a key wins. *)
Definition on_disk_of (files : list path) : gmap str path :=
  fold_left (fun m p => if is_module p then <[key_of p := p]> m else m) files ∅.

Section closure.
Context (deps : gmap str (list str)) (on_disk : gmap str path).

(** The loop over the queue, whose next element is the head. *)
Fixpoint resolve_loop (fuel : nat) (queue : list str) (resolved : gset path) : outcome (gset path) :=
  match queue with
  | [] => Val resolved
  | stem :: queue =>
      match fuel with
      | O => OutOfFuel
      | S fuel =>
          match on_disk !! stem with
          | None => resolve_loop fuel queue resolved
          | Some p =>
              if bool_decide (p ∈ resolved) then resolve_loop fuel queue resolved
              else
                let needed := default [] (deps !! stem) in
                resolve_loop fuel (rev needed ++ queue) ({[p]} ∪ resolved)
          end
      end
  end.
End closure.

(** Enough fuel: the queue, and every list of dependencies once. *)
Definition deps_total (deps : gmap str (list str)) : nat :=
  foldr (fun kv n => length kv.2 + n) 0 (map_to_list deps).

Definition with_dependencies (files : list path) (modules_dep : option str) (selected : list path) : outcome (list path) :=
  let deps := parse_modules_dep modules_dep in
  if bool_decide (deps = ∅) then Val (sort_paths selected)
  else
    let queue := rev (key_of <$> selected) in
    resolved ← resolve_loop deps (on_disk_of files) (length queue + deps_total deps) queue ∅;
    Val (sort_paths (elements resolved)).

(** [files]: the files under [kernel], in the order of the walk, when it is a
    directory. *)
Definition select (flavor : InitramfsFlavor) (files : list path) : list path :=
  filter (fun p => key_of p ∈ module_key <$> modules_allowlist flavor) files.
Definition collect_modules_for (files : option (list path)) (modules_dep : option str) (flavor : InitramfsFlavor)
    : outcome (list path) :=
  match files with
  | None => Val []
  | Some files => with_dependencies files modules_dep (select flavor files)
  end.

Definition sample_files : list path :=
  (fun p => ("kernel" : str) :: split "/" p) <$> ["fs/ext4/ext4.ko" : str; "fs/jbd2/jbd2.ko" : str; "lib/crc16.ko" : str; "drivers/net/tun.ko" : str].
Definition sample_dep : str :=
  "kernel/fs/ext4/ext4.ko.gz: kernel/fs/jbd2/jbd2.ko.gz kernel/lib/crc16.ko.gz" ++ [lf] ++ "kernel/fs/jbd2/jbd2.ko.gz:" ++ [lf].
Example sample_modules :
  collect_modules_for (Some sample_files) (Some sample_dep) InitramfsFlavor_Boot
  = Val ((fun p => ("kernel" : str) :: split "/" p) <$> ["fs/ext4/ext4.ko" : str; "fs/jbd2/jbd2.ko" : str; "lib/crc16.ko" : str]).
Proof. by vm_compute. Qed.

(** ** The closure *)

(** The keys the selected modules need, through modules of the tree. *)
Inductive needs (deps : gmap str (list str)) (on_disk : gmap str path) (start : list str) : str -> Prop :=
| needs_start s : s ∈ start -> needs deps on_disk start s
| needs_dep s p ds d :
    needs deps on_disk start s -> on_disk !! s = Some p -> deps !! s = Some ds -> d ∈ ds ->
    needs deps on_disk start d.

Section closure_facts.
Context (deps : gmap str (list str)) (on_disk : gmap str path).

(** The dependencies of the modules that are not resolved yet. *)
Definition is_done (resolved : gset path) (s : str) : bool :=
  match on_disk !! s with Some p => bool_decide (p ∈ resolved) | None => false end.
Fixpoint pending (resolved : gset path) (l : list (str * list str)) : nat :=
  match l with
  | [] => 0
  | (k, v) :: l => (if is_done resolved k then 0 else length v) + pending resolved l
  end.

Lemma is_done_mono p resolved s : is_done resolved s = true -> is_done ({[p]} ∪ resolved) s = true.
Proof. unfold is_done. destruct (on_disk !! s); [|done]. rewrite !bool_decide_eq_true. set_solver. Qed.

Lemma pending_mono p resolved l : pending ({[p]} ∪ resolved) l <= pending resolved l.
Proof.
  induction l as [|[k v] l IH]; cbn [pending]; [done|]. destruct (is_done resolved k) eqn:E; [rewrite (is_done_mono p _ _ E); lia|].
  destruct (is_done ({[p]} ∪ resolved) k); lia.
Qed.

Lemma pending_step p resolved l s v :
  on_disk !! s = Some p -> p ∉ resolved -> (s, v) ∈ l -> length v + pending ({[p]} ∪ resolved) l <= pending resolved l.
Proof.
  intros Hs Hp Hin. induction l as [|[k w] l IH]; cbn [pending]; [by apply elem_of_nil in Hin|].
  assert (H0 : is_done resolved s = false) by (unfold is_done; rewrite Hs; by apply bool_decide_eq_false).
  assert (H1 : is_done ({[p]} ∪ resolved) s = true) by (unfold is_done; rewrite Hs; apply bool_decide_eq_true; set_solver).
  apply elem_of_cons in Hin as [E|Hin].
  - injection E as <- <-. rewrite H0, H1. pose proof (pending_mono p resolved l). lia.
  - specialize (IH Hin). destruct (is_done resolved k) eqn:E; [rewrite (is_done_mono p _ _ E); lia|].
    destruct (is_done ({[p]} ∪ resolved) k); lia.
Qed.

Lemma pending_total resolved : pending resolved (map_to_list deps) <= deps_total deps.
Proof.
  unfold deps_total. generalize (map_to_list deps). intros l. induction l as [|[k v] l IH]; [done|].
  cbn [pending foldr snd]. destruct (is_done resolved k); lia.
Qed.

Lemma resolve_loop_returns fuel queue resolved :
  length queue + pending resolved (map_to_list deps) <= fuel ->
  exists r, resolve_loop deps on_disk fuel queue resolved = Val r.
Proof.
  revert queue resolved. induction fuel as [|fuel IH]; intros [|s queue] resolved HF; simpl in HF |- *; eauto; [lia|].
  destruct (on_disk !! s) as [p|] eqn:Hs; [|apply IH; lia]. case_bool_decide as Hp; [apply IH; lia|].
  apply IH. rewrite length_app, length_rev. destruct (deps !! s) as [v|] eqn:Hv; simpl.
  - pose proof (pending_step p resolved (map_to_list deps) s v Hs Hp ltac:(by apply elem_of_map_to_list)). lia.
  - pose proof (pending_mono p resolved (map_to_list deps)). lia.
Qed.

(** What the queue has still to bring. *)
Definition handled (resolved : gset path) (s : str) : Prop := forall p, on_disk !! s = Some p -> p ∈ resolved.

Context (start : list str) (on_disk_inj : forall s s' p, on_disk !! s = Some p -> on_disk !! s' = Some p -> s = s').

Record loop_inv (queue : list str) (resolved : gset path) : Prop := {
  inv_queue : Forall (needs deps on_disk start) queue;
  inv_sound : forall p, p ∈ resolved -> exists s, needs deps on_disk start s /\ on_disk !! s = Some p;
  inv_start : forall s, s ∈ start -> s ∈ queue \/ handled resolved s;
  inv_deps : forall s p ds d, on_disk !! s = Some p -> p ∈ resolved -> deps !! s = Some ds -> d ∈ ds ->
               d ∈ queue \/ handled resolved d
}.

Lemma loop_inv_skip s queue resolved : handled resolved s -> loop_inv (s :: queue) resolved -> loop_inv queue resolved.
Proof.
  intros Hs [Hq Hsd Hst Hd]. split.
  - by apply Forall_cons in Hq as [_ Hq].
  - done.
  - intros x Hx. destruct (Hst x Hx) as [[->|Hin]%elem_of_cons|]; auto.
  - intros x p ds d Hp Hr Hds Hin. destruct (Hd x p ds d Hp Hr Hds Hin) as [[->|Hq']%elem_of_cons|]; auto.
Qed.

Lemma loop_inv_visit s p queue resolved :
  on_disk !! s = Some p -> loop_inv (s :: queue) resolved ->
  loop_inv (rev (default [] (deps !! s)) ++ queue) ({[p]} ∪ resolved).
Proof.
  intros Hs [Hq Hsd Hst Hd]. apply Forall_cons in Hq as [Hn Hq].
  assert (HM : forall x, handled resolved x -> handled ({[p]} ∪ resolved) x) by (unfold handled; set_solver).
  assert (HS : handled ({[p]} ∪ resolved) s) by (intros p' E; assert (p' = p) by congruence; set_solver).
  split.
  - apply Forall_app_2; [|done]. apply Forall_rev. destruct (deps !! s) as [ds|] eqn:E; simpl; [|constructor].
    apply Forall_forall. intros d Hin. by apply (needs_dep _ _ _ s p ds).
  - intros q [->%elem_of_singleton|Hq']%elem_of_union; eauto.
  - intros x Hx. rewrite elem_of_app. destruct (Hst x Hx) as [[->|Hin]%elem_of_cons|]; auto.
  - intros x q ds d Hx Hr Hds Hin. rewrite elem_of_app. apply elem_of_union in Hr as [->%elem_of_singleton|Hr].
    + assert (x = s) as -> by (by apply (on_disk_inj x s p)). rewrite Hds. left. left. simpl.
      apply list_elem_of_In. rewrite <- in_rev. by apply list_elem_of_In.
    + destruct (Hd x q ds d Hx Hr Hds Hin) as [[->|Hq']%elem_of_cons|]; auto.
Qed.

Lemma resolve_loop_exact fuel queue resolved r :
  loop_inv queue resolved -> resolve_loop deps on_disk fuel queue resolved = Val r ->
  forall p, p ∈ r <-> exists s, needs deps on_disk start s /\ on_disk !! s = Some p.
Proof.
  revert queue resolved. induction fuel as [|fuel IH]; intros [|s queue] resolved HI; cbn [resolve_loop]; try done.
  1,2: intros H; injection H as <-; destruct HI as [_ Hsd Hst Hd]; intros p; split; [apply Hsd|]; intros (s & Hn & Hp);
    assert (HH : handled resolved s); [|by apply HH]; clear p Hp;
    induction Hn as [s Hs|s p ds d Hn IHn Hp Hds Hin]; [by destruct (Hst s Hs) as [?%elem_of_nil|]|];
    by destruct (Hd s p ds d Hp (IHn p Hp) Hds Hin) as [?%elem_of_nil|].
  destruct (on_disk !! s) as [p|] eqn:Hs.
  - case_bool_decide as Hp.
    + apply IH. apply (loop_inv_skip s); [|done]. intros p' E. congruence.
    + apply IH. by apply loop_inv_visit.
  - apply IH. apply (loop_inv_skip s); [|done]. intros p' E. congruence.
Qed.
End closure_facts.

(** ** The order of paths *)

#[export] Instance path_le_total : Total path_le.
Proof.
  unfold path_le. intros a. induction a as [|x a IH]; intros [|y b]; simpl; auto.
  destruct (decide (x = y)) as [<-|E]; [rewrite !bool_decide_eq_true_2 by done; apply IH|].
  rewrite !bool_decide_eq_false_2 by congruence. by apply (total str_le).
Qed.
#[export] Instance path_le_trans : Transitive path_le.
Proof.
  unfold path_le. intros a. induction a as [|x a IH]; intros [|y b] [|z c]; simpl; try done.
  repeat case_bool_decide; subst; try done.
  - apply IH.
  - intros L1 L2. assert (y = z) by (by apply (anti_symm str_le)). congruence.
  - intros L1 L2. by apply (transitivity (R:=str_le) L1).
Qed.

Lemma sort_paths_sorted l : StronglySorted path_le (sort_paths l).
Proof. apply (StronglySorted_merge_sort path_le l). Qed.
Lemma sort_paths_Permutation l : sort_paths l ≡ₚ l.
Proof. apply merge_sort_Permutation. Qed.

(** ** The modules embedded *)

Lemma on_disk_of_spec files s p : on_disk_of files !! s = Some p -> key_of p = s /\ p ∈ files /\ is_module p = true.
Proof.
  unfold on_disk_of. revert s p.
  assert (HG : forall (m : gmap str path) s p, fold_left (fun m p => if is_module p then <[key_of p := p]> m else m) files m !! s = Some p ->
    m !! s = Some p \/ (key_of p = s /\ p ∈ files /\ is_module p = true)).
  { induction files as [|q files IH]; intros m s p; cbn [fold_left]; [by left|]. intros [H|(? & ? & ?)]%IH; [|set_solver].
    destruct (is_module q) eqn:E; [|by left]. apply lookup_insert_Some in H as [[<- <-]|[_ H]]; [right; set_solver|by left]. }
  intros s p [H|H]%HG; [by rewrite lookup_empty in H|done].
Qed.

Lemma on_disk_of_module files p : p ∈ files -> is_module p = true -> is_Some (on_disk_of files !! key_of p).
Proof.
  unfold on_disk_of. intros Hin Hm.
  assert (HK : forall l (m : gmap str path) s, is_Some (m !! s) ->
    is_Some (fold_left (fun m p => if is_module p then <[key_of p := p]> m else m) l m !! s)).
  { induction l as [|q l IH]; intros m s H; cbn [fold_left]; [done|]. apply IH. destruct (is_module q); [|done].
    by apply lookup_insert_is_Some'; right. }
  generalize (∅ : gmap str path). induction Hin as [q l|q x l Hin IH]; intros m; cbn [fold_left]; [|apply IH; done].
  rewrite Hm. apply HK. by rewrite lookup_insert_eq.
Qed.

Definition selected_keys (flavor : InitramfsFlavor) (files : list path) : list str := key_of <$> select flavor files.

Lemma with_dependencies_exact flavor files modules_dep :
  let deps := parse_modules_dep modules_dep in
  exists l, with_dependencies files modules_dep (select flavor files) = Val l /\ StronglySorted path_le l
    /\ (deps = ∅ -> l ≡ₚ select flavor files)
    /\ (deps <> ∅ -> NoDup l /\ forall p, p ∈ l <->
          exists s, needs deps (on_disk_of files) (selected_keys flavor files) s /\ on_disk_of files !! s = Some p).
Proof.
  intros deps. unfold with_dependencies. fold deps. case_bool_decide as HE.
  - eexists. split; [done|]. split; [apply sort_paths_sorted|]. split; [|done]. intros _. apply sort_paths_Permutation.
  - set (queue := rev (key_of <$> select flavor files)).
    destruct (resolve_loop_returns deps (on_disk_of files) (length queue + deps_total deps) queue ∅) as [r Hr].
    { pose proof (pending_total deps (on_disk_of files) ∅). lia. }
    rewrite Hr. cbn [mbind outcome_bind]. eexists. split; [done|]. split; [apply sort_paths_sorted|]. split; [done|]. intros _.
    assert (HI : loop_inv deps (on_disk_of files) (selected_keys flavor files) queue ∅).
    { assert (HQ : forall s, s ∈ queue <-> s ∈ selected_keys flavor files)
        by (intros s; unfold queue; rewrite !list_elem_of_In, <- in_rev; done).
      split; [|set_solver|intros s Hs; left; by apply HQ|set_solver].
      apply Forall_forall. intros s Hs. constructor. by apply HQ. }
    split; [rewrite sort_paths_Permutation; apply NoDup_elements|]. intros p. rewrite sort_paths_Permutation, elem_of_elements.
    apply (resolve_loop_exact deps (on_disk_of files)) with (start := selected_keys flavor files) (p := p) in Hr; [done| |done].
    intros s s' q H1 H2. apply on_disk_of_spec in H1 as [<- _]. by apply on_disk_of_spec in H2 as [<- _].
Qed.

(** ** The load loop of the init script

    A pass over the modules in their order: [insmod] loads a module that is not
    loaded and whose requirements are; a pass that loads nothing is the last. *)

Section load.
Context (requires : path -> list path).

Definition loads (loaded : gset path) (m : path) : bool :=
  negb (bool_decide (m ∈ loaded)) && forallb (fun d => bool_decide (d ∈ loaded)) (requires m).
Definition load_pass (ms : list path) (loaded : gset path) : gset path :=
  fold_left (fun loaded m => if loads loaded m then {[m]} ∪ loaded else loaded) ms loaded.
Fixpoint load_passes (n : nat) (ms : list path) (loaded : gset path) : gset path :=
  match n with
  | O => loaded
  | S n =>
      let loaded' := load_pass ms loaded in
      if bool_decide (loaded' = loaded) then loaded' else load_passes n ms loaded'
  end.

(** [for _pass in 1 2 3 4]. *)
Definition load_modules (ms : list path) : gset path := load_passes 4 ms ∅.

(** A chain of requirements of at most [n] modules. *)
Inductive depth_le : nat -> path -> Prop :=
| depth_step n m : (forall d, d ∈ requires m -> depth_le n d) -> depth_le (S n) m.

Lemma not_depth_0 m : ~ depth_le 0 m.
Proof. inversion 1. Qed.

Lemma load_pass_mono ms loaded : loaded ⊆ load_pass ms loaded.
Proof.
  unfold load_pass. revert loaded. induction ms as [|m ms IH]; intros loaded; cbn [fold_left]; [done|].
  etransitivity; [|apply IH]. destruct (loads loaded m); set_solver.
Qed.

Lemma load_pass_loads ms loaded m :
  m ∈ ms -> (forall d, d ∈ requires m -> d ∈ loaded) -> m ∈ load_pass ms loaded.
Proof.
  unfold load_pass. intros Hin. revert loaded. induction Hin as [m ms|m x ms Hin IH]; intros loaded Hd; cbn [fold_left].
  - apply (load_pass_mono ms). destruct (loads loaded m) eqn:E; [set_solver|]. unfold loads in E.
    apply andb_false_iff in E as [E|E]; [by apply negb_false_iff, bool_decide_eq_true in E|].
    assert (HT : forallb (fun d => bool_decide (d ∈ loaded)) (requires m) = true); [|congruence].
    apply forallb_forall. intros d Hd'. apply bool_decide_eq_true. apply Hd. by apply list_elem_of_In.
  - apply IH. intros d Hd'. destruct (loads loaded x); set_solver.
Qed.

Lemma load_passes_mono n ms loaded : loaded ⊆ load_passes n ms loaded.
Proof.
  revert loaded. induction n as [|n IH]; intros loaded; cbn [load_passes]; [done|].
  pose proof (load_pass_mono ms loaded). case_bool_decide; [done|]. etransitivity; [done|apply IH].
Qed.

(** What the next [n] passes load, given what is loaded. *)
Lemma load_passes_depth n k ms loaded m :
  (forall m d, m ∈ ms -> d ∈ requires m -> d ∈ ms) ->
  (forall m, m ∈ ms -> depth_le k m -> m ∈ loaded) -> m ∈ ms -> depth_le (n + k) m -> m ∈ load_passes n ms loaded.
Proof.
  intros HC. revert k loaded m. induction n as [|n IH]; intros k loaded m HK Hm Hd; cbn [load_passes]; [by apply HK|].
  assert (HN : forall x, x ∈ ms -> depth_le (S k) x -> x ∈ load_pass ms loaded).
  { intros x Hx Hdx. apply load_pass_loads; [done|]. intros d Hin. inversion Hdx as [? ? Hall]; subst. apply HK; [by apply (HC x)|by apply Hall]. }
  assert (HD : forall j x, depth_le j x -> x ∈ ms -> load_pass ms loaded = loaded -> x ∈ loaded).
  { induction j as [|j IHj]; intros x Hdx Hx E; inversion Hdx as [? ? Hall]; subst. rewrite <- E. apply load_pass_loads; [done|].
    intros d Hin. apply IHj; [by apply Hall|by apply (HC x)|done]. }
  case_bool_decide as E; [rewrite E; by apply (HD (S n + k))|]. apply (IH (S k)); [done|done|]. by replace (n + S k) with (S n + k) by lia.
Qed.
End load.

(** ** Properties *)

(** C28 (functional): the modules of an initramfs are computed for every tree and
    every [modules.dep], cycles included; they are sorted, and with a
    [modules.dep] they are exactly the modules of the tree that the listed
    drivers need, directly or through other modules of the tree, each once. *)
Theorem modules_closed flavor files modules_dep :
  let deps := parse_modules_dep modules_dep in
  exists l, collect_modules_for (Some files) modules_dep flavor = Val l /\ StronglySorted path_le l
    /\ (deps = ∅ -> l ≡ₚ select flavor files)
    /\ (deps <> ∅ -> NoDup l /\ forall p, p ∈ l <->
          exists s, needs deps (on_disk_of files) (selected_keys flavor files) s /\ on_disk_of files !! s = Some p).
Proof. apply with_dependencies_exact. Qed.

(** [modules.dep] names every module a module of the tree requires. *)
Definition dep_file_complete (deps : gmap str (list str)) (on_disk : gmap str path) (requires : path -> list path) : Prop :=
  forall s p d, on_disk !! s = Some p -> d ∈ requires p ->
    exists ds, deps !! s = Some ds /\ key_of d ∈ ds /\ on_disk !! key_of d = Some d.

(** With a [modules.dep] that is complete for the tree, the init
    script has loaded every embedded module whose chain of requirements is at
    most four modules long, whatever the order of their paths. *)
Theorem init_loads_modules flavor files modules_dep requires l m :
  parse_modules_dep modules_dep <> ∅ ->
  dep_file_complete (parse_modules_dep modules_dep) (on_disk_of files) requires ->
  collect_modules_for (Some files) modules_dep flavor = Val l ->
  m ∈ l -> depth_le requires 4 m -> m ∈ load_modules requires l.
Proof.
  intros HE HC Hl Hm Hd. destruct (with_dependencies_exact flavor files modules_dep) as (l' & El & _ & _ & HX).
  cbn [collect_modules_for] in Hl. rewrite El in Hl. injection Hl as ->. destruct (HX HE) as [_ HM].
  apply (load_passes_depth requires 4 0); [|by intros ? _ ?%not_depth_0|done|done].
  intros x d (s & Hn & Hs)%HM Hin. apply HM. destruct (HC s x d Hs Hin) as (ds & Hds & Hk & Ho). exists (key_of d).
  split; [|done]. by apply (needs_dep _ _ _ s x ds).
Qed.

Definition sample_requires (p : path) : list path :=
  if bool_decide (key_of p = "ext4")
  then (fun p => ("kernel" : str) :: split "/" p) <$> ["fs/jbd2/jbd2.ko" : str; "lib/crc16.ko" : str] else [].

Lemma init_loads_modules_witness :
  (("kernel" : str) :: split "/" "fs/ext4/ext4.ko") ∈ load_modules sample_requires
    ((fun p => ("kernel" : str) :: split "/" p) <$> ["fs/ext4/ext4.ko" : str; "fs/jbd2/jbd2.ko" : str; "lib/crc16.ko" : str]).
Proof.
  apply (init_loads_modules InitramfsFlavor_Boot sample_files (Some sample_dep)).
  - intros E. apply (f_equal (fun m => m !! ("ext4" : str))) in E. vm_compute in E. discriminate E.
  - intros s p d Hs Hd. apply on_disk_of_spec in Hs as (<- & Hin & _).
    repeat (apply elem_of_cons in Hin as [->|Hin]; [vm_compute in Hd|]); [|try (by apply elem_of_nil in Hd)..|by apply elem_of_nil in Hin].
    repeat (apply elem_of_cons in Hd as [->|Hd]); [| |by apply elem_of_nil in Hd];
      (eexists; split; [vm_compute; reflexivity|split; [apply (bool_decide_unpack _); by vm_compute|by vm_compute]]).
  - exact sample_modules.
  - apply (bool_decide_unpack _). by vm_compute.
  - constructor. intros d Hd. vm_compute in Hd. repeat (apply elem_of_cons in Hd as [->|Hd]); [| |by apply elem_of_nil in Hd];
      constructor; intros d Hd'; vm_compute in Hd'; by apply elem_of_nil in Hd'.
Defined.

(** A chain of five in the wrong order is not loaded by four passes. *)
Definition chain : list path := (fun n => [n]) <$> ["1" : str; "2" : str; "3" : str; "4" : str; "5" : str].
Definition chain_requires (p : path) : list path :=
  match list_find (fun q => q = p) chain with Some (i, _) => option_list (chain !! S i) | None => [] end.
Example deep_chain_not_loaded :
  bool_decide (["1" : str] ∈ load_modules chain_requires chain) = false
  /\ bool_decide (["1" : str] ∈ load_passes chain_requires 5 chain ∅) = true.
Proof. by vm_compute. Qed.
