(* ===== verification/Initrd.v ===== *)
(** * Initrd: the initramfs
    (crates/umf-builder/src/initrd.rs).

    The staging tree is a set of services: the busybox it holds, if the read
    stays inside the tree, and the contents of the module files. *)

From stdpp Require Import sorting.
From S2P Require Import Prelude RustStr RustStrFacts Target Kernel InitrdModules Ssrf IpText Cpio.

(** ** The init scripts

    A line of a script, its double quotes written as tildes and its backslashes
    as carets; the scripts have neither of these. *)

Definition sh (line : str) : str :=
  (fun c => if Ascii.eqb c "~" then dquote else if Ascii.eqb c "^" then backslash else c) <$> line.
Definition script (ls : list str) : str := concat ((fun l => sh l ++ [lf]) <$> ls).
Definition MOUNT_TAG_STAGING : str := "umfstage".

Definition boot_script_head : list str :=
  ["#!/bin/sh" : str;
   "# UMF initramfs init — minimal squashfs rootfs pivot." : str;
   "set -eu" : str;
   "export PATH=/bin:/sbin" : str;
   [];
   "# Early mounts." : str;
   "mount -t proc proc /proc" : str;
   "mount -t sysfs sysfs /sys" : str;
   "mount -t devtmpfs devtmpfs /dev" : str;
   [];
   "# Bring up the kernel modules we need to see the rootfs disk." : str;
   "# Modules are embedded in path order, which is not dependency" : str;
   "# order, so load in repeated passes until a pass loads nothing" : str;
   "# new — a module whose dependency came later then still lands." : str;
   "# A missing file or an already-loaded module is not an error." : str;
   "UMF_MODS=~^" : str].

Definition boot_script_tail : list str :=
  ["~" : str;
   "for _pass in 1 2 3 4; do" : str;
   "    _loaded=0" : str;
   "    for _m in $UMF_MODS; do" : str;
   "        [ -f ~$_m~ ] || continue" : str;
   "        insmod ~$_m~ 2>/dev/null && _loaded=1" : str;
   "    done" : str;
   "    [ ~$_loaded~ -eq 0 ] && break" : str;
   "done" : str;
   [];
   "# Resolve the root device. `umf compile` writes" : str;
   "# `root=PARTLABEL=ROOTFS` into the cmdline precisely so the same" : str;
   "# disk boots wherever the root device enumerates differently" : str;
   "# (virtio /dev/vda, NVMe /dev/nvme0n1p2, SATA /dev/sda2), so" : str;
   "# honour it rather than guessing a node name." : str;
   "ROOT=~~" : str;
   "for _arg in $(cat /proc/cmdline 2>/dev/null); do" : str;
   "    case ~$_arg~ in root=*) ROOT=~${_arg#root=}~ ;; esac" : str;
   "done" : str;
   "case ~$ROOT~ in" : str;
   "    ~~|/dev/*) ;;" : str;
   "    *=*)" : str;
   "        # PARTLABEL= / PARTUUID= / UUID= / LABEL= — ask findfs." : str;
   "        _resolved=$(findfs ~$ROOT~ 2>/dev/null || true)" : str;
   "        ROOT=~$_resolved~" : str;
   "        ;;" : str;
   "esac" : str;
   [];
   "# Fall back to probing the usual second partitions when the" : str;
   "# cmdline carried nothing usable (an older disk, or a busybox" : str;
   "# without findfs)." : str;
   "if [ -z ~$ROOT~ ] || [ ! -b ~$ROOT~ ]; then" : str;
   "    for _c in /dev/vda2 /dev/sda2 /dev/nvme0n1p2 /dev/mmcblk0p2; do" : str;
   "        [ -b ~$_c~ ] && ROOT=~$_c~ && break" : str;
   "    done" : str;
   "fi" : str;
   [];
   "if [ -z ~$ROOT~ ] || [ ! -b ~$ROOT~ ]; then" : str;
   "    echo ~umf-initramfs: no root device found (cmdline root=, then ^" : str;
   "vda2/sda2/nvme0n1p2/mmcblk0p2)~ >&2" : str;
   "    echo ~umf-initramfs: available block devices:~ >&2" : str;
   "    ls /sys/class/block 2>/dev/null >&2 || true" : str;
   "    exec sh" : str;
   "fi" : str;
   [];
   "# Resolve the root filesystem. `umf compile` writes" : str;
   "# `rootfstype=<fs>` alongside `root=`; honour it rather than" : str;
   "# assuming one, so the same image boots whichever filesystem" : str;
   "# the disk was projected with." : str;
   "ROOTFSTYPE=~~" : str;
   "for _arg in $(cat /proc/cmdline 2>/dev/null); do" : str;
   "    case ~$_arg~ in rootfstype=*) ROOTFSTYPE=~${_arg#rootfstype=}~ ;; esac" : str;
   "done" : str;
   [];
   "# No `-t` at all when the cmdline carried none: the kernel then" : str;
   "# tries each filesystem in /proc/filesystems, which is exactly" : str;
   "# the set the modules above just registered." : str;
   "if [ -n ~$ROOTFSTYPE~ ]; then" : str;
   "    mount -t ~$ROOTFSTYPE~ -o ro ~$ROOT~ /sysroot" : str;
   "else" : str;
   "    mount -o ro ~$ROOT~ /sysroot" : str;
   "fi" : str;
   [];
   "# Pivot." : str;
   "exec switch_root /sysroot /sbin/init" : str].

Definition run_script_head : list str :=
  ["#!/bin/sh" : str;
   "# UMF run-initramfs init — executes a single RUN command against a 9p-shared staging dir." : str;
   "# Failures are swallowed liberally — the build host ultimately reads the exit code from /sysroot/.umf-run-exit." : str;
   [];
   "mount -t proc proc /proc 2>/dev/null || true" : str;
   "mount -t sysfs sysfs /sys 2>/dev/null || true" : str;
   "mount -t devtmpfs devtmpfs /dev 2>/dev/null || true" : str;
   [];
   "# Load modules (best-effort — some may be compiled-in)." : str].

Definition run_script_tail : list str :=
  [[];
   "# Mount the host's staging directory over 9p." : str;
   "mkdir -p /sysroot" : str;
   "mount -t 9p -o trans=virtio,version=9p2000.L,access=any " ++ MOUNT_TAG_STAGING ++ " /sysroot";
   [];
   "# Bring up loopback + the NIC for outbound access." : str;
   "ip link set lo up 2>/dev/null || ifconfig lo up 2>/dev/null || true" : str;
   "ip link set eth0 up 2>/dev/null || ifconfig eth0 up 2>/dev/null || true" : str;
   [];
   "# Address the NIC: static from the host's .umf-net if it" : str;
   "# staged one, else DHCP from the VMM's user-mode stack." : str;
   "if [ -f /sysroot/.umf-net ]; then" : str;
   "    . /sysroot/.umf-net" : str;
   "    ip addr add ~$UMF_IP/$UMF_PREFIX~ dev eth0 2>/dev/null || ifconfig eth0 ~$UMF_IP~ netmask ~$UMF_MASK~ 2>/dev/null || true" : str;
   "    ip route add default via ~$UMF_GW~ 2>/dev/null || route add default gw ~$UMF_GW~ 2>/dev/null || true" : str;
   "    if [ -n ~$UMF_DNS~ ]; then" : str;
   "        : > /etc/resolv.conf" : str;
   "        for ns in $UMF_DNS; do" : str;
   "            echo ~nameserver $ns~ >> /etc/resolv.conf" : str;
   "        done" : str;
   "        [ -e /sysroot/etc/resolv.conf ] || (mkdir -p /sysroot/etc && : > /sysroot/etc/resolv.conf) 2>/dev/null" : str;
   "        mount --bind /etc/resolv.conf /sysroot/etc/resolv.conf 2>/dev/null || true" : str;
   "    fi" : str;
   "else" : str;
   "    udhcpc -i eth0 -t 8 -T 2 -q 2>/dev/null || true" : str;
   "fi" : str;
   [];
   "# Bind kernel filesystems into the chroot target." : str;
   "mkdir -p /sysroot/proc /sysroot/sys /sysroot/dev" : str;
   "mount -t proc proc /sysroot/proc 2>/dev/null || true" : str;
   "mount -t sysfs sysfs /sysroot/sys 2>/dev/null || true" : str;
   "mount -t devtmpfs devtmpfs /sysroot/dev 2>/dev/null || true" : str;
   [];
   "# Source env (key=value lines) if present." : str;
   "if [ -f /sysroot/.umf-env ]; then" : str;
   "    set -a" : str;
   "    . /sysroot/.umf-env" : str;
   "    set +a" : str;
   "fi" : str;
   [];
   "# Run the RUN command inside the rootfs chroot." : str;
   "EXIT=0" : str;
   "if [ -f /sysroot/.umf-cmd ]; then" : str;
   "    CMD=$(cat /sysroot/.umf-cmd)" : str;
   "    chroot /sysroot /bin/sh -c ~$CMD~ || EXIT=$?" : str;
   "else" : str;
   "    echo 'umf: /sysroot/.umf-cmd missing' >&2" : str;
   "    EXIT=127" : str;
   "fi" : str;
   [];
   "# Persist exit code via 9p so the host picks it up." : str;
   "echo ~$EXIT~ > /sysroot/.umf-run-exit" : str;
   "sync" : str;
   [];
   "poweroff -f" : str].

(** [Path::display] of a relative path. *)
Definition path_text (p : path) : str := join "/" p.
Definition modules_prefix (release : str) : path := modules_root ++ [release].
Definition in_initrd (release : str) (m : path) : str := "/" ++ path_text (modules_prefix release ++ m).

Definition build_boot_init_script (release : str) (ms : list path) : str :=
  script boot_script_head ++ concat ((fun m => in_initrd release m ++ " " ++ [backslash; lf]) <$> ms) ++ script boot_script_tail.
Definition build_run_init_script (release : str) (ms : list path) : str :=
  script run_script_head ++ concat ((fun m => "insmod " ++ in_initrd release m ++ " 2>/dev/null || true" ++ [lf]) <$> ms)
  ++ script run_script_tail.

(** ** The archive *)

Inductive InitrdError := MissingBusybox | InitrdIo (e : str).
Record InitrdReport := {
  initrd_filename : str; cpio_size_bytes : nat; compressed_size_bytes : nat; modules_count : nat
}.

(** An entry before it is written: path, kind and mode. *)
Definition Entry : Type := path * CpioKind * Z.
Definition to_cpio (e : Entry) : CpioEntry :=
  {| cpio_path := path_text e.1.1; cpio_kind := e.1.2; cpio_mode := e.2; cpio_uid := 0; cpio_gid := 0; cpio_mtime := 0 |}.

Definition top_level_dir (p : path) : Entry := (p, CpioKind_Directory, 493%Z).

(** The loop of [walk_ancestors], on the components from the last. *)
Fixpoint ancestors_up (root_prefix rcomps : path) : list path :=
  if bool_decide (rev rcomps = root_prefix) then []
  else rev rcomps :: match rcomps with [] => [] | _ :: rcomps => ancestors_up root_prefix rcomps end.
Definition walk_ancestors (p root_prefix : path) : list path := rev (ancestors_up root_prefix (rev p)).

Fixpoint push_dirs (ancestors added : list path) : list Entry * list path :=
  match ancestors with
  | [] => ([], added)
  | a :: ancestors =>
      if bool_decide (a ∈ added) then push_dirs ancestors added
      else let '(es, added) := push_dirs ancestors (added ++ [a]) in (top_level_dir a :: es, added)
  end.

Section generate.
Context (busybox : option (result str (str * Z))) (read_module : path -> result str str) (gzip : str -> result str str).

Fixpoint push_modules (prefix : path) (ms : list path) (added : list path) : result InitrdError (list Entry) :=
  match ms with
  | [] => Ok []
  | m :: ms =>
      let dest := prefix ++ m in
      let '(dirs, added) := match dest with
                            | [] => ([], added)
                            | _ => push_dirs (walk_ancestors (removelast dest) prefix) added
                            end in
      bytes ← map_err InitrdIo (read_module m);
      es ← push_modules prefix ms added;
      Ok (dirs ++ (dest, CpioKind_File bytes, 420%Z) :: es)
  end.

Definition top_dirs : list path :=
  [["." : str]; ["bin" : str]; ["sbin" : str]; ["dev" : str]; ["proc" : str]; ["sys" : str]; ["sysroot" : str]; ["lib" : str];
   modules_root].
Definition applets : list str :=
  ["sh" : str; "mount" : str; "umount" : str; "modprobe" : str; "insmod" : str; "switch_root" : str].

Definition initramfs_entries (release : str) (flavor : InitramfsFlavor) (ms : list path)
    : result InitrdError (list Entry) :=
  match busybox with
  | None => Err MissingBusybox
  | Some read =>
      '(bytes, perms) ← map_err InitrdIo read;
      let prefix := modules_prefix release in
      modules ← push_modules prefix ms [prefix];
      let init_body := match flavor with
                       | InitramfsFlavor_Boot => build_boot_init_script release ms
                       | InitramfsFlavor_Run => build_run_init_script release ms
                       end in
      Ok ((top_level_dir <$> top_dirs)
          ++ [(["bin" : str; "busybox" : str], CpioKind_File bytes, Z.land perms 4095)]
          ++ ((fun applet => (["bin" : str; applet], CpioKind_Symlink "busybox", 493%Z)) <$> applets)
          ++ [top_level_dir prefix] ++ modules ++ [(["init" : str], CpioKind_File init_body, 493%Z)])
  end.

(** [files] and [modules_dep]: the modules directory of the kernel. *)
Definition generate_initramfs_with_flavor (kernel : KernelLayout) (files : option (list path)) (modules_dep : option str)
    (flavor : InitramfsFlavor) : outcome (result InitrdError (str * InitrdReport)) :=
  match busybox with
  | None => Val (Err MissingBusybox)
  | Some (Err e) => Val (Err (InitrdIo e))
  | Some (Ok _) =>
      ms ← collect_modules_for files modules_dep flavor;
      Val (entries ← initramfs_entries (release kernel) flavor ms;
           let cpio := finish (to_cpio <$> entries) in
           compressed ← map_err InitrdIo (gzip cpio);
           Ok (compressed,
               {| initrd_filename := "initramfs-" ++ release kernel ++ ".img"; cpio_size_bytes := length cpio;
                  compressed_size_bytes := length compressed; modules_count := length ms |}))
  end.
End generate.

(** ** Directories before their contents *)

Definition is_dir (k : CpioKind) : bool := match k with CpioKind_Directory => true | _ => false end.
Definition dirs_of (es : list Entry) : list path := (fun e : Entry => e.1.1) <$> filter (fun e : Entry => is_dir e.1.2 = true) es.

(** Each entry is at the top or in a directory that is known or came before. *)
Inductive tree_from : list path -> list Entry -> Prop :=
| tree_nil known : tree_from known []
| tree_cons known p k m es :
    removelast p = [] \/ removelast p ∈ known ->
    tree_from (if is_dir k then p :: known else known) es -> tree_from known ((p, k, m) :: es).

Lemma tree_from_mono known known' es : known ⊆ known' -> tree_from known es -> tree_from known' es.
Proof.
  intros HK H. revert known' HK. induction H as [|known p k m es HP _ IH]; intros known' HK; constructor.
  - destruct HP; [by left|right; set_solver].
  - apply IH. destruct (is_dir k); set_solver.
Qed.

Lemma tree_from_app known es es' :
  tree_from known es -> tree_from (dirs_of es ++ known) es' -> tree_from known (es ++ es').
Proof.
  intros H H'. induction H as [|known p k m es HP H IH]; [done|]. constructor; [done|]. apply IH.
  revert H'. apply tree_from_mono. unfold dirs_of. rewrite filter_cons. cbn [fst snd].
  destruct (is_dir k); case_decide; try done; cbn [fmap list_fmap fst]; set_solver.
Qed.

(** The directories between a prefix and a path. *)
Fixpoint between (prefix xs : path) : list path :=
  match xs with [] => [] | x :: xs => (prefix ++ [x]) :: between (prefix ++ [x]) xs end.

Lemma between_snoc prefix xs x : between prefix (xs ++ [x]) = between prefix xs ++ [prefix ++ xs ++ [x]].
Proof.
  revert prefix. induction xs as [|y xs IH]; intros prefix; [done|]. cbn [between app]. rewrite IH. by rewrite <- app_assoc.
Qed.

Lemma ancestors_up_step prefix r x :
  rev r ++ [x] <> prefix -> ancestors_up prefix (x :: r) = (rev r ++ [x]) :: ancestors_up prefix r.
Proof. intros H. cbn [ancestors_up rev]. by rewrite bool_decide_eq_false_2. Qed.
Lemma ancestors_up_stop prefix r : rev r = prefix -> ancestors_up prefix r = [].
Proof. intros H. destruct r; cbn [ancestors_up]; by rewrite bool_decide_eq_true_2. Qed.

Lemma walk_ancestors_between prefix xs : walk_ancestors (prefix ++ xs) prefix = between prefix xs.
Proof.
  unfold walk_ancestors. induction xs as [|x xs IH] using rev_ind.
  - rewrite app_nil_r, ancestors_up_stop by apply rev_involutive. done.
  - rewrite app_assoc, rev_app_distr. cbn [rev app]. rewrite ancestors_up_step.
    + cbn [rev]. rewrite IH, rev_involutive, between_snoc. by rewrite app_assoc.
    + rewrite rev_involutive, <- app_assoc. intros E. apply (f_equal length) in E. rewrite !length_app in E. simpl in E. lia.
Qed.

Lemma removelast_snoc {A} (l : list A) x : removelast (l ++ [x]) = l.
Proof. apply removelast_last. Qed.

(** An entry strictly under a directory. *)
Definition under (prefix : path) (e : Entry) : Prop := exists x rest, e.1.1 = prefix ++ x :: rest.

Lemma under_longer prefix x e : under (prefix ++ [x]) e -> under prefix e.
Proof. intros (y & rest & E). exists x, (y :: rest). by rewrite E, <- app_assoc. Qed.

Lemma dirs_of_app es es' : dirs_of (es ++ es') = dirs_of es ++ dirs_of es'.
Proof. unfold dirs_of. by rewrite filter_app, fmap_app. Qed.

Lemma push_dirs_spec prefix xs added es added' :
  push_dirs (between prefix xs) added = (es, added') -> prefix ∈ added ->
  tree_from added es /\ added' = added ++ dirs_of es /\ prefix ++ xs ∈ added' /\ (NoDup added -> NoDup added')
  /\ Forall (under prefix) es.
Proof.
  revert prefix added es added'. induction xs as [|x xs IH]; intros prefix added es added' H Hp; cbn [between push_dirs] in H.
  - injection H as <- <-. rewrite !app_nil_r. split_and!; [constructor|done|done|done|constructor].
  - case_bool_decide as Hin.
    + apply IH in H as (HT & -> & Hx & HN & HL); [|done]. rewrite <- app_assoc in Hx. split_and!; try done.
      eapply Forall_impl; [exact HL|]. apply under_longer.
    + destruct (push_dirs (between (prefix ++ [x]) xs) (added ++ [prefix ++ [x]])) as [es' added''] eqn:E. injection H as <- <-.
      apply IH in E as (HT & -> & Hx & HN & HL); [|set_solver]. rewrite <- app_assoc in Hx.
      unfold dirs_of. rewrite filter_cons, decide_True by done. cbn [fmap list_fmap top_level_dir fst]. fold (dirs_of es').
      split_and!.
      * constructor; [right; by rewrite removelast_snoc|]. cbn [is_dir]. revert HT. apply tree_from_mono. set_solver.
      * by rewrite <- app_assoc.
      * done.
      * intros HA. apply HN. apply NoDup_app. split_and!; [done|set_solver|apply NoDup_singleton].
      * constructor; [by exists x, []|]. eapply Forall_impl; [exact HL|]. apply under_longer.
Qed.

Lemma push_modules_spec read_module prefix ms added es :
  push_modules read_module prefix ms added = Ok es -> prefix ∈ added -> Forall (fun m => m <> []) ms ->
  tree_from added es /\ (NoDup added -> NoDup (added ++ dirs_of es)) /\ Forall (under prefix) es
  /\ forall m, m ∈ ms -> exists bytes, read_module m = Ok bytes /\ (prefix ++ m, CpioKind_File bytes, 420%Z) ∈ es.
Proof.
  revert added es. induction ms as [|m ms IH]; intros added es H Hp Hm.
  - injection H as <-. split_and!; [constructor|by rewrite app_nil_r|constructor|by intros m ?%elem_of_nil].
  - apply Forall_cons in Hm as [Hm Hms]. destruct (exists_last Hm) as (m' & x & ->). cbn [push_modules] in H.
    rewrite app_assoc, removelast_snoc, walk_ancestors_between in H.
    destruct (push_dirs (between prefix m') added) as [dirs added'] eqn:Ed.
    apply push_dirs_spec in Ed as (HT & -> & Hin & HN & HU); [|done].
    replace (match (prefix ++ m') ++ [x] with [] => ([], added) | _ :: _ => (dirs, added ++ dirs_of dirs) end)
      with (dirs, added ++ dirs_of dirs) in H by (by destruct (prefix ++ m')).
    apply bind_Ok in H as (bytes & Hb & H). apply map_err_Ok in Hb. apply bind_Ok in H as (es' & He & H). injection H as <-.
    apply IH in He as (HT' & HN' & HU' & HF); [|set_solver|done].
    split_and!.
    + apply tree_from_app; [done|]. constructor; [right; rewrite removelast_snoc; set_solver|]. cbn [is_dir].
      revert HT'. apply tree_from_mono. set_solver.
    + intros HA. rewrite dirs_of_app. unfold dirs_of at 2. rewrite filter_cons, decide_False by done. fold (dirs_of es').
      rewrite app_assoc. by apply HN', HN.
    + apply Forall_app_2; [done|]. constructor; [|done]. destruct m' as [|y m']; [by exists x, []; rewrite app_nil_r|].
      exists y, (m' ++ [x]). cbn [fst]. by rewrite <- app_assoc.
    + intros y [->|Hy]%elem_of_cons; [exists bytes; split; [done|]; rewrite app_assoc; set_solver|].
      destruct (HF y Hy) as (b & ? & ?). exists b. split; [done|]. set_solver.
Qed.

Lemma collect_modules_files flavor files modules_dep ms :
  collect_modules_for (Some files) modules_dep flavor = Val ms -> forall p, p ∈ ms -> p ∈ files.
Proof.
  intros H p Hp. destruct (with_dependencies_exact flavor files modules_dep) as (l & El & _ & H0 & H1).
  cbn [collect_modules_for] in H. rewrite El in H. injection H as ->.
  destruct (decide (parse_modules_dep modules_dep = ∅)) as [E|E].
  - rewrite (H0 E) in Hp. by apply list_elem_of_filter in Hp as [_ Hp].
  - destruct (H1 E) as [_ HM]. apply HM in Hp as (s & _ & Hs). by apply on_disk_of_spec in Hs as (_ & ? & _).
Qed.

Lemma path_text_lib rest : path_text (("lib" : str) :: rest) <> trailer_name.
Proof. unfold path_text. destruct rest; discriminate. Qed.

Lemma initramfs_entries_spec busybox read_module release flavor ms es :
  initramfs_entries busybox read_module release flavor ms = Ok es -> Forall (fun m => m <> []) ms ->
  tree_from [] es /\ NoDup (dirs_of es) /\ Forall (fun e : Entry => path_text e.1.1 <> trailer_name) es
  /\ forall m, m ∈ ms -> exists b, read_module m = Ok b /\ (modules_prefix release ++ m, CpioKind_File b, 420%Z) ∈ es.
Proof.
  unfold initramfs_entries. destruct busybox as [read|]; [|done]. intros H Hm.
  apply bind_Ok in H as ([bytes perms] & _ & H). apply bind_Ok in H as (mods & Hp & H).
  apply push_modules_spec in Hp as (HT & HN & HU & HF); [|by left|done]. injection H as <-. set (prefix := modules_prefix release) in *.
  set (init_body := match flavor with InitramfsFlavor_Boot => build_boot_init_script release ms
                    | InitramfsFlavor_Run => build_run_init_script release ms end). clearbody init_body.
  set (tail := mods ++ [(["init" : str], CpioKind_File init_body, 493%Z)]).
  assert (HTt : tree_from [prefix] tail).
  { apply tree_from_app; [done|]. constructor; [by left|constructor]. }
  assert (HDt : dirs_of tail = dirs_of mods) by (unfold tail; rewrite dirs_of_app; apply app_nil_r).
  split_and!.
  - repeat (constructor; [first [by left|right; cbn [is_dir top_level_dir]; set_solver]|]).
    cbn [is_dir top_level_dir]. revert HTt. apply tree_from_mono. set_solver.
  - change (dirs_of _) with (top_dirs ++ prefix :: dirs_of tail). rewrite HDt.
    assert (HN' := HN (NoDup_singleton prefix)). apply NoDup_app. split_and!; [apply (bool_decide_unpack _); by vm_compute| |exact HN'].
    intros p Hp Hin. assert (HL : length p <= 2).
    { unfold top_dirs, modules_root in Hp. repeat (apply elem_of_cons in Hp as [->|Hp]; [simpl; lia|]). by apply elem_of_nil in Hp. }
    apply elem_of_cons in Hin as [->|Hin]; [by simpl in HL; lia|]. unfold dirs_of in Hin.
    apply list_elem_of_fmap in Hin as (e & -> & [_ He]%list_elem_of_filter). rewrite Forall_forall in HU.
    destruct (HU e He) as (x & rest & E). rewrite E, length_app in HL. unfold prefix in HL. simpl in HL. lia.
  - repeat (apply Forall_cons_2; [first [apply path_text_lib|by vm_compute]|]). apply Forall_app_2.
    + eapply Forall_impl; [exact HU|]. intros e (x & rest & E). rewrite E. apply path_text_lib.
    + apply Forall_cons_2; [by vm_compute|apply Forall_nil_2].
  - intros m Hin. destruct (HF m Hin) as (b & Hb & He). exists b. split; [done|].
    rewrite !elem_of_cons, elem_of_app. tauto.
Qed.

(** ** Properties *)

(** C27 (invariant): a generated initramfs is an archive in which every entry
    comes after the directory that holds it and no directory comes twice, which
    holds every module selected, with its contents, and which reads back as
    these entries when their sizes fit the format. *)
Theorem initramfs_unpacks busybox read_module gzip kernel files modules_dep flavor bytes report :
  Forall (fun p => p <> []) files ->
  generate_initramfs_with_flavor busybox read_module gzip kernel (Some files) modules_dep flavor = Val (Ok (bytes, report)) ->
  exists ms es, collect_modules_for (Some files) modules_dep flavor = Val ms
    /\ gzip (finish (to_cpio <$> es)) = Ok bytes
    /\ tree_from [] es /\ NoDup (dirs_of es)
    /\ (forall m, m ∈ ms -> exists b, read_module m = Ok b
          /\ (modules_prefix (release kernel) ++ m, CpioKind_File b, 420%Z) ∈ es)
    /\ (Forall (fun e => sizes_ok (cpio_path e) (kind_payload (cpio_kind e))) (to_cpio <$> es) ->
        (Z.of_nat (length es) < 2 ^ 32)%Z ->
        unpack (finish (to_cpio <$> es)) = Some (imap node_of (to_cpio <$> es))).
Proof.
  intros HF. unfold generate_initramfs_with_flavor. destruct busybox as [[[bb perms]|e]|]; [|done|done]. intros H.
  apply bind_Val in H as (ms & Hms & H).
  destruct (initramfs_entries (Some (Ok (bb, perms))) read_module (release kernel) flavor ms) as [es|] eqn:He; [|done].
  cbn [mbind result_bind] in H. destruct (gzip (finish (to_cpio <$> es))) as [compressed|] eqn:Hz; [|done]. injection H as <- <-.
  apply initramfs_entries_spec in He as (HT & HN & HP & HM).
  - exists ms, es. split_and!; try done. intros HS HL. apply unpack_finish; [|by rewrite length_fmap].
    apply Forall_fmap. rewrite Forall_fmap in HS. apply Forall_forall. intros e Hin. rewrite Forall_forall in HS, HP.
    split; [by apply HS|by apply HP|by split..].
  - rewrite Forall_forall in HF |- *. intros m Hm. by apply HF, (collect_modules_files flavor files modules_dep ms).
Qed.

Definition sample_kernel : KernelLayout := layout_of "vmlinuz-6.6" "6.6".
Definition sample_busybox : option (result str (str * Z)) := Some (Ok ("ELF" : str, 33261%Z)).
Definition sample_initramfs : outcome (result InitrdError (str * InitrdReport)) :=
  generate_initramfs_with_flavor sample_busybox (fun m => Ok (name_of m)) Ok sample_kernel (Some sample_files) (Some sample_dep)
    InitramfsFlavor_Boot.
Definition sample_report (r : outcome (result InitrdError (str * InitrdReport))) : option (str * InitrdReport) :=
  match r with Val (Ok x) => Some x | _ => None end.

Lemma sample_builds : bool_decide (is_Some (sample_report sample_initramfs)) = true.
Proof. vm_compute. reflexivity. Qed.

Lemma initramfs_unpacks_witness :
  exists bytes es, option_map fst (sample_report sample_initramfs) = Some bytes /\ bytes = finish (to_cpio <$> es) /\ NoDup (dirs_of es).
Proof.
  destruct sample_initramfs as [[[bytes report]|e]| |] eqn:E;
    [|pose proof sample_builds as HB; rewrite E in HB; discriminate HB..].
  destruct (initramfs_unpacks sample_busybox (fun m => Ok (name_of m)) Ok sample_kernel sample_files (Some sample_dep)
    InitramfsFlavor_Boot bytes report) as (ms & es & _ & Hz & _ & HN & _);
    [repeat (apply Forall_cons_2; [discriminate|]); apply Forall_nil_2|exact E|].
  exists bytes, es. split; [done|]. split; [by injection Hz|exact HN].
Defined.

(** The boot script reads the command line with [cat] and looks the device up
    with [findfs]; the archive links neither to busybox. *)
Example unlinked_commands :
  let boot := build_boot_init_script "6.6" [] in
  contains "$(cat /proc/cmdline" boot = true /\ contains "$(findfs " boot = true
  /\ bool_decide (("cat" : str) ∈ applets) = false /\ bool_decide (("findfs" : str) ∈ applets) = false.
Proof. by vm_compute. Qed.
