(* ===== verification/Disk.v ===== *)
(** * Disk: geometry, partition table and partition windows
    (crates/umf-compile/src/partition.rs).

    The bytes of a disk file are a list.  The [gpt] crate is the class [Gpt]. *)

From Stdlib Require Import ZifyBool.
From S2P Require Import Prelude RustStr RustStrFacts Validation Target Layout.
#[local] Open Scope Z_scope.

(** ** Geometry *)

Definition LOGICAL_BLOCK_SIZE : Z := 512.
Definition GPT_RESERVED_LBA : Z := 34.
Definition DEFAULT_ROOTFS_MIN_SIZE_BYTES : Z := 32 * 1024 * 1024.
Definition DEFAULT_DISK_SIZE_BYTES : Z := 2 * 1024 * 1024 * 1024.
Definition DEFAULT_ESP_SIZE_BYTES : Z := 500 * 1024 * 1024.

Definition u64_limit : Z := 2 ^ 64.
Definition checked_mul (a b : Z) : option Z := if a * b <? u64_limit then Some (a * b) else None.
Definition checked_add (a b : Z) : option Z := if a + b <? u64_limit then Some (a + b) else None.
Definition saturating_add (a b : Z) : Z := Z.min (a + b) (u64_limit - 1).

Record DiskGeometry := { disk_size : Z; esp_size : Z }.
Definition DiskGeometry_default : DiskGeometry :=
  {| disk_size := DEFAULT_DISK_SIZE_BYTES; esp_size := DEFAULT_ESP_SIZE_BYTES |}.
Definition geometry_ok (g : DiskGeometry) : Prop := 0 <= disk_size g < u64_limit /\ 0 <= esp_size g < u64_limit.

Definition fs_cache_tag (fs : option RootfsFs) : Z :=
  match fs with None => 0 | Some Squashfs => 1 | Some Ext4 => 2 | Some Erofs => 3 end.

(** [{:0nx}] of a value of at most [n] digits. *)
Definition lower_hex_digit (n : Z) : ascii := nth (Z.to_nat n) ("0123456789abcdef" : str) "0"%char.
Fixpoint hex_fixed (n : nat) (v : Z) : str :=
  match n with O => [] | S n => hex_fixed n (v / 16) ++ [lower_hex_digit (v mod 16)] end.

Definition cache_variant (g : DiskGeometry) (fs : option RootfsFs) : str :=
  hex_fixed 16 (disk_size g) ++ hex_fixed 16 (esp_size g) ++ hex_fixed 2 (fs_cache_tag fs).

Inductive CompileError :=
| UkifyUnavailable
| UkifyFailed (message : str)
| CrossArchUki (target host : Architecture)
| DiskTooSmall (disk required : Z)
| NotBootable (reference kind : str)
| MissingLabel (label : str)
| UnsafeLabelPath (label value : str)
| UnsafeLabelValue (label : str)
| CompileError_ImageIndex (reference : str)
| UnsupportedBootloader (flavor : str)
| BootloaderUnavailable (kind tried : str)
| UnsupportedRootfsFs (value supported : str)
| CompileError_Json (e : str)
| CompileError_Materialize (e : str)
| CompileError_Oci (e : RegistryError)
| CompileError_Filesystem (e : str)
| CompileError_Gpt (e : str)
| CompileError_Mbr (e : str)
| CompileError_Io (e : str).

Record DiskPlan := { plan_disk_size : Z; plan_esp_size : Z }.

Definition compute_disk_plan (g : DiskGeometry) : result CompileError DiskPlan :=
  let sum := gpt_overhead ← checked_mul GPT_RESERVED_LBA (2 * LOGICAL_BLOCK_SIZE); checked_add (esp_size g) gpt_overhead in
  required ← ok_or sum (DiskTooSmall (disk_size g) (u64_limit - 1));
  if disk_size g <? required then Err (DiskTooSmall (disk_size g) required)
  else Ok {| plan_disk_size := disk_size g; plan_esp_size := esp_size g |}.
Definition validate_geometry (g : DiskGeometry) : result CompileError unit := _ ← compute_disk_plan g; Ok tt.

(** ** The partition table *)

(** [first_lba] and [last_lba] of a partition, both included. *)
Record Partition := { first_lba : Z; last_lba : Z }.

Class Gpt := {
  Table : Type;
  (** The file of the given size with its protective MBR and an empty table. *)
  gpt_create : Z -> result CompileError Table;
  add_partition : Table -> str -> Z -> result CompileError (Table * Partition);
  find_free_sectors : Table -> list (Z * Z);
  gpt_write : Table -> result CompileError unit
}.

Record PartitionLayout := { esp_first_lba : Z; esp_size_lba : Z; rootfs_first_lba : Z; rootfs_size_lba : Z }.

(** [max_by_key(|(_, len)| *len)]: the last of the longest. *)
Definition largest (free : list (Z * Z)) : option (Z * Z) :=
  fold_left (fun best x => match best with Some b => if b.2 <=? x.2 then Some x else Some b | None => Some x end) free None.

Definition write_gpt {G : Gpt} (plan : DiskPlan) : result CompileError PartitionLayout :=
  let too_small := DiskTooSmall (plan_disk_size plan) (saturating_add (plan_esp_size plan) DEFAULT_ROOTFS_MIN_SIZE_BYTES) in
  disk ← gpt_create (plan_disk_size plan);
  '(disk, esp) ← add_partition disk "ESP" (plan_esp_size plan);
  free ← ok_or (largest (find_free_sectors disk)) too_small;
  rootfs_bytes ← ok_or (checked_mul free.2 LOGICAL_BLOCK_SIZE) too_small;
  if rootfs_bytes <? DEFAULT_ROOTFS_MIN_SIZE_BYTES then Err too_small
  else
    '(disk, rootfs) ← add_partition disk ROOTFS_PARTLABEL rootfs_bytes;
    _ ← gpt_write disk;
    Ok {| esp_first_lba := first_lba esp; esp_size_lba := last_lba esp - first_lba esp + 1;
          rootfs_first_lba := first_lba rootfs; rootfs_size_lba := last_lba rootfs - first_lba rootfs + 1 |}.

(** ** Windows on the disk *)

(** A file written at an offset, with a gap filled by zeros, and read. *)
Definition write_at (off : nat) (data file : str) : str :=
  take off file ++ replicate (off - length file)%nat nul ++ data ++ drop (off + length data) file.
Definition read_at (off n : nat) (file : str) : str := take n (drop off file).

Record PartitionView := {
  view_file : str;
  start_bytes : Z;
  length_bytes : Z;
  pos_bytes : Z;
  view_label : str
}.
Definition PartitionView_new (file : str) (start len : Z) (label : str) : PartitionView :=
  {| view_file := file; start_bytes := start; length_bytes := len; pos_bytes := 0; view_label := label |}.

Definition view_remaining (v : PartitionView) : Z := Z.max 0 (length_bytes v - pos_bytes v).

Definition at_pos (v : PartitionView) (file : str) (pos : Z) : PartitionView :=
  {| view_file := file; start_bytes := start_bytes v; length_bytes := length_bytes v; pos_bytes := pos;
     view_label := view_label v |}.

Inductive SeekFrom := SeekFrom_Start (n : Z) | SeekFrom_End (d : Z) | SeekFrom_Current (d : Z).

(** [n as i64], and an addition that overflows. *)
Definition as_i64 (n : Z) : Z := if n <? 2 ^ 63 then n else n - 2 ^ 64.
Definition add_i64 (a b : Z) : outcome Z := if (- 2 ^ 63 <=? a + b) && (a + b <? 2 ^ 63) then Val (a + b) else Panic.

(** The operations a file system asks of its device.  [chunk]: how much the
    operating system moves in one call. *)
Inductive Op :=
| Op_Read (n : nat) (chunk : nat)
| Op_Write (buf : str) (chunk : nat)
| Op_Seek (from : SeekFrom).
Inductive Answer :=
| Answer_Bytes (bytes : str)
| Answer_Count (n : nat)
| Answer_Pos (pos : Z)
| Answer_Full (label : str)
| Answer_NegativeSeek.

Definition view_read (n chunk : nat) (v : PartitionView) : Answer * PartitionView :=
  let max := Z.to_nat (Z.min (view_remaining v) (Z.of_nat n)) in
  if (max =? 0)%nat then (Answer_Bytes [], v)
  else
    let data := read_at (Z.to_nat (start_bytes v + pos_bytes v)) (Nat.min chunk max) (view_file v) in
    (Answer_Bytes data, at_pos v (view_file v) (pos_bytes v + Z.of_nat (length data))).

Definition view_write (buf : str) (chunk : nat) (v : PartitionView) : Answer * PartitionView :=
  let max := Z.to_nat (Z.min (view_remaining v) (Z.of_nat (length buf))) in
  if (max =? 0)%nat then (Answer_Full (view_label v), v)
  else
    let data := take (Nat.min chunk max) buf in
    (Answer_Count (length data),
     at_pos v (write_at (Z.to_nat (start_bytes v + pos_bytes v)) data (view_file v)) (pos_bytes v + Z.of_nat (length data))).

Definition view_seek (from : SeekFrom) (v : PartitionView) : outcome (Answer * PartitionView) :=
  new_pos ← match from with
            | SeekFrom_Start n => Val (as_i64 n)
            | SeekFrom_End d => add_i64 (as_i64 (length_bytes v)) d
            | SeekFrom_Current d => add_i64 (as_i64 (pos_bytes v)) d
            end;
  if new_pos <? 0 then Val (Answer_NegativeSeek, v)
  else Val (Answer_Pos new_pos, at_pos v (view_file v) new_pos).

Definition view_op (op : Op) (v : PartitionView) : outcome (Answer * PartitionView) :=
  match op with
  | Op_Read n chunk => Val (view_read n chunk v)
  | Op_Write buf chunk => Val (view_write buf chunk v)
  | Op_Seek from => view_seek from v
  end.

Fixpoint view_ops (ops : list Op) (v : PartitionView) : outcome (list Answer * PartitionView) :=
  match ops with
  | [] => Val ([], v)
  | op :: ops => '(a, v) ← view_op op v; '(answers, v) ← view_ops ops v; Val (a :: answers, v)
  end.

(** ** Windows are devices *)

(** A device of its own: bytes and a position. *)
Record Device := { dev_bytes : str; dev_pos : Z }.

Definition dev_read (n chunk : nat) (d : Device) : Answer * Device :=
  let data := take (Nat.min chunk n) (drop (Z.to_nat (dev_pos d)) (dev_bytes d)) in
  (Answer_Bytes data, {| dev_bytes := dev_bytes d; dev_pos := dev_pos d + Z.of_nat (length data) |}).

(** A write is cut at the end of the device and fails there. *)
Definition dev_write (label buf : str) (chunk : nat) (d : Device) : Answer * Device :=
  let room := (length (dev_bytes d) - Z.to_nat (dev_pos d))%nat in
  if (Nat.min room (length buf) =? 0)%nat then (Answer_Full label, d)
  else
    let data := take (Nat.min chunk room) buf in
    (Answer_Count (length data),
     {| dev_bytes := write_at (Z.to_nat (dev_pos d)) data (dev_bytes d); dev_pos := dev_pos d + Z.of_nat (length data) |}).

Definition dev_seek (from : SeekFrom) (d : Device) : outcome (Answer * Device) :=
  new_pos ← match from with
            | SeekFrom_Start n => Val (as_i64 n)
            | SeekFrom_End x => add_i64 (Z.of_nat (length (dev_bytes d))) x
            | SeekFrom_Current x => add_i64 (dev_pos d) x
            end;
  if new_pos <? 0 then Val (Answer_NegativeSeek, d)
  else Val (Answer_Pos new_pos, {| dev_bytes := dev_bytes d; dev_pos := new_pos |}).

Definition dev_op (label : str) (op : Op) (d : Device) : outcome (Answer * Device) :=
  match op with
  | Op_Read n chunk => Val (dev_read n chunk d)
  | Op_Write buf chunk => Val (dev_write label buf chunk d)
  | Op_Seek from => dev_seek from d
  end.
Fixpoint dev_ops (label : str) (ops : list Op) (d : Device) : outcome (list Answer * Device) :=
  match ops with
  | [] => Val ([], d)
  | op :: ops => '(a, d) ← dev_op label op d; '(answers, d) ← dev_ops label ops d; Val (a :: answers, d)
  end.

(** The view is on the middle one of three parts of the file. *)
Record window (v : PartitionView) (A B C : str) : Prop := {
  window_file : view_file v = A ++ B ++ C;
  window_start : start_bytes v = Z.of_nat (length A);
  window_length : length_bytes v = Z.of_nat (length B);
  window_small : Z.of_nat (length B) < 2 ^ 63;
  window_pos : 0 <= pos_bytes v < 2 ^ 63
}.

Lemma write_at_fits off (data B : str) : (off + length data <= length B)%nat ->
  write_at off data B = take off B ++ data ++ drop (off + length data) B /\ length (write_at off data B) = length B.
Proof.
  intros H. unfold write_at. replace (off - length B)%nat with 0%nat by lia. cbn [replicate app]. split; [done|].
  rewrite !length_app, length_take, length_drop. lia.
Qed.

Lemma write_at_middle off (data A B C : str) : (off + length data <= length B)%nat ->
  write_at (length A + off) data (A ++ B ++ C) = A ++ write_at off data B ++ C.
Proof.
  intros H. destruct (write_at_fits off data B H) as [-> _].
  destruct (write_at_fits (length A + off) data (A ++ B ++ C)) as [-> _]; [rewrite !length_app; lia|].
  rewrite take_app_add, <- Nat.add_assoc, drop_app_add, take_app_le, drop_app_le by lia. by rewrite <- !app_assoc.
Qed.

Lemma read_at_middle off n (A B C : str) : (off + n <= length B)%nat ->
  read_at (length A + off) n (A ++ B ++ C) = take n (drop off B).
Proof.
  intros H. unfold read_at. rewrite drop_app_add, drop_app_le by lia. apply take_app_le. rewrite length_drop. lia.
Qed.

Definition abs (v : PartitionView) (B : str) : Device := {| dev_bytes := B; dev_pos := pos_bytes v |}.

Section view_facts.
Context (v : PartitionView) (A B C : str) (W : window v A B C).

Lemma view_read_device n chunk a v' :
  view_read n chunk v = (a, v') -> window v' A B C /\ dev_read n chunk (abs v B) = (a, abs v' B).
Proof.
  destruct W as [Hf Hs Hl Hb Hp]. unfold view_read, dev_read, view_remaining, abs. cbn [dev_bytes dev_pos]. rewrite Hf, Hs, Hl.
  set (off := Z.to_nat (pos_bytes v)). set (m := Z.to_nat _).
  assert (Hm : m = Nat.min (length B - off) n) by lia.
  assert (HT : take (Nat.min chunk n) (drop off B) = take (Nat.min chunk m) (drop off B)).
  { rewrite Hm. destruct (decide (Nat.min chunk n <= length B - off)%nat); [f_equal; lia|].
    rewrite !take_ge by (rewrite length_drop; lia). done. }
  destruct (Nat.eqb_spec m 0) as [E|E]; intros H; injection H as <- <-.
  - split; [done|]. rewrite HT, E. rewrite Nat.min_0_r. cbn [take length]. by rewrite Z.add_0_r.
  - replace (Z.to_nat (Z.of_nat (length A) + pos_bytes v)) with (length A + off)%nat by lia.
    rewrite read_at_middle by lia. rewrite HT. split; [|done].
    assert (HD : (length (take (Nat.min chunk m) (drop off B)) <= length B - off)%nat) by (rewrite length_take, length_drop; lia).
    split; cbn; [done|done|done|done|lia].
Qed.

Lemma view_write_device buf chunk a v' :
  view_write buf chunk v = (a, v') ->
  exists B', length B' = length B /\ window v' A B' C /\ dev_write (view_label v) buf chunk (abs v B) = (a, abs v' B').
Proof.
  destruct W as [Hf Hs Hl Hb Hp]. unfold view_write, dev_write, view_remaining, abs. cbn [dev_bytes dev_pos]. rewrite Hf, Hs, Hl.
  set (off := Z.to_nat (pos_bytes v)). set (m := Z.to_nat _).
  assert (Hm : m = Nat.min (length B - off) (length buf)) by lia. rewrite <- Hm.
  assert (HT : take (Nat.min chunk (length B - off)) buf = take (Nat.min chunk m) buf).
  { rewrite Hm. destruct (decide (Nat.min chunk (length B - off) <= length buf)%nat); [f_equal; lia|].
    rewrite !take_ge by lia. done. }
  destruct (Nat.eqb_spec m 0) as [E|E]; intros H; injection H as <- <-; [by exists B|].
  rewrite HT. set (data := take (Nat.min chunk m) buf) in *.
  assert (HD : (off + length data <= length B)%nat) by (unfold data; rewrite length_take; lia).
  replace (Z.to_nat (Z.of_nat (length A) + pos_bytes v)) with (length A + off)%nat by lia. rewrite write_at_middle by done.
  destruct (write_at_fits off data B HD) as [_ HL]. exists (write_at off data B). split; [done|]. split; [|done].
  split; cbn; [done|done|by rewrite HL|by rewrite HL|lia].
Qed.

Lemma view_seek_device from :
  (match from with SeekFrom_Start n => 0 <= n < 2 ^ 64 | _ => True end) ->
  match view_seek from v with
  | Val (a, v') => window v' A B C /\ dev_seek from (abs v B) = Val (a, abs v' B)
  | Panic => dev_seek from (abs v B) = Panic
  | OutOfFuel => False
  end.
Proof.
  intros HS. destruct W as [Hf Hs Hl Hb Hp]. unfold view_seek, dev_seek, abs. cbn [dev_bytes dev_pos].
  assert (E1 : as_i64 (length_bytes v) = Z.of_nat (length B)) by (rewrite Hl; unfold as_i64; destruct (Z.ltb_spec (Z.of_nat (length B)) (2 ^ 63)); lia).
  assert (E2 : as_i64 (pos_bytes v) = pos_bytes v) by (unfold as_i64; destruct (Z.ltb_spec (pos_bytes v) (2 ^ 63)); lia).
  rewrite E1, E2.
  assert (HG : forall p, p < 2 ^ 63 -> match (if p <? 0 then Val (Answer_NegativeSeek, v) else Val (Answer_Pos p, at_pos v (view_file v) p)) with
    | Val (a, v') => window v' A B C /\ (if p <? 0 then Val (Answer_NegativeSeek, abs v B) else Val (Answer_Pos p, {| dev_bytes := B; dev_pos := p |}))
                     = Val (a, abs v' B) | Panic => False | OutOfFuel => False end).
  { intros p Hp'. destruct (Z.ltb_spec p 0); [done|]. split; [|done]. split; cbn; [done..|lia]. }
  assert (HA : forall x y, match add_i64 x y with Val p => p < 2 ^ 63 | Panic => True | OutOfFuel => False end)
    by (intros x y; unfold add_i64; destruct ((- 2 ^ 63 <=? x + y) && (x + y <? 2 ^ 63)) eqn:E; [bools; lia|done]).
  destruct from as [n|d|d].
  - cbn [mbind outcome_bind]. assert (HN : as_i64 n < 2 ^ 63) by (unfold as_i64; destruct (Z.ltb_spec n (2 ^ 63)); lia).
    specialize (HG _ HN). destruct (as_i64 n <? 0); exact HG.
  - specialize (HA (Z.of_nat (length B)) d). destruct (add_i64 _ d) as [p| |]; cbn [mbind outcome_bind]; [|done|done].
    specialize (HG p HA). destruct (p <? 0); exact HG.
  - specialize (HA (pos_bytes v) d). destruct (add_i64 _ d) as [p| |]; cbn [mbind outcome_bind]; [|done|done].
    specialize (HG p HA). destruct (p <? 0); exact HG.
Qed.
End view_facts.

(** What the [Seek] of the standard library can ask. *)
Definition op_ok (op : Op) : Prop :=
  match op with Op_Seek (SeekFrom_Start n) => 0 <= n < 2 ^ 64 | _ => True end.

Lemma view_op_label op v a v' : view_op op v = Val (a, v') -> view_label v' = view_label v.
Proof.
  destruct op as [n chunk|buf chunk|from]; cbn [view_op].
  - unfold view_read. destruct (Z.to_nat _ =? 0)%nat; intros; simplify_eq; done.
  - unfold view_write. destruct (Z.to_nat _ =? 0)%nat; intros; simplify_eq; done.
  - unfold view_seek. intros (p & _ & H)%bind_Val. destruct (p <? 0); by simplify_eq.
Qed.

Lemma view_op_device op v A B C : window v A B C -> op_ok op ->
  match view_op op v with
  | Val (a, v') => exists B', length B' = length B /\ window v' A B' C /\ dev_op (view_label v) op (abs v B) = Val (a, abs v' B')
  | Panic => dev_op (view_label v) op (abs v B) = Panic
  | OutOfFuel => False
  end.
Proof.
  intros W Hop. destruct op as [n chunk|buf chunk|from]; cbn [view_op dev_op].
  - destruct (view_read n chunk v) as [a v'] eqn:E. apply (view_read_device v A B C W) in E as [Hw ->]. by exists B.
  - destruct (view_write buf chunk v) as [a v'] eqn:E. apply (view_write_device v A B C W) in E as (B' & HL & Hw & ->). by exists B'.
  - pose proof (view_seek_device v A B C W from ltac:(by destruct from)) as HS.
    destruct (view_seek from v) as [[a v']| |]; [|done|done]. destruct HS as [Hw ->]. by exists B.
Qed.

Lemma view_ops_device ops v A B C : window v A B C -> Forall op_ok ops ->
  match view_ops ops v with
  | Val (answers, v') => exists B', length B' = length B /\ window v' A B' C
      /\ dev_ops (view_label v) ops (abs v B) = Val (answers, abs v' B')
  | Panic => dev_ops (view_label v) ops (abs v B) = Panic
  | OutOfFuel => False
  end.
Proof.
  intros W HF. revert v B W. induction HF as [|op ops Hop _ IH]; intros v B W; cbn [view_ops dev_ops]; [by exists B|].
  pose proof (view_op_device op v A B C W Hop) as H1. destruct (view_op op v) as [[a v1]| |] eqn:E1; cbn [mbind outcome_bind];
    [|by rewrite H1|done]. destruct H1 as (B1 & HL1 & W1 & E). rewrite E. cbn [mbind outcome_bind].
  apply view_op_label in E1. specialize (IH v1 B1 W1). rewrite E1 in IH.
  destruct (view_ops ops v1) as [[answers v2]| |]; cbn [mbind outcome_bind]; [|by rewrite IH|done].
  destruct IH as (B2 & HL2 & W2 & E2). exists B2. rewrite E2. split; [congruence|done].
Qed.

(** ** The partitions of a disk *)

Definition slice_of (off len : Z) (file : str) : str := take (Z.to_nat len) (drop (Z.to_nat off) file).

(** What the code relies on: a new table is free between its two copies; a
    partition is as large as asked and put in free space; what is free after it
    was free and is not in it. *)
Class GptLaws (G : Gpt) := {
  create_free : forall size t x, gpt_create size = Ok t -> x ∈ find_free_sectors t ->
    0 <= x.1 /\ 0 <= x.2 /\ (x.1 + x.2) * LOGICAL_BLOCK_SIZE <= size;
  add_in_free : forall t name size t' p, add_partition t name size = Ok (t', p) ->
    first_lba p <= last_lba p /\ size <= (last_lba p - first_lba p + 1) * LOGICAL_BLOCK_SIZE
    /\ exists x, x ∈ find_free_sectors t /\ x.1 <= first_lba p /\ last_lba p < x.1 + x.2;
  add_shrinks : forall t name size t' p x, add_partition t name size = Ok (t', p) -> x ∈ find_free_sectors t' ->
    (exists y, y ∈ find_free_sectors t /\ y.1 <= x.1 /\ x.1 + x.2 <= y.1 + y.2)
    /\ (x.1 + x.2 <= first_lba p \/ last_lba p < x.1)
}.

(** Two partitions of a disk that do not overlap. *)
Record disjoint_layout (disk : Z) (L : PartitionLayout) : Prop := {
  dl_esp : 0 <= esp_first_lba L /\ 0 < esp_size_lba L
           /\ (esp_first_lba L + esp_size_lba L) * LOGICAL_BLOCK_SIZE <= disk;
  dl_rootfs : 0 <= rootfs_first_lba L /\ DEFAULT_ROOTFS_MIN_SIZE_BYTES <= rootfs_size_lba L * LOGICAL_BLOCK_SIZE
              /\ (rootfs_first_lba L + rootfs_size_lba L) * LOGICAL_BLOCK_SIZE <= disk;
  dl_apart : rootfs_first_lba L + rootfs_size_lba L <= esp_first_lba L
             \/ esp_first_lba L + esp_size_lba L <= rootfs_first_lba L
}.

Lemma write_gpt_disjoint {G : Gpt} {GL : GptLaws G} plan L :
  write_gpt plan = Ok L -> disjoint_layout (plan_disk_size plan) L /\ plan_esp_size plan <= esp_size_lba L * LOGICAL_BLOCK_SIZE.
Proof.
  unfold write_gpt. intros (t0 & H0 & H)%bind_Ok. apply bind_Ok in H as ([t1 esp] & H1 & H). cbv beta iota in H.
  apply bind_Ok in H as (free & _ & H). apply bind_Ok in H as (bytes & _ & H).
  destruct (Z.ltb_spec bytes DEFAULT_ROOTFS_MIN_SIZE_BYTES) as [|Hmin]; [done|].
  apply bind_Ok in H as ([t2 rootfs] & H2 & H). cbv beta iota in H. apply bind_Ok in H as ([] & _ & H). injection H as <-.
  destruct (add_in_free _ _ _ _ _ H1) as (He & Hes & x & Hx & Hx1 & Hx2).
  destruct (add_in_free _ _ _ _ _ H2) as (Hr & Hrs & y & Hy & Hy1 & Hy2).
  destruct (add_shrinks _ _ _ _ _ y H1 Hy) as [(z & Hz & Hz1 & Hz2) Hap].
  destruct (create_free _ _ x H0 Hx) as (? & ? & ?). destruct (create_free _ _ z H0 Hz) as (? & ? & ?).
  split; [|done]. unfold LOGICAL_BLOCK_SIZE in *.
  split; cbn [esp_first_lba esp_size_lba rootfs_first_lba rootfs_size_lba]; unfold LOGICAL_BLOCK_SIZE; lia.
Qed.

Lemma slice_middle (A B C : str) : slice_of (Z.of_nat (length A)) (Z.of_nat (length B)) (A ++ B ++ C) = B.
Proof. unfold slice_of. by rewrite !Nat2Z.id, drop_app_length, take_app_length. Qed.

Lemma file_parts off len (file : str) : 0 <= off -> 0 <= len -> off + len <= Z.of_nat (length file) ->
  exists A C, file = A ++ slice_of off len file ++ C /\ Z.of_nat (length A) = off /\ Z.of_nat (length (slice_of off len file)) = len.
Proof.
  intros Ho Hl Hf. exists (take (Z.to_nat off) file), (drop (Z.to_nat len) (drop (Z.to_nat off) file)). unfold slice_of.
  rewrite !take_drop. split; [done|]. rewrite !length_take, length_drop. lia.
Qed.

Lemma slice_ext off len (f g : str) : 0 <= off -> 0 <= len ->
  (forall i, (Z.to_nat off <= i < Z.to_nat (off + len))%nat -> f !! i = g !! i) -> slice_of off len f = slice_of off len g.
Proof.
  intros Ho Hl H. unfold slice_of. apply list_eq. intros i. destruct (decide (i < Z.to_nat len)%nat) as [Hi|Hi].
  - rewrite !lookup_take_lt, !lookup_drop by done. apply H. lia.
  - rewrite !lookup_take_ge by lia. done.
Qed.

(** What the operations on a window leave of the file. *)
Lemma view_ops_file ops file off len label answers v' :
  0 <= off -> 0 <= len < 2 ^ 63 -> off + len <= Z.of_nat (length file) -> Forall op_ok ops ->
  view_ops ops (PartitionView_new file off len label) = Val (answers, v') ->
  length (view_file v') = length file
  /\ dev_ops label ops {| dev_bytes := slice_of off len file; dev_pos := 0 |}
     = Val (answers, {| dev_bytes := slice_of off len (view_file v'); dev_pos := pos_bytes v' |})
  /\ forall i, (i < Z.to_nat off \/ Z.to_nat (off + len) <= i)%nat -> view_file v' !! i = file !! i.
Proof.
  intros Ho Hl Hf HO HV. destruct (file_parts off len file) as (A & C & E & HA & HB); [lia..|].
  set (B := slice_of off len file) in *. assert (HW : window (PartitionView_new file off len label) A B C) by (split; cbn; lia || done).
  pose proof (view_ops_device ops _ A B C HW HO) as HD. rewrite HV in HD. destruct HD as (B' & HL & [Hf' _ _ _ _] & HE).
  rewrite Hf'. split_and!.
  - rewrite E at 1. rewrite !length_app, HL. done.
  - assert (HS : slice_of off len (A ++ B' ++ C) = B') by (rewrite <- HA, <- HB, <- HL; apply slice_middle).
    rewrite HS. exact HE.
  - intros i Hi. rewrite E. destruct Hi as [Hi|Hi]; [rewrite !lookup_app_l by lia; done|].
    rewrite !(lookup_app_r A) by lia. rewrite !lookup_app_r by lia. by rewrite HL.
Qed.

(** ** Cache variants *)

Lemma hex_fixed_length n v : length (hex_fixed n v) = n.
Proof. revert v. induction n as [|n IH]; intros v; [done|]. cbn [hex_fixed]. rewrite length_app, IH. simpl. lia. Qed.

Lemma lower_hex_digit_inj a b : 0 <= a < 16 -> 0 <= b < 16 -> lower_hex_digit a = lower_hex_digit b -> a = b.
Proof.
  intros Ha Hb E. assert (HF : forallb (fun x => forallb (fun y => implb (Ascii.eqb (lower_hex_digit (Z.of_nat x)) (lower_hex_digit (Z.of_nat y)))
    (x =? y)%nat) (seq 0 16)) (seq 0 16) = true) by (vm_compute; reflexivity).
  rewrite forallb_forall in HF. specialize (HF (Z.to_nat a) ltac:(apply in_seq; lia)). rewrite forallb_forall in HF.
  specialize (HF (Z.to_nat b) ltac:(apply in_seq; lia)). rewrite !Z2Nat.id, E, Ascii.eqb_refl in HF by lia.
  cbn [implb] in HF. apply Nat.eqb_eq in HF. lia.
Qed.

Lemma hex_fixed_inj n v w : 0 <= v < 16 ^ Z.of_nat n -> 0 <= w < 16 ^ Z.of_nat n -> hex_fixed n v = hex_fixed n w -> v = w.
Proof.
  revert v w. induction n as [|n IH]; intros v w Hv Hw E; [cbn in Hv, Hw; lia|]. cbn [hex_fixed] in E.
  apply app_inj_tail in E as [E1 E2]. rewrite Nat2Z.inj_succ, Z.pow_succ_r in Hv, Hw by lia.
  apply lower_hex_digit_inj in E2; [|apply Z.mod_pos_bound; lia..].
  apply IH in E1; [|split; [apply Z.div_pos; lia|apply Z.div_lt_upper_bound; lia]..].
  rewrite (Z.div_mod v 16), (Z.div_mod w 16) by lia. congruence.
Qed.

Lemma hex_fixed_digits n v : forallb is_ascii_hexdigit (hex_fixed n v) = true.
Proof.
  revert v. induction n as [|n IH]; intros v; [done|]. cbn [hex_fixed]. rewrite forallb_app, IH. cbn [forallb andb].
  rewrite andb_true_r. pose proof (Z.mod_pos_bound v 16 ltac:(lia)) as Hm.
  assert (HF : forallb (fun x => is_ascii_hexdigit (lower_hex_digit (Z.of_nat x))) (seq 0 16) = true) by (vm_compute; reflexivity).
  rewrite forallb_forall in HF. specialize (HF (Z.to_nat (v mod 16)) ltac:(apply in_seq; lia)). by rewrite Z2Nat.id in HF by lia.
Qed.

(** ** Properties *)

(** A window on a partition behaves as a device of the
    partition's size that starts at offset 0: every sequence of reads, writes and
    seeks gives the answers of such a device, and the partition then holds the
    device's bytes. *)
Theorem view_refines_device ops v A B C : window v A B C -> Forall op_ok ops ->
  match view_ops ops v with
  | Val (answers, v') => exists B', length B' = length B /\ window v' A B' C
      /\ dev_ops (view_label v) ops (abs v B) = Val (answers, abs v' B')
  | Panic => dev_ops (view_label v) ops (abs v B) = Panic
  | OutOfFuel => False
  end.
Proof. apply view_ops_device. Qed.

(** C25 (safety): the two partitions of a disk are in it and do not overlap, and
    filling them, whatever the two file systems write, changes nothing else:
    each then holds what its own device would, the rest of the disk is as it
    was. *)
Theorem partitions_isolated {G : Gpt} {GL : GptLaws G} plan L file ops_esp ops_rootfs answers1 answers2 v1 v2 :
  write_gpt plan = Ok L -> Z.of_nat (length file) = plan_disk_size plan -> plan_disk_size plan < 2 ^ 63 ->
  Forall op_ok ops_esp -> Forall op_ok ops_rootfs ->
  let esp_start := esp_first_lba L * LOGICAL_BLOCK_SIZE in
  let esp_len := esp_size_lba L * LOGICAL_BLOCK_SIZE in
  let rootfs_start := rootfs_first_lba L * LOGICAL_BLOCK_SIZE in
  let rootfs_len := rootfs_size_lba L * LOGICAL_BLOCK_SIZE in
  view_ops ops_esp (PartitionView_new file esp_start esp_len "ESP") = Val (answers1, v1) ->
  view_ops ops_rootfs (PartitionView_new (view_file v1) rootfs_start rootfs_len ROOTFS_PARTLABEL) = Val (answers2, v2) ->
  dev_ops "ESP" ops_esp {| dev_bytes := slice_of esp_start esp_len file; dev_pos := 0 |}
    = Val (answers1, {| dev_bytes := slice_of esp_start esp_len (view_file v2); dev_pos := pos_bytes v1 |})
  /\ dev_ops ROOTFS_PARTLABEL ops_rootfs {| dev_bytes := slice_of rootfs_start rootfs_len file; dev_pos := 0 |}
    = Val (answers2, {| dev_bytes := slice_of rootfs_start rootfs_len (view_file v2); dev_pos := pos_bytes v2 |})
  /\ length (view_file v2) = length file
  /\ forall i, (i < Z.to_nat esp_start \/ Z.to_nat (esp_start + esp_len) <= i)%nat ->
       (i < Z.to_nat rootfs_start \/ Z.to_nat (rootfs_start + rootfs_len) <= i)%nat -> view_file v2 !! i = file !! i.
Proof.
  intros HG HL HD HO1 HO2 es el rs rl H1 H2. apply write_gpt_disjoint in HG as [[(E1 & E2 & E3) (R1 & R2 & R3) HA] _].
  unfold LOGICAL_BLOCK_SIZE, DEFAULT_ROOTFS_MIN_SIZE_BYTES in *.
  apply view_ops_file in H1 as (L1 & D1 & K1); [|unfold es, el in *; lia..|done].
  apply view_ops_file in H2 as (L2 & D2 & K2); [|unfold rs, rl in *; lia..|done].
  assert (S1 : slice_of es el (view_file v2) = slice_of es el (view_file v1))
    by (apply slice_ext; [unfold es; lia|unfold el; lia|]; intros i Hi; apply K2; unfold es, el, rs, rl in *; lia).
  assert (S2 : slice_of rs rl (view_file v1) = slice_of rs rl file)
    by (apply slice_ext; [unfold rs; lia|unfold rl; lia|]; intros i Hi; apply K1; unfold es, el, rs, rl in *; lia).
  rewrite S1, <- S2. split_and!; [done|done|lia|]. intros i Hi Hj. by rewrite K2, K1.
Qed.

(** Disks of different geometries or file systems have different
    cache variants, and every variant is accepted as a file name of the block
    cache, so a cached disk is never taken for another. *)
Theorem cache_variants_distinct g g' fs fs' digest :
  geometry_ok g -> geometry_ok g' ->
  (cache_variant g fs = cache_variant g' fs' -> g = g' /\ fs = fs')
  /\ block_cache_path digest (cache_variant g fs)
     = ('(_, hex) ← split_digest digest; Ok (hex, cache_variant g fs ++ ".img")).
Proof.
  intros [Hd He] [Hd' He']. unfold u64_limit in *. split.
  - intros E. unfold cache_variant in E. apply app_inj_1 in E as [E1 E]; [|by rewrite !hex_fixed_length].
    apply app_inj_1 in E as [E2 E3]; [|by rewrite !hex_fixed_length].
    apply hex_fixed_inj in E1; [|done..]. apply hex_fixed_inj in E2; [|done..]. split; [destruct g, g'; simpl in *; by subst|].
    apply hex_fixed_inj in E3; [|destruct fs as [[]|]; done|destruct fs' as [[]|]; done].
    destruct fs as [[]|], fs' as [[]|]; try done; discriminate E3.
  - unfold block_cache_path. assert (HX : forallb is_ascii_hexdigit (cache_variant g fs) = true)
      by (unfold cache_variant; by rewrite !forallb_app, !hex_fixed_digits).
    rewrite HX. assert (HN : is_nil (cache_variant g fs) = false); [|by rewrite HN].
    destruct (cache_variant g fs) eqn:E; [|done]. apply (f_equal length) in E. unfold cache_variant in E.
    rewrite !length_app, !hex_fixed_length in E. simpl in E. lia.
Qed.

Lemma cache_variants_distinct_witness :
  cache_variant DiskGeometry_default None <> cache_variant DiskGeometry_default (Some Ext4).
Proof.
  intros E. destruct (cache_variants_distinct DiskGeometry_default DiskGeometry_default None (Some Ext4) []) as [H _];
    [split; split; by vm_compute|split; split; by vm_compute|]. by destruct (H E).
Defined.

(** A disk is accepted exactly when the sizes, taken as integers,
    fit; no 64-bit sum wraps around. *)
Theorem compute_disk_plan_exact g p : geometry_ok g ->
  compute_disk_plan g = Ok p <->
  esp_size g + 2 * GPT_RESERVED_LBA * LOGICAL_BLOCK_SIZE <= disk_size g
  /\ p = {| plan_disk_size := disk_size g; plan_esp_size := esp_size g |}.
Proof.
  intros [Hd He]. unfold compute_disk_plan. change (checked_mul GPT_RESERVED_LBA (2 * LOGICAL_BLOCK_SIZE)) with (Some 34816).
  cbn [mbind option_bind]. unfold checked_add, GPT_RESERVED_LBA, LOGICAL_BLOCK_SIZE, u64_limit in *.
  destruct (Z.ltb_spec (esp_size g + 34816) (2 ^ 64)); cbn [ok_or mbind result_bind].
  - destruct (Z.ltb_spec (disk_size g) (esp_size g + 34816)); split; [done|lia| |].
    + intros E. injection E as <-. split; [lia|done].
    + by intros [_ ->].
  - split; [done|lia].
Qed.

Lemma compute_disk_plan_exact_witness :
  exists p, compute_disk_plan DiskGeometry_default = Ok p /\ plan_esp_size p = DEFAULT_ESP_SIZE_BYTES.
Proof.
  eexists. split; [apply (compute_disk_plan_exact DiskGeometry_default); [split; split; by vm_compute|split; [by vm_compute|reflexivity]]|done].
Defined.

(** ** A partition table *)

(** One free region, from which partitions are taken in order. *)
Module ModelGpt.

Definition gpt : Gpt := {|
  Table := Z * Z;
  gpt_create := fun size => Ok (34, size / 512 - 33);
  add_partition := fun t _ size =>
    let n := (size + 511) / 512 in
    if (0 <? size) && (t.1 + n <=? t.2) then Ok ((t.1 + n, t.2), {| first_lba := t.1; last_lba := t.1 + n - 1 |})
    else Err (CompileError_Gpt "no space");
  find_free_sectors := fun t => if t.1 <? t.2 then [(t.1, t.2 - t.1)] else [];
  gpt_write := fun _ => Ok tt
|}.

Lemma free_of (t : Z * Z) x : x ∈ (if t.1 <? t.2 then [(t.1, t.2 - t.1)] else []) -> x = (t.1, t.2 - t.1) /\ t.1 < t.2.
Proof. destruct (Z.ltb_spec t.1 t.2); [by intros ->%list_elem_of_singleton|by intros ?%elem_of_nil]. Qed.

Definition laws : GptLaws gpt.
Proof.
  split; cbn [gpt Table gpt_create add_partition find_free_sectors]; unfold LOGICAL_BLOCK_SIZE.
  - intros size t x H. injection H as <-. intros [-> Hlt]%free_of. cbn [fst snd] in *.
    pose proof (Z.mul_div_le size 512 ltac:(lia)). lia.
  - intros t name size t' p H. destruct (Z.ltb_spec 0 size); [|done]. destruct (Z.leb_spec (t.1 + (size + 511) / 512) t.2); [|done].
    injection H as <- <-. cbn [first_lba last_lba]. assert (Hn : 0 < (size + 511) / 512) by (apply Z.div_str_pos; lia).
    pose proof (Z.div_mod (size + 511) 512 ltac:(lia)). pose proof (Z.mod_pos_bound (size + 511) 512 ltac:(lia)).
    split_and!; [lia|lia|]. exists (t.1, t.2 - t.1). destruct (Z.ltb_spec t.1 t.2); [|lia]. split; [by left|]. cbn [fst snd]. lia.
  - intros t name size t' p x H. destruct (Z.ltb_spec 0 size); [|done]. destruct (Z.leb_spec (t.1 + (size + 511) / 512) t.2); [|done].
    injection H as <- <-. intros [-> Hlt]%free_of. cbn [fst snd first_lba last_lba] in *.
    assert (Hn : 0 < (size + 511) / 512) by (apply Z.div_str_pos; lia).
    split; [|lia]. exists (t.1, t.2 - t.1). destruct (Z.ltb_spec t.1 t.2); [|lia]. split; [by left|]. cbn [fst snd]. lia.
Defined.

Definition plan : DiskPlan := {| plan_disk_size := 64 * 1024 * 1024; plan_esp_size := 1024 * 1024 |}.
Definition layout : PartitionLayout :=
  {| esp_first_lba := 34; esp_size_lba := 2048; rootfs_first_lba := 2082; rootfs_size_lba := 128957 |}.
Lemma layout_written : write_gpt (G:=gpt) plan = Ok layout.
Proof. vm_compute. reflexivity. Qed.
End ModelGpt.

Lemma partitions_isolated_witness :
  let file := replicate (Z.to_nat (plan_disk_size ModelGpt.plan)) nul in
  exists v1 v2, view_ops [Op_Seek (SeekFrom_Start 8)] (PartitionView_new file (34 * 512) (2048 * 512) "ESP") = Val ([Answer_Pos 8], v1)
    /\ view_ops [] (PartitionView_new (view_file v1) (2082 * 512) (128957 * 512) ROOTFS_PARTLABEL) = Val ([], v2)
    /\ length (view_file v2) = length file.
Proof.
  intros file. eexists _, _. split; [reflexivity|]. split; [reflexivity|].
  eapply (partitions_isolated (G:=ModelGpt.gpt) (GL:=ModelGpt.laws) ModelGpt.plan ModelGpt.layout file [Op_Seek (SeekFrom_Start 8)] []);
    [exact ModelGpt.layout_written| |by vm_compute|apply Forall_cons_2; [split; by vm_compute|apply Forall_nil_2]|apply Forall_nil_2
    |reflexivity|reflexivity].
  unfold file. rewrite length_replicate, Z2Nat.id by (by vm_compute). reflexivity.
Defined.

Lemma view_refines_device_witness :
  exists B' v', view_ops [Op_Seek (SeekFrom_End (-2)); Op_Write "xyz" 3] (PartitionView_new "abcdef" 1 4 "ESP")
      = Val ([Answer_Pos 2; Answer_Count 2], v')
    /\ window v' "a" B' "f" /\ B' = "bcxy".
Proof.
  pose proof (view_refines_device [Op_Seek (SeekFrom_End (-2)); Op_Write "xyz" 3] (PartitionView_new "abcdef" 1 4 "ESP") "a" "bcde" "f")
    as H. destruct H as (B' & _ & HW & HE); [split; by vm_compute|repeat (apply Forall_cons_2; [done|]); apply Forall_nil_2|].
  eexists B', _. split; [vm_compute; reflexivity|]. split; [exact HW|]. vm_compute in HE. by injection HE as <-.
Defined.
