(* ===== verification/Compile.v ===== *)
(** * Compile: from a bootable image to a disk
    (crates/umf-compile/src/{image,uki,partition}.rs).

    The materialized root file system, the FAT volume of the ESP and the tool
    [ukify] are the class [Projector].  A path is the list of its components. *)

From Stdlib Require Import ZifyBool.
From S2P Require Import Prelude RustStr RustStrFacts Target Image Layout LayoutFacts Kernel InitrdModules Disk.

(** ** The boot partition (partition.rs) *)

Definition LOADER_ENTRY_NAME : str := "umf.conf".
Definition DEFAULT_LOADER_CONF : str :=
  "# loader.conf — installed by the UMF projector." ++ [lf] ++ "default umf" ++ [lf] ++ "timeout 3" ++ [lf]
  ++ "console-mode max" ++ [lf].

Definition boot_cmdline (extra_cmdline : str) (architecture : Architecture) (rootfs_fs : RootfsFs) : str :=
  "root=PARTLABEL=" ++ ROOTFS_PARTLABEL ++ " rootfstype=" ++ RootfsFs_as_str rootfs_fs ++ " ro console="
  ++ serial_console architecture ++ ",115200n8" ++ extra_cmdline.

(** The body of the loader entry. *)
Definition loader_entry (kernel_release vmlinuz_name : str) (initrd_name : option str) (cmdline : str) : str :=
  "title UMF" ++ [lf] ++ "version " ++ kernel_release ++ [lf] ++ "linux /" ++ vmlinuz_name ++ [lf]
  ++ match initrd_name with Some n => "initrd /" ++ n ++ [lf] | None => [] end
  ++ "options " ++ cmdline ++ [lf].

(** What is done to the FAT volume. *)
Inductive EspOp := EspOp_Dir (p : path) | EspOp_File (p : path) (bytes : str).

Record DiskInputs := {
  geometry : DiskGeometry;
  vmlinuz_path : path;
  kernel_release : str;
  bootloader_efi : option str;
  initrd : option (str * str);
  architecture : Architecture;
  extra_cmdline : str;
  rootfs_fs : RootfsFs
}.

Record Manifest := { m_media_type : str; m_config : str; m_layers : list str }.
Record ConfigDoc := { c_architecture : str; c_labels : gmap str str }.

Class Projector := {
  (** [Architecture::host], and whether [ukify] is installed. *)
  host : Architecture;
  ukify_available : bool;
  (** [ukify build]: kernel, initrd, command line and release. *)
  ukify : path -> option str -> str -> str -> result CompileError str;
  (** A step on the FAT volume; writing the ROOTFS partition. *)
  esp_do : EspOp -> result CompileError unit;
  write_rootfs : PartitionLayout -> RootfsFs -> result CompileError unit;
  read_file : path -> result str str;
  (** The decoders of [serde_json], and the layers put in [rootfs]. *)
  decode_manifest : str -> result str Manifest;
  decode_config : str -> result str ConfigDoc;
  materialize_layers : list str -> result CompileError unit;
  rootfs : path;
  canonicalize : path -> result str path
}.

Section project.
Context {P : Projector} {G : Gpt}.

Definition build_uki (vmlinuz : path) (initrd : option str) (cmdline uname : str) (architecture : Architecture)
    : result CompileError str :=
  if negb (bool_decide (architecture = host)) then Err (CrossArchUki architecture host)
  else if negb ukify_available then Err UkifyUnavailable
  else ukify vmlinuz initrd cmdline uname.

(** The steps are performed in order, up to the first that fails. *)
Fixpoint perform (ops : list EspOp) : result CompileError unit :=
  match ops with [] => Ok tt | op :: ops => _ ← esp_do op; perform ops end.

(** The steps done on the volume. *)
Definition populate_esp (i : DiskInputs) : result CompileError (list EspOp) :=
  let cmdline := boot_cmdline (extra_cmdline i) (architecture i) (rootfs_fs i) in
  let fallback := uefi_fallback_filename (architecture i) in
  let dirs := [EspOp_Dir ["EFI" : str]; EspOp_Dir ["EFI" : str; "BOOT" : str]] in
  _ ← perform dirs;
  match bootloader_efi i with
  | None =>
      uki ← build_uki (vmlinuz_path i) (fst <$> initrd i) cmdline (kernel_release i) (architecture i);
      let ops := [EspOp_File ["EFI" : str; "BOOT" : str; fallback] uki] in
      _ ← perform ops; Ok (dirs ++ ops)
  | Some efi_bytes =>
      let ops1 := [EspOp_File ["EFI" : str; "BOOT" : str; fallback] efi_bytes; EspOp_Dir ["loader" : str];
                   EspOp_File ["loader" : str; "loader.conf" : str] DEFAULT_LOADER_CONF] in
      _ ← perform ops1;
      vmlinuz_name ← ok_or (from_utf8_lossy <$> last (vmlinuz_path i)) (CompileError_Io "kernel vmlinuz path has no filename");
      kernel ← map_err CompileError_Io (read_file (vmlinuz_path i));
      let entry := loader_entry (kernel_release i) vmlinuz_name (snd <$> initrd i) cmdline in
      let ops2 := [EspOp_File [vmlinuz_name] kernel]
                  ++ match initrd i with Some (bytes, name) => [EspOp_File [name] bytes] | None => [] end
                  ++ [EspOp_Dir ["loader" : str; "entries" : str];
                      EspOp_File ["loader" : str; "entries" : str; LOADER_ENTRY_NAME] entry] in
      _ ← perform ops2; Ok (dirs ++ ops1 ++ ops2)
  end.

Record DiskProjection := {
  disk_size_bytes : Z; esp_start_bytes : Z; esp_size_bytes : Z; rootfs_start_bytes : Z; rootfs_size_bytes : Z
}.

Definition project_disk (i : DiskInputs) : result CompileError (DiskProjection * list EspOp) :=
  plan ← compute_disk_plan (geometry i);
  layout ← write_gpt plan;
  ops ← populate_esp i;
  _ ← write_rootfs layout (rootfs_fs i);
  Ok ({| disk_size_bytes := plan_disk_size plan;
         esp_start_bytes := esp_first_lba layout * LOGICAL_BLOCK_SIZE;
         esp_size_bytes := esp_size_lba layout * LOGICAL_BLOCK_SIZE;
         rootfs_start_bytes := rootfs_first_lba layout * LOGICAL_BLOCK_SIZE;
         rootfs_size_bytes := rootfs_size_lba layout * LOGICAL_BLOCK_SIZE |}, ops).

(** ** The boot manifest (image.rs) *)

Definition is_index (m : Manifest) : bool :=
  contains "image.index" (m_media_type m) || contains "manifest.list" (m_media_type m).

Definition resolve_rootfs_fs (override_fs : option RootfsFs) (label_value : option str) : result CompileError RootfsFs :=
  match override_fs with
  | Some fs => Ok fs
  | None =>
      match label_value with
      | None => Ok RootfsFs_default
      | Some value => ok_or (RootfsFs_from_token value) (UnsupportedRootfsFs value supported_tokens)
      end
  end.

Definition require_label (labels : gmap str str) (key : str) : result CompileError str :=
  ok_or (labels !! key) (MissingLabel key).

(** [char::is_control]: the characters U+0000 to U+001F and U+007F to U+009F. *)
Definition is_control (ch : str) : bool :=
  match ch with
  | [c] => (code c <? 32)%N || (code c =? 127)%N
  | [a; b] => (code a =? 194)%N && (code b <? 160)%N
  | _ => false
  end.
Definition reject_control_chars (label value : str) : result CompileError unit :=
  if existsb is_control (chars value) then Err (UnsafeLabelValue label) else Ok tt.
Definition reject_filename_control_chars (label : str) (p : path) : result CompileError unit :=
  match last p with Some name => reject_control_chars label (from_utf8_lossy name) | None => Ok tt end.

(** The normal components of a relative path; [None] for [..]. *)
Fixpoint normal_components (l : list str) : option path :=
  match l with
  | [] => Some []
  | c :: l =>
      if bool_decide (c = []) || bool_decide (c = ".") then normal_components l
      else if bool_decide (c = "..") then None
      else (fun p => c :: p) <$> normal_components l
  end.

Definition is_prefix (a b : path) : bool := bool_decide (take (length a) b = a).

Definition rootfs_subpath (label value : str) : result CompileError path :=
  let unsafe_path := UnsafeLabelPath label value in
  comps ← ok_or (normal_components (split "/" (trim_start "/" value))) unsafe_path;
  canonical ← map_err (fun _ => unsafe_path) (canonicalize (rootfs ++ comps));
  root_canonical ← map_err CompileError_Io (canonicalize rootfs);
  if is_prefix root_canonical canonical then Ok canonical else Err unsafe_path.

Definition resolve_bootloader (architecture : Architecture) (override_path : option path) : result CompileError str :=
  match override_path with
  | Some p => map_err (fun _ => BootloaderUnavailable "systemd-boot" (join "/" p)) (read_file p)
  | None =>
      let in_image_rel := "usr/lib/systemd/boot/efi/" ++ systemd_boot_filename architecture in
      match (p ← rootfs_subpath "in-image bootloader" in_image_rel; map_err CompileError_Io (read_file p)) with
      | Ok bytes => Ok bytes
      | Err _ => Err (BootloaderUnavailable "systemd-boot" (in_image_rel ++ " (in image)"))
      end
  end.

Definition BOOTLOADER_LEGACY : str := "org.imagilux.umf.bootloader".
Definition flavor_of (labels : gmap str str) : str :=
  match labels !! FLAVOR with
  | Some f => f
  | None =>
      match labels !! BOOTLOADER_LEGACY with
      | Some legacy => if bool_decide (legacy = ("none" : str)) then ("uki" : str) else legacy
      | None => ("systemd-boot" : str)
      end
  end.

(** The initramfs of the image: its bytes and the name it gets. *)
Definition resolve_initrd (labels : gmap str str) : result CompileError (option (str * str)) :=
  match labels !! INITRAMFS with
  | None => Ok None
  | Some value =>
      p ← rootfs_subpath INITRAMFS value;
      bytes ← map_err CompileError_Io (read_file p);
      let name := default ("initramfs.img" : str) (from_utf8_lossy <$> file_name_of value) in
      _ ← reject_control_chars INITRAMFS name;
      Ok (Some (bytes, name))
  end.

Definition bootloader_for (flavor : str) (architecture : Architecture) (override_path : option path)
    : result CompileError (option str) :=
  if bool_decide (flavor = "uki") then Ok None
  else if bool_decide (flavor = "systemd-boot") then b ← resolve_bootloader architecture override_path; Ok (Some b)
  else Err (UnsupportedBootloader flavor).

(** What the boot manifest asks of the projection. *)
Definition inputs_of (config : ConfigDoc) (geometry : DiskGeometry) (bootloader_override : option path)
    (rootfs_fs_override : option RootfsFs) : result CompileError DiskInputs :=
  let labels := c_labels config in
  vmlinuz_rel ← require_label labels KERNEL_VMLINUZ;
  release ← require_label labels KERNEL_RELEASE;
  let extra := default [] (labels !! KERNEL_CMDLINE) in
  fs ← resolve_rootfs_fs rootfs_fs_override (labels !! ROOTFS_FS);
  _ ← reject_control_chars KERNEL_RELEASE release;
  _ ← reject_control_chars KERNEL_CMDLINE extra;
  vmlinuz ← rootfs_subpath KERNEL_VMLINUZ vmlinuz_rel;
  _ ← reject_filename_control_chars KERNEL_VMLINUZ vmlinuz;
  initrd ← resolve_initrd labels;
  let arch := default host (from_arch_str (c_architecture config)) in
  efi ← bootloader_for (flavor_of labels) arch bootloader_override;
  Ok {| geometry := geometry; vmlinuz_path := vmlinuz; kernel_release := release; bootloader_efi := efi; initrd := initrd;
        architecture := arch; extra_cmdline := extra; rootfs_fs := fs |}.

Record CompileReport := {
  source_digest : str; projection : DiskProjection; entrypoint : str; report_flavor : str; report_rootfs_fs : RootfsFs
}.

Definition compile_image (sha256_hex : str -> str) (layout : ImageLayout) (reference : str) (geometry : DiskGeometry)
    (bootloader_override : option path) (rootfs_fs_override : option RootfsFs)
    : result CompileError (CompileReport * list EspOp) :=
  entry ← ok_or (layout_lookup_ref layout reference) (CompileError_Oci (RegistryError_NotFound reference));
  manifest_bytes ← map_err CompileError_Oci (read_blob sha256_hex layout (ie_digest entry));
  manifest ← map_err CompileError_Json (decode_manifest manifest_bytes);
  if is_index manifest then Err (CompileError_ImageIndex reference)
  else
    config_bytes ← map_err CompileError_Oci (read_blob sha256_hex layout (m_config manifest));
    config ← map_err CompileError_Json (decode_config config_bytes);
    let labels := c_labels config in
    let kind := default ("unknown" : str) (labels !! TYPE) in
    if negb (bool_decide (L0Kind_from_label kind = L0Kind_Bootable)) then Err (NotBootable reference kind)
    else
      _ ← materialize_layers (m_layers manifest);
      i ← inputs_of config geometry bootloader_override rootfs_fs_override;
      '(p, ops) ← project_disk i;
      Ok ({| source_digest := ie_digest entry; projection := p;
             entrypoint := default ("systemd" : str) (labels !! ENTRYPOINT); report_flavor := flavor_of labels;
             report_rootfs_fs := rootfs_fs i |}, ops).
End project.

(** ** Lines *)

Lemma ascii_char_alone c ch : is_ascii c = true -> valid_char ch = true -> c ∈ ch -> ch = [c].
Proof.
  intros Hc Hv Hin. destruct ch as [|a ch]; [by apply elem_of_nil in Hin|].
  destruct (valid_char_lead _ _ Hv) as (Hw & _ & HF). apply elem_of_cons in Hin as [->|Hin].
  - unfold utf8_width in Hw. unfold is_ascii in Hc. rewrite Hc in Hw. by destruct ch.
  - rewrite Forall_forall in HF. specialize (HF c Hin). apply is_ascii_not_cont in Hc. congruence.
Qed.

Lemma control_free c s : utf8 s -> is_ascii c = true -> is_control [c] = true ->
  existsb is_control (chars s) = false -> c ∉ s.
Proof.
  intros Hu Ha Hc HE Hin. rewrite <- (chars_concat s Hu) in Hin. apply list_elem_of_In, in_concat in Hin as (ch & Hch & Hin).
  assert (HV := utf8_chars s Hu). rewrite Forall_forall in HV. specialize (HV ch ltac:(by apply list_elem_of_In)).
  apply list_elem_of_In in Hin. rewrite (ascii_char_alone c ch Ha HV Hin) in Hch.
  assert (HT : existsb is_control (chars s) = true) by (apply existsb_exists; eauto). congruence.
Qed.

(** A text without line ends. *)
Definition one_line (s : str) : Prop := (lf ∉ s) /\ (cr ∉ s).

Lemma one_line_app s t : one_line s -> one_line t -> one_line (s ++ t).
Proof. unfold one_line. rewrite !not_elem_of_app. tauto. Qed.
Lemma one_line_lit (s : string) :
  (bool_decide (lf ∈ bytes_of s) || bool_decide (cr ∈ bytes_of s)) = false -> one_line s.
Proof. intros H. bools. done. Qed.
Lemma strip_cr_one_line s : one_line s -> strip_cr s = s.
Proof.
  intros [_ Hc]. unfold strip_cr, strip_suffix. destruct (strip_prefix (rev [cr]) (rev s)) as [r|] eqn:E; [|done].
  apply strip_prefix_spec in E. destruct Hc. rewrite <- (rev_involutive s), E. apply list_elem_of_In, in_rev. rewrite rev_involutive.
  by left.
Qed.

Lemma lines_from_app cur s rest : one_line s -> one_line cur ->
  lines_from cur (s ++ lf :: rest) = (cur ++ s) :: lines_from [] rest.
Proof.
  intros Hs. revert cur. induction s as [|c s IH]; intros cur Hc; cbn [app lines_from].
  - rewrite Ascii.eqb_refl, app_nil_r. by rewrite strip_cr_one_line.
  - destruct Hs as [H1 H2]. apply not_elem_of_cons in H1 as [N1 H1]. apply not_elem_of_cons in H2 as [N2 H2].
    destruct (Ascii.eqb_spec c lf); [congruence|]. rewrite IH; [by rewrite <- app_assoc|done|].
    apply one_line_app; [done|]. split; set_solver.
Qed.
Lemma lines_line s rest : one_line s -> lines (s ++ [lf] ++ rest) = s :: lines rest.
Proof. intros Hs. unfold lines. cbn [app]. rewrite lines_from_app by (try done; split; apply not_elem_of_nil). done. Qed.

#[local] Hint Resolve one_line_app : umf.

Lemma loader_entry_lines release name initrd_name cmdline :
  one_line release -> one_line name -> one_line cmdline -> (forall n, initrd_name = Some n -> one_line n) ->
  lines (loader_entry release name initrd_name cmdline)
  = ("title UMF" : str) :: ("version " ++ release) :: ("linux /" ++ name)
    :: match initrd_name with
       | Some n => [("initrd /" ++ n); ("options " ++ cmdline)]
       | None => ["options " ++ cmdline]
       end.
Proof.
  intros Hr Hn Hc Hi. unfold loader_entry.
  assert (HL : forall (s : string), (bool_decide (lf ∈ bytes_of s) || bool_decide (cr ∈ bytes_of s)) = false ->
    forall t rest, one_line t -> lines (bytes_of s ++ t ++ [lf] ++ rest) = (bytes_of s ++ t) :: lines rest).
  { intros s Hs t rest Ht. rewrite app_assoc. apply lines_line. by apply one_line_app; [apply one_line_lit|]. }
  rewrite (lines_line "title UMF") by (by apply one_line_lit). f_equal.
  rewrite (HL "version ") by done. f_equal. rewrite (HL "linux /") by done. f_equal.
  assert (HO : lines ("options " ++ cmdline ++ [lf]) = ["options " ++ cmdline]).
  { rewrite <- (app_nil_r [lf]). by rewrite (HL "options "). }
  destruct initrd_name as [n|]; [|exact HO]. rewrite <- !app_assoc. rewrite (HL "initrd /") by (try done; by apply Hi).
  f_equal. exact HO.
Qed.

(** ** What reaches the disk *)

Section facts.
Context {P : Projector} {G : Gpt}.

(** A path inside the root file system, and the contents of a file there. *)
Definition in_rootfs (p : path) : Prop := exists r, canonicalize rootfs = Ok r /\ is_prefix r p = true.
Definition from_image (bytes : str) : Prop := exists p, in_rootfs p /\ read_file p = Ok bytes.

Lemma rootfs_subpath_in label value p : rootfs_subpath label value = Ok p -> in_rootfs p.
Proof.
  unfold rootfs_subpath. intros (comps & _ & H)%bind_Ok. apply bind_Ok in H as (c & Hc & H). apply map_err_Ok in Hc.
  apply bind_Ok in H as (r & Hr & H). apply map_err_Ok in Hr. destruct (is_prefix r c) eqn:E; [|done]. injection H as <-.
  by exists r.
Qed.

Lemma reject_control_one_line label s u : utf8 s -> reject_control_chars label s = Ok u -> one_line s.
Proof.
  unfold reject_control_chars. intros Hu. destruct (existsb is_control (chars s)) eqn:E; [done|]. intros _.
  split; by apply (control_free _ s).
Qed.

(** Labels are text; the names of files are any bytes. *)
Definition text_labels (labels : gmap str str) : Prop := map_Forall (fun _ v => utf8 v) labels.

Record inputs_ok (i : DiskInputs) : Prop := {
  io_release : one_line (kernel_release i);
  io_cmdline : one_line (extra_cmdline i);
  io_vmlinuz : forall n, last (vmlinuz_path i) = Some n -> one_line (from_utf8_lossy n);
  io_initrd : forall bytes n, initrd i = Some (bytes, n) -> one_line n /\ from_image bytes;
  io_kernel : in_rootfs (vmlinuz_path i)
}.

Lemma resolve_initrd_ok labels bytes n : resolve_initrd labels = Ok (Some (bytes, n)) -> one_line n /\ from_image bytes.
Proof.
  unfold resolve_initrd. destruct (labels !! INITRAMFS) as [v|] eqn:E; [|done]. intros (p & Hp & H)%bind_Ok.
  apply bind_Ok in H as (b & Hb & H). apply map_err_Ok in Hb. apply bind_Ok in H as (u & Hc & H). injection H as <- <-.
  apply rootfs_subpath_in in Hp as Hin. split; [|by exists p]. apply (reject_control_one_line INITRAMFS _ u); [|done].
  destruct (file_name_of v) as [m|]; simpl; [apply lossy_utf8|by apply utf8_ascii].
Qed.

Lemma inputs_of_ok config g override fs i : text_labels (c_labels config) ->
  inputs_of config g override fs = Ok i -> inputs_ok i.
Proof.
  intros HL. unfold inputs_of. intros (rel & _ & H)%bind_Ok. apply bind_Ok in H as (release & Hr & H).
  apply bind_Ok in H as (f & _ & H). apply bind_Ok in H as (u1 & H1 & H). apply bind_Ok in H as (u2 & H2 & H).
  apply bind_Ok in H as (vm & Hv & H). apply bind_Ok in H as (u3 & H3 & H). apply bind_Ok in H as (ird & Hi & H).
  apply bind_Ok in H as (efi & He & H). injection H as <-. apply rootfs_subpath_in in Hv as Hin.
  split; cbn [kernel_release extra_cmdline vmlinuz_path initrd bootloader_efi].
  - apply (reject_control_one_line KERNEL_RELEASE _ u1); [|done]. unfold require_label, ok_or in Hr.
    destruct (c_labels config !! KERNEL_RELEASE) as [v|] eqn:E; [|done]. injection Hr as <-. by apply (HL KERNEL_RELEASE).
  - apply (reject_control_one_line KERNEL_CMDLINE _ u2); [|done].
    destruct (c_labels config !! KERNEL_CMDLINE) as [v|] eqn:E; cbn [default]; [exact (HL KERNEL_CMDLINE v E)|constructor].
  - intros n Hn. unfold reject_filename_control_chars in H3. rewrite Hn in H3. apply (reject_control_one_line KERNEL_VMLINUZ _ u3); [|done].
    apply lossy_utf8.
  - intros bytes n E. apply (resolve_initrd_ok (c_labels config)). congruence.
  - done.
Qed.
End facts.

Lemma Ok_inj {E A} (a b : A) : Ok (E:=E) a = Ok b -> a = b.
Proof. congruence. Qed.

Section esp.
Context {P : Projector} {G : Gpt}.

Lemma compile_image_inputs sha L reference g override fs report ops :
  compile_image sha L reference g override fs = Ok (report, ops) ->
  exists config i, (exists bytes, decode_config bytes = Ok config)
    /\ inputs_of config g override fs = Ok i /\ populate_esp i = Ok ops.
Proof.
  unfold compile_image. intros (e & _ & H)%bind_Ok. apply bind_Ok in H as (mb & _ & H). apply bind_Ok in H as (m & _ & H).
  destruct (is_index m); [done|]. apply bind_Ok in H as (cb & _ & H). apply bind_Ok in H as (config & Hc & H). apply map_err_Ok in Hc.
  cbv zeta in H. destruct (negb _); [done|]. apply bind_Ok in H as (u & _ & H). apply bind_Ok in H as (i & Hi & H).
  apply bind_Ok in H as ([p ops'] & Hp & H). injection H as <- <-. exists config, i. split_and!; [eauto|done|].
  unfold project_disk in Hp. apply bind_Ok in Hp as (plan & _ & Hp). apply bind_Ok in Hp as (lay & _ & Hp).
  apply bind_Ok in Hp as (o & Ho & Hp). apply bind_Ok in Hp as ([] & _ & Hp). by injection Hp as _ <-.
Qed.

(** Where the contents of a file of the boot partition come from; nothing is said
    of the bootloader. *)
Inductive esp_source (i : DiskInputs) : path -> str -> Prop :=
| Source_image p bytes : from_image bytes -> esp_source i p bytes
| Source_bootloader bytes :
    bootloader_efi i = Some bytes -> esp_source i ["EFI" : str; "BOOT" : str; uefi_fallback_filename (architecture i)] bytes
| Source_conf : esp_source i ["loader" : str; "loader.conf" : str] DEFAULT_LOADER_CONF
| Source_entry name kernel :
    last (vmlinuz_path i) = Some name -> from_image kernel ->
    esp_source i ["loader" : str; "entries" : str; LOADER_ENTRY_NAME]
      (loader_entry (kernel_release i) (from_utf8_lossy name) (snd <$> initrd i) (boot_cmdline (extra_cmdline i) (architecture i) (rootfs_fs i)))
| Source_uki bytes :
    bootloader_efi i = None -> architecture i = host -> in_rootfs (vmlinuz_path i) ->
    (forall initrd_bytes name, initrd i = Some (initrd_bytes, name) -> from_image initrd_bytes) ->
    ukify (vmlinuz_path i) (fst <$> initrd i) (boot_cmdline (extra_cmdline i) (architecture i) (rootfs_fs i)) (kernel_release i) = Ok bytes ->
    esp_source i ["EFI" : str; "BOOT" : str; uefi_fallback_filename (architecture i)] bytes.

Lemma populate_esp_sources i ops : inputs_ok i -> populate_esp i = Ok ops ->
  forall p bytes, EspOp_File p bytes ∈ ops -> esp_source i p bytes.
Proof.
  intros [_ _ _ HI HK] H p bytes Hin. unfold populate_esp in H. cbv zeta in H. apply bind_Ok in H as ([] & _ & H).
  destruct (bootloader_efi i) as [efi|] eqn:HE.
  - apply bind_Ok in H as ([] & _ & H). apply bind_Ok in H as (name & Hn & H). apply bind_Ok in H as (kernel & Hk & H).
    apply map_err_Ok in Hk. apply bind_Ok in H as ([] & _ & H). apply Ok_inj in H. subst ops.
    unfold ok_or in Hn. destruct (last (vmlinuz_path i)) as [name'|] eqn:El; [|done]. injection Hn as <-.
    assert (HKi : from_image kernel) by (by exists (vmlinuz_path i)).
    rewrite !elem_of_app, !elem_of_cons, !elem_of_nil in Hin.
    destruct Hin as [[?|[?|[]]]|[[E|[?|[E|[]]]]|[[E|[]]|[Hin|[?|[E|[]]]]]]]; try done; simplify_eq.
    + by apply Source_bootloader.
    + apply Source_conf.
    + by apply Source_image.
    + destruct (initrd i) as [[b n]|] eqn:Ei; [|by apply elem_of_nil in Hin]. apply list_elem_of_singleton in Hin. simplify_eq.
      apply Source_image. by apply (HI b n).
    + by apply (Source_entry i name' kernel).
  - apply bind_Ok in H as (uki & Hu & H). apply bind_Ok in H as ([] & _ & H). apply Ok_inj in H. subst ops.
    rewrite !elem_of_app, !elem_of_cons, !elem_of_nil in Hin. destruct Hin as [[?|[?|[]]]|[E|[]]]; try done. simplify_eq.
    unfold build_uki in Hu. destruct (bool_decide (architecture i = host)) eqn:Ea; [|done]. apply bool_decide_eq_true in Ea.
    destruct ukify_available; [|done]. apply Source_uki; try done. intros b n E. by apply (HI b n).
Qed.

Definition entry_path : path := ["loader" : str; "entries" : str; LOADER_ENTRY_NAME].

Lemma populate_esp_entry i ops body : inputs_ok i -> populate_esp i = Ok ops ->
  EspOp_File entry_path body ∈ ops ->
  exists name kernel, one_line name /\ EspOp_File [name] kernel ∈ ops
    /\ body = loader_entry (kernel_release i) name (snd <$> initrd i) (boot_cmdline (extra_cmdline i) (architecture i) (rootfs_fs i)).
Proof.
  intros HI H Hin. unfold populate_esp in H. cbv zeta in H. apply bind_Ok in H as ([] & _ & H). unfold entry_path in Hin.
  destruct (bootloader_efi i) as [efi|].
  - apply bind_Ok in H as ([] & _ & H). apply bind_Ok in H as (name & Hn & H). apply bind_Ok in H as (kernel & Hk & H).
    apply bind_Ok in H as ([] & _ & H). apply Ok_inj in H. subst ops.
    unfold ok_or in Hn. destruct (last (vmlinuz_path i)) as [name'|] eqn:El; [|done]. injection Hn as <-.
    exists (from_utf8_lossy name'), kernel. split; [by apply (io_vmlinuz _ HI)|]. split; [rewrite !elem_of_app, !elem_of_cons; tauto|].
    rewrite !elem_of_app, !elem_of_cons, !elem_of_nil in Hin.
    destruct Hin as [[?|[?|[]]]|[[E|[?|[E|[]]]]|[[E|[]]|[Hin|[?|[E|[]]]]]]]; try done; simplify_eq; [|done].
    destruct (initrd i) as [[b n]|]; [by apply list_elem_of_singleton in Hin|by apply elem_of_nil in Hin].
  - apply bind_Ok in H as (uki & Hu & H). apply bind_Ok in H as ([] & _ & H). apply Ok_inj in H. subst ops.
    rewrite !elem_of_app, !elem_of_cons, !elem_of_nil in Hin. by destruct Hin as [[?|[?|[]]]|[E|[]]].
Qed.

Lemma boot_cmdline_one_line extra arch fs : one_line extra -> one_line (boot_cmdline extra arch fs).
Proof.
  intros He. unfold boot_cmdline. repeat (apply one_line_app; [by (apply one_line_lit; destruct arch, fs) || (destruct arch, fs; by apply one_line_lit)|]).
  done.
Qed.

(** ** Properties *)

(** The configurations decoded hold text. *)
Definition decodes_text : Prop := forall bytes config, decode_config bytes = Ok config -> text_labels (c_labels config).


(** C29 (safety): the boot entry of a projected disk is exactly its four or five
    lines: no label and no file name of the image, whatever its bytes, can add a
    line, and so a directive, to it; and the kernel it names is a file of the
    partition.  Labels are text, as the decoder of JSON gives them. *)
Theorem loader_entry_uninjected sha L reference g override fs report ops body :
  decodes_text ->
  compile_image sha L reference g override fs = Ok (report, ops) -> EspOp_File entry_path body ∈ ops ->
  exists release name kernel initrd_name options,
    lines body = ("title UMF" : str) :: ("version " ++ release) :: ("linux /" ++ name)
      :: match initrd_name with
         | Some n => [("initrd /" ++ n); ("options " ++ options)]
         | None => ["options " ++ options]
         end
    /\ EspOp_File [name] kernel ∈ ops.
Proof.
  intros HD (config & i & (b & Hb) & Hi & Hp)%compile_image_inputs Hin.
  assert (HI := inputs_of_ok config g override fs i (HD b config Hb) Hi).
  destruct (populate_esp_entry i ops body HI Hp Hin) as (name & kernel & Hn & Hk & ->).
  exists (kernel_release i), name, kernel, (snd <$> initrd i), (boot_cmdline (extra_cmdline i) (architecture i) (rootfs_fs i)).
  split; [|done]. apply loader_entry_lines; [apply HI|done|apply boot_cmdline_one_line; apply HI|].
  intros n E. destruct (initrd i) as [[b' n']|] eqn:Ei; simplify_eq/=. by apply (io_initrd _ HI b' n).
Qed.
End esp.

(** ** An image and its projection *)

Module ModelImage.

Definition labels : gmap str str :=
  <[TYPE := ("bootable" : str)]> (<[KERNEL_VMLINUZ := ("boot/vmlinuz-6.6" : str)]>
    (<[KERNEL_RELEASE := ("6.6" : str)]> (<[INITRAMFS := ("boot/initramfs.img" : str)]> ∅))).
Definition plain (p : path) : bool := forallb (forallb is_ascii) p.

Definition projector : Projector := {|
  host := X86_64; ukify_available := true; ukify := fun _ _ _ _ => Ok [];
  esp_do := fun _ => Ok tt; write_rootfs := fun _ _ => Ok tt;
  read_file := fun p => Ok (join "/" p);
  decode_manifest := fun b => if bool_decide (b = "M") then Ok {| m_media_type := []; m_config := sha256_digest ModelLayout.hexify "C"; m_layers := [] |}
                              else Err [];
  decode_config := fun b => if bool_decide (b = "C") then Ok {| c_architecture := "amd64"; c_labels := labels |} else Err [];
  materialize_layers := fun _ => Ok tt;
  rootfs := ["r" : str];
  canonicalize := fun p => if plain p then Ok p else Err []
|}.

Definition layout : ImageLayout :=
  match (L ← write_blob_with_digest ModelLayout.hexify "M" (sha256_digest ModelLayout.hexify "M") empty_layout;
         write_blob_with_digest ModelLayout.hexify "C" (sha256_digest ModelLayout.hexify "C") L) with
  | Ok L => upsert_ref "img" {| ie_media_type := []; ie_digest := sha256_digest ModelLayout.hexify "M"; ie_size := 1;
                                ie_platform := None; ie_annotations := None |} L
  | Err _ => empty_layout
  end.

Definition compiled := compile_image (P:=projector) (G:=ModelGpt.gpt) ModelLayout.hexify layout "img" DiskGeometry_default None None.
Definition result_of {E A} (r : result E A) : option A := match r with Ok a => Some a | Err _ => None end.
Lemma compiles : bool_decide (is_Some (result_of compiled)) = true.
Proof. vm_compute. reflexivity. Qed.
Fixpoint entry_of (ops : list EspOp) : option str :=
  match ops with
  | EspOp_File p body :: ops => if bool_decide (p = entry_path) then Some body else entry_of ops
  | EspOp_Dir _ :: ops => entry_of ops
  | [] => None
  end.
Lemma entry_of_in ops body : entry_of ops = Some body -> EspOp_File entry_path body ∈ ops.
Proof.
  induction ops as [|[p|p b] ops IH]; simpl; [done|right; auto|]. case_bool_decide; [|right; auto].
  intros E. injection E as <-. subst. left.
Qed.

Lemma decodes : decodes_text (P:=projector).
Proof.
  intros b config. cbn [decode_config projector]. case_bool_decide; [|done]. intros E. injection E as <-. cbn [c_labels].
  assert (HA : map_Forall (fun _ v => forallb is_ascii v = true) labels) by (apply (bool_decide_unpack _); by vm_compute).
  intros k v Hv. apply utf8_ascii. exact (HA k v Hv).
Qed.

(** A kernel whose name is not text: the bytes that are none become U+FFFD, in the
    entry as in the name of the file; a line end among them is still refused. *)
Example odd_names :
  from_utf8_lossy ["v"%char; "255"%char; "195"%char] = ("v" ++ replacement ++ replacement)
  /\ is_ok (reject_filename_control_chars KERNEL_VMLINUZ [["v"%char; "255"%char]]) = true
  /\ is_ok (reject_filename_control_chars KERNEL_VMLINUZ [["v"%char; "195"%char; lf]]) = false.
Proof. vm_compute. auto. Qed.
End ModelImage.


Lemma loader_entry_uninjected_witness :
  exists report ops body, ModelImage.compiled = Ok (report, ops) /\ ModelImage.entry_of ops = Some body
    /\ length (lines body) = 5.
Proof.
  destruct ModelImage.compiled as [[report ops]|e] eqn:E; [|pose proof ModelImage.compiles as HC; rewrite E in HC; discriminate HC].
  destruct (ModelImage.entry_of ops) as [body|] eqn:Eb.
  - destruct (loader_entry_uninjected (P:=ModelImage.projector) (G:=ModelGpt.gpt) ModelLayout.hexify ModelImage.layout "img"
      DiskGeometry_default None None report ops body ModelImage.decodes E (ModelImage.entry_of_in ops body Eb))
      as (r & n & k & ird & o & HL & _).
    exists report, ops, body. split; [done|]. split; [done|]. rewrite HL. destruct ird; [done|].
    exfalso. apply (f_equal (fun c => option_map (fun x => option_map (fun b => length (lines b)) (ModelImage.entry_of x.2)) (ModelImage.result_of c))) in E.
    cbn [ModelImage.result_of option_map snd] in E. rewrite Eb in E. cbn [option_map] in E. rewrite HL in E. vm_compute in E. discriminate E.
  - exfalso. apply (f_equal (fun c => option_map (fun x => ModelImage.entry_of x.2) (ModelImage.result_of c))) in E.
    cbn [ModelImage.result_of option_map snd] in E. rewrite Eb in E. vm_compute in E. discriminate E.
Defined.
