(* ===== verification/Behaviours.v ===== *)
(** * Behaviours: inputs on which the code departs from what its comments
    or documentation say, evaluated. *)

From S2P Require Import Prelude RustStr RustStrFacts Subst Validation Identifiers Paths OciRef.
From S2P Require Import Ast Diagnostics Lexer Grammar Validator Parse.
From S2P Require Import Target ArgScope Image Json Layout LayoutFacts StepCache BuildState Directives EngineBuild.
From S2P Require Import CrossStage BuildSpec BuildModel BuildFacts BaseImage Orchestrate.

Definition recipe_text (l : list string) : str := concat ((fun s => bytes_of s ++ [lf]) <$> l).

(** The errors of a refused recipe: their messages and where they point. *)
Definition errors_of (l : list string) : list (str * Span) :=
  match parse_with_warnings (recipe_text l) with
  | Val (Err ds) => (fun d => (message d, ann_span (primary d))) <$> ds
  | _ => []
  end.

(** The preamble loop of [parse_global_args] has no diagnostic cap. *)
Example global_arg_errors_uncapped : length (errors_of (repeat "ARG =" 300)) = 300.
Proof. vm_compute. reflexivity. Qed.

(** A directive that ends at its keyword consumes the newline before the line
    recovery runs, so the next line is skipped: the unknown directive is never
    reported, and the only error points at the end of the file. *)
Example missing_argument_skips_next_line :
  errors_of ["FROM scratch"; "USER"; "BOGUS x"; "EXPOSE 80"]
  = [("expected argument after USER" : str, mkSpan 36 36)].
Proof. vm_compute. reflexivity. Qed.

(** An extra argument, by contrast, leaves the next line to be parsed. *)
Example extra_argument_keeps_next_line :
  errors_of ["FROM scratch"; "USER a b"; "BOGUS x"]
  = [("unexpected extra arguments for USER" : str, mkSpan 20 21);
     ("expected a directive keyword" : str, mkSpan 22 27)].
Proof. vm_compute. reflexivity. Qed.

(** Numeric users are valid [Username]s, but the grammar refuses the number. *)
Example numeric_user_refused :
  is_ok (Username_new "1000") = true
  /\ errors_of ["FROM scratch"; "USER 1000"] = [("expected argument after USER" : str, mkSpan 18 22)]
  /\ errors_of ["FROM scratch"; "USER 0:0"] = [("expected argument after USER" : str, mkSpan 18 19)].
Proof. vm_compute. done. Qed.

(** A recipe without a [FROM] is accepted, with no stages. *)
Example missing_from_accepted :
  parse (recipe_text []) = Val (Ok Ast_default)
  /\ match parse (recipe_text ["ARG A=1"]) with
     | Val (Ok ast) => (length (global_args ast), length (stages ast)) = (1, 0)
     | _ => False
     end.
Proof. vm_compute. done. Qed.

(** A keyword is a key in the first pair of a line only. *)
Example keyword_key_first_only :
  errors_of ["FROM scratch"; "ENV USER=app A=1"] = []
  /\ errors_of ["FROM scratch"; "ENV A=1 USER=app"]
     = [("unexpected extra arguments for ENV" : str, mkSpan 21 25)].
Proof. vm_compute. done. Qed.

(** Unknown long options of [RUN] and [ADD] are refused. *)
Example unknown_options_refused :
  errors_of ["FROM scratch"; "RUN --network=none true"]
    = [("unsupported RUN option `--network`" : str, mkSpan 17 31)]
  /\ errors_of ["FROM scratch"; "ADD --link a b"] = [("unsupported ADD option `--link`" : str, mkSpan 17 23)].
Proof. vm_compute. done. Qed.

(** A hash sign inside a word belongs to the word. *)
Example hash_inside_word :
  tokenize "a#b" = Val ([mkToken (TokenKind_Ident "a#b") (mkSpan 0 3)], []).
Proof. vm_compute. reflexivity. Qed.

(** An error inside a reference behind [oci://] is marked as if the prefix were
    not there: the offending letter is at offset 23, the mark at 17. *)
Example oci_scheme_shifts_mark :
  snd <$> errors_of ["FROM scratch"; "ADD oci://A/b /x"] = [mkSpan 17 18]
  /\ recipe_text ["FROM scratch"; "ADD oci://A/b /x"] !! 23 = Some "A"%char.
Proof. vm_compute. done. Qed.

(** References at the edge of the documented grammar. *)
Example oci_grammar_edges :
  is_ok (OciReference_new "[::1]:5000/a") = false
  /\ is_ok (OciReference_new "a._b") = true
  /\ is_ok (OciReference_new "h.io:+80/a") = true.
Proof. vm_compute. done. Qed.

(** ** The builder *)

Definition tree (name : str) : Source :=
  Source_Tree (Some name) [{| entry_rel := ""; entry_mode := 493; entry_kind := Entry_Other |};
                           {| entry_rel := "f"; entry_mode := 420; entry_kind := Entry_File "x" |}].

(** Two directories with the same contents have one digest, so one cache key, but
    are copied to different places under a destination that ends in a slash. *)
Example directory_name_not_in_key :
  add_source_text (tree "a") = add_source_text (tree "b")
  /\ compute_add_destination "/dst/" (tree "a") = "/dst/a"
  /\ compute_add_destination "/dst/" (tree "b") = "/dst/b".
Proof. vm_compute. done. Qed.

(** The key of an [ADD <url>] has the payload and the destination, not the name
    the payload gets under a destination that ends in a slash. *)
Example url_leaf_not_in_key :
  url_leaf "https://h/a" = "a" /\ url_leaf "https://h/b?v=1" = "b".
Proof. vm_compute. done. Qed.

(** The contents of a file can read like a further entry of its tree. *)
Example tree_text_ambiguous :
  let file rel bytes := {| entry_rel := rel; entry_mode := 420; entry_kind := Entry_File bytes |} in
  add_source_text (Source_Tree None [file "f" ("x" ++ [lf] ++ "g" ++ [lf] ++ "mode:644" ++ [lf] ++ "y")])
  = add_source_text (Source_Tree None [file "f" "x"; file "g" "y"]).
Proof. vm_compute. reflexivity. Qed.

(** An environment entry with a newline can read like two. *)
Example run_key_ambiguous :
  let key env := run_key_text "amd64" "gzip" "p" [("true" : str)] env None None [] in
  key ["A=1" ++ [lf] ++ "B=2"] = key [("A=1" : str); ("B=2" : str)].
Proof. vm_compute. reflexivity. Qed.

(** The target of a secret mount is not in the key. *)
Example secret_target_not_in_key :
  let mount target := {| mount_kind := RunMountKind_Secret (Model.spanned {| SecretId_0 := "t" |})
                           (Some (Model.spanned {| RecipePath_0 := target |})); mount_span := mkSpan 0 0 |} in
  let ids target := match secret_mounts {["t" : str := "/host" : str]} [mount target] with
                    | Ok (_, ids, _) => ids
                    | Err _ => []
                    end in
  ids "/a" = ids "/b".
Proof. vm_compute. reflexivity. Qed.

(** After [SHELL none], a shell-form [RUN] is executed as one word. *)
Example shell_none_run :
  let st := BuildState_new (H := Model.host) Model.base LayerCompression_Gzip ∅ in
  let none := {| shell_argv := []; shell_span := mkSpan 0 0 |} in
  run_argv (apply_shell st none) (RunCommand_Shell (Model.spanned (bytes_of "echo hi")))
    = ([("echo hi" : str)], bytes_of "RUN echo hi")
  /\ shell_command (apply_shell st none) "echo hi" = [("/bin/sh" : str); ("-c" : str); ("echo hi" : str)].
Proof. vm_compute. done. Qed.

(** A base image keeps its layers and loses its history, its ports, its volumes and
    its stop signal. *)
Example base_history_dropped :
  let layer := {| layer_data := "x"; layer_media_type := media_type LayerCompression_Gzip; layer_diff_id := "sha256:0" |} in
  let entry := {| history_created := None; history_created_by := None; history_author := None; history_comment := None;
                  history_empty_layer := false |} in
  let config := {| ic_architecture := "amd64"; ic_os := "linux"; ic_created := None; ic_author := None;
                   ic_container := {| cc_user := None; cc_env := []; cc_entrypoint := None; cc_cmd := None;
                     cc_working_dir := None; cc_exposed_ports := [("80/tcp" : str)]; cc_volumes := [("/v" : str)];
                     cc_stop_signal := Some ("SIGINT" : str); cc_labels := ∅ |};
                   ic_history := [entry]; ic_umf_type := L0Kind_Container; ic_umf_spec := None |} in
  let raw := config_value (config_doc [layer] config) in
  let read := image_config_from_raw raw X86_64 in
  extract_diff_ids raw = [("sha256:0" : str)] /\ ic_history read = []
  /\ cc_exposed_ports (ic_container read) = [] /\ cc_volumes (ic_container read) = []
  /\ cc_stop_signal (ic_container read) = None.
Proof. vm_compute. done. Qed.

(** The guard against nested bootable stages pulls the reference as the recipe
    spells it; the build pulls the expanded one. *)
Example guard_pulls_unexpanded :
  let stage := {| stage_from := {| from_source := FromSource_Reference (Model.spanned {| oci_raw := "app:${V}" |});
                                   from_span := mkSpan 0 0 |};
                  stage_name := None; stage_directives := []; stage_span := mkSpan 0 0 |} in
  let pull r (L : ImageLayout) := Err (InvalidReference r []) in
  reject_nested_bootable pull (fun _ _ => false) 0 [stage] empty_layout = Err (InvalidReference "app:${V}" [])
  /\ from_ref {["V" : str := "1" : str]} stage = "app:1".
Proof. vm_compute. done. Qed.

(** ** The layout *)

(** The side cache of erofs layers is filled under the digest of a layer and
    pruned by diff id, so a live entry is removed. *)
Example erofs_prune_removes_live :
  let hexify := ModelLayout.hexify in
  let config := Value_Object {["rootfs" : str := rootfs_value [sha256_digest hexify "tar of l"]]} in
  let name := match erofs_cache_path (sha256_digest hexify "l") with Ok n => n | Err _ => [] end in
  let L := with_erofs_cache {[name := 7%N]} ModelLayout.layout in
  match prune_erofs_cache hexify ModelLayout.parse (fun _ => Some config) (fun _ => true) 3 L with
  | Val (Ok (removed, _), L') => removed = 1 /\ erofs_cache L' !! name = None
  | _ => False
  end.
Proof. vm_compute. done. Qed.

(** A layer digest that is also the digest of a tagged manifest marks that
    manifest as walked: its config and layers are collected as garbage. *)
Example prune_skips_shared_digest :
  let hexify := ModelLayout.hexify in
  let parse (bytes : str) :=
    if decide (bytes = "N") then
      Some (OciManifest_Image {| mf_config := ModelLayout.desc "c"; mf_layers := [ModelLayout.desc "M"];
                                 mf_subject := None; mf_artifact_type := None; mf_annotations := None |})
    else ModelLayout.parse bytes in
  let L := {| blobs := list_to_map ((fun f => (hexify f, f)) <$> [("N" : str); ("M" : str); ("c" : str); ("l" : str)]);
              index := [ModelLayout.entry "N"; ModelLayout.entry "M"]; erofs_cache := ∅; block_cache := ∅ |} in
  match prune_blobs hexify parse (fun _ => true) L with
  | Val (Ok _, L') => read_blob hexify L' (sha256_digest hexify "l") = Err RegistryError_IoNotFound
                      /\ index L' = index L
  | _ => False
  end.
Proof. vm_compute. done. Qed.
