(* ===== verification/HostFs.v ===== *)
(** * HostFs: paths, and the file system the layer reader works on.

    [std::path::Path] as the sequence of its components, the nodes of a file
    system by their real location, the kernel's walk_path along a path (symbolic
    links are followed, up to [MAXSYMLINKS] of them), and the calls of
    [std::fs] that crates/umf-oci makes: [symlink_metadata], [Path::is_dir],
    [read_dir], [remove_file], [remove_dir_all], [create_dir_all].

    A node is its kind with the content of a file, the target of a link, the
    attributes of a directory or the number of a device.  Permission bits, owners
    and times are not part of it: calls that only change them
    ([set_permissions], the modes and times a tar unpacker restores) are the
    identity here, and nothing is claimed of them.  Failures that depend on
    permissions or on the medium are not modelled; absent entries, files in the
    place of directories and link cycles are. *)

From stdpp Require Import gmap list.
From S2P Require Import Prelude RustStr.

(** ** [std::path::Path] *)

Inductive Component :=
| RootDir
| CurDir
| ParentDir
| Normal (name : str).
#[export] Instance Component_eq_dec : EqDecision Component.
Proof. solve_decision. Defined.

(** A path, up to [Path]'s equality: the list of its components. *)
Abbreviation Path := (list Component).

Definition component_of (s : str) : option Component :=
  if bool_decide (s = []) || bool_decide (s = ".") then None
  else if bool_decide (s = "..") then Some ParentDir
  else Some (Normal s).

(** [Path::components]: repeated separators and inner [.] disappear, a leading
    [.] is kept. *)
Definition components (s : str) : Path :=
  let parts := split "/" s in
  (if starts_with "/" s then [RootDir]
   else if bool_decide (head parts = Some ("." : str)) then [CurDir] else [])
  ++ omap component_of parts.

(** [Path::file_name], [Path::parent] and [Path::join]. *)
Definition file_name (p : Path) : option str :=
  match last p with Some (Normal c) => Some c | _ => None end.
Definition parent (p : Path) : option Path :=
  match last p with None | Some RootDir => None | Some _ => Some (take (length p - 1) p) end.
Definition join_path (p q : Path) : Path :=
  match q with
  | RootDir :: _ => q
  | CurDir :: q' => if bool_decide (p = []) then q else p ++ q'
  | _ => p ++ q
  end.

(** The absolute path of a location. *)
Definition absolute (l : list str) : Path := RootDir :: (Normal <$> l).

#[global] Arguments absolute : simpl never.

#[export] Instance Normal_inj : Inj (=) (=) Normal.
Proof. by intros a b [= ->]. Qed.
#[export] Instance absolute_inj : Inj (=) (=) absolute.
Proof. intros a b [= H]. by apply (inj (fmap Normal)) in H. Qed.

(** ** Nodes *)

Inductive Node :=
| NDir (xattrs : list (str * str))
| NFile (data : str)
| NLink (target : Path)
| NChar (rdev : Z)
| NOther.
#[export] Instance Node_eq_dec : EqDecision Node.
Proof. solve_decision. Defined.

(** A file system: the node at each real location. *)
Abbreviation Fs := (gmap (list str) Node).

Definition is_dir_node (n : option Node) : bool :=
  match n with Some (NDir _) => true | _ => false end.
Definition is_link_node (n : Node) : bool :=
  match n with NLink _ => true | _ => false end.

(** [UnsafeComponent] and [CeilingExceeded] are the [InvalidData] errors of
    [safe_descend] and [CappedReader], without their texts. *)
Inductive IoError :=
| NotFound
| NotADirectory
| IsADirectory
| FilesystemLoop
| AlreadyExists
| PermissionDenied
| InvalidInput
| NameTooLong
| UnsafeComponent (c : Component) (rel : Path)
| CeilingExceeded
| Interrupted
| OtherIo (msg : str).

(** ** Computations on the file system

    The file system is changed by the calls made before an error, too. *)

Definition fsio (A : Type) : Type := Fs -> result IoError A * Fs.
#[export] Instance fsio_ret : MRet fsio := fun A a fs => (Ok a, fs).
#[export] Instance fsio_bind : MBind fsio := fun A B k m fs =>
  match m fs with
  | (Ok a, fs') => k a fs'
  | (Err e, fs') => (Err e, fs')
  end.
Definition fail {A} (e : IoError) : fsio A := fun fs => (Err e, fs).
Definition reads {A} (f : Fs -> result IoError A) : fsio A := fun fs => (f fs, fs).

Lemma fs_bind {A B} (m : fsio A) (k : A -> fsio B) fs :
  (m ≫= k) fs = match m fs with (Ok a, fs') => k a fs' | (Err e, fs') => (Err e, fs') end.
Proof. reflexivity. Qed.

(** ** The kernel's path walk *)

Definition MAXSYMLINKS : nat := 40.

(** The location [p] leads to from [cur]; the last component's link is followed
    when [follow]. *)
Fixpoint walk_path (follow : bool) (fs : Fs) (links : nat) : list str -> Path -> result IoError (list str) :=
  fix go (cur : list str) (p : Path) :=
    match p with
    | [] => Ok cur
    | RootDir :: r => go [] r
    | CurDir :: r => if is_dir_node (fs !! cur) then go cur r else Err NotADirectory
    | ParentDir :: r =>
        if is_dir_node (fs !! cur) then go (take (length cur - 1) cur) r else Err NotADirectory
    | Normal c :: r =>
        match fs !! cur with
        | None => Err NotFound
        | Some (NDir _) =>
            let next := cur ++ [c] in
            match fs !! next with
            | None => Err NotFound
            | Some (NLink t) =>
                if bool_decide (r = []) && negb follow then Ok next
                else match links with
                     | 0 => Err FilesystemLoop
                     | S links => walk_path follow fs links cur (t ++ r)
                     end
            | Some _ => go next r
            end
        | Some _ => Err NotADirectory
        end
    end.

Definition resolve (follow : bool) (fs : Fs) (p : Path) : result IoError (list str) :=
  walk_path follow fs MAXSYMLINKS [] p.

(** ** [std::fs] *)

Definition node_at (fs : Fs) (l : list str) : result IoError Node := ok_or (fs !! l) NotFound.

(** [fs::symlink_metadata]: the node itself, links not followed at the end. *)
Definition lstat (fs : Fs) (p : Path) : result IoError Node := l ← resolve false fs p; node_at fs l.
Definition symlink_metadata (p : Path) : fsio Node := reads (fun fs => lstat fs p).

(** [Path::is_dir]: follows links; every error is [false]. *)
Definition is_dir (p : Path) : fsio bool :=
  reads (fun fs => Ok match resolve true fs p with Ok l => is_dir_node (fs !! l) | Err _ => false end).

(** The names in the directory at [l]. *)
Definition child_of (l p : list str) : option str :=
  if bool_decide (take (length p - 1) p = l) then last p else None.
Definition children (fs : Fs) (l : list str) : list str :=
  omap (fun '(p, _) => child_of l p) (map_to_list fs).

(** [fs::read_dir], in the order of the map. *)
Definition list_dir (fs : Fs) (p : Path) : result IoError (list str) :=
  l ← resolve true fs p;
  if is_dir_node (fs !! l) then Ok (children fs l) else Err NotADirectory.
Definition read_dir (p : Path) : fsio (list str) := reads (fun fs => list_dir fs p).

(** Everything at [l] and below. *)
Definition remove_tree (l : list str) (fs : Fs) : Fs := filter (fun '(p, _) => ~ l `prefix_of` p) fs.

(** [fs::remove_file] unlinks the entry itself, a link included; the path of a
    directory's own entries ([.], [..], the root) is refused. *)
Definition remove_file (p : Path) : fsio unit := fun fs =>
  match last p, resolve false fs p with
  | _, Err e => (Err e, fs)
  | Some (Normal _), Ok l =>
      match fs !! l with
      | None => (Err NotFound, fs)
      | Some (NDir _) => (Err IsADirectory, fs)
      | Some _ => (Ok tt, delete l fs)
      end
  | _, Ok _ => (Err IsADirectory, fs)
  end.

(** [fs::remove_dir_all] does not follow a link at the end of the path, nor any
    below it. *)
Definition remove_dir_all (p : Path) : fsio unit := fun fs =>
  match resolve false fs p with
  | Err e => (Err e, fs)
  | Ok l =>
      match fs !! l with
      | None => (Err NotFound, fs)
      | Some (NDir _) => (Ok tt, remove_tree l fs)
      | Some (NLink _) => (Ok tt, delete l fs)
      | Some _ => (Err NotADirectory, fs)
      end
  end.

(** [fs::create_dir_all]: the directories that are missing along a path; a
    dangling link is in the way. *)
Fixpoint create_dirs (done rest : Path) : fsio unit :=
  match rest with
  | [] => mret tt
  | c :: rest => fun fs =>
      let p := done ++ [c] in
      match resolve true fs p with
      | Ok l => if is_dir_node (fs !! l) then create_dirs p rest fs else (Err NotADirectory, fs)
      | Err NotFound =>
          match c, resolve true fs done with
          | Normal c, Ok l =>
              match fs !! (l ++ [c]) with
              | None => create_dirs p rest (<[l ++ [c] := NDir []]> fs)
              | Some _ => (Err AlreadyExists, fs)
              end
          | _, Err e => (Err e, fs)
          | _, _ => (Err NotFound, fs)
          end
      | Err e => (Err e, fs)
      end
  end.
Definition create_dir_all (l : list str) : fsio unit := create_dirs [RootDir] (Normal <$> l).

(** ** Real directories *)

(** [l] and everything above it is a directory, no link among them. *)
Definition real_dir (fs : Fs) (l : list str) : Prop :=
  forall q, q `prefix_of` l -> is_dir_node (fs !! q) = true.

Lemma real_dir_self fs l : real_dir fs l -> is_dir_node (fs !! l) = true.
Proof. intros H. by apply H. Qed.

Lemma real_dir_prefix fs q l : real_dir fs l -> q `prefix_of` l -> real_dir fs q.
Proof. intros H Hq x Hx. apply H. by etrans. Qed.

Lemma prefix_snoc_inv {A} (q l : list A) c : q `prefix_of` l ++ [c] -> q = l ++ [c] \/ q `prefix_of` l.
Proof.
  intros [k Hk]. destruct k as [|x k] using rev_ind; [left; by rewrite app_nil_r in Hk|].
  rewrite app_assoc in Hk. apply app_inj_tail in Hk as [-> ->]. right. by exists k.
Qed.

Lemma real_dir_snoc fs l c : real_dir fs (l ++ [c]) <-> real_dir fs l /\ is_dir_node (fs !! (l ++ [c])) = true.
Proof.
  split.
  - intros H. split; [by eapply real_dir_prefix, prefix_app_r|by apply H].
  - intros [H1 H2] q [->|Hq]%prefix_snoc_inv; [done|by apply H1].
Qed.

(** Along a real directory the walk goes from location to location. *)
Lemma walk_normal follow fs links cur c r :
  real_dir fs (cur ++ [c]) ->
  walk_path follow fs links cur (Normal c :: r) = walk_path follow fs links (cur ++ [c]) r.
Proof.
  intros [H1%real_dir_self H2]%real_dir_snoc.
  destruct links; simpl;
    (destruct (fs !! cur) as [[]|]; try discriminate H1;
     destruct (fs !! (cur ++ [c])) as [[]|]; try discriminate H2; reflexivity).
Qed.

Lemma walk_real follow fs links l : forall cur r,
  real_dir fs (cur ++ l) ->
  walk_path follow fs links cur ((Normal <$> l) ++ r) = walk_path follow fs links (cur ++ l) r.
Proof.
  induction l as [|c l IH]; intros cur r H; [by rewrite app_nil_r|].
  assert (Hc : real_dir fs (cur ++ [c])).
  { eapply real_dir_prefix; [exact H|]. exists l. by rewrite <- app_assoc. }
  rewrite fmap_cons, <- app_comm_cons, walk_normal by done.
  rewrite IH by by rewrite <- app_assoc. by rewrite <- app_assoc.
Qed.

Lemma resolve_real follow fs l r :
  real_dir fs l -> resolve follow fs (absolute l ++ r) = walk_path follow fs MAXSYMLINKS l r.
Proof.
  intros H. unfold resolve, absolute. rewrite <- app_comm_cons.
  transitivity (walk_path follow fs MAXSYMLINKS [] ((Normal <$> l) ++ r)); [reflexivity|].
  by rewrite walk_real.
Qed.

Lemma resolve_real_dir follow fs l : real_dir fs l -> resolve follow fs (absolute l) = Ok l.
Proof. intros H. rewrite <- (app_nil_r (absolute l)), resolve_real by done. reflexivity. Qed.

(** One step below a real directory, the last link not followed. *)
Lemma resolve_below fs l c :
  real_dir fs l ->
  resolve false fs (absolute (l ++ [c])) =
    match fs !! (l ++ [c]) with None => Err NotFound | Some _ => Ok (l ++ [c]) end.
Proof.
  intros H. unfold absolute. rewrite fmap_app. change (RootDir :: ?a ++ ?b) with ((RootDir :: a) ++ b).
  fold (absolute l). rewrite resolve_real by done. pose proof (real_dir_self _ _ H) as Hd.
  unfold MAXSYMLINKS. simpl. destruct (fs !! l) as [[]|]; try discriminate Hd.
  destruct (fs !! (l ++ [c])) as [[]|]; reflexivity.
Qed.

Lemma absolute_app u r : absolute (u ++ r) = absolute u ++ (Normal <$> r).
Proof. unfold absolute. by rewrite fmap_app. Qed.
Lemma absolute_snoc l c : absolute l ++ [Normal c] = absolute (l ++ [c]).
Proof. unfold absolute. by rewrite fmap_app. Qed.

(** Nothing is found below a file. *)
Lemma resolve_below_leaf follow fs l c n r :
  real_dir fs l -> fs !! (l ++ [c]) = Some n -> is_dir_node (Some n) = false -> is_link_node n = false ->
  r <> [] -> Forall (fun x => exists s, x = Normal s) r ->
  resolve follow fs (absolute (l ++ [c]) ++ r) = Err NotADirectory.
Proof.
  intros H E Hd Hl Hr Hn. destruct Hn as [|? r [s ->] _]; [done|].
  rewrite <- absolute_snoc, <- (assoc app), resolve_real by done.
  apply real_dir_self in H. unfold MAXSYMLINKS. simpl.
  destruct (fs !! l) as [[]|]; try discriminate H. rewrite E. destruct n; try discriminate Hd; try discriminate Hl; reflexivity.
Qed.

Lemma lstat_below fs l c : real_dir fs l -> lstat fs (absolute (l ++ [c])) = node_at fs (l ++ [c]).
Proof.
  intros H. unfold lstat. rewrite resolve_below by done.
  destruct (fs !! (l ++ [c])) eqn:E; simpl; unfold node_at; by rewrite E.
Qed.

(** Removing an entry below a real directory. *)
Lemma remove_file_below fs l c :
  real_dir fs l -> remove_file (absolute (l ++ [c])) fs =
    match fs !! (l ++ [c]) with
    | None => (Err NotFound, fs)
    | Some (NDir _) => (Err IsADirectory, fs)
    | Some _ => (Ok tt, delete (l ++ [c]) fs)
    end.
Proof.
  intros H. unfold remove_file. rewrite resolve_below by done. rewrite <- absolute_snoc, last_snoc.
  destruct (fs !! (l ++ [c])) eqn:E; [by rewrite E|done].
Qed.

Lemma list_dir_real fs l : real_dir fs l -> list_dir fs (absolute l) = Ok (children fs l).
Proof.
  intros H. unfold list_dir. rewrite resolve_real_dir by done. cbn [mbind result_bind].
  by rewrite (real_dir_self _ _ H).
Qed.

Lemma symlink_metadata_below fs l c :
  real_dir fs l -> symlink_metadata (absolute (l ++ [c])) fs = (node_at fs (l ++ [c]), fs).
Proof.
  intros H. unfold symlink_metadata, reads. f_equal. by apply lstat_below.
Qed.

(** ** Removal *)

Lemma lookup_remove_tree l fs p :
  remove_tree l fs !! p = if bool_decide (l `prefix_of` p) then None else fs !! p.
Proof.
  unfold remove_tree. case_bool_decide as H.
  - apply map_lookup_filter_None. right. intros ? _. by intros ?.
  - destruct (fs !! p) eqn:E.
    + apply map_lookup_filter_Some. done.
    + apply map_lookup_filter_None. by left.
Qed.

(** Same nodes at every location that is not at or below [t]. *)
Definition same_outside (t : list str) (fs fs' : Fs) : Prop :=
  forall p, ~ t `prefix_of` p -> fs' !! p = fs !! p.

#[export] Instance same_outside_preorder t : PreOrder (same_outside t).
Proof. split; [by intros fs p|]. intros a b c H1 H2 p Hp. by rewrite H2, H1. Qed.

Lemma same_outside_remove_tree t l fs : t `prefix_of` l -> same_outside t fs (remove_tree l fs).
Proof.
  intros H p Hp. rewrite lookup_remove_tree. case_bool_decide; [|done].
  exfalso. apply Hp. by etrans.
Qed.

Lemma same_outside_delete t l fs : t `prefix_of` l -> same_outside t fs (delete l fs).
Proof. intros H p Hp. rewrite lookup_delete_ne; [done|]. by intros ->. Qed.

Lemma same_outside_mono t u fs fs' : t `prefix_of` u -> same_outside u fs fs' -> same_outside t fs fs'.
Proof. intros Ht H p Hp. apply H. intros Hu. apply Hp. by etrans. Qed.

(** ** Listings *)

Lemma child_of_Some l p c : child_of l p = Some c <-> p = l ++ [c].
Proof.
  unfold child_of. split.
  - case_bool_decide as H; [|done]. intros Hl. destruct p as [|x p] using rev_ind; [done|].
    rewrite last_snoc in Hl. injection Hl as ->. rewrite length_app in H. simpl in H.
    rewrite Nat.add_sub, take_app_length in H. by subst.
  - intros ->. rewrite length_app. simpl. rewrite Nat.add_sub, take_app_length, bool_decide_true by done.
    apply last_snoc.
Qed.

Lemma elem_of_children fs l c : c ∈ children fs l <-> is_Some (fs !! (l ++ [c])).
Proof.
  unfold children. rewrite list_elem_of_omap. split.
  - intros ([p n] & Hin & Hc). apply child_of_Some in Hc as ->.
    apply elem_of_map_to_list in Hin. by exists n.
  - intros [n Hn]. exists (l ++ [c], n). split; [by apply elem_of_map_to_list|by apply child_of_Some].
Qed.

Lemma NoDup_children fs l : NoDup (children fs l).
Proof.
  unfold children. pose proof (NoDup_fst_map_to_list fs) as Hn.
  induction (map_to_list fs) as [|[p n] m IH]; simpl; [constructor|].
  apply NoDup_cons in Hn as [Hin Hn]. destruct (child_of l p) as [c|] eqn:E; [|by apply IH].
  constructor; [|by apply IH]. rewrite list_elem_of_omap. intros ([p' n'] & Hin' & E').
  apply child_of_Some in E as ->, E' as ->. apply Hin. by apply (list_elem_of_fmap_2 fst) in Hin'.
Qed.

(** ** Trees *)

(** Nothing lies below anything but a directory. *)
Definition tree (fs : Fs) : Prop := forall l c, is_Some (fs !! (l ++ [c])) -> is_dir_node (fs !! l) = true.

Lemma tree_above fs l r : tree fs -> is_Some (fs !! (l ++ r)) -> r <> [] -> is_dir_node (fs !! l) = true.
Proof.
  intros Ht. induction r as [|c r IH] using rev_ind; [done|]. rewrite (assoc app). intros H%Ht _.
  destruct r as [|x r]; [by rewrite app_nil_r in H|]. apply IH; [|done].
  by destruct (fs !! (l ++ x :: r)) as [[]|].
Qed.

(** Both are decided by looking at every location. *)
Definition treeb (fs : Fs) : bool :=
  forallb (fun '(p, _) => bool_decide (p = []) || is_dir_node (fs !! take (length p - 1) p)) (map_to_list fs).
Definition real_dirb (fs : Fs) (l : list str) : bool :=
  forallb (fun k => is_dir_node (fs !! take k l)) (seq 0 (S (length l))).

Lemma treeb_sound fs : treeb fs = true -> tree fs.
Proof.
  unfold treeb. rewrite forallb_forall. intros H l c [n Hn].
  specialize (H (l ++ [c], n)). rewrite <- list_elem_of_In, elem_of_map_to_list in H. specialize (H Hn). simpl in H.
  rewrite bool_decide_false in H by by destruct l. rewrite length_app in H. simpl in H.
  by rewrite Nat.add_sub, take_app_length in H.
Qed.

Lemma real_dirb_sound fs l : real_dirb fs l = true -> real_dir fs l.
Proof.
  unfold real_dirb. rewrite forallb_forall. intros H q [k ->].
  specialize (H (length q)). rewrite take_app_length in H. apply H, in_seq. rewrite length_app. lia.
Qed.

Lemma tree_real fs l c : tree fs -> is_Some (fs !! (l ++ [c])) -> real_dir fs l.
Proof.
  intros Ht H q [k ->]. apply (tree_above fs q (k ++ [c]) Ht); [by rewrite (assoc app)|by destruct k].
Qed.

Lemma remove_tree_leaf fs l :
  tree fs -> is_dir_node (fs !! l) = false -> remove_tree l fs = delete l fs.
Proof.
  intros Ht Hd. apply map_eq. intros p. rewrite lookup_remove_tree. case_bool_decide as H.
  - destruct H as [k ->]. destruct (decide (k = [])) as [->|Hk]; [by rewrite app_nil_r, lookup_delete_eq|].
    rewrite lookup_delete_ne.
    2: { intros E. rewrite <- (app_nil_r l) in E at 1. by apply app_inv_head in E. }
    destruct (fs !! (l ++ k)) eqn:E; [|done].
    assert (Hs : is_Some (fs !! (l ++ k))) by by eexists. apply tree_above in Hs; [congruence|done|done].
  - symmetry. apply lookup_delete_ne. intros ->. by apply H.
Qed.

Lemma tree_remove_tree l fs : tree fs -> tree (remove_tree l fs).
Proof.
  intros Ht q c. rewrite !lookup_remove_tree. case_bool_decide as H; [by intros []|].
  intros Hs%Ht. case_bool_decide as H'; [|done]. exfalso. by apply H, prefix_app_r.
Qed.

Lemma real_dir_remove_tree fs l q : real_dir fs l -> ~ q `prefix_of` l -> real_dir (remove_tree q fs) l.
Proof.
  intros H Hq x Hx. rewrite lookup_remove_tree, bool_decide_false; [by apply H|].
  intros Hp. apply Hq. by etrans.
Qed.
