(* ===== verification/Compression.v ===== *)
(** * Compression: recognising and decoding layer payloads
    (crates/umf-oci/src/format.rs, compression.rs, and the readers of
    materialize.rs).

    A [Read] object is a state with a [read] method.  The codecs are code of
    other crates and are parameters. *)

From Stdlib Require Import ZifyBool.
From stdpp Require Import list.
From S2P Require Import Prelude RustStr RustStrFacts HostFs BuildState.
#[local] Open Scope Z_scope.

(** ** Formats: [BuildState.Format] *)

#[export] Instance Format_eq_dec : EqDecision Format.
Proof. solve_decision. Defined.

Definition is_compressed (f : Format) : bool :=
  match f with Format_Gzip | Format_Zstd | Format_Xz | Format_Bzip2 => true | _ => false end.

Definition byte (n : N) : ascii := ascii_of_N n.

Definition is_tar (bytes : str) : bool :=
  Nat.leb (257 + 5) (length bytes) && bool_decide (take 5 (drop 257 bytes) = "ustar").

Definition detect (bytes : str) : Format :=
  if starts_with [byte 31; byte 139] bytes then Format_Gzip
  else if starts_with [byte 40; byte 181; byte 47; byte 253] bytes then Format_Zstd
  else if starts_with [byte 253; "7"%char; "z"%char; "X"%char; "Z"%char; byte 0] bytes then Format_Xz
  else if starts_with "BZh" bytes then Format_Bzip2
  else if starts_with ["P"%char; "K"%char; byte 3; byte 4] bytes
          || starts_with ["P"%char; "K"%char; byte 5; byte 6] bytes then Format_Zip
  else if starts_with "hsqs" bytes || starts_with "sqsh" bytes then Format_Squashfs
  else if is_tar bytes then Format_Tar
  else Format_Unknown.

(** [str::trim_start_matches] of a non-empty pattern. *)
Fixpoint trim_start_matches (fuel : nat) (pat s : str) : str :=
  match fuel, strip_prefix pat s with
  | S fuel, Some s' => trim_start_matches fuel pat s'
  | _, _ => s
  end.

(** Whether one of the readable entries of an archive is [oci-layout]. *)
Definition scan (entries : option (list str)) : bool :=
  match entries with
  | None => false
  | Some paths =>
      existsb (fun p => bool_decide (trim_end "/" (trim_start_matches (length p) "./" p) = "oci-layout")) paths
  end.

Definition is_oci_layout (gunzip : str -> str) (tar_paths : str -> option (list str)) (bytes : str) : bool :=
  match detect bytes with
  | Format_Gzip => scan (tar_paths (gunzip bytes))
  | Format_Tar => scan (tar_paths bytes)
  | _ => false
  end.

(** ** Readers *)

Class Reader (S : Type) := {
  read : nat -> S -> result IoError str * S;
  read_le : forall n s b s', read n s = (Ok b, s') -> (length b <= n)%nat
}.

(** The results of a sequence of reads, and the bytes they deliver. *)
Fixpoint read_all {S} `{Reader S} (ns : list nat) (s : S) : list (result IoError str) * S :=
  match ns with
  | [] => ([], s)
  | n :: ns =>
      let '(r, s1) := read n s in
      let '(rs, s2) := read_all ns s1 in
      (r :: rs, s2)
  end.
Definition bytes_of_result (r : result IoError str) : str := match r with Ok b => b | Err _ => [] end.
Definition delivered (rs : list (result IoError str)) : Z :=
  Z.of_nat (length (concat (bytes_of_result <$> rs))).

Definition DEFAULT_MAX_UNCOMPRESSED_LAYER_BYTES : Z := 32 * 1024 * 1024 * 1024.

(** [var] is the value of [UMF_MAX_UNCOMPRESSED_LAYER_BYTES]. *)
Definition max_uncompressed_layer_bytes (var : option str) : Z :=
  match var ≫= fun v => parse_unsigned u64_max (trim v) with
  | Some v => if (0 <? v)%N then Z.of_N v else DEFAULT_MAX_UNCOMPRESSED_LAYER_BYTES
  | None => DEFAULT_MAX_UNCOMPRESSED_LAYER_BYTES
  end.

(** *** [CappedReader] *)

Record CappedReader (S : Type) := {
  inner : S;
  remaining : Z
}.
Arguments inner {S} _.
Arguments remaining {S} _.
Arguments Build_CappedReader {S} _ _.

Definition CappedReader_new {S} (s : S) (cap : Z) : CappedReader S := {| inner := s; remaining := cap |}.

Definition capped_read {S} `{Reader S} (buf : nat) (r : CappedReader S) : result IoError str * CappedReader S :=
  let '(res, s) := read buf (inner r) in
  match res with
  | Err e => (Err e, {| inner := s; remaining := remaining r |})
  | Ok b =>
      let n := Z.of_nat (length b) in
      if n <=? remaining r then (Ok b, {| inner := s; remaining := remaining r - n |})
      else (Err CeilingExceeded, {| inner := s; remaining := remaining r |})
  end.

#[export] Instance capped_reader {S} `{Reader S} : Reader (CappedReader S).
Proof.
  refine {| read := capped_read |}. intros n r b r' E. unfold capped_read in E.
  destruct (read n (inner r)) as [[b'|e] s] eqn:Er; [|discriminate].
  destruct (_ <=? _); [|discriminate]. injection E as <- <-. by eapply read_le.
Defined.

(** *** [io::Chain] of a cursor and a reader *)

Record Chain (S : Type) := {
  cursor : str;
  tail : S
}.
Arguments cursor {S} _.
Arguments tail {S} _.
Arguments Build_Chain {S} _ _.

Definition chain_read {S} `{Reader S} (n : nat) (c : Chain S) : result IoError str * Chain S :=
  if bool_decide (take n (cursor c) = [] /\ n <> 0%nat) then
    let '(r, s) := read n (tail c) in (r, {| cursor := cursor c; tail := s |})
  else (Ok (take n (cursor c)), {| cursor := drop n (cursor c); tail := tail c |}).

#[export] Instance chain_reader {S} `{Reader S} : Reader (Chain S).
Proof.
  refine {| read := chain_read |}. intros n c b c' E. unfold chain_read in E.
  case_bool_decide.
  - destruct (read n (tail c)) as [r s] eqn:Er. injection E as -> <-. by eapply read_le.
  - injection E as <- <-. rewrite length_take. lia.
Defined.

(** *** [read_full] *)

Fixpoint read_full {S} `{Reader S} (fuel : nat) (len : nat) (filled : str) (s : S)
    : outcome (result IoError str * S) :=
  if Nat.ltb (length filled) len then
    match fuel with
    | O => OutOfFuel
    | Datatypes.S fuel =>
        match read (len - length filled) s with
        | (Ok [], s) => Val (Ok filled, s)
        | (Ok b, s) => read_full fuel len (filled ++ b) s
        | (Err Interrupted, s) => read_full fuel len filled s
        | (Err e, s) => Val (Err e, s)
        end
    end
  else Val (Ok filled, s).

(** ** Decoding *)

Inductive DecodeError :=
| NotATar (format : str)
| Decoder (format : str) (source : IoError)
| DecodeError_Io (e : IoError).

(** [Display] of the error, given that of an I/O error. *)
Definition DecodeError_to_string (io_to_string : IoError -> str) (e : DecodeError) : str :=
  match e with
  | NotATar format =>
      "`" ++ format ++ "` payload cannot be read as a tar stream (expected plain tar, or a gzip/zstd/xz/bzip2-compressed tar)"
  | Decoder format source => "initialising the " ++ format ++ " decoder: " ++ io_to_string source
  | DecodeError_Io e => "I/O: " ++ io_to_string e
  end.

(** The decoders of the codec crates over a reader. *)
Class Codecs (S : Type) := {
  Dec : Type;
  dec_reader :: Reader Dec;
  gz_new : S -> Dec;
  zstd_new : S -> result IoError Dec;
  xz_new : S -> Dec;
  bz_new : S -> Dec
}.

(** [Box<dyn Read>]. *)
Record BoxRead := {
  box_state : Type;
  box_reader : Reader box_state;
  box_value : box_state
}.
Definition box {S} `{HR : Reader S} (s : S) : BoxRead := {| box_state := S; box_reader := HR; box_value := s |}.
Definition box_read_all (ns : list nat) (b : BoxRead) : list (result IoError str) :=
  (@read_all _ (box_reader b) ns (box_value b)).1.

Section decode.
Context {S : Type} `{Reader S} `{Codecs (Chain S)}.

Definition decode_tar_stream_capped (fuel : nat) (source : S) (cap : Z)
    : outcome (result DecodeError (Format * BoxRead)) :=
  '(peek, reader) ← read_full fuel 512 [] source;
  Val (
    peeked ← map_err DecodeError_Io peek;
    let format := detect peeked in
    let combined := {| cursor := peeked; tail := reader |} in
    decoded ← match format with
              | Format_Gzip => Ok (box (CappedReader_new (gz_new combined) cap))
              | Format_Zstd =>
                  decoder ← map_err (Decoder "zstd") (zstd_new combined);
                  Ok (box (CappedReader_new decoder cap))
              | Format_Xz => Ok (box (CappedReader_new (xz_new combined) cap))
              | Format_Bzip2 => Ok (box (CappedReader_new (bz_new combined) cap))
              | Format_Zip => Err (NotATar "zip")
              | Format_Squashfs => Err (NotATar "squashfs")
              | Format_Tar | Format_Unknown => Ok (box (CappedReader_new combined cap))
              end;
    Ok (format, decoded)).

Definition decode_tar_stream (var : option str) (fuel : nat) (source : S) : outcome (result DecodeError (Format * BoxRead)) :=
  decode_tar_stream_capped fuel source (max_uncompressed_layer_bytes var).
End decode.

(** ** The ceiling *)

Lemma read_all_cons {S} `{Reader S} n ns (s : S) :
  read_all (n :: ns) s = ((read n s).1 :: (read_all ns (read n s).2).1, (read_all ns (read n s).2).2).
Proof. simpl. destruct (read n s) as [r s1]. simpl. by destruct (read_all ns s1). Qed.

Lemma delivered_cons r rs : delivered (r :: rs) = Z.of_nat (length (bytes_of_result r)) + delivered rs.
Proof. unfold delivered. rewrite fmap_cons. simpl. rewrite length_app. lia. Qed.

Lemma delivered_nonneg rs : 0 <= delivered rs.
Proof. unfold delivered. lia. Qed.

Section ceiling.
Context {S : Type} `{Reader S}.

Lemma capped_bounded ns : forall s cap, 0 <= cap -> delivered (read_all ns (CappedReader_new s cap)).1 <= cap.
Proof.
  induction ns as [|n ns IH]; intros s cap Hc; [done|].
  rewrite read_all_cons. cbn [fst]. rewrite delivered_cons. cbn [read capped_reader]. unfold capped_read. cbn [inner remaining CappedReader_new].
  destruct (read n s) as [[b|e] s1]; [|simpl; by apply IH].
  destruct (Z.of_nat (length b) <=? cap) eqn:E; [|simpl; by apply IH].
  cbn [fst snd bytes_of_result]. specialize (IH s1 (cap - Z.of_nat (length b))). unfold CappedReader_new in IH. lia.
Qed.

Lemma capped_transparent ns : forall s cap,
  delivered (read_all ns s).1 <= cap -> (read_all ns (CappedReader_new s cap)).1 = (read_all ns s).1.
Proof.
  induction ns as [|n ns IH]; intros s cap Hc; [done|].
  rewrite !read_all_cons in *. cbn [fst] in *. rewrite delivered_cons in Hc.
  cbn [read capped_reader]. unfold capped_read. cbn [inner remaining CappedReader_new].
  destruct (read n s) as [[b|e] s1]; cbn [fst snd bytes_of_result] in *.
  - pose proof (delivered_nonneg (read_all ns s1).1). rewrite (proj2 (Z.leb_le _ _)) by lia. cbn [fst snd]. f_equal.
    apply IH. lia.
  - f_equal. by apply IH.
Qed.
End ceiling.

(** ** Sources of bytes *)

(** A reader that delivers the bytes [rest] in any non-empty pieces, with
    finitely many interruptions, and no other error. *)
Class ByteSource (S : Type) `{Reader S} := {
  rest : S -> str;
  patience : S -> nat;
  source_read : forall n s, n <> 0%nat ->
    match read n s with
    | (Ok b, s') => rest s = b ++ rest s' /\ (b = [] -> rest s = []) /\ (patience s' <= patience s)%nat
    | (Err e, s') => e = Interrupted /\ rest s' = rest s /\ (patience s' < patience s)%nat
    end
}.

Lemma read_full_spec {S} `{ByteSource S} fuel : forall len filled (s : S),
  (length filled <= len)%nat -> (len - length filled + patience s < fuel)%nat ->
  exists s', read_full fuel len filled s = Val (Ok (filled ++ take (len - length filled) (rest s)), s')
    /\ rest s' = drop (len - length filled) (rest s).
Proof.
  induction fuel as [|fuel IH]; intros len filled s Hl Hf; [lia|]. cbn [read_full].
  destruct (Nat.ltb (length filled) len) eqn:E; [apply Nat.ltb_lt in E|apply Nat.ltb_ge in E].
  2: { exists s. replace (len - length filled)%nat with 0%nat by lia. by rewrite take_0, app_nil_r, drop_0. }
  pose proof (source_read (len - length filled) s ltac:(lia)) as Hs.
  destruct (read (len - length filled) s) as [[b|e] s1] eqn:Er.
  - destruct Hs as (Hr & Hb & Hp). apply read_le in Er. destruct b as [|a b].
    + exists s1. rewrite (Hb eq_refl) in *. simpl in Hr. by rewrite <- Hr, take_nil, drop_nil, app_nil_r.
    + destruct (IH len (filled ++ a :: b) s1) as (s2 & E2 & Hr2).
      { rewrite length_app. lia. }
      { rewrite length_app. simpl. lia. }
      exists s2. split.
      * etransitivity; [exact E2|]. rewrite <- (assoc app), Hr, length_app.
        replace (len - length filled)%nat with (length (a :: b) + (len - (length filled + length (a :: b))))%nat by lia.
        by rewrite take_app_add.
      * rewrite Hr2, Hr, length_app.
        replace (len - length filled)%nat with (length (a :: b) + (len - (length filled + length (a :: b))))%nat by lia.
        by rewrite drop_app_add.
  - destruct Hs as (-> & Hr & Hp). destruct (IH len filled s1) as (s2 & E2 & Hr2); [lia|lia|].
    exists s2. by rewrite <- Hr.
Qed.

(** The reader that follows the peek starts at the first byte again. *)
#[export] Instance chain_source {S} `{ByteSource S} : ByteSource (Chain S).
Proof.
  refine {| rest := fun c => cursor c ++ rest (tail c); patience := fun c => patience (tail c) |}.
  intros n c Hn. cbn [read chain_reader]. unfold chain_read. case_bool_decide as E.
  - destruct E as [E _]. assert (cursor c = []) as Ec by (destruct (cursor c), n; done).
    pose proof (source_read n (tail c) Hn) as Hs.
    destruct (read n (tail c)) as [[b|e] s']; cbn [cursor tail]; by rewrite Ec.
  - cbn [cursor tail]. split_and!; [by rewrite (assoc app), take_drop|naive_solver|lia].
Defined.

(** C31 (bounds): Decoding a layer always ends.  The format reported is that of
    the payload's first 512 bytes however the reads split them; only zip and
    squashfs payloads, and malformed zstd frames, are refused; no reader it
    returns, whatever the codec produces, ever delivers more bytes than the
    ceiling; and an uncompressed payload within the ceiling is delivered
    verbatim from its first byte. *)
Theorem decode_tar_stream_exact {S} `{ByteSource S} `{Codecs (Chain S)} (s : S) cap fuel :
  0 <= cap -> (512 + patience s < fuel)%nat ->
  exists r, decode_tar_stream_capped fuel s cap = Val r /\
    match r with
    | Ok (f, b) =>
        f = detect (take 512 (rest s))
        /\ (forall ns, delivered (box_read_all ns b) <= cap)
        /\ (is_compressed f = false ->
            exists c : Chain S, rest c = rest s
              /\ forall ns, delivered (read_all ns c).1 <= cap -> box_read_all ns b = (read_all ns c).1)
    | Err (NotATar _) => detect (take 512 (rest s)) ∈ [Format_Zip; Format_Squashfs]
    | Err (Decoder _ _) => detect (take 512 (rest s)) = Format_Zstd
    | Err (DecodeError_Io _) => False
    end.
Proof.
  intros Hc Hf. destruct (read_full_spec fuel 512 [] s) as (s' & E & Hr); [simpl; lia|simpl; lia|].
  unfold decode_tar_stream_capped. rewrite E. cbn [mbind outcome_bind map_err app length result_bind].
  change (512 - 0)%nat with 512%nat in *. eexists. split; [reflexivity|].
  assert (Hb : forall (D : Type) (HD : Reader D) (d : D) ns, delivered (box_read_all ns (box (CappedReader_new d cap))) <= cap)
    by (intros; by apply capped_bounded).
  destruct (detect (take 512 (rest s))) eqn:Ed; cbn [mbind result_bind];
    try (split_and!; [done|intros; apply Hb|done]).
  - split_and!; [done|intros; apply Hb|]. intros _. eexists. split; [|intros ns Hn; by apply capped_transparent].
    cbn. by rewrite Hr, take_drop.
  - destruct (zstd_new _) as [d|e]; [|done]. split_and!; [done|intros; apply Hb|done].
  - by left.
  - right. by left.
  - split_and!; [done|intros; apply Hb|]. intros _. eexists. split; [|intros ns Hn; by apply capped_transparent].
    cbn. by rewrite Hr, take_drop.
Qed.

(** A source in memory that hands out at most three bytes at a time, and codecs
    that fail or pass the bytes on. *)
Module MemSource.
Definition mem_read (n : nat) (s : str) : result IoError str * str :=
  (Ok (take (n `min` 3) s), drop (n `min` 3) s).
#[export] Instance mem_reader : Reader str.
Proof. refine {| read := mem_read |}. intros n s b s' [= <- <-]. rewrite length_take. lia. Defined.
#[export] Instance mem_source : ByteSource str.
Proof.
  refine {| rest := fun s => s; patience := fun _ => 0%nat |}. intros n s Hn. cbn. unfold mem_read.
  split_and!; [by rewrite take_drop| |done]. destruct n; [done|]. by destruct s.
Defined.
#[export] Instance codecs : Codecs (Chain str) := {|
  Dec := Chain str; gz_new := fun c => c; zstd_new := fun _ => Err (OtherIo "frame"); xz_new := fun c => c; bz_new := fun c => c
|}.

Lemma decode_tar_stream_exact_witness :
  (512 + patience ("not an archive" : str) < 600)%nat
  /\ exists r, decode_tar_stream_capped 600 ("not an archive" : str) 4 = Val r
     /\ match r with Ok (f, b) => f = Format_Unknown /\ delivered (box_read_all [10; 10; 10]%nat b) <= 4 | _ => False end.
Proof.
  split; [simpl; lia|].
  destruct (decode_tar_stream_exact ("not an archive" : str) 4 600) as (r & E & Hr); [lia|simpl; lia|].
  exists r. split; [exact E|]. vm_compute in E. injection E as <-. destruct Hr as (Hf & Hd & _). split; [exact Hf|apply Hd].
Defined.

(** The second read would bring the fifth byte, and fails. *)
Example capped_reads :
  (read_all [10; 10; 10]%nat (CappedReader_new ("not an archive" : str) 4)).1
  = [Ok ("not" : str); Err CeilingExceeded; Err CeilingExceeded].
Proof. reflexivity. Qed.
End MemSource.
