(* ===== verification/Materialize.v ===== *)
(** * Materialize: applying image layers to a directory
    (crates/umf-oci/src/materialize.rs, whiteout.rs).

    Layers come from untrusted images.  An ordinary entry is written by the
    [tar] crate, which is a parameter ([TarCrate]); the deletions a layer asks
    for, its whiteouts, are carried out by the program itself. *)

From stdpp Require Import gmap list.
From S2P Require Import Prelude RustStr HostFs Compression Layout.

(** ** Whiteouts *)

Definition WH_PREFIX : str := ".wh.".
Definition WH_OPAQUE : str := ".wh..wh..opq".
Definition OPAQUE_XATTRS : list str :=
  ["trusted.overlay.opaque" : str; "user.overlay.opaque" : str; "user.fuseoverlayfs.opaque" : str].

Definition whiteout_name (name : str) : str := WH_PREFIX ++ name.

Definition is_overlay_deletion (meta : Node) : bool :=
  match meta with NChar rdev => (rdev =? 0)%Z | _ => false end.

(** [xattr::get]: an unreadable attribute is like an absent one. *)
Definition xattr_get (xattrs : list (str * str)) (name : str) : option str :=
  snd <$> find (fun kv => bool_decide (kv.1 = name)) xattrs.
Definition is_opaque_dir (xattrs : list (str * str)) : bool :=
  existsb (fun name => bool_decide (xattr_get xattrs name = Some ("y" : str))) OPAQUE_XATTRS.

Inductive Whiteout :=
| Whiteout_Opaque (dir : Path)
| Whiteout_Remove (victim : Path)
| Whiteout_None.

(** [OsStr::to_str]. *)
Definition to_str (s : str) : option str :=
  if forallb valid_char (chars s) && bool_decide (concat (chars s) = s) then Some s else None.

Definition classify (path : Path) : Whiteout :=
  match file_name path ≫= to_str with
  | None => Whiteout_None
  | Some name =>
      let parent := default [] (parent path) in
      if bool_decide (name = WH_OPAQUE) then Whiteout_Opaque parent
      else match strip_prefix WH_PREFIX name with
           | Some original => Whiteout_Remove (join_path parent (components original))
           | None => Whiteout_None
           end
  end.

(** ** Deletions *)

(** The plain names of a relative path. *)
Fixpoint normals (rel path : Path) : result IoError (list str) :=
  match path with
  | [] => Ok []
  | Normal c :: path => ns ← normals rel path; Ok (c :: ns)
  | CurDir :: path => normals rel path
  | other :: _ => Err (UnsafeComponent other rel)
  end.

Fixpoint descend (allow_final_symlink : bool) (cur : Path) (ns : list str) : fsio (option Path) :=
  match ns with
  | [] => mret (Some cur)
  | c :: ns => fun fs =>
      let cur := cur ++ [Normal c] in
      match symlink_metadata cur fs with
      | (Ok (NLink _), fs) =>
          (Ok (if bool_decide (ns = []) && allow_final_symlink then Some cur else None), fs)
      | (Ok _, fs) => descend allow_final_symlink cur ns fs
      | (Err NotFound, fs) => (Ok None, fs)
      | (Err e, fs) => (Err e, fs)
      end
  end.

Definition safe_descend (base rel : Path) (allow_final_symlink : bool) : fsio (option Path) :=
  match normals rel rel with
  | Err e => fail e
  | Ok ns => descend allow_final_symlink base ns
  end.

Definition remove_path (path : Path) : fsio unit := fun fs =>
  match symlink_metadata path fs with
  | (Ok (NDir _), fs) => remove_dir_all path fs
  | (Ok _, fs) => remove_file path fs
  | (Err NotFound, fs) => (Ok tt, fs)
  | (Err e, fs) => (Err e, fs)
  end.

Fixpoint clear_children (keep : list Path) (dir : Path) (names : list str) : fsio unit :=
  match names with
  | [] => mret tt
  | name :: names =>
      let child := dir ++ [Normal name] in
      if bool_decide (child ∈ keep) then clear_children keep dir names
      else remove_path child ;; clear_children keep dir names
  end.

Definition clear_dir (keep : list Path) (dir : Path) : fsio unit :=
  d ← is_dir dir;
  if d : bool then names ← read_dir dir; clear_children keep dir names else mret tt.

(** ** Layers *)

Inductive TarKind :=
| TDir
| TFile (data : str)
| TSymlink (target : Path)
| TOther.

Record TarEntry := {
  e_path : result IoError Path;
  e_kind : TarKind
}.

(** [tar::Entry::unpack_in]: whether the entry was written.  It never writes
    outside the directory it is given. *)
Class TarCrate := {
  archive_entries : BoxRead -> result IoError (list (result IoError TarEntry));
  unpack_in : Path -> TarEntry -> fsio bool;
  unpack_in_contained : forall t e fs r fs' p,
    unpack_in (absolute t) e fs = (r, fs') ->
    ~ (t `prefix_of` p /\ t <> p) -> fs' !! p = fs !! p
}.

Section layers.
Context {T : TarCrate}.

(** What the pass over the entries has recorded. *)
Record Pass := {
  opaque_dirs : list Path;
  written : list Path
}.
Definition Pass_new : Pass := {| opaque_dirs := []; written := [] |}.

Definition apply_entry (target : Path) (s : Pass) (e : TarEntry) : fsio Pass :=
  path ← reads (fun _ => e_path e);
  match classify path with
  | Whiteout_Opaque dir =>
      p ← safe_descend target dir false;
      mret match p with
           | Some p => {| opaque_dirs := opaque_dirs s ++ [p]; written := written s |}
           | None => s
           end
  | Whiteout_Remove victim =>
      p ← safe_descend target victim true;
      match p with Some p => remove_path p | None => mret tt end ;;
      mret s
  | Whiteout_None =>
      unpacked ← unpack_in target e;
      mret (if unpacked : bool
            then {| opaque_dirs := opaque_dirs s; written := join_path target path :: written s |}
            else s)
  end.

Fixpoint apply_entries (target : Path) (s : Pass) (es : list (result IoError TarEntry)) : fsio Pass :=
  match es with
  | [] => mret s
  | e :: es => e ← reads (fun _ => e); s ← apply_entry target s e; apply_entries target s es
  end.

Fixpoint clear_dirs (keep : list Path) (dirs : list Path) : fsio unit :=
  match dirs with
  | [] => mret tt
  | dir :: dirs => clear_dir keep dir ;; clear_dirs keep dirs
  end.

Definition apply_tar (entries : result IoError (list (result IoError TarEntry))) (target : Path) : fsio unit :=
  es ← reads (fun _ => entries);
  s ← apply_entries target Pass_new es;
  clear_dirs (written s) (opaque_dirs s).

(** *** Whole images *)

Context {S : Type} `{Reader S} `{Codecs (Chain S)} (io_to_string : IoError -> str) (fuel : nat) (cap_var : option str).

Definition apply_layer (source : S) (target : Path) : fsio unit :=
  match decode_tar_stream cap_var fuel source with
  | Val (Ok (_, decoded)) => apply_tar (archive_entries decoded) target
  | Val (Err e) => fail (OtherIo (DecodeError_to_string io_to_string e))
  | _ => fail Interrupted
  end.

Inductive MaterializeError :=
| MaterializeError_Layout (e : RegistryError)
| MaterializeError_Layer (digest : str) (source : IoError)
| MaterializeError_Io (e : IoError).

(** [open_file] reads a file with the given contents. *)
Fixpoint materialize_each (open_file : str -> S) (layout : ImageLayout) (layer_digests : list str) (target : Path) (fs : Fs)
    : result MaterializeError unit * Fs :=
  match layer_digests with
  | [] => (Ok tt, fs)
  | digest :: layer_digests =>
      match blob_path digest with
      | Err e => (Err (MaterializeError_Layout e), fs)
      | Ok name =>
          match blobs layout !! name with
          | None => (Err (MaterializeError_Io NotFound), fs)
          | Some bytes =>
              match apply_layer (open_file bytes) target fs with
              | (Ok _, fs) => materialize_each open_file layout layer_digests target fs
              | (Err source, fs) => (Err (MaterializeError_Layer digest source), fs)
              end
          end
      end
  end.

Definition materialize_layers (open_file : str -> S) (layout : ImageLayout) (layer_digests : list str) (target : list str) (fs : Fs)
    : result MaterializeError unit * Fs :=
  match create_dir_all target fs with
  | (Err e, fs) => (Err (MaterializeError_Io e), fs)
  | (Ok _, fs) => materialize_each open_file layout layer_digests (absolute target) fs
  end.
End layers.

(** The location [path] leads to, when it is inside [root]. *)
Definition contained_read (fs : Fs) (root path : Path) : option (list str) :=
  match resolve true fs path, resolve true fs root with
  | Ok canonical, Ok root_canonical =>
      if bool_decide (root_canonical `prefix_of` canonical) then Some canonical else None
  | _, _ => None
  end.

(** ** Where a deletion can reach *)

(** Everything above [t] is a directory; [t] is one too, or has been deleted. *)
Definition anchored (fs : Fs) (t : list str) : Prop :=
  (forall q, q `prefix_of` t -> q <> t -> is_dir_node (fs !! q) = true)
  /\ (is_dir_node (fs !! t) = true \/ fs !! t = None).

Lemma real_dir_anchored fs t : real_dir fs t -> anchored fs t.
Proof. intros H. split; [intros q ? _; by apply H|left; by apply H]. Qed.

Lemma anchored_real fs t : anchored fs t -> is_dir_node (fs !! t) = true -> real_dir fs t.
Proof. intros [H _] Ht q Hq. destruct (decide (q = t)) as [->|Hne]; [done|by apply H]. Qed.

Lemma anchored_same fs fs' t :
  anchored fs t -> same_outside t fs fs' -> is_dir_node (fs' !! t) = true \/ fs' !! t = None -> anchored fs' t.
Proof.
  intros [H _] Hs Ht. split; [|done]. intros q Hq Hne. rewrite Hs; [by apply H|].
  intros Hp. by apply Hne, (anti_symm prefix).
Qed.

(** The walk to a deleted directory ends where the directory was. *)
Lemma resolve_missing fs t r :
  anchored fs t -> fs !! t = None -> t <> [] -> resolve false fs (absolute t ++ r) = Err NotFound.
Proof.
  intros [H _] Hn Ht. destruct t as [|c l] using rev_ind; [done|]. clear IHl Ht.
  assert (Hl : real_dir fs l).
  { intros q Hq. apply H; [by apply prefix_app_r|]. intros ->. apply prefix_length in Hq.
    rewrite length_app in Hq. simpl in Hq. lia. }
  rewrite <- absolute_snoc, <- (assoc app). rewrite resolve_real by done.
  pose proof (real_dir_self _ _ Hl) as Hd. unfold MAXSYMLINKS. simpl.
  destruct (fs !! l) as [[]|]; try discriminate Hd. by rewrite Hn.
Qed.

Lemma descend_reads allow ns : forall cur fs r fs', descend allow cur ns fs = (r, fs') -> fs' = fs.
Proof.
  induction ns as [|c ns IH]; intros cur fs r fs' H; simpl in H; [by injection H|].
  unfold symlink_metadata, lstat, reads in H.
  destruct (resolve _ _ _) as [l|[]]; simpl in H; try (by injection H as <- <-).
  destruct (node_at fs l) as [[]|[]]; try (by injection H as <- <-); by apply IH in H.
Qed.

(** Below a file there is nothing to descend to. *)
Lemma descend_leaf allow fs l c n c' ns :
  real_dir fs l -> fs !! (l ++ [c]) = Some n -> is_dir_node (Some n) = false -> is_link_node n = false ->
  descend allow (absolute (l ++ [c])) (c' :: ns) fs = (Err NotADirectory, fs).
Proof.
  intros H E Hd Hl. cbn [descend]. unfold symlink_metadata, lstat, reads.
  rewrite (resolve_below_leaf _ _ _ _ n) by first [done | by repeat econstructor]. reflexivity.
Qed.

(** A path that [safe_descend] returns has only real directories above its last
    name. *)
Definition descended (allow : bool) (fs : Fs) (l ns : list str) : Prop :=
  forall l' c, ns = l' ++ [c] ->
  real_dir fs (l ++ l') /\ exists n, fs !! (l ++ ns) = Some n /\ (allow = false -> is_link_node n = false).

Lemma descended_one allow fs l c n :
  real_dir fs l -> fs !! (l ++ [c]) = Some n -> (allow = false -> is_link_node n = false) ->
  descended allow fs l [c].
Proof.
  intros Hl E Hn l' c' Hc. destruct l' as [|? [|]]; try discriminate Hc.
  rewrite app_nil_r. eauto.
Qed.

Lemma descend_real allow ns : forall fs l p fs',
  real_dir fs l -> descend allow (absolute l) ns fs = (Ok (Some p), fs') ->
  p = absolute (l ++ ns) /\ descended allow fs l ns.
Proof.
  induction ns as [|c ns IH]; intros fs l p fs' Hl H; cbn [descend] in H.
  { injection H as <- <-. rewrite app_nil_r. split; [done|]. intros l' c Hc. by destruct l'. }
  rewrite absolute_snoc, symlink_metadata_below in H by done. unfold node_at in H.
  destruct (fs !! (l ++ [c])) as [n|] eqn:E; cbn [ok_or] in H; [|discriminate].
  assert (Hleaf : is_dir_node (Some n) = false -> is_link_node n = false ->
    descend allow (absolute (l ++ [c])) ns fs = (Ok (Some p), fs') ->
    p = absolute (l ++ c :: ns) /\ descended allow fs l (c :: ns)).
  { intros Hd Hn Hp. destruct ns as [|c' ns]; [|by rewrite (descend_leaf _ _ _ _ n) in Hp].
    injection Hp as <- <-. eauto using descended_one. }
  destruct n as [x|data|tg|rdev|]; [|by apply Hleaf| |by apply Hleaf|by apply Hleaf].
  - assert (Hc : real_dir fs (l ++ [c])) by (apply real_dir_snoc; rewrite E; done).
    destruct ns as [|c' ns].
    { injection H as <- <-. split; [done|]. by eapply descended_one. }
    apply IH in H as [-> H]; [|done]. rewrite <- (assoc app) in *. split; [done|].
    intros l' z Hz. destruct l' as [|y l']; [done|]. injection Hz as <- Hz.
    destruct (H l' z Hz) as (H1 & H2). by rewrite <- (assoc app) in H1, H2.
  - destruct (bool_decide (ns = [])) eqn:Hb; [|discriminate]. bools. subst.
    destruct allow; simpl in H; [|discriminate]. injection H as <- <-.
    split; [done|]. by eapply descended_one.
Qed.

Lemma remove_path_below fs l c :
  real_dir fs l ->
  remove_path (absolute (l ++ [c])) fs =
    (Ok tt, match fs !! (l ++ [c]) with
            | Some (NDir _) => remove_tree (l ++ [c]) fs
            | Some _ => delete (l ++ [c]) fs
            | None => fs
            end).
Proof.
  intros H. unfold remove_path. rewrite symlink_metadata_below by done. unfold node_at.
  destruct (fs !! (l ++ [c])) as [n|] eqn:E; [|done]. cbn [ok_or].
  rewrite remove_file_below by done. unfold remove_dir_all. rewrite resolve_below by done. rewrite E. simpl. rewrite E. by destruct n.
Qed.

Lemma remove_path_tree fs l c :
  tree fs -> real_dir fs l -> remove_path (absolute (l ++ [c])) fs = (Ok tt, remove_tree (l ++ [c]) fs).
Proof.
  intros Ht H. rewrite remove_path_below by done. f_equal.
  destruct (fs !! (l ++ [c])) as [[]|] eqn:E; rewrite ?remove_tree_leaf by (done || by rewrite E); [done..|].
  symmetry. by apply delete_id.
Qed.

Lemma remove_path_below_outside fs l c :
  real_dir fs l -> same_outside (l ++ [c]) fs (remove_path (absolute (l ++ [c])) fs).2.
Proof.
  intros H. rewrite remove_path_below by done. simpl.
  destruct (fs !! (l ++ [c])) as [[]|]; auto using same_outside_remove_tree, same_outside_delete.
  reflexivity.
Qed.

Lemma remove_path_anchor fs t :
  anchored fs t ->
  remove_path (absolute t) fs = (Ok tt, if is_dir_node (fs !! t) then remove_tree t fs else fs).
Proof.
  intros H. destruct (proj2 H) as [Hd|Hn].
  - rewrite Hd. unfold remove_path, symlink_metadata, lstat, reads. rewrite resolve_real_dir by by apply anchored_real.
    cbn [mbind result_bind]. unfold node_at. unfold remove_dir_all.
    rewrite resolve_real_dir by by apply anchored_real.
    destruct (fs !! t) as [[]|]; try discriminate Hd; reflexivity.
  - rewrite Hn. unfold remove_path, symlink_metadata, lstat, reads. cbn [is_dir_node].
    destruct (decide (t = [])) as [->|Ht].
    + change (resolve false fs (absolute [])) with (@Ok IoError (list str) []).
      cbn [mbind result_bind]. unfold node_at. by rewrite Hn.
    + pose proof (resolve_missing fs t [] H Hn Ht) as E. rewrite app_nil_r in E. by rewrite E.
Qed.

(** A deletion behind [safe_descend] changes nothing outside the target. *)
Lemma descend_missing allow fs t ns p fs' :
  anchored fs t -> fs !! t = None -> descend allow (absolute t) ns fs = (Ok (Some p), fs') -> p = absolute t.
Proof.
  intros H Hn. destruct ns as [|c ns]; cbn [descend]; [by injection 1|].
  assert (E : resolve false fs (absolute t ++ [Normal c]) = Err NotFound).
  { destruct (decide (t = [])) as [->|Ht]; [|by apply resolve_missing].
    unfold resolve, MAXSYMLINKS. simpl. by rewrite Hn. }
  unfold symlink_metadata, lstat, reads. by rewrite E.
Qed.

Lemma safe_remove fs t rel allow p fs1 :
  anchored fs t -> safe_descend (absolute t) rel allow fs = (Ok (Some p), fs1) ->
  same_outside t fs (remove_path p fs1).2 /\ anchored (remove_path p fs1).2 t.
Proof.
  intros H Hs. unfold safe_descend in Hs. destruct (normals rel rel) as [ns|e]; [|discriminate].
  pose proof (descend_reads _ _ _ _ _ _ Hs) as ->.
  assert (Hself : same_outside t fs (remove_path (absolute t) fs).2 /\ anchored (remove_path (absolute t) fs).2 t).
  { rewrite remove_path_anchor by done. simpl. destruct (is_dir_node (fs !! t)) eqn:Hd; [|split; [reflexivity|done]].
    assert (Ho : same_outside t fs (remove_tree t fs)) by by apply same_outside_remove_tree.
    split; [done|]. eapply anchored_same; [exact H|done|]. right.
    rewrite lookup_remove_tree. by rewrite bool_decide_true. }
  destruct (proj2 H) as [Hd|Hn].
  2: by rewrite (descend_missing _ _ _ _ _ _ H Hn Hs).
  pose proof (anchored_real _ _ H Hd) as Hr.
  destruct (descend_real _ _ _ _ _ _ Hr Hs) as [-> HD].
  destruct ns as [|c l' _] using rev_ind; [by rewrite app_nil_r|].
  destruct (HD l' c eq_refl) as [Hl' _]. rewrite (assoc app).
  pose proof (remove_path_below_outside _ _ c Hl') as Ho.
  assert (Ht : ~ (t ++ l') ++ [c] `prefix_of` t).
  { intros Hp%prefix_length. rewrite !length_app in Hp. simpl in Hp. lia. }
  split.
  - eapply same_outside_mono; [|exact Ho]. by apply prefix_app_r, prefix_app_r.
  - split; [|left; by rewrite Ho].
    intros q Hq Hne. rewrite Ho; [by apply (proj1 H)|]. intros Hp. apply Ht. by etrans.
Qed.

(** ** Containment of a layer *)

(** No link at [l] or above it. *)
Definition link_free (fs : Fs) (l : list str) : Prop :=
  forall q n, q `prefix_of` l -> fs !! q = Some n -> is_link_node n = false.

Lemma walk_link_free follow fs links l : forall cur x,
  link_free fs (cur ++ l) -> walk_path follow fs links cur (Normal <$> l) = Ok x ->
  x = cur ++ l /\ (forall q, cur `prefix_of` q -> q `prefix_of` cur ++ l -> q <> cur ++ l -> is_dir_node (fs !! q) = true).
Proof.
  induction l as [|c l IH]; intros cur x Hf H.
  { destruct links; injection H as <-; rewrite app_nil_r; (split; [done|]); intros q H1 H2 H3; exfalso;
      by apply H3, (anti_symm prefix). }
  assert (Hc : (cur ++ [c]) ++ l = cur ++ c :: l) by by rewrite <- (assoc app).
  assert (Hstep : is_dir_node (fs !! cur) = true /\ walk_path follow fs links (cur ++ [c]) (Normal <$> l) = Ok x).
  { destruct (fs !! (cur ++ [c])) as [n|] eqn:E.
    - assert (Hn : is_link_node n = false) by (apply (Hf _ _ ltac:(exists l; done) E)).
      destruct links; simpl in H; (destruct (fs !! cur) as [[]|]; try discriminate H; rewrite E in H;
        destruct n; try discriminate Hn; done).
    - destruct links; simpl in H; (destruct (fs !! cur) as [[]|]; try discriminate H; rewrite E in H; discriminate). }
  destruct Hstep as [Hd Hw]. apply IH in Hw as [-> Hq]; [|by rewrite Hc].
  rewrite Hc in *. split; [done|]. intros q H1 H2 H3.
  destruct H1 as [[|c' k] ->]; [by rewrite app_nil_r|].
  destruct H2 as [k' Hk']. rewrite <- (assoc app) in Hk'. apply app_inv_head in Hk'. injection Hk' as <- Hk'.
  apply Hq; [|exists k'; rewrite <- (assoc app); simpl; by rewrite Hk'|done].
  exists k. by rewrite <- (assoc app).
Qed.

Lemma resolve_link_free fs l x :
  link_free fs l -> resolve true fs (absolute l) = Ok x -> is_dir_node (fs !! x) = true -> x = l /\ real_dir fs l.
Proof.
  intros Hf H Hd. destruct (walk_link_free true fs MAXSYMLINKS l [] x Hf H) as [-> Hq].
  split; [done|]. intros q Hp. destruct (decide (q = [] ++ l)) as [->|Hne]; [done|].
  apply Hq; [apply prefix_nil|done|done].
Qed.

Lemma link_free_subseteq fs fs' l : fs' ⊆ fs -> link_free fs l -> link_free fs' l.
Proof. intros Hs H q n Hq Hn. by eapply H, lookup_weaken. Qed.

Lemma remove_path_below_subseteq fs l c : real_dir fs l -> (remove_path (absolute (l ++ [c])) fs).2 ⊆ fs.
Proof.
  intros H. rewrite remove_path_below by done. simpl.
  destruct (fs !! (l ++ [c])) as [[]|]; try apply delete_subseteq; try apply map_filter_subseteq; done.
Qed.

Lemma remove_path_below_real fs l c : real_dir fs l -> real_dir (remove_path (absolute (l ++ [c])) fs).2 l.
Proof.
  intros H q Hq. rewrite remove_path_below_outside; [by apply H|done|].
  intros Hp. assert (Hl : l ++ [c] `prefix_of` l) by by etrans.
  apply prefix_length in Hl. rewrite length_app in Hl. simpl in Hl. lia.
Qed.

Lemma clear_children_contained keep l names : forall fs,
  real_dir fs l ->
  same_outside l fs (clear_children keep (absolute l) names fs).2
  /\ (clear_children keep (absolute l) names fs).2 ⊆ fs.
Proof.
  induction names as [|c names IH]; intros fs H; cbn [clear_children]; [by split|].
  case_bool_decide; [by apply IH|]. rewrite absolute_snoc, fs_bind.
  pose proof (remove_path_below_outside fs l c H) as Ho. pose proof (remove_path_below_subseteq fs l c H) as Hs.
  pose proof (remove_path_below_real fs l c H) as Hr.
  destruct (remove_path _ fs) as [[[]|e] fs1]; cbn [fst snd] in *.
  - destruct (IH fs1 Hr) as [H1 H2]. split; [|by transitivity fs1]. etrans; [|exact H1].
    eapply same_outside_mono; [|exact Ho]. by apply prefix_app_r.
  - split; [|done]. eapply same_outside_mono; [|exact Ho]. by apply prefix_app_r.
Qed.

Lemma clear_dir_contained keep l fs :
  link_free fs l -> same_outside l fs (clear_dir keep (absolute l) fs).2 /\ (clear_dir keep (absolute l) fs).2 ⊆ fs.
Proof.
  intros Hf. unfold clear_dir. rewrite fs_bind. unfold is_dir, reads.
  destruct (resolve true fs (absolute l)) as [x|e] eqn:E; [|by split].
  destruct (is_dir_node (fs !! x)) eqn:Hd; [|by split].
  destruct (resolve_link_free _ _ _ Hf E Hd) as [-> Hr]. rewrite fs_bind. unfold read_dir, list_dir, reads.
  rewrite E. cbn [mbind result_bind]. rewrite Hd.
  by apply clear_children_contained.
Qed.

Lemma clear_dirs_contained keep t dirs : forall fs,
  Forall (fun p => exists l, p = absolute l /\ t `prefix_of` l /\ link_free fs l) dirs ->
  same_outside t fs (clear_dirs keep dirs fs).2.
Proof.
  induction dirs as [|p dirs IH]; intros fs H; [by intros q|]. apply Forall_cons in H as [(l & -> & Hp & Hf) H].
  cbn [clear_dirs]. rewrite fs_bind. destruct (clear_dir_contained keep l fs Hf) as [Ho Hs].
  apply (same_outside_mono t) in Ho; [|done].
  destruct (clear_dir _ _ fs) as [[[]|e] fs1]; simpl in *; [|done]. etrans; [exact Ho|]. apply IH.
  eapply Forall_impl; [exact H|]. intros p (l' & ? & ? & ?). eauto using link_free_subseteq.
Qed.

Section containment.
Context {T : TarCrate}.

(** What the recorded directories are. *)
Definition recorded (t : list str) (s : Pass) : Prop :=
  Forall (fun p => exists l, p = absolute l /\ t `prefix_of` l) (opaque_dirs s).

Lemma safe_descend_under fs t rel allow p fs1 :
  anchored fs t -> safe_descend (absolute t) rel allow fs = (Ok (Some p), fs1) ->
  exists l, p = absolute l /\ t `prefix_of` l.
Proof.
  intros H Hs. unfold safe_descend in Hs. destruct (normals rel rel) as [ns|e]; [|discriminate].
  destruct (proj2 H) as [Hd|Hn].
  - destruct (descend_real _ _ _ _ _ _ (anchored_real _ _ H Hd) Hs) as [-> _].
    exists (t ++ ns). split; [done|]. by apply prefix_app_r.
  - apply descend_missing in Hs as ->; eauto.
Qed.

Lemma safe_descend_reads base rel allow fs : (safe_descend base rel allow fs).2 = fs.
Proof.
  unfold safe_descend. destruct (normals rel rel) as [ns|e]; [|done].
  destruct (descend allow base ns fs) eqn:E. by apply descend_reads in E.
Qed.

(** One entry, in each of its three cases. *)
Lemma apply_entry_contained t s e fs r fs' :
  anchored fs t -> recorded t s -> apply_entry (absolute t) s e fs = (r, fs') ->
  same_outside t fs fs' /\ anchored fs' t /\ forall s', r = Ok s' -> recorded t s'.
Proof.
  intros Ha Hr H. unfold apply_entry in H. rewrite ?fs_bind in H. unfold reads at 1 in H.
  destruct (e_path e) as [path|]; [|injection H as <- <-; split_and!; [reflexivity|done|by intros]].
  destruct (classify path) as [dir|victim|]; rewrite ?fs_bind in H.
  - pose proof (safe_descend_reads (absolute t) dir false fs) as Hfs.
    destruct (safe_descend _ _ _ fs) as [[[p|]|er] fs1] eqn:E; simpl in Hfs, H; subst fs1;
      injection H as <- <-; (split_and!; [reflexivity|done|]); [|by intros ? [= <-]|by intros].
    intros ? [= <-]. apply Forall_app. split; [done|]. apply Forall_singleton.
    by eapply safe_descend_under.
  - pose proof (safe_descend_reads (absolute t) victim true fs) as Hfs.
    destruct (safe_descend _ _ _ fs) as [[[p|]|er] fs1] eqn:E; simpl in Hfs; subst fs1; simpl in H.
    + destruct (safe_remove _ _ _ _ _ _ Ha E) as [H1 H2]. rewrite fs_bind in H.
      destruct (remove_path p fs) as [[[]|er] fs2]; simpl in H, H1, H2; injection H as <- <-;
        (split_and!; [done|done|]); [by intros ? [= <-]|by intros].
    + injection H as <- <-. split_and!; [reflexivity|done|by intros ? [= <-]].
    + injection H as <- <-. split_and!; [reflexivity|done|by intros].
  - destruct (unpack_in (absolute t) e fs) as [ru fs1] eqn:E.
    assert (Hc : forall p, ~ (t `prefix_of` p /\ t <> p) -> fs1 !! p = fs !! p)
      by (intros; by eapply unpack_in_contained).
    assert (Ho : same_outside t fs fs1) by (intros p Hp; apply Hc; tauto).
    assert (Ha' : anchored fs1 t).
    { eapply anchored_same; [done|done|]. rewrite Hc by naive_solver. apply Ha. }
    destruct ru as [[]|]; injection H as <- <-; (split_and!; [done|done|]); by intros ? [= <-].
Qed.

Lemma apply_entries_contained t es : forall s fs r fs',
  anchored fs t -> recorded t s -> apply_entries (absolute t) s es fs = (r, fs') ->
  same_outside t fs fs' /\ forall s', r = Ok s' -> recorded t s'.
Proof.
  induction es as [|e es IH]; intros s fs r fs' Ha Hr H; cbn [apply_entries] in H; rewrite ?fs_bind in H.
  { injection H as <- <-. split; [reflexivity|]. by intros ? [= <-]. }
  unfold reads at 1 in H. destruct e as [e|]; [|injection H as <- <-; split; [reflexivity|by intros]].
  rewrite fs_bind in H. destruct (apply_entry (absolute t) s e fs) as [r1 fs1] eqn:E.
  destruct (apply_entry_contained _ _ _ _ _ _ Ha Hr E) as (Ho & Ha1 & Hr1).
  destruct r1 as [s1|]; [|injection H as <- <-; split; [done|by intros]].
  destruct (IH _ _ _ _ Ha1 (Hr1 _ eq_refl) H) as [Ho' Hr']. split; [by etrans|done].
Qed.

(** C8 (safety): Unpacking an image layer into a directory changes nothing
    outside it.  The pass over the entries never does, whatever names the
    entries have, whatever links the layer has planted and whether it ends in
    an error or not: the deletions it asks for reach only what lies below the
    directory through real directories.  Nor do the clearings of opaque
    directories that follow, provided none of the recorded directories has a
    link on its path when they run. *)
Theorem apply_tar_contained t es fs :
  real_dir fs t ->
  same_outside t fs (apply_entries (absolute t) Pass_new es fs).2
  /\ ((forall s fs1 l, apply_entries (absolute t) Pass_new es fs = (Ok s, fs1) ->
         absolute l ∈ opaque_dirs s -> link_free fs1 l) ->
      same_outside t fs (apply_tar (Ok es) (absolute t) fs).2).
Proof.
  intros H%real_dir_anchored. unfold apply_tar, reads. rewrite ?fs_bind.
  destruct (apply_entries (absolute t) Pass_new es fs) as [r fs1] eqn:E.
  destruct (apply_entries_contained _ _ _ _ _ _ H (Forall_nil_2 _ : recorded t Pass_new) E) as [Ho Hr]. split; [done|].
  intros Hl. destruct r as [s|]; [|done]. etrans; [exact Ho|]. apply clear_dirs_contained.
  apply Forall_forall. intros p Hp.
  destruct (proj1 (Forall_forall _ _) (Hr s eq_refl) p Hp) as (l & -> & Ht). eauto.
Qed.
End containment.

(** ** A model of the archive crate

    Writes below the given directory only through real directories, refuses
    [..], creates missing parents, and replaces files and links but not
    directories. *)
Module ModelTar.

Definition plain_name (c : Component) : option str := match c with Normal s => Some s | _ => None end.
Definition locate (p : Path) : list str := omap plain_name p.

Fixpoint make_dirs (fs : Fs) (cur ds : list str) : result IoError Fs :=
  match ds with
  | [] => Ok fs
  | d :: ds =>
      match fs !! (cur ++ [d]) with
      | None => make_dirs (<[cur ++ [d] := NDir []]> fs) (cur ++ [d]) ds
      | Some (NDir _) => make_dirs fs (cur ++ [d]) ds
      | Some _ => Err NotADirectory
      end
  end.

Definition place (l : list str) (k : TarKind) (fs : Fs) : result IoError bool * Fs :=
  match k, fs !! l with
  | TDir, None => (Ok true, <[l := NDir []]> fs)
  | TDir, Some (NDir _) => (Ok true, fs)
  | TDir, Some _ => (Err NotADirectory, fs)
  | TFile _, Some (NDir _) | TSymlink _, Some (NDir _) => (Err IsADirectory, fs)
  | TFile data, _ => (Ok true, <[l := NFile data]> fs)
  | TSymlink tg, _ => (Ok true, <[l := NLink tg]> fs)
  | TOther, _ => (Ok true, fs)
  end.

Definition unpack (target : Path) (e : TarEntry) : fsio bool := fun fs =>
  match e_path e with
  | Err er => (Err er, fs)
  | Ok path =>
      if bool_decide (ParentDir ∈ path) then (Ok false, fs)
      else match last (locate path) with
           | None => (Ok true, fs)
           | Some _ =>
               match make_dirs fs (locate target) (take (length (locate path) - 1) (locate path)) with
               | Err er => (Err er, fs)
               | Ok fs1 => place (locate target ++ locate path) (e_kind e) fs1
               end
           end
  end.

Lemma locate_normal l : locate (Normal <$> l) = l.
Proof. induction l as [|c l IH]; [done|]. unfold locate in *. simpl. f_equal. exact IH. Qed.

Lemma locate_absolute l : locate (absolute l) = l.
Proof. apply locate_normal. Qed.

Lemma make_dirs_contained ds : forall fs cur fs' t p,
  t `prefix_of` cur -> make_dirs fs cur ds = Ok fs' -> ~ (t `prefix_of` p /\ t <> p) -> fs' !! p = fs !! p.
Proof.
  induction ds as [|d ds IH]; intros fs cur fs' t p Ht H Hp; simpl in H; [by injection H as ->|].
  assert (Ht' : t `prefix_of` cur ++ [d]) by by apply prefix_app_r.
  destruct (fs !! (cur ++ [d])) as [[]|]; try discriminate H; [by eapply IH|].
  eapply IH in H; [|done|done]. rewrite H. apply lookup_insert_ne. intros <-. apply Hp.
  split; [done|]. intros ->. apply prefix_length in Ht. rewrite length_app in Ht. simpl in Ht. lia.
Qed.

Lemma place_contained l k fs r fs' p : place l k fs = (r, fs') -> p <> l -> fs' !! p = fs !! p.
Proof.
  unfold place. intros H Hp.
  destruct k, (fs !! l) as [[]|]; injection H as <- <-; by rewrite ?lookup_insert_ne.
Qed.

#[export] Instance tar : TarCrate.
Proof.
  refine {| archive_entries := fun _ => Err (OtherIo "no parser"); unpack_in := unpack |}. intros t e fs r fs' p H Hp. unfold unpack in H.
  destruct (e_path e) as [path|]; [|by injection H as <- <-].
  case_bool_decide; [by injection H as <- <-|].
  destruct (last (locate path)) as [c|] eqn:El; [|by injection H as <- <-].
  rewrite locate_absolute in H. destruct (make_dirs _ _ _) as [fs1|] eqn:Em; [|by injection H as <- <-].
  rewrite (place_contained _ _ _ _ _ _ H); [by eapply make_dirs_contained|].
  intros ->. apply Hp. split; [by apply prefix_app_r|]. intros E.
  rewrite <- (app_nil_r t) in E at 1. apply app_inv_head in E. by rewrite <- E in El.
Defined.

Definition entry (name : str) (k : TarKind) : result IoError TarEntry :=
  Ok {| e_path := Ok (components name); e_kind := k |}.
End ModelTar.

(** ** Layers that do damage *)
Module Layers.
Import ModelTar.

Definition dirs (l : list (list str)) : Fs := list_to_map ((fun p => (p, NDir [])) <$> l).
Definition target : list str := ["t" : str].

(** A host with a file outside the target, and a target with a directory [d] of
    a lower layer. *)
Definition host : Fs :=
  <[["etc" : str; "passwd" : str] := NFile "root"]> (<[["t" : str; "d" : str; "old" : str] := NFile "x"]>
  (dirs [[]; ["etc" : str]; ["t" : str]; ["t" : str; "d" : str]])).

(** The marker of [d] is recorded while [d] is a directory; a whiteout then
    deletes [d] and a link takes its place before the clearing runs. *)
Definition swap_layer : list (result IoError TarEntry) :=
  [entry "d/.wh..wh..opq" (TFile []); entry ".wh.d" (TFile []); entry "d" (TSymlink (absolute ["etc" : str]))].

Definition run_layer (fs : Fs) (es : list (result IoError TarEntry)) : result IoError unit * Fs :=
  apply_tar (Ok es) (absolute target) fs.

(** A layer of three entries deletes files of the host. *)
Lemma opaque_clear_escapes :
  (run_layer host swap_layer).1 = Ok tt
  /\ host !! ["etc" : str; "passwd" : str] = Some (NFile "root")
  /\ (run_layer host swap_layer).2 !! ["etc" : str; "passwd" : str] = None.
Proof. vm_compute. split_and!; reflexivity. Qed.

(** Of an opaque directory [d], a subdirectory the layer has an entry for keeps
    what lower layers put in it. *)
Lemma opaque_keeps_lower :
  let lower := <[["t" : str; "d" : str; "sub" : str; "old" : str] := NFile "x"]>
                 (<[["t" : str; "d" : str; "sub" : str] := NDir []]> host) in
  let after := (run_layer lower [entry "d/.wh..wh..opq" (TFile []); entry "d/sub" TDir; entry "d/sub/new" (TFile "y")]).2 in
  after !! ["t" : str; "d" : str; "old" : str] = None
  /\ after !! ["t" : str; "d" : str; "sub" : str; "old" : str] = Some (NFile "x").
Proof. vm_compute. split; reflexivity. Qed.

(** A file of the layer itself is deleted when the layer has no entry of its own
    for the directory between it and the opaque one. *)
Lemma opaque_deletes_own :
  (run_layer host [entry "d/.wh..wh..opq" (TFile []); entry "d/sub/new" (TFile "y")]).2
    !! ["t" : str; "d" : str; "sub" : str; "new" : str] = None.
Proof. vm_compute. reflexivity. Qed.

(** A whiteout deletes a file of its own layer that comes before it, and not one
    that comes after it. *)
Lemma remove_depends_on_order :
  (run_layer host [entry "d/new" (TFile "y"); entry "d/.wh.new" (TFile [])]).2
    !! ["t" : str; "d" : str; "new" : str] = None
  /\ (run_layer host [entry "d/.wh.new" (TFile []); entry "d/new" (TFile "y")]).2
    !! ["t" : str; "d" : str; "new" : str] = Some (NFile "y").
Proof. vm_compute. split; reflexivity. Qed.

(** The whiteout of the empty name deletes the directory it is in, the target
    itself at the top. *)
Lemma remove_empty_name :
  (run_layer host [entry "d/.wh." (TFile [])]).2 !! ["t" : str; "d" : str] = None
  /\ (run_layer host [entry ".wh." (TFile [])]).2 !! target = None.
Proof. vm_compute. split; reflexivity. Qed.

(** A layer with a link and an opaque marker that stays inside. *)
Definition good_layer : list (result IoError TarEntry) :=
  [entry "./d/.wh..wh..opq" (TFile []); entry "d/new" (TFile "y"); entry "l" (TSymlink (absolute ["etc" : str]));
   entry "l/.wh.passwd" (TFile [])].

Definition good_check (r : result IoError Pass * Fs) : bool :=
  match r with
  | (Ok s, fs1) =>
      bool_decide (opaque_dirs s = [absolute ["t" : str; "d" : str]]) && is_dir_node (fs1 !! [])
      && is_dir_node (fs1 !! ["t" : str]) && is_dir_node (fs1 !! ["t" : str; "d" : str])
  | _ => false
  end.

Lemma apply_tar_contained_witness :
  real_dir host target
  /\ same_outside target host (run_layer host good_layer).2
  /\ (run_layer host good_layer).2 !! ["t" : str; "d" : str; "old" : str] = None
  /\ (run_layer host good_layer).2 !! ["t" : str; "d" : str; "new" : str] = Some (NFile "y").
Proof.
  assert (H : real_dir host target).
  { intros q [[|? []] Hq]; rewrite ?app_nil_r in Hq; [subst; reflexivity| |].
    - destruct q; [reflexivity|]. by destruct q.
    - exfalso. apply (f_equal length) in Hq. rewrite length_app in Hq. simpl in Hq. lia. }
  split; [exact H|]. split; [|vm_compute; split; reflexivity].
  apply (apply_tar_contained target good_layer host H). intros s fs1 l E Hl.
  assert (Hc : good_check (apply_entries (absolute target) Pass_new good_layer host) = true) by (vm_compute; reflexivity).
  rewrite E in Hc. unfold good_check in Hc. bools.
  match goal with H : opaque_dirs s = _ |- _ => rewrite H in Hl end. apply list_elem_of_singleton in Hl.
  assert (l = ["t" : str; "d" : str]) as ->.
  { rewrite <- (ModelTar.locate_absolute l), Hl. reflexivity. }
  intros q n [k Hk] Hn.
  destruct q as [|a [|b [|]]]; simplify_list_eq;
    repeat match goal with H : is_dir_node (fs1 !! _) = true |- _ => rewrite Hn in H; by destruct n end.
Defined.
End Layers.
