(* ===== verification/Pack.v ===== *)
(** * Pack: a layer from a directory tree
    (crates/umf-oci/src/image/tar_util.rs), and that unpacking it gives the
    overlay of the tree.

    A build step writes into the upper directory of an overlay mount; the
    upper directory is packed as a layer; the layer is unpacked when the image
    is used.  The abstract specification is what the overlay mount showed. *)

From stdpp Require Import gmap list sorting.
From S2P Require Import Prelude RustStr RustStrFacts HostFs Materialize.

(** ** The writer *)

Definition depth (fs : Fs) : nat := max_list (length ∘ fst <$> map_to_list fs).

(** The loop over the sorted children of [dir]. *)
Fixpoint collect_children (rec : Path -> result IoError (list Path)) (fs : Fs) (dir : Path) (names : list str)
    : result IoError (list Path) :=
  match names with
  | [] => Ok []
  | name :: names =>
      let child := dir ++ [Normal name] in
      meta ← lstat fs child;
      inner ← (if is_dir_node (Some meta) then rec child else Ok []);
      rest ← collect_children rec fs dir names;
      Ok (child :: inner ++ rest)
  end.

(** The recursion is as deep as the tree; [depth] is enough fuel. *)
Fixpoint collect_sorted (fuel : nat) (fs : Fs) (dir : Path) : result IoError (list Path) :=
  match fuel with
  | 0 => Err (OtherIo "out of fuel")
  | S fuel =>
      names ← list_dir fs dir;
      collect_children (collect_sorted fuel fs) fs dir (sort_strs names)
  end.

Fixpoint strip_path (root path : Path) : result IoError Path :=
  match root, path with
  | [], _ => Ok path
  | a :: root, b :: path => if bool_decide (a = b) then strip_path root path else Err (OtherIo "strip_prefix")
  | _ :: _, [] => Err (OtherIo "strip_prefix")
  end.

Definition with_file_name (p : Path) (name : str) : Path := take (length p - 1) p ++ [Normal name].

Definition tar_entry (relative : Path) (k : TarKind) : TarEntry := {| e_path := Ok relative; e_kind := k |}.
Definition append_marker (relative : Path) : TarEntry := tar_entry relative (TFile []).

Definition append_path (fs : Fs) (root path : Path) : result IoError (list TarEntry) :=
  relative ← strip_path root path;
  meta ← lstat fs path;
  match meta with
  | NLink target => Ok [tar_entry relative (TSymlink target)]
  | NDir xattrs =>
      Ok (tar_entry relative TDir
          :: if is_opaque_dir xattrs then [append_marker (join_path relative [Normal WH_OPAQUE])] else [])
  | NFile data => Ok [tar_entry relative (TFile data)]
  | _ =>
      if is_overlay_deletion meta then
        match file_name relative ≫= to_str with
        | None => Ok []
        | Some name => Ok [append_marker (with_file_name relative (whiteout_name name))]
        end
      else Ok []
  end.

Fixpoint append_paths (fs : Fs) (root : Path) (paths : list Path) : result IoError (list TarEntry) :=
  match paths with
  | [] => Ok []
  | p :: paths => a ← append_path fs root p; b ← append_paths fs root paths; Ok (a ++ b)
  end.

Definition build_tar (fs : Fs) (root : Path) : result IoError (list TarEntry) :=
  paths ← collect_sorted (S (depth fs)) fs root;
  append_paths fs root paths.

(** ** The walk lists every path once, directories before their contents *)

(** Each path of the list is one name below a path of [P] or below an earlier
    one of the list. *)
Fixpoint topo (P : list str -> Prop) (ps : list (list str)) : Prop :=
  match ps with
  | [] => True
  | p :: ps => (exists q c, p = q ++ [c] /\ P q) /\ topo (fun x => P x \/ x = p) ps
  end.

Lemma topo_mono ps : forall P Q : list str -> Prop, (forall x, P x -> Q x) -> topo P ps -> topo Q ps.
Proof.
  induction ps as [|p ps IH]; intros P Q H; simpl; [done|]. intros [(q & c & -> & Hq) Ht].
  split; [eauto|]. eapply IH; [|exact Ht]. naive_solver.
Qed.

Lemma topo_app ps qs : forall P, topo P ps -> topo P qs -> topo P (ps ++ qs).
Proof.
  induction ps as [|p ps IH]; intros P; simpl; [done|]. intros [Hp Ht] Hq. split; [done|].
  apply IH; [done|]. eapply topo_mono; [|exact Hq]. naive_solver.
Qed.

Definition below (fs : Fs) (l p : list str) : Prop := exists r, r <> [] /\ p = l ++ r /\ is_Some (fs !! p).

(** What a walk below [l] gives. *)
Definition walked (fs : Fs) (l : list str) (ps : list (list str)) : Prop :=
  NoDup ps /\ (forall p, p ∈ ps <-> below fs l p) /\ topo (fun x => x = l) ps.

Lemma depth_le fs p n : fs !! p = Some n -> length p <= depth fs.
Proof.
  intros H. unfold depth. apply max_list_elem_of_le.
  apply list_elem_of_fmap. exists (p, n). split; [done|]. by apply elem_of_map_to_list.
Qed.

Lemma below_children fs l c p :
  below fs (l ++ [c]) p -> below fs l p.
Proof.
  intros (r & Hr & -> & H). exists (c :: r). rewrite <- (assoc app) in *. done.
Qed.

Lemma below_inv fs l p : tree fs -> below fs l p -> exists c, c ∈ children fs l /\ (p = l ++ [c] \/ below fs (l ++ [c]) p).
Proof.
  intros Ht (r & Hr & -> & H). destruct r as [|c r]; [done|]. exists c.
  assert (E : l ++ c :: r = (l ++ [c]) ++ r) by by rewrite <- (assoc app).
  destruct r as [|x r].
  - split; [by apply elem_of_children|by left].
  - split; [|right; exists (x :: r); rewrite <- E; done]. apply elem_of_children.
    rewrite E in H. apply tree_above in H; [|done|done]. by destruct (fs !! (l ++ [c])).
Qed.

Lemma below_disjoint fs l c c' p : below fs (l ++ [c]) p -> p = l ++ [c'] \/ below fs (l ++ [c']) p -> c = c'.
Proof.
  intros (r & Hr & -> & _) [H|(r' & _ & H & _)].
  - rewrite <- (assoc app) in H. apply app_inv_head in H. by injection H.
  - rewrite <- !(assoc app) in H. apply app_inv_head in H. by injection H.
Qed.

Lemma below_not_self fs l : ~ below fs l l.
Proof. intros (r & Hr & H & _). rewrite <- (app_nil_r l) in H at 1. by apply app_inv_head in H as <-. Qed.

Lemma collect_children_walked rec fs l names :
  real_dir fs l ->
  (forall c, real_dir fs (l ++ [c]) -> exists ps, rec (absolute (l ++ [c])) = Ok (absolute <$> ps) /\ walked fs (l ++ [c]) ps) ->
  tree fs -> NoDup names -> (forall c, c ∈ names -> c ∈ children fs l) ->
  exists ps, collect_children rec fs (absolute l) names = Ok (absolute <$> ps)
    /\ NoDup ps /\ (forall p, p ∈ ps <-> exists c, c ∈ names /\ (p = l ++ [c] \/ below fs (l ++ [c]) p))
    /\ topo (fun x => x = l) ps.
Proof.
  intros Hl Hrec Ht Hn. induction Hn as [|c names Hc Hn IH]; intros Hin.
  { exists []. split_and!; [done|constructor| |done]. set_solver. }
  destruct IH as (rest & E & Hnd & Hel & Htp); [set_solver|].
  destruct (proj1 (elem_of_children fs l c)) as [n Hm]; [set_solver|].
  cbn [collect_children]. rewrite absolute_snoc, lstat_below by done. unfold node_at. rewrite Hm. cbn [ok_or mbind result_bind].
  assert (Hin' : exists ps, (if is_dir_node (Some n) then rec (absolute (l ++ [c])) else Ok []) = Ok (absolute <$> ps)
                  /\ walked fs (l ++ [c]) ps).
  { destruct (is_dir_node (Some n)) eqn:Hd.
    - apply Hrec. apply real_dir_snoc. by rewrite Hm.
    - exists []. split; [done|]. split_and!; [constructor| |done]. intros p. split; [set_solver|].
      intros (r & Hr & -> & Hp). apply tree_above in Hp; [|done|done]. rewrite Hm in Hp. congruence. }
  destruct Hin' as (ps & -> & Hnd' & Hel' & Htp'). cbn [mbind result_bind].
  unfold mbind, result_bind in E. rewrite E.
  exists ((l ++ [c]) :: ps ++ rest). split; [by rewrite fmap_cons, fmap_app|]. split_and!.
  - constructor.
    + rewrite elem_of_app, Hel', Hel. intros [H|(c' & Hc' & H)]; [by apply below_not_self in H|].
      destruct H as [H|(r & _ & H & _)]; [by simplify_list_eq|]. by simplify_list_eq.
    + apply NoDup_app. split_and!; [done| |done]. intros p H1%Hel' (c' & Hc' & H2)%Hel.
      by rewrite (below_disjoint _ _ _ _ _ H1 H2) in Hc.
  - intros p. rewrite elem_of_cons, elem_of_app, Hel', Hel. set_solver.
  - split; [by exists l, c|]. apply topo_app.
    + eapply topo_mono; [|exact Htp']. naive_solver.
    + eapply topo_mono; [|exact Htp]. naive_solver.
Qed.

Lemma collect_sorted_walked fuel : forall fs l,
  tree fs -> real_dir fs l -> depth fs < length l + fuel ->
  exists ps, collect_sorted fuel fs (absolute l) = Ok (absolute <$> ps) /\ walked fs l ps.
Proof.
  induction fuel as [|fuel IH]; intros fs l Ht Hl Hd.
  { exfalso. pose proof (real_dir_self _ _ Hl) as H. destruct (fs !! l) eqn:E; [|done].
    apply depth_le in E. lia. }
  cbn [collect_sorted]. rewrite list_dir_real by done. cbn [mbind result_bind].
  destruct (collect_children_walked (collect_sorted fuel fs) fs l (sort_strs (children fs l)))
    as (ps & E & Hn & Hel & Htp); [done| |done| | |].
  - intros c Hc. apply IH; [done|done|]. rewrite length_app. simpl. lia.
  - rewrite sort_strs_Permutation. apply NoDup_children.
  - intros c. by rewrite sort_strs_Permutation.
  - exists ps. split; [exact E|]. split_and!; [done| |done]. intros p. rewrite Hel. split.
    + intros (c & Hc & [->|Hb]).
      * exists [c]. split_and!; [done|done|]. apply elem_of_children. by rewrite sort_strs_Permutation in Hc.
      * by eapply below_children.
    + intros Hb. destruct (below_inv _ _ _ Ht Hb) as (c & Hc & Hp). exists c. by rewrite sort_strs_Permutation.
Qed.

(** ** Names *)

(** A name the file system can hold, in UTF-8, and not a whiteout itself. *)
Definition plain_name (c : str) : Prop :=
  components c = [Normal c] /\ to_str c = Some c /\ strip_prefix WH_PREFIX c = None.

Lemma last_names (l : list str) c : last (Normal <$> (l ++ [c])) = Some (Normal c).
Proof. by rewrite fmap_app, last_app. Qed.

Lemma take_names (l : list str) c : take (length (Normal <$> (l ++ [c])) - 1) (Normal <$> (l ++ [c])) = Normal <$> l.
Proof. rewrite fmap_app, length_app. simpl. by rewrite Nat.add_sub, take_app_length. Qed.

Lemma file_name_names (l : list str) c : file_name (Normal <$> (l ++ [c])) = Some c.
Proof. unfold file_name. by rewrite last_names. Qed.

Lemma parent_names (l : list str) c : parent (Normal <$> (l ++ [c])) = Some (Normal <$> l).
Proof. unfold parent. by rewrite last_names, take_names. Qed.

Lemma classify_plain l c : plain_name c -> classify (Normal <$> (l ++ [c])) = Whiteout_None.
Proof.
  intros (_ & Hs & Hp). unfold classify. rewrite file_name_names. cbn [mbind option_bind]. rewrite Hs.
  case_bool_decide as E; [by rewrite E in Hp|]. by rewrite Hp.
Qed.

Lemma classify_opaque l : classify (Normal <$> (l ++ [WH_OPAQUE])) = Whiteout_Opaque (Normal <$> l).
Proof. unfold classify. rewrite file_name_names, parent_names. reflexivity. Qed.

Lemma to_str_whiteout c : to_str c = Some c -> to_str (whiteout_name c) = Some (whiteout_name c).
Proof.
  unfold to_str, whiteout_name, WH_PREFIX. intros H. cases_in H; [|done]. bools.
  assert (E : chars (WH_PREFIX ++ c) = ["."%char] :: ["w"%char] :: ["h"%char] :: ["."%char] :: chars c) by reflexivity.
  unfold WH_PREFIX in E. rewrite E. cbn [concat app forallb]. 
  repeat match goal with H : forallb _ _ = true |- _ => rewrite H | H : concat _ = _ |- _ => rewrite H end.
  by rewrite bool_decide_true.
Qed.

Lemma strip_prefix_app p s : strip_prefix p (p ++ s) = Some s.
Proof. induction p as [|a p IH]; simpl; [done|]. by rewrite Ascii.eqb_refl. Qed.

Lemma classify_remove l c :
  plain_name c -> classify (Normal <$> (l ++ [whiteout_name c])) = Whiteout_Remove (Normal <$> (l ++ [c])).
Proof.
  intros (Hc & Hs & Hp). unfold classify. rewrite file_name_names, parent_names. cbn [mbind option_bind default from_option id].
  rewrite to_str_whiteout by done. case_bool_decide as E.
  { exfalso. assert (c = ".wh..opq") as -> by exact (app_inv_head WH_PREFIX _ _ E). by vm_compute in Hp. }
  unfold whiteout_name. rewrite strip_prefix_app, Hc. f_equal. simpl. by rewrite fmap_app.
Qed.

Lemma normals_names rel (l : list str) : normals rel (Normal <$> l) = Ok l.
Proof. induction l as [|c l IH]; [done|]. rewrite fmap_cons. cbn [normals]. by rewrite IH. Qed.

Lemma join_names t r : r <> [] -> join_path (absolute t) (Normal <$> r) = absolute (t ++ r).
Proof. intros Hr. destruct r; [done|]. unfold absolute. rewrite fmap_app. reflexivity. Qed.

Lemma strip_path_app p q : strip_path p (p ++ q) = Ok q.
Proof. induction p as [|a p IH]; simpl; [done|]. by rewrite bool_decide_true. Qed.

Lemma descend_along allow fs l : forall x rest,
  real_dir fs (x ++ l) -> descend allow (absolute x) (l ++ rest) fs = descend allow (absolute (x ++ l)) rest fs.
Proof.
  induction l as [|c l IH]; intros x rest H; [by rewrite app_nil_r|].
  assert (E : x ++ c :: l = (x ++ [c]) ++ l) by by rewrite <- (assoc app).
  assert (Hc : real_dir fs (x ++ [c])) by (eapply real_dir_prefix; [exact H|]; rewrite E; by apply prefix_app_r).
  apply real_dir_snoc in Hc as Hc'. destruct Hc' as [Hx Hd].
  cbn [app descend]. rewrite absolute_snoc, symlink_metadata_below by done. unfold node_at.
  destruct (fs !! (x ++ [c])) as [[]|]; try discriminate Hd. cbn [ok_or]. rewrite E in *. by apply IH.
Qed.

Lemma safe_descend_names allow fs t l c :
  real_dir fs (t ++ l) ->
  safe_descend (absolute t) (Normal <$> (l ++ [c])) allow fs =
    (Ok match fs !! (t ++ l ++ [c]) with
        | None => None
        | Some n => if is_link_node n && negb allow then None else Some (absolute (t ++ l ++ [c]))
        end, fs).
Proof.
  intros H. unfold safe_descend. rewrite normals_names, descend_along by done. rewrite (assoc app).
  cbn [descend]. rewrite absolute_snoc, symlink_metadata_below by done. unfold node_at.
  destruct (fs !! ((t ++ l) ++ [c])) as [n|]; [|done]. cbn [ok_or].
  rewrite <- !app_assoc. destruct n; try reflexivity. by destruct allow.
Qed.

(** ** The archive crate on plain entries

    [set_overwrite(true)]: files and links are replaced; a directory that is
    there is kept. *)
Definition entry_node (k : TarKind) : option Node :=
  match k with TFile data => Some (NFile data) | TSymlink tg => Some (NLink tg) | _ => None end.

Class TarLaws {T : TarCrate} := {
  unpack_dir : forall t l c fs,
    real_dir fs (t ++ l) -> fs !! (t ++ l ++ [c]) = None \/ is_dir_node (fs !! (t ++ l ++ [c])) = true ->
    unpack_in (absolute t) (tar_entry (Normal <$> (l ++ [c])) TDir) fs =
      (Ok true, match fs !! (t ++ l ++ [c]) with Some _ => fs | None => <[t ++ l ++ [c] := NDir []]> fs end);
  unpack_leaf : forall t l c k n fs,
    real_dir fs (t ++ l) -> is_dir_node (fs !! (t ++ l ++ [c])) = false -> entry_node k = Some n ->
    unpack_in (absolute t) (tar_entry (Normal <$> (l ++ [c])) k) fs = (Ok true, <[t ++ l ++ [c] := n]> fs)
}.
Arguments TarLaws : clear implicits.

(** ** The overlay *)

Section overlay.
(** The upper directory is at [u] of [upper]; the lower layers have been
    unpacked to [t] of [lower]. *)
Context (upper : Fs) (u : list str) (lower : Fs) (t : list str).

Definition up (r : list str) : option Node := upper !! (u ++ r).
Definition lo (r : list str) : option Node := lower !! (t ++ r).

(** What an overlay mount shows for an entry of the upper directory, ... *)
Definition shown (n : Node) (low : option Node) : option Node :=
  match n with
  | NDir _ => if is_dir_node low then low else Some (NDir [])
  | NFile data => Some (NFile data)
  | NLink tg => Some (NLink tg)
  | NChar _ | NOther => None
  end.

(** ... and whether the entry hides what the lower layers have below it. *)
Definition hides (n : Node) : bool :=
  match n with NDir xattrs => is_opaque_dir xattrs | _ => true end.
Definition hidden (r : list str) : bool :=
  existsb (fun k => match up (take k r) with Some n => hides n | None => false end) (seq 1 (length r - 1)).

Definition merged (r : list str) : option Node :=
  match up r with
  | Some n => shown n (lo r)
  | None => if hidden r then None else lo r
  end.

(** The trees for which a layer can say what the overlay shows: plain names; no
    sockets or devices; files only over files and directories only over
    directories; and in an opaque directory no subdirectory under which the
    lower layers have anything. *)
Record packable : Prop := {
  pk_upper : tree upper;
  pk_root : real_dir upper u;
  pk_lower : tree lower;
  pk_target : real_dir lower t;
  pk_names : forall r c, is_Some (up (r ++ [c])) -> plain_name c;
  pk_kinds : forall r n, r <> [] -> up r = Some n ->
    match n with
    | NDir _ => lo r = None \/ is_dir_node (lo r) = true
    | NFile _ | NLink _ => is_dir_node (lo r) = false
    | NChar rdev => rdev = 0%Z
    | NOther => False
    end;
  pk_opaque : forall d c r x, d <> [] -> up d = Some (NDir x) -> is_opaque_dir x = true ->
    is_dir_node (up (d ++ [c])) = true -> r <> [] -> lo (d ++ [c] ++ r) = None
}.

Lemma hidden_spec r :
  hidden r = true <-> exists q k n, r = q ++ k /\ q <> [] /\ k <> [] /\ up q = Some n /\ hides n = true.
Proof.
  unfold hidden. rewrite existsb_exists. split.
  - intros (k & Hk%in_seq & H). destruct (up (take k r)) as [n|] eqn:E; [|done].
    exists (take k r), (drop k r), n. split_and!; [by rewrite take_drop| | |done|done].
    + intros E'. apply (f_equal length) in E'. rewrite length_take in E'. simpl in E'. lia.
    + intros E'. apply (f_equal length) in E'. rewrite length_drop in E'. simpl in E'. lia.
  - intros (q & k & n & -> & Hq & Hk & Hu & Hh). exists (length q).
    rewrite take_app_length, Hu. split; [|done]. apply in_seq. rewrite length_app.
    destruct q, k; simpl; try done. lia.
Qed.

(** ** The state after the entries of the paths [D] *)

Definition gone (D : list (list str)) (r : list str) : bool :=
  existsb (fun q => bool_decide (q `prefix_of` r) && match up q with Some (NChar _) => true | _ => false end) D.
Definition view (D : list (list str)) (r : list str) : option Node :=
  if bool_decide (r ∈ D) then up r ≫= fun n => shown n (lo r)
  else if gone D r then None else lo r.
Definition kept (r : list str) : bool :=
  match up r with Some (NDir _ | NFile _ | NLink _) => true | _ => false end.
Definition opaque_at (r : list str) : bool :=
  match up r with Some (NDir x) => is_opaque_dir x | _ => false end.

Record Inv (D : list (list str)) (fs : Fs) (s : Pass) : Prop := {
  i_in : forall r, r ∈ D -> r <> [] /\ is_Some (up r);
  i_closed : forall l c, l ++ [c] ∈ D -> l = [] \/ l ∈ D;
  i_view : forall r, r <> [] -> fs !! (t ++ r) = view D r;
  i_out : forall p, ~ (t `prefix_of` p /\ t <> p) -> fs !! p = lower !! p;
  i_written : forall r, r <> [] -> (absolute (t ++ r) ∈ written s <-> r ∈ D /\ kept r = true);
  i_opaque : forall p, p ∈ opaque_dirs s <-> exists d, p = absolute (t ++ d) /\ d ∈ D /\ opaque_at d = true
}.

Context (HP : packable).

Lemma closed_prefix D fs s q k : Inv D fs s -> q ++ k ∈ D -> q <> [] -> q ∈ D.
Proof.
  intros I. induction k as [|c k IH] using rev_ind; [by rewrite app_nil_r|]. rewrite (assoc app).
  intros [H|H]%(i_closed _ _ _ I) Hq; [by apply app_eq_nil in H as [-> _]|by apply IH].
Qed.

Lemma up_dir q k : is_Some (up (q ++ k)) -> k <> [] -> is_dir_node (up q) = true.
Proof. unfold up. rewrite (assoc app). apply tree_above, HP. Qed.

Lemma lo_dir q k : is_Some (lo (q ++ k)) -> k <> [] -> is_dir_node (lo q) = true.
Proof. unfold lo. rewrite (assoc app). apply tree_above, HP. Qed.

(** The directories above a path of the upper directory are real ones. *)
Lemma inv_real D fs s l c :
  Inv D fs s -> is_Some (up (l ++ [c])) -> l = [] \/ l ∈ D -> real_dir fs (t ++ l).
Proof.
  intros I Hup Hl q Hq.
  destruct (prefix_weak_total q t (t ++ l) Hq (prefix_app_r _ _ _ (reflexivity _))) as [H|[k ->]].
  { rewrite (i_out _ _ _ I); [by apply HP|]. intros [H1 H2]. by apply H2, (anti_symm prefix). }
  destruct (decide (k = [])) as [->|Hk].
  { rewrite app_nil_r, (i_out _ _ _ I); [by apply HP|]. naive_solver. }
  apply prefix_app_inv in Hq as [k' ->].
  assert (Hd : is_dir_node (up k) = true).
  { apply (up_dir k (k' ++ [c])); [by rewrite (assoc app)|]. by destruct k'. }
  assert (k ∈ D).
  { destruct Hl as [Hl|Hl]; [by apply app_eq_nil in Hl as [-> _]|by eapply closed_prefix]. }
  rewrite (i_view _ _ _ I) by done. unfold view. rewrite bool_decide_true by done.
  destruct (up k) as [[]|]; try discriminate Hd. simpl. by destruct (is_dir_node (lo k)) eqn:E.
Qed.

(** Before the path itself is handled, it is as the lower layers left it, and so
    is everything below it. *)
Lemma inv_fresh D fs s l c k :
  Inv D fs s -> is_Some (up (l ++ [c])) -> l ++ [c] ∉ D -> fs !! (t ++ (l ++ [c]) ++ k) = lo ((l ++ [c]) ++ k).
Proof.
  intros I Hup HD. rewrite (i_view _ _ _ I) by by destruct l. unfold view.
  rewrite bool_decide_false.
  2: { intros H. apply HD. eapply closed_prefix; [done|done|by destruct l]. }
  destruct (gone D _) eqn:E; [|done]. unfold gone in E. apply existsb_exists in E as (q & Hq & E). bools.
  apply list_elem_of_In in Hq. exfalso.
  destruct (prefix_weak_total q (l ++ [c]) _ ltac:(done) (prefix_app_r _ _ _ (reflexivity _))) as [[k' E']|[k' ->]].
  - destruct k' as [|x k']; [rewrite app_nil_r in E'; by subst|].
    assert (is_dir_node (up q) = true) by (apply (up_dir q (x :: k')); [by rewrite <- E'|done]).
    by destruct (up q) as [[]|].
  - apply HD. eapply closed_prefix; [done|exact Hq|by destruct l].
Qed.
Lemma inv_tree D fs s : Inv D fs s -> tree fs.
Proof.
  intros I l c Hs. destruct (decide (t `prefix_of` l ++ [c] /\ t <> l ++ [c])) as [[Hp Hne]|Hout].
  2: { rewrite (i_out _ _ _ I) in Hs by done. rewrite (i_out _ _ _ I); [by apply HP in Hs|].
       intros [H1 H2]. apply Hout. split; [by apply prefix_app_r|]. intros ->. by apply prefix_snoc_not in H1. }
  apply prefix_snoc_inv in Hp as [?|[q ->]]; [done|]. rewrite <- (assoc app) in Hs.
  destruct (decide (q = [])) as [->|Hq].
  { rewrite app_nil_r, (i_out _ _ _ I); [by apply HP|]. naive_solver. }
  rewrite (i_view _ _ _ I) in Hs by by destruct q. rewrite (i_view _ _ _ I) by done. unfold view in *.
  case_bool_decide as H1.
  - assert (q ∈ D) by (destruct (i_closed _ _ _ I _ _ H1); done). rewrite bool_decide_true by done.
    destruct (i_in _ _ _ I _ H1) as [_ Hup]. apply up_dir in Hup; [|done].
    destruct (up q) as [[]|]; try discriminate Hup. simpl. by destruct (is_dir_node (lo q)) eqn:?.
  - destruct (gone D (q ++ [c])) eqn:Hg; [by destruct Hs|]. apply lo_dir in Hs; [|done].
    case_bool_decide as H2.
    + destruct (i_in _ _ _ I _ H2) as [_ [n Hn]]. pose proof (pk_kinds HP q n Hq Hn) as Hk. rewrite Hn. simpl.
      destruct n; simpl; try congruence; [by rewrite Hs| |done].
      exfalso. apply not_true_iff_false in Hg. apply Hg. apply existsb_exists. exists q.
      split; [by apply list_elem_of_In|]. rewrite Hn, bool_decide_true; [done|]. by apply prefix_app_r.
    + destruct (gone D q) eqn:Hg'; [|done]. exfalso. apply not_true_iff_false in Hg. apply Hg.
      apply existsb_exists in Hg' as (x & Hx & E). bools. apply existsb_exists. exists x. split; [done|].
      bools; [|done]. rewrite bool_decide_true; [done|]. by apply prefix_app_r.
Qed.

(** A path that is kept has been written. *)
Lemma inv_set D fs s l c n fs' s' :
  Inv D fs s -> up (l ++ [c]) = Some n -> l = [] \/ l ∈ D -> l ++ [c] ∉ D -> kept (l ++ [c]) = true ->
  (forall p, p <> t ++ l ++ [c] -> fs' !! p = fs !! p) -> fs' !! (t ++ l ++ [c]) = shown n (lo (l ++ [c])) ->
  written s' = absolute (t ++ l ++ [c]) :: written s ->
  (forall p, p ∈ opaque_dirs s' <-> p ∈ opaque_dirs s \/ (p = absolute (t ++ l ++ [c]) /\ opaque_at (l ++ [c]) = true)) ->
  Inv ((l ++ [c]) :: D) fs' s'.
Proof.
  intros I Hup Hl HD Hk Hother Hself Hw Ho. set (r0 := l ++ [c]) in *.
  assert (Hr0 : r0 <> []) by (by destruct l).
  assert (Hg : forall r, gone (r0 :: D) r = gone D r).
  { intros r. unfold gone. cbn [existsb]. unfold kept in Hk. rewrite Hup in *.
    destruct n; try done; by rewrite andb_false_r. }
  split.
  - intros r [->|H]%elem_of_cons; [split; [done|by eexists]|by apply (i_in _ _ _ I)].
  - intros l' c' [H|H]%elem_of_cons.
    + apply app_inj_tail in H as [-> ->]. destruct Hl; [by left|right; by right].
    + destruct (i_closed _ _ _ I _ _ H); [by left|right; by right].
  - intros r Hr. unfold view. destruct (decide (r = r0)) as [->|Hne].
    + rewrite bool_decide_true by by left. rewrite Hself, Hup. done.
    + rewrite Hother, (i_view _ _ _ I), Hg by (done || intros ?; simplify_list_eq). unfold view.
      erewrite (bool_decide_ext (r ∈ r0 :: D)); [done|]. set_solver.
  - intros p Hp. rewrite Hother; [by apply (i_out _ _ _ I)|]. intros ->. apply Hp.
    split; [by apply prefix_app_r|]. intros E. rewrite <- (app_nil_r t) in E at 1. by apply app_inv_head in E.
  - intros r Hr. rewrite Hw, elem_of_cons, (i_written _ _ _ I) by done. split.
    + intros [E|[H1 H2]]; [|split; [by right|done]]. apply (inj absolute), app_inv_head in E as ->. split; [by left|done].
    + intros [[->|H1]%elem_of_cons H2]; [by left|by right].
  - intros p. rewrite Ho, (i_opaque _ _ _ I). split.
    + intros [(d & -> & Hd & Hop)|[-> Hop]]; [exists d|exists r0]; (split_and!; [done| |done]); [by right|by left].
    + intros (d & -> & [->|Hd]%elem_of_cons & Hop); [by right|left; eauto].
Qed.

(** A path that is deleted is gone with all below it. *)
Lemma inv_del D fs s l c rdev fs' :
  Inv D fs s -> up (l ++ [c]) = Some (NChar rdev) -> l = [] \/ l ∈ D -> l ++ [c] ∉ D ->
  (forall p, fs' !! p = if bool_decide (t ++ l ++ [c] `prefix_of` p) then None else fs !! p) ->
  Inv ((l ++ [c]) :: D) fs' s.
Proof.
  intros I Hup Hl HD Hfs. set (r0 := l ++ [c]) in *. assert (Hr0 : r0 <> []) by (by destruct l).
  assert (Hk : kept r0 = false) by (unfold kept; by rewrite Hup).
  split.
  - intros r [->|H]%elem_of_cons; [split; [done|by eexists]|by apply (i_in _ _ _ I)].
  - intros l' c' [H|H]%elem_of_cons.
    + apply app_inj_tail in H as [-> ->]. destruct Hl; [by left|right; by right].
    + destruct (i_closed _ _ _ I _ _ H); [by left|right; by right].
  - intros r Hr. rewrite Hfs. unfold view, gone. cbn [existsb]. rewrite Hup. case_bool_decide as Hp.
    + apply prefix_app_inv in Hp. rewrite (bool_decide_true _ Hp). cbn [andb orb].
      case_bool_decide as Hin; [|done]. apply elem_of_cons in Hin as [->|Hin]; [by rewrite Hup|].
      destruct Hp as [k ->]. exfalso. apply HD. by eapply closed_prefix.
    + rewrite (bool_decide_false (r0 `prefix_of` r)) by (intros H; apply Hp; by apply prefix_app). cbn [andb orb].
      rewrite (i_view _ _ _ I) by done. unfold view, gone.
      erewrite (bool_decide_ext (r ∈ r0 :: D)); [done|]. rewrite elem_of_cons. split; [|by right].
      intros [->|?]; [|done]. exfalso. by apply Hp.
  - intros p Hp. rewrite Hfs, bool_decide_false; [by apply (i_out _ _ _ I)|]. intros [k ->]. apply Hp.
    rewrite <- (assoc app). split; [by apply prefix_app_r|]. intros E. rewrite <- (app_nil_r t) in E at 1.
    apply app_inv_head in E. by destruct r0.
  - intros r Hr. rewrite (i_written _ _ _ I) by done. rewrite elem_of_cons. split; [naive_solver|].
    intros [[->|?] ?]; [congruence|done].
  - intros p. rewrite (i_opaque _ _ _ I). split; intros (d & -> & Hd & Hop); exists d; (split_and!; [done| |done]).
    + by right.
    + apply elem_of_cons in Hd as [->|Hd]; [|done]. unfold opaque_at in Hop. by rewrite Hup in Hop.
Qed.

(** ** One path *)

Context {T : TarCrate} {L : TarLaws T}.

Lemma apply_plain s l c k fs fs' :
  plain_name c -> unpack_in (absolute t) (tar_entry (Normal <$> (l ++ [c])) k) fs = (Ok true, fs') ->
  apply_entry (absolute t) s (tar_entry (Normal <$> (l ++ [c])) k) fs =
    (Ok {| opaque_dirs := opaque_dirs s; written := absolute (t ++ l ++ [c]) :: written s |}, fs').
Proof.
  intros Hc E. unfold apply_entry. rewrite fs_bind. unfold reads. cbn [e_path tar_entry].
  rewrite classify_plain by done. rewrite fs_bind. rewrite E. rewrite join_names by by destruct l.
  reflexivity.
Qed.

Lemma apply_opaque s l c n fs :
  real_dir fs (t ++ l) -> fs !! (t ++ l ++ [c]) = Some n -> is_link_node n = false ->
  apply_entry (absolute t) s (append_marker (join_path (Normal <$> (l ++ [c])) [Normal WH_OPAQUE])) fs =
    (Ok {| opaque_dirs := opaque_dirs s ++ [absolute (t ++ l ++ [c])]; written := written s |}, fs).
Proof.
  intros Hr Hn Hl. unfold apply_entry. rewrite fs_bind. unfold reads. cbn [e_path append_marker tar_entry].
  assert (E : join_path (Normal <$> (l ++ [c])) [Normal WH_OPAQUE] = Normal <$> ((l ++ [c]) ++ [WH_OPAQUE]))
    by (rewrite (fmap_app _ (l ++ [c])); reflexivity).
  rewrite E, classify_opaque, fs_bind, safe_descend_names by done. by rewrite Hn, Hl.
Qed.

Lemma apply_deletion s l c fs :
  tree fs -> real_dir fs (t ++ l) -> plain_name c ->
  apply_entry (absolute t) s (append_marker (with_file_name (Normal <$> (l ++ [c])) (whiteout_name c))) fs =
    (Ok s, remove_tree (t ++ l ++ [c]) fs).
Proof.
  intros Ht Hr Hc. unfold apply_entry. rewrite fs_bind. unfold reads. cbn [e_path append_marker tar_entry].
  unfold with_file_name. rewrite take_names.
  change [Normal (whiteout_name c)] with (Normal <$> [whiteout_name c]). rewrite <- fmap_app.
  rewrite classify_remove by done. rewrite fs_bind, safe_descend_names by done.
  destruct (fs !! (t ++ l ++ [c])) as [n|] eqn:E.
  - rewrite andb_false_r, fs_bind. rewrite (assoc app) in *. rewrite remove_path_tree by done. reflexivity.
  - rewrite remove_tree_leaf, delete_id by (done || by rewrite E). reflexivity.
Qed.

Lemma append_path_eq l c n :
  up (l ++ [c]) = Some n ->
  append_path upper (absolute u) (absolute (u ++ l ++ [c])) =
    match n with
    | NLink tg => Ok [tar_entry (Normal <$> (l ++ [c])) (TSymlink tg)]
    | NDir x => Ok (tar_entry (Normal <$> (l ++ [c])) TDir
                    :: if is_opaque_dir x then [append_marker (join_path (Normal <$> (l ++ [c])) [Normal WH_OPAQUE])] else [])
    | NFile data => Ok [tar_entry (Normal <$> (l ++ [c])) (TFile data)]
    | NChar _ => Ok [append_marker (with_file_name (Normal <$> (l ++ [c])) (whiteout_name c))]
    | NOther => Ok []
    end.
Proof.
  intros H. unfold append_path. rewrite absolute_app, strip_path_app, <- absolute_app. cbn [mbind result_bind].
  assert (Hup : upper !! ((u ++ l) ++ [c]) = Some n) by by rewrite <- (assoc app).
  rewrite (assoc app u), lstat_below by (eapply tree_real; [apply HP|by eexists]).
  unfold node_at. rewrite Hup. cbn [ok_or mbind result_bind].
  destruct n; try reflexivity.
  assert (rdev = 0%Z) as -> by apply (pk_kinds HP (l ++ [c]) _ ltac:(by destruct l) H).
  destruct (pk_names HP l c) as (_ & Hs & _); [by rewrite H|].
  rewrite file_name_names. cbn [mbind option_bind]. by rewrite Hs.
Qed.

(** The entries of a path bring the state from [D] to [D] with the path. *)
Definition step_to (D : list (list str)) (fs : Fs) (s : Pass) (r : list str) (es : list TarEntry) : Prop :=
  exists s' fs', apply_entries (absolute t) s (Ok <$> es) fs = (Ok s', fs') /\ Inv (r :: D) fs' s'.

Lemma inv_fresh_self D fs s l c n :
  Inv D fs s -> up (l ++ [c]) = Some n -> l ++ [c] ∉ D -> fs !! (t ++ l ++ [c]) = lo (l ++ [c]).
Proof.
  intros I Hup HD. pose proof (inv_fresh D fs s l c [] I) as H. rewrite !app_nil_r in H.
  apply H; [by eexists|done].
Qed.

Lemma inv_step_leaf D fs s l c n k :
  Inv D fs s -> up (l ++ [c]) = Some n -> l = [] \/ l ∈ D -> l ++ [c] ∉ D ->
  entry_node k = Some n -> is_dir_node (lo (l ++ [c])) = false ->
  step_to D fs s (l ++ [c]) [tar_entry (Normal <$> (l ++ [c])) k].
Proof.
  intros I Hup Hl HD Hkn Hd. eexists _, _. split.
  - cbn [fmap list_fmap apply_entries]. rewrite fs_bind. unfold reads. rewrite fs_bind.
    rewrite (apply_plain s l c k fs (<[t ++ l ++ [c] := n]> fs)); [reflexivity| |].
    + eapply (pk_names HP). by rewrite Hup.
    + apply unpack_leaf; [|by erewrite inv_fresh_self|done]. eapply inv_real; [done|by eexists|done].
  - eapply (inv_set D fs s l c n); try done.
    + unfold kept. rewrite Hup. by destruct k; simplify_eq/=.
    + intros p Hp. by apply lookup_insert_ne.
    + rewrite lookup_insert_eq. by destruct k; simplify_eq/=.
    + intros p. cbn [opaque_dirs]. unfold opaque_at. rewrite Hup. destruct k; simplify_eq/=; naive_solver.
Qed.

Lemma inv_step_dir D fs s l c x :
  Inv D fs s -> up (l ++ [c]) = Some (NDir x) -> l = [] \/ l ∈ D -> l ++ [c] ∉ D ->
  step_to D fs s (l ++ [c]) (tar_entry (Normal <$> (l ++ [c])) TDir
    :: if is_opaque_dir x then [append_marker (join_path (Normal <$> (l ++ [c])) [Normal WH_OPAQUE])] else []).
Proof.
  intros I Hup Hl HD.
  assert (Hr : real_dir fs (t ++ l)) by (eapply inv_real; [done|by eexists|done]).
  assert (Hn : plain_name c) by (eapply (pk_names HP); by rewrite Hup).
  pose proof (inv_fresh_self _ _ _ _ _ _ I Hup HD) as Hf.
  pose proof (pk_kinds HP (l ++ [c]) _ ltac:(by destruct l) Hup) as Hk. simpl in Hk.
  assert (Hu : unpack_in (absolute t) (tar_entry (Normal <$> (l ++ [c])) TDir) fs =
    (Ok true, match fs !! (t ++ l ++ [c]) with Some _ => fs | None => <[t ++ l ++ [c] := NDir []]> fs end))
    by (apply unpack_dir; [done|by rewrite Hf]).
  set (fs1 := match fs !! (t ++ l ++ [c]) with Some _ => fs | None => <[t ++ l ++ [c] := NDir []]> fs end) in *.
  assert (H1 : forall p, p <> t ++ l ++ [c] -> fs1 !! p = fs !! p).
  { intros p Hp. unfold fs1. destruct (fs !! (t ++ l ++ [c])); [done|by apply lookup_insert_ne]. }
  assert (H2 : fs1 !! (t ++ l ++ [c]) = shown (NDir x) (lo (l ++ [c]))).
  { unfold fs1. rewrite Hf. cbn [shown]. destruct (lo (l ++ [c])) as [m|] eqn:E; [|by rewrite lookup_insert_eq].
    destruct Hk as [?|Hk]; [done|]. by rewrite Hf, Hk. }
  assert (Hm : exists y, fs1 !! (t ++ l ++ [c]) = Some (NDir y)).
  { rewrite H2. cbn [shown]. destruct (lo (l ++ [c])) as [[]|] eqn:?; simpl; eauto. }
  destruct Hm as [y Hm].
  assert (Hr1 : real_dir fs1 (t ++ l)).
  { intros q Hq. rewrite H1; [by apply Hr|]. intros ->. rewrite (assoc app) in Hq. by apply prefix_snoc_not in Hq. }
  destruct (is_opaque_dir x) eqn:Ho; (eexists _, fs1; split;
    [cbn [fmap list_fmap apply_entries]; rewrite fs_bind; unfold reads; rewrite fs_bind;
     rewrite (apply_plain s l c TDir fs fs1) by done; rewrite ?fs_bind;
     try rewrite (apply_opaque _ l c (NDir y)) by done; reflexivity
    |eapply (inv_set D fs s l c (NDir x)); try done; [unfold kept; by rewrite Hup|];
     intros p; cbn [opaque_dirs]; unfold opaque_at; rewrite Hup, Ho; set_solver]).
Qed.

Lemma inv_step D fs s l c n :
  Inv D fs s -> up (l ++ [c]) = Some n -> l = [] \/ l ∈ D -> l ++ [c] ∉ D ->
  exists es, append_path upper (absolute u) (absolute (u ++ l ++ [c])) = Ok es /\ step_to D fs s (l ++ [c]) es.
Proof.
  intros I Hup Hl HD. rewrite (append_path_eq _ _ _ Hup).
  pose proof (pk_kinds HP (l ++ [c]) n ltac:(by destruct l) Hup) as Hk.
  destruct n as [x|data|tg|rdev|]; [| | | |done]; (eexists; split; [reflexivity|]).
  - by apply inv_step_dir.
  - by eapply inv_step_leaf.
  - by eapply inv_step_leaf.
  - eexists s, _. split.
    + cbn [fmap list_fmap apply_entries]. rewrite fs_bind. unfold reads. rewrite fs_bind, apply_deletion.
      * reflexivity.
      * by eapply inv_tree.
      * eapply inv_real; [done|by eexists|done].
      * eapply (pk_names HP). by rewrite Hup.
    + eapply inv_del; try done. intros p. apply lookup_remove_tree.
Qed.

(** ** All paths *)

Lemma apply_entries_app target es es' : forall s fs,
  apply_entries target s (es ++ es') fs =
    match apply_entries target s es fs with
    | (Ok s', fs') => apply_entries target s' es' fs'
    | (Err e, fs') => (Err e, fs')
    end.
Proof.
  induction es as [|[e|er] es IH]; intros s fs; [done| |done]. cbn [app apply_entries].
  rewrite !fs_bind. unfold reads. rewrite !fs_bind. destruct (apply_entry target s e fs) as [[s1|] fs1]; [|done].
  by rewrite IH.
Qed.

Lemma inv_loop ps : forall P D fs s,
  Inv D fs s -> (forall x, P x -> exists r, x = u ++ r /\ (r = [] \/ r ∈ D)) -> topo P ps -> NoDup ps ->
  (forall p, p ∈ ps -> is_Some (upper !! p)) -> (forall r, u ++ r ∈ ps -> r ∉ D) ->
  exists es s' fs' D', append_paths upper (absolute u) (absolute <$> ps) = Ok es
    /\ apply_entries (absolute t) s (Ok <$> es) fs = (Ok s', fs') /\ Inv D' fs' s'
    /\ forall r, r ∈ D' <-> r ∈ D \/ u ++ r ∈ ps.
Proof.
  induction ps as [|p ps IH]; intros P D fs s I HPx Ht Hn Hs HD.
  { exists [], s, fs, D. split_and!; [done|done|done|]. set_solver. }
  destruct Ht as [(q & c & -> & Hq) Ht]. destruct (HPx _ Hq) as (l & -> & Hl).
  assert (Ea : (u ++ l) ++ [c] = u ++ l ++ [c]) by by rewrite <- (assoc app). rewrite Ea in *. clear Ea.
  destruct (Hs (u ++ l ++ [c])) as [n Hup]; [by left|].
  apply NoDup_cons in Hn as [Hnin Hn].
  destruct (inv_step D fs s l c n I Hup Hl) as (es & E & s1 & fs1 & E1 & I1); [apply HD; by left|].
  assert (HPx' : forall x, P x \/ x = u ++ l ++ [c] -> exists r, x = u ++ r /\ (r = [] \/ r ∈ (l ++ [c]) :: D)).
  { intros x [Hx| ->]; [|exists (l ++ [c]); split; [done|right; by left]].
    destruct (HPx _ Hx) as (r & -> & Hr). exists r. split; [done|]. destruct Hr; [by left|right; by right]. }
  destruct (IH _ _ _ _ I1 HPx' Ht Hn) as (es' & s2 & fs2 & D2 & E2 & E3 & I2 & HD2).
  - intros p Hp. apply Hs. by right.
  - intros r Hr [->|Hin]%elem_of_cons; [done|]. apply (HD r); [by right|done].
  - exists (es ++ es'), s2, fs2, D2. split_and!; [| |done|].
    + cbn [fmap list_fmap append_paths]. rewrite E. cbn [mbind result_bind]. unfold mbind, result_bind in E2. by rewrite E2.
    + rewrite fmap_app, apply_entries_app, E1. exact E3.
    + intros r. rewrite HD2, !elem_of_cons. split; [naive_solver|].
      intros [?|[?%app_inv_head|?]]; naive_solver.
Qed.

(** ** The clearings *)

(** [p] lies at or below a child of [l] that is listed and not kept. *)
Definition cleared (keep : list Path) (l : list str) (names : list str) (p : list str) : Prop :=
  exists c, c ∈ names /\ (absolute (l ++ [c]) ∉ keep) /\ (l ++ [c]) `prefix_of` p.

(** [fs'] is [fs] without what satisfies [P]. *)
Definition without (P : list str -> Prop) (fs fs' : Fs) : Prop :=
  forall p, (P p -> fs' !! p = None) /\ (~ P p -> fs' !! p = fs !! p).

Lemma without_cases P fs fs' p : without P fs fs' -> fs' !! p = None \/ (~ P p /\ fs' !! p = fs !! p).
Proof.
  intros H. destruct (H p) as [H1 H2]. destruct (fs' !! p) eqn:E; [|by left]. right.
  assert (~ P p) by (intros HPp%H1; congruence). auto.
Qed.

Lemma clear_children_without keep l names : forall fs,
  tree fs -> real_dir fs l ->
  exists fs', clear_children keep (absolute l) names fs = (Ok tt, fs') /\ tree fs' /\ without (cleared keep l names) fs fs'.
Proof.
  induction names as [|c names IH]; intros fs Ht Hl; cbn [clear_children].
  { exists fs. split_and!; [done|done|]. intros p. split; [|done]. by intros (c & Hc & _); apply elem_of_nil in Hc. }
  rewrite absolute_snoc. case_bool_decide as Hk.
  - destruct (IH fs Ht Hl) as (fs' & E & Ht' & Hw). exists fs'. split_and!; [done|done|].
    intros p. destruct (Hw p) as [H1 H2]. split.
    + intros (c' & [->|Hc]%elem_of_cons & Hn & Hp); [done|]. apply H1. by exists c'.
    + intros Hn. apply H2. intros (c' & Hc & Hn' & Hp). apply Hn. exists c'. split; [by right|done].
  - rewrite fs_bind, remove_path_tree by done.
    destruct (IH (remove_tree (l ++ [c]) fs)) as (fs' & E & Ht' & Hw).
    { by apply tree_remove_tree. }
    { apply real_dir_remove_tree; [done|]. apply prefix_snoc_not. }
    exists fs'. split_and!; [done|done|]. intros p. destruct (Hw p) as [H1 H2]. rewrite lookup_remove_tree in H2.
    destruct (decide (l ++ [c] `prefix_of` p)) as [Hp|Hp].
    + rewrite bool_decide_true in H2 by done. split.
      * intros _. destruct (without_cases _ _ _ p Hw) as [|[Hc Ep]]; [done|]. by apply H2.
      * intros Hn. exfalso. apply Hn. exists c. split; [by left|done].
    + rewrite bool_decide_false in H2 by done. split.
      * intros (c' & [->|Hc]%elem_of_cons & Hn & Hp'); [done|]. apply H1. by exists c'.
      * intros Hn. apply H2. intros (c' & Hc & Hn' & Hp'). apply Hn. exists c'. split; [by right|done].
Qed.

(** [p] lies at or below a child of [l] that is not kept. *)
Definition stale (keep : list Path) (l p : list str) : Prop :=
  exists c, (absolute (l ++ [c]) ∉ keep) /\ (l ++ [c]) `prefix_of` p.

Lemma clear_dir_without keep l fs :
  tree fs -> real_dir fs l ->
  exists fs', clear_dir keep (absolute l) fs = (Ok tt, fs') /\ tree fs' /\ without (stale keep l) fs fs'.
Proof.
  intros Ht Hl. unfold clear_dir. rewrite fs_bind. unfold is_dir, reads.
  rewrite resolve_real_dir, (real_dir_self _ _ Hl) by done. rewrite fs_bind. unfold read_dir, reads.
  rewrite list_dir_real by done.
  destruct (clear_children_without keep l (children fs l) fs Ht Hl) as (fs' & E & Ht' & Hw).
  exists fs'. split_and!; [done|done|]. intros p. destruct (Hw p) as [H1 H2].
  destruct (fs !! p) eqn:Ep.
  - assert (Hiff : stale keep l p <-> cleared keep l (children fs l) p).
    { split; [|intros (c & _ & ? & ?); by exists c]. intros (c & Hn & Hp). exists c. split_and!; [|done|done].
      apply elem_of_children. destruct Hp as [k ->]. destruct (decide (k = [])) as [->|Hk]; [by rewrite app_nil_r in Ep|].
      assert (Hs : is_Some (fs !! ((l ++ [c]) ++ k))) by by eexists. apply tree_above in Hs; [|done|done].
      by destruct (fs !! (l ++ [c])). }
    rewrite Hiff. done.
  - assert (fs' !! p = None); [|done]. destruct (without_cases _ _ _ p Hw) as [|[_ Hc]]; congruence.
Qed.

Lemma clear_dirs_without keep dirs : forall fs,
  tree fs -> (forall l, l ∈ dirs -> real_dir fs l) ->
  (forall l l', l ∈ dirs -> l' ∈ dirs -> ~ stale keep l l') ->
  exists fs', clear_dirs keep (absolute <$> dirs) fs = (Ok tt, fs')
    /\ without (fun p => exists l, l ∈ dirs /\ stale keep l p) fs fs'.
Proof.
  induction dirs as [|l dirs IH]; intros fs Ht Hr Hs.
  { exists fs. split; [done|]. intros p. split; [|done]. by intros (l & Hl & _); apply elem_of_nil in Hl. }
  rewrite fmap_cons. cbn [clear_dirs]. rewrite fs_bind.
  destruct (clear_dir_without keep l fs Ht) as (fs1 & -> & Ht1 & Hw1); [apply Hr; by left|].
  destruct (IH fs1) as (fs' & E & Hw); [done| | |].
  - intros l' Hl' q Hq. rewrite (proj2 (Hw1 q)); [apply (Hr l'); [by right|done]|].
    intros (c & Hn & Hp). apply (Hs l l'); [by left|by right|]. exists c. split; [done|]. by etrans.
  - intros l1 l2 H1 H2. apply Hs; by right.
  - exists fs'. split; [done|]. intros p. destruct (Hw p) as [H1 H2], (Hw1 p) as [H3 H4]. split.
    + intros (l' & [->|Hl]%elem_of_cons & Hst); [|apply H1; by exists l'].
      destruct (without_cases _ _ _ p Hw) as [|[_ Hc]]; [done|]. by rewrite Hc, H3.
    + intros Hn. rewrite H2, H4; [done| |].
      * intros Hst. apply Hn. exists l. split; [by left|done].
      * intros (l' & Hl & Hst). apply Hn. exists l'. split; [by right|done].
Qed.

(** ** The whole layer *)

Lemma inv_init : Inv [] lower Pass_new.
Proof.
  split; try done.
  - by intros r Hr%elem_of_nil.
  - by intros l c Hr%elem_of_nil.
  - intros r Hr. cbn. split; [by intros H%elem_of_nil|by intros [H%elem_of_nil _]].
  - intros p. cbn. split; [by intros H%elem_of_nil|by intros (d & _ & H%elem_of_nil & _)].
Qed.

(** What the clearings remove, in relative paths. *)
Definition erased (r : list str) : Prop :=
  exists d c k, r = d ++ c :: k /\ d <> [] /\ opaque_at d = true /\ kept (d ++ [c]) = false.

Lemma stale_erased D fs s r :
  Inv D fs s -> (forall r, r ∈ D <-> r <> [] /\ is_Some (up r)) ->
  (exists l, (exists d, l = t ++ d /\ d ∈ D /\ opaque_at d = true) /\ stale (written s) l (t ++ r)) <-> erased r.
Proof.
  intros I HD. split.
  - intros (l & (d & -> & Hd & Ho) & c & Hk & [k Hp]). rewrite <- !(assoc app) in Hp. apply app_inv_head in Hp.
    rewrite <- !(assoc app) in Hk. rewrite (i_written _ _ _ I) in Hk by by destruct d.
    exists d, c, k. apply HD in Hd as Hd'. destruct Hd' as [Hd0 _]. split_and!; [done|done|done|].
    destruct (kept (d ++ [c])) eqn:Ek; [|done]. exfalso. apply Hk. split; [|done]. apply HD.
    split; [by destruct d|]. unfold kept in Ek. by destruct (up (d ++ [c])).
  - intros (d & c & k & -> & Hd & Ho & Hk). exists (t ++ d). split.
    + exists d. split_and!; [done| |done]. apply HD. split; [done|]. unfold opaque_at in Ho. by destruct (up d).
    + exists c. rewrite <- !(assoc app). rewrite (i_written _ _ _ I) by by destruct d. rewrite Hk.
      split; [naive_solver|]. by exists k; rewrite <- !(assoc app).
Qed.

Lemma kept_not_erased r : kept r = true -> ~ erased r.
Proof.
  intros Hr (d & c & k & -> & Hd & Ho & Hk). destruct (decide (k = [])) as [->|Hk0]; [congruence|].
  assert (Hs : is_Some (up ((d ++ [c]) ++ k))).
  { rewrite <- (assoc app). unfold kept in Hr. simpl. by destruct (up (d ++ c :: k)). }
  apply up_dir in Hs; [|done]. unfold kept in Hk. by destruct (up (d ++ [c])) as [[]|].
Qed.

(** Nothing of the lower layers that is hidden survives. *)
Lemma hidden_gone D r :
  (forall r, r ∈ D <-> r <> [] /\ is_Some (up r)) -> up r = None -> hidden r = true -> ~ erased r ->
  gone D r = true \/ lo r = None.
Proof.
  intros HD Hup (q & k & n & -> & Hq & Hk & Hn & Hh)%hidden_spec He.
  destruct (lo (q ++ k)) as [m|] eqn:Hlo; [|by right]. left.
  assert (Hs : is_Some (lo (q ++ k))) by by eexists. pose proof (lo_dir _ _ Hs Hk) as Hd.
  pose proof (pk_kinds HP q n Hq Hn) as Hkind. destruct n as [x|data|tg|rdev|]; try congruence; [| |done].
  - exfalso. destruct k as [|c k]; [done|]. apply He. exists q, c, k. split_and!; [done|done| |].
    { unfold opaque_at. by rewrite Hn. }
    destruct (kept (q ++ [c])) eqn:Ek; [|done]. exfalso. unfold kept in Ek.
    assert (Hk0 : k <> []) by (intros ->; by rewrite Hup in Ek).
    assert (Hd' : is_dir_node (lo (q ++ [c])) = true) by (apply (lo_dir (q ++ [c]) k); [by rewrite <- (assoc app)|done]).
    destruct (up (q ++ [c])) as [n'|] eqn:Hn'; [|done].
    pose proof (pk_kinds HP (q ++ [c]) n' ltac:(by destruct q) Hn') as Hkind'.
    destruct n'; try congruence; try done.
    pose proof (pk_opaque HP q c k x Hq Hn Hh) as Hop. rewrite Hn' in Hop. simpl in Hop. by rewrite Hop in Hlo.
  - unfold gone. apply existsb_exists. exists q. split; [apply list_elem_of_In, HD; eauto|].
    rewrite Hn, bool_decide_true; [done|]. by apply prefix_app_r.
Qed.

Lemma shown_gone D r : up r = None -> gone D r = true -> (forall q, q ∈ D -> q <> []) -> hidden r = true.
Proof.
  intros Hup (q & Hq & E)%existsb_exists HD. bools. apply list_elem_of_In in Hq. destruct (up q) as [n|] eqn:Hn; [|done].
  match goal with H : q `prefix_of` r |- _ => destruct H as [k ->] end. apply hidden_spec. exists q, k, n.
  split_and!; [done|by apply HD| |done|by destruct n]. intros ->. rewrite app_nil_r in Hup. congruence.
Qed.

(** What the clearings leave of the unpacked paths is what the overlay shows. *)
Lemma view_cleared D fs s fs' :
  Inv D fs s -> (forall r, r ∈ D <-> r <> [] /\ is_Some (up r)) ->
  without (fun p => exists l, (exists d, l = t ++ d /\ d ∈ D /\ opaque_at d = true) /\ stale (written s) l p) fs fs' ->
  forall r, r <> [] -> fs' !! (t ++ r) = merged r.
Proof.
  intros I HD Hw r Hr. pose proof (stale_erased D fs s r I HD) as Hst.
  pose proof (without_cases _ _ _ (t ++ r) Hw) as Hc. destruct (Hw (t ++ r)) as [_ Hns].
  rewrite Hst, (i_view _ _ _ I) in Hc, Hns by done. unfold view in Hc, Hns. unfold merged.
  destruct (up r) as [n|] eqn:Hup.
  - rewrite bool_decide_true in Hc, Hns by by apply HD. simpl in Hc, Hns.
    destruct (kept r) eqn:Hk; [by apply Hns, kept_not_erased|].
    assert (shown n (lo r) = None) as Hn by (unfold kept in Hk; rewrite Hup in Hk; by destruct n).
    rewrite Hn in *. naive_solver.
  - assert (Hnin : r ∉ D) by (intros [_ [??]]%HD; congruence). rewrite bool_decide_false in Hc, Hns by done.
    destruct (hidden r) eqn:Hh.
    + destruct Hc as [|[He ->]]; [done|]. by destruct (hidden_gone D r HD Hup Hh He) as [->| ->]; [|destruct (gone D r)].
    + rewrite Hns.
      * destruct (gone D r) eqn:Hg; [|done]. apply shown_gone in Hg; [congruence|done|]. by intros q [? _]%HD.
      * intros (d & c & k & -> & Hd & Ho & _). apply not_true_iff_false in Hh. apply Hh, hidden_spec.
        unfold opaque_at in Ho. destruct (up d) as [n|] eqn:Hn; [|done]. exists d, (c :: k), n.
        split_and!; [done|done|done|done|by destruct n].
Qed.

Lemma opaque_real D fs s d : Inv D fs s -> d ∈ D -> opaque_at d = true -> real_dir fs (t ++ d).
Proof.
  intros I Hd Ho. destruct (i_in _ _ _ I _ Hd) as [Hd0 Hs]. destruct d as [|c l _] using rev_ind; [done|].
  rewrite (assoc app). apply real_dir_snoc. split; [by eapply inv_real, (i_closed _ _ _ I)|].
  rewrite <- (assoc app), (i_view _ _ _ I) by done. unfold view, opaque_at in *. rewrite bool_decide_true by done.
  destruct (up (l ++ [c])) as [[]|]; try done. simpl. by destruct (is_dir_node (lo (l ++ [c]))) eqn:?.
Qed.

Lemma absolute_list (ps : list Path) : (forall p, p ∈ ps -> exists l, p = absolute l) -> exists ls, ps = absolute <$> ls.
Proof.
  induction ps as [|p ps IH]; intros H; [by exists []|].
  destruct (H p) as [l ->]; [by left|]. destruct IH as [ls ->]; [intros q Hq; apply H; by right|].
  by exists (l :: ls).
Qed.

Definition layer_of : result IoError (list TarEntry) := build_tar upper (absolute u).

Lemma pack_unpack :
  exists es fs', layer_of = Ok es
    /\ apply_tar (Ok (Ok <$> es)) (absolute t) lower = (Ok tt, fs')
    /\ (forall r, r <> [] -> fs' !! (t ++ r) = merged r)
    /\ (forall p, ~ (t `prefix_of` p /\ t <> p) -> fs' !! p = lower !! p).
Proof.
  destruct (collect_sorted_walked (S (depth upper)) upper u) as (ps & E & Hn & Hel & Htp); [apply HP|apply HP|lia|].
  destruct (inv_loop ps (fun x => x = u) [] lower Pass_new inv_init) as (es & s & fs & D & E1 & E2 & I & HD); try done.
  { intros x ->. exists []. rewrite app_nil_r. auto. }
  { by intros p (r & _ & _ & H)%Hel. }
  { by intros r _ H%elem_of_nil. }
  assert (HD' : forall r, r ∈ D <-> r <> [] /\ is_Some (up r)).
  { intros r. rewrite HD, Hel, elem_of_nil. split.
    - intros [[]|(k & Hk & ->%app_inv_head & H)]. done.
    - intros [Hr H]. right. by exists r. }
  destruct (absolute_list (opaque_dirs s)) as [dirs Hdirs].
  { intros p (d & -> & _)%(i_opaque _ _ _ I). eauto. }
  assert (Hin : forall l, l ∈ dirs <-> exists d, l = t ++ d /\ d ∈ D /\ opaque_at d = true).
  { intros l. rewrite <- (list_elem_of_fmap_inj absolute), <- Hdirs, (i_opaque _ _ _ I).
    split; intros (d & H & ?); exists d; (split; [|done]); [by apply (inj absolute)|by rewrite H]. }
  destruct (clear_dirs_without (written s) dirs fs) as (fs' & E3 & Hw).
  - by eapply inv_tree.
  - intros l (d & -> & Hd & Ho)%Hin. by apply opaque_real with D s.
  - intros l l' Hl (d' & -> & Hd' & Ho')%Hin Hst.
    apply (kept_not_erased d'); [unfold kept, opaque_at in *; by destruct (up d') as [[]|]|].
    eapply (stale_erased D fs s); [done|done|]. exists l. split; [by apply Hin|done].
  - exists es, fs'. unfold layer_of, build_tar. rewrite E. cbn [mbind result_bind]. split_and!; [done| | |].
    + unfold apply_tar. rewrite fs_bind. unfold reads. rewrite fs_bind, E2, Hdirs. done.
    + eapply view_cleared; [done|done|]. intros p. destruct (Hw p) as [H1 H2]. split.
      * intros (l & Hl & Hst). apply H1. exists l. split; [by apply Hin|done].
      * intros Hns. apply H2. intros (l & Hl & Hst). apply Hns. exists l. split; [by apply Hin|done].
    + intros p Hp. rewrite (proj2 (Hw p)); [by apply (i_out _ _ _ I)|].
      intros (l & (d & -> & Hd & Ho)%Hin & c & _ & [k ->]). apply Hp. rewrite <- !(assoc app).
      split; [by apply prefix_app_r|]. intros H. rewrite <- (app_nil_r t) in H at 1. apply app_inv_head in H.
      by destruct d.
Qed.
End overlay.

(** C7 (refinement): Packing the upper directory of an overlay mount and
    unpacking the layer over the lower layers gives, at every path, the kind and
    the content the overlay showed: the entries of the upper directory, nothing
    that it deletes or hides, and the rest of the lower layers; nothing outside
    the target changes and neither step fails.  The upper directory must be one a
    layer can describe ([packable]): files, links, directories and deletion
    markers with plain UTF-8 names that do not begin with .wh., no directory in
    place of a lower file or file in place of a lower directory, and below an
    opaque directory no kept subdirectory that has lower content (see
    [Materialize.Layers.opaque_keeps_lower]).  Modes, owners and times are not
    part of a tree. *)
Theorem pack_unpack_overlay {T : TarCrate} {L : TarLaws T} upper u lower t :
  packable upper u lower t ->
  exists es fs', build_tar upper (absolute u) = Ok es
    /\ apply_tar (Ok (Ok <$> es)) (absolute t) lower = (Ok tt, fs')
    /\ (forall r, r <> [] -> fs' !! (t ++ r) = merged upper u lower t r)
    /\ (forall p, ~ (t `prefix_of` p /\ t <> p) -> fs' !! p = lower !! p).
Proof. intros H. exact (pack_unpack upper u lower t H). Qed.

(** ** Checking [packable] *)

Definition strip_location (u p : list str) : option (list str) :=
  if bool_decide (u `prefix_of` p) then Some (drop (length u) p) else None.
Definition plain_nameb (c : str) : bool :=
  bool_decide (components c = [Normal c]) && bool_decide (to_str c = Some c)
  && bool_decide (strip_prefix WH_PREFIX c = None).

Definition entry_packable (upper : Fs) (u : list str) (lower : Fs) (t : list str) (r : list str) (n : Node) : bool :=
  bool_decide (r = [])
  || (match last r with Some c => plain_nameb c | None => true end
      && match n with
         | NDir x =>
             match lower !! (t ++ r) with None => true | low => is_dir_node low end
             && (negb (is_opaque_dir x)
                 || forallb (fun '(q, _) =>
                      match strip_location (t ++ r) q with
                      | Some (c :: _ :: _) => negb (is_dir_node (upper !! (u ++ r ++ [c])))
                      | _ => true
                      end) (map_to_list lower))
         | NFile _ | NLink _ => negb (is_dir_node (lower !! (t ++ r)))
         | NChar rdev => (rdev =? 0)%Z
         | NOther => false
         end).

Definition packableb (upper : Fs) (u : list str) (lower : Fs) (t : list str) : bool :=
  treeb upper && real_dirb upper u && treeb lower && real_dirb lower t
  && forallb (fun '(p, n) => match strip_location u p with
                             | Some r => entry_packable upper u lower t r n
                             | None => true
                             end) (map_to_list upper).

Lemma strip_location_app u r : strip_location u (u ++ r) = Some r.
Proof. unfold strip_location. rewrite bool_decide_true by by apply prefix_app_r. by rewrite drop_app_length. Qed.

Lemma packableb_sound upper u lower t : packableb upper u lower t = true -> packable upper u lower t.
Proof.
  unfold packableb. intros H. bools. match goal with H : forallb _ _ = true |- _ => rewrite forallb_forall in H; rename H into Ha end.
  assert (He : forall r n, upper !! (u ++ r) = Some n -> r <> [] -> entry_packable upper u lower t r n = true).
  { intros r n Hn Hr. specialize (Ha (u ++ r, n)). rewrite <- list_elem_of_In, elem_of_map_to_list in Ha.
    specialize (Ha Hn). simpl in Ha. by rewrite strip_location_app in Ha. }
  split; auto using treeb_sound, real_dirb_sound.
  - intros r c [n Hn]. apply He in Hn; [|by destruct r]. unfold entry_packable in Hn.
    rewrite bool_decide_false, last_snoc in Hn by by destruct r. cbn [orb] in Hn. unfold plain_nameb in Hn.
    bools. by unfold plain_name.
  - intros r n Hr Hn. apply He in Hn; [|done]. unfold entry_packable in Hn. rewrite bool_decide_false in Hn by done.
    cbn [orb] in Hn. unfold lo. destruct n; bools; try done; [|by apply Z.eqb_eq].
    destruct (lower !! (t ++ r)); auto.
  - intros d c r x Hd Hn Ho Hdir Hr. apply He in Hn; [|done]. unfold entry_packable in Hn.
    rewrite bool_decide_false in Hn by done. cbn [orb] in Hn. rewrite Ho in Hn. cbn [negb orb] in Hn. bools.
    match goal with H : forallb _ _ = true |- _ => rewrite forallb_forall in H; rename H into Hf end.
    unfold lo. destruct (lower !! (t ++ d ++ [c] ++ r)) as [m|] eqn:Hm; [|done].
    specialize (Hf (t ++ d ++ [c] ++ r, m)). rewrite <- list_elem_of_In, elem_of_map_to_list in Hf.
    specialize (Hf Hm). simpl in Hf. rewrite (assoc app t d), strip_location_app in Hf.
    destruct r as [|y r]; [done|]. bools. unfold up in Hdir. congruence.
Qed.

(** ** The model of the archive crate obeys the laws *)

Lemma make_dirs_real fs l : forall cur, real_dir fs (cur ++ l) -> ModelTar.make_dirs fs cur l = Ok fs.
Proof.
  induction l as [|c l IH]; intros cur H; [done|]. cbn [ModelTar.make_dirs].
  assert (E : cur ++ c :: l = (cur ++ [c]) ++ l) by by rewrite <- (assoc app). rewrite E in H.
  assert (Hc : is_dir_node (fs !! (cur ++ [c])) = true) by (apply H; by apply prefix_app_r).
  destruct (fs !! (cur ++ [c])) as [[]|]; try done. by apply IH.
Qed.

Lemma unpack_place t l c k fs :
  real_dir fs (t ++ l) ->
  ModelTar.unpack (absolute t) (tar_entry (Normal <$> (l ++ [c])) k) fs = ModelTar.place (t ++ l ++ [c]) k fs.
Proof.
  intros H. unfold ModelTar.unpack. cbn [e_path e_kind tar_entry]. rewrite bool_decide_false.
  2: { rewrite list_elem_of_fmap. by intros (x & ? & _). }
  rewrite ModelTar.locate_normal, ModelTar.locate_absolute, last_snoc, length_app. simpl.
  by rewrite Nat.add_sub, take_app_length, make_dirs_real.
Qed.

#[export] Instance model_laws : TarLaws ModelTar.tar.
Proof.
  split.
  - intros t l c fs H Hn. cbn [unpack_in ModelTar.tar]. rewrite unpack_place by done. unfold ModelTar.place.
    by destruct (fs !! (t ++ l ++ [c])) as [[]|]; destruct Hn.
  - intros t l c k n fs H Hd Hk. cbn [unpack_in ModelTar.tar]. rewrite unpack_place by done. unfold ModelTar.place.
    destruct k; simplify_eq/=; by destruct (fs !! (t ++ l ++ [c])) as [[]|].
Qed.

(** A step that replaces [a], deletes [b], recreates [d] and adds a link. *)
Module PackExample.
Definition lower : Fs :=
  <[["t" : str; "a" : str] := NFile "1"]> (<[["t" : str; "b" : str; "x" : str] := NFile "2"]>
  (<[["t" : str; "d" : str; "old" : str] := NFile "3"]> (<[["t" : str; "e" : str; "f" : str] := NFile "4"]>
  (Layers.dirs [[]; ["t" : str]; ["t" : str; "b" : str]; ["t" : str; "d" : str]; ["t" : str; "e" : str]])))).
Definition upper : Fs :=
  <[["u" : str; "a" : str] := NFile "9"]> (<[["u" : str; "b" : str] := NChar 0]>
  (<[["u" : str; "d" : str] := NDir [("user.overlay.opaque" : str, "y" : str)]]>
  (<[["u" : str; "d" : str; "new" : str] := NFile "8"]> (<[["u" : str; "l" : str] := NLink (absolute ["etc" : str])]>
  (Layers.dirs [[]; ["u" : str]]))))).
Definition u : list str := ["u" : str].
Definition t : list str := ["t" : str].

Lemma pack_unpack_overlay_witness :
  packable upper u lower t
  /\ exists fs' : Fs, (forall r, r <> [] -> fs' !! (t ++ r) = merged upper u lower t r)
     /\ fs' !! ["t" : str; "a" : str] = Some (NFile "9") /\ fs' !! ["t" : str; "b" : str; "x" : str] = None
     /\ fs' !! ["t" : str; "d" : str; "old" : str] = None /\ fs' !! ["t" : str; "d" : str; "new" : str] = Some (NFile "8")
     /\ fs' !! ["t" : str; "e" : str; "f" : str] = Some (NFile "4").
Proof.
  assert (H : packable upper u lower t) by (apply packableb_sound; vm_compute; reflexivity).
  split; [exact H|].
  destruct (pack_unpack_overlay (T := ModelTar.tar) upper u lower t H) as (es & fs' & _ & _ & Hm & _).
  exists fs'. split; [exact Hm|].
  split_and!;
    [etransitivity; [apply (Hm ["a" : str])|]|etransitivity; [apply (Hm ["b" : str; "x" : str])|]
    |etransitivity; [apply (Hm ["d" : str; "old" : str])|]|etransitivity; [apply (Hm ["d" : str; "new" : str])|]
    |etransitivity; [apply (Hm ["e" : str; "f" : str])|]]; try discriminate; vm_compute; reflexivity.
Defined.
End PackExample.
