(* ===== verification/Seccomp.v ===== *)
(** * Seccomp: the syscall filter of a container
    (crates/umf-engine/src/seccomp.rs, [default_caps] of bundle.rs).

    The vendored profile allows some syscalls only to containers with certain
    capabilities; the program evaluates these gates itself. *)

From stdpp Require Import gmap list.
From S2P Require Import Prelude RustStr Json Target SeccompProfile.

(** ** Capabilities: [oci_spec::runtime::Capability] *)

Inductive Capability :=
| AuditControl | AuditRead | AuditWrite | BlockSuspend | Bpf | CheckpointRestore | Chown | DacOverride
| DacReadSearch | Fowner | Fsetid | IpcLock | IpcOwner | Kill | Lease | LinuxImmutable | MacAdmin | MacOverride
| Mknod | NetAdmin | NetBindService | NetBroadcast | NetRaw | Perfmon | Setfcap | Setgid | Setpcap | Setuid
| SysAdmin | SysBoot | SysChroot | SysModule | SysNice | SysPacct | SysPtrace | SysRawio | SysResource | SysTime
| SysTtyConfig | Syslog | WakeAlarm.
#[export] Instance Capability_eq_dec : EqDecision Capability.
Proof. solve_decision. Defined.

(** The name a capability is serialised to. *)
Definition cap_name (c : Capability) : str :=
  match c with
  | AuditControl => "CAP_AUDIT_CONTROL"
  | AuditRead => "CAP_AUDIT_READ"
  | AuditWrite => "CAP_AUDIT_WRITE"
  | BlockSuspend => "CAP_BLOCK_SUSPEND"
  | Bpf => "CAP_BPF"
  | CheckpointRestore => "CAP_CHECKPOINT_RESTORE"
  | Chown => "CAP_CHOWN"
  | DacOverride => "CAP_DAC_OVERRIDE"
  | DacReadSearch => "CAP_DAC_READ_SEARCH"
  | Fowner => "CAP_FOWNER"
  | Fsetid => "CAP_FSETID"
  | IpcLock => "CAP_IPC_LOCK"
  | IpcOwner => "CAP_IPC_OWNER"
  | Kill => "CAP_KILL"
  | Lease => "CAP_LEASE"
  | LinuxImmutable => "CAP_LINUX_IMMUTABLE"
  | MacAdmin => "CAP_MAC_ADMIN"
  | MacOverride => "CAP_MAC_OVERRIDE"
  | Mknod => "CAP_MKNOD"
  | NetAdmin => "CAP_NET_ADMIN"
  | NetBindService => "CAP_NET_BIND_SERVICE"
  | NetBroadcast => "CAP_NET_BROADCAST"
  | NetRaw => "CAP_NET_RAW"
  | Perfmon => "CAP_PERFMON"
  | Setfcap => "CAP_SETFCAP"
  | Setgid => "CAP_SETGID"
  | Setpcap => "CAP_SETPCAP"
  | Setuid => "CAP_SETUID"
  | SysAdmin => "CAP_SYS_ADMIN"
  | SysBoot => "CAP_SYS_BOOT"
  | SysChroot => "CAP_SYS_CHROOT"
  | SysModule => "CAP_SYS_MODULE"
  | SysNice => "CAP_SYS_NICE"
  | SysPacct => "CAP_SYS_PACCT"
  | SysPtrace => "CAP_SYS_PTRACE"
  | SysRawio => "CAP_SYS_RAWIO"
  | SysResource => "CAP_SYS_RESOURCE"
  | SysTime => "CAP_SYS_TIME"
  | SysTtyConfig => "CAP_SYS_TTY_CONFIG"
  | Syslog => "CAP_SYSLOG"
  | WakeAlarm => "CAP_WAKE_ALARM"
  end.

Definition default_caps : list Capability :=
  [AuditWrite; Chown; DacOverride; Fowner; Fsetid; Kill; Mknod; NetBindService; NetRaw; Setfcap; Setgid; Setpcap;
   Setuid; SysChroot].

(** ** Gates *)

Record Gate := {
  gate_caps : list str;
  gate_arches : list str
}.
Definition Gate_default : Gate := {| gate_caps := []; gate_arches := [] |}.

(** A [Vec<String>] with [#[serde(default)]]. *)
Definition strings_of (v : option Value) : option (list str) :=
  match v with
  | None => Some []
  | Some v => l ← value_array v; mapM value_str l
  end.

(** [serde_json::from_value::<Gate>]: an object, or the sequence of its fields. *)
Definition Gate_from_value (v : Value) : option Gate :=
  match v with
  | Value_Object ms =>
      caps ← strings_of (ms !! ("caps" : str));
      arches ← strings_of (ms !! ("arches" : str));
      Some {| gate_caps := caps; gate_arches := arches |}
  | Value_Array l =>
      if Nat.leb (length l) 2 then
        caps ← strings_of (head l);
        arches ← strings_of (l !! 1);
        Some {| gate_caps := caps; gate_arches := arches |}
      else None
  | _ => None
  end.

Definition gate_of (block : Value) (key : str) : Gate := default Gate_default (get key block ≫= Gate_from_value).

Definition held_caps (caps : list Capability) : list str := cap_name <$> caps.

Definition moby_arch (arch : Architecture) : str := match arch with X86_64 => "amd64" | Aarch64 => "arm64" end.

Inductive Arch := ScmpArchX86_64 | ScmpArchX86 | ScmpArchX32 | ScmpArchAarch64 | ScmpArchArm.
Definition seccomp_arches (arch : Architecture) : list Arch :=
  match arch with
  | X86_64 => [ScmpArchX86_64; ScmpArchX86; ScmpArchX32]
  | Aarch64 => [ScmpArchAarch64; ScmpArchArm]
  end.

Definition among (l : list str) (s : str) : bool := existsb (fun x => bool_decide (x = s)) l.

Definition block_applies (held : list str) (arch : str) (block : Value) : bool :=
  let inc := gate_of block "includes" in
  let exc := gate_of block "excludes" in
  if negb (bool_decide (gate_arches exc = [])) && among (gate_arches exc) arch then false
  else if existsb (among held) (gate_caps exc) then false
  else if negb (bool_decide (gate_arches inc = [])) && negb (among (gate_arches inc) arch) then false
  else if negb (forallb (among held) (gate_caps inc)) then false
  else true.

(** ** Profiles

    A [LinuxSeccomp] is the document it was parsed from, with the set of
    architectures; [schema] is whether the document parses as one. *)
Record LinuxSeccomp := {
  document : Value;
  architectures : option (list Arch)
}.

Definition retain_syscalls (keep : Value -> bool) (root : Value) : Value :=
  match root with
  | Value_Object ms =>
      match ms !! ("syscalls" : str) with
      | Some (Value_Array l) => Value_Object (<[("syscalls" : str) := Value_Array (List.filter keep l)]> ms)
      | _ => root
      end
  | _ => root
  end.

Section profiles.
Context (schema : Value -> bool).

Definition default_profile : option LinuxSeccomp :=
  if schema DEFAULT_PROFILE_JSON then Some {| document := DEFAULT_PROFILE_JSON; architectures := None |} else None.

Definition filtered_profile (caps : list Capability) (arch : Architecture) : option LinuxSeccomp :=
  let root := retain_syscalls (block_applies (held_caps caps) (moby_arch arch)) DEFAULT_PROFILE_JSON in
  if schema root then Some {| document := root; architectures := Some (seccomp_arches arch) |} else None.
End profiles.

(** ** What a profile allows *)

Definition blocks (v : Value) : list Value := default [] (get "syscalls" v ≫= value_array).
Definition names_of (b : Value) : list str := default [] (strings_of (get "names" b)).
Definition action_of (b : Value) : str := default [] (get "action" b ≫= value_str).
Definition unconditional (b : Value) : bool := match get "args" b with None => true | Some _ => false end.

(** Whether a block lets syscall [n] through whatever its arguments, or for some
    of them. *)
Definition allows (p : Value) (n : str) : bool :=
  existsb (fun b => bool_decide (action_of b = "SCMP_ACT_ALLOW") && among (names_of b) n && unconditional b) (blocks p).
Definition allows_some (p : Value) (n : str) : bool :=
  existsb (fun b => bool_decide (action_of b = "SCMP_ACT_ALLOW") && among (names_of b) n) (blocks p).

Lemma among_In l s : among l s = true <-> s ∈ l.
Proof.
  unfold among. rewrite existsb_exists. split.
  - intros (x & Hx & H). bools. subst. by apply list_elem_of_In.
  - intros H. exists s. split; [by apply list_elem_of_In|]. by apply bool_decide_true.
Qed.

Lemma block_applies_spec held arch b :
  block_applies held arch b = true <->
  (arch ∉ gate_arches (gate_of b "excludes"))
  /\ (forall c, c ∈ gate_caps (gate_of b "excludes") -> c ∉ held)
  /\ (gate_arches (gate_of b "includes") = [] \/ arch ∈ gate_arches (gate_of b "includes"))
  /\ (forall c, c ∈ gate_caps (gate_of b "includes") -> c ∈ held).
Proof.
  unfold block_applies. generalize (gate_of b "includes") as inc, (gate_of b "excludes") as exc. intros inc exc.
  assert (H1 : (negb (bool_decide (gate_arches exc = [])) && among (gate_arches exc) arch) = true
               <-> arch ∈ gate_arches exc).
  { rewrite andb_true_iff, among_In, negb_true_iff, bool_decide_eq_false. split; [tauto|].
    intros H. split; [|done]. intros E. by rewrite E in H; apply elem_of_nil in H. }
  assert (H2 : existsb (among held) (gate_caps exc) = true <-> exists c, c ∈ gate_caps exc /\ c ∈ held).
  { rewrite existsb_exists. split; intros (c & Hc & H); exists c; (split; [by apply list_elem_of_In|by apply among_In]). }
  assert (H3 : (negb (bool_decide (gate_arches inc = [])) && negb (among (gate_arches inc) arch)) = false
               <-> gate_arches inc = [] \/ arch ∈ gate_arches inc).
  { rewrite andb_false_iff, !negb_false_iff, bool_decide_eq_true, among_In. done. }
  assert (H4 : forallb (among held) (gate_caps inc) = true <-> forall c, c ∈ gate_caps inc -> c ∈ held).
  { rewrite forallb_forall. split; intros H c Hc; [apply among_In, H; by apply list_elem_of_In|].
    apply among_In, H. by apply list_elem_of_In. }
  destruct (_ && among (gate_arches exc) arch) eqn:E1; [split; [done|]; intros (H & _); by destruct H; apply H1|].
  destruct (existsb _ _) eqn:E2.
  { split; [done|]. intros (_ & H & _). destruct (proj1 H2 eq_refl) as (c & Hc & Hh). by destruct (H c Hc). }
  destruct (_ && negb (among (gate_arches inc) arch)) eqn:E3.
  { split; [done|]. intros (_ & _ & H & _). by apply H3 in H. }
  destruct (forallb _ _) eqn:E4; simpl.
  - split; [intros _|done]. split_and!; [intros H; by apply H1 in H| |by apply H3|by apply H4].
    intros c Hc Hh. assert (false = true) as [=]. apply H2. eauto.
  - split; [done|]. intros (_ & _ & _ & H). by apply H4 in H.
Qed.

Lemma blocks_retain keep ms l :
  ms !! ("syscalls" : str) = Some (Value_Array l) ->
  blocks (retain_syscalls keep (Value_Object ms)) = List.filter keep l.
Proof. intros H. unfold retain_syscalls, blocks. rewrite H. simpl. by rewrite lookup_insert_eq. Qed.

Lemma get_retain keep ms (key : str) :
  key <> ("syscalls" : str) -> get key (retain_syscalls keep (Value_Object ms)) = ms !! key.
Proof.
  intros Hk. unfold retain_syscalls. destruct (ms !! ("syscalls" : str)) as [[]|]; try done. simpl. by rewrite lookup_insert_ne.
Qed.

Lemma profile_members :
  exists ms, DEFAULT_PROFILE_JSON = Value_Object ms /\ ms !! ("syscalls" : str) = Some (Value_Array syscall_blocks)
    /\ ms !! ("defaultAction" : str) = Some (Value_String "SCMP_ACT_ERRNO").
Proof. eexists. split; [reflexivity|]. split; vm_compute; reflexivity. Qed.

#[local] Opaque syscall_blocks DEFAULT_PROFILE_JSON.

(** ** What the vendored profile withholds

    Computed from the profile: a rule that allows syscalls may require
    capabilities. *)
Definition allow_rules (n : str) : list Value :=
  List.filter (fun b => bool_decide (action_of b = "SCMP_ACT_ALLOW") && among (names_of b) n) syscall_blocks.
Definition needs_other (caps : list Capability) (b : Value) : bool :=
  negb (forallb (among (held_caps caps)) (gate_caps (gate_of b "includes"))).

(** Every rule for the syscall requires a capability that is not held; or every
    other rule has a condition on arguments. *)
Definition withheld (caps : list Capability) (n : str) : bool := forallb (needs_other caps) (allow_rules n).
Definition restricted (caps : list Capability) (n : str) : bool :=
  forallb (fun b => needs_other caps b || negb (unconditional b)) (allow_rules n).

(** A profile for a set of capabilities: what needs another one is refused
    whatever its arguments are, what is only allowed under a condition on
    arguments is not allowed without, and the rest is refused by default. *)
Record confined (caps : list Capability) (p : Value) : Prop := {
  cf_withheld : forall n, withheld caps n = true -> allows_some p n = false;
  cf_restricted : forall n, restricted caps n = true -> allows p n = false;
  cf_default : (get "defaultAction" p ≫= value_str) = Some ("SCMP_ACT_ERRNO" : str)
}.

Lemma filtered_blocks schema caps arch p :
  filtered_profile schema caps arch = Some p ->
  blocks (document p) = List.filter (block_applies (held_caps caps) (moby_arch arch)) syscall_blocks.
Proof.
  unfold filtered_profile. destruct profile_members as (ms & -> & Hm & _). destruct (schema _); [|done].
  intros [= <-]. by apply blocks_retain.
Qed.

(** What a filtered profile allows comes from a rule whose conditions hold. *)
Lemma filtered_allows schema caps arch q n :
  filtered_profile schema caps arch = Some q -> allows_some (document q) n = true <->
  exists b, b ∈ syscall_blocks /\ action_of b = "SCMP_ACT_ALLOW" /\ n ∈ names_of b
    /\ (moby_arch arch ∉ gate_arches (gate_of b "excludes"))
    /\ (forall c, c ∈ gate_caps (gate_of b "excludes") -> c ∉ held_caps caps)
    /\ (gate_arches (gate_of b "includes") = [] \/ moby_arch arch ∈ gate_arches (gate_of b "includes"))
    /\ (forall c, c ∈ gate_caps (gate_of b "includes") -> c ∈ held_caps caps).
Proof.
  intros Hq. unfold allows_some. rewrite (filtered_blocks _ _ _ _ Hq), existsb_exists. split.
  - intros (b & [Hb Ha]%filter_In & H). bools. exists b.
    apply block_applies_spec in Ha. split_and!; try tauto; [by apply list_elem_of_In|by apply among_In].
  - intros (b & Hb & Hact & Hn & Hg). exists b. split.
    + apply filter_In. split; [by apply list_elem_of_In|]. by apply block_applies_spec.
    + bools; [by apply bool_decide_true|by apply among_In].
Qed.

(** A rule that survives the filter requires no capability that is not held. *)
Lemma kept_rule caps arch b n :
  In b (List.filter (block_applies (held_caps caps) (moby_arch arch)) syscall_blocks) ->
  bool_decide (action_of b = "SCMP_ACT_ALLOW") && among (names_of b) n = true ->
  In b (allow_rules n) /\ needs_other caps b = false.
Proof.
  intros [Hb Ha]%filter_In Hn. split; [unfold allow_rules; by rewrite filter_In|].
  apply block_applies_spec in Ha as (_ & _ & _ & Hc). unfold needs_other. rewrite negb_false_iff, forallb_forall.
  intros c Hin. apply among_In, Hc. by apply list_elem_of_In.
Qed.

Lemma filtered_confined schema caps arch q : filtered_profile schema caps arch = Some q -> confined caps (document q).
Proof.
  intros Hq. pose proof (filtered_blocks _ _ _ _ Hq) as Hb. split.
  - intros n Hw. apply not_true_iff_false. unfold allows_some. rewrite Hb, existsb_exists. intros (b & Hin & Hn).
    destruct (kept_rule _ _ _ _ Hin Hn) as [Hr Ho]. unfold withheld in Hw. rewrite forallb_forall in Hw.
    specialize (Hw b Hr). congruence.
  - intros n Hw. apply not_true_iff_false. unfold allows. rewrite Hb, existsb_exists. intros (b & Hin & [Hn Hu]%andb_true_iff).
    destruct (kept_rule _ _ _ _ Hin Hn) as [Hr Ho]. unfold restricted in Hw. rewrite forallb_forall in Hw.
    specialize (Hw b Hr). cbv beta in Hw. rewrite Ho, Hu in Hw. discriminate Hw.
  - revert Hq. unfold filtered_profile. destruct profile_members as (ms & -> & Hm & Hd). destruct (schema _); [|done].
    intros E%(inj Some). rewrite <- E. cbn [document]. by rewrite get_retain, Hd by done.
Qed.

(** C30 (safety): The filter computed for a set of capabilities, on either
    architecture, keeps exactly the rules of the vendored profile whose conditions
    on capabilities and architecture hold.  So a syscall is refused whatever its
    arguments are when every rule that allows it requires a capability that is not
    held, or no rule names it; it is not allowed without a condition on arguments
    when its other rules all have one ([clone] without CAP_SYS_ADMIN); and the
    filter covers the compatibility architectures.  Which syscalls these are is
    read off the profile ([withheld], [restricted]): for the capabilities the engine
    grants see [withheld_syscalls]; [ptrace] and [process_vm_readv] are not among them,
    since a rule without a capability allows them. *)
Theorem filtered_profile_confines schema arch caps q :
  filtered_profile schema caps arch = Some q ->
     (forall n, allows_some (document q) n = true <->
       exists b, b ∈ syscall_blocks /\ action_of b = "SCMP_ACT_ALLOW" /\ n ∈ names_of b
         /\ (moby_arch arch ∉ gate_arches (gate_of b "excludes"))
         /\ (forall c, c ∈ gate_caps (gate_of b "excludes") -> c ∉ held_caps caps)
         /\ (gate_arches (gate_of b "includes") = [] \/ moby_arch arch ∈ gate_arches (gate_of b "includes"))
         /\ (forall c, c ∈ gate_caps (gate_of b "includes") -> c ∈ held_caps caps))
     /\ confined caps (document q) /\ architectures q = Some (seccomp_arches arch).
Proof.
  intros Hq. split; [intros n; by apply (filtered_allows schema)|]. split; [by eapply filtered_confined|].
  revert Hq. unfold filtered_profile. destruct (schema _); [|done]. by intros [= <-].
Qed.

Lemma filtered_profile_confines_witness :
  exists p, filtered_profile (fun _ => true) default_caps Aarch64 = Some p
    /\ allows_some (document p) "mount" = false /\ architectures p = Some [ScmpArchAarch64; ScmpArchArm].
Proof.
  eexists. split; [reflexivity|].
  match goal with |- allows_some (document ?q) _ = _ /\ _ =>
    destruct (filtered_profile_confines (fun _ => true) Aarch64 default_caps q eq_refl) as (_ & Hc & Ha) end.
  split; [|exact Ha]. apply (cf_withheld _ _ Hc). vm_compute. reflexivity.
Defined.

(** With the capabilities the engine grants. *)
Example withheld_syscalls :
  forallb (withheld default_caps) (bytes_of <$>
    ["mount"; "umount"; "umount2"; "unshare"; "setns"; "bpf"; "clone3"; "kexec_load"; "kexec_file_load"; "init_module";
     "finit_module"; "delete_module"; "reboot"; "open_by_handle_at"; "perf_event_open"; "fsopen"; "fsmount"; "move_mount";
     "open_tree"; "mount_setattr"; "pivot_root"; "swapon"; "iopl"; "ioperm"; "settimeofday"; "clock_settime";
     "sethostname"; "setdomainname"; "syslog"; "acct"; "quotactl"; "keyctl"; "add_key"; "request_key"; "userfaultfd";
     "mbind"; "vhangup"]%string) = true
  /\ restricted default_caps "clone" = true /\ withheld default_caps "clone" = false
  /\ existsb (withheld default_caps) (bytes_of <$> ["ptrace"; "process_vm_readv"; "read"]%string) = false.
Proof. vm_compute. split_and!; reflexivity. Qed.

(** The gates matter: read without them, the profile allows all of these. *)
Example gates_dropped : forallb (allows DEFAULT_PROFILE_JSON) (bytes_of <$> ["mount"; "unshare"; "setns"; "bpf"; "clone"]%string) = true.
Proof. vm_compute. reflexivity. Qed.

(** [ptrace] is in a block whose only condition is a kernel version. *)
Lemma ptrace_allowed arch p :
  filtered_profile (fun _ => true) default_caps arch = Some p -> allows (document p) "ptrace" = true.
Proof. intros [= <-]. destruct arch; vm_compute; reflexivity. Qed.
