(* ===== verification/Sandbox.v ===== *)
(** * Sandbox: what a container is started with
    (crates/umf-engine/src: subid.rs, env.rs, lsm.rs, bundle.rs
    [build_runtime_spec], run.rs, runtime.rs, backends/noop.rs).

    The runtime specification the engine writes for a container, the operations
    that change it before a step runs, and the parts it is made of.  What the
    functions read from the machine is a parameter, [Host]. *)

From stdpp Require Import gmap list.
From S2P Require Import Prelude RustStr RustStrFacts Target Layout BuildState Seccomp.

(** What is read from the machine. *)
Class Host := {
  env_var : str -> option str;
  read_to_string : str -> option str;
  path_exists : str -> bool;
  path_is_file : str -> bool;
  username_of : N -> option str;
  helpers_present : bool;
  seccomp_schema : Json.Value -> bool;
  get_default_maskedpaths : list str;
  get_default_readonly_paths : list str
}.

(** ** Environment lists *)

(** [e.starts_with("KEY=")]. *)
Definition has_key (key entry : str) : bool := starts_with (key ++ "=") entry.
(** [o.split('=').next()]. *)
Definition env_key (o : str) : str := default [] (head (split "=" o)).

(** Replace the first entry of the key, or append. *)
Fixpoint set_entry (key o : str) (out : list str) : list str :=
  match out with
  | [] => [o]
  | e :: out => if has_key key e then o :: out else e :: set_entry key o out
  end.
Definition merge_env (base overrides : list str) : list str :=
  fold_left (fun out o => set_entry (env_key o) o out) overrides base.

(** ** Subordinate ids *)

Record SubIdRange := {
  range_start : N;
  range_count : N
}.

Definition MapTriple : Type := N * N * N.

(** The two numbers of a line, [None] when there are not two. *)
Definition subid_numbers (parts : list str) : option (N * N) :=
  match parts with
  | a :: b :: _ =>
      start ← parse_unsigned u32_max (trim a);
      count ← parse_unsigned u32_max (trim b);
      Some (start, count)
  | _ => None
  end.

Fixpoint subid_lines (ls : list str) (username : option str) (id : N) : option SubIdRange :=
  match ls with
  | [] => None
  | line :: ls =>
      let line := trim line in
      if is_nil line || starts_with "#" line then subid_lines ls username id
      else match split ":" line with
           | [] => None
           | who :: parts =>
               '(start, count) ← subid_numbers parts;
               let matches := bool_decide (username = Some who)
                              || bool_decide (parse_unsigned u32_max who = Some id) in
               if matches && (0 <? count)%N then Some {| range_start := start; range_count := count |}
               else subid_lines ls username id
           end
  end.
Definition parse_subid_range (contents : str) (username : option str) (id : N) : option SubIdRange :=
  subid_lines (lines contents) username id.

Definition mapping_triples (euid egid : N) (sub_uid sub_gid : SubIdRange) : list MapTriple * list MapTriple :=
  ([(0, euid, 1); (1, range_start sub_uid, range_count sub_uid)]%N,
   [(0, egid, 1); (1, range_start sub_gid, range_count sub_gid)]%N).

Definition triple_args (t : MapTriple) : list str :=
  let '(container, host, size) := t in [to_decimal container; to_decimal host; to_decimal size].
(** A process id is positive. *)
Definition helper_args (pid : N) (triples : list MapTriple) : list str :=
  to_decimal pid :: concat (triple_args <$> triples).

Section host.
Context {H : Host}.

Definition read_subid_range (path : str) (username : option str) (id : N) : option SubIdRange :=
  contents ← read_to_string path; parse_subid_range contents username id.

Definition missing_delegation_error : EngineError := EngineError_Runtime
  "rootless build requires subordinate uid/gid delegation".

Definition resolve_ranges (host_uid host_gid : N) : result EngineError (SubIdRange * SubIdRange) :=
  if negb helpers_present then Err missing_delegation_error
  else
    let username := username_of host_uid in
    match read_subid_range "/etc/subuid" username host_uid, read_subid_range "/etc/subgid" username host_gid with
    | Some u, Some g => Ok (u, g)
    | _, _ => Err missing_delegation_error
    end.

(** ** Linux security modules *)

Definition APPARMOR_ENV : str := "UMF_APPARMOR_PROFILE".
Definition SELINUX_LABEL_ENV : str := "UMF_SELINUX_LABEL".
Definition SELINUX_MOUNT_LABEL_ENV : str := "UMF_SELINUX_MOUNT_LABEL".
Definition DEFAULT_APPARMOR_PROFILE : str := "umf-default".
Definition APPARMOR_PROFILES : str := "/sys/kernel/security/apparmor/profiles".
Definition SELINUX_ENFORCE : str := "/sys/fs/selinux/enforce".

Record LsmConfig := {
  apparmor_profile : option str;
  selinux_process_label : option str;
  selinux_mount_label : option str
}.

Definition resolve_apparmor (env : option str) (available : bool) (is_loaded : str -> bool) : option str :=
  let name := match env with
              | Some v =>
                  let v := trim v in
                  if bool_decide (v = []) || bool_decide (v = "unconfined") then None else Some v
              | None => Some DEFAULT_APPARMOR_PROFILE
              end in
  name ← name; if available && is_loaded name then Some name else None.

Definition resolve_selinux (env : option str) (enforcing : bool) : option str :=
  label ← env;
  let label := trim label in
  if enforcing && negb (is_nil label) then Some label else None.

Definition apparmor_available : bool := path_exists APPARMOR_PROFILES.
Definition apparmor_profile_loaded (name : str) : bool :=
  match read_to_string APPARMOR_PROFILES with
  | None => false
  | Some l => existsb (fun p => bool_decide (p = name)) (omap (fun l => head (split_whitespace l)) (lines l))
  end.
Definition selinux_enforcing : bool := bool_decide ((trim <$> read_to_string SELINUX_ENFORCE) = Some ("1" : str)).

Definition LsmConfig_detect : LsmConfig :=
  {| apparmor_profile := resolve_apparmor (env_var APPARMOR_ENV) apparmor_available apparmor_profile_loaded;
     selinux_process_label := resolve_selinux (env_var SELINUX_LABEL_ENV) selinux_enforcing;
     selinux_mount_label := resolve_selinux (env_var SELINUX_MOUNT_LABEL_ENV) selinux_enforcing |}.

(** ** The rootless context (rootless.rs) *)

Record RootlessContext := {
  entered_userns : bool;
  host_privileged : bool;
  ctx_uid : N;
  ctx_gid : N
}.

(** The identity of the process before any namespace is entered. *)
Record Identity := { euid : N; ruid : N; rgid : N }.

Definition in_initial_user_namespace : bool :=
  match read_to_string "/proc/self/uid_map" with
  | Some m =>
      match split_whitespace m with
      | a :: b :: c :: _ => bool_decide (a = "0") && bool_decide (b = "0") && bool_decide (c = "4294967295")
      | _ => false
      end
  | None => true
  end.

Definition derive_passive_context (i : Identity) : RootlessContext :=
  {| entered_userns := false;
     host_privileged := (euid i =? 0)%N && in_initial_user_namespace;
     ctx_uid := ruid i; ctx_gid := rgid i |}.

(** [enter]: [context] is the cell it sets once; [apply_maps] and [private_mounts]
    are the namespace system calls. *)
Definition enter (apply_maps : SubIdRange -> SubIdRange -> result EngineError unit)
    (private_mounts : result EngineError unit) (i : Identity) (context : option RootlessContext)
    : result EngineError RootlessContext * option RootlessContext :=
  match context with
  | Some ctx => (Ok ctx, context)
  | None =>
      let entered :=
        if (euid i =? 0)%N then
          let initial := in_initial_user_namespace in
          Ok {| entered_userns := negb initial; host_privileged := initial; ctx_uid := ruid i; ctx_gid := rgid i |}
        else
          '(sub_uid, sub_gid) ← resolve_ranges (ruid i) (rgid i);
          _ ← apply_maps sub_uid sub_gid;
          _ ← private_mounts;
          Ok {| entered_userns := true; host_privileged := false; ctx_uid := ruid i; ctx_gid := rgid i |} in
      match entered with
      | Ok ctx => (Ok ctx, Some ctx)
      | Err e => (Err e, None)
      end
  end.

Definition replace_byte (a b : ascii) (s : str) : str := (fun c => if Ascii.eqb c a then b else c) <$> s.

Definition cgroup_scope_path (ctx : RootlessContext) (container_id : str) : option str :=
  if host_privileged ctx then None else Some ("umf.slice:umf:" ++ replace_byte "-" "_" container_id).

(** ** The runtime specification: [oci_spec::runtime::Spec]

    The builders of [oci_spec] reject only a missing field, and none is
    missing. *)

Inductive LinuxNamespaceType := Pid | Network | Ipc | Uts | MountNs | Cgroup | User.
#[export] Instance LinuxNamespaceType_eq_dec : EqDecision LinuxNamespaceType.
Proof. solve_decision. Defined.

Record LinuxNamespace := { ns_typ : LinuxNamespaceType; ns_path : option str }.
Record LinuxIdMapping := { container_id : N; host_id : N; map_size : N }.
Record Capabilities := {
  bounding : list Capability;
  effective : list Capability;
  inheritable : list Capability;
  permitted : list Capability;
  ambient : list Capability
}.
Record UserSpec := { user_uid : N; user_gid : N }.
Record Process := {
  terminal : bool;
  p_user : UserSpec;
  p_args : list str;
  p_env : list str;
  p_cwd : str;
  capabilities : option Capabilities;
  no_new_privileges : option bool;
  p_apparmor : option str;
  p_selinux : option str
}.

Record Mount := { m_destination : str; m_typ : str; m_source : str; m_options : list str }.
Record Linux := {
  namespaces : list LinuxNamespace;
  uid_mappings : option (list LinuxIdMapping);
  gid_mappings : option (list LinuxIdMapping);
  pids_limit : option Z;
  seccomp : option LinuxSeccomp;
  mount_label : option str;
  masked_paths : list str;
  readonly_paths : list str;
  cgroups_path : option str
}.
Record Root := { root_path : str; root_readonly : bool }.
Record Spec := {
  spec_version : str;
  spec_hostname : str;
  spec_root : Root;
  spec_process : option Process;
  spec_mounts : list Mount;
  spec_linux : option Linux
}.

Inductive LayerStrategy := Merge | Erofs.
#[export] Instance LayerStrategy_eq_dec : EqDecision LayerStrategy.
Proof. solve_decision. Defined.

Definition LayerStrategy_from_env : LayerStrategy :=
  match env_var "UMF_LAYER_CACHE" with
  | Some v => if bool_decide (trim v = "unpack") then Merge else Erofs
  | None => Erofs
  end.

Record BundleOptions := {
  opt_hostname : str;
  rootless : bool;
  host_uid : N;
  host_gid : N;
  opt_host_privileged : bool;
  layer_strategy : LayerStrategy;
  opt_architecture : Architecture
}.

Definition BundleOptions_default (ctx : RootlessContext) (arch : Architecture) : BundleOptions :=
  {| opt_hostname := "umf-build";
     rootless := negb (host_privileged ctx) && negb (entered_userns ctx);
     host_uid := ctx_uid ctx; host_gid := ctx_gid ctx; opt_host_privileged := host_privileged ctx;
     layer_strategy := Merge; opt_architecture := arch |}.

Definition BundleOptions_for_host (ctx : RootlessContext) (hostname : str) (strategy : LayerStrategy) (arch : Architecture)
    : BundleOptions :=
  let d := BundleOptions_default ctx arch in
  {| opt_hostname := hostname; rootless := rootless d; host_uid := host_uid d; host_gid := host_gid d;
     opt_host_privileged := opt_host_privileged d; layer_strategy := strategy; opt_architecture := arch |}.

(** What is read of an image's configuration. *)
Record ImageConfigDoc := {
  cfg_env : list str;
  cfg_entrypoint : list str;
  cfg_cmd : list str;
  cfg_working_dir : str;
  cfg_diff_ids : list str
}.
Definition ImageConfigDoc_default : ImageConfigDoc :=
  {| cfg_env := []; cfg_entrypoint := []; cfg_cmd := []; cfg_working_dir := []; cfg_diff_ids := [] |}.

(** [serde_json::from_slice::<ImageConfigDoc>]: an absent field has its default,
    a present one must have its type. *)
Definition string_field (ms : gmap str Json.Value) (key : str) : option str :=
  match ms !! key with None => Some [] | Some v => Json.value_str v end.
Definition strings_field (ms : gmap str Json.Value) (key : str) : option (list str) := strings_of (ms !! key).
Definition section_field (ms : gmap str Json.Value) (key : str) : option (gmap str Json.Value) :=
  match ms !! key with None => Some ∅ | Some v => Json.value_object v end.
Definition ImageConfigDoc_from_value (v : Json.Value) : option ImageConfigDoc :=
  ms ← Json.value_object v;
  config ← section_field ms "config";
  rootfs ← section_field ms "rootfs";
  env ← strings_field config "Env";
  entrypoint ← strings_field config "Entrypoint";
  cmd ← strings_field config "Cmd";
  working_dir ← string_field config "WorkingDir";
  diff_ids ← strings_field rootfs "diff_ids";
  Some {| cfg_env := env; cfg_entrypoint := entrypoint; cfg_cmd := cmd; cfg_working_dir := working_dir;
          cfg_diff_ids := diff_ids |}.

Definition rootless_id_mappings (uid gid : N) : result EngineError (list LinuxIdMapping * list LinuxIdMapping) :=
  '(sub_uid, sub_gid) ← resolve_ranges uid gid;
  let id_map c h n := {| container_id := c; host_id := h; map_size := n |} in
  Ok ([id_map 0 uid 1; id_map 1 (range_start sub_uid) (range_count sub_uid)]%N,
      [id_map 0 gid 1; id_map 1 (range_start sub_gid) (range_count sub_gid)]%N).

Definition mount (destination typ source : str) (options : list string) : Mount :=
  {| m_destination := destination; m_typ := typ; m_source := source; m_options := bytes_of <$> options |}.

Definition host_resolv_conf : option str :=
  List.find path_is_file ["/run/systemd/resolve/resolv.conf" : str; "/etc/resolv.conf" : str].

Definition standard_mounts : list Mount :=
  [mount "/proc" "proc" "proc" [];
   mount "/dev" "tmpfs" "tmpfs" ["nosuid"; "strictatime"; "mode=755"; "size=65536k"]%string;
   mount "/dev/pts" "devpts" "devpts" ["nosuid"; "noexec"; "newinstance"; "ptmxmode=0666"; "mode=0620"]%string;
   mount "/dev/shm" "tmpfs" "shm" ["nosuid"; "noexec"; "nodev"; "mode=1777"; "size=65536k"]%string;
   mount "/dev/mqueue" "mqueue" "mqueue" ["nosuid"; "noexec"; "nodev"]%string;
   mount "/sys" "sysfs" "sysfs" ["nosuid"; "noexec"; "nodev"; "ro"]%string]
  ++ match host_resolv_conf with
     | Some src => [mount "/etc/resolv.conf" "bind" src ["bind"; "ro"]%string]
     | None => []
     end.

(** [build_run_resources]. *)
Definition run_pids_limit : Z := 4096.

Definition namespace (typ : LinuxNamespaceType) : LinuxNamespace := {| ns_typ := typ; ns_path := None |}.
Definition DEFAULT_PATH : str := "PATH=/usr/local/sbin:/usr/local/bin:/usr/sbin:/usr/bin:/sbin:/bin".

Definition build_runtime_spec (rootfs : str) (image_config : ImageConfigDoc) (options : BundleOptions)
    : result EngineError Spec :=
  let env := if is_nil (cfg_env image_config) then [DEFAULT_PATH] else cfg_env image_config in
  let cwd := if is_nil (cfg_working_dir image_config) then "/" : str else cfg_working_dir image_config in
  let args := if is_nil (cfg_entrypoint image_config) && is_nil (cfg_cmd image_config) then ["/bin/sh" : str]
              else cfg_entrypoint image_config ++ cfg_cmd image_config in
  seccomp_profile ← ok_or (filtered_profile seccomp_schema default_caps (opt_architecture options))
                      (EngineError_Runtime "vendored default seccomp profile failed to parse");
  let caps := {| bounding := default_caps; effective := default_caps; inheritable := default_caps;
                 permitted := default_caps; ambient := default_caps |} in
  let lsm := LsmConfig_detect in
  let process := {| terminal := false; p_user := {| user_uid := 0; user_gid := 0 |}; p_args := args; p_env := env;
                    p_cwd := cwd; capabilities := Some caps; no_new_privileges := Some true;
                    p_apparmor := apparmor_profile lsm; p_selinux := selinux_process_label lsm |} in
  let base := namespace <$> [Pid; Network; Ipc; Uts; MountNs; Cgroup] in
  '(nss, uids, gids) ←
    (if rootless options then
       '(u, g) ← rootless_id_mappings (host_uid options) (host_gid options);
       Ok (base ++ [namespace User], Some u, Some g)
     else Ok (base, None, None));
  Ok {| spec_version := "1.0.2"; spec_hostname := opt_hostname options;
        spec_root := {| root_path := rootfs; root_readonly := false |};
        spec_process := Some process; spec_mounts := standard_mounts;
        spec_linux := Some {| namespaces := nss; uid_mappings := uids; gid_mappings := gids;
                              pids_limit := Some run_pids_limit; seccomp := Some seccomp_profile;
                              mount_label := selinux_mount_label lsm; masked_paths := get_default_maskedpaths;
                              readonly_paths := get_default_readonly_paths; cgroups_path := None |} |}.

(** ** Changes to a specification *)

Definition with_process (p : Process) (s : Spec) : Spec :=
  {| spec_version := spec_version s; spec_hostname := spec_hostname s; spec_root := spec_root s;
     spec_process := Some p; spec_mounts := spec_mounts s; spec_linux := spec_linux s |}.
Definition with_mounts (m : list Mount) (s : Spec) : Spec :=
  {| spec_version := spec_version s; spec_hostname := spec_hostname s; spec_root := spec_root s;
     spec_process := spec_process s; spec_mounts := m; spec_linux := spec_linux s |}.
Definition with_linux (l : option Linux) (s : Spec) : Spec :=
  {| spec_version := spec_version s; spec_hostname := spec_hostname s; spec_root := spec_root s;
     spec_process := spec_process s; spec_mounts := spec_mounts s; spec_linux := l |}.
Definition set_root_path (path : str) (s : Spec) : Spec :=
  {| spec_version := spec_version s; spec_hostname := spec_hostname s;
     spec_root := {| root_path := path; root_readonly := false |};
     spec_process := spec_process s; spec_mounts := spec_mounts s; spec_linux := spec_linux s |}.

Definition bind_mount (bm : BindMount) : Mount :=
  {| m_destination := container_path bm; m_typ := "bind"; m_source := host_path bm;
     m_options := ["bind" : str; "rprivate" : str; if read_only bm then "ro" : str else "rw" : str] |}.

Definition parse_user_spec (s : str) : result EngineError UserSpec :=
  let '(uid_str, gid_str) := default (s, "0" : str) (split_once ":" s) in
  uid ← ok_or (parse_unsigned u32_max uid_str) (EngineError_Runtime ("invalid uid `" ++ uid_str ++ "`"));
  gid ← ok_or (parse_unsigned u32_max gid_str) (EngineError_Runtime ("invalid gid `" ++ gid_str ++ "`"));
  Ok {| user_uid := uid; user_gid := gid |}.

(** [Process::default()] of [oci_spec], used when a specification has no
    process. *)
Context (Process_default : Process).

Definition set_cgroups_path (scope : str) (s : Spec) : Spec :=
  with_linux ((fun l => {| namespaces := namespaces l; uid_mappings := uid_mappings l; gid_mappings := gid_mappings l;
                           pids_limit := pids_limit l; seccomp := seccomp l; mount_label := mount_label l;
                           masked_paths := masked_paths l; readonly_paths := readonly_paths l;
                           cgroups_path := Some scope |}) <$> spec_linux s) s.

Definition apply_run_spec_to_bundle (ctx : RootlessContext) (run_spec : RunSpec) (s : Spec) : result EngineError Spec :=
  let process := default Process_default (spec_process s) in
  user ← match spec_user run_spec with
         | Some u => parse_user_spec u
         | None => Ok (p_user process)
         end;
  let new_process :=
    {| terminal := terminal process; p_user := user; p_args := spec_argv run_spec;
       p_env := merge_env (p_env process) (spec_env run_spec);
       p_cwd := default (p_cwd process) (spec_working_dir run_spec);
       capabilities := capabilities process; no_new_privileges := no_new_privileges process;
       p_apparmor := p_apparmor process; p_selinux := p_selinux process |} in
  let s := with_process new_process s in
  let s := if is_nil (spec_bind_mounts run_spec) then s
           else with_mounts (spec_mounts s ++ (bind_mount <$> spec_bind_mounts run_spec)) s in
  Ok match cgroup_scope_path ctx (spec_id run_spec) with Some scope => set_cgroups_path scope s | None => s end.

Fixpoint set_path_of_first (path : str) (l : list LinuxNamespace) : option (list LinuxNamespace) :=
  match l with
  | [] => None
  | n :: l =>
      if bool_decide (ns_typ n = Network) then Some ({| ns_typ := Network; ns_path := Some path |} :: l)
      else (fun l => n :: l) <$> set_path_of_first path l
  end.

Definition set_network_namespace_path (path : str) (s : Spec) : result EngineError Spec :=
  let missing := EngineError_Runtime "spec has no network namespace to join" in
  l ← ok_or (spec_linux s) missing;
  nss ← ok_or (set_path_of_first path (namespaces l)) missing;
  Ok (with_linux (Some {| namespaces := nss; uid_mappings := uid_mappings l; gid_mappings := gid_mappings l;
                          pids_limit := pids_limit l; seccomp := seccomp l; mount_label := mount_label l;
                          masked_paths := masked_paths l; readonly_paths := readonly_paths l;
                          cgroups_path := cgroups_path l |}) s).

(** *** [umf run] *)

Record RunOptions := {
  entrypoint_override : option (list str);
  cmd_override : option (list str);
  env_overrides : list str;
  interactive : bool;
  opt_bind_mounts : list BindMount;
  keep_bundle : bool
}.

Definition compose_argv (image_entrypoint image_cmd : list str) (entrypoint_override cmd_override : option (list str))
    : list str :=
  match entrypoint_override, cmd_override with
  | Some ep, Some cmd => ep ++ cmd
  | Some ep, None => ep
  | None, Some cmd => image_entrypoint ++ cmd
  | None, None => image_entrypoint ++ image_cmd
  end.

Definition apply_options_to_bundle (image_entrypoint image_cmd : list str) (options : RunOptions) (s : Spec)
    : result EngineError Spec :=
  let argv := compose_argv image_entrypoint image_cmd (entrypoint_override options) (cmd_override options) in
  if is_nil argv then Err (EngineError_Runtime "image has no ENTRYPOINT or CMD, and no override was supplied")
  else
    process ← ok_or (spec_process s) (EngineError_Runtime "bundle spec has no process section (bundle prep is broken)");
    let s := with_process
      {| terminal := interactive options; p_user := p_user process; p_args := argv;
         p_env := merge_env (p_env process) (env_overrides options);
         p_cwd := p_cwd process; capabilities := capabilities process;
         no_new_privileges := no_new_privileges process; p_apparmor := p_apparmor process;
         p_selinux := p_selinux process |} s in
    Ok (if is_nil (opt_bind_mounts options) then s
        else with_mounts (spec_mounts s ++ (bind_mount <$> opt_bind_mounts options)) s).

(** [Path::join] of a relative path. *)
Definition path_join (base rel : str) : str :=
  if is_nil base then rel else if ends_with_byte "/" base then base ++ rel else base ++ "/" ++ rel.
Definition default_state_root_for (xdg_runtime_dir : option str) : str :=
  path_join (path_join (default ("/run" : str) xdg_runtime_dir) "umf-engine") "run".
Definition generate_container_id (pid nanos : N) : str := "umf-run-" ++ to_decimal pid ++ "-" ++ to_decimal nanos.

End host.

(** ** Environment lists are maps *)

(** The value of a variable: the first entry that has the key. *)
Definition getenv (key : str) (env : list str) : option str :=
  drop (S (length key)) <$> List.find (has_key key) env.

Definition plain_key (key : str) : Prop := "="%char ∉ key.

Lemma strip_prefix_Some p s r : strip_prefix p s = Some r <-> s = p ++ r.
Proof.
  revert s. induction p as [|a p IH]; intros s; simpl; [naive_solver|].
  destruct s as [|b s]; [by split|]. destruct (Ascii.eqb a b) eqn:E.
  - apply Ascii.eqb_eq in E as ->. rewrite IH. naive_solver.
  - split; [done|]. intros [= -> _]. by rewrite Ascii.eqb_refl in E.
Qed.

Lemma has_key_spec key e : has_key key e = true <-> exists v, e = key ++ "="%char :: v.
Proof.
  unfold has_key, starts_with. destruct (strip_prefix (key ++ "=") e) as [r|] eqn:E.
  - apply strip_prefix_Some in E as ->. split; [|done]. intros _. exists r. by rewrite <- (assoc app).
  - split; [done|]. intros [v ->]. assert (H : strip_prefix (key ++ "=") (key ++ "="%char :: v) = Some v).
    { apply strip_prefix_Some. by rewrite <- (assoc app). }
    congruence.
Qed.

Lemma key_unique k k' v v' : plain_key k -> plain_key k' -> k ++ "="%char :: v = k' ++ "="%char :: v' -> k = k' /\ v = v'.
Proof.
  revert k'. induction k as [|a k IH]; intros [|b k'] Hk Hk' H; simplify_eq/=; [done| | |].
  - exfalso. apply Hk'. by left.
  - exfalso. apply Hk. by left.
  - destruct (IH k') as [-> ->]; [intros ?; apply Hk; by right|intros ?; apply Hk'; by right|done|done].
Qed.

Lemma env_key_app k v : plain_key k -> env_key (k ++ "="%char :: v) = k.
Proof. intros H. unfold env_key. by rewrite split_app. Qed.

Lemma entry_split o : "="%char ∈ o -> exists k v, o = k ++ "="%char :: v /\ plain_key k.
Proof. intros (l1 & l2 & -> & H)%list_elem_of_split_l. by exists l1, l2. Qed.

Lemma has_key_app key k v : plain_key key -> plain_key k -> has_key key (k ++ "="%char :: v) = bool_decide (k = key).
Proof.
  intros H1 H2. apply eq_bool_prop_intro. rewrite !Is_true_true, has_key_spec, bool_decide_eq_true. split.
  - intros [v' [-> _]%key_unique]; done.
  - intros ->. by exists v.
Qed.

Lemma drop_key k v : drop (S (length k)) (k ++ "="%char :: v) = v.
Proof. change (k ++ "="%char :: v) with (k ++ ["="%char] ++ v). rewrite (assoc app). apply drop_app_length'. rewrite length_app. simpl. lia. Qed.

(** One override sets its own variable and no other. *)
Lemma getenv_set_entry key k v out :
  plain_key key -> plain_key k ->
  getenv key (set_entry k (k ++ "="%char :: v) out) = if bool_decide (k = key) then Some v else getenv key out.
Proof.
  intros H1 H2. unfold getenv. induction out as [|e out IH]; simpl.
  - rewrite has_key_app by done. case_bool_decide as E; [|done]. simpl. subst. by rewrite drop_key.
  - destruct (has_key k e) eqn:Ek; simpl.
    + rewrite has_key_app by done. case_bool_decide as E; [simpl; subst; by rewrite drop_key|].
      apply has_key_spec in Ek as [v' ->]. rewrite has_key_app by done. by rewrite bool_decide_false.
    + destruct (has_key key e) eqn:Ek'; [|by apply IH]. case_bool_decide as E; [|done]. subst. congruence.
Qed.

(** The last override of a variable. *)
Definition last_override (key : str) (overrides : list str) : option str :=
  fold_left (fun acc o => if bool_decide (env_key o = key) then Some (drop (S (length key)) o) else acc) overrides None.

Lemma last_override_from key overrides acc :
  fold_left (fun acc o => if bool_decide (env_key o = key) then Some (drop (S (length key)) o) else acc) overrides acc
  = match last_override key overrides with Some v => Some v | None => acc end.
Proof.
  unfold last_override. revert acc. induction overrides as [|o os IH]; intros acc; simpl; [done|].
  rewrite IH. destruct (bool_decide (env_key o = key)); [|done]. rewrite (IH (Some _)).
  by destruct (fold_left _ os None).
Qed.

(** Merging environment lists is overriding variables: after
    [merge_env], every variable has the value of its last override if it has
    one, and the value it had before otherwise, provided the overrides are
    assignments. *)
Theorem merge_env_lookup key base overrides :
  plain_key key -> Forall (fun o => "="%char ∈ o) overrides ->
  getenv key (merge_env base overrides) =
    match last_override key overrides with Some v => Some v | None => getenv key base end.
Proof.
  intros Hk Ho. unfold merge_env. revert base. induction Ho as [|o os Hin _ IH]; intros base; [done|].
  simpl. rewrite IH. destruct (entry_split o Hin) as (k & v & -> & Hp). rewrite env_key_app by done.
  rewrite getenv_set_entry by done. unfold last_override at 2. simpl. rewrite env_key_app, last_override_from by done.
  destruct (last_override key os); [done|]. case_bool_decide as E; [|done]. subst. by rewrite drop_key.
Qed.

Lemma merge_env_lookup_witness :
  getenv "PATH" (merge_env ["PATH=/bin" : str; "A=1" : str] ["PATH=/x" : str; "B=2" : str; "PATH=/y" : str]) = Some ("/y" : str).
Proof.
  rewrite (merge_env_lookup "PATH"); [reflexivity| |].
  - vm_compute. intros H. repeat (apply elem_of_cons in H as [H|H]; [discriminate|]). by apply elem_of_nil in H.
  - repeat constructor; apply list_elem_of_In; vm_compute; tauto.
Defined.

(** An override without an assignment replaces the variable it names. *)
Example bare_override : merge_env ["PATH=/bin" : str; "A=1" : str] ["PATH" : str] = ["PATH" : str; "A=1" : str].
Proof. reflexivity. Qed.

(** ** The confinement of a container *)

Section confinement.
Context {H : Host} (Process_default : Process).

Definition granted : Capabilities :=
  {| bounding := default_caps; effective := default_caps; inheritable := default_caps; permitted := default_caps;
     ambient := default_caps |}.

(** The namespaces of a container: new ones, but for a network namespace
    that is joined under a path. *)
Definition own_namespaces (rootless : bool) (net : option str) : list LinuxNamespace :=
  [namespace Pid; {| ns_typ := Network; ns_path := net |}; namespace Ipc; namespace Uts; namespace MountNs; namespace Cgroup]
  ++ (if rootless then [namespace User] else []).

(** What every specification the engine hands to the runtime has, where [net] is
    the network namespace joined, if any, and [binds] are the bind mounts asked
    for. *)
Record sandboxed (options : BundleOptions) (net : option str) (binds : list BindMount) (s : Spec) : Prop := {
  sb_process : exists p, spec_process s = Some p
    /\ capabilities p = Some granted /\ no_new_privileges p = Some true
    /\ p_apparmor p = apparmor_profile LsmConfig_detect
    /\ p_selinux p = selinux_process_label LsmConfig_detect;
  sb_linux : exists l, spec_linux s = Some l
    /\ namespaces l = own_namespaces (rootless options) net
    /\ (is_Some (uid_mappings l) <-> rootless options = true) /\ (is_Some (gid_mappings l) <-> rootless options = true)
    /\ pids_limit l = Some run_pids_limit
    /\ (exists f, seccomp l = Some f /\ confined default_caps (document f)
                  /\ architectures f = Some (seccomp_arches (opt_architecture options)))
    /\ mount_label l = selinux_mount_label LsmConfig_detect
    /\ masked_paths l = get_default_maskedpaths /\ readonly_paths l = get_default_readonly_paths;
  sb_mounts : spec_mounts s = standard_mounts ++ (bind_mount <$> binds)
}.

Lemma build_runtime_spec_sandboxed rootfs cfg options s :
  build_runtime_spec rootfs cfg options = Ok s -> sandboxed options None [] s.
Proof.
  unfold build_runtime_spec. intros E. apply bind_Ok in E as (f & Ef & E).
  destruct (filtered_profile _ _ _) as [f'|] eqn:Ef' in Ef; [|discriminate]. injection Ef as <-. rename f' into f, Ef' into Ef.
  pose proof (filtered_confined _ _ _ _ Ef) as Hc.
  assert (Ha : architectures f = Some (seccomp_arches (opt_architecture options)))
    by (unfold filtered_profile in Ef; destruct (seccomp_schema _); [|discriminate]; by injection Ef as <-).
  apply bind_Ok in E as ([[nss uids] gids] & En & E). injection E as <-.
  split; cbn [spec_process spec_linux spec_mounts].
  - eexists. split; [reflexivity|]. done.
  - eexists. split; [reflexivity|]. cbn [namespaces uid_mappings gid_mappings pids_limit seccomp mount_label masked_paths readonly_paths].
    unfold own_namespaces. destruct (rootless options).
    + apply bind_Ok in En as ([u g] & _ & [= <- <- <-]). split_and!; try done; try (split; [done|by eexists]). eauto.
    + injection En as <- <- <-. split_and!; try done; try (split; [by intros []|done]). eauto.
  - by rewrite app_nil_r.
Qed.

(** The changes made to a specification before a container starts. *)
Inductive SpecChange :=
| SetRootPath (path : str)
| RunStep (ctx : RootlessContext) (run_spec : RunSpec)
| RunWith (image_entrypoint image_cmd : list str) (options : RunOptions)
| JoinNetwork (path : str)
| CgroupScope (scope : str).

Definition apply_change (c : SpecChange) (s : Spec) : result EngineError Spec :=
  match c with
  | SetRootPath path => Ok (set_root_path path s)
  | RunStep ctx run_spec => apply_run_spec_to_bundle Process_default ctx run_spec s
  | RunWith ep cmd options => apply_options_to_bundle ep cmd options s
  | JoinNetwork path => set_network_namespace_path path s
  | CgroupScope scope => Ok (set_cgroups_path scope s)
  end.

Fixpoint apply_changes (cs : list SpecChange) (s : Spec) : result EngineError Spec :=
  match cs with
  | [] => Ok s
  | c :: cs => s ← apply_change c s; apply_changes cs s
  end.

(** The network namespace and the bind mounts after a change. *)
Definition joins (c : SpecChange) (net : option str) : option str :=
  match c with JoinNetwork path => Some path | _ => net end.
Definition binds_of (c : SpecChange) : list BindMount :=
  match c with
  | RunStep _ run_spec => spec_bind_mounts run_spec
  | RunWith _ _ options => opt_bind_mounts options
  | _ => []
  end.
Definition joined (cs : list SpecChange) (net : option str) : option str := fold_left (fun net c => joins c net) cs net.
Definition asked_binds (cs : list SpecChange) : list BindMount := concat (binds_of <$> cs).

Lemma set_cgroups_path_sandboxed options net binds scope s :
  sandboxed options net binds s -> sandboxed options net binds (set_cgroups_path scope s).
Proof.
  intros [Hp (l & El & Hl) Hm]. split; [done| |done]. unfold set_cgroups_path. cbn [spec_linux with_linux].
  rewrite El. eexists. split; [reflexivity|]. exact Hl.
Qed.

Lemma bind_mounts_sandboxed options net binds s bms :
  sandboxed options net binds s ->
  sandboxed options net (binds ++ bms) (if is_nil bms then s else with_mounts (spec_mounts s ++ (bind_mount <$> bms)) s).
Proof.
  intros [Hp Hl Em]. destruct bms as [|bm bms]; [rewrite app_nil_r; by split|]. split; [done|done|].
  cbn [spec_mounts with_mounts is_nil]. by rewrite Em, fmap_app, (assoc app).
Qed.

(** A process that keeps the confinement of the one it replaces. *)
Definition same_confinement (p q : Process) : Prop :=
  capabilities q = capabilities p /\ no_new_privileges q = no_new_privileges p
  /\ p_apparmor q = p_apparmor p /\ p_selinux q = p_selinux p.

Lemma with_process_sandboxed options net binds s p q :
  sandboxed options net binds s -> spec_process s = Some p -> same_confinement p q ->
  sandboxed options net binds (with_process q s).
Proof.
  intros [(p' & Ep & Hp) Hl Hm] Eq (H1 & H2 & H3 & H4). split; [|done|done].
  exists q. split; [done|]. assert (p' = p) as -> by congruence. by rewrite H1, H2, H3, H4.
Qed.

Lemma set_network_sandboxed options net binds path s s' :
  sandboxed options net binds s -> set_network_namespace_path path s = Ok s' -> sandboxed options (Some path) binds s'.
Proof.
  intros [Hp (l & El & Hn & Hl) Hm]. unfold set_network_namespace_path. rewrite El. cbn [ok_or mbind result_bind].
  rewrite Hn. unfold own_namespaces. cbn [app set_path_of_first ns_typ namespace]. rewrite !bool_decide_false by done.
  rewrite bool_decide_true by done. cbn [fmap option_fmap option_map ok_or mbind result_bind]. intros [= <-].
  split; [done| |done]. eexists. split; [reflexivity|]. split; [done|exact Hl].
Qed.

Lemma apply_change_sandboxed options net binds c s s' :
  sandboxed options net binds s -> apply_change c s = Ok s' -> sandboxed options (joins c net) (binds ++ binds_of c) s'.
Proof.
  intros Hs E. destruct c as [path|ctx rs|ep cmd ro|path|scope]; cbn [apply_change joins binds_of] in *.
  - injection E as <-. rewrite app_nil_r. by destruct Hs.
  - unfold apply_run_spec_to_bundle in E. destruct (sb_process _ _ _ _ Hs) as (p & Ep & _). rewrite Ep in E.
    cbn [default from_option id] in E. apply bind_Ok in E as (user & _ & [= <-]).
    destruct (cgroup_scope_path ctx (spec_id rs)); [apply set_cgroups_path_sandboxed|];
      match goal with |- context [with_process ?q s] => apply (bind_mounts_sandboxed _ _ _ (with_process q s)) end;
      by eapply with_process_sandboxed.
  - unfold apply_options_to_bundle in E. destruct (is_nil (compose_argv _ _ _ _)); [discriminate|].
    destruct (sb_process _ _ _ _ Hs) as (p & Ep & _). rewrite Ep in E. cbn [ok_or mbind result_bind] in E. injection E as <-.
    match goal with |- context [with_process ?q s] => apply (bind_mounts_sandboxed _ _ _ (with_process q s)) end.
    by eapply with_process_sandboxed.
  - rewrite app_nil_r. by eapply set_network_sandboxed.
  - injection E as <-. rewrite app_nil_r. by apply set_cgroups_path_sandboxed.
Qed.

Lemma apply_changes_sandboxed options changes net binds s s' :
  sandboxed options net binds s -> apply_changes changes s = Ok s' ->
  sandboxed options (joined changes net) (binds ++ asked_binds changes) s'.
Proof.
  revert net binds s. induction changes as [|c cs IH]; intros net binds s Hs E; simpl in E.
  - injection E as <-. by rewrite app_nil_r.
  - apply bind_Ok in E as (s1 & E1 & E). unfold asked_binds. rewrite fmap_cons. simpl. rewrite (assoc app).
    apply (IH _ _ s1); [by eapply apply_change_sandboxed|done].
Qed.
End confinement.

(** C19 (type): Every specification a container is started from is confined: it
    grants exactly the default capabilities in all five sets, forbids gaining
    privileges, has new namespaces of the six kinds (and a new user namespace with
    both id maps when rootless), of which only the network namespace may be one
    that is joined, under the path last given to [set_network_namespace_path]; it has
    the process limit, the filtered syscall profile, the masked and read-only
    paths, the confinement of the host's security modules, and as mounts the
    standard ones followed by exactly the bind mounts asked for.  The engine's
    specification of an image has this form, and every sequence of the changes
    made for a step or a run keeps it, whatever the image, the step and the
    caller's options say. *)
Theorem container_sandboxed {H : Host} (Process_default : Process) rootfs cfg options changes s s' :
  build_runtime_spec rootfs cfg options = Ok s -> apply_changes Process_default changes s = Ok s' ->
  sandboxed options (joined changes None) (asked_binds changes) s'.
Proof. intros Hs%build_runtime_spec_sandboxed. exact (apply_changes_sandboxed _ _ _ None [] s s' Hs). Qed.

(** A rootless host with a delegation and a loaded profile. *)
Module SandboxExample.
#[export] Instance host : Host := {|
  env_var := fun _ => None;
  read_to_string := fun p => if bool_decide (p = APPARMOR_PROFILES) then Some ("umf-default (enforce)" : str)
                             else if bool_decide (p = "/etc/subuid") then Some ("u:100000:65536" : str)
                             else if bool_decide (p = "/etc/subgid") then Some ("u:200000:65536" : str) else None;
  path_exists := fun p => bool_decide (p = APPARMOR_PROFILES);
  path_is_file := fun _ => false;
  username_of := fun _ => Some ("u" : str);
  helpers_present := true;
  seccomp_schema := fun _ => true;
  get_default_maskedpaths := ["/proc/kcore" : str];
  get_default_readonly_paths := ["/proc/sys" : str]
|}.
Definition options : BundleOptions :=
  {| opt_hostname := "h"; rootless := true; host_uid := 1000; host_gid := 1000; opt_host_privileged := false;
     layer_strategy := Merge; opt_architecture := X86_64 |}.
Definition ctx : RootlessContext := {| entered_userns := false; host_privileged := false; ctx_uid := 1000; ctx_gid := 1000 |}.
Definition example_step : RunSpec :=
  {| spec_id := "s-1"; spec_argv := ["true" : str]; spec_env := []; spec_working_dir := None; spec_user := Some ("7:8" : str);
     spec_bind_mounts := [{| host_path := "/s"; container_path := "/run/s"; read_only := true |}] |}.
Definition no_process : Process :=
  {| terminal := false; p_user := {| user_uid := 0; user_gid := 0 |}; p_args := []; p_env := []; p_cwd := [];
     capabilities := None; no_new_privileges := None; p_apparmor := None; p_selinux := None |}.
Definition changes : list SpecChange := [SetRootPath "/merged"; RunStep ctx example_step; JoinNetwork "/ns"].

Definition built : option Spec :=
  match build_runtime_spec "/rootfs" ImageConfigDoc_default options with
  | Ok s => match apply_changes no_process changes s with Ok s' => Some s' | Err _ => None end
  | Err _ => None
  end.

Lemma container_sandboxed_witness :
  exists s', built = Some s' /\ sandboxed options (Some ("/ns" : str)) (spec_bind_mounts example_step) s'
    /\ (p_apparmor <$> spec_process s') = Some (Some ("umf-default" : str))
    /\ (p_user <$> spec_process s') = Some {| user_uid := 7; user_gid := 8 |}.
Proof.
  assert (Hb : (p_apparmor <$> (built ≫= spec_process)) = Some (Some ("umf-default" : str))
    /\ (p_user <$> (built ≫= spec_process)) = Some {| user_uid := 7; user_gid := 8 |}) by (vm_compute; split; reflexivity).
  unfold built in *. destruct (build_runtime_spec _ _ options) as [s|] eqn:E1; [|by destruct Hb].
  destruct (apply_changes no_process changes s) as [s'|] eqn:E2; [|by destruct Hb].
  exists s'. split; [reflexivity|]. split; [|exact Hb].
  exact (container_sandboxed no_process _ _ _ _ _ _ E1 E2).
Defined.
End SandboxExample.

(** ** Id maps *)

(** Container id [c] is host id [h]. *)
Definition maps_to (ts : list MapTriple) (c h : N) : Prop :=
  exists c0 h0 n, (c0, h0, n) ∈ ts /\ (c0 <= c < c0 + n)%N /\ h = (h0 + (c - c0))%N.

(** Exactly the ids up to the size of the delegation are mapped, and to distinct
    host ids unless the delegation contains the user's own id. *)
Lemma mapping_triples_exact euid egid u g c h h' :
  let ts := (mapping_triples euid egid u g).1 in
  (maps_to ts c h <-> (c = 0 /\ h = euid)%N \/ (1 <= c <= range_count u /\ h = range_start u + (c - 1))%N)
  /\ (maps_to ts c h -> maps_to ts c h' -> h = h').
Proof.
  assert (Hm : forall h, maps_to (mapping_triples euid egid u g).1 c h <->
    (c = 0 /\ h = euid)%N \/ (1 <= c <= range_count u /\ h = range_start u + (c - 1))%N).
  { intros h0. unfold maps_to. simpl. split.
    - intros (c0 & k & n & Hin & Hc & ->). apply elem_of_cons in Hin as [[= -> -> ->]|Hin]; [left; lia|].
      apply list_elem_of_singleton in Hin as [= -> -> ->]. right. lia.
    - intros [[-> ->]|[Hc ->]].
      + exists 0%N, euid, 1%N. split; [by left|]. lia.
      + exists 1%N, (range_start u), (range_count u). split; [right; by left|]. lia. }
  split; [apply Hm|]. rewrite !Hm. lia.
Qed.

(** A line of another user that is not of the form [name:number:number] hides
    the delegations after it. *)
Example subid_malformed_line :
  parse_subid_range ("ghost:x:1" ++ lf :: "u:100000:65536") (Some ("u" : str)) 1000 = None
  /\ parse_subid_range ("u:100000:65536" ++ lf :: "ghost:x:1") (Some ("u" : str)) 1000
     = Some {| range_start := 100000; range_count := 65536 |}.
Proof. split; reflexivity. Qed.

(** A configuration with an explicit [null] in the place of a list is refused. *)
Example null_entrypoint_rejected :
  ImageConfigDoc_from_value (SeccompProfile.object [("config"%string, SeccompProfile.object [("Entrypoint"%string, Json.Value_Null)])]) = None
  /\ ImageConfigDoc_from_value (SeccompProfile.object [("config"%string, SeccompProfile.object [])]) = Some ImageConfigDoc_default.
Proof. split; vm_compute; reflexivity. Qed.
