(* ===== verification/Bundle.v ===== *)
(** * Bundle: preparing an image to be run
    (crates/umf-engine/src/bundle.rs [Bundle], run.rs [run_image]).

    A bundle is a directory with the image's unpacked layers and the runtime
    specification.  The layers are unpacked by [Materialize]; the encoder and
    the mounts of the erofs path are parameters. *)

From stdpp Require Import gmap list.
From S2P Require Import Prelude RustStr RustStrFacts Target HostFs Compression Image Layout LayoutFacts BuildState BaseImage.
From S2P Require Import Materialize Seccomp Sandbox.

(** ** Media types *)

Definition IMAGE_LAYER_GZIP_MEDIA_TYPE : str := "application/vnd.oci.image.layer.v1.tar+gzip".
Definition IMAGE_LAYER_ZSTD_MEDIA_TYPE : str := "application/vnd.oci.image.layer.v1.tar+zstd".
Definition DOCKER_LAYER_GZIP_MEDIA_TYPE : str := "application/vnd.docker.image.rootfs.diff.tar.gzip".

Definition is_supported_layer_media_type (media_type : str) : bool :=
  bool_decide (media_type = IMAGE_LAYER_ZSTD_MEDIA_TYPE)
  || bool_decide (media_type = IMAGE_LAYER_GZIP_MEDIA_TYPE)
  || bool_decide (media_type = DOCKER_LAYER_GZIP_MEDIA_TYPE)
  || bool_decide (media_type = "application/vnd.oci.image.layer.v1.tar")
  || bool_decide (media_type = "application/vnd.oci.image.layer.v1.tar+xz")
  || bool_decide (media_type = "application/vnd.oci.image.layer.v1.tar+bzip2").

Definition is_erofs_encodable_media_type (media_type : str) : bool :=
  bool_decide (media_type = IMAGE_LAYER_GZIP_MEDIA_TYPE) || bool_decide (media_type = DOCKER_LAYER_GZIP_MEDIA_TYPE).

(** ** The bundle *)

Record Bundle := {
  b_path : list str;
  b_rootfs : list str;
  b_spec : Spec;
  image_entrypoint : list str;
  image_cmd : list str;
  b_base_lowers : list (list str);
  uses_erofs_lowers : bool
}.

Definition ROOTFS : str := "rootfs".
Definition CONFIG_JSON : str := "config.json".

(** What bundle preparation calls. *)
Class Engine (S : Type) `{Reader S} := {
  e_host :: Host;
  e_tar :: TarCrate;
  e_codecs :: Codecs (Chain S);
  sha256 : str -> str;
  parse_manifest : str -> option OciManifest;
  parse_image : str -> option OciImageManifest;
  parse_json : str -> option Json.Value;
  serialise_spec : Spec -> result str str;
  display_location : list str -> str;
  io_to_string : IoError -> str;
  slice : str -> S;
  read_fuel : nat;
  encoder_available : bool;
  mount_available : bool;
  ensure_layer_erofs : str -> str -> result EngineError (list str);
  mount_erofs : list (list str) -> result EngineError (list (list str))
}.

Section bundle.
Context {S : Type} `{HE : Engine S}.

Notation read_layout L d := (map_err EngineError_Registry (read_blob sha256 L d)).

(** Results on the file system with the engine's errors. *)
Definition io_result {A} (r : result IoError A * Fs) : result EngineError A * Fs :=
  (map_err (fun e => EngineError_Io (io_to_string e)) r.1, r.2).

Definition unpack_layer_into (blob : str) (dst : Path) (fs : Fs) : result EngineError unit * Fs :=
  io_result (apply_layer io_to_string read_fuel (env_var "UMF_MAX_UNCOMPRESSED_LAYER_BYTES") (slice blob) dst fs).

Fixpoint unpack_layers_into (L : ImageLayout) (layers : list OciDescriptor) (dst : Path) (fs : Fs)
    : result EngineError unit * Fs :=
  match layers with
  | [] => (Ok tt, fs)
  | d :: layers =>
      if is_supported_layer_media_type (desc_media_type d) then
        match read_layout L (desc_digest d) with
        | Err e => (Err e, fs)
        | Ok blob =>
            match unpack_layer_into blob dst fs with
            | (Ok _, fs) => unpack_layers_into L layers dst fs
            | (Err e, fs) => (Err e, fs)
            end
        end
      else (Err (EngineError_UnsupportedLayerMediaType (desc_media_type d)), fs)
  end.

Fixpoint erofs_images (layers : list OciDescriptor) (diff_ids : list str) : result EngineError (list (list str)) :=
  match layers, diff_ids with
  | d :: layers, id :: diff_ids =>
      if is_erofs_encodable_media_type (desc_media_type d) then
        p ← ensure_layer_erofs (desc_digest d) id;
        ps ← erofs_images layers diff_ids;
        Ok (p :: ps)
      else Err (EngineError_UnsupportedLayerMediaType (desc_media_type d))
  | _, _ => Ok []
  end.

Definition mount_erofs_lowers (layers : list OciDescriptor) (image_config : ImageConfigDoc)
    : result EngineError (list (list str)) :=
  erofs_paths ← erofs_images layers (cfg_diff_ids image_config);
  mount_erofs (rev erofs_paths).

(** The manifest for the architecture. *)
Definition image_manifest_of (L : ImageLayout) (ref_name : str) (arch : Architecture) : result EngineError OciImageManifest :=
  entry ← ok_or (layout_lookup_ref L ref_name) (EngineError_ImageNotInLayout ref_name);
  manifest_bytes ← read_layout L (ie_digest entry);
  match parse_manifest manifest_bytes with
  | None => Err (EngineError_Json "manifest")
  | Some (OciManifest_Image image) => Ok image
  | Some (OciManifest_ImageIndex manifests) =>
      chosen ← ok_or (select_for_arch manifests arch) (EngineError_NoManifestForPlatform (oci_arch_string arch));
      child_bytes ← read_layout L (ie_digest chosen);
      ok_or (parse_image child_bytes) (EngineError_Json "manifest")
  end.

Definition image_parts (L : ImageLayout) (ref_name : str) (arch : Architecture)
    : result EngineError (OciImageManifest * ImageConfigDoc) :=
  manifest ← image_manifest_of L ref_name arch;
  config_bytes ← read_layout L (desc_digest (mf_config manifest));
  image_config ← ok_or (parse_json config_bytes ≫= ImageConfigDoc_from_value) (EngineError_Json "config");
  if bool_decide (length (cfg_diff_ids image_config) = length (mf_layers manifest)) then Ok (manifest, image_config)
  else Err (EngineError_LayerCountMismatch (length (mf_layers manifest)) (length (cfg_diff_ids image_config))).

Definition want_erofs (options : BundleOptions) (manifest : OciImageManifest) : bool :=
  bool_decide (layer_strategy options = Erofs) && negb (is_nil (mf_layers manifest))
  && forallb (fun d => is_erofs_encodable_media_type (desc_media_type d)) (mf_layers manifest)
  && encoder_available && mount_available.

(** The lower stack, newest layer first, and whether it is mounted. *)
Definition base_lowers_of (L : ImageLayout) (manifest : OciImageManifest) (image_config : ImageConfigDoc)
    (options : BundleOptions) (rootfs : list str) (fs : Fs) : result EngineError (list (list str) * bool) * Fs :=
  let unpack fs :=
    match unpack_layers_into L (mf_layers manifest) (absolute rootfs) fs with
    | (Ok _, fs) => (Ok ([rootfs], false), fs)
    | (Err e, fs) => (Err e, fs)
    end in
  if want_erofs options manifest then
    match mount_erofs_lowers (mf_layers manifest) image_config with
    | Ok lowers => (Ok (lowers, true), fs)
    | Err _ => unpack fs
    end
  else unpack fs.

(** The specification, written next to the root file system. *)
Definition write_bundle (path rootfs : list str) (image_config : ImageConfigDoc) (options : BundleOptions)
    (lowers : list (list str)) (mounted : bool) (fs : Fs) : result EngineError Bundle * Fs :=
  match build_runtime_spec (display_location rootfs) image_config options with
  | Err e => (Err e, fs)
  | Ok spec =>
      match serialise_spec spec with
      | Err e => (Err (EngineError_SerialiseSpec e), fs)
      | Ok config_json =>
          (Ok {| b_path := path; b_rootfs := rootfs; b_spec := spec; image_entrypoint := cfg_entrypoint image_config;
                 image_cmd := cfg_cmd image_config; b_base_lowers := lowers; uses_erofs_lowers := mounted |},
           <[path ++ [CONFIG_JSON] := NFile config_json]> fs)
      end
  end.

(** [path] is the fresh temporary directory. *)
Definition from_image (L : ImageLayout) (ref_name : str) (options : BundleOptions) (path : list str) (fs : Fs)
    : result EngineError Bundle * Fs :=
  match image_parts L ref_name (opt_architecture options) with
  | Err e => (Err e, fs)
  | Ok (manifest, image_config) =>
      let rootfs := path ++ [ROOTFS] in
      match io_result (HostFs.create_dir_all rootfs fs) with
      | (Err e, fs) => (Err e, fs)
      | (Ok _, fs) =>
          match base_lowers_of L manifest image_config options rootfs fs with
          | (Err e, fs) => (Err e, fs)
          | (Ok (lowers, mounted), fs) => write_bundle path rootfs image_config options lowers mounted fs
          end
      end
  end.

Definition from_scratch (options : BundleOptions) (path : list str) (fs : Fs) : result EngineError Bundle * Fs :=
  let rootfs := path ++ [ROOTFS] in
  match io_result (HostFs.create_dir_all rootfs fs) with
  | (Err e, fs) => (Err e, fs)
  | (Ok _, fs) => write_bundle path rootfs ImageConfigDoc_default options [rootfs] false fs
  end.

Definition write_spec (b : Bundle) (fs : Fs) : result EngineError unit * Fs :=
  match serialise_spec (b_spec b) with
  | Err e => (Err (EngineError_SerialiseSpec e), fs)
  | Ok bytes => (Ok tt, <[b_path b ++ [CONFIG_JSON] := NFile bytes]> fs)
  end.

Definition with_spec (s : Spec) (b : Bundle) : Bundle :=
  {| b_path := b_path b; b_rootfs := b_rootfs b; b_spec := s; image_entrypoint := image_entrypoint b;
     image_cmd := image_cmd b; b_base_lowers := b_base_lowers b; uses_erofs_lowers := uses_erofs_lowers b |}.

(** ** Running *)

(** What runs a container: [mount_overlay] gives the merged directory of a stack
    of lower directories, [rootless_net] the path of a network namespace to join
    if there is one, [drive] creates the state directory and runs the container of
    an identifier in a bundle directory to its exit code, given the configuration
    written there. *)
Record Runtime := {
  mount_overlay : list (list str) -> result EngineError (list str);
  rootless_net : result EngineError (option str);
  drive : str -> list str -> option Node -> result EngineError Z
}.

Record RunResult := { exit_code : option Z; bundle_path : option (list str) }.

(** A writable overlay over the mounted lowers. *)
Definition mount_run_overlay (r : Runtime) (b : Bundle) : result EngineError Bundle :=
  merged ← mount_overlay r (b_base_lowers b);
  Ok (with_spec (set_root_path (display_location merged) (b_spec b)) b).

(** The bundle with its root in place; [path] and [path'] are the two temporary
    directories it may take. *)
Definition prepare_run_bundle (r : Runtime) (ctx : RootlessContext) (host_arch : Architecture) (L : ImageLayout)
    (ref_name : str) (options : RunOptions) (path path' : list str) (fs : Fs) : result EngineError Bundle * Fs :=
  let strategy := if keep_bundle options then Merge else LayerStrategy_from_env in
  let d := BundleOptions_default ctx host_arch in
  match from_image L ref_name (BundleOptions_for_host ctx (opt_hostname d) strategy host_arch) path fs with
  | (Err e, fs) => (Err e, fs)
  | (Ok b, fs) =>
      if uses_erofs_lowers b then
        match mount_run_overlay r b with
        | Ok b => (Ok b, fs)
        | Err _ => from_image L ref_name d path' fs
        end
      else (Ok b, fs)
  end.

Definition run_image (r : Runtime) (ctx : RootlessContext) (host_arch : Architecture) (id : str) (L : ImageLayout)
    (ref_name : str) (options : RunOptions) (path path' : list str) (fs : Fs) : result EngineError RunResult * Fs :=
  match prepare_run_bundle r ctx host_arch L ref_name options path path' fs with
  | (Err e, fs) => (Err e, fs)
  | (Ok b, fs) =>
      let spec :=
        s ← apply_options_to_bundle (image_entrypoint b) (image_cmd b) options (b_spec b);
        let s := match cgroup_scope_path ctx id with Some scope => set_cgroups_path scope s | None => s end in
        net ← (if host_privileged ctx then Ok None else rootless_net r);
        match net with Some p => set_network_namespace_path p s | None => Ok s end in
      match spec with
      | Err e => (Err e, fs)
      | Ok s =>
          match write_spec (with_spec s b) fs with
          | (Err e, fs) => (Err e, fs)
          | (Ok _, fs) =>
              match drive r id (b_path b) (fs !! (b_path b ++ [CONFIG_JSON])) with
              | Err e => (Err e, fs)
              | Ok code =>
                  (Ok {| exit_code := Some code; bundle_path := if keep_bundle options then Some (b_path b) else None |}, fs)
              end
          end
      end
  end.

(** [LibcontainerRuntime::run]: one step of a build.  The specification in the
    bundle is changed in place and stays changed. *)
Definition runtime_run (r : Runtime) (Process_default : Process) (ctx : RootlessContext) (b : Bundle) (spec : RunSpec) (fs : Fs)
    : result EngineError Z * Bundle * Fs :=
  match apply_run_spec_to_bundle Process_default ctx spec (b_spec b) with
  | Err e => (Err e, b, fs)
  | Ok s =>
      let b := with_spec s b in
      match (if host_privileged ctx then Ok None else rootless_net r) with
      | Err e => (Err e, b, fs)
      | Ok net =>
          match match net with Some p => set_network_namespace_path p s | None => Ok s end with
          | Err e => (Err e, b, fs)
          | Ok s =>
              let b := with_spec s b in
              match write_spec b fs with
              | (Err e, fs) => (Err e, b, fs)
              | (Ok _, fs) => (drive r (spec_id spec) (b_path b) (fs !! (b_path b ++ [CONFIG_JSON])), b, fs)
              end
          end
      end
  end.

(** The [RUN] steps of a stage, on one bundle: each has its overlay, whose merged
    directory becomes the root, and ends the stage unless the command succeeds.
    The runtime is the one of the step, since the network may differ. *)
Fixpoint run_steps (Process_default : Process) (ctx : RootlessContext) (steps : list (Runtime * list str * RunSpec))
    (b : Bundle) (fs : Fs) : result EngineError Z * Bundle * Fs :=
  match steps with
  | [] => (Ok 0%Z, b, fs)
  | (r, merged, spec) :: steps =>
      let b := with_spec (set_root_path (display_location merged) (b_spec b)) b in
      match runtime_run r Process_default ctx b spec fs with
      | (Ok 0%Z, b, fs) => run_steps Process_default ctx steps b fs
      | stop => stop
      end
  end.

(** *** Exit codes *)

Inductive WaitStatus := Exited (code : Z) | Signaled (signal : Z) | Otherwise.
Definition exit_code_of (s : WaitStatus) : Z :=
  match s with Exited code => code | Signaled sig => 128 + sig | Otherwise => -1 end.
End bundle.

(** ** What a bundle is *)

Section facts.
Context {S : Type} `{HE : Engine S}.

Definition granted_process : Process :=
  {| terminal := false; p_user := {| user_uid := 0; user_gid := 0 |}; p_args := []; p_env := []; p_cwd := [];
     capabilities := Some granted; no_new_privileges := Some true; p_apparmor := None; p_selinux := None |}.

Lemma write_bundle_inv path rootfs cfg options lowers mounted fs b fs' :
  write_bundle path rootfs cfg options lowers mounted fs = (Ok b, fs') ->
  build_runtime_spec (display_location rootfs) cfg options = Ok (b_spec b)
  /\ b_path b = path /\ b_base_lowers b = lowers /\ uses_erofs_lowers b = mounted
  /\ exists config, serialise_spec (b_spec b) = Ok config /\ fs' = <[path ++ [CONFIG_JSON] := NFile config]> fs.
Proof.
  unfold write_bundle. destruct (build_runtime_spec _ _ _) as [s|]; [|done].
  destruct (serialise_spec s) as [c|] eqn:Es; [|done]. intros [= <- <-]. cbn. eauto 10.
Qed.

Lemma from_image_bundle L ref_name options path fs b fs' :
  from_image L ref_name options path fs = (Ok b, fs') -> sandboxed options None [] (b_spec b).
Proof.
  unfold from_image. destruct (image_parts _ _ _) as [[m cfg]|]; [|done].
  destruct (io_result _) as [[u|] fs1]; [|done].
  destruct (base_lowers_of _ _ _ _ _ fs1) as [[[lowers mounted]|] fs2]; [|done].
  intros (E & _)%write_bundle_inv. by eapply build_runtime_spec_sandboxed.
Qed.

Lemma from_scratch_bundle options path fs b fs' :
  from_scratch options path fs = (Ok b, fs') -> sandboxed options None [] (b_spec b).
Proof.
  unfold from_scratch. destruct (io_result _) as [[u|] fs1]; [|done].
  intros (E & _)%write_bundle_inv. by eapply build_runtime_spec_sandboxed.
Qed.

(** Two runtimes that behave alike on the configurations of confined
    specifications with this network namespace and these bind mounts. *)
Definition alike (options : BundleOptions) (net : option str) (binds : list BindMount) (r r' : Runtime) : Prop :=
  mount_overlay r = mount_overlay r' /\ rootless_net r = rootless_net r'
  /\ forall id path s config, sandboxed options net binds s -> serialise_spec s = Ok config ->
     drive r id path (Some (NFile config)) = drive r' id path (Some (NFile config)).

(** The network namespace a container joins, [net] being the one the bundle
    joined before. *)
Definition network_of (ctx : RootlessContext) (r : Runtime) (net : option str) : option str :=
  match (if host_privileged ctx then Ok None else rootless_net r) with Ok (Some p) => Some p | _ => net end.

(** The runtimes of the steps of a stage, alike on what each step asks for; the
    bind mounts of a step stay in the bundle for the steps after it. *)
Fixpoint steps_alike (options : BundleOptions) (ctx : RootlessContext) (net : option str) (binds : list BindMount)
    (steps : list (Runtime * Runtime * list str * RunSpec)) : Prop :=
  match steps with
  | [] => True
  | (r, r', _, spec) :: steps =>
      alike options (network_of ctx r net) (binds ++ spec_bind_mounts spec) r r'
      /\ steps_alike options ctx (network_of ctx r net) (binds ++ spec_bind_mounts spec) steps
  end.

(** The same with the bind mounts of the step alone, for a stage in which only
    the last step has any. *)
Fixpoint own_alike (options : BundleOptions) (ctx : RootlessContext) (net : option str)
    (steps : list (Runtime * Runtime * list str * RunSpec)) : Prop :=
  match steps with
  | [] => True
  | (r, r', _, spec) :: steps =>
      alike options (network_of ctx r net) (spec_bind_mounts spec) r r'
      /\ (steps <> [] -> spec_bind_mounts spec = []) /\ own_alike options ctx (network_of ctx r net) steps
  end.

Lemma own_steps_alike options ctx net steps : own_alike options ctx net steps -> steps_alike options ctx net [] steps.
Proof.
  revert net. induction steps as [|[[[r r'] m] spec] steps IH]; intros net; [done|]. intros (Ha & Hb & Hs). split; [done|].
  simpl. destruct steps as [|x steps]; [done|]. rewrite Hb by done. by apply IH.
Qed.

Lemma drive_written options net binds r r' id b s fs fs' :
  alike options net binds r r' -> sandboxed options net binds s -> write_spec (with_spec s b) fs = (Ok tt, fs') ->
  drive r id (b_path b) (fs' !! (b_path b ++ [CONFIG_JSON])) = drive r' id (b_path b) (fs' !! (b_path b ++ [CONFIG_JSON])).
Proof.
  intros (_ & _ & Hd) Hs E. unfold write_spec in E. cbn [b_spec b_path with_spec] in E.
  destruct (serialise_spec s) as [c|] eqn:Es; [|done]. injection E as <-. rewrite lookup_insert_eq. by eapply Hd.
Qed.

Lemma root_path_sandboxed options net binds path s :
  sandboxed options net binds s -> sandboxed options net binds (set_root_path path s).
Proof. intros [H1 H2 H3]. by split. Qed.

Lemma prepare_sandboxed r ctx arch L ref_name options path path' fs b fs' :
  prepare_run_bundle r ctx arch L ref_name options path path' fs = (Ok b, fs') ->
  sandboxed (BundleOptions_default ctx arch) None [] (b_spec b).
Proof.
  unfold prepare_run_bundle.
  assert (Hd : forall strategy s, sandboxed (BundleOptions_for_host ctx (opt_hostname (BundleOptions_default ctx arch)) strategy arch) None [] s ->
    sandboxed (BundleOptions_default ctx arch) None [] s) by (intros strategy s [H1 H2 H3]; by split).
  destruct (from_image _ _ _ path fs) as [[b1|] fs1] eqn:E1; [|done]. apply from_image_bundle, Hd in E1.
  destruct (uses_erofs_lowers b1); [|by intros [= <- <-]].
  unfold mount_run_overlay. destruct (mount_overlay r (b_base_lowers b1)) as [merged|]; cbn [mbind result_bind].
  - intros [= <- <-]. by apply root_path_sandboxed.
  - intros E. by apply from_image_bundle in E.
Qed.

(** The network joined is the one of the runtime. *)
Lemma joined_sandboxed options binds ctx r net0 net s s' :
  sandboxed options net0 binds s -> (if host_privileged ctx then Ok None else rootless_net r) = Ok net ->
  match net with Some p => set_network_namespace_path p s | None => Ok s end = Ok s' ->
  sandboxed options (network_of ctx r net0) binds s'.
Proof.
  intros Hs En E. unfold network_of. rewrite En. destruct net as [p|]; [|by injection E as <-].
  by eapply set_network_sandboxed.
Qed.

(** One step leaves a confined bundle, whichever of two like runtimes runs it. *)
Lemma runtime_run_alike options net binds r r' Process_default ctx b spec fs :
  alike options (network_of ctx r net) (binds ++ spec_bind_mounts spec) r r' -> sandboxed options net binds (b_spec b) ->
  runtime_run r Process_default ctx b spec fs = runtime_run r' Process_default ctx b spec fs
  /\ forall code b' fs', runtime_run r Process_default ctx b spec fs = (Ok code, b', fs') ->
       sandboxed options (network_of ctx r net) (binds ++ spec_bind_mounts spec) (b_spec b').
Proof.
  intros Ha Hb. pose proof Ha as (_ & Hn & _). unfold runtime_run. rewrite <- Hn.
  destruct (apply_run_spec_to_bundle _ _ _ _) as [s1|] eqn:E1; [|done].
  assert (Hs1 : sandboxed options net (binds ++ spec_bind_mounts spec) s1)
    by (by eapply (apply_change_sandboxed Process_default _ _ _ (RunStep ctx spec))).
  cbv zeta. destruct (if host_privileged ctx then Ok None else rootless_net r) as [n|] eqn:En; [|done].
  destruct (match n with Some p => set_network_namespace_path p s1 | None => Ok s1 end) as [s2|] eqn:E2; [|done].
  pose proof (joined_sandboxed _ _ _ _ _ _ _ _ Hs1 En E2) as Hs2.
  destruct (write_spec _ fs) as [[[]|] fs2] eqn:Ew; [|done]. cbn [b_path with_spec].
  split; [|by intros code b' fs' [= _ <- <-]].
  pose proof (drive_written _ _ _ r r' (spec_id spec) (with_spec s1 b) s2 fs fs2 Ha Hs2 Ew) as Hd. cbn [b_path with_spec] in Hd. by rewrite Hd.
Qed.

Lemma run_steps_alike options ctx Process_default steps net binds b fs :
  steps_alike options ctx net binds steps -> sandboxed options net binds (b_spec b) ->
  run_steps Process_default ctx ((fun '(r, _, m, s) => (r, m, s)) <$> steps) b fs
  = run_steps Process_default ctx ((fun '(_, r', m, s) => (r', m, s)) <$> steps) b fs.
Proof.
  revert net binds b fs. induction steps as [|[[[r r'] m] spec] steps IH]; intros net binds b fs Hs Hb; [done|].
  destruct Hs as [Ha Hs]. rewrite !fmap_cons. cbn [run_steps].
  destruct (runtime_run_alike options net binds r r' Process_default ctx
    (with_spec (set_root_path (display_location m) (b_spec b)) b) spec fs Ha ltac:(by apply root_path_sandboxed)) as [<- Hb'].
  destruct (runtime_run r _ _ _ _ _) as [[[code|e] b'] fs'] eqn:E; [|done].
  destruct code as [|?|?]; [|done|done]. eapply IH; [exact Hs|]. by eapply Hb'.
Qed.

Lemma run_image_alike r r' ctx arch id L ref_name options path path' fs :
  alike (BundleOptions_default ctx arch) (network_of ctx r None) (opt_bind_mounts options) r r' ->
  run_image r ctx arch id L ref_name options path path' fs = run_image r' ctx arch id L ref_name options path path' fs.
Proof.
  intros Ha. pose proof Ha as (Ho & Hn & _).
  unfold run_image. assert (Ep : prepare_run_bundle r = prepare_run_bundle r')
    by (unfold prepare_run_bundle, mount_run_overlay; by rewrite Ho).
  rewrite <- Ep. destruct (prepare_run_bundle _ _ _ _ _ _ _ _ fs) as [[b1|] fs1] eqn:Eb; [|done].
  apply prepare_sandboxed in Eb. rewrite <- Hn.
  destruct (apply_options_to_bundle _ _ options (b_spec b1)) as [s1|] eqn:E1; [|done]. cbn [mbind result_bind]. cbv zeta.
  assert (Hs1 : sandboxed (BundleOptions_default ctx arch) None (opt_bind_mounts options)
    match cgroup_scope_path ctx id with Some scope => set_cgroups_path scope s1 | None => s1 end).
  { assert (sandboxed (BundleOptions_default ctx arch) None ([] ++ opt_bind_mounts options) s1)
      by (by eapply (apply_change_sandboxed granted_process _ _ _ (RunWith _ _ options))).
    destruct (cgroup_scope_path ctx id); [by apply set_cgroups_path_sandboxed|done]. }
  destruct (if host_privileged ctx then Ok None else rootless_net r) as [n|] eqn:En; [|done]. cbn [mbind result_bind].
  match goal with |- match ?x with _ => _ end = _ => destruct x as [s2|] eqn:E2; [|done] end.
  pose proof (joined_sandboxed _ _ _ _ _ _ _ _ Hs1 En E2) as Hs2.
  destruct (write_spec _ fs1) as [[[]|] fs2] eqn:Ew; [|done]. by erewrite drive_written.
Qed.
End facts.

(** C9 (safety): Only confined containers are started.  The configuration a
    container is started from is read from the bundle directory; whatever the
    image, the caller's options, the steps and the outcome of the mounts are,
    [umf run] and the [RUN] steps of a stage, on a bundle made from its base image
    or from scratch, start containers only with configurations of confined
    specifications ([sandboxed]): the namespaces are new but for the network
    namespace the engine made for the run or step, and the mounts beyond the
    standard ones are exactly the bind mounts the caller or the step asks for.
    Steps after one that mounts a secret are not covered: the mount stays in the
    bundle ([secret_stays_mounted]).  Stated as: a runtime that does anything else
    on other configurations makes no difference. *)
Theorem only_sandboxed_started {S} `{HE : Engine S} r r' Process_default ctx arch id L ref_name options path path' fs :
  (alike (BundleOptions_default ctx arch) (network_of ctx r None) (opt_bind_mounts options) r r' ->
   run_image r ctx arch id L ref_name options path path' fs = run_image r' ctx arch id L ref_name options path path' fs)
  /\ forall bo b fs' steps,
       from_image L ref_name bo path fs = (Ok b, fs') \/ from_scratch bo path fs = (Ok b, fs') ->
       own_alike bo ctx None steps ->
       run_steps Process_default ctx ((fun '(r, _, m, s) => (r, m, s)) <$> steps) b fs'
       = run_steps Process_default ctx ((fun '(_, r', m, s) => (r', m, s)) <$> steps) b fs'.
Proof.
  split; [by apply run_image_alike|]. intros bo b fs' steps Hb Hs. eapply run_steps_alike; [by apply own_steps_alike|].
  destruct Hb as [Hb|Hb]; [by apply from_image_bundle in Hb|by apply from_scratch_bundle in Hb].
Qed.

(** ** A concrete engine *)

Module BundleExample.
Import SandboxExample.

Definition toy_digest (bytes : str) : str := replicate 64 (match bytes with b :: _ => b | [] => "a"%char end).
Definition descriptor_of (bytes : str) : OciDescriptor :=
  {| desc_media_type := "m"; desc_digest := sha256_digest toy_digest bytes; desc_size := Z.of_nat (length bytes); desc_annotations := None |}.
Definition toy_manifest : OciImageManifest :=
  {| mf_config := descriptor_of "config"; mf_layers := []; mf_subject := None; mf_artifact_type := None; mf_annotations := None |}.

(** Written is whether new privileges are excluded. *)
Definition toy_config (s : Spec) : str :=
  match spec_process s ≫= no_new_privileges with Some true => "confined" | _ => "open" end.

#[export] Instance engine : @Engine str MemSource.mem_reader.
Proof.
  refine {| e_host := SandboxExample.host; e_tar := ModelTar.tar; e_codecs := MemSource.codecs; sha256 := toy_digest;
     parse_manifest := fun b => if bool_decide (b = "a manifest") then Some (OciManifest_Image toy_manifest) else None;
     parse_image := fun _ => None;
     parse_json := fun b => if bool_decide (b = "config") then Some (SeccompProfile.object []) else None;
     serialise_spec := fun s => Ok (toy_config s); display_location := fun p => concat p;
     io_to_string := fun _ => "io"; slice := fun b => b; read_fuel := 600%nat; encoder_available := false;
     mount_available := false; ensure_layer_erofs := fun _ _ => Err (EngineError_Io "encoder");
     mount_erofs := fun _ => Err (EngineError_Io "mount") |}.
Defined.

Definition toy_layout : ImageLayout :=
  upsert_ref "img" {| ie_media_type := "m"; ie_digest := sha256_digest toy_digest "a manifest"; ie_size := 10%Z; ie_platform := None;
                      ie_annotations := None |}
    {| blobs := list_to_map [(toy_digest "a manifest", "a manifest" : str); (toy_digest "config", "config" : str)];
       index := []; erofs_cache := ∅; block_cache := ∅ |}.

Definition toy_options : RunOptions :=
  {| entrypoint_override := None; cmd_override := Some ["true" : str]; env_overrides := []; interactive := false;
     opt_bind_mounts := []; keep_bundle := false |}.

(** One runtime runs everything, the other refuses what is not confined. *)
Definition lax : Runtime :=
  {| mount_overlay := fun _ => Err (EngineError_Io "mount"); rootless_net := Ok None; drive := fun _ _ _ => Ok 0%Z |}.
Definition strict : Runtime :=
  {| mount_overlay := fun _ => Err (EngineError_Io "mount"); rootless_net := Ok None;
     drive := fun _ _ c => if bool_decide (c = Some (NFile "confined")) then Ok 0%Z else Err (EngineError_Io "open") |}.

Definition host_fs : Fs := <[["b" : str] := NDir []]> (<[[] := NDir []]> ∅).
Definition start (r : Runtime) : result EngineError RunResult :=
  (run_image (HE := engine) r ctx X86_64 "c1" toy_layout "img" toy_options ["b" : str] ["c" : str] host_fs).1.
Definition scratch : option Bundle :=
  match (from_scratch (HE := engine) (BundleOptions_default ctx X86_64) ["b" : str] host_fs).1 with Ok b => Some b | Err _ => None end.

Lemma toy_alike net binds : alike (HE := engine) (BundleOptions_default ctx X86_64) net binds lax strict.
Proof.
  split; [reflexivity|]. split; [reflexivity|]. intros id path s c Hs Ec. cbn in Ec. injection Ec as <-. cbn.
  destruct (sb_process _ _ _ _ Hs) as (p & Ep & _ & En & _). unfold toy_config. rewrite Ep. cbn. rewrite En.
  by rewrite bool_decide_true.
Qed.

Definition plain_step : RunSpec :=
  {| spec_id := "s-2"; spec_argv := ["true" : str]; spec_env := []; spec_working_dir := None;
     spec_user := None; spec_bind_mounts := [] |}.
Definition steps_of (r : Runtime) (specs : list RunSpec) : list (Runtime * list str * RunSpec) :=
  (fun s => (r, ["m" : str], s)) <$> specs.
Definition stage_run (r : Runtime) (specs : list RunSpec) : option (result EngineError Z * Bundle) :=
  match from_scratch (HE := engine) (BundleOptions_default ctx X86_64) ["b" : str] host_fs with
  | (Ok b, fs) => Some (run_steps (HE := engine) no_process ctx (steps_of r specs) b fs).1
  | _ => None
  end.

Lemma only_sandboxed_started_witness :
  start lax = start strict /\ start strict = Ok {| exit_code := Some 0%Z; bundle_path := None |}
  /\ stage_run lax [plain_step; example_step] = stage_run strict [plain_step; example_step]
  /\ (fst <$> stage_run strict [plain_step; example_step]) = Some (Ok 0%Z).
Proof.
  destruct (only_sandboxed_started (HE := engine) lax strict no_process ctx X86_64 "c1" toy_layout "img" toy_options
    ["b" : str] ["c" : str] host_fs) as [E1 E2].
  split; [unfold start; by rewrite (E1 (toy_alike _ _))|]. split; [vm_compute; reflexivity|]. split; [|vm_compute; reflexivity].
  unfold stage_run. destruct (from_scratch _ _ _) as [[b|] fs'] eqn:Eb; [|done].
  pose proof (E2 _ b fs' ((fun '(r, m, s) => (r, strict, m, s)) <$> steps_of lax [plain_step; example_step]) (or_intror Eb)) as E.
  do 2 f_equal. refine (E _). cbn.
  split; [apply toy_alike|]. split; [done|]. split; [apply toy_alike|]. split; [intros Hn; by destruct (Hn eq_refl)|exact I].
Defined.

(** The mounts of a step stay for the steps after it: the second step asks for
    none, and its specification still mounts the secret of the first. *)
Example secret_stays_mounted :
  (fun r => drop (length (standard_mounts (H := SandboxExample.host))) (spec_mounts (b_spec r.2)))
    <$> stage_run strict [example_step; plain_step]
  = Some [bind_mount {| host_path := "/s"; container_path := "/run/s"; read_only := true |}].
Proof. vm_compute. reflexivity. Qed.
End BundleExample.
