(* ===== verification/HostNet.v ===== *)
(** * HostNet: the network of a container (crates/umf-networking/src/lib.rs).

    The kernel's part is a state of links, routes, the forwarding switch and the
    tables of the packet filter, shared by all builds of the host; every system
    operation may also fail, as a list of faults to come says.  [setup] and the
    drop guard are the code's. *)

From stdpp Require Import gmap list.
From S2P Require Import Prelude RustStr RustStrFacts Ssrf.
#[local] Open Scope Z_scope.

(** ** The kernel *)

(** A network namespace: the host's, or another one by its number. *)
Inductive Space := Host | Netns (id : Z).
#[export] Instance Space_eq_dec : EqDecision Space.
Proof. solve_decision. Defined.
#[export] Instance Space_countable : Countable Space.
Proof.
  refine (inj_countable' (fun s => match s with Host => None | Netns i => Some i end)
                         (fun o => match o with None => Host | Some i => Netns i end) _). by intros [].
Defined.

Record Link := {
  peer : option (Space * str);
  l_mtu : option Z;
  l_addrs : list (Z * Z);
  l_up : bool;
  controller : option str
}.

Record World := {
  links : gmap (Space * str) Link;
  routes : gmap Space Z;
  ip_forward : str;
  tables : gmap str (list str);
  faults : list (option str)
}.

Definition with_links (l : gmap (Space * str) Link) (w : World) : World :=
  {| links := l; routes := routes w; ip_forward := ip_forward w; tables := tables w; faults := faults w |}.
Definition with_routes (r : gmap Space Z) (w : World) : World :=
  {| links := links w; routes := r; ip_forward := ip_forward w; tables := tables w; faults := faults w |}.
Definition with_forward (v : str) (w : World) : World :=
  {| links := links w; routes := routes w; ip_forward := v; tables := tables w; faults := faults w |}.
Definition with_tables (t : gmap str (list str)) (w : World) : World :=
  {| links := links w; routes := routes w; ip_forward := ip_forward w; tables := t; faults := faults w |}.
Definition with_faults (f : list (option str)) (w : World) : World :=
  {| links := links w; routes := routes w; ip_forward := ip_forward w; tables := tables w; faults := f |}.

Inductive NetError :=
| NetError_Netlink (msg : str)
| NetError_Nft (msg : str)
| NetError_Netns (pid : Z) (source : str)
| NetError_LinkNotFound (name : str)
| NetError_Runtime (msg : str)
| NetError_Io (source : str)
| NetError_VmNet (msg : str)
| NetError_EgressPolicy (msg : str)
| NetError_LinkExists
| NetError_NoFreeSubnet.
#[export] Instance NetError_eq_dec : EqDecision NetError.
Proof. solve_decision. Defined.

(** Computations on the kernel's state; what was done before an error stays. *)
Definition netio (A : Type) : Type := World -> result NetError A * World.
#[export] Instance netio_ret : MRet netio := fun A a w => (Ok a, w).
#[export] Instance netio_bind : MBind netio := fun A B k m w =>
  match m w with
  | (Ok a, w') => k a w'
  | (Err e, w') => (Err e, w')
  end.
Definition refuse {A} (e : NetError) : netio A := fun w => (Err e, w).

Lemma net_bind {A B} (m : netio A) (k : A -> netio B) w :
  (m ≫= k) w = match m w with (Ok a, w') => k a w' | (Err e, w') => (Err e, w') end.
Proof. reflexivity. Qed.

(** One system operation: it fails if the next fault says so. *)
Definition sys (mk : str -> NetError) : netio unit := fun w =>
  match faults w with
  | Some text :: fs => (Err (mk text), with_faults fs w)
  | None :: fs => (Ok tt, with_faults fs w)
  | [] => (Ok tt, w)
  end.

(** An operation that may also fail by itself. *)
Definition call {A} (mk : str -> NetError) (f : netio A) : netio A := _ ← sys mk; f.

Definition nl : str -> NetError := NetError_Netlink.
Definition current_thread_rt : netio unit := sys NetError_Runtime.
Definition new_connection : netio unit := sys NetError_Io.

(** [link().add().veth(a, b)]: both ends, in the host's namespace. *)
Definition no_link : Link := {| peer := None; l_mtu := None; l_addrs := []; l_up := false; controller := None |}.
Definition with_peer (p : option (Space * str)) (l : Link) : Link :=
  {| peer := p; l_mtu := l_mtu l; l_addrs := l_addrs l; l_up := l_up l; controller := controller l |}.

Definition add_veth (exists_error : NetError) (a b : str) : netio unit :=
  call nl (fun w =>
    match links w !! (Host, a), links w !! (Host, b) with
    | None, None =>
        (Ok tt, with_links (<[(Host, a) := with_peer (Some (Host, b)) no_link]>
                           (<[(Host, b) := with_peer (Some (Host, a)) no_link]> (links w))) w)
    | _, _ => (Err exists_error, w)
    end).

(** A link by its name; the index the kernel gives stands for the name. *)
Definition link_index (s : Space) (name : str) : netio unit :=
  call nl (fun w => match links w !! (s, name) with Some _ => (Ok tt, w) | None => (Err (NetError_LinkNotFound name), w) end).

Definition set_link (f : Link -> Link) (s : Space) (name : str) : netio unit :=
  call nl (fun w => match links w !! (s, name) with
           | Some l => (Ok tt, with_links (<[(s, name) := f l]> (links w)) w)
           | None => (Err (nl "No such device"), w)
           end).
Definition set_mtu (m : Z) := set_link (fun l =>
  {| peer := peer l; l_mtu := Some m; l_addrs := l_addrs l; l_up := l_up l; controller := controller l |}).
Definition set_up := set_link (fun l =>
  {| peer := peer l; l_mtu := l_mtu l; l_addrs := l_addrs l; l_up := true; controller := controller l |}).
Definition add_address (a prefix : Z) := set_link (fun l =>
  {| peer := peer l; l_mtu := l_mtu l; l_addrs := l_addrs l ++ [(a, prefix)]; l_up := l_up l; controller := controller l |}).
Definition set_controller (br : str) := set_link (fun l =>
  {| peer := peer l; l_mtu := l_mtu l; l_addrs := l_addrs l; l_up := l_up l; controller := Some br |}).

(** [setns_by_pid], [setns_by_fd]: a link of the host moves to another
    namespace, its peer follows it. *)
Definition repoint (from to : Space * str) (ls : gmap (Space * str) Link) (p : option (Space * str)) : gmap (Space * str) Link :=
  match p with
  | Some k => match ls !! k with Some l => if bool_decide (peer l = Some from) then <[k := with_peer (Some to) l]> ls else ls | None => ls end
  | None => ls
  end.
Definition setns (name : str) (s : Space) : netio unit :=
  call nl (fun w => match links w !! (Host, name), links w !! (s, name) with
           | None, _ => (Err (nl "No such device"), w)
           | _, Some _ => (Err (nl "File exists"), w)
           | Some l, None =>
               (Ok tt, with_links (<[(s, name) := l]> (repoint (Host, name) (s, name) (delete (Host, name) (links w)) (peer l))) w)
           end).

(** A deleted link takes its peer with it. *)
Definition without (k : Space * str) (ls : gmap (Space * str) Link) : gmap (Space * str) Link :=
  match ls !! k ≫= peer with Some p => delete p (delete k ls) | None => delete k ls end.
Definition link_del (s : Space) (name : str) : netio unit :=
  call nl (fun w => match links w !! (s, name) with
           | Some _ => (Ok tt, with_links (without (s, name) (links w)) w)
           | None => (Err (nl "No such device"), w)
           end).

Definition add_default_route (s : Space) (gateway : Z) : netio unit :=
  call nl (fun w => match routes w !! s with
           | None => (Ok tt, with_routes (<[s := gateway]> (routes w)) w)
           | Some _ => (Err (nl "File exists"), w)
           end).

(** The [nft] program, on the tables of the [inet] family: a definition adds to
    the table it names, a deletion needs the table, and the listing names every
    table. *)
Definition plain_table (name : str) : bool := forallb (fun c => is_ascii_alphanumeric c || Ascii.eqb c "-") name.

Class Nft := {
  nft_eval : str -> gmap str (list str) -> option (gmap str (list str));
  nft_list : gmap str (list str) -> str;
  nft_define : forall name body ts ts', plain_table name = true ->
    nft_eval ("table inet " ++ name ++ " {" ++ lf :: body) ts = Some ts' ->
    ts' = <[name := default [] (ts !! name) ++ [body]]> ts;
  nft_delete : forall name ts, plain_table name = true ->
    nft_eval ("delete table inet " ++ name ++ [lf]) ts
    = match ts !! name with Some _ => Some (delete name ts) | None => None end;
  nft_lists : forall ts,
    contains "umf-nat-" (nft_list ts) = true <-> exists name, is_Some (ts !! name) /\ contains "umf-nat-" name = true
}.

(** ** Addresses *)

(** [Ipv4Addr]'s [Display]. *)
Definition ipv4_text (a : Z) : str :=
  to_decimal (Z.to_N (octet4 0 a)) ++ "." ++ to_decimal (Z.to_N (octet4 1 a)) ++ "."
  ++ to_decimal (Z.to_N (octet4 2 a)) ++ "." ++ to_decimal (Z.to_N (octet4 3 a)).

Record IpPlan := { network : Z; plan_host : Z; container : Z; plan_prefix : Z }.

Definition for_block (base block : Z) : IpPlan :=
  let base16 := v4 (octet4 0 base) (octet4 1 base) 0 0 in
  let net := base16 + block * 4 in
  {| network := net; plan_host := net + 1; container := net + 2; plan_prefix := 30 |}.

Definition plan_cidr (p : IpPlan) : str := ipv4_text (network p) ++ "/" ++ to_decimal (Z.to_N (plan_prefix p)).

(** ** The host's MTU *)

Section mtu.
Variable read_to_string : str -> option str.

(** The interface of the default route in [/proc/net/route]. *)
Definition is_default_route (f : list str) : bool :=
  (8 <=? length f)%nat && bool_decide (f !! 1%nat = Some ("00000000" : str)) && bool_decide (f !! 7%nat = Some ("00000000" : str)).
Fixpoint default_route_of (ls : list str) : option str :=
  match ls with
  | [] => None
  | line :: ls => let f := split_whitespace line in if is_default_route f then f !! 0%nat else default_route_of ls
  end.
Definition parse_default_route_iface (proc_net_route : str) : option str := default_route_of (drop 1 (lines proc_net_route)).

Definition iface_mtu (iface : str) : option Z :=
  if bool_decide (iface = []) || contains_byte "/" iface || contains ".." iface then None
  else
    text ← read_to_string ("/sys/class/net/" ++ iface ++ "/mtu");
    m ← parse_unsigned u32_max (trim text);
    if (576 <=? Z.of_N m) then Some (Z.of_N m) else None.

Definition host_egress_mtu : option Z :=
  text ← read_to_string "/proc/net/route";
  iface ← parse_default_route_iface text;
  iface_mtu iface.

Record NetOptions := { mtu : Z; subnet_base : Z }.
Definition DEFAULT_MTU : Z := 1500.
Definition NetOptions_default : NetOptions :=
  {| mtu := default DEFAULT_MTU host_egress_mtu; subnet_base := v4 10 69 0 0 |}.
End mtu.

(** ** The packet filter *)

Definition join (sep : str) (l : list str) : str :=
  match l with [] => [] | x :: l => x ++ concat ((fun y => sep ++ y) <$> l) end.

Definition masquerade_body (subnet_cidr : str) (deny_cidrs : list str) : str :=
  "    chain postrouting {" ++ lf ::
  "        type nat hook postrouting priority srcnat; policy accept;" ++ lf ::
  "        ip saddr " ++ subnet_cidr ++ " masquerade" ++ lf ::
  "    }" ++ lf ::
  match deny_cidrs with
  | [] => []
  | _ => "    chain forward {" ++ lf ::
        "        type filter hook forward priority filter; policy accept;" ++ lf ::
        "        ip saddr " ++ subnet_cidr ++ " ip daddr { " ++ join ", " deny_cidrs ++ " } drop" ++ lf ::
        "    }" ++ [lf]
  end ++ "}" ++ [lf].
Definition masquerade_ruleset (table_name subnet_cidr : str) (deny_cidrs : list str) : str :=
  "table inet " ++ table_name ++ " {" ++ lf :: masquerade_body subnet_cidr deny_cidrs.

Section container.
Context {N : Nft}.

Definition nft_apply (ruleset : str) : netio unit :=
  call NetError_Nft (fun w =>
    match nft_eval ruleset (tables w) with
    | Some ts => (Ok tt, with_tables ts w)
    | None => (Err (NetError_Nft "nft exited"), w)
    end).

Definition add_masquerade (table_name subnet_cidr : str) (deny_cidrs : list str) : netio unit :=
  nft_apply (masquerade_ruleset table_name subnet_cidr deny_cidrs).
Definition del_masquerade (table_name : str) : netio unit := nft_apply ("delete table inet " ++ table_name ++ [lf]).

(** Errors that are dropped. *)
Definition ignoring (m : netio unit) : netio unit := fun w => (Ok tt, (m w).2).

(** ** Links *)

Definition del_link (name : str) : netio unit :=
  call NetError_Io (fun w =>
    match link_index Host name w with
    | (Ok _, w) =>
        match link_del Host name w with
        | (Ok _, w) => (Ok tt, w)
        | (Err e, w) =>
            match link_index Host name w with
            | (Err (NetError_LinkNotFound _), w) => (Ok tt, w)
            | (_, w) => (Err e, w)
            end
        end
    | (Err (NetError_LinkNotFound _), w) => (Ok tt, w)
    | (Err e, w) => (Err e, w)
    end).

(** ** Forwarding *)

Definition forward_restore_target (prior : option str) : option str :=
  match prior with
  | None => None
  | Some v => if bool_decide (v = "1") then None else Some v
  end.

(** Reads give the value and a line end; a failed read is no value. *)
Definition read_forward : netio (option str) := fun w =>
  match sys NetError_Io w with
  | (Ok _, w) => (Ok (Some (ip_forward w ++ [lf])), w)
  | (Err _, w) => (Ok None, w)
  end.
Definition write_forward (v : str) : netio unit := call NetError_Io (fun w => (Ok tt, with_forward v w)).

Definition enable_ipv4_forwarding : netio (option str) :=
  prior ← read_forward;
  _ ← write_forward "1";
  mret (forward_restore_target (trim <$> prior)).

Definition umf_nat_table_present : netio bool := fun w =>
  match sys NetError_Nft w with
  | (Ok _, w) => (Ok (contains "umf-nat-" (nft_list (tables w))), w)
  | (Err _, w) => (Ok true, w)
  end.

Definition restore_ip_forward (prior : option str) : netio unit :=
  match prior with
  | None => mret tt
  | Some prior =>
      present ← umf_nat_table_present;
      if (present : bool) then mret tt else ignoring (write_forward prior)
  end.

(** ** Setting up *)

(** After the pair exists. *)
Definition host_side_rest (host_if ctr_if : str) (plan : IpPlan) (mtu pid : Z) : netio unit :=
  _ ← link_index Host host_if;
  _ ← link_index Host ctr_if;
  _ ← set_mtu mtu Host host_if;
  _ ← add_address (plan_host plan) (plan_prefix plan) Host host_if;
  _ ← set_up Host host_if;
  setns ctr_if (Netns pid).

Definition setup_host_side (host_if ctr_if : str) (plan : IpPlan) (mtu pid : Z) : netio unit :=
  _ ← new_connection;
  _ ← add_veth NetError_LinkExists host_if ctr_if;
  host_side_rest host_if ctr_if plan mtu pid.

Definition configure_container_side (pid : Z) (ctr_if : str) (plan : IpPlan) (mtu : Z) : netio unit :=
  _ ← sys NetError_Runtime;
  _ ← sys (NetError_Netns pid);
  _ ← sys (NetError_Netns pid);
  _ ← current_thread_rt;
  _ ← new_connection;
  _ ← link_index (Netns pid) "lo";
  _ ← set_up (Netns pid) "lo";
  _ ← link_index (Netns pid) ctr_if;
  _ ← set_mtu mtu (Netns pid) ctr_if;
  _ ← add_address (container plan) (plan_prefix plan) (Netns pid) ctr_if;
  _ ← set_up (Netns pid) ctr_if;
  add_default_route (Netns pid) (plan_host plan).

(** The value to restore, also with an error. *)
Definition setup_egress (pid : Z) (ctr_if : str) (plan : IpPlan) (nft_table : str) (mtu : Z) (deny_cidrs : list str) (w : World)
    : result (NetError * option str) (option str) * World :=
  match configure_container_side pid ctr_if plan mtu w with
  | (Err e, w) => (Err (e, None), w)
  | (Ok _, w) =>
      match enable_ipv4_forwarding w with
      | (Err e, w) => (Err (e, None), w)
      | (Ok prior, w) =>
          match add_masquerade nft_table (plan_cidr plan) deny_cidrs w with
          | (Err e, w) => (Err (e, prior), w)
          | (Ok _, w) => (Ok prior, w)
          end
      end
  end.

Record ContainerNet := { host_ifname : str; container_ip : Z; nft_table : str; prior_ip_forward : option str }.

Definition host_if_of (block : Z) : str := "umfv" ++ to_decimal (Z.to_N block) ++ "h".
Definition ctr_if_of (block : Z) : str := "umfv" ++ to_decimal (Z.to_N block) ++ "c".
Definition nft_table_of (block : Z) : str := "umf-nat-" ++ to_decimal (Z.to_N block).

(** The host end exists: the rest, or all of it undone. *)
Definition egress_or_rollback (pid : Z) (host_if ctr_if : str) (plan : IpPlan) (table : str) (mtu : Z) (deny_cidrs : list str)
    : netio ContainerNet := fun w =>
  match setup_egress pid ctr_if plan table mtu deny_cidrs w with
  | (Ok prior, w) =>
      (Ok {| host_ifname := host_if; container_ip := container plan; nft_table := table; prior_ip_forward := prior |}, w)
  | (Err (e, prior), w) =>
      let '(_, w) := del_masquerade table w in
      let '(_, w) := restore_ip_forward prior w in
      let '(_, w) := del_link host_if w in
      (Err e, w)
  end.

(** [env] is [UMF_ROOTLESS_NET_ALLOW]. *)
Definition setup_inner (env : option str) (pid base block mtu : Z) : netio ContainerNet :=
  let host_if := host_if_of block in
  let ctr_if := ctr_if_of block in
  let plan := for_block base block in
  match from_env env with
  | Err e => refuse (NetError_EgressPolicy (error_token e))
  | Ok policy =>
      _ ← current_thread_rt;
      _ ← setup_host_side host_if ctr_if plan mtu pid;
      egress_or_rollback pid host_if ctr_if plan (nft_table_of block) mtu (denied_v4_cidrs policy)
  end.

Definition SUBNET_BLOCKS : Z := 16384.

(** The blocks from [offset] on. *)
Fixpoint try_blocks (env : option str) (opts : NetOptions) (pid start : Z) (fuel : nat) (offset : Z) : netio ContainerNet :=
  match fuel with
  | O => refuse NetError_NoFreeSubnet
  | S fuel => fun w =>
      match setup_inner env pid (subnet_base opts) ((start + offset) mod SUBNET_BLOCKS) (mtu opts) w with
      | (Ok net, w) => (Ok net, w)
      | (Err NetError_LinkExists, w) => try_blocks env opts pid start fuel (offset + 1) w
      | (Err e, w) => (Err e, w)
      end
  end.
Definition setup (env : option str) (pid : Z) (opts : NetOptions) : netio ContainerNet :=
  try_blocks env opts pid (pid mod SUBNET_BLOCKS) (Z.to_nat SUBNET_BLOCKS) 0.

(** The drop guard; nothing of it is reported. *)
Definition drop_net (net : ContainerNet) (w : World) : World :=
  let '(_, w) := del_masquerade (nft_table net) w in
  let '(_, w) := (_ ← current_thread_rt; del_link (host_ifname net)) w in
  (restore_ip_forward (prior_ip_forward net) w).2.
End container.

(** ** Numerals *)

Lemma decimal_snoc s c : decimal (s ++ [c]) = (decimal s * 10 + digit_value c)%N.
Proof. unfold decimal, decimal_from. by rewrite fold_left_app. Qed.

Lemma code_of_digit n : (n < 10)%N -> code (ascii_of_N (48 + n)) = (48 + n)%N.
Proof. intros H. unfold code. apply N_ascii_embedding. lia. Qed.

Lemma to_decimal_fuel_ok fuel : forall n, (n < 2 ^ N.of_nat fuel)%N ->
  decimal (to_decimal_fuel fuel n) = n /\ Forall (fun c => is_ascii_digit c = true) (to_decimal_fuel fuel n).
Proof.
  induction fuel as [|fuel IH]; intros n Hn; cbn [to_decimal_fuel]; [split; [change (2 ^ N.of_nat 0)%N with 1%N in Hn; cbn; lia|done]|].
  assert (Hm : (n mod 10 < 10)%N) by (apply N.mod_lt; lia).
  assert (Hd : is_ascii_digit (ascii_of_N (48 + n mod 10)) = true).
  { unfold is_ascii_digit, in_range. rewrite code_of_digit by done. apply andb_true_iff. split; apply N.leb_le; cbn; lia. }
  assert (Hv : digit_value (ascii_of_N (48 + n mod 10)) = (n mod 10)%N) by (unfold digit_value; rewrite code_of_digit by done; lia).
  destruct (N.ltb_spec n 10) as [Hlt|Hge].
  - split; [|by repeat constructor]. change [?c] with ([] ++ [c]). rewrite decimal_snoc, Hv, N.mod_small by done. done.
  - destruct (IH (n / 10)%N) as [E F].
    { rewrite Nnat.Nat2N.inj_succ, N.pow_succ_r' in Hn. apply N.Div0.div_lt_upper_bound. lia. }
    split; [|by apply Forall_app_2; [|repeat constructor]]. rewrite decimal_snoc, E, Hv.
    rewrite (N.div_mod' n 10) at 3. lia.
Qed.

Lemma to_decimal_ok n : decimal (to_decimal n) = n /\ Forall (fun c => is_ascii_digit c = true) (to_decimal n).
Proof.
  apply to_decimal_fuel_ok. rewrite Nnat.Nat2N.inj_succ, Nnat.N2Nat.id. destruct n as [|p]; [done|].
  apply N.log2_spec. lia.
Qed.

Lemma to_decimal_nonempty n : to_decimal n <> [].
Proof. unfold to_decimal. cbn [to_decimal_fuel]. destruct (n <? 10)%N; [done|]. by destruct (to_decimal_fuel _ _). Qed.

Lemma to_decimal_inj n m : to_decimal n = to_decimal m -> n = m.
Proof. intros H. by rewrite <- (proj1 (to_decimal_ok n)), H, (proj1 (to_decimal_ok m)). Qed.

Lemma to_decimal_no c n : is_ascii_digit c = false -> c ∉ to_decimal n.
Proof. intros Hc Hin. pose proof (proj1 (Forall_forall _ _) (proj2 (to_decimal_ok n)) c Hin). congruence. Qed.

Lemma to_decimal_plain n : plain_table (to_decimal n) = true.
Proof.
  unfold plain_table. apply forallb_forall. intros c Hc. apply list_elem_of_In in Hc.
  pose proof (proj1 (Forall_forall _ _) (proj2 (to_decimal_ok n)) c Hc) as Hd. unfold is_ascii_alphanumeric. by rewrite Hd, !orb_true_r.
Qed.

(** ** Subnets *)

Lemma v4_of_octets a : 0 <= a < 2 ^ 32 -> v4 (octet4 0 a) (octet4 1 a) (octet4 2 a) (octet4 3 a) = a.
Proof.
  intros Ha. rewrite !octet4_div by lia. unfold v4. change (24 - 8 * 0) with 24. change (24 - 8 * 1) with 16.
  change (24 - 8 * 2) with 8. change (24 - 8 * 3) with 0. change (2 ^ 24) with 16777216. change (2 ^ 16) with 65536.
  change (2 ^ 8) with 256. change (2 ^ 0) with 1. change (2 ^ 32) with 4294967296 in Ha. Z.to_euclidean_division_equations. lia.
Qed.

Lemma octet4_range i a : 0 <= octet4 i a.
Proof. unfold octet4. apply Z.land_nonneg. right. lia. Qed.

Lemma parse_cidr_text a p : 0 <= a < 2 ^ 32 -> 0 <= p ->
  parse_cidr (ipv4_text a ++ "/" ++ to_decimal (Z.to_N p)) = Some (a, p).
Proof.
  intros Ha Hp. unfold parse_cidr, ipv4_text.
  change (bytes_of "/") with ["/"%char]. change (bytes_of ".") with ["."%char]. cbn [app].
  rewrite split_app, split_no_sep.
  - cbn [app]. rewrite !split_app, split_no_sep by (by apply to_decimal_no). cbn [fmap list_fmap].
    assert (Hd : forall n, decimal (to_decimal n) = n) by (intros; apply to_decimal_ok).
    rewrite !Hd, !Z2N.id by (done || apply octet4_range). by rewrite v4_of_octets.
  - by apply to_decimal_no.
  - intros H. repeat (rewrite elem_of_app, elem_of_cons in H; destruct H as [H|[H|H]]; try discriminate H;
      try exact (to_decimal_no "/" _ eq_refl H)).
Qed.

Definition subnet_text (net : Z) : str := ipv4_text net ++ "/30".

Lemma subnet_matches net a : 0 <= net < 2 ^ 32 -> net mod 4 = 0 ->
  cidr_matches a (subnet_text net) = true <-> net <= a < net + 4.
Proof.
  intros Hn Hm. unfold cidr_matches, subnet_text. change (bytes_of "/30") with ("/" ++ to_decimal (Z.to_N 30)).
  rewrite parse_cidr_text by lia. change (32 - 30) with 2. rewrite Z.eqb_eq, !shiftr_div by lia. change (2 ^ 2) with 4.
  Z.to_euclidean_division_equations. lia.
Qed.

Definition block_ok (block : Z) : Prop := 0 <= block < SUBNET_BLOCKS.

Lemma for_block_network base block : 0 <= base < 2 ^ 32 -> block_ok block ->
  0 <= network (for_block base block) < 2 ^ 32 /\ network (for_block base block) mod 65536 = block * 4
  /\ network (for_block base block) / 65536 = base / 65536.
Proof.
  intros Hb Hk. unfold block_ok, SUBNET_BLOCKS in Hk. cbn [for_block network]. rewrite !octet4_div by lia. unfold v4.
  change (24 - 8 * 0) with 24. change (24 - 8 * 1) with 16. change (2 ^ 24) with 16777216. change (2 ^ 16) with 65536.
  change (2 ^ 32) with 4294967296 in *. Z.to_euclidean_division_equations. lia.
Qed.

(** ** Names *)

#[global] Arguments host_if_of : simpl never.
#[global] Arguments ctr_if_of : simpl never.
#[global] Arguments nft_table_of : simpl never.

Lemma names_inj b b' : block_ok b -> block_ok b' ->
  (host_if_of b = host_if_of b' -> b = b') /\ (ctr_if_of b = ctr_if_of b' -> b = b')
  /\ (nft_table_of b = nft_table_of b' -> b = b').
Proof.
  intros Hb Hb'. unfold block_ok in *. assert (E : to_decimal (Z.to_N b) = to_decimal (Z.to_N b') -> b = b')
    by (intros H%to_decimal_inj; lia).
  unfold host_if_of, ctr_if_of, nft_table_of. split_and!; intros H; apply E; simplify_list_eq; done.
Qed.

Lemma host_ctr_ne b b' : host_if_of b <> ctr_if_of b'.
Proof.
  unfold host_if_of, ctr_if_of. intros H. apply (f_equal last) in H. rewrite !app_assoc in H.
  change (bytes_of "h") with ["h"%char] in H. change (bytes_of "c") with ["c"%char] in H. by rewrite !last_snoc in H.
Qed.

Lemma nft_table_plain b : plain_table (nft_table_of b) = true.
Proof. unfold nft_table_of, plain_table. rewrite forallb_app. apply andb_true_iff. split; [done|apply to_decimal_plain]. Qed.

Lemma contains_prefix (n s : str) : contains n (n ++ s) = true.
Proof.
  assert (H : strip_prefix n (n ++ s) = Some s) by (induction n as [|c n IH]; [done|cbn; by rewrite Ascii.eqb_refl]).
  assert (Hs : starts_with n (n ++ s) = true) by (unfold starts_with; by rewrite H).
  destruct (n ++ s); cbn [contains]; by rewrite Hs.
Qed.

(** ** Runs *)

Lemma net_bind_ok {A B} (m : netio A) (k : A -> netio B) w b w' :
  (m ≫= k) w = (Ok b, w') -> exists a w1, m w = (Ok a, w1) /\ k a w1 = (Ok b, w').
Proof. rewrite net_bind. destruct (m w) as [[a|e] w1]; [eauto|done]. Qed.

Lemma sys_ok mk w u w' : sys mk w = (Ok u, w') -> exists fs, w' = with_faults fs w.
Proof. unfold sys. destruct (faults w) as [|[t|] fs] eqn:E; intros [= <- <-]; [exists []|by eexists]. by rewrite <- E; destruct w. Qed.

Lemma call_ok {A} mk (f : netio A) w a w' :
  call mk f w = (Ok a, w') -> exists fs, f (with_faults fs w) = (Ok a, w').
Proof. intros (u & w1 & [fs ->]%sys_ok & H)%net_bind_ok. eauto. Qed.

(** The world up to faults still to come. *)
Record same_but_faults (w w' : World) : Prop := {
  sf_links : links w' = links w;
  sf_routes : routes w' = routes w;
  sf_forward : ip_forward w' = ip_forward w;
  sf_tables : tables w' = tables w
}.
#[export] Instance same_but_faults_preorder : PreOrder same_but_faults.
Proof.
  split; [by intros w|]. intros w1 w2 w3 [] []. split; congruence.
Qed.

Lemma with_faults_same fs w : same_but_faults w (with_faults fs w).
Proof. by split. Qed.

(** Relations a computation stays in, whatever its result is. *)
Definition keeps {A} (R : World -> World -> Prop) (m : netio A) : Prop := forall w, R w (m w).2.

Section keeps.
Context (R : World -> World -> Prop) `{!PreOrder R} (HR : forall w w', same_but_faults w w' -> R w w').

Lemma keeps_ret {A} (a : A) : keeps R (mret a).
Proof. intros w. by cbn. Qed.
Lemma keeps_refuse {A} e : keeps R (refuse e : netio A).
Proof. intros w. by cbn. Qed.
Lemma keeps_bind {A B} (m : netio A) (k : A -> netio B) : keeps R m -> (forall a, keeps R (k a)) -> keeps R (m ≫= k).
Proof.
  intros Hm Hk w. rewrite net_bind. specialize (Hm w). destruct (m w) as [[a|e] w1]; cbn in *; [|done].
  etrans; [done|apply Hk].
Qed.
Lemma keeps_sys mk : keeps R (sys mk).
Proof. intros w. unfold sys. destruct (faults w) as [|[t|] fs]; cbn; [done|by apply HR|by apply HR]. Qed.
Lemma keeps_call {A} mk (f : netio A) : keeps R f -> keeps R (call mk f).
Proof. intros Hf. apply keeps_bind; [apply keeps_sys|done]. Qed.
Lemma keeps_link_index s n : keeps R (link_index s n).
Proof. apply keeps_call. intros w. cbn. by destruct (links w !! (s, n)). Qed.
Lemma keeps_ignoring m : keeps R m -> keeps R (ignoring m).
Proof. intros Hm w. apply Hm. Qed.
Lemma keeps_read_forward : keeps R read_forward.
Proof.
  intros w. unfold read_forward. pose proof (keeps_sys NetError_Io w) as H. by destruct (sys NetError_Io w) as [[|] w1].
Qed.
Lemma keeps_present `{Nft} : keeps R umf_nat_table_present.
Proof.
  intros w. unfold umf_nat_table_present. pose proof (keeps_sys NetError_Nft w) as Hs. by destruct (sys NetError_Nft w) as [[|] w1].
Qed.
Lemma keeps_del_link n : keeps R (link_del Host n) -> keeps R (del_link n).
Proof.
  intros Hd. apply keeps_call. intros w. pose proof (keeps_link_index Host n w) as H1.
  destruct (link_index Host n w) as [[u|e] w1]; cbn in H1.
  - specialize (Hd w1). destruct (link_del Host n w1) as [[u'|e] w2]; cbn in Hd; [cbn; by trans w1|].
    pose proof (keeps_link_index Host n w2) as H3. destruct (link_index Host n w2) as [[u''|e'] w3]; cbn in H3.
    + cbn. trans w1; [done|]. by trans w2.
    + destruct e'; cbn; (trans w1; [done|]; by trans w2).
  - by destruct e.
Qed.
End keeps.

(** ** What the network of one block can change *)

Definition block_name (b : Z) (n : str) : Prop := n = host_if_of b \/ n = ctr_if_of b.

(** The ends of the pairs are each other's peers. *)
Definition peers_ok (w : World) : Prop := forall b k l p, block_ok b ->
  links w !! k = Some l -> peer l = Some p -> block_name b k.2 -> block_name b p.2.

(** Some other network has its table. *)
Definition other_table (b : Z) (w : World) : Prop :=
  exists name, name <> nft_table_of b /\ is_Some (tables w !! name) /\ contains "umf-nat-" name = true.

Record framed_by (b pid : Z) (w w' : World) : Prop := {
  fb_peers : peers_ok w';
  fb_links : forall k, ~ block_name b k.2 -> k <> (Netns pid, "lo" : str) -> links w' !! k = links w !! k;
  fb_tables : forall name, name <> nft_table_of b -> tables w' !! name = tables w !! name;
  fb_forward : other_table b w -> ip_forward w = "1" -> ip_forward w' = "1"
}.
Definition framed (b pid : Z) (w w' : World) : Prop := peers_ok w -> framed_by b pid w w'.

#[export] Instance framed_preorder b pid : PreOrder (framed b pid).
Proof.
  split; [by intros w Hp; split|]. intros w1 w2 w3 H12 H23 Hp.
  destruct (H12 Hp) as [Hp2 L2 T2 F2]. destruct (H23 Hp2) as [Hp3 L3 T3 F3]. split; [done| | |].
  - intros k Hk Hlo. by rewrite L3, L2.
  - intros name Hn. by rewrite T3, T2.
  - intros Ho H1. apply F3; [|by apply F2]. destruct Ho as (name & Hn & Hs & Hc). exists name. by rewrite T2.
Qed.

Lemma framed_same b pid w w' : same_but_faults w w' -> framed b pid w w'.
Proof.
  intros [El Er Ef Et] Hp. split.
  - unfold peers_ok. rewrite El. exact Hp.
  - by rewrite El.
  - by rewrite Et.
  - by rewrite Ef.
Qed.

(** A change of links of the block only. *)
Lemma framed_links b pid ls w :
  (peers_ok w -> peers_ok (with_links ls w)) ->
  (peers_ok w -> forall k, ~ block_name b k.2 -> k <> (Netns pid, "lo" : str) -> ls !! k = links w !! k) ->
  framed b pid w (with_links ls w).
Proof. intros Hp Hl H. split; auto. Qed.

Section frames.
Context {N : Nft} (b pid : Z) (Hb : block_ok b).
Notation R := (framed b pid).
Notation same := (framed_same b pid).

Lemma peers_insert k l w :
  (forall b' p, block_ok b' -> peer l = Some p -> block_name b' k.2 -> block_name b' p.2) ->
  peers_ok w -> peers_ok (with_links (<[k := l]> (links w)) w).
Proof.
  intros Hl Hp b' k' l' p Hb' Hk Hpeer Hn. cbn in Hk. apply lookup_insert_Some in Hk as [[<- <-]|[_ Hk]]; [by eapply Hl|by eapply Hp].
Qed.

Lemma block_name_unique b' n : block_ok b' -> block_name b n -> block_name b' n -> b' = b.
Proof.
  intros Hb'. destruct (names_inj b b' Hb Hb') as (Eh & Ec & _). intros [->| ->] [E|E].
  - symmetry. by apply Eh.
  - by apply host_ctr_ne in E.
  - symmetry in E. by apply host_ctr_ne in E.
  - symmetry. by apply Ec.
Qed.

Lemma keeps_set_link f s n : (forall l, peer (f l) = peer l) ->
  block_name b n \/ (s, n) = (Netns pid, "lo" : str) -> keeps R (set_link f s n).
Proof.
  intros Hf Hn. apply keeps_call; [apply _|by apply same|]. intros w. cbn. destruct (links w !! (s, n)) as [l|] eqn:E; cbn; [|done].
  apply framed_links.
  - intros Hp. apply peers_insert; [|done]. intros b' p Hb' Hpe. rewrite Hf in Hpe. by eapply Hp.
  - intros Hp k Hk Hlo. apply lookup_insert_ne. intros <-. by destruct Hn.
Qed.

Lemma keeps_add_veth e : keeps R (add_veth e (host_if_of b) (ctr_if_of b)).
Proof.
  apply keeps_call; [apply _|by apply same|]. intros w. cbn.
  destruct (links w !! (Host, host_if_of b)); [by cbn|]. destruct (links w !! (Host, ctr_if_of b)); [by cbn|]. cbn.
  apply framed_links.
  - intros Hp. change (peers_ok (with_links (<[(Host, host_if_of b) := with_peer (Some (Host, ctr_if_of b)) no_link]>
      (links (with_links (<[(Host, ctr_if_of b) := with_peer (Some (Host, host_if_of b)) no_link]> (links w)) w))) w)).
    assert (Hc : forall b' n m, block_ok b' -> block_name b n -> block_name b m -> block_name b' n -> block_name b' m)
      by (intros b' n m H1 H2 H3 H4; by rewrite (block_name_unique b' n)).
    apply (peers_insert _ _ (with_links _ w)); [|apply peers_insert; [|done]]; intros b' p Hb' [= <-]; cbn; intros Hn;
      by (eapply Hc; [done| | |done]; [by (left + right)|by (left + right)]).
  - intros Hp k Hk _. rewrite !lookup_insert_ne; [done| |]; intros <-; apply Hk; [by right|by left].
Qed.

Lemma peers_delete k w : peers_ok w -> peers_ok (with_links (delete k (links w)) w).
Proof. intros Hp b' k' l p Hb' Hk. cbn in Hk. apply lookup_delete_Some in Hk as [_ Hk]. by eapply Hp. Qed.

Lemma keeps_setns : keeps R (setns (ctr_if_of b) (Netns pid)).
Proof.
  apply keeps_call; [apply _|by apply same|]. intros w. cbn.
  destruct (links w !! (Host, ctr_if_of b)) as [l|] eqn:El; [|by cbn].
  destruct (links w !! (Netns pid, ctr_if_of b)); [by cbn|]. cbn.
  set (ls0 := delete (Host, ctr_if_of b) (links w)).
  assert (Hr : peers_ok w -> peers_ok (with_links (repoint (Host, ctr_if_of b) (Netns pid, ctr_if_of b) ls0 (peer l)) w)
    /\ forall k, ~ block_name b k.2 -> repoint (Host, ctr_if_of b) (Netns pid, ctr_if_of b) ls0 (peer l) !! k = links w !! k).
  { intros Hp. assert (H0 : peers_ok (with_links ls0 w)) by by apply peers_delete.
    assert (Hd : forall k, ~ block_name b k.2 -> ls0 !! k = links w !! k)
      by (intros k Hk; apply lookup_delete_ne; intros <-; apply Hk; by right).
    unfold repoint. destruct (peer l) as [p|] eqn:Epe; [|done]. destruct (ls0 !! p) as [l0|] eqn:E0; [|done].
    destruct (bool_decide _); [|done].
    assert (Hbp : block_name b p.2) by (eapply Hp; [done|exact El|done|by right]).
    split; [|intros k Hk; rewrite lookup_insert_ne; [by apply Hd|by intros <-]].
    apply (peers_insert _ _ (with_links ls0 w)); [|done]. cbn. intros b' q Hb' [= <-] Hn. right. by rewrite (block_name_unique b' p.2). }
  apply framed_links.
  - intros Hp. destruct (Hr Hp) as [Hp' _]. apply (peers_insert _ _ (with_links _ w)); [|done]. cbn. intros b' p Hb' Hpe Hn.
    eapply (Hp b' (Host, ctr_if_of b)); done.
  - intros Hp k Hk _. destruct (Hr Hp) as [_ Hl]. rewrite lookup_insert_ne; [by apply Hl|]. intros <-. apply Hk. by right.
Qed.

Lemma keeps_link_del : keeps R (link_del Host (host_if_of b)).
Proof.
  apply keeps_call; [apply _|by apply same|]. intros w. cbn. destruct (links w !! (Host, host_if_of b)) as [l|] eqn:El; [|by cbn].
  cbn. unfold without. rewrite El. cbn.
  assert (H1 : forall k, ~ block_name b k.2 -> k <> (Host, host_if_of b)) by (intros k Hk ->; apply Hk; by left).
  destruct (peer l) as [p|] eqn:Epe; apply framed_links.
  - intros Hp. apply (peers_delete _ (with_links _ w)), peers_delete. done.
  - intros Hp k Hk _. rewrite !lookup_delete_ne; [done|by apply not_eq_sym, H1|]. intros <-. apply Hk.
    eapply Hp; [done|exact El|done|by left].
  - intros Hp. by apply peers_delete.
  - intros Hp k Hk _. rewrite lookup_delete_ne; [done|by apply not_eq_sym, H1].
Qed.

Lemma framed_tables ts w : (forall name, name <> nft_table_of b -> ts !! name = tables w !! name) -> R w (with_tables ts w).
Proof. intros Ht Hp. by split. Qed.

Lemma keeps_add_masquerade cidr deny : keeps R (add_masquerade (nft_table_of b) cidr deny).
Proof.
  apply keeps_call; [apply _|by apply same|]. intros w. cbn [snd].
  destruct (nft_eval _ (tables w)) as [ts|] eqn:E; [|by cbn]. cbn. apply framed_tables. intros name Hn.
  apply nft_define in E as ->; [|apply nft_table_plain]. by apply lookup_insert_ne.
Qed.

Lemma keeps_del_masquerade : keeps R (del_masquerade (nft_table_of b)).
Proof.
  apply keeps_call; [apply _|by apply same|]. intros w.
  rewrite nft_delete by apply nft_table_plain. destruct (tables w !! nft_table_of b); [|by cbn]. cbn.
  apply framed_tables. intros name Hn. by apply lookup_delete_ne.
Qed.

Lemma framed_forward (v : str) w : (other_table b w -> v = "1") -> R w (with_forward v w).
Proof. intros Hv Hp. split; try done. intros Ho _. cbn. by apply Hv. Qed.

Lemma keeps_enable : keeps R enable_ipv4_forwarding.
Proof.
  apply keeps_bind; [apply _|apply keeps_read_forward; [apply _|by apply same]|]. intros prior.
  apply keeps_bind; [apply _| |intros ?; by apply keeps_ret, _].
  apply keeps_call; [apply _|by apply same|]. intros w. cbn. by apply framed_forward.
Qed.

Lemma keeps_restore prior : keeps R (restore_ip_forward prior).
Proof.
  destruct prior as [v|]; [|by apply keeps_ret, _]. intros w. unfold restore_ip_forward. rewrite net_bind.
  unfold umf_nat_table_present. pose proof (keeps_sys R (framed_same b pid) NetError_Nft w) as Hs.
  destruct (sys NetError_Nft w) as [[u|e] w1]; cbn [snd] in *; [|done].
  destruct (contains "umf-nat-" (nft_list (tables w1))) eqn:Ec; [done|]. etrans; [exact Hs|]. cbn [snd ignoring].
  unfold write_forward, call. rewrite net_bind.
  pose proof (keeps_sys same_but_faults (fun _ _ H => H) NetError_Io w1) as [El Er Ef Et].
  pose proof (keeps_sys R (framed_same b pid) NetError_Io w1) as Hs1.
  destruct (sys NetError_Io w1) as [[u'|e] w2]; cbn [snd] in *; [|done]. etrans; [exact Hs1|]. apply framed_forward.
  intros (name & _ & Hn & Hc). exfalso. rewrite Et in Hn. assert (contains "umf-nat-" (nft_list (tables w1)) = true) by (apply nft_lists; eauto).
  congruence.
Qed.

Ltac keeps_step := first
  [ apply (keeps_sys R same) | apply (keeps_link_index R same) | apply keeps_add_veth | apply keeps_setns
  | apply keeps_set_link; [done|first [by left; left|by left; right|by right]]
  | apply keeps_bind; [apply _| |intros ?] ].

Lemma keeps_host_rest plan mtu : keeps R (host_side_rest (host_if_of b) (ctr_if_of b) plan mtu pid).
Proof. unfold host_side_rest, set_mtu, add_address, set_up. repeat keeps_step. Qed.

Lemma keeps_container_side plan mtu : keeps R (configure_container_side pid (ctr_if_of b) plan mtu).
Proof.
  unfold configure_container_side, current_thread_rt, new_connection, set_mtu, add_address, set_up. repeat keeps_step.
  intros w. cbn. destruct (routes w !! Netns pid); cbn; [done|].
  intros Hp. by split.
Qed.

Lemma keeps_del_link_block : keeps R (del_link (host_if_of b)).
Proof. apply keeps_del_link; [apply _|by apply same|apply keeps_link_del]. Qed.

Lemma keeps_egress plan mtu deny w : R w (setup_egress pid (ctr_if_of b) plan (nft_table_of b) mtu deny w).2.
Proof.
  unfold setup_egress. pose proof (keeps_container_side plan mtu w) as H1.
  destruct (configure_container_side _ _ _ _ w) as [[u|e] w1]; cbn in H1 |- *; [|done].
  pose proof (keeps_enable w1) as H2. destruct (enable_ipv4_forwarding w1) as [[prior|e] w2]; cbn in H2 |- *; [|by trans w1].
  pose proof (keeps_add_masquerade (plan_cidr plan) deny w2) as H3.
  destruct (add_masquerade _ _ _ w2) as [[u'|e] w3]; cbn in H3 |- *; (trans w1; [done|]; by trans w2).
Qed.

Lemma keeps_egress_or_rollback plan mtu deny :
  keeps R (egress_or_rollback pid (host_if_of b) (ctr_if_of b) plan (nft_table_of b) mtu deny).
Proof.
  intros w. unfold egress_or_rollback. pose proof (keeps_egress plan mtu deny w) as H1.
  destruct (setup_egress _ _ _ _ _ _ w) as [[prior|[e prior]] w1]; cbn in H1 |- *; [done|].
  pose proof (keeps_del_masquerade w1) as H2. destruct (del_masquerade _ w1) as [r2 w2]. cbn in H2.
  pose proof (keeps_restore prior w2) as H3. destruct (restore_ip_forward prior w2) as [r3 w3]. cbn in H3.
  pose proof (keeps_del_link_block w3) as H4. destruct (del_link _ w3) as [r4 w4]. cbn in H4 |- *.
  trans w1; [done|]. trans w2; [done|]. by trans w3.
Qed.

Lemma keeps_drop net w : host_ifname net = host_if_of b -> nft_table net = nft_table_of b -> R w (drop_net net w).
Proof.
  intros Eh Et. unfold drop_net. rewrite Eh, Et. pose proof (keeps_del_masquerade w) as H2.
  destruct (del_masquerade _ w) as [r2 w2]. cbn in H2.
  assert (H3 : R w2 ((_ ← current_thread_rt; del_link (host_if_of b)) w2).2)
    by (apply keeps_bind; [apply _|apply (keeps_sys R same)|intros _; apply keeps_del_link_block]).
  destruct ((_ ← current_thread_rt; del_link (host_if_of b)) w2) as [r3 w3]. cbn in H3.
  trans w2; [done|]. trans w3; [done|apply keeps_restore].
Qed.
End frames.

(** ** A claimed block was free *)

Definition never_exists {A} (m : netio A) : Prop := forall w w', m w <> (Err NetError_LinkExists, w').

Lemma never_bind {A B} (m : netio A) (k : A -> netio B) :
  never_exists m -> (forall a, never_exists (k a)) -> never_exists (m ≫= k).
Proof.
  intros Hm Hk w w'. rewrite net_bind. destruct (m w) as [[a|e] w1] eqn:E; [apply Hk|].
  intros [= -> ->]. by eapply Hm.
Qed.
Lemma never_sys mk : (forall t, mk t <> NetError_LinkExists) -> never_exists (sys mk).
Proof. intros H w w'. unfold sys. destruct (faults w) as [|[t|] fs]; try done. intros [= E _]. by eapply H. Qed.
Lemma never_call {A} mk (f : netio A) : (forall t, mk t <> NetError_LinkExists) -> never_exists f -> never_exists (call mk f).
Proof. intros H Hf. apply never_bind; [by apply never_sys|done]. Qed.
Lemma never_link_index s n : never_exists (link_index s n).
Proof. apply never_call; [done|]. intros w w'. by destruct (links w !! (s, n)). Qed.
Lemma never_set_link f s n : never_exists (set_link f s n).
Proof. apply never_call; [done|]. intros w w'. by destruct (links w !! (s, n)). Qed.

Section claim.
Context {N : Nft}.

Ltac never_step := first
  [ apply never_sys; done | apply never_link_index | apply never_set_link | apply never_bind; [|intros ?] ].

Lemma never_host_rest h c plan mtu pid : never_exists (host_side_rest h c plan mtu pid).
Proof.
  unfold host_side_rest, set_mtu, add_address, set_up. repeat never_step.
  intros w w'. cbn. destruct (links w !! (Host, c)); [|done]. by destruct (links w !! (Netns pid, c)).
Qed.

Lemma never_egress pid h c plan t mtu deny : never_exists (egress_or_rollback pid h c plan t mtu deny).
Proof.
  assert (H1 : never_exists (configure_container_side pid c plan mtu)).
  { unfold configure_container_side, current_thread_rt, new_connection, set_mtu, add_address, set_up. repeat never_step.
    intros w w'. cbn. by destruct (routes w !! Netns pid). }
  assert (H2 : never_exists enable_ipv4_forwarding).
  { unfold enable_ipv4_forwarding, write_forward, call. repeat never_step; intros w w'; try done.
    unfold read_forward. by destruct (sys NetError_Io w) as [[|] ?]. }
  assert (H3 : forall x, never_exists (nft_apply x)).
  { intros x. apply never_call; [done|]. intros w w'. by destruct (nft_eval x (tables w)). }
  intros w w'. unfold egress_or_rollback, setup_egress, add_masquerade.
  destruct (configure_container_side _ _ _ _ w) as [[u|e] w1] eqn:E1.
  2: { repeat case_match. intros [= -> ->]. by eapply H1. }
  destruct (enable_ipv4_forwarding w1) as [[prior|e] w2] eqn:E2.
  2: { repeat case_match. intros [= -> ->]. by eapply H2. }
  destruct (nft_apply _ w2) as [[u'|e] w3] eqn:E3; [done|].
  repeat case_match. intros [= -> ->]. by eapply H3.
Qed.

Lemma add_veth_outcome b pid w r w' : block_ok b ->
  add_veth NetError_LinkExists (host_if_of b) (ctr_if_of b) w = (r, w') ->
  (same_but_faults w w' /\ is_ok r = false)
  \/ (links w !! (Host, host_if_of b) = None /\ r = Ok tt /\ framed b pid w w').
Proof.
  intros Hb H. pose proof (keeps_add_veth b pid Hb NetError_LinkExists w) as F. rewrite H in F. cbn in F. revert H.
  unfold add_veth, call. rewrite net_bind.
  pose proof (keeps_sys same_but_faults (fun _ _ H => H) nl w) as Hs. destruct (sys nl w) as [[[]|e] w1]; cbn in Hs.
  - rewrite (sf_links _ _ Hs). destruct (links w !! (Host, host_if_of b)); [intros [= <- <-]; left; by split|].
    destruct (links w !! (Host, ctr_if_of b)); [intros [= <- <-]; left; by split|]. intros [= <- <-]. by right.
  - intros [= <- <-]. left. by split.
Qed.

Lemma setup_inner_outcome env pid base b mtu w r w' : block_ok b ->
  setup_inner env pid base b mtu w = (r, w') ->
  (same_but_faults w w' /\ is_ok r = false)
  \/ (links w !! (Host, host_if_of b) = None /\ r <> Err NetError_LinkExists /\ framed b pid w w').
Proof.
  intros Hb. unfold setup_inner. destruct (from_env env) as [policy|e]; [|intros [= <- <-]; left; by split].
  intros H. assert (Hs : forall mk w, same_but_faults w (sys mk w).2) by (intros; by apply (keeps_sys same_but_faults (fun _ _ H => H))).
  unfold current_thread_rt in H. rewrite net_bind in H. pose proof (Hs NetError_Runtime w) as S1.
  destruct (sys NetError_Runtime w) as [[[]|e] w1]; cbn in S1; [|injection H as <- <-; left; by split].
  unfold setup_host_side, new_connection in H. rewrite !net_bind in H. pose proof (Hs NetError_Io w1) as S2.
  destruct (sys NetError_Io w1) as [[[]|e] w2]; cbn in S2; [|injection H as <- <-; left; split; [by trans w1|done]].
  assert (S02 : same_but_faults w w2) by by trans w1.
  rewrite net_bind in H. destruct (add_veth _ _ _ w2) as [r3 w3] eqn:E3. apply (add_veth_outcome b pid) in E3 as [[S3 Hr]|(Hn & -> & F3)]; [| |done].
  - destruct r3 as [|e]; [done|]. injection H as <- <-. left. split; [by trans w2|done].
  - right. rewrite (sf_links _ _ S02) in Hn. split; [done|].
    assert (F03 : framed b pid w w3) by (trans w2; [by apply framed_same|done]).
    pose proof (keeps_host_rest b pid Hb (for_block base b) mtu w3) as F4.
    destruct (host_side_rest _ _ _ _ _ w3) as [[u|e] w4] eqn:E4; cbn in F4.
    + pose proof (keeps_egress_or_rollback b pid Hb (for_block base b) mtu (denied_v4_cidrs policy) w4) as F5.
      rewrite H in F5. cbn in F5. split; [intros ->; by eapply never_egress|]. trans w3; [done|]. by trans w4.
    + injection H as <- <-. split; [|by trans w3]. intros [= ->]. by eapply never_host_rest.
Qed.
End claim.

(** ** What a successful setup leaves *)

Lemma set_link_ok f s n w u w' : set_link f s n w = (Ok u, w') ->
  exists l, links w !! (s, n) = Some l /\ links w' = <[(s, n) := f l]> (links w) /\ tables w' = tables w /\ ip_forward w' = ip_forward w.
Proof.
  intros [fs H]%call_ok. cbn in H. destruct (links w !! (s, n)) as [l|] eqn:E; [|done]. injection H as <- <-. by exists l.
Qed.

Lemma link_index_ok s n w u w' : link_index s n w = (Ok u, w') -> links w' = links w.
Proof. intros [fs H]%call_ok. cbn in H. destruct (links w !! (s, n)); [|done]. by simplify_eq. Qed.

Lemma sys_links mk w u w' : sys mk w = (Ok u, w') -> links w' = links w.
Proof. by intros [fs ->]%sys_ok. Qed.

Lemma add_veth_ok e a b w u w' : add_veth e a b w = (Ok u, w') ->
  links w' = <[(Host, a) := with_peer (Some (Host, b)) no_link]> (<[(Host, b) := with_peer (Some (Host, a)) no_link]> (links w)).
Proof.
  intros [fs H]%call_ok. cbn in H. destruct (links w !! (Host, a)); [done|]. destruct (links w !! (Host, b)); [done|].
  by injection H as <- <-.
Qed.

(** The computation that came first in a successful run. *)
Ltac first_ran H lem :=
  let E := fresh "E" in let u := fresh "u" in let w1 := fresh "w" in
  apply net_bind_ok in H as (u & w1 & E & H); apply lem in E.

Definition end_ok (p : Space * str) (addr : Z) (o : option Link) : Prop :=
  exists l, o = Some l /\ peer l = Some p /\ l_up l = true /\ l_addrs l = [(addr, 30)].

Section established.
Context {N : Nft}.

Lemma host_side_ok b plan mtu pid w u w' : plan_prefix plan = 30 ->
  setup_host_side (host_if_of b) (ctr_if_of b) plan mtu pid w = (Ok u, w') ->
  end_ok (Netns pid, ctr_if_of b) (plan_host plan) (links w' !! (Host, host_if_of b))
  /\ exists m, links w' !! (Netns pid, ctr_if_of b)
       = Some {| peer := Some (Host, host_if_of b); l_mtu := m; l_addrs := []; l_up := false; controller := None |}.
Proof.
  intros Hp H. unfold setup_host_side, host_side_rest in H. pose proof (host_ctr_ne b b) as Hne.
  first_ran H sys_links. first_ran H add_veth_ok. first_ran H link_index_ok. first_ran H link_index_ok.
  first_ran H set_link_ok. destruct E3 as (l1 & L1 & E3 & _).
  first_ran H set_link_ok. destruct E4 as (l2 & L2 & E4 & _).
  first_ran H set_link_ok. destruct E5 as (l3 & L3 & E5 & _).
  apply call_ok in H as [fs H]. cbn in H.
  assert (Hk : (Host, host_if_of b) <> (Host, ctr_if_of b)) by congruence.
  rewrite E2, E1, E0 in L1. rewrite lookup_insert_eq in L1. injection L1 as <-.
  rewrite E3, lookup_insert_eq in L2. injection L2 as <-. rewrite E4, lookup_insert_eq in L3. injection L3 as <-.
  rewrite E5, E4, E3, E2, E1, E0, !insert_insert_eq in H.
  rewrite (lookup_insert_ne _ (Host, host_if_of b) (Host, ctr_if_of b)) in H by done. rewrite lookup_insert_eq in H.
  match type of H with match ?o with _ => _ end = _ => destruct o; [done|] end. injection H as _ <-. cbn [links with_links].
  unfold repoint. cbn [peer with_peer no_link].
  rewrite (lookup_delete_ne _ (Host, ctr_if_of b) (Host, host_if_of b)), lookup_insert_eq by done. cbn [peer].
  rewrite bool_decide_true by done. split; [|eexists; by rewrite lookup_insert_eq].
  rewrite lookup_insert_ne, lookup_insert_eq by done. eexists. split; [done|]. cbn. by rewrite Hp.
Qed.

Lemma container_side_ok b plan mtu pid w u w' m : plan_prefix plan = 30 ->
  links w !! (Netns pid, ctr_if_of b)
    = Some {| peer := Some (Host, host_if_of b); l_mtu := m; l_addrs := []; l_up := false; controller := None |} ->
  configure_container_side pid (ctr_if_of b) plan mtu w = (Ok u, w') ->
  end_ok (Host, host_if_of b) (container plan) (links w' !! (Netns pid, ctr_if_of b))
  /\ links w' !! (Host, host_if_of b) = links w !! (Host, host_if_of b).
Proof.
  intros Hp Hc H. unfold configure_container_side in H.
  assert (Hlo : ctr_if_of b <> "lo") by (unfold ctr_if_of; by intros [=]).
  do 5 first_ran H sys_links. first_ran H link_index_ok. first_ran H set_link_ok. destruct E5 as (l0 & L0 & E5 & _).
  first_ran H link_index_ok. first_ran H set_link_ok. destruct E7 as (l1 & L1 & E7 & _).
  first_ran H set_link_ok. destruct E8 as (l2 & L2 & E8 & _). first_ran H set_link_ok. destruct E9 as (l3 & L3 & E9 & _).
  apply call_ok in H as [fs H]. cbn in H. match type of H with match ?o with _ => _ end = _ => destruct o; [done|] end.
  injection H as _ <-. cbn [links with_routes with_faults].
  rewrite E6, E5, lookup_insert_ne, E4, E3, E2, E1, E0, E, Hc in L1 by congruence. injection L1 as <-.
  rewrite E7, lookup_insert_eq in L2. injection L2 as <-. rewrite E8, lookup_insert_eq in L3. injection L3 as <-.
  rewrite E9, E8, E7, !insert_insert_eq, E6, E5. split.
  - rewrite lookup_insert_eq. eexists. split; [done|]. cbn. by rewrite Hp.
  - rewrite !lookup_insert_ne, E4, E3, E2, E1, E0, E by done. done.
Qed.

Lemma egress_ok pid b plan mtu deny w prior w' : plan_prefix plan = 30 ->
  setup_egress pid (ctr_if_of b) plan (nft_table_of b) mtu deny w = (Ok prior, w') ->
  ip_forward w' = "1"
  /\ (exists bodies, tables w' !! nft_table_of b = Some bodies /\ masquerade_body (plan_cidr plan) deny ∈ bodies)
  /\ exists w1, configure_container_side pid (ctr_if_of b) plan mtu w = (Ok tt, w1) /\ links w' = links w1.
Proof.
  intros Hp. unfold setup_egress. destruct (configure_container_side _ _ _ _ w) as [[[]|e] w1] eqn:E1; [|done].
  destruct (enable_ipv4_forwarding w1) as [[p|e] w2] eqn:E2; [|done].
  destruct (add_masquerade _ _ _ w2) as [[u'|e] w3] eqn:E3; [|done]. intros [= -> ->].
  apply net_bind_ok in E2 as (pr & w1' & Er & (u0 & w2' & Ew & E2)%net_bind_ok). injection E2 as _ <-.
  apply call_ok in Ew as [fs Ew]. injection Ew as _ <-.
  assert (Hr : links w1' = links w1).
  { unfold read_forward in Er. destruct (sys NetError_Io w1) as [[u1|e] w1''] eqn:Es; injection Er as _ <-; [by apply sys_links in Es|].
    unfold sys in Es. destruct (faults w1) as [|[t|] ?]; try done. by injection Es as _ <-. }
  apply call_ok in E3 as [fs' E3]. destruct (nft_eval _ _) as [ts|] eqn:En; [|done]. injection E3 as _ <-.
  apply nft_define in En as ->; [|apply nft_table_plain]. cbn. split; [done|]. split; [|by exists w1].
  rewrite lookup_insert_eq. eexists. split; [done|]. apply elem_of_app. right. by apply list_elem_of_singleton.
Qed.

(** A network in use: the container's process, the environment it was set up in
    and the guard. *)
Record Live := { live_pid : Z; live_env : option str; live_net : ContainerNet }.

(** The addresses of its block. *)
Definition subnet_of (e : Live) : Z := container_ip (live_net e) - 2.

Record up_at (b : Z) (e : Live) (w : World) : Prop := {
  up_host : host_ifname (live_net e) = host_if_of b;
  up_table : nft_table (live_net e) = nft_table_of b;
  up_net : exists base, 0 <= base < 2 ^ 32 /\ subnet_of e = network (for_block base b);
  up_host_end : end_ok (Netns (live_pid e), ctr_if_of b) (container_ip (live_net e) - 1) (links w !! (Host, host_if_of b));
  up_ctr_end : end_ok (Host, host_if_of b) (container_ip (live_net e)) (links w !! (Netns (live_pid e), ctr_if_of b));
  up_policed : exists policy bodies, from_env (live_env e) = Ok policy /\ tables w !! nft_table_of b = Some bodies
    /\ masquerade_body (subnet_text (subnet_of e)) (denied_v4_cidrs policy) ∈ bodies
}.

Lemma setup_inner_ok env pid base b mtu w net w' : 0 <= base < 2 ^ 32 -> block_ok b ->
  setup_inner env pid base b mtu w = (Ok net, w') ->
  up_at b {| live_pid := pid; live_env := env; live_net := net |} w' /\ ip_forward w' = "1".
Proof.
  intros Hbase Hb H. unfold setup_inner in H. destruct (from_env env) as [policy|e] eqn:Ep; [|done].
  first_ran H sys_links. apply net_bind_ok in H as (u1 & w1 & Eh & H).
  apply host_side_ok in Eh as [Hh [m Hc]]; [|done]. unfold egress_or_rollback in H.
  destruct (setup_egress _ _ _ _ _ _ w1) as [[prior|[e pr]] w2] eqn:Ee; [|by repeat case_match].
  injection H as <- <-. apply egress_ok in Ee as (Hf & (bodies & Ht & Hbody) & w3 & Econ & El); [|done].
  split; [|exact Hf]. eapply container_side_ok in Econ as [Hce Hhe]; [|done|exact Hc].
  split; unfold subnet_of; cbn [live_net live_pid live_env host_ifname nft_table container_ip]; rewrite ?El; try done.
  - exists base. split; [done|]. cbn [for_block network container]. lia.
  - rewrite Hhe.
    match goal with |- end_ok _ ?x _ => replace x with (plan_host (for_block base b)) by (cbn [for_block plan_host container]; lia) end.
    exact Hh.
  - exists policy, bodies. split; [done|]. split; [done|].
    match goal with |- masquerade_body (subnet_text ?x) _ ∈ _ =>
      replace x with (network (for_block base b)) by (cbn [for_block network container]; lia) end.
    exact Hbody.
Qed.

(** ** Builds that share the host *)

Definition System : Type := World * list Live.

(** A process in a fresh network namespace, and its end. *)
Definition spawn (pid : Z) (w : World) : World := with_links (<[(Netns pid, "lo" : str) := no_link]> (links w)) w.
Definition is_fresh (pid : Z) (w : World) : Prop := forall name, links w !! (Netns pid, name) = None.
Definition survives (pid : Z) (x : (Space * str) * Link) : Prop :=
  x.1.1 <> Netns pid /\ forall p, peer x.2 = Some p -> p.1 <> Netns pid.
#[export] Instance survives_dec pid x : Decision (survives pid x).
Proof.
  unfold survives. destruct (peer x.2) as [p|].
  - destruct (decide (x.1.1 <> Netns pid /\ p.1 <> Netns pid)) as [Hd|Hd]; [left|right].
    + split; [apply Hd|]. intros q [= <-]. apply Hd.
    + intros [H1 H2]. apply Hd. split; [done|by apply H2].
  - destruct (decide (x.1.1 <> Netns pid)) as [Hd|Hd]; [left; by split|right; by intros [H1 _]].
Defined.
Definition exit_process (pid : Z) (w : World) : World := with_links (filter (survives pid) (links w)) w.

(** Setups and ends of builds, each with whatever faults the kernel has.  A setup is
    one step, and so are the exit of a build's process and the drop of its guard:
    these are the schedules in which no two of them overlap.  In
    others a lease or the forwarding switch can be lost
    ([HostNetExample.lease_lost], [HostNetExample.forwarding_lost]). *)
Inductive build_step : System -> System -> Prop :=
| build_up env pid opts fs w live net w' :
    is_fresh pid w -> 0 <= subnet_base opts < 2 ^ 32 ->
    setup env pid opts (with_faults fs (spawn pid w)) = (Ok net, w') ->
    build_step (w, live) (w', {| live_pid := pid; live_env := env; live_net := net |} :: live)
| build_fails env pid opts fs w live e w' :
    is_fresh pid w -> 0 <= subnet_base opts < 2 ^ 32 ->
    setup env pid opts (with_faults fs (spawn pid w)) = (Err e, w') ->
    build_step (w, live) (w', live)
| build_ends fs w live1 e live2 :
    build_step (w, live1 ++ e :: live2) (drop_net (live_net e) (with_faults fs (exit_process (live_pid e) w)), live1 ++ live2).

Inductive built_from (w : World) : System -> Prop :=
| built_start : built_from w (w, [])
| built_step st st' : built_from w st -> build_step st st' -> built_from w st'.

(** Every network in use is up on a block of its own. *)
Record networks_ok (st : System) : Prop := {
  no_peers : peers_ok st.1;
  no_pids : NoDup (live_pid <$> st.2);
  no_forward : st.2 <> [] -> ip_forward st.1 = "1";
  no_blocks : exists blocks, NoDup blocks /\ Forall2 (fun b e => block_ok b /\ up_at b e st.1) blocks st.2
}.

Lemma up_at_framed b b0 pid e w w' : block_ok b -> block_ok b0 -> b <> b0 ->
  framed_by b0 pid w w' -> up_at b e w -> up_at b e w'.
Proof.
  intros Hb Hb0 Hne [_ Hl Ht _] [H1 H2 H3 H4 H5 H6].
  assert (Hn : forall n, block_name b n -> ~ block_name b0 n) by (intros n Hn Hn0; apply Hne; by eapply block_name_unique).
  assert (Hlo : forall s n, block_name b n -> (s, n) <> (Netns pid, "lo" : str))
    by (intros s n [->| ->]; unfold host_if_of, ctr_if_of; by intros [= _]).
  split; try done.
  - rewrite Hl; [done|by apply Hn; left|by apply Hlo; left].
  - rewrite Hl; [done|by apply Hn; right|by apply Hlo; right].
  - rewrite Ht; [done|]. intros E. apply Hne. by apply (names_inj b b0).
Qed.

Lemma up_at_links b e w w' :
  links w' !! (Host, host_if_of b) = links w !! (Host, host_if_of b) ->
  links w' !! (Netns (live_pid e), ctr_if_of b) = links w !! (Netns (live_pid e), ctr_if_of b) ->
  tables w' = tables w -> up_at b e w -> up_at b e w'.
Proof. intros E1 E2 E3 [H1 H2 H3 H4 H5 H6]. split; rewrite ?E1, ?E2, ?E3; done. Qed.

Lemma up_at_other b b0 e w : block_ok b -> block_ok b0 -> b <> b0 -> up_at b e w -> other_table b0 w.
Proof.
  intros Hb Hb0 Hne [_ _ _ _ _ (policy & bodies & _ & Ht & _)]. exists (nft_table_of b). split_and!.
  - intros E. apply Hne. by apply (names_inj b b0).
  - by rewrite Ht.
  - apply contains_prefix.
Qed.

(** A setup of one block leaves the networks of others in order. *)
Lemma networks_framed b0 pid w w' blocks live :
  block_ok b0 -> b0 ∉ blocks -> framed b0 pid w w' -> peers_ok w -> (live <> [] -> ip_forward w = "1") ->
  Forall2 (fun b e => block_ok b /\ up_at b e w) blocks live ->
  peers_ok w' /\ (live <> [] -> ip_forward w' = "1") /\ Forall2 (fun b e => block_ok b /\ up_at b e w') blocks live.
Proof.
  intros Hb0 Hn Hf Hp Hfw HF. specialize (Hf Hp). split_and!; [by apply Hf| |].
  - intros Hl. apply (fb_forward _ _ _ _ Hf); [|by apply Hfw]. destruct HF as [|b e bs es [Hb Hu]]; [done|].
    eapply (up_at_other b b0); [done|done| |done]. intros ->. apply Hn. by left.
  - clear Hfw. induction HF as [|b e bs es [Hb Hu] _ IH]; constructor.
    + split; [done|]. eapply (up_at_framed b b0); [done|done| |done|done]. intros ->. apply Hn. by left.
    + apply IH. intros Hin. apply Hn. by right.
Qed.

Lemma framed_faults b pid w w' w'' : framed b pid w' w'' -> same_but_faults w w' -> framed b pid w w''.
Proof. intros Hf Hs. trans w'; [by apply framed_same|done]. Qed.

Lemma try_blocks_outcome env opts pid start fuel : forall offset w r w',
  0 <= subnet_base opts < 2 ^ 32 -> try_blocks env opts pid start fuel offset w = (r, w') ->
  (same_but_faults w w' /\ is_ok r = false)
  \/ exists b, block_ok b /\ links w !! (Host, host_if_of b) = None /\ framed b pid w w'
       /\ forall net, r = Ok net -> up_at b {| live_pid := pid; live_env := env; live_net := net |} w' /\ ip_forward w' = "1".
Proof.
  induction fuel as [|fuel IH]; intros offset w r w' Hbase H; cbn [try_blocks] in H; [injection H as <- <-; left; by split|].
  set (b := (start + offset) mod SUBNET_BLOCKS) in H.
  assert (Hb : block_ok b) by (apply Z.mod_pos_bound; unfold SUBNET_BLOCKS; lia).
  destruct (setup_inner env pid (subnet_base opts) b (mtu opts) w) as [r1 w1] eqn:E1.
  pose proof E1 as [[Hs Hr]|(Hn & Hr & Hf)]%setup_inner_outcome; [| |done].
  - destruct r1 as [net|e]; [done|].
    destruct (decide (e = NetError_LinkExists)) as [->|He].
    + apply IH in H as [[Hs' Hr']|(b' & Hb' & Hl & Hf & Hok)]; [| |done]; [left; split; [by trans w1|done]|].
      right. exists b'. rewrite (sf_links _ _ Hs) in Hl. split_and!; [done|done|by eapply framed_faults|done].
    + left. destruct e; try done; injection H as <- <-; by split.
  - right. exists b. destruct r1 as [net|e].
    + injection H as <- <-. split_and!; [done|done|done|]. intros net' [= <-]. by eapply setup_inner_ok.
    + assert (He : e <> NetError_LinkExists) by (by intros ->).
      destruct e; try done; injection H as <- <-; split_and!; done.
Qed.

Lemma names_not_lo b n : block_name b n -> n <> "lo".
Proof. intros [->| ->]; unfold host_if_of, ctr_if_of; by intros [=]. Qed.

(** The parts of [networks_ok] that are about the world. *)
Definition in_order (blocks : list Z) (live : list Live) (w : World) : Prop :=
  peers_ok w /\ (live <> [] -> ip_forward w = "1") /\ Forall2 (fun b e => block_ok b /\ up_at b e w) blocks live.

Lemma in_order_spawn blocks live fs pid w : in_order blocks live w -> in_order blocks live (with_faults fs (spawn pid w)).
Proof.
  intros (Hp & Hf & HF). split_and!; [|done|].
  - intros b k l p Hb Hk Hpe Hn. cbn in Hk. apply lookup_insert_Some in Hk as [[<- <-]|[_ Hk]]; [done|by eapply Hp].
  - eapply Forall2_impl; [exact HF|]. intros b e [Hb Hu]. split; [done|].
    apply (up_at_links b e w); [| |done|exact Hu]; cbn; apply lookup_insert_ne; [done|].
    unfold ctr_if_of. by intros [=].
Qed.

Lemma in_order_same blocks live w w' : same_but_faults w w' -> in_order blocks live w -> in_order blocks live w'.
Proof.
  intros [El Er Ef Et] (Hp & Hf & HF). split_and!.
  - unfold peers_ok. by rewrite El.
  - by rewrite Ef.
  - eapply Forall2_impl; [exact HF|]. intros b e [Hb Hu]. split; [done|]. apply (up_at_links b e w); [| | |exact Hu]; by rewrite ?El.
Qed.

Lemma in_order_setup env pid opts w blocks live r w' : 0 <= subnet_base opts < 2 ^ 32 ->
  in_order blocks live w -> setup env pid opts w = (r, w') ->
  match r with
  | Ok net => exists b, (b ∉ blocks) /\ in_order (b :: blocks) ({| live_pid := pid; live_env := env; live_net := net |} :: live) w'
  | Err _ => in_order blocks live w'
  end.
Proof.
  intros Hbase HI. unfold setup. generalize (Z.to_nat SUBNET_BLOCKS). intros fuel H. apply try_blocks_outcome in H as [[Hs Hr]|(b & Hb & Hl & Hf & Hok)]; [| |done].
  - destruct r as [net|e]; [done|]. by eapply in_order_same.
  - destruct HI as (Hp & Hfw & HF).
    assert (Hnb : b ∉ blocks).
    { intros Hin. apply list_elem_of_lookup in Hin as [i Hi]. eapply Forall2_lookup_l in HF as (e & _ & _ & Hu); [|done].
      destruct (up_host_end _ _ _ Hu) as (l & El & _). congruence. }
    destruct (networks_framed b pid w w' blocks live Hb Hnb Hf Hp Hfw HF) as (Hp' & Hfw' & HF').
    destruct r as [net|e]; [|by split]. destruct (Hok net eq_refl) as [Hu H1]. exists b. split; [done|]. split_and!; [done|done|].
    by constructor.
Qed.

Lemma in_order_exit blocks live pid w : pid ∉ (live_pid <$> live) ->
  in_order blocks live w -> in_order blocks live (exit_process pid w).
Proof.
  intros Hpid (Hp & Hf & HF). split_and!; [|done|].
  - intros b k l p Hb Hk Hpe Hn. cbn in Hk. apply map_lookup_filter_Some in Hk as [Hk _]. by eapply Hp.
  - clear Hf. induction HF as [|b e bs es [Hb Hu] _ IH]; constructor; [|apply IH; set_solver].
    split; [done|]. assert (Hne : live_pid e <> pid) by set_solver.
    destruct (up_host_end _ _ _ Hu) as (l1 & E1 & P1 & _). destruct (up_ctr_end _ _ _ Hu) as (l2 & E2 & P2 & _).
    apply (up_at_links b e w); [| |done|exact Hu]; cbn; rewrite ?E1, ?E2; apply map_lookup_filter_Some; (split; [done|]); split; cbn;
      rewrite ?P1, ?P2; try congruence; intros p [= <-]; cbn; congruence.
Qed.

Lemma in_order_perm blocks live w : in_order blocks live w -> forall live1 e live2, live = live1 ++ e :: live2 ->
  exists b1 b b2, blocks = b1 ++ b :: b2 /\ block_ok b /\ up_at b e w /\ in_order (b1 ++ b2) (live1 ++ live2) w.
Proof.
  intros (Hp & Hf & HF) live1 e live2 ->. apply Forall2_app_inv_r in HF as (b1 & bs & F1 & F2 & ->).
  apply Forall2_cons_inv_r in F2 as (b & b2 & [Hb Hu] & F2 & ->). exists b1, b, b2. split_and!; try done.
  split_and!; [done|intros _; apply Hf; by destruct live1|by apply Forall2_app].
Qed.

Lemma networks_step st st' : networks_ok st -> build_step st st' -> networks_ok st'.
Proof.
  intros [Hp Hn Hf (blocks & HB & HF)] H. assert (HI : in_order blocks st.2 st.1) by by split.
  destruct H as [env pid opts fs w live net w' Hfr Hb H|env pid opts fs w live e w' Hfr Hb H|fs w live1 e live2]; cbn [fst snd] in *.
  - eapply in_order_setup in H as (b & Hnb & Hp' & Hf' & HF'); [|done|by apply in_order_spawn]. split; cbn [fst snd]; [done| |done|].
    + apply NoDup_cons. split; [|done]. cbn. intros (e & Ee & Hin)%list_elem_of_fmap.
      apply list_elem_of_lookup in Hin as [i Hi]. eapply Forall2_lookup_r in HF as (b' & _ & _ & Hu); [|done].
      destruct (up_ctr_end _ _ _ Hu) as (l & El & _). rewrite <- Ee, Hfr in El. done.
    + exists (b :: blocks). split; [by apply NoDup_cons|done].
  - eapply in_order_setup in H as (Hp' & Hf' & HF'); [|done|by apply in_order_spawn]. split; eauto.
  - eapply in_order_perm in HI as (b1 & b & b2 & -> & Hb & Hu & HI); [|done].
    rewrite fmap_app, fmap_cons in Hn. apply NoDup_app in Hn as (N1 & N12 & [Ne N2]%NoDup_cons).
    apply NoDup_app in HB as (B1 & B12 & [Be B2]%NoDup_cons).
    apply (in_order_exit _ _ (live_pid e)) in HI; [|rewrite fmap_app; set_solver].
    apply (in_order_same _ _ _ (with_faults fs (exit_process (live_pid e) w))) in HI as (Hp' & Hf' & HF'); [|by split].
    edestruct (networks_framed b (live_pid e)) as (Hp2 & Hf2 & HF2); [exact Hb| |apply keeps_drop; apply Hu || done|exact Hp'|exact Hf'|exact HF'|].
    + set_solver.
    + split; cbn [fst snd]; [done| |done|].
      * rewrite fmap_app. apply NoDup_app. set_solver.
      * exists (b1 ++ b2). split; [apply NoDup_app; set_solver|done].
Qed.

Lemma networks_built w st : peers_ok w -> built_from w st -> networks_ok st.
Proof.
  intros Hp H. induction H as [|st st' _ IH Hs]; [|by eapply networks_step].
  split; [done|by constructor|done|]. exists []. split; constructor.
Qed.

Lemma up_at_subnet b e w a : block_ok b -> up_at b e w ->
  (cidr_matches a (subnet_text (subnet_of e)) = true <-> subnet_of e <= a < subnet_of e + 4)
  /\ subnet_of e mod 65536 = b * 4.
Proof.
  intros Hb [_ _ (base & Hbase & En) _ _ _]. destruct (for_block_network base b Hbase Hb) as (Hr & Hm & _). rewrite <- En in Hr, Hm.
  split; [|done]. apply subnet_matches; [done|].
  rewrite (Z.div_mod (subnet_of e) 65536), Hm by lia. replace (65536 * (subnet_of e / 65536) + b * 4) with ((16384 * (subnet_of e / 65536) + b) * 4) by lia.
  apply Z.mod_mul. lia.
Qed.

Lemma blocks_disjoint b b' e e' w a : block_ok b -> block_ok b' -> b <> b' -> up_at b e w -> up_at b' e' w ->
  ~ (cidr_matches a (subnet_text (subnet_of e)) = true /\ cidr_matches a (subnet_text (subnet_of e')) = true).
Proof.
  intros Hb Hb' Hne Hu Hu' [H1 H2].
  destruct (up_at_subnet b e w a Hb Hu) as [M E]. destruct (up_at_subnet b' e' w a Hb' Hu') as [M' E'].
  apply M in H1. apply M' in H2. Z.to_euclidean_division_equations. lia.
Qed.
End established.

(** C17 (invariant): The networks of builds that share a host do not get in each
    other's way, as long as their setups and their ends, from the exit of the
    process to the drop of the guard, do not overlap each other and no machine's
    network is torn down meanwhile.  In any such sequence of builds, on a host whose links
    with the names of builds are paired among themselves, and
    whatever fails in the kernel, every network in use has forwarding switched
    on, its link up with its peer in the container's namespace, and a table with
    the rules of its egress policy for exactly the four addresses of its subnet,
    and no address belongs to the subnets of two networks. *)
Theorem live_networks_policed {N : Nft} w w' live :
  peers_ok w -> built_from w (w', live) ->
  (forall e, e ∈ live ->
     ip_forward w' = "1"
     /\ (exists b, end_ok (Netns (live_pid e), ctr_if_of b) (subnet_of e + 1) (links w' !! (Host, host_ifname (live_net e))))
     /\ (exists policy bodies, from_env (live_env e) = Ok policy /\ tables w' !! nft_table (live_net e) = Some bodies
           /\ masquerade_body (subnet_text (subnet_of e)) (denied_v4_cidrs policy) ∈ bodies)
     /\ forall a, cidr_matches a (subnet_text (subnet_of e)) = true <-> subnet_of e <= a < subnet_of e + 4)
  /\ forall i j e e' a, live !! i = Some e -> live !! j = Some e' -> i <> j ->
       ~ (cidr_matches a (subnet_text (subnet_of e)) = true /\ cidr_matches a (subnet_text (subnet_of e')) = true).
Proof.
  intros Hp H. apply networks_built in H as [_ _ Hf (blocks & HB & HF)]; [|done]. cbn [fst snd] in *. split.
  - intros e Hin. apply list_elem_of_lookup in Hin as [i Hi].
    eapply Forall2_lookup_r in HF as (b & _ & Hb & Hu); [|done]. split; [apply Hf; by intros ->|].
    pose proof Hu as [Hh Ht _ Hhe _ Hpol]. rewrite Hh, Ht. split_and!; [|done|intros a; by apply (up_at_subnet b e w')].
    exists b. replace (subnet_of e + 1) with (container_ip (live_net e) - 1) by (unfold subnet_of; lia). done.
  - intros i j e e' a Hi Hj Hij.
    destruct (Forall2_lookup_r _ _ _ _ _ HF Hi) as (b & Hbi & Hb & Hu).
    destruct (Forall2_lookup_r _ _ _ _ _ HF Hj) as (b' & Hbj & Hb' & Hu').
    eapply (blocks_disjoint b b'); [done|done| |done|done]. intros <-. apply Hij. by eapply NoDup_lookup.
Qed.

(** ** A concrete filter *)

Module NftExample.
Definition table_name (text : str) : str := take (count_while (fun c => is_ascii_alphanumeric c || Ascii.eqb c "-") text) text.
Definition eval (text : str) (ts : gmap str (list str)) : option (gmap str (list str)) :=
  match strip_prefix "table inet " text with
  | Some rest =>
      let name := table_name rest in
      match strip_prefix (" {" ++ [lf]) (drop (length name) rest) with
      | Some body => Some (<[name := default [] (ts !! name) ++ [body]]> ts)
      | None => None
      end
  | None =>
      match strip_prefix "delete table inet " text with
      | Some rest =>
          let name := table_name rest in
          if bool_decide (rest = name ++ [lf]) then match ts !! name with Some _ => Some (delete name ts) | None => None end
          else None
      | None => None
      end
  end.
Definition list_tables (ts : gmap str (list str)) : str := concat ((fun x => x.1 ++ [lf]) <$> map_to_list ts).

Lemma strip_own_prefix (p s : str) : strip_prefix p (p ++ s) = Some s.
Proof. induction p as [|c p IH]; [done|]. cbn. by rewrite Ascii.eqb_refl. Qed.

Lemma table_name_app name c rest : plain_table name = true -> is_ascii_alphanumeric c || Ascii.eqb c "-" = false ->
  table_name (name ++ c :: rest) = name.
Proof.
  unfold table_name, plain_table. intros Hn Hc. induction name as [|x name IH]; cbn [app count_while]; [by rewrite Hc|].
  cbn in Hn. apply andb_true_iff in Hn as [Hx Hn]. rewrite Hx. cbn. f_equal. by apply IH.
Qed.

Lemma starts_with_sep (n a b : str) c : c ∉ n -> starts_with n (a ++ c :: b) = starts_with n a.
Proof.
  unfold starts_with. revert a. induction n as [|x n IH]; intros a Hc; [by destruct a|]. destruct a as [|y a]; cbn.
  - destruct (Ascii.eqb_spec x c) as [->|]; [set_solver|done].
  - destruct (Ascii.eqb x y); [|done]. apply IH. set_solver.
Qed.

Lemma contains_sep (n a b : str) c : c ∉ n -> n <> [] -> contains n (a ++ c :: b) = contains n a || contains n b.
Proof.
  intros Hc Hn. induction a as [|y a IH].
  - cbn [app]. cbn [contains]. rewrite (starts_with_sep n [] b c Hc : starts_with n (c :: b) = _).
    destruct n; [done|]. done.
  - change ((y :: a) ++ c :: b) with (y :: (a ++ c :: b)). cbn [contains].
    rewrite (starts_with_sep n (y :: a) b c Hc : starts_with n (y :: a ++ c :: b) = _), IH. by rewrite orb_assoc.
Qed.

#[export] Instance nft : Nft.
Proof.
  refine {| nft_eval := eval; nft_list := list_tables |}.
  - intros name body ts ts' Hn. unfold eval. rewrite strip_own_prefix. cbn [app].
    rewrite (table_name_app name " " ("{"%char :: lf :: body) Hn eq_refl : table_name (name ++ " {" ++ lf :: body) = name).
    rewrite drop_app_length. cbn.
    by intros [= <-].
  - intros name ts Hn. unfold eval.
    replace (strip_prefix "table inet " ("delete table inet " ++ name ++ [lf])) with (None : option str) by done.
    rewrite strip_own_prefix, table_name_app by done. by rewrite bool_decide_true.
  - intros ts. unfold list_tables.
    assert (Hl : forall l : list (str * list str), contains "umf-nat-" (concat ((fun x => x.1 ++ [lf]) <$> l)) = true
      <-> exists x, x ∈ l /\ contains "umf-nat-" x.1 = true).
    { induction l as [|[n bs] l IH]; cbn [fmap list_fmap concat].
      - split; [done|intros (x & Hx & _); set_solver].
      - rewrite <- app_assoc. cbn [app]. rewrite contains_sep, orb_true_iff, IH by (try done; set_solver). cbn [fst]. set_solver. }
    rewrite Hl. split.
    + intros ([n bs] & Hin & Hc). apply elem_of_map_to_list in Hin. exists n. by rewrite Hin.
    + intros (n & [bs Hbs] & Hc). exists (n, bs). split; [by apply elem_of_map_to_list|done].
Defined.
End NftExample.

Module HostNetExample.
Import NftExample.
Definition idle : World := {| links := ∅; routes := ∅; ip_forward := "0"; tables := ∅; faults := [] |}.
Definition opts : NetOptions := {| mtu := 1500; subnet_base := v4 10 69 0 0 |}.

#[local] Notation start pid w := (setup None pid opts (with_faults [] (spawn pid w))).
Definition is_freshb (pid : Z) (w : World) : bool :=
  forallb (fun x => negb (bool_decide (x.1.1 = Netns pid))) (map_to_list (links w)).
Lemma is_freshb_ok pid w : is_freshb pid w = true -> is_fresh pid w.
Proof.
  unfold is_freshb. rewrite forallb_forall. intros H name. destruct (links w !! (Netns pid, name)) as [l|] eqn:E; [|done].
  apply elem_of_map_to_list, list_elem_of_In, H in E. cbn in E. by rewrite bool_decide_true in E.
Qed.

Lemma start_step pid w live n w' : is_freshb pid w = true -> start pid w = (Ok n, w') ->
  build_step (w, live) (w', {| live_pid := pid; live_env := None; live_net := n |} :: live).
Proof. intros Hf%is_freshb_ok H. eapply build_up; [done| |exact H]. by vm_compute. Qed.

(** Two builds whose processes lead to the same block. *)
Lemma live_networks_policed_witness : exists w' e e',
  built_from idle (w', [e; e']) /\ ip_forward w' = "1" /\ subnet_of e = v4 10 69 0 24 /\ subnet_of e' = v4 10 69 0 20
  /\ forall a, ~ (cidr_matches a (subnet_text (subnet_of e)) = true /\ cidr_matches a (subnet_text (subnet_of e')) = true).
Proof.
  assert (Hp : peers_ok idle) by (intros b k l p _ Hk; cbn in Hk; by rewrite lookup_empty in Hk).
  assert (Hs : match start 5 idle with
    | (Ok n1, w1) => is_freshb 16389 w1 && match start 16389 w1 with
        | (Ok n2, w2) => bool_decide (container_ip n1 = v4 10 69 0 22) && bool_decide (container_ip n2 = v4 10 69 0 26) | _ => false end
    | _ => false end = true) by (vm_compute; reflexivity).
  destruct (start 5 idle) as [[n1|] w1] eqn:E1; [|done]. apply andb_true_iff in Hs as [Hfr Hs].
  destruct (start 16389 w1) as [[n2|] w2] eqn:E2; [|done]. apply andb_true_iff in Hs as [C1%bool_decide_eq_true C2%bool_decide_eq_true].
  set (e' := {| live_pid := 5; live_env := None; live_net := n1 |}).
  set (e := {| live_pid := 16389; live_env := None; live_net := n2 |}).
  assert (HB : built_from idle (w2, [e; e'])).
  { eapply (built_step _ (w1, [e'])).
    - eapply (built_step _ (idle, [])); [constructor|]. by apply start_step.
    - by apply start_step. }
  pose proof (live_networks_policed idle w2 [e; e'] Hp HB) as [Hl Hd]. exists w2, e, e'.
  split; [exact HB|]. split; [apply (Hl e); by left|].
  split; [unfold subnet_of; cbn [e live_net]; by rewrite C2|]. split; [unfold subnet_of; cbn [e' live_net]; by rewrite C1|].
  intros a. by apply (Hd 0%nat 1%nat).
Defined.

(** *** What the guard does not restore *)

(** The pair is created before the container's process turns out to be gone:
    nothing removes it, and its block is never used again. *)
Example leaked_pair :
  let faults_at_setns := replicate 8 None ++ [Some ("No such process" : str)] in
  let '(r, w) := setup None 5 opts (with_faults faults_at_setns (spawn 5 idle)) in
  r = Err (NetError_Netlink "No such process") /\ is_ok r = false
  /\ bool_decide (is_Some (links w !! (Host, host_if_of 5))) = true.
Proof. vm_compute. auto. Qed.

(** Forwarding was off; two builds overlap, and it stays on after both ended. *)
Example forwarding_left_on :
  match start 5 idle with
  | (Ok n1, w1) => match start 6 w1 with
    | (Ok n2, w2) => ip_forward (drop_net n2 (exit_process 6 (drop_net n1 (exit_process 5 w2)))) = "1"
    | _ => False end
  | _ => False end.
Proof. vm_compute. reflexivity. Qed.

(** The end of a container releases its link, and with it the block, before the
    guard runs; the guard then takes down the network of the next build. *)
Example lease_lost :
  match start 5 idle with
  | (Ok n1, w1) => match start 16389 (exit_process 5 w1) with
    | (Ok n2, w2) =>
        let w3 := drop_net n1 w2 in
        host_ifname n1 = host_ifname n2 /\ links w3 !! (Host, host_ifname n2) = None /\ tables w3 !! nft_table n2 = None
    | _ => False end
  | _ => False end.
Proof. vm_compute. auto. Qed.

(** A guard that runs after another build has switched forwarding on and before
    that build has its table switches it off under it. *)
Example forwarding_lost :
  match start 5 idle with
  | (Ok n1, w1) =>
      let plan := for_block (v4 10 69 0 0) 6 in
      match setup_host_side (host_if_of 6) (ctr_if_of 6) plan 1500 6 (spawn 6 w1) with
      | (Ok _, w2) => match configure_container_side 6 (ctr_if_of 6) plan 1500 w2 with
        | (Ok _, w3) => match enable_ipv4_forwarding w3 with
          | (Ok _, w4) =>
              let w5 := drop_net n1 (exit_process 5 w4) in
              ip_forward (add_masquerade (nft_table_of 6) (plan_cidr plan) [] w5).2 = "0"
          | _ => False end
        | _ => False end
      | _ => False end
  | _ => False end.
Proof. vm_compute. reflexivity. Qed.
End HostNetExample.
