(* ===== verification/VmNet.v ===== *)
(** * VmNet: the network of a virtual machine
    (crates/umf-networking/src/vmnet.rs).

    The kernel is the one of [HostNet]; a namespace is held by a descriptor, and
    released with it. *)

From stdpp Require Import gmap list.
From S2P Require Import Prelude RustStr RustStrFacts Ssrf HostNet.
#[local] Open Scope Z_scope.

(** ** Data *)

Record PortForward := { bind_addr : option Z; host_port : N; guest_port : N; tcp : bool }.

(** The addresses of one machine, by the first of its block. *)
Record VmIpPlan := { block : Z }.
Definition VmIpPlan_MASK : str := "255.255.255.248".
Definition VmIpPlan_PREFIX : Z := 29.
Definition for_id (id : Z) : VmIpPlan := {| block := v4 10 70 0 0 + id mod 8192 * 8 |}.
Definition plan_addr (p : VmIpPlan) (offset : Z) : Z := block p + offset.
Definition bridge_addr (p : VmIpPlan) : Z := plan_addr p 1.
Definition guest (p : VmIpPlan) : Z := plan_addr p 2.
Definition host_veth_addr (p : VmIpPlan) : Z := plan_addr p 6.
Definition vm_cidr (p : VmIpPlan) : str := ipv4_text (plan_addr p 0) ++ "/" ++ to_decimal (Z.to_N VmIpPlan_PREFIX).

(** ** Rules and arguments *)

Definition dnat_rule (plan : VmIpPlan) (pf : PortForward) : str :=
  let proto : str := if tcp pf then "tcp" else "udp" in
  let daddr : str := match bind_addr pf with Some addr => "ip daddr " ++ ipv4_text addr ++ " " | None => [] end in
  "    " ++ daddr ++ proto ++ " dport " ++ to_decimal (host_port pf) ++ " dnat ip to " ++ ipv4_text (guest plan) ++ ":"
  ++ to_decimal (guest_port pf) ++ [lf].

Definition vmfwd_body (plan : VmIpPlan) (forwards : list PortForward) : str :=
  "  chain prerouting {" ++ lf ::
  "    type nat hook prerouting priority dstnat; policy accept;" ++ lf ::
  concat (dnat_rule plan <$> forwards) ++
  "  }" ++ lf ::
  "  chain forward {" ++ lf ::
  "    type filter hook forward priority filter; policy accept;" ++ lf ::
  "    ip daddr " ++ ipv4_text (guest plan) ++ " accept" ++ lf ::
  "    ip saddr " ++ ipv4_text (guest plan) ++ " accept" ++ lf ::
  "  }" ++ lf :: "}" ++ [lf].
Definition vmfwd_ruleset (table : str) (plan : VmIpPlan) (forwards : list PortForward) : str :=
  "table inet " ++ table ++ " {" ++ lf :: vmfwd_body plan forwards.

Definition dnsmasq_args (plan : VmIpPlan) (bridge_if leasefile : str) : list str :=
  ["--keep-in-foreground" : str; "--bind-interfaces" : str; "--interface=" ++ bridge_if;
   "--listen-address=" ++ ipv4_text (bridge_addr plan); "--except-interface=lo" : str; "--no-resolv" : str; "--no-hosts" : str;
   "--dhcp-range=" ++ ipv4_text (guest plan) ++ "," ++ ipv4_text (guest plan) ++ "," ++ VmIpPlan_MASK ++ ",1h";
   "--dhcp-option=option:router," ++ ipv4_text (host_veth_addr plan); "--dhcp-leasefile=" ++ leasefile; "--pid-file=" : str].

Inductive DhcpDaemon := Dnsmasq | Custom (argv : list str) | NoDhcp.

Inductive NetPurpose := ForwardPorts (forwards : list PortForward) | PolicedEgress (policy : EgressPolicy).

Record VmNet := {
  tap : str;
  host_veth : str;
  vm_table : str;
  guest_ip : Z;
  gateway : Z;
  dhcp_child : option (str * list str);
  vm_prior_forward : option str;
  netns : Z
}.

Section vmnet.
Context {N : Nft}.

(** ** Setting up *)

(** The namespace of a new descriptor [fd]. *)
Definition create_netns (fd : Z) : netio unit :=
  _ ← sys NetError_Runtime;
  _ ← sys NetError_VmNet;
  call NetError_VmNet (fun w => (Ok tt, spawn fd w)).

Definition vm_host_side (host_veth ctr_veth : str) (plan : VmIpPlan) (netns_fd : Z) : netio unit :=
  _ ← new_connection;
  _ ← add_veth (nl "File exists") host_veth ctr_veth;
  _ ← link_index Host host_veth;
  _ ← link_index Host ctr_veth;
  _ ← add_address (host_veth_addr plan) VmIpPlan_PREFIX Host host_veth;
  _ ← set_up Host host_veth;
  setns ctr_veth (Netns netns_fd).

(** A link of a namespace; the kernel refuses a name in use. *)
Definition add_link (mk : str -> NetError) (s : Space) (name : str) : netio unit :=
  call mk (fun w => match links w !! (s, name) with
                    | None => (Ok tt, with_links (<[(s, name) := no_link]> (links w)) w)
                    | Some _ => (Err (mk "File exists"), w)
                    end).

Definition IFNAMSIZ : nat := 16.
Definition create_persistent_tap (s : Space) (name : str) : netio unit :=
  _ ← sys NetError_VmNet;
  if (IFNAMSIZ <=? length name)%nat then refuse (NetError_VmNet ("tap name too long: " ++ name))
  else
    _ ← add_link NetError_VmNet s name;
    sys NetError_VmNet.

Fixpoint raise_all (s : Space) (names : list str) : netio unit :=
  match names with
  | [] => mret tt
  | n :: names => _ ← set_up s n; raise_all s names
  end.

Definition configure_netns_side (netns_fd : Z) (ctr_veth bridge tap : str) (plan : VmIpPlan) : netio unit :=
  let s := Netns netns_fd in
  _ ← sys NetError_Runtime;
  _ ← sys NetError_VmNet;
  _ ← create_persistent_tap s tap;
  _ ← current_thread_rt;
  _ ← new_connection;
  _ ← add_link nl s bridge;
  _ ← link_index s bridge;
  _ ← link_index s ctr_veth;
  _ ← link_index s tap;
  _ ← set_controller bridge s ctr_veth;
  _ ← set_controller bridge s tap;
  _ ← add_address (bridge_addr plan) VmIpPlan_PREFIX s bridge;
  _ ← link_index s "lo";
  raise_all s ["lo" : str; ctr_veth; tap; bridge].

Definition vm_rules (purpose : NetPurpose) (table : str) (plan : VmIpPlan) : netio unit :=
  match purpose with
  | ForwardPorts forwards => nft_apply (vmfwd_ruleset table plan forwards)
  | PolicedEgress policy => add_masquerade table (vm_cidr plan) (denied_v4_cidrs policy)
  end.

(** The steps that are undone together. *)
Definition plumb (host_veth ctr_veth bridge tap table : str) (plan : VmIpPlan) (purpose : NetPurpose) (netns : Z) : netio unit :=
  _ ← current_thread_rt;
  _ ← vm_host_side host_veth ctr_veth plan netns;
  _ ← configure_netns_side netns ctr_veth bridge tap plan;
  vm_rules purpose table plan.

(** Unlike the one of [HostNet], without regard to other networks. *)
Definition vm_restore_ip_forward (prior : option str) : netio unit :=
  match prior with Some v => ignoring (write_forward v) | None => mret tt end.

Definition teardown (host_veth table : str) (prior : option str) (w : World) : World :=
  let '(_, w) := del_masquerade table w in
  let '(_, w) := (_ ← current_thread_rt; del_link host_veth) w in
  (vm_restore_ip_forward prior w).2.

(** The daemon that was started; a daemon that does not start is no error. *)
Definition spawn_dhcp (temp_dir : str) (id : Z) (plan : VmIpPlan) (bridge : str) (dhcp : DhcpDaemon)
    : netio (option (str * list str)) :=
  let start (program : str) (args : list str) : netio (option (str * list str)) := fun w =>
    match sys NetError_Io w with
    | (Ok _, w) => (Ok (Some (program, args)), w)
    | (Err _, w) => (Ok None, w)
    end in
  match dhcp with
  | NoDhcp => mret None
  | Dnsmasq =>
      let leasefile := temp_dir ++ "/umf-vmnet-" ++ to_decimal (Z.to_N id) ++ ".leases" in
      start "dnsmasq" (dnsmasq_args plan bridge leasefile)
  | Custom [] => mret None
  | Custom (prog :: rest) => start prog rest
  end.

Definition vmh (id : Z) : str := "vmh" ++ to_decimal (Z.to_N id).
Definition vmc (id : Z) : str := "vmc" ++ to_decimal (Z.to_N id).
Definition umfbr (id : Z) : str := "umfbr" ++ to_decimal (Z.to_N id).
Definition umftap (id : Z) : str := "umftap" ++ to_decimal (Z.to_N id).
Definition vmfwd_table (id : Z) : str := "umf-vmfwd-" ++ to_decimal (Z.to_N id).

(** [fd] is the descriptor the namespace gets; releasing it ends the namespace. *)
Definition vm_setup_inner (temp_dir : str) (id : Z) (purpose : NetPurpose) (dhcp : DhcpDaemon) (fd : Z) : netio VmNet := fun w =>
  let plan := for_id id in
  match enable_ipv4_forwarding w with
  | (Err e, w) => (Err e, w)
  | (Ok prior, w) =>
      match create_netns fd w with
      | (Err e, w) => (Err e, (vm_restore_ip_forward prior w).2)
      | (Ok _, w) =>
          match plumb (vmh id) (vmc id) (umfbr id) (umftap id) (vmfwd_table id) plan purpose fd w with
          | (Err e, w) => (Err e, exit_process fd (teardown (vmh id) (vmfwd_table id) prior w))
          | (Ok _, w) =>
              match spawn_dhcp temp_dir id plan (umfbr id) dhcp w with
              | (Ok child, w) =>
                  (Ok {| tap := umftap id; host_veth := vmh id; vm_table := vmfwd_table id; guest_ip := guest plan;
                         gateway := host_veth_addr plan; dhcp_child := child; vm_prior_forward := prior; netns := fd |}, w)
              | (Err e, w) => (Err e, w)
              end
          end
      end
  end.

Definition vm_setup (temp_dir : str) (id : Z) (port_forwards : list PortForward) (dhcp : DhcpDaemon) (fd : Z) : netio VmNet :=
  vm_setup_inner temp_dir id (ForwardPorts port_forwards) dhcp fd.
Definition setup_policed_egress (temp_dir : str) (id : Z) (policy : EgressPolicy) (fd : Z) : netio VmNet :=
  vm_setup_inner temp_dir id (PolicedEgress policy) NoDhcp fd.

Definition drop_vmnet (net : VmNet) (w : World) : World :=
  exit_process (netns net) (teardown (host_veth net) (vm_table net) (vm_prior_forward net) w).
End vmnet.

(** ** What the plumbing of one machine can change *)

Record plumbed (w0 : World) (h c t : str) (fd : Z) (w : World) : Prop := {
  pl_links : forall k, k.1 <> Netns fd -> k <> (Host, h) -> k <> (Host, c) -> links w !! k = links w0 !! k;
  pl_pair : (links w !! (Host, h) = None /\ links w !! (Host, c) = None)
    \/ exists l, links w !! (Host, h) = Some l
         /\ (peer l = Some (Host, c) \/ (peer l = Some (Netns fd, c) /\ links w !! (Host, c) = None));
  pl_back : forall l, links w !! (Host, c) = Some l -> peer l = Some (Host, h);
  pl_tables : forall name, name <> t -> tables w !! name = tables w0 !! name;
  pl_forward : ip_forward w = ip_forward w0
}.

Section plumbing.
Context {N : Nft} (w0 : World) (h c t : str) (fd : Z) (Hhc : h <> c).
Notation J := (plumbed w0 h c t fd).
Notation R := (fun w w' => J w -> J w').

#[local] Instance R_preorder : PreOrder R.
Proof. split; [by intros w|intros w1 w2 w3 H1 H2 H; auto]. Qed.
Lemma R_same w w' : same_but_faults w w' -> R w w'.
Proof.
  intros [El Er Ef Et] [H1 H2 H3 H4 H5]. split; rewrite ?El, ?Et, ?Ef; done.
Qed.

(** Links inside the machine's namespace are free to change. *)
Lemma R_inside ls w : (forall k, k.1 <> Netns fd -> ls !! k = links w !! k) -> R w (with_links ls w).
Proof.
  intros Hl [H1 H2 H3 H4 H5]. split; cbn [links with_links tables ip_forward]; try done.
  - intros k Hk H H'. by rewrite Hl, H1.
  - by rewrite !Hl.
  - by rewrite Hl.
Qed.

Lemma R_set_link f s n : (forall l, peer (f l) = peer l) -> s = Netns fd \/ (s, n) = (Host, h) -> keeps R (set_link f s n).
Proof.
  intros Hf Hs. apply keeps_call; [apply _|apply R_same|]. intros w. cbn. destruct (links w !! (s, n)) as [l|] eqn:El; cbn; [|done].
  destruct Hs as [->|[= -> ->]].
  - apply R_inside. intros k Hk. apply lookup_insert_ne. intros <-. by apply Hk.
  - intros [H1 H2 H3 H4 H5]. split; cbn [links with_links tables ip_forward]; try done.
    + intros k Hk Hh Hc. rewrite lookup_insert_ne by done. by apply H1.
    + right. rewrite lookup_insert_eq, lookup_insert_ne by congruence. exists (f l). rewrite Hf. split; [done|].
      destruct H2 as [[H2 _]|(l' & El' & Hp)]; [congruence|]. by replace l with l' by congruence.
    + rewrite lookup_insert_ne by congruence. done.
Qed.

Lemma R_add_link mk n : keeps R (add_link mk (Netns fd) n).
Proof.
  apply keeps_call; [apply _|apply R_same|]. intros w. cbn. destruct (links w !! (Netns fd, n)); cbn; [done|].
  apply R_inside. intros k Hk. apply lookup_insert_ne. intros <-. by apply Hk.
Qed.

Lemma R_add_veth e : keeps R (add_veth e h c).
Proof.
  apply keeps_call; [apply _|apply R_same|]. intros w. cbn.
  destruct (links w !! (Host, h)) eqn:Eh; [by cbn|]. destruct (links w !! (Host, c)) eqn:Ec; [by cbn|]. cbn.
  intros [H1 H2 H3 H4 H5]. split; cbn [links with_links tables ip_forward]; try done.
  - intros k Hk Hkh Hkc. rewrite !lookup_insert_ne by done. by apply H1.
  - right. rewrite lookup_insert_eq. eexists. split; [done|]. by left.
  - intros l. rewrite lookup_insert_ne, lookup_insert_eq by congruence. by intros [= <-].
Qed.

Lemma R_setns : keeps R (setns c (Netns fd)).
Proof.
  apply keeps_call; [apply _|apply R_same|]. intros w. cbn.
  destruct (links w !! (Host, c)) as [lc|] eqn:Ec; [|by cbn]. destruct (links w !! (Netns fd, c)); [by cbn|]. cbn.
  intros [H1 H2 H3 H4 H5]. destruct H2 as [[_ H2]|(l & Eh & [Hp|[_ H2]])]; [congruence| |congruence].
  pose proof (H3 _ Ec) as Hpc. unfold repoint. rewrite Hpc, lookup_delete_ne, Eh, bool_decide_true by congruence.
  split; cbn [links with_links tables ip_forward]; try done.
  - intros k Hk Hkh Hkc. rewrite !lookup_insert_ne, lookup_delete_ne; [by apply H1|done|done|]. intros <-. by apply Hk.
  - right. rewrite lookup_insert_ne, lookup_insert_eq by done. eexists. split; [done|]. right. split; [done|].
    rewrite !lookup_insert_ne, lookup_delete_eq by congruence. done.
  - intros l'. rewrite !lookup_insert_ne, lookup_delete_eq by congruence. done.
Qed.

Lemma R_nft body : plain_table t = true -> keeps R (nft_apply ("table inet " ++ t ++ " {" ++ lf :: body)).
Proof.
  intros Ht. apply keeps_call; [apply _|apply R_same|]. intros w. destruct (nft_eval _ (tables w)) as [ts|] eqn:E; [|by cbn]. cbn.
  apply nft_define in E as ->; [|done]. intros [H1 H2 H3 H4 H5]. split; cbn [links with_tables tables ip_forward]; try done.
  intros name Hn. rewrite lookup_insert_ne by done. by apply H4.
Qed.

Ltac R_step := first
  [ apply (keeps_sys R R_same) | apply (keeps_link_index R R_same) | apply R_add_veth | apply R_setns | apply R_add_link
  | apply R_set_link; [done|first [by left|by right]]
  | apply keeps_ret; apply _ | apply keeps_refuse; apply _
  | apply keeps_bind; [apply _| |intros ?] ].

Lemma R_plumb br tp plan purpose : plain_table t = true -> keeps R (plumb h c br tp t plan purpose fd).
Proof.
  intros Ht. unfold plumb, vm_host_side, configure_netns_side, create_persistent_tap, current_thread_rt, new_connection,
    add_address, set_up, set_controller, raise_all.
  repeat R_step.
  - case_match; repeat R_step.
  - destruct purpose; by apply R_nft.
Qed.
End plumbing.

(** ** Teardown *)

Section teardown.
Context {N : Nft}.

Lemma call_quiet {A} mk (f : netio A) w : faults w = [] -> call mk f w = f w.
Proof. intros Hq. unfold call. rewrite net_bind. unfold sys. by rewrite Hq. Qed.

Lemma del_masquerade_quiet t w : plain_table t = true -> faults w = [] ->
  (del_masquerade t w).2 = with_tables (delete t (tables w)) w.
Proof.
  intros Ht Hq. unfold del_masquerade, nft_apply. rewrite call_quiet, nft_delete by done.
  destruct (tables w !! t) eqn:E; cbn; [done|]. rewrite delete_id by done. by destruct w.
Qed.

Lemma del_link_quiet h w : faults w = [] ->
  (del_link h w).2 = with_links (match links w !! (Host, h) with Some _ => without (Host, h) (links w) | None => links w end) w.
Proof.
  intros Hq. unfold del_link, link_index, link_del. rewrite !call_quiet by done. destruct (links w !! (Host, h)) eqn:E; cbn.
  - by rewrite call_quiet, E by done.
  - by destruct w.
Qed.

Lemma teardown_quiet h t prior w : plain_table t = true -> faults w = [] ->
  teardown h t prior w
  = {| links := match links w !! (Host, h) with Some _ => without (Host, h) (links w) | None => links w end;
       routes := routes w; ip_forward := default (ip_forward w) prior; tables := delete t (tables w); faults := [] |}.
Proof.
  intros Ht Hq. unfold teardown. pose proof (del_masquerade_quiet t w Ht Hq) as E1.
  destruct (del_masquerade t w) as [r1 w1]. cbn in E1. subst w1.
  unfold current_thread_rt. rewrite net_bind. unfold sys. cbn [faults with_tables]. rewrite Hq.
  pose proof (del_link_quiet h (with_tables (delete t (tables w)) w) Hq) as E2.
  destruct (del_link h _) as [r2 w2]. cbn in E2. subst w2.
  unfold vm_restore_ip_forward. destruct prior as [v|]; cbn.
  - unfold write_forward. rewrite call_quiet by exact Hq. unfold with_forward, with_links, with_tables. cbn. f_equal. exact Hq.
  - unfold with_links, with_tables. cbn. f_equal. exact Hq.
Qed.

Lemma without_pair ls h c fd l : ls !! (Host, h) = Some l ->
  (peer l = Some (Host, c) \/ (peer l = Some (Netns fd, c) /\ ls !! (Host, c) = None)) ->
  without (Host, h) ls !! (Host, h) = None /\ without (Host, h) ls !! (Host, c) = None
  /\ forall k, k.1 <> Netns fd -> k <> (Host, h) -> k <> (Host, c) -> without (Host, h) ls !! k = ls !! k.
Proof.
  intros El Hp. unfold without. rewrite El. cbn. destruct Hp as [->|[-> Hn]].
  - split; [by rewrite lookup_delete_None; right; rewrite lookup_delete_eq|]. split; [by rewrite lookup_delete_eq|].
    intros k _ Hh Hc. by rewrite !lookup_delete_ne.
  - split; [by rewrite lookup_delete_None; right; rewrite lookup_delete_eq|]. split.
    + rewrite lookup_delete_None. right. rewrite lookup_delete_None. by right.
    + intros k Hk Hh _. rewrite !lookup_delete_ne; [done|done|]. intros <-. by apply Hk.
Qed.

(** The namespace is new: nothing of the host refers to it. *)
Definition unused (fd : Z) (w : World) : Prop :=
  forall k l, links w !! k = Some l -> survives fd (k, l).

Lemma torn_down w0 h c t fd prior w : plain_table t = true -> unused fd w0 ->
  links w0 !! (Host, h) = None -> links w0 !! (Host, c) = None -> tables w0 !! t = None ->
  plumbed w0 h c t fd w ->
  let w' := exit_process fd (teardown h t prior (with_faults [] w)) in
  links w' = links w0 /\ tables w' = tables w0 /\ ip_forward w' = default (ip_forward w0) prior.
Proof.
  intros Ht Hu Hh Hc Htab [H1 H2 H3 H4 H5]. rewrite teardown_quiet by done. cbn [links exit_process with_links tables ip_forward with_faults].
  set (ls := match links w !! (Host, h) with Some _ => _ | None => _ end).
  assert (Hls : forall k, k.1 <> Netns fd -> ls !! k = links w0 !! k).
  { intros k Hk. assert (Hall : ls !! (Host, h) = None /\ ls !! (Host, c) = None
      /\ forall k, k.1 <> Netns fd -> k <> (Host, h) -> k <> (Host, c) -> ls !! k = links w !! k).
    { unfold ls. destruct H2 as [[E1 E2]|(l & El & Hp)]; [by rewrite E1|]. rewrite El. by eapply without_pair. }
    destruct Hall as (A1 & A2 & A3). destruct (decide (k = (Host, h))) as [->|Hkh]; [by rewrite A1|].
    destruct (decide (k = (Host, c))) as [->|Hkc]; [by rewrite A2|]. rewrite A3 by done. by apply H1. }
  split_and!; [| |by rewrite H5].
  - apply map_eq. intros k. destruct (decide (k.1 = Netns fd)) as [Hk|Hk].
    + trans (None : option Link).
      * apply map_lookup_filter_None. right. intros l _ [Hs _]. by apply Hs.
      * symmetry. destruct (links w0 !! k) as [l|] eqn:E; [|done]. by destruct (Hu _ _ E).
    + destruct (links w0 !! k) as [l|] eqn:E.
      * apply map_lookup_filter_Some. split; [by rewrite Hls|]. by eapply Hu.
      * apply map_lookup_filter_None. left. by rewrite Hls.
  - apply map_eq. intros name. destruct (decide (name = t)) as [->|Hn]; [by rewrite lookup_delete_eq|].
    rewrite lookup_delete_ne by done. by apply H4.
Qed.
End teardown.

Lemma vmfwd_plain id : plain_table (vmfwd_table id) = true.
Proof. unfold vmfwd_table, plain_table. rewrite forallb_app. apply andb_true_iff. split; [done|apply to_decimal_plain]. Qed.

Lemma vmh_vmc id : vmh id <> vmc id.
Proof. unfold vmh, vmc. by intros [=]. Qed.

Lemma enable_ok w prior w1 : enable_ipv4_forwarding w = (Ok prior, w1) ->
  links w1 = links w /\ tables w1 = tables w /\ ip_forward w1 = "1"
  /\ ((forall t fs, faults w <> Some t :: fs) -> prior = forward_restore_target (Some (trim (ip_forward w ++ [lf])))).
Proof.
  intros (p & w2 & Er & (u & w3 & Ew & E)%net_bind_ok)%net_bind_ok. injection E as <- <-.
  apply call_ok in Ew as [fs' Ew]. injection Ew as _ <-. cbn.
  unfold read_forward, sys in Er. destruct (faults w) as [|[t|] fs] eqn:Ef; injection Er as <- <-; cbn; try done.
  split_and!; try done. intros H. by destruct (H t fs).
Qed.

Lemma create_netns_ok fd w u w' : create_netns fd w = (Ok u, w') -> exists fs, w' = with_faults fs (spawn fd w).
Proof.
  intros H. unfold create_netns in H. apply net_bind_ok in H as (? & w1 & [f1 ->]%sys_ok & H).
  apply net_bind_ok in H as (? & w2 & [f2 ->]%sys_ok & H). apply call_ok in H as [f3 H]. injection H as _ <-. by exists f3.
Qed.

(** The names of a machine are not in use. *)
Record names_free (id fd : Z) (w : World) : Prop := {
  nf_host : links w !! (Host, vmh id) = None;
  nf_ctr : links w !! (Host, vmc id) = None;
  nf_table : tables w !! vmfwd_table id = None;
  nf_fd : unused fd w
}.

Lemma plumb_undone {N : Nft} id fd purpose w prior w1 w2 r w3 :
  names_free id fd w -> enable_ipv4_forwarding w = (Ok prior, w1) -> create_netns fd w1 = (Ok tt, w2) ->
  plumb (vmh id) (vmc id) (umfbr id) (umftap id) (vmfwd_table id) (for_id id) purpose fd w2 = (r, w3) ->
  let w' := exit_process fd (teardown (vmh id) (vmfwd_table id) prior (with_faults [] w3)) in
  links w' = links w /\ tables w' = tables w /\ ip_forward w' = default ("1" : str) prior.
Proof.
  intros [H1 H2 H3 H4] (El & Et & Ef & _)%enable_ok (fs & ->)%create_netns_ok Hp.
  rewrite <- El, <- Et, <- Ef. apply torn_down with (c := vmc id).
  - apply vmfwd_plain.
  - unfold unused. by rewrite El.
  - by rewrite El.
  - by rewrite El.
  - by rewrite Et.
  - pose proof (R_plumb w1 (vmh id) (vmc id) (vmfwd_table id) fd (vmh_vmc id) (umfbr id) (umftap id) (for_id id) purpose
      (vmfwd_plain id) (with_faults fs (spawn fd w1))) as HJ. rewrite Hp in HJ. apply HJ.
    assert (Hs : forall k, k.1 <> Netns fd -> links (spawn fd w1) !! k = links w1 !! k)
      by (intros k Hk; apply lookup_insert_ne; by intros <-).
    split; cbn [links with_faults tables ip_forward spawn with_links] in *; try done.
    + intros k Hk _ _. by apply Hs.
    + left. by rewrite !Hs, El.
    + intros l. by rewrite Hs, El, H2.
Qed.

(** The host [w'] is as [w] was. *)
Definition restored (w w' : World) : Prop := links w' = links w /\ tables w' = tables w /\ ip_forward w' = ip_forward w.

(** No call fails while a failed setup is undone: the kernel's faults are over
    when its cleanup starts. *)
Definition quiet_cleanup {N : Nft} (id fd : Z) (purpose : NetPurpose) (w : World) : Prop :=
  forall prior w1, enable_ipv4_forwarding w = (Ok prior, w1) ->
    (forall e w2, create_netns fd w1 = (Err e, w2) -> faults w2 = [])
    /\ (forall w2 e w3, create_netns fd w1 = (Ok tt, w2) ->
          plumb (vmh id) (vmc id) (umfbr id) (umftap id) (vmfwd_table id) (for_id id) purpose fd w2 = (Err e, w3) -> faults w3 = []).

Lemma enable_fails w e w1 : enable_ipv4_forwarding w = (Err e, w1) -> restored w w1.
Proof.
  unfold enable_ipv4_forwarding. rewrite net_bind. destruct (read_forward w) as [[p|e1] w2] eqn:Er.
  - assert (E2 : restored w w2) by (unfold read_forward, sys in Er; destruct (faults w) as [|[t|] fs]; injection Er as _ <-; done).
    rewrite net_bind. unfold write_forward, call. rewrite net_bind. unfold sys. destruct (faults w2) as [|[t|] fs]; [done| |done].
    intros [= _ <-]. exact E2.
  - unfold read_forward, sys in Er. destruct (faults w) as [|[t|] fs]; discriminate Er.
Qed.

Lemma sys_any mk w : exists fs, (sys mk w).2 = with_faults fs w.
Proof. unfold sys. destruct (faults w) as [|[t|] fs] eqn:E; cbn; eauto. exists []. rewrite <- E. by destruct w. Qed.
Lemma create_netns_fails fd w e w1 : create_netns fd w = (Err e, w1) -> exists fs, w1 = with_faults fs w.
Proof.
  unfold create_netns, call. rewrite net_bind. destruct (sys_any NetError_Runtime w) as [f1 E1].
  destruct (sys NetError_Runtime w) as [[[]|e1] w2]; cbn in E1; subst w2; [|intros [= _ <-]; eauto].
  rewrite net_bind. destruct (sys_any NetError_VmNet (with_faults f1 w)) as [f2 E2].
  destruct (sys NetError_VmNet _) as [[[]|e1] w2]; cbn in E2; subst w2; [|intros [= _ <-]; by exists f2].
  rewrite net_bind. destruct (sys_any NetError_VmNet (with_faults f2 (with_faults f1 w))) as [f3 E3].
  destruct (sys NetError_VmNet _) as [[[]|e1] w2]; cbn in E3; subst w2; [done|intros [= _ <-]; by exists f3].
Qed.

(** C18 (safety): A machine's network leaves nothing behind.  The links, the tables and
    the forwarding switch of the host are as before when its setup fails, whatever failed
    and however far it had come, and when the guard of a setup that succeeded is
    dropped.  This holds on a host where the names of the machine's links and table are
    free, where the forwarding switch can be read, and where no call fails
    during the cleanup or the drop itself. *)
Theorem vmnet_leaves_nothing {N : Nft} temp_dir id fd purpose dhcp w :
  names_free id fd w -> (forall t fs, faults w <> Some t :: fs) -> trim (ip_forward w ++ [lf]) = ip_forward w ->
  quiet_cleanup id fd purpose w ->
  match vm_setup_inner temp_dir id purpose dhcp fd w with
  | (Err _, w') => restored w w'
  | (Ok net, w1) => restored w (drop_vmnet net (with_faults [] w1))
  end.
Proof.
  intros Hn Hf Ht Hq. unfold vm_setup_inner. destruct (enable_ipv4_forwarding w) as [[prior|] we] eqn:E1; [|by eapply enable_fails].
  assert (Hp : default ("1" : str) prior = ip_forward w).
  { apply enable_ok in E1 as (_ & _ & _ & Hp). rewrite (Hp Hf), Ht. unfold forward_restore_target.
    destruct (bool_decide_reflect (ip_forward w = "1")) as [->|]; done. }
  destruct (Hq _ _ E1) as [Hq1 Hq2]. destruct (create_netns fd we) as [[[]|e] wn] eqn:E2.
  2:{ specialize (Hq1 _ _ eq_refl). apply create_netns_fails in E2 as [fs ->]. cbn in Hq1. subst fs.
      apply enable_ok in E1 as (El & Et & Ef & _). unfold restored, vm_restore_ip_forward, ignoring, write_forward.
      destruct prior as [v|]; cbn in Hp; [rewrite call_quiet by done|]; cbn; by rewrite ?Hp, ?Ef. }
  destruct (plumb _ _ _ _ _ _ _ _ wn) as [[u|e] wp] eqn:E3.
  - destruct (spawn_dhcp _ _ _ _ _ wp) as [r wd] eqn:E4. assert (Hd : is_ok r = true /\ with_faults [] wd = with_faults [] wp).
    { clear -E4. unfold spawn_dhcp, sys in E4. destruct dhcp as [|[|prog rest]|]; try (by injection E4 as <- <-);
        destruct (faults wp) as [|[t|] fs]; by injection E4 as <- <-. }
    destruct r as [child|]; [|by destruct Hd]. destruct Hd as [_ Hd]. unfold restored, drop_vmnet. cbn [netns host_veth vm_table vm_prior_forward].
    rewrite Hd, <- Hp. by eapply plumb_undone.
  - specialize (Hq2 _ _ _ eq_refl E3). assert (Ew : wp = with_faults [] wp) by (rewrite <- Hq2; by destruct wp).
    rewrite Ew. unfold restored. rewrite <- Hp. by eapply plumb_undone.
Qed.

(** ** Addresses and rules *)

Lemma vm_subnet id a : 0 <= id ->
  (cidr_matches a (vm_cidr (for_id id)) = true <-> block (for_id id) <= a < block (for_id id) + 8)
  /\ v4 10 70 0 0 <= block (for_id id) /\ block (for_id id) + 8 <= v4 10 71 0 0.
Proof.
  intros Hid. assert (Hm : 0 <= id mod 8192 < 8192) by (apply Z.mod_pos_bound; lia).
  assert (Hr : v4 10 70 0 0 <= block (for_id id) /\ block (for_id id) + 8 <= v4 10 71 0 0)
    by (cbn [for_id block]; change (v4 10 70 0 0) with 172359680; change (v4 10 71 0 0) with 172425216; lia).
  split; [|done]. change (v4 10 70 0 0) with 172359680 in Hr. change (v4 10 71 0 0) with 172425216 in Hr.
  unfold vm_cidr, cidr_matches, plan_addr. rewrite parse_cidr_text by (unfold VmIpPlan_PREFIX; lia).
  unfold VmIpPlan_PREFIX. change (32 - 29) with 3. rewrite Z.eqb_eq, !shiftr_div by lia. change (2 ^ 3) with 8.
  assert (Hz : block (for_id id) = (21544960 + id mod 8192) * 8) by (cbn [for_id block]; change (v4 10 70 0 0) with 172359680; lia).
  rewrite Z.add_0_r, Hz, Z.div_mul by lia. generalize (21544960 + id mod 8192). intros q. Z.to_euclidean_division_equations. lia.
Qed.

Definition same_tables (w w' : World) : Prop := tables w' = tables w.
#[export] Instance same_tables_preorder : PreOrder same_tables.
Proof. split; [done|]. intros w1 w2 w3 H1 H2. unfold same_tables in *. congruence. Qed.

Lemma same_tables_faults w w' : same_but_faults w w' -> same_tables w w'.
Proof. by intros []. Qed.

Ltac tables_step := first
  [ apply (keeps_sys same_tables same_tables_faults)
  | apply (keeps_call same_tables same_tables_faults); intros ?; cbn; repeat case_match; done
  | apply keeps_ret; apply _ | apply keeps_refuse; apply _
  | apply keeps_bind; [apply _| |intros ?] | case_match ].

Lemma links_keep_tables id fd plan br tp :
  keeps same_tables (vm_host_side (vmh id) (vmc id) plan fd) /\ keeps same_tables (configure_netns_side fd (vmc id) br tp plan).
Proof.
  unfold vm_host_side, configure_netns_side, create_persistent_tap, raise_all, current_thread_rt, new_connection. split; repeat tables_step.
Qed.

(** A policed machine has the rules of a container's network, for exactly its
    own addresses, which no container has. *)
Lemma vm_policed {N : Nft} temp_dir id policy fd w net w' : 0 <= id -> names_free id fd w ->
  setup_policed_egress temp_dir id policy fd w = (Ok net, w') ->
  tables w' !! vm_table net = Some [masquerade_body (vm_cidr (for_id id)) (denied_v4_cidrs policy)]
  /\ (forall a, cidr_matches a (vm_cidr (for_id id)) = true <-> guest_ip net - 2 <= a < guest_ip net + 6)
  /\ forall b a, block_ok b -> cidr_matches a (vm_cidr (for_id id)) = true ->
       cidr_matches a (subnet_text (network (for_block (v4 10 69 0 0) b))) = false.
Proof.
  intros Hid Hn. unfold setup_policed_egress, vm_setup_inner.
  destruct (enable_ipv4_forwarding w) as [[prior|] we] eqn:E1; [|done].
  destruct (create_netns fd we) as [[[]|] wn] eqn:E2; [|done].
  destruct (plumb _ _ _ _ _ _ _ _ wn) as [[u|] wp] eqn:E3; [|done]. cbn [spawn_dhcp mret netio_ret]. intros [= <- <-].
  cbn [vm_table guest_ip]. apply enable_ok in E1 as (_ & Et & _ & _). apply create_netns_ok in E2 as [fs ->]. split_and!.
  - unfold plumb in E3. apply net_bind_ok in E3 as (? & w1 & [f1 ->]%sys_ok & E3).
    apply net_bind_ok in E3 as (? & w2 & Eh & E3). apply net_bind_ok in E3 as (? & w3 & Ec & E3).
    assert (Ht : tables w3 = tables w).
    { destruct (links_keep_tables id fd (for_id id) (umfbr id) (umftap id)) as [K1 K2].
      specialize (K1 (with_faults f1 (with_faults fs (spawn fd we)))). rewrite Eh in K1. specialize (K2 w2). rewrite Ec in K2.
      unfold same_tables in *. cbn in K1, K2. congruence. }
    apply call_ok in E3 as [f3 E3]. destruct (nft_eval _ _) as [ts|] eqn:En; [|done]. injection E3 as _ <-.
    apply nft_define in En as ->; [|apply vmfwd_plain]. cbn [tables with_tables with_faults]. rewrite lookup_insert_eq, Ht, (nf_table _ _ _ Hn). done.
  - intros a. destruct (vm_subnet id a Hid) as [H _]. rewrite H. unfold guest, plan_addr. lia.
  - intros b a Hb Ha. destruct (vm_subnet id a Hid) as (H & Hlo & Hhi). apply H in Ha.
    destruct (for_block_network (v4 10 69 0 0) b) as (Hr & Hm & Hq); [done|done|].
    apply not_true_is_false. rewrite subnet_matches; [| done |].
    + change (v4 10 69 0 0) with 172294144 in *. change (v4 10 70 0 0) with 172359680 in *.
      set (n := network _) in *. Z.to_euclidean_division_equations. lia.
    + set (n := network _) in *. Z.to_euclidean_division_equations. lia.
Qed.

Module VmNetExample.
Import NftExample HostNetExample.
Definition forwards : list PortForward := [{| bind_addr := Some (v4 127 0 0 1); host_port := 8080; guest_port := 80; tcp := true |}].
(** [quiet_cleanup], evaluated. *)
Definition cleanup_quietb (w : World) : bool :=
  match enable_ipv4_forwarding w with
  | (Ok _, w1) =>
      match create_netns 100 w1 with
      | (Err _, w2) => bool_decide (faults w2 = [])
      | (Ok _, w2) =>
          match plumb (vmh 42) (vmc 42) (umfbr 42) (umftap 42) (vmfwd_table 42) (for_id 42) (ForwardPorts forwards) 100 w2 with
          | (Err _, w3) => bool_decide (faults w3 = [])
          | (Ok _, _) => true
          end
      end
  | (Err _, _) => true
  end.

(** The bridge cannot be addressed. *)
Definition unlucky : World := with_faults (replicate 27 None ++ [Some ("busy" : str)]) idle.
Definition failed : result NetError VmNet * World := vm_setup "/tmp" 42 forwards Dnsmasq 100 unlucky.

Lemma vmnet_leaves_nothing_witness :
  names_free 42 100 unlucky
  /\ match failed with
     | (Err e, w') => e = NetError_Netlink "busy" /\ restored unlucky w'
     | _ => False
     end
  /\ match vm_setup "/tmp" 42 forwards Dnsmasq 100 idle with
     | (Ok net, w1) => guest_ip net = v4 10 70 1 82 /\ is_Some (tables w1 !! vm_table net) /\ restored idle (drop_vmnet net (with_faults [] w1))
     | _ => False
     end.
Proof.
  assert (Hn : names_free 42 100 unlucky) by (split; try reflexivity; intros k l Hk; cbn in Hk; by rewrite lookup_empty in Hk).
  assert (Hi : names_free 42 100 idle) by (split; try reflexivity; intros k l Hk; cbn in Hk; by rewrite lookup_empty in Hk).
  assert (Hq : forall w, cleanup_quietb w = true -> quiet_cleanup 42 100 (ForwardPorts forwards) w).
  { intros w H prior w1 E1. unfold cleanup_quietb in H. rewrite E1 in H. split; [intros e w2 E2|intros w2 e w3 E2 E3].
    - rewrite E2 in H. by apply bool_decide_eq_true in H.
    - rewrite E2, E3 in H. by apply bool_decide_eq_true in H. }
  split; [exact Hn|]. split.
  - assert (Hc : quiet_cleanup 42 100 (ForwardPorts forwards) unlucky) by (apply Hq; vm_compute; reflexivity).
    assert (Ht : trim (ip_forward unlucky ++ [lf]) = ip_forward unlucky) by reflexivity.
    assert (Hf : forall t fs, faults unlucky <> Some t :: fs) by done.
    pose proof (vmnet_leaves_nothing "/tmp" 42 100 (ForwardPorts forwards) Dnsmasq unlucky Hn Hf Ht Hc) as H.
    assert (Hr : match failed with (Err e, _) => bool_decide (e = NetError_Netlink "busy") | _ => false end = true) by (vm_compute; reflexivity).
    unfold failed, vm_setup in *. destruct (vm_setup_inner _ _ _ _ _ unlucky) as [[|e] w']; [discriminate Hr|].
    apply bool_decide_eq_true in Hr. split; [exact Hr|exact H].
  - assert (Hc : quiet_cleanup 42 100 (ForwardPorts forwards) idle) by (apply Hq; vm_compute; reflexivity).
    assert (Ht : trim (ip_forward idle ++ [lf]) = ip_forward idle) by reflexivity.
    assert (Hf : forall t fs, faults idle <> Some t :: fs) by done.
    pose proof (vmnet_leaves_nothing "/tmp" 42 100 (ForwardPorts forwards) Dnsmasq idle Hi Hf Ht Hc) as H.
    assert (Hs : match vm_setup "/tmp" 42 forwards Dnsmasq 100 idle with
      | (Ok net, w1) => bool_decide (guest_ip net = v4 10 70 1 82) && bool_decide (is_Some (tables w1 !! vm_table net)) | _ => false end = true)
      by (vm_compute; reflexivity).
    unfold vm_setup in *. destruct (vm_setup_inner _ _ _ _ _ idle) as [[net|] w1]; [|discriminate Hs].
    apply andb_true_iff in Hs as [G%bool_decide_eq_true T%bool_decide_eq_true]. split; [exact G|]. split; [exact T|exact H].
Defined.

(** *** What other networks see *)

(** A container's network is in use; a machine ends, and forwarding is off. *)
Example forwarding_lost_to_vm :
  match vm_setup "/tmp" 42 [] NoDhcp 100 idle with
  | (Ok vm, w1) => match setup None 5 opts (spawn 5 w1) with
    | (Ok net, w2) => ip_forward w2 = "1" /\ ip_forward (drop_vmnet vm w2) = "0"
    | _ => False end
  | _ => False end.
Proof. vm_compute. auto. Qed.

(** A machine is in use; a container ends, and forwarding is off. *)
Example forwarding_lost_to_container :
  match setup None 5 opts (spawn 5 idle) with
  | (Ok net, w1) => match vm_setup "/tmp" 42 [] NoDhcp 100 w1 with
    | (Ok vm, w2) => ip_forward w2 = "1" /\ ip_forward (drop_net net (exit_process 5 w2)) = "0"
    | _ => False end
  | _ => False end.
Proof. vm_compute. auto. Qed.

(** Machines of processes 8192 apart have the same addresses. *)
Example same_subnet : for_id 42 = for_id (42 + 8192).
Proof. reflexivity. Qed.
End VmNetExample.
