(* ===== verification/Gateway.v ===== *)
(** * Gateway: the userspace gateway of a rootless container
    (crates/umf-networking/src/rootless_net/gateway.rs, tapdev.rs; the choice of
    the mode, rootless_net.rs).

    The network stack (smoltcp) and the sockets of the host are parameters: what
    they answer is arbitrary.  A [SocketSet] access with a handle that is not in
    the set panics, as it does there. *)

From stdpp Require Import gmap list sorting.
From S2P Require Import Prelude RustStr RustStrFacts Ssrf.
#[local] Open Scope N_scope.

(** ** The mode *)

Inductive EgressMode := EgressMode_None | EgressMode_Pasta | EgressMode_Native.
Definition EgressMode_default : EgressMode := EgressMode_Native.

Definition EgressMode_from_str (s : str) : result str EgressMode :=
  let t := to_ascii_lowercase (trim s) in
  if bool_decide (t = "none") then Ok EgressMode_None
  else if bool_decide (t = "pasta") then Ok EgressMode_Pasta
  else if bool_decide (t = "native") then Ok EgressMode_Native
  else Err t.
Definition EgressMode_from_env (var : option str) : EgressMode :=
  match var with
  | None => EgressMode_default
  | Some raw => match EgressMode_from_str raw with Ok mode => mode | Err _ => EgressMode_default end
  end.

(** ** The stack and the host *)

Definition SocketAddr : Type := IpAddr * N.
Inductive TcpState := Listen | SynReceived | Established | CloseWait | Closed | OtherState.
#[export] Instance TcpState_eq_dec : EqDecision TcpState.
Proof. solve_decision. Defined.
(** The sender of a datagram and the address it was sent to. *)
Record UdpMetadata := { meta_endpoint : SocketAddr; local_address : option IpAddr }.

Class Smoltcp := {
  Tcp : Type;
  Udp : Type;
  (* wire formats *)
  eth_ipv4_payload : str -> option str;
  ipv4_tcp_payload : str -> option str;
  ipv4_udp_payload : str -> option str;
  tcp_fields : str -> option (bool * bool * N);
  udp_dst_port : str -> option N;
  (* sockets *)
  tcp_listen : N -> option Tcp;
  state : Tcp -> TcpState;
  local_endpoint : Tcp -> option SocketAddr;
  listen_port : Tcp -> N;
  can_recv : Tcp -> bool;
  may_recv : Tcp -> bool;
  can_send : Tcp -> bool;
  recv_slice : nat -> Tcp -> option str * Tcp;
  send_slice : str -> Tcp -> option nat * Tcp;
  close : Tcp -> Tcp;
  abort : Tcp -> Tcp;
  udp_bind : N -> Udp;
  udp_port : Udp -> N;
  udp_recv_slice : Udp -> option (str * UdpMetadata) * Udp;
  udp_send_slice : str -> UdpMetadata -> Udp -> bool * Udp;
  (* the set: where a socket is added, and a poll of the interface *)
  slot : gset nat -> nat;
  poll : list str -> gmap nat (Tcp + Udp) -> list str * gmap nat (Tcp + Udp);
  (* what the documentation says *)
  slot_fresh : forall X, slot X ∉ X;
  poll_kinds : forall q S h, match S !! h, (poll q S).2 !! h with
    | Some (inl _), Some (inl _) | Some (inr _), Some (inr _) | None, None => True | _, _ => False end;
  rx_len : Tcp -> nat;
  recv_shrinks : forall n t b t', recv_slice n t = (Some b, t') -> b <> [] -> (rx_len t' < rx_len t)%nat;
  tx_free : Tcp -> nat;
  send_fills : forall b t n t', send_slice b t = (Some n, t') -> (0 < n)%nat -> (tx_free t' < tx_free t)%nat;
  send_bound : forall b t n t', send_slice b t = (Some n, t') -> (n <= length b)%nat;
  rx_count : Udp -> nat;
  udp_recv_shrinks : forall u x u', udp_recv_slice u = (Some x, u') -> (rx_count u' < rx_count u)%nat
}.

Inductive HostRead := Data (b : str) | WouldBlock | Failed.
Class HostSockets := {
  Hst : Type;
  connect : SocketAddr -> Hst -> result str nat * Hst;
  write_all : nat -> str -> Hst -> bool * Hst;
  host_read : nat -> nat -> Hst -> HostRead * Hst;
  shutdown_write : nat -> Hst -> Hst;
  udp_socket : Hst -> result str nat * Hst;
  send_to : nat -> str -> SocketAddr -> Hst -> bool * Hst;
  host_recv : nat -> Hst -> HostRead * Hst;
  host_read_bound : forall fd n h b h', host_read fd n h = (Data b, h') -> (length b <= n)%nat
}.

(** What leaves the process, in order. *)
Inductive Egress := Dialled (dst : SocketAddr) | Sent (dst : SocketAddr) (payload : str).

(** ** The gateway *)

Definition FLOW_BUF : N := 64 * 1024.
Definition SPLICE_CHUNK : nat := Z.to_nat (16 * 1024).
Definition LISTENERS_PER_PORT : nat := 4.
Definition MAX_LEARNED_PORTS : nat := 64.
Definition RX_BURST : nat := 256.
Definition GATEWAY_IP : Z := v4 10 71 0 1.

Record TcpFlow := { f_handle : nat; f_host : nat; f_dst : SocketAddr; host_wr_shut : bool }.
Record UdpFlow := { u_relay : nat; u_host : nat; u_peer : SocketAddr; u_dst : SocketAddr }.
Inductive Proto := Proto_Tcp | Proto_Udp.
Record L4Dst := { proto : Proto; dst_port : N }.

Record GatewayStats := {
  tcp_accepted : N; tcp_c2h_bytes : N; tcp_h2c_bytes : N; udp_c2h : N; udp_h2c : N; learned_ports : N
}.
Definition GatewayStats_default : GatewayStats :=
  {| tcp_accepted := 0; tcp_c2h_bytes := 0; tcp_h2c_bytes := 0; udp_c2h := 0; udp_h2c := 0; learned_ports := 0 |}.
Definition add_accepted n s := {| tcp_accepted := tcp_accepted s + n; tcp_c2h_bytes := tcp_c2h_bytes s; tcp_h2c_bytes := tcp_h2c_bytes s;
  udp_c2h := udp_c2h s; udp_h2c := udp_h2c s; learned_ports := learned_ports s |}.
Definition add_c2h n s := {| tcp_accepted := tcp_accepted s; tcp_c2h_bytes := tcp_c2h_bytes s + n; tcp_h2c_bytes := tcp_h2c_bytes s;
  udp_c2h := udp_c2h s; udp_h2c := udp_h2c s; learned_ports := learned_ports s |}.
Definition add_h2c n s := {| tcp_accepted := tcp_accepted s; tcp_c2h_bytes := tcp_c2h_bytes s; tcp_h2c_bytes := tcp_h2c_bytes s + n;
  udp_c2h := udp_c2h s; udp_h2c := udp_h2c s; learned_ports := learned_ports s |}.
Definition add_udp_c2h n s := {| tcp_accepted := tcp_accepted s; tcp_c2h_bytes := tcp_c2h_bytes s; tcp_h2c_bytes := tcp_h2c_bytes s;
  udp_c2h := udp_c2h s + n; udp_h2c := udp_h2c s; learned_ports := learned_ports s |}.
Definition add_udp_h2c n s := {| tcp_accepted := tcp_accepted s; tcp_c2h_bytes := tcp_c2h_bytes s; tcp_h2c_bytes := tcp_h2c_bytes s;
  udp_c2h := udp_c2h s; udp_h2c := udp_h2c s + n; learned_ports := learned_ports s |}.
Definition add_learned n s := {| tcp_accepted := tcp_accepted s; tcp_c2h_bytes := tcp_c2h_bytes s; tcp_h2c_bytes := tcp_h2c_bytes s;
  udp_c2h := udp_c2h s; udp_h2c := udp_h2c s; learned_ports := learned_ports s + n |}.

Section gateway.
Context {SM : Smoltcp} {HS : HostSockets}.

(** The gateway with the host's sockets and the record of what left. *)
Record Gateway := {
  sockets : gmap nat (Tcp + Udp);
  learned_tcp_ports : gset N;
  listeners : list nat;
  tcp_flows : list TcpFlow;
  udp_relays : gmap N nat;
  udp_flows : list UdpFlow;
  policy : EgressPolicy;
  stats : GatewayStats;
  rx_queue : list str;
  hosts : Hst;
  egress : list Egress
}.

Definition set_sockets s g := {| sockets := s; learned_tcp_ports := learned_tcp_ports g; listeners := listeners g; tcp_flows := tcp_flows g;
  udp_relays := udp_relays g; udp_flows := udp_flows g; policy := policy g; stats := stats g; rx_queue := rx_queue g; hosts := hosts g; egress := egress g |}.
Definition set_learned l g := {| sockets := sockets g; learned_tcp_ports := l; listeners := listeners g; tcp_flows := tcp_flows g;
  udp_relays := udp_relays g; udp_flows := udp_flows g; policy := policy g; stats := stats g; rx_queue := rx_queue g; hosts := hosts g; egress := egress g |}.
Definition set_listeners l g := {| sockets := sockets g; learned_tcp_ports := learned_tcp_ports g; listeners := l; tcp_flows := tcp_flows g;
  udp_relays := udp_relays g; udp_flows := udp_flows g; policy := policy g; stats := stats g; rx_queue := rx_queue g; hosts := hosts g; egress := egress g |}.
Definition set_tcp_flows f g := {| sockets := sockets g; learned_tcp_ports := learned_tcp_ports g; listeners := listeners g; tcp_flows := f;
  udp_relays := udp_relays g; udp_flows := udp_flows g; policy := policy g; stats := stats g; rx_queue := rx_queue g; hosts := hosts g; egress := egress g |}.
Definition set_udp_relays r g := {| sockets := sockets g; learned_tcp_ports := learned_tcp_ports g; listeners := listeners g; tcp_flows := tcp_flows g;
  udp_relays := r; udp_flows := udp_flows g; policy := policy g; stats := stats g; rx_queue := rx_queue g; hosts := hosts g; egress := egress g |}.
Definition set_udp_flows f g := {| sockets := sockets g; learned_tcp_ports := learned_tcp_ports g; listeners := listeners g; tcp_flows := tcp_flows g;
  udp_relays := udp_relays g; udp_flows := f; policy := policy g; stats := stats g; rx_queue := rx_queue g; hosts := hosts g; egress := egress g |}.
Definition on_stats f g := {| sockets := sockets g; learned_tcp_ports := learned_tcp_ports g; listeners := listeners g; tcp_flows := tcp_flows g;
  udp_relays := udp_relays g; udp_flows := udp_flows g; policy := policy g; stats := f (stats g); rx_queue := rx_queue g; hosts := hosts g; egress := egress g |}.
Definition set_queue q g := {| sockets := sockets g; learned_tcp_ports := learned_tcp_ports g; listeners := listeners g; tcp_flows := tcp_flows g;
  udp_relays := udp_relays g; udp_flows := udp_flows g; policy := policy g; stats := stats g; rx_queue := q; hosts := hosts g; egress := egress g |}.
Definition set_hosts h g := {| sockets := sockets g; learned_tcp_ports := learned_tcp_ports g; listeners := listeners g; tcp_flows := tcp_flows g;
  udp_relays := udp_relays g; udp_flows := udp_flows g; policy := policy g; stats := stats g; rx_queue := rx_queue g; hosts := h; egress := egress g |}.
Definition log_egress e g := {| sockets := sockets g; learned_tcp_ports := learned_tcp_ports g; listeners := listeners g; tcp_flows := tcp_flows g;
  udp_relays := udp_relays g; udp_flows := udp_flows g; policy := policy g; stats := stats g; rx_queue := rx_queue g; hosts := hosts g; egress := egress g ++ [e] |}.

Definition Gateway_new (p : EgressPolicy) (h : Hst) : Gateway :=
  {| sockets := ∅; learned_tcp_ports := ∅; listeners := []; tcp_flows := []; udp_relays := ∅; udp_flows := []; policy := p;
     stats := GatewayStats_default; rx_queue := []; hosts := h; egress := [] |}.

(** Computations on the gateway. *)
Definition gw (A : Type) : Type := Gateway -> outcome (A * Gateway).
#[local] Instance gw_ret : MRet gw := fun A a g => Val (a, g).
#[local] Instance gw_bind : MBind gw := fun A B k m g =>
  match m g with Val (a, g') => k a g' | Panic => Panic | OutOfFuel => OutOfFuel end.
Definition modify (f : Gateway -> Gateway) : gw unit := fun g => Val (tt, f g).
Definition gets {A} (f : Gateway -> A) : gw A := fun g => Val (f g, g).

Definition get_tcp (h : nat) : gw Tcp := fun g =>
  match sockets g !! h with Some (inl t) => Val (t, g) | _ => Panic end.
Definition put_tcp (h : nat) (t : Tcp) : gw unit := modify (fun g => set_sockets (<[h := inl t]> (sockets g)) g).
Definition get_udp (h : nat) : gw Udp := fun g =>
  match sockets g !! h with Some (inr u) => Val (u, g) | _ => Panic end.
Definition put_udp (h : nat) (u : Udp) : gw unit := modify (fun g => set_sockets (<[h := inr u]> (sockets g)) g).
Definition add_socket (s : Tcp + Udp) : gw nat := fun g =>
  let h := slot (dom (sockets g)) in Val (h, set_sockets (<[h := s]> (sockets g)) g).
Definition remove_socket (h : nat) : gw unit := fun g =>
  match sockets g !! h with Some _ => Val (tt, set_sockets (delete h (sockets g)) g) | None => Panic end.

(** *** Learning ports *)

Definition peek_l4_dst (frame : str) : option L4Dst :=
  ip ← eth_ipv4_payload frame;
  match ipv4_tcp_payload ip with
  | Some seg =>
      '(syn, ack, port) ← tcp_fields seg;
      if (syn : bool) && negb ack then Some {| proto := Proto_Tcp; dst_port := port |} else None
  | None =>
      dgram ← ipv4_udp_payload ip;
      port ← udp_dst_port dgram;
      Some {| proto := Proto_Udp; dst_port := port |}
  end.

(** The ports seen for the first time, in order. *)
Fixpoint fresh_ports (g : Gateway) (frames : list str) (new_tcp new_udp : list N) : list N * list N :=
  match frames with
  | [] => (new_tcp, new_udp)
  | frame :: frames =>
      match peek_l4_dst frame with
      | Some {| proto := Proto_Tcp; dst_port := port |} =>
          if bool_decide (port ∉ learned_tcp_ports g) && bool_decide (port ∉ new_tcp)
          then fresh_ports g frames (new_tcp ++ [port]) new_udp
          else fresh_ports g frames new_tcp new_udp
      | Some {| proto := Proto_Udp; dst_port := port |} =>
          if bool_decide (udp_relays g !! port = None) && bool_decide (port ∉ new_udp)
          then fresh_ports g frames new_tcp (new_udp ++ [port])
          else fresh_ports g frames new_tcp new_udp
      | None => fresh_ports g frames new_tcp new_udp
      end
  end.

Fixpoint learn_tcp (ports : list N) : gw unit :=
  match ports with
  | [] => mret tt
  | port :: ports => fun g =>
      if (MAX_LEARNED_PORTS <=? size (learned_tcp_ports g))%nat then Val (tt, g)
      else learn_tcp ports (on_stats (add_learned 1) (set_learned ({[port]} ∪ learned_tcp_ports g) g))
  end.

Definition add_udp_relay (port : N) : gw nat := add_socket (inr (udp_bind port)).
Fixpoint learn_udp (ports : list N) : gw unit :=
  match ports with
  | [] => mret tt
  | port :: ports => fun g =>
      if (MAX_LEARNED_PORTS <=? size (udp_relays g))%nat then Val (tt, g)
      else (handle ← add_udp_relay port;
            _ ← modify (fun g => on_stats (add_learned 1) (set_udp_relays (<[port := handle]> (udp_relays g)) g));
            learn_udp ports) g
  end.

Definition learn_ports : gw unit := fun g =>
  let '(new_tcp, new_udp) := fresh_ports g (rx_queue g) [] [] in
  (_ ← learn_tcp new_tcp; learn_udp new_udp) g.

(** *** Listeners *)

Definition add_listener (port : N) : gw (option nat) :=
  match tcp_listen port with
  | Some sock => h ← add_socket (inl sock); mret (Some h)
  | None => mret None
  end.

(** How many listeners there are for a port. *)
Fixpoint count_listeners (port : N) (hs : list nat) : gw nat :=
  match hs with
  | [] => mret 0%nat
  | h :: hs =>
      sock ← get_tcp h;
      n ← count_listeners port hs;
      mret (if bool_decide (listen_port sock = port) then S n else n)
  end.
Fixpoint add_listeners (port : N) (n : nat) : gw unit :=
  match n with
  | O => mret tt
  | S n =>
      r ← add_listener port;
      match r with
      | Some h => _ ← modify (fun g => set_listeners (listeners g ++ [h]) g); add_listeners port n
      | None => mret tt
      end
  end.
Fixpoint replenish (ports : list N) : gw unit :=
  match ports with
  | [] => mret tt
  | port :: ports =>
      hs ← gets listeners;
      have ← count_listeners port hs;
      _ ← add_listeners port (LISTENERS_PER_PORT - have);
      replenish ports
  end.
Definition sorted_ports (X : gset N) : list N := merge_sort N.le (elements X).
Definition replenish_listeners : gw unit := ports ← gets (fun g => sorted_ports (learned_tcp_ports g)); replenish ports.

(** *** TCP *)

(** The connection to the host is where the policy is asked. *)
Definition open_host_tcp (dst : SocketAddr) : gw (result str nat) := fun g =>
  match check (policy g) dst.1 with
  | Err d => Val (Err (AddressCategory_as_str (denied_category d)), g)
  | Ok _ =>
      let '(r, h) := connect dst (hosts g) in
      Val (r, log_egress (Dialled dst) (set_hosts h g))
  end.

Inductive FlowProgress := FlowLive | FlowDone.

(** From the container to the host: whether the flow was given up. *)
Fixpoint c2h (fuel : nat) (host : nat) (sock : Tcp) (g : Gateway) : outcome (bool * Tcp * Gateway) :=
  if can_recv sock then
    match fuel with
    | O => OutOfFuel
    | S fuel =>
        match recv_slice SPLICE_CHUNK sock with
        | (Some [], sock) => Val (false, sock, g)
        | (Some chunk, sock) =>
            match write_all host chunk (hosts g) with
            | (true, h) => c2h fuel host sock (on_stats (add_c2h (N.of_nat (length chunk))) (set_hosts h g))
            | (false, h) => Val (true, abort sock, set_hosts h g)
            end
        | (None, sock) => Val (false, sock, g)
        end
    end
  else Val (false, sock, g).

(** From the host to the container. *)
Fixpoint h2c (fuel : nat) (host : nat) (sock : Tcp) (g : Gateway) : outcome (Tcp * Gateway) :=
  if can_send sock then
    match fuel with
    | O => OutOfFuel
    | S fuel =>
        match host_read host SPLICE_CHUNK (hosts g) with
        | (Data [], h) => Val (close sock, set_hosts h g)
        | (Data chunk, h) =>
            match send_slice chunk sock with
            | (Some sent, sock) =>
                let g := on_stats (add_h2c (N.of_nat sent)) (set_hosts h g) in
                if (sent <? length chunk)%nat then Val (sock, g) else h2c fuel host sock g
            | (None, sock) => Val (sock, set_hosts h g)
            end
        | (WouldBlock, h) => Val (sock, set_hosts h g)
        | (Failed, h) => Val (close sock, set_hosts h g)
        end
    end
  else Val (sock, g).

Definition splice_tcp (sock : Tcp) (flow : TcpFlow) (g : Gateway) : outcome (FlowProgress * Tcp * TcpFlow * Gateway) :=
  '(gone, sock, g) ← c2h (S (rx_len sock)) (f_host flow) sock g;
  if (gone : bool) then Val (FlowDone, sock, flow, g)
  else
    '(sock, g) ← h2c (S (tx_free sock)) (f_host flow) sock g;
    let '(flow, g) :=
      if negb (may_recv sock) && negb (host_wr_shut flow)
      then ({| f_handle := f_handle flow; f_host := f_host flow; f_dst := f_dst flow; host_wr_shut := true |},
            set_hosts (shutdown_write (f_host flow) (hosts g)) g)
      else (flow, g) in
    if bool_decide (state sock = Closed) && negb (can_recv sock) then Val (FlowDone, sock, flow, g) else Val (FlowLive, sock, flow, g).

(** The listeners that caught a connection, with their slots. *)
Fixpoint promoted_from (i : nat) (hs : list nat) : gw (list (nat * nat * SocketAddr)) :=
  match hs with
  | [] => mret []
  | h :: hs =>
      sock ← get_tcp h;
      rest ← promoted_from (S i) hs;
      mret (match state sock, local_endpoint sock with
            | Established, Some local => (i, h, local) :: rest
            | _, _ => rest
            end)
  end.

Definition promote (p : nat * nat * SocketAddr) : gw unit :=
  let '(i, handle, dst) := p in
  _ ← modify (fun g => set_listeners (delete i (listeners g)) g);
  r ← open_host_tcp dst;
  match r with
  | Ok host =>
      modify (fun g => set_tcp_flows (tcp_flows g ++ [{| f_handle := handle; f_host := host; f_dst := dst; host_wr_shut := false |}])
                                     (on_stats (add_accepted 1) g))
  | Err _ =>
      sock ← get_tcp handle;
      _ ← put_tcp handle (abort sock);
      remove_socket handle
  end.
Fixpoint promote_all (ps : list (nat * nat * SocketAddr)) : gw unit :=
  match ps with [] => mret tt | p :: ps => _ ← promote p; promote_all ps end.

(** One pass over the flows: what they became, and whether they are done. *)
Fixpoint splice_flows (flows : list TcpFlow) : gw (list (TcpFlow * bool)) :=
  match flows with
  | [] => mret []
  | flow :: flows =>
      sock ← get_tcp (f_handle flow);
      '(p, flow) ← (fun g => match splice_tcp sock flow g with
                            | Val (p, sock, flow', g) => (_ ← put_tcp (f_handle flow) sock; mret (p, flow')) g
                            | Panic => Panic
                            | OutOfFuel => OutOfFuel
                            end) : gw (FlowProgress * TcpFlow);
      rest ← splice_flows flows;
      mret ((flow, match p with FlowDone => true | FlowLive => false end) :: rest)
  end.
Fixpoint remove_all (hs : list nat) : gw unit :=
  match hs with [] => mret tt | h :: hs => _ ← remove_socket h; remove_all hs end.

Definition service_tcp : gw unit :=
  hs ← gets listeners;
  promoted ← promoted_from 0 hs;
  _ ← promote_all (rev promoted);
  flows ← gets tcp_flows;
  flows ← splice_flows flows;
  _ ← modify (set_tcp_flows (fst <$> filter (fun x => x.2 = false) flows));
  remove_all (rev ((fun x => f_handle x.1) <$> filter (fun x => x.2 = true) flows)).

(** *** UDP *)

Definition forward_udp (relay : nat) (payload : str) (peer : SocketAddr) (dst : SocketAddr) : gw (result str unit) := fun g =>
  match check (policy g) dst.1 with
  | Err d => Val (Err (AddressCategory_as_str (denied_category d)), g)
  | Ok _ =>
      match udp_socket (hosts g) with
      | (Err e, h) => Val (Err e, set_hosts h g)
      | (Ok host, h) =>
          match send_to host payload dst h with
          | (false, h) => Val (Err ("send" : str), log_egress (Sent dst payload) (set_hosts h g))
          | (true, h) =>
              let g := log_egress (Sent dst payload) (set_hosts h g) in
              Val (Ok tt, set_udp_flows (udp_flows g ++ [{| u_relay := relay; u_host := host; u_peer := peer; u_dst := dst |}]) g)
          end
      end
  end.

(** The datagrams waiting in one relay. *)
Fixpoint drain_relay (fuel : nat) (relay : nat) : gw unit := fun g =>
  ((sock ← get_udp relay;
   let '(r, sock) := udp_recv_slice sock in
   _ ← put_udp relay sock;
   match r with
   | None => mret tt
   | Some (payload, meta) =>
       let dst : SocketAddr := (default (IpAddr_V4 GATEWAY_IP) (local_address meta), udp_port sock) in
       r ← forward_udp relay payload (meta_endpoint meta) dst;
       _ ← (match r with Ok _ => modify (on_stats (add_udp_c2h 1)) | Err _ => mret tt end);
       match fuel with
       | O => (fun _ => OutOfFuel) : gw unit
       | S fuel => drain_relay fuel relay
       end
   end) : gw unit) g.
Fixpoint drain_relays (relays : list nat) : gw unit :=
  match relays with
  | [] => mret tt
  | relay :: relays =>
      sock ← get_udp relay;
      _ ← drain_relay (rx_count sock) relay;
      drain_relays relays
  end.

(** A reply appears to come from the address the container asked. *)
Definition deliver (flow : UdpFlow) (b : str) : gw unit :=
  sock ← get_udp (u_relay flow);
  let '(ok, sock) := udp_send_slice b {| meta_endpoint := u_peer flow; local_address := Some (u_dst flow).1 |} sock in
  _ ← put_udp (u_relay flow) sock;
  if (ok : bool) then modify (on_stats (add_udp_h2c 1)) else mret tt.

Definition recv_reply (host : nat) : gw HostRead := fun g =>
  let '(r, h) := host_recv host (hosts g) in Val (r, set_hosts h g).

(** Replies; a flow that had one is done. *)
Fixpoint pump_replies (flows : list UdpFlow) : gw (list UdpFlow) :=
  match flows with
  | [] => mret []
  | flow :: flows =>
      r ← recv_reply (u_host flow);
      match r with
      | WouldBlock => rest ← pump_replies flows; mret (flow :: rest)
      | Data (c :: b) => _ ← deliver flow (c :: b); pump_replies flows
      | Data [] | Failed => pump_replies flows
      end
  end.

Definition relay_handles (m : gmap N nat) : list nat := omap (fun p => m !! p) (sorted_ports (dom m)).

Definition service_udp : gw unit :=
  relays ← gets (fun g => relay_handles (udp_relays g));
  _ ← drain_relays relays;
  flows ← gets udp_flows;
  flows ← pump_replies flows;
  modify (set_udp_flows flows).

(** *** One turn *)

(** [tap] is what can be read from the device. *)
Definition fill_rx (tap : list str) : gw unit := modify (fun g => set_queue (rx_queue g ++ take RX_BURST tap) g).

Definition step (tap : list str) : gw unit :=
  _ ← fill_rx tap;
  _ ← learn_ports;
  _ ← replenish_listeners;
  _ ← modify (fun g => let '(q, s) := poll (rx_queue g) (sockets g) in set_sockets s (set_queue q g));
  _ ← service_tcp;
  service_udp.

(** The turns of [run_until]. *)
Fixpoint run_turns (taps : list (list str)) : gw unit :=
  match taps with [] => mret tt | tap :: taps => _ ← step tap; run_turns taps end.

(** ** Well-formed gateways *)

Inductive Kind := KTcp | KUdp.
Definition kind_of (s : Tcp + Udp) : Kind := match s with inl _ => KTcp | inr _ => KUdp end.
Definition kind (g : Gateway) (h : nat) : option Kind := kind_of <$> sockets g !! h.

(** The sockets that carry TCP, waiting or connected. *)
Definition tcp_handles (g : Gateway) : list nat := listeners g ++ (f_handle <$> tcp_flows g).

Definition allowed (p : EgressPolicy) (e : Egress) : Prop :=
  check p (match e with Dialled dst => dst.1 | Sent dst _ => dst.1 end) = Ok tt.

Context (pol : EgressPolicy).

Record gateway_ok (g : Gateway) : Prop := {
  ok_tcp : Forall (fun h => kind g h = Some KTcp) (tcp_handles g);
  ok_distinct : NoDup (tcp_handles g);
  ok_relays : forall p h, udp_relays g !! p = Some h -> kind g h = Some KUdp;
  ok_udp : Forall (fun f => kind g (u_relay f) = Some KUdp) (udp_flows g);
  ok_learned : (size (learned_tcp_ports g) <= MAX_LEARNED_PORTS)%nat;
  ok_relayed : (size (udp_relays g) <= MAX_LEARNED_PORTS)%nat;
  ok_egress : Forall (allowed pol) (egress g);
  ok_policy : policy g = pol
}.

(** Changes that do not matter: contents of sockets, the host, the counters. *)
Record calm (g g' : Gateway) : Prop := {
  ca_kind : forall h, kind g' h = kind g h;
  ca_learned : learned_tcp_ports g' = learned_tcp_ports g;
  ca_listeners : listeners g' = listeners g;
  ca_flows : tcp_flows g' = tcp_flows g;
  ca_relays : udp_relays g' = udp_relays g;
  ca_udp : udp_flows g' = udp_flows g;
  ca_policy : policy g' = policy g;
  ca_egress : egress g' = egress g
}.
#[local] Instance calm_preorder : PreOrder calm.
Proof. split; [done|]. intros g1 g2 g3 [] []. split; congruence. Qed.

Lemma calm_refl g : calm g g.
Proof. done. Qed.

Lemma calm_ok g g' : calm g g' -> gateway_ok g -> gateway_ok g'.
Proof.
  intros [Hk Hl Hls Hf Hr Hu Hp He] [H1 H2 H3 H4 H5 H6 H7 H8]. unfold tcp_handles in *.
  split; unfold tcp_handles; rewrite ?Hls, ?Hf, ?Hr, ?Hu, ?Hp, ?He, ?Hl; try done.
  - eapply Forall_impl; [done|]. intros h. by rewrite Hk.
  - intros p h. rewrite Hk. apply H3.
  - eapply Forall_impl; [done|]. intros f. by rewrite Hk.
Qed.

(** The computation ends without a panic, from [P] in [Q]. *)
Definition triple {A} (P : Gateway -> Prop) (m : gw A) (Q : A -> Gateway -> Prop) : Prop :=
  forall g, P g -> exists a g', m g = Val (a, g') /\ Q a g'.

Lemma triple_bind {A B} P (m : gw A) Q (k : A -> gw B) R :
  triple P m Q -> (forall a, triple (Q a) (k a) R) -> triple P (m ≫= k) R.
Proof. intros Hm Hk g Hg. destruct (Hm g Hg) as (a & g1 & E & HQ). unfold mbind, gw_bind. rewrite E. by apply Hk. Qed.
Lemma triple_ret {A} (P : Gateway -> Prop) (a : A) (Q : A -> Gateway -> Prop) : (forall g, P g -> Q a g) -> triple P (mret a) Q.
Proof. intros H g Hg. exists a, g. split; [done|by apply H]. Qed.
Lemma triple_modify (P : Gateway -> Prop) f (Q : unit -> Gateway -> Prop) : (forall g, P g -> Q tt (f g)) -> triple P (modify f) Q.
Proof. intros H g Hg. exists tt, (f g). split; [done|by apply H]. Qed.
Lemma triple_gets {A} (P : Gateway -> Prop) (f : Gateway -> A) : triple P (gets f) (fun a g => P g /\ a = f g).
Proof. intros g Hg. by exists (f g), g. Qed.
Lemma triple_weaken {A} (P P' : Gateway -> Prop) (m : gw A) (Q Q' : A -> Gateway -> Prop) :
  triple P m Q -> (forall g, P' g -> P g) -> (forall a g, Q a g -> Q' a g) -> triple P' m Q'.
Proof. intros Hm HP HQ g Hg. destruct (Hm g (HP g Hg)) as (a & g' & E & H). exists a, g'. split; [done|by apply HQ]. Qed.

(** *** Access to sockets *)

Lemma get_tcp_ok h g : kind g h = Some KTcp -> exists t, get_tcp h g = Val (t, g) /\ sockets g !! h = Some (inl t).
Proof. unfold kind, get_tcp. destruct (sockets g !! h) as [[t|u]|]; try done. by exists t. Qed.
Lemma get_udp_ok h g : kind g h = Some KUdp -> exists u, get_udp h g = Val (u, g) /\ sockets g !! h = Some (inr u).
Proof. unfold kind, get_udp. destruct (sockets g !! h) as [[t|u]|]; try done. by exists u. Qed.

Lemma kind_insert g h s h' : kind (set_sockets (<[h := s]> (sockets g)) g) h' = if decide (h = h') then Some (kind_of s) else kind g h'.
Proof. unfold kind. cbn. destruct (decide (h = h')) as [->|Hn]; [by rewrite lookup_insert_eq|by rewrite lookup_insert_ne]. Qed.
Lemma kind_delete g h h' : kind (set_sockets (delete h (sockets g)) g) h' = if decide (h = h') then None else kind g h'.
Proof. unfold kind. cbn. destruct (decide (h = h')) as [->|Hn]; [by rewrite lookup_delete_eq|by rewrite lookup_delete_ne]. Qed.

Lemma calm_put g h s : kind g h = Some (kind_of s) -> calm g (set_sockets (<[h := s]> (sockets g)) g).
Proof. intros Hk. split; try done. intros h'. rewrite kind_insert. by destruct (decide (h = h')) as [<-|]. Qed.
Lemma calm_stats g f : calm g (on_stats f g).
Proof. by split. Qed.
Lemma calm_hosts g h : calm g (set_hosts h g).
Proof. by split. Qed.

Lemma slot_none g : kind g (slot (dom (sockets g))) = None.
Proof. unfold kind. pose proof (slot_fresh (dom (sockets g))) as H. by rewrite not_elem_of_dom in H; rewrite H. Qed.

(** A new socket changes no other. *)
Lemma gateway_ok_add g s : gateway_ok g -> gateway_ok (set_sockets (<[slot (dom (sockets g)) := s]> (sockets g)) g).
Proof.
  intros [H1 H2 H3 H4 H5 H6 H7 H8]. pose proof (slot_none g) as Hn.
  assert (Hk : forall h k, kind g h = Some k -> kind (set_sockets (<[slot (dom (sockets g)) := s]> (sockets g)) g) h = Some k)
    by (intros h k Hh; rewrite kind_insert; destruct (decide (slot _ = h)) as [<-|]; [congruence|done]).
  split; try done.
  - eapply Forall_impl; [exact H1|]. intros h. apply Hk.
  - intros p h Hp. by apply Hk, H3 with p.
  - eapply Forall_impl; [exact H4|]. intros f. apply Hk.
Qed.

(** *** Learning and listening *)

Lemma learn_tcp_ok ports : triple gateway_ok (learn_tcp ports) (fun _ => gateway_ok).
Proof.
  induction ports as [|port ports IH]; [by apply triple_ret|]. intros g Hg. cbn [learn_tcp].
  destruct (Nat.leb_spec MAX_LEARNED_PORTS (size (learned_tcp_ports g))) as [|Hlt]; [by exists tt, g|].
  apply IH. destruct Hg as [H1 H2 H3 H4 H5 H6 H7 H8]. split; try done. cbn.
  rewrite size_union_alt, size_singleton. 
  pose proof (subseteq_size (learned_tcp_ports g ∖ {[port]}) (learned_tcp_ports g) ltac:(set_solver)). lia.
Qed.

Lemma learn_udp_ok ports : triple gateway_ok (learn_udp ports) (fun _ => gateway_ok).
Proof.
  induction ports as [|port ports IH]; [by apply triple_ret|]. intros g Hg. cbn [learn_udp].
  destruct (Nat.leb_spec MAX_LEARNED_PORTS (size (udp_relays g))) as [|Hlt]; [by exists tt, g|].
  apply IH. pose proof (gateway_ok_add g (inr (udp_bind port)) Hg) as [H1 H2 H3 H4 H5 H6 H7 H8].
  split; try done.
  - intros p h. cbn. rewrite lookup_insert_Some. intros [[<- <-]|[_ Hp]]; [|by eapply H3].
    change (kind (set_sockets (<[slot (dom (sockets g)) := inr (udp_bind port)]> (sockets g)) g) (slot (dom (sockets g))) = Some KUdp).
    rewrite kind_insert. by rewrite decide_True.
  - cbn. rewrite map_size_insert. case_match; cbn; lia.
Qed.

Lemma learn_ports_ok : triple gateway_ok learn_ports (fun _ => gateway_ok).
Proof.
  intros g Hg. unfold learn_ports. destruct (fresh_ports _ _ _ _) as [ts us].
  assert (HT : triple gateway_ok (_ ← learn_tcp ts; learn_udp us) (fun _ => gateway_ok))
    by (eapply triple_bind; [apply learn_tcp_ok|intros ?; apply learn_udp_ok]).
  by apply HT.
Qed.

Lemma count_listeners_ok port hs g : Forall (fun h => kind g h = Some KTcp) hs ->
  exists n, count_listeners port hs g = Val (n, g).
Proof.
  induction hs as [|h hs IH]; intros HF; [by exists 0%nat|]. apply Forall_cons in HF as [Hh HF].
  destruct (get_tcp_ok h g Hh) as (t & E & _). destruct (IH HF) as [n En].
  cbn [count_listeners]. unfold mbind, gw_bind. rewrite E, En. by eexists.
Qed.

Lemma add_listeners_ok port n : triple gateway_ok (add_listeners port n) (fun _ => gateway_ok).
Proof.
  induction n as [|n IH]; [by apply triple_ret|]. intros g Hg. cbn [add_listeners]. unfold add_listener.
  destruct (tcp_listen port) as [sock|]; [|by exists tt, g].
  apply IH. pose proof (gateway_ok_add g (inl sock) Hg) as [H1 H2 H3 H4 H5 H6 H7 H8]. pose proof (slot_none g) as Hn.
  assert (Hnew : slot (dom (sockets g)) ∉ tcp_handles g).
  { intros Hin. pose proof (proj1 (Forall_forall _ _) (ok_tcp _ Hg) _ Hin). cbn in *. congruence. }
  assert (Hp : forall l, tcp_handles (set_listeners (listeners g ++ [slot (dom (sockets g))]) (set_sockets l g))
    ≡ₚ slot (dom (sockets g)) :: tcp_handles g) by (intros l; unfold tcp_handles; cbn; rewrite <- app_assoc; symmetry; apply Permutation_middle).
  split; try done.
  - rewrite Hp. apply Forall_cons. split; [|exact H1].
    change (kind (set_sockets (<[slot (dom (sockets g)) := inl sock]> (sockets g)) g) (slot (dom (sockets g))) = Some KTcp).
    rewrite kind_insert. by rewrite decide_True.
  - rewrite Hp. apply NoDup_cons. split; [done|]. apply Hg.
Qed.

Lemma replenish_ok ports : triple gateway_ok (replenish ports) (fun _ => gateway_ok).
Proof.
  induction ports as [|port ports IH]; [by apply triple_ret|]. cbn [replenish].
  eapply triple_bind; [apply triple_gets|]. intros hs. eapply triple_bind.
  - intros g [Hg ->]. destruct (count_listeners_ok port (listeners g) g) as [n En].
    { pose proof (ok_tcp _ Hg) as HF. by apply Forall_app in HF as [HF _]. }
    exists n, g. split; [done|]. by instantiate (1 := fun _ g => gateway_ok g).
  - intros n. eapply triple_bind; [apply add_listeners_ok|by intros ?].
Qed.

Lemma replenish_listeners_ok : triple gateway_ok replenish_listeners (fun _ => gateway_ok).
Proof.
  eapply triple_bind; [apply triple_gets|]. intros ports. eapply triple_weaken; [apply replenish_ok|by intros g []|done].
Qed.

(** *** TCP *)

Lemma c2h_ok host fuel : forall sock g, (rx_len sock < fuel)%nat ->
  exists gone sock' g', c2h fuel host sock g = Val (gone, sock', g') /\ calm g g'.
Proof.
  induction fuel as [|fuel IH]; intros sock g Hf; [lia|]. cbn [c2h]. destruct (can_recv sock); [|by eauto 10 using calm_refl].
  destruct (recv_slice SPLICE_CHUNK sock) as [[[|c b]|] sock1] eqn:Er; [by eauto 10 using calm_refl| |by eauto 10 using calm_refl].
  destruct (write_all host (c :: b) (hosts g)) as [[|] h]; [|eauto 10 using calm_refl, calm_hosts].
  apply recv_shrinks in Er; [|done].
  destruct (IH sock1 (on_stats (add_c2h (N.of_nat (length (c :: b)))) (set_hosts h g))) as (gone & sock' & g' & E & Hc); [lia|].
  exists gone, sock', g'. split; [done|]. etrans; [|exact Hc]. etrans; [apply calm_hosts|apply calm_stats].
Qed.

Lemma h2c_ok host fuel : forall sock g, (tx_free sock < fuel)%nat ->
  exists sock' g', h2c fuel host sock g = Val (sock', g') /\ calm g g'.
Proof.
  induction fuel as [|fuel IH]; intros sock g Hf; [lia|]. cbn [h2c]. destruct (can_send sock); [|by eauto 10 using calm_refl].
  destruct (host_read host SPLICE_CHUNK (hosts g)) as [[[|c b]| |] h]; try (by eauto 10 using calm_refl, calm_hosts).
  destruct (send_slice (c :: b) sock) as [[sent|] sock1] eqn:Es; [|by eauto 10 using calm_refl, calm_hosts].
  pose proof (send_bound _ _ _ _ Es) as Hb.
  assert (Hc : calm g (on_stats (add_h2c (N.of_nat sent)) (set_hosts h g))) by (etrans; [apply calm_hosts|apply calm_stats]).
  destruct (Nat.ltb_spec sent (length (c :: b))) as [|Hge]; [by eauto 10 using calm_refl|].
  apply send_fills in Es; [|cbn [length] in *; lia].
  destruct (IH sock1 (on_stats (add_h2c (N.of_nat sent)) (set_hosts h g))) as (sock' & g' & E & Hc'); [lia|].
  exists sock', g'. split; [done|]. by etrans.
Qed.

Lemma splice_tcp_ok sock flow g : exists p sock' flow' g',
  splice_tcp sock flow g = Val (p, sock', flow', g') /\ calm g g' /\ f_handle flow' = f_handle flow.
Proof.
  unfold splice_tcp. destruct (c2h_ok (f_host flow) (S (rx_len sock)) sock g) as (gone & s1 & g1 & -> & C1); [lia|].
  cbn [mbind outcome_bind]. destruct gone; [by eauto 10 using calm_refl|].
  destruct (h2c_ok (f_host flow) (S (tx_free s1)) s1 g1) as (s2 & g2 & -> & C2); [lia|]. cbn [mbind outcome_bind].
  assert (C : calm g g2) by by etrans.
  match goal with |- context [if ?c then (?x, ?y) else (?x', ?y')] =>
    destruct (if c then (x, y) else (x', y')) as [flow' g3] eqn:E3 end.
  assert (H3 : calm g2 g3 /\ f_handle flow' = f_handle flow)
    by (destruct (negb (may_recv s2) && negb (host_wr_shut flow)); injection E3 as <- <-; split; done || apply calm_hosts).
  destruct H3 as [C3 Ef]. assert (C' : calm g g3) by by etrans.
  destruct (bool_decide (state s2 = Closed) && negb (can_recv s2)); by eexists _, _, _, _.
Qed.

Lemma splice_flows_ok flows : forall g, Forall (fun h => kind g h = Some KTcp) (f_handle <$> flows) ->
  exists r g', splice_flows flows g = Val (r, g') /\ calm g g' /\ ((fun x => f_handle x.1) <$> r) = (f_handle <$> flows).
Proof.
  induction flows as [|flow flows IH]; intros g HF; [by exists [], g|]. apply Forall_cons in HF as [Hh HF].
  destruct (get_tcp_ok _ _ Hh) as (t & Eg & _). destruct (splice_tcp_ok t flow g) as (p & t' & flow' & g1 & Es & C1 & Ef).
  cbn [splice_flows]. unfold mbind, gw_bind. rewrite Eg, Es. cbn [put_tcp modify mret gw_ret].
  set (g2 := set_sockets _ g1).
  assert (C2 : calm g g2) by (etrans; [exact C1|]; apply calm_put; by rewrite (ca_kind _ _ C1)).
  destruct (IH g2) as (r & g3 & E & C3 & Er).
  { eapply Forall_impl; [exact HF|]. intros h. by rewrite (ca_kind _ _ C2). }
  rewrite E. eexists _, g3. split; [done|]. split; [by etrans|]. cbn. rewrite Ef. by f_equal.
Qed.

(** Slots of listeners, in increasing order. *)
Definition slots_of (hs : list nat) (ps : list (nat * nat * SocketAddr)) : Prop :=
  StronglySorted (fun p q => (p.1.1 < q.1.1)%nat) ps /\ Forall (fun p => hs !! p.1.1 = Some p.1.2) ps.

Lemma promoted_from_ok hs : forall pre g, Forall (fun h => kind g h = Some KTcp) hs ->
  exists ps, promoted_from (length pre) hs g = Val (ps, g) /\ slots_of (pre ++ hs) ps /\ Forall (fun p => (length pre <= p.1.1)%nat) ps.
Proof.
  induction hs as [|h hs IH]; intros pre g HF; [exists []; split; [done|]; split; [split; constructor|constructor]|].
  apply Forall_cons in HF as [Hh HF]. destruct (get_tcp_ok _ _ Hh) as (t & Eg & _).
  destruct (IH (pre ++ [h]) g HF) as (ps & E & [Hs Hl] & Hge). rewrite length_app, Nat.add_comm in E, Hge. cbn in E, Hge.
  rewrite <- app_assoc in Hl. cbn in Hl. cbn [promoted_from]. unfold mbind, gw_bind. rewrite Eg, E.
  assert (Hw : Forall (fun p => (length pre <= p.1.1)%nat) ps) by (eapply Forall_impl; [exact Hge|]; intros p; cbn; lia).
  destruct (state t); try (by eexists; split; [done|]; split; [split|]).
  destruct (local_endpoint t) as [local|]; [|by eexists; split; [done|]; split; [split|]].
  eexists. split; [done|]. split; [split|].
  - constructor; [done|]. eapply Forall_impl; [exact Hge|]. intros p. cbn. lia.
  - constructor; [|done]. cbn. by rewrite list_lookup_middle.
  - constructor; [cbn; lia|done].
Qed.

(** A socket that carries no flow and no listener any more is removed. *)
Lemma remove_ok g h : gateway_ok g -> kind g h = Some KTcp -> h ∉ tcp_handles g ->
  exists g', remove_socket h g = Val (tt, g') /\ gateway_ok g' /\ listeners g' = listeners g /\ tcp_handles g' = tcp_handles g
    /\ forall h', h' <> h -> kind g' h' = kind g h'.
Proof.
  intros [H1 H2 H3 H4 H5 H6 H7 H8] Hk Hn. assert (Hs : exists x, sockets g !! h = Some x) by (unfold kind in Hk; destruct (sockets g !! h); [by eauto|done]).
  destruct Hs as [x Hx]. exists (set_sockets (delete h (sockets g)) g). unfold remove_socket. rewrite Hx.
  assert (Hd : forall h', h' <> h -> kind (set_sockets (delete h (sockets g)) g) h' = kind g h')
    by (intros h' Hne; rewrite kind_delete; by rewrite decide_False).
  split; [done|]. split; [|done]. split; try done.
  - apply Forall_forall. intros h' Hin. rewrite Hd; [by eapply (proj1 (Forall_forall _ _) H1)|]. by intros ->.
  - intros p h' Hp. rewrite Hd; [by eapply H3|]. intros ->. apply H3 in Hp. congruence.
  - eapply Forall_impl; [exact H4|]. intros f Hf. cbn in *. rewrite Hd; [done|]. intros E. rewrite E in Hf. congruence.
Qed.

Lemma remove_all_ok hs : forall g, gateway_ok g -> NoDup hs -> (forall h, h ∈ hs -> kind g h = Some KTcp /\ h ∉ tcp_handles g) ->
  exists g', remove_all hs g = Val (tt, g') /\ gateway_ok g'.
Proof.
  induction hs as [|h hs IH]; intros g Hg Hnd Hh; [by exists g|]. apply NoDup_cons in Hnd as [Hn Hnd].
  destruct (Hh h) as [Hk Hnh]; [by left|]. destruct (remove_ok g h Hg Hk Hnh) as (g1 & E & Hg1 & _ & Et & Hk1).
  cbn [remove_all]. unfold mbind, gw_bind. rewrite E. apply IH; [done|done|]. intros h' Hin.
  destruct (Hh h') as [Hk' Hnh']; [by right|]. rewrite Hk1, Et; [done|]. by intros ->.
Qed.

Lemma open_host_tcp_ok dst g : gateway_ok g -> exists r g',
  open_host_tcp dst g = Val (r, g') /\ gateway_ok g' /\ (forall h, kind g' h = kind g h)
  /\ listeners g' = listeners g /\ tcp_flows g' = tcp_flows g.
Proof.
  intros Hg. unfold open_host_tcp. destruct (check (policy g) dst.1) as [[]|d] eqn:Ec; [|by eexists _, g].
  destruct (connect dst (hosts g)) as [r h]. eexists _, _. split; [done|]. split; [|done].
  destruct Hg as [H1 H2 H3 H4 H5 H6 H7 H8]. rewrite H8 in Ec. split; try done. cbn. apply Forall_app. split; [done|]. by repeat constructor.
Qed.

Lemma promote_ok i h dst g : gateway_ok g -> listeners g !! i = Some h ->
  exists g', promote (i, h, dst) g = Val (tt, g') /\ gateway_ok g' /\ listeners g' = delete i (listeners g).
Proof.
  intros Hg Hi. pose proof Hg as [H1 H2 H3 H4 H5 H6 H7 H8].
  assert (Hp : tcp_handles g ≡ₚ h :: delete i (listeners g) ++ (f_handle <$> tcp_flows g))
    by (unfold tcp_handles; by rewrite (delete_Permutation _ _ _ Hi) at 1).
  rewrite Hp in H1, H2. apply Forall_cons in H1 as [Hk H1]. apply NoDup_cons in H2 as [Hn H2].
  set (g1 := set_listeners (delete i (listeners g)) g). assert (Hg1 : gateway_ok g1) by by split.
  destruct (open_host_tcp_ok dst g1 Hg1) as (r & g2 & E2 & Hg2 & Hk2 & El2 & Ef2).
  unfold promote, mbind, gw_bind. cbn [modify]. fold g1. rewrite E2. destruct r as [host|e].
  - eexists. split; [done|]. split; [|done]. destruct Hg2 as [G1 G2 G3 G4 G5 G6 G7 G8]. split; try done.
    + unfold tcp_handles in *. cbn. rewrite fmap_app, app_assoc. apply Forall_app. split; [done|]. repeat constructor. cbn.
      change (kind g2 h = Some KTcp). by rewrite Hk2.
    + unfold tcp_handles in *. cbn. rewrite fmap_app, app_assoc, El2, Ef2. cbn. rewrite Permutation_app_comm. by apply NoDup_cons.
  - assert (Hkh : kind g2 h = Some KTcp) by by rewrite Hk2. destruct (get_tcp_ok _ _ Hkh) as (t & -> & _).
    set (g3 := set_sockets (<[h := inl (abort t)]> (sockets g2)) g2).
    assert (C3 : calm g2 g3) by by apply calm_put.
    destruct (remove_ok g3 h) as (g4 & E4 & Hg4 & El4 & _).
    + by eapply calm_ok.
    + by rewrite (ca_kind _ _ C3).
    + unfold tcp_handles. rewrite (ca_listeners _ _ C3), (ca_flows _ _ C3), El2, Ef2. done.
    + cbn [put_tcp modify]. fold g3. rewrite E4. exists g4. split; [done|]. split; [done|]. by rewrite El4, (ca_listeners _ _ C3), El2.
Qed.

Lemma promote_all_ok ps : forall g, gateway_ok g ->
  StronglySorted (fun p q => (q.1.1 < p.1.1)%nat) ps -> Forall (fun p => listeners g !! p.1.1 = Some p.1.2) ps ->
  exists g', promote_all ps g = Val (tt, g') /\ gateway_ok g'.
Proof.
  induction ps as [|[[i h] dst] ps IH]; intros g Hg Hs HF; [by exists g|].
  apply StronglySorted_inv in Hs as [Hs Hlt]. apply Forall_cons in HF as [Hi HF]. cbn in Hi.
  destruct (promote_ok i h dst g Hg Hi) as (g1 & E & Hg1 & El). cbn [promote_all]. unfold mbind, gw_bind. rewrite E.
  apply IH; [done|done|]. apply Forall_forall. intros p Hp. rewrite El.
  pose proof (proj1 (Forall_forall _ _) Hlt p Hp) as Hpi. cbn in Hpi. rewrite list_lookup_delete_lt by done.
  exact (proj1 (Forall_forall _ _) HF p Hp).
Qed.

Lemma sorted_rev {A} (R : A -> A -> Prop) l : StronglySorted R l -> StronglySorted (fun x y => R y x) (rev l).
Proof.
  assert (Hsnoc : forall (R : A -> A -> Prop) l x, StronglySorted R l -> Forall (fun y => R y x) l -> StronglySorted R (l ++ [x])).
  { intros R' l' x Hs HF. induction Hs as [|y l' _ IH Hy]; [by repeat constructor|]. apply Forall_cons in HF as [Hx HF].
    cbn. constructor; [by apply IH|]. apply Forall_app. split; [done|by repeat constructor]. }
  induction 1 as [|x l _ IH Hx]; [constructor|]. cbn. apply Hsnoc; [done|]. apply Forall_rev. done.
Qed.

Lemma service_tcp_ok : triple gateway_ok service_tcp (fun _ => gateway_ok).
Proof.
  intros g Hg. unfold service_tcp, mbind, gw_bind. cbn [gets].
  assert (Hl : Forall (fun h => kind g h = Some KTcp) (listeners g)) by (pose proof (ok_tcp _ Hg) as H; by apply Forall_app in H as [H _]).
  destruct (promoted_from_ok (listeners g) [] g Hl) as (ps & Ep & [Hs HF] & _). cbn in Ep, HF. rewrite Ep.
  destruct (promote_all_ok (rev ps) g Hg) as (g1 & E1 & Hg1); [by apply sorted_rev in Hs|by apply Forall_rev|]. rewrite E1.
  pose proof (ok_tcp _ Hg1) as Hf1. apply Forall_app in Hf1 as [_ Hf1].
  destruct (splice_flows_ok (tcp_flows g1) g1 Hf1) as (r & g2 & E2 & C2 & Er). rewrite E2. cbn [modify].
  pose proof (calm_ok _ _ C2 Hg1) as [H1 H2 H3 H4 H5 H6 H7 H8].
  assert (Hflows : tcp_flows g2 = tcp_flows g1) by apply C2. unfold tcp_handles in H1, H2. rewrite Hflows, <- Er in H1, H2.
  set (live := filter (fun x => x.2 = false) r). set (dead := filter (fun x => x.2 = true) r).
  assert (Hperm : r ≡ₚ live ++ dead).
  { unfold live, dead. clear. induction r as [|[f b] r IH]; [done|]. rewrite !filter_cons. cbn. destruct b; cbn.
    - by rewrite IH at 1; rewrite Permutation_middle.
    - by rewrite IH at 1. }
  rewrite Hperm, fmap_app, app_assoc in H1, H2. apply Forall_app in H1 as [H1 H1d]. apply NoDup_app in H2 as (H2 & H2x & H2d).
  assert (Hlive : (f_handle <$> (fst <$> live)) = ((fun x => f_handle x.1) <$> live)) by (by rewrite <- list_fmap_compose).
  destruct (remove_all_ok (rev ((fun x => f_handle x.1) <$> dead)) (set_tcp_flows (fst <$> live) g2)) as (g3 & E3 & Hg3).
  - split; try done; unfold tcp_handles; cbn [listeners set_tcp_flows tcp_flows]; by rewrite Hlive.
  - by apply NoDup_ListNoDup, List.NoDup_rev, NoDup_ListNoDup.
  - intros h Hh. apply list_elem_of_In, in_rev, list_elem_of_In in Hh. split; [by eapply (proj1 (Forall_forall _ _) H1d)|]. intros Hin. eapply (H2x h); [|done].
    unfold tcp_handles in Hin. cbn [listeners set_tcp_flows tcp_flows] in Hin. by rewrite Hlive in Hin.
  - rewrite E3. by exists tt, g3.
Qed.

(** *** UDP *)

Lemma forward_udp_ok relay payload peer dst g : gateway_ok g -> kind g relay = Some KUdp ->
  exists r g', forward_udp relay payload peer dst g = Val (r, g') /\ gateway_ok g' /\ sockets g' = sockets g /\ udp_relays g' = udp_relays g.
Proof.
  intros Hg Hk. unfold forward_udp. destruct (check (policy g) dst.1) as [[]|d] eqn:Ec; [|by eexists _, g]. rewrite (ok_policy _ Hg) in Ec.
  assert (Hh : forall h, gateway_ok (set_hosts h g)) by (intros h; by eapply calm_ok; [apply calm_hosts|]).
  destruct (udp_socket (hosts g)) as [[host|e] h]; [|by eexists _, _].
  assert (Hl : forall h, gateway_ok (log_egress (Sent dst payload) (set_hosts h g))).
  { intros h'. destruct (Hh h') as [H1 H2 H3 H4 H5 H6 H7 H8]. split; try done. cbn. apply Forall_app. split; [done|by repeat constructor]. }
  destruct (send_to host payload dst h) as [[|] h']; [|by eexists _, _]. eexists _, _. split; [done|]. split; [|done].
  destruct (Hl h') as [H1 H2 H3 H4 H5 H6 H7 H8]. split; try done. cbn. apply Forall_app. split; [done|by repeat constructor].
Qed.

Lemma drain_relay_ok relay fuel : forall g, gateway_ok g -> kind g relay = Some KUdp ->
  (forall u, sockets g !! relay = Some (inr u) -> (rx_count u <= fuel)%nat) ->
  exists g', drain_relay fuel relay g = Val (tt, g') /\ gateway_ok g' /\ udp_relays g' = udp_relays g.
Proof.
  induction fuel as [|fuel IH]; intros g Hg Hk Hf; cbn [drain_relay]; unfold mbind, gw_bind;
    destruct (get_udp_ok _ _ Hk) as (u & -> & Eu); specialize (Hf u Eu);
    destruct (udp_recv_slice u) as [r u'] eqn:Er; cbn [put_udp modify];
    set (g1 := set_sockets (<[relay := inr u']> (sockets g)) g);
    (assert (C1 : calm g g1) by by apply calm_put); pose proof (calm_ok _ _ C1 Hg) as Hg1;
    (destruct r as [[payload meta]|]; [|by exists g1]); apply udp_recv_shrinks in Er; [lia|].
  assert (Hk1 : kind g1 relay = Some KUdp) by by rewrite (ca_kind _ _ C1).
  match goal with |- context [forward_udp relay payload ?p ?d] => destruct (forward_udp_ok relay payload p d g1 Hg1 Hk1) as (x & g2 & -> & Hg2 & Es2 & Er2) end.
  assert (Hrec : forall g3, calm g2 g3 -> sockets g3 = sockets g2 ->
    exists g', drain_relay fuel relay g3 = Val (tt, g') /\ gateway_ok g' /\ udp_relays g' = udp_relays g).
  { intros g3 C3 E3. destruct (IH g3) as (g' & E & Hg' & Hr').
    - by eapply calm_ok.
    - unfold kind. rewrite E3, Es2. done.
    - intros v. rewrite E3, Es2. cbn. rewrite lookup_insert_eq. intros [= <-]. lia.
    - exists g'. split; [done|]. split; [done|]. by rewrite Hr', (ca_relays _ _ C3), Er2. }
  destruct x as [v|e].
  - cbn [modify]. apply Hrec; [apply calm_stats|done].
  - cbn [mret gw_ret]. by apply Hrec.
Qed.

Lemma drain_relays_ok relays : forall g, gateway_ok g -> (forall h, h ∈ relays -> exists p, udp_relays g !! p = Some h) ->
  exists g', drain_relays relays g = Val (tt, g') /\ gateway_ok g'.
Proof.
  induction relays as [|relay relays IH]; intros g Hg Hr; [by exists g|]. destruct (Hr relay) as [p Hp]; [by left|].
  pose proof (ok_relays _ Hg _ _ Hp) as Hk. destruct (get_udp_ok _ _ Hk) as (u & Eu & Es).
  cbn [drain_relays]. unfold mbind, gw_bind. rewrite Eu.
  destruct (drain_relay_ok relay (rx_count u) g Hg Hk) as (g1 & E1 & Hg1 & Er1); [intros v Hv; replace v with u by congruence; lia|].
  rewrite E1. apply IH; [done|]. intros h Hh. rewrite Er1. apply Hr. by right.
Qed.

Lemma pump_replies_calm flows : forall g, gateway_ok g -> Forall (fun f => kind g (u_relay f) = Some KUdp) flows ->
  exists r g', pump_replies flows g = Val (r, g') /\ calm g g' /\ r `sublist_of` flows.
Proof.
  induction flows as [|flow flows IH]; intros g Hg HF; [by exists [], g|]. apply Forall_cons in HF as [Hk HF].
  cbn [pump_replies]. unfold mbind, gw_bind, recv_reply. destruct (host_recv (u_host flow) (hosts g)) as [x h].
  set (g1 := set_hosts h g). assert (C1 : calm g g1) by apply calm_hosts.
  assert (Hrec : forall g2, calm g g2 -> exists r g', pump_replies flows g2 = Val (r, g') /\ calm g g' /\ r `sublist_of` flows).
  { intros g2 C2. destruct (IH g2) as (r & g' & E & C & S); [by eapply calm_ok| |].
    - eapply Forall_impl; [exact HF|]. intros f. by rewrite (ca_kind _ _ C2).
    - exists r, g'. split; [done|]. split; [by etrans|done]. }
  destruct x as [[|c b]| |].
  - destruct (Hrec g1 C1) as (r & g' & -> & C & S). eexists _, _. split; [done|]. split; [done|by constructor].
  - unfold deliver, mbind, gw_bind. assert (Hk1 : kind g1 (u_relay flow) = Some KUdp) by done.
    destruct (get_udp_ok _ _ Hk1) as (u & -> & _). destruct (udp_send_slice _ _ u) as [ok u']. cbn [put_udp modify].
    set (g2 := set_sockets (<[u_relay flow := inr u']> (sockets g1)) g1).
    assert (C2 : calm g g2) by (etrans; [exact C1|by apply calm_put]).
    assert (C3 : calm g (on_stats (add_udp_h2c 1) g2)) by (etrans; [exact C2|apply calm_stats]).
    destruct ok; cbn [mret gw_ret modify].
    + destruct (Hrec _ C3) as (r & g' & -> & C & S). eexists _, _. split; [done|]. split; [done|by constructor].
    + destruct (Hrec _ C2) as (r & g' & -> & C & S). eexists _, _. split; [done|]. split; [done|by constructor].
  - destruct (Hrec g1 C1) as (r & g' & -> & C & S). eexists _, _. split; [done|]. split; [done|by constructor].
  - destruct (Hrec g1 C1) as (r & g' & -> & C & S). eexists _, _. split; [done|]. split; [done|by constructor].
Qed.

Lemma pump_replies_ok flows g : gateway_ok g -> Forall (fun f => kind g (u_relay f) = Some KUdp) flows ->
  exists r g', pump_replies flows g = Val (r, g') /\ gateway_ok g' /\ Forall (fun f => kind g' (u_relay f) = Some KUdp) r.
Proof.
  intros Hg HF. destruct (pump_replies_calm flows g Hg HF) as (r & g' & E & C & S). exists r, g'.
  split; [done|]. split; [by eapply calm_ok|]. apply Forall_forall. intros f Hf. rewrite (ca_kind _ _ C).
  eapply (proj1 (Forall_forall _ _) HF). by eapply elem_of_sublist.
Qed.

Lemma service_udp_ok : triple gateway_ok service_udp (fun _ => gateway_ok).
Proof.
  intros g Hg. unfold service_udp, mbind, gw_bind. cbn [gets].
  destruct (drain_relays_ok (relay_handles (udp_relays g)) g Hg) as (g1 & E1 & Hg1).
  { intros h (p & _ & Hp)%list_elem_of_omap. by exists p. }
  rewrite E1. destruct (pump_replies_ok (udp_flows g1) g1 Hg1 (ok_udp _ Hg1)) as (r & g2 & E2 & Hg2 & HF). rewrite E2.
  exists tt, (set_udp_flows r g2). split; [done|]. destruct Hg2 as [H1 H2 H3 H4 H5 H6 H7 H8]. by split.
Qed.

Lemma poll_calm g : calm g (let '(q, s) := poll (rx_queue g) (sockets g) in set_sockets s (set_queue q g)).
Proof.
  destruct (poll (rx_queue g) (sockets g)) as [q s] eqn:E. split; try done. intros h. unfold kind. cbn.
  pose proof (poll_kinds (rx_queue g) (sockets g) h) as H. rewrite E in H. cbn in H.
  destruct (sockets g !! h) as [[]|], (s !! h) as [[]|]; done.
Qed.

Lemma step_ok tap : triple gateway_ok (step tap) (fun _ => gateway_ok).
Proof.
  unfold step. eapply triple_bind.
  { apply triple_modify. intros g Hg. instantiate (1 := fun _ => gateway_ok). eapply calm_ok; [|exact Hg]. by split. }
  intros ?. eapply triple_bind; [apply learn_ports_ok|]. intros ?. eapply triple_bind; [apply replenish_listeners_ok|]. intros ?.
  eapply triple_bind.
  { apply triple_modify. intros g Hg. instantiate (1 := fun _ => gateway_ok). eapply calm_ok; [apply poll_calm|exact Hg]. }
  intros ?. eapply triple_bind; [apply service_tcp_ok|]. intros ?. apply service_udp_ok.
Qed.

Lemma run_turns_ok taps : triple gateway_ok (run_turns taps) (fun _ => gateway_ok).
Proof.
  induction taps as [|tap taps IH]; [by apply triple_ret|]. cbn [run_turns]. eapply triple_bind; [apply step_ok|]. by intros ?.
Qed.

Lemma Gateway_new_ok h : gateway_ok (Gateway_new pol h).
Proof. split; try constructor; try done; cbn; unfold MAX_LEARNED_PORTS; rewrite ?size_empty, ?map_size_empty; lia. Qed.
End gateway.

(** C10 (safety): The gateway polices all egress and cannot be brought down by the
    container.  Whatever frames the container sends, whatever the network stack
    makes of them and whatever the host's sockets answer, every turn of the
    gateway ends without a panic, every connection it opens and every datagram it
    sends goes to an address the policy allows; it learns at most 64 TCP ports and
    keeps at most 64 UDP relays, and the sockets of its listeners and TCP flows
    are distinct and live.  The code does not bound the number of flows (see
    [unanswered_kept] below), and nothing is claimed of it. *)
Theorem gateway_polices {SM : Smoltcp} {HS : HostSockets} pol h taps :
  exists g, run_turns taps (Gateway_new pol h) = Val (tt, g)
    /\ Forall (fun e => check pol (match e with Dialled dst => dst.1 | Sent dst _ => dst.1 end) = Ok tt) (egress g)
    /\ (size (learned_tcp_ports g) <= 64)%nat /\ (size (udp_relays g) <= 64)%nat
    /\ NoDup (listeners g ++ (f_handle <$> tcp_flows g))
    /\ Forall (fun s => is_Some (sockets g !! s)) (listeners g ++ (f_handle <$> tcp_flows g)).
Proof.
  destruct (run_turns_ok pol taps (Gateway_new pol h) (Gateway_new_ok pol h)) as ([] & g & E & Hg). exists g.
  destruct Hg as [H1 H2 H3 H4 H5 H6 H7 H8]. split_and!; try done.
  eapply Forall_impl; [exact H1|]. intros s Hs. unfold kind in Hs. by destruct (sockets g !! s).
Qed.

(** ** A toy stack *)

Module GatewayExample.
Record ToyTcp := { t_state : TcpState; t_local : option SocketAddr; t_port : N; t_rx : str; t_room : nat }.
Record ToyUdp := { d_port : N; d_rx : list (str * UdpMetadata) }.

(** A frame is a letter for what it is, the port, the socket it reaches, the
    last number of the destination 8.8.8.x and the payload. *)
Definition toy_dst (ip port : ascii) : SocketAddr := (IpAddr_V4 (v4 8 8 8 (Z.of_N (code ip))), code port).
Definition toy_recv (n : nat) (t : ToyTcp) : option str * ToyTcp :=
  (Some (take n (t_rx t)), {| t_state := t_state t; t_local := t_local t; t_port := t_port t; t_rx := drop n (t_rx t); t_room := t_room t |}).
Definition toy_send (b : str) (t : ToyTcp) : option nat * ToyTcp :=
  let n := (length b `min` t_room t)%nat in
  (Some n, {| t_state := t_state t; t_local := t_local t; t_port := t_port t; t_rx := t_rx t; t_room := (t_room t - n)%nat |}).
Definition with_state s (t : ToyTcp) : ToyTcp :=
  {| t_state := s; t_local := t_local t; t_port := t_port t; t_rx := t_rx t; t_room := t_room t |}.
Definition toy_frame (h : nat) (s : ToyTcp + ToyUdp) (f : str) : ToyTcp + ToyUdp :=
  match f, s with
  | k :: port :: to :: ip :: data, inl t =>
      if bool_decide (N.to_nat (code to) = h) && bool_decide (t_state t = Listen) && bool_decide (t_port t = code port) then
        inl {| t_state := if Ascii.eqb k "F" then CloseWait else Established; t_local := Some (toy_dst ip port); t_port := t_port t;
               t_rx := data; t_room := t_room t |}
      else s
  | k :: port :: to :: ip :: data, inr u =>
      if Ascii.eqb k "U" && bool_decide (d_port u = code port) then
        inr {| d_port := d_port u; d_rx := d_rx u ++ [(data, {| meta_endpoint := (IpAddr_V4 0, 9); local_address := Some (toy_dst ip port).1 |})] |}
      else s
  | _, _ => s
  end.

#[export] Instance toy : Smoltcp.
Proof.
  refine {| Tcp := ToyTcp; Udp := ToyUdp;
    eth_ipv4_payload := fun f => Some f;
    ipv4_tcp_payload := fun f => match f with "U"%char :: _ => None | _ => Some f end;
    ipv4_udp_payload := fun f => Some f;
    tcp_fields := fun f => match f with _ :: port :: _ => Some (true, false, code port) | _ => None end;
    udp_dst_port := fun f => match f with _ :: port :: _ => Some (code port) | _ => None end;
    tcp_listen := fun p => Some {| t_state := Listen; t_local := None; t_port := p; t_rx := []; t_room := 3%nat |};
    state := t_state; local_endpoint := t_local; listen_port := t_port;
    can_recv := fun t => negb (bool_decide (t_rx t = [])); may_recv := fun t => true; can_send := fun t => (0 <? t_room t)%nat;
    recv_slice := toy_recv; send_slice := toy_send; close := with_state Closed; abort := with_state Closed;
    udp_bind := fun p => {| d_port := p; d_rx := [] |}; udp_port := d_port;
    udp_recv_slice := fun u => match d_rx u with x :: l => (Some x, {| d_port := d_port u; d_rx := l |}) | [] => (None, u) end;
    udp_send_slice := fun _ _ u => (true, u);
    slot := fun X => fresh X;
    poll := fun q S => ([], map_imap (fun h s => Some (fold_left (toy_frame h) q s)) S);
    rx_len := fun t => length (t_rx t); tx_free := t_room; rx_count := fun u => length (d_rx u) |}.
  - intros X. apply is_fresh.
  - intros q S h. cbn. rewrite map_lookup_imap. destruct (S !! h) as [s|]; cbn; [|done].
    assert (H : forall s, match s, fold_left (toy_frame h) q s with inl _, inl _ | inr _, inr _ => True | _, _ => False end).
    { induction q as [|f q IH]; intros s0; cbn; [by destruct s0|]. specialize (IH (toy_frame h s0 f)).
      assert (Hf : match s0, toy_frame h s0 f with inl _, inl _ | inr _, inr _ => True | _, _ => False end)
        by (destruct s0 as [t|u], f as [|k [|port [|to [|ip data]]]]; unfold toy_frame; try done;
            match goal with |- context [if ?c then _ else _] => by destruct c end).
      destruct s0, (toy_frame h _ f), (fold_left _ q _); done. }
    specialize (H s). destruct s, (fold_left _ q _); done.
  - intros n t b t' [= <- <-] Hb. cbn. rewrite length_drop. destruct (t_rx t); [by rewrite take_nil in Hb|]. destruct n; [done|]. cbn. lia.
  - intros b t n t' [= <- <-] Hn. cbn. lia.
  - intros b t n t' [= <- <-]. lia.
  - intros u x u'. destruct (d_rx u) eqn:E; intros [= <- <-]. cbn. lia.
Defined.

(** The host accepts so many bytes, and has chunks to be read. *)
Definition ToyHost : Type := nat * list str.
#[export] Instance toy_host : HostSockets.
Proof.
  refine {| Hst := ToyHost; connect := fun _ h => (Ok 7%nat, h);
    write_all := fun _ b h => if (length b <=? h.1)%nat then (true, ((h.1 - length b)%nat, h.2)) else (false, (0%nat, h.2));
    host_read := fun _ n h => match h.2 with b :: l => (Data (take n b), (h.1, l)) | [] => (WouldBlock, h) end;
    shutdown_write := fun _ h => h; udp_socket := fun h => (Ok 8%nat, h); send_to := fun _ _ _ h => (true, h);
    host_recv := fun _ h => (WouldBlock, h) |}.
  intros fd n [c [|x l]] b h'; cbn; [done|]. intros [= <- <-]. rewrite length_take. lia.
Defined.

Definition frame (k : ascii) (port to ip : N) (data : str) : str := k :: ascii_of_N port :: ascii_of_N to :: ascii_of_N ip :: data.
Definition after {A} (f : Gateway -> A) (h : Hst) (taps : list (list str)) : option A :=
  match run_turns taps (Gateway_new EgressPolicy_default h) with Val (_, g) => Some (f g) | _ => None end.

(** Port 80 is learned, and the connection to 8.8.8.8 goes out. *)
Example dialled : after egress (10%nat, []) [[frame "T" 80 0 8 "hi"]] = Some [Dialled (IpAddr_V4 (v4 8 8 8 8), 80)].
Proof. vm_compute. reflexivity. Qed.

Definition roomy : @Hst toy_host := (10%nat, []).

Lemma gateway_polices_witness :
  exists g, run_turns [[frame "T" 80 0 8 "hi"]; [frame "U" 53 0 4 "q"]] (Gateway_new EgressPolicy_default roomy) = Val (tt, g)
    /\ egress g = [Dialled (IpAddr_V4 (v4 8 8 8 8), 80); Sent (IpAddr_V4 (v4 8 8 8 4), 53) "q"]
    /\ Forall (fun e => check EgressPolicy_default (match e with Dialled dst => dst.1 | Sent dst _ => dst.1 end) = Ok tt) (egress g).
Proof.
  destruct (gateway_polices EgressPolicy_default roomy [[frame "T" 80 0 8 "hi"]; [frame "U" 53 0 4 "q"]])
    as (g & E & He & _). exists g. split; [exact E|]. split; [|exact He].
  assert (Hs : after egress roomy [[frame "T" 80 0 8 "hi"]; [frame "U" 53 0 4 "q"]]
    = Some [Dialled (IpAddr_V4 (v4 8 8 8 8), 80); Sent (IpAddr_V4 (v4 8 8 8 4), 53) "q"]) by (vm_compute; reflexivity).
  unfold after in Hs. rewrite E in Hs. by injection Hs.
Defined.

(** *** What does not work as meant *)

(** Connections that are established and half-closed within one poll are never
    taken up, and their listeners are not replaced: after four of them the port
    is dead. *)
Example port_blocked :
  let burst := (fun h => frame "F" 80 h 8 "x") <$> [0; 1; 2; 3] in
  after (fun g => (listeners g, f_handle <$> tcp_flows g, egress g)) (10%nat, []) [burst; [frame "T" 80 4 8 "y"]; []]
  = Some ([0; 1; 2; 3]%nat, [], []).
Proof. vm_compute. reflexivity. Qed.

(** A datagram that is never answered is kept for ever. *)
Example unanswered_kept :
  let query := [frame "U" 53 0 8 "q"] in
  after (fun g => (length (udp_flows g), size (udp_relays g))) (10%nat, []) (replicate 100 query) = Some (100, 1)%nat.
Proof. vm_compute. reflexivity. Qed.

(** The host has "abcde" to be read and the container's window takes three: the
    rest is lost, and what comes later follows the gap. *)
Example tail_lost :
  after (fun g => (tcp_h2c_bytes (stats g), (hosts g).2)) (10%nat, ["abcde" : str; "f" : str]) [[frame "T" 80 0 8 "hi"]]
  = Some (3%N, ["f" : str]).
Proof. vm_compute. reflexivity. Qed.

(** The host's socket does not block: when its buffer is full the write fails,
    and the flow is given up in the middle. *)
Example upload_cut :
  after (fun g => (tcp_c2h_bytes (stats g), f_handle <$> tcp_flows g)) (4%nat, []) [[frame "T" 80 0 8 "hello"]] = Some (0%N, []).
Proof. vm_compute. reflexivity. Qed.
End GatewayExample.
