(* ===== verification/Staging.v ===== *)
(** * Staging: writing into the staging tree of a bootable build.

    crates/umf-builder/src/fsutil.rs ([contained_write_path],
    [copy_dir_recursive], [ensure_source_contained]) on the file system of
    HostFs.v.

    The tree is filled by layers nobody vouches for, so every entry of it may be
    a symbolic link.  The theorem says that copying changes nothing outside its
    destination, and that a directory that is copied lies over its destination
    afterwards, entry by entry. *)

From stdpp Require Import gmap list.
From S2P Require Import Prelude RustStr HostFs.

(** ** [std::fs], continued *)

(** [Path::exists] and [fs::canonicalize]. *)
Definition path_exists (p : Path) : fsio bool :=
  reads (fun fs => Ok match resolve true fs p with Ok l => bool_decide (is_Some (fs !! l)) | Err _ => false end).
Definition canonicalize (p : Path) : fsio (list str) :=
  reads (fun fs => l ← resolve true fs p; _ ← node_at fs l; Ok l).

(** Where a new entry at [p] goes: its directory is looked up, the entry itself
    is not followed. *)
Definition entry_of (fs : Fs) (p : Path) : result IoError (list str) :=
  match last p with
  | Some (Normal c) =>
      l ← resolve true fs (take (length p - 1) p);
      if is_dir_node (fs !! l) then Ok (l ++ [c]) else Err NotADirectory
  | _ => Err AlreadyExists
  end.

Definition create_entry (n : Node) (p : Path) : fsio unit := fun fs =>
  match entry_of fs p with
  | Err e => (Err e, fs)
  | Ok l => match fs !! l with Some _ => (Err AlreadyExists, fs) | None => (Ok tt, <[l := n]> fs) end
  end.

(** [fs::create_dir] and [os::unix::fs::symlink]. *)
Definition create_dir (p : Path) : fsio unit := create_entry (NDir []) p.
Definition symlink (target p : Path) : fsio unit := create_entry (NLink target) p.

Definition read_link (p : Path) : fsio Path :=
  n ← symlink_metadata p; match n with NLink t => mret t | _ => fail InvalidInput end.

(** The location a file that is opened for writing is created at: links are
    followed to the end, and the end itself may be missing. *)
Fixpoint walk_create (fs : Fs) (links : nat) : list str -> Path -> result IoError (list str) :=
  fix go (cur : list str) (p : Path) :=
    match p with
    | [] => Ok cur
    | RootDir :: r => go [] r
    | CurDir :: r => if is_dir_node (fs !! cur) then go cur r else Err NotADirectory
    | ParentDir :: r =>
        if is_dir_node (fs !! cur) then go (take (length cur - 1) cur) r else Err NotADirectory
    | Normal c :: r =>
        match fs !! cur with
        | None => Err NotFound
        | Some (NDir _) =>
            let next := cur ++ [c] in
            match fs !! next with
            | None => if bool_decide (r = []) then Ok next else Err NotFound
            | Some (NLink t) =>
                match links with
                | 0 => Err FilesystemLoop
                | S links => walk_create fs links cur (t ++ r)
                end
            | Some _ => go next r
            end
        | Some _ => Err NotADirectory
        end
    end.

(** Writing at a location; what is written to a device or a pipe leaves the file
    system as it is. *)
Definition write_at (l : list str) (data : str) : fsio unit := fun fs =>
  match fs !! l with
  | Some (NDir _) => (Err IsADirectory, fs)
  | Some (NChar _) | Some NOther => (Ok tt, fs)
  | _ => (Ok tt, <[l := NFile data]> fs)
  end.

(** [fs::write]. *)
Definition write_file (p : Path) (data : str) : fsio unit := fun fs =>
  match walk_create fs MAXSYMLINKS [] p with
  | Err e => (Err e, fs)
  | Ok l => write_at l data fs
  end.

(** [fs::copy] of regular files only; a file copied onto itself is truncated. *)
Definition copy_file (src dst : Path) : fsio unit := fun fs =>
  match resolve true fs src with
  | Err e => (Err e, fs)
  | Ok ls =>
      match fs !! ls with
      | None => (Err NotFound, fs)
      | Some (NFile data) =>
          match walk_create fs MAXSYMLINKS [] dst with
          | Err e => (Err e, fs)
          | Ok ld => write_at ld (if bool_decide (ls = ld) then [] else data) fs
          end
      | Some _ => (Err InvalidInput, fs)
      end
  end.

(** ** crates/umf-builder/src/fsutil.rs *)

(** A link at [path] is unlinked; anything else is left alone. *)
Definition remove_existing_symlink (path : Path) : fsio unit := fun fs =>
  match symlink_metadata path fs with
  | (Ok (NLink _), fs) => remove_file path fs
  | (_, fs) => (Ok tt, fs)
  end.

(** A directory to write into: it is made when it is missing, and refused when
    it is a link. *)
Definition enter_dir (dst : Path) : fsio unit := fun fs =>
  match symlink_metadata dst fs with
  | (Ok (NLink _), fs) => (Err PermissionDenied, fs)
  | (Ok (NDir _), fs) => (Ok tt, fs)
  | (Ok _, fs) => (Err AlreadyExists, fs)
  | (Err NotFound, fs) => create_dir dst fs
  | (Err e, fs) => (Err e, fs)
  end.

Section copying.
Context (copy_sub : Path -> Path -> fsio unit).

(** One entry [name] of [src]. *)
Definition copy_entry (src dst : Path) (name : str) : fsio unit :=
  let src_path := src ++ [Normal name] in
  let dst_path := dst ++ [Normal name] in
  kind ← symlink_metadata src_path;
  match kind with
  | NDir _ => copy_sub src_path dst_path
  | NLink _ =>
      remove_existing_symlink dst_path ;;
      target ← read_link src_path;
      symlink target dst_path
  | _ => remove_existing_symlink dst_path ;; copy_file src_path dst_path
  end.

Fixpoint copy_entries (src dst : Path) (names : list str) : fsio unit :=
  match names with
  | [] => mret tt
  | name :: names => copy_entry src dst name ;; copy_entries src dst names
  end.
End copying.

(** [depth] bounds the nesting of directories. *)
Fixpoint copy_dir (depth : nat) (src dst : Path) : fsio unit :=
  match depth with
  | 0 => fail NameTooLong
  | S depth =>
      enter_dir dst ;;
      names ← read_dir src;
      copy_entries (copy_dir depth) src dst names
  end.

(** No path the kernel accepts has more components than bytes. *)
Notation PATH_MAX := 4096.
Definition copy_dir_recursive (src dst : Path) : fsio unit := copy_dir PATH_MAX src dst.

(** The plain names of a destination. *)
Fixpoint write_normals (path : Path) : result IoError (list str) :=
  match path with
  | [] => Ok []
  | Normal c :: path => ns ← write_normals path; Ok (c :: ns)
  | CurDir :: path => write_normals path
  | _ => Err PermissionDenied
  end.

(** The walk along these names. *)
Fixpoint write_descend (cur : Path) (names : list str) : fsio Path :=
  match names with
  | [] => mret cur
  | c :: names =>
      let cur := cur ++ [Normal c] in
      match names with
      | [] => remove_existing_symlink cur ;; mret cur
      | _ => enter_dir cur ;; write_descend cur names
      end
  end.

Definition contained_write_path (root : Path) (rel : str) : fsio Path :=
  names ← reads (fun _ => write_normals (components (trim_start "/" rel)));
  write_descend root names.

Definition ensure_source_contained (root resolved : Path) : fsio unit :=
  canonical ← canonicalize resolved;
  root_canonical ← canonicalize root;
  if bool_decide (root_canonical `prefix_of` canonical) then mret tt else fail PermissionDenied.

(** ** Below real directories

    [l] is a real directory, or directly below one. *)
Definition placed (fs : Fs) (l : list str) : Prop :=
  real_dir fs l \/ exists q c, l = q ++ [c] /\ real_dir fs q.

(** A placed location that is no link. *)
Definition spot (fs : Fs) (l : list str) : Prop := placed fs l /\ forall t, fs !! l <> Some (NLink t).

Lemma real_no_link fs l t : real_dir fs l -> fs !! l <> Some (NLink t).
Proof. intros H%real_dir_self E. by rewrite E in H. Qed.

Lemma real_spot fs l : real_dir fs l -> spot fs l.
Proof. intros H. split; [by left|]. intros t. by apply real_no_link. Qed.

Lemma placed_below fs l c : real_dir fs l -> placed fs (l ++ [c]).
Proof. intros H. right. by exists l, c. Qed.
#[local] Hint Resolve placed_below real_spot : core.

Lemma same_real c q fs fs' : same_outside (q ++ [c]) fs fs' -> real_dir fs q -> real_dir fs' q.
Proof.
  intros H Hr x Hx. rewrite H; [by apply Hr|]. intros Hp.
  assert (E : q ++ [c] `prefix_of` q) by by etrans. apply prefix_length in E. rewrite length_app in E. simpl in E. lia.
Qed.

Lemma take_snoc {A} (l : list A) x : take (length (l ++ [x]) - 1) (l ++ [x]) = l.
Proof. rewrite length_app. simpl. by rewrite Nat.add_sub, take_app_length. Qed.

Lemma walk_create_real fs links l : forall cur r,
  real_dir fs (cur ++ l) ->
  walk_create fs links cur ((Normal <$> l) ++ r) = walk_create fs links (cur ++ l) r.
Proof.
  induction l as [|c l IH]; intros cur r H; [by rewrite app_nil_r|].
  assert (Hc : real_dir fs (cur ++ [c])) by (eapply real_dir_prefix; [exact H|]; exists l; by rewrite <- app_assoc).
  rewrite fmap_cons, <- app_comm_cons. replace (cur ++ c :: l) with ((cur ++ [c]) ++ l) by by rewrite <- app_assoc.
  rewrite <- IH by by rewrite <- app_assoc.
  apply real_dir_snoc in Hc as [H1%real_dir_self H2]. destruct links; simpl;
    (destruct (fs !! cur) as [[]|]; try discriminate H1;
     destruct (fs !! (cur ++ [c])) as [[]|]; try discriminate H2; reflexivity).
Qed.

Lemma walk_create_start fs q r :
  real_dir fs q -> walk_create fs MAXSYMLINKS [] (absolute q ++ r) = walk_create fs MAXSYMLINKS q r.
Proof.
  intros H. transitivity (walk_create fs MAXSYMLINKS [] ((Normal <$> q) ++ r)); [reflexivity|].
  by rewrite walk_create_real.
Qed.

Lemma walk_create_spot fs l : spot fs l -> walk_create fs MAXSYMLINKS [] (absolute l) = Ok l.
Proof.
  intros [[H|(q & c & -> & H)] Hl]; [by rewrite <- (app_nil_r (absolute l)), walk_create_start|].
  rewrite <- absolute_snoc, walk_create_start by done. apply real_dir_self in H. unfold MAXSYMLINKS. simpl.
  destruct (fs !! q) as [[]|]; try discriminate H.
  destruct (fs !! (q ++ [c])) as [[]|] eqn:E; try reflexivity. by destruct (Hl target).
Qed.

Lemma entry_of_below fs q c : real_dir fs q -> entry_of fs (absolute (q ++ [c])) = Ok (q ++ [c]).
Proof.
  intros H. unfold entry_of. rewrite <- absolute_snoc, last_snoc, take_snoc, resolve_real_dir by done.
  cbn [mbind result_bind]. by rewrite (real_dir_self _ _ H).
Qed.

Lemma create_entry_below n fs q c :
  real_dir fs q -> create_entry n (absolute (q ++ [c])) fs =
    match fs !! (q ++ [c]) with Some _ => (Err AlreadyExists, fs) | None => (Ok tt, <[q ++ [c] := n]> fs) end.
Proof. intros H. unfold create_entry. by rewrite entry_of_below. Qed.

(** What is left of an entry after [remove_existing_symlink]. *)
Definition unlinked (l : list str) (fs : Fs) : Fs :=
  match fs !! l with Some (NLink _) => delete l fs | _ => fs end.

Lemma remove_existing_below fs q c :
  real_dir fs q -> remove_existing_symlink (absolute (q ++ [c])) fs = (Ok tt, unlinked (q ++ [c]) fs).
Proof.
  intros H. unfold remove_existing_symlink, unlinked. rewrite symlink_metadata_below by done. unfold node_at.
  destruct (fs !! (q ++ [c])) as [[]|] eqn:E; try reflexivity. simpl.
  by rewrite remove_file_below, E by done.
Qed.

Lemma unlinked_outside l fs : same_outside l fs (unlinked l fs).
Proof. unfold unlinked. destruct (fs !! l) as [[]|]; try reflexivity. by apply same_outside_delete. Qed.

Lemma unlinked_spot fs q c : real_dir fs q -> spot (unlinked (q ++ [c]) fs) (q ++ [c]).
Proof.
  intros H. split; [apply placed_below; eapply same_real; [apply unlinked_outside|done]|].
  intros t. unfold unlinked. destruct (fs !! (q ++ [c])) as [[]|] eqn:E; try (by rewrite E). by rewrite lookup_delete_eq.
Qed.

(** [enter_dir] at a placed location. *)
Lemma enter_dir_placed fs l :
  placed fs l -> enter_dir (absolute l) fs =
    match fs !! l with
    | Some (NLink _) => (Err PermissionDenied, fs)
    | Some (NDir _) => (Ok tt, fs)
    | Some _ => (Err AlreadyExists, fs)
    | None => (Ok tt, <[l := NDir []]> fs)
    end.
Proof.
  assert (Hr : forall q, real_dir fs q -> symlink_metadata (absolute q) fs = (node_at fs q, fs)).
  { intros q H. unfold symlink_metadata, reads, lstat. by rewrite resolve_real_dir. }
  unfold enter_dir. intros [H|(q & c & -> & H)].
  - rewrite Hr by done. unfold node_at. pose proof (real_dir_self _ _ H) as Hd. by destruct (fs !! l) as [[]|].
  - rewrite symlink_metadata_below by done. unfold node_at. destruct (fs !! (q ++ [c])) as [[]|] eqn:E; try reflexivity.
    simpl. unfold create_dir. by rewrite create_entry_below, E.
Qed.

Lemma placed_real fs l : placed fs l -> is_dir_node (fs !! l) = true -> real_dir fs l.
Proof. intros [H|(q & c & -> & H)] Hd; [done|]. by apply real_dir_snoc. Qed.

Lemma same_outside_insert t l n fs : t `prefix_of` l -> same_outside t fs (<[l := n]> fs).
Proof. intros H p Hp. rewrite lookup_insert_ne; [done|]. by intros ->. Qed.

Lemma real_insert fs q c x : real_dir fs q -> real_dir (<[q ++ [c] := NDir x]> fs) (q ++ [c]).
Proof.
  intros H. apply real_dir_snoc. split; [|by rewrite lookup_insert_eq].
  eapply same_real; [by apply same_outside_insert|done].
Qed.

Lemma enter_dir_contained fs l r fs' :
  placed fs l -> enter_dir (absolute l) fs = (r, fs') -> same_outside l fs fs' /\ (r = Ok tt -> real_dir fs' l).
Proof.
  intros H. rewrite enter_dir_placed by done. destruct (fs !! l) as [[]|] eqn:E; intros [= <- <-]; split;
    try reflexivity; try discriminate.
  - intros _. apply placed_real; [done|]. by rewrite E.
  - by apply same_outside_insert.
  - intros _. destruct H as [H|(q & c & -> & H)]; [|by apply real_insert].
    apply real_dir_self in H. by rewrite E in H.
Qed.

Lemma write_at_outside l data fs : same_outside l fs (write_at l data fs).2.
Proof. unfold write_at. destruct (fs !! l) as [[]|]; try reflexivity; by apply same_outside_insert. Qed.

Lemma copy_file_contained src fs l : spot fs l -> same_outside l fs (copy_file src (absolute l) fs).2.
Proof.
  intros H. unfold copy_file. destruct (resolve true fs src) as [ls|]; [|reflexivity].
  destruct (fs !! ls) as [[]|]; try reflexivity. rewrite walk_create_spot by done. apply write_at_outside.
Qed.

(** ** Copies stay below their destination *)

Section contained_copy.
Context (copy_sub : Path -> Path -> fsio unit).
Context (copy_sub_contained : forall src fs l, placed fs l -> same_outside l fs (copy_sub src (absolute l) fs).2).

Lemma copy_entry_contained src d name fs :
  real_dir fs d -> same_outside (d ++ [name]) fs (copy_entry copy_sub src (absolute d) name fs).2.
Proof.
  intros H. unfold copy_entry. rewrite fs_bind, absolute_snoc. unfold symlink_metadata at 1, reads at 1.
  destruct (lstat fs _) as [[| | t | |]|e]; [by auto| | | | |reflexivity];
    rewrite fs_bind, remove_existing_below by done;
    (etrans; [apply unlinked_outside|]); try (by apply copy_file_contained, unlinked_spot).
  rewrite fs_bind. unfold read_link. rewrite fs_bind. unfold symlink_metadata, reads.
  destruct (lstat _ _) as [[]|]; try reflexivity. simpl. unfold symlink.
  rewrite create_entry_below by (eapply same_real; [apply unlinked_outside|done]).
  destruct (unlinked _ fs !! _); [reflexivity|]. by apply same_outside_insert.
Qed.

Lemma copy_entries_contained src d names : forall fs,
  real_dir fs d ->
  same_outside d fs (copy_entries copy_sub src (absolute d) names fs).2
  /\ real_dir (copy_entries copy_sub src (absolute d) names fs).2 d.
Proof.
  induction names as [|name names IH]; intros fs H; [done|]. simpl. rewrite fs_bind.
  pose proof (copy_entry_contained src d name fs H) as Hc.
  destruct (copy_entry copy_sub src (absolute d) name fs) as [[u|e] fs1]; cbn [snd] in *;
    (assert (Hr : real_dir fs1 d) by by eapply same_real);
    (assert (Ho : same_outside d fs fs1) by (eapply same_outside_mono, Hc; by apply prefix_app_r)); [|done].
  destruct (IH fs1 Hr) as [H1 H2]. split; [by etrans|done].
Qed.
End contained_copy.

Lemma copy_dir_contained depth : forall src fs l,
  placed fs l -> same_outside l fs (copy_dir depth src (absolute l) fs).2.
Proof.
  induction depth as [|depth IH]; intros src fs l H; [reflexivity|]. simpl. rewrite fs_bind.
  destruct (enter_dir (absolute l) fs) as [[u|e] fs1] eqn:E; apply enter_dir_contained in E as [E1 E2]; [|done|done|done].
  etrans; [exact E1|]. rewrite fs_bind. unfold read_dir, reads. destruct (list_dir fs1 src) as [names|]; [|reflexivity].
  apply copy_entries_contained; [exact IH|]. destruct u. auto.
Qed.

(** A destination that is there stays. *)
Lemma copy_dir_keeps depth src fs l : real_dir fs l -> real_dir (copy_dir depth src (absolute l) fs).2 l.
Proof.
  destruct depth as [|depth]; intros H; [done|]. simpl. rewrite fs_bind, enter_dir_placed by by left.
  pose proof (real_dir_self _ _ H) as Hd. destruct (fs !! l) as [[]|]; try discriminate Hd.
  rewrite fs_bind. unfold read_dir, reads. destruct (list_dir fs src) as [names|]; [|done].
  apply copy_entries_contained; [|done]. intros. by apply copy_dir_contained.
Qed.

Lemma copy_file_keeps src fs l : real_dir fs l -> (copy_file src (absolute l) fs).2 = fs.
Proof.
  intros H. unfold copy_file. destruct (resolve true fs src) as [ls|]; [|done]. destruct (fs !! ls) as [[]|]; try done.
  rewrite walk_create_spot by by apply real_spot. apply real_dir_self in H. unfold write_at.
  by destruct (fs !! l) as [[]|].
Qed.

(** ** Destinations *)

Lemma write_descend_contained names : forall fs t r fs',
  real_dir fs t -> write_descend (absolute t) names fs = (r, fs') ->
  same_outside t fs fs' /\ real_dir fs' t /\ (forall p, r = Ok p -> exists l, p = absolute (t ++ l) /\ spot fs' (t ++ l)).
Proof.
  induction names as [|c names IH]; intros fs t r fs' H E.
  { injection E as <- <-. split_and!; [reflexivity|done|]. intros p [= <-]. exists []. rewrite app_nil_r. auto. }
  cbn [write_descend] in E. cbv zeta in E. rewrite !absolute_snoc in E. destruct names as [|c' names].
  - rewrite fs_bind, remove_existing_below in E by done. injection E as <- <-.
    pose proof (unlinked_outside (t ++ [c]) fs) as Ho.
    split_and!; [by eapply same_outside_mono, Ho; apply prefix_app_r|by eapply same_real|].
    intros p [= <-]. exists [c]. split; [done|]. by apply unlinked_spot.
  - rewrite fs_bind in E. destruct (enter_dir (absolute (t ++ [c])) fs) as [[u|e] fs1] eqn:E1;
      (apply enter_dir_contained in E1 as [Ho Hr]; [|by auto]); (assert (Ht : real_dir fs1 t) by by eapply same_real).
    + destruct u. apply IH in E as (H1 & H2 & H3); [|by auto]. split_and!.
      * eapply same_outside_mono; [by apply prefix_app_r|]. etrans; [exact Ho|exact H1].
      * eapply same_real; [exact H1|done].
      * intros p Hp. destruct (H3 p Hp) as (l & -> & Hs). exists (c :: l). by rewrite <- app_assoc in *.
    + injection E as <- <-. split_and!; [eapply same_outside_mono, Ho; by apply prefix_app_r|done|done].
Qed.

Lemma contained_write_path_ok fs t rel r fs' :
  real_dir fs t -> contained_write_path (absolute t) rel fs = (r, fs') ->
  same_outside t fs fs' /\ real_dir fs' t /\ (forall p, r = Ok p -> exists l, p = absolute (t ++ l) /\ spot fs' (t ++ l)).
Proof.
  intros H. unfold contained_write_path. rewrite fs_bind. unfold reads.
  destruct (write_normals _) as [names|e]; [by apply write_descend_contained|].
  intros [= <- <-]. by split_and!.
Qed.

(** ** A copied directory lies over its destination *)

(** What copying [n] leaves where [old] was. *)
Definition laid (n : Node) (old : option Node) : Node :=
  match n, old with
  | NDir _, Some (NDir x) => NDir x
  | NDir _, _ => NDir []
  | _, _ => n
  end.

(** Whether [n] can be copied to where [old] is. *)
Definition fits (n : Node) (old : option Node) : bool :=
  match n, old with
  | NDir _, (None | Some (NDir _)) => true
  | NFile _, (None | Some (NFile _) | Some (NLink _)) => true
  | NLink _, (None | Some (NLink _)) => true
  | _, _ => false
  end.

(** The node at [r] of the tree at [s] laid over that at [d]. *)
Definition lay (s d : list str) (fs : Fs) (r : list str) : option Node :=
  match fs !! (s ++ r) with
  | Some n => Some (laid n (fs !! (d ++ r)))
  | None => fs !! (d ++ r)
  end.
Definition overlaid (s d : list str) (fs fs' : Fs) : Prop :=
  same_outside d fs fs' /\ forall r, fs' !! (d ++ r) = lay s d fs r.

Definition copyable (depth : nat) (s d : list str) (fs : Fs) : Prop :=
  forall r n, fs !! (s ++ r) = Some n -> length r < depth /\ fits n (fs !! (d ++ r)) = true.

(** Nothing lies below a leaf of the tree at [s]. *)
Definition tree_below (s : list str) (fs : Fs) : Prop :=
  forall r x, x <> [] -> is_Some (fs !! (s ++ r ++ x)) -> is_dir_node (fs !! (s ++ r)) = true.

Definition apart (s d : list str) : Prop := ~ s `prefix_of` d /\ ~ d `prefix_of` s.

Lemma apart_ext s d x y : apart s d -> ~ (d ++ x) `prefix_of` (s ++ y).
Proof.
  intros [H1 H2] H. assert (Hd : d `prefix_of` s ++ y) by (etrans; [by apply prefix_app_r|exact H]).
  destruct (prefix_weak_total d s (s ++ y)); [done|by apply prefix_app_r|done|done].
Qed.

Lemma apart_snoc s d x y : apart s d -> apart (s ++ x) (d ++ y).
Proof. intros H. split; [|by apply apart_ext]. apply apart_ext. by destruct H. Qed.

Lemma tree_tree_below s fs : tree fs -> tree_below s fs.
Proof. intros H r x Hx Hs. apply (tree_above fs (s ++ r) x); by rewrite <- ?(assoc app). Qed.

Lemma tree_below_app s x fs : tree_below s fs -> tree_below (s ++ x) fs.
Proof. intros H r y Hy. rewrite <- !app_assoc. rewrite !(assoc app x). by apply H. Qed.

(** A tree that is the same below [s] and [d]. *)
Lemma source_kept s d c fs fs' y : apart s d -> same_outside (d ++ c) fs fs' -> fs' !! (s ++ y) = fs !! (s ++ y).
Proof. intros Ha H. apply H. by apply apart_ext. Qed.

Lemma sibling_kept d c c' r fs fs' :
  c <> c' -> same_outside (d ++ [c]) fs fs' -> fs' !! (d ++ c' :: r) = fs !! (d ++ c' :: r).
Proof. intros Hc H. apply H. by intros E%prefix_app_inv%prefix_cons_inv_1. Qed.

Lemma leaf_below s fs n r : tree_below s fs -> fs !! s = Some n -> is_dir_node (Some n) = false -> r <> [] -> fs !! (s ++ r) = None.
Proof.
  intros Ht E Hd Hr. destruct (fs !! (s ++ r)) eqn:Er; [|done]. exfalso.
  specialize (Ht [] r Hr). rewrite app_nil_r, E in Ht. rewrite Ht in Hd; [done|]. by eexists.
Qed.

(** A leaf that is written over what was there. *)
Lemma leaf_overlaid s d fs n :
  tree_below s fs -> fs !! s = Some n -> is_dir_node (Some n) = false ->
  overlaid s d fs (<[d := n]> (unlinked d fs)).
Proof.
  intros Ht E Hd. split.
  - etrans; [apply unlinked_outside|by apply same_outside_insert].
  - intros r. unfold lay. destruct (decide (r = [])) as [->|Hr].
    + rewrite !app_nil_r, lookup_insert_eq, E. destruct n; done.
    + assert (Hne : d <> d ++ r) by (intros Ed; apply Hr; rewrite <- (app_nil_r d) in Ed at 1; by apply app_inv_head in Ed).
      rewrite (leaf_below s fs n) by done. rewrite lookup_insert_ne by done. unfold unlinked.
      destruct (fs !! d) as [[]|]; try done. by rewrite lookup_delete_ne.
Qed.

Lemma unlinked_elsewhere d fs p : p <> d -> unlinked d fs !! p = fs !! p.
Proof. intros H. unfold unlinked. destruct (fs !! d) as [[]|]; try done. by rewrite lookup_delete_ne. Qed.

Lemma unlinked_here d fs : unlinked d fs !! d = match fs !! d with Some (NLink _) => None | n => n end.
Proof. unfold unlinked. destruct (fs !! d) as [[]|] eqn:E; try done. apply lookup_delete_eq. Qed.

Section overlay.
Context (depth : nat).
Context (copy_sub_overlays : forall s d fs,
  real_dir fs s -> placed fs d -> apart s d -> tree_below s fs -> copyable depth s d fs ->
  exists fs', copy_dir depth (absolute s) (absolute d) fs = (Ok tt, fs') /\ overlaid s d fs fs').

Lemma copy_entry_overlays s d c fs :
  real_dir fs s -> real_dir fs d -> apart s d -> tree_below s fs ->
  is_Some (fs !! (s ++ [c])) -> copyable depth (s ++ [c]) (d ++ [c]) fs ->
  exists fs', copy_entry (copy_dir depth) (absolute s) (absolute d) c fs = (Ok tt, fs')
    /\ overlaid (s ++ [c]) (d ++ [c]) fs fs'.
Proof.
  intros Hs Hd Ha Ht [n En] Hc. assert (Ht' : tree_below (s ++ [c]) fs) by by apply tree_below_app.
  assert (Hne : s ++ [c] <> d ++ [c]) by (intros [-> _]%app_inj_tail; by destruct Ha).
  assert (Hs' : real_dir (unlinked (d ++ [c]) fs) s).
  { intros q Hq. rewrite unlinked_elsewhere; [by apply Hs|]. intros ->. destruct Ha as [_ Ha]. apply Ha.
    etrans; [by apply prefix_app_r|exact Hq]. }
  assert (Hd' : real_dir (unlinked (d ++ [c]) fs) d) by (eapply same_real; [apply unlinked_outside|done]).
  pose proof (Hc [] n) as Hf. rewrite !app_nil_r in Hf. destruct (Hf En) as [_ Hfit]. clear Hf.
  unfold copy_entry. rewrite fs_bind, !absolute_snoc, symlink_metadata_below by done.
  unfold node_at. rewrite En. cbn [ok_or]. destruct n as [x|data|t| |].
  - apply copy_sub_overlays; auto; [by apply real_dir_snoc; rewrite En|by apply apart_snoc].
  - rewrite fs_bind, remove_existing_below by done. unfold copy_file.
    rewrite <- absolute_snoc, resolve_real by done. unfold MAXSYMLINKS at 1. simpl walk_path.
    pose proof (real_dir_self _ _ Hs') as Hsd. destruct (unlinked _ fs !! s) as [[]|]; try discriminate Hsd.
    rewrite (unlinked_elsewhere _ fs (s ++ [c])), En by done. cbv beta iota.
    rewrite (unlinked_elsewhere _ fs (s ++ [c])), En by done.
    rewrite walk_create_spot by by apply unlinked_spot. rewrite bool_decide_false by done. unfold write_at. rewrite unlinked_here.
    destruct (fs !! (d ++ [c])) as [[]|] eqn:Ed; try discriminate Hfit; (eexists; split; [reflexivity|by apply leaf_overlaid]).
  - rewrite fs_bind, remove_existing_below by done. rewrite fs_bind. unfold read_link.
    rewrite fs_bind, symlink_metadata_below by done. unfold node_at. rewrite unlinked_elsewhere, En by done. simpl.
    unfold symlink. rewrite create_entry_below, unlinked_here by done.
    destruct (fs !! (d ++ [c])) as [[]|] eqn:Ed; try discriminate Hfit; (eexists; split; [reflexivity|by apply leaf_overlaid]).
  - by destruct (fs !! (d ++ [c])) as [[]|].
  - by destruct (fs !! (d ++ [c])) as [[]|].
Qed.

Lemma copy_entries_overlay s d names : forall fs,
  NoDup names -> real_dir fs s -> real_dir fs d -> apart s d -> tree_below s fs ->
  (forall c, c ∈ names -> is_Some (fs !! (s ++ [c])) /\ copyable depth (s ++ [c]) (d ++ [c]) fs) ->
  exists fs', copy_entries (copy_dir depth) (absolute s) (absolute d) names fs = (Ok tt, fs')
    /\ (forall p, (forall c, c ∈ names -> ~ (d ++ [c]) `prefix_of` p) -> fs' !! p = fs !! p)
    /\ forall c r, c ∈ names -> fs' !! (d ++ c :: r) = lay s d fs (c :: r).
Proof.
  induction names as [|c names IH]; intros fs Hn Hs Hd Ha Ht Hc.
  { exists fs. split_and!; [done|done|]. by intros ? ? ?%not_elem_of_nil. }
  apply NoDup_cons in Hn as [Hin Hn]. destruct (Hc c) as [Hc1 Hc2]; [by left|].
  destruct (copy_entry_overlays s d c fs) as (fs1 & E1 & Ho & Hl); try done.
  assert (Hsrc : forall y, fs1 !! (s ++ y) = fs !! (s ++ y)) by (intros y; by eapply source_kept).
  assert (Hsib : forall c' r, c' ∈ names -> fs1 !! (d ++ c' :: r) = fs !! (d ++ c' :: r)).
  { intros c' r Hc'. eapply sibling_kept; [|exact Ho]. by intros ->. }
  destruct (IH fs1) as (fs' & E2 & Hp & Hr); try done.
  - intros q Hq. rewrite Ho; [by apply Hs|]. intros Hx. destruct Ha as [_ Ha]. apply Ha.
    etrans; [by apply (prefix_app_r d d [c])|]. by etrans.
  - by eapply same_real.
  - intros r x. rewrite !Hsrc. apply Ht.
  - intros c' Hc'. destruct (Hc c') as [H1 H2]; [by right|]. rewrite Hsrc. split; [done|].
    intros r n. rewrite <- !app_assoc, Hsrc. cbn [app]. rewrite Hsib by done. specialize (H2 r n). by rewrite <- !app_assoc in H2.
  - exists fs'. cbn [copy_entries]. rewrite fs_bind, E1. split_and!; [done| |].
    + intros p Hp'. rewrite Hp; [apply Ho, Hp'; by left|]. intros c' Hc'. apply Hp'. by right.
    + intros c' r [->|Hc']%elem_of_cons.
      * rewrite Hp. { specialize (Hl r). unfold lay in *. by rewrite <- !app_assoc in Hl. }
        intros c' Hc' Hx%prefix_app_inv%prefix_cons_inv_1. by subst.
      * rewrite Hr by done. unfold lay. by rewrite Hsrc, Hsib.
Qed.
End overlay.

Lemma copy_dir_overlays depth : forall s d fs,
  real_dir fs s -> placed fs d -> apart s d -> tree_below s fs -> copyable depth s d fs ->
  exists fs', copy_dir depth (absolute s) (absolute d) fs = (Ok tt, fs') /\ overlaid s d fs fs'.
Proof.
  induction depth as [|depth IH]; intros s d fs Hs Hd Ha Ht Hc;
    (assert (Hself : exists n, fs !! s = Some n /\ is_dir_node (Some n) = true)
       by (pose proof (real_dir_self _ _ Hs) as Hx; destruct (fs !! s) as [n|]; [by exists n|done]));
    destruct Hself as (n & En & Hdn); pose proof (Hc [] n) as Hself; rewrite !app_nil_r in Hself;
    destruct (Hself En) as [Hlt Hfit]; [simpl in Hlt; lia|]. clear Hself.
  destruct n as [x| | | |]; try discriminate Hdn. cbn [copy_dir]. rewrite fs_bind.
  destruct (enter_dir (absolute d) fs) as [r1 fs1] eqn:E. pose proof E as E'. rewrite enter_dir_placed in E' by done.
  apply enter_dir_contained in E as [Ho Hr]; [|done].
  assert (Hok : r1 = Ok tt /\ fs1 !! d = Some (laid (NDir x) (fs !! d)) /\ forall p, p <> d -> fs1 !! p = fs !! p).
  { destruct (fs !! d) as [[]|] eqn:Ed; try discriminate Hfit; injection E' as <- <-; split_and!; try done;
      intros; by rewrite ?lookup_insert_eq, ?lookup_insert_ne. }
  destruct Hok as (-> & Hd1 & Helse). assert (Hne : forall y, s ++ y <> d).
  { intros y E. destruct Ha as [Ha _]. apply Ha. rewrite <- E. by apply prefix_app_r. }
  assert (Hsrc : forall y, fs1 !! (s ++ y) = fs !! (s ++ y)) by (intros y; by apply Helse).
  assert (Hdst : forall c r, fs1 !! (d ++ c :: r) = fs !! (d ++ c :: r)).
  { intros c r. apply Helse. intros E. rewrite <- (app_nil_r d) in E at 2. by apply app_inv_head in E. }
  assert (Hs1 : real_dir fs1 s).
  { intros q Hq. rewrite Helse; [by apply Hs|]. intros ->. by destruct Ha. }
  rewrite fs_bind. unfold read_dir, reads. rewrite list_dir_real by done.
  destruct (copy_entries_overlay depth IH s d (children fs1 s) fs1) as (fs' & E2 & Hp & Hl); auto using NoDup_children.
  - intros r y. rewrite !Hsrc. apply Ht.
  - intros c Hin%elem_of_children. split; [done|]. intros r n Hn. rewrite <- !app_assoc in *. cbn [app] in *.
    rewrite Hsrc in Hn. rewrite Hdst. destruct (Hc (c :: r) n Hn) as [H1 H2]. simpl in H1. split; [lia|done].
  - exists fs'. split; [done|]. split.
    + intros p Hx. rewrite Hp; [by apply Ho|]. intros c _ Hy. apply Hx. etrans; [by apply prefix_app_r|exact Hy].
    + intros [|c r].
      * rewrite app_nil_r, Hp; [unfold lay; by rewrite !app_nil_r, En|].
        intros c _ Hy. apply prefix_length in Hy. rewrite length_app in Hy. simpl in Hy. lia.
      * unfold lay. destruct (decide (c ∈ children fs1 s)) as [Hin|Hin].
        { rewrite Hl by done. unfold lay. by rewrite Hsrc, Hdst. }
        rewrite Hp, Hdst. 2: { intros c' Hc' Hy%prefix_app_inv%prefix_cons_inv_1. by subst. }
        destruct (fs !! (s ++ c :: r)) eqn:Es; [|done]. exfalso. apply Hin, elem_of_children. rewrite Hsrc.
        destruct r as [|c' r]; [by eexists|]. specialize (Ht [c] (c' :: r)). cbn [app] in Ht.
        assert (Hx : is_dir_node (fs !! (s ++ [c])) = true) by (apply Ht; [done|by eexists]).
        by destruct (fs !! (s ++ [c])); [eexists|].
Qed.

(** Copying a directory into a place whose parent directories
    are real changes nothing outside that place, whatever links lie in it and
    whether the copy succeeds.  When every entry fits what is at its destination
    (a directory an existing directory or nothing, a file anything but a
    directory, a link nothing or another link), the copy succeeds and the
    destination is the source laid over it: every entry of the source is there,
    links unresolved, links of the destination replaced, and every other entry
    is kept. *)
Theorem copied_directory_overlays fs d :
  placed fs d ->
  (forall src, same_outside d fs (copy_dir_recursive src (absolute d) fs).2)
  /\ (forall s, tree fs -> real_dir fs s -> apart s d -> copyable PATH_MAX s d fs ->
        exists fs', copy_dir_recursive (absolute s) (absolute d) fs = (Ok tt, fs')
          /\ overlaid s d fs fs').
Proof.
  intros Hd. split; [intros src; by apply copy_dir_contained|]. intros s Ht Hs Ha Hc.
  apply copy_dir_overlays; auto using tree_tree_below.
Qed.

(** *** A directory over one with a link *)
Module CopyExample.
Definition at_s : list str := ["s" : str].
Definition at_d : list str := ["d" : str].
Definition entries : list (list str * Node) :=
  [([], NDir []); (["etc" : str], NDir []); (["etc" : str; "shadow" : str], NFile "root");
   (["s" : str], NDir []); (["s" : str; "f" : str], NFile "new"); (["s" : str; "l" : str], NLink [Normal "f"]);
   (["d" : str], NDir []); (["d" : str; "f" : str], NLink [RootDir; Normal "etc"; Normal "shadow"]); (["d" : str; "k" : str], NFile "old")].
Definition host : Fs := list_to_map entries.

Lemma host_in p n : host !! p = Some n -> (p, n) ∈ entries.
Proof. apply elem_of_list_to_map_2. Qed.

Lemma host_copyable : copyable PATH_MAX at_s at_d host.
Proof.
  intros r n E%host_in.
  assert (HF : Forall (fun e => take 1 e.1 = at_s ->
      (length (drop 1 e.1) < 3 /\ fits e.2 (host !! (at_d ++ drop 1 e.1)) = true)%nat) entries)
    by (repeat constructor; intros Hx; vm_compute in Hx; first [discriminate Hx|split; [simpl; lia|vm_compute; reflexivity]]).
  rewrite Forall_forall in HF. destruct (HF _ E) as [H1 H2]; [done|]. split; [change (length r < 3)%nat in H1; lia|exact H2].
Qed.

Lemma copied_directory_overlays_witness :
  exists fs', copy_dir_recursive (absolute at_s) (absolute at_d) host = (Ok tt, fs')
    /\ fs' !! ["d" : str; "f" : str] = Some (NFile "new") /\ fs' !! ["d" : str; "k" : str] = Some (NFile "old")
    /\ fs' !! ["etc" : str; "shadow" : str] = Some (NFile "root").
Proof.
  destruct (copied_directory_overlays host at_d) as [_ H]; [left; by apply real_dirb_sound|].
  destruct (H at_s) as (fs' & E & Ho & Hl).
  - by apply treeb_sound.
  - by apply real_dirb_sound.
  - split; intros Hx%prefix_cons_inv_1; discriminate Hx.
  - exact host_copyable.
  - exists fs'. split; [exact E|]. split; [exact (Hl ["f" : str])|]. split; [exact (Hl ["k" : str])|].
    rewrite Ho; [reflexivity|]. intros Hx%prefix_cons_inv_1; discriminate Hx.
Defined.
End CopyExample.
