(* ===== verification/BuildStaging.v ===== *)
(** * BuildStaging: unpacking archives into the staging directory
    (crates/umf-oci/src/staging.rs).

    The tar and zip crates are classes with what their documentation promises.
    The theorem is about zip archives, which the code unpacks by itself: files
    stay inside the directory, whatever the archive holds, and all that a link of
    the archive can do outside of it is to add empty directories. *)

From Stdlib Require Import ZifyBool.
From stdpp Require Import gmap list.
From S2P Require Import Prelude RustStr HostFs BuildState Compression Materialize Staging.
#[local] Open Scope Z_scope.

(** ** Computations with errors of their own *)

Definition fse (E A : Type) : Type := Fs -> result E A * Fs.
#[export] Instance fse_ret {E} : MRet (fse E) := fun A a fs => (Ok a, fs).
#[export] Instance fse_bind {E} : MBind (fse E) := fun A B k m fs =>
  match m fs with
  | (Ok a, fs') => k a fs'
  | (Err e, fs') => (Err e, fs')
  end.
Definition throw {E A} (e : E) : fse E A := fun fs => (Err e, fs).
Definition lift {E A} (f : IoError -> E) (m : fsio A) : fse E A := fun fs => let '(r, fs) := m fs in (map_err f r, fs).

Lemma fse_bind_eq {E A B} (m : fse E A) (k : A -> fse E B) fs :
  (m ≫= k) fs = match m fs with (Ok a, fs') => k a fs' | (Err e, fs') => (Err e, fs') end.
Proof. reflexivity. Qed.

Lemma lift_eq {E A} (f : IoError -> E) (m : fsio A) fs : lift f m fs = (map_err f (m fs).1, (m fs).2).
Proof. unfold lift. by destruct (m fs). Qed.

(** Another type of errors. *)
Definition convert {E E' A} (f : E -> E') (m : fse E A) : fse E' A := fun fs => let '(r, fs) := m fs in (map_err f r, fs).

Lemma convert_eq {E E' A} (f : E -> E') (m : fse E A) fs : convert f m fs = (map_err f (m fs).1, (m fs).2).
Proof. unfold convert. by destruct (m fs). Qed.

(** ** Temporary files

    The tempfile crate makes directories and files of names that are not in use,
    in an existing directory.  They are removed when their owner is dropped,
    whether it succeeds or not. *)

Definition unused (fs : Fs) (l : list str) : Prop :=
  (forall r, fs !! (l ++ r) = None) /\ exists q c, l = q ++ [c] /\ real_dir fs q.

Class TempFiles := {
  temp_dir : Fs -> result IoError (list str);
  temp_dir_unused : forall fs l, temp_dir fs = Ok l -> unused fs l;
  temp_file : Fs -> result IoError (list str);
  temp_file_unused : forall fs l, temp_file fs = Ok l -> unused fs l
}.

Section temporary.
Context {TF : TempFiles}.

Definition with_tempdir {E A} (f : IoError -> E) (k : list str -> fse E A) : fse E A := fun fs =>
  match temp_dir fs with
  | Err e => (Err (f e), fs)
  | Ok l => let '(r, fs) := k l (<[l := NDir []]> fs) in (r, remove_tree l fs)
  end.

(** A file that already holds [data]. *)
Definition with_tempfile {E A} (f : IoError -> E) (data : str) (k : list str -> fse E A) : fse E A := fun fs =>
  match temp_file fs with
  | Err e => (Err (f e), fs)
  | Ok l => let '(r, fs) := k l (<[l := NFile data]> fs) in (r, delete l fs)
  end.
End temporary.

(** *** A model: names longer than all others, in the root directory *)
Module ModelTemp.
Definition names (fs : Fs) : list str := omap (fun '(p, _) => head p) (map_to_list fs).
Definition new_name (fs : Fs) : str := ("t" : str) ++ concat (names fs).
Definition new_path (fs : Fs) : result IoError (list str) :=
  if is_dir_node (fs !! []) then Ok [new_name fs] else Err NotFound.

Lemma concat_longest (n : str) ns : n ∈ ns -> (length n <= length (concat ns))%nat.
Proof. induction 1 as [|n m ns _ IH]; simpl; rewrite length_app; lia. Qed.

Lemma new_path_unused fs l : new_path fs = Ok l -> unused fs l.
Proof.
  unfold new_path. destruct (is_dir_node (fs !! [])) eqn:E; [|done]. intros [= <-]. split.
  - intros r. destruct (fs !! ([new_name fs] ++ r)) as [n|] eqn:En; [|done]. exfalso.
    assert (Hin : new_name fs ∈ names fs).
    { apply list_elem_of_omap. exists ([new_name fs] ++ r, n). split; [by apply elem_of_map_to_list, En|done]. }
    apply concat_longest in Hin. unfold new_name in Hin at 1. rewrite length_app in Hin. simpl in Hin. lia.
  - exists [], (new_name fs). split; [done|]. intros q Hq. by apply prefix_nil_inv in Hq as ->.
Qed.

#[export] Instance model_temp : TempFiles :=
  {| temp_dir := new_path; temp_dir_unused := new_path_unused; temp_file := new_path; temp_file_unused := new_path_unused |}.
End ModelTemp.

(** [fs::read] of a file. *)
Definition read_file (p : Path) : fsio str := reads (fun fs =>
  l ← resolve true fs p;
  match fs !! l with
  | Some (NFile data) => Ok data
  | Some (NDir _) => Err IsADirectory
  | Some _ => Err InvalidInput
  | None => Err NotFound
  end).

(** ** The archive crates *)

(** [tar::Archive::unpack] writes below its destination only. *)
Class TarUnpack := {
  archive_unpack : BoxRead -> Path -> fsio unit;
  archive_unpack_contained : forall b t fs, real_dir fs t ->
    same_outside t fs (archive_unpack b (absolute t) fs).2 /\ real_dir (archive_unpack b (absolute t) fs).2 t
}.

(** An entry of a zip archive; [z_reads] are the reads of its body, to the end
    or to the first error. *)
Record ZipEntry := {
  z_name : str;
  z_enclosed : option Path;
  z_is_dir : bool;
  z_mode : option Z;
  z_reads : list (result IoError str)
}.

(** A relative path that never climbs above where it starts. *)
Fixpoint enclosed (depth : nat) (p : Path) : bool :=
  match p with
  | [] => true
  | RootDir :: _ => false
  | CurDir :: p => enclosed depth p
  | ParentDir :: p => match depth with O => false | S depth => enclosed depth p end
  | Normal _ :: p => enclosed (S depth) p
  end.

(** [ZipFile::enclosed_name] is [None] for a name that leads out of its root. *)
Class ZipCrate := {
  ZipError : Type;
  zip_entries : str -> result ZipError (list (result ZipError ZipEntry));
  enclosed_name_safe : forall bytes es e p,
    zip_entries bytes = Ok es -> Ok e ∈ es -> z_enclosed e = Some p -> enclosed 0 p = true
}.

Section staging.
Context {ZC : ZipCrate}.

Inductive StagingError :=
| StagingError_Unpack (e : IoError)
| StagingError_Decode (e : DecodeError)
| StagingError_Zip (e : ZipError)
| StagingError_ZipEntryEscape (name : str)
| StagingError_Io (e : IoError).

(** ** Tar *)

Section tar.
Context {T : TarUnpack} {S : Type} `{Reader S} `{Codecs (Chain S)}.
Context (open_file : str -> S) (fuel : nat) (cap_var : option str).

Definition unpack_tar_into_staging (dir : Path) (source : BoxRead) : fse StagingError unit :=
  lift StagingError_Unpack (archive_unpack source dir).

Definition unpack_tar_stream (dir : Path) (source : S) : fse StagingError unit :=
  match decode_tar_stream cap_var fuel source with
  | Val (Ok (_, decoded)) => unpack_tar_into_staging dir decoded
  | Val (Err e) => throw (StagingError_Decode e)
  | _ => throw (StagingError_Io Interrupted)
  end.

Definition unpack_tarball (dir tarball_path : Path) : fse StagingError unit :=
  bytes ← lift StagingError_Io (read_file tarball_path);
  unpack_tar_stream dir (open_file bytes).
End tar.

(** ** Zip *)

(** [io::copy] from a [CappedReader] over the reads of an entry: the bytes
    written, and whether all were. *)
Fixpoint copy_capped (remaining : Z) (reads : list (result IoError str)) (out : str) : result IoError unit * str :=
  match reads with
  | [] => (Ok tt, out)
  | Err e :: _ => (Err e, out)
  | Ok b :: reads =>
      let n := Z.of_nat (length b) in
      if n <=? remaining then copy_capped (remaining - n) reads (out ++ b) else (Err CeilingExceeded, out)
  end.

(** The first [n] bytes of a body, as text. *)
Fixpoint body_prefix (n : nat) (reads : list (result IoError str)) : result IoError str :=
  match n, reads with
  | O, _ | _, [] => Ok []
  | _, Err e :: _ => Err e
  | _, Ok b :: reads => rest ← body_prefix (n - length b) reads; Ok (take n b ++ rest)
  end.
Definition link_target (e : ZipEntry) : result IoError Path :=
  body ← body_prefix 4096 (z_reads e);
  text ← ok_or (to_str body) (OtherIo "stream did not contain valid UTF-8");
  Ok (components text).

Definition S_IFMT : Z := 61440.
Definition S_IFLNK : Z := 40960.
Definition is_link_mode (mode : option Z) : bool :=
  match mode with Some m => Z.land m S_IFMT =? S_IFLNK | None => false end.

(** A link to be placed: its name as stored, where, and to what. *)
Definition ZipLink : Type := str * Path * Path.

Definition create_parent (dest : Path) : fsio unit :=
  match parent dest with Some p => create_dirs [] p | None => mret tt end.

Definition unpack_zip_entry (root : Path) (s : Z * list ZipLink) (e : ZipEntry) : fse StagingError (Z * list ZipLink) :=
  let '(remaining, links) := s in
  match z_enclosed e with
  | None => throw (StagingError_ZipEntryEscape (z_name e))
  | Some rel =>
      let dest := join_path root rel in
      if z_is_dir e then lift StagingError_Io (create_dirs [] dest) ;; mret s
      else if is_link_mode (z_mode e) then
        target ← lift StagingError_Io (reads (fun _ => link_target e));
        mret (remaining, links ++ [(z_name e, dest, target)])
      else
        lift StagingError_Io (create_parent dest) ;;
        let '(copied, out) := copy_capped remaining (z_reads e) [] in
        lift StagingError_Io (write_file dest out) ;;
        match copied with
        | Err e => throw (StagingError_Unpack e)
        | Ok _ => mret (remaining - Z.of_nat (length out), links)
        end
  end.

Fixpoint unpack_zip_entries (root : Path) (s : Z * list ZipLink) (es : list (result ZipError ZipEntry))
    : fse StagingError (Z * list ZipLink) :=
  match es with
  | [] => mret s
  | Err e :: _ => throw (StagingError_Zip e)
  | Ok e :: es => s ← unpack_zip_entry root s e; unpack_zip_entries root s es
  end.

(** A file that is not there counts as removed. *)
Definition remove_if_present (p : Path) : fsio unit := fun fs =>
  match remove_file p fs with
  | (Err NotFound, fs) => (Ok tt, fs)
  | r => r
  end.

Fixpoint place_links (root : list str) (links : list ZipLink) : fse StagingError unit :=
  match links with
  | [] => mret tt
  | (name, dest, target) :: links =>
      let par := default (absolute root) (parent dest) in
      lift StagingError_Io (create_dirs [] par) ;;
      canonical ← lift StagingError_Io (canonicalize par);
      if bool_decide (root `prefix_of` canonical) then
        lift StagingError_Io (remove_if_present dest) ;;
        lift StagingError_Io (symlink target dest) ;;
        place_links root links
      else throw (StagingError_ZipEntryEscape name)
  end.

Definition unpack_zip_capped (dir zip_path : Path) (cap : Z) : fse StagingError unit :=
  bytes ← lift StagingError_Io (read_file zip_path);
  es ← (fun fs => (map_err StagingError_Zip (zip_entries bytes), fs));
  '(_, links) ← unpack_zip_entries dir (cap, []) es;
  root ← lift StagingError_Io (canonicalize dir);
  place_links root links.

Definition unpack_zip (cap_var : option str) (dir zip_path : Path) : fse StagingError unit :=
  unpack_zip_capped dir zip_path (max_uncompressed_layer_bytes cap_var).
End staging.

(** ** Walks that stay inside *)

Definition linkless (t : list str) (fs : Fs) : Prop :=
  forall p target, t `prefix_of` p -> fs !! p <> Some (NLink target).

Lemma enclosed_app_l p q : forall depth, enclosed depth (p ++ q) = true -> enclosed depth p = true.
Proof. induction p as [|[] p IH]; intros depth H; simpl in *; auto. destruct depth; [done|auto]. Qed.

Lemma take_below {A} (t x : list A) : (0 < length x)%nat -> take (length (t ++ x) - 1) (t ++ x) = t ++ take (length x - 1) x.
Proof.
  intros H. rewrite take_app_ge by (rewrite length_app; lia). f_equal. f_equal. rewrite length_app. lia.
Qed.

Section inside.
Context (t : list str) (fs : Fs) (Hl : linkless t fs).

Lemma no_link_below x c target : fs !! ((t ++ x) ++ [c]) <> Some (NLink target).
Proof. apply Hl. rewrite <- app_assoc. by apply prefix_app_r. Qed.

Lemma walk_enclosed links p : forall x l,
  enclosed (length x) p = true -> walk_path true fs links (t ++ x) p = Ok l -> exists y, l = t ++ y.
Proof.
  induction p as [|c p IH]; intros x l H E; [destruct links; injection E as <-; by eexists|].
  destruct c as [| | |c]; simpl in H; [done| | |].
  - destruct links; simpl in E; (destruct (is_dir_node _); [|done]); by eapply IH.
  - destruct (length x) as [|n] eqn:Ex; [done|].
    destruct links; simpl in E; (destruct (is_dir_node _); [|done]); rewrite take_below in E by lia;
      (eapply IH; [|exact E]); by rewrite length_take, Ex, Nat.min_l, Nat.sub_1_r by lia.
  - assert (Hn : enclosed (length (x ++ [c])) p = true) by (rewrite length_app, Nat.add_comm; exact H).
    pose proof (no_link_below x c) as Hx.
    destruct links; simpl in E; (destruct (fs !! (t ++ x)) as [[]|]; try discriminate E);
      (destruct (fs !! ((t ++ x) ++ [c])) as [[]|]; try discriminate E; try (by destruct (Hx target));
       rewrite <- app_assoc in E; by eapply IH).
Qed.

Lemma walk_create_enclosed links p : forall x l,
  enclosed (length x) p = true -> walk_create fs links (t ++ x) p = Ok l -> exists y, l = t ++ y.
Proof.
  induction p as [|c p IH]; intros x l H E; [destruct links; injection E as <-; by eexists|].
  destruct c as [| | |c]; simpl in H; [done| | |].
  - destruct links; simpl in E; (destruct (is_dir_node _); [|done]); by eapply IH.
  - destruct (length x) as [|n] eqn:Ex; [done|].
    destruct links; simpl in E; (destruct (is_dir_node _); [|done]); rewrite take_below in E by lia;
      (eapply IH; [|exact E]); by rewrite length_take, Ex, Nat.min_l, Nat.sub_1_r by lia.
  - assert (Hn : enclosed (length (x ++ [c])) p = true) by (rewrite length_app, Nat.add_comm; exact H).
    pose proof (no_link_below x c) as Hx.
    destruct links; simpl in E; (destruct (fs !! (t ++ x)) as [[]|]; try discriminate E);
      (destruct (fs !! ((t ++ x) ++ [c])) as [[]|]; try discriminate E; try (by destruct (Hx target));
       [rewrite <- app_assoc in E; by eapply IH..|]);
      (case_bool_decide; [|done]; injection E as <-; rewrite <- app_assoc; by eexists).
Qed.

Context (Hr : real_dir fs t).

Lemma resolve_enclosed p l :
  enclosed 0 p = true -> resolve true fs (absolute t ++ p) = Ok l -> exists y, l = t ++ y.
Proof. intros H. rewrite resolve_real by done. rewrite <- (app_nil_r t) at 1. by apply (walk_enclosed _ p []). Qed.

Lemma create_enclosed p l :
  enclosed 0 p = true -> walk_create fs MAXSYMLINKS [] (absolute t ++ p) = Ok l -> exists y, l = t ++ y.
Proof. intros H. rewrite walk_create_start by done. rewrite <- (app_nil_r t) at 1. by apply (walk_create_enclosed _ p []). Qed.
End inside.

(** ** [create_dir_all] only adds directories *)

Definition adds (fs fs' : Fs) : Prop :=
  forall p, fs' !! p = fs !! p \/ (fs !! p = None /\ fs' !! p = Some (NDir [])).

#[export] Instance adds_preorder : PreOrder adds.
Proof.
  split; [by left|]. intros a b c H1 H2 p. destruct (H1 p) as [E1|[E1 E1']], (H2 p) as [E2|[E2 E2']]; rewrite ?E2, ?E1 in *; auto with congruence.
Qed.

Lemma adds_insert fs l : fs !! l = None -> adds fs (<[l := NDir []]> fs).
Proof.
  intros H p. destruct (decide (p = l)) as [->|Hp]; [|left; by rewrite lookup_insert_ne].
  right. by rewrite lookup_insert_eq.
Qed.

Lemma adds_real fs fs' l : adds fs fs' -> real_dir fs l -> real_dir fs' l.
Proof. intros H Hr q Hq. specialize (Hr q Hq). by destruct (H q) as [->|[E _]]; [|rewrite E in Hr]. Qed.

Lemma adds_linkless t fs fs' : adds fs fs' -> linkless t fs -> linkless t fs'.
Proof. intros H Hl p x Hp. destruct (H p) as [->|[_ ->]]; [by apply Hl|done]. Qed.

Lemma create_dirs_adds rest : forall done fs, adds fs (create_dirs done rest fs).2.
Proof.
  induction rest as [|c rest IH]; intros done fs; [reflexivity|]. simpl.
  destruct (resolve true fs (done ++ [c])) as [l|[]]; try reflexivity; [by destruct (is_dir_node _)|].
  destruct c as [| | |c], (resolve true fs done) as [l|]; try reflexivity.
  destruct (fs !! (l ++ [c])) eqn:E; [reflexivity|]. etrans; [by apply adds_insert|]. apply IH.
Qed.

(** Along real directories nothing is added. *)
Lemma create_dirs_real rest m : forall l fs,
  real_dir fs (l ++ m) -> create_dirs (absolute l) ((Normal <$> m) ++ rest) fs = create_dirs (absolute (l ++ m)) rest fs.
Proof.
  induction m as [|c m IH]; intros l fs H; [by rewrite app_nil_r|].
  assert (Hc : real_dir fs (l ++ [c])) by (eapply real_dir_prefix; [exact H|]; exists m; by rewrite <- app_assoc).
  rewrite fmap_cons. cbn [app create_dirs]. rewrite absolute_snoc, resolve_real_dir, (real_dir_self _ _ Hc) by done.
  rewrite IH by by rewrite <- app_assoc. by rewrite <- app_assoc.
Qed.

Lemma create_dirs_start rest t fs :
  real_dir fs t -> create_dirs [] (absolute t ++ rest) fs = create_dirs (absolute t) rest fs.
Proof.
  intros H. assert (H0 : real_dir fs []) by (eapply real_dir_prefix; [exact H|apply prefix_nil]).
  change t with ([] ++ t) at 2. rewrite <- (create_dirs_real rest t [] fs H). unfold absolute at 1. cbn [app create_dirs].
  rewrite (resolve_real_dir true fs [] H0 : resolve true fs [RootDir] = _). by rewrite (real_dir_self _ _ H0).
Qed.

Lemma create_dirs_enclosed t rest : forall x fs,
  real_dir fs t -> linkless t fs -> enclosed 0 (x ++ rest) = true ->
  same_outside t fs (create_dirs (absolute t ++ x) rest fs).2.
Proof.
  induction rest as [|c rest IH]; intros x fs Hr Hl He; [reflexivity|].
  rewrite (app_assoc x [c] rest : x ++ c :: rest = (x ++ [c]) ++ rest) in He.
  cbn [create_dirs]. cbv zeta. rewrite <- !app_assoc. destruct (resolve true fs (absolute t ++ x ++ [c])) as [l|[]]; try reflexivity.
  - destruct (is_dir_node _); [by apply IH|reflexivity].
  - destruct c as [| | |c]; try (by destruct (resolve true fs _)).
    destruct (resolve true fs (absolute t ++ x)) as [l|] eqn:E; [|reflexivity].
    apply resolve_enclosed in E as [y ->]; [|done|done|].
    2: { by rewrite <- app_assoc in He; apply enclosed_app_l in He. }
    destruct (fs !! ((t ++ y) ++ [c])) eqn:En; [reflexivity|].
    etrans; [|apply IH; [| |exact He]].
    + apply same_outside_insert. rewrite <- app_assoc. by apply prefix_app_r.
    + eapply adds_real; [by apply adds_insert|done].
    + eapply adds_linkless; [by apply adds_insert|done].
Qed.

(** ** Files stay inside *)

(** What holds while the files are unpacked. *)
Definition fresh (t : list str) (fs fs' : Fs) : Prop := real_dir fs' t /\ linkless t fs' /\ same_outside t fs fs'.

Lemma join_enclosed t rel :
  enclosed 0 rel = true -> exists x, join_path (absolute t) rel = absolute t ++ x /\ enclosed 0 x = true.
Proof. destruct rel as [|[] rel]; intros H; try done; by eexists. Qed.

Lemma create_enclosed_fresh t x fs :
  real_dir fs t -> linkless t fs -> enclosed 0 x = true -> fresh t fs (create_dirs [] (absolute t ++ x) fs).2.
Proof.
  intros Hr Hl He. pose proof (create_dirs_adds (absolute t ++ x) [] fs) as Ha. split_and!.
  - by eapply adds_real.
  - by eapply adds_linkless.
  - rewrite create_dirs_start by done. rewrite <- (app_nil_r (absolute t)). by apply create_dirs_enclosed.
Qed.

(** The parent of a destination, when there is one. *)
Lemma create_parent_fresh t x fs :
  real_dir fs t -> linkless t fs -> enclosed 0 x = true -> fresh t fs (create_parent (absolute t ++ x) fs).2.
Proof.
  intros Hr Hl He. unfold create_parent. destruct (parent _) as [p|] eqn:Hp; [|by split_and!]. unfold parent in Hp. destruct x as [|c x _] using rev_ind.
  - rewrite app_nil_r in Hp. destruct t as [|c t _] using rev_ind; [done|].
    rewrite <- absolute_snoc, last_snoc, take_snoc in Hp. injection Hp as <-.
    apply real_dir_prefix with (q := t) in Hr as Hr'; [|by apply prefix_app_r].
    rewrite <- (app_nil_r (absolute t)), create_dirs_start by done. by split_and!.
  - rewrite app_assoc, last_snoc, take_snoc in Hp. apply enclosed_app_l in He.
    destruct c; try done; injection Hp as <-; by apply create_enclosed_fresh.
Qed.

Lemma write_at_fresh t y data fs :
  real_dir fs t -> linkless t fs -> fresh t fs (write_at (t ++ y) data fs).2.
Proof.
  intros Hr Hl. unfold write_at. assert (Hp : t `prefix_of` t ++ y) by by apply prefix_app_r.
  assert (Hi : is_dir_node (fs !! (t ++ y)) = false -> fresh t fs (<[t ++ y := NFile data]> fs)).
  { intros Hd. split_and!; [| |by apply same_outside_insert].
    - intros q Hq. rewrite lookup_insert_ne; [by apply Hr|]. intros <-. rewrite Hr in Hd; done.
    - intros p x Hpx. destruct (decide (p = t ++ y)) as [->|Hne]; [by rewrite lookup_insert_eq|].
      rewrite lookup_insert_ne by done. by apply Hl. }
  destruct (fs !! (t ++ y)) as [[]|]; try (by split_and!); by apply Hi.
Qed.

Lemma write_file_fresh t x data fs :
  real_dir fs t -> linkless t fs -> enclosed 0 x = true -> fresh t fs (write_file (absolute t ++ x) data fs).2.
Proof.
  intros Hr Hl He. unfold write_file. destruct (walk_create _ _ _ _) as [l|] eqn:E; [|by split_and!].
  apply create_enclosed in E as [y ->]; [|done..]. by apply write_at_fresh.
Qed.

Lemma fresh_trans t a b c : fresh t a b -> (real_dir b t -> linkless t b -> fresh t b c) -> fresh t a c.
Proof. intros (H1 & H2 & H3) H. destruct (H H1 H2) as (H4 & H5 & H6). split_and!; [done|done|by etrans]. Qed.

(** ** Links *)

(** What is found in a part of a file system is found in the whole. *)
Lemma walk_mono follow fs fs' links p : forall cur l,
  fs' ⊆ fs -> walk_path follow fs' links cur p = Ok l -> walk_path follow fs links cur p = Ok l.
Proof.
  intros cur l Hs. assert (Hd : forall q, is_dir_node (fs' !! q) = true -> is_dir_node (fs !! q) = true).
  { intros q Hq. destruct (fs' !! q) eqn:E; [|done]. by rewrite (lookup_weaken _ _ _ _ E Hs). }
  revert p cur. induction links as [|links IHl]; (induction p as [|[| | |c] p IH]; intros cur E; [exact E|simpl in *..]).
  1,5: by apply IH.
  1,2,4,5: destruct (is_dir_node (fs' !! cur)) eqn:Ec; [rewrite (Hd _ Ec); by apply IH|done].
  all: destruct (fs' !! cur) as [[]|] eqn:Ec; try discriminate E; rewrite (lookup_weaken _ _ _ _ Ec Hs);
    destruct (fs' !! (cur ++ [c])) as [n|] eqn:En; try discriminate E; rewrite (lookup_weaken _ _ _ _ En Hs);
    destruct n; try (by apply IH); destruct (_ && _); try done; by apply IHl.
Qed.

(** The last entry of a path lies in what the path before it leads to. *)
Lemma walk_snoc fs links p c : forall cur l,
  walk_path false fs links cur (p ++ [Normal c]) = Ok l -> exists pl, walk_path true fs links cur p = Ok pl /\ l = pl ++ [c].
Proof.
  revert p. induction links as [|links IHl]; (induction p as [|[| | |d] p IH]; intros cur l E; [|simpl in *..]).
  1,6: (simpl in E; destruct (fs !! cur) as [[]|]; try discriminate E;
        destruct (fs !! (cur ++ [c])) as [[]|]; try discriminate E; simpl in E; injection E as <-; by eexists).
  1,5: by apply IH.
  1,2,4,5: destruct (is_dir_node (fs !! cur)); [by apply IH|done].
  all: destruct (fs !! cur) as [[]|]; try discriminate E;
    destruct (fs !! (cur ++ [d])) as [n|]; try discriminate E; destruct n; try (by apply IH);
    rewrite (bool_decide_false (p ++ _ = [])) in E by (by destruct p); simpl in E; rewrite andb_false_r; try done.
  rewrite app_assoc in E. by apply IHl.
Qed.

(** Outside of [t] there are new empty directories at most. *)
Definition dirs_added (t : list str) (fs fs' : Fs) : Prop :=
  forall p, ~ t `prefix_of` p -> fs' !! p = fs !! p \/ (fs !! p = None /\ fs' !! p = Some (NDir [])).

Lemma dirs_added_trans t a b c : dirs_added t a b -> dirs_added t b c -> dirs_added t a c.
Proof.
  intros H1 H2 p Hp. destruct (H1 p Hp) as [E1|[E1 E1']], (H2 p Hp) as [E2|[E2 E2']]; rewrite ?E2, ?E1 in *; auto with congruence.
Qed.

Lemma adds_dirs_added t fs fs' : adds fs fs' -> dirs_added t fs fs'.
Proof. intros H p _. apply H. Qed.
Lemma outside_dirs_added t fs fs' : same_outside t fs fs' -> dirs_added t fs fs'.
Proof. intros H p Hp. left. by apply H. Qed.

(** An entry strictly below [t]. *)
Lemma below_real t y c fs fs' : (forall p, p <> (t ++ y) ++ [c] -> fs' !! p = fs !! p) -> real_dir fs t ->
  real_dir fs' t /\ same_outside t fs fs'.
Proof.
  intros H Hr. split.
  - intros q Hq. rewrite H; [by apply Hr|]. intros ->. apply prefix_length in Hq. rewrite !length_app in Hq. simpl in Hq. lia.
  - intros p Hp. apply H. intros ->. apply Hp. rewrite <- app_assoc. by apply prefix_app_r.
Qed.

(** Replacing an entry of a directory inside [t]. *)
Lemma replace_entry fs t par c y fs1 target :
  real_dir fs t -> resolve true fs par = Ok (t ++ y) ->
  (remove_if_present (par ++ [Normal c]) fs).2 = fs1 ->
  real_dir fs1 t /\ same_outside t fs fs1 /\
  real_dir (symlink target (par ++ [Normal c]) fs1).2 t /\ same_outside t fs1 (symlink target (par ++ [Normal c]) fs1).2.
Proof.
  intros Hr Hp <-. set (l := (t ++ y) ++ [c]).
  assert (H1 : (remove_if_present (par ++ [Normal c]) fs).2 ⊆ fs /\
               forall p, p <> l -> (remove_if_present (par ++ [Normal c]) fs).2 !! p = fs !! p).
  { unfold remove_if_present, remove_file. rewrite last_snoc.
    destruct (resolve false fs _) as [l'|[]] eqn:E; try done.
    apply walk_snoc in E as (pl & E & ->). unfold resolve in Hp. rewrite Hp in E. injection E as <-. fold l.
    destruct (fs !! l) as [[]|]; try done; (split; [apply delete_subseteq|intros; by apply lookup_delete_ne]). }
  destruct H1 as [Hsub Hne]. set (fs1 := (remove_if_present _ fs).2) in *.
  destruct (below_real t y c fs fs1 Hne Hr) as [Hr1 Ho1]. split_and!; [done|done| |];
    apply (below_real t y c fs1); try done; intros p Hpl; unfold symlink, create_entry, entry_of;
    rewrite last_snoc, take_snoc; destruct (resolve true fs1 par) as [pl|] eqn:E; try done;
    apply (walk_mono _ fs) in E; try done; unfold resolve in Hp; rewrite Hp in E; injection E as <-; simpl;
    (destruct (is_dir_node _); [|done]); (destruct (fs1 !! _); [done|]); by apply lookup_insert_ne.
Qed.

Section zip.
Context {ZC : ZipCrate}.

Lemma unpack_zip_entry_fresh t s e fs :
  (forall p, z_enclosed e = Some p -> enclosed 0 p = true) ->
  real_dir fs t -> linkless t fs -> fresh t fs (unpack_zip_entry (absolute t) s e fs).2.
Proof.
  intros He Hr Hl. assert (Hrefl : fresh t fs fs) by by split_and!. destruct s as [remaining links].
  unfold unpack_zip_entry. destruct (z_enclosed e) as [rel|]; [|done].
  destruct (join_enclosed t rel) as (x & -> & Hx); [by apply He|]. destruct (z_is_dir e).
  { rewrite fse_bind_eq, lift_eq. pose proof (create_enclosed_fresh t x fs Hr Hl Hx) as Hf.
    destruct (map_err _ _) as [u|]; exact Hf. }
  destruct (is_link_mode _). { rewrite fse_bind_eq, lift_eq. simpl. by destruct (link_target e). }
  pose proof (create_parent_fresh t x fs Hr Hl Hx) as Hf. rewrite fse_bind_eq, lift_eq.
  destruct (create_parent _ fs) as [[u|] fs1]; [|done]. cbn [fst snd map_err] in *.
  destruct (copy_capped _ _ _) as [copied out]. rewrite fse_bind_eq, lift_eq.
  assert (Hf2 : fresh t fs (write_file (absolute t ++ x) out fs1).2).
  { eapply fresh_trans; [exact Hf|]. intros. by apply write_file_fresh. }
  destruct (map_err _ _) as [?|]; [|done]. by destruct copied.
Qed.

Lemma unpack_zip_entries_fresh t es : forall s fs,
  (forall e p, Ok e ∈ es -> z_enclosed e = Some p -> enclosed 0 p = true) ->
  real_dir fs t -> linkless t fs -> fresh t fs (unpack_zip_entries (absolute t) s es fs).2.
Proof.
  induction es as [|[e|e] es IH]; intros s fs He Hr Hl; [by split_and!| |by split_and!].
  cbn [unpack_zip_entries]. rewrite fse_bind_eq.
  pose proof (unpack_zip_entry_fresh t s e fs) as H.
  destruct (unpack_zip_entry _ _ _ _) as [[s'|] fs1]; cbn [snd] in *; [|by apply H; [intros p; apply He; left|..]].
  eapply fresh_trans; [by apply H; [intros p; apply He; left|..]|]. intros. apply IH; [|done|done].
  intros e' p Hin. apply He. by right.
Qed.

Lemma place_links_dirs_added t links : forall fs,
  real_dir fs t -> dirs_added t fs (place_links t links fs).2 /\ real_dir (place_links t links fs).2 t.
Proof.
  induction links as [|[[name dest] target] links IH]; intros fs Hr; [by split; [left|]|]. cbn [place_links].
  set (par := default (absolute t) (parent dest)). rewrite fse_bind_eq, lift_eq.
  pose proof (create_dirs_adds par [] fs) as Ha. pose proof (adds_real _ _ t Ha Hr) as Hr1. apply (adds_dirs_added t) in Ha.
  destruct (create_dirs [] par fs) as [[u|] fs1]; cbn [fst snd map_err] in *; [|done].
  rewrite fse_bind_eq, lift_eq. unfold canonicalize, reads. cbn [fst snd].
  destruct (resolve true fs1 par) as [pl|] eqn:Ep; [|done]. simpl. destruct (node_at fs1 pl); [|done]. simpl.
  case_bool_decide as Hp; [|done]. destruct Hp as [y ->]. rewrite fse_bind_eq, lift_eq.
  assert (Hstep : let fs2 := (remove_if_present dest fs1).2 in
    real_dir fs2 t /\ same_outside t fs1 fs2 /\ real_dir (symlink target dest fs2).2 t /\ same_outside t fs2 (symlink target dest fs2).2).
  { destruct dest as [|c dest _] using rev_ind; [by split_and!|].
    destruct c as [| | |c].
    4: { eapply replace_entry; [done| |done]. unfold par, parent in Ep. rewrite last_snoc, take_snoc in Ep. exact Ep. }
    all: unfold remove_if_present, remove_file, symlink, create_entry, entry_of; rewrite !last_snoc;
      destruct (resolve false fs1 _) as [?|[]]; by split_and!. }
  destruct (remove_if_present dest fs1) as [[u'|] fs2]; cbn [fst snd map_err] in *; destruct Hstep as (H1 & H2 & H3 & H4);
    apply (outside_dirs_added t) in H2; [|by split; [eapply dirs_added_trans|]].
  rewrite fse_bind_eq, lift_eq. apply (outside_dirs_added t) in H4.
  destruct (symlink target dest fs2) as [[u''|] fs3]; cbn [fst snd map_err] in *.
  - destruct (IH fs3 H3) as [H5 H6]. split; [|done]. eauto using dirs_added_trans.
  - split; [|done]. eauto using dirs_added_trans.
Qed.

Definition no_link (e : ZipEntry) : bool := z_is_dir e || negb (is_link_mode (z_mode e)).

Lemma no_links_left root es : forall s fs s' fs',
  (forall e, Ok e ∈ es -> no_link e = true) -> unpack_zip_entries root s es fs = (Ok s', fs') -> s'.2 = s.2.
Proof.
  induction es as [|[e|e] es IH]; intros s fs s' fs' Hn E; [by injection E as <- <-| |done].
  cbn [unpack_zip_entries] in E. rewrite fse_bind_eq in E.
  destruct (unpack_zip_entry root s e fs) as [[s1|] fs1] eqn:E1; [|done].
  transitivity s1.2; [eapply IH, E; intros; apply Hn; by right|]. clear E IH.
  assert (He : no_link e = true) by (apply Hn; left). unfold no_link in He. destruct s as [remaining links].
  unfold unpack_zip_entry in E1. destruct (z_enclosed e); [|done].
  destruct (z_is_dir e); [|destruct (is_link_mode _); [done|]]; rewrite fse_bind_eq, lift_eq in E1.
  - destruct (map_err _ _); [|done]. by injection E1 as <- <-.
  - destruct (map_err _ _); [|done]. destruct (copy_capped _ _ _) as [[?|] out]; rewrite fse_bind_eq, lift_eq in E1;
      (destruct (map_err _ _); [|done]); [by injection E1 as <- <-|done].
Qed.
End zip.

Lemma unpack_zip_contained {ZC : ZipCrate} t zip_path cap fs :
  real_dir fs t -> linkless t fs ->
  let fs' := (unpack_zip_capped (absolute t) zip_path cap fs).2 in
  real_dir fs' t /\ dirs_added t fs fs' /\
  ((forall bytes es e, (read_file zip_path fs).1 = Ok bytes -> zip_entries bytes = Ok es -> Ok e ∈ es -> no_link e = true) ->
   same_outside t fs fs').
Proof.
  intros Hr Hl. unfold unpack_zip_capped. rewrite fse_bind_eq, lift_eq.
  assert (Hid : real_dir fs t /\ dirs_added t fs fs /\ same_outside t fs fs) by (split_and!; [done|by left|done]).
  change (read_file zip_path fs).2 with fs. destruct (read_file zip_path fs).1 as [bytes|]; [|simpl; tauto].
  cbn [map_err]. rewrite fse_bind_eq. destruct (zip_entries bytes) as [es|] eqn:Ez; [|simpl; tauto].
  cbn [map_err]. rewrite fse_bind_eq.
  destruct (unpack_zip_entries_fresh t es (cap, []) fs) as (H1 & H2 & H3); [by intros; eapply enclosed_name_safe|done|done|].
  destruct (unpack_zip_entries (absolute t) (cap, []) es fs) as [[[rem links]|] fs1] eqn:E; cbn [snd] in *.
  2: { split_and!; [done|by apply outside_dirs_added|done]. }
  rewrite fse_bind_eq, lift_eq. unfold canonicalize, reads. rewrite resolve_real_dir by done. cbn [mbind result_bind fst snd].
  pose proof (real_dir_self _ _ H1) as Hd. unfold node_at. destruct (fs1 !! t) eqn:Et; [|done]. cbn [ok_or map_err].
  destruct (place_links_dirs_added t links fs1 H1) as [H4 H5]. split_and!; [done| |].
  - eapply dirs_added_trans; [by apply outside_dirs_added|done].
  - intros Hn. apply no_links_left in E; [|by intros; eapply Hn]. simpl in E. by subst.
Qed.

(** C37 (safety): Whatever a zip archive holds, unpacking it into a directory
    without links changes nothing outside of that directory, save that links of
    the archive may add empty directories elsewhere; an archive without links
    changes nothing outside at all. *)
Theorem unpack_zip_outside {ZC : ZipCrate} t zip_path cap fs :
  real_dir fs t -> linkless t fs ->
  let fs' := (unpack_zip_capped (absolute t) zip_path cap fs).2 in
  real_dir fs' t /\ dirs_added t fs fs' /\
  ((forall bytes es e, (read_file zip_path fs).1 = Ok bytes -> zip_entries bytes = Ok es -> Ok e ∈ es -> no_link e = true) ->
   same_outside t fs fs').
Proof. intros Hr Hl. by apply unpack_zip_contained. Qed.

(** ** An archive *)

Module ZipExample.
Definition link (name target : str) : ZipEntry :=
  {| z_name := name; z_enclosed := Some (components name); z_is_dir := false; z_mode := Some 41471; z_reads := [Ok target] |}.
Definition file (name data : str) : ZipEntry :=
  {| z_name := name; z_enclosed := Some (components name); z_is_dir := false; z_mode := None; z_reads := [Ok data] |}.
Definition listing (bytes : str) : list ZipEntry :=
  if bool_decide (bytes = "good") then [file "a/b" "x"; file "a/../c" "y"; link "a/l" "b"]
  else if bool_decide (bytes = "evil") then [link "out" "/etc"; link "out/added/l" "b"]
  else [].
#[export] Instance toy_zip : ZipCrate.
Proof.
  refine {| ZipError := unit; zip_entries := fun bytes => Ok (Ok <$> listing bytes) |}.
  intros bytes es e p [= <-] Hin. apply list_elem_of_fmap in Hin as (e' & [= ->] & Hin). unfold listing in Hin.
  revert e' p Hin. repeat case_bool_decide;
    (rewrite <- Forall_forall || idtac); intros e' p Hin;
    repeat (apply elem_of_cons in Hin as [->|Hin]; [intros [= <-]; vm_compute; reflexivity|]); by apply not_elem_of_nil in Hin.
Defined.

Definition host : Fs :=
  list_to_map [([], NDir []); (["etc" : str], NDir []); (["t" : str], NDir []);
               (["good" : str], NFile "good"); (["evil" : str], NFile "evil")].
Definition run_zip (name : str) : result StagingError unit * Fs :=
  unpack_zip_capped (absolute ["t" : str]) (absolute [name]) 10 host.

(** The check of a link's directory comes after the directory has been made. *)
Example directory_added_outside :
  (run_zip "evil").1 = Err (StagingError_ZipEntryEscape "out/added/l")
  /\ (run_zip "evil").2 !! ["etc" : str; "added" : str] = Some (NDir []) /\ host !! ["etc" : str; "added" : str] = None.
Proof. vm_compute. auto. Qed.

Lemma target_real : real_dir host ["t" : str].
Proof.
  intros [|c q] Hq; [reflexivity|]. pose proof (prefix_cons_inv_1 _ _ _ _ Hq) as ->.
  apply prefix_cons_inv_2, prefix_nil_inv in Hq as ->. reflexivity.
Qed.
Lemma host_linkless : linkless ["t" : str] host.
Proof.
  intros p x _ E. apply elem_of_list_to_map_2 in E.
  repeat (apply elem_of_cons in E as [[=]|E]). by apply not_elem_of_nil in E.
Qed.

Lemma unpack_zip_outside_witness :
  (run_zip "good").2 !! ["t" : str; "c" : str] = Some (NFile "y")
  /\ (run_zip "good").2 !! ["t" : str; "a" : str; "l" : str] = Some (NLink [Normal "b"])
  /\ real_dir (run_zip "good").2 ["t" : str] /\ dirs_added ["t" : str] host (run_zip "good").2.
Proof.
  split; [vm_compute; reflexivity|]. split; [vm_compute; reflexivity|].
  destruct (unpack_zip_outside ["t" : str] (absolute ["good" : str]) 10 host) as (H1 & H2 & _).
  - exact target_real.
  - exact host_linkless.
  - split; [exact H1|exact H2].
Defined.
End ZipExample.
