(* ===== verification/Introspect.v ===== *)
(** * Introspect: what an image is, and where it comes from
    (crates/umf-builder/src/introspect.rs and resolver/, and the search list of
    crates/umf-oci/src/registry/search.rs).

    [introspect] reads the kind of an image from its labels; the resolvers look a
    reference up in the layout and then in the registries.  Pulling from a
    registry, the parser of references and the JSON text are parameters. *)

From stdpp Require Import gmap list.
From S2P Require Import Prelude RustStr Target Image Json Layout LayoutFacts HostFs BaseImage.

(** ** introspect.rs *)

Record L0Profile := {
  kind : L0Kind;
  source : L0Source;
  manifest_digest : str;
  labels : gmap str str;
  entrypoint : option (list str)
}.

Definition L0Profile_scratch : L0Profile :=
  {| kind := L0Kind_Scratch; source := L0Source_Label; manifest_digest := []; labels := ∅; entrypoint := None |}.

(** [ConfigSection]: a field that is absent has its default; [null] is no map. *)
Record ConfigSection := { section_labels : gmap str str; section_entrypoint : option (list str) }.

Definition labels_from (v : option Value) : option (gmap str str) :=
  match v with
  | None => Some ∅
  | Some (Value_Object ms) =>
      if decide (map_Forall (fun _ v => is_Some (value_str v)) ms) then Some (omap value_str ms) else None
  | Some _ => None
  end.
Definition entrypoint_from (v : option Value) : option (option (list str)) :=
  match v with
  | None | Some Value_Null => Some None
  | Some (Value_Array l) => Some <$> mapM value_str l
  | Some _ => None
  end.
Definition section_from (v : option Value) : option ConfigSection :=
  match v with
  | None => Some {| section_labels := ∅; section_entrypoint := None |}
  | Some (Value_Object ms) =>
      l ← labels_from (ms !! ("Labels" : str)); e ← entrypoint_from (ms !! ("Entrypoint" : str));
      Some {| section_labels := l; section_entrypoint := e |}
  | Some _ => None
  end.
(** [serde_json::from_slice::<ImageConfigDoc>], given the document. *)
Definition ImageConfigDoc_from (v : Value) : option ConfigSection :=
  match v with Value_Object ms => section_from (ms !! ("config" : str)) | _ => None end.

Definition IMAGE_DOCKER_CONFIG_MEDIA_TYPE : str := "application/vnd.docker.container.image.v1+json".

Definition infer_kind (m : OciImageManifest) : L0Kind :=
  let config_mt := desc_media_type (mf_config m) in
  if (bool_decide (config_mt = IMAGE_CONFIG_MEDIA_TYPE) || bool_decide (config_mt = IMAGE_DOCKER_CONFIG_MEDIA_TYPE))
     && negb (is_nil (mf_layers m))
  then L0Kind_Container else L0Kind_Unknown [].

Section introspect.
Context (sha256_hex : str -> str) (parse_manifest : str -> option OciManifest)
        (parse_image : str -> option OciImageManifest) (parse_json : str -> option Value).

Definition introspect_image (L : ImageLayout) (digest : str) (m : OciImageManifest) : result RegistryError L0Profile :=
  config_bytes ← read_blob sha256_hex L (desc_digest (mf_config m));
  doc ← ok_or (parse_json config_bytes ≫= ImageConfigDoc_from) (RegistryError_Json "config");
  let '(k, src) :=
    match section_labels doc !! TYPE with
    | Some value => (L0Kind_from_label value, L0Source_Label)
    | None => (infer_kind m, L0Source_Inferred)
    end in
  Ok {| kind := k; source := src; manifest_digest := digest; labels := section_labels doc;
        entrypoint := section_entrypoint doc |}.

(** The manifest a name denotes. *)
Definition manifest_of (L : ImageLayout) (ref_name : str) : result RegistryError (ImageIndexEntry * OciManifest) :=
  entry ← ok_or (layout_lookup_ref L ref_name) (RegistryError_NotFound ref_name);
  bytes ← read_blob sha256_hex L (ie_digest entry);
  manifest ← ok_or (parse_manifest bytes) (RegistryError_Json "manifest");
  Ok (entry, manifest).

Definition introspect (L : ImageLayout) (ref_name : str) : result RegistryError L0Profile :=
  '(entry, manifest) ← manifest_of L ref_name;
  match manifest with
  | OciManifest_Image image => introspect_image L (ie_digest entry) image
  | OciManifest_ImageIndex _ => Err (RegistryError_InvalidLayout (ref_name ++ " resolves to an image index"))
  end.

Definition introspect_for_platform (L : ImageLayout) (ref_name : str) (architecture : Architecture)
    : result RegistryError L0Profile :=
  '(entry, manifest) ← manifest_of L ref_name;
  match manifest with
  | OciManifest_Image image => introspect_image L (ie_digest entry) image
  | OciManifest_ImageIndex es =>
      chosen ← ok_or (select_for_arch es architecture)
        (RegistryError_InvalidLayout (ref_name ++ " is a multi-arch index with no linux/" ++ oci_arch_string architecture ++ " manifest"));
      child_bytes ← read_blob sha256_hex L (ie_digest chosen);
      child ← ok_or (parse_image child_bytes) (RegistryError_Json "manifest");
      introspect_image L (ie_digest chosen) child
  end.
End introspect.

(** ** search.rs *)

Abbreviation SearchRegistries := (list str).

Definition add_registry (registry : str) (search : SearchRegistries) : bool * SearchRegistries :=
  let registry := trim_end "/" (trim registry) in
  if is_nil registry || bool_decide (registry ∈ search) then (false, search) else (true, search ++ [registry]).

Definition remove_registry (registry : str) (search : SearchRegistries) : bool * SearchRegistries :=
  let registry := trim_end "/" (trim registry) in
  let kept := filter (fun r => r <> registry) search in
  (negb (bool_decide (length kept = length search)), kept).

Definition is_qualified (reference : str) : bool :=
  match split_once "/" reference with
  | Some (host, _) =>
      bool_decide ("."%char ∈ host) || bool_decide (":"%char ∈ host) || bool_decide (host = "localhost")
  | None => false
  end.

Definition resolution_candidates (reference : str) (search : SearchRegistries) : list str :=
  if is_nil search || is_qualified reference then [reference]
  else ((fun reg => trim_end "/" reg ++ "/" ++ reference) <$> search) ++ [reference].

(** ** resolver/ *)

(** A layer to unpack: a blob of the layout, or a file of the host. *)
Inductive LayerFile := BlobFile (name : str) | HostFile (path : Path).

(** [Provenance], [AddProvenance] and [FromKernelProvenance]. *)
Inductive Provenance :=
| Provenance_Override (path : Path)
| Provenance_Registry (reference : str)
| Provenance_Cache (reference : str).

Record Artifact := { art_layers : list LayerFile; art_provenance : Provenance }.

(** [AddResolveError] and [FromKernelResolveError], which have the same cases. *)
Inductive ResolveError :=
| ResolveError_NotFound (tried : str)
| ResolveError_MalformedRef (ref_name detail : str)
| ResolveError_MalformedArtifact (ref_name detail : str)
| ResolveError_Registry (e : RegistryError)
| ResolveError_Json (message : str)
| ResolveError_Io (e : IoError).

Fixpoint blob_paths (ds : list OciDescriptor) : result RegistryError (list str) :=
  match ds with
  | [] => Ok []
  | d :: ds => name ← blob_path (desc_digest d); names ← blob_paths ds; Ok (name :: names)
  end.

(** What one resolver adds to the common ladder. *)
Class LayerResolve := {
  LABEL : str;
  post_pull_check : ImageLayout -> str -> result ResolveError unit
}.

Section resolver.
Context (sha256_hex : str -> str) (parse_manifest : str -> option OciManifest)
        (parse_image : str -> option OciImageManifest) (parse_json : str -> option Value).
(** [Reference::parse] and its canonical text; [RegistryClient::pull]. *)
Context (parse_reference : str -> result str str) (is_file : Path -> bool) (search : SearchRegistries).
Context (registry : option (str -> ImageLayout -> result RegistryError unit * ImageLayout)).

Definition AddResolver : LayerResolve :=
  {| LABEL := "ADD --from image"; post_pull_check := fun _ _ => Ok tt |}.

Definition FromKernelResolver : LayerResolve := {|
  LABEL := "FROM kernel";
  post_pull_check := fun L ref_name =>
    profile ← map_err ResolveError_Registry (introspect sha256_hex parse_manifest parse_json L ref_name);
    if bool_decide (kind profile = L0Kind_Bootable) then Ok tt
    else if bool_decide (kind profile = L0Kind_Payload Payload_Kernel) then Ok tt
    else Err (ResolveError_MalformedArtifact ref_name "expected org.imagilux.umf.type=kernel or =bootable")
|}.

Section ladder.
Context (R : LayerResolve).

Definition read_image_manifest (L : ImageLayout) (ref_name digest : str) (architecture : Architecture)
    : result ResolveError OciImageManifest :=
  bytes ← map_err ResolveError_Registry (read_blob sha256_hex L digest);
  manifest ← ok_or (parse_manifest bytes) (ResolveError_Json "manifest");
  match manifest with
  | OciManifest_Image image => Ok image
  | OciManifest_ImageIndex es =>
      child ← ok_or (select_for_arch es architecture)
        (ResolveError_MalformedArtifact ref_name ("image index has no linux/" ++ oci_arch_string architecture ++ " manifest"));
      child_bytes ← map_err ResolveError_Registry (read_blob sha256_hex L (ie_digest child));
      ok_or (parse_image child_bytes) (ResolveError_Json "manifest")
  end.

Definition read_layer_paths (L : ImageLayout) (ref_name : str) (architecture : Architecture)
    : result ResolveError (list LayerFile) :=
  _ ← post_pull_check L ref_name;
  entry ← ok_or (layout_lookup_ref L ref_name)
    (ResolveError_MalformedArtifact ref_name "ref vanished from layout during read");
  manifest ← read_image_manifest L ref_name (ie_digest entry) architecture;
  if is_nil (mf_layers manifest) then Err (ResolveError_MalformedArtifact ref_name "no layers in manifest")
  else
    names ← map_err ResolveError_Registry (blob_paths (mf_layers manifest));
    Ok (BlobFile <$> (names : list str)).

Definition pull_from_registry (pull : str -> ImageLayout -> result RegistryError unit * ImageLayout)
    (canonical : str) (architecture : Architecture) (L : ImageLayout) : result ResolveError Artifact * ImageLayout :=
  let '(r, L) := pull canonical L in
  (_ ← map_err ResolveError_Registry r;
   layers ← read_layer_paths L canonical architecture;
   Ok {| art_layers := layers; art_provenance := Provenance_Registry canonical |}, L).

(** One candidate: the artifact, or what was tried. *)
Definition try_candidate (architecture : Architecture) (canonical : str) (L : ImageLayout)
    : result (list str) Artifact * ImageLayout :=
  let cached :=
    match layout_lookup_ref L canonical with
    | Some _ => read_layer_paths L canonical architecture
    | None => Err (ResolveError_NotFound [])
    end in
  match cached with
  | Ok layers => (Ok {| art_layers := layers; art_provenance := Provenance_Cache canonical |}, L)
  | Err _ =>
      match registry with
      | Some pull =>
          let '(r, L) := pull_from_registry pull canonical architecture L in
          match r with
          | Ok art => (Ok art, L)
          | Err _ => (Err ["cache " ++ canonical; "registry " ++ canonical], L)
          end
      | None => (Err ["cache " ++ canonical; "registry " ++ canonical ++ " (skipped — no client)"], L)
      end
  end.

Fixpoint try_candidates (architecture : Architecture) (candidates tried : list str) (L : ImageLayout)
    : result ResolveError Artifact * ImageLayout :=
  match candidates with
  | [] => (Err (ResolveError_NotFound (join ", " tried)), L)
  | candidate :: candidates =>
      match parse_reference candidate with
      | Err _ => try_candidates architecture candidates tried L
      | Ok canonical =>
          match try_candidate architecture canonical L with
          | (Ok art, L) => (Ok art, L)
          | (Err tried', L) => try_candidates architecture candidates (tried ++ tried') L
          end
      end
  end.

Definition resolve_layers (reference : str) (override_path : option Path) (registry_ref : option str)
    (architecture : Architecture) (L : ImageLayout) : result ResolveError Artifact * ImageLayout :=
  match override_path with
  | Some path =>
      (if is_file path then Ok {| art_layers := [HostFile path]; art_provenance := Provenance_Override path |}
       else Err (ResolveError_Io NotFound), L)
  | None =>
      let pull_ref := default reference registry_ref in
      match parse_reference pull_ref with
      | Err detail => (Err (ResolveError_MalformedRef pull_ref detail), L)
      | Ok _ => try_candidates architecture (resolution_candidates pull_ref search) [] L
      end
  end.
End ladder.

Definition resolve_add (reference : str) (architecture : Architecture) (override_path : option Path)
    (registry_ref : option str) : ImageLayout -> result ResolveError Artifact * ImageLayout :=
  resolve_layers AddResolver reference override_path registry_ref architecture.
Definition resolve_from_kernel (reference : str) (architecture : Architecture) (override_path : option Path)
    (registry_ref : option str) : ImageLayout -> result ResolveError Artifact * ImageLayout :=
  resolve_layers FromKernelResolver reference override_path registry_ref architecture.
End resolver.

(** ** An emitted image is what it was emitted as *)

Lemma mapM_strings l : mapM value_str (Value_String <$> l) = Some l.
Proof. induction l as [|x l IH]; [done|]. rewrite fmap_cons. cbn [mapM value_str]. rewrite IH. done. Qed.

Lemma section_of_doc layers config :
  ImageConfigDoc_from (config_value (config_doc layers config))
  = Some {| section_labels := final_labels config; section_entrypoint := cc_entrypoint (ic_container config) |}.
Proof.
  assert (H1 : get "Labels" (container_value (config_doc layers config)) = Some (Value_Object (Value_String <$> final_labels config))).
  { unfold container_value. field. apply final_labels_some. }
  assert (H2 : get "Entrypoint" (container_value (config_doc layers config)) = str_list <$> cc_entrypoint (ic_container config)).
  { unfold container_value. by field. }
  unfold ImageConfigDoc_from, config_value. skip_fields. rewrite lookup_insert_eq. unfold container_value in *.
  cbn [get section_from] in *. rewrite H1, H2. cbn [labels_from].
  rewrite decide_True; [|intros k v; rewrite lookup_fmap; intros (x & _ & ->)%fmap_Some; by eexists].
  rewrite omap_strings. cbn [mbind option_bind].
  destruct (cc_entrypoint (ic_container config)) as [l|]; [|done]. cbn [fmap option_fmap option_map entrypoint_from str_list].
  by rewrite mapM_strings.
Qed.

Lemma type_label config : final_labels config !! TYPE = Some (L0Kind_fmt (ic_umf_type config)).
Proof. unfold final_labels. rewrite lookup_insert_ne by done. apply lookup_insert_eq. Qed.

Section emitted.
Context (sha256_hex : str -> str) (sha256_hex_name : forall s, hex_name (sha256_hex s)).
Context (sha256_hex_inj : forall s t, sha256_hex s = sha256_hex t -> s = t).

(** Its kind, labels and entrypoint, for every architecture. *)
Lemma introspect_emitted print_json print_manifest parse_manifest parse_image parse_json L layers config ref_name :
  let config_bytes := print_json (config_value (config_doc layers config)) in
  let m := image_manifest sha256_hex layers config_bytes (sha256_digest sha256_hex config_bytes) in
  parse_json config_bytes = Some (config_value (config_doc layers config)) ->
  parse_manifest (print_manifest m) = Some (OciManifest_Image m) ->
  addressed sha256_hex L ->
  exists e L', emit_image sha256_hex print_json print_manifest layers config ref_name L = Ok (e, L')
    /\ layout_lookup_ref L' ref_name = Some (annotate ref_name e)
    /\ forall arch, introspect_for_platform sha256_hex parse_manifest parse_image parse_json L' ref_name arch
       = Ok {| kind := L0Kind_from_label (L0Kind_fmt (ic_umf_type config)); source := L0Source_Label;
               manifest_digest := ie_digest e; labels := final_labels config;
               entrypoint := cc_entrypoint (ic_container config) |}.
Proof.
  intros config_bytes m HJ HM HA.
  destruct (emit_image_ok sha256_hex sha256_hex_name sha256_hex_inj print_json print_manifest L layers config ref_name HA)
    as (e & L' & E & _ & _ & Hl & Hd & HS & HC & _). fold config_bytes m in Hd, HS, HC.
  exists e, L'. split; [done|]. split; [done|]. intros arch. unfold introspect_for_platform, manifest_of. rewrite Hl.
  cbn [ok_or mbind result_bind annotate ie_digest]. rewrite Hd.
  rewrite (read_blob_stored sha256_hex sha256_hex_name L' _ HS). cbn [mbind result_bind]. rewrite HM.
  cbn [ok_or mbind result_bind]. unfold introspect_image. cbn [m image_manifest mf_config desc_digest].
  rewrite (read_blob_stored sha256_hex sha256_hex_name L' _ HC). cbn [mbind result_bind]. rewrite HJ.
  cbn [mbind option_bind]. rewrite section_of_doc. cbn [ok_or mbind result_bind section_labels section_entrypoint].
  rewrite type_label, <- Hd. reflexivity.
Qed.
End emitted.

(** ** What the resolvers return *)

Section resolved.
Context (sha256_hex : str -> str) (parse_manifest : str -> option OciManifest)
        (parse_image : str -> option OciImageManifest) (parse_json : str -> option Value).
Context (parse_reference : str -> result str str) (is_file : Path -> bool) (search : SearchRegistries).

(** The layers of an artifact are those of the manifest its name denotes. *)
Definition denotes (R : LayerResolve) (L : ImageLayout) (arch : Architecture) (art : Artifact) : Prop :=
  exists r, (art_provenance art = Provenance_Cache r \/ art_provenance art = Provenance_Registry r)
    /\ read_layer_paths sha256_hex parse_manifest parse_image R L r arch = Ok (art_layers art).

Lemma try_candidates_denotes registry R arch candidates : forall tried L art L',
  try_candidates sha256_hex parse_manifest parse_image parse_reference registry R arch candidates tried L = (Ok art, L') ->
  denotes R L' arch art.
Proof.
  induction candidates as [|c candidates IH]; intros tried L art L' E; [done|]. cbn [try_candidates] in E.
  destruct (parse_reference c) as [canonical|]; [|by eapply IH]. unfold try_candidate in E.
  destruct (match layout_lookup_ref L canonical with Some _ => _ | None => _ end) as [layers|] eqn:Ec.
  { injection E as <- <-. exists canonical. split; [by left|]. by destruct (layout_lookup_ref L canonical). }
  destruct registry as [pull|]; [|cbv beta iota in E; by eapply IH]. unfold pull_from_registry in E.
  destruct (pull canonical L) as [[u|] L1]; cbn [map_err mbind result_bind] in E; [|by eapply IH].
  destruct (read_layer_paths _ _ _ R L1 canonical arch) as [layers|] eqn:Er; cbn [mbind result_bind] in E; [|by eapply IH].
  injection E as <- <-. exists canonical. auto.
Qed.
End resolved.

(** Nothing but a kernel or a bootable image is taken for the kernel
    of a build.  Whatever the registries answer, the artifact a FROM resolves to
    is an image of the layout labelled as one of the two, and its layers, at
    least one, are those of the image's manifest; an image whose first candidate
    name is in the layout is resolved without asking any registry. *)
Theorem resolved_kernel_labelled sha256_hex parse_manifest parse_image parse_json parse_reference is_file search registry
    reference arch registry_ref L :
  let resolve := resolve_from_kernel sha256_hex parse_manifest parse_image parse_json parse_reference is_file search in
  (forall art L', resolve registry reference arch None registry_ref L = (Ok art, L') ->
     exists r profile e m names,
       (art_provenance art = Provenance_Cache r \/ art_provenance art = Provenance_Registry r)
       /\ introspect sha256_hex parse_manifest parse_json L' r = Ok profile
       /\ (kind profile = L0Kind_Bootable \/ kind profile = L0Kind_Payload Payload_Kernel)
       /\ layout_lookup_ref L' r = Some e
       /\ read_image_manifest sha256_hex parse_manifest parse_image L' r (ie_digest e) arch = Ok m
       /\ blob_paths (mf_layers m) = Ok names /\ art_layers art = BlobFile <$> names /\ art_layers art <> [])
  /\ (forall c cs canonical layers,
     resolution_candidates (default reference registry_ref) search = c :: cs -> parse_reference c = Ok canonical ->
     (forall e, parse_reference (default reference registry_ref) <> Err e) ->
     is_Some (layout_lookup_ref L canonical) ->
     read_layer_paths sha256_hex parse_manifest parse_image (FromKernelResolver sha256_hex parse_manifest parse_json)
       L canonical arch = Ok layers ->
     resolve registry reference arch None registry_ref L
     = (Ok {| art_layers := layers; art_provenance := Provenance_Cache canonical |}, L)).
Proof.
  intros resolve. unfold resolve, resolve_from_kernel, resolve_layers. split.
  - intros art L' E. destruct (parse_reference _); [|done]. apply try_candidates_denotes in E as (r & Hp & E).
    unfold read_layer_paths in E. apply bind_Ok in E as (u & Hc & (e & He & (m & Hm & E)%bind_Ok)%bind_Ok).
    cbn [post_pull_check FromKernelResolver] in Hc. apply bind_Ok in Hc as (profile & Hi & Hk).
    destruct (introspect _ _ _ L' r) as [p|] eqn:Ei; [|done]. injection Hi as ->.
    destruct (layout_lookup_ref L' r) as [e'|] eqn:El; [|done]. injection He as ->.
    destruct (is_nil (mf_layers m)) eqn:En; [done|]. apply bind_Ok in E as (names & Hn & E).
    destruct (blob_paths (mf_layers m)) as [ns|] eqn:Eb; [|done]. injection Hn as ->. injection E as E.
    exists r, profile, e, m, names. split_and!; try done.
    + case_bool_decide; [by left|]. case_bool_decide; [by right|done].
    + rewrite <- E. destruct (mf_layers m) as [|d ds]; [done|]. cbn [blob_paths] in Eb.
      apply bind_Ok in Eb as (n & _ & (ns & _ & [= <-])%bind_Ok). done.
  - intros c cs canonical layers Hcs Hc Hp [e He] Hr. destruct (parse_reference (default _ _)) as [x|e']; [|by destruct (Hp e')].
    rewrite Hcs. cbn [try_candidates]. rewrite Hc. unfold try_candidate. by rewrite He, Hr.
Qed.

(** ** A kernel in a layout *)

Module ResolveExample.
Definition layer : LayerSource :=
  {| layer_data := "x"; layer_media_type := media_type LayerCompression_Gzip; layer_diff_id := "sha256:0" |}.
Definition config : ImageConfig :=
  {| ic_architecture := "amd64"; ic_os := "linux"; ic_created := None; ic_author := None;
     ic_container := ContainerConfig_default; ic_history := []; ic_umf_type := L0Kind_Payload Payload_Kernel;
     ic_umf_spec := None |}.
Definition hex := ModelLayout.hexify.
Definition manifest : OciImageManifest := image_manifest hex [layer] "J" (sha256_digest hex "J").
Definition on (arch : str) : ImageIndexEntry :=
  {| ie_media_type := OCI_IMAGE_MEDIA_TYPE; ie_digest := sha256_digest hex "M"; ie_size := 1%Z;
     ie_platform := Some {| platform_os := "linux"; platform_architecture := arch; platform_variant := None |};
     ie_annotations := None |}.
Definition parse_manifest (b : str) : option OciManifest :=
  if decide (b = "M") then Some (OciManifest_Image manifest)
  else if decide (b = "X") then Some (OciManifest_ImageIndex [on "amd64"; on "arm64"]) else None.
Definition parse_image (b : str) : option OciImageManifest := if decide (b = "M") then Some manifest else None.
Definition parse_json (b : str) : option Value :=
  if decide (b = "J") then Some (config_value (config_doc [layer] config)) else None.
Definition parse_reference (s : str) : result str str :=
  Ok (if is_qualified s then s else "docker.io/library/" ++ s).

Definition store (name : str) (L : ImageLayout) : ImageLayout :=
  match emit_image hex (fun _ => "J") (fun _ => "M") [layer] config name L with Ok (_, L) => L | Err _ => L end.
Definition cached : ImageLayout := store "docker.io/library/k:1" empty_layout.
Definition pull (name : str) (L : ImageLayout) : result RegistryError unit * ImageLayout := (Ok tt, store name L).

Definition kernel_of (search : list str) (net : bool) (reference : str) (L : ImageLayout) : result ResolveError Artifact * ImageLayout :=
  resolve_from_kernel hex parse_manifest parse_image parse_json parse_reference (fun _ => false) search
    (if net then Some pull else None) reference X86_64 None None L.

Lemma resolved_kernel_labelled_witness :
  exists profile art, kernel_of [] true "k:1" cached = (Ok art, cached)
    /\ art_layers art = [BlobFile (hex "x")]
    /\ introspect hex parse_manifest parse_json cached "docker.io/library/k:1" = Ok profile
    /\ kind profile = L0Kind_Payload Payload_Kernel.
Proof.
  destruct (resolved_kernel_labelled hex parse_manifest parse_image parse_json parse_reference (fun _ => false) []
    (Some pull) "k:1" X86_64 None cached) as [H1 H2].
  assert (E : kernel_of [] true "k:1" cached
              = (Ok {| art_layers := [BlobFile (hex "x")]; art_provenance := Provenance_Cache "docker.io/library/k:1" |}, cached)).
  { apply (H2 ("k:1" : str) [] ("docker.io/library/k:1" : str)); [reflexivity|reflexivity|discriminate| |].
    - vm_compute. eexists. reflexivity.
    - vm_compute. reflexivity. }
  destruct (H1 _ _ E) as (r & profile & e & m & names & Hp & Hi & Hk & _).
  exists profile, {| art_layers := [BlobFile (hex "x")]; art_provenance := Provenance_Cache "docker.io/library/k:1" |}.
  split; [exact E|]. split; [reflexivity|]. destruct Hp as [[= <-]|[=]]. split; [exact Hi|].
  destruct Hk as [Hk|Hk]; [|exact Hk]. exfalso. revert Hi Hk. vm_compute. intros [= <-]. discriminate.
Defined.

(** The image is in the layout, but a registry of the search list is asked
    first, and its image taken. *)
Example network_before_cache :
  exists art, (kernel_of ["r.example" : str] true "k:1" cached).1 = Ok art
    /\ art_provenance art = Provenance_Registry "r.example/k:1".
Proof. eexists. split; [vm_compute; reflexivity|reflexivity]. Qed.

(** A kernel published for several platforms is recognised as a kernel, and not
    resolved as one. *)
Definition indexed : ImageLayout :=
  match write_blob hex "X" cached with
  | Ok (d, L) => upsert_ref "docker.io/library/multi:1"
      {| ie_media_type := "index"; ie_digest := d; ie_size := 1%Z; ie_platform := None; ie_annotations := None |} L
  | Err _ => cached
  end.
Example kernel_index_refused :
  (exists p, introspect_for_platform hex parse_manifest parse_image parse_json indexed "docker.io/library/multi:1" X86_64 = Ok p
     /\ kind p = L0Kind_Payload Payload_Kernel)
  /\ (kernel_of [] false "multi:1" indexed).1
     = Err (ResolveError_NotFound "cache docker.io/library/multi:1, registry docker.io/library/multi:1 (skipped — no client)").
Proof. split; [eexists; split|]; vm_compute; reflexivity. Qed.

(** A configuration whose labels are an explicit [null]. *)
Example null_labels_unreadable :
  ImageConfigDoc_from (Value_Object {[ ("config" : str) := Value_Object {[ ("Labels" : str) := Value_Null ]} ]}) = None.
Proof. reflexivity. Qed.
End ResolveExample.
