(* ===== verification/RunShell.v ===== *)
(** * RunShell: the command a RUN step of a bootable build gives to its guest
    (crates/umf-builder/src/bootable/run.rs).

    The guest hands the text to [/bin/sh -c].  [sh_fields] is the part of the
    shell's word splitting the code relies on: blanks, single quotes and the
    backslash (POSIX, 2.2 and 2.6.5).  The theorem says that the shell reads back
    exactly the words the recipe gave, whatever bytes they have. *)

From stdpp Require Import gmap list.
From S2P Require Import Prelude RustStr Target Subst Ast ArgScope.

(** ** The code *)

(** Over bytes: no byte of a longer character is a quote. *)
Definition quote_byte (c : ascii) : str := if Ascii.eqb c "'" then "'\''" else [c].
Definition shell_quote (value : str) : str := "'" ++ concat (quote_byte <$> value) ++ "'".

Definition render_run_command (command : RunCommand) (arg_scope : scope) : str :=
  match command with
  | RunCommand_Shell s => subst_with arg_scope (value s)
  | RunCommand_Exec argv => join " " ((fun a => shell_quote (subst_with arg_scope (value a))) <$> argv)
  end.

Definition default_shell : list str := ["/bin/sh" : str; "-c" : str].
Definition resolve_shell (argv : list (Spanned str)) : list str :=
  match argv with [] => default_shell | _ => value <$> argv end.
Definition is_default_shell (shell : list str) : bool := bool_decide (shell = default_shell).

(** The command in its directory. *)
Definition snippet_of (command : str) (workdir : option str) : str :=
  match workdir with
  | Some dir => "cd " ++ shell_quote dir ++ " && " ++ command
  | None => command
  end.

Definition wrap_run_command (command : str) (shell : list str) (user workdir : option str) : str :=
  let default_shell := is_default_shell shell in
  if default_shell && bool_decide (user = None) && bool_decide (workdir = None) then command
  else
    let snippet := snippet_of command workdir in
    let interpreted :=
      if negb default_shell || bool_decide (user <> None)
      then join " " (shell_quote <$> shell) ++ " " ++ shell_quote snippet
      else snippet in
    match user with
    | Some u => "runuser -u " ++ shell_quote u ++ " -- " ++ interpreted
    | None => interpreted
    end.

(** ** Word splitting *)

Definition plain (c : ascii) : bool := is_ascii_alphanumeric c || Ascii.eqb c "-".

(** [cur] is the word being read; [None] for text with any other syntax. *)
Fixpoint sh_scan (quoted : bool) (s : str) (cur : option str) (acc : list str) : option (list str) :=
  match s with
  | [] => if quoted then None else Some (acc ++ option_list cur)
  | c :: s =>
      if quoted then
        if Ascii.eqb c "'" then sh_scan false s cur acc else sh_scan true s (Some (default [] cur ++ [c])) acc
      else if Ascii.eqb c "'" then sh_scan true s (Some (default [] cur)) acc
      else if Ascii.eqb c "\" then
        match s with [] => None | d :: s => sh_scan false s (Some (default [] cur ++ [d])) acc end
      else if Ascii.eqb c " " then sh_scan false s None (acc ++ option_list cur)
      else if plain c then sh_scan false s (Some (default [] cur ++ [c])) acc
      else None
  end.
Definition sh_fields (s : str) : option (list str) := sh_scan false s None [].

Lemma scan_quoted v rest : forall cur acc,
  sh_scan true (concat (quote_byte <$> v) ++ "'" ++ rest) (Some cur) acc = sh_scan false rest (Some (cur ++ v)) acc.
Proof.
  induction v as [|c v IH]; intros cur acc; [by rewrite app_nil_r|].
  rewrite fmap_cons. cbn [concat]. rewrite <- app_assoc. unfold quote_byte at 1. destruct (Ascii.eqb_spec c "'") as [->|Hc].
  - change (sh_scan true (("'\''" : str) ++ ?r) (Some ?x) acc) with (sh_scan true r (Some (x ++ ["'"%char])) acc).
    rewrite IH. by rewrite <- app_assoc.
  - cbn [app sh_scan]. destruct (Ascii.eqb_spec c "'"); [done|]. cbn [default]. rewrite IH. by rewrite <- app_assoc.
Qed.

Lemma scan_quote v rest cur acc :
  sh_scan false (shell_quote v ++ rest) cur acc = sh_scan false rest (Some (default [] cur ++ v)) acc.
Proof.
  unfold shell_quote. rewrite <- !app_assoc.
  change (sh_scan false (("'" : str) ++ ?r) cur acc) with (sh_scan true r (Some (default [] cur)) acc). apply scan_quoted.
Qed.

(** Quoted words, separated by blanks, followed by another one. *)
Lemma scan_words l rest : forall acc,
  sh_scan false (join " " (shell_quote <$> l) ++ " " ++ rest) None acc = sh_scan false rest None (acc ++ l).
Proof.
  induction l as [|x l IH]; intros acc; [by rewrite app_nil_r; cbn; rewrite app_nil_r|].
  rewrite fmap_cons. destruct l as [|y l].
  - cbn [fmap list_fmap join]. rewrite scan_quote. done.
  - change (join " " (shell_quote x :: (shell_quote <$> y :: l))) with (shell_quote x ++ " " ++ join " " (shell_quote <$> y :: l)).
    rewrite <- !app_assoc, scan_quote. change (sh_scan false (" " ++ ?r) (Some ?c) acc) with (sh_scan false r None (acc ++ [c])).
    rewrite IH. by rewrite <- app_assoc.
Qed.

Lemma scan_words_end l : forall acc, sh_scan false (join " " (shell_quote <$> l)) None acc = Some (acc ++ l).
Proof.
  induction l as [|x l IH]; intros acc; [done|]. rewrite fmap_cons. destruct l as [|y l].
  - cbn [fmap list_fmap join]. rewrite <- (app_nil_r (shell_quote x)), scan_quote. done.
  - change (join " " (shell_quote x :: (shell_quote <$> y :: l))) with (shell_quote x ++ " " ++ join " " (shell_quote <$> y :: l)).
    rewrite scan_quote. change (sh_scan false (" " ++ ?r) (Some ?c) acc) with (sh_scan false r None (acc ++ [c])).
    rewrite IH. by rewrite <- app_assoc.
Qed.

(** A shell on a snippet. *)
Lemma interpreted_words shell snippet acc :
  sh_scan false (join " " (shell_quote <$> shell) ++ " " ++ shell_quote snippet) None acc = Some (acc ++ shell ++ [snippet]).
Proof. rewrite scan_words, <- (app_nil_r (shell_quote snippet)), scan_quote. cbn. by rewrite <- app_assoc. Qed.

(** The words a user's name puts in front. *)
Definition as_user (user : option str) : list str :=
  match user with Some u => ["runuser" : str; "-u" : str; u; "--" : str] | None => [] end.

(** The guest's shell reads back the words of the recipe.  The
    rendering of an exec-form RUN splits into its expanded words, whatever they
    contain; a command under a user or another shell splits into the words that
    run that shell, as that user, on the command in its directory; and with
    neither, the command reaches the guest as it is, in its directory. *)
Theorem run_words_preserved :
  (forall argv sc, sh_fields (render_run_command (RunCommand_Exec argv) sc) = Some ((fun a => subst_with sc (value a)) <$> argv))
  /\ (forall command shell user workdir,
        if negb (is_default_shell shell) || bool_decide (user <> None)
        then sh_fields (wrap_run_command command shell user workdir)
             = Some (as_user user ++ shell ++ [snippet_of command workdir])
        else wrap_run_command command shell user workdir = snippet_of command workdir)
  /\ (forall dir, sh_fields ("cd " ++ shell_quote dir) = Some ["cd" : str; dir]).
Proof.
  split_and!.
  - intros argv sc. unfold sh_fields. cbn [render_run_command].
    rewrite (list_fmap_compose (fun a => subst_with sc (value a)) shell_quote argv
             : (fun a => shell_quote (subst_with sc (value a))) <$> argv = _). apply scan_words_end.
  - intros command shell user workdir. unfold wrap_run_command, sh_fields. destruct user as [u|].
    + rewrite (bool_decide_true (Some u <> None)), (bool_decide_false (Some u = None)), orb_true_r, andb_false_r by done.
      cbn [andb]. change (sh_scan false ("runuser -u " ++ ?r) None []) with (sh_scan false r None ["runuser" : str; "-u" : str]).
      rewrite scan_quote. change (sh_scan false (" -- " ++ ?r) (Some ?c) ?a) with (sh_scan false r None ((a ++ [c]) ++ ["--" : str])).
      apply interpreted_words.
    + rewrite (bool_decide_false (None <> None)), (bool_decide_true (@None str = None)), orb_false_r, andb_true_r by auto.
      destruct (is_default_shell shell); cbn [negb andb]; [|apply interpreted_words].
      destruct workdir; [by rewrite bool_decide_false|done].
  - intros dir. unfold sh_fields. change (sh_scan false ("cd " ++ ?r) None []) with (sh_scan false r None ["cd" : str]).
    by rewrite <- (app_nil_r (shell_quote dir)), scan_quote.
Qed.
