(* ===== verification/BootTree.v ===== *)
(** * BootTree: the kernel and the initramfs of a staging tree.

    Kernel.v and Initrd.v (crates/umf-builder/src/kernel.rs, initrd.rs) work on
    listings and on the contents of files; here these are read from a directory
    of the host's file system, as [detect_kernel_layout] and
    [generate_initramfs_with_flavor] read them from the staging directory. *)

From stdpp Require Import gmap list.
From S2P Require Import Prelude RustStr HostFs BuildState Materialize Kernel InitrdModules Initrd Staging BuildStaging.

(** ** What the host adds

    The encoder, the permission bits of a file, and the texts of errors. *)
Class TreeHost := {
  gzip_bytes : str -> result str str;
  mode_of : Fs -> list str -> Z;
  io_text : IoError -> str
}.

(** The kind of an entry, links not followed. *)
Definition file_type (n : Node) : FileType :=
  match n with NFile _ => FileType_File | NDir _ => FileType_Dir | _ => FileType_Other end.

(** The part of [p] below [l]. *)
Definition below (l p : list str) : option (list str) :=
  if bool_decide (l `prefix_of` p) then Some (drop (length l) p) else None.

Section tree.
Context {TH : TreeHost}.

(** The directories below the staging directory [t]. *)
Definition listings (fs : Fs) (t : list str) : Listings := fun p =>
  match resolve true fs (absolute (t ++ p)) with
  | Ok l =>
      if is_dir_node (fs !! l)
      then Some (Ok (omap (fun c => (fun n => (c, file_type n)) <$> fs !! (l ++ [c])) (children fs l)))
      else None
  | Err _ => None
  end.

Definition detect_kernel (t : list str) : fse KernelLayoutError KernelLayout :=
  fun fs => (detect_kernel_layout (listings fs t), fs).

(** The busybox of the tree, when it is inside. *)
Definition busybox_of (fs : Fs) (t : list str) : option (result str (str * Z)) :=
  match contained_read fs (absolute t) (absolute (t ++ ["bin" : str; "busybox" : str])) with
  | Some l => match fs !! l with Some (NFile data) => Some (Ok (data, mode_of fs l)) | _ => None end
  | None => None
  end.

(** [WalkDir]: the regular files below [modules_root]/kernel, by their paths from
    [modules_root]; no link below it is followed. *)
Definition module_files (fs : Fs) (modules_root : list str) : option (list path) :=
  match resolve true fs (absolute (modules_root ++ ["kernel" : str])) with
  | Ok l =>
      if is_dir_node (fs !! l)
      then Some (omap (fun '(p, n) => match n, below l p with
                                      | NFile _, Some r => Some (("kernel" : str) :: r)
                                      | _, _ => None
                                      end) (map_to_list fs))
      else None
  | Err _ => None
  end.

Definition modules_dep_of (fs : Fs) (modules_root : list str) : option str :=
  match (read_file (absolute (modules_root ++ ["modules.dep" : str])) fs).1 with
  | Ok bytes => to_str bytes
  | Err _ => None
  end.

Definition initramfs_of (t : list str) (kernel : KernelLayout) (flavor : InitramfsFlavor) : fse InitrdError (str * InitrdReport) :=
  fun fs =>
    let modules_root := t ++ modules kernel in
    (match generate_initramfs_with_flavor (busybox_of fs t)
             (fun m => map_err io_text (read_file (absolute (modules_root ++ m)) fs).1) gzip_bytes
             kernel (module_files fs modules_root) (modules_dep_of fs modules_root) flavor with
     | Val r => r
     | _ => Err (InitrdIo [])
     end, fs).
End tree.
