(* ===== verification/BootRun.v ===== *)
(** * BootRun: the RUN steps of a bootable build
    (crates/umf-builder/src/vm_runner.rs and bootable/run.rs).

    A step writes its command and environment into the staging tree, boots a
    micro-VM on it and reads the exit code the guest left there.  The virtual
    machine and the network behind it are a class; what the guest does to the
    tree is arbitrary. *)

From Stdlib Require Import ZifyBool.
From stdpp Require Import gmap list.
From S2P Require Import Prelude RustStr Target Subst Validation Identifiers Paths Ast ArgScope Directives EngineBuild Kernel HostFs.
From S2P Require Import InitrdModules Initrd Staging BuildStaging BootTree RunShell.
#[local] Open Scope Z_scope.

(** ** Resources of a step *)

Definition MIN_RUN_MEMORY_MIB : N := 1024.
Definition MAX_DEFAULT_RUN_MEMORY_MIB : N := 8192.
Definition RUN_TIMEOUT_BASE_SECS : N := 300.
Definition RUN_TCG_TIMEOUT_FACTOR : N := 4.

(** [env_u32] and [env_u64], of the variable's value. *)
Definition env_positive (max : N) (var : option str) : option N :=
  v ← var; n ← parse_unsigned max (trim v); if (0 <? n)%N then Some n else None.

Definition parse_meminfo_total_mib (contents : str) : option N :=
  (fix go (ls : list str) :=
     match ls with
     | [] => None
     | line :: ls =>
         match strip_prefix "MemTotal:" line with
         | Some rest =>
             word ← head (split_whitespace rest); kb ← parse_unsigned u64_max word;
             if (kb / 1024 <=? u32_max)%N then Some (kb / 1024)%N else None
         | None => go ls
         end
     end) (lines contents).

Definition default_run_cpus (var : option str) (parallelism : option N) : N :=
  match env_positive u32_max var with
  | Some n => n
  | None => N.max (match parallelism with Some n => N.min n u32_max | None => 2 end) 1
  end.

Definition default_run_memory_mib (var meminfo : option str) : N :=
  match env_positive u32_max var with
  | Some m => N.max m MIN_RUN_MEMORY_MIB
  | None =>
      let host := default 0%N (meminfo ≫= parse_meminfo_total_mib) in
      N.min (N.max (host / 2) MIN_RUN_MEMORY_MIB) MAX_DEFAULT_RUN_MEMORY_MIB
  end.

Definition default_run_timeout (var : option str) (kvm_available : bool) : N :=
  match env_positive u64_max var with
  | Some secs => secs
  | None => if kvm_available then RUN_TIMEOUT_BASE_SECS else RUN_TIMEOUT_BASE_SECS * RUN_TCG_TIMEOUT_FACTOR
  end.

(** The variables and files of the host these come from. *)
Record RunHost := {
  var_cpus : option str; var_memory : option str; var_timeout : option str;
  parallelism : option N; meminfo : option str; resolv_conf : option str; host_arch : Architecture
}.

Record RunStepConfig := {
  step_command : str;
  step_env : gmap str str;
  qemu_path : Path;
  step_kvm : bool;
  memory_mib : N;
  cpus : N;
  timeout : N
}.

Definition RunStepConfig_new (h : RunHost) (qemu : Path) (kvm : bool) (command : str) (env : gmap str str) : RunStepConfig :=
  {| step_command := command; step_env := env; qemu_path := qemu; step_kvm := kvm;
     memory_mib := default_run_memory_mib (var_memory h) (meminfo h);
     cpus := default_run_cpus (var_cpus h) (parallelism h);
     timeout := default_run_timeout (var_timeout h) kvm |}.

(** Every step gets a machine that can run: memory, a processor and time. *)
Lemma resources_positive h qemu kvm command env :
  let c := RunStepConfig_new h qemu kvm command env in
  (1024 <= memory_mib c)%N /\ (1 <= cpus c)%N /\ (1 <= timeout c)%N
  /\ (var_memory h = None -> (memory_mib c <= 8192)%N).
Proof.
  cbn. unfold default_run_memory_mib, default_run_cpus, default_run_timeout, env_positive.
  unfold MIN_RUN_MEMORY_MIB, MAX_DEFAULT_RUN_MEMORY_MIB, RUN_TIMEOUT_BASE_SECS, RUN_TCG_TIMEOUT_FACTOR.
  assert (Hp : forall max var, match (v ← var; n ← parse_unsigned max (trim v); if (0 <? n)%N then Some n else None) with
                               | Some n => (0 < n)%N | None => True end).
  { intros max [v|]; [|done]. simpl. destruct (parse_unsigned max (trim v)) as [n|]; [|done]. simpl.
    destruct (0 <? n)%N eqn:E; [by apply N.ltb_lt|done]. }
  pose proof (Hp u32_max (var_memory h)). pose proof (Hp u32_max (var_cpus h)). pose proof (Hp u64_max (var_timeout h)).
  split_and!.
  - destruct (v ← var_memory h; _); lia.
  - destruct (v ← var_cpus h; _); lia.
  - destruct (v ← var_timeout h; _); [lia|destruct kvm; lia].
  - intros ->. simpl. lia.
Qed.

(** ** Small helpers *)

Definition contains_str (pat s : str) : bool := bool_decide (is_Some (split_once_str pat s)).

Definition arch_from_qemu_path (host : Architecture) (qemu : Path) : Architecture :=
  let name := default [] (file_name qemu) in
  if contains_str "aarch64" name || contains_str "arm64" name then Aarch64
  else if contains_str "x86_64" name || contains_str "amd64" name then X86_64
  else host.

Definition host_nameservers (conf : option str) : list str :=
  match conf with
  | None => []
  | Some conf =>
      filter (fun ns => starts_with "127." ns = false)
        (omap (fun l => if starts_with "nameserver" l then split_whitespace l !! 1%nat else None) (lines conf))
  end.

(** [str::parse::<i32>]. *)
Definition parse_i32 (s : str) : option Z :=
  match s with
  | "-"%char :: body =>
      match body with
      | "+"%char :: _ => None
      | _ => n ← parse_unsigned 2147483648 body; Some (- Z.of_N n)
      end
  | _ => Z.of_N <$> parse_unsigned 2147483647 s
  end.

(** ** One step *)

Record NetInfo := { guest_ip : str; gateway : str; netmask : str; tap_name : str }.

Record VmSpec := {
  v_arch : Architecture;
  v_kernel : Path; v_initrd : Path; v_cmdline : str;
  v_memory_mib : N; v_cpus : N; v_kvm : bool;
  v_tap : str;
  v_share : Path; v_mount_tag : str;
  v_serial : Path
}.

Inductive VmEnd := VmEnd_Exit (code : option Z) | VmEnd_Error (e : str) | VmEnd_Timeout.

(** The policed network, and the machine: how it ended and what the guest left
    behind. *)
Class MicroVm := {
  setup_policed_egress : result str NetInfo;
  vm_run : N -> VmSpec -> Fs -> VmEnd * Fs
}.

Inductive RunStepError :=
| QemuMissing
| QemuAbnormalExit (code : option Z)
| GuestNeverFinished
| MalformedExitCode (raw : str)
| Egress (e : str)
| RunStep_Initrd (e : InitrdError)
| RunStep_Vmm (e : str)
| RunStep_Io (e : IoError)
| Timeout (secs : N).

Record RunStepResult := { exit_code : Z; serial_output : str }.

Definition of_result {E A} (r : result E A) : fse E A := fun fs => (r, fs).
(** [let _ = ...]. *)
Definition ignore {E A} (m : fsio A) : fse E unit := fun fs => (Ok tt, (m fs).2).

Definition host_is_file (fs : Fs) (p : Path) : bool :=
  match resolve true fs p with Ok l => match fs !! l with Some (NFile _) => true | _ => false end | Err _ => false end.

(** The entries of a [BTreeMap], in its order. *)
Definition btree_entries (m : gmap str str) : list (str * str) :=
  (fun k => (k, default [] (m !! k))) <$> sort_strs (map_to_list m).*1.

Definition env_lines (env : gmap str str) : str := join [lf] ((fun '(k, v) => k ++ "=" ++ v) <$> btree_entries env).

Definition net_file (n : NetInfo) (servers : list str) : str :=
  "UMF_IP=" ++ guest_ip n ++ lf :: "UMF_GW=" ++ gateway n ++ lf :: "UMF_MASK=" ++ netmask n ++ lf :: "UMF_PREFIX=29" ++
  lf :: "UMF_DNS=" ++ [dquote] ++ join " " servers ++ dquote :: [lf].

Section step.
Context {TH : TreeHost} {TF : TempFiles} {V : MicroVm} (h : RunHost).

Notation io := (lift RunStep_Io).
Notation helper dir name := (absolute dir ++ [Normal name]).

(** [scratch] holds the initramfs and the console. *)
Definition step_spec (staging scratch : list str) (kernel : KernelLayout) (c : RunStepConfig) (net : NetInfo) : VmSpec :=
  let arch := arch_from_qemu_path (host_arch h) (qemu_path c) in
  {| v_arch := arch; v_kernel := absolute (staging ++ vmlinuz kernel); v_initrd := helper scratch "initrd.img";
     v_cmdline := "console=" ++ serial_console arch ++ " quiet panic=1"; v_memory_mib := memory_mib c; v_cpus := cpus c;
     v_kvm := step_kvm c; v_tap := tap_name net; v_share := absolute staging; v_mount_tag := "umfstage";
     v_serial := helper scratch "serial.log" |}.

(** What the guest finds in its tree. *)
Definition write_helpers (staging : list str) (c : RunStepConfig) : fse RunStepError unit :=
  io (write_file (helper staging ".umf-cmd") (step_command c)) ;;
  (if bool_decide (step_env c = ∅) then mret tt
   else io (write_file (helper staging ".umf-env") (env_lines (step_env c)))) ;;
  ignore (remove_file (helper staging ".umf-run-exit")).

Definition remove_helpers (staging : list str) : fse RunStepError unit :=
  ignore (remove_file (helper staging ".umf-cmd")) ;;
  ignore (remove_file (helper staging ".umf-env")) ;;
  ignore (remove_file (helper staging ".umf-run-exit")).

Definition start_vm (c : RunStepConfig) (spec : VmSpec) : fse RunStepError VmEnd :=
  fun fs => let '(e, fs) := vm_run (timeout c) spec fs in (Ok e, fs).

(** The initramfs in place, the network, and the run of the machine. *)
Definition boot_step (staging scratch : list str) (kernel : KernelLayout) (c : RunStepConfig) (initrd : str)
    : fse RunStepError VmEnd :=
  io (write_file (helper scratch "initrd.img") initrd) ;;
  net ← of_result (map_err Egress setup_policed_egress);
  io (write_file (helper staging ".umf-net") (net_file net (host_nameservers (resolv_conf h)))) ;;
  start_vm c (step_spec staging scratch kernel c net).

(** The exit code the guest left, and its console. *)
Definition read_outcome (staging : list str) : fse RunStepError Z :=
  raw ← lift (fun _ => GuestNeverFinished) (read_file (helper staging ".umf-run-exit"));
  of_result (ok_or (parse_i32 (trim raw)) (MalformedExitCode raw)).
Definition read_serial (scratch : list str) : fse RunStepError str := fun fs =>
  (Ok match (read_file (helper scratch "serial.log") fs).1 with Ok s => s | Err _ => [] end, fs).

Definition is_qemu (p : Path) : fse RunStepError bool := fun fs => (Ok (host_is_file fs p), fs).

Definition run_step_vm (staging : list str) (kernel : KernelLayout) (c : RunStepConfig) : fse RunStepError RunStepResult :=
  qemu ← is_qemu (qemu_path c);
  if negb qemu then throw QemuMissing
  else
    write_helpers staging c ;;
    '(initrd, _) ← convert RunStep_Initrd (initramfs_of staging kernel InitramfsFlavor_Run);
    with_tempdir RunStep_Io (fun scratch =>
      ended ← boot_step staging scratch kernel c initrd;
      match ended with
      | VmEnd_Timeout => throw (Timeout (timeout c))
      | VmEnd_Error e => throw (RunStep_Vmm e)
      | VmEnd_Exit code =>
          if negb (bool_decide (code = Some 0)) then throw (QemuAbnormalExit code)
          else
            code ← read_outcome staging;
            remove_helpers staging ;;
            serial ← read_serial scratch;
            mret {| exit_code := code; serial_output := serial |}
      end).
End step.

(** ** The steps of a stage *)

Inductive RunError :=
| RunError_RunWithoutQemu
| RunError_RunStep (e : RunStepError)
| RunError_RunStepFailed (command : str) (exit_code : Z) (serial_output : str)
| RunError_Io (e : IoError).

(** What the directives so far have set. *)
Record RunContext := {
  rc_env : gmap str str;
  rc_shell : list str;
  rc_user : option str;
  rc_workdir : option str;
  rc_scope : scope
}.
Definition RunContext_new (globals : scope) : RunContext :=
  {| rc_env := ∅; rc_shell := default_shell; rc_user := None; rc_workdir := None; rc_scope := globals |}.

(** The settings after a directive that runs nothing. *)
Definition set_context (build_args : scope) (d : Directive) (c : RunContext) : RunContext :=
  match d with
  | Directive_Arg a =>
      {| rc_env := rc_env c; rc_shell := rc_shell c; rc_user := rc_user c; rc_workdir := rc_workdir c;
         rc_scope := apply_arg_to_scope (rc_scope c) a build_args |}
  | Directive_Env e =>
      {| rc_env := <[as_str (value (env_key e)) := subst_with (rc_scope c) (as_str (value (env_value e)))]> (rc_env c);
         rc_shell := rc_shell c; rc_user := rc_user c; rc_workdir := rc_workdir c; rc_scope := rc_scope c |}
  | Directive_Shell s =>
      {| rc_env := rc_env c; rc_shell := resolve_shell (shell_argv s); rc_user := rc_user c; rc_workdir := rc_workdir c;
         rc_scope := rc_scope c |}
  | Directive_User u =>
      {| rc_env := rc_env c; rc_shell := rc_shell c; rc_user := Some (subst_with (rc_scope c) (as_str (value (user_name u))));
         rc_workdir := rc_workdir c; rc_scope := rc_scope c |}
  | Directive_Workdir w =>
      let requested := subst_with (rc_scope c) (as_str (value (workdir_path w))) in
      {| rc_env := rc_env c; rc_shell := rc_shell c; rc_user := rc_user c;
         rc_workdir := Some (resolve_workdir (default ("/" : str) (rc_workdir c)) requested); rc_scope := rc_scope c |}
  | _ => c
  end.

Section steps.
Context {TH : TreeHost} {TF : TempFiles} {V : MicroVm} (h : RunHost) (qemu : option Path) (kvm_available : bool) (build_args : scope).

(** A RUN in a context: its text for the guest. *)
Definition guest_command (c : RunContext) (command : RunCommand) : str :=
  wrap_run_command (render_run_command command (rc_scope c)) (rc_shell c) (rc_user c) (rc_workdir c).

Definition run_directive (staging : list str) (kernel : KernelLayout) (c : RunContext) (command : RunCommand)
    : fse RunError RunStepResult :=
  match qemu with
  | None => throw RunError_RunWithoutQemu
  | Some q =>
      let command := guest_command c command in
      fun fs =>
        match run_step_vm h staging kernel (RunStepConfig_new h q kvm_available command (rc_env c)) fs with
        | (Err e, fs) => (Err (RunError_RunStep e), fs)
        | (Ok r, fs) =>
            (if bool_decide (exit_code r = 0) then Ok r
             else Err (RunError_RunStepFailed command (exit_code r) (serial_output r)), fs)
        end
  end.

Fixpoint run_directives (staging : list str) (kernel : KernelLayout) (c : RunContext) (ds : list Directive)
    : fse RunError (list RunStepResult) :=
  match ds with
  | [] => mret []
  | Directive_Run r :: ds =>
      result ← run_directive staging kernel c (run_command r);
      reports ← run_directives staging kernel c ds;
      mret (result :: reports)
  | Directive_Workdir w :: ds =>
      let c := set_context build_args (Directive_Workdir w) c in
      lift RunError_Io (create_dirs [] (join_path (absolute staging) (components (trim_start "/" (default [] (rc_workdir c)))))) ;;
      run_directives staging kernel c ds
  | d :: ds => run_directives staging kernel (set_context build_args d c) ds
  end.

Definition run_all_run_directives (stage : Stage) (staging : list str) (kernel : KernelLayout) (globals : scope)
    : fse RunError (list RunStepResult) :=
  run_directives staging kernel (RunContext_new globals) (stage_directives stage).
End steps.

(** ** What the steps see

    The settings before a directive, and the reports of the steps, compose. *)
Definition context_after (build_args : scope) (ds : list Directive) (c : RunContext) : RunContext :=
  fold_left (fun c d => set_context build_args d c) ds c.

Lemma run_directives_app {TH : TreeHost} {TF : TempFiles} {V : MicroVm} h qemu kvm build_args staging kernel ds1 ds2 : forall c fs,
  run_directives h qemu kvm build_args staging kernel c (ds1 ++ ds2) fs
  = (r1 ← run_directives h qemu kvm build_args staging kernel c ds1;
     r2 ← run_directives h qemu kvm build_args staging kernel (context_after build_args ds1 c) ds2;
     mret (r1 ++ r2)) fs.
Proof.
  induction ds1 as [|d ds1 IH]; intros c fs; cbn [app].
  { cbn [context_after fold_left run_directives]. rewrite fse_bind_eq. cbn [mret fse_ret]. rewrite fse_bind_eq.
    destruct (run_directives h qemu kvm build_args staging kernel c ds2 fs) as [[r|] fs1]; reflexivity. }
  unfold context_after. cbn [fold_left]. fold (context_after build_args ds1 (set_context build_args d c)).
  destruct d; cbn [run_directives]; try apply IH; rewrite !fse_bind_eq.
  - destruct (lift _ _ fs) as [[]]; [|done]. rewrite IH. by rewrite fse_bind_eq.
  - destruct (run_directive _ _ _ _ _ _ _ fs) as [[r|] fs1]; [|done].
    rewrite !fse_bind_eq, IH, fse_bind_eq. destruct (run_directives _ _ _ _ _ _ c ds1 fs1) as [[r1|] fs2]; [|done].
    cbn [set_context]. unfold mret, fse_ret. rewrite !fse_bind_eq.
    destruct (run_directives _ _ _ _ _ _ (context_after build_args ds1 c) ds2 fs2) as [[]]; reflexivity.
Qed.

(** *** A guest that succeeds *)

Module RunExample.
Definition host : RunHost :=
  {| var_cpus := None; var_memory := None; var_timeout := None; parallelism := Some 4%N; meminfo := None;
     resolv_conf := Some ("nameserver 192.0.2.1" : str); host_arch := X86_64 |}.
Definition kernel : KernelLayout := layout_of "vmlinuz-6.6" "6.6".
Definition tree_at : list str := ["s" : str].
#[export] Instance toy_host : TreeHost := {| gzip_bytes := Ok; mode_of := fun _ _ => 493; io_text := fun _ => [] |}.
#[export] Existing Instance ModelTemp.model_temp.
#[export] Instance toy_vm : MicroVm := {|
  setup_policed_egress := Ok {| guest_ip := "10.70.0.2"; gateway := "10.70.0.1"; netmask := "255.255.255.248"; tap_name := "tap" |};
  vm_run := fun _ spec fs => (VmEnd_Exit (Some 0), (write_file (v_share spec ++ [Normal ".umf-run-exit"]) ("0" ++ [lf]) fs).2)
|}.
Definition before (extra : list (list str * Node)) : Fs :=
  list_to_map (extra ++ [([], NDir []); (["qemu-system-x86_64" : str], NFile "q"); (["s" : str], NDir []);
                         (["s" : str; "bin" : str], NDir []); (["s" : str; "bin" : str; "busybox" : str], NFile "b");
                         (["etc" : str], NDir []); (["etc" : str; "passwd" : str], NFile "root")]).
Definition config (env : gmap str str) : RunStepConfig :=
  RunStepConfig_new host (absolute ["qemu-system-x86_64" : str]) true "true" env.
Definition step_on (env : gmap str str) (extra : list (list str * Node)) : result RunStepError RunStepResult * Fs :=
  run_step_vm host tree_at kernel (config env) (before extra).

(** The helper files are removed, all but the network's: it stays in the tree,
    and in the image. *)
Example net_file_left :
  let '(r, fs) := step_on ∅ [] in
  r = Ok {| exit_code := 0; serial_output := [] |}
  /\ (fun n => fs !! [("s" : str); n]) <$> [".umf-cmd" : str; ".umf-env" : str; ".umf-run-exit" : str] = [None; None; None]
  /\ is_Some (fs !! ["s" : str; ".umf-net" : str]).
Proof. vm_compute. split; [reflexivity|]. split; [reflexivity|]. by eexists. Qed.

(** A layer that has a link for a helper file has the host write through it. *)
Example command_written_through_link :
  (step_on ∅ [(["s" : str; ".umf-cmd" : str], NLink (absolute ["etc" : str; "passwd" : str]))]).2
    !! ["etc" : str; "passwd" : str] = Some (NFile "true").
Proof. vm_compute. reflexivity. Qed.

(** The environment is sourced by the guest's shell, and its values are not
    quoted. *)
Example env_unquoted : env_lines {[ ("A" : str) := ("x y" : str) ]} = "A=x y".
Proof. vm_compute. reflexivity. Qed.
End RunExample.
