(* ===== verification/RuntimeConfig.v ===== *)
(** * RuntimeConfig: the firewall of EXPOSE in a bootable image
    (crates/umf-builder/src/runtime_config.rs and runtime_writer.rs), on the file
    system of HostFs.v. *)

From stdpp Require Import gmap list.
From S2P Require Import Prelude RustStr RustStrFacts Target Validation Identifiers Ast HostFs Staging BuildStaging.
From S2P Require HostNet Compile.

(** ** Errors and reports *)

(** [ExposeUnenforceable], with its two texts as two constructors. *)
Inductive RuntimeConfigError :=
| EntrypointNone
| NoServiceManager
| NoNftBinary
| RuntimeConfigError_Io (e : IoError).

Inductive InitSystemKind := InitSystemKind_Systemd | InitSystemKind_OpenRc | InitSystemKind_Binary.

Record RuntimeConfigReport := { init_system : option InitSystemKind; exposed_ports : nat }.

Abbreviation locations := (list (list str)).
Definition NFT_BINARY_PATHS : locations :=
  [["usr" : str; "sbin" : str; "nft" : str]; ["sbin" : str; "nft" : str]; ["usr" : str; "bin" : str; "nft" : str]; ["bin" : str; "nft" : str]].

Definition nft_binary_present (fs : Fs) (root : Path) : bool :=
  existsb (fun rel => match resolve true fs (root ++ (Normal <$> rel)) with
                      | Ok l => bool_decide (is_Some (fs !! l)) | Err _ => false end) NFT_BINARY_PATHS.

Fixpoint pick_init_system (ds : list Directive) : result RuntimeConfigError (option InitSystemKind) :=
  match ds with
  | [] => Ok (Some InitSystemKind_Systemd)
  | Directive_Entrypoint ep :: _ =>
      match entrypoint_init ep with
      | EntrypointInit_Systemd => Ok (Some InitSystemKind_Systemd)
      | EntrypointInit_OpenRc => Ok (Some InitSystemKind_OpenRc)
      | EntrypointInit_Path _ | EntrypointInit_Exec _ => Ok (Some InitSystemKind_Binary)
      | EntrypointInit_None => Err EntrypointNone
      end
  | _ :: ds => pick_init_system ds
  end.

Definition exposes_of (ds : list Directive) : list (N * ExposeProtocol) :=
  omap (fun d => match d with Directive_Expose e => Some (expose_port e, expose_protocol e) | _ => None end) ds.

(** ** The rules *)

Definition expose_rule (e : N * ExposeProtocol) : str :=
  "        " ++ (match e.2 with ExposeProtocol_Tcp => "tcp" | ExposeProtocol_Udp => "udp" end : str) ++ " dport " ++ to_decimal e.1 ++ " accept".

Definition rules_head : list str := bytes_of <$>
  ["# Generated by UMF builder — UMF EXPOSE directives."; "# Default-deny inbound; only explicitly-exposed ports are reachable.";
   "table inet umf {"; "    chain input {"; "        type filter hook input priority filter; policy drop;";
   "        iif lo accept"; "        ct state established,related accept"; "        ip protocol icmp accept";
   "        ip6 nexthdr ipv6-icmp accept"].
Definition rules_tail : list str := ["    }" : str; "}" : str].

Definition text_of (ls : list str) : str := concat ((fun l => l ++ [lf]) <$> ls).
Definition nft_rules (exposes : list (N * ExposeProtocol)) : str := text_of (rules_head ++ (expose_rule <$> exposes) ++ rules_tail).
Definition nft_conf : str := text_of
  ["#!/usr/sbin/nft -f" : str; "# Generated by UMF builder. Loads the UMF EXPOSE default-deny ruleset." : str; "flush ruleset" : str;
   "include " ++ [dquote] ++ "/etc/nftables.d/*.nft" ++ [dquote]].

Definition nft_dir : list str := ["etc" : str; "nftables.d" : str].
Definition write_nftables (root : Path) (exposes : list (N * ExposeProtocol)) : fsio unit :=
  create_dirs [] (root ++ (Normal <$> nft_dir)) ;;
  write_file (root ++ (Normal <$> nft_dir) ++ [Normal "umf-expose.nft"]) (nft_rules exposes) ;;
  write_file (root ++ [Normal "etc"; Normal "nftables.conf"]) nft_conf.

(** ** The service *)

Inductive InitSystem := InitSystem_Systemd | InitSystem_OpenRc.

Definition enable_paths (init : InitSystem) (unit_name : str) : list str * Path :=
  match init with
  | InitSystem_Systemd => (["etc" : str; "systemd" : str; "system" : str; "multi-user.target.wants" : str],
                           absolute ["usr" : str; "lib" : str; "systemd" : str; "system" : str; unit_name])
  | InitSystem_OpenRc => (["etc" : str; "runlevels" : str; "default" : str], absolute ["etc" : str; "init.d" : str; unit_name])
  end.

(** [link.exists() || link.is_symlink()]. *)
Definition exists_or_link (p : Path) : fsio bool := reads (fun fs =>
  Ok (match resolve true fs p with Ok l => bool_decide (is_Some (fs !! l)) | Err _ => false end
      || match lstat fs p with Ok (NLink _) => true | _ => false end)).

Definition remove_existing (link : Path) : fsio unit :=
  there ← exists_or_link link;
  if there : bool then remove_file link else mret tt.

Definition write_enable_link (root : Path) (init : InitSystem) (unit_name : str) : fsio unit :=
  let '(dir_rel, target) := enable_paths init unit_name in
  let dir := root ++ (Normal <$> dir_rel) in
  create_dirs [] dir ;;
  let link := dir ++ [Normal unit_name] in
  remove_existing link ;;
  symlink target link.

Definition enable_service (root : Path) (init : option InitSystemKind) (service : ServiceUnitName) : fsio bool :=
  match init with
  | Some InitSystemKind_Systemd =>
      write_enable_link root InitSystem_Systemd (with_default_suffix service UnitSuffix_Service) ;; mret true
  | Some InitSystemKind_OpenRc => write_enable_link root InitSystem_OpenRc (bare_name service) ;; mret true
  | Some InitSystemKind_Binary | None => mret false
  end.

Definition nftables_unit : ServiceUnitName := {| unit_raw := "nftables"; suffix_start := None; unit_suffix := None |}.
(** [ServiceUnitName::new("nftables").expect(..)] does not panic. *)
Lemma nftables_unit_new : ServiceUnitName_new "nftables" = Ok nftables_unit.
Proof. reflexivity. Qed.

Definition is_service_manager (i : option InitSystemKind) : bool :=
  match i with Some InitSystemKind_Systemd | Some InitSystemKind_OpenRc => true | _ => false end.

Definition apply_runtime_config (stage : Stage) (root : Path) : fse RuntimeConfigError RuntimeConfigReport := fun fs =>
  match pick_init_system (stage_directives stage) with
  | Err e => (Err e, fs)
  | Ok init =>
      let exposes := exposes_of (stage_directives stage) in
      if bool_decide (exposes = []) then (Ok {| init_system := init; exposed_ports := 0 |}, fs)
      else if negb (is_service_manager init) then (Err NoServiceManager, fs)
      else if negb (nft_binary_present fs root) then (Err NoNftBinary, fs)
      else
        (lift RuntimeConfigError_Io (write_nftables root exposes) ;;
         lift RuntimeConfigError_Io (enable_service root init nftables_unit) ;;
         mret {| init_system := init; exposed_ports := length exposes |}) fs
  end.

(** ** What the rules accept *)

Lemma lines_text ls : Forall Compile.one_line ls -> lines (text_of ls) = ls.
Proof.
  induction 1 as [|l ls Hl _ IH]; [done|]. unfold text_of. rewrite fmap_cons. cbn [concat].
  rewrite <- app_assoc, Compile.lines_line by done. by rewrite <- IH at 2.
Qed.

Lemma decimal_one_line n : Compile.one_line (to_decimal n).
Proof. split; by apply HostNet.to_decimal_no. Qed.

Lemma expose_rule_one_line e : Compile.one_line (expose_rule e).
Proof.
  unfold expose_rule. repeat apply Compile.one_line_app; try apply decimal_one_line;
    try (apply Compile.one_line_lit; vm_compute; reflexivity).
  destruct e.2; apply Compile.one_line_lit; vm_compute; reflexivity.
Qed.

Lemma rules_lines exposes : lines (nft_rules exposes) = rules_head ++ (expose_rule <$> exposes) ++ rules_tail.
Proof.
  apply lines_text. apply Forall_app. split.
  - repeat (constructor; [apply Compile.one_line_lit; vm_compute; reflexivity|]). constructor.
  - apply Forall_app. split; [apply Forall_fmap, Forall_true; apply expose_rule_one_line|].
    repeat (constructor; [apply Compile.one_line_lit; vm_compute; reflexivity|]). constructor.
Qed.

(** A packet that comes in, as far as rules look at it. *)
Record Packet := {
  pk_loopback : bool; pk_tracked : bool; pk_icmp : bool; pk_icmp6 : bool; pk_transport : option ExposeProtocol; pk_dport : N
}.
Inductive Verdict := Accept | Drop.
#[export] Instance ExposeProtocol_eq_dec : EqDecision ExposeProtocol.
Proof. solve_decision. Defined.

(** The rules of the table, read the way the packet filter does, line by line: which
    packets a line accepts; [None] for a line that is not understood. *)
Definition words (line : str) : list str := filter (fun w => w <> []) (split " " line).
Definition read_protocol (w : str) : option ExposeProtocol :=
  if bool_decide (w = ("tcp" : str)) then Some ExposeProtocol_Tcp
  else if bool_decide (w = ("udp" : str)) then Some ExposeProtocol_Udp else None.
Definition read_rule (line : str) : option (Packet -> bool) :=
  match words line with
  | [a] => if bool_decide (a = ("accept" : str)) then Some (fun _ => true) else None
  | [a; b; c] => if bool_decide ([a; b; c] = ["iif" : str; "lo" : str; "accept" : str]) then Some pk_loopback else None
  | [a; b; c; d] =>
      if bool_decide ([a; b; c; d] = ["ct" : str; "state" : str; "established,related" : str; "accept" : str]) then Some pk_tracked
      else if bool_decide ([a; b; c; d] = ["ip" : str; "protocol" : str; "icmp" : str; "accept" : str]) then Some pk_icmp
      else if bool_decide ([a; b; c; d] = ["ip6" : str; "nexthdr" : str; "ipv6-icmp" : str; "accept" : str]) then Some pk_icmp6
      else if bool_decide (b = ("dport" : str)) && bool_decide (d = ("accept" : str)) && forallb is_ascii_digit c && negb (bool_decide (c = [])) then
        proto ← read_protocol a; Some (fun pk => bool_decide (pk_transport pk = Some proto) && bool_decide (pk_dport pk = decimal c))
      else None
  | _ => None
  end.

(** The rules of a chain up to its end, and its policy. *)
Fixpoint read_chain (policy : Verdict) (ls : list str) (pk : Packet) : option Verdict :=
  match ls with
  | [] => None
  | line :: ls =>
      if bool_decide (words line = ["}" : str]) then if bool_decide (words <$> ls = [["}" : str]]) then Some policy else None
      else accepts ← read_rule line; rest ← read_chain policy ls pk; Some (if accepts pk : bool then Accept else rest)
  end.
Definition read_policy (line : str) : option Verdict :=
  match words line with
  | [a; b; c; d; e; f; g; h] =>
      if bool_decide ([a; b; c; d; e; f; g] = ["type" : str; "filter" : str; "hook" : str; "input" : str; "priority" : str; "filter;" : str; "policy" : str])
      then if bool_decide (h = ("drop;" : str)) then Some Drop else if bool_decide (h = ("accept;" : str)) then Some Accept else None
      else None
  | _ => None
  end.
Definition comment (line : str) : bool := starts_with "#" line.
Definition statements (text : str) : list str := filter (fun l => comment l = false) (lines text).
(** What becomes of a packet for this host under a file with one table and one chain. *)
Definition incoming (text : str) (pk : Packet) : option Verdict :=
  match statements text with
  | table :: chain :: hook :: rules =>
      if bool_decide (words table = ["table" : str; "inet" : str; "umf" : str; "{" : str])
         && bool_decide (words chain = ["chain" : str; "input" : str; "{" : str])
      then policy ← read_policy hook; read_chain policy rules pk
      else None
  | _ => None
  end.

(** Packets of this host, of known connections and of ICMP pass, and those to the
    ports in [exposes]; all others are dropped. *)
Definition passes (exposes : list (N * ExposeProtocol)) (pk : Packet) : bool :=
  pk_loopback pk || pk_tracked pk || pk_icmp pk || pk_icmp6 pk
  || existsb (fun e => bool_decide (pk_transport pk = Some e.2) && bool_decide (pk_dport pk = e.1)) exposes.
Definition default_deny (exposes : list (N * ExposeProtocol)) (text : str) : Prop :=
  forall pk, incoming text pk = Some (if passes exposes pk then Accept else Drop).

Lemma split_seps c p t : split c (p ++ c :: t) = split c p ++ split c t.
Proof.
  induction p as [|a p IH]; cbn [app split]; [by rewrite Ascii.eqb_refl|]. destruct (Ascii.eqb a c); [by rewrite IH|].
  rewrite IH. pose proof (split_nonempty c p). by destruct (split c p).
Qed.
Lemma words_app p t : words (p ++ " "%char :: t) = words p ++ words t.
Proof. unfold words. by rewrite split_seps, filter_app. Qed.

Lemma expose_rule_words e : words (expose_rule e)
  = [(match e.2 with ExposeProtocol_Tcp => "tcp" | ExposeProtocol_Udp => "udp" end : str); "dport" : str; to_decimal e.1; "accept" : str].
Proof.
  set (p := match e.2 with ExposeProtocol_Tcp => "        tcp dport" | ExposeProtocol_Udp => "        udp dport" end : str).
  assert (E : expose_rule e = p ++ " "%char :: to_decimal e.1 ++ " "%char :: "accept")
    by (unfold expose_rule, p; destruct e.2; reflexivity).
  assert (Hw : words (to_decimal e.1) = [to_decimal e.1]).
  { unfold words. rewrite split_no_sep by (by apply HostNet.to_decimal_no). rewrite filter_cons, decide_True by apply HostNet.to_decimal_nonempty. done. }
  rewrite E, words_app, words_app, Hw. unfold p. by destruct e.2.
Qed.

Lemma read_expose_rule e : exists m, read_rule (expose_rule e) = Some m
  /\ forall pk, m pk = bool_decide (pk_transport pk = Some e.2) && bool_decide (pk_dport pk = e.1).
Proof.
  destruct (HostNet.to_decimal_ok e.1) as [Hv Hd]. unfold read_rule. rewrite expose_rule_words.
  assert (Hd' : forallb is_ascii_digit (to_decimal e.1) = true) by (apply forallb_forall; apply List.Forall_forall; exact Hd).
  rewrite Hd', (bool_decide_false (to_decimal e.1 = [])) by apply HostNet.to_decimal_nonempty.
  rewrite !bool_decide_false by (intros [=]; destruct e.2; done). rewrite !bool_decide_true by done. cbn [andb negb].
  destruct e.2; (eexists; split; [reflexivity|]); intros pk; cbv beta; by rewrite Hv.
Qed.

Lemma read_rules exposes pk :
  read_chain Drop ((expose_rule <$> exposes) ++ rules_tail) pk
  = Some (if existsb (fun e => bool_decide (pk_transport pk = Some e.2) && bool_decide (pk_dport pk = e.1)) exposes then Accept else Drop).
Proof.
  induction exposes as [|e es IH]; [reflexivity|]. rewrite fmap_cons. cbn [app read_chain existsb].
  rewrite bool_decide_false by (rewrite expose_rule_words; discriminate).
  destruct (read_expose_rule e) as (m & -> & Hm). cbn [mbind option_bind]. rewrite IH. cbn [mbind option_bind]. rewrite Hm. by destruct (_ && _).
Qed.

(** The file the code writes denies by default. *)
Lemma rules_default_deny exposes : default_deny exposes (nft_rules exposes).
Proof.
  intros pk. unfold incoming, statements. rewrite rules_lines, filter_app. change (filter _ rules_head) with (drop 2 rules_head).
  replace (filter (fun l => comment l = false) ((expose_rule <$> exposes) ++ rules_tail)) with ((expose_rule <$> exposes) ++ rules_tail).
  2:{ rewrite filter_app. f_equal. induction exposes as [|e es IH]; [done|]. rewrite fmap_cons, filter_cons, decide_True by done. by f_equal. }
  unfold rules_head. cbn [fmap list_fmap drop app]. rewrite !bool_decide_true by (vm_compute; reflexivity). cbn [andb].
  assert (read_policy "        type filter hook input priority filter; policy drop;" = Some Drop) as -> by (vm_compute; reflexivity). cbn [mbind option_bind].
  repeat (cbn [read_chain]; rewrite bool_decide_false by (vm_compute; discriminate)).
  repeat match goal with |- context [read_rule ?l] => let v := eval vm_compute in (read_rule l) in
    assert (read_rule l = v) as -> by (vm_compute; reflexivity) end.
  cbn [mbind option_bind]. rewrite read_rules. cbn [mbind option_bind]. unfold passes.
  destruct pk as [[] [] [] [] ? ?]; done.
Qed.

(** ** Directories along a way without links *)

Definition open_way (fs : Fs) (t p : list str) : Prop :=
  forall q, q `prefix_of` p -> fs !! (t ++ q) = None \/ is_dir_node (fs !! (t ++ q)) = true.

(** From [fs] to [fs'], directories were added on the way [p] from [t]. *)
Definition way_made (t p : list str) (fs fs' : Fs) : Prop :=
  forall x, fs' !! x = fs !! x \/ (fs !! x = None /\ fs' !! x = Some (NDir []) /\ exists q, q `prefix_of` p /\ x = t ++ q).

Lemma resolve_absent fs l c : real_dir fs l -> fs !! (l ++ [c]) = None -> resolve true fs (absolute (l ++ [c])) = Err NotFound.
Proof.
  intros H E. rewrite <- absolute_snoc, resolve_real by done. apply real_dir_self in H. unfold MAXSYMLINKS. simpl.
  destruct (fs !! l) as [[]|]; try discriminate H. by rewrite E.
Qed.

Lemma open_way_tail fs t c p : open_way fs t (c :: p) -> open_way fs (t ++ [c]) p.
Proof. intros H q Hq. rewrite <- app_assoc. apply H. by apply prefix_cons. Qed.

Lemma create_dirs_way p : forall l fs,
  real_dir fs l -> open_way fs l p ->
  exists fs', create_dirs (absolute l) (Normal <$> p) fs = (Ok tt, fs') /\ real_dir fs' (l ++ p) /\ way_made l p fs fs'.
Proof.
  induction p as [|c p IH]; intros l fs Hr Hw.
  { exists fs. rewrite app_nil_r. split_and!; [done|done|by left]. }
  destruct (Hw [c]) as [Hn|Hd]; [by apply prefix_cons, prefix_nil| |].
  - destruct (IH (l ++ [c]) (<[l ++ [c] := NDir []]> fs)) as (fs' & E & Hr' & Hm).
    + by apply real_insert.
    + intros q Hq. apply open_way_tail in Hw. destruct (decide (q = [])) as [->|Hne].
      * right. by rewrite app_nil_r, lookup_insert_eq.
      * rewrite lookup_insert_ne; [by apply Hw|]. intros Eq. apply Hne.
        rewrite <- (app_nil_r (l ++ [c])) in Eq at 1. by apply app_inv_head in Eq.
    + exists fs'. rewrite fmap_cons. cbn [create_dirs]. rewrite absolute_snoc, resolve_absent by done.
      rewrite resolve_real_dir by done. rewrite Hn, E. split_and!; [done|by rewrite <- app_assoc in Hr'|].
      intros x. destruct (Hm x) as [Ex|(E1 & E2 & q & Hq & ->)].
      * destruct (decide (x = l ++ [c])) as [->|Hx]; [|left; by rewrite Ex, lookup_insert_ne].
        right. rewrite Ex, lookup_insert_eq. split_and!; [done|done|]. exists [c]. split; [by apply prefix_cons, prefix_nil|done].
      * right. destruct (decide (l ++ [c] = (l ++ [c]) ++ q)) as [Eq|Hx]; [by rewrite <- Eq, lookup_insert_eq in E1|].
        rewrite lookup_insert_ne in E1 by done. split_and!; [done|done|].
        exists (c :: q). split; [by apply prefix_cons|by rewrite <- app_assoc].
  - assert (Hr1 : real_dir fs (l ++ [c])) by by apply real_dir_snoc.
    destruct (IH (l ++ [c]) fs) as (fs' & E & Hr' & Hm); [done|by apply open_way_tail|].
    exists fs'. rewrite fmap_cons. cbn [create_dirs]. rewrite absolute_snoc, resolve_real_dir by done. rewrite Hd, E.
    split_and!; [done|by rewrite <- app_assoc in Hr'|]. intros x. destruct (Hm x) as [Ex|(E1 & E2 & q & Hq & ->)]; [by left|].
    right. split_and!; [done|done|]. exists (c :: q). split; [by apply prefix_cons|by rewrite <- app_assoc].
Qed.

Lemma create_way fs t p :
  real_dir fs t -> open_way fs t p ->
  exists fs', create_dirs [] (absolute t ++ (Normal <$> p)) fs = (Ok tt, fs') /\ real_dir fs' (t ++ p) /\ way_made t p fs fs'.
Proof. intros Hr Hw. rewrite create_dirs_start by done. by apply create_dirs_way. Qed.

(** A file that can be written. *)
Definition vacant (fs : Fs) (p : list str) : Prop := fs !! p = None \/ exists d, fs !! p = Some (NFile d).

Lemma write_vacant fs q c data :
  real_dir fs q -> vacant fs (q ++ [c]) -> write_file (absolute (q ++ [c])) data fs = (Ok tt, <[q ++ [c] := NFile data]> fs).
Proof.
  intros Hr Hv. unfold write_file. rewrite walk_create_spot.
  - unfold write_at. by destruct Hv as [->|[d ->]].
  - split; [right; by exists q, c|]. intros t E. by destruct Hv as [Hv|[d Hv]]; rewrite Hv in E.
Qed.

(** What was there, apart from [gone], is still there. *)
Definition keeps (gone : locations) (fs fs' : Fs) : Prop := forall x n, x ∉ gone -> fs !! x = Some n -> fs' !! x = Some n.

Lemma way_keeps t p fs fs' : way_made t p fs fs' -> keeps [] fs fs'.
Proof. intros H x n _ E. by destruct (H x) as [->|[E' _]]; [|rewrite E' in E]. Qed.

Lemma keeps_real t fs fs' gone : keeps gone fs fs' -> (forall q x, q ∈ gone -> ~ q `prefix_of` t ++ x) -> real_dir fs t -> real_dir fs' t.
Proof.
  intros Hk Hg Hr q Hq. specialize (Hr q Hq). destruct (fs !! q) as [n|] eqn:E; [|done].
  rewrite (Hk q n); [done| |done]. intros Hin. apply (Hg q [] Hin). by rewrite app_nil_r.
Qed.

Lemma real_delete fs q c : real_dir fs q -> real_dir (delete (q ++ [c]) fs) q.
Proof. intros H. eapply same_real; [by apply same_outside_delete|done]. Qed.

Lemma remove_existing_at fs q c :
  real_dir fs q -> is_dir_node (fs !! (q ++ [c])) = false ->
  remove_existing (absolute (q ++ [c])) fs = (Ok tt, delete (q ++ [c]) fs).
Proof.
  intros Hr Hd. unfold remove_existing. rewrite fs_bind. unfold exists_or_link, reads. rewrite lstat_below by done.
  pose proof (remove_file_below fs q c Hr) as Hf. unfold node_at. destruct (fs !! (q ++ [c])) as [n|] eqn:E.
  2: { rewrite resolve_absent by done. simpl. unfold mret, fsio_ret. f_equal. symmetry. by apply delete_id. }
  assert (Hl : is_link_node n = true \/ resolve true fs (absolute (q ++ [c])) = Ok (q ++ [c])).
  { destruct n; try discriminate Hd; [right|by left|right..]; rewrite <- absolute_snoc, resolve_real by done;
      apply real_dir_self in Hr; unfold MAXSYMLINKS; simpl; destruct (fs !! q) as [[]|]; try discriminate Hr; by rewrite E. }
  destruct Hl as [Hl| ->]; [destruct n; try discriminate Hl; cbn [ok_or]; rewrite orb_true_r; exact Hf|].
  rewrite E, bool_decide_true by done. cbn [orb]. rewrite Hf. by destruct n.
Qed.

Lemma write_enable_link_ok fs t init unit_name dir target :
  enable_paths init unit_name = (dir, target) -> real_dir fs t -> open_way fs t dir ->
  is_dir_node (fs !! (t ++ dir ++ [unit_name])) = false ->
  exists fs', write_enable_link (absolute t) init unit_name fs = (Ok tt, fs')
    /\ fs' !! (t ++ dir ++ [unit_name]) = Some (NLink target) /\ keeps [t ++ dir ++ [unit_name]] fs fs'.
Proof.
  intros Ee Hr Hw Hleaf. unfold write_enable_link. rewrite Ee, fs_bind.
  destruct (create_way fs t dir Hr Hw) as (fs1 & -> & Hr1 & Hm). rewrite <- absolute_app, absolute_snoc.
  set (l := (t ++ dir) ++ [unit_name]) in *. rewrite (app_assoc t dir) in *. fold l in Hleaf |- *.
  assert (Hleaf1 : is_dir_node (fs1 !! l) = false).
  { destruct (Hm l) as [->|(_ & _ & q & Hq & Eq)]; [done|]. exfalso. unfold l in Eq. rewrite <- app_assoc in Eq.
    apply app_inv_head in Eq. subst q. apply prefix_length in Hq. rewrite length_app in Hq. simpl in Hq. lia. }
  subst l. rewrite fs_bind, remove_existing_at by done. unfold symlink. rewrite create_entry_below by by apply real_delete.
  rewrite lookup_delete_eq. eexists. split; [reflexivity|]. split; [apply lookup_insert_eq|].
  intros x n Hx Ex. apply not_elem_of_cons in Hx as [Hx _].
  rewrite lookup_insert_ne, lookup_delete_ne by done. eapply way_keeps; [exact Hm|apply not_elem_of_nil|done].
Qed.

(** The places of the two files. *)
Definition rules_at (t : list str) : list str := t ++ nft_dir ++ ["umf-expose.nft" : str].
Definition conf_at (t : list str) : list str := t ++ ["etc" : str; "nftables.conf" : str].

Lemma write_nftables_ok fs t exposes :
  real_dir fs t -> open_way fs t nft_dir -> vacant fs (rules_at t) -> vacant fs (conf_at t) ->
  exists fs', write_nftables (absolute t) exposes fs = (Ok tt, fs')
    /\ fs' !! rules_at t = Some (NFile (nft_rules exposes)) /\ fs' !! conf_at t = Some (NFile nft_conf)
    /\ forall x, x <> rules_at t -> x <> conf_at t ->
         fs' !! x = fs !! x \/ (fs !! x = None /\ fs' !! x = Some (NDir []) /\ exists q, q `prefix_of` nft_dir /\ x = t ++ q).
Proof.
  intros Hr Hw H1 H2. unfold write_nftables. rewrite fs_bind.
  destruct (create_way fs t nft_dir Hr Hw) as (fs1 & -> & Hr1 & Hm).
  assert (Hsame : forall x, ~ (x `prefix_of` t ++ nft_dir) -> fs1 !! x = fs !! x).
  { intros x Hx. destruct (Hm x) as [E|(_ & _ & q & Hq & ->)]; [done|]. exfalso. by apply Hx, prefix_app. }
  assert (Hne : forall q, q <> [] -> ~ (t ++ nft_dir ++ q) `prefix_of` (t ++ nft_dir)).
  { intros q Hq Hp. apply prefix_length in Hp. rewrite !length_app in Hp. destruct q; [done|simpl in Hp; lia]. }
  assert (He : real_dir fs1 (t ++ ["etc" : str])).
  { eapply real_dir_prefix; [exact Hr1|]. apply prefix_app. by exists ["nftables.d" : str]. }
  replace (absolute t ++ (Normal <$> nft_dir) ++ [Normal "umf-expose.nft"])
    with (absolute ((t ++ nft_dir) ++ ["umf-expose.nft" : str])) by (rewrite <- absolute_snoc, absolute_app, <- app_assoc; done).
  rewrite fs_bind, write_vacant. 2: done. 2: { unfold vacant in *. rewrite <- app_assoc. by rewrite Hsame by by apply Hne. }
  rewrite <- app_assoc. fold (rules_at t). cbv beta iota.
  replace (absolute t ++ [Normal "etc"; Normal "nftables.conf"]) with (absolute ((t ++ ["etc" : str]) ++ ["nftables.conf" : str]))
    by (rewrite <- absolute_snoc, <- absolute_snoc, <- app_assoc; done).
  assert (Hrc : rules_at t <> conf_at t) by (unfold rules_at, conf_at; intros [=]%app_inv_head).
  assert (Hconf : (t ++ ["etc" : str]) ++ ["nftables.conf" : str] = conf_at t) by by rewrite <- app_assoc.
  rewrite write_vacant.
  - rewrite Hconf. eexists. split; [reflexivity|]. split; [by rewrite lookup_insert_ne, lookup_insert_eq by done|].
    split; [apply lookup_insert_eq|]. intros x Hx1 Hx2. rewrite !lookup_insert_ne by done.
    apply Hm.
  - eapply (same_real "nftables.d"); [|done]. apply same_outside_insert. unfold rules_at. rewrite <- app_assoc. apply prefix_app.
    by exists ["umf-expose.nft" : str].
  - rewrite Hconf. unfold vacant. rewrite lookup_insert_ne by done. rewrite Hsame; [done|].
    intros Hp%prefix_app_inv. by apply prefix_cons_inv_2, prefix_cons_inv_1 in Hp.
Qed.

(** The link of a service manager, and what it is to. *)
Definition service_link (k : InitSystemKind) : option (list str * Path) :=
  match k with
  | InitSystemKind_Systemd =>
      Some (["etc" : str; "systemd" : str; "system" : str; "multi-user.target.wants" : str; "nftables.service" : str],
            absolute ["usr" : str; "lib" : str; "systemd" : str; "system" : str; "nftables.service" : str])
  | InitSystemKind_OpenRc =>
      Some (["etc" : str; "runlevels" : str; "default" : str; "nftables" : str], absolute ["etc" : str; "init.d" : str; "nftables" : str])
  | InitSystemKind_Binary => None
  end.

(** No links and no other entries are in the way of the firewall's files. *)
Record clear_for (k : InitSystemKind) (fs : Fs) (t : list str) : Prop := {
  clear_root : real_dir fs t;
  clear_dir : open_way fs t nft_dir;
  clear_rules : vacant fs (rules_at t);
  clear_conf : vacant fs (conf_at t);
  clear_way : forall l target, service_link k = Some (l, target) -> open_way fs t (take (length l - 1) l);
  clear_link : forall l target, service_link k = Some (l, target) -> is_dir_node (fs !! (t ++ l)) = false
}.

Lemma enable_service_ok k fs t l target :
  service_link k = Some (l, target) -> real_dir fs t -> open_way fs t (take (length l - 1) l) ->
  is_dir_node (fs !! (t ++ l)) = false ->
  exists fs', enable_service (absolute t) (Some k) nftables_unit fs = (Ok true, fs')
    /\ fs' !! (t ++ l) = Some (NLink target) /\ keeps [t ++ l] fs fs'.
Proof.
  intros Hs Hr Hw Hl. destruct k; cbn [service_link] in Hs; try discriminate Hs; injection Hs as <- <-; unfold enable_service; rewrite fs_bind;
    (edestruct write_enable_link_ok as (fs' & -> & H1 & H2); [reflexivity|exact Hr|exact Hw|exact Hl|];
     exists fs'; by split_and!).
Qed.

(** The files of the rules are not on the way to the link. *)
Lemma service_apart k l target q :
  service_link k = Some (l, target) -> q `prefix_of` l ->
  q <> nft_dir ++ ["umf-expose.nft" : str] /\ q <> ["etc" : str; "nftables.conf" : str]
  /\ (q `prefix_of` nft_dir -> length q <= 1).
Proof.
  intros Hs Hq. destruct k; cbn [service_link] in Hs; try discriminate Hs; injection Hs as <- <-;
    (destruct q as [|a [|b q]]; [split_and!; [discriminate|discriminate|intros _; simpl; lia]..|]);
    apply prefix_cons_inv_2 in Hq; apply prefix_cons_inv_1 in Hq as ->; (split_and!; [done|done|]);
    intros H%prefix_cons_inv_2; by apply prefix_cons_inv_1 in H.
Qed.


(** ** A stage that exposes a port *)

Module ExposeExample.
Definition none : Span := mkSpan 0 0.
Definition stage_of (ds : list Directive) : Stage :=
  {| stage_from := {| from_source := FromSource_Scratch; from_span := none |}; stage_name := None;
     stage_directives := ds; stage_span := none |}.
Definition expose (port : N) : Directive :=
  Directive_Expose {| expose_port := port; expose_protocol := ExposeProtocol_Tcp; expose_span := none |}.
Definition web : Stage := stage_of [expose 80; expose 443].
Definition at_t : list str := ["t" : str].
Definition host (etc : Node) : Fs :=
  list_to_map [([], NDir []); (at_t, NDir []); (at_t ++ ["usr" : str], NDir []); (at_t ++ ["usr" : str; "sbin" : str], NDir []);
               (at_t ++ ["usr" : str; "sbin" : str; "nft" : str], NFile "nft"); (at_t ++ ["etc" : str], etc); (["etc" : str], NDir [])].

Lemma in_prefixes (q l : list str) : q `prefix_of` l -> q ∈ (fun n => take n l) <$> seq 0 (S (length l)).
Proof.
  intros Hq. apply list_elem_of_fmap. exists (length q). split; [by destruct Hq as [k ->]; rewrite take_app_length|].
  apply elem_of_seq. apply prefix_length in Hq. lia.
Qed.
Definition wayb (fs : Fs) (t p : list str) : bool :=
  forallb (fun q => match fs !! (t ++ q) with None => true | n => is_dir_node n end) ((fun n => take n p) <$> seq 0 (S (length p))).
Lemma wayb_ok fs t p : wayb fs t p = true -> open_way fs t p.
Proof.
  intros H q Hq%in_prefixes. unfold wayb in H. rewrite forallb_forall in H. specialize (H q).
  rewrite <- list_elem_of_In in H. specialize (H Hq). destruct (fs !! (t ++ q)); [by right|by left].
Qed.

Lemma clear_example : clear_for InitSystemKind_Systemd (host (NDir [])) at_t.
Proof.
  split.
  - intros q Hq%in_prefixes. repeat (apply elem_of_cons in Hq as [->|Hq]; [reflexivity|]). by apply not_elem_of_nil in Hq.
  - apply wayb_ok. vm_compute. reflexivity.
  - left. vm_compute. reflexivity.
  - left. vm_compute. reflexivity.
  - intros l target [= <- <-]. apply wayb_ok. vm_compute. reflexivity.
  - intros l target [= <- <-]. vm_compute. reflexivity.
Qed.

(** A packet to a port. *)
Definition to_port (port : N) : Packet :=
  {| pk_loopback := false; pk_tracked := false; pk_icmp := false; pk_icmp6 := false; pk_transport := Some ExposeProtocol_Tcp; pk_dport := port |}.


(** The rules would not deny by default with another policy, or with one line
    more. *)
Example open_chains :
  let rules policy extra := text_of (["table inet umf {" : str; "  chain input {" : str; "type filter hook input priority filter; policy " ++ policy]
                                     ++ extra ++ rules_tail) in
  incoming (rules "drop;" []) (to_port 22) = Some Drop /\ incoming (rules "accept;" []) (to_port 22) = Some Accept
  /\ incoming (rules "drop;" ["accept" : str]) (to_port 22) = Some Accept.
Proof. vm_compute. auto. Qed.

(** The tree is an untrusted layer's: where its [etc] is a link to the host's,
    the firewall is written there. *)
Example written_through_link :
  exists d, (apply_runtime_config web (absolute at_t) (host (NLink (absolute ["etc" : str])))).2
    !! ["etc" : str; "nftables.conf" : str] = Some (NFile d).
Proof. eexists. vm_compute. reflexivity. Qed.
End ExposeExample.
