(* ===== verification/BootAdd.v ===== *)
(** * BootAdd: the ADD directives of a bootable build
    (crates/umf-builder/src/bootable/mod.rs).

    Every ADD of a bootable stage writes into one staging directory, which
    layers nobody vouches for have already filled; the sources are the build
    context, the root file system of an earlier stage, and downloads.  The
    lemmas of the end say that whatever links lie in the staging directory and in
    the sources, these operations change nothing outside of it, save that a zip
    archive may add empty directories.

    The working directory of the process is the root of the file system. *)

From stdpp Require Import gmap list.
From S2P Require Import Prelude RustStr RustStrFacts Target HostFs Compression Layout BuildState EngineBuild.
From S2P Require Import Materialize Sandbox Bundle Kernel InitrdModules Initrd Staging BuildStaging Introspect BootTree BootRun RuntimeConfig.

(** ** Errors *)

(** Where a source was looked for. *)
Inductive AddContext := AddContext_Dir (context : Path) | AddContext_Stage (stage : str).

Section errors.
Context {ZC : ZipCrate}.
Inductive BootableBuildError :=
| EmptyAst
| UninheritableEntrypoint (base : str)
| VmRequiresKernelFromRef
| ContainerOnlyDirective (directive : str)
| VmAddFromUnknownStage (stage : str)
| VmEngine (e : EngineError)
| AddResolve (e : ResolveError)
| AddSourceNotFound (path : str) (context : AddContext)
| VmAddPathTraversal (kind path : str)
| AddUrlFetch (url : str) (e : EngineBuildError)
| VmAddUrlArchiveUnsupported (url format : str)
| AddUrlExtract (url format : str) (e : StagingError)
| FromKernelResolve (e : ResolveError)
| VmKernelLayout (e : KernelLayoutError)
| VmStaging (e : StagingError)
| VmInitrd (e : InitrdError)
| VmRuntimeConfig (e : RuntimeConfigError)
| VmRun (e : RunError)
| VmOci (e : RegistryError)
| VmIo (e : IoError).
End errors.

(** ** Paths *)

Section add.
Context {ZC : ZipCrate} {TF : TempFiles} {T : TarUnpack} {S : Type} `{HE : Engine S}.

Definition vm_reject_traversal (kind raw : str) : result BootableBuildError unit :=
  if bool_decide (ParentDir ∈ components raw) then Err (VmAddPathTraversal kind raw) else Ok tt.

Definition vm_add_destination (dst : str) (src : Path) : fsio str :=
  if ends_with_byte "/" dst then mret (dst ++ default (bytes_of "file") (file_name src))
  else
    d ← HostFs.is_dir src;
    mret (if d : bool then dst ++ "/" else dst).

(** The format of a file, from its first 512 bytes. *)
Definition sniff_format (p : Path) : fsio Format :=
  data ← read_file p;
  mret (detect (take 512 data)).

(** ** Unpacking *)

Notation cap_var := (env_var "UMF_MAX_UNCOMPRESSED_LAYER_BYTES").
Definition staging_tarball (dir tarball : Path) : fse StagingError unit := unpack_tarball slice read_fuel cap_var dir tarball.

(** A layer of an artifact: a blob of the layout or a file of the host. *)
Definition unpack_layer_file (L : ImageLayout) (dir : Path) (f : LayerFile) : fse StagingError unit :=
  match f with
  | HostFile p => staging_tarball dir p
  | BlobFile name =>
      match blobs L !! name with
      | Some bytes => unpack_tar_stream read_fuel cap_var dir (slice bytes)
      | None => throw (StagingError_Io NotFound)
      end
  end.
Fixpoint unpack_layer_files (L : ImageLayout) (dir : Path) (fs : list LayerFile) : fse StagingError unit :=
  match fs with
  | [] => mret tt
  | f :: fs => unpack_layer_file L dir f ;; unpack_layer_files L dir fs
  end.

(** ** ADD *)

Notation io := (lift VmIo).

(** A path of [root], copied into the staging directory. *)
Definition add_from_root (context : AddContext) (root : Path) (src dst : str) (staging : Path) : fse BootableBuildError unit :=
  let src_abs := join_path root (components (trim_start "/" src)) in
  present ← io (path_exists src_abs);
  if negb present then throw (AddSourceNotFound src context)
  else
    io (ensure_source_contained root src_abs) ;;
    dst_inside ← io (vm_add_destination dst src_abs);
    of_result (vm_reject_traversal "destination" dst_inside) ;;
    dst_abs ← io (contained_write_path staging dst_inside);
    d ← io (HostFs.is_dir src_abs);
    if d : bool then io (copy_dir_recursive src_abs dst_abs) else io (copy_file src_abs dst_abs).

Definition add_local_into_staging (context : Path) (src dst : str) (staging : Path) : fse BootableBuildError unit :=
  of_result (vm_reject_traversal "source" src) ;;
  of_result (vm_reject_traversal "destination" dst) ;;
  add_from_root (AddContext_Dir context) context src dst staging.

(** [ctx] is the host's [RootlessContext]. *)
Definition producer_bundle (ctx : RootlessContext) (L : ImageLayout) (architecture : Architecture) (producer_ref : str)
    (path : list str) : fse BootableBuildError Bundle :=
  fun fs =>
    let '(r, fs) := from_image L producer_ref (BundleOptions_for_host ctx "umf-build-xref" Merge architecture) path fs in
    (map_err VmEngine r, fs).

Definition add_from_stage_into_staging (ctx : RootlessContext) (from_stage src dst : str) (produced : gmap str str)
    (L : ImageLayout) (architecture : Architecture) (staging : Path) : fse BootableBuildError unit :=
  of_result (vm_reject_traversal "source" src) ;;
  of_result (vm_reject_traversal "destination" dst) ;;
  producer_ref ← of_result (ok_or (produced !! from_stage) (VmAddFromUnknownStage from_stage));
  with_tempdir (fun e => VmEngine (EngineError_Io (io_to_string e))) (fun path =>
    b ← producer_bundle ctx L architecture producer_ref path;
    add_from_root (AddContext_Stage from_stage) (absolute (b_rootfs b)) src dst staging).

(** An archive is unpacked into a scratch directory and copied from there. *)
Definition extract_into_staging (url dst : str) (format : Format) (file staging : Path) : fse BootableBuildError unit :=
  with_tempdir (fun e => VmStaging (StagingError_Io e)) (fun scratch =>
    convert (AddUrlExtract url (Format_as_str format))
      (if bool_decide (format = Format_Zip) then unpack_zip cap_var (absolute scratch) file
       else staging_tarball (absolute scratch) file) ;;
    dst_dir ← io (contained_write_path staging dst);
    io (copy_dir_recursive (absolute scratch) dst_dir)).

Definition place_payload (url dst : str) (file staging : Path) : fse BootableBuildError unit :=
  format ← io (sniff_format file);
  match format with
  | Format_Squashfs => throw (VmAddUrlArchiveUnsupported url (Format_as_str format))
  | Format_Unknown =>
      let dst_inside := if ends_with_byte "/" dst then dst ++ url_leaf url else dst in
      of_result (vm_reject_traversal "destination" dst_inside) ;;
      dst_abs ← io (contained_write_path staging dst_inside);
      io (copy_file file dst_abs)
  | _ => extract_into_staging url dst format file staging
  end.

(** [fetch] is the download of Fetch.v; its temporary file lives until the
    payload has been placed. *)
Definition add_url_into_staging (fetch : str -> result EngineBuildError FetchedUrl) (url dst : str) (staging : Path)
    : fse BootableBuildError unit :=
  of_result (vm_reject_traversal "destination" dst) ;;
  fetched ← of_result (map_err (AddUrlFetch url) (fetch url));
  with_tempfile (fun e => AddUrlFetch url (Io (io_to_string e))) (fetched_payload fetched) (fun file => place_payload url dst (absolute file) staging).
End add.

(** ** Where ADD writes

    [triple t R P m Q]: from a file system with [P], [m] keeps [t] a real
    directory and changes the rest of the file system by [R] at most; its result
    satisfies [Q]. *)

Definition triple (t : list str) (R : Fs -> Fs -> Prop) {E A : Type} (P : Fs -> Prop) (m : fse E A) (Q : A -> Fs -> Prop) : Prop :=
  forall fs, real_dir fs t -> P fs ->
  real_dir (m fs).2 t /\ R fs (m fs).2 /\ match (m fs).1 with Ok a => Q a (m fs).2 | Err _ => True end.

Section triples.
Context (t : list str) (R : Fs -> Fs -> Prop) `{!PreOrder R}.

Lemma staged_bind {E A B : Type} (m : fse E A) (k : A -> fse E B) P Q Q' :
  triple t R P m Q -> (forall a, triple t R (Q a) (k a) Q') -> triple t R P (m ≫= k) Q'.
Proof.
  intros Hm Hk fs Hr Hp. destruct (Hm fs Hr Hp) as (H1 & H2 & H3). rewrite fse_bind_eq.
  destruct (m fs) as [[a|e] fs1]; cbn [fst snd] in *; [|done].
  destruct (Hk a fs1 H1 H3) as (H4 & H5 & H6). split_and!; [done|by etrans|done].
Qed.

Lemma triple_still {E A : Type} (m : fse E A) P : (forall fs, (m fs).2 = fs) -> triple t R P m (fun _ => P).
Proof. intros H fs Hr Hp. rewrite H. split_and!; [done|reflexivity|by destruct (m fs).1]. Qed.

Lemma triple_throw {E A : Type} (e : E) (P : Fs -> Prop) (Q : A -> Fs -> Prop) : triple t R P (throw e) Q.
Proof. intros fs Hr _. split_and!; [done|reflexivity|done]. Qed.

Lemma staged_ret {E A : Type} (a : A) (P : Fs -> Prop) : triple (E := E) t R P (mret a) (fun _ _ => True).
Proof. intros fs Hr _. split_and!; [done|reflexivity|done]. Qed.

Lemma triple_lift {E A : Type} (f : IoError -> E) (m : fsio A) P Q :
  (forall fs, real_dir fs t -> P fs -> real_dir (m fs).2 t /\ R fs (m fs).2 /\ forall a, (m fs).1 = Ok a -> Q a (m fs).2) ->
  triple t R P (lift f m) Q.
Proof.
  intros H fs Hr Hp. rewrite lift_eq. cbn [fst snd]. destruct (H fs Hr Hp) as (H1 & H2 & H3).
  split_and!; [done|done|]. destruct (m fs).1; cbn; auto.
Qed.

Lemma triple_convert {E E' A : Type} (f : E -> E') (m : fse E A) P Q : triple t R P m Q -> triple t R P (convert f m) Q.
Proof.
  intros H fs Hr Hp. rewrite convert_eq. cbn [fst snd]. destruct (H fs Hr Hp) as (H1 & H2 & H3).
  split_and!; [done|done|]. by destruct (m fs).1.
Qed.

Lemma triple_consequence {E A : Type} (m : fse E A) (P P' : Fs -> Prop) (Q Q' : A -> Fs -> Prop) :
  (forall fs, P' fs -> P fs) -> (forall a fs, Q a fs -> Q' a fs) -> triple t R P m Q -> triple t R P' m Q'.
Proof.
  intros HP HQ H fs Hr Hp. destruct (H fs Hr (HP fs Hp)) as (H1 & H2 & H3). split_and!; [done|done|].
  destruct (m fs).1; auto.
Qed.
End triples.

Lemma staged_weaken (t : list str) (R R' : Fs -> Fs -> Prop) {E A : Type} (m : fse E A) P Q :
  (forall a b, R a b -> R' a b) -> triple t R P m Q -> triple t R' P m Q.
Proof. intros HR H fs Hr Hp. destruct (H fs Hr Hp) as (H1 & H2 & H3). auto. Qed.

#[export] Instance dirs_added_preorder t : PreOrder (dirs_added t).
Proof. split; [intros fs p _; by left|intros a b c; apply dirs_added_trans]. Qed.

Lemma lift_still {E A : Type} (f : IoError -> E) (m : fsio A) : (forall fs, (m fs).2 = fs) -> forall fs, (lift f m fs).2 = fs.
Proof. intros H fs. rewrite lift_eq. apply H. Qed.

Lemma source_contained_still root p fs : (ensure_source_contained root p fs).2 = fs.
Proof.
  unfold ensure_source_contained. rewrite fs_bind. unfold canonicalize, reads. destruct (resolve _ _ p ≫= _); [|done].
  rewrite fs_bind. destruct (resolve _ _ root ≫= _); [|done]. by case_bool_decide.
Qed.
Lemma add_destination_still dst src fs : (vm_add_destination dst src fs).2 = fs.
Proof. unfold vm_add_destination. by destruct (ends_with_byte _ _). Qed.

(** A step, and one that only reads. *)
Ltac step := eapply staged_bind; [exact _| |].
Ltac reading := step; [apply triple_still; [exact _|]; intros; rewrite ?lift_eq; first [reflexivity|apply source_contained_still|apply add_destination_still]|cbv beta].

(** *** Copying into the staging directory *)

Section adds.
Context {ZC : ZipCrate} {TF : TempFiles} {T : TarUnpack} {S : Type} `{HE : Engine S}.
Context (t : list str).
Notation inside := (triple t (same_outside t)).
Notation at_spot := (fun (p : Path) (fs : Fs) => exists l, p = absolute (t ++ l) /\ spot fs (t ++ l)).

Lemma write_path_inside {E : Type} (f : IoError -> E) rel P : inside P (lift f (contained_write_path (absolute t) rel)) at_spot.
Proof.
  apply triple_lift. intros fs Hr _. destruct (contained_write_path (absolute t) rel fs) as [r fs1] eqn:E1.
  apply contained_write_path_ok in E1 as (H1 & H2 & H3); [|done]. cbn [fst snd]. auto.
Qed.

Lemma below_real_kept l fs fs' : same_outside (t ++ l) fs fs' -> real_dir fs t -> is_dir_node (fs' !! t) = true -> real_dir fs' t.
Proof.
  intros Ho Hr Hd q Hq. destruct (decide (q = t)) as [->|Hne]; [done|]. rewrite Ho; [by apply Hr|].
  intros Hx. apply Hne. apply (anti_symm prefix); [done|]. etrans; [by apply (prefix_app_r t t l)|done].
Qed.

(** A copy to a spot inside keeps the staging directory. *)
Lemma copy_inside {E : Type} (f : IoError -> E) (copy : Path -> fsio unit) dst :
  (forall fs l, spot fs l -> same_outside l fs (copy (absolute l) fs).2) ->
  (forall fs l, real_dir fs l -> is_dir_node ((copy (absolute l) fs).2 !! l) = true) ->
  inside (at_spot dst) (lift f (copy dst)) (fun _ _ => True).
Proof.
  intros Hc Hd. apply triple_lift. intros fs Hr (l & -> & Hs). specialize (Hc fs _ Hs).
  split_and!; [|by eapply same_outside_mono, Hc; apply prefix_app_r|done].
  destruct l as [|c l]; [rewrite app_nil_r in *|].
  - eapply (below_real_kept []); [by rewrite app_nil_r|done|by apply Hd].
  - eapply below_real_kept; [exact Hc|done|]. rewrite Hc; [by apply Hr|].
    intros Hx%prefix_length. rewrite length_app in Hx. simpl in Hx. lia.
Qed.

Lemma copied_tree_inside {E : Type} (f : IoError -> E) src dst :
  inside (at_spot dst) (lift f (copy_dir_recursive src dst)) (fun _ _ => True).
Proof.
  apply (copy_inside f (copy_dir_recursive src)); intros fs l Hs.
  - by apply copy_dir_contained, Hs.
  - by apply real_dir_self, copy_dir_keeps.
Qed.

Lemma copied_file_inside {E : Type} (f : IoError -> E) src dst :
  inside (at_spot dst) (lift f (copy_file src dst)) (fun _ _ => True).
Proof.
  apply (copy_inside f (copy_file src)); intros fs l Hs; [by apply copy_file_contained|].
  rewrite copy_file_keeps by done. by apply real_dir_self.
Qed.

Lemma add_from_root_inside context root src dst P :
  inside P (add_from_root context root src dst (absolute t)) (fun _ _ => True).
Proof.
  unfold add_from_root. reading. intros present. destruct (negb present).
  { apply triple_throw; exact _. }
  reading. intros ?. reading. intros dst_inside. reading. intros ?.
  step; [apply write_path_inside|]. intros dst_abs. reading. intros [].
  - apply copied_tree_inside.
  - apply copied_file_inside.
Qed.

Lemma add_local_inside context src dst P :
  inside P (add_local_into_staging context src dst (absolute t)) (fun _ _ => True).
Proof. unfold add_local_into_staging. do 2 (reading; intros ?). apply add_from_root_inside. Qed.

(** *** Unpacking into it *)

Lemma tar_stream_inside source P :
  inside P (unpack_tar_stream read_fuel (env_var "UMF_MAX_UNCOMPRESSED_LAYER_BYTES") (absolute t) source) (fun _ _ => True).
Proof.
  unfold unpack_tar_stream.
  destruct (decode_tar_stream _ _ _) as [[[format decoded]|e]| |]; try (apply triple_throw; exact _).
  apply triple_lift. intros fs Hr _. destruct (archive_unpack_contained decoded t fs Hr). auto.
Qed.

Lemma tarball_inside tarball P : inside P (staging_tarball (absolute t) tarball) (fun _ _ => True).
Proof. unfold staging_tarball, unpack_tarball. reading. intros bytes. apply tar_stream_inside. Qed.

Lemma layer_files_inside L files P : inside P (unpack_layer_files L (absolute t) files) (fun _ _ => True).
Proof.
  revert P. induction files as [|file files IH]; intros P.
  { apply staged_ret; exact _. }
  cbn [unpack_layer_files]. eapply staged_bind; [exact _| |intros ?; apply IH].
  destruct file as [name|p]; cbn [unpack_layer_file]; [|apply tarball_inside].
  destruct (blobs L !! name); [apply tar_stream_inside|apply triple_throw; exact _].
Qed.
End adds.

(** *** Temporary files come and go *)

Lemma unused_apart fs l t q : unused fs l -> real_dir fs t -> q `prefix_of` t -> ~ l `prefix_of` q.
Proof. intros [Hu _] Hr Hq [r ->]. specialize (Hr _ Hq). by rewrite Hu in Hr. Qed.

Lemma unused_here fs l : unused fs l -> fs !! l = None.
Proof. intros [Hu _]. specialize (Hu []). by rewrite app_nil_r in Hu. Qed.

Lemma unused_insert fs l n t : unused fs l -> real_dir fs t -> real_dir (<[l := n]> fs) t.
Proof. intros Hu Hr q Hq. rewrite lookup_insert_ne; [by apply Hr|]. intros ->. by eapply unused_apart. Qed.

Lemma scratch_real fs l : unused fs l -> real_dir (<[l := NDir []]> fs) l.
Proof. intros (_ & q & c & -> & Hq). by apply real_insert. Qed.

Lemma scratch_linkless fs l : unused fs l -> linkless l (<[l := NDir []]> fs).
Proof.
  intros Hu p target [r ->] E. destruct r as [|c r]; [by rewrite app_nil_r, lookup_insert_eq in E|].
  rewrite lookup_insert_ne in E. { destruct Hu as [Hu _]. by rewrite Hu in E. }
  intros Hx. rewrite <- (app_nil_r l) in Hx at 1. by apply app_inv_head in Hx.
Qed.

Section temporaries.
Context {TF : TempFiles} {E A : Type} (t : list str) (C : option Node -> option Node -> Prop) `{!Reflexive C}.

Lemma with_tempdir_outside (f : IoError -> E) (k : list str -> fse E A) fs :
  real_dir fs t ->
  (forall l, unused fs l -> real_dir (k l (<[l := NDir []]> fs)).2 t
     /\ forall p, ~ t `prefix_of` p -> ~ l `prefix_of` p -> C (fs !! p) ((k l (<[l := NDir []]> fs)).2 !! p)) ->
  real_dir (with_tempdir f k fs).2 t /\ forall p, ~ t `prefix_of` p -> C (fs !! p) ((with_tempdir f k fs).2 !! p).
Proof.
  intros Hr Hk. unfold with_tempdir. destruct (temp_dir fs) as [l|e] eqn:El; [|done]. apply temp_dir_unused in El as Hu.
  destruct (Hk l Hu) as [H1 H2]. destruct (k l _) as [r fs1]; cbn [snd] in *. split.
  - intros q Hq. rewrite lookup_remove_tree, bool_decide_false by by eapply unused_apart. by apply H1.
  - intros p Hp. rewrite lookup_remove_tree. case_bool_decide as Hl; [|by apply H2].
    destruct Hl as [x ->]. destruct Hu as [Hu _]. by rewrite Hu.
Qed.

Lemma with_tempfile_outside (f : IoError -> E) data (k : list str -> fse E A) fs :
  real_dir fs t ->
  (forall l, unused fs l -> real_dir (k l (<[l := NFile data]> fs)).2 t
     /\ forall p, ~ t `prefix_of` p -> p <> l -> C (fs !! p) ((k l (<[l := NFile data]> fs)).2 !! p)) ->
  real_dir (with_tempfile f data k fs).2 t /\ forall p, ~ t `prefix_of` p -> C (fs !! p) ((with_tempfile f data k fs).2 !! p).
Proof.
  intros Hr Hk. unfold with_tempfile. destruct (temp_file fs) as [l|e] eqn:El; [|done]. apply temp_file_unused in El as Hu.
  destruct (Hk l Hu) as [H1 H2]. destruct (k l _) as [r fs1]; cbn [snd] in *. split.
  - intros q Hq. rewrite lookup_delete_ne; [by apply H1|]. intros ->. by eapply unused_apart.
  - intros p Hp. destruct (decide (p = l)) as [->|Hne]; [by rewrite lookup_delete_eq, unused_here|].
    rewrite lookup_delete_ne by done. by apply H2.
Qed.
End temporaries.

(** *** Downloads and earlier stages *)

(** An entry outside of the directories written to is as before, or is a new
    empty directory. *)
Definition at_most_new_dir (old new : option Node) : Prop := new = old \/ (old = None /\ new = Some (NDir [])).
#[export] Instance at_most_new_dir_refl : Reflexive at_most_new_dir.
Proof. by left. Qed.

Definition unchanged (old new : option Node) : Prop := new = old.
#[export] Instance unchanged_refl : Reflexive unchanged.
Proof. done. Qed.

Lemma kept_real (fs fs' : Fs) (t l : list str) :
  real_dir fs t -> (forall q, q `prefix_of` t -> ~ l `prefix_of` q) -> dirs_added l fs fs' -> real_dir fs' t.
Proof.
  intros Hr Hl Ha q Hq. specialize (Hr q Hq). destruct (Ha q (Hl q Hq)) as [->|[E _]]; [done|]. by rewrite E in Hr.
Qed.

Section downloads.
Context {ZC : ZipCrate} {TF : TempFiles} {T : TarUnpack} {S : Type} `{HE : Engine S}.
Context (t : list str).
Notation stays := (triple t (dirs_added t)).

Lemma unpack_scratch format file l fs (u := if bool_decide (format = Format_Zip)
    then unpack_zip (env_var "UMF_MAX_UNCOMPRESSED_LAYER_BYTES") (absolute l) file else staging_tarball (absolute l) file) :
  unused fs l -> dirs_added l (<[l := NDir []]> fs) (u (<[l := NDir []]> fs)).2.
Proof.
  intros Hu. unfold u. case_bool_decide.
  - apply unpack_zip_contained; [by apply scratch_real|by apply scratch_linkless].
  - apply outside_dirs_added. by apply (tarball_inside l file (fun _ => True)); [apply scratch_real|].
Qed.

Lemma copy_scratch_inside {P : Fs -> Prop} dst l :
  triple t (same_outside t) P
    (dst_dir ← lift VmIo (contained_write_path (absolute t) dst); lift VmIo (copy_dir_recursive (absolute l) dst_dir)) (fun _ _ => True).
Proof. step; [apply write_path_inside|]. intros dst_dir. apply copied_tree_inside. Qed.

Lemma extract_stays url dst format file P :
  stays P (extract_into_staging url dst format file (absolute t)) (fun _ _ => True).
Proof.
  intros fs Hr _. unfold extract_into_staging.
  match goal with |- context [with_tempdir ?f ?k] => destruct (with_tempdir_outside t at_most_new_dir f k fs) as [H1 H2] end;
    [done| |split_and!; [exact H1|exact H2|by match goal with |- match ?x with _ => _ end => destruct x end]].
  intros l Hu. rewrite fse_bind_eq, convert_eq. pose proof (unpack_scratch format file l fs Hu) as Ha.
  match type of Ha with context [?u (<[_ := _]> fs)] => destruct (u (<[l := NDir []]> fs)) as [r1 fs1] end. cbn [fst snd] in *.
  assert (Hr1 : real_dir fs1 t).
  { eapply kept_real; [by apply (unused_insert fs l (NDir []))|by intros; eapply unused_apart|done]. }
  assert (Hp : forall p, ~ l `prefix_of` p -> at_most_new_dir (fs !! p) (fs1 !! p)).
  { intros p Hp. specialize (Ha p Hp). rewrite lookup_insert_ne in Ha; [done|by intros ->]. }
  destruct r1 as [u|e]; cbn [map_err snd]; [|split; [done|auto]].
  destruct (copy_scratch_inside (P := fun _ => True) dst l fs1 Hr1 I) as (H3 & H4 & _). split; [exact H3|].
  intros p Ht Hl. rewrite (H4 p Ht). auto.
Qed.

Lemma place_payload_stays url dst file P : stays P (place_payload url dst file (absolute t)) (fun _ _ => True).
Proof.
  unfold place_payload. step.
  { apply triple_still; [exact _|]. intros fs. rewrite lift_eq. unfold sniff_format, read_file, reads. rewrite fs_bind.
    by destruct (resolve true fs file ≫= _). }
  intros [] ; cbv beta; try apply extract_stays; [apply triple_throw; exact _|].
  eapply staged_weaken; [apply outside_dirs_added|]. reading. intros ?.
  step; [apply write_path_inside|]. intros dst_abs. apply copied_file_inside.
Qed.

Lemma add_url_stays fetch url dst P : stays P (add_url_into_staging fetch url dst (absolute t)) (fun _ _ => True).
Proof.
  unfold add_url_into_staging. reading. intros ?. reading. intros fetched fs Hr _.
  match goal with |- context [with_tempfile ?f ?d ?k] => destruct (with_tempfile_outside t at_most_new_dir f d k fs) as [H1 H2] end;
    [done| |split_and!; [exact H1|exact H2|by match goal with |- match ?x with _ => _ end => destruct x end]].
  intros l Hu. destruct (place_payload_stays url dst (absolute l) (fun _ => True) (<[l := NFile (fetched_payload fetched)]> fs))
    as (H1 & H2 & _); [by apply unused_insert|done|]. split; [exact H1|]. intros p Hp Hl. specialize (H2 p Hp).
  by rewrite lookup_insert_ne in H2.
Qed.
End downloads.
