(* ===== verification/Bootable.v ===== *)
(** * Bootable: the build of a bootable image
    (crates/umf-builder/src/bootable/mod.rs [build_vm], validate.rs).

    The final stage of a recipe whose FROM is a kernel or a bootable image is
    built in one staging directory: its ADDs (BootAdd.v), the layers of FROM, the
    firewall of EXPOSE (RuntimeConfig.v), the RUN steps in micro-VMs (BootRun.v)
    and the initramfs (BootTree.v).  The directory becomes the only layer of an
    image whose labels say how it boots.

    The theorems say that an image built this way hands its way of booting on to
    a recipe that extends it and says nothing about it, and that a build without
    steps that run or write runtime files leaves the file system of the host as
    it was. *)

From stdpp Require Import gmap list.
From S2P Require Import Prelude RustStr RustStrFacts Target Subst Validation Identifiers Paths OciRef Ast ArgScope Image Json Layout LayoutFacts.
From S2P Require Import BuildState EngineBuild BaseImage HostFs Compression Materialize Pack Sandbox Bundle Kernel InitrdModules Initrd.
From S2P Require Import Staging BuildStaging Introspect RunShell BootTree BootRun RuntimeConfig BootAdd Parse.

(** ** validate.rs *)

Section validate.
Context {ZC : ZipCrate}.

Fixpoint reject_container_only (ds : list Directive) : result BootableBuildError unit :=
  match ds with
  | [] => Ok tt
  | Directive_Cmd _ :: _ => Err (ContainerOnlyDirective "CMD")
  | Directive_Volume _ :: _ => Err (ContainerOnlyDirective "VOLUME")
  | Directive_Stopsignal _ :: _ => Err (ContainerOnlyDirective "STOPSIGNAL")
  | _ :: ds => reject_container_only ds
  end.

Definition validate_ast_for_vm (ast : Ast) : result BootableBuildError Stage :=
  stage ← ok_or (last (stages ast)) EmptyAst;
  match from_source (stage_from stage) with
  | FromSource_Scratch => Err VmRequiresKernelFromRef
  | FromSource_Reference _ => _ ← reject_container_only (stage_directives stage); Ok stage
  end.
End validate.

(** The first answer of [f], from the end. *)
Definition find_last {A} (f : Directive -> option A) (ds : list Directive) : option A := head (omap f (rev ds)).

Definition flavor_label (d : Directive) : option str :=
  match d with
  | Directive_Label l => if bool_decide (as_str (value (label_key l)) = FLAVOR) then Some (as_str (value (label_value l))) else None
  | _ => None
  end.
(** The flavor, and whether it is the default. *)
Definition pick_flavor (ds : list Directive) : str * bool :=
  match find_last flavor_label ds with Some v => (v, false) | None => ("systemd-boot" : str, true) end.

Definition entrypoint_of (d : Directive) : option EntrypointInit :=
  match d with Directive_Entrypoint e => Some (entrypoint_init e) | _ => None end.
Definition pick_entrypoint (ds : list Directive) : option EntrypointInit := find_last entrypoint_of ds.

(** ** The first process *)

Definition is_u8_whitespace (c : ascii) : bool :=
  Ascii.eqb c " " || Ascii.eqb c tab || Ascii.eqb c lf || Ascii.eqb c (byte 12) || Ascii.eqb c cr.
Definition escape_dquote (c : ascii) : str := if Ascii.eqb c dquote then ["\"%char; dquote] else [c].
Definition quote_cmdline_token (token : str) : str :=
  if existsb is_u8_whitespace token then dquote :: concat (escape_dquote <$> token) ++ [dquote] else token.

Definition appliance_argv (init : EntrypointInit) : option (list str) :=
  match init with
  | EntrypointInit_Path p => Some [value p]
  | EntrypointInit_Exec argv => Some (value <$> argv)
  | EntrypointInit_Systemd | EntrypointInit_OpenRc | EntrypointInit_None => None
  end.

Definition appliance_init_cmdline (init : EntrypointInit) : option str :=
  argv ← match init with
         | EntrypointInit_Path s => Some [value s]
         | EntrypointInit_Exec v => Some (value <$> v)
         | EntrypointInit_Systemd | EntrypointInit_OpenRc | EntrypointInit_None => None
         end;
  match argv with
  | [] => None
  | binary :: args =>
      Some (" init=" ++ quote_cmdline_token binary
            ++ (if is_nil args then [] else " --" ++ concat ((fun a => " " ++ quote_cmdline_token a) <$> args)))
  end.

Definition entrypoint_label (init : EntrypointInit) : str :=
  match init with
  | EntrypointInit_Systemd => "systemd"
  | EntrypointInit_OpenRc => "openrc"
  | EntrypointInit_Path _ | EntrypointInit_Exec _ => "appliance"
  | EntrypointInit_None => "none"
  end.

Definition inherited_entrypoint (base : L0Profile) : option EntrypointInit :=
  match (Introspect.labels base !! ENTRYPOINT : option str) with
  | Some l =>
      if bool_decide (l = "systemd") then Some EntrypointInit_Systemd
      else if bool_decide (l = "openrc") then Some EntrypointInit_OpenRc
      else if bool_decide (l = "none") then Some EntrypointInit_None
      else if bool_decide (l = "appliance") then
        argv ← Introspect.entrypoint base;
        if is_nil argv then None else Some (EntrypointInit_Exec ((fun a => mkSpanned a (mkSpan 0 0)) <$> argv))
      else None
  | None => None
  end.

(** ** What the recipe leaves to its base *)

Definition vm_flavor (base : option L0Profile) (picked : str * bool) : str :=
  match base, picked with
  | Some profile, (recipe_flavor, true) => default recipe_flavor (Introspect.labels profile !! FLAVOR)
  | _, (recipe_flavor, _) => recipe_flavor
  end.

Definition vm_entrypoint {ZC : ZipCrate} (base : option L0Profile) (base_ref : str) (recipe : option EntrypointInit)
    : result BootableBuildError EntrypointInit :=
  match recipe, base with
  | Some explicit, _ => Ok explicit
  | None, Some profile => ok_or (inherited_entrypoint profile) (UninheritableEntrypoint base_ref)
  | None, None => Ok EntrypointInit_Systemd
  end.

Definition rootfs_path (p : path) : str := "/" ++ join "/" p.

(** The labels of a built image, over those of the recipe. *)
Definition boot_labels (user_labels : gmap str str) (init : EntrypointInit) (kernel : KernelLayout)
    (initrd : option InitrdReport) (flavor : str) : gmap str str :=
  let labels := <[KERNEL_VMLINUZ := rootfs_path (vmlinuz kernel)]> (<[KERNEL_RELEASE := release kernel]>
                  (<[ENTRYPOINT := entrypoint_label init]> user_labels)) in
  let cmdline := trim (default [] (appliance_init_cmdline init)) in
  let labels := if is_nil cmdline then labels else <[KERNEL_CMDLINE := cmdline]> labels in
  let labels := match initrd with
                | Some report => <[INITRAMFS := "/boot/" ++ initrd_filename report]> labels
                | None => labels
                end in
  <[FLAVOR := flavor]> (<[ROOTFS_FS := RootfsFs_as_str RootfsFs_default]> labels).

Definition boot_config (architecture : Architecture) (labels user_env : gmap str str) (init : EntrypointInit) : ImageConfig :=
  {| ic_architecture := oci_arch_string architecture; ic_os := "linux"; ic_created := ic_created ImageConfig_default;
     ic_author := ic_author ImageConfig_default;
     ic_container :=
       {| cc_user := cc_user ContainerConfig_default;
          cc_env := (fun '(k, v) => k ++ "=" ++ v) <$> btree_entries user_env;
          cc_entrypoint := appliance_argv init; cc_cmd := cc_cmd ContainerConfig_default;
          cc_working_dir := cc_working_dir ContainerConfig_default;
          cc_exposed_ports := cc_exposed_ports ContainerConfig_default; cc_volumes := cc_volumes ContainerConfig_default;
          cc_stop_signal := cc_stop_signal ContainerConfig_default; cc_labels := labels |};
     ic_history := ic_history ImageConfig_default; ic_umf_type := L0Kind_Bootable;
     ic_umf_spec := ic_umf_spec ImageConfig_default |}.

(** ** Options and result *)

Record BootableBuildOptions := {
  rootfs_path_override : option Path;
  rootfs_registry_ref : option str;
  from_kernel_path_override : option Path;
  from_kernel_registry_ref : option str;
  staging_keep_path : option Path;
  vm_qemu_path : option Path;
  vm_kvm_available : bool;
  vm_architecture : Architecture;
  vm_compression : LayerCompression;
  vm_context : Path;
  vm_build_args : scope
}.

Record BootableBuildOutput := {
  out_image : ImageIndexEntry;
  out_flavor : str;
  add_sources : list Provenance;
  kernel_source : Provenance;
  out_kernel_layout : KernelLayout;
  initrd_report : option InitrdReport;
  runtime_config : option RuntimeConfigReport;
  run_step_reports : list RunStepResult;
  staging_path : option Path
}.

(** ** The staging directory *)

(** What the build calls besides: the registry client, the reader of references,
    the writer of archives and of JSON, and whether a rename crosses devices. *)
Class BootHost := {
  pull : option (str -> ImageLayout -> result RegistryError unit * ImageLayout);
  parse_reference : str -> result str str;
  search_registries : SearchRegistries;
  fetch_payload : str -> result EngineBuildError FetchedUrl;
  archive_bytes : list TarEntry -> str;
  compress_bytes : LayerCompression -> str -> result RegistryError str;
  print_json : Value -> str;
  print_manifest : OciImageManifest -> str;
  rootless_context : RootlessContext;
  run_host : RunHost;
  crosses_devices : list str -> list str -> bool
}.

Section build.
Context {ZC : ZipCrate} {TF : TempFiles} {T : TarUnpack} {S : Type} `{HE : Engine S} {TH : TreeHost} {V : MicroVm} {BH : BootHost}.

(** Computations on the file system and the image layout. *)
Definition World : Type := Fs * ImageLayout.
Definition vm (A : Type) : Type := World -> result BootableBuildError A * World.
#[export] Instance vm_ret : MRet vm := fun A a w => (Ok a, w).
#[export] Instance vm_bind : MBind vm := fun A B k m w =>
  match m w with (Ok a, w') => k a w' | (Err e, w') => (Err e, w') end.
Definition on_fs {A} (m : fse BootableBuildError A) : vm A := fun '(fs, L) => let '(r, fs) := m fs in (r, (fs, L)).
Definition vm_of {A} (r : result BootableBuildError A) : vm A := fun w => (r, w).
Definition ask_layout : vm ImageLayout := fun w => (Ok w.2, w).

Section options.
Context (options : BootableBuildOptions) (produced : gmap str str).
Notation arch := (vm_architecture options).

(** What the walk over the directives has gathered. *)
Record AddState := {
  as_scope : scope;
  as_labels : gmap str str;
  as_env : gmap str str;
  as_override : option Path;
  as_sources : list Provenance
}.

Definition resolve_userland (reference : str) (override_path : option Path) : vm Artifact := fun '(fs, L) =>
  let '(r, L) := resolve_add sha256 parse_manifest parse_image parse_reference (host_is_file fs) search_registries pull
                   reference arch override_path (rootfs_registry_ref options) L in
  (map_err AddResolve r, (fs, L)).

Definition unpack_artifact (t : list str) (art : Artifact) : vm unit :=
  L ← ask_layout;
  on_fs (convert VmStaging (unpack_layer_files L (absolute t) (art_layers art))).

Definition add_directive (t : list str) (s : AddState) (a : Add) : vm AddState :=
  let subst text := subst_with (as_scope s) text in
  let dst := subst (as_str (value (add_destination a))) in
  match add_source a with
  | AddSource_Oci image_ref =>
      art ← resolve_userland (subst (as_str (value image_ref))) (as_override s);
      unpack_artifact t art ;;
      mret {| as_scope := as_scope s; as_labels := as_labels s; as_env := as_env s; as_override := None;
              as_sources := as_sources s ++ [art_provenance art] |}
  | AddSource_Path src =>
      L ← ask_layout;
      on_fs (match add_from a with
             | Some from =>
                 add_from_stage_into_staging rootless_context (as_str (value from)) (subst (value src)) dst produced L arch (absolute t)
             | None => add_local_into_staging (vm_context options) (subst (value src)) dst (absolute t)
             end) ;;
      mret s
  | AddSource_Url url => on_fs (add_url_into_staging fetch_payload (subst (as_str (value url))) dst (absolute t)) ;; mret s
  end.

Definition stage_directive (t : list str) (s : AddState) (d : Directive) : vm AddState :=
  match d with
  | Directive_Arg arg =>
      mret {| as_scope := apply_arg_to_scope (as_scope s) arg (vm_build_args options); as_labels := as_labels s;
              as_env := as_env s; as_override := as_override s; as_sources := as_sources s |}
  | Directive_Label l =>
      mret {| as_scope := as_scope s;
              as_labels := <[as_str (value (label_key l)) := subst_with (as_scope s) (as_str (value (label_value l)))]> (as_labels s);
              as_env := as_env s; as_override := as_override s; as_sources := as_sources s |}
  | Directive_Env e =>
      mret {| as_scope := as_scope s; as_labels := as_labels s;
              as_env := <[as_str (value (Ast.env_key e)) := subst_with (as_scope s) (as_str (value (env_value e)))]> (as_env s);
              as_override := as_override s; as_sources := as_sources s |}
  | Directive_Add a => add_directive t s a
  | _ => mret s
  end.

Fixpoint stage_walk (t : list str) (s : AddState) (ds : list Directive) : vm AddState :=
  match ds with
  | [] => mret s
  | d :: ds => s ← stage_directive t s d; stage_walk t s ds
  end.

(** ** The build *)

Definition resolve_kernel (reference : str) : vm Artifact := fun '(fs, L) =>
  let '(r, L) := resolve_from_kernel sha256 parse_manifest parse_image parse_json parse_reference (host_is_file fs)
                   search_registries pull reference arch (from_kernel_path_override options) (from_kernel_registry_ref options) L in
  (map_err FromKernelResolve r, (fs, L)).

(** The profile of a bootable base. *)
Definition bootable_base (L : ImageLayout) (reference : str) : option L0Profile :=
  match introspect_for_platform sha256 parse_manifest parse_image parse_json L reference arch with
  | Ok p => if bool_decide (kind p = L0Kind_Bootable) then Some p else None
  | Err _ => None
  end.

Definition write_initramfs (t : list str) (kernel : KernelLayout) (init : EntrypointInit) : fse BootableBuildError (option InitrdReport) :=
  if is_init_system init then
    '(bytes, report) ← convert VmInitrd (initramfs_of t kernel InitramfsFlavor_Boot);
    dst ← lift VmIo (contained_write_path (absolute t) ("boot/" ++ initrd_filename report));
    lift VmIo (write_file dst bytes) ;;
    mret (Some report)
  else mret None.

Definition staging_layer (t : list str) : fse BootableBuildError LayerSource := fun fs =>
  (map_err VmOci (entries ← map_err (fun e => RegistryError_Io (io_text e)) (build_tar fs (absolute t));
                  layer_of_tar sha256 compress_bytes (archive_bytes entries) (vm_compression options)), fs).

Definition emit_boot_image (layer : LayerSource) (config : ImageConfig) (tag : str) : vm ImageIndexEntry := fun '(fs, L) =>
  match emit_image sha256 print_json print_manifest [layer] config tag L with
  | Ok (e, L) => (Ok e, (fs, L))
  | Err e => (Err (VmOci e), (fs, L))
  end.

(** From the filled staging directory to the image. *)
Definition finish_vm (stage : Stage) (tag : str) (globals : scope) (flavor : str) (init : EntrypointInit) (kernel_art : Artifact)
    (t : list str) (s : AddState) : vm BootableBuildOutput :=
  unpack_artifact t kernel_art ;;
  kernel ← on_fs (convert VmKernelLayout (detect_kernel t));
  report ← on_fs (convert VmRuntimeConfig (apply_runtime_config stage (absolute t)));
  runs ← on_fs (convert VmRun (run_all_run_directives run_host (vm_qemu_path options) (vm_kvm_available options)
                                 (vm_build_args options) stage t kernel globals));
  initrd ← on_fs (write_initramfs t kernel init);
  layer ← on_fs (staging_layer t);
  image ← emit_boot_image layer (boot_config arch (boot_labels (as_labels s) init kernel initrd flavor) (as_env s) init) tag;
  mret {| out_image := image; out_flavor := flavor; add_sources := as_sources s; kernel_source := art_provenance kernel_art;
          out_kernel_layout := kernel; initrd_report := initrd; runtime_config := Some report; run_step_reports := runs;
          staging_path := None |}.

(** What is decided before the staging directory is made. *)
Definition boot_plan (ast : Ast) : vm (Stage * scope * Artifact * str * EntrypointInit) :=
  stage ← vm_of (validate_ast_for_vm ast);
  let globals := resolve_global_args ast (vm_build_args options) in
  let reference := match from_source (stage_from stage) with
                   | FromSource_Reference r => subst_with globals (as_str (value r))
                   | FromSource_Scratch => []
                   end in
  kernel_art ← resolve_kernel reference;
  L ← ask_layout;
  let base := bootable_base L reference in
  init ← vm_of (vm_entrypoint base reference (pick_entrypoint (stage_directives stage)));
  mret (stage, globals, kernel_art, vm_flavor base (pick_flavor (stage_directives stage)), init).

Definition start_state (globals : scope) : AddState :=
  {| as_scope := globals; as_labels := ∅; as_env := ∅; as_override := rootfs_path_override options; as_sources := [] |}.

(** [staging] in place: everything up to the image. *)
Definition build_in (plan : Stage * scope * Artifact * str * EntrypointInit) (tag : str) (t : list str) : vm BootableBuildOutput :=
  let '(stage, globals, kernel_art, flavor, init) := plan in
  s ← stage_walk t (start_state globals) (stage_directives stage);
  finish_vm stage tag globals flavor init kernel_art t s.
End options.

(** [fs::rename] of a directory: over an empty directory or to a new place, not
    below itself. *)
Definition move_tree (l l' : list str) (fs : Fs) : Fs :=
  list_to_map ((fun '(p, n) => (match below l p with Some r => l' ++ r | None => p end, n)) <$> map_to_list fs).
Definition rename_dir (l : list str) (target : Path) : fsio bool := fun fs =>
  match entry_of fs target with
  | Err e => (Err e, fs)
  | Ok l' =>
      if crosses_devices l l' then (Ok false, fs)
      else if bool_decide (l `prefix_of` l') then (Err InvalidInput, fs)
      else match fs !! l' with
           | None => (Ok true, move_tree l l' fs)
           | Some (NDir _) => if is_nil (children fs l') then (Ok true, move_tree l l' (delete l' fs)) else (Err (OtherIo "directory not empty"), fs)
           | Some _ => (Err NotADirectory, fs)
           end
  end.

(** The staging directory moved to [target].  It is detached before the move,
    and stays where it is when the move fails. *)
Definition clear_target (target : Path) : fsio unit :=
  present ← path_exists target;
  (if present : bool then remove_dir_all target else mret tt) ;;
  create_parent target.
Definition move_staging (t : list str) (target : Path) : fsio unit :=
  moved ← rename_dir t target;
  if moved : bool then mret tt
  else copy_dir_recursive (absolute t) target ;; remove_dir_all (absolute t).

Definition persist_staging (t : list str) (target : Path) : fse BootableBuildError Path := fun fs =>
  match clear_target target fs with
  | (Err e, fs) => (Err (VmIo e), remove_tree t fs)
  | (Ok _, fs) => let '(r, fs) := move_staging t target fs in (map_err VmIo r ≫= fun _ => Ok target, fs)
  end.

(** The staging directory is removed with the build, unless it is kept. *)
Definition build_planned (options : BootableBuildOptions) (produced : gmap str str) (tag : str)
    (plan : Stage * scope * Artifact * str * EntrypointInit) : vm BootableBuildOutput :=
  fun '(fs, L) =>
    match temp_dir fs with
    | Err e => (Err (VmStaging (StagingError_Io e)), (fs, L))
    | Ok t =>
        match build_in options produced plan tag t (<[t := NDir []]> fs, L) with
        | (Err e, (fs, L)) => (Err e, (remove_tree t fs, L))
        | (Ok out, (fs, L)) =>
            match staging_keep_path options with
            | None => (Ok out, (remove_tree t fs, L))
            | Some target =>
                match persist_staging t target fs with
                | (Err e, fs) => (Err e, (fs, L))
                | (Ok p, fs) =>
                    (Ok {| out_image := out_image out; out_flavor := out_flavor out; add_sources := add_sources out;
                           kernel_source := kernel_source out; out_kernel_layout := out_kernel_layout out;
                           initrd_report := initrd_report out; runtime_config := runtime_config out;
                           run_step_reports := run_step_reports out; staging_path := Some p |}, (fs, L))
                end
            end
        end
    end.

Definition build_vm (options : BootableBuildOptions) (produced : gmap str str) (ast : Ast) (tag : str) : vm BootableBuildOutput :=
  plan ← boot_plan options ast;
  build_planned options produced tag plan.
End build.

(** ** What a build leaves alone *)

Section keeping.
Context {ZC : ZipCrate} {TF : TempFiles} {T : TarUnpack} {S : Type} `{HE : Engine S} {TH : TreeHost} {V : MicroVm} {BH : BootHost}.

(** Whatever the outcome, [m] takes a world to one related by [R]. *)
Definition keeps_world (R : World -> World -> Prop) {A : Type} (m : vm A) : Prop := forall w, R w (m w).2.

Section relation.
Context (R : World -> World -> Prop) `{!PreOrder R}.

Lemma world_ret {A : Type} (a : A) : keeps_world R (mret a).
Proof. intros w. by cbn. Qed.
Lemma keeps_of {A : Type} (r : result BootableBuildError A) : keeps_world R (vm_of r).
Proof. intros w. by cbn. Qed.
Lemma keeps_ask : keeps_world R ask_layout.
Proof. intros w. by cbn. Qed.
Lemma world_bind {A B : Type} (m : vm A) (k : A -> vm B) :
  keeps_world R m -> (forall a, keeps_world R (k a)) -> keeps_world R (m ≫= k).
Proof.
  intros Hm Hk w. unfold mbind, vm_bind. specialize (Hm w). destruct (m w) as [[a|e] w1]; [|done]. etrans; [exact Hm|apply Hk].
Qed.
Lemma keeps_still {A : Type} (m : fse BootableBuildError A) : (forall fs, (m fs).2 = fs) -> keeps_world R (on_fs m).
Proof. intros H1 [fs L]. unfold on_fs. specialize (H1 fs). destruct (m fs) as [r fs1]. simpl in *. by subst. Qed.
End relation.

(** The walk over the directives, when each ADD keeps [R]. *)
Lemma keeps_walk (R : World -> World -> Prop) `{!PreOrder R} options produced t (ok : Add -> Prop) ds :
  (forall s a, ok a -> keeps_world R (add_directive options produced t s a)) ->
  Forall (fun d => match d with Directive_Add a => ok a | _ => True end) ds ->
  forall s, keeps_world R (stage_walk options produced t s ds).
Proof.
  intros Ha. induction 1 as [|d ds Hd _ IH]; intros s; cbn [stage_walk]; [apply world_ret; exact _|].
  apply world_bind; [exact _| |exact IH]. destruct d; try (apply world_ret; exact _). by apply Ha.
Qed.

(** *** Blobs stay under their hashes *)

Definition addressing (w w' : World) : Prop := addressed sha256 w.2 -> addressed sha256 w'.2.
#[local] Instance addressing_preorder : PreOrder addressing.
Proof. split; [intros w Hw; exact Hw|intros a b c H1 H2 H3; exact (H2 (H1 H3))]. Qed.

(** Pulls store blobs under their hashes. *)
Definition pulls_addressed : Prop := forall f r L, pull = Some f -> addressed sha256 L -> addressed sha256 (f r L).2.

Lemma try_candidates_addressed R arch candidates : pulls_addressed -> forall tried L,
  addressed sha256 L -> addressed sha256 (try_candidates sha256 parse_manifest parse_image parse_reference pull R arch candidates tried L).2.
Proof.
  intros Hp. induction candidates as [|c candidates IH]; intros tried L HL; [done|]. cbn [try_candidates].
  destruct (parse_reference c) as [canonical|]; [|by apply IH]. unfold try_candidate.
  destruct (match layout_lookup_ref L canonical with Some _ => _ | None => _ end) as [layers|]; [done|].
  destruct pull as [f|] eqn:Ef; [|by apply IH]. unfold pull_from_registry.
  specialize (Hp f canonical L Ef HL). destruct (f canonical L) as [r L1]. cbn [snd] in Hp.
  destruct (_ ← map_err ResolveError_Registry r; _) as [art|]; [done|by apply IH].
Qed.

Lemma resolve_layers_addressed R is_file reference o registry_ref arch L : pulls_addressed ->
  addressed sha256 L ->
  addressed sha256 (resolve_layers sha256 parse_manifest parse_image parse_reference is_file search_registries pull R
                      reference o registry_ref arch L).2.
Proof.
  intros Hp HL. unfold resolve_layers. destruct o; [done|]. destruct (parse_reference _); [|done].
  by apply try_candidates_addressed.
Qed.

Lemma on_fs_addressing {A : Type} (m : fse BootableBuildError A) : keeps_world addressing (on_fs m).
Proof. intros [fs L] HL. unfold on_fs. destruct (m fs). exact HL. Qed.

Section addressing.
Context (options : BootableBuildOptions) (produced : gmap str str) (Hpulls : pulls_addressed).

Lemma resolve_kernel_addressing reference : keeps_world addressing (resolve_kernel options reference).
Proof.
  intros [fs L] HL. unfold resolve_kernel, resolve_from_kernel.
  pose proof (resolve_layers_addressed (FromKernelResolver sha256 parse_manifest parse_json) (host_is_file fs) reference
    (from_kernel_path_override options) (from_kernel_registry_ref options) (vm_architecture options) L Hpulls HL) as Hr.
  destruct (resolve_layers _ _ _ _ _ _ _ _ _ _ _ _ L). exact Hr.
Qed.
Lemma resolve_userland_addressing reference o : keeps_world addressing (resolve_userland options reference o).
Proof.
  intros [fs L] HL. unfold resolve_userland, resolve_add.
  pose proof (resolve_layers_addressed AddResolver (host_is_file fs) reference
    o (rootfs_registry_ref options) (vm_architecture options) L Hpulls HL) as Hr.
  destruct (resolve_layers _ _ _ _ _ _ _ _ _ _ _ _ L). exact Hr.
Qed.

Lemma add_directive_addressing t s a : keeps_world addressing (add_directive options produced t s a).
Proof.
  unfold add_directive. destruct (add_source a) as [url|src|r]; apply world_bind; try exact _.
  - apply on_fs_addressing.
  - intros []. apply world_ret; exact _.
  - apply keeps_ask; exact _.
  - intros L. apply world_bind; [exact _|apply on_fs_addressing|intros []; apply world_ret; exact _].
  - apply resolve_userland_addressing.
  - intros art. apply world_bind; [exact _| |intros []; apply world_ret; exact _].
    apply world_bind; [exact _|apply keeps_ask; exact _|intros L; apply on_fs_addressing].
Qed.

Lemma boot_plan_addressing ast : keeps_world addressing (boot_plan options ast).
Proof.
  unfold boot_plan. apply world_bind; [exact _|apply keeps_of; exact _|]. intros stage. cbv zeta.
  apply world_bind; [exact _|apply resolve_kernel_addressing|]. intros art.
  apply world_bind; [exact _|apply keeps_ask; exact _|]. intros L.
  apply world_bind; [exact _|apply keeps_of; exact _|]. intros init. apply world_ret; exact _.
Qed.
End addressing.

(** *** A successful build, step by step *)

Lemma vm_bind_eq {A B : Type} (m : vm A) (k : A -> vm B) w :
  (m ≫= k) w = match m w with (Ok a, w') => k a w' | (Err e, w') => (Err e, w') end.
Proof. reflexivity. Qed.

Lemma vm_bind_Ok {A B : Type} (m : vm A) (k : A -> vm B) w b w' :
  (m ≫= k) w = (Ok b, w') -> exists a w1, m w = (Ok a, w1) /\ k a w1 = (Ok b, w').
Proof. rewrite vm_bind_eq. destruct (m w) as [[a|e] w1]; [by eauto|done]. Qed.

Lemma on_fs_layout {A : Type} (m : fse BootableBuildError A) w r w' : on_fs m w = (r, w') -> w'.2 = w.2.
Proof. destruct w as [fs L]. unfold on_fs. destruct (m fs). by intros [= <- <-]. Qed.

Lemma unpack_artifact_layout t art w r w' : unpack_artifact t art w = (r, w') -> w'.2 = w.2.
Proof. unfold unpack_artifact, ask_layout, mbind, vm_bind. apply on_fs_layout. Qed.

Lemma finish_vm_image options stage tag globals flavor init art t s w out w' :
  finish_vm options stage tag globals flavor init art t s w = (Ok out, w') ->
  exists kernel initrd layer,
    emit_image sha256 print_json print_manifest [layer]
      (boot_config (vm_architecture options) (boot_labels (as_labels s) init kernel initrd flavor) (as_env s) init) tag w.2
    = Ok (out_image out, w'.2) /\ out_flavor out = flavor.
Proof.
  unfold finish_vm.
  intros (u & w1 & E1%unpack_artifact_layout & (kernel & w2 & E2%on_fs_layout & H2)%vm_bind_Ok)%vm_bind_Ok.
  apply vm_bind_Ok in H2 as (report & w3 & E3%on_fs_layout & (runs & w4 & E4%on_fs_layout & H4)%vm_bind_Ok).
  apply vm_bind_Ok in H4 as (initrd & w5 & E5%on_fs_layout & (layer & [fs6 L6] & E6%on_fs_layout & H6)%vm_bind_Ok).
  apply vm_bind_Ok in H6 as (image & w7 & E7 & [= <- <-]). exists kernel, initrd, layer.
  cbn [snd out_image out_flavor] in *. unfold emit_boot_image in E7.
  destruct (emit_image _ _ _ _ _ _ L6) as [[e L7]|] eqn:Ee; [|done]. injection E7 as <- <-. split; [|done].
  replace (snd w) with L6 by (cbn [snd] in *; congruence). exact Ee.
Qed.

Lemma build_vm_image options produced ast tag fs L out w' :
  build_vm options produced ast tag (fs, L) = (Ok out, w') ->
  exists stage globals art init s kernel initrd layer L2 w1,
    boot_plan options ast (fs, L) = (Ok (stage, globals, art, out_flavor out, init), w1)
    /\ (pulls_addressed -> addressed sha256 L -> addressed sha256 L2)
    /\ emit_image sha256 print_json print_manifest [layer]
         (boot_config (vm_architecture options) (boot_labels (as_labels s) init kernel initrd (out_flavor out)) (as_env s) init) tag L2
       = Ok (out_image out, w'.2).
Proof.
  unfold build_vm. intros ([[[[stage globals] art] flavor] init] & [fs1 L1] & E1 & H1)%vm_bind_Ok.
  unfold build_planned in H1. destruct (temp_dir fs1) as [t|]; [|done].
  destruct (build_in _ _ _ _ _ _) as [[out1|] [fs3 L3]] eqn:E2; [|done].
  unfold build_in in E2. apply vm_bind_Ok in E2 as (s & [fs2 L2] & E2 & E3).
  apply finish_vm_image in E3 as (kernel & initrd & layer & E3 & <-). cbn [snd] in E3.
  assert (Hout : out_image out = out_image out1 /\ out_flavor out = out_flavor out1 /\ w'.2 = L3).
  { destruct (staging_keep_path options); [|by injection H1 as <- <-].
    destruct (persist_staging _ _ _) as [[p|] fs4]; [|done]. by injection H1 as <- <-. }
  destruct Hout as (-> & -> & ->). exists stage, globals, art, init, s, kernel, initrd, layer, L2, (fs1, L1).
  split_and!; [done| |done]. intros Hp HL.
  assert (HW : keeps_world addressing (stage_walk options produced t (start_state options globals) (stage_directives stage))).
  { apply (keeps_walk addressing options produced t (fun _ => True)); [|by apply Forall_true; intros []].
    intros. by apply add_directive_addressing. }
  specialize (HW (<[t := NDir []]> fs1, L1)). rewrite E2 in HW. apply HW. cbn [snd].
  pose proof (boot_plan_addressing options Hp ast (fs, L)) as HB. rewrite E1 in HB. by apply HB.
Qed.
End keeping.

(** ** Extending a bootable image *)

Lemma inherited_same init profile :
  Introspect.labels profile !! ENTRYPOINT = Some (entrypoint_label init) ->
  Introspect.entrypoint profile = appliance_argv init -> appliance_argv init <> Some [] ->
  exists init', inherited_entrypoint profile = Some init' /\ entrypoint_label init' = entrypoint_label init
    /\ appliance_argv init' = appliance_argv init.
Proof.
  intros Hl He Hne. unfold inherited_entrypoint. rewrite Hl, He. destruct init as [| |p|argv|]; cbn in *; try by eauto.
  destruct argv as [|a argv]; [done|]. cbn. eexists. split; [reflexivity|]. split; [done|]. cbn. by rewrite <- list_fmap_compose, list_fmap_id.
Qed.

Lemma cmdline_of_argv init init' :
  appliance_argv init = appliance_argv init' -> appliance_init_cmdline init = appliance_init_cmdline init'.
Proof. unfold appliance_argv, appliance_init_cmdline. intros E. by rewrite E. Qed.

(** Looking past a label of another name. *)
Ltac other_label := rewrite lookup_insert_ne by (let Hx := fresh in intros Hx; vm_compute in Hx; discriminate Hx).

Lemma boot_labels_shape user init kernel initrd flavor :
  boot_labels user init kernel initrd flavor !! FLAVOR = Some flavor
  /\ boot_labels user init kernel initrd flavor !! ENTRYPOINT = Some (entrypoint_label init).
Proof.
  unfold boot_labels. split; [apply lookup_insert_eq|]. do 2 other_label.
  destruct initrd; [other_label|]; (destruct (is_nil _); [|other_label]); do 2 other_label; apply lookup_insert_eq.
Qed.

Lemma boot_config_labels arch user env init kernel initrd flavor
    (config := boot_config arch (boot_labels user init kernel initrd flavor) env init) :
  final_labels config !! FLAVOR = Some flavor /\ final_labels config !! ENTRYPOINT = Some (entrypoint_label init).
Proof.
  destruct (boot_labels_shape user init kernel initrd flavor) as [H1 H2]. unfold final_labels, config.
  cbn [boot_config ic_container cc_labels]. split; do 2 other_label; done.
Qed.

Section extending.
Context {ZC : ZipCrate} {TF : TempFiles} {T : TarUnpack} {S : Type} `{HE : Engine S} {TH : TreeHost} {V : MicroVm} {BH : BootHost}.

(** The documents of an image with the one layer, as they are read. *)
Definition reads_back (layer : LayerSource) (config : ImageConfig) : Prop :=
  let v := config_value (config_doc [layer] config) in
  let m := image_manifest sha256 [layer] (print_json v) (sha256_digest sha256 (print_json v)) in
  parse_json (print_json v) = Some v /\ parse_manifest (print_manifest m) = Some (OciManifest_Image m).

(** C12 (roundtrip): An image hands its way of booting on to the recipes that
    extend it under the reference it was emitted with.  A build that succeeds emits
    its image with the labels of its entrypoint and flavor, into a layout whose
    blobs are under their hashes if they were so before; and an image emitted
    with such labels, read back under exactly the tag it was emitted with, is a
    bootable base of every architecture that gives a recipe without a flavor its
    flavor and a recipe without an ENTRYPOINT its init system, or the words and
    the kernel command line of its first process.  (A FROM that spells the tag
    otherwise, for example without its registry, finds no base:
    [BootExample.short_name_loses_base].)  The hash is assumed to have no collisions
    and printed documents to parse back. *)
Theorem bootable_base_inherited :
  (forall s, hex_name (sha256 s)) -> (forall s s', sha256 s = sha256 s' -> s = s') ->
  (forall options produced ast tag fs L out w',
     build_vm options produced ast tag (fs, L) = (Ok out, w') ->
     exists stage globals art init s kernel initrd layer L2 w1,
       boot_plan options ast (fs, L) = (Ok (stage, globals, art, out_flavor out, init), w1)
       /\ (pulls_addressed -> addressed sha256 L -> addressed sha256 L2)
       /\ emit_image sha256 print_json print_manifest [layer]
            (boot_config (vm_architecture options) (boot_labels (as_labels s) init kernel initrd (out_flavor out)) (as_env s) init)
            tag L2 = Ok (out_image out, w'.2))
  /\ (forall arch user env init kernel initrd flavor layer tag L e L',
        let config := boot_config arch (boot_labels user init kernel initrd flavor) env init in
        addressed sha256 L -> reads_back layer config ->
        emit_image sha256 print_json print_manifest [layer] config tag L = Ok (e, L') ->
        exists profile,
          (forall options, bootable_base options L' tag = Some profile)
          /\ (forall ds, find_last flavor_label ds = None -> vm_flavor (Some profile) (pick_flavor ds) = flavor)
          /\ (appliance_argv init <> Some [] ->
              exists init', (forall ds, pick_entrypoint ds = None -> vm_entrypoint (Some profile) tag (pick_entrypoint ds) = Ok init')
                /\ entrypoint_label init' = entrypoint_label init /\ appliance_argv init' = appliance_argv init
                /\ appliance_init_cmdline init' = appliance_init_cmdline init)).
Proof.
  intros Hhex Hinj. split; [apply build_vm_image|]. intros arch user env init kernel initrd flavor layer tag L e L' config HL [HJ HM] E.
  destruct (introspect_emitted sha256 Hhex Hinj print_json print_manifest parse_manifest parse_image parse_json L [layer] config tag
    HJ HM HL) as (e' & L'' & E' & _ & Hi). rewrite E in E'. injection E' as <- <-.
  destruct (boot_config_labels arch user env init kernel initrd flavor) as [Hf He]. fold config in Hf, He.
  eexists. split; [intros options; unfold bootable_base; rewrite Hi; reflexivity|]. split.
  - intros ds Hd. unfold pick_flavor. rewrite Hd. cbn [vm_flavor Introspect.labels]. by rewrite Hf.
  - intros Hne.
    match goal with |- context [vm_entrypoint (Some ?p)] => destruct (inherited_same init p) as (init' & H1 & H2 & H3) end; [done..|].
    exists init'. split_and!; [|done|done|by apply cmdline_of_argv]. intros ds ->. cbn [vm_entrypoint]. by rewrite H1.
Qed.
End extending.

(** ** What a build leaves of the host's file system *)

(** Directives of a bootable stage that neither run anything nor write through
    the links of the tree, nor unpack the image of an earlier stage (whose opaque
    directories [Materialize.Layers.opaque_clear_escapes] is about). *)
Definition quiet (d : Directive) : Prop :=
  match d with
  | Directive_Run _ | Directive_Expose _ | Directive_Workdir _ => False
  | Directive_Add a => add_from a = None
  | _ => True
  end.
Definition no_download (d : Directive) : Prop :=
  match d with Directive_Add a => match add_source a with AddSource_Url _ => False | _ => True end | _ => True end.

#[export] Instance unchanged_preorder : PreOrder unchanged.
Proof. split; [done|]. unfold unchanged. intros a b c -> ->. done. Qed.
#[export] Instance at_most_new_dir_preorder : PreOrder at_most_new_dir.
Proof.
  split; [exact _|]. intros a b c [->|[-> ->]]; [done|]. intros [->|[E ->]]; [by right|discriminate E].
Qed.

Lemma quiet_no_ports ds : Forall quiet ds -> exposes_of ds = [].
Proof. induction 1 as [|d ds Hd _ IH]; [done|]. by destruct d. Qed.

Lemma no_ports_still stage root fs : exposes_of (stage_directives stage) = [] -> (apply_runtime_config stage root fs).2 = fs.
Proof.
  intros E. unfold apply_runtime_config. rewrite E. by destruct (pick_init_system _).
Qed.

Section leaving.
Context {ZC : ZipCrate} {TF : TempFiles} {T : TarUnpack} {S : Type} `{HE : Engine S} {TH : TreeHost} {V : MicroVm} {BH : BootHost}.

Lemma quiet_runs_still h q kvm args t kernel ds : Forall quiet ds -> forall c fs,
  (run_directives h q kvm args t kernel c ds fs).2 = fs.
Proof. induction 1 as [|d ds Hd _ IH]; intros c fs; [done|]. destruct d; try done; apply IH. Qed.

Context (C : option Node -> option Node -> Prop) `{!PreOrder C} (t : list str).

(** [t] stays a directory, and all else changes by [C] at most. *)
Definition leaves (w w' : World) : Prop :=
  real_dir w.1 t -> real_dir w'.1 t /\ forall p, ~ t `prefix_of` p -> C (w.1 !! p) (w'.1 !! p).
#[local] Instance leaves_preorder : PreOrder leaves.
Proof.
  split; [by intros w Hw|]. intros a b c H1 H2 Ha. destruct (H1 Ha) as [Hb Hp]. destruct (H2 Hb) as [Hc Hq].
  split; [done|]. intros p Hn. etrans; [by apply Hp|by apply Hq].
Qed.

Lemma on_fs_leaves {A : Type} (R : Fs -> Fs -> Prop) (m : fse BootableBuildError A) Q :
  (forall a b p, R a b -> ~ t `prefix_of` p -> C (a !! p) (b !! p)) ->
  triple t R (fun _ => True) m Q -> keeps_world leaves (on_fs m).
Proof.
  intros HC Hm [fs L] Hr. destruct (Hm fs Hr I) as (H1 & H2 & _). unfold on_fs. destruct (m fs) as [r fs1]. cbn in *.
  split; [done|]. intros p Hp. by apply (HC fs fs1 p).
Qed.

Lemma inside_leaves {A : Type} (m : fse BootableBuildError A) Q :
  triple t (same_outside t) (fun _ => True) m Q -> keeps_world leaves (on_fs m).
Proof. apply on_fs_leaves. intros a b p Ho Hp. by rewrite (Ho p Hp). Qed.

Lemma unpack_leaves art : keeps_world leaves (unpack_artifact t art).
Proof.
  apply world_bind; [exact _|apply keeps_ask; exact _|]. intros L. eapply inside_leaves, triple_convert, layer_files_inside.
Qed.

Section directives.
Context (options : BootableBuildOptions) (produced : gmap str str).

(** ADD of a URL needs [C] to allow new directories. *)
Definition add_allowed (a : Add) : Prop :=
  add_from a = None
  /\ match add_source a with AddSource_Url _ => forall x y, at_most_new_dir x y -> C x y | _ => True end.

Lemma resolve_userland_leaves reference o : keeps_world leaves (resolve_userland options reference o).
Proof. intros [fs L] Hr. unfold resolve_userland. destruct (resolve_add _ _ _ _ _ _ _ _ _ _ _ L). by split. Qed.
Lemma resolve_kernel_still reference w : (resolve_kernel options reference w).2.1 = w.1.
Proof. destruct w as [fs L]. unfold resolve_kernel. by destruct (resolve_from_kernel _ _ _ _ _ _ _ _ _ _ _ _ L). Qed.

Lemma add_directive_leaves s a : add_allowed a -> keeps_world leaves (add_directive options produced t s a).
Proof.
  intros [Hf Ha]. unfold add_directive. destruct (add_source a) as [url|src|r]; apply world_bind; try exact _.
  - eapply on_fs_leaves; [|apply add_url_stays]. intros x y p Hd Hp. by apply Ha, (Hd p Hp).
  - intros []. apply world_ret; exact _.
  - apply keeps_ask; exact _.
  - intros L. apply world_bind; [exact _| |intros []; apply world_ret; exact _].
    eapply inside_leaves. rewrite Hf. apply add_local_inside.
  - apply resolve_userland_leaves.
  - intros art. apply world_bind; [exact _|apply unpack_leaves|intros []; apply world_ret; exact _].
Qed.

Lemma written_file_inside {E : Type} (f : IoError -> E) data dst :
  triple t (same_outside t) (fun fs => exists l, dst = absolute (t ++ l) /\ spot fs (t ++ l)) (lift f (write_file dst data)) (fun _ _ => True).
Proof.
  apply (copy_inside t f (fun p => write_file p data)); intros fs l Hs; unfold write_file.
  - rewrite walk_create_spot by done. apply write_at_outside.
  - rewrite walk_create_spot by by apply real_spot. apply real_dir_self in Hs. unfold write_at.
    destruct (fs !! l) as [[]|] eqn:El; try done. cbn [snd]. by rewrite El.
Qed.

Lemma write_initramfs_inside kernel init :
  triple t (same_outside t) (fun _ => True) (write_initramfs t kernel init) (fun _ _ => True).
Proof.
  unfold write_initramfs. destruct (is_init_system init); [|apply staged_ret; exact _].
  eapply staged_bind; [exact _| |].
  { apply triple_convert, triple_still; [exact _|]. by intros. }
  intros [bytes report]. eapply staged_bind; [exact _|apply write_path_inside|]. intros dst.
  eapply staged_bind; [exact _|apply written_file_inside|]. intros []. apply staged_ret; exact _.
Qed.

Lemma finish_leaves stage tag globals flavor init art s :
  Forall quiet (stage_directives stage) -> keeps_world leaves (finish_vm options stage tag globals flavor init art t s).
Proof.
  intros Hq. unfold finish_vm. apply world_bind; [exact _|apply unpack_leaves|]. intros [].
  apply world_bind; [exact _|apply keeps_still; [exact _|by intros]|]. intros kernel.
  apply world_bind; [exact _|apply keeps_still; [exact _|]|].
  { intros fs. rewrite convert_eq. by apply no_ports_still, quiet_no_ports. }
  intros report. apply world_bind; [exact _|apply keeps_still; [exact _|]|].
  { intros fs. rewrite convert_eq. by apply quiet_runs_still. }
  intros runs. apply world_bind; [exact _|eapply inside_leaves, write_initramfs_inside|]. intros initrd.
  apply world_bind; [exact _|apply keeps_still; [exact _|by intros]|]. intros layer.
  apply world_bind; [exact _| |intros image; apply world_ret; exact _].
  intros [fs L] Hr. unfold emit_boot_image. destruct (emit_image _ _ _ _ _ _ L) as [[]|]; by split.
Qed.

Lemma build_in_leaves stage globals art flavor init tag :
  Forall quiet (stage_directives stage) ->
  Forall (fun d => match d with Directive_Add a => add_allowed a | _ => True end) (stage_directives stage) ->
  keeps_world leaves (build_in options produced (stage, globals, art, flavor, init) tag t).
Proof.
  intros Hq Ha. unfold build_in. apply world_bind; [exact _| |intros s; by apply finish_leaves].
  apply (keeps_walk leaves options produced t add_allowed); [|done]. intros s a Hok. by apply add_directive_leaves.
Qed.
End directives.
End leaving.

Section host.
Context {ZC : ZipCrate} {TF : TempFiles} {T : TarUnpack} {S : Type} `{HE : Engine S} {TH : TreeHost} {V : MicroVm} {BH : BootHost}.

Lemma validate_last ast stage : validate_ast_for_vm ast = Ok stage -> last (stages ast) = Some stage.
Proof.
  unfold validate_ast_for_vm. destruct (last (stages ast)) as [stage'|]; [|done]. cbn [ok_or mbind result_bind].
  destruct (from_source _); [done|]. destruct (reject_container_only _); [|done]. by intros [= ->].
Qed.

Lemma boot_plan_still options ast w r w' :
  boot_plan options ast w = (r, w') ->
  w'.1 = w.1 /\ forall stage globals art flavor init, r = Ok (stage, globals, art, flavor, init) -> last (stages ast) = Some stage.
Proof.
  unfold boot_plan. rewrite vm_bind_eq. unfold vm_of at 1.
  destruct (validate_ast_for_vm ast) as [stage|] eqn:Ev; [|by intros [= <- <-]]. apply validate_last in Ev. cbv zeta.
  rewrite vm_bind_eq. match goal with |- context [resolve_kernel _ ?x] => pose proof (resolve_kernel_still options x w) as Hs end.
  destruct (resolve_kernel options _ w) as [[art|] w1]; cbn [snd] in Hs; [|by intros [= <- <-]].
  rewrite vm_bind_eq. unfold ask_layout at 1. cbv iota beta. rewrite vm_bind_eq. unfold vm_of at 1.
  destruct (vm_entrypoint _ _ _) as [init|]; intros [= <- <-]; (split; [done|]); [|done].
  intros stage' ? ? ? ? E. by injection E as <-.
Qed.

(** The staging directory comes and goes; [C] bounds what else changes. *)
Lemma build_vm_leaves (C : option Node -> option Node -> Prop) `{!PreOrder C} options produced ast tag fs L :
  staging_keep_path options = None ->
  (forall stage, last (stages ast) = Some stage ->
     Forall quiet (stage_directives stage)
     /\ Forall (fun d => match d with Directive_Add a => add_allowed C a | _ => True end) (stage_directives stage)) ->
  forall p, C (fs !! p) ((build_vm options produced ast tag (fs, L)).2.1 !! p).
Proof.
  intros Hk Hs p. unfold build_vm. rewrite vm_bind_eq.
  destruct (boot_plan options ast (fs, L)) as [r [fs1 L1]] eqn:Ep. apply boot_plan_still in Ep as [E1 E2]. cbn [fst] in E1. subst fs1.
  destruct r as [[[[[stage globals] art] flavor] init]|]; [|done]. destruct (Hs stage) as [Hq Ha]; [by eapply E2|].
  unfold build_planned. destruct (temp_dir fs) as [t|] eqn:Et; [|done]. apply temp_dir_unused in Et as Hu.
  pose proof (build_in_leaves C t options produced stage globals art flavor init tag Hq Ha (<[t := NDir []]> fs, L1)
                (scratch_real fs t Hu)) as [_ Hl].
  assert (Hp : forall fs2, (forall q, ~ t `prefix_of` q -> C (<[t := NDir []]> fs !! q) (fs2 !! q)) -> C (fs !! p) (remove_tree t fs2 !! p)).
  { intros fs2 H2. rewrite lookup_remove_tree. case_bool_decide as Hx; [destruct Hx as [x ->], Hu as [Hu _]; by rewrite Hu|].
    specialize (H2 p Hx). rewrite lookup_insert_ne in H2; [done|by intros ->]. }
  destruct (build_in _ _ _ _ _ _) as [[out|e] [fs2 L2]]; cbn [fst snd] in Hl; rewrite ?Hk; by apply Hp.
Qed.

(** C11 (safety): A bootable build whose last stage has no RUN, EXPOSE, WORKDIR or
    ADD --from, and whose staging tree is not kept, leaves the file system of the
    host as it found it, whatever links the layers of its base and of its ADDs, the
    archives and the local sources contain, and whether it succeeds or fails: no
    entry is changed or removed, and all that is new are empty directories which a
    downloaded zip archive may have made.  Without downloads nothing is new
    either. *)
Theorem quiet_build_leaves_host options produced ast tag fs L :
  staging_keep_path options = None ->
  (forall stage, last (stages ast) = Some stage -> Forall quiet (stage_directives stage)) ->
  let fs' := (build_vm options produced ast tag (fs, L)).2.1 in
  (forall p, fs' !! p = fs !! p \/ (fs !! p = None /\ fs' !! p = Some (NDir [])))
  /\ ((forall stage, last (stages ast) = Some stage -> Forall no_download (stage_directives stage)) -> fs' = fs).
Proof.
  intros Hk Hq. split.
  - apply (build_vm_leaves at_most_new_dir); [done|]. intros stage Hl. split; [by apply Hq|].
    eapply Forall_impl; [by apply Hq|]. intros [] Hd; try done. split; [done|]. by destruct (add_source _).
  - intros Hn. apply map_eq. apply (build_vm_leaves unchanged); [done|]. intros stage Hl. split; [by apply Hq|].
    specialize (Hn stage Hl). eapply Forall_impl; [apply Forall_and; split; [by apply Hq|exact Hn]|].
    intros [] [Hd He]; try done. split; [done|]. unfold no_download in He. by destruct (add_source _).
Qed.
End host.

(** ** A small build *)

Module BootExample.

(** Every archive is a kernel with busybox. *)
Definition contents : list (list str * Node) :=
  [(["boot" : str], NDir []); (["boot" : str; "vmlinuz-6.6" : str], NFile "kernel"); (["bin" : str], NDir []);
   (["bin" : str; "busybox" : str], NFile "b"); (["lib" : str], NDir []); (["lib" : str; "modules" : str], NDir []);
   (["lib" : str; "modules" : str; "6.6" : str], NDir []); (["lib" : str; "modules" : str; "6.6" : str; "modules.dep" : str], NFile [])].
Definition unpacked (t : list str) (fs : Fs) : Fs := foldr (fun '(r, n) fs => <[t ++ r := n]> fs) fs contents.

Lemma below_kept (t r : list str) (n : Node) (fs fs' : Fs) :
  r <> [] -> same_outside t fs fs' /\ real_dir fs' t -> same_outside t fs (<[t ++ r := n]> fs') /\ real_dir (<[t ++ r := n]> fs') t.
Proof.
  intros Hr [H1 H2]. split; [etrans; [exact H1|by apply same_outside_insert, prefix_app_r]|]. intros q Hq.
  rewrite lookup_insert_ne; [by apply H2|]. intros <-. apply prefix_length in Hq. rewrite length_app in Hq. destruct r; [done|]. simpl in Hq. lia.
Qed.

#[export] Instance toy_tar : TarUnpack.
Proof.
  refine {| archive_unpack := fun _ p fs => (Ok tt, unpacked (ModelTar.locate p) fs) |}.
  intros b t fs Hr. cbn [snd]. assert (El : ModelTar.locate (absolute t) = t).
  { unfold ModelTar.locate, absolute. cbn. clear Hr. induction t as [|c t IH]; [done|]. cbn. f_equal. exact IH. }
  rewrite El. unfold unpacked, contents. cbn [foldr]. repeat (apply below_kept; [done|]). done.
Defined.

(** The recipe. *)
Definition lines_of (l : list string) : str := concat ((fun s => bytes_of s ++ [lf]) <$> l).
Definition ast_of (l : list string) : Ast := match Parse.parse (lines_of l) with Val (Ok ast) => ast | _ => Ast_default end.
Definition recipe : Ast :=
  ast_of ["FROM k:1"; "LABEL org.imagilux.umf.flavor=uki"; "ADD a /etc/"; "ENTRYPOINT /sbin/appliance"].

(** What the recipe of the kernel and this one produce. *)
Definition hex := ModelLayout.hexify.
Definition kernel_layer : LayerSource := ResolveExample.layer.
Definition kernel_config : ImageConfig := ResolveExample.config.
Definition built_layer : LayerSource :=
  {| layer_data := "tar"; layer_media_type := media_type LayerCompression_Gzip; layer_diff_id := sha256_digest hex "tar" |}.
Definition init : EntrypointInit := EntrypointInit_Path (mkSpanned ("/sbin/appliance" : str) (mkSpan 0 0)).
Definition built_labels : gmap str str := boot_labels {[ FLAVOR := ("uki" : str) ]} init (layout_of "vmlinuz-6.6" "6.6") None "uki".
Definition built_config : ImageConfig := boot_config X86_64 built_labels ∅ init.

#[export] Instance boot_engine : @Engine str MemSource.mem_reader.
Proof.
  refine {| e_host := SandboxExample.host; e_tar := ModelTar.tar; e_codecs := MemSource.codecs; sha256 := hex;
     parse_manifest := fun b =>
       if decide (b = "M") then Some (OciManifest_Image (image_manifest hex [kernel_layer] "J" (sha256_digest hex "J")))
       else if decide (b = "N") then Some (OciManifest_Image (image_manifest hex [built_layer] "B" (sha256_digest hex "B")))
       else None;
     parse_image := fun _ => None;
     parse_json := fun b =>
       if decide (b = "J") then Some (config_value (config_doc [kernel_layer] kernel_config))
       else if decide (b = "B") then Some (config_value (config_doc [built_layer] built_config))
       else None;
     serialise_spec := fun _ => Ok []; display_location := fun p => concat p;
     io_to_string := fun _ => "io"; slice := fun b => b; read_fuel := 600%nat; encoder_available := false;
     mount_available := false; ensure_layer_erofs := fun _ _ => Err (EngineError_Io "encoder");
     mount_erofs := fun _ => Err (EngineError_Io "mount") |}.
Defined.

#[export] Instance boot_host : BootHost := {|
  pull := None; parse_reference := ResolveExample.parse_reference; search_registries := [];
  fetch_payload := fun url => Err (AddUrlFetchFailed url "offline"); archive_bytes := fun _ => "tar";
  compress_bytes := fun _ b => Ok b; print_json := fun _ => "B"; print_manifest := fun _ => "N";
  rootless_context := SandboxExample.ctx; run_host := RunExample.host; crosses_devices := fun _ _ => false
|}.
#[export] Existing Instance ZipExample.toy_zip.
#[export] Existing Instance ModelTemp.model_temp.
#[export] Existing Instance RunExample.toy_host.
#[export] Existing Instance RunExample.toy_vm.

Definition options : BootableBuildOptions :=
  {| rootfs_path_override := None; rootfs_registry_ref := None; from_kernel_path_override := None; from_kernel_registry_ref := None;
     staging_keep_path := None; vm_qemu_path := None; vm_kvm_available := false; vm_architecture := X86_64;
     vm_compression := LayerCompression_Gzip; vm_context := absolute ["c" : str]; vm_build_args := ∅ |}.
Definition before : Fs := list_to_map [([], NDir []); (["c" : str], NDir []); (["c" : str; "a" : str], NFile "x")].
Definition L0 : ImageLayout := ResolveExample.cached.
Definition app : str := "docker.io/library/app:1".
Definition result_of := build_vm (S := str) (HE := boot_engine) options ∅ recipe app (before, L0).

Lemma quiet_build_leaves_host_witness : (exists out, result_of.1 = Ok out) /\ result_of.2.1 = before.
Proof.
  split; [vm_compute; eexists; reflexivity|].
  destruct (quiet_build_leaves_host (S := str) (HE := boot_engine) options ∅ recipe app before L0) as [_ H].
  - reflexivity.
  - intros stage. vm_compute. intros [= <-]. repeat constructor.
  - apply H. intros stage. vm_compute. intros [= <-]. repeat constructor.
Defined.

Lemma bootable_base_inherited_witness :
  exists profile init', bootable_base (HE := boot_engine) options result_of.2.2 app = Some profile
    /\ vm_flavor (Some profile) (pick_flavor []) = "uki"
    /\ vm_entrypoint (Some profile) app None = Ok init' /\ appliance_argv init' = Some ["/sbin/appliance" : str].
Proof.
  destruct (bootable_base_inherited (S := str) (HE := boot_engine) ModelLayout.hexify_name ModelLayout.hexify_inj) as [_ H].
  destruct (emit_image hex print_json print_manifest [built_layer] built_config app L0) as [[e L']|] eqn:E;
    [|vm_compute in E; discriminate E].
  destruct (H X86_64 {[ FLAVOR := ("uki" : str) ]} ∅ init (layout_of "vmlinuz-6.6" "6.6") None "uki" built_layer app L0 e L')
    as (profile & H1 & H2 & H3).
  - apply (bool_decide_unpack _). vm_compute. exact I.
  - split; reflexivity.
  - exact E.
  - destruct H3 as (init' & H4 & _ & H5 & _); [discriminate|]. exists profile, init'. split.
    + replace (result_of.2.2) with L'; [apply H1|]. vm_compute in E. injection E as <- <-. vm_compute. reflexivity.
    + split; [by apply H2|]. split; [by apply (H4 [])|]. exact H5.
Defined.

(** The base is looked up under the name the recipe gives it, and the layout
    knows it by its full name: a short name resolves to the image, but nothing is
    inherited. *)
Definition plan_of (l : list string) : option (str * EntrypointInit) :=
  match (boot_plan (S := str) (HE := boot_engine) options (ast_of l) result_of.2).1 with
  | Ok (_, _, _, flavor, i) => Some (flavor, i)
  | Err _ => None
  end.
Example short_name_loses_base :
  plan_of ["FROM docker.io/library/app:1"] = Some ("uki" : str, EntrypointInit_Exec [mkSpanned ("/sbin/appliance" : str) (mkSpan 0 0)])
  /\ plan_of ["FROM app:1"] = Some ("systemd-boot" : str, EntrypointInit_Systemd).
Proof. vm_compute. split; reflexivity. Qed.

(** EXPOSE looks at the recipe's own ENTRYPOINT: over a base whose first process
    is no init system it still writes rules for systemd. *)
Example expose_ignores_base :
  (snd <$> plan_of ["FROM docker.io/library/app:1"; "EXPOSE 80"])
    = Some (EntrypointInit_Exec [mkSpanned ("/sbin/appliance" : str) (mkSpan 0 0)])
  /\ option_map (fun s => pick_init_system (stage_directives s)) (last (stages (ast_of ["FROM docker.io/library/app:1"; "EXPOSE 80"])))
     = Some (Ok (Some InitSystemKind_Systemd)).
Proof. vm_compute. split; reflexivity. Qed.

(** A LABEL of the recipe stays where the build has no value of its own. *)
Example cmdline_label_kept :
  boot_labels {[ KERNEL_CMDLINE := ("init=/bin/sh" : str) ]} EntrypointInit_Systemd (layout_of "vmlinuz-6.6" "6.6") None "uki"
    !! KERNEL_CMDLINE = Some ("init=/bin/sh" : str).
Proof. vm_compute. reflexivity. Qed.

(** WORKDIR makes its directory through the links of the tree. *)
Example workdir_through_link :
  let fs : Fs := list_to_map [([], NDir []); (["host" : str], NDir []); (["t" : str], NDir []);
                              (["t" : str; "w" : str], NLink (absolute ["host" : str]))] in
  match last (stages (ast_of ["FROM k:1"; "WORKDIR /w/made"])) with
  | Some stage =>
      (run_all_run_directives RunExample.host None false ∅ stage ["t" : str] (layout_of "vmlinuz-6.6" "6.6") ∅ fs).2
        !! ["host" : str; "made" : str] = Some (NDir [])
  | None => False
  end.
Proof. vm_compute. reflexivity. Qed.
End BootExample.
