(* ===== verification/Vmm.v ===== *)
(** * Vmm: the command line of a virtual machine
    (crates/umf-vmm/src/runtime.rs and backends/qemu/spawn.rs).

    A [VmSpec] is rendered as the arguments of QEMU.  [qemu_machine] is a reader
    of QEMU's option syntax (options with their values, comma-separated
    properties, a doubled comma for a comma), and the first theorem says that
    QEMU reads back the machine that was asked for.  The second is about the
    micro-VMs of a build: whatever the paths of the build are, the tap of the
    policed network is their only network.

    A path is its text. *)

From Stdlib Require Import ZifyBool.
From stdpp Require Import gmap list.
From S2P Require Import Prelude RustStr RustStrFacts Target Identifiers Ssrf HostNet HostFs Initrd Kernel BuildStaging BootRun.
#[local] Open Scope Z_scope.

(** ** The specification of a machine (runtime.rs) *)

Inductive Firmware :=
| Firmware_Bios (path : str)
| Firmware_Pflash (code vars : str).

Inductive BootSource :=
| BootSource_Disk (path : str) (firmware : option Firmware)
| BootSource_DirectKernel (kernel initrd cmdline : str).

Inductive DisplayMode := DisplayMode_None | DisplayMode_Window.
Inductive ControlMode := ControlMode_Channel | ControlMode_None.
Inductive SerialMode := SerialMode_Inherit | SerialMode_File (path : str).

(** An address is an integer below 2^32, a port one below 2^16. *)
Record PortForward := { bind_addr : option Z; host_port : N; guest_port : N; tcp : bool }.
Record NinePShare := { host_path : str; mount_tag : str }.
Record TapNet := { netns_fd : Z; tap : str }.

(** [VmArch] is the enumeration of [Architecture], and has its serial console. *)
Record VmSpec := {
  arch : Architecture;
  boot : BootSource;
  memory_mib : N;
  cpus : N;
  kvm : bool;
  display : DisplayMode;
  port_forwards : list PortForward;
  net : option TapNet;
  control : ControlMode;
  shares : list NinePShare;
  serial : SerialMode
}.

Definition vm_binary_name (a : Architecture) : str :=
  match a with X86_64 => "qemu-system-x86_64" | Aarch64 => "qemu-system-aarch64" end.

Definition VmSpec_from_disk (host : Architecture) (disk : str) : VmSpec :=
  {| arch := host; boot := BootSource_Disk disk None; memory_mib := 1024; cpus := 2; kvm := true;
     display := DisplayMode_None; port_forwards := []; net := None; control := ControlMode_Channel;
     shares := []; serial := SerialMode_Inherit |}.

(** ** The arguments (spawn.rs) *)

Definition format_hostfwd (pf : PortForward) : str :=
  let proto : str := if tcp pf then "tcp" else "udp" in
  let host_addr : str := match bind_addr pf with Some addr => ipv4_text addr | None => [] end in
  ",hostfwd=" ++ proto ++ ":" ++ host_addr ++ ":" ++ to_decimal (host_port pf) ++ "-:" ++ to_decimal (guest_port pf).

Definition machine_args (spec : VmSpec) : list str :=
  let board : str := match arch spec with X86_64 => "q35" | Aarch64 => "virt" end in
  let accel : str := if kvm spec then "kvm" else "tcg" in
  ["-machine" : str; board ++ ",accel=" ++ accel]
  ++ (if kvm spec
      then match arch spec with X86_64 => ["-enable-kvm" : str] | Aarch64 => [] end ++ ["-cpu" : str; "host" : str]
      else ["-cpu" : str; "max" : str])
  ++ ["-m" : str; to_decimal (memory_mib spec); "-smp" : str; to_decimal (cpus spec); "-no-reboot" : str].

Definition display_args (spec : VmSpec) : list str :=
  match display spec with
  | DisplayMode_None =>
      ["-display" : str; "none" : str; "-serial" : str;
       match serial spec with SerialMode_Inherit => ("mon:stdio" : str) | SerialMode_File path => "file:" ++ path end]
  | DisplayMode_Window => []
  end.

Definition qmp_args (qmp_socket : option str) : list str :=
  match qmp_socket with Some sock => ["-qmp" : str; "unix:" ++ sock ++ ",server,nowait"] | None => [] end.

Definition firmware_args (fw : option Firmware) : list str :=
  match fw with
  | Some (Firmware_Bios fw) => ["-bios" : str; fw]
  | Some (Firmware_Pflash code vars) =>
      ["-drive" : str; "if=pflash,format=raw,unit=0,readonly=on,file=" ++ code;
       "-drive" : str; "if=pflash,format=raw,unit=1,file=" ++ vars]
  | None => []
  end.

Definition boot_args (b : BootSource) : list str :=
  match b with
  | BootSource_Disk path fw => ["-drive" : str; "file=" ++ path ++ ",if=virtio,format=raw"] ++ firmware_args fw
  | BootSource_DirectKernel kernel initrd cmdline =>
      ["-kernel" : str; kernel; "-initrd" : str; initrd; "-append" : str; cmdline]
  end.

Definition share_args (i : nat) (share : NinePShare) : list str :=
  ["-virtfs" : str; "local,path=" ++ host_path share ++ ",mount_tag=" ++ mount_tag share
                    ++ ",security_model=mapped-xattr,id=umf9p" ++ nat_to_decimal i].

Definition net_args (spec : VmSpec) : list str :=
  ["-netdev" : str;
   match net spec with
   | Some n => "tap,id=net0,ifname=" ++ tap n ++ ",script=no,downscript=no"
   | None => "user,id=net0" ++ concat (format_hostfwd <$> port_forwards spec)
   end;
   "-device" : str; "virtio-net-pci,netdev=net0" : str].

Definition build_qemu_args (spec : VmSpec) (qmp_socket : option str) (id : str) : list str :=
  ["-name" : str; id] ++ machine_args spec ++ display_args spec ++ qmp_args qmp_socket ++ boot_args (boot spec)
  ++ concat (imap share_args (shares spec)) ++ net_args spec.

(** ** The micro-VMs of a build (vm_runner.rs) *)

Definition component_text (c : Component) : str :=
  match c with RootDir => [] | CurDir => "." | ParentDir => ".." | Normal name => name end.
Definition path_display (p : Path) : str :=
  match p with RootDir :: p => "/" ++ join "/" (component_text <$> p) | p => join "/" (component_text <$> p) end.

(** [fd] is the namespace of the step's network. *)
Definition micro_vm (fd : Z) (s : BootRun.VmSpec) : VmSpec :=
  {| arch := v_arch s;
     boot := BootSource_DirectKernel (path_display (v_kernel s)) (path_display (v_initrd s)) (v_cmdline s);
     memory_mib := v_memory_mib s; cpus := v_cpus s; kvm := v_kvm s; display := DisplayMode_None; port_forwards := [];
     net := Some {| netns_fd := fd; tap := v_tap s |}; control := ControlMode_None;
     shares := [{| host_path := path_display (v_share s); mount_tag := v_mount_tag s |}];
     serial := SerialMode_File (path_display (v_serial s)) |}.

(** ** A reader of QEMU's options *)

(** Options without a value. *)
Definition is_switch (flag : str) : bool := bool_decide (flag ∈ ["-enable-kvm" : str; "-no-reboot" : str]).

(** Each option with its value. *)
Fixpoint qemu_options (args : list str) : option (list (str * str)) :=
  match args with
  | [] => Some []
  | flag :: rest =>
      if is_switch flag then cons (flag, []) <$> qemu_options rest
      else match rest with
           | value :: rest => cons (flag, value) <$> qemu_options rest
           | [] => None
           end
  end.

(** The properties of a value: a comma ends one, two commas are a comma in it. *)
Fixpoint properties_from (cur s : str) : list str :=
  match s with
  | [] => [cur]
  | ","%char :: (","%char :: s) => properties_from (cur ++ ",") s
  | ","%char :: s => cur :: properties_from [] s
  | c :: s => properties_from (cur ++ [c]) s
  end.
Definition properties (s : str) : list str := properties_from [] s.

(** A property is a name and a value, or a bare word. *)
Definition keyed (p : str) : str * option str :=
  match split_once "=" p with Some (k, v) => (k, Some v) | None => (p, None) end.

Definition read_addr (s : str) : option Z :=
  match mapM (parse_unsigned 255) (split "." s) with
  | Some [a; b; c; d] => Some (v4 (Z.of_N a) (Z.of_N b) (Z.of_N c) (Z.of_N d))
  | _ => None
  end.

Definition read_proto (s : str) : option bool :=
  if bool_decide (s = ("tcp" : str)) then Some true else if bool_decide (s = ("udp" : str)) then Some false else None.
Definition read_bind (s : str) : option (option Z) :=
  match s with [] => Some None | _ => Some <$> read_addr s end.

(** [tcp:addr:port-:port], for IPv4. *)
Definition read_hostfwd (v : str) : option PortForward :=
  '(proto, v) ← split_once ":" v; is_tcp ← read_proto proto;
  '(addr, v) ← split_once ":" v; bind ← read_bind addr;
  '(hp, v) ← split_once "-" v; hp ← parse_unsigned u16_max hp;
  '(ga, gp) ← split_once ":" v; gp ← parse_unsigned u16_max gp;
  if bool_decide (ga = ([] : str)) then Some {| bind_addr := bind; host_port := hp; guest_port := gp; tcp := is_tcp |}
  else None.

Inductive Netdev :=
| Netdev_Tap (id ifname : str) (script : bool)
| Netdev_User (id : str) (forwards : list PortForward).

Record Drive := { d_file : str; d_if : str; d_unit : option N; d_readonly : bool }.

Record Machine := {
  m_name : str;
  m_board : str; m_accel : str; m_cpu : str;
  m_memory : N; m_cpus : N; m_reboot : bool;
  m_display : option str; m_serial : option str; m_qmp : option str;
  m_drives : list Drive; m_bios : option str;
  m_kernel : option str; m_initrd : option str; m_append : option str;
  m_shares : list NinePShare;
  m_netdevs : list Netdev; m_nics : list str
}.

(** The value of a property, and the values of a property that may be repeated. *)
Definition prop_values (name : str) (ps : list (str * option str)) : list str :=
  omap (fun '(k, v) => if bool_decide (k = name) then v else None) ps.
Definition prop (name : str) (ps : list (str * option str)) : option str := head (prop_values name ps).

(** Every property has one of these names. *)
Definition only (names : list str) (ps : list (str * option str)) : option unit :=
  if forallb (fun '(k, v) => bool_decide (k ∈ names)) ps then Some tt else None.

Definition read_drive (value : str) : option Drive :=
  let ps := keyed <$> properties value in
  only ["file" : str; "if" : str; "format" : str; "unit" : str; "readonly" : str] ps ;;
  file ← prop "file" ps; interface ← prop "if" ps; format ← prop "format" ps;
  if bool_decide (format = ("raw" : str)) then
    Some {| d_file := file; d_if := interface; d_unit := prop "unit" ps ≫= parse_unsigned u32_max;
            d_readonly := bool_decide (prop "readonly" ps = Some ("on" : str)) |}
  else None.

Definition read_share (value : str) : option NinePShare :=
  match keyed <$> properties value with
  | (driver, None) :: ps =>
      only ["path" : str; "mount_tag" : str; "security_model" : str; "id" : str] ps ;;
      path ← prop "path" ps; mount ← prop "mount_tag" ps; model ← prop "security_model" ps;
      if bool_decide (driver = ("local" : str)) && bool_decide (model = ("mapped-xattr" : str))
      then Some {| host_path := path; mount_tag := mount |} else None
  | _ => None
  end.

Definition read_netdev (value : str) : option Netdev :=
  match keyed <$> properties value with
  | (driver, None) :: ps =>
      id ← prop "id" ps;
      if bool_decide (driver = ("tap" : str)) then
        only ["id" : str; "ifname" : str; "script" : str; "downscript" : str] ps ;;
        ifname ← prop "ifname" ps;
        Some (Netdev_Tap id ifname (negb (bool_decide (prop "script" ps = Some ("no" : str)))))
      else if bool_decide (driver = ("user" : str)) then
        only ["id" : str; "hostfwd" : str] ps ;;
        fwds ← mapM read_hostfwd (prop_values "hostfwd" ps);
        Some (Netdev_User id fwds)
      else None
  | _ => None
  end.

(** The [unix:] socket of the monitor, on which QEMU listens without waiting. *)
Definition read_qmp (value : str) : option str :=
  v ← strip_prefix "unix:" value;
  match properties v with
  | [sock; server; nowait] =>
      if bool_decide (server = ("server" : str)) && bool_decide (nowait = ("nowait" : str)) then Some sock else None
  | _ => None
  end.

(** The values of an option, in order; of one that is given twice the last counts. *)
Definition values (flag : str) (os : list (str * str)) : list str :=
  omap (fun '(k, v) => if bool_decide (k = flag) then Some v else None) os.
Definition value (flag : str) (os : list (str * str)) : option str := last (values flag os).

Definition known_flags : list str :=
  ["-name" : str; "-machine" : str; "-enable-kvm" : str; "-cpu" : str; "-m" : str; "-smp" : str; "-no-reboot" : str;
   "-display" : str; "-serial" : str; "-qmp" : str; "-drive" : str; "-bios" : str; "-kernel" : str; "-initrd" : str;
   "-append" : str; "-virtfs" : str; "-netdev" : str; "-device" : str].

Definition read_board (value : str) : option (str * str) :=
  match properties value with
  | [board; accel] => match keyed accel with (k, Some v) => if bool_decide (k = ("accel" : str)) then Some (board, v) else None | _ => None end
  | _ => None
  end.
Definition read_name (value : str) : option str := match properties value with [name] => Some name | _ => None end.

(** A network card, by the network it is attached to. *)
Definition read_nic (value : str) : option str :=
  match properties value with
  | [model; dev] =>
      match keyed dev with
      | (k, Some v) => if bool_decide (model = ("virtio-net-pci" : str)) && bool_decide (k = ("netdev" : str)) then Some v else None
      | _ => None
      end
  | _ => None
  end.

(** The machine QEMU sets up, if it understands all of the options. *)
Definition read_machine (os : list (str * str)) : option Machine :=
  only known_flags ((fun '(k, v) => (k, Some v)) <$> os) ;;
  name ← value "-name" os ≫= read_name;
  '(board, accel) ← value "-machine" os ≫= read_board;
  cpu ← value "-cpu" os;
  memory ← value "-m" os ≫= parse_unsigned u32_max;
  cpus ← value "-smp" os ≫= parse_unsigned u32_max;
  qmp ← mapM read_qmp (values "-qmp" os);
  drives ← mapM read_drive (values "-drive" os);
  shared ← mapM read_share (values "-virtfs" os);
  netdevs ← mapM read_netdev (values "-netdev" os);
  nics ← mapM read_nic (values "-device" os);
  Some {| m_name := name; m_board := board; m_accel := accel; m_cpu := cpu; m_memory := memory; m_cpus := cpus;
          m_reboot := bool_decide (value "-no-reboot" os = None);
          m_display := value "-display" os; m_serial := value "-serial" os; m_qmp := head qmp;
          m_drives := drives; m_bios := value "-bios" os; m_kernel := value "-kernel" os;
          m_initrd := value "-initrd" os; m_append := value "-append" os; m_shares := shared;
          m_netdevs := netdevs; m_nics := nics |}.
Definition qemu_machine (args : list str) : option Machine := qemu_options args ≫= read_machine.

(** ** The machine a specification asks for *)

Definition drives_of (b : BootSource) : list Drive :=
  match b with
  | BootSource_Disk path fw =>
      {| d_file := path; d_if := "virtio"; d_unit := None; d_readonly := false |}
      :: match fw with
         | Some (Firmware_Pflash code vars) =>
             [{| d_file := code; d_if := "pflash"; d_unit := Some 0%N; d_readonly := true |};
              {| d_file := vars; d_if := "pflash"; d_unit := Some 1%N; d_readonly := false |}]
         | _ => []
         end
  | BootSource_DirectKernel _ _ _ => []
  end.

(** A headless machine has its console where [serial] says; the console of a
    machine with a window is QEMU's. *)
Definition machine_of (spec : VmSpec) (qmp_socket : option str) (id : str) : Machine :=
  {| m_name := id;
     m_board := match arch spec with X86_64 => "q35" | Aarch64 => "virt" end;
     m_accel := if kvm spec then "kvm" else "tcg"; m_cpu := if kvm spec then "host" else "max";
     m_memory := memory_mib spec; m_cpus := cpus spec; m_reboot := false;
     m_display := match display spec with DisplayMode_None => Some ("none" : str) | DisplayMode_Window => None end;
     m_serial := match serial spec with SerialMode_Inherit => Some ("mon:stdio" : str) | SerialMode_File path => Some ("file:" ++ path) end;
     m_qmp := qmp_socket;
     m_drives := drives_of (boot spec);
     m_bios := match boot spec with BootSource_Disk _ (Some (Firmware_Bios fw)) => Some fw | _ => None end;
     m_kernel := match boot spec with BootSource_DirectKernel k _ _ => Some k | _ => None end;
     m_initrd := match boot spec with BootSource_DirectKernel _ i _ => Some i | _ => None end;
     m_append := match boot spec with BootSource_DirectKernel _ _ c => Some c | _ => None end;
     m_shares := shares spec;
     m_netdevs := [match net spec with
                   | Some n => Netdev_Tap "net0" (tap n) false
                   | None => Netdev_User "net0" (port_forwards spec)
                   end];
     m_nics := ["net0" : str] |}.

(** The machine, with another serial console. *)
Definition with_serial (serial : option str) (m : Machine) : Machine :=
  {| m_name := m_name m; m_board := m_board m; m_accel := m_accel m; m_cpu := m_cpu m; m_memory := m_memory m; m_cpus := m_cpus m;
     m_reboot := m_reboot m; m_display := m_display m; m_serial := serial; m_qmp := m_qmp m; m_drives := m_drives m; m_bios := m_bios m;
     m_kernel := m_kernel m; m_initrd := m_initrd m; m_append := m_append m; m_shares := m_shares m; m_netdevs := m_netdevs m;
     m_nics := m_nics m |}.

(** What the types of the source guarantee. *)
Definition forward_typed (pf : PortForward) : Prop :=
  (host_port pf <= u16_max)%N /\ (guest_port pf <= u16_max)%N
  /\ match bind_addr pf with Some a => 0 <= a < 2 ^ 32 | None => True end.
Definition spec_typed (spec : VmSpec) : Prop :=
  (memory_mib spec <= u32_max)%N /\ (cpus spec <= u32_max)%N /\ Forall forward_typed (port_forwards spec).

(** No comma where QEMU reads properties. *)
Notation plain s := (","%char ∉ s) (only parsing).
Definition boot_plain (b : BootSource) : Prop :=
  match b with
  | BootSource_Disk path fw =>
      plain path /\ match fw with Some (Firmware_Pflash code vars) => plain code /\ plain vars | _ => True end
  | BootSource_DirectKernel _ _ _ => True
  end.
Definition spec_plain (spec : VmSpec) : Prop :=
  boot_plain (boot spec)
  /\ Forall (fun s => plain (host_path s) /\ plain (mount_tag s)) (shares spec)
  /\ match net spec with Some n => plain (tap n) | None => True end.

(** ** Properties *)

Lemma properties_plain a : forall cur, plain a -> properties_from cur a = [cur ++ a].
Proof.
  induction a as [|c a IH]; intros cur H; cbn [properties_from]; [by rewrite app_nil_r|].
  apply not_elem_of_cons in H as [Hc Ha].
  transitivity (properties_from (cur ++ [c]) a); [|by rewrite IH, <- app_assoc].
  destruct c as [[] [] [] [] [] [] [] []]; done.
Qed.

Lemma properties_comma a c b : forall cur, plain a -> c <> ","%char ->
  properties_from cur (a ++ ","%char :: c :: b) = (cur ++ a) :: properties (c :: b).
Proof.
  induction a as [|x a IH]; intros cur H Hc; cbn [app].
  - rewrite app_nil_r. destruct c as [[] [] [] [] [] [] [] []]; done.
  - apply not_elem_of_cons in H as [Hx Ha].
    transitivity (properties_from (cur ++ [x]) (a ++ ","%char :: c :: b)); [|by rewrite IH, <- app_assoc].
    destruct x as [[] [] [] [] [] [] [] []]; done.
Qed.

Lemma properties_one a : plain a -> properties a = [a].
Proof. intros. by apply properties_plain. Qed.
Lemma properties_cons a c b : plain a -> c <> ","%char -> properties (a ++ ","%char :: c :: b) = a :: properties (c :: b).
Proof. intros. by apply properties_comma. Qed.

Lemma plain_app a b : plain (a ++ b) <-> plain a /\ plain b.
Proof. rewrite not_elem_of_app. done. Qed.

Ltac literal := apply (bool_decide_eq_true_1 _); reflexivity.
Ltac plain_text := repeat (apply plain_app; split); first [done | literal].

(** A value whose properties are, in turn, [a] and those of [b]. *)
Lemma properties_step a b c b' : plain a -> b = c :: b' -> c <> ","%char -> properties (a ++ ("," : str) ++ b) = a :: properties b.
Proof. intros Ha -> Hc. by apply properties_cons. Qed.

Lemma read_drive_virtio path : plain path ->
  read_drive ("file=" ++ path ++ ",if=virtio,format=raw")
  = Some {| d_file := path; d_if := "virtio"; d_unit := None; d_readonly := false |}.
Proof.
  intros H. unfold read_drive. rewrite (app_assoc (bytes_of "file=")).
  change (bytes_of ",if=virtio,format=raw") with (("," : str) ++ "if=virtio,format=raw").
  rewrite (properties_step _ _ "i" "f=virtio,format=raw") by (done || plain_text). reflexivity.
Qed.

Lemma read_drive_code path : plain path ->
  read_drive ("if=pflash,format=raw,unit=0,readonly=on,file=" ++ path)
  = Some {| d_file := path; d_if := "pflash"; d_unit := Some 0%N; d_readonly := true |}.
Proof.
  intros H. unfold read_drive, properties. cbn [bytes_of String.list_ascii_of_string app properties_from].
  rewrite properties_plain by done. reflexivity.
Qed.

Lemma read_drive_vars path : plain path ->
  read_drive ("if=pflash,format=raw,unit=1,file=" ++ path)
  = Some {| d_file := path; d_if := "pflash"; d_unit := Some 1%N; d_readonly := false |}.
Proof.
  intros H. unfold read_drive, properties. cbn [bytes_of String.list_ascii_of_string app properties_from].
  rewrite properties_plain by done. reflexivity.
Qed.

(** The options among the arguments of one part. *)
Definition options_of (args : list str) : list (str * str) := default [] (qemu_options args).

Lemma drive_values b :
  values "-drive" (options_of (boot_args b))
  = match b with
    | BootSource_Disk path fw =>
        ("file=" ++ path ++ ",if=virtio,format=raw")
        :: match fw with
           | Some (Firmware_Pflash code vars) =>
               ["if=pflash,format=raw,unit=0,readonly=on,file=" ++ code; "if=pflash,format=raw,unit=1,file=" ++ vars]
           | _ => []
           end
    | BootSource_DirectKernel _ _ _ => []
    end.
Proof. by destruct b as [path [[fw|code vars]|]|]. Qed.

Lemma read_drives b : boot_plain b -> mapM read_drive (values "-drive" (options_of (boot_args b))) = Some (drives_of b).
Proof.
  rewrite drive_values. destruct b as [path [[fw|code vars]|]|]; cbn [boot_plain drives_of];
    [intros [Hp _]|intros (Hp & Hc & Hv)|intros [Hp _]|done]; cbn [mapM]; rewrite read_drive_virtio by done; [done| |done].
  by rewrite read_drive_code, read_drive_vars.
Qed.

Lemma read_share_args i sh : plain (host_path sh) -> plain (mount_tag sh) ->
  read_share ("local,path=" ++ host_path sh ++ ",mount_tag=" ++ mount_tag sh ++ ",security_model=mapped-xattr,id=umf9p" ++ nat_to_decimal i)
  = Some sh.
Proof.
  intros Hp Ht. unfold read_share, properties. cbn [bytes_of String.list_ascii_of_string app properties_from].
  rewrite (properties_comma (host_path sh)) by done. unfold properties at 1.
  cbn [app properties_from]. rewrite (properties_comma (mount_tag sh)) by done. unfold properties at 1. cbn [app properties_from].
  rewrite properties_plain by (apply to_decimal_no; done). by destruct sh.
Qed.

Lemma parse_to_decimal max n : (n <= max)%N -> parse_unsigned max (to_decimal n) = Some n.
Proof.
  intros H. destruct (to_decimal_ok n) as [E F].
  rewrite parse_unsigned_digits; [|apply to_decimal_nonempty|].
  2:{ apply forallb_forall. intros c Hc. apply list_elem_of_In in Hc. by apply (proj1 (Forall_forall _ _) F). }
  rewrite E. by destruct (N.leb_spec n max); [|lia].
Qed.

Lemma octet4_bound i a : 0 <= octet4 i a <= 255.
Proof. split; [apply octet4_range|]. unfold octet4. rewrite (Z.land_ones _ 8) by lia. pose proof (Z.mod_pos_bound (Z.shiftr a (24 - 8 * i)) (2 ^ 8)). lia. Qed.

Lemma ipv4_text_no c a : is_ascii_digit c = false -> c <> "."%char -> c ∉ ipv4_text a.
Proof.
  intros Hd Hc. unfold ipv4_text. change (bytes_of ".") with ["."%char].
  repeat (apply not_elem_of_app; split); first [by apply to_decimal_no|by rewrite list_elem_of_singleton].
Qed.

Lemma ipv4_text_cons a : exists c s, ipv4_text a = c :: s.
Proof.
  unfold ipv4_text. pose proof (to_decimal_nonempty (Z.to_N (octet4 0 a))).
  destruct (to_decimal (Z.to_N (octet4 0 a))) as [|c s]; [done|]. by eexists _, _.
Qed.

Lemma read_addr_text a : 0 <= a < 2 ^ 32 -> read_addr (ipv4_text a) = Some a.
Proof.
  intros Ha. unfold read_addr, ipv4_text. change (bytes_of ".") with ["."%char]. cbn [app].
  rewrite !split_app, split_no_sep by (by apply to_decimal_no). cbn [mapM].
  rewrite !parse_to_decimal by (pose proof (octet4_bound 0 a); pose proof (octet4_bound 1 a); pose proof (octet4_bound 2 a);
    pose proof (octet4_bound 3 a); lia).
  cbn [mbind option_bind mret option_ret]. rewrite !Z2N.id by apply octet4_range. by rewrite v4_of_octets.
Qed.

(** The part of a forward after [hostfwd=]. *)
Definition hostfwd_text (pf : PortForward) : str :=
  (if tcp pf then "tcp" : str else "udp" : str) ++ ":"
  ++ match bind_addr pf with Some addr => ipv4_text addr | None => [] end ++ ":"
  ++ to_decimal (host_port pf) ++ "-:" ++ to_decimal (guest_port pf).

Lemma format_hostfwd_eq pf : format_hostfwd pf = ("," : str) ++ "hostfwd=" ++ hostfwd_text pf.
Proof. reflexivity. Qed.

Lemma hostfwd_text_plain pf : plain (hostfwd_text pf).
Proof.
  unfold hostfwd_text. repeat (apply plain_app; split); try literal; try by apply to_decimal_no.
  - destruct (tcp pf); literal.
  - destruct (bind_addr pf); [by apply ipv4_text_no|literal].
Qed.

Lemma read_bind_text o : match o with Some a => 0 <= a < 2 ^ 32 | None => True end ->
  read_bind (match o with Some addr => ipv4_text addr | None => [] end) = Some o.
Proof.
  destruct o as [a|]; [|done]. intros Ha. destruct (ipv4_text_cons a) as (c & s & E). unfold read_bind. rewrite E, <- E.
  by rewrite read_addr_text.
Qed.

(** A forward is read back. *)
Lemma read_hostfwd_text pf : forward_typed pf -> read_hostfwd (hostfwd_text pf) = Some pf.
Proof.
  intros (Hh & Hg & Hb). unfold read_hostfwd, hostfwd_text.
  change (bytes_of ":") with [":"%char]. change (bytes_of "-:") with ["-"%char; ":"%char]. cbn [app].
  rewrite split_once_app by (destruct (tcp pf); literal). cbn [mbind option_bind].
  assert (read_proto (if tcp pf then "tcp" : str else "udp" : str) = Some (tcp pf)) as -> by by destruct (tcp pf).
  cbn [mbind option_bind]. rewrite split_once_app by (destruct (bind_addr pf); [by apply ipv4_text_no|literal]).
  cbn [mbind option_bind]. rewrite read_bind_text by done. cbn [mbind option_bind].
  rewrite split_once_app by (by apply to_decimal_no). cbn [mbind option_bind]. rewrite parse_to_decimal by done. cbn [mbind option_bind].
  change (":"%char :: to_decimal (guest_port pf)) with ([] ++ ":"%char :: to_decimal (guest_port pf)).
  rewrite split_once_app by (apply not_elem_of_nil). cbn [mbind option_bind]. rewrite parse_to_decimal by done. by destruct pf.
Qed.

Lemma user_properties fwds : forall a cur, plain a ->
  properties_from cur (a ++ concat (format_hostfwd <$> fwds)) = (cur ++ a) :: ((fun pf => "hostfwd=" ++ hostfwd_text pf) <$> fwds).
Proof.
  induction fwds as [|pf fwds IH]; intros a cur Ha; cbn [fmap list_fmap concat].
  - rewrite app_nil_r. by apply properties_plain.
  - etrans; [exact (properties_comma a "h" (("ostfwd=" ++ hostfwd_text pf) ++ concat (format_hostfwd <$> fwds)) cur Ha ltac:(done))|].
    f_equal. apply (IH ("hostfwd=" ++ hostfwd_text pf) []). apply plain_app. split; [literal|apply hostfwd_text_plain].
Qed.

Lemma mapM_hostfwd fwds : Forall forward_typed fwds -> mapM read_hostfwd (hostfwd_text <$> fwds) = Some fwds.
Proof. induction 1 as [|pf fwds H _ IH]; [done|]. cbn [fmap list_fmap mapM]. by rewrite read_hostfwd_text, IH. Qed.

Lemma read_netdev_user fwds : Forall forward_typed fwds ->
  read_netdev ("user,id=net0" ++ concat (format_hostfwd <$> fwds)) = Some (Netdev_User "net0" fwds).
Proof.
  intros H. unfold read_netdev.
  assert (properties ("user,id=net0" ++ concat (format_hostfwd <$> fwds))
          = ("user" : str) :: ("id=net0" : str) :: ((fun pf => "hostfwd=" ++ hostfwd_text pf) <$> fwds)) as ->.
  { change (("user" : str) :: properties_from [] ("id=net0" ++ concat (format_hostfwd <$> fwds))
            = ("user" : str) :: ("id=net0" : str) :: ((fun pf => "hostfwd=" ++ hostfwd_text pf) <$> fwds)).
    f_equal. apply (user_properties fwds "id=net0" []). literal. }
  cbn [fmap list_fmap].
  set (ks := keyed <$> _). assert (Hk : ks = (fun pf => (("hostfwd" : str), Some (hostfwd_text pf))) <$> fwds).
  { unfold ks. rewrite <- list_fmap_compose. apply list_fmap_ext. intros. reflexivity. }
  assert (Hv : prop_values "hostfwd" ks = hostfwd_text <$> fwds).
  { rewrite Hk. clear. induction fwds as [|pf fwds IH]; [done|]. cbn. by f_equal. }
  assert (Ho : only ["id" : str; "hostfwd" : str] ks = Some tt).
  { unfold only. rewrite Hk. clear. replace (forallb _ _) with true; [done|]. symmetry. apply forallb_forall. intros x Hx.
    apply list_elem_of_In, list_elem_of_fmap in Hx as (? & -> & _). reflexivity. }
  clearbody ks.
  change ((only ["id" : str; "hostfwd" : str] ks ;; fwds ← mapM read_hostfwd (prop_values "hostfwd" ks);
           Some (Netdev_User "net0" fwds)) = Some (Netdev_User "net0" fwds)).
  rewrite Ho, Hv, mapM_hostfwd by done. done.
Qed.

Lemma read_netdev_tap t : plain t ->
  read_netdev ("tap,id=net0,ifname=" ++ t ++ ",script=no,downscript=no") = Some (Netdev_Tap "net0" t false).
Proof.
  intros H. unfold read_netdev. rewrite (app_assoc (bytes_of "tap,id=net0,ifname=")).
  assert (properties (("tap,id=net0,ifname=" ++ t) ++ ",script=no,downscript=no")
          = ["tap" : str; "id=net0" : str; "ifname=" ++ t; "script=no" : str; "downscript=no" : str]) as ->.
  { change (("tap" : str) :: ("id=net0" : str) :: properties_from [] (("ifname=" ++ t) ++ ",script=no,downscript=no")
            = ["tap" : str; "id=net0" : str; "ifname=" ++ t; "script=no" : str; "downscript=no" : str]).
    do 2 f_equal. exact (properties_comma ("ifname=" ++ t) "s" "cript=no,downscript=no" [] ltac:(apply plain_app; split; [literal|done]) ltac:(done)). }
  reflexivity.
Qed.

Lemma read_qmp_socket sock : plain sock -> read_qmp ("unix:" ++ sock ++ ",server,nowait") = Some sock.
Proof.
  intros H. change (read_qmp ("unix:" ++ sock ++ ",server,nowait"))
    with (match properties (sock ++ ",server,nowait") with
          | [sock; server; nowait] =>
              if bool_decide (server = ("server" : str)) && bool_decide (nowait = ("nowait" : str)) then Some sock else None
          | _ => None
          end).
  assert (properties (sock ++ ",server,nowait") = [sock; "server" : str; "nowait" : str]) as ->; [|done].
  exact (properties_comma sock "s" "erver,nowait" [] H ltac:(done)).
Qed.

(** ** Options *)

(** Arguments that end with an option's value. *)
Definition complete (args : list str) : Prop :=
  forall rest, qemu_options (args ++ rest) = app (options_of args) <$> qemu_options rest.

Lemma complete_options args : complete args -> qemu_options args = Some (options_of args).
Proof. intros H. specialize (H []). rewrite app_nil_r in H. rewrite H. cbn. by rewrite app_nil_r. Qed.

Lemma complete_app a b : complete a -> complete b -> complete (a ++ b) /\ options_of (a ++ b) = options_of a ++ options_of b.
Proof.
  intros Ha Hb. assert (E : options_of (a ++ b) = options_of a ++ options_of b).
  { unfold options_of at 1. by rewrite Ha, (complete_options b Hb). }
  split; [|done]. intros rest. rewrite E, <- app_assoc, Ha, Hb. destruct (qemu_options rest); [|done]. cbn. by rewrite app_assoc.
Qed.

Ltac by_cases := intros rest; cbn; destruct (qemu_options rest); reflexivity.

Lemma complete_name id : complete ["-name" : str; id].
Proof. by_cases. Qed.
Lemma complete_machine spec : complete (machine_args spec).
Proof. unfold machine_args. destruct (arch spec), (kvm spec); by_cases. Qed.
Lemma complete_display spec : complete (display_args spec).
Proof. unfold display_args. destruct (display spec); by_cases. Qed.
Lemma complete_qmp sock : complete (qmp_args sock).
Proof. unfold qmp_args. destruct sock; by_cases. Qed.
Lemma complete_boot b : complete (boot_args b).
Proof. destruct b as [path [[]|]|]; by_cases. Qed.
Lemma complete_net spec : complete (net_args spec).
Proof. by_cases. Qed.

Lemma complete_shares l : forall i, complete (concat (imap (fun j => share_args (i + j)) l))
  /\ options_of (concat (imap (fun j => share_args (i + j)) l))
     = imap (fun j sh => ("-virtfs" : str, nth 1 (share_args (i + j) sh) [])) l.
Proof.
  induction l as [|sh l IH]; intros i; [split; [by_cases|done]|]. rewrite !imap_cons. cbn [concat].
  destruct (IH (S i)) as [Hc Ho].
  assert (E : forall (B : Type) (f : nat -> NinePShare -> B), imap ((fun j => f (i + j)%nat) ∘ S) l = imap (fun j => f (S i + j)%nat) l).
  { intros B f. apply imap_ext. intros j x _. unfold compose. by rewrite Nat.add_succ_r. }
  rewrite (E _ share_args). rewrite (E _ (fun j sh => ("-virtfs" : str, nth 1 (share_args j sh) []))).
  assert (Hs : complete (share_args (i + 0) sh)) by by_cases.
  destruct (complete_app _ _ Hs Hc) as [C O]. split; [done|]. by rewrite O, Ho.
Qed.


(** The options of one part of the arguments have their flags among [flags]. *)
Definition flagged (flags : list str) (os : list (str * str)) : Prop := Forall (fun o => o.1 ∈ flags) os.

Lemma flagged_values flags os f : flagged flags os -> f ∉ flags -> values f os = [].
Proof.
  intros H Hf. induction H as [|[k v] os Hk _ IH]; [done|]. unfold values. cbn. rewrite bool_decide_false by (intros ->; done). done.
Qed.
Lemma flagged_only flags os : flagged flags os -> Forall (fun f => f ∈ known_flags) flags -> flagged known_flags os.
Proof. intros H Hf. eapply Forall_impl; [exact H|]. intros o Ho. cbn in Ho. by apply (proj1 (Forall_forall _ _) Hf). Qed.
Lemma values_app f a b : values f (a ++ b) = values f a ++ values f b.
Proof. apply omap_app. Qed.

Definition machine_flags : list str := ["-machine" : str; "-enable-kvm" : str; "-cpu" : str; "-m" : str; "-smp" : str; "-no-reboot" : str].
Definition display_flags : list str := ["-display" : str; "-serial" : str].
Definition boot_flags : list str := ["-drive" : str; "-bios" : str; "-kernel" : str; "-initrd" : str; "-append" : str].
Definition net_flags : list str := ["-netdev" : str; "-device" : str].

Ltac by_flags := repeat (apply Forall_cons; split; [literal|]); apply Forall_nil; done.

Lemma flagged_machine spec : flagged machine_flags (options_of (machine_args spec)).
Proof. unfold machine_args. destruct (arch spec), (kvm spec); by_flags. Qed.
Lemma flagged_display spec : flagged display_flags (options_of (display_args spec)).
Proof. unfold display_args. destruct (display spec); by_flags. Qed.
Lemma flagged_qmp sock : flagged ["-qmp" : str] (options_of (qmp_args sock)).
Proof. unfold qmp_args. destruct sock; by_flags. Qed.
Lemma flagged_boot b : flagged boot_flags (options_of (boot_args b)).
Proof. destruct b as [path [[]|]|]; by_flags. Qed.
Lemma flagged_net spec : flagged net_flags (options_of (net_args spec)).
Proof. by_flags. Qed.
Lemma flagged_name id : flagged ["-name" : str] (options_of ["-name" : str; id]).
Proof. by_flags. Qed.

Definition share_options (l : list NinePShare) : list (str * str) :=
  imap (fun i sh => ("-virtfs" : str, nth 1 (share_args i sh) [])) l.
Lemma flagged_shares l : flagged ["-virtfs" : str] (share_options l).
Proof. apply Forall_forall. intros o (i & sh & -> & _)%elem_of_lookup_imap. literal. Qed.

(** All options of the command line. *)
Definition all_options (spec : VmSpec) (sock : option str) (id : str) : list (str * str) :=
  options_of ["-name" : str; id] ++ options_of (machine_args spec) ++ options_of (display_args spec)
  ++ options_of (qmp_args sock) ++ options_of (boot_args (boot spec)) ++ share_options (shares spec) ++ options_of (net_args spec).

Lemma build_options spec sock id : qemu_options (build_qemu_args spec sock id) = Some (all_options spec sock id).
Proof.
  unfold build_qemu_args, all_options.
  rewrite (complete_name id), (complete_machine spec), (complete_display spec), (complete_qmp sock), (complete_boot (boot spec)).
  destruct (complete_shares (shares spec) 0) as [Hs Es].
  change (imap share_args (shares spec)) with (imap (fun j => share_args (0 + j)) (shares spec)). rewrite (Hs (net_args spec)), Es, (complete_options _ (complete_net spec)).
  reflexivity.
Qed.

Lemma all_known spec sock id : flagged known_flags (all_options spec sock id).
Proof.
  unfold all_options. repeat apply Forall_app_2.
  all: eapply flagged_only; [solve [apply flagged_name|apply flagged_machine|apply flagged_display|apply flagged_qmp|apply flagged_boot|apply flagged_shares|apply flagged_net]|].
  all: by_flags.
Qed.

Ltac silent :=
  rewrite ?(flagged_values _ _ _ (flagged_name _)), ?(flagged_values _ _ _ (flagged_machine _)),
    ?(flagged_values _ _ _ (flagged_display _)), ?(flagged_values _ _ _ (flagged_qmp _)), ?(flagged_values _ _ _ (flagged_boot _)),
    ?(flagged_values _ _ _ (flagged_shares _)), ?(flagged_values _ _ _ (flagged_net _)) by literal.

(** Every option comes from one part of the command line. *)
Lemma values_parts spec sock id :
  let os := all_options spec sock id in
  values "-name" os = [id]
  /\ (forall f, f ∈ machine_flags -> values f os = values f (options_of (machine_args spec)))
  /\ (forall f, f ∈ display_flags -> values f os = values f (options_of (display_args spec)))
  /\ values "-qmp" os = values "-qmp" (options_of (qmp_args sock))
  /\ (forall f, f ∈ boot_flags -> values f os = values f (options_of (boot_args (boot spec))))
  /\ values "-virtfs" os = values "-virtfs" (share_options (shares spec))
  /\ (forall f, f ∈ net_flags -> values f os = values f (options_of (net_args spec))).
Proof.
  intros os. unfold os, all_options. split_and!; try intros f Hf; rewrite !values_app.
  all: try (repeat (apply elem_of_cons in Hf as [->|Hf]); try by apply not_elem_of_nil in Hf).
  all: silent; by rewrite ?app_nil_r.
Qed.

Lemma read_shares l : Forall (fun s => plain (host_path s) /\ plain (mount_tag s)) l ->
  forall (f : nat -> nat),
  mapM read_share (values "-virtfs" (imap (fun i sh => ("-virtfs" : str, nth 1 (share_args (f i) sh) [])) l)) = Some l.
Proof.
  induction 1 as [|sh l [Hp Ht] _ IH]; intros f; [done|]. rewrite imap_cons. specialize (IH (f ∘ S)).
  change (values "-virtfs" (?o :: ?os)) with (o.2 :: values "-virtfs" os). cbn [mapM snd share_args nth].
  rewrite read_share_args by done. cbn [mbind option_bind].
  change (imap _ l) with (imap (fun i sh => ("-virtfs" : str, nth 1 (share_args ((f ∘ S) i) sh) [])) l). by rewrite IH.
Qed.

Lemma read_net spec : Forall forward_typed (port_forwards spec) -> match net spec with Some n => plain (tap n) | None => True end ->
  mapM read_netdev (values "-netdev" (options_of (net_args spec)))
  = Some [match net spec with Some n => Netdev_Tap "net0" (tap n) false | None => Netdev_User "net0" (port_forwards spec) end].
Proof.
  intros Hf Hp. unfold net_args. destruct (net spec) as [n|].
  - change (values "-netdev" _) with ["tap,id=net0,ifname=" ++ tap n ++ ",script=no,downscript=no"]. cbn [mapM].
    by rewrite read_netdev_tap.
  - change (values "-netdev" _) with ["user,id=net0" ++ concat (format_hostfwd <$> port_forwards spec)]. cbn [mapM].
    by rewrite read_netdev_user.
Qed.

Lemma read_qmps sock : match sock with Some s => plain s | None => True end ->
  mapM read_qmp (values "-qmp" (options_of (qmp_args sock))) = Some (option_list sock).
Proof.
  destruct sock as [s|]; [|done]. intros H. change (values "-qmp" _) with ["unix:" ++ s ++ ",server,nowait"]. cbn [mapM].
  by rewrite read_qmp_socket.
Qed.

Lemma only_flagged flags (os : list (str * str)) : flagged flags os -> only flags ((fun '(k, v) => (k, Some v)) <$> os) = Some tt.
Proof.
  intros H. unfold only. replace (forallb _ _) with true; [done|]. symmetry. apply forallb_forall. intros [k v] Hx.
  apply list_elem_of_In, list_elem_of_fmap in Hx as ([k' v'] & [= -> ->] & Hx).
  apply bool_decide_true. by apply (proj1 (Forall_forall _ _) H _ Hx).
Qed.

(** The values of the machine's own options. *)
Lemma machine_values spec :
  let os := options_of (machine_args spec) in
  value "-machine" os ≫= read_board = Some (m_board (machine_of spec None []), m_accel (machine_of spec None []))
  /\ value "-cpu" os = Some (m_cpu (machine_of spec None []))
  /\ value "-m" os = Some (to_decimal (memory_mib spec)) /\ value "-smp" os = Some (to_decimal (cpus spec))
  /\ value "-no-reboot" os = Some [].
Proof. unfold machine_args, machine_of. by destruct (arch spec), (kvm spec). Qed.

(** C39 (roundtrip): QEMU understands the command line of every machine, and
    reads back what the specification asks for: the board and accelerator, the
    processors and memory, the display, the disks and firmware, or the kernel
    with its command line whatever bytes it has, the shared directories in order,
    and a single network card on the tap that was handed over or else on
    the user-mode network with all port forwards; and, for a machine
    without a window, the serial console.  The texts that QEMU splits at commas
    must have none.  Nothing is said of the serial console of a machine with a
    window. *)
Theorem qemu_reads_spec spec sock id :
  spec_typed spec -> spec_plain spec -> plain id -> match sock with Some s => plain s | None => True end ->
  exists m, qemu_machine (build_qemu_args spec sock id) = Some m
    /\ (display spec = DisplayMode_None -> m = machine_of spec sock id)
    /\ with_serial (m_serial (machine_of spec sock id)) m = machine_of spec sock id.
Proof.
  intros (Hm & Hc & Hf) (Hb & Hs & Ht) Hid Hsock. unfold qemu_machine. rewrite build_options. cbn [mbind option_bind].
  unfold read_machine. rewrite only_flagged by apply all_known. cbn [mbind option_bind].
  destruct (values_parts spec sock id) as (Vn & Vm & Vd & Vq & Vb & Vs & Vt).
  destruct (machine_values spec) as (Mb & Mc & Mm & Ms & Mr). unfold value in *.
  rewrite Vn, Vq, Vs, (Vm "-machine"), (Vm "-cpu"), (Vm "-m"), (Vm "-smp"), (Vm "-no-reboot"), (Vd "-display"), (Vd "-serial"),
    (Vb "-drive"), (Vb "-bios"), (Vb "-kernel"), (Vb "-initrd"), (Vb "-append"), (Vt "-netdev"), (Vt "-device") by literal.
  rewrite Mb, Mc, Mm, Ms, Mr. cbn [last mbind option_bind].
  unfold read_name. rewrite properties_one by done. cbn [mbind option_bind].
  rewrite !parse_to_decimal by done. cbn [mbind option_bind].
  unfold share_options. rewrite read_qmps, read_drives, (read_shares _ Hs (fun i => i)), read_net by done. cbn [mbind option_bind].
  change (mapM read_nic (values "-device" (options_of (net_args spec)))) with (Some ["net0" : str]). cbn [mbind option_bind].
  eexists. split; [reflexivity|]. unfold machine_of, display_args, with_serial.
  destruct (display spec), (serial spec), (boot spec) as [? [[]|]|], sock; by split; [intros [=]|].
Qed.

(** C13 (safety): the network of a RUN step in a micro-VM is the policed one.
    Whatever the staging directory, the kernel and the directory for temporary
    files are called, commas included, QEMU reads one network from the
    command line, the tap it was handed over, and one card on it; there is
    no user-mode network, which the egress policy does not reach, and no option
    other than those the program means to give. *)
Theorem run_step_network h staging scratch kernel c n fd id :
  plain (tap_name n) ->
  exists os,
    qemu_options (build_qemu_args (micro_vm fd (step_spec h staging scratch kernel c n)) None id) = Some os
    /\ read_netdev <$> values "-netdev" os = [Some (Netdev_Tap "net0" (tap_name n) false)]
    /\ read_nic <$> values "-device" os = [Some ("net0" : str)]
    /\ Forall (fun o => o.1 ∈ known_flags) os.
Proof.
  intros Hn. eexists. split; [apply build_options|].
  destruct (values_parts (micro_vm fd (step_spec h staging scratch kernel c n)) None id) as (_ & _ & _ & _ & _ & _ & Vt).
  rewrite !Vt by literal. split_and!; [|done|apply all_known].
  change (values "-netdev" _) with ["tap,id=net0,ifname=" ++ tap_name n ++ ",script=no,downscript=no"]. cbn [fmap list_fmap].
  by rewrite read_netdev_tap.
Qed.

Module VmmExample.
Definition forward : PortForward := {| bind_addr := Some 2130706433; host_port := 8080; guest_port := 80; tcp := true |}.
Definition disk_vm (disk : str) : VmSpec :=
  {| arch := X86_64; boot := BootSource_Disk disk (Some (Firmware_Pflash "/fw/OVMF_CODE.fd" "/tmp/v/OVMF_VARS.fd"));
     memory_mib := 2048; cpus := 4; kvm := true; display := DisplayMode_None; port_forwards := [forward]; net := None;
     control := ControlMode_Channel; shares := [{| host_path := "/srv/a=b"; mount_tag := "data" |}]; serial := SerialMode_Inherit |}.

Lemma qemu_reads_spec_witness :
  qemu_machine (build_qemu_args (disk_vm "/img/disk.raw") (Some ("/tmp/q/qmp.sock" : str)) "umf-vmm-17")
  = Some (machine_of (disk_vm "/img/disk.raw") (Some ("/tmp/q/qmp.sock" : str)) "umf-vmm-17").
Proof.
  edestruct (qemu_reads_spec (disk_vm "/img/disk.raw") (Some ("/tmp/q/qmp.sock" : str)) "umf-vmm-17") as (m & E & H & _);
    [|split_and!|literal|literal|rewrite E; by rewrite H].
  - split_and!; [done|done|]. repeat constructor; done.
  - split_and!; literal.
  - repeat constructor; literal.
  - done.
Defined.

Definition step_host : RunHost :=
  {| var_cpus := None; var_memory := None; var_timeout := None; parallelism := Some 8%N; meminfo := None; resolv_conf := None;
     host_arch := X86_64 |}.
Definition step_net : NetInfo := {| guest_ip := "10.0.0.3"; gateway := "10.0.0.1"; netmask := "255.255.255.248"; tap_name := "umftap7" |}.
Definition step_kernel : KernelLayout :=
  {| vmlinuz := ["boot" : str; "vmlinuz-6.1,x" : str]; modules := ["lib" : str; "modules" : str; "6.1" : str]; release := "6.1" |}.

Lemma run_step_network_witness : exists os,
  qemu_options (build_qemu_args
    (micro_vm 9 (step_spec step_host ["tmp" : str; "stage,if=none" : str] ["tmp" : str; "x" : str] step_kernel
       (RunStepConfig_new step_host (absolute ["usr" : str; "qemu-system-x86_64" : str]) true "true" ∅) step_net)) None "umf-vmm-17") = Some os
  /\ read_netdev <$> values "-netdev" os = [Some (Netdev_Tap "net0" "umftap7" false)]
  /\ read_nic <$> values "-device" os = [Some ("net0" : str)]
  /\ Forall (fun o => o.1 ∈ known_flags) os.
Proof. apply (run_step_network step_host _ _ _ _ step_net). literal. Defined.

(** A comma in the path of a disk is read by QEMU as the start of a property. *)
Example comma_in_disk_path :
  m_drives <$> qemu_machine (build_qemu_args (disk_vm "/img/d,readonly=on") None "umf-vmm-17")
  = Some ({| d_file := "/img/d"; d_if := "virtio"; d_unit := None; d_readonly := true |} :: tail (drives_of (boot (disk_vm "/img/d,readonly=on")))).
Proof. reflexivity. Qed.

(** With a window the console is not written to the file that was asked for. *)
Example window_ignores_serial_file :
  let spec := disk_vm "/img/disk.raw" in
  m_serial <$> qemu_machine (build_qemu_args
    {| arch := arch spec; boot := boot spec; memory_mib := memory_mib spec; cpus := cpus spec; kvm := kvm spec; display := DisplayMode_Window;
       port_forwards := []; net := None; control := ControlMode_None; shares := []; serial := SerialMode_File "/tmp/serial.log" |} None "v")
  = Some None.
Proof. reflexivity. Qed.
End VmmExample.
