(* ===== verification/VmmControl.v ===== *)
(** * VmmControl: the life of a virtual machine
    (crates/umf-vmm/src: error.rs, handle.rs, backends/common.rs,
    backends/qemu, backends/cloud_hypervisor).

    Starting a machine works on the file system of HostFs.v; waiting for it,
    asking for its state and stopping it talk to the machine over its control
    channel.  The machine, its clients (the crates qapi and
    cloud_hypervisor_client), its process and the clock are a class: what they
    answer is arbitrary, but time does not run backwards and a sleep lasts.  The
    calls the program makes without a timeout (connecting to QEMU's socket, the ping
    of Cloud Hypervisor's daemon, waiting for the process) may never answer; a
    computation that waits for one of these does not return.  Every call that
    answers is recorded with its time and its answer, so that the theorems can say
    what was done to the machine and when.

    Times are in milliseconds.  The loops that poll have fuel for as many sleeps
    as fit before their deadline, and one more round. *)

From Stdlib Require Import ZifyBool.
From stdpp Require Import gmap list.
From S2P Require Import Prelude RustStr Target HostFs Staging BuildStaging BootRun BootAdd Vmm.
#[local] Open Scope N_scope.

(** ** Errors and handles (error.rs, handle.rs) *)

(** A process, and how it ended: the exit code, if no signal killed it. *)
Definition Child : Type := N.
Definition ExitStatus : Type := option Z.

Inductive VmError :=
| VmError_BinaryNotFound (binary : str)
| VmError_InputUnusable (path reason : str)
| VmError_BootFailed (msg : str)
| VmError_Control (msg : str)
| VmError_AbnormalExit (status : ExitStatus)
| VmError_ShutdownTimeout (timeout : N)
| VmError_Io (e : IoError)
| VmError_Backend (message : str).

(** [scratch] are the temporary directories that go with the handle. *)
Record VmHandle := {
  child : option Child;
  control_socket : option str;
  vm_id : str;
  scratch : list (list str)
}.
Definition VmHandle_new (id : str) : VmHandle := {| child := None; control_socket := None; vm_id := id; scratch := [] |}.
Definition own_scratch (h : VmHandle) (dir : list str) : VmHandle :=
  {| child := child h; control_socket := control_socket h; vm_id := vm_id h; scratch := scratch h ++ [dir] |}.

Definition own_all (h : VmHandle) (dirs : list (list str)) : VmHandle := fold_left own_scratch dirs h.
(** A handle on a process that was started. *)
Definition started (id : str) (c : Child) (socket : option str) : VmHandle :=
  {| child := Some c; control_socket := socket; vm_id := vm_id (VmHandle_new id); scratch := scratch (VmHandle_new id) |}.

(** What dropping a handle does to the file system. *)
Definition drop_scratch (h : VmHandle) (fs : Fs) : Fs := fold_left (fun fs l => remove_tree l fs) (scratch h) fs.

(** ** The inputs of a machine (backends/common.rs) *)

Definition ensure_readable (path label : str) : fse VmError unit :=
  there ← lift VmError_Io (path_exists (components path));
  if negb there then throw (VmError_InputUnusable path (label ++ " not found"))
  else fun fs =>
    if negb (host_is_file fs (components path)) then (Err (VmError_InputUnusable path (label ++ " is not a regular file")), fs)
    else (Ok tt, fs).

Definition validate_spec_inputs (spec : VmSpec) : fse VmError unit :=
  match boot spec with
  | BootSource_Disk path firmware =>
      ensure_readable path "disk image" ;;
      match firmware with
      | Some (Firmware_Bios fw) => ensure_readable fw "firmware"
      | Some (Firmware_Pflash code vars) =>
          ensure_readable code "firmware code (OVMF_CODE)" ;; ensure_readable vars "firmware vars (OVMF_VARS)"
      | None => mret tt
      end
  | BootSource_DirectKernel kernel initrd _ => ensure_readable kernel "kernel image" ;; ensure_readable initrd "initramfs"
  end.

(** ** Starting a machine (backends/qemu/spawn.rs, cloud_hypervisor/spawn.rs) *)

Inductive Stdio := Stdio_null | Stdio_inherit.

(** A command; [c_netns] is the namespace the child enters before it is executed. *)
Record Command := {
  c_program : str; c_args : list str; c_netns : option Z;
  c_stdin : Stdio; c_stdout : Stdio; c_stderr : Stdio; c_kill_on_drop : bool
}.

(** The processes of the host, its process id and the texts of its errors. *)
Class Processes := {
  spawn : Command -> Fs -> result IoError Child;
  process_id : N;
  io_text : IoError -> str
}.

Section spawning.
Context {TF : TempFiles} {PR : Processes}.

Definition dir_text (l : list str) : str := path_display (absolute l).

(** [TempDir::new], with a continuation: the directory is removed when the
    function that made it fails, and handed over when it does not. *)
Definition new_tempdir {A} (k : list str -> fse VmError A) : fse VmError A := fun fs =>
  match temp_dir fs with
  | Err e => (Err (VmError_Io e), fs)
  | Ok l =>
      match k l (<[l := NDir []]> fs) with
      | (Err e, fs) => (Err e, remove_tree l fs)
      | (Ok a, fs) => (Ok a, fs)
      end
  end.

(** The firmware's variables are copied, and the machine gets the copy. *)
Definition prepare_firmware {A} (spec : VmSpec) (k : option (list str) -> VmSpec -> fse VmError A) : fse VmError A :=
  match boot spec with
  | BootSource_Disk path (Some (Firmware_Pflash code vars)) =>
      new_tempdir (fun dir =>
        lift (fun err => VmError_InputUnusable vars ("copying VARS store to a writable per-run location: " ++ io_text err))
             (copy_file (components vars) (absolute dir ++ [Normal "OVMF_VARS.fd"])) ;;
        k (Some dir)
          {| arch := arch spec;
             boot := BootSource_Disk path (Some (Firmware_Pflash code (dir_text dir ++ "/OVMF_VARS.fd")));
             memory_mib := memory_mib spec; cpus := cpus spec; kvm := kvm spec; display := display spec;
             port_forwards := port_forwards spec; net := net spec; control := control spec; shares := shares spec;
             serial := serial spec |})
  | _ => k None spec
  end.

Definition launch (c : Command) : fse VmError Child := fun fs =>
  (map_err (fun e => match e with NotFound => VmError_BinaryNotFound (c_program c) | _ => VmError_Io e end) (spawn c fs), fs).

Definition qemu_command (binary : str) (args : list str) (spec : VmSpec) : Command :=
  let out := match serial spec with SerialMode_Inherit => Stdio_inherit | SerialMode_File _ => Stdio_null end in
  {| c_program := binary; c_args := args; c_netns := netns_fd <$> net spec; c_stdin := Stdio_null; c_stdout := out; c_stderr := out;
     c_kill_on_drop := true |}.

Definition start_qemu (binary : str) (spec : VmSpec) (sock_dir : option (list str)) (qmp_socket : option str) : fse VmError VmHandle :=
  prepare_firmware spec (fun fw_dir spec =>
    let id := "umf-vmm-" ++ to_decimal process_id in
    c ← launch (qemu_command binary (build_qemu_args spec qmp_socket id) spec);
    mret (own_all (started id c qmp_socket) (option_list sock_dir ++ option_list fw_dir))).

Definition spawn_qemu (binary : str) (spec : VmSpec) : fse VmError VmHandle :=
  validate_spec_inputs spec ;;
  match control spec with
  | ControlMode_Channel => new_tempdir (fun dir => start_qemu binary spec (Some dir) (Some (dir_text dir ++ "/qmp.sock")))
  | ControlMode_None => start_qemu binary spec None None
  end.

Definition ch_command (binary socket : str) (spec : VmSpec) : Command :=
  {| c_program := binary; c_args := ["--api-socket" : str; "path=" ++ socket]; c_netns := netns_fd <$> net spec;
     c_stdin := Stdio_null; c_stdout := Stdio_inherit; c_stderr := Stdio_inherit; c_kill_on_drop := true |}.

Definition spawn_cloud_hypervisor (binary : str) (spec : VmSpec) : fse VmError VmHandle :=
  validate_spec_inputs spec ;;
  new_tempdir (fun dir =>
    let socket := dir_text dir ++ "/ch-api.sock" in
    let id := "umf-vmm-ch-" ++ to_decimal process_id in
    c ← launch (ch_command binary socket spec);
    mret (own_scratch (started id c (Some socket)) dir)).
End spawning.

(** ** The configuration of a Cloud Hypervisor machine *)

(** The fields of [VmConfig] that are set. *)
Record PayloadConfig := { p_firmware : option str; p_kernel : option str; p_initramfs : option str; p_cmdline : option str }.
Record VmConfig := {
  cfg_payload : PayloadConfig;
  cfg_vcpus : Z;
  cfg_memory : Z;
  cfg_disk : option str;
  cfg_tap : option str
}.

Definition i32_max : Z := 2147483647.
Definition no_firmware : str :=
  "cloud-hypervisor cannot boot a raw disk without a firmware payload — supply one in BootSource::Disk (the CLI discovers a CLOUDHV / OVMF blob on the host, or takes an explicit --firmware PATH)".
Definition no_forwards : str :=
  "cloud-hypervisor port forwarding goes through `umf run`'s tap setup (`umf run --vmm ch --port-forward …`); or use `--vmm qemu`".
Definition no_socket : str := "cloud-hypervisor spawn returned no control socket (bug)".

Definition payload_of (b : BootSource) : result VmError PayloadConfig :=
  match b with
  | BootSource_Disk _ None => Err (VmError_Backend no_firmware)
  | BootSource_Disk _ (Some fw) =>
      let path := match fw with Firmware_Bios p => p | Firmware_Pflash code _ => code end in
      Ok {| p_firmware := Some path; p_kernel := None; p_initramfs := None; p_cmdline := None |}
  | BootSource_DirectKernel kernel initrd cmdline =>
      Ok {| p_firmware := None; p_kernel := Some kernel; p_initramfs := Some initrd; p_cmdline := Some cmdline |}
  end.

Definition build_vm_config (spec : VmSpec) : result VmError VmConfig :=
  payload ← payload_of (boot spec);
  if negb (bool_decide (port_forwards spec = [])) && negb (bool_decide (is_Some (net spec)))
  then Err (VmError_Backend no_forwards)
  else Ok {| cfg_payload := payload; cfg_vcpus := Z.min (Z.of_N (cpus spec)) i32_max;
             cfg_memory := Z.of_N (memory_mib spec) * 1024 * 1024;
             cfg_disk := match boot spec with BootSource_Disk path _ => Some path | _ => None end;
             cfg_tap := tap <$> net spec |}.

(** ** The control channel *)

Inductive RunState :=
| running | paused | prelaunch | suspended | shutdown | guest_panicked | internal_error | io_error | watchdog
| debug | inmigrate | postmigrate | finish_migrate | restore_vm | save_vm | colo.
Inductive VmState := Created | Running | Paused | Shutdown.
#[export] Instance RunState_eq_dec : EqDecision RunState.
Proof. solve_decision. Defined.
#[export] Instance VmState_eq_dec : EqDecision VmState.
Proof. solve_decision. Defined.

(** The end of a request under [tokio::time::timeout]. *)
Inductive Reply (A : Type) := TimedOut | Failed (e : str) | Replied (a : A).
Arguments TimedOut {A}.
Arguments Failed {A} e.
Arguments Replied {A} a.

(** What the program asks of the machine, of its process and of the clock. *)
Inductive Call : Type -> Type :=
| OpenUds (socket : str) : Call (result str unit)
| Negotiate : Call (Reply unit)
| QueryStatus : Call (Reply RunState)
| SystemPowerdown : Call (Reply unit)
| Quit : Call (Reply unit)
| VmmPing (socket : str) : Call (result str unit)
| CreateVm (config : VmConfig) : Call (Reply unit)
| BootVm : Call (Reply unit)
| VmInfoGet : Call (Reply VmState)
| PowerButton : Call (Reply unit)
| ShutdownVmm : Call (Reply unit)
| TryWait (c : Child) : Call (result IoError (option ExitStatus))
| ChildWait (c : Child) : Call (result IoError ExitStatus)
| StartKill (c : Child) : Call (result IoError unit)
| Sleep (ms : N) : Call unit.

(** The calls that return within some time: the requests under
    [tokio::time::timeout], those that do not wait, and sleeping. *)
Definition bounded {A} (c : Call A) : bool :=
  match c with OpenUds _ | VmmPing _ | ChildWait _ => false | _ => true end.

Class Vmm := {
  World : Type;
  now : World -> N;
  answers : forall {A}, Call A -> World -> bool;
  answer : forall {A}, Call A -> World -> A * World;
  bounded_answers : forall A (c : Call A) w, bounded c = true -> answers c w = true;
  answer_later : forall A (c : Call A) w, now w <= now (answer c w).2;
  sleep_passes : forall ms w, now w + ms <= now (answer (Sleep ms) w).2
}.

(** A call, the time it was made at, and its answer. *)
Inductive Event :=
| Ev {A : Type} (t : N) (c : Call A) (a : A).

Section control.
Context {V : Vmm}.

(** Computations that call the machine: they end, or run out of fuel or wait for
    an answer for ever ([OutOfFuel]), and leave their calls. *)
Definition ctl (A : Type) : Type := World -> outcome (result VmError A) * list Event * World.
#[local] Instance ctl_ret : MRet ctl := fun A a w => (Val (Ok a), [], w).
#[local] Instance ctl_bind : MBind ctl := fun A B k m w =>
  match m w with
  | (Val (Ok a), tr, w) => let '(r, tr', w) := k a w in (r, tr ++ tr', w)
  | (Val (Err e), tr, w) => (Val (Err e), tr, w)
  | (Panic, tr, w) => (Panic, tr, w)
  | (OutOfFuel, tr, w) => (OutOfFuel, tr, w)
  end.
Definition raise {A} (e : VmError) : ctl A := fun w => (Val (Err e), [], w).
Definition exhausted {A} : ctl A := fun w => (OutOfFuel, [], w).
Definition call {A} (c : Call A) : ctl A := fun w =>
  if answers c w then (Val (Ok (answer c w).1), [Ev (now w) c (answer c w).1], (answer c w).2) else (OutOfFuel, [], w).
Definition instant : ctl N := fun w => (Val (Ok (now w)), [], w).

(** The answer, or the error of a request that failed or took too long. *)
Definition demand {A} (late : str) (what : str) (c : Call (Reply A)) : ctl A :=
  r ← call c;
  match r with
  | TimedOut => raise (VmError_Control late)
  | Failed e => raise (VmError_Control (what ++ ": " ++ e))
  | Replied a => mret a
  end.

(** ** Common to the backends (backends/common.rs) *)

Inductive VmStatus := VmStatus_Booting | VmStatus_Running | VmStatus_Paused | VmStatus_ShuttingDown | VmStatus_Stopped | VmStatus_Unknown.
Record VmInfo := { vi_status : VmStatus; vi_detail : str }.

Definition no_control_info : VmInfo := {| vi_status := VmStatus_Unknown; vi_detail := "no control channel (ControlMode::None)" |}.

(** [wait] takes the child out of the handle. *)
Definition wait (vm : VmHandle) : ctl (VmHandle * ExitStatus) :=
  match child vm with
  | None => mret (vm, None)
  | Some c =>
      r ← call (ChildWait c);
      match r with
      | Err e => raise (VmError_Io e)
      | Ok status =>
          mret ({| child := None; control_socket := control_socket vm; vm_id := vm_id vm; scratch := scratch vm |}, status)
      end
  end.

Definition kill_child (vm : VmHandle) : ctl unit :=
  match child vm with Some c => _ ← call (StartKill c); mret tt | None => mret tt end.

(** [try_wait] on the child, if there still is one: whether it has ended. *)
Definition exited (vm : VmHandle) : ctl bool :=
  match child vm with
  | None => mret false
  | Some c =>
      r ← call (TryWait c);
      match r with Err e => raise (VmError_Io e) | Ok status => mret (bool_decide (is_Some status)) end
  end.

Definition BOOT_READY_TIMEOUT : N := 60000.

(** Fuel for a loop that sleeps [step] between rounds, until [span] is over. *)
Definition rounds (span step : N) : nat := S (N.to_nat (span / step + 1)).

(** ** QEMU (backends/qemu/mod.rs) *)

Record QemuRuntime := { q_binary : option str; q_grace : N }.
Definition QemuRuntime_default : QemuRuntime := {| q_binary := None; q_grace := 30000 |}.
Definition QemuRuntime_with_binary (binary : str) : QemuRuntime := {| q_binary := Some binary; q_grace := q_grace QemuRuntime_default |}.
Definition binary_for (rt : QemuRuntime) (spec : VmSpec) : str :=
  match q_binary rt with Some b => b | None => vm_binary_name (arch spec) end.

Definition run_state_text (s : RunState) : str :=
  match s with
  | running => "running" | paused => "paused" | prelaunch => "prelaunch" | suspended => "suspended" | shutdown => "shutdown"
  | guest_panicked => "guest_panicked" | internal_error => "internal_error" | io_error => "io_error" | watchdog => "watchdog"
  | debug => "debug" | inmigrate => "inmigrate" | postmigrate => "postmigrate" | finish_migrate => "finish_migrate"
  | restore_vm => "restore_vm" | save_vm => "save_vm" | colo => "colo"
  end.

Definition run_state_to_vm_status (s : RunState) : VmStatus :=
  match s with
  | running => VmStatus_Running
  | paused | prelaunch | suspended => VmStatus_Paused
  | shutdown | guest_panicked => VmStatus_ShuttingDown
  | internal_error | io_error | watchdog => VmStatus_ShuttingDown
  | debug | inmigrate | postmigrate | finish_migrate | restore_vm | save_vm | colo => VmStatus_Booting
  end.

Fixpoint open_qmp_until (fuel : nat) (deadline : N) (socket : str) : ctl unit :=
  match fuel with
  | O => exhausted
  | S fuel =>
      r ← call (OpenUds socket);
      match r with
      | Ok _ => demand "QMP capability negotiation timed out" "QMP negotiate" Negotiate
      | Err err =>
          t ← instant;
          if t <? deadline then _ ← call (Sleep 50); open_qmp_until fuel deadline socket
          else raise (VmError_Control ("couldn't connect to QMP socket " ++ socket ++ ": " ++ err))
      end
  end.
Definition open_qmp (socket : str) : ctl unit := t ← instant; open_qmp_until (rounds 5000 50) (t + 5000) socket.

Definition query_status : ctl RunState := demand "QMP query-status timed out" "QMP query-status" QueryStatus.

Fixpoint qemu_boot_until (fuel : nat) (deadline : N) : ctl unit :=
  match fuel with
  | O => exhausted
  | S fuel =>
      status ← query_status;
      if bool_decide (status = running) then mret tt
      else
        t ← instant;
        if deadline <=? t
        then raise (VmError_BootFailed ("guest did not reach `running` within 60s (last status: " ++ run_state_text status ++ ")"))
        else _ ← call (Sleep 100); qemu_boot_until fuel deadline
  end.
Definition qemu_boot (vm : VmHandle) : ctl unit :=
  match control_socket vm with
  | None => mret tt
  | Some socket =>
      _ ← open_qmp socket;
      t ← instant;
      qemu_boot_until (rounds BOOT_READY_TIMEOUT 100) (t + BOOT_READY_TIMEOUT)
  end.

Definition qemu_info (vm : VmHandle) : ctl VmInfo :=
  match control_socket vm with
  | None => mret no_control_info
  | Some socket =>
      _ ← open_qmp socket;
      status ← query_status;
      mret {| vi_status := run_state_to_vm_status status; vi_detail := run_state_text status |}
  end.

(** Whether the machine went down before the deadline. *)
Fixpoint qemu_down_until (fuel : nat) (deadline : N) (vm : VmHandle) : ctl bool :=
  match fuel with
  | O => exhausted
  | S fuel =>
      t ← instant;
      if t <? deadline then
        gone ← exited vm;
        match gone with
        | true => mret true
        | false =>
            r ← call QueryStatus;
            match r with
            | Replied shutdown => mret true
            | _ => _ ← call (Sleep 200); qemu_down_until fuel deadline vm
            end
        end
      else mret false
  end.

(** The machine stops at once, or its process is killed. *)
Definition qemu_hard_stop (vm : VmHandle) : ctl unit :=
  r ← call Quit;
  match r with Replied _ => mret tt | _ => kill_child vm end.

Definition qemu_shutdown (rt : QemuRuntime) (vm : VmHandle) (graceful : bool) : ctl unit :=
  match control_socket vm with
  | None => kill_child vm
  | Some socket =>
      _ ← open_qmp socket;
      if graceful then
        _ ← demand "QMP system_powerdown timed out" "QMP system_powerdown" SystemPowerdown;
        t ← instant;
        down ← qemu_down_until (rounds (q_grace rt) 200) (t + q_grace rt) vm;
        match down with true => mret tt | false => qemu_hard_stop vm end
      else qemu_hard_stop vm
  end.

(** ** Cloud Hypervisor (backends/cloud_hypervisor/mod.rs) *)

Record CloudHypervisorRuntime := { ch_binary : str; ch_grace : N }.
Definition CloudHypervisorRuntime_default : CloudHypervisorRuntime := {| ch_binary := "cloud-hypervisor"; ch_grace := 30000 |}.
Definition CloudHypervisorRuntime_with_binary (binary : str) : CloudHypervisorRuntime :=
  {| ch_binary := binary; ch_grace := ch_grace CloudHypervisorRuntime_default |}.

Definition vm_state_text (s : VmState) : str :=
  match s with Created => "Created" | Running => "Running" | Paused => "Paused" | Shutdown => "Shutdown" end.
Definition vm_state_to_vm_status (s : VmState) : VmStatus :=
  match s with
  | Created => VmStatus_Booting
  | Running => VmStatus_Running
  | Paused => VmStatus_Paused
  | Shutdown => VmStatus_ShuttingDown
  end.

Fixpoint wait_for_daemon_until (fuel : nat) (deadline : N) (socket : str) : ctl unit :=
  match fuel with
  | O => exhausted
  | S fuel =>
      r ← call (VmmPing socket);
      match r with
      | Ok _ => mret tt
      | Err err =>
          t ← instant;
          if t <? deadline then _ ← call (Sleep 50); wait_for_daemon_until fuel deadline socket
          else raise (VmError_Control ("cloud-hypervisor daemon never came up: " ++ err))
      end
  end.
Definition wait_for_daemon (socket : str) : ctl unit := t ← instant; wait_for_daemon_until (rounds 5000 50) (t + 5000) socket.

Definition of_res {A} (r : result VmError A) : ctl A := match r with Ok a => mret a | Err e => raise e end.

(** The machine is set up in the daemon that was started. *)
Definition ch_setup (spec : VmSpec) (vm : VmHandle) : ctl VmHandle :=
  match control_socket vm with
  | None => raise (VmError_Backend no_socket)
  | Some socket =>
      _ ← wait_for_daemon socket;
      config ← of_res (build_vm_config spec);
      _ ← demand "cloud-hypervisor create_vm timed out" "cloud-hypervisor create_vm" (CreateVm config);
      mret vm
  end.

Definition vm_info_get : ctl VmState := demand "cloud-hypervisor vm_info_get timed out" "cloud-hypervisor vm_info_get" VmInfoGet.

Fixpoint ch_boot_until (fuel : nat) (deadline : N) : ctl unit :=
  match fuel with
  | O => exhausted
  | S fuel =>
      state ← vm_info_get;
      if bool_decide (state = Running) then mret tt
      else
        t ← instant;
        if deadline <=? t
        then raise (VmError_BootFailed ("guest did not reach `Running` within 60s (last state: " ++ vm_state_text state ++ ")"))
        else _ ← call (Sleep 100); ch_boot_until fuel deadline
  end.
Definition ch_boot (vm : VmHandle) : ctl unit :=
  match control_socket vm with
  | None => mret tt
  | Some socket =>
      _ ← demand "cloud-hypervisor boot_vm timed out" "cloud-hypervisor boot_vm" BootVm;
      t ← instant;
      ch_boot_until (rounds BOOT_READY_TIMEOUT 100) (t + BOOT_READY_TIMEOUT)
  end.

Definition ch_info (vm : VmHandle) : ctl VmInfo :=
  match control_socket vm with
  | None => mret no_control_info
  | Some socket =>
      state ← vm_info_get;
      mret {| vi_status := vm_state_to_vm_status state; vi_detail := vm_state_text state |}
  end.

(** When the guest is down the daemon is asked to leave, whatever it answers. *)
Fixpoint ch_down_until (fuel : nat) (deadline : N) (vm : VmHandle) : ctl bool :=
  match fuel with
  | O => exhausted
  | S fuel =>
      t ← instant;
      if t <? deadline then
        gone ← exited vm;
        match gone with
        | true => mret true
        | false =>
            r ← call VmInfoGet;
            match r with
            | Replied Shutdown => _ ← call ShutdownVmm; mret true
            | _ => _ ← call (Sleep 200); ch_down_until fuel deadline vm
            end
        end
      else mret false
  end.

Definition ch_hard_stop (vm : VmHandle) : ctl unit :=
  r ← call ShutdownVmm;
  match r with Replied _ => mret tt | _ => kill_child vm end.

Definition ch_shutdown (rt : CloudHypervisorRuntime) (vm : VmHandle) (graceful : bool) : ctl unit :=
  match control_socket vm with
  | None => kill_child vm
  | Some socket =>
      if graceful then
        _ ← demand "cloud-hypervisor power_button_vm timed out" "cloud-hypervisor power_button_vm" PowerButton;
        t ← instant;
        down ← ch_down_until (rounds (ch_grace rt) 200) (t + ch_grace rt) vm;
        match down with true => mret tt | false => ch_hard_stop vm end
      else ch_hard_stop vm
  end.
End control.

(** [create] of the two backends.  A handle that is not returned is dropped: its
    process is killed and its directories are removed. *)
Section create.
Context {TF : TempFiles} {PR : Processes} {V : Vmm}.

Definition qemu_create (rt : QemuRuntime) (spec : VmSpec) : fse VmError VmHandle := spawn_qemu (binary_for rt spec) spec.

Definition ch_create (rt : CloudHypervisorRuntime) (spec : VmSpec) (fs : Fs) (w : World)
    : outcome (result VmError VmHandle) * Fs * list Event * World :=
  match spawn_cloud_hypervisor (ch_binary rt) spec fs with
  | (Err e, fs) => (Val (Err e), fs, [], w)
  | (Ok h, fs) =>
      match ch_setup spec h w with
      | (Val (Ok h), tr, w) => (Val (Ok h), fs, tr, w)
      | (Val (Err e), tr, w) =>
          let '(_, killed, w) := kill_child h w in (Val (Err e), drop_scratch h fs, tr ++ killed, w)
      | (r, tr, w) => (r, fs, tr, w)
      end
  end.
End create.

(** ** Computations that end *)

Section reasoning.
Context {V : Vmm}.
#[local] Existing Instance ctl_ret.
#[local] Existing Instance ctl_bind.

(** [m] ends when it is started in [w], with a result, calls and a world that
    satisfy [Q]. *)
Definition ends {A} (m : ctl A) (w : World) (Q : result VmError A -> list Event -> World -> Prop) : Prop :=
  exists r tr w', m w = (Val r, tr, w') /\ now w <= now w' /\ Q r tr w'.

Lemma ends_ret {A} (a : A) w Q : Q (Ok a) [] w -> ends (mret a) w Q.
Proof. intros H. exists (Ok a), [], w. split_and!; [done|lia|done]. Qed.
Lemma ends_raise {A} e w (Q : result VmError A -> _) : Q (Err e) [] w -> ends (raise e) w Q.
Proof. intros H. exists (Err e), [], w. split_and!; [done|lia|done]. Qed.

Lemma ends_bind {A B} (m : ctl A) (k : A -> ctl B) w (Q : result VmError B -> list Event -> World -> Prop) :
  ends m w (fun r tr w1 => match r with
                           | Ok a => ends (k a) w1 (fun r tr' w2 => Q r (tr ++ tr') w2)
                           | Err e => Q (Err e) tr w1
                           end) ->
  ends (m ≫= k) w Q.
Proof.
  intros (r & tr & w1 & E & L & H). unfold ends, mbind, ctl_bind. rewrite E. destruct r as [a|e].
  - destruct H as (r & tr' & w2 & -> & L' & H). eexists _, _, _. split_and!; [done|lia|done].
  - eexists _, _, _. by split_and!.
Qed.

Lemma ends_instant {B} (k : N -> ctl B) w Q : ends (k (now w)) w Q -> ends (instant ≫= k) w Q.
Proof.
  intros H. apply ends_bind. exists (Ok (now w)), [], w. split_and!; [done|lia|].
  destruct H as (r & tr & w' & ? & ? & ?). by exists r, tr, w'.
Qed.

Lemma ends_call {A B} (c : Call A) (k : A -> ctl B) w Q : answers c w = true ->
  (now w <= now (answer c w).2 ->
   ends (k (answer c w).1) (answer c w).2 (fun r tr w' => Q r (Ev (now w) c (answer c w).1 :: tr) w')) ->
  ends (call c ≫= k) w Q.
Proof.
  intros Ha H. apply ends_bind. unfold ends, call. rewrite Ha. eexists _, _, _. split; [reflexivity|]. split; [apply answer_later|]. apply H, answer_later.
Qed.

(** A request that failed, or was not answered in time. *)
Definition refused_reply {A} (a : Reply A) : Prop := match a with Replied _ => False | _ => True end.

(** A request whose answer is needed. *)
Lemma ends_demand {A B} late what (c : Call (Reply A)) (k : A -> ctl B) w (Q : result VmError B -> list Event -> World -> Prop) : bounded c = true ->
  (forall a w1, now w <= now w1 -> ends (k a) w1 (fun r tr w' => Q r (Ev (now w) c (Replied a) :: tr) w')) ->
  (forall msg w1 a, refused_reply a -> Q (Err (VmError_Control msg)) [Ev (now w) c a] w1) ->
  ends (demand late what c ≫= k) w Q.
Proof.
  intros Hb Hk He. apply ends_bind. unfold demand. apply ends_call; [by apply bounded_answers|]. intros L. destruct (answer c w) as [[|e|a] w1].
  - by apply ends_raise, He.
  - by apply ends_raise, He.
  - apply ends_ret. by apply Hk.
Qed.

Lemma ends_imp {A} (m : ctl A) w (P Q : result VmError A -> list Event -> World -> Prop) :
  ends m w P -> (forall r tr w', now w <= now w' -> P r tr w' -> Q r tr w') -> ends m w Q.
Proof. intros (r & tr & w' & E & L & H) HQ. exists r, tr, w'. eauto. Qed.

Lemma bind_unit (m : ctl unit) w Q : ends (m ≫= fun _ => mret tt) w Q -> ends m w Q.
Proof.
  intros (r & tr & w' & E & L & H). unfold mbind, ctl_bind, mret, ctl_ret in E.
  destruct (m w) as [[o tr1] w1] eqn:Em. destruct o as [[[]|e]| |]; simplify_eq; eexists _, _, _; rewrite Em; split_and!; [reflexivity|done| |reflexivity|done|done].
  by rewrite app_nil_r in H.
Qed.

(** ** What the calls of an operation are *)

(** Connecting: attempts that fail, until one succeeds. *)
Inductive connected (socket : str) : list Event -> Prop :=
| connected_now t t' : connected socket [Ev t (OpenUds socket) (Ok tt); Ev t' Negotiate (Replied tt)]
| connected_later t e t' tr :
    connected socket tr -> connected socket (Ev t (OpenUds socket) (Err e) :: Ev t' (Sleep 50) tt :: tr).

Definition is_control (e : VmError) : Prop := exists msg, e = VmError_Control msg.

(** A call that failed: the socket cannot be opened, a request is refused or
    times out, the process cannot be looked at. *)
Inductive failing : Event -> Prop :=
| failing_open t socket e : failing (Ev t (OpenUds socket) (Err e))
| failing_reply {A} t (c : Call (Reply A)) a : refused_reply a -> failing (Ev t c a)
| failing_try_wait t c e : failing (Ev t (TryWait c) (Err e)).

(** Opening the socket is answered, by a connection or an error: the program
    has no timeout there. *)
Definition connectable (socket : str) : Prop := forall w, answers (OpenUds socket) w = true.

Lemma rounds_enough span step t : 0 < step -> t + span <= t + step * N.of_nat (pred (rounds span step)).
Proof.
  intros H. unfold rounds. cbn [Nat.pred]. rewrite N2Nat.id. pose proof (N.mul_succ_div_gt span step ltac:(lia)). lia.
Qed.

Lemma open_qmp_until_ends deadline socket n : connectable socket -> forall w, deadline <= now w + 50 * N.of_nat n ->
  ends (open_qmp_until (S n) deadline socket) w
    (fun r tr _ => match r with Ok _ => connected socket tr | Err e => is_control e /\ Exists failing tr end).
Proof.
  intros Hc. induction n as [|n IH]; intros w H; cbn [open_qmp_until]; (apply ends_call; [apply Hc|]); intros L;
    destruct (answer (OpenUds socket) w) as [[[]|e] w1] eqn:E; cbn [fst snd] in *.
  1,3: apply bind_unit, ends_demand; [done|intros [] w2 _; apply ends_ret; constructor|].
  1,2: intros msg w2 a Ha; split; [by eexists|]; by apply Exists_cons_tl, Exists_cons_hd, failing_reply.
  - apply ends_instant. destruct (N.ltb_spec (now w1) deadline); [lia|]. apply ends_raise.
    split; [by eexists|]. apply Exists_cons_hd, failing_open.
  - apply ends_instant. destruct (N.ltb_spec (now w1) deadline).
    2:{ apply ends_raise. split; [by eexists|]. apply Exists_cons_hd, failing_open. }
    apply ends_call; [by apply bounded_answers|]. intros _. pose proof (sleep_passes 50 w1) as Hs. destruct (answer (Sleep 50) w1) as [[] w2].
    eapply ends_imp; [apply IH; cbn [snd] in *; lia|]. intros [[]|] tr w' _ HQ; [by constructor|]. destruct HQ. split; [done|by do 2 apply Exists_cons_tl].
Qed.

Lemma open_qmp_ends socket w : connectable socket ->
  ends (open_qmp socket) w (fun r tr _ => match r with Ok _ => connected socket tr | Err e => is_control e /\ Exists failing tr end).
Proof. intros Hc. unfold open_qmp. apply ends_instant, open_qmp_until_ends; [done|]. apply (rounds_enough 5000 50). lia. Qed.

(** ** Waiting for a machine to run *)

(** Rounds in which the machine was not up yet. *)
Inductive not_up {S : Type} (query : Call (Reply S)) (up : S) : list Event -> Prop :=
| not_up_nil : not_up query up []
| not_up_more t s t' tr : s <> up -> not_up query up tr -> not_up query up (Ev t query (Replied s) :: Ev t' (Sleep 100) tt :: tr).

(** The end of waiting: the machine was seen up, or it was not by the deadline,
    or a request failed. *)
Definition waited {S : Type} (query : Call (Reply S)) (up : S) (deadline : N) (r : result VmError unit) (tr : list Event) (w : World) : Prop :=
  match r with
  | Ok _ => exists tr1 t, not_up query up tr1 /\ tr = tr1 ++ [Ev t query (Replied up)]
  | Err (VmError_BootFailed _) =>
      deadline <= now w /\ exists tr1 t s, s <> up /\ not_up query up tr1 /\ tr = tr1 ++ [Ev t query (Replied s)]
  | Err e => is_control e
  end.

Lemma waited_more {S : Type} (query : Call (Reply S)) up deadline t s t' r tr w :
  s <> up -> waited query up deadline r tr w -> waited query up deadline r (Ev t query (Replied s) :: Ev t' (Sleep 100) tt :: tr) w.
Proof.
  intros Hs. destruct r as [[]|e]; cbn.
  - intros (tr1 & t1 & H & ->). exists (Ev t query (Replied s) :: Ev t' (Sleep 100) tt :: tr1), t1. split; [by constructor|done].
  - destruct e; try done. intros (L & tr1 & t1 & s1 & Hs1 & H & ->). split; [done|]. exists (Ev t query (Replied s) :: Ev t' (Sleep 100) tt :: tr1), t1, s1. split_and!; [done|by constructor|done].
Qed.

(** One round of waiting, for either backend. *)
Lemma boot_round {S : Type} `{EqDecision S} late what (query : Call (Reply S)) (up : S) (failure : S -> str) deadline (again : ctl unit) w : bounded query = true ->
  (forall w1, now w <= now w1 -> now w1 < deadline ->
     ends again (answer (Sleep 100) w1).2 (fun r tr w' => waited query up deadline r tr w')) ->
  ends (status ← demand late what query;
        if bool_decide (status = up) then mret tt
        else t ← instant; if deadline <=? t then raise (VmError_BootFailed (failure status)) else _ ← call (Sleep 100); again) w
    (waited query up deadline).
Proof.
  intros Hb IH. apply ends_demand; [done| |by eexists]. intros s w1 L. case_bool_decide as Hs.
  - subst s. apply ends_ret. exists [], (now w). split; [constructor|done].
  - apply ends_instant. destruct (N.leb_spec deadline (now w1)).
    + apply ends_raise. split; [done|]. exists [], (now w), s. split_and!; [done|constructor|done].
    + apply ends_call; [by apply bounded_answers|]. intros _. eapply ends_imp; [by apply IH|]. intros r tr w' _ HW.
      destruct (answer (Sleep 100) w1) as [[] w2]. by apply waited_more.
Qed.

Lemma qemu_boot_until_ends deadline n : forall w, deadline <= now w + 100 * N.of_nat n ->
  ends (qemu_boot_until (S n) deadline) w (waited QueryStatus running deadline).
Proof.
  induction n as [|n IH]; intros w H; apply (boot_round _ _ QueryStatus running
    (fun s => "guest did not reach `running` within 60s (last status: " ++ run_state_text s ++ ")")); try done; intros w1 L Hlt; [lia|].
  apply IH. pose proof (sleep_passes 100 w1). lia.
Qed.

Lemma ch_boot_until_ends deadline n : forall w, deadline <= now w + 100 * N.of_nat n ->
  ends (ch_boot_until (S n) deadline) w (waited VmInfoGet Running deadline).
Proof.
  induction n as [|n IH]; intros w H; apply (boot_round _ _ VmInfoGet Running
    (fun s => "guest did not reach `Running` within 60s (last state: " ++ vm_state_text s ++ ")")); try done; intros w1 L Hlt; [lia|].
  apply IH. pose proof (sleep_passes 100 w1). lia.
Qed.

(** [boot] returns; when it succeeds, the last thing it heard was that the guest
    is running, and when it gives up, a minute went by. *)
Lemma qemu_boot_ends vm w socket : control_socket vm = Some socket -> connectable socket ->
  ends (qemu_boot vm) w (fun r tr w' =>
    match r with
    | Ok _ => exists tr1 tr2 t, connected socket tr1 /\ not_up QueryStatus running tr2
                /\ tr = tr1 ++ tr2 ++ [Ev t QueryStatus (Replied running)]
    | Err (VmError_BootFailed _) => now w + BOOT_READY_TIMEOUT <= now w'
    | Err e => is_control e
    end).
Proof.
  intros Hs Hc. unfold qemu_boot. rewrite Hs. apply ends_bind. eapply ends_imp; [by apply open_qmp_ends|].
  intros [[]|e] tr1 w1 L; [|intros [[msg ->] _]; by eexists]. intros H1. apply ends_instant. eapply ends_imp; [apply qemu_boot_until_ends|].
  { apply (rounds_enough BOOT_READY_TIMEOUT 100). lia. }
  intros [[]|[]] tr2 w2 L2; cbn; try done.
  - intros (tr3 & t & H2 & ->). by exists tr1, tr3, t.
  - intros (H2 & _). lia.
Qed.

Lemma ch_boot_ends vm w socket : control_socket vm = Some socket ->
  ends (ch_boot vm) w (fun r tr w' =>
    match r with
    | Ok _ => exists t0 tr2 t, not_up VmInfoGet Running tr2
                /\ tr = Ev t0 BootVm (Replied tt) :: tr2 ++ [Ev t VmInfoGet (Replied Running)]
    | Err (VmError_BootFailed _) => now w + BOOT_READY_TIMEOUT <= now w'
    | Err e => is_control e
    end).
Proof.
  intros Hs. unfold ch_boot. rewrite Hs. apply ends_demand; [done| |by eexists]. intros [] w1 L. apply ends_instant.
  eapply ends_imp; [apply ch_boot_until_ends|].
  { apply (rounds_enough BOOT_READY_TIMEOUT 100). lia. }
  intros [[]|[]] tr2 w2 L2; cbn; try done.
  - intros (tr3 & t & H2 & ->). by exists (now w), tr3, t.
  - intros (H2 & _). lia.
Qed.

(** ** Stopping a machine *)

(** The process is killed, or seen to be alive, if the handle still has it. *)
Definition killed (vm : VmHandle) (tr : list Event) : Prop :=
  match child vm with None => tr = [] | Some c => exists t r, tr = [Ev t (StartKill c) r] end.
Definition alive (vm : VmHandle) (tr : list Event) : Prop :=
  match child vm with None => tr = [] | Some c => exists t, tr = [Ev t (TryWait c) (Ok None)] end.

(** Rounds in which neither the process had ended nor the guest was [down]. *)
Inductive still_up {S : Type} (query : Call (Reply S)) (down : S) (vm : VmHandle) : list Event -> Prop :=
| still_up_nil : still_up query down vm []
| still_up_more tr0 t r t' tr :
    alive vm tr0 -> r <> Replied down -> still_up query down vm tr ->
    still_up query down vm (tr0 ++ Ev t query r :: Ev t' (Sleep 200) tt :: tr).

(** The end of the rounds: the process has ended, or the guest is down and the
    calls [bye] follow. *)
Inductive went_down {S : Type} (query : Call (Reply S)) (down : S) (bye : list Event -> Prop) (vm : VmHandle) : list Event -> Prop :=
| went_exited tr c t st :
    still_up query down vm tr -> child vm = Some c -> went_down query down bye vm (tr ++ [Ev t (TryWait c) (Ok (Some st))])
| went_reported tr tr0 t tr' :
    still_up query down vm tr -> alive vm tr0 -> bye tr' ->
    went_down query down bye vm (tr ++ tr0 ++ Ev t query (Replied down) :: tr').

(** At the time [t] the machine is told to [halt]; its process is killed unless
    it acknowledges. *)
Inductive halted (halt : Call (Reply unit)) (vm : VmHandle) (t : N) : list Event -> Prop :=
| halted_acknowledged : halted halt vm t [Ev t halt (Replied tt)]
| halted_killed r tr : r <> Replied tt -> killed vm tr -> halted halt vm t (Ev t halt r :: tr).

(** All calls of a [shutdown] that succeeds, after those that connect: without
    grace the machine is halted; with it the guest is asked by [press], and goes
    down by itself or is halted, not before the time [grace] is over. *)
Inductive stopped {S : Type} (query : Call (Reply S)) (down : S) (press halt : Call (Reply unit)) (connects bye : list Event -> Prop)
    (vm : VmHandle) (grace : N) : bool -> list Event -> Prop :=
| stopped_halted tr0 t tr :
    connects tr0 -> halted halt vm t tr -> stopped query down press halt connects bye vm grace false (tr0 ++ tr)
| stopped_down tr0 t tr :
    connects tr0 -> went_down query down bye vm tr ->
    stopped query down press halt connects bye vm grace true (tr0 ++ Ev t press (Replied tt) :: tr)
| stopped_late tr0 t tr t' tr' :
    connects tr0 -> still_up query down vm tr -> t + grace <= t' -> halted halt vm t' tr' ->
    stopped query down press halt connects bye vm grace true (tr0 ++ Ev t press (Replied tt) :: tr ++ tr').

Lemma ends_kill vm w : ends (kill_child vm) w (fun r tr _ => r = Ok tt /\ killed vm tr).
Proof.
  unfold kill_child, killed. destruct (child vm) as [c|]; [|by apply ends_ret]. apply ends_call; [by apply bounded_answers|]. intros _. apply ends_ret. eauto.
Qed.

Lemma ends_exited {B} vm (k : bool -> ctl B) w (Q : result VmError B -> list Event -> World -> Prop) :
  (forall tr w1, now w <= now w1 -> alive vm tr -> ends (k false) w1 (fun r tr' w' => Q r (tr ++ tr') w')) ->
  (forall c t st w1, now w <= now w1 -> child vm = Some c ->
     ends (k true) w1 (fun r tr' w' => Q r (Ev t (TryWait c) (Ok (Some st)) :: tr') w')) ->
  (forall io t c w1, Q (Err (VmError_Io io)) [Ev t (TryWait c) (Err io)] w1) ->
  ends (exited vm ≫= k) w Q.
Proof.
  intros Hf Ht He. apply ends_bind. unfold exited, alive in *. destruct (child vm) as [c|].
  - apply ends_call; [by apply bounded_answers|]. intros L. destruct (answer (TryWait c) w) as [[[st|]|e] w1]; cbn [fst snd] in *.
    + apply ends_ret. by apply Ht.
    + apply ends_ret. apply Hf; eauto.
    + apply ends_raise, He.
  - apply ends_ret. apply Hf; [lia|done].
Qed.

(** The rounds of either backend. *)
Definition down_in_time {S : Type} (query : Call (Reply S)) (down : S) (bye : list Event -> Prop) (vm : VmHandle) (deadline : N)
    (r : result VmError bool) (tr : list Event) (w : World) : Prop :=
  match r with
  | Ok true => went_down query down bye vm tr
  | Ok false => still_up query down vm tr /\ deadline <= now w
  | Err _ => Exists failing tr
  end.

Lemma down_more {S : Type} (query : Call (Reply S)) (down : S) bye vm deadline tr0 t r t' res tr w :
  alive vm tr0 -> r <> Replied down -> down_in_time query down bye vm deadline res tr w ->
  down_in_time query down bye vm deadline res (tr0 ++ Ev t query r :: Ev t' (Sleep 200) tt :: tr) w.
Proof.
  intros Ha Hr. destruct res as [[]|]; cbn; [| |intros H; apply Exists_app; right; by do 2 apply Exists_cons_tl].
  - intros H. destruct H as [tr c t1 st H Hc|tr tr1 t1 tr2 H Ha' Hb].
    + change (went_down query down bye vm (tr0 ++ ([Ev t query r; Ev t' (Sleep 200) tt] ++ tr) ++ [Ev t1 (TryWait c) (Ok (Some st))])).
      rewrite app_assoc. apply went_exited; [by apply still_up_more|done].
    + change (went_down query down bye vm (tr0 ++ ([Ev t query r; Ev t' (Sleep 200) tt] ++ tr) ++ tr1 ++ Ev t1 query (Replied down) :: tr2)).
      rewrite app_assoc. apply went_reported; [by apply still_up_more|done|done].
  - intros [H Hd]. split; [by apply still_up_more|done].
Qed.

Lemma qemu_down_until_ends deadline vm n : forall w, deadline <= now w + 200 * N.of_nat n ->
  ends (qemu_down_until (S n) deadline vm) w (down_in_time QueryStatus shutdown (fun tr => tr = []) vm deadline).
Proof.
  induction n as [|n IH]; intros w H; cbn [qemu_down_until]; apply ends_instant.
  { destruct (N.ltb_spec (now w) deadline); [lia|]. apply ends_ret. split; [constructor|done]. }
  destruct (N.ltb_spec (now w) deadline); [|apply ends_ret; split; [constructor|done]].
  apply ends_exited; [|intros c t st w1 _ Hc; apply ends_ret; by apply (went_exited _ _ _ _ []); [constructor|]|intros; apply Exists_cons_hd, failing_try_wait].
  intros tr0 w1 L1 Ha. apply ends_call; [by apply bounded_answers|]. intros L2. destruct (answer QueryStatus w1) as [r w2]; cbn [fst snd] in *.
  assert (Hagain : r <> Replied shutdown ->
    ends (call (Sleep 200) ≫= fun _ => qemu_down_until (S n) deadline vm) w2 (fun res tr w' =>
      down_in_time QueryStatus shutdown (fun tr => tr = []) vm deadline res (tr0 ++ Ev (now w1) QueryStatus r :: tr) w')).
  { intros Hr. apply ends_call; [by apply bounded_answers|]. intros _. pose proof (sleep_passes 200 w2) as Hs. destruct (answer (Sleep 200) w2) as [[] w3]; cbn [fst snd] in *.
    eapply ends_imp; [apply IH; lia|]. intros res tr w' _ HR. by apply down_more. }
  destruct r as [|e|[]]; try (apply Hagain; discriminate).
  apply ends_ret. by apply (went_reported _ _ _ _ []); [constructor| |].
Qed.

Lemma ch_down_until_ends deadline vm n : forall w, deadline <= now w + 200 * N.of_nat n ->
  ends (ch_down_until (S n) deadline vm) w
    (down_in_time VmInfoGet Shutdown (fun tr => exists t r, tr = [Ev t ShutdownVmm r]) vm deadline).
Proof.
  set (bye := fun tr => exists t r, tr = [Ev t ShutdownVmm r]).
  induction n as [|n IH]; intros w H; cbn [ch_down_until]; apply ends_instant.
  { destruct (N.ltb_spec (now w) deadline); [lia|]. apply ends_ret. split; [constructor|done]. }
  destruct (N.ltb_spec (now w) deadline); [|apply ends_ret; split; [constructor|done]].
  apply ends_exited; [|intros c t st w1 _ Hc; apply ends_ret; by apply (went_exited _ _ _ _ []); [constructor|]|intros; apply Exists_cons_hd, failing_try_wait].
  intros tr0 w1 L1 Ha. apply ends_call; [by apply bounded_answers|]. intros L2. destruct (answer VmInfoGet w1) as [r w2]; cbn [fst snd] in *.
  assert (Hagain : r <> Replied Shutdown ->
    ends (call (Sleep 200) ≫= fun _ => ch_down_until (S n) deadline vm) w2 (fun res tr w' =>
      down_in_time VmInfoGet Shutdown bye vm deadline res (tr0 ++ Ev (now w1) VmInfoGet r :: tr) w')).
  { intros Hr. apply ends_call; [by apply bounded_answers|]. intros _. pose proof (sleep_passes 200 w2) as Hs. destruct (answer (Sleep 200) w2) as [[] w3]; cbn [fst snd] in *.
    eapply ends_imp; [apply IH; lia|]. intros res tr w' _ HR. by apply down_more. }
  destruct r as [|e|[]]; try (apply Hagain; discriminate).
  apply ends_call; [by apply bounded_answers|]. intros _. apply ends_ret. apply (went_reported _ _ _ _ []); [constructor|done|]. by eexists _, _.
Qed.

Lemma hard_stop_ends halt vm w : bounded halt = true ->
  ends (r ← call halt; match r with Replied _ => mret tt | _ => kill_child vm end) w
    (fun r tr _ => r = Ok tt /\ halted halt vm (now w) tr).
Proof.
  intros Hb. apply ends_call; [by apply bounded_answers|]. intros _. destruct (answer halt w) as [[|e|[]] w1]; cbn [fst snd].
  1,2: eapply ends_imp; [apply ends_kill|]; intros r tr w' _ [-> Hk]; split; [done|]; by constructor.
  apply ends_ret. split; [done|]. constructor.
Qed.

(** What the theorem says of a [shutdown] that returned: an error comes from a
    call that failed, or is the [ShutdownTimeout] that is documented. *)
Definition shut {S : Type} (query : Call (Reply S)) (down : S) (press halt : Call (Reply unit)) (connects : str -> list Event -> Prop)
    (bye : list Event -> Prop) (vm : VmHandle) (grace : N) (graceful : bool) (r : result VmError unit) (tr : list Event) : Prop :=
  match r with
  | Ok _ =>
      match control_socket vm with
      | None => killed vm tr
      | Some socket => stopped query down press halt (connects socket) bye vm grace graceful tr
      end
  | Err e => Exists failing tr \/ e = VmError_ShutdownTimeout grace
  end.

(** The rounds after [press], and the stop that may follow, from any loop. *)
Lemma press_ends {S : Type} (query : Call (Reply S)) (down : S) (press halt : Call (Reply unit)) (connects : str -> list Event -> Prop)
    (bye : list Event -> Prop) vm grace socket late what (loop : N -> ctl bool) tr0 w :
  bounded press = true -> bounded halt = true -> control_socket vm = Some socket -> connects socket tr0 ->
  (forall w1, ends (loop (now w1 + grace)) w1 (down_in_time query down bye vm (now w1 + grace))) ->
  ends (_ ← demand late what press; t ← instant; d ← loop (t + grace);
        match d with true => mret tt | false => r ← call halt; match r with Replied _ => mret tt | _ => kill_child vm end end) w
    (fun r tr _ => shut query down press halt connects bye vm grace true r (tr0 ++ tr)).
Proof.
  intros Hp Hh Hs Hc Hl. unfold shut. rewrite Hs.
  apply ends_demand; [done| |intros; left; by apply Exists_app; right; apply Exists_cons_hd, failing_reply]. intros [] w1 L1.
  apply ends_instant, ends_bind. eapply ends_imp; [apply Hl|]. intros [[]|e] tr w2 L2; cbn [down_in_time].
  - intros Hd. apply ends_ret. rewrite app_nil_r. by apply stopped_down.
  - intros [Hu Hd]. eapply ends_imp; [by apply hard_stop_ends|]. intros r tr' w3 _ [-> Hh'].
    eapply stopped_late; [done|done| |exact Hh']. lia.
  - intros H. left. apply Exists_app. right. by apply Exists_cons_tl.
Qed.

Lemma qemu_shutdown_ends rt vm graceful w : (forall socket, control_socket vm = Some socket -> connectable socket) ->
  ends (qemu_shutdown rt vm graceful) w (fun r tr _ =>
    shut QueryStatus shutdown SystemPowerdown Quit connected (fun tr => tr = []) vm (q_grace rt) graceful r tr).
Proof.
  intros Ho. unfold qemu_shutdown. destruct (control_socket vm) as [socket|] eqn:Hs.
  2:{ unfold shut. rewrite Hs. eapply ends_imp; [apply ends_kill|]. by intros r tr w' _ [-> Hk]. }
  apply ends_bind. eapply ends_imp; [by apply open_qmp_ends, Ho|]. intros [[]|e] tr0 w1 _; [intros Hc|intros [_ H]; by left]. destruct graceful.
  - eapply (press_ends QueryStatus shutdown SystemPowerdown Quit connected _ vm (q_grace rt) socket _ _
              (fun d => qemu_down_until (rounds (q_grace rt) 200) d vm) tr0); [done..|]. intros w2.
    apply qemu_down_until_ends, (rounds_enough (q_grace rt) 200). lia.
  - unfold shut. rewrite Hs. eapply ends_imp; [by apply hard_stop_ends|]. intros r tr w' _ [-> Hh]. by econstructor.
Qed.

Lemma ch_shutdown_ends rt vm graceful w :
  ends (ch_shutdown rt vm graceful) w (fun r tr _ =>
    shut VmInfoGet Shutdown PowerButton ShutdownVmm (fun _ tr => tr = []) (fun tr => exists t r, tr = [Ev t ShutdownVmm r])
      vm (ch_grace rt) graceful r tr).
Proof.
  unfold ch_shutdown. destruct (control_socket vm) as [socket|] eqn:Hs.
  2:{ unfold shut. rewrite Hs. eapply ends_imp; [apply ends_kill|]. by intros r tr w' _ [-> Hk]. }
  destruct graceful.
  - eapply (press_ends VmInfoGet Shutdown PowerButton ShutdownVmm (fun _ tr => tr = []) _ vm (ch_grace rt) socket _ _
              (fun d => ch_down_until (rounds (ch_grace rt) 200) d vm) []); [done..|]. intros w2.
    apply ch_down_until_ends, (rounds_enough (ch_grace rt) 200). lia.
  - unfold shut. rewrite Hs. eapply ends_imp; [by apply hard_stop_ends|]. intros r tr w' _ [-> Hh].
    change tr with ([] ++ tr). by eapply stopped_halted.
Qed.

(** C14 (liveness): [shutdown] of both backends returns, however the machine, its
    process and its control channel behave, if QEMU's socket is
    opened or refused at all, which is the one step that has no timeout (Cloud Hypervisor's
    needs no such condition); and returning successfully it has stopped the
    machine.  Without a control channel the process is killed.  With one, a
    machine that is not to be treated gracefully is told to halt, and killed if it does not
    acknowledge; otherwise the guest is asked to power down, and then its process was seen
    to end, or the guest was seen to be down, or the grace period went by, not
    less, and the machine is halted or killed.  An error comes from a call that
    failed or timed out, or is the documented [ShutdownTimeout]. *)
Theorem shutdown_stops (qemu : QemuRuntime) (ch : CloudHypervisorRuntime) (vm : VmHandle) (graceful : bool) (w : World) :
  ((forall socket, control_socket vm = Some socket -> connectable socket) ->
   exists r tr w', qemu_shutdown qemu vm graceful w = (Val r, tr, w')
     /\ shut QueryStatus shutdown SystemPowerdown Quit connected (fun tr => tr = []) vm (q_grace qemu) graceful r tr)
  /\ (exists r tr w', ch_shutdown ch vm graceful w = (Val r, tr, w')
     /\ shut VmInfoGet Shutdown PowerButton ShutdownVmm (fun _ tr => tr = []) (fun tr => exists t r, tr = [Ev t ShutdownVmm r])
          vm (ch_grace ch) graceful r tr).
Proof.
  split.
  - intros Ho. destruct (qemu_shutdown_ends qemu vm graceful w Ho) as (r & tr & w' & E & _ & H). by exists r, tr, w'.
  - destruct (ch_shutdown_ends ch vm graceful w) as (r & tr & w' & E & _ & H). by exists r, tr, w'.
Qed.
End reasoning.

(** ** Directories of a machine *)

Section scratch.
Context {TF : TempFiles} {PR : Processes}.

(** [fs] is [fs0] with the directories [owned] added. *)
Definition with_owned (fs0 fs : Fs) (owned : list (list str)) : Prop :=
  forall q, (Exists (fun l => l `prefix_of` q) owned -> fs0 !! q = None)
         /\ (~ Exists (fun l => l `prefix_of` q) owned -> fs !! q = fs0 !! q).

Lemma with_owned_nil fs : with_owned fs fs [].
Proof. intros q. split; [by intros H%Exists_nil|done]. Qed.

Lemma with_owned_new fs0 fs owned d : with_owned fs0 fs owned -> unused fs d -> with_owned fs0 (<[d := NDir []]> fs) (d :: owned).
Proof.
  intros H [Hu _] q. destruct (H q) as [H1 H2]. rewrite Exists_cons. split.
  - intros [[x ->]|He]; [|by apply H1]. destruct (decide (Exists (fun l => l `prefix_of` d ++ x) owned)) as [He|He]; [by apply H1|].
    rewrite <- H2 by done. apply Hu.
  - intros Hn. rewrite lookup_insert_ne; [by apply H2; intros ?; apply Hn; right|]. intros ->. apply Hn. by left.
Qed.

Lemma with_owned_inside fs0 fs fs' owned d : d ∈ owned -> same_outside d fs fs' -> with_owned fs0 fs owned -> with_owned fs0 fs' owned.
Proof.
  intros Hd Hs H q. destruct (H q) as [H1 H2]. split; [done|]. intros Hn. rewrite Hs; [by apply H2|].
  intros Hp. apply Hn, Exists_exists. eauto.
Qed.

Lemma with_owned_drop fs0 fs owned d : with_owned fs0 fs (d :: owned) -> with_owned fs0 (remove_tree d fs) owned.
Proof.
  intros H q. destruct (H q) as [H1 H2]. rewrite Exists_cons in H1, H2. split; [tauto|]. intros Hn. rewrite lookup_remove_tree.
  case_bool_decide as Hp; [by rewrite H1 by tauto|]. tauto.
Qed.

Lemma with_owned_all owned : forall fs0 fs, with_owned fs0 fs owned -> fold_left (fun fs l => remove_tree l fs) owned fs = fs0.
Proof.
  induction owned as [|d owned IH]; intros fs0 fs H; [|by apply IH, with_owned_drop].
  apply map_eq. intros q. destruct (H q) as [_ H2]. apply H2. by intros ?%Exists_nil.
Qed.

Lemma with_owned_perm fs0 fs o o' : o ≡ₚ o' -> with_owned fs0 fs o -> with_owned fs0 fs o'.
Proof. intros Ho H q. by rewrite <- Ho. Qed.

(** A function that starts with directories that are [owned] fails and leaves
    just these, or returns a handle that owns all directories. *)
Definition tidied (fs0 : Fs) (owned : list (list str)) (res : result VmError VmHandle * Fs) : Prop :=
  match res with
  | (Ok h, fs) => with_owned fs0 fs (scratch h)
  | (Err _, fs) => with_owned fs0 fs owned
  end.

Lemma own_all_scratch dirs : forall h, scratch (own_all h dirs) = scratch h ++ dirs.
Proof. induction dirs as [|d dirs IH]; intros h; [by rewrite app_nil_r|]. etrans; [apply IH|]. cbn. by rewrite <- app_assoc. Qed.

Lemma tidied_new fs0 fs owned k :
  with_owned fs0 fs owned ->
  (forall d, unused fs d -> with_owned fs0 (<[d := NDir []]> fs) (d :: owned) -> tidied fs0 (d :: owned) (k d (<[d := NDir []]> fs))) ->
  tidied fs0 owned (new_tempdir k fs).
Proof.
  intros H Hk. unfold new_tempdir. destruct (temp_dir fs) as [d|e] eqn:Ed; [|done]. apply temp_dir_unused in Ed as Hu.
  specialize (Hk d Hu (with_owned_new _ _ _ _ H Hu)). destruct (k d _) as [[h|e] fs']; [done|]. by apply with_owned_drop.
Qed.

Lemma tidied_launch fs0 fs owned c id socket dirs : dirs ≡ₚ owned -> with_owned fs0 fs owned ->
  tidied fs0 owned ((p ← launch c; mret (own_all (started id p socket) dirs)) fs).
Proof.
  intros Hd H. rewrite fse_bind_eq. unfold launch. destruct (spawn c fs) as [p|e]; [|done]. cbn [map_err mret fse_ret tidied].
  rewrite own_all_scratch. by eapply with_owned_perm; [symmetry|].
Qed.

(** A file copied into a new directory. *)
Lemma copy_into_new fs d c src : unused fs d ->
  same_outside d (<[d := NDir []]> fs) (copy_file src (absolute d ++ [Normal c]) (<[d := NDir []]> fs)).2.
Proof.
  intros Hu. rewrite absolute_snoc. eapply same_outside_mono; [apply prefix_app_r; reflexivity|]. apply copy_file_contained.
  split; [apply placed_below, scratch_real, Hu|]. intros t. rewrite lookup_insert_ne by (intros E; apply (f_equal length) in E; rewrite length_app in E; cbn in E; lia).
  destruct Hu as [Hu _]. by rewrite Hu.
Qed.

Lemma validate_keeps spec fs : (validate_spec_inputs spec fs).2 = fs.
Proof.
  assert (He : forall p l fs, (ensure_readable p l fs).2 = fs) by (intros; unfold ensure_readable; rewrite fse_bind_eq, lift_eq; cbn; repeat (case_match; cbn); done).
  assert (Hb : forall p l (m : fse VmError unit) fs, (forall fs, (m fs).2 = fs) -> ((ensure_readable p l ;; m) fs).2 = fs).
  { intros p l m fs1 Hm. rewrite fse_bind_eq. pose proof (He p l fs1) as E. destruct (ensure_readable p l fs1) as [[] fs2]; cbn in *; subst; done. }
  unfold validate_spec_inputs. destruct (boot spec) as [path [[]|]|]; apply Hb; intros; try apply He; try apply Hb; intros; try apply He. done.
Qed.

Lemma start_tidied fs0 fs binary spec sock_dir sock :
  with_owned fs0 fs (option_list sock_dir) -> tidied fs0 (option_list sock_dir) (start_qemu binary spec sock_dir sock fs).
Proof.
  intros H. unfold start_qemu, prepare_firmware.
  assert (Hn : forall spec, tidied fs0 (option_list sock_dir)
    ((c ← launch (qemu_command binary (build_qemu_args spec sock ("umf-vmm-" ++ to_decimal process_id)) spec);
      mret (own_all (started ("umf-vmm-" ++ to_decimal process_id) c sock) (option_list sock_dir ++ option_list None))) fs)).
  { intros spec'. apply tidied_launch; [by rewrite app_nil_r|done]. }
  destruct (boot spec) as [path [[|code vars]|]|]; try apply Hn. apply tidied_new; [done|]. intros d Hu Ho.
  rewrite fse_bind_eq, lift_eq. pose proof (copy_into_new fs d "OVMF_VARS.fd" (components vars) Hu) as Hs.
  destruct (copy_file _ _ _) as [[[]|e] fs']; cbn [fst snd map_err] in *.
  - apply tidied_launch; [symmetry; apply Permutation_cons_append|]. eapply with_owned_inside; [by left|done|done].
  - eapply with_owned_inside; [by left|done|done].
Qed.

(** What dropping the handle leaves, or the error, is [fs]. *)
Definition handed_over (fs : Fs) (res : result VmError VmHandle * Fs) : Prop :=
  match res with (Err _, fs') => fs' = fs | (Ok h, fs') => drop_scratch h fs' = fs end.

(** C15 (safety): starting a machine leaves nothing behind.  When it fails, at the
    inputs, at a temporary directory, at the copy of the firmware's variables or at the process, the file system
    is as it was; when it succeeds, the handle owns whatever was added: dropping it
    gives back the file system there was before, for both backends and
    for every specification. *)
Theorem spawn_leaves_nothing (binary : str) (spec : VmSpec) (fs : Fs) :
  handed_over fs (spawn_qemu binary spec fs) /\ handed_over fs (spawn_cloud_hypervisor binary spec fs).
Proof.
  assert (Hh : forall res, tidied fs [] res -> handed_over fs res).
  { intros [[h|e] fs'] H; [by apply with_owned_all|]. by apply (with_owned_all []). }
  pose proof (validate_keeps spec fs) as Ev. pose proof (with_owned_nil fs) as H0.
  split; apply Hh; [unfold spawn_qemu|unfold spawn_cloud_hypervisor]; rewrite fse_bind_eq;
    destruct (validate_spec_inputs spec fs) as [[] fs1]; cbn in Ev; subst fs1; try done.
  - destruct (control spec); [|by apply (start_tidied _ _ _ _ None)].
    apply tidied_new; [done|]. intros d Hu Ho. by apply (start_tidied _ _ _ _ (Some d)).
  - apply tidied_new; [done|]. intros d Hu Ho.
    by apply (tidied_launch _ _ _ _ ("umf-vmm-ch-" ++ to_decimal process_id) (Some (dir_text d ++ "/ch-api.sock")) [d]).
Qed.
End scratch.

(** ** Machines the theorems apply to *)
Module ControlExample.
(** A machine whose clock is its world: it is reachable, says that its guest is
    in the state [status], and answers [quit] to the request to leave. *)
Definition reply (status : Reply RunState) (quit : Reply unit) {A} (c : Call A) : A :=
  match c with
  | OpenUds _ => Ok tt | VmmPing _ => Ok tt
  | Negotiate => Replied tt | SystemPowerdown => Replied tt | CreateVm _ => Replied tt | BootVm => Replied tt | PowerButton => Replied tt
  | QueryStatus => status
  | Quit => quit | ShutdownVmm => quit
  | VmInfoGet => Replied Running
  | TryWait _ => Ok None
  | ChildWait _ => Ok (Some 0%Z)
  | StartKill _ => Ok tt
  | Sleep _ => tt
  end.
Definition takes {A} (c : Call A) : N := match c with Sleep ms => ms | Quit => 10000 | _ => 1 end.

#[refine] Instance clocked (status : Reply RunState) (quit : Reply unit) : Vmm :=
  {| World := N; now := fun w => w; answers := fun _ _ _ => true; answer := fun A c w => (reply status quit c, w + takes c) |}.
Proof. all: cbn; done || lia. Defined.

(** The same machine, but its control socket accepts connections and stays
    silent. *)
#[refine] Instance silent : Vmm :=
  {| World := N; now := fun w => w; answers := fun _ c _ => bounded c; answer := fun A c w => (reply (Replied running) (Replied tt) c, w + takes c) |}.
Proof. all: cbn; done || lia. Defined.

Definition vm : VmHandle := {| child := Some 7; control_socket := Some ("/tmp/q/qmp.sock" : str); vm_id := "umf-vmm-17"; scratch := [] |}.

(** A guest that ignores the power button, in a machine that does not answer
    either: it is killed, after the grace period. *)
Example wedged_machine_killed :
  let '(r, tr, w) := qemu_shutdown (V := clocked (Replied running) TimedOut) QemuRuntime_default vm true 0 in
  r = Val (Ok tt) /\ last tr = Some (Ev 40101 (StartKill 7) (Ok tt)) /\ w = 40102.
Proof. vm_compute. done. Qed.

(** The shutdown of the wedged machine, as the theorem has it. *)
Lemma shutdown_stops_witness :
  exists r tr w', qemu_shutdown (V := clocked (Replied running) TimedOut) QemuRuntime_default vm true 0 = (Val r, tr, w')
    /\ shut QueryStatus shutdown SystemPowerdown Quit connected (fun tr => tr = []) vm (q_grace QemuRuntime_default) true r tr.
Proof.
  apply (shutdown_stops (V := clocked (Replied running) TimedOut) QemuRuntime_default CloudHypervisorRuntime_default vm true 0).
  intros socket _ w. reflexivity.
Defined.

(** QEMU's greeting is read while the socket is opened, outside any timeout: a
    QEMU that accepts the connection and never greets blocks [shutdown] for
    ever, also one that is not to be graceful, and its process is not killed. *)
Example silent_socket_blocks :
  qemu_shutdown (V := silent) QemuRuntime_default vm false 0 = (OutOfFuel, [], 0).
Proof. reflexivity. Qed.

(** A machine that is gone when it is asked whether it runs is reported as an error of the
    channel, not as a failure to boot. *)
Example early_exit_is_control :
  (qemu_boot (V := clocked (Failed "connection closed") TimedOut) vm 0).1.1
  = Val (Err (VmError_Control "QMP query-status: connection closed")).
Proof. reflexivity. Qed.

(** *** Starting *)
#[local] Existing Instance ModelTemp.model_temp.
#[refine] Instance processes (found : bool) : Processes :=
  {| spawn := fun _ _ => if found then Ok 7 else Err NotFound; process_id := 17; io_text := fun _ => "error" |}.
Proof. Defined.

Definition host_fs : Fs :=
  list_to_map [([], NDir []); (["d" : str], NFile "disk"); (["c" : str], NFile "code"); (["v" : str], NFile "vars")].
Definition disk_spec : VmSpec :=
  {| arch := X86_64; boot := BootSource_Disk "/d" (Some (Firmware_Pflash "/c" "/v")); memory_mib := 1024; cpus := 2; kvm := false;
     display := DisplayMode_None; port_forwards := []; net := None; control := ControlMode_Channel; shares := []; serial := SerialMode_Inherit |}.

(** Both directories are there while the machine runs, with the copy of the
    variables in the second. *)
Example started_machine :
  match spawn_qemu (PR := processes true) "qemu" disk_spec host_fs with
  | (Ok h, fs) => length (scratch h) = 2%nat /\ fs !! (default [] (last (scratch h)) ++ ["OVMF_VARS.fd" : str]) = Some (NFile "vars")
  | _ => False
  end.
Proof. vm_compute. done. Qed.
End ControlExample.
