(* ===== verification/Artifact.v ===== *)
(** * Artifact: artifact manifests and image indexes
    (crates/umf-oci/src/image/artifact.rs and index.rs).

    An artifact (a signature, a bill of materials) is a manifest that refers to
    an image; an image index lists the images of several platforms.  Both are
    written into the layout.  The text of manifests is a parameter. *)

From stdpp Require Import sorting.
From S2P Require Import Prelude RustStr RustStrFacts Target Image Json Layout LayoutFacts BaseImage InitrdModules.

(** ** Artifacts *)

Definition EMPTY_JSON_MEDIA_TYPE : str := "application/vnd.oci.empty.v1+json".
Definition EMPTY_JSON_BLOB : str := "{}".

Record ArtifactBlob := { ab_media_type : str; ab_data : str; ab_annotations : option (gmap str str) }.

Definition subject_from_entry (e : ImageIndexEntry) : OciDescriptor :=
  {| desc_media_type := ie_media_type e; desc_digest := ie_digest e; desc_size := ie_size e; desc_annotations := None |}.

(** [char::is_ascii_graphic]. *)
Definition is_ascii_graphic (c : ascii) : bool := in_range "!" "~" c.

Definition validate_media_type (m : str) : result RegistryError unit :=
  let shape_ok :=
    match split_once "/" m with
    | Some (t, s) => negb (is_nil t) && negb (is_nil s) && negb (contains_byte "/" s)
    | None => false
    end in
  if shape_ok && forallb is_ascii_graphic m then Ok tt else Err (RegistryError_InvalidMediaType m).

Fixpoint validate_media_types (ms : list str) : result RegistryError unit :=
  match ms with
  | [] => Ok tt
  | m :: ms => _ ← validate_media_type m; validate_media_types ms
  end.

Section artifact.
Context (sha256_hex : str -> str) (print_manifest : OciImageManifest -> str).
Notation digest_of := (sha256_digest sha256_hex).

Definition empty_json_descriptor (L : ImageLayout) : result RegistryError (OciDescriptor * ImageLayout) :=
  let digest := digest_of EMPTY_JSON_BLOB in
  L ← write_blob_with_digest sha256_hex EMPTY_JSON_BLOB digest L;
  Ok ({| desc_media_type := EMPTY_JSON_MEDIA_TYPE; desc_digest := digest; desc_size := Z.of_nat (length EMPTY_JSON_BLOB);
         desc_annotations := None |}, L).

Definition blob_descriptor (b : ArtifactBlob) : OciDescriptor :=
  {| desc_media_type := ab_media_type b; desc_digest := digest_of (ab_data b); desc_size := Z.of_nat (length (ab_data b));
     desc_annotations := ab_annotations b |}.

Fixpoint write_artifact_blobs (bs : list ArtifactBlob) (L : ImageLayout) : result RegistryError (list OciDescriptor * ImageLayout) :=
  match bs with
  | [] => Ok ([], L)
  | b :: bs =>
      L ← write_blob_with_digest sha256_hex (ab_data b) (digest_of (ab_data b)) L;
      '(ds, L) ← write_artifact_blobs bs L;
      Ok (blob_descriptor b :: ds, L)
  end.

Definition artifact_manifest (artifact_type : str) (subject : option OciDescriptor) (annotations : option (gmap str str))
    (config : OciDescriptor) (layers : list OciDescriptor) : OciImageManifest :=
  {| mf_config := config; mf_layers := layers; mf_subject := subject; mf_artifact_type := Some artifact_type; mf_annotations := annotations |}.

Definition emit_artifact_manifest (artifact_type : str) (subject : option OciDescriptor) (bs : list ArtifactBlob)
    (annotations : option (gmap str str)) (ref_name : option str) (L : ImageLayout)
    : result RegistryError (ImageIndexEntry * ImageLayout) :=
  _ ← validate_media_type artifact_type;
  _ ← validate_media_types (ab_media_type <$> bs);
  '(empty, L) ← empty_json_descriptor L;
  '(layers, L) ← match bs with [] => Ok ([empty], L) | _ => write_artifact_blobs bs L end;
  let manifest_bytes := print_manifest (artifact_manifest artifact_type subject annotations empty layers) in
  let manifest_digest := digest_of manifest_bytes in
  L ← write_blob_with_digest sha256_hex manifest_bytes manifest_digest L;
  let e := {| ie_media_type := OCI_IMAGE_MEDIA_TYPE; ie_digest := manifest_digest; ie_size := Z.of_nat (length manifest_bytes);
              ie_platform := None; ie_annotations := None |} in
  Ok (e, match ref_name with Some name => upsert_ref name e L | None => upsert_untagged e L end).
End artifact.

(** ** Image indexes *)

Definition OCI_IMAGE_INDEX_MEDIA_TYPE : str := "application/vnd.oci.image.index.v1+json".

Record IndexChild := { child_platform : Platform; child_digest : str }.

Definition platform_for (os arch : str) : Platform := {| platform_os := os; platform_architecture := arch; platform_variant := None |}.

Definition platform_sort_key (e : ImageIndexEntry) : list str :=
  match ie_platform e with
  | Some p => [platform_os p; platform_architecture p; default [] (platform_variant p); ie_digest e]
  | None => [[]; []; []; ie_digest e]
  end.
Definition entry_le (a b : ImageIndexEntry) : Prop := path_le (platform_sort_key a) (platform_sort_key b).
#[export] Instance entry_le_dec : RelDecision entry_le.
Proof. intros a b. unfold entry_le. apply _. Defined.

Section index.
Context (sha256_hex : str -> str) (print_index : list ImageIndexEntry -> str).

Definition child_entry (c : IndexChild) (bytes : str) : ImageIndexEntry :=
  {| ie_media_type := OCI_IMAGE_MEDIA_TYPE; ie_digest := child_digest c; ie_size := Z.of_nat (length bytes);
     ie_platform := Some (child_platform c); ie_annotations := None |}.

Fixpoint child_entries (L : ImageLayout) (cs : list IndexChild) : result RegistryError (list ImageIndexEntry) :=
  match cs with
  | [] => Ok []
  | c :: cs =>
      bytes ← read_blob sha256_hex L (child_digest c);
      es ← child_entries L cs;
      Ok (child_entry c bytes :: es)
  end.

Definition emit_index (children : list IndexChild) (ref_name : str) (L : ImageLayout) : result RegistryError (ImageIndexEntry * ImageLayout) :=
  if is_nil children then Err (RegistryError_InvalidLayout "cannot emit an image index with no child manifests")
  else
    es ← child_entries L children;
    let index_bytes := print_index (merge_sort entry_le es) in
    let index_digest := sha256_digest sha256_hex index_bytes in
    L ← write_blob_with_digest sha256_hex index_bytes index_digest L;
    let e := {| ie_media_type := OCI_IMAGE_INDEX_MEDIA_TYPE; ie_digest := index_digest; ie_size := Z.of_nat (length index_bytes);
                ie_platform := None; ie_annotations := None |} in
    Ok (e, upsert_ref ref_name e L).
End index.

Definition select_manifest_for_arch (es : list ImageIndexEntry) (arch : str) : option ImageIndexEntry :=
  match List.find (fun e => platform_matches arch e && variant_less e) es with
  | Some e => Some e
  | None => List.find (platform_matches arch) es
  end.

(** ** Artifacts are found *)

Section artifact_facts.
Context (sha256_hex : str -> str) (print_manifest : OciImageManifest -> str) (parse_manifest : str -> option OciManifest).
Context (sha256_hex_name : forall s, hex_name (sha256_hex s)).
Context (sha256_hex_inj : forall s t, sha256_hex s = sha256_hex t -> s = t).
Context (manifest_text : forall m, parse_manifest (print_manifest m) = Some (OciManifest_Image m)).
Notation digest_of := (sha256_digest sha256_hex).
Notation addressed := (addressed sha256_hex).
Notation stored := (stored sha256_hex).
Notation grown := (grown sha256_hex).
Notation list_referrers := (list_referrers sha256_hex parse_manifest).

Lemma write_artifact_blobs_stored bs : forall L, addressed L ->
  exists L', write_artifact_blobs sha256_hex bs L = Ok (blob_descriptor sha256_hex <$> bs, L') /\ addressed L' /\ grown L L'
    /\ Forall (fun b => stored L' (ab_data b)) bs.
Proof.
  induction bs as [|b bs IH]; intros L HA; cbn [write_artifact_blobs].
  { exists L. split_and!; [done|done|by split|constructor]. }
  destruct (write_stored sha256_hex sha256_hex_name sha256_hex_inj L (ab_data b) HA) as (L1 & -> & HA1 & HG1 & HS1). cbn [mbind result_bind].
  destruct (IH L1 HA1) as (L2 & -> & HA2 & HG2 & HS2). cbn [mbind result_bind]. exists L2. split_and!; [done|done|by eapply grown_trans|].
  constructor; [by apply HG2|done].
Qed.

Lemma layers_stored bs L empty : addressed L ->
  exists layers L', match bs with [] => Ok ([empty], L) | _ => write_artifact_blobs sha256_hex bs L end = Ok (layers, L') /\ addressed L' /\ grown L L'
    /\ Forall (fun b => stored L' (ab_data b)) bs /\ forall b, b ∈ bs -> blob_descriptor sha256_hex b ∈ layers.
Proof.
  intros HA. destruct bs as [|b bs]; [eexists _, L; split_and!; [done|done|by split|constructor|by intros b ?%not_elem_of_nil]|].
  destruct (write_artifact_blobs_stored (b :: bs) L HA) as (L' & -> & HA' & HG & HS). eexists _, L'. split_and!; try done.
  intros x Hx. apply list_elem_of_fmap. by exists x.
Qed.

(** What is read from a layout is read from one that has grown. *)
Lemma read_blob_grown L L' d bytes : grown L L' -> read_blob sha256_hex L d = Ok bytes -> read_blob sha256_hex L' d = Ok bytes.
Proof. intros [_ HS] [<- HB]%read_blob_Ok. apply read_blob_stored; [done|]. by apply HS. Qed.

Lemma write_blob_grown data d L L' : addressed L -> write_blob_with_digest sha256_hex data d L = Ok L' -> addressed L' /\ grown L L' /\ stored L' data.
Proof.
  intros HA H. assert (d = digest_of data) as -> by (unfold write_blob_with_digest in H; by case_bool_decide).
  destruct (write_stored sha256_hex sha256_hex_name sha256_hex_inj L data HA) as (L1 & E & HA1 & HG & HS). by rewrite E in H; injection H as <-.
Qed.

Lemma referrer_grown L L' sd filter e r : grown L L' ->
  referrer sha256_hex parse_manifest L sd filter e = Some r -> referrer sha256_hex parse_manifest L' sd filter e = Some r.
Proof.
  intros HG. unfold referrer. destruct (negb (bool_decide (ie_media_type e = _))); [done|].
  destruct (read_blob sha256_hex L (ie_digest e)) as [bytes|] eqn:E; [|done]. by rewrite (read_blob_grown L L' _ bytes).
Qed.

Lemma referrer_digest L sd filter e r : referrer sha256_hex parse_manifest L sd filter e = Some r -> rd_digest r = ie_digest e.
Proof.
  unfold referrer. repeat match goal with |- context [if ?c then _ else _] => destruct c; [done|] | |- context [match ?x with Ok _ => _ | Err _ => _ end] => destruct x; [|done] end.
  destruct (parse_manifest _) as [[m|]|]; [|done..]. repeat match goal with |- context [if ?c then _ else _] => destruct c; [done|] end. by intros [= <-].
Qed.

(** The index after the new entry: it is there, and entries of other digests
    that have no name, or another one, are still there. *)
Definition register (ref_name : option str) (e : ImageIndexEntry) (L : ImageLayout) : ImageLayout :=
  match ref_name with Some name => upsert_ref name e L | None => upsert_untagged e L end.

Lemma register_kept ref_name e L x : x ∈ index L -> (ref_name = None \/ ref_name_of x <> ref_name) -> ie_digest x <> ie_digest e ->
  x ∈ index (register ref_name e L).
Proof.
  intros Hx Hr Hd. destruct ref_name as [name|]; cbn; apply elem_of_app; left; apply list_elem_of_filter; split; try done.
  - by destruct Hr.
  - by intros [_ ?].
Qed.
Lemma register_new ref_name e L : exists x, x ∈ index (register ref_name e L) /\ ie_digest x = ie_digest e /\ ie_media_type x = ie_media_type e
  /\ ie_size x = ie_size e.
Proof. destruct ref_name as [name|]; cbn; [exists (annotate name e)|exists e]; (split; [apply elem_of_app; right; by left|done]). Qed.

(** An artifact that is emitted is found again: the
    layout stays sound, the artifact is listed among the referrers of its
    subject, with its type and annotations, when all or those of its type are
    asked for, and is not when another type is; its blobs can be read under their
    digests and are kept by garbage collection; and the referrers that
    were listed still are, unless they had the name the artifact was given or are the artifact itself. *)
Theorem artifact_listed artifact_type subject bs annotations ref_name L :
  addressed L -> validate_media_type artifact_type = Ok tt -> validate_media_types (ab_media_type <$> bs) = Ok tt ->
  exists e L', emit_artifact_manifest sha256_hex print_manifest artifact_type (Some subject) bs annotations ref_name L = Ok (e, L')
    /\ addressed L'
    /\ (forall filter, let r := {| rd_media_type := OCI_IMAGE_MEDIA_TYPE; rd_digest := ie_digest e; rd_size := ie_size e;
                                   rd_artifact_type := Some artifact_type; rd_annotations := annotations |} in
          r ∈ list_referrers L' (desc_digest subject) filter <-> filter = None \/ filter = Some artifact_type)
    /\ (forall b, b ∈ bs -> read_blob sha256_hex L' (digest_of (ab_data b)) = Ok (ab_data b)
                         /\ referenced sha256_hex parse_manifest L' (digest_of (ab_data b)))
    /\ (forall sd filter x r, x ∈ index L -> referrer sha256_hex parse_manifest L sd filter x = Some r ->
          (ref_name = None \/ ref_name_of x <> ref_name) -> rd_digest r <> ie_digest e -> r ∈ list_referrers L' sd filter).
Proof.
  intros HA Ht Hb. unfold emit_artifact_manifest, empty_json_descriptor. rewrite Ht, Hb. cbn [mbind result_bind].
  destruct (write_stored sha256_hex sha256_hex_name sha256_hex_inj L EMPTY_JSON_BLOB HA) as (L1 & -> & HA1 & HG1 & _). cbn [mbind result_bind].
  match goal with |- context [Ok ([?x], L1)] => destruct (layers_stored bs L1 x HA1) as (layers & L2 & -> & HA2 & HG2 & HS & Hl) end. cbn [mbind result_bind].
  set (m := artifact_manifest _ _ _ _ _). set (bytes := print_manifest m).
  destruct (write_stored sha256_hex sha256_hex_name sha256_hex_inj L2 bytes HA2) as (L3 & -> & HA3 & HG3 & HS3). cbn [mbind result_bind].
  set (e := {| ie_media_type := _; ie_digest := digest_of bytes; ie_size := _; ie_platform := _; ie_annotations := _ |}).
  eexists e, (register ref_name e L3). split; [done|]. split; [by destruct ref_name|].
  assert (HR : forall d, read_blob sha256_hex (register ref_name e L3) d = read_blob sha256_hex L3 d) by (intros; by destruct ref_name).
  assert (Hm : read_blob sha256_hex L3 (digest_of bytes) = Ok bytes) by by apply read_blob_stored.
  pose proof (manifest_text m : parse_manifest bytes = _) as Hp.
  split_and!.
  - intros filter. unfold Layout.list_referrers. rewrite list_elem_of_omap. split.
    + intros (x & _ & Hx). unfold referrer in Hx. case_bool_decide; [|done]. cbn [negb] in Hx. revert Hx.
      destruct (read_blob sha256_hex _ (ie_digest x)) as [bytes'|] eqn:E; [|done]. destruct (parse_manifest bytes') as [[m'|]|] eqn:Em; [|done..].
      destruct (negb (bool_decide (desc_digest <$> mf_subject m' = _))); [done|]. destruct filter as [f|]; [|by left].
      case_bool_decide as Hf; [|done]. intros [= _ Hd _ Hty _]. right. congruence.
    + intros Hf. destruct (register_new ref_name e L3) as (x & Hx & Hd & Hmt & Hsz). exists x. split; [done|].
      unfold referrer. rewrite Hmt, bool_decide_true by done. cbn [negb]. rewrite Hd, HR. unfold e. cbn [ie_digest]. rewrite Hm, Hp.
      cbn [negb mf_subject m artifact_manifest fmap option_fmap option_map mf_artifact_type mf_annotations]. rewrite bool_decide_true by done. cbn [negb].
      destruct Hf as [->| ->]; [|rewrite bool_decide_true by done]; cbn [negb]; by rewrite Hsz.
  - intros b Hi. assert (Hst : stored L3 (ab_data b)) by (apply HG3; rewrite Forall_forall in HS; by apply HS). split; [rewrite HR; by apply read_blob_stored|].
    right. exists (digest_of bytes). split.
    + destruct (register_new ref_name e L3) as (x & Hx & Hd & _). exists (digest_of bytes). split; [|apply rtc_refl]. apply list_elem_of_fmap. by exists x.
    + exists bytes, m. split_and!; [by rewrite HR|done|]. right. apply list_elem_of_fmap. exists (blob_descriptor sha256_hex b). split; [done|].
      by apply Hl.
  - intros sd filter x r Hx Hr Hn Hd. unfold Layout.list_referrers. apply list_elem_of_omap. exists x.
    assert (HG : grown L L3) by (eapply grown_trans; [exact HG1|]; eapply grown_trans; [exact HG2|exact HG3]).
    split.
    + apply register_kept; [by rewrite (proj1 HG)|done|]. by rewrite <- (referrer_digest _ _ _ _ _ Hr).
    + unfold referrer. setoid_rewrite HR. by apply (referrer_grown L L3).
Qed.
End artifact_facts.

(** ** Indexes are composed in any order *)

#[export] Instance entry_le_total : Total entry_le.
Proof. intros a b. apply (total path_le). Qed.
#[export] Instance entry_le_trans : Transitive entry_le.
Proof. intros a b c. apply (transitivity (R:=path_le)). Qed.

Lemma path_le_antisym a b : path_le a b -> path_le b a -> a = b.
Proof.
  unfold path_le. revert b. induction a as [|x a IH]; intros [|y b]; cbn; try done.
  destruct (decide (x = y)) as [<-|Hn].
  - rewrite !bool_decide_true by done. intros H1 H2. f_equal. by apply IH.
  - rewrite !bool_decide_false by congruence. intros H1 H2. destruct Hn. by apply (anti_symm str_le).
Qed.

(** The resolver of base images selects in the same way. *)
Lemma select_for_arch_same es a : select_for_arch es a = select_manifest_for_arch es (oci_arch_string a).
Proof. done. Qed.

Lemma find_exists {A} (p : A -> bool) l : (exists x, x ∈ l /\ p x = true) -> exists x, List.find p l = Some x.
Proof.
  intros (x & Hx & Hp). destruct (List.find p l) as [y|] eqn:E; [by exists y|].
  pose proof (find_none p l E x ltac:(by apply list_elem_of_In)). congruence.
Qed.
Lemma find_in {A} (p : A -> bool) l x : List.find p l = Some x -> x ∈ l /\ p x = true.
Proof. intros [Hi Hp]%find_some. split; [by apply list_elem_of_In|done]. Qed.

(** What is selected is for the platform asked for; there is something to
    select when the index has an entry for it, and one without a variant is
    preferred. *)
Lemma select_manifest_for_arch_exact es arch :
  match select_manifest_for_arch es arch with
  | Some x => x ∈ es /\ platform_matches arch x = true
      /\ (forall y, y ∈ es -> platform_matches arch y = true -> variant_less y = true -> variant_less x = true)
  | None => forall y, y ∈ es -> platform_matches arch y = false
  end.
Proof.
  unfold select_manifest_for_arch. destruct (List.find (fun e => _ && _) es) as [x|] eqn:E.
  { apply find_in in E as [Hx Hp]. apply andb_true_iff in Hp as [Hp Hv]. by split_and!. }
  assert (Hn : forall y, y ∈ es -> platform_matches arch y && variant_less y = false)
    by (intros y Hy; apply (find_none _ _ E); by apply list_elem_of_In).
  destruct (List.find (platform_matches arch) es) as [x|] eqn:E'.
  - apply find_in in E' as [Hx Hp]. split_and!; [done|done|]. intros y Hy Hm Hv. pose proof (Hn y Hy). by rewrite Hm, Hv in H.
  - intros y Hy. apply (find_none _ _ E'). by apply list_elem_of_In.
Qed.

Section index_facts.
Context (sha256_hex : str -> str) (print_index : list ImageIndexEntry -> str) (parse_manifest : str -> option OciManifest).
Context (sha256_hex_name : forall s, hex_name (sha256_hex s)).
Context (sha256_hex_inj : forall s t, sha256_hex s = sha256_hex t -> s = t).
Context (index_text : forall es, parse_manifest (print_index es) = Some (OciManifest_ImageIndex es)).
Notation emit_index := (emit_index sha256_hex print_index).

Definition readable (L : ImageLayout) (c : IndexChild) : Prop := is_ok (read_blob sha256_hex L (child_digest c)) = true.
Definition entry_in (L : ImageLayout) (c : IndexChild) : ImageIndexEntry :=
  child_entry c (match read_blob sha256_hex L (child_digest c) with Ok b => b | Err _ => [] end).

Lemma child_entries_Ok L cs es : child_entries sha256_hex L cs = Ok es <-> Forall (readable L) cs /\ es = entry_in L <$> cs.
Proof.
  revert es. induction cs as [|c cs IH]; intros es; cbn [child_entries].
  { split; [intros [= <-]; by split|by intros [_ ->]]. }
  rewrite Forall_cons. unfold readable at 1. unfold entry_in. cbn [fmap list_fmap].
  destruct (read_blob sha256_hex L (child_digest c)) as [b|]; cbn [mbind result_bind is_ok]; [|by split; [|intros [[] _]]].
  destruct (child_entries sha256_hex L cs) as [es'|]; cbn [mbind result_bind].
  - destruct (proj1 (IH es') eq_refl) as [Hr ->]. split; [by intros [= <-]|]. by intros [_ ->].
  - split; [done|]. intros [[_ Hr] _]. pose proof (proj2 (IH _) (conj Hr eq_refl)). done.
Qed.

(** The variants of the children, if they have one, are not empty. *)
Definition proper_variants (cs : list IndexChild) : Prop := Forall (fun c => platform_variant (child_platform c) <> Some []) cs.

Lemma sort_key_determines L cs c c' : proper_variants cs -> c ∈ cs -> c' ∈ cs ->
  platform_sort_key (entry_in L c) = platform_sort_key (entry_in L c') -> entry_in L c = entry_in L c'.
Proof.
  unfold proper_variants. rewrite Forall_forall. intros Hv Hc Hc'. pose proof (Hv c Hc) as H1. pose proof (Hv c' Hc') as H2. unfold platform_sort_key, entry_in. cbn.
  intros [= Ho Ha Hva Hd]. rewrite Hd. unfold child_entry. destruct c as [[o a v] d], c' as [[o' a' v'] d']. cbn in *. subst.
  assert (v = v') as -> by (destruct v as [[]|], v' as [[]|]; cbn in *; congruence). done.
Qed.

Lemma sort_entries_perm L cs cs' : proper_variants cs -> cs ≡ₚ cs' ->
  merge_sort entry_le (entry_in L <$> cs) = merge_sort entry_le (entry_in L <$> cs').
Proof.
  intros Hv Hp. apply (StronglySorted_unique_strong entry_le).
  - intros x y Hx Hy H1 H2. rewrite merge_sort_Permutation in Hx, Hy. apply list_elem_of_fmap in Hx as (c & -> & Hc), Hy as (c' & -> & Hc').
    rewrite <- Hp in Hc'. apply (sort_key_determines L cs); [done..|]. by apply path_le_antisym.
  - apply (StronglySorted_merge_sort entry_le).
  - apply (StronglySorted_merge_sort entry_le).
  - by rewrite !merge_sort_Permutation, Hp.
Qed.

(** An index is composed from the images of several platforms.
    The order in which they are given does not matter, the index has an entry for
    each child and no other, and selecting a platform gives an image for it whenever one was
    given; when an image could not be read or none is given nothing changes. *)
Theorem index_composed L cs ref_name :
  addressed sha256_hex L -> proper_variants cs ->
  (forall cs', cs ≡ₚ cs' -> forall res, emit_index cs ref_name L = Ok res -> emit_index cs' ref_name L = Ok res)
  /\ (cs <> [] -> Forall (readable L) cs ->
      exists e L' es, emit_index cs ref_name L = Ok (e, L') /\ addressed sha256_hex L'
        /\ layout_lookup_ref L' ref_name = Some (annotate ref_name e)
        /\ (forall bytes, read_blob sha256_hex L' (ie_digest e) = Ok bytes -> parse_manifest bytes = Some (OciManifest_ImageIndex es))
        /\ is_ok (read_blob sha256_hex L' (ie_digest e)) = true
        /\ es ≡ₚ (entry_in L <$> cs)
        /\ (forall c, c ∈ cs -> platform_os (child_platform c) = ("linux" : str) ->
              exists x c', select_manifest_for_arch es (platform_architecture (child_platform c)) = Some x /\ c' ∈ cs /\ x = entry_in L c'
                /\ platform_architecture (child_platform c') = platform_architecture (child_platform c))).
Proof.
  intros HA Hv. split.
  - intros cs' Hp res. unfold Artifact.emit_index. destruct (is_nil cs) eqn:E; [done|].
    replace (is_nil cs') with false by (destruct cs' as [|c' cs']; [apply Permutation_nil_r in Hp; by subst|done]).
    intros (es & [Hr ->]%child_entries_Ok & H)%bind_Ok. rewrite (proj2 (child_entries_Ok L cs' (entry_in L <$> cs'))) by (split; [by rewrite <- Hp|done]).
    cbn [mbind result_bind]. by rewrite <- (sort_entries_perm L cs cs').
  - intros Hn Hr. unfold Artifact.emit_index. destruct (is_nil cs) eqn:E; [by destruct cs|].
    rewrite (proj2 (child_entries_Ok L cs (entry_in L <$> cs))) by done. cbn [mbind result_bind].
    set (es := merge_sort entry_le (entry_in L <$> cs)). set (bytes := print_index es).
    destruct (write_stored sha256_hex sha256_hex_name sha256_hex_inj L bytes HA) as (L' & -> & HA' & HG & HS). cbn [mbind result_bind].
    assert (Hrd : read_blob sha256_hex L' (sha256_digest sha256_hex bytes) = Ok bytes) by by apply read_blob_stored.
    assert (Hpm : es ≡ₚ (entry_in L <$> cs)) by apply merge_sort_Permutation.
    eexists _, _, es. split; [done|]. split; [done|]. split; [by rewrite lookup_upsert_ref, decide_True|]. split_and!.
    + intros b. cbn [ie_digest]. change (read_blob sha256_hex (upsert_ref _ _ L')) with (read_blob sha256_hex L'). rewrite Hrd. intros [= <-]. apply index_text.
    + cbn [ie_digest]. change (read_blob sha256_hex (upsert_ref _ _ L')) with (read_blob sha256_hex L'). by rewrite Hrd.
    + done.
    + intros c Hc Hos. pose proof (select_manifest_for_arch_exact es (platform_architecture (child_platform c))) as H.
      destruct (select_manifest_for_arch es _) as [x|].
      * destruct H as (Hx & Hm & _). rewrite Hpm in Hx. apply list_elem_of_fmap in Hx as (c' & -> & Hc'). exists (entry_in L c'), c'. split_and!; try done.
        unfold platform_matches in Hm. cbn in Hm. apply andb_true_iff in Hm as [_ Hm]. by apply bool_decide_eq_true in Hm.
      * specialize (H (entry_in L c)). rewrite Hpm in H. specialize (H ltac:(apply list_elem_of_fmap; by exists c)).
        unfold platform_matches in H. cbn in H. by rewrite Hos, !bool_decide_true in H.
Qed.
End index_facts.

(** ** An artifact and an index *)
Module ArtifactExample.
#[export] Instance descriptor_eq_dec : EqDecision OciDescriptor.
Proof. solve_decision. Defined.
#[export] Instance descriptor_countable : Countable OciDescriptor.
Proof.
  by refine (inj_countable' (fun d => (desc_media_type d, desc_digest d, desc_size d, desc_annotations d))
    (fun '(a, b, c, d) => {| desc_media_type := a; desc_digest := b; desc_size := c; desc_annotations := d |}) _); intros [].
Defined.
#[export] Instance manifest_eq_dec : EqDecision OciImageManifest.
Proof. solve_decision. Defined.
#[export] Instance manifest_countable : Countable OciImageManifest.
Proof.
  by refine (inj_countable' (fun m => (mf_config m, mf_layers m, mf_subject m, mf_artifact_type m, mf_annotations m))
    (fun '(a, b, c, d, e) => {| mf_config := a; mf_layers := b; mf_subject := c; mf_artifact_type := d; mf_annotations := e |}) _); intros [].
Defined.
#[export] Instance platform_eq_dec : EqDecision Platform.
Proof. solve_decision. Defined.
#[export] Instance platform_countable : Countable Platform.
Proof.
  by refine (inj_countable' (fun p => (platform_os p, platform_architecture p, platform_variant p))
    (fun '(a, b, c) => {| platform_os := a; platform_architecture := b; platform_variant := c |}) _); intros [].
Defined.
#[export] Instance entry_eq_dec : EqDecision ImageIndexEntry.
Proof. solve_decision. Defined.
#[export] Instance entry_countable : Countable ImageIndexEntry.
Proof.
  by refine (inj_countable' (fun e => (ie_media_type e, ie_digest e, ie_size e, ie_platform e, ie_annotations e))
    (fun '(a, b, c, d, e) => {| ie_media_type := a; ie_digest := b; ie_size := c; ie_platform := d; ie_annotations := e |}) _); intros [].
Defined.

Definition print_manifest (m : OciImageManifest) : str := code_text (inl m : OciImageManifest + list ImageIndexEntry).
Definition print_index (es : list ImageIndexEntry) : str := code_text (inr es : OciImageManifest + list ImageIndexEntry).
Definition parse_manifest (s : str) : option OciManifest :=
  match (of_code_text s : option (OciImageManifest + list ImageIndexEntry)) with
  | Some (inl m) => Some (OciManifest_Image m)
  | Some (inr es) => Some (OciManifest_ImageIndex es)
  | None => None
  end.
Lemma parse_print_manifest m : parse_manifest (print_manifest m) = Some (OciManifest_Image m).
Proof. unfold parse_manifest, print_manifest. by rewrite code_text_roundtrip. Qed.
Lemma parse_print_index es : parse_manifest (print_index es) = Some (OciManifest_ImageIndex es).
Proof. unfold parse_manifest, print_index. by rewrite code_text_roundtrip. Qed.

Lemma model_addressed : addressed ModelLayout.hexify ModelLayout.layout.
Proof. intros name b Hb. apply elem_of_list_to_map_2, list_elem_of_fmap in Hb as (f & [= -> ->] & _). done. Qed.

Definition signature : ArtifactBlob := {| ab_media_type := "application/json"; ab_data := "sig"; ab_annotations := None |}.

Lemma artifact_listed_witness : exists e L',
  emit_artifact_manifest ModelLayout.hexify print_manifest "application/sig" (Some (ModelLayout.desc "M")) [signature] None None ModelLayout.layout = Ok (e, L')
  /\ list_referrers ModelLayout.hexify parse_manifest L' (desc_digest (ModelLayout.desc "M")) (Some ("application/sig" : str)) <> [].
Proof.
  destruct (artifact_listed ModelLayout.hexify print_manifest parse_manifest ModelLayout.hexify_name ModelLayout.hexify_inj parse_print_manifest
    "application/sig" (ModelLayout.desc "M") [signature] None None ModelLayout.layout) as (e & L' & E & _ & H & _).
  - exact model_addressed.
  - reflexivity.
  - reflexivity.
  - exists e, L'. split; [exact E|]. intros HN. specialize (H (Some ("application/sig" : str))). rewrite HN in H.
    pose proof (proj2 H (or_intror eq_refl)) as Hi. by apply not_elem_of_nil in Hi.
Defined.

(** Two children that differ in an empty variant only are sorted as they come:
    the order then does matter. *)
Example empty_variant_order :
  let child v := {| child_platform := {| platform_os := "linux"; platform_architecture := "arm"; platform_variant := v |};
                    child_digest := sha256_digest ModelLayout.hexify "M" |} in
  let es cs := match child_entries ModelLayout.hexify ModelLayout.layout cs with Ok es => merge_sort entry_le es | Err _ => [] end in
  es [child None; child (Some [])] <> es [child (Some []); child None].
Proof. vm_compute. congruence. Qed.
End ArtifactExample.
