(* ===== verification/Archive.v ===== *)
(** * Archive: saving and loading archives of a layout
    (crates/umf-oci/src/archive.rs).

    An archive is a tar with the marker of a layout, an index of the selected
    references and the blobs they reach.  The tar crate and the text of the index
    are a class: the entries written are those read. *)

From S2P Require Import Prelude RustStr RustStrFacts Target Image Json Layout LayoutFacts HostFs BaseImage Artifact.

Definition OCI_LAYOUT_FILE : str := "oci-layout".
Definition INDEX_JSON_FILE : str := "index.json".
Definition BLOBS_PREFIX : str := "blobs/sha256/".
Definition OCI_LAYOUT_PAYLOAD : str :=
  "{" ++ [dquote] ++ "imageLayoutVersion" ++ [dquote] ++ ":" ++ [dquote] ++ "1.0.0" ++ [dquote] ++ "}".
Definition MAX_ENTRY_BYTES : N := 8 * 1024 * 1024 * 1024.

Inductive ArchiveError :=
| ArchiveError_RefNotFound (name : str)
| ArchiveError_RefCollision (name : str)
| ArchiveError_NotAnOciArchive
| ArchiveError_BadIndex
| ArchiveError_Registry (e : RegistryError)
| ArchiveError_Io (e : IoError)
| ArchiveError_Tar (message : str).

(** The entries of the index as they are read. *)
Record ArchiveManifestEntry := {
  ae_media_type : str;
  ae_digest : str;
  ae_size : Z;
  ae_annotations : option (gmap str str)
}.
Definition archive_entry (e : ImageIndexEntry) : ArchiveManifestEntry :=
  {| ae_media_type := ie_media_type e; ae_digest := ie_digest e; ae_size := ie_size e; ae_annotations := ie_annotations e |}.

(** The tar crate, a reader of which gives entries until it fails, and serde. *)
Class ArchiveText := {
  tar_finish : list (str * str) -> str;
  tar_entries : str -> list (result IoError (str * str));
  index_text : list ImageIndexEntry -> str;
  parse_index : str -> option (list ArchiveManifestEntry);
  tar_roundtrip : forall es, tar_entries (tar_finish es) = Ok <$> es;
  index_roundtrip : forall es, parse_index (index_text es) = Some (archive_entry <$> es)
}.

Section archive.
Context {AT : ArchiveText} (sha256_hex : str -> str) (parse_manifest : str -> option OciManifest).

(** ** Save *)

(** The name field of a header has a hundred bytes. *)
Definition set_path (path : str) : result ArchiveError unit :=
  if (100 <? length path)%nat then Err (ArchiveError_Io (OtherIo "provided value is too long")) else Ok tt.
Definition write_bytes_entry (path bytes : str) : result ArchiveError (str * str) := _ ← set_path path; Ok (path, bytes).
Definition write_string_entry (path body : str) : result ArchiveError (str * str) := write_bytes_entry path body.
Definition write_file_entry (path : str) (file : option str) : result ArchiveError (str * str) :=
  bytes ← ok_or file (ArchiveError_Io NotFound);
  _ ← set_path path;
  Ok (path, bytes).

Fixpoint select_refs (L : ImageLayout) (refs : list str) : result ArchiveError (list ImageIndexEntry) :=
  match refs with
  | [] => Ok []
  | r :: refs =>
      e ← ok_or (layout_lookup_ref L r) (ArchiveError_RefNotFound r);
      es ← select_refs L refs;
      Ok (e :: es)
  end.

Definition blob_entry (L : ImageLayout) (digest : str) : result ArchiveError (str * str) :=
  hex ← ok_or (strip_prefix "sha256:" digest) (ArchiveError_Tar ("non-sha256 digest in layout: " ++ digest));
  name ← map_err ArchiveError_Registry (blob_path digest);
  write_file_entry (BLOBS_PREFIX ++ hex) (blobs L !! name).
Fixpoint blob_entries (L : ImageLayout) (digests : list str) : result ArchiveError (list (str * str)) :=
  match digests with
  | [] => Ok []
  | d :: ds => f ← blob_entry L d; fs ← blob_entries L ds; Ok (f :: fs)
  end.

(** The marker, the entries of the selected references and their index. *)
Definition save_index (L : ImageLayout) (refs : list str) : result ArchiveError (str * str * list ImageIndexEntry * (str * str)) :=
  marker ← write_string_entry OCI_LAYOUT_FILE OCI_LAYOUT_PAYLOAD;
  es ← select_refs L refs;
  ix ← write_bytes_entry INDEX_JSON_FILE (index_text es);
  Ok (marker, es, ix).

Definition save_to_writer (L : ImageLayout) (refs : list str) : outcome (result ArchiveError str) :=
  match save_index L refs with
  | Err e => Val (Err e)
  | Ok (marker, es, ix) =>
      r ← walk_all (collect_reachable sha256_hex parse_manifest (walk_fuel L) L) (ie_digest <$> es) ∅;
      Val (match r with
           | Err e => Err (ArchiveError_Registry e)
           | Ok reachable => fs ← blob_entries L (sort_strs (elements reachable)); Ok (tar_finish (marker :: ix :: fs))
           end)
  end.

(** ** Load *)

Definition read_capped (path : str) (cap : N) (entry : str) : result ArchiveError str :=
  let buf := take (N.to_nat (cap + 1)) entry in
  if (cap <? N.of_nat (length buf))%N then Err (ArchiveError_Tar ("archive entry " ++ path ++ " exceeds the ceiling")) else Ok buf.
Definition read_entry_capped (path entry : str) : result ArchiveError str := read_capped path MAX_ENTRY_BYTES entry.

Record Scan := { saw_layout_marker : bool; index_bytes : option str; scanned : list (str * str) }.

Definition scan_entry (path buf : str) (s : Scan) : Scan :=
  if bool_decide (path = OCI_LAYOUT_FILE)
  then {| saw_layout_marker := true; index_bytes := index_bytes s; scanned := scanned s |}
  else if bool_decide (path = INDEX_JSON_FILE)
  then {| saw_layout_marker := saw_layout_marker s; index_bytes := Some buf; scanned := scanned s |}
  else match strip_prefix BLOBS_PREFIX path with
       | Some hex => {| saw_layout_marker := saw_layout_marker s; index_bytes := index_bytes s; scanned := scanned s ++ [("sha256:" ++ hex, buf)] |}
       | None => s
       end.

Fixpoint scan_entries (entries : list (result IoError (str * str))) (s : Scan) : result ArchiveError Scan :=
  match entries with
  | [] => Ok s
  | Err e :: _ => Err (ArchiveError_Io e)
  | Ok (path, data) :: entries => buf ← read_entry_capped path data; scan_entries entries (scan_entry path buf s)
  end.

(** The archive as read: its blobs and its index. *)
Definition read_archive (text : str) : result ArchiveError (list (str * str) * list ArchiveManifestEntry) :=
  s ← scan_entries (tar_entries text) {| saw_layout_marker := false; index_bytes := None; scanned := [] |};
  _ ← (if saw_layout_marker s then Ok tt else Err ArchiveError_NotAnOciArchive);
  ix ← ok_or (index_bytes s) ArchiveError_NotAnOciArchive;
  ms ← ok_or (parse_index ix) ArchiveError_BadIndex;
  Ok (scanned s, ms).

Definition archive_ref_name (m : ArchiveManifestEntry) : option str := ae_annotations m ≫= fun a => a !! REF_NAME_ANNOTATION.

Fixpoint check_collisions (L : ImageLayout) (ms : list ArchiveManifestEntry) : result ArchiveError unit :=
  match ms with
  | [] => Ok tt
  | m :: ms =>
      match archive_ref_name m with
      | Some name => if bool_decide (is_Some (layout_lookup_ref L name)) then Err (ArchiveError_RefCollision name) else check_collisions L ms
      | None => check_collisions L ms
      end
  end.

(** The blobs before one that cannot be written stay written. *)
Fixpoint write_blobs (bs : list (str * str)) (L : ImageLayout) : result RegistryError unit * ImageLayout :=
  match bs with
  | [] => (Ok tt, L)
  | (digest, bytes) :: bs =>
      match write_blob_with_digest sha256_hex bytes digest L with
      | Ok L => write_blobs bs L
      | Err e => (Err e, L)
      end
  end.

Definition loaded_entry (m : ArchiveManifestEntry) : ImageIndexEntry :=
  {| ie_media_type := ae_media_type m; ie_digest := ae_digest m; ie_size := ae_size m; ie_platform := None; ie_annotations := ae_annotations m |}.

Fixpoint upsert_refs (ms : list ArchiveManifestEntry) (L : ImageLayout) : list str * ImageLayout :=
  match ms with
  | [] => ([], L)
  | m :: ms =>
      match archive_ref_name m with
      | Some name => let '(names, L) := upsert_refs ms (upsert_ref name (loaded_entry m) L) in (name :: names, L)
      | None => upsert_refs ms L
      end
  end.

Definition load_from_reader (text : str) (overwrite : bool) (L : ImageLayout) : result ArchiveError (list str) * ImageLayout :=
  match (a ← read_archive text; _ ← (if overwrite then Ok tt else check_collisions L a.2); Ok a) with
  | Err e => (Err e, L)
  | Ok (bs, ms) =>
      match write_blobs bs L with
      | (Err e, L) => (Err (ArchiveError_Registry e), L)
      | (Ok _, L) => let '(names, L) := upsert_refs ms L in (Ok names, L)
      end
  end.
End archive.

(** ** Loading keeps what is there *)

Section facts.
Context {AT : ArchiveText} (sha256_hex : str -> str) (parse_manifest : str -> option OciManifest).
Context (sha256_hex_name : forall s, hex_name (sha256_hex s)).
Context (sha256_hex_inj : forall s t, sha256_hex s = sha256_hex t -> s = t).
Notation digest_of := (sha256_digest sha256_hex).
Notation addressed := (addressed sha256_hex).
Notation grown := (grown sha256_hex).
Notation stored := (stored sha256_hex).
Notation read_blob := (read_blob sha256_hex).
Notation load_from_reader := (load_from_reader sha256_hex).
Notation save_to_writer := (save_to_writer sha256_hex parse_manifest).

Lemma write_blobs_grown bs : forall L, addressed L ->
  let '(_, L') := write_blobs sha256_hex bs L in addressed L' /\ grown L L'.
Proof.
  induction bs as [|[d b] bs IH]; intros L HA; cbn [write_blobs]; [done|].
  destruct (write_blob_with_digest sha256_hex b d L) as [L1|] eqn:E; [|done]. apply (write_blob_grown sha256_hex sha256_hex_name sha256_hex_inj) in E as (HA1 & HG1 & _); [|done].
  specialize (IH L1 HA1). destruct (write_blobs sha256_hex bs L1) as [r L2]. destruct IH as [HA2 HG2]. split; [done|]. by eapply grown_trans.
Qed.

Lemma write_blobs_stored bs : forall L, addressed L -> Forall (fun '(d, b) => d = digest_of b) bs ->
  exists L', write_blobs sha256_hex bs L = (Ok tt, L') /\ addressed L' /\ grown L L' /\ Forall (fun '(_, b) => stored L' b) bs.
Proof.
  induction bs as [|[d b] bs IH]; intros L HA Hb; cbn [write_blobs]; [by exists L|]. apply Forall_cons in Hb as [-> Hb].
  destruct (write_stored sha256_hex sha256_hex_name sha256_hex_inj L b HA) as (L1 & -> & HA1 & HG1 & HS1).
  destruct (IH L1 HA1 Hb) as (L2 & -> & HA2 & HG2 & HS2). exists L2. split_and!; [done|done|by eapply grown_trans|]. constructor; [by apply HG2|done].
Qed.

Lemma upsert_refs_blobs ms : forall L, blobs (upsert_refs ms L).2 = blobs L.
Proof.
  induction ms as [|m ms IH]; intros L; cbn; [done|]. destruct (archive_ref_name m) as [s|]; [|done].
  specialize (IH (upsert_ref s (loaded_entry m) L)). by destruct (upsert_refs ms _).
Qed.

(** The last entry of a name counts. *)
Lemma upsert_refs_lookup ms : forall L r,
  layout_lookup_ref (upsert_refs ms L).2 r
  = match last (filter (fun m => archive_ref_name m = Some r) ms) with
    | Some m => Some (annotate r (loaded_entry m))
    | None => layout_lookup_ref L r
    end.
Proof.
  induction ms as [|m ms IH]; intros L r; cbn [upsert_refs]; [done|]. rewrite filter_cons.
  destruct (archive_ref_name m) as [name|] eqn:E.
  - specialize (IH (upsert_ref name (loaded_entry m) L) r). destruct (upsert_refs ms _) as [names L']. cbn [snd] in *. rewrite IH, lookup_upsert_ref.
    destruct (decide (Some name = Some r)) as [[= ->]|Hn].
    + rewrite decide_True by done. rewrite last_cons. by destruct (last _).
    + rewrite decide_False by congruence. done.
  - rewrite IH. by rewrite decide_False.
Qed.

Lemma check_collisions_None L ms m r : check_collisions L ms = Ok tt -> m ∈ ms -> archive_ref_name m = Some r -> layout_lookup_ref L r = None.
Proof.
  induction ms as [|m' ms IH]; cbn [check_collisions]; [by intros _ ?%not_elem_of_nil|]. intros H [<-|Hm]%elem_of_cons Hr.
  - rewrite Hr in H. case_bool_decide as Hn; [done|]. by apply eq_None_not_Some.
  - apply IH; [|done..]. destruct (archive_ref_name m'); [|done]. by case_bool_decide.
Qed.

(** Whatever an archive holds, loading it leaves a sound layout and every blob readable as before; without
    [overwrite] it changes no reference; and only a blob that is not what its
    name says makes it fail after the first change. *)
Theorem load_preserves text overwrite L :
  addressed L ->
  let '(res, L') := load_from_reader text overwrite L in
  addressed L'
  /\ (forall d b, read_blob L d = Ok b -> read_blob L' d = Ok b)
  /\ (overwrite = false -> forall r e, layout_lookup_ref L r = Some e -> layout_lookup_ref L' r = Some e)
  /\ match res with
     | Ok _ => True
     | Err (ArchiveError_Registry _) => index L' = index L
     | Err _ => L' = L
     end.
Proof.
  intros HA. unfold Archive.load_from_reader.
  destruct (a ← read_archive text; _ ← (if overwrite then Ok tt else check_collisions L a.2); Ok a) as [[bs ms]|e] eqn:Ea;
    [|split_and!; try done; by destruct e].
  apply bind_Ok in Ea as (a & Hr & ([] & Hc & [= ->])%bind_Ok). cbn [snd] in Hc.
  pose proof (write_blobs_grown bs L HA) as Hw. destruct (write_blobs sha256_hex bs L) as [[[]|e] L1]; destruct Hw as [HA1 HG].
  2:{ split_and!; [done| | |by destruct HG].
      - intros d b. by apply (read_blob_grown sha256_hex sha256_hex_name).
      - intros _ r e' Hl. unfold layout_lookup_ref. by rewrite (proj1 HG). }
  pose proof (upsert_refs_blobs ms L1) as Hb. pose proof (upsert_refs_lookup ms L1) as Hl. destruct (upsert_refs ms L1) as [names L2]. cbn [snd] in *.
  assert (HR : forall d, read_blob L2 d = read_blob L1 d) by (intros d; unfold Layout.read_blob; by rewrite Hb).
  split_and!; [unfold LayoutFacts.addressed; by rewrite Hb| | |done].
  - intros d b H. rewrite HR. by apply (read_blob_grown sha256_hex sha256_hex_name L).
  - intros -> r e He. rewrite Hl. destruct (last _) as [m|] eqn:Em.
    + apply last_Some_elem_of in Em. apply list_elem_of_filter in Em as [Hm Hi]. by rewrite (check_collisions_None L ms m r Hc Hi Hm) in He.
    + unfold layout_lookup_ref. by rewrite (proj1 HG).
Qed.

(** ** What is saved can be loaded *)

Lemma walk_all_ext {X} (f g : str -> X -> outcome (result RegistryError X)) ds out : (forall d o, f d o = g d o) -> walk_all f ds out = walk_all g ds out.
Proof. intros H. revert out. induction ds as [|d ds IH]; intros out; cbn [walk_all]; [done|]. rewrite H. destruct (g d out) as [[o|]| |]; cbn; auto. Qed.

(** The walk does not look at the index. *)
Lemma collect_reachable_index ix L fuel : forall d out,
  collect_reachable sha256_hex parse_manifest fuel (write_index ix L) d out = collect_reachable sha256_hex parse_manifest fuel L d out.
Proof.
  induction fuel as [|fuel IH]; intros d out; [done|]. cbn [collect_reachable]. destruct (decide (d ∈ out)); [done|].
  change (read_blob (write_index ix L) d) with (read_blob L d). destruct (read_blob L d) as [bytes|]; [|done].
  destruct (parse_manifest bytes) as [[m|es]|]; [done| |done]. by apply walk_all_ext.
Qed.

Lemma select_refs_spec L refs es : select_refs L refs = Ok es -> Forall2 (fun r e => layout_lookup_ref L r = Some e) refs es.
Proof.
  revert es. induction refs as [|r refs IH]; intros es; cbn [select_refs]; [intros [= <-]; constructor|].
  intros (e & He & (es' & Hs & [= <-])%bind_Ok)%bind_Ok. constructor; [by destruct (layout_lookup_ref L r); simplify_eq/=|by apply IH].
Qed.

(** The entry of a blob in an archive. *)
Definition blob_file (L : ImageLayout) (d : str) (f : str * str) : Prop :=
  exists name bytes, d = "sha256:" ++ name /\ hex_name name /\ blobs L !! name = Some bytes /\ f = (BLOBS_PREFIX ++ name, bytes).

Lemma blob_entries_spec L ds fs : blob_entries L ds = Ok fs -> Forall2 (blob_file L) ds fs.
Proof.
  revert fs. induction ds as [|d ds IH]; intros fs; cbn [blob_entries]; [intros [= <-]; constructor|].
  intros (f & Hf & (fs' & Hs & [= <-])%bind_Ok)%bind_Ok. constructor; [|by apply IH].
  unfold blob_entry in Hf. apply bind_Ok in Hf as (hex & Hh & (name & Hn & Hw)%bind_Ok).
  destruct (blob_path d) as [name'|] eqn:Ed; [|done]. cbn in Hn. injection Hn as ->. apply blob_path_inv in Ed as [-> Hx].
  destruct (strip_prefix "sha256:" ("sha256:" ++ name)) as [hex'|] eqn:Es; [|done]. apply strip_prefix_spec, app_inv_head in Es as <-. injection Hh as <-.
  apply bind_Ok in Hw as (bytes & Hb & ([] & _ & [= <-])%bind_Ok). destruct (blobs L !! name) as [b|] eqn:E; [|done]. injection Hb as ->.
  by exists name, bytes.
Qed.

(** The blobs of an archive as they are read. *)
Definition read_back (ds : list str) (fs : list (str * str)) : list (str * str) := zip ds (snd <$> fs).

Lemma read_entry_small path data : (N.of_nat (length data) <= MAX_ENTRY_BYTES)%N -> read_entry_capped path data = Ok data.
Proof.
  intros H. unfold read_entry_capped, read_capped. rewrite take_ge by lia. by destruct (N.ltb_spec MAX_ENTRY_BYTES (N.of_nat (length data))); [lia|].
Qed.

Lemma scan_blobs L ds fs : Forall2 (blob_file L) ds fs -> Forall (fun f => N.of_nat (length f.2) <= MAX_ENTRY_BYTES)%N fs -> forall s,
  scan_entries (Ok <$> fs) s = Ok {| saw_layout_marker := saw_layout_marker s; index_bytes := index_bytes s; scanned := scanned s ++ read_back ds fs |}.
Proof.
  intros HF. induction HF as [|d f ds fs Hf HF IH]; intros Hs s; cbn [fmap list_fmap scan_entries].
  { unfold read_back. cbn. rewrite app_nil_r. by destruct s. }
  apply Forall_cons in Hs as [H1 Hs]. destruct Hf as (name & bytes & -> & _ & _ & ->). cbn [snd] in H1. rewrite read_entry_small by done. cbn [mbind result_bind].
  rewrite IH by done. unfold scan_entry. rewrite !bool_decide_false by done.
  assert (strip_prefix BLOBS_PREFIX (BLOBS_PREFIX ++ name) = Some name) as -> by by apply strip_prefix_spec.
  cbn [saw_layout_marker index_bytes scanned]. unfold read_back. cbn. by rewrite <- app_assoc.
Qed.

Definition without_platform (e : ImageIndexEntry) : ImageIndexEntry :=
  {| ie_media_type := ie_media_type e; ie_digest := ie_digest e; ie_size := ie_size e; ie_platform := None; ie_annotations := ie_annotations e |}.

Lemma lookup_ref_name L r e : layout_lookup_ref L r = Some e -> ref_name_of e = Some r.
Proof. unfold layout_lookup_ref. intros H. apply fmap_Some in H as ([i x] & Hf & ->). by apply list_find_Some in Hf as (_ & ? & _). Qed.
Lemma annotate_named r e : ref_name_of e = Some r -> annotate r e = e.
Proof.
  unfold ref_name_of, annotate. destruct e as [mt d sz p [a|]]; cbn; [|done]. intros H. by rewrite insert_id.
Qed.

Lemma archive_names L refs es : Forall2 (fun r e => layout_lookup_ref L r = Some e) refs es ->
  forall D, (upsert_refs (archive_entry <$> es) D).1 = refs.
Proof.
  induction 1 as [|r e refs es He HF IH]; intros D; cbn [fmap list_fmap upsert_refs]; [done|].
  assert (archive_ref_name (archive_entry e) = Some r) as -> by by apply (lookup_ref_name L).
  specialize (IH (upsert_ref r (loaded_entry (archive_entry e)) D)). destruct (upsert_refs _ _). cbn in *. by rewrite IH.
Qed.

Lemma archive_lookup L refs es : Forall2 (fun r e => layout_lookup_ref L r = Some e) refs es -> forall D r,
  layout_lookup_ref (upsert_refs (archive_entry <$> es) D).2 r
  = if decide (r ∈ refs) then without_platform <$> layout_lookup_ref L r else layout_lookup_ref D r.
Proof.
  intros HF D r. rewrite upsert_refs_lookup. destruct (last _) as [m|] eqn:Em.
  - apply last_Some_elem_of, list_elem_of_filter in Em as [Hm (e & -> & He)%list_elem_of_fmap_1]. apply list_elem_of_lookup in He as [i Hi].
    destruct (Forall2_lookup_r _ _ _ _ _ HF Hi) as (r' & Hr' & Hl). assert (r' = r) as -> by (pose proof (lookup_ref_name L r' e Hl); change (ref_name_of e = Some r) in Hm; congruence).
    rewrite decide_True by (by eapply list_elem_of_lookup_2). rewrite Hl. cbn. f_equal. change (loaded_entry (archive_entry e)) with (without_platform e).
    by apply annotate_named.
  - rewrite decide_False; [done|]. intros [i Hi]%list_elem_of_lookup. destruct (Forall2_lookup_l _ _ _ _ _ HF Hi) as (e & He & Hl).
    apply last_None in Em. assert (archive_entry e ∈ filter (fun m => archive_ref_name m = Some r) (archive_entry <$> es)) as H.
    { apply list_elem_of_filter. split; [by apply (lookup_ref_name L)|]. apply list_elem_of_fmap. exists e. split; [done|]. by eapply list_elem_of_lookup_2. }
    rewrite Em in H. by apply not_elem_of_nil in H.
Qed.
Lemma read_archive_saved L ds fs es : Forall2 (blob_file L) ds fs -> Forall (fun f => N.of_nat (length f.2) <= MAX_ENTRY_BYTES)%N fs ->
  (N.of_nat (length (index_text es)) <= MAX_ENTRY_BYTES)%N ->
  read_archive (tar_finish ((OCI_LAYOUT_FILE, OCI_LAYOUT_PAYLOAD) :: (INDEX_JSON_FILE, index_text es) :: fs)) = Ok (read_back ds fs, archive_entry <$> es).
Proof.
  intros HF Hs Hi. unfold read_archive. rewrite tar_roundtrip. cbn [fmap list_fmap scan_entries]. rewrite !read_entry_small by done. cbn [mbind result_bind].
  rewrite (scan_blobs L ds fs HF Hs). unfold scan_entry. rewrite (bool_decide_true (OCI_LAYOUT_FILE = _)) by done.
  rewrite (bool_decide_false (INDEX_JSON_FILE = _)), bool_decide_true by done. cbn [mbind result_bind saw_layout_marker index_bytes scanned ok_or app].
  rewrite index_roundtrip. done.
Qed.

Lemma check_collisions_free D L refs es : Forall2 (fun r e => layout_lookup_ref L r = Some e) refs es ->
  (forall r, r ∈ refs -> layout_lookup_ref D r = None) -> check_collisions D (archive_entry <$> es) = Ok tt.
Proof.
  induction 1 as [|r e refs es He _ IH]; intros Hn; cbn [fmap list_fmap check_collisions]; [done|].
  assert (archive_ref_name (archive_entry e) = Some r) as -> by by apply (lookup_ref_name L).
  rewrite (Hn r) by by left. rewrite bool_decide_false by (by intros []). apply IH. intros x Hx. apply Hn. by right.
Qed.

(** Everything the selected references refer to is in the layout. *)
Definition complete (L : ImageLayout) : Prop := forall d, referenced sha256_hex parse_manifest L d -> exists b, read_blob L d = Ok b.

Lemma walk_complete L es : complete (write_index es L) -> unambiguous sha256_hex parse_manifest (write_index es L) ->
  exists out, walk_all (collect_reachable sha256_hex parse_manifest (walk_fuel L) L) (ie_digest <$> es) ∅ = Val (Ok out)
    /\ forall d, d ∈ out <-> referenced sha256_hex parse_manifest (write_index es L) d.
Proof.
  intros HC HU. pose proof (reachable_set_returns sha256_hex parse_manifest (write_index es L)) as [[out|e] E].
  - exists out. split; [|by apply reachable_set_exact]. rewrite <- E. apply walk_all_ext. intros d o. symmetry. apply collect_reachable_index.
  - exfalso. assert (unreadable sha256_hex parse_manifest (write_index es L) e) as (_ & d & Hd & Hr).
    { eapply walk_all_error; [|exact E]. intros d o Hd. apply collect_error. exists d. split; [done|apply rtc_refl]. }
    destruct (HC d (or_introl Hd)) as [b Hb]. congruence.
Qed.

Lemma blob_entries_complete L ds : (forall name b, blobs L !! name = Some b -> length name <= 87)%nat -> Forall (fun d => exists b, read_blob L d = Ok b) ds ->
  exists fs, blob_entries L ds = Ok fs.
Proof.
  intros Hs. induction 1 as [|d ds [b Hb] _ [fs IH]]; cbn [blob_entries]; [by eexists|]. rewrite IH.
  apply read_blob_Ok in Hb as [<- Hb]. unfold blob_entry, sha256_digest.
  assert (strip_prefix "sha256:" ("sha256:" ++ sha256_hex b) = Some (sha256_hex b)) as -> by by apply strip_prefix_spec. cbn [ok_or mbind result_bind].
  rewrite (digest_path sha256_hex sha256_hex_name b : blob_path ("sha256:" ++ sha256_hex b) = _). cbn [map_err mbind result_bind].
  unfold write_file_entry, set_path. rewrite Hb. cbn [ok_or mbind result_bind]. rewrite length_app. change (length BLOBS_PREFIX) with 13.
  specialize (Hs _ _ Hb). destruct (Nat.ltb_spec 100 (13 + length (sha256_hex b))); [lia|]. by eexists.
Qed.

Lemma read_back_addressed L ds fs : addressed L -> Forall2 (blob_file L) ds fs -> Forall (fun '(d, b) => d = digest_of b) (read_back ds fs).
Proof.
  intros HA. induction 1 as [|d f ds fs (name & b & -> & _ & Hb & ->) _ IH]; unfold read_back; cbn; [constructor|]. constructor; [|done].
  unfold sha256_digest. by rewrite (HA _ _ Hb).
Qed.

Lemma read_back_stored L D ds fs d b : addressed L -> Forall2 (blob_file L) ds fs -> Forall (fun '(_, b) => stored D b) (read_back ds fs) ->
  d ∈ ds -> read_blob L d = Ok b -> stored D b.
Proof.
  intros HA. induction 1 as [|d' f ds fs (name & b' & -> & Hx & Hb & ->) _ IH]; unfold read_back; cbn [fmap list_fmap zip zip_with snd]; [by intros _ ?%not_elem_of_nil|].
  intros [H1 H2]%Forall_cons [->|Hd]%elem_of_cons Hr; [|by apply IH].
  apply read_blob_Ok in Hr as [E Hb']. unfold sha256_digest in E. apply app_inv_head in E as <-. rewrite Hb in Hb'. by injection Hb' as ->.
Qed.

Lemma blob_files_small L ds fs : Forall2 (blob_file L) ds fs -> (forall name b, blobs L !! name = Some b -> N.of_nat (length b) <= MAX_ENTRY_BYTES)%N ->
  Forall (fun f => N.of_nat (length f.2) <= MAX_ENTRY_BYTES)%N fs.
Proof. intros HF Hs. induction HF as [|d f ds fs (name & b & _ & _ & Hb & ->) _ IH]; constructor; [by apply (Hs name)|done]. Qed.

(** No blob and no index is too large to be read from an archive, nor has a name too long for one. *)
Definition fits (L : ImageLayout) (es : list ImageIndexEntry) : Prop :=
  (forall name b, blobs L !! name = Some b -> (length name <= 87)%nat /\ (N.of_nat (length b) <= MAX_ENTRY_BYTES)%N)
  /\ (N.of_nat (length (index_text es)) <= MAX_ENTRY_BYTES)%N.

(** C23 (roundtrip): what is saved can be loaded elsewhere.  When the selected references are in a
    sound layout and everything they refer to is too, when no digest there is both a config or
    layer of an image and a manifest with references of its own ([unambiguous]), and when the
    blobs and the index fit the limits of an archive ([fits]), saving succeeds, and loading the archive into
    any sound layout, one that has none of these references or that may be overwritten, succeeds and gives it
    these references without their platform; everything they refer to reads there as it did; and
    what the layout held before is still there. *)
Theorem archive_roundtrip L D refs es overwrite :
  addressed L -> addressed D -> select_refs L refs = Ok es ->
  complete (write_index es L) -> unambiguous sha256_hex parse_manifest (write_index es L) -> fits L es ->
  (overwrite = true \/ forall r, r ∈ refs -> layout_lookup_ref D r = None) ->
  exists text D', save_to_writer L refs = Val (Ok text) /\ load_from_reader text overwrite D = (Ok refs, D') /\ addressed D'
    /\ (forall d, referenced sha256_hex parse_manifest (write_index es L) d -> read_blob D' d = read_blob L d)
    /\ (forall r, layout_lookup_ref D' r = if decide (r ∈ refs) then without_platform <$> layout_lookup_ref L r else layout_lookup_ref D r)
    /\ (forall d b, read_blob D d = Ok b -> read_blob D' d = Ok b).
Proof.
  intros HL HD Hs HC HU [Hf Hi] Ho. destruct (walk_complete L es HC HU) as (out & Hw & Hx).
  destruct (blob_entries_complete L (sort_strs (elements out))) as [fs Hfs]; [intros; by eapply Hf|apply Forall_forall; intros d Hd|].
  { rewrite sort_strs_Permutation in Hd. apply HC, Hx. by apply elem_of_elements. }
  pose proof (blob_entries_spec _ _ _ Hfs) as HF. pose proof (select_refs_spec _ _ _ Hs) as HR.
  unfold Archive.save_to_writer.
  assert (save_index L refs = Ok ((OCI_LAYOUT_FILE, OCI_LAYOUT_PAYLOAD), es, (INDEX_JSON_FILE, index_text es))) as -> by (unfold save_index; by rewrite Hs).
  rewrite Hw. cbn [mbind outcome_bind]. rewrite Hfs. cbn [mbind result_bind].
  destruct (write_blobs_stored (read_back (sort_strs (elements out)) fs) D HD) as (D1 & E1 & HA1 & HG1 & HS1); [by apply (read_back_addressed L)|].
  pose proof (archive_names L refs es HR D1) as Hn. pose proof (archive_lookup L refs es HR D1) as Hl. pose proof (upsert_refs_blobs (archive_entry <$> es) D1) as Hb.
  eexists _, (upsert_refs (archive_entry <$> es) D1).2. split; [done|].
  assert (HRb : forall d, read_blob (upsert_refs (archive_entry <$> es) D1).2 d = read_blob D1 d) by (intros d; unfold Layout.read_blob; by rewrite Hb).
  split_and!; [|unfold LayoutFacts.addressed; by rewrite Hb| | |].
  - unfold Archive.load_from_reader. rewrite (read_archive_saved L (sort_strs (elements out)) fs es HF); [|by apply (blob_files_small L (sort_strs (elements out))); [|intros; eapply Hf]|done].
    cbn [mbind result_bind snd].
    replace (if overwrite then Ok tt else check_collisions D (archive_entry <$> es)) with (Ok tt : result ArchiveError unit)
      by (destruct overwrite; [done|]; destruct Ho as [|Ho]; [done|]; by rewrite (check_collisions_free D L refs es)).
    cbn [mbind result_bind]. rewrite E1. destruct (upsert_refs _ D1) as [names D2]. cbn in Hn |- *. by rewrite Hn.
  - intros d Hd. rewrite HRb. destruct (HC d Hd) as [b Hr]. change (read_blob L d = Ok b) in Hr. rewrite Hr.
    assert (Hst : stored D1 b) by (eapply (read_back_stored L); [exact HL|exact HF|exact HS1| |exact Hr]; rewrite sort_strs_Permutation; by apply elem_of_elements, Hx).
    apply read_blob_Ok in Hr as [<- _]. by apply read_blob_stored.
  - intros r. rewrite Hl. case_decide; [done|]. unfold layout_lookup_ref. by rewrite (proj1 HG1).
  - intros d b Hr. rewrite HRb. by apply (read_blob_grown sha256_hex sha256_hex_name D).
Qed.
End facts.

(** ** An archive *)
Module ArchiveExample.
Import ArtifactExample.
(** Archives and indexes as codes. *)
#[local] Instance archive_entry_eq_dec : EqDecision ArchiveManifestEntry.
Proof. solve_decision. Defined.
#[local] Instance archive_entry_countable : Countable ArchiveManifestEntry.
Proof.
  by refine (inj_countable' (fun e => (ae_media_type e, ae_digest e, ae_size e, ae_annotations e))
    (fun '(a, b, c, d) => {| ae_media_type := a; ae_digest := b; ae_size := c; ae_annotations := d |}) _); intros [].
Defined.
#[local] Instance texts : ArchiveText.
Proof.
  refine {| tar_finish := code_text; tar_entries := fun s => Ok <$> default [] (of_code_text s);
            index_text := fun es => code_text (archive_entry <$> es); parse_index := of_code_text |}.
  - intros es. by rewrite code_text_roundtrip.
  - intros es. apply code_text_roundtrip.
Defined.

(** A tar of a directory has an entry for the directory of the blobs; its name
    is taken for the name of a blob, and the archive is refused. *)
Example directory_entry_refused :
  write_blobs ModelLayout.hexify
    (scanned (scan_entry "blobs/sha256/" [] {| saw_layout_marker := true; index_bytes := Some []; scanned := [] |})) ModelLayout.layout
  = (Err (RegistryError_DigestMismatch "sha256:" (sha256_digest ModelLayout.hexify [])), ModelLayout.layout).
Proof. reflexivity. Qed.

(** The layout of LayoutFacts.v is complete. *)
Lemma model_complete : complete ModelLayout.hexify ModelLayout.parse (write_index [annotate "img" (ModelLayout.entry "I")] ModelLayout.layout).
Proof.
  intros d Hd.
  pose proof (reachable_set_exact ModelLayout.hexify ModelLayout.parse ModelLayout.layout
    (list_to_set (sha256_digest ModelLayout.hexify <$> ["I" : str; "M" : str; "c" : str; "l" : str])) ModelLayout.layout_unambiguous) as H.
  destruct (H ltac:(vm_compute; reflexivity) d) as [_ Hi]. specialize (Hi Hd). apply elem_of_list_to_set, list_elem_of_fmap in Hi as (f & -> & Hf).
  repeat (apply elem_of_cons in Hf as [->|Hf]; [eexists; vm_compute; reflexivity|]). by apply not_elem_of_nil in Hf.
Qed.

(** The layout is saved and loaded into an empty one: the reference and the layer are there. *)
Lemma archive_roundtrip_witness : exists text D',
  save_to_writer ModelLayout.hexify ModelLayout.parse ModelLayout.layout ["img" : str] = Val (Ok text)
  /\ load_from_reader ModelLayout.hexify text false empty_layout = (Ok ["img" : str], D')
  /\ layout_lookup_ref D' "img" = Some (annotate "img" (ModelLayout.entry "I")).
Proof.
  destruct (archive_roundtrip ModelLayout.hexify ModelLayout.parse ModelLayout.hexify_name ModelLayout.hexify_inj
    ModelLayout.layout empty_layout ["img" : str] [annotate "img" (ModelLayout.entry "I")] false) as (text & D' & E1 & E2 & _ & _ & H & _).
  - exact model_addressed.
  - apply map_Forall_empty.
  - reflexivity.
  - exact model_complete.
  - exact ModelLayout.layout_unambiguous.
  - split; [|vm_compute; discriminate]. intros name b Hb. apply elem_of_list_to_map_2, list_elem_of_fmap in Hb as (f & [= -> ->] & Hf).
    repeat (apply elem_of_cons in Hf as [->|Hf]; [split; vm_compute; [lia|discriminate]|]). by apply not_elem_of_nil in Hf.
  - by right.
  - exists text, D'. split_and!; [exact E1|exact E2|]. by rewrite H.
Defined.
End ArchiveExample.
