(* ===== verification/RegistryAuth.v ===== *)
(** * RegistryAuth: credentials for a registry
    (crates/umf-oci/src/registry/auth.rs).

    Credentials come from the command line, the environment, or the
    configuration file of the user, which may name a helper program.  The
    environment, the file, the helpers and the base64 and JSON crates are a
    class; the programs that are run are recorded. *)

From S2P Require Import Prelude RustStr RustStrFacts Image Layout LayoutFacts.

Inductive RegistryAuth := Auth_Anonymous | Auth_Basic (username password : str) | Auth_Bearer (token : str).
#[export] Instance RegistryAuth_eq_dec : EqDecision RegistryAuth.
Proof. solve_decision. Defined.

Record CredentialOverride := { co_username : option str; co_password : option str }.

Definition as_basic (o : CredentialOverride) : option RegistryAuth :=
  match co_username o, co_password o with
  | Some u, Some p => Some (Auth_Basic u p)
  | _, _ => None
  end.

Record AuthEntry := { ae_auth : option str; ae_username : option str; ae_password : option str }.
Record AuthConfigFile := { auths : gmap str AuthEntry; creds_store : option str; cred_helpers : gmap str str }.
Record HelperReply := { hr_username : str; hr_secret : str }.

(** How the run of a helper ends: with an error of the operating system, or with its status and all it prints. *)
Inductive HelperRun := Helper_Failed | Helper_Ended (exit_ok : bool) (stdout : str).

Class AuthHost := {
  env_var : str -> option str;
  read_file : str -> option str;
  parse_config : str -> option AuthConfigFile;
  helper_get : str -> str -> HelperRun;
  parse_reply : str -> option HelperReply;
  base64_decode : str -> option str;
  from_utf8 : str -> bool
}.

Definition MAX_HELPER_REPLY_BYTES : N := 64 * 1024.

Definition is_docker_hub (host : str) : bool :=
  bool_decide (host = ("docker.io" : str)) || bool_decide (host = ("registry-1.docker.io" : str)) || bool_decide (host = ("index.docker.io" : str)).

(** The names under which the file may list a host. *)
Definition auth_keys (host : str) : list str :=
  if is_docker_hub host
  then ["https://index.docker.io/v1/" : str; "index.docker.io" : str; "registry-1.docker.io" : str; "docker.io" : str; host]
  else [host; "https://" ++ host; "https://" ++ host ++ "/v1/"; "http://" ++ host].

Definition pick_auth_key (config : AuthConfigFile) (host : option str) : option str :=
  let host := default ("docker.io" : str) host in
  let candidates := auth_keys host in
  match List.find (fun key => bool_decide (is_Some (auths config !! key)) || bool_decide (is_Some (cred_helpers config !! key))) candidates with
  | Some key => Some key
  | None => match creds_store config with
            | Some _ => Some (default host (head candidates))
            | None => None
            end
  end.

Definition helper_char (c : ascii) : bool := is_ascii_alphanumeric c || one_of ("._-" : str) c.
Definition helper_name_is_valid (helper : str) : bool := negb (is_nil helper) && forallb helper_char helper.

Section auth.
Context {AH : AuthHost}.

Definition helper_reply_auth (exit_ok : bool) (reply : str) : option RegistryAuth :=
  if negb exit_ok then None
  else if (MAX_HELPER_REPLY_BYTES <? N.of_nat (length reply))%N then None
  else
    parsed ← parse_reply reply;
    if is_nil (hr_username parsed) || is_nil (hr_secret parsed) then None
    else if bool_decide (hr_username parsed = ("<token>" : str)) then Some (Auth_Bearer (hr_secret parsed))
    else Some (Auth_Basic (hr_username parsed) (hr_secret parsed)).

Definition helper_auth_via (program host : str) : option RegistryAuth :=
  match helper_get program host with
  | Helper_Failed => None
  | Helper_Ended ok stdout => helper_reply_auth ok (take (N.to_nat (MAX_HELPER_REPLY_BYTES + 1)) stdout)
  end.

(** The programs run, and the credentials. *)
Definition helper_auth (helper host : str) : list str * option RegistryAuth :=
  if negb (helper_name_is_valid helper) then ([], None)
  else let program := "docker-credential-" ++ helper in ([program], helper_auth_via program host).

Definition parse_b64_auth (b64 : str) : option RegistryAuth :=
  decoded ← base64_decode (trim b64);
  if negb (from_utf8 decoded) then None
  else
    '(u, p) ← split_once ":" decoded;
    if is_nil u then None else Some (Auth_Basic u p).

Definition entry_auth (entry : AuthEntry) : option RegistryAuth :=
  match ae_auth entry ≫= parse_b64_auth with
  | Some auth => Some auth
  | None => match ae_username entry, ae_password entry with
            | Some u, Some p => Some (Auth_Basic u p)
            | _, _ => None
            end
  end.

Definition env_auth : option RegistryAuth :=
  user ← env_var "UMF_REGISTRY_USERNAME";
  pass ← env_var "UMF_REGISTRY_PASSWORD";
  if is_nil user || is_nil pass then None else Some (Auth_Basic user pass).

(** [PathBuf::join] of a relative name. *)
Definition join_name (base name : str) : str := if bool_decide (base = []) || ends_with_byte "/" base then base ++ name else base ++ "/" ++ name.

Definition config_file_path : option str :=
  match env_var "DOCKER_CONFIG" with
  | Some (_ :: _ as dir) => Some (join_name dir "config.json")
  | _ => (fun home => join_name (join_name home ".docker") "config.json") <$> env_var "HOME"
  end.

(** The configuration, if there is one that can be read. *)
Definition read_config (path : option str) : option AuthConfigFile := p ← path; body ← read_file p; parse_config body.

Definition config_auth (config : AuthConfigFile) (host : option str) : list str * option RegistryAuth :=
  match pick_auth_key config host with
  | None => ([], None)
  | Some key =>
      match cred_helpers config !! key with
      | Some helper => helper_auth helper key
      | None =>
          match creds_store config with
          | Some store => helper_auth store key
          | None => ([], auths config !! key ≫= entry_auth)
          end
      end
  end.

Definition config_file_auth_at (path : option str) (host : option str) : list str * option RegistryAuth :=
  match read_config path with
  | None => ([], None)
  | Some config => config_auth config host
  end.

Definition resolve_auth_for (host : option str) (o : CredentialOverride) : list str * RegistryAuth :=
  match as_basic o with
  | Some auth => ([], auth)
  | None =>
      match env_auth with
      | Some auth => ([], auth)
      | None =>
          let '(programs, auth) := config_file_auth_at config_file_path host in
          (programs, default Auth_Anonymous auth)
      end
  end.
End auth.

(** ** Where credentials come from *)

Section facts.
Context {AH : AuthHost}.

Lemma pick_auth_key_of_host config host key : pick_auth_key config host = Some key -> key ∈ auth_keys (default ("docker.io" : str) host).
Proof.
  unfold pick_auth_key. destruct (List.find _ _) as [k|] eqn:E.
  - intros [= <-]. apply find_some in E as [Hi _]. by apply list_elem_of_In.
  - destruct (creds_store config); [|done]. intros [= <-]. unfold auth_keys. destruct (is_docker_hub _); by left.
Qed.

(** A program that is run is a plain name, without a directory. *)
Definition plain_program (p : str) : Prop := exists name, p = "docker-credential-" ++ name /\ name <> [] /\ "/"%char ∉ name.

Lemma helper_auth_plain helper key : let '(ps, auth) := helper_auth helper key in
  (length ps <= 1)%nat /\ Forall plain_program ps
  /\ forall a, auth = Some a -> exists p, ps = [p] /\ exists out, helper_get p key = Helper_Ended true out /\ (N.of_nat (length out) <= MAX_HELPER_REPLY_BYTES)%N.
Proof.
  unfold helper_auth, helper_name_is_valid. destruct (is_nil helper) eqn:En; cbn [negb andb]; [split_and!; [cbn; lia|constructor|by intros]|].
  destruct (forallb helper_char helper) eqn:Eh; cbn [negb]; [|split_and!; [cbn; lia|constructor|by intros]]. split_and!; [cbn; lia| |].
  - repeat constructor. exists helper. split_and!; [done|by intros ->|]. intros Hi. rewrite forallb_forall in Eh.
    specialize (Eh "/"%char ltac:(by apply list_elem_of_In)). by vm_compute in Eh.
  - intros a Ha. eexists. split; [done|]. unfold helper_auth_via in Ha. destruct (helper_get _ key) as [|ok out]; [done|]. unfold helper_reply_auth in Ha.
    destruct ok; [|done]. exists out. split; [done|]. cbn [negb] in Ha.
    destruct (N.ltb_spec MAX_HELPER_REPLY_BYTES (N.of_nat (length (take (N.to_nat (MAX_HELPER_REPLY_BYTES + 1)) out)))) as [|Hl]; [done|].
    rewrite length_take in Hl. lia.
Qed.

(** Credentials are taken from the command line, else from
    the environment, else from what the user's file says about the host itself, under one of its names:
    never what it says about another host.  At most one program is run, only in the last case, and
    it is found on the search path: its name has no separator.  Everything else is anonymous access. *)
Theorem auth_of_host host o :
  let '(programs, auth) := resolve_auth_for host o in
  (length programs <= 1)%nat /\ Forall plain_program programs
  /\ (match as_basic o, env_auth with
      | Some a, _ => programs = [] /\ auth = a
      | None, Some a => programs = [] /\ auth = a
      | None, None =>
          auth = Auth_Anonymous \/ exists config key, read_config config_file_path = Some config
            /\ key ∈ auth_keys (default ("docker.io" : str) host)
            /\ ((programs = [] /\ exists e, auths config !! key = Some e /\ entry_auth e = Some auth)
                \/ exists p out, programs = [p] /\ helper_get p key = Helper_Ended true out)
      end).
Proof.
  unfold resolve_auth_for. destruct (as_basic o); [split_and!; by try constructor; cbn; lia|]. destruct env_auth; [split_and!; by try constructor; cbn; lia|].
  unfold config_file_auth_at. destruct (read_config config_file_path) as [config|] eqn:Ec; [|split_and!; [cbn; lia|constructor|by left]].
  unfold config_auth. destruct (pick_auth_key config host) as [key|] eqn:Ek; [|split_and!; [cbn; lia|constructor|by left]].
  apply pick_auth_key_of_host in Ek. set (helper := match cred_helpers config !! key with Some h => Some h | None => creds_store config end).
  assert (Hh : match cred_helpers config !! key with
    | Some h => helper_auth h key
    | None => match creds_store config with Some st => helper_auth st key | None => ([], auths config !! key ≫= entry_auth) end end
    = match helper with Some h => helper_auth h key | None => ([], auths config !! key ≫= entry_auth) end)
    by (unfold helper; by destruct (cred_helpers config !! key)).
  rewrite Hh. clear Hh. destruct helper as [h|].
  - pose proof (helper_auth_plain h key) as H. destruct (helper_auth h key) as [ps [a|]]; destruct H as (H1 & H2 & H3); split_and!; try done; [|by left].
    right. exists config, key. split_and!; [done|done|]. right. destruct (H3 a eq_refl) as (p & -> & out & Ho & _). by exists p, out.
  - split_and!; [cbn; lia|constructor|]. destruct (auths config !! key) as [e|] eqn:Ee; cbn; [|by left].
    destruct (entry_auth e) as [a|] eqn:Ea; cbn; [|by left]. right. exists config, key. split_and!; [done|done|]. left. split; [done|]. by exists e.
Qed.

(** What [docker login] writes is read: the user and the password, which may have colons. *)
Lemma parse_b64_auth_roundtrip (encode : str -> str) u p :
  base64_decode (trim (encode (u ++ ":" ++ p))) = Some (u ++ ":" ++ p) -> from_utf8 (u ++ ":" ++ p) = true -> u <> [] -> ":"%char ∉ u ->
  parse_b64_auth (encode (u ++ ":" ++ p)) = Some (Auth_Basic u p).
Proof.
  intros Hd Hu Hn Hc. unfold parse_b64_auth. rewrite Hd. cbn [mbind option_bind]. rewrite Hu. cbn [negb].
  assert (split_once ":" (u ++ ":" ++ p) = Some (u, p)) as -> by (by apply split_once_app). cbn [mbind option_bind]. by destruct u.
Qed.
End facts.

(** ** A helper that is not asked *)
Module AuthExample.
#[local] Instance host : AuthHost :=
  {| env_var := fun k => if bool_decide (k = ("HOME" : str)) then Some ("/home/u" : str) else None;
     read_file := fun p => if bool_decide (p = ("/home/u/.docker/config.json" : str)) then Some ("c" : str) else None;
     parse_config := fun _ =>
       Some {| auths := {["https://index.docker.io/v1/" : str := {| ae_auth := None; ae_username := Some ("old" : str); ae_password := Some ("stale" : str) |}]};
               creds_store := None; cred_helpers := {["docker.io" : str := ("keychain" : str)]} |};
     helper_get := fun _ _ => Helper_Ended true "reply"; parse_reply := fun _ => Some {| hr_username := "u"; hr_secret := "s" |};
     base64_decode := fun s => Some s; from_utf8 := fun _ => true |}.

(** A helper is configured for the host, but an entry under another of its names comes
    first, and its password is used. *)
Example helper_shadowed :
  resolve_auth_for (Some ("docker.io" : str)) {| co_username := None; co_password := None |} = ([], Auth_Basic "old" "stale").
Proof. reflexivity. Qed.
End AuthExample.
