(* ===== verification/RegistryClient.v ===== *)
(** * RegistryClient: pulling from and pushing to a registry
    (crates/umf-oci/src/registry/client.rs, referrers.rs, error.rs).

    The registry, seen through the oci-client crate, is a class: every call may
    answer anything and change the network's state.  The layout is the one of
    Layout.v, and what the registry accepts is recorded in order. *)

From stdpp Require Import sorting.
From S2P Require Import Prelude RustStr RustStrFacts Target Image Json Layout LayoutFacts HostFs BaseImage Artifact RegistryAuth.

(** ** The registry *)

(** The errors of the transport: an endpoint or manifest that is not there, and others. *)
Inductive DistError := Dist_NotFound (message : str) | Dist_Other (message : str).
Definition dist_text (e : DistError) : str := match e with Dist_NotFound m => m | Dist_Other m => m end.
Definition of_dist (e : DistError) : RegistryError := RegistryError_Distribution (dist_text e).
Definition is_not_found (e : DistError) : bool := match e with Dist_NotFound _ => true | Dist_Other _ => false end.

Definition is_transient (e : RegistryError) : bool :=
  match e with RegistryError_Distribution _ | RegistryError_IoNotFound | RegistryError_Io _ => true | _ => false end.

(** What reading a file once gives: at most so many bytes and one more, or nothing. *)
Inductive ReadAnswer := Read_Short (n : N) | Read_Interrupted | Read_Error (e : IoError).

Record ReferrersIndex := { ri_manifests : list ReferrerDescriptor }.

Class Distribution := {
  Reference : Type;
  whole : Reference -> str;
  ref_digest : Reference -> option str;
  clone_with_digest : Reference -> str -> Reference;
  (** [Reference::with_digest] and [with_tag], in the repository of a reference. *)
  at_digest : Reference -> str -> Reference;
  at_tag : Reference -> str -> Reference;
  Net : Type;
  net_auth : Reference -> RegistryAuth -> bool -> Net -> result DistError unit * Net;
  pull_manifest_raw : Reference -> RegistryAuth -> list str -> Net -> result DistError (str * str) * Net;
  (** The pieces the server sends, which go to the sink, and how it ends. *)
  pull_blob : Reference -> OciDescriptor -> Net -> list str * result DistError unit * Net;
  push_blob_stream : Reference -> list (result IoError str) -> str -> Net -> result DistError unit * Net;
  push_manifest_raw : Reference -> str -> str -> Net -> result DistError unit * Net;
  pull_referrers : Reference -> option str -> Net -> result DistError (list ImageIndexEntry) * Net;
  (** The answers of the file system while a blob is read. *)
  read_answers : str -> list ReadAnswer;
  (** [HeaderValue::from_str], the [mediaType] of a manifest, and the text of the index of referrers. *)
  header_ok : str -> bool;
  declared_media_type : str -> option str;
  referrers_text : ReferrersIndex -> str;
  parse_referrers : str -> option ReferrersIndex;
  clone_pinned : forall r d, ref_digest (clone_with_digest r d) = Some d;
  (** A manifest asked for by digest is checked against it. *)
  pull_manifest_pinned : forall r a acc n bytes d n' p,
    pull_manifest_raw r a acc n = (Ok (bytes, d), n') -> ref_digest r = Some p -> d = p;
  (** An upload whose source fails is not completed. *)
  push_stream_fails : forall r cs d n e n', Err e ∈ cs -> push_blob_stream r cs d n <> (Ok tt, n')
}.

Definition IMAGE_MANIFEST_MEDIA_TYPE : str := "application/vnd.docker.distribution.manifest.v2+json".
Definition IMAGE_MANIFEST_LIST_MEDIA_TYPE : str := "application/vnd.docker.distribution.manifest.list.v2+json".
Definition ACCEPTED_MANIFEST_MEDIA_TYPES : list str :=
  [OCI_IMAGE_MEDIA_TYPE; OCI_IMAGE_INDEX_MEDIA_TYPE; IMAGE_MANIFEST_MEDIA_TYPE; IMAGE_MANIFEST_LIST_MEDIA_TYPE].

(** ** Bounds *)

Definition MAX_BLOB_BYTES : N := 8 * 1024 * 1024 * 1024.
Definition MAX_BLOB_ATTEMPTS : N := 3.
Definition RETRY_BACKOFF_BASE : N := 500.
Definition REGISTRY_READ_TIMEOUT : N := 120.
Definition PUSH_READ_CHUNK_BYTES : N := 4 * 1024 * 1024.

Definition blob_byte_cap (declared_size : Z) : N :=
  let declared := Z.to_N declared_size in
  if (declared =? 0)%N then MAX_BLOB_BYTES else N.min declared MAX_BLOB_BYTES.

(** The pause before the next attempt, in milliseconds. *)
Definition retry_backoff (attempt : N) (e : RegistryError) : option N :=
  if (attempt <? MAX_BLOB_ATTEMPTS)%N && is_transient e then Some (RETRY_BACKOFF_BASE * 2 ^ (attempt - 1))%N else None.

(** In seconds, given the environment variable. *)
Definition registry_read_timeout (umf_registry_timeout : option str) : N :=
  match umf_registry_timeout ≫= fun v => parse_unsigned u64_max (trim v) with
  | Some secs => if (0 <? secs)%N then secs else REGISTRY_READ_TIMEOUT
  | None => REGISTRY_READ_TIMEOUT
  end.

(** ** The sink of a download *)

Record CappedBuf := { cb_buf : str; cb_cap : N }.
Definition CappedBuf_with_cap (cap : N) : CappedBuf := {| cb_buf := []; cb_cap := cap |}.

Definition poll_write (b : CappedBuf) (data : str) : result DistError CappedBuf :=
  if (cb_cap b <? N.of_nat (length (cb_buf b)) + N.of_nat (length data))%N
  then Err (Dist_Other "blob exceeds its size ceiling")
  else Ok {| cb_buf := cb_buf b ++ data; cb_cap := cb_cap b |}.

Fixpoint sink_all (b : CappedBuf) (pieces : list str) : result DistError CappedBuf :=
  match pieces with
  | [] => Ok b
  | p :: ps => b ← poll_write b p; sink_all b ps
  end.

(** ** The source of an upload *)

(** [read] until the buffer is full or the file ends; what is read, what is left of the file and of the answers. *)
Definition len (s : str) : N := N.of_nat (length s).
Fixpoint fill (answers : list ReadAnswer) (want : N) (acc rest : str) : result IoError (str * str * list ReadAnswer) :=
  match answers with
  | [] => let k := N.to_nat (N.min want (len rest)) in Ok (acc ++ take k rest, drop k rest, [])
  | a :: answers' =>
      if (want =? 0)%N then Ok (acc, rest, answers)
      else
        match a with
        | Read_Interrupted => fill answers' want acc rest
        | Read_Error e => Err e
        | Read_Short n =>
            let k := N.min (n + 1) (N.min want (len rest)) in
            if (k =? 0)%N then Ok (acc, rest, answers') else fill answers' (want - k) (acc ++ take (N.to_nat k) rest) (drop (N.to_nat k) rest)
        end
  end.

(** The stream of a file's chunks, which ends after an error. *)
Fixpoint chunks_from (fuel : nat) (chunk : N) (answers : list ReadAnswer) (rest : str) : list (result IoError str) :=
  match fuel with
  | 0 => []
  | S fuel =>
      match fill answers chunk [] rest with
      | Err e => [Err e]
      | Ok ([], _, _) => []
      | Ok (buf, rest, answers) => Ok buf :: chunks_from fuel chunk answers rest
      end
  end.
Definition blob_chunk_stream (answers : list ReadAnswer) (file : option str) : list (result IoError str) :=
  match file with
  | None => [Err NotFound]
  | Some bytes => chunks_from (S (length bytes)) PUSH_READ_CHUNK_BYTES answers bytes
  end.

(** ** Referrers (referrers.rs) *)

Definition MAX_TAG_LEN : nat := 127.

Definition ReferrersIndex_empty : ReferrersIndex := {| ri_manifests := [] |}.
Definition descriptor_le (a b : ReferrerDescriptor) : Prop := str_le (rd_digest a) (rd_digest b).
#[export] Instance descriptor_le_dec : RelDecision descriptor_le.
Proof. intros a b. unfold descriptor_le. apply _. Defined.
Definition referrers_upsert (d : ReferrerDescriptor) (ix : ReferrersIndex) : ReferrersIndex :=
  {| ri_manifests := merge_sort descriptor_le (filter (fun x => rd_digest x <> rd_digest d) (ri_manifests ix) ++ [d]) |}.
Definition filtered (f : option str) (ix : ReferrersIndex) : list ReferrerDescriptor :=
  match f with
  | None => ri_manifests ix
  | Some t => filter (fun d => rd_artifact_type d = Some t) (ri_manifests ix)
  end.

Definition is_ascii_lowercase_or_digit (c : ascii) : bool := in_range "a" "z" c || is_ascii_digit c.
Definition fallback_tag (digest : str) : result RegistryError str :=
  let well_formed :=
    match split_once ":" digest with
    | Some (algo, hex) => negb (is_nil algo) && negb (is_nil hex) && forallb is_ascii_lowercase_or_digit algo && forallb is_ascii_hexdigit hex
    | None => false
    end in
  if well_formed then Ok (take MAX_TAG_LEN ((fun c => if Ascii.eqb c ":" then "-"%char else c) <$> digest))
  else Err (RegistryError_MalformedDigest digest).

(** ** The client *)

Section client.
Context {DI : Distribution} (sha256_hex : str -> str) (parse_manifest : str -> option OciManifest).
Notation digest_of := (sha256_digest sha256_hex).

(** What the registry has accepted. *)
Inductive Upload := Up_Blob (digest bytes : str) | Up_Manifest (r : Reference) (bytes : str).

Record CState := { c_layout : ImageLayout; c_net : Net; c_uploads : list Upload }.
Definition cl (A : Type) : Type := CState -> outcome (result RegistryError A) * CState.
#[local] Instance cl_ret : MRet cl := fun A a s => (Val (Ok a), s).
#[local] Instance cl_bind : MBind cl := fun A B k m s =>
  match m s with
  | (Val (Ok a), s) => k a s
  | (Val (Err e), s) => (Val (Err e), s)
  | (Panic, s) => (Panic, s)
  | (OutOfFuel, s) => (OutOfFuel, s)
  end.
Definition raise {A} (e : RegistryError) : cl A := fun s => (Val (Err e), s).
Definition of_result {A} (r : result RegistryError A) : cl A := fun s => (Val r, s).
(** A call of the registry. *)
Definition ask {A} (op : Net -> result DistError A * Net) : cl (result DistError A) := fun s =>
  let '(r, n) := op (c_net s) in (Val (Ok r), {| c_layout := c_layout s; c_net := n; c_uploads := c_uploads s |}).
Definition must {A} (op : Net -> result DistError A * Net) : cl A := r ← ask op; of_result (map_err of_dist r).
Definition get_layout : cl ImageLayout := fun s => (Val (Ok (c_layout s)), s).
Definition put_layout (L : ImageLayout) : cl unit := fun s => (Val (Ok tt), {| c_layout := L; c_net := c_net s; c_uploads := c_uploads s |}).
Definition accepted (u : Upload) : cl unit := fun s => (Val (Ok tt), {| c_layout := c_layout s; c_net := c_net s; c_uploads := c_uploads s ++ [u] |}).

Definition write_layout (data digest : str) : cl unit :=
  L ← get_layout; L ← of_result (write_blob_with_digest sha256_hex data digest L); put_layout L.
Definition read_layout (digest : str) : cl str := L ← get_layout; of_result (read_blob sha256_hex L digest).

(** The loops of [pull_blob_to_layout] and [push_blob_from_layout]. *)
Fixpoint with_retries (rounds : nat) (attempt : N) (m : cl unit) : cl unit := fun s =>
  match rounds with
  | 0 => (OutOfFuel, s)
  | S rounds =>
      match m s with
      | (Val (Err e), s) =>
          match retry_backoff attempt e with
          | Some _ => with_retries rounds (attempt + 1) m s
          | None => (Val (Err e), s)
          end
      | r => r
      end
  end.

(** *** Pull *)

Definition pull_blob_attempt (r : Reference) (a : RegistryAuth) (d : OciDescriptor) : cl unit :=
  _ ← must (net_auth r a false);
  buf ← must (fun n =>
    let '(pieces, ended, n) := pull_blob r d n in
    (b ← sink_all (CappedBuf_with_cap (blob_byte_cap (desc_size d))) pieces; _ ← ended; Ok (cb_buf b), n));
  write_layout buf (desc_digest d).

Definition pull_blob_to_layout (r : Reference) (a : RegistryAuth) (d : OciDescriptor) : cl unit :=
  L ← get_layout;
  match has_blob L (desc_digest d) with
  | true => mret tt
  | false => with_retries 3 1 (pull_blob_attempt r a d)
  end.

Fixpoint pull_blobs (r : Reference) (a : RegistryAuth) (ds : list OciDescriptor) : cl unit :=
  match ds with
  | [] => mret tt
  | d :: ds => _ ← pull_blob_to_layout r a d; pull_blobs r a ds
  end.
Definition pull_image_blobs (r : Reference) (a : RegistryAuth) (m : OciImageManifest) : cl unit :=
  _ ← pull_blob_to_layout r a (mf_config m); pull_blobs r a (mf_layers m).

Definition manifest_media_type (bytes : str) (m : OciManifest) : str :=
  default (match m with OciManifest_Image _ => OCI_IMAGE_MEDIA_TYPE | OciManifest_ImageIndex _ => OCI_IMAGE_INDEX_MEDIA_TYPE end) (declared_media_type bytes).

(** Children are pulled by digest, and given no name. *)
Fixpoint pull_index_children (pull_tree : Reference -> cl ImageIndexEntry) (r : Reference) (es : list ImageIndexEntry) : cl unit :=
  match es with
  | [] => mret tt
  | e :: es => _ ← pull_tree (clone_with_digest r (ie_digest e)); pull_index_children pull_tree r es
  end.

Fixpoint pull_manifest_tree (fuel : nat) (a : RegistryAuth) (r : Reference) : cl ImageIndexEntry :=
  match fuel with
  | 0 => fun s => (OutOfFuel, s)
  | S fuel =>
      '(bytes, digest) ← must (pull_manifest_raw r a ACCEPTED_MANIFEST_MEDIA_TYPES);
      _ ← of_result (if bool_decide (digest_of bytes = digest) then Ok tt else Err (RegistryError_DigestMismatch digest (digest_of bytes)));
      m ← of_result (ok_or (parse_manifest bytes) (RegistryError_Json "manifest"));
      _ ← write_layout bytes digest;
      _ ← match m with
          | OciManifest_Image image => pull_image_blobs r a image
          | OciManifest_ImageIndex es => pull_index_children (pull_manifest_tree fuel a) r es
          end;
      mret {| ie_media_type := manifest_media_type bytes m; ie_digest := digest; ie_size := Z.of_nat (length bytes); ie_platform := None;
              ie_annotations := None |}
  end.

Definition pull (fuel : nat) (r : Reference) (a : RegistryAuth) : cl ImageIndexEntry :=
  e ← pull_manifest_tree fuel a r;
  L ← get_layout;
  _ ← put_layout (upsert_ref (whole r) e L);
  mret e.

(** *** Push *)

Definition push_blob_attempt (r : Reference) (d : OciDescriptor) : cl unit :=
  L ← get_layout;
  name ← of_result (blob_path (desc_digest d));
  let stream := blob_chunk_stream (read_answers (desc_digest d)) (blobs L !! name) in
  _ ← must (push_blob_stream r stream (desc_digest d));
  accepted (Up_Blob (desc_digest d) (concat (omap (fun c => match c with Ok b => Some b | Err _ => None end) stream))).

Definition push_blob_from_layout (r : Reference) (d : OciDescriptor) : cl unit := with_retries 3 1 (push_blob_attempt r d).

Fixpoint push_blobs (r : Reference) (ds : list OciDescriptor) : cl unit :=
  match ds with
  | [] => mret tt
  | d :: ds => _ ← push_blob_from_layout r d; push_blobs r ds
  end.
Definition push_image_blobs (r : Reference) (m : OciImageManifest) : cl unit :=
  _ ← push_blob_from_layout r (mf_config m); push_blobs r (mf_layers m).

Fixpoint push_children (push_tree : ImageIndexEntry -> cl unit) (es : list ImageIndexEntry) : cl unit :=
  match es with
  | [] => mret tt
  | e :: es => _ ← push_tree e; push_children push_tree es
  end.

Definition upload_manifest (r : Reference) (bytes media : str) : cl unit :=
  _ ← must (push_manifest_raw r bytes media); accepted (Up_Manifest r bytes).

Fixpoint push_manifest_tree (fuel : nat) (r : Reference) (e : ImageIndexEntry) : cl unit :=
  match fuel with
  | 0 => fun s => (OutOfFuel, s)
  | S fuel =>
      bytes ← read_layout (ie_digest e);
      m ← of_result (ok_or (parse_manifest bytes) (RegistryError_Json "manifest"));
      _ ← match m with
          | OciManifest_Image image => push_image_blobs r image
          | OciManifest_ImageIndex es => push_children (push_manifest_tree fuel r) es
          end;
      _ ← of_result (if header_ok (ie_media_type e) then Ok tt else Err (RegistryError_InvalidLayout ("invalid manifest mediaType " ++ ie_media_type e)));
      upload_manifest r bytes (ie_media_type e)
  end.

Definition push (fuel : nat) (r : Reference) (ref_name : str) (a : RegistryAuth) : cl unit :=
  L ← get_layout;
  e ← of_result (ok_or (layout_lookup_ref L ref_name) (RegistryError_NotFound ref_name));
  _ ← must (net_auth r a true);
  push_manifest_tree fuel r e.

(** *** Referrers *)

Definition pull_fallback_index (subject : Reference) (a : RegistryAuth) (digest : str) : cl ReferrersIndex :=
  tag ← of_result (fallback_tag digest);
  res ← ask (pull_manifest_raw (at_tag subject tag) a [OCI_IMAGE_INDEX_MEDIA_TYPE]);
  match res with
  | Ok (bytes, _) => of_result (ok_or (parse_referrers bytes) (RegistryError_Json "referrers"))
  | Err e => if is_not_found e then mret ReferrersIndex_empty else raise (of_dist e)
  end.

Definition client_list_referrers (subject : Reference) (a : RegistryAuth) (artifact_type : option str) : cl (list ReferrerDescriptor) :=
  digest ← of_result (ok_or (ref_digest subject) (RegistryError_MalformedDigest (whole subject ++ ": a referrers listing needs a digest-pinned reference")));
  _ ← must (net_auth subject a false);
  res ← ask (pull_referrers subject artifact_type);
  match res with
  | Ok es =>
      mret ((fun e => {| rd_media_type := ie_media_type e; rd_digest := ie_digest e; rd_size := ie_size e; rd_artifact_type := artifact_type;
                         rd_annotations := ie_annotations e |}) <$> es)
  | Err e => if is_not_found e then ix ← pull_fallback_index subject a digest; mret (filtered artifact_type ix) else raise (of_dist e)
  end.

Definition push_referrer (fuel : nat) (repository : Reference) (artifact : ImageIndexEntry) (a : RegistryAuth) : cl unit :=
  bytes ← read_layout (ie_digest artifact);
  m ← of_result (match parse_manifest bytes with Some (OciManifest_Image m) => Ok m | _ => Err (RegistryError_Json "manifest") end);
  subject ← of_result (ok_or (mf_subject m) (RegistryError_InvalidLayout ("manifest " ++ ie_digest artifact ++ " carries no subject")));
  let artifact_ref := at_digest repository (ie_digest artifact) in
  _ ← must (net_auth artifact_ref a true);
  _ ← push_manifest_tree fuel artifact_ref artifact;
  let subject_ref := at_digest repository (desc_digest subject) in
  res ← ask (pull_referrers subject_ref None);
  match res with
  | Ok _ => mret tt
  | Err e =>
      if is_not_found e then
        ix ← pull_fallback_index subject_ref a (desc_digest subject);
        let ix := referrers_upsert {| rd_media_type := ie_media_type artifact; rd_digest := ie_digest artifact; rd_size := ie_size artifact;
                                      rd_artifact_type := mf_artifact_type m; rd_annotations := mf_annotations m |} ix in
        tag ← of_result (fallback_tag (desc_digest subject));
        upload_manifest (at_tag repository tag) (referrers_text ix) OCI_IMAGE_INDEX_MEDIA_TYPE
      else raise (of_dist e)
  end.
End client.

(** ** Reasoning about runs of the client *)

Section logic.
Context {DI : Distribution}.
#[local] Existing Instance cl_ret.
#[local] Existing Instance cl_bind.
Context (Rel : CState -> CState -> Prop) {Rel_preorder : PreOrder Rel}.
Context (Rel_net : forall s n, Rel s {| c_layout := c_layout s; c_net := n; c_uploads := c_uploads s |}).

(** From a state with [P], [m] leads to related states only, and if it succeeds to one with [Q]. *)
Definition triple {A} (P : CState -> Prop) (m : cl A) (Q : A -> CState -> Prop) : Prop :=
  forall s, P s -> let '(r, s') := m s in Rel s s' /\ forall a, r = Val (Ok a) -> Q a s'.

(** What holds of a state holds of all related to it. *)
Definition stable (F : CState -> Prop) : Prop := forall s s', Rel s s' -> F s -> F s'.

Lemma run_bind {A B} P (m : cl A) Q (k : A -> cl B) R : triple P m Q -> (forall a, triple (Q a) (k a) R) -> triple P (m ≫= k) R.
Proof.
  intros Hm Hk s Hs. unfold mbind, cl_bind. specialize (Hm s Hs). destruct (m s) as [[[a|e]| |] s1]; destruct Hm as [H1 H2]; try (split; [done|]; by intros).
  specialize (Hk a s1 (H2 a eq_refl)). destruct (k a s1) as [r s2]. destruct Hk as [H3 H4]. split; [by transitivity s1|done].
Qed.
Lemma run_ret {A} (a : A) (Q : A -> CState -> Prop) : triple (Q a) (mret a) Q.
Proof. intros s Hs. split; [reflexivity|]. by intros ? [= <-]. Qed.
Lemma triple_of_result {A} (r : result RegistryError A) (Q : A -> CState -> Prop) : triple (fun s => forall a, r = Ok a -> Q a s) (of_result r) Q.
Proof. intros s Hs. split; [reflexivity|]. intros a [= Hr]. by apply Hs. Qed.
Lemma triple_raise {A} e P (Q : A -> CState -> Prop) : triple P (raise e) Q.
Proof. intros s Hs. split; [reflexivity|]. by intros. Qed.
Lemma run_weaken {A} (P P' : CState -> Prop) (m : cl A) (Q Q' : A -> CState -> Prop) :
  (forall s, P s -> P' s) -> (forall a s, Q' a s -> Q a s) -> triple P' m Q' -> triple P m Q.
Proof. intros HP HQ Hm s Hs. specialize (Hm s (HP s Hs)). destruct (m s) as [r s']. destruct Hm as [H1 H2]. split; [done|]. intros a Ha. by apply HQ, H2. Qed.
Lemma triple_frame {A} F P (m : cl A) Q : stable F -> triple P m Q -> triple (fun s => P s /\ F s) m (fun a s => Q a s /\ F s).
Proof.
  intros HF Hm s [Hs Hf]. specialize (Hm s Hs). destruct (m s) as [r s']. destruct Hm as [H1 H2]. split; [done|]. intros a Ha. split; [by apply H2|by eapply HF].
Qed.

(** A call of the registry tells what it answered. *)
Lemma triple_must {A} P (op : Net -> result DistError A * Net) (Q : A -> CState -> Prop) :
  (forall s a n, P s -> op (c_net s) = (Ok a, n) -> Q a {| c_layout := c_layout s; c_net := n; c_uploads := c_uploads s |}) -> triple P (must op) Q.
Proof.
  intros H s Hs. unfold must, ask, mbind, cl_bind. specialize (H s). destruct (op (c_net s)) as [[a|e] n]; (split; [apply Rel_net|]); [|done].
  cbn. intros ? [= <-]. by apply H.
Qed.

Lemma triple_retries P (m : cl unit) Q : stable P -> triple P m Q -> forall n k, triple P (with_retries n k m) Q.
Proof.
  intros HP Hm n. induction n as [|n IH]; intros k s Hs; cbn [with_retries]; [split; [reflexivity|by intros]|].
  specialize (Hm s Hs). destruct (m s) as [[[[]|e]| |] s1]; destruct Hm as [H1 H2]; try (split; [done|]; by intros).
  - split; [done|]. intros ? [= <-]. by apply H2.
  - destruct (retry_backoff k e); [|split; [done|by intros]]. specialize (IH (k + 1)%N s1 (HP s s1 H1 Hs)).
    destruct (with_retries n (k + 1) m s1) as [r s2]. destruct IH as [H3 H4]. split; [by transitivity s1|done].
Qed.
End logic.

(** ** Runs end *)

Section ends.
Context {DI : Distribution}.
#[local] Existing Instance cl_ret.
#[local] Existing Instance cl_bind.

Lemma must_bind {A B} (op : Net -> result DistError A * Net) (k : A -> cl B) s :
  (must op ≫= k) s
  = let '(r, n) := op (c_net s) in
    let s' := {| c_layout := c_layout s; c_net := n; c_uploads := c_uploads s |} in
    match r with Ok a => k a s' | Err e => (Val (Err (of_dist e)), s') end.
Proof. unfold must, ask, of_result, mbind, cl_bind. by destruct (op (c_net s)) as [[] n]. Qed.
Lemma lift_bind {A B} (r : result RegistryError A) (k : A -> cl B) s :
  (of_result r ≫= k) s = match r with Ok a => k a s | Err e => (Val (Err e), s) end.
Proof. by destruct r. Qed.

Definition returns {A} (m : cl A) : Prop := forall s, exists r s', m s = (Val r, s').

Lemma returns_ret {A} (a : A) : returns (mret a).
Proof. intros s. by eexists _, _. Qed.
Lemma returns_of_result {A} (r : result RegistryError A) : returns (of_result r).
Proof. intros s. by eexists _, _. Qed.
Lemma returns_must {A} (op : Net -> result DistError A * Net) : returns (must op).
Proof. intros s. unfold must, ask, mbind, cl_bind. destruct (op (c_net s)) as [r n]. by eexists _, _. Qed.
Lemma returns_bind {A B} (m : cl A) (k : A -> cl B) : returns m -> (forall a, returns (k a)) -> returns (m ≫= k).
Proof. intros Hm Hk s. unfold mbind, cl_bind. destruct (Hm s) as ([a|e] & s1 & ->); [apply Hk|by eexists _, _]. Qed.
Lemma returns_get : returns get_layout.
Proof. intros s. by eexists _, _. Qed.
Lemma returns_put L : returns (put_layout L).
Proof. intros s. by eexists _, _. Qed.
Lemma returns_accepted u : returns (accepted u).
Proof. intros s. by eexists _, _. Qed.

(** Three attempts are enough. *)
Lemma returns_retries (m : cl unit) : returns m -> forall n k, (MAX_BLOB_ATTEMPTS <= N.of_nat n + k)%N -> returns (with_retries (S n) k m).
Proof.
  intros Hm. induction n as [|n IH]; intros k Hk s; remember (S _) as n' eqn:En; destruct n' as [|n']; [done| |done|]; injection En as ->; cbn [with_retries];
    (destruct (Hm s) as ([a|e] & s1 & ->); [by eexists _, _|]); unfold retry_backoff; (destruct (N.ltb_spec k MAX_BLOB_ATTEMPTS); cbn [andb]; [|by eexists _, _]).
  - lia.
  - destruct (is_transient e); [|by eexists _, _]. apply IH. lia.
Qed.
End ends.

(** ** What is pulled is complete *)

Section pulling.
Context {DI : Distribution} (sha256_hex : str -> str) (parse_manifest : str -> option OciManifest).
Context (sha256_hex_name : forall s, hex_name (sha256_hex s)).
Context (sha256_hex_inj : forall s t, sha256_hex s = sha256_hex t -> s = t).
#[local] Existing Instance cl_ret.
#[local] Existing Instance cl_bind.
Notation digest_of := (sha256_digest sha256_hex).
Notation addressed := (addressed sha256_hex).
Notation grown := (grown sha256_hex).
Notation read_blob := (read_blob sha256_hex).

Definition present (L : ImageLayout) (d : str) : Prop := exists b, read_blob L d = Ok b.

(** An image with all its parts, or an index with all its images. *)
Inductive held (L : ImageLayout) (d : str) : Prop :=
| held_image bytes m : read_blob L d = Ok bytes -> parse_manifest bytes = Some (OciManifest_Image m) ->
    (forall c, c ∈ image_blobs m -> present L c) -> held L d
| held_index bytes es : read_blob L d = Ok bytes -> parse_manifest bytes = Some (OciManifest_ImageIndex es) ->
    (forall c, c ∈ ie_digest <$> es -> held L c) -> held L d.

Lemma present_grown L L' d : grown L L' -> present L d -> present L' d.
Proof. intros HG [b Hb]. exists b. by apply (read_blob_grown sha256_hex sha256_hex_name L). Qed.
Lemma held_grown L L' d : grown L L' -> held L d -> held L' d.
Proof.
  intros HG. induction 1 as [d bytes m Hr Hp Hc|d bytes es Hr Hp _ IH].
  - apply (held_image _ _ bytes m); [by apply (read_blob_grown sha256_hex sha256_hex_name L)|done|]. intros c Hi. apply (present_grown L); auto.
  - by apply (held_index _ _ bytes es); [apply (read_blob_grown sha256_hex sha256_hex_name L)|..].
Qed.

(** Then everything reachable is there. *)
Lemma held_reachable L d c : held L d -> rtc (lists sha256_hex parse_manifest L) d c ->
  present L c /\ forall p, made_of sha256_hex parse_manifest L c p -> present L p.
Proof.
  intros Hh Hr. assert (Hc : held L c).
  { induction Hr as [|d e c (bytes & es & H1 & H2 & H3) _ IH]; [done|]. apply IH. destruct Hh as [b m Hb Hp Hc|b es' Hb Hp Hc].
    - by assert (b = bytes) by congruence; simplify_eq.
    - assert (b = bytes) as -> by congruence. assert (es' = es) as -> by congruence. by apply Hc. }
  destruct Hc as [b m Hb Hp Hi|b es Hb Hp Hi]; (split; [by exists b|]); intros p (bytes & m' & H1 & H2 & H3).
  - assert (b = bytes) as -> by congruence. assert (m' = m) as -> by congruence. by apply Hi.
  - by assert (b = bytes) by congruence; simplify_eq.
Qed.

(** A pull only adds blobs to a sound layout. *)
Definition pulls (s s' : CState) : Prop :=
  c_uploads s' = c_uploads s /\ (addressed (c_layout s) -> addressed (c_layout s') /\ grown (c_layout s) (c_layout s')).
#[local] Instance pulls_preorder : PreOrder pulls.
Proof.
  split; [by intros s; split|]. intros s1 s2 s3 [E1 H1] [E2 H2]. split; [congruence|]. intros HA. destruct (H1 HA) as [HA2 HG]. destruct (H2 HA2) as [HA3 HG'].
  split; [done|]. by eapply grown_trans.
Qed.
Lemma pulls_net s n : pulls s {| c_layout := c_layout s; c_net := n; c_uploads := c_uploads s |}.
Proof. by split. Qed.
#[local] Hint Resolve pulls_net : core.

Definition sound (s : CState) : Prop := addressed (c_layout s).
Definition has (F : ImageLayout -> Prop) (s : CState) : Prop := sound s /\ F (c_layout s).

Lemma sound_stable : stable pulls sound.
Proof. intros s s' [_ H] Hs. by apply H. Qed.
Lemma has_stable F : (forall L L', grown L L' -> F L -> F L') -> stable pulls (has F).
Proof. intros HF s s' [_ H] [Hs Hf]. destruct (H Hs) as [HA HG]. split; [done|]. by eapply HF. Qed.

Lemma write_layout_triple data d : triple pulls sound (write_layout sha256_hex data d) (fun _ => has (fun L => d = digest_of data /\ read_blob L d = Ok data)).
Proof.
  intros s Hs. unfold write_layout, get_layout, of_result, put_layout, mbind, cl_bind. destruct (write_blob_with_digest sha256_hex data d (c_layout s)) as [L|e] eqn:E; [|by split].
  assert (d = digest_of data) as -> by (unfold write_blob_with_digest in E; by case_bool_decide).
  apply (write_blob_grown sha256_hex sha256_hex_name sha256_hex_inj) in E as (HA & HG & HS); [|done]. split; [by split|]. intros _ _. split; [done|]. split; [done|].
  by apply read_blob_stored.
Qed.

Lemma pull_blob_attempt_triple r a d : triple pulls sound (pull_blob_attempt sha256_hex r a d) (fun _ => has (fun L => present L (desc_digest d))).
Proof.
  unfold pull_blob_attempt. eapply (run_bind pulls); [by apply (triple_must pulls pulls_net _ _ (fun _ => sound))|]. intros [].
  eapply (run_bind pulls); [by apply (triple_must pulls pulls_net _ _ (fun _ => sound))|]. intros buf.
  eapply run_weaken; [done| |apply write_layout_triple]. intros [] s [Hs [_ Hr]]. split; [done|]. by exists buf.
Qed.

Lemma pull_blob_to_layout_triple r a d : triple pulls sound (pull_blob_to_layout sha256_hex r a d) (fun _ => has (fun L => present L (desc_digest d))).
Proof.
  intros s Hs. unfold pull_blob_to_layout, get_layout, mbind, cl_bind. destruct (has_blob (c_layout s) (desc_digest d)) eqn:E.
  - split; [reflexivity|]. intros _ _. split; [done|]. unfold has_blob in E. destruct (blob_path (desc_digest d)) as [name|] eqn:Ep; [|done].
    apply bool_decide_eq_true in E as [b Hb]. exists b. rewrite read_blob_addressed by done. rewrite Ep. cbn. by rewrite Hb.
  - apply (triple_retries pulls _ _ _ sound_stable (pull_blob_attempt_triple r a d) 3 1 s Hs).
Qed.

Lemma pull_blobs_triple r a ds : triple pulls sound (pull_blobs sha256_hex r a ds) (fun _ => has (fun L => forall c, c ∈ desc_digest <$> ds -> present L c)).
Proof.
  induction ds as [|d ds IH]; cbn [pull_blobs].
  - intros s Hs. split; [reflexivity|]. intros _ _. split; [done|]. by intros c ?%not_elem_of_nil.
  - eapply (run_bind pulls); [apply pull_blob_to_layout_triple|]. intros [].
    eapply run_weaken; [| |apply (triple_frame pulls (has (fun L => present L (desc_digest d))) _ _ _ (has_stable _ (fun L L' HG => present_grown L L' _ HG)) IH)].
    + intros s [Hs Hp]. by split.
    + intros [] s [[Hs Hc] [_ Hp]]. split; [done|]. intros c [->|Hi]%elem_of_cons; [done|by apply Hc].
Qed.

Lemma pull_image_blobs_triple r a m : triple pulls sound (pull_image_blobs sha256_hex r a m) (fun _ => has (fun L => forall c, c ∈ image_blobs m -> present L c)).
Proof. apply (pull_blobs_triple r a (mf_config m :: mf_layers m)). Qed.

Lemma pull_index_children_triple (f : Reference -> cl ImageIndexEntry) r es :
  (forall d, triple pulls sound (f (clone_with_digest r d)) (fun _ => has (fun L => held L d))) ->
  triple pulls sound (pull_index_children f r es) (fun _ => has (fun L => forall c, c ∈ ie_digest <$> es -> held L c)).
Proof.
  intros Hf. induction es as [|e es IH]; cbn [pull_index_children].
  - intros s Hs. split; [reflexivity|]. intros _ _. split; [done|]. by intros c ?%not_elem_of_nil.
  - eapply (run_bind pulls); [apply Hf|]. intros x.
    eapply run_weaken; [| |apply (triple_frame pulls (has (fun L => held L (ie_digest e))) _ _ _ (has_stable _ (fun L L' HG => held_grown L L' _ HG)) IH)].
    + intros s [Hs Hp]. by split.
    + intros [] s [[Hs Hc] [_ Hp]]. split; [done|]. intros c [->|Hi]%elem_of_cons; [done|by apply Hc].
Qed.

Lemma pull_manifest_tree_triple a : forall fuel r,
  triple pulls sound (pull_manifest_tree sha256_hex parse_manifest fuel a r)
    (fun e => has (fun L => held L (ie_digest e) /\ forall p, ref_digest r = Some p -> ie_digest e = p)).
Proof.
  induction fuel as [|fuel IH]; intros r; cbn [pull_manifest_tree]; [intros s Hs; split; [reflexivity|by intros]|].
  eapply (run_bind pulls); [apply (triple_must pulls pulls_net _ _ (fun bd s => sound s /\ forall p, ref_digest r = Some p -> bd.2 = p))|].
  { intros s [bytes d] n Hs Hp. split; [done|]. intros p. by eapply pull_manifest_pinned. }
  intros [bytes d]. eapply (run_bind pulls); [apply (run_weaken pulls) with (3 := triple_of_result pulls _ (fun _ s => sound s /\ forall p, ref_digest r = Some p -> d = p)); [by intros s Hs ? _|intros ? ? Hq; exact Hq]|].
  intros []. eapply (run_bind pulls); [apply (run_weaken pulls) with (3 := triple_of_result pulls _
    (fun m s => parse_manifest bytes = Some m /\ sound s /\ forall p, ref_digest r = Some p -> d = p)); [|intros ? ? Hq; exact Hq]|].
  { intros s Hs m Hm. split; [|done]. by destruct (parse_manifest bytes); simplify_eq/=. }
  intros m s (Hm & Hs & Hp). revert s Hs.
  change (triple pulls sound (_ ← write_layout sha256_hex bytes d;
    _ ← match m with OciManifest_Image image => pull_image_blobs sha256_hex r a image
        | OciManifest_ImageIndex es => pull_index_children (pull_manifest_tree sha256_hex parse_manifest fuel a) r es end;
    mret {| ie_media_type := manifest_media_type bytes m; ie_digest := d; ie_size := Z.of_nat (length bytes); ie_platform := None; ie_annotations := None |})
    (fun e => has (fun L => held L (ie_digest e) /\ forall p, ref_digest r = Some p -> ie_digest e = p))).
  eapply (run_bind pulls); [apply write_layout_triple|]. intros [].
  set (parts := fun L => match m with OciManifest_Image image => forall c, c ∈ image_blobs image -> present L c
                         | OciManifest_ImageIndex es => forall c, c ∈ ie_digest <$> es -> held L c end).
  set (wrote := has (fun L => d = digest_of bytes /\ read_blob L d = Ok bytes)).
  assert (Hw : stable pulls wrote) by (apply has_stable; intros L L' HG [H1 H2]; split; [done|]; by apply (read_blob_grown sha256_hex sha256_hex_name L)).
  assert (Hparts : triple pulls sound (match m with OciManifest_Image image => pull_image_blobs sha256_hex r a image
        | OciManifest_ImageIndex es => pull_index_children (pull_manifest_tree sha256_hex parse_manifest fuel a) r es end) (fun _ => has parts)).
  { unfold parts. destruct m as [image|es]; [apply pull_image_blobs_triple|]. apply pull_index_children_triple. intros c.
    eapply run_weaken; [done| |apply (IH (clone_with_digest r c))]. intros e s [Hs [Hh Hc]]. split; [done|]. rewrite <- (Hc c); [done|]. apply clone_pinned. }
  eapply (run_bind pulls); [eapply run_weaken; [| |apply (triple_frame pulls wrote _ _ _ Hw Hparts)]; [intros s Hs; split; [apply Hs|done]|intros u s Hq; exact Hq]|].
  intros [] s [[Hs Hc] [_ [Hd Hr]]]. split; [reflexivity|]. intros ? [= <-]. split; [done|]. cbn [ie_digest]. split; [|done].
  destruct m as [image|es]; [by apply (held_image _ _ bytes image)|by apply (held_index _ _ bytes es)].
Qed.

Lemma write_layout_returns data d : returns (write_layout sha256_hex data d).
Proof. apply returns_bind; [apply returns_get|]. intros L. apply returns_bind; [apply returns_of_result|]. intros L'. apply returns_put. Qed.
Lemma pull_blob_to_layout_returns r a d : returns (pull_blob_to_layout sha256_hex r a d).
Proof.
  apply returns_bind; [apply returns_get|]. intros L. destruct (has_blob L _); [apply returns_ret|]. apply (returns_retries _) with (n := 2); [|done].
  apply returns_bind; [apply returns_must|]. intros []. apply returns_bind; [apply returns_must|]. intros buf. apply write_layout_returns.
Qed.
Lemma pull_blobs_returns r a ds : returns (pull_blobs sha256_hex r a ds).
Proof. induction ds as [|d ds IH]; [apply returns_ret|]. apply returns_bind; [apply pull_blob_to_layout_returns|]. by intros []. Qed.

(** Nested indexes end: an index lists its children by their hashes, and no hash contains itself. *)
Context (rank : str -> nat).
Context (rank_child : forall b es e b', parse_manifest b = Some (OciManifest_ImageIndex es) -> e ∈ es -> digest_of b' = ie_digest e -> (rank b' < rank b)%nat).

(** [fuel] is enough for what the registry answers next. *)
Definition enough (fuel : nat) (a : RegistryAuth) (r : Reference) (s : CState) : Prop :=
  (0 < fuel)%nat /\ forall bytes d n, pull_manifest_raw r a ACCEPTED_MANIFEST_MEDIA_TYPES (c_net s) = (Ok (bytes, d), n) -> digest_of bytes = d -> (S (rank bytes) < fuel)%nat.

Lemma pull_index_children_returns (f : Reference -> cl ImageIndexEntry) r es :
  (forall e s, e ∈ es -> exists res s', f (clone_with_digest r (ie_digest e)) s = (Val res, s')) -> returns (pull_index_children f r es).
Proof.
  induction es as [|e es IH]; intros Hf; cbn [pull_index_children]; [apply returns_ret|]. intros s. unfold mbind, cl_bind.
  destruct (Hf e s ltac:(by left)) as ([x|err] & s1 & ->); [|by eexists _, _]. apply IH. intros e' s' He'. apply Hf. by right.
Qed.

Lemma pull_manifest_tree_returns a : forall fuel r s, enough fuel a r s -> exists res s', pull_manifest_tree sha256_hex parse_manifest fuel a r s = (Val res, s').
Proof.
  induction fuel as [|fuel IH]; intros r s [Hf Hr]; [lia|]. cbn [pull_manifest_tree]. rewrite must_bind.
  destruct (pull_manifest_raw r a ACCEPTED_MANIFEST_MEDIA_TYPES (c_net s)) as [[[bytes d]|e] n] eqn:E; [|by eexists _, _]. cbv beta iota zeta.
  rewrite lift_bind. case_bool_decide as Hd; [|by eexists _, _]. specialize (Hr bytes d n eq_refl Hd).
  rewrite lift_bind. destruct (parse_manifest bytes) as [m|] eqn:Ep; [|by eexists _, _]. cbn [ok_or].
  match goal with |- exists res s', ?m ?s1 = _ => enough (Hret : returns m) by apply Hret end.
  apply returns_bind; [apply write_layout_returns|]. intros []. apply returns_bind; [|by intros; apply returns_ret]. destruct m as [image|es].
  - apply (pull_blobs_returns r a (mf_config image :: mf_layers image)).
  - apply pull_index_children_returns. intros x s1 Hx. apply IH. split; [lia|]. intros b' d' n' Hb Hd'.
    assert (d' = ie_digest x) as -> by (eapply pull_manifest_pinned; [exact Hb|apply clone_pinned]).
    pose proof (rank_child bytes es x b' Ep Hx Hd'). lia.
Qed.

(** C21 (safety): a pull is complete or leaves no reference.  Whatever the registry answers, a pull ends, after at
    most three attempts for a blob, and
    leaves a sound layout in which all that could be read still can.  When it succeeds its reference names a
    manifest, the one asked for if the reference has a digest, and every manifest and blob reachable from it
    is in the layout under its own hash; when it fails the index is unchanged.  It supposes that nested indexes end. *)
Theorem pull_complete r a s :
  addressed (c_layout s) ->
  exists fuel0, forall fuel, (fuel0 <= fuel)%nat ->
  exists res s', pull sha256_hex parse_manifest fuel r a s = (Val res, s') /\ addressed (c_layout s')
    /\ (forall d b, read_blob (c_layout s) d = Ok b -> read_blob (c_layout s') d = Ok b)
    /\ match res with
       | Err _ => index (c_layout s') = index (c_layout s)
       | Ok e =>
           (forall x, layout_lookup_ref (c_layout s') x = if decide (x = whole r) then Some (annotate x e) else layout_lookup_ref (c_layout s) x)
           /\ (forall p, ref_digest r = Some p -> ie_digest e = p)
           /\ forall d, rtc (lists sha256_hex parse_manifest (c_layout s')) (ie_digest e) d ->
                present (c_layout s') d /\ forall c, made_of sha256_hex parse_manifest (c_layout s') d c -> present (c_layout s') c
       end.
Proof.
  intros HA.
  exists (match pull_manifest_raw r a ACCEPTED_MANIFEST_MEDIA_TYPES (c_net s) with (Ok (b, _), _) => 2 + rank b | _ => 1 end)%nat.
  intros fuel Hf. assert (He : enough fuel a r s).
  { split; [destruct (pull_manifest_raw _ _ _ _) as [[[]|] ?]; lia|]. intros bytes d n E _. rewrite E in Hf. lia. }
  destruct (pull_manifest_tree_returns a fuel r s He) as (res & s1 & E). pose proof (pull_manifest_tree_triple a fuel r s HA) as H. rewrite E in H.
  destruct H as [[_ Hg] Hq]. destruct (Hg HA) as [HA1 HG].
  assert (Hrd : forall d b, read_blob (c_layout s) d = Ok b -> read_blob (c_layout s1) d = Ok b) by (intros; by apply (read_blob_grown sha256_hex sha256_hex_name (c_layout s))).
  unfold pull, mbind, cl_bind. rewrite E. destruct res as [e|err]; [|exists (Err err), s1; split_and!; [done..|by destruct HG]].
  destruct (Hq e eq_refl) as [_ [Hh Hp]]. eexists (Ok e), _. split; [done|]. split_and!; [done|done| |done|].
  - intros x. cbn [c_layout]. rewrite lookup_upsert_ref. case_decide; [by subst|]. unfold layout_lookup_ref. by rewrite (proj1 HG).
  - intros d Hd. by apply (held_reachable (c_layout s1) (ie_digest e) d).
Qed.
End pulling.

(** ** What is pushed is in order *)

Lemma fill_spec answers : forall want acc rest buf rest' answers',
  fill answers want acc rest = Ok (buf, rest', answers') ->
  exists x, buf = acc ++ x /\ rest = x ++ rest' /\ (len x <= want)%N /\ ((0 < want)%N -> rest <> [] -> x <> []).
Proof.
  unfold len. induction answers as [|a answers IH]; intros want acc rest buf rest' answers'; cbn [fill]; unfold len.
  - intros [= <- <- <-]. exists (take (N.to_nat (N.min want (N.of_nat (length rest)))) rest).
    split_and!; [done|by rewrite take_drop|rewrite length_take; lia|]. intros Hw Hr E. apply (f_equal length) in E. rewrite length_take in E. destruct rest; [done|]. cbn [length] in E. lia.
  - destruct (N.eqb_spec want 0) as [->|Hw].
    { intros [= <- <- <-]. exists []. split_and!; [by rewrite app_nil_r|done|done|lia]. }
    destruct a as [n| |e]; [|apply IH|done]. cbv zeta. set (k := N.min (n + 1) (N.min want (N.of_nat (length rest)))). destruct (N.eqb_spec k 0) as [Hk|Hk].
    { intros [= <- <- <-]. exists []. split_and!; [by rewrite app_nil_r|done|cbn; lia|]. intros _ Hr. unfold k in Hk. destruct rest; [done|]. cbn [length] in Hk. lia. }
    intros (x & -> & Hx & Hl & _)%IH. exists (take (N.to_nat k) rest ++ x).
    split_and!; [by rewrite app_assoc|rewrite <- app_assoc, <- Hx; by rewrite take_drop|rewrite length_app, length_take; lia|].
    intros _ Hr E. apply app_nil in E as [E _]. apply (f_equal length) in E. rewrite length_take in E. cbn in E. lia.
Qed.

Definition chunk_bytes (cs : list (result IoError str)) : str := concat (omap (fun c => match c with Ok b => Some b | Err _ => None end) cs).

(** A file is read in chunks of bounded size that make it up, whatever the reads give. *)
Lemma chunks_from_spec chunk : (0 < chunk)%N -> forall fuel answers rest, (length rest < fuel)%nat ->
  (forall e, Err e ∉ chunks_from fuel chunk answers rest) ->
  chunk_bytes (chunks_from fuel chunk answers rest) = rest
  /\ Forall (fun c => match c with Ok b => (len b <= chunk)%N | Err _ => False end) (chunks_from fuel chunk answers rest).
Proof.
  intros Hc. induction fuel as [|fuel IH]; intros answers rest Hl; cbn [chunks_from]; [lia|].
  destruct (fill answers chunk [] rest) as [[[buf rest'] answers']|e] eqn:E; [|intros He; destruct (He e); by left].
  apply fill_spec in E as (x & -> & -> & Hx & Hn). cbn [app]. destruct x as [|c x].
  { intros _. split; [|constructor]. destruct rest'; [done|]. by destruct (Hn Hc). }
  intros He. rewrite length_app in Hl. cbn in Hl. destruct (IH answers' rest' ltac:(lia)) as [H1 H2]; [intros e Hi; apply (He e); by right|].
  split; [|by constructor]. unfold chunk_bytes. cbn. f_equal. f_equal. exact H1.
Qed.

Lemma blob_chunk_stream_spec answers file : (forall e, Err e ∉ blob_chunk_stream answers file) ->
  file = Some (chunk_bytes (blob_chunk_stream answers file)).
Proof.
  intros He. destruct file as [bytes|]; [|destruct (He NotFound); by left]. cbn [blob_chunk_stream] in *.
  destruct (chunks_from_spec PUSH_READ_CHUNK_BYTES ltac:(unfold PUSH_READ_CHUNK_BYTES; lia) (S (length bytes)) answers bytes ltac:(lia) He) as [H _]. by rewrite H.
Qed.

Section pushing.
Context {DI : Distribution} (sha256_hex : str -> str) (parse_manifest : str -> option OciManifest).
#[local] Existing Instance cl_ret.
#[local] Existing Instance cl_bind.
Notation digest_of := (sha256_digest sha256_hex).
Notation read_blob := (read_blob sha256_hex).

(** The blob [c] was uploaded, with the bytes of its file. *)
Definition blob_up (L : ImageLayout) (us : list Upload) (c : str) : Prop :=
  exists name data, blob_path c = Ok name /\ blobs L !! name = Some data /\ Up_Blob c data ∈ us.
Definition manifest_up (us : list Upload) (d : str) : Prop := exists r b, Up_Manifest r b ∈ us /\ digest_of b = d.

(** All that a manifest refers to was uploaded. *)
Definition parts_up (L : ImageLayout) (us : list Upload) (b : str) : Prop :=
  match parse_manifest b with
  | Some (OciManifest_Image m) => forall c, c ∈ image_blobs m -> blob_up L us c
  | Some (OciManifest_ImageIndex es) => forall e, e ∈ es -> manifest_up us (ie_digest e)
  | None => True
  end.

(** No manifest was uploaded before its parts. *)
Definition ordered (L : ImageLayout) (us : list Upload) : Prop := forall l1 r b l2, us = l1 ++ Up_Manifest r b :: l2 -> parts_up L l1 b.

Lemma ordered_snoc L us u : ordered L us -> match u with Up_Blob _ _ => True | Up_Manifest _ b => parts_up L us b end -> ordered L (us ++ [u]).
Proof.
  intros Ho Hu l1 r b l2 E. destruct l2 as [|x l2 _] using rev_ind.
  - apply app_inj_tail in E as [<- ->]. exact Hu.
  - rewrite app_comm_cons, app_assoc in E. apply app_inj_tail in E as [-> _]. by eapply Ho.
Qed.

Lemma blob_up_mono L us us' c : us ⊆ us' -> blob_up L us c -> blob_up L us' c.
Proof. intros Hs (name & data & H1 & H2 & H3). exists name, data. split_and!; [done|done|by apply Hs]. Qed.
Lemma manifest_up_mono us us' d : us ⊆ us' -> manifest_up us d -> manifest_up us' d.
Proof. intros Hs (r & b & H1 & H2). exists r, b. split; [by apply Hs|done]. Qed.

(** A push changes no layout and adds uploads, in order. *)
Definition pushes (s s' : CState) : Prop :=
  c_layout s' = c_layout s /\ c_uploads s ⊆ c_uploads s'
  /\ (ordered (c_layout s) (c_uploads s) -> ordered (c_layout s) (c_uploads s')).
#[local] Instance pushes_preorder : PreOrder pushes.
Proof.
  split; [by intros s|]. intros s1 s2 s3 (E1 & S1 & O1) (E2 & S2 & O2). rewrite E1 in E2, O2. split_and!; [done|by transitivity (c_uploads s2)|auto].
Qed.
Lemma pushes_net s n : pushes s {| c_layout := c_layout s; c_net := n; c_uploads := c_uploads s |}.
Proof. by split_and!. Qed.

Definition at_layout (L : ImageLayout) (F : list Upload -> Prop) (s : CState) : Prop := c_layout s = L /\ F (c_uploads s).
Abbreviation on L := (at_layout L (fun _ => True)).

Lemma at_layout_stable L F : (forall us us', us ⊆ us' -> F us -> F us') -> stable pushes (at_layout L F).
Proof. intros HF s s' (E & HS & _) [<- Hf]. split; [done|]. by eapply HF. Qed.

Lemma push_blob_attempt_triple L r d : triple pushes (on L) (push_blob_attempt r d) (fun _ => at_layout L (fun us => blob_up L us (desc_digest d))).
Proof.
  intros s [Hs _]. unfold push_blob_attempt, get_layout, mbind at 1, cl_bind at 1. cbv beta iota. rewrite lift_bind. destruct (blob_path (desc_digest d)) as [name|e] eqn:En; [|by split].
  rewrite must_bind. set (stream := blob_chunk_stream _ _). destruct (push_blob_stream r stream (desc_digest d) (c_net s)) as [[[]|e] n] eqn:E; [|split; [apply pushes_net|done]].
  assert (Hf : forall e, Err e ∉ stream) by (intros e He; by apply (push_stream_fails r stream (desc_digest d) (c_net s) e n He)).
  apply blob_chunk_stream_spec in Hf. unfold accepted. cbn [c_layout c_net c_uploads]. split; [split_and!; [done|set_solver|]|].
  - intros Ho. by apply ordered_snoc.
  - intros _ _. split; [done|]. exists name, (chunk_bytes stream). rewrite <- Hs. split_and!; [done|exact Hf|]. apply elem_of_app. right. by left.
Qed.

Lemma push_blob_from_layout_triple L r d : triple pushes (on L) (push_blob_from_layout r d) (fun _ => at_layout L (fun us => blob_up L us (desc_digest d))).
Proof. apply (triple_retries pushes); [by apply at_layout_stable|apply push_blob_attempt_triple]. Qed.

Lemma push_blobs_triple L r ds : triple pushes (on L) (push_blobs r ds) (fun _ => at_layout L (fun us => forall c, c ∈ desc_digest <$> ds -> blob_up L us c)).
Proof.
  induction ds as [|d ds IH]; cbn [push_blobs].
  - intros s [Hs _]. split; [reflexivity|]. intros _ _. split; [done|]. by intros c ?%not_elem_of_nil.
  - eapply (run_bind pushes); [apply push_blob_from_layout_triple|]. intros [].
    eapply run_weaken; [| |apply (triple_frame pushes (at_layout L (fun us => blob_up L us (desc_digest d))) _ _ _ (at_layout_stable L _ (fun us us' HS => blob_up_mono L us us' _ HS)) IH)].
    + intros s [Hs Hp]. by split.
    + intros [] s [[Hs Hc] [_ Hp]]. split; [done|]. intros c [->|Hi]%elem_of_cons; [done|by apply Hc].
Qed.

Lemma push_children_triple L (f : ImageIndexEntry -> cl unit) es :
  (forall e, triple pushes (on L) (f e) (fun _ => at_layout L (fun us => manifest_up us (ie_digest e)))) ->
  triple pushes (on L) (push_children f es) (fun _ => at_layout L (fun us => forall e, e ∈ es -> manifest_up us (ie_digest e))).
Proof.
  intros Hf. induction es as [|e es IH]; cbn [push_children].
  - intros s [Hs _]. split; [reflexivity|]. intros _ _. split; [done|]. by intros c ?%not_elem_of_nil.
  - eapply (run_bind pushes); [apply Hf|]. intros [].
    eapply run_weaken; [| |apply (triple_frame pushes (at_layout L (fun us => manifest_up us (ie_digest e))) _ _ _ (at_layout_stable L _ (fun us us' HS => manifest_up_mono us us' _ HS)) IH)].
    + intros s [Hs Hp]. by split.
    + intros [] s [[Hs Hc] [_ Hp]]. split; [done|]. intros c [->|Hi]%elem_of_cons; [done|by apply Hc].
Qed.

(** The manifest is the last upload. *)
Definition last_up (r : Reference) (L : ImageLayout) (d : str) (us : list Upload) : Prop :=
  exists bytes us', read_blob L d = Ok bytes /\ us = us' ++ [Up_Manifest r bytes].
Lemma last_up_manifest r L d us : last_up r L d us -> manifest_up us d.
Proof. intros (bytes & us' & [<- _]%read_blob_Ok & ->). exists r, bytes. split; [|done]. apply elem_of_app. right. by left. Qed.

Lemma upload_manifest_triple L r bytes media d : read_blob L d = Ok bytes ->
  triple pushes (at_layout L (fun us => parts_up L us bytes)) (upload_manifest r bytes media) (fun _ => at_layout L (last_up r L d)).
Proof.
  intros Hr s [Hs Hp]. unfold upload_manifest. rewrite must_bind. destruct (push_manifest_raw r bytes media (c_net s)) as [[[]|e] n]; [|split; [apply pushes_net|done]].
  unfold accepted. cbn [c_layout c_net c_uploads]. split; [split_and!; [done|set_solver|]|].
  - intros Ho. apply ordered_snoc; [done|]. by rewrite Hs.
  - intros _ _. split; [done|]. by exists bytes, (c_uploads s).
Qed.

Lemma push_manifest_tree_triple L r : forall fuel e, triple pushes (on L) (push_manifest_tree sha256_hex parse_manifest fuel r e) (fun _ => at_layout L (last_up r L (ie_digest e))).
Proof.
  induction fuel as [|fuel IH]; intros e; cbn [push_manifest_tree]; [intros s Hs; split; [reflexivity|by intros]|].
  intros s [Hs _]. unfold read_layout, get_layout. unfold mbind at 1, cl_bind at 1, mbind at 1, cl_bind at 1. cbv beta iota. unfold of_result at 1. rewrite Hs.
  destruct (read_blob L (ie_digest e)) as [bytes|err] eqn:Er; [|by split]. rewrite lift_bind. destruct (parse_manifest bytes) as [m|] eqn:Ep; [|by split]. cbn [ok_or].
  assert (Hon : on L s) by done. clear Hs. revert s Hon.
  set (parts := match m with OciManifest_Image image => _ | OciManifest_ImageIndex es => _ end).
  match goal with |- forall s, _ -> let '(_, _) := ?prog s in _ => change (triple pushes (on L) prog (fun _ => at_layout L (last_up r L (ie_digest e)))) end.
  assert (Hparts : triple pushes (on L) parts (fun _ => at_layout L (fun us => parts_up L us bytes))).
  { unfold parts, parts_up. rewrite Ep. destruct m as [image|es]; [apply (push_blobs_triple L r (mf_config image :: mf_layers image))|].
    apply push_children_triple. intros x. eapply run_weaken; [done| |apply IH]. intros [] s [Hs Hl]. split; [done|]. by apply (last_up_manifest r L). }
  eapply (run_bind pushes); [exact Hparts|]. intros [].
  eapply (run_bind pushes); [apply (run_weaken pushes) with (3 := triple_of_result pushes _ (fun _ s => at_layout L (fun us => parts_up L us bytes) s));
    [by intros s Hs ? _|intros ? ? Hq; exact Hq]|]. intros [].
  by apply upload_manifest_triple.
Qed.

Lemma push_blob_from_layout_returns r d : returns (push_blob_from_layout r d).
Proof.
  apply (returns_retries _) with (n := 2); [|done]. apply returns_bind; [apply returns_get|]. intros L. apply returns_bind; [apply returns_of_result|]. intros name.
  apply returns_bind; [apply returns_must|]. intros []. apply returns_accepted.
Qed.
Lemma push_blobs_returns r ds : returns (push_blobs r ds).
Proof. induction ds as [|d ds IH]; [apply returns_ret|]. apply returns_bind; [apply push_blob_from_layout_returns|]. by intros []. Qed.

Context (rank : str -> nat).
Context (rank_child : forall b es e b', parse_manifest b = Some (OciManifest_ImageIndex es) -> e ∈ es -> digest_of b' = ie_digest e -> (rank b' < rank b)%nat).

Lemma push_children_returns L (f : ImageIndexEntry -> cl unit) es :
  (forall e s, e ∈ es -> c_layout s = L -> exists res s', f e s = (Val res, s') /\ c_layout s' = L) ->
  forall s, c_layout s = L -> exists res s', push_children f es s = (Val res, s').
Proof.
  induction es as [|e es IH]; intros Hf s Hs; cbn [push_children]; [by eexists _, _|]. unfold mbind, cl_bind.
  destruct (Hf e s ltac:(by left) Hs) as ([[]|err] & s1 & -> & Hs1); [|by eexists _, _]. apply IH; [|done]. intros e' s' He'. apply Hf. by right.
Qed.

Lemma push_manifest_tree_returns r : forall fuel e s, (0 < fuel)%nat ->
  (forall bytes, read_blob (c_layout s) (ie_digest e) = Ok bytes -> (S (rank bytes) < fuel)%nat) ->
  exists res s', push_manifest_tree sha256_hex parse_manifest fuel r e s = (Val res, s').
Proof.
  induction fuel as [|fuel IH]; intros e s Hf Hr; [lia|]. cbn [push_manifest_tree].
  unfold read_layout, get_layout. unfold mbind at 1, cl_bind at 1, mbind at 1, cl_bind at 1. cbv beta iota. unfold of_result at 1.
  destruct (read_blob (c_layout s) (ie_digest e)) as [bytes|err] eqn:Er; [|by eexists _, _]. specialize (Hr bytes eq_refl).
  rewrite lift_bind. destruct (parse_manifest bytes) as [m|] eqn:Ep; [|by eexists _, _]. cbn [ok_or].
  unfold mbind at 1, cl_bind at 1.
  assert (Hm : exists res s', match m with OciManifest_Image image => push_image_blobs r image
    | OciManifest_ImageIndex es => push_children (push_manifest_tree sha256_hex parse_manifest fuel r) es end s = (Val res, s')).
  { destruct m as [image|es]; [apply (push_blobs_returns r (mf_config image :: mf_layers image))|].
    apply (push_children_returns (c_layout s)); [|done]. intros x s1 Hx Hs1.
    assert (Hb : forall b', read_blob (c_layout s1) (ie_digest x) = Ok b' -> (S (rank b') < fuel)%nat).
    { intros b' [Hd _]%read_blob_Ok. pose proof (rank_child bytes es x b' Ep Hx Hd). lia. }
    destruct (IH x s1 ltac:(lia) Hb) as (res & s2 & E). exists res, s2. split; [done|].
    pose proof (push_manifest_tree_triple (c_layout s) r fuel x s1 (conj Hs1 I)) as H. rewrite E in H. destruct H as [(H & _) _]. by rewrite H. }
  destruct Hm as ([[]|err] & s1 & ->); [|by eexists _, _]. rewrite lift_bind. destruct (header_ok (ie_media_type e)); [|by eexists _, _].
  match goal with |- exists res s', ?m ?s1 = _ => enough (Hret : returns m) by apply Hret end.
  apply returns_bind; [apply returns_must|]. intros []. apply returns_accepted.
Qed.

(** C22 (safety): a push never publishes a manifest before what it refers to.  Whatever the registry answers, a
    push ends and does not change the layout; in the order in which the registry accepts its uploads, also when it fails, every
    manifest comes after all its blobs, uploaded with the bytes of the layout, or after all its children;
    and when it succeeds the last upload is the manifest of the reference, byte for byte.  It supposes that nested indexes end. *)
Theorem push_ordered r ref_name a s :
  c_uploads s = [] ->
  exists fuel0, forall fuel, (fuel0 <= fuel)%nat ->
  exists res s', push sha256_hex parse_manifest fuel r ref_name a s = (Val res, s') /\ c_layout s' = c_layout s
    /\ ordered (c_layout s) (c_uploads s')
    /\ (res = Ok tt -> exists e, layout_lookup_ref (c_layout s) ref_name = Some e /\ last_up r (c_layout s) (ie_digest e) (c_uploads s')).
Proof.
  intros Hu. assert (Ho : ordered (c_layout s) []) by (intros [] ???; discriminate).
  exists (match layout_lookup_ref (c_layout s) ref_name with
          | Some e => match read_blob (c_layout s) (ie_digest e) with Ok b => 2 + rank b | Err _ => 1 end
          | None => 0
          end)%nat. intros fuel Hf. unfold push, get_layout. unfold mbind at 1, cl_bind at 1. cbv beta iota. rewrite lift_bind.
  destruct (layout_lookup_ref (c_layout s) ref_name) as [e|] eqn:El; cbn [ok_or]; [|eexists _, s; split_and!; [done|done|by rewrite Hu|done]].
  rewrite must_bind. destruct (net_auth r a true (c_net s)) as [[[]|err] n]; [|eexists _, _; split_and!; [done|done|cbn; by rewrite Hu|done]].
  set (s1 := {| c_layout := c_layout s; c_net := n; c_uploads := c_uploads s |}).
  destruct (push_manifest_tree_returns r fuel e s1) as (res & s2 & E).
  { destruct (read_blob (c_layout s) (ie_digest e)); lia. }
  { intros bytes Hb. change (read_blob (c_layout s) (ie_digest e) = Ok bytes) in Hb. rewrite Hb in Hf. lia. }
  pose proof (push_manifest_tree_triple (c_layout s) r fuel e s1 (conj eq_refl I)) as H. rewrite E in H. destruct H as [(H1 & _ & H2) H3].
  exists res, s2. split_and!; [done|done|apply H2; cbn; by rewrite Hu|]. intros ->. exists e. split; [done|]. by apply (H3 tt).
Qed.
End pushing.

(** ** Referrers *)

(** The index of the fallback tag is a map from digests, in order. *)
Lemma referrers_upsert_exact d ix x :
  x ∈ ri_manifests (referrers_upsert d ix) <-> x = d \/ (x ∈ ri_manifests ix /\ rd_digest x <> rd_digest d).
Proof.
  unfold referrers_upsert. cbn. rewrite merge_sort_Permutation, elem_of_app, list_elem_of_filter, list_elem_of_singleton. naive_solver.
Qed.
Lemma fallback_tag_sha256 hex : hex_name hex -> (length hex <= 120)%nat -> fallback_tag ("sha256:" ++ hex) = Ok ("sha256-" ++ hex).
Proof.
  intros [Hn Hx] Hl. unfold fallback_tag. change ("sha256:" ++ hex) with (("sha256" : str) ++ ":"%char :: hex).
  rewrite split_once_app by (by apply (bool_decide_eq_false_1 (":"%char ∈ ("sha256" : str)))). rewrite Hx. destruct hex as [|c hex]; [done|]. cbn [is_nil negb andb forallb is_ascii_lowercase_or_digit].
  change (forallb is_ascii_lowercase_or_digit ("sha256" : str)) with true. cbn [andb].
  assert (Hm : (fun c => if Ascii.eqb c ":" then "-"%char else c) <$> (c :: hex) = c :: hex).
  { clear -Hx. induction (c :: hex) as [|x l IH]; [done|]. cbn in Hx. apply andb_true_iff in Hx as [H1 H2]. cbn. rewrite IH by done. f_equal.
    destruct (Ascii.eqb_spec x ":") as [->|]; [|done]. by vm_compute in H1. }
  rewrite fmap_app, fmap_cons, Hm. f_equal. apply take_ge. unfold MAX_TAG_LEN. cbn in *. lia.
Qed.

(** ** A registry *)
Module ClientExample.
Notation hex := ModelLayout.hexify.
Notation digest_of := (sha256_digest hex).

(** It has the files of the layout of LayoutFacts.v except [missing], refuses the manifest [refused], and counts its calls. *)
Section registry.
Context (missing refused : option str).

Definition served (d : str) : option str := List.find (fun f => bool_decide (digest_of f = d) && negb (bool_decide (Some f = missing))) ModelLayout.files.
Definition serve (d : str) : result DistError str := ok_or (served d) (Dist_NotFound "404").

Lemma served_digest d f : served d = Some f -> digest_of f = d.
Proof. intros [_ H]%find_some. apply andb_true_iff in H as [H _]. by apply bool_decide_eq_true in H. Qed.

#[refine] Instance registry : Distribution := {|
  Reference := option str; whole := fun _ => "example.org/img:1"; ref_digest := id; clone_with_digest := fun _ d => Some d;
  at_digest := fun _ d => Some d; at_tag := fun _ _ => None; Net := nat;
  net_auth := fun _ _ _ n => (Ok tt, n);
  pull_manifest_raw := fun r _ _ n => let d := default (digest_of "I") r in (f ← serve d; Ok (f, d), S n);
  pull_blob := fun _ d n => match serve (desc_digest d) with Ok f => ([f], Ok tt, S n) | Err e => ([], Err e, S n) end;
  push_blob_stream := fun _ cs _ n => (if forallb is_ok cs then Ok tt else Err (Dist_Other "aborted"), S n);
  push_manifest_raw := fun _ b _ n => (if bool_decide (Some b = refused) then Err (Dist_Other "500") else Ok tt, S n);
  pull_referrers := fun _ _ n => (Err (Dist_NotFound "404"), S n);
  read_answers := fun _ => [Read_Interrupted; Read_Short 0]; header_ok := fun _ => true; declared_media_type := fun _ => None;
  referrers_text := fun _ => []; parse_referrers := fun _ => None
|}.
Proof.
  - done.
  - intros r a acc n bytes d n' p [= H _] Hr. cbn in Hr. subst r. cbn in H. destruct (serve p); [|done]. by injection H.
  - intros r cs d n e n' He [= H _]. destruct (forallb is_ok cs) eqn:E; [|done]. rewrite forallb_forall in E. specialize (E (Err e) ltac:(by apply list_elem_of_In)). done.
Defined.
End registry.

Definition rank (b : str) : nat := if decide (b = "I") then 1 else 0.
Lemma rank_child b es e b' : ModelLayout.parse b = Some (OciManifest_ImageIndex es) -> e ∈ es -> digest_of b' = ie_digest e -> (rank b' < rank b)%nat.
Proof.
  unfold ModelLayout.parse. destruct (decide (b = "M")); [done|]. destruct (decide (b = "I")) as [->|]; [|done]. intros [= <-] ->%list_elem_of_singleton Hd.
  assert (b' = "M") as -> by (by apply ModelLayout.hexify_inj, (app_inv_head (bytes_of "sha256:"))). unfold rank. rewrite decide_False by done. rewrite decide_True by done. lia.
Qed.

Definition start (L : ImageLayout) (missing refused : option str) : @CState (registry missing refused) :=
  {| c_layout := L; c_net := 0 : @Net (registry missing refused); c_uploads := [] |}.

Lemma pull_complete_witness : exists fuel res s',
  @pull (registry None None) hex ModelLayout.parse fuel None Auth_Anonymous (start empty_layout None None) = (Val res, s') /\ addressed hex (c_layout s').
Proof.
  destruct (@pull_complete (registry None None) hex ModelLayout.parse ModelLayout.hexify_name ModelLayout.hexify_inj rank rank_child None Auth_Anonymous
    (start empty_layout None None)) as (fuel & H).
  - apply map_Forall_empty.
  - destruct (H fuel (le_n _)) as (res & s' & E & HA & _). exists fuel, res, s'. split; [exact E|exact HA].
Defined.

Lemma push_ordered_witness : exists fuel res s',
  @push (registry None None) hex ModelLayout.parse fuel None "img" Auth_Anonymous (start ModelLayout.layout None None) = (Val res, s')
  /\ @ordered (registry None None) hex ModelLayout.parse ModelLayout.layout (c_uploads s').
Proof.
  destruct (@push_ordered (registry None None) hex ModelLayout.parse rank rank_child None "img" Auth_Anonymous (start ModelLayout.layout None None)) as (fuel & H).
  - reflexivity.
  - destruct (H fuel (le_n _)) as (res & s' & E & _ & HO & _). exists fuel, res, s'. split; [exact E|exact HO].
Defined.

(** The image is pulled: its layer can be read. *)
Example pulled :
  match @pull (registry None None) hex ModelLayout.parse 3 None Auth_Anonymous (start empty_layout None None) with
  | (Val (Ok e), s') => e = {| ie_media_type := OCI_IMAGE_INDEX_MEDIA_TYPE; ie_digest := digest_of "I"; ie_size := 1; ie_platform := None; ie_annotations := None |}
      /\ read_blob hex (c_layout s') (digest_of "l") = Ok (bytes_of "l")
  | _ => False
  end.
Proof. vm_compute. done. Qed.

(** A blob the registry does not have is an error that stays, and is asked for three times. *)
Example missing_blob_retried :
  match @pull (registry (Some ("l" : str)) None) hex ModelLayout.parse 3 None Auth_Anonymous (start empty_layout (Some ("l" : str)) None) with
  | (Val (Err e), s') => e = RegistryError_Distribution "404" /\ c_net s' = 6
  | _ => False
  end.
Proof. vm_compute. done. Qed.

(** The bytes uploaded, and for a manifest its reference. *)
Definition shown {missing refused} (u : @Upload (registry missing refused)) : option (option str) * str :=
  match u with Up_Blob _ b => (None, b) | Up_Manifest r b => (Some r, b) end.

(** Children are uploaded under the reference of the index: when the upload of the index fails, the tag
    names one of its images. *)
Example tag_left_on_child :
  match @push (registry None (Some ("I" : str))) hex ModelLayout.parse 3 None "img" Auth_Anonymous (start ModelLayout.layout None (Some ("I" : str))) with
  | (Val (Err e), s') => shown <$> c_uploads s' = [(None, "c" : str); (None, "l" : str); (Some None, "M" : str)]
  | _ => False
  end.
Proof. vm_compute. done. Qed.
End ClientExample.
