(* ===== verification/ProcessRegistry.v ===== *)
(** * ProcessRegistry: the record of builds and runs
    (src/cli/process.rs and src/cli/ps.rs).

    Every build and run has a file of its own in a directory, written when it
    starts and when it ends; [umf ps] lists them and removes those that ended.
    The files are a map from names to contents.  Every call on them may fail, as
    a list of faults to come says; a call that fails has no effect.  The text of
    a record is a class. *)

From Stdlib Require Import ZifyBool Sorted.
From stdpp Require Import gmap list.
From S2P Require Import Prelude RustStr RustStrFacts Target Ssrf HostFs Disk.
#[local] Open Scope Z_scope.

(** ** Records (process.rs) *)

Inductive ProcessKind := ProcessKind_Build | ProcessKind_Container | ProcessKind_Vm.
Inductive ProcessStatus := ProcessStatus_Running | ProcessStatus_Exited | ProcessStatus_Failed.
#[export] Instance ProcessStatus_eq_dec : EqDecision ProcessStatus.
Proof. solve_decision. Defined.

Definition ProcessKind_as_str (k : ProcessKind) : str :=
  match k with ProcessKind_Build => "build" | ProcessKind_Container => "container" | ProcessKind_Vm => "vm" end.
Definition ProcessStatus_as_str (s : ProcessStatus) : str :=
  match s with ProcessStatus_Running => "running" | ProcessStatus_Exited => "exited" | ProcessStatus_Failed => "failed" end.

Record ProcessRecord := {
  pr_id : str;
  pr_name : str;
  pr_process : str;
  pr_kind : ProcessKind;
  pr_status : ProcessStatus;
  pr_exit_code : option Z;
  pr_release : option str;
  pr_reference : option str;
  pr_pid : Z;
  pr_started : N;
  pr_finished : option N
}.

(** The text of a record: serde's derived encoder and decoder. *)
Class RecordText := {
  to_json : ProcessRecord -> str;
  from_json : str -> option ProcessRecord;
  json_roundtrip : forall r, from_json (to_json r) = Some r
}.

(** The bits of a number, in hexadecimal digits. *)
Definition gen_id (nanos pid seq : Z) : str :=
  hex_fixed 8 (Z.land nanos 4294967295) ++ hex_fixed 4 (Z.land pid 65535) ++ hex_fixed 4 (Z.land seq 65535).

(** ** The directory *)

Definition push_path (base name : str) : str :=
  if bool_decide (base = []) || ends_with_byte "/" base then base ++ name else base ++ "/" ++ name.
Definition no_state_dir : IoError := OtherIo "cannot locate state dir: neither XDG_STATE_HOME nor HOME is set".

(** [open]: the directory, from the environment. *)
Definition registry_dir (xdg_state_home home : option str) : result IoError str :=
  base ← match xdg_state_home with
         | Some (_ :: _ as p) => Ok p
         | _ => match home with Some h => Ok (push_path h ".local/state") | None => Err no_state_dir end
         end;
  Ok (push_path (push_path base "umf") "processes").

Record Registry := { files : gmap str str; faults : list bool }.
Definition reg (A : Type) : Type := Registry -> result IoError A * Registry.
#[export] Instance reg_ret : MRet reg := fun A a s => (Ok a, s).
#[export] Instance reg_bind : MBind reg := fun A B k m s =>
  match m s with (Ok a, s) => k a s | (Err e, s) => (Err e, s) end.

Lemma reg_bind_eq {A B} (m : reg A) (k : A -> reg B) s :
  (m ≫= k) s = match m s with (Ok a, s) => k a s | (Err e, s) => (Err e, s) end.
Proof. reflexivity. Qed.

(** A call of the operating system. *)
Definition sys {A} (op : gmap str str -> result IoError A * gmap str str) : reg A := fun s =>
  match faults s with
  | true :: fl => (Err (OtherIo "I/O error"), {| files := files s; faults := fl |})
  | fl => ((op (files s)).1, {| files := (op (files s)).2; faults := tail fl |})
  end.

Definition fs_write (name bytes : str) : reg unit := sys (fun m => (Ok tt, <[name := bytes]> m)).
Definition fs_read (name : str) : reg str := sys (fun m => (ok_or (m !! name) NotFound, m)).
Definition fs_rename (old new : str) : reg unit := sys (fun m =>
  match m !! old with Some b => (Ok tt, <[new := b]> (delete old m)) | None => (Err NotFound, m) end).
Definition fs_remove (name : str) : reg unit := sys (fun m =>
  match m !! name with Some _ => (Ok tt, delete name m) | None => (Err NotFound, m) end).
Definition fs_list : reg (list str) := sys (fun m => (Ok (map_to_list m).*1, m)).

Section registry.
Context {RT : RecordText}.

Definition record_path (id : str) : str := id ++ ".json".
Definition temp_path (id : str) : str := "." ++ id ++ ".tmp".

Definition reg_write (r : ProcessRecord) : reg unit :=
  _ ← fs_write (temp_path (pr_id r)) (to_json r); fs_rename (temp_path (pr_id r)) (record_path (pr_id r)).

(** [Path::extension] is [json]. *)
Definition is_json (name : str) : bool := match strip_suffix ".json" name with Some (_ :: _) => true | _ => false end.

Definition set_status (status : ProcessStatus) (code : option Z) (finished : option N) (r : ProcessRecord) : ProcessRecord :=
  {| pr_id := pr_id r; pr_name := pr_name r; pr_process := pr_process r; pr_kind := pr_kind r; pr_status := status; pr_exit_code := code;
     pr_release := pr_release r; pr_reference := pr_reference r; pr_pid := pr_pid r; pr_started := pr_started r; pr_finished := finished |}.

(** [m], whose errors are dropped. *)
Definition best_effort (m : reg unit) : reg unit := fun s => (Ok tt, (m s).2).

(** ** Listing *)

Section listing.
Context (now_epoch : N) (pid_alive : Z -> bool).

Definition is_stale (r : ProcessRecord) : bool :=
  bool_decide (pr_status r = ProcessStatus_Running) && negb (pid_alive (pr_pid r)).
Definition reconciled (r : ProcessRecord) : ProcessRecord :=
  if is_stale r
  then set_status ProcessStatus_Failed (pr_exit_code r) (Some (default now_epoch (pr_finished r))) r
  else r.

(** The record of one file, if it has one. *)
Definition list_entry (name : str) : reg (option ProcessRecord) := fun s =>
  if negb (is_json name) then (Ok None, s)
  else match fs_read name s with
       | (Err _, s) => (Ok None, s)
       | (Ok bytes, s) =>
           match from_json bytes with
           | None => (Ok None, s)
           | Some r => ((if is_stale r then best_effort (reg_write (reconciled r)) else mret tt) ≫= fun _ => mret (Some (reconciled r))) s
           end
       end.

Fixpoint list_entries (names : list str) : reg (list ProcessRecord) :=
  match names with
  | [] => mret []
  | name :: names => r ← list_entry name; rs ← list_entries names; mret (option_list r ++ rs)
  end.

Definition reg_list : reg (list ProcessRecord) := names ← fs_list; list_entries names.

Definition reg_remove (id : str) : reg unit := fun s =>
  match fs_remove (record_path id) s with
  | (Err NotFound, s) => (Ok tt, s)
  | r => r
  end.
End listing.

(** ** The recorder of a run *)

Record RunningGuard := { g_record : option ProcessRecord; g_finished : bool }.

(** [opened] is whether the registry's directory could be opened. *)
Definition guard_start (opened : bool) (id : str) (pid : Z) (started : N) (kind : ProcessKind) (name process : str)
    (reference release : option str) (s : Registry) : RunningGuard * Registry :=
  let record := {| pr_id := id; pr_name := name; pr_process := process; pr_kind := kind; pr_status := ProcessStatus_Running;
                   pr_exit_code := None; pr_release := release; pr_reference := reference; pr_pid := pid; pr_started := started;
                   pr_finished := None |} in
  if opened then
    match reg_write record s with
    | (Ok _, s) => ({| g_record := Some record; g_finished := false |}, s)
    | (Err _, s) => ({| g_record := None; g_finished := false |}, s)
    end
  else ({| g_record := None; g_finished := false |}, s).

Definition finalize (status : ProcessStatus) (code : option Z) (now : N) (g : RunningGuard) (s : Registry) : RunningGuard * Registry :=
  match g_record g with
  | None => (g, s)
  | Some r =>
      if g_finished g then (g, s)
      else
        let r := set_status status code (Some now) r in
        ({| g_record := Some r; g_finished := true |}, (reg_write r s).2)
  end.

Definition guard_drop (now : N) (g : RunningGuard) (s : Registry) : Registry := (finalize ProcessStatus_Failed None now g s).2.
(** [exited] and [failed] take the guard, which is dropped at their end. *)
Definition guard_exited (code : Z) (now : N) (g : RunningGuard) (s : Registry) : Registry :=
  let '(g, s) := finalize ProcessStatus_Exited (Some code) now g s in guard_drop now g s.
Definition guard_failed (now : N) (g : RunningGuard) (s : Registry) : Registry :=
  let '(g, s) := finalize ProcessStatus_Failed None now g s in guard_drop now g s.
End registry.

(** ** umf ps: filters and order (ps.rs) *)

Definition KEYS : list str := ["id" : str; "name" : str; "process" : str; "type" : str; "status" : str; "release" : str; "started" : str].

Definition field (r : ProcessRecord) (key : str) : str :=
  if bool_decide (key = ("id" : str)) then pr_id r
  else if bool_decide (key = ("name" : str)) then pr_name r
  else if bool_decide (key = ("process" : str)) then pr_process r
  else if bool_decide (key = ("type" : str)) then ProcessKind_as_str (pr_kind r)
  else if bool_decide (key = ("status" : str)) then ProcessStatus_as_str (pr_status r)
  else if bool_decide (key = ("release" : str)) then default [] (pr_release r)
  else if bool_decide (key = ("started" : str)) then to_decimal (pr_started r)
  else [].

Definition parse_clause (clause : str) : result str (str * str) :=
  match (match split_once "=" clause with Some kv => Some kv | None => split_once ":" clause end) with
  | None => Err ("invalid filter `" ++ clause ++ "` — expected KEY=VALUE (e.g. STATUS=exited)")
  | Some (key, value) =>
      let key := to_ascii_lowercase (trim key) in
      if bool_decide (key ∈ KEYS) then Ok (key, trim value)
      else Err ("unknown filter key `" ++ key ++ "` — valid keys: " ++ join ", " KEYS)
  end.
Definition clauses (spec : str) : list str := filter (fun c => c <> []) (trim <$> split "," spec).
Fixpoint parse_clauses (cs : list str) : result str (list (str * str)) :=
  match cs with
  | [] => Ok []
  | c :: cs => kv ← parse_clause c; kvs ← parse_clauses cs; Ok (kv :: kvs)
  end.
Definition parse_filters (filters : list str) : result str (list (str * str)) := parse_clauses (concat (clauses <$> filters)).

Definition matches (r : ProcessRecord) (key value : str) : bool :=
  if bool_decide (to_ascii_lowercase value = ("all" : str)) || bool_decide (value = ("*" : str)) then true
  else contains (to_ascii_lowercase value) (to_ascii_lowercase (field r key)).
Definition selected (criteria : list (str * str)) (r : ProcessRecord) : bool := forallb (fun '(k, v) => matches r k v) criteria.

Definition parse_sort (sort : option str) : result str (str * bool) :=
  match trim <$> sort with
  | None | Some [] => Ok ("started" : str, true)
  | Some raw =>
      let lower := to_ascii_lowercase raw in
      if bool_decide (lower = ("asc" : str)) then Ok ("started" : str, false)
      else if bool_decide (lower = ("desc" : str)) then Ok ("started" : str, true)
      else
        let '(key, dir) := match split_once ":" lower with Some (k, d) => (k, Some d) | None => (lower, None) end in
        if negb (bool_decide (key ∈ KEYS))
        then Err ("unknown sort key `" ++ key ++ "` — valid keys: " ++ join ", " KEYS ++ " (optionally `:asc`/`:desc`)")
        else match dir with
             | None => Ok (key, false)
             | Some d =>
                 if bool_decide (d = ("asc" : str)) then Ok (key, false)
                 else if bool_decide (d = ("desc" : str)) then Ok (key, true)
                 else Err ("unknown sort direction `" ++ d ++ "` — use asc or desc")
             end
  end.

(** [a] may come before [b]. *)
Definition before (key : str) (a b : ProcessRecord) : bool :=
  if bool_decide (key = ("started" : str)) then (pr_started a <=? pr_started b)%N
  else str_leb (to_ascii_lowercase (field a key)) (to_ascii_lowercase (field b key)).
Definition in_order (key : str) (descending : bool) (a b : ProcessRecord) : bool := if descending then before key b a else before key a b.

(** A stable sort, as [slice::sort_by] is. *)
Fixpoint insert_record (le : ProcessRecord -> ProcessRecord -> bool) (r : ProcessRecord) (rs : list ProcessRecord) : list ProcessRecord :=
  match rs with
  | [] => [r]
  | r' :: rs' => if le r r' then r :: rs else r' :: insert_record le r rs'
  end.
Definition sort_records (key : str) (descending : bool) (rs : list ProcessRecord) : list ProcessRecord :=
  foldr (insert_record (in_order key descending)) [] rs.

(** ** umf ps: the table *)

Definition COLUMNS : list (str * str) :=
  [("ID" : str, "id" : str); ("NAME" : str, "name" : str); ("PROCESS" : str, "process" : str); ("TYPE" : str, "type" : str);
   ("STATUS" : str, "status" : str); ("RELEASE" : str, "release" : str); ("STARTED" : str, "started" : str)].

Definition age (now epoch : N) : str :=
  let secs := (now - epoch)%N in
  if (secs <? 60)%N then to_decimal secs ++ "s ago"
  else if (secs <? 3600)%N then to_decimal (secs / 60) ++ "m ago"
  else if (secs <? 86400)%N then to_decimal (secs / 3600) ++ "h ago"
  else to_decimal (secs / 86400) ++ "d ago".

Definition i32_text (z : Z) : str := if z <? 0 then "-" ++ to_decimal (Z.to_N (- z)) else to_decimal (Z.to_N z).

Definition cell (now : N) (r : ProcessRecord) (key : str) : str :=
  if bool_decide (key = ("status" : str)) then
    match pr_status r, pr_exit_code r with
    | ProcessStatus_Exited, Some code => "exited (" ++ i32_text code ++ ")"
    | s, _ => ProcessStatus_as_str s
    end
  else if bool_decide (key = ("release" : str)) then default ("-" : str) (pr_release r)
  else if bool_decide (key = ("started" : str)) then age now (pr_started r)
  else match field r key with [] => "-" | v => v end.

Definition ellipsis : str := "…".
Definition truncate (max : nat) (s : str) : str :=
  if (length (chars s) <=? max)%nat then s else concat (take (max - 1) (chars s)) ++ ellipsis.

(** ** umf ps *)

Inductive PsOutput := PsOutput_Pretty | PsOutput_Plain | PsOutput_Json.

(** What is printed: the records of a listing, or of a pruning with the number
    of those that are running. *)
Inductive Printed := Printed_Table (rs : list ProcessRecord) | Printed_Pruned (rs : list ProcessRecord) (kept_running : nat) | Printed_Error.

Section ps.
Context {RT : RecordText} (now_epoch : N) (pid_alive : Z -> bool).

(** The records removed, the number of those running, and of errors. *)
Fixpoint prune_loop (rs : list ProcessRecord) (s : Registry) : list ProcessRecord * nat * nat * Registry :=
  match rs with
  | [] => ([], 0%nat, 0%nat, s)
  | r :: rs =>
      if bool_decide (pr_status r = ProcessStatus_Running) then
        let '(pruned, kept, errors, s) := prune_loop rs s in (pruned, S kept, errors, s)
      else
        match reg_remove (pr_id r) s with
        | (Ok _, s) => let '(pruned, kept, errors, s) := prune_loop rs s in (r :: pruned, kept, errors, s)
        | (Err _, s) => let '(pruned, kept, errors, s) := prune_loop rs s in (pruned, kept, S errors, s)
        end
  end.
Definition do_prune (rs : list ProcessRecord) (s : Registry) : bool * Printed * Registry :=
  let '(pruned, kept, errors, s) := prune_loop rs s in ((errors =? 0)%nat, Printed_Pruned pruned kept, s).

(** Whether it succeeds, what it prints, and the directory. *)
Definition run_ps (opened : bool) (sort : option str) (filters : list str) (prune : bool) (s : Registry) : bool * Printed * Registry :=
  if negb opened then (false, Printed_Error, s)
  else match reg_list now_epoch pid_alive s with
       | (Err _, s) => (false, Printed_Error, s)
       | (Ok records, s) =>
           match parse_filters filters with
           | Err _ => (false, Printed_Error, s)
           | Ok criteria =>
               match parse_sort sort with
               | Err _ => (false, Printed_Error, s)
               | Ok (key, descending) =>
                   let records := sort_records key descending (filter (fun r => selected criteria r = true) records) in
                   if prune then do_prune records s else (true, Printed_Table records, s)
               end
           end
       end.
End ps.

(** ** Names *)

Lemma is_json_record id : id <> [] -> is_json (record_path id) = true.
Proof. intros H. unfold is_json, record_path. rewrite strip_suffix_app. by destruct id. Qed.
Lemma is_json_temp id : is_json (temp_path id) = false.
Proof.
  unfold is_json, temp_path, strip_suffix. rewrite app_assoc, rev_app_distr. reflexivity.
Qed.
#[export] Instance record_path_inj : Inj (=) (=) record_path.
Proof. intros a b. apply (inj (fun x => x ++ (".json" : str))). Qed.

(** The numbers of guards of one process, below 2^16, give different names. *)
Lemma gen_id_distinct pid n1 n2 s1 s2 : 0 <= s1 < 65536 -> 0 <= s2 < 65536 ->
  gen_id n1 pid s1 = gen_id n2 pid s2 -> s1 = s2.
Proof.
  intros H1 H2 E. unfold gen_id in E. rewrite !(app_assoc (hex_fixed 8 _)) in E. apply app_inj_2 in E as [_ E]; [|by rewrite !hex_fixed_length].
  apply hex_fixed_inj in E.
  - by rewrite !(Z.land_ones _ 16), !Z.mod_small in E by lia.
  - rewrite (Z.land_ones _ 16) by lia. apply Z.mod_pos_bound. lia.
  - rewrite (Z.land_ones _ 16) by lia. apply Z.mod_pos_bound. lia.
Qed.

(** ** Order *)

Lemma str_leb_total a : forall b, str_leb a b = false -> str_leb b a = true.
Proof.
  induction a as [|x a IH]; intros [|y b]; cbn; try done. rewrite orb_false_iff, andb_false_iff, N.ltb_ge, N.eqb_neq. intros [Hl He].
  apply orb_true_iff. destruct (decide (code x = code y)) as [E|E].
  - right. rewrite E, N.eqb_refl. cbn. apply IH. destruct He as [He|He]; [done|exact He].
  - left. apply N.ltb_lt. lia.
Qed.

Lemma in_order_total key d a b : in_order key d a b = false -> in_order key d b a = true.
Proof.
  unfold in_order, before. destruct d; case_bool_decide; rewrite ?N.leb_gt, ?N.leb_le; try lia; apply str_leb_total.
Qed.

Lemma insert_record_perm le r rs : insert_record le r rs ≡ₚ r :: rs.
Proof. induction rs as [|x rs IH]; [done|]. cbn. destruct (le r x); [done|]. rewrite IH. apply Permutation_swap. Qed.
Lemma sort_records_perm key d rs : sort_records key d rs ≡ₚ rs.
Proof. induction rs as [|r rs IH]; [done|]. cbn. rewrite insert_record_perm. by f_equiv. Qed.

Lemma insert_record_sorted key d r rs :
  Sorted (fun a b => in_order key d a b = true) rs -> Sorted (fun a b => in_order key d a b = true) (insert_record (in_order key d) r rs).
Proof.
  induction 1 as [|x rs Hs IH Hx]; [by repeat constructor|]. cbn. destruct (in_order key d r x) eqn:E; [by repeat constructor|].
  apply in_order_total in E. constructor; [done|]. destruct rs as [|y rs]; cbn; [by constructor|].
  inversion Hx; subst. by destruct (in_order key d r y); constructor.
Qed.
Lemma sort_records_sorted key d rs : Sorted (fun a b => in_order key d a b = true) (sort_records key d rs).
Proof. induction rs as [|r rs IH]; cbn; [constructor|by apply insert_record_sorted]. Qed.

(** ** What the operations do to the files *)

Section facts.
Context {RT : RecordText} (now_epoch : N) (pid_alive : Z -> bool).

(** Every file with a record has the name of its record. *)
Definition named (m : gmap str str) : Prop :=
  forall f b r, m !! f = Some b -> is_json f = true -> from_json b = Some r -> f = record_path (pr_id r).

Abbreviation quiet m := {| files := m; faults := [] |}.

Lemma reg_write_cases r s :
  let m := files s in
  let m' := files (reg_write r s).2 in
  m' = m \/ m' = <[temp_path (pr_id r) := to_json r]> m
  \/ m' = <[record_path (pr_id r) := to_json r]> (delete (temp_path (pr_id r)) (<[temp_path (pr_id r) := to_json r]> m)).
Proof.
  unfold reg_write. rewrite reg_bind_eq. unfold fs_write, fs_rename, sys.
  destruct (faults s) as [|[] fl]; cbn; [|by left|]; [|destruct fl as [|[] fl]; cbn; [|by right; left|]];
    rewrite lookup_insert_eq; cbn; by right; right.
Qed.

Lemma reg_write_quiet r m :
  reg_write r (quiet m) = (Ok tt, quiet (<[record_path (pr_id r) := to_json r]> (delete (temp_path (pr_id r)) m))).
Proof.
  unfold reg_write. rewrite reg_bind_eq. unfold fs_write, fs_rename, sys. cbn. rewrite lookup_insert_eq. cbn. by rewrite delete_insert_eq.
Qed.

(** A write changes the file of its record only, among those that count. *)
Lemma reg_write_other r s f : is_json f = true -> f <> record_path (pr_id r) -> files (reg_write r s).2 !! f = files s !! f.
Proof.
  intros Hf Hne. assert (f <> temp_path (pr_id r)) by (intros ->; by rewrite is_json_temp in Hf).
  destruct (reg_write_cases r s) as [-> |[-> | ->]]; [done| |]; rewrite ?lookup_insert_ne, ?lookup_delete_ne, ?lookup_insert_ne by done; done.
Qed.

Lemma reg_write_named r s : named (files s) -> named (files (reg_write r s).2).
Proof.
  intros H f b r' Hb Hf Hr. destruct (decide (f = record_path (pr_id r))) as [->|Hne].
  - destruct (reg_write_cases r s) as [E|[E|E]]; rewrite E in Hb.
    + by eapply H.
    + rewrite lookup_insert_ne in Hb by (intros E'; rewrite <- E' in Hf; by rewrite is_json_temp in Hf). by eapply H.
    + rewrite lookup_insert_eq in Hb. simplify_eq. rewrite json_roundtrip in Hr. by simplify_eq.
  - rewrite reg_write_other in Hb by done. by eapply H.
Qed.

Lemma reconciled_id r : pr_id (reconciled now_epoch pid_alive r) = pr_id r.
Proof. unfold reconciled. by destruct (is_stale pid_alive r). Qed.

(** The record a file stands for in a listing, and what a listing leaves in it. *)
Definition listed (m : gmap str str) (name : str) : option ProcessRecord :=
  if is_json name then reconciled now_epoch pid_alive <$> (m !! name ≫= from_json) else None.
Definition rewritten (b : str) : str :=
  match from_json b with
  | Some r => if is_stale pid_alive r then to_json (reconciled now_epoch pid_alive r) else b
  | None => b
  end.

Lemma list_entry_quiet name m : named m -> exists m',
  list_entry now_epoch pid_alive name (quiet m) = (Ok (listed m name), quiet m') /\ named m'
  /\ forall f, is_json f = true -> m' !! f = if decide (f = name) then rewritten <$> m !! f else m !! f.
Proof.
  intros Hn. unfold list_entry, listed. destruct (is_json name) eqn:Hj; cbn [negb].
  2:{ exists m. split_and!; [done|done|]. intros f Hf. destruct (decide (f = name)) as [->|]; [congruence|done]. }
  unfold fs_read, sys. cbn. destruct (m !! name) as [b|] eqn:Hb; cbn.
  2:{ exists m. split_and!; [done|done|]. intros f _. destruct (decide (f = name)) as [->|]; [by rewrite Hb|done]. }
  assert (Hkeep : (forall r, from_json b = Some r -> is_stale pid_alive r = false) ->
    forall f, is_json f = true -> m !! f = if decide (f = name) then rewritten <$> m !! f else m !! f).
  { intros Hr f _. destruct (decide (f = name)) as [->|]; [|done]. rewrite Hb. cbn. unfold rewritten.
    destruct (from_json b) as [r|]; [by rewrite Hr|done]. }
  destruct (from_json b) as [r|] eqn:Hr; [|exists m; split_and!; [done|done|by apply Hkeep]].
  destruct (is_stale pid_alive r) eqn:Hs; [|exists m; split_and!; [done|done|apply Hkeep; by intros ? [= <-]]].
  rewrite reg_bind_eq. unfold best_effort. set (r' := reconciled now_epoch pid_alive r).
  pose proof (reg_write_other r' (quiet m)) as Ho. pose proof (reg_write_named r' (quiet m) Hn) as Hn'.
  assert (Ew := reg_write_quiet r' m). rewrite Ew in Ho, Hn'. rewrite Ew. cbn in Ho, Hn' |- *. eexists. split_and!; [reflexivity|done|].
  intros f Hf. assert (name = record_path (pr_id r')) as E by (unfold r'; rewrite reconciled_id; by eapply Hn).
  destruct (decide (f = name)) as [->|Hne]; [|by apply Ho; rewrite <- ?E].
  rewrite <- E at 1. rewrite lookup_insert_eq, Hb. cbn. unfold rewritten. by rewrite Hr, Hs.
Qed.

Lemma list_entries_quiet names : forall m, named m -> NoDup names -> exists m',
  list_entries now_epoch pid_alive names (quiet m) = (Ok (omap (listed m) names), quiet m') /\ named m'
  /\ forall f, is_json f = true -> m' !! f = if decide (f ∈ names) then rewritten <$> m !! f else m !! f.
Proof.
  induction names as [|name names IH]; intros m Hn Hd.
  { exists m. split_and!; [done|done|]. intros f _. by destruct (decide (f ∈ [])) as [?%not_elem_of_nil|]. }
  apply NoDup_cons in Hd as [Hnot Hd]. destruct (list_entry_quiet name m Hn) as (m1 & E1 & Hn1 & H1).
  destruct (IH m1 Hn1 Hd) as (m2 & E2 & Hn2 & H2). exists m2. cbn [list_entries]. rewrite reg_bind_eq, E1, reg_bind_eq, E2.
  assert (El : omap (listed m1) names = omap (listed m) names).
  { clear -Hnot H1. assert (Hl : forall n, n ∈ names -> listed m1 n = listed m n).
    { intros n Hin. unfold listed. destruct (is_json n) eqn:Hj; [|done]. rewrite H1 by done. destruct (decide (n = name)) as [->|]; done. }
    clear H1 Hnot. induction names as [|n names IH]; [done|]. cbn. rewrite Hl by left. rewrite IH; [done|]. intros x Hx. apply Hl. by right. }
  split_and!; [|done|].
  - rewrite El. cbn. unfold mret, reg_ret. cbn. by destruct (listed m name).
  - intros f Hf. rewrite H2, H1 by done. destruct (decide (f ∈ name :: names)) as [Hi|Hi], (decide (f ∈ names)) as [Hi'|Hi'],
      (decide (f = name)) as [Hn'|Hn']; subst; try done; set_solver.
Qed.

(** ** Pruning *)

Definition finished (r : ProcessRecord) : bool := negb (bool_decide (pr_status r = ProcessStatus_Running)).

Lemma reg_remove_quiet id m : reg_remove id (quiet m) = (Ok tt, quiet (delete (record_path id) m)).
Proof.
  unfold reg_remove, fs_remove, sys. cbn. destruct (m !! record_path id) eqn:E; cbn; [done|]. by rewrite delete_id.
Qed.

(** A record that a pruning removes, under the name [f]. *)
Definition removes (f : str) (r : ProcessRecord) : Prop := finished r = true /\ record_path (pr_id r) = f.

Lemma prune_loop_quiet rs : forall m, exists pruned kept m',
  prune_loop rs (quiet m) = (pruned, kept, 0%nat, quiet m')
  /\ forall f, (Exists (removes f) rs -> m' !! f = None) /\ (~ Exists (removes f) rs -> m' !! f = m !! f).
Proof.
  induction rs as [|r rs IH]; intros m.
  { exists [], 0%nat, m. split; [done|]. intros f. split; [by intros ?%Exists_nil|done]. }
  cbn [prune_loop]. case_bool_decide as Hr.
  - destruct (IH m) as (p & k & m' & -> & H). eexists _, _, _. split; [done|]. intros f. rewrite Exists_cons.
    assert (~ removes f r) by (intros [Hf _]; unfold finished in Hf; by rewrite bool_decide_true in Hf). destruct (H f). tauto.
  - rewrite reg_remove_quiet. destruct (IH (delete (record_path (pr_id r)) m)) as (p & k & m' & -> & H).
    eexists _, _, _. split; [done|]. intros f. destruct (H f) as [H1 H2]. rewrite Exists_cons.
    destruct (decide (Exists (fun r => bool_decide (removes f r) = true) rs)) as [He|He].
    all: assert (Hx : Exists (fun r => bool_decide (removes f r) = true) rs <-> Exists (removes f) rs)
      by (rewrite !Exists_exists; setoid_rewrite bool_decide_eq_true; done).
    + rewrite Hx in He. split; [intros _; by apply H1|tauto].
    + rewrite Hx in He. rewrite H2 by done. split.
      * intros [[_ <-]|]; [by rewrite lookup_delete_eq|done].
      * intros Hn. rewrite lookup_delete_ne; [done|]. intros E. apply Hn. left. split; [|done]. unfold finished. by rewrite bool_decide_false.
Qed.

Lemma Exists_sorted f key d criteria rs :
  Exists (removes f) (sort_records key d (filter (fun r => selected criteria r = true) rs))
  <-> exists r, r ∈ rs /\ selected criteria r = true /\ removes f r.
Proof.
  rewrite Exists_exists. split.
  - intros (r & Hr & Hm). rewrite sort_records_perm in Hr. apply list_elem_of_filter in Hr as [Hs Hr]. eauto.
  - intros (r & Hr & Hs & Hm). exists r. split; [|done]. rewrite sort_records_perm. by apply list_elem_of_filter.
Qed.

(** ** With faults *)

(** The record of a process that is running, under its name. *)
Definition kept (f b : str) (m : gmap str str) : Prop := named m /\ m !! f = Some b.

Section live.
Context (f b : str) (r : ProcessRecord).
Context (Hf : is_json f = true) (Hr : from_json b = Some r) (Hs : pr_status r = ProcessStatus_Running) (Ha : pid_alive (pr_pid r) = true).

Lemma list_entry_kept name s : kept f b (files s) ->
  exists o s', list_entry now_epoch pid_alive name s = (Ok o, s') /\ kept f b (files s')
  /\ forall r', o = Some r' -> record_path (pr_id r') = f -> pr_status r' = ProcessStatus_Running.
Proof.
  intros [Hn Hb]. unfold list_entry. destruct (is_json name) eqn:Hj; cbn [negb]; [|by eexists _, _; split_and!].
  unfold fs_read, sys. destruct (faults s) as [|[] fl]; cbn; [|by eexists _, _; split_and!|].
  all: destruct (files s !! name) as [b'|] eqn:Hb'; cbn; [|by eexists _, _; split_and!].
  all: destruct (from_json b') as [r0|] eqn:Hr0; cbn; [|by eexists _, _; split_and!].
  all: assert (name = record_path (pr_id r0)) as En by by eapply Hn.
  all: assert (Hlive : name = f -> is_stale pid_alive r0 = false)
    by (intros ->; assert (r0 = r) as -> by congruence; unfold is_stale; by rewrite Ha, andb_false_r).
  all: assert (Hrun : forall r', Some (reconciled now_epoch pid_alive r0) = Some r' -> record_path (pr_id r') = f -> pr_status r' = ProcessStatus_Running)
    by (intros r' [= <-] E; rewrite reconciled_id, <- En in E; unfold reconciled; rewrite Hlive by done; subst; by assert (r0 = r) as -> by congruence).
  all: destruct (is_stale pid_alive r0) eqn:Hst; [|by eexists _, _; split_and!].
  all: eexists _, _; split; [reflexivity|]; split; [|done]; split; [by apply reg_write_named|].
  all: cbn; rewrite reg_write_other; [done|done|]; rewrite reconciled_id, <- En; intros <-; by specialize (Hlive eq_refl).
Qed.

Lemma list_entries_kept names : forall s, kept f b (files s) ->
  exists rs s', list_entries now_epoch pid_alive names s = (Ok rs, s') /\ kept f b (files s')
  /\ forall r', r' ∈ rs -> record_path (pr_id r') = f -> pr_status r' = ProcessStatus_Running.
Proof.
  induction names as [|name names IH]; intros s H; [by eexists _, _; split_and!; [done|done|intros ? ?%not_elem_of_nil]|].
  cbn [list_entries]. destruct (list_entry_kept name s H) as (o & s1 & E1 & H1 & Ho). destruct (IH s1 H1) as (rs & s2 & E2 & H2 & Hrs).
  rewrite reg_bind_eq, E1, reg_bind_eq, E2. eexists _, _. split_and!; [done|done|]. intros r' Hi. apply elem_of_app in Hi as [Hi|Hi]; [|by apply Hrs].
  destruct o; cbn in Hi; [|by apply not_elem_of_nil in Hi]. apply list_elem_of_singleton in Hi as ->. by apply Ho.
Qed.

Lemma prune_loop_kept rs : forall s, files s !! f = Some b ->
  (forall r', r' ∈ rs -> record_path (pr_id r') = f -> pr_status r' = ProcessStatus_Running) ->
  files (prune_loop rs s).2 !! f = Some b.
Proof.
  induction rs as [|r0 rs IH]; intros s Hb Hrs; [done|]. cbn [prune_loop].
  assert (IH' : forall s, files s !! f = Some b -> files (prune_loop rs s).2 !! f = Some b) by (intros; apply IH; [done|]; intros; apply Hrs; [by right|done]).
  case_bool_decide as Hst; [specialize (IH' s Hb); by destruct (prune_loop rs s) as [[[]]]|].
  assert (Hne : record_path (pr_id r0) <> f) by (intros E; apply Hst, Hrs; [by left|done]).
  assert (Hrm : files (reg_remove (pr_id r0) s).2 !! f = Some b).
  { unfold reg_remove, fs_remove, sys. destruct (faults s) as [|[] fl]; cbn; [|done|]; destruct (files s !! record_path (pr_id r0)); cbn; try done; by rewrite lookup_delete_ne. }
  destruct (reg_remove (pr_id r0) s) as [[] s1]; specialize (IH' s1 Hrm); by destruct (prune_loop rs s1) as [[[]]].
Qed.
End live.

Lemma reg_list_quiet m : named m -> exists m',
  reg_list now_epoch pid_alive (quiet m) = (Ok (omap (listed m) (map_to_list m).*1), quiet m')
  /\ forall f, is_json f = true -> m' !! f = rewritten <$> m !! f.
Proof.
  intros Hn. destruct (list_entries_quiet (map_to_list m).*1 m Hn (NoDup_fst_map_to_list m)) as (m' & E & _ & H).
  exists m'. unfold reg_list. rewrite reg_bind_eq. cbn. split; [exact E|]. intros f Hf. rewrite H by done.
  destruct (decide (f ∈ (map_to_list m).*1)) as [Hi|Hi]; [done|]. destruct (m !! f) as [b|] eqn:Hb; [|done]. exfalso. apply Hi, list_elem_of_fmap.
  exists (f, b). split; [done|]. by apply elem_of_map_to_list.
Qed.

(** The records a listing has are those of the files. *)
Lemma listed_records m r : r ∈ omap (listed m) (map_to_list m).*1 <->
  exists f b r0, m !! f = Some b /\ is_json f = true /\ from_json b = Some r0 /\ r = reconciled now_epoch pid_alive r0.
Proof.
  rewrite list_elem_of_omap. split.
  - intros (f & _ & H). unfold listed in H. destruct (is_json f) eqn:Hf; [|done]. destruct (m !! f) as [b|] eqn:Hb; [|done]. cbn in H.
    destruct (from_json b) as [r0|] eqn:Hr; [|done]. injection H as <-. by exists f, b, r0.
  - intros (f & b & r0 & Hb & Hf & Hr & ->). exists f. split; [apply list_elem_of_fmap; exists (f, b); split; [done|by apply elem_of_map_to_list]|].
    unfold listed. by rewrite Hf, Hb; cbn; rewrite Hr.
Qed.

(** C40 (functional): [umf ps] reports a process that was killed hard as failed, and
    [--prune] removes exactly the records of processes that have ended and match the
    filters; all other records stay as they are.  This when no call of the
    operating system fails; whatever calls fail, and whatever is asked for, the
    record of a process that is still running is never changed or removed. *)
Theorem ps_prunes_finished sort filters prune :
  (forall m criteria key descending, named m -> parse_filters filters = Ok criteria -> parse_sort sort = Ok (key, descending) ->
     exists shown m', run_ps now_epoch pid_alive true sort filters prune (quiet m) = (true, shown, quiet m')
     /\ forall f b r, m !! f = Some b -> is_json f = true -> from_json b = Some r ->
          let r' := reconciled now_epoch pid_alive r in
          m' !! f = if prune && selected criteria r' && finished r' then None else Some (if is_stale pid_alive r then to_json r' else b))
  /\ (forall opened s f b r, named (files s) -> files s !! f = Some b -> is_json f = true -> from_json b = Some r ->
        pr_status r = ProcessStatus_Running -> pid_alive (pr_pid r) = true ->
        files (run_ps now_epoch pid_alive opened sort filters prune s).2 !! f = Some b).
Proof.
  split.
  - intros m criteria key d Hn Ec Es. destruct (reg_list_quiet m Hn) as (m1 & E1 & H1). unfold run_ps. cbn [negb]. rewrite E1, Ec, Es.
    assert (Hw : forall f b r, m !! f = Some b -> is_json f = true -> from_json b = Some r ->
      m1 !! f = Some (if is_stale pid_alive r then to_json (reconciled now_epoch pid_alive r) else b)).
    { intros f b r Hb Hf Hr. rewrite H1, Hb by done. cbn. unfold rewritten. by rewrite Hr. }
    destruct prune; [|by eexists _, _; split; [reflexivity|]; intros; cbn; apply Hw].
    unfold do_prune. match goal with |- context [prune_loop ?rs _] => destruct (prune_loop_quiet rs m1) as (p & k & m2 & -> & H2) end.
    eexists _, _. split; [reflexivity|]. intros f b r Hb Hf Hr. set (r' := reconciled now_epoch pid_alive r). destruct (H2 f) as [H2a H2b]. rewrite Exists_sorted in H2a, H2b.
    assert (Hr' : r' ∈ omap (listed m) (map_to_list m).*1) by (apply listed_records; by exists f, b, r).
    assert (En : f = record_path (pr_id r)) by by eapply Hn.
    destruct (selected criteria r' && finished r') eqn:E; cbn [andb]; rewrite E.
    + apply andb_true_iff in E as [Es' Ef]. apply H2a. exists r'. split_and!; [done|done|]. split; [done|]. unfold r'. by rewrite reconciled_id.
    + rewrite H2b; [by apply Hw|]. intros (r1 & Hi & Hsel & Hfin & Hp). apply listed_records in Hi as (g & b1 & r0 & Hb1 & Hg & Hr0 & ->).
      rewrite reconciled_id in Hp. assert (g = f) as -> by (rewrite <- Hp; by eapply Hn). assert (r0 = r) as -> by congruence.
      fold r' in Hsel, Hfin. by rewrite Hsel, Hfin in E.
  - intros opened s f b r Hn Hb Hf Hr Hs Ha. unfold run_ps. destruct opened; cbn [negb]; [|done].
    unfold reg_list. rewrite reg_bind_eq. unfold fs_list, sys. destruct (faults s) as [|[] fl]; cbn; [|done|].
    all: match goal with |- context [list_entries _ _ ?names ?s0] =>
           destruct (list_entries_kept f b r Hf Hr Hs Ha names s0 (conj Hn Hb)) as (rs & s' & -> & [_ Hb'] & Hrs) end.
    all: destruct (parse_filters filters) as [criteria|]; [|done]; destruct (parse_sort sort) as [[key d]|]; [|done]; destruct prune; [|done].
    all: unfold do_prune; match goal with |- context [prune_loop ?rs ?s0] => pose proof (prune_loop_kept f b rs s0 Hb') as Hp; destruct (prune_loop rs s0) as [[[]]] end.
    all: apply Hp; intros rx Hi; rewrite sort_records_perm in Hi; apply list_elem_of_filter in Hi as [_ Hi]; by apply Hrs.
Qed.

(** ** The recorder *)

Lemma guard_failed_drop t g s : guard_failed t g s = guard_drop t g s.
Proof. unfold guard_failed, guard_drop, finalize. destruct (g_record g) as [r|] eqn:E; [|by rewrite E]. destruct (g_finished g) eqn:F; [by rewrite E, F|done]. Qed.

(** A run that ends is recorded as ended, whichever way it ends, and once: the
    guard that is dropped after [exited] or [failed] changes nothing. *)
Lemma guard_recorded id pid started kind name process reference release (ending : option Z) finished m : id <> [] ->
  let '(g, s) := guard_start true id pid started kind name process reference release (quiet m) in
  exists r m', files s !! record_path id = Some (to_json r) /\ pr_status r = ProcessStatus_Running
  /\ (match ending with Some code => guard_exited code finished g s | None => guard_drop finished g s end) = quiet m'
  /\ m' !! record_path id = Some (to_json (set_status (match ending with Some _ => ProcessStatus_Exited | None => ProcessStatus_Failed end)
                                              ending (Some finished) r))
  /\ forall f, is_json f = true -> f <> record_path id -> m' !! f = m !! f.
Proof.
  intros Hid. unfold guard_start. rewrite reg_write_quiet. cbn [files pr_id].
  assert (Ht : forall x, is_json x = true -> x <> temp_path id) by (intros x Hx ->; by rewrite is_json_temp in Hx).
  destruct ending as [code|]; eexists _, _; (split; [apply lookup_insert_eq|]); (split; [reflexivity|]).
  all: unfold guard_exited, guard_drop, finalize; cbn [g_record g_finished]; rewrite reg_write_quiet; cbn [snd fst g_record g_finished].
  all: split; [reflexivity|]; split; [apply lookup_insert_eq|].
  all: intros f Hf Hne; pose proof (Ht f Hf); cbn [pr_id set_status];
    by rewrite !lookup_insert_ne, !lookup_delete_ne, !lookup_insert_ne, ?lookup_delete_ne by done.
Qed.
End facts.

(** ** A directory with records *)
Module RegistryExample.
(** Records have a code, and so a text. *)
#[local] Instance kind_eq_dec : EqDecision ProcessKind.
Proof. solve_decision. Defined.
#[local] Instance kind_countable : Countable ProcessKind.
Proof.
  by refine (inj_countable' (fun k => match k with ProcessKind_Build => 0 | ProcessKind_Container => 1 | ProcessKind_Vm => 2 end)
    (fun z => if z =? 0 then ProcessKind_Build else if z =? 1 then ProcessKind_Container else ProcessKind_Vm) _); intros [].
Defined.
#[local] Instance status_countable : Countable ProcessStatus.
Proof.
  by refine (inj_countable' (fun k => match k with ProcessStatus_Running => 0 | ProcessStatus_Exited => 1 | ProcessStatus_Failed => 2 end)
    (fun z => if z =? 0 then ProcessStatus_Running else if z =? 1 then ProcessStatus_Exited else ProcessStatus_Failed) _); intros [].
Defined.
#[local] Instance record_eq_dec : EqDecision ProcessRecord.
Proof. solve_decision. Defined.
#[local] Instance record_countable : Countable ProcessRecord.
Proof.
  by refine (inj_countable'
    (fun r => (pr_id r, pr_name r, pr_process r, pr_kind r, pr_status r, pr_exit_code r, pr_release r, pr_reference r, pr_pid r, pr_started r, pr_finished r))
    (fun '(a, b, c, d, e, f, g, h, i, j, k) =>
       {| pr_id := a; pr_name := b; pr_process := c; pr_kind := d; pr_status := e; pr_exit_code := f; pr_release := g; pr_reference := h;
          pr_pid := i; pr_started := j; pr_finished := k |}) _); intros [].
Defined.

#[local] Instance text : RecordText.
Proof.
  refine {| to_json := code_text; from_json := of_code_text |}. apply code_text_roundtrip.
Qed.

Definition record (id : str) (status : ProcessStatus) (pid : Z) : ProcessRecord :=
  {| pr_id := id; pr_name := "app"; pr_process := "run"; pr_kind := ProcessKind_Container; pr_status := status; pr_exit_code := None;
     pr_release := None; pr_reference := None; pr_pid := pid; pr_started := 5; pr_finished := None |}.
Definition live := record "a" ProcessStatus_Running 7.
Definition stale := record "b" ProcessStatus_Running 8.
Definition ended := record "c" ProcessStatus_Exited 9.
Definition alive (pid : Z) : bool := pid =? 7.
Definition dir : gmap str str :=
  list_to_map [("a.json" : str, to_json live); ("b.json" : str, to_json stale); ("c.json" : str, to_json ended)].

Lemma dir_named : named dir.
Proof.
  intros f b r Hb _ Hr. apply elem_of_list_to_map_2 in Hb.
  repeat (apply elem_of_cons in Hb as [[= -> ->]|Hb]); [..|by apply not_elem_of_nil in Hb]; rewrite json_roundtrip in Hr; by injection Hr as <-.
Qed.

(** The stale and the ended one are gone, the one that runs is there, also when
    every other call fails. *)
Lemma ps_prunes_finished_witness :
  (exists shown m', run_ps 60 alive true None [("type=container" : str)] true {| files := dir; faults := [] |} = (true, shown, {| files := m'; faults := [] |})
   /\ m' !! ("a.json" : str) = Some (to_json live) /\ m' !! ("b.json" : str) = None /\ m' !! ("c.json" : str) = None)
  /\ files (run_ps 60 alive true None [("type=container" : str)] true {| files := dir; faults := [false; true; false; false; true; false] |}).2
       !! ("a.json" : str) = Some (to_json live).
Proof.
  destruct (ps_prunes_finished 60 alive None [("type=container" : str)] true) as [H1 H2]. split.
  - destruct (H1 dir [("type" : str, "container" : str)] "started" true dir_named eq_refl eq_refl) as (shown & m' & E & H).
    exists shown, m'. split; [exact E|]. split_and!.
    + rewrite (H "a.json" (to_json live) live); [reflexivity|reflexivity|reflexivity|apply json_roundtrip].
    + rewrite (H "b.json" (to_json stale) stale); [reflexivity|reflexivity|reflexivity|apply json_roundtrip].
    + rewrite (H "c.json" (to_json ended) ended); [reflexivity|reflexivity|reflexivity|apply json_roundtrip].
  - apply (H2 true _ "a.json" (to_json live) live); [exact dir_named|reflexivity|reflexivity|apply json_roundtrip|reflexivity|reflexivity].
Defined.
End RegistryExample.
