(* ===== verification/CliRun.v ===== *)
(** * CliRun: umf run (src/cli/run.rs)

    What is run and how is decided by the flags and by the kind of the image: a
    disk or a bootable image in a virtual machine, anything else in a
    container.  [run_run] is the whole command.  Machines are those of
    VmmControl.v; the layout, the registry client, the projector and the engine
    are a class. *)

From Stdlib Require Import ZifyBool.
From stdpp Require Import gmap list.
From S2P Require Import Prelude RustStr RustStrFacts Target Identifiers Ssrf IpText HostNet VmNet.
From S2P Require Import HostFs Image Layout Disk BuildState Sandbox Bundle Introspect BuildStaging BootRun Vmm VmmControl ProcessRegistry RegistryAuth.
#[local] Open Scope Z_scope.

(** ** Arguments and errors *)

Inductive VmmKind := Vmm_Qemu | Vmm_CloudHypervisor.
#[export] Instance VmmKind_eq_dec : EqDecision VmmKind.
Proof. solve_decision. Defined.

Record RunArgs := {
  ra_reference : str;
  ra_interactive : bool;
  ra_env_overrides : list str;
  ra_entrypoint : option str;
  ra_keep_bundle : bool;
  ra_layout_dir : option str;
  ra_insecure_registry : bool;
  ra_username : option str;
  ra_password_stdin : bool;
  ra_cmd : list str;
  ra_vmm : option str;
  ra_disk : option str;
  ra_firmware : option str;
  ra_memory : option N;
  ra_cpus : option N;
  ra_port_forwards : list str;
  ra_dhcp_command : option str;
  ra_graphic : bool
}.

(** Why a port forward is refused; the texts of the standard library's errors
    are left out. *)
Inductive BadPort := BadPort_Bind (bind : str) | BadPort_Shape | BadPort_Host | BadPort_Guest.

Inductive CliRunError :=
| CliRun_LayoutDir (e : str)
| CliRun_PasswordStdin (e : IoError)
| CliRun_PasswordStdinWithoutUsername
| CliRun_BadReference (reference err : str)
| CliRun_Registry (e : RegistryError)
| CliRun_Engine (e : EngineError)
| CliRun_Io (e : IoError)
| CliRun_NotRunnableComponent (reference kind : str)
| CliRun_UnknownVmmBackend (backend : str)
| CliRun_VmNet (e : str)
| CliRun_VmmWithoutDisk
| CliRun_DiskWithoutVmm
| CliRun_VmFlagOnContainer (flag reference : str)
| CliRun_BadPortForward (spec : str) (reason : BadPort)
| CliRun_Vmm (e : VmError)
| CliRun_Compile (e : str)
| CliRun_NoUefiFirmware (arch hint : str).

Definition VmmKind_label (b : VmmKind) : str := match b with Vmm_Qemu => "qemu" | Vmm_CloudHypervisor => "ch" end.

Definition parse_vmm_backend (backend : str) : result CliRunError VmmKind :=
  if bool_decide (backend = ("qemu" : str)) then Ok Vmm_Qemu
  else if bool_decide (backend = ("ch" : str)) || bool_decide (backend = ("cloud-hypervisor" : str)) then Ok Vmm_CloudHypervisor
  else Err (CliRun_UnknownVmmBackend backend).

(** ** Firmware *)

Definition OVMF_SINGLE_CANDIDATES : list str :=
  ["usr/share/OVMF/OVMF.fd" : str; "usr/share/qemu/OVMF.fd" : str; "usr/share/edk2/ovmf/OVMF.fd" : str;
   "usr/share/edk2-ovmf/OVMF.fd" : str; "usr/share/ovmf/OVMF.fd" : str].
Definition OVMF_SPLIT_CANDIDATES : list (str * str) :=
  [("usr/share/OVMF/OVMF_CODE_4M.fd" : str, "usr/share/OVMF/OVMF_VARS_4M.fd" : str);
   ("usr/share/OVMF/OVMF_CODE.fd" : str, "usr/share/OVMF/OVMF_VARS.fd" : str);
   ("usr/share/edk2/ovmf/OVMF_CODE.fd" : str, "usr/share/edk2/ovmf/OVMF_VARS.fd" : str);
   ("usr/share/edk2/x64/OVMF_CODE.4m.fd" : str, "usr/share/edk2/x64/OVMF_VARS.4m.fd" : str);
   ("usr/share/edk2/x64/OVMF_CODE.fd" : str, "usr/share/edk2/x64/OVMF_VARS.fd" : str);
   ("usr/share/qemu/ovmf-x86_64-code.bin" : str, "usr/share/qemu/ovmf-x86_64-vars.bin" : str)].
Definition AAVMF_SPLIT_CANDIDATES : list (str * str) :=
  [("usr/share/AAVMF/AAVMF_CODE.fd" : str, "usr/share/AAVMF/AAVMF_VARS.fd" : str);
   ("usr/share/edk2/aarch64/QEMU_EFI-silent-pflash.raw" : str, "usr/share/edk2/aarch64/vars-template-pflash.raw" : str);
   ("usr/share/edk2/aarch64/QEMU_EFI-pflash.raw" : str, "usr/share/edk2/aarch64/vars-template-pflash.raw" : str);
   ("usr/share/edk2/aarch64/QEMU_CODE.fd" : str, "usr/share/edk2/aarch64/QEMU_VARS.fd" : str);
   ("usr/share/qemu-efi-aarch64/QEMU_EFI.fd" : str, "usr/share/qemu-efi-aarch64/QEMU_VARS.fd" : str)].
Definition CLOUDHV_X86_CANDIDATES : list str :=
  ["usr/share/cloud-hypervisor/CLOUDHV.fd" : str; "usr/share/edk2/x64/CLOUDHV.4m.fd" : str; "usr/share/edk2/x64/CLOUDHV.fd" : str;
   "usr/share/edk2/cloudhv/CLOUDHV.fd" : str].
Definition CLOUDHV_AARCH64_CANDIDATES : list str :=
  ["usr/share/cloud-hypervisor/CLOUDHV_EFI.fd" : str; "usr/share/edk2/aarch64/CLOUDHV_EFI.fd" : str].

Section firmware.
Context (fs : Fs).
(** [Path::is_file]. *)
Definition has_file (p : str) : bool := host_is_file fs (components p).

Definition resolve_single (root : str) (candidates : list str) : option Firmware :=
  Firmware_Bios <$> find has_file (push_path root <$> candidates).
Definition resolve_split (root : str) (candidates : list (str * str)) : option Firmware :=
  (fun '(code, vars) => Firmware_Pflash code vars)
    <$> find (fun '(code, vars) => has_file code && has_file vars)
             ((fun '(code, vars) => (push_path root code, push_path root vars)) <$> candidates).

Definition resolve_uefi_firmware (root : str) (a : Architecture) (vmm : VmmKind) : option Firmware :=
  let cloudhv :=
    match vmm with
    | Vmm_CloudHypervisor => resolve_single root (match a with X86_64 => CLOUDHV_X86_CANDIDATES | Aarch64 => CLOUDHV_AARCH64_CANDIDATES end)
    | Vmm_Qemu => None
    end in
  match cloudhv with
  | Some fw => Some fw
  | None =>
      match a with
      | X86_64 =>
          match resolve_single root OVMF_SINGLE_CANDIDATES with
          | Some fw => Some fw
          | None => resolve_split root OVMF_SPLIT_CANDIDATES
          end
      | Aarch64 => resolve_split root AAVMF_SPLIT_CANDIDATES
      end
  end.
Definition find_uefi_firmware (a : Architecture) (vmm : VmmKind) : option Firmware := resolve_uefi_firmware "/" a vmm.
End firmware.

Definition firmware_representative (fw : Firmware) : str := match fw with Firmware_Bios path => path | Firmware_Pflash code _ => code end.
Definition host_uefi_firmware (fs : Fs) (host : Architecture) : option str := firmware_representative <$> find_uefi_firmware fs host Vmm_Qemu.
Definition host_ch_firmware (fs : Fs) (host : Architecture) : option str :=
  firmware_representative <$> find_uefi_firmware fs host Vmm_CloudHypervisor.

Definition arch_label (a : Architecture) : str := match a with X86_64 => "x86_64" | Aarch64 => "aarch64" end.
Definition firmware_install_hint (a : Architecture) (vmm : VmmKind) : str :=
  let base : str :=
    match a with
    | X86_64 => "install OVMF (e.g. the `ovmf` package)"
    | Aarch64 => "install AAVMF (e.g. the `qemu-efi-aarch64` or `edk2-aarch64` package)"
    end in
  match vmm with
  | Vmm_Qemu => base
  | Vmm_CloudHypervisor =>
      "install a CloudHv edk2 firmware (`CLOUDHV" ++ (match a with Aarch64 => "_EFI" : str | X86_64 => [] end)
      ++ ".fd` — shipped by some edk2 packagings, or from the Cloud Hypervisor project's edk2 releases, e.g. at /usr/share/cloud-hypervisor/), or "
      ++ base
  end.

(** ** Flags *)

(** [str::parse::<Ipv4Addr>]. *)
Definition parse_ipv4 (s : str) : option Z := match read_ipv4_addr s with Some (a, []) => Some a | _ => None end.

Definition strip_proto (spec : str) : str * bool :=
  match strip_suffix "/tcp" spec with
  | Some rest => (rest, true)
  | None => match strip_suffix "/udp" spec with Some rest => (rest, false) | None => (spec, true) end
  end.

Definition parse_port_forward (spec : str) : result CliRunError Vmm.PortForward :=
  let bad reason := CliRun_BadPortForward spec reason in
  let '(rest, tcp) := strip_proto spec in
  '(bind, host, guest) ←
    match split ":" rest with
    | [host; guest] => Ok (None, host, guest)
    | [bind; host; guest] => addr ← ok_or (parse_ipv4 bind) (bad (BadPort_Bind bind)); Ok (Some addr, host, guest)
    | _ => Err (bad BadPort_Shape)
    end;
  host_port ← ok_or (parse_unsigned u16_max host) (bad BadPort_Host);
  guest_port ← ok_or (parse_unsigned u16_max guest) (bad BadPort_Guest);
  Ok {| Vmm.bind_addr := bind; Vmm.host_port := host_port; Vmm.guest_port := guest_port; Vmm.tcp := tcp |}.

Fixpoint parse_port_forwards (specs : list str) : result CliRunError (list Vmm.PortForward) :=
  match specs with
  | [] => Ok []
  | s :: specs => pf ← parse_port_forward s; pfs ← parse_port_forwards specs; Ok (pf :: pfs)
  end.

Definition parse_dhcp_command (flag : option str) : DhcpDaemon :=
  match flag with
  | None => Dnsmasq
  | Some s => if bool_decide (to_ascii_lowercase (trim s) = ("none" : str)) then NoDhcp else Custom (split_whitespace s)
  end.

Definition vm_only_flag_set (args : RunArgs) : option str :=
  if bool_decide (is_Some (ra_firmware args)) then Some ("firmware" : str)
  else if bool_decide (is_Some (ra_memory args)) then Some ("memory" : str)
  else if bool_decide (is_Some (ra_cpus args)) then Some ("cpus" : str)
  else if negb (bool_decide (ra_port_forwards args = [])) then Some ("port-forward" : str)
  else if bool_decide (is_Some (ra_dhcp_command args)) then Some ("dhcp-command" : str)
  else if ra_graphic args then Some ("graphic" : str)
  else None.

(** [unreachable!] for bootable images. *)
Definition dispatch_runnable (reference : str) (k : L0Kind) : outcome (result CliRunError unit) :=
  match k with
  | L0Kind_Container | L0Kind_KernelBuildEnv | L0Kind_Unknown _ | L0Kind_Scratch => Val (Ok tt)
  | L0Kind_Bootable => Panic
  | L0Kind_Payload p =>
      Val (Err (CliRun_NotRunnableComponent reference
        (match p with Payload_Kernel => "kernel" | Payload_Rootfs => "rootfs" | Payload_Bootloader => "bootloader" | Payload_Firmware => "firmware" end)))
  end.

(** ** Machines *)

Section machine.
Context {V : Vmm}.
#[local] Existing Instance ctl_ret.
#[local] Existing Instance ctl_bind.

Definition rt_boot (b : VmmKind) (vm : VmHandle) : ctl unit :=
  match b with Vmm_Qemu => qemu_boot vm | Vmm_CloudHypervisor => ch_boot vm end.
Definition rt_shutdown (b : VmmKind) (vm : VmHandle) (graceful : bool) : ctl unit :=
  match b with
  | Vmm_Qemu => qemu_shutdown QemuRuntime_default vm graceful
  | Vmm_CloudHypervisor => ch_shutdown CloudHypervisorRuntime_default vm graceful
  end.

(** The future of [wait] holds the child; when the interrupt wins the
    [select!] the future is dropped, and the child with it, which is killed. *)
Definition cancel_wait (vm : VmHandle) : ctl VmHandle :=
  match child vm with
  | None => mret vm
  | Some c =>
      _ ← call (StartKill c);
      mret {| child := None; control_socket := control_socket vm; vm_id := vm_id vm; scratch := scratch vm |}
  end.

(** From [boot] to the exit code. *)
Definition vm_session (b : VmmKind) (interrupted : bool) (vm : VmHandle) : ctl Z :=
  _ ← rt_boot b vm;
  if interrupted then
    vm ← cancel_wait vm;
    _ ← rt_shutdown b vm true;
    vc ← wait vm;
    mret (default 0 vc.2)
  else
    vc ← wait vm;
    mret (default 0 vc.2).
End machine.

(** ** Shared helpers (src/cli/util.rs) *)

Definition default_layout_dir (xdg_cache_home home : option str) : result str str :=
  match xdg_cache_home with
  | Some xdg => Ok (push_path (push_path xdg "umf") "oci-layout")
  | None =>
      h ← ok_or home ("$HOME not set; pass --layout-dir" : str);
      Ok (push_path (push_path (push_path h ".cache") "umf") "oci-layout")
  end.

(** [line] is what reading a line of the standard input gives. *)
Definition credential_override (username : option str) (password_stdin : bool) (line : result IoError str)
    : result CliRunError CredentialOverride :=
  match username with
  | None => if password_stdin then Err CliRun_PasswordStdinWithoutUsername else Ok {| co_username := None; co_password := None |}
  | Some user =>
      password ← (if password_stdin
                  then buf ← map_err CliRun_PasswordStdin line;
                       Ok (Some (rev (drop (count_while (one_of [cr; lf]) (rev buf)) (rev buf))))
                  else Ok None);
      Ok {| co_username := Some user; co_password := password |}
  end.

(** ** The command *)

(** What it finds: the environment, the clock, and whether an asynchronous
    runtime can be made. *)
Record RunEnv := {
  e_host_arch : Architecture;
  e_xdg_cache_home : option str; e_home : option str;
  e_stdin : result IoError str;
  e_registry_opened : bool; e_id : str; e_pid : Z; e_started : N; e_finished : N;
  e_interrupted : bool;
  e_runtime : result IoError unit
}.

(** The layout's directory, references, registries, the projector and the
    engine, and the networks of machines.  A container may run for ever: then the
    engine does not return. *)
Class RunServices := {
  sv_init : str -> result RegistryError ImageLayout;
  sv_parse : str -> result str str;
  sv_registry : str -> str;
  sv_pull : ImageLayout -> str -> RegistryAuth -> bool -> result RegistryError ImageLayout;
  sv_introspect : ImageLayout -> str -> result RegistryError L0Profile;
  sv_block_path : str * str -> str;
  sv_compile : ImageLayout -> str -> str -> DiskGeometry -> Fs -> result str unit * Fs;
  sv_vmnet : list VmNet.PortForward -> DhcpDaemon -> result str TapNet;
  sv_run_image : ImageLayout -> str -> RunOptions -> option (result EngineError RunResult)
}.

Inductive Started :=
| Started_Container (reference : str) (options : RunOptions)
| Started_Machine (b : VmmKind) (spec : Vmm.VmSpec).

Section command.
Context {V : Vmm} {TF : TempFiles} {PR : Processes} {RT : RecordText} {AH : AuthHost} {SV : RunServices} (env : RunEnv).

Record RunState := { rs_fs : Fs; rs_world : World; rs_reg : Registry }.
(** The exit code or an error, and what was started. *)
Definition Ran : Type := outcome (result CliRunError Z) * list Started * RunState.
Definition refuse (e : CliRunError) (st : RunState) : Ran := (Val (Err e), [], st).

Definition vm_spec_of (args : RunArgs) (disk : str) (fw : option Firmware) (a : Architecture) (pfs : list Vmm.PortForward) : Vmm.VmSpec :=
  {| Vmm.arch := a; Vmm.boot := BootSource_Disk disk fw; Vmm.memory_mib := default 1024%N (ra_memory args); Vmm.cpus := default 2%N (ra_cpus args);
     Vmm.kvm := true; Vmm.display := if ra_graphic args then DisplayMode_Window else DisplayMode_None; Vmm.port_forwards := pfs; Vmm.net := None;
     Vmm.control := ControlMode_Channel; Vmm.shares := []; Vmm.serial := SerialMode_Inherit |}.

Definition map_forward (p : Vmm.PortForward) : VmNet.PortForward :=
  {| VmNet.bind_addr := Vmm.bind_addr p; VmNet.host_port := Vmm.host_port p; VmNet.guest_port := Vmm.guest_port p; VmNet.tcp := Vmm.tcp p |}.

(** Cloud Hypervisor gets a network of its own for its forwards. *)
Definition vm_network (b : VmmKind) (args : RunArgs) (spec : Vmm.VmSpec) : result CliRunError Vmm.VmSpec :=
  match b with
  | Vmm_CloudHypervisor =>
      if bool_decide (Vmm.port_forwards spec = []) then Ok spec
      else
        t ← map_err CliRun_VmNet (sv_vmnet (map_forward <$> Vmm.port_forwards spec) (parse_dhcp_command (ra_dhcp_command args)));
        Ok {| Vmm.arch := Vmm.arch spec; Vmm.boot := Vmm.boot spec; Vmm.memory_mib := Vmm.memory_mib spec; Vmm.cpus := Vmm.cpus spec;
              Vmm.kvm := Vmm.kvm spec; Vmm.display := Vmm.display spec; Vmm.port_forwards := Vmm.port_forwards spec; Vmm.net := Some t;
              Vmm.control := Vmm.control spec; Vmm.shares := Vmm.shares spec; Vmm.serial := Vmm.serial spec |}
  | Vmm_Qemu => Ok spec
  end.

Definition create_machine (b : VmmKind) (spec : Vmm.VmSpec) (fs : Fs) (w : World) : outcome (result VmError VmHandle) * Fs * World :=
  match b with
  | Vmm_Qemu => let '(r, fs) := qemu_create QemuRuntime_default spec fs in (Val r, fs, w)
  | Vmm_CloudHypervisor => let '(r, fs, _, w) := ch_create CloudHypervisorRuntime_default spec fs w in (r, fs, w)
  end.

(** The machine from [create] to its end; its directories go with the handle. *)
Definition run_machine (b : VmmKind) (spec : Vmm.VmSpec) (fs : Fs) (w : World) : outcome (result VmError Z) * Fs * World :=
  match create_machine b spec fs w with
  | (Val (Ok h), fs, w) => let '(r, _, w) := vm_session b (e_interrupted env) h w in (r, drop_scratch h fs, w)
  | (Val (Err e), fs, w) => (Val (Err e), fs, w)
  | (Panic, fs, w) => (Panic, fs, w)
  | (OutOfFuel, fs, w) => (OutOfFuel, fs, w)
  end.

Definition guard (kind : ProcessKind) (name process : str) (reference : option str) (s : Registry) : RunningGuard * Registry :=
  guard_start (e_registry_opened env) (e_id env) (e_pid env) (e_started env) kind name process reference None s.

Definition run_vm (b : VmmKind) (disk : str) (fw : option Firmware) (a : Architecture) (args : RunArgs) (st : RunState) : Ran :=
  match (pfs ← parse_port_forwards (ra_port_forwards args); vm_network b args (vm_spec_of args disk fw a pfs)) with
  | Err e => refuse e st
  | Ok spec =>
      let '(g, s) := guard ProcessKind_Vm (default ("disk" : str) (file_name (components disk))) ("run --vmm " ++ VmmKind_label b) (Some disk) (rs_reg st) in
      match e_runtime env with
      | Err e => (Val (Err (CliRun_Io e)), [], {| rs_fs := rs_fs st; rs_world := rs_world st; rs_reg := guard_drop (e_finished env) g s |})
      | Ok _ =>
          let '(r, fs, w) := run_machine b spec (rs_fs st) (rs_world st) in
          match r with
          | Val (Ok code) => (Val (Ok code), [Started_Machine b spec], {| rs_fs := fs; rs_world := w; rs_reg := guard_exited code (e_finished env) g s |})
          | Val (Err e) => (Val (Err (CliRun_Vmm e)), [Started_Machine b spec], {| rs_fs := fs; rs_world := w; rs_reg := guard_failed (e_finished env) g s |})
          | Panic => (Panic, [Started_Machine b spec], {| rs_fs := fs; rs_world := w; rs_reg := s |})
          | OutOfFuel => (OutOfFuel, [Started_Machine b spec], {| rs_fs := fs; rs_world := w; rs_reg := s |})
          end
      end
  end.

Definition no_firmware_error (a : Architecture) (b : VmmKind) : CliRunError :=
  CliRun_NoUefiFirmware (arch_label a) (firmware_install_hint a b).

(** The firmware of a disk: QEMU has one of its own. *)
Definition disk_firmware (args : RunArgs) (b : VmmKind) (fs : Fs) : result CliRunError (option Firmware) :=
  match ra_firmware args, b with
  | Some p, _ => Ok (Some (Firmware_Bios p))
  | None, Vmm_Qemu => Ok None
  | None, Vmm_CloudHypervisor =>
      fw ← ok_or (find_uefi_firmware fs (e_host_arch env) b) (no_firmware_error (e_host_arch env) b); Ok (Some fw)
  end.

(** [m], whose effect on the file system is kept when it fails. *)
Definition then_run (m : result CliRunError unit * Fs) (st : RunState) (k : RunState -> Ran) : Ran :=
  let st := {| rs_fs := m.2; rs_world := rs_world st; rs_reg := rs_reg st |} in
  match m.1 with Ok _ => k st | Err e => refuse e st end.

Definition project_block (L : ImageLayout) (reference path : str) (fs : Fs) : result CliRunError unit * Fs :=
  if has_file fs path then (Ok tt, fs)
  else let '(r, fs) := sv_compile L reference path DiskGeometry_default fs in (map_err CliRun_Compile r, fs).

Definition boot_block (path : str) (args : RunArgs) (st : RunState) : Ran :=
  let prepared :=
    b ← parse_vmm_backend (default ("qemu" : str) (ra_vmm args));
    fw ← match ra_firmware args with
         | Some p => Ok (Firmware_Bios p)
         | None => ok_or (find_uefi_firmware (rs_fs st) (e_host_arch env) b) (no_firmware_error (e_host_arch env) b)
         end;
    Ok (b, fw) in
  match prepared with
  | Err e => refuse e st
  | Ok (b, fw) => run_vm b path (Some fw) (e_host_arch env) args st
  end.

Definition run_bootable (L : ImageLayout) (image_digest : str) (args : RunArgs) (st : RunState) : Ran :=
  match block_cache_path image_digest (cache_variant DiskGeometry_default None) with
  | Err e => refuse (CliRun_Registry e) st
  | Ok block =>
      let path := sv_block_path block in
      then_run (project_block L (ra_reference args) path (rs_fs st)) st (boot_block path args)
  end.

Definition pull_if_missing (L : ImageLayout) (reference : str) (args : RunArgs) : result CliRunError ImageLayout :=
  match layout_lookup_ref L (ra_reference args) with
  | Some _ => Ok L
  | None =>
      credentials ← credential_override (ra_username args) (ra_password_stdin args) (e_stdin env);
      _ ← map_err CliRun_Io (e_runtime env);
      let auth := (resolve_auth_for (Some (sv_registry reference)) credentials).2 in
      map_err CliRun_Registry (sv_pull L reference auth (ra_insecure_registry args))
  end.

Definition options_of_args (args : RunArgs) : RunOptions :=
  {| entrypoint_override := (fun s => [s]) <$> ra_entrypoint args;
     cmd_override := match ra_cmd args with [] => None | cmd => Some cmd end;
     env_overrides := ra_env_overrides args; interactive := ra_interactive args; opt_bind_mounts := []; keep_bundle := ra_keep_bundle args |}.

Definition run_container (L : ImageLayout) (args : RunArgs) (st : RunState) : Ran :=
  let started := [Started_Container (ra_reference args) (options_of_args args)] in
  let '(g, s) := guard ProcessKind_Container (ra_reference args) "run" (Some (ra_reference args)) (rs_reg st) in
  match sv_run_image L (ra_reference args) (options_of_args args) with
  | None => (OutOfFuel, started, {| rs_fs := rs_fs st; rs_world := rs_world st; rs_reg := s |})
  | Some (Err e) => (Val (Err (CliRun_Engine e)), started, {| rs_fs := rs_fs st; rs_world := rs_world st; rs_reg := guard_drop (e_finished env) g s |})
  | Some (Ok result) =>
      let code := default 1 (Bundle.exit_code result) in
      (Val (Ok code), started, {| rs_fs := rs_fs st; rs_world := rs_world st; rs_reg := guard_exited code (e_finished env) g s |})
  end.

(** The image, in the layout. *)
Definition resolve_image (args : RunArgs) : result CliRunError (ImageLayout * L0Profile) :=
  dir ← match ra_layout_dir args with
        | Some p => Ok p
        | None => map_err CliRun_LayoutDir (default_layout_dir (e_xdg_cache_home env) (e_home env))
        end;
  L ← map_err CliRun_Registry (sv_init dir);
  reference ← map_err (CliRun_BadReference (ra_reference args)) (sv_parse (ra_reference args));
  L ← pull_if_missing L reference args;
  profile ← map_err CliRun_Registry (sv_introspect L (ra_reference args));
  Ok (L, profile).

Definition run_resolved (L : ImageLayout) (profile : L0Profile) (args : RunArgs) (st : RunState) : Ran :=
  if bool_decide (Introspect.kind profile = L0Kind_Bootable) then run_bootable L (Introspect.manifest_digest profile) args st
  else if bool_decide (is_Some (ra_vmm args)) then refuse CliRun_VmmWithoutDisk st
  else match vm_only_flag_set args with
       | Some flag => refuse (CliRun_VmFlagOnContainer flag (ra_reference args)) st
       | None =>
           match dispatch_runnable (ra_reference args) (Introspect.kind profile) with
           | Val (Ok _) => run_container L args st
           | Val (Err e) => refuse e st
           | Panic => (Panic, [], st)
           | OutOfFuel => (OutOfFuel, [], st)
           end
       end.

Definition run_run (args : RunArgs) (st : RunState) : Ran :=
  match ra_disk args, ra_vmm args with
  | Some _, None => refuse CliRun_DiskWithoutVmm st
  | Some disk, Some backend =>
      match (b ← parse_vmm_backend backend; fw ← disk_firmware args b (rs_fs st); Ok (b, fw)) with
      | Err e => refuse e st
      | Ok (b, fw) => run_vm b disk fw (e_host_arch env) args st
      end
  | None, _ =>
      match resolve_image args with
      | Err e => refuse e st
      | Ok (L, profile) => run_resolved L profile args st
      end
  end.
End command.

(** ** Machines end *)

Section ending.
Context {V : Vmm} {TF : TempFiles} {PR : Processes}.
#[local] Existing Instance ctl_ret.
#[local] Existing Instance ctl_bind.

(** The machine answers, also where the program waits without a timeout. *)
Context (Hans : forall A (c : Call A) w, answers c w = true).

Abbreviation total m w := (ends m w (fun _ _ _ => True)).

Lemma total_bind {A B} (m : ctl A) (k : A -> ctl B) w : total m w -> (forall a w1, total (k a) w1) -> total (m ≫= k) w.
Proof. intros Hm Hk. apply ends_bind. eapply ends_imp; [exact Hm|]. intros [a|e] tr w1 _ _; [apply Hk|done]. Qed.
Lemma total_call {A} (c : Call A) w : total (call c) w.
Proof. unfold call, ends. rewrite Hans. eexists _, _, _. split; [reflexivity|]. split; [apply answer_later|done]. Qed.
Lemma total_wait vm w : total (wait vm) w.
Proof.
  unfold wait. destruct (child vm); [|by apply ends_ret]. apply total_bind; [apply total_call|]. intros [st|e] w1; [by apply ends_ret|by apply ends_raise].
Qed.

Lemma rt_boot_total b vm w : total (rt_boot b vm) w.
Proof.
  destruct b; unfold rt_boot.
  - destruct (control_socket vm) as [socket|] eqn:E; [|unfold qemu_boot; rewrite E; by apply ends_ret].
    eapply ends_imp; [apply (qemu_boot_ends _ _ socket); [done|intros w'; apply Hans]|done].
  - destruct (control_socket vm) as [socket|] eqn:E; [|unfold ch_boot; rewrite E; by apply ends_ret].
    eapply ends_imp; [by apply (ch_boot_ends _ _ socket)|done].
Qed.

Lemma wait_for_daemon_total socket w : total (wait_for_daemon socket) w.
Proof.
  assert (H : forall deadline n w, (deadline <= now w + 50 * N.of_nat n)%N -> total (wait_for_daemon_until (S n) deadline socket) w).
  { intros deadline. induction n as [|n IH]; intros w1 Hd; cbn [wait_for_daemon_until]; (apply ends_call; [apply Hans|]); intros L;
      (destruct (answer (VmmPing socket) w1) as [[[]|e] w2]; cbn [fst snd] in *; [by apply ends_ret|]); apply ends_instant;
      (destruct (N.ltb_spec (now w2) deadline); [|by apply ends_raise]); [lia|].
    apply ends_call; [apply Hans|]. intros _. pose proof (sleep_passes 50 w2). eapply ends_imp; [apply IH; lia|done]. }
  unfold wait_for_daemon. apply ends_instant, H. apply (rounds_enough 5000 50). lia.
Qed.

Lemma ch_setup_total spec vm w : total (ch_setup spec vm) w.
Proof.
  unfold ch_setup. destruct (control_socket vm) as [socket|]; [|by apply ends_raise].
  apply total_bind; [apply wait_for_daemon_total|]. intros _ w1.
  destruct (build_vm_config spec) as [c|e]; [|by apply ends_bind, ends_raise]. apply ends_bind, ends_ret.
  apply ends_demand; [done| |done]. intros _ w2 _. by apply ends_ret.
Qed.

Lemma vm_session_total b i vm w : total (vm_session b i vm) w.
Proof.
  unfold vm_session. apply total_bind; [apply rt_boot_total|]. intros _ w1.
  assert (Hw : forall vm w, total (vc ← wait vm; mret (default 0 vc.2)) w) by (intros; apply total_bind; [apply total_wait|by intros; apply ends_ret]).
  destruct i; [|apply Hw]. apply total_bind.
  - unfold cancel_wait. destruct (child vm); [|by apply ends_ret]. apply total_bind; [apply total_call|by intros; apply ends_ret].
  - intros vm' w2. apply total_bind; [|intros; apply Hw].
    destruct b; unfold rt_shutdown; (eapply ends_imp; [first [apply qemu_shutdown_ends; intros socket _ w'; apply Hans|apply ch_shutdown_ends]|done]).
Qed.

Lemma create_machine_total b spec fs w : exists r fs' w', create_machine b spec fs w = (Val r, fs', w').
Proof.
  destruct b; unfold create_machine.
  - destruct (qemu_create _ _ _) as [r fs']. eauto.
  - unfold ch_create. destruct (spawn_cloud_hypervisor _ _ _) as [[h|e] fs']; [|eauto].
    destruct (ch_setup_total spec h w) as (r & tr & w' & -> & _ & _). destruct r as [h'|e]; [eauto|].
    destruct (kill_child h w') as [[? ?] ?]. eauto.
Qed.

Lemma run_machine_total env b spec fs w : exists r fs' w', run_machine env b spec fs w = (Val r, fs', w').
Proof.
  unfold run_machine. destruct (create_machine_total b spec fs w) as ([h|e] & fs' & w' & ->); [|eauto].
  destruct (vm_session_total b (e_interrupted env) h w') as (r & tr & w'' & -> & _ & _). eauto.
Qed.
End ending.

(** ** Port forwards *)

(** [read_digits] reads a numeral to its end. *)
Lemma read_digits_app s : forall acc count rest, Forall (fun c => is_ascii_digit c = true) s ->
  match rest with c :: _ => to_digit 10 c = None | [] => True end ->
  read_digits 10 acc count (s ++ rest) = (fold_left (fun n c => n * 10 + Z.of_N (digit_value c)) s acc, (count + length s)%nat, rest).
Proof.
  induction s as [|c s IH]; intros acc count rest Hs Hr.
  - cbn. rewrite Nat.add_0_r. destruct rest as [|c rest]; [done|]. cbn. by rewrite Hr.
  - apply Forall_cons in Hs as [Hc Hs]. cbn [app read_digits]. unfold to_digit. rewrite Hc.
    assert (Hd : (48 <= code c <= 57)%N) by (unfold is_ascii_digit, in_range in Hc; apply andb_true_iff in Hc as [H1 H2]; apply N.leb_le in H1, H2; by cbn in H1, H2).
    destruct (Z.ltb_spec (Z.of_N (code c) - 48) 10); [|lia]. rewrite IH by done. cbn [fold_left length].
    rewrite Nat.add_succ_r. unfold digit_value. by rewrite N2Z.inj_sub by lia.
Qed.

Lemma fold_digits s : forall n, fold_left (fun n c => n * 10 + Z.of_N (digit_value c)) s (Z.of_N n) = Z.of_N (decimal_from n s).
Proof.
  induction s as [|c s IH]; intros n; [done|]. cbn [fold_left].
  change (decimal_from n (c :: s)) with (decimal_from (n * 10 + digit_value c) s). rewrite <- IH. f_equal. lia.
Qed.

(** The numerals of bytes are short and have no leading zero. *)
Definition byte_numeral (s : str) : bool :=
  (length s <=? 3)%nat && match s with c :: rest => negb (bool_decide (c = "0"%char)) || is_nil rest | [] => false end.
Lemma byte_numerals n : (n <= 255)%N -> byte_numeral (to_decimal n) = true.
Proof.
  intros H. assert (Ha : forallb (fun k => byte_numeral (to_decimal (N.of_nat k))) (seq 0 256) = true) by (vm_compute; reflexivity).
  rewrite <- (N2Nat.id n). apply (proj1 (forallb_forall _ _) Ha). apply in_seq. lia.
Qed.

Lemma read_byte n rest : 0 <= n <= 255 -> match rest with c :: _ => to_digit 10 c = None | [] => True end ->
  read_number 10 3 false 256 (to_decimal (Z.to_N n) ++ rest) = Some (n, rest).
Proof.
  intros Hn Hr. destruct (to_decimal_ok (Z.to_N n)) as [Ev Ed]. pose proof (byte_numerals (Z.to_N n) ltac:(lia)) as Hb.
  unfold read_number. rewrite read_digits_app by done. rewrite (fold_digits _ 0%N). fold (decimal (to_decimal (Z.to_N n))). rewrite Ev, Z2N.id by lia.
  unfold byte_numeral in Hb. apply andb_true_iff in Hb as [Hl Hz]. apply Nat.leb_le in Hl.
  destruct (to_decimal (Z.to_N n)) as [|c s]; [done|]. cbn [app length Nat.add] in *.
  destruct (Nat.ltb_spec 3 (S (length s))); [lia|]. cbn [Nat.eqb negb andb].
  replace (bool_decide (c = "0"%char) && (1 <? S (length s))%nat) with false.
  - by destruct (Z.ltb_spec n 256); [|lia].
  - symmetry. apply andb_false_iff. apply orb_true_iff in Hz as [Hz|Hz]; [left; by apply negb_true_iff in Hz|right]. by destruct s.
Qed.

Lemma parse_ipv4_text a : 0 <= a < 2 ^ 32 -> parse_ipv4 (ipv4_text a) = Some a.
Proof.
  intros Ha. unfold parse_ipv4, read_ipv4_addr, read_separator, ipv4_text. change (bytes_of ".") with ["."%char]. cbn [app].
  rewrite (read_byte (octet4 0 a)) by (apply octet4_bound || done). cbn [mbind option_bind read_given_char]. rewrite bool_decide_true by done. cbn [mbind option_bind].
  rewrite (read_byte (octet4 1 a)) by (apply octet4_bound || done). cbn [mbind option_bind read_given_char]. rewrite bool_decide_true by done. cbn [mbind option_bind].
  rewrite (read_byte (octet4 2 a)) by (apply octet4_bound || done). cbn [mbind option_bind read_given_char]. rewrite bool_decide_true by done. cbn [mbind option_bind].
  rewrite <- (app_nil_r (to_decimal (Z.to_N (octet4 3 a)))). rewrite (read_byte (octet4 3 a) []) by (apply octet4_bound || done). cbn [mbind option_bind].
  by rewrite v4_of_octets.
Qed.

(** A forward, as the flag writes it. *)
Definition port_text (pf : Vmm.PortForward) : str :=
  match Vmm.bind_addr pf with Some a => ipv4_text a ++ ":" | None => [] end
  ++ to_decimal (Vmm.host_port pf) ++ ":" ++ to_decimal (Vmm.guest_port pf) ++ (if Vmm.tcp pf then "/tcp" : str else "/udp" : str).

Lemma strip_proto_text s (t : bool) : strip_proto (s ++ (if t then "/tcp" : str else "/udp" : str)) = (s, t).
Proof.
  unfold strip_proto. destruct t; [by rewrite strip_suffix_app|].
  assert (strip_suffix "/tcp" (s ++ ("/udp" : str)) = None) as -> by (unfold strip_suffix; rewrite rev_app_distr; reflexivity).
  by rewrite strip_suffix_app.
Qed.

(** Every forward can be asked for, and the text QEMU then gets says the same. *)
Lemma port_forward_roundtrip pf : forward_typed pf ->
  parse_port_forward (port_text pf) = Ok pf /\ read_hostfwd (hostfwd_text pf) = Some pf.
Proof.
  intros Ht. split; [|by apply read_hostfwd_text]. destruct Ht as (Hh & Hg & Hb). unfold parse_port_forward.
  assert (Hd : forall n, ":"%char ∉ to_decimal n) by (intros; by apply to_decimal_no).
  assert (E : port_text pf = (match Vmm.bind_addr pf with Some a => ipv4_text a ++ [":"%char] | None => [] end
    ++ to_decimal (Vmm.host_port pf) ++ ":"%char :: to_decimal (Vmm.guest_port pf)) ++ (if Vmm.tcp pf then "/tcp" : str else "/udp" : str)).
  { unfold port_text. rewrite <- !app_assoc. by destruct (Vmm.bind_addr pf). }
  rewrite E, strip_proto_text. cbv beta iota zeta.
  assert (Es : split ":" (to_decimal (Vmm.host_port pf) ++ ":"%char :: to_decimal (Vmm.guest_port pf)) = [to_decimal (Vmm.host_port pf); to_decimal (Vmm.guest_port pf)])
    by (rewrite split_app, split_no_sep by done; done).
  destruct (Vmm.bind_addr pf) as [a|] eqn:Ea.
  - rewrite <- (app_assoc (ipv4_text a)). cbn [app]. rewrite (split_app ":" (ipv4_text a)) by (by apply ipv4_text_no). rewrite Es, parse_ipv4_text by done. cbn [ok_or mbind result_bind].
    rewrite !parse_to_decimal by done. cbn. f_equal. destruct pf. by cbn in *; subst.
  - cbn [app]. rewrite Es. cbn [ok_or mbind result_bind]. rewrite !parse_to_decimal by done. cbn. f_equal. destruct pf. by cbn in *; subst.
Qed.

(** *** What a text asks for, read off its form *)

(** A port: digits, perhaps after a plus sign. *)
Definition port_numeral (s : str) (n : N) : Prop :=
  (n <= 65535)%N /\ exists digits, (s = digits \/ s = "+"%char :: digits) /\ digits <> []
    /\ Forall (fun c => is_ascii_digit c = true) digits /\ decimal digits = n.

(** An address: four bytes in decimal, with dots between them. *)
Definition dotted (s : str) (a : Z) : Prop :=
  exists o0 o1 o2 o3, Forall (fun o => 0 <= o <= 255) [o0; o1; o2; o3] /\ a = v4 o0 o1 o2 o3
    /\ s = to_decimal (Z.to_N o0) ++ "." ++ to_decimal (Z.to_N o1) ++ "." ++ to_decimal (Z.to_N o2) ++ "." ++ to_decimal (Z.to_N o3).

(** A forward: perhaps an address and a colon, the host's port, a colon, the
    guest's port, and perhaps a protocol; TCP unless it says otherwise. *)
Definition forward_asked (s : str) (pf : Vmm.PortForward) : Prop :=
  exists bind host guest proto,
    s = bind ++ host ++ ":" ++ guest ++ proto
    /\ match Vmm.bind_addr pf with None => bind = [] | Some a => exists b, bind = b ++ ":" /\ dotted b a end
    /\ port_numeral host (Vmm.host_port pf) /\ port_numeral guest (Vmm.guest_port pf)
    /\ proto ∈ (if Vmm.tcp pf then [[]; "/tcp" : str] else ["/udp" : str]).

Lemma parse_port_numeral s n : parse_unsigned u16_max s = Some n -> port_numeral s n.
Proof.
  unfold parse_unsigned. set (body := match s with "+"%char :: s' => s' | _ => s end).
  assert (Hb : s = body \/ s = "+"%char :: body) by (subst body; destruct s as [|[[] [] [] [] [] [] [] []] s]; auto).
  clearbody body. destruct body as [|c body]; [done|]. destruct (forallb _ _) eqn:Hd; [|done]. cbn [andb].
  destruct (N.leb_spec (decimal (c :: body)) u16_max) as [Hn|]; [|done]. intros [= <-]. split; [exact Hn|]. exists (c :: body).
  split_and!; [done|done| |done]. apply List.Forall_forall, forallb_forall, Hd.
Qed.

Lemma not_decimal c : is_ascii_digit c = false -> to_digit 10 c = None.
Proof. destruct c as [[] [] [] [] [] [] [] []]; vm_compute; intros H; done || discriminate H. Qed.
Lemma read_digits_inv s : forall acc count n k rest, read_digits 10 acc count s = (n, k, rest) ->
  exists ds, s = ds ++ rest /\ Forall (fun c => is_ascii_digit c = true) ds /\ k = (count + length ds)%nat
    /\ n = fold_left (fun n c => n * 10 + Z.of_N (digit_value c)) ds acc.
Proof.
  induction s as [|c s IH]; intros acc count n k rest; cbn [read_digits].
  - intros [= <- <- <-]. exists []. split_and!; [done|constructor|by rewrite Nat.add_0_r|done].
  - unfold to_digit. destruct (is_ascii_digit c) eqn:Hc.
    + assert (Hd : (48 <= code c <= 57)%N) by (unfold is_ascii_digit, in_range in Hc; apply andb_true_iff in Hc as [H1 H2]; apply N.leb_le in H1, H2; by cbn in H1, H2).
      destruct (Z.ltb_spec (Z.of_N (code c) - 48) 10); [|lia]. intros (ds & -> & Hds & -> & ->)%IH. exists (c :: ds).
      split_and!; [done|by constructor|cbn; lia|]. cbn [fold_left]. f_equal. unfold digit_value. by rewrite N2Z.inj_sub by lia.
    + assert (Hn : to_digit 10 c = None) by (apply not_decimal, Hc). unfold to_digit in Hn. rewrite Hc in Hn. rewrite Hn. intros [= <- <- <-].
      exists []. split_and!; [done|constructor|by rewrite Nat.add_0_r|done].
Qed.

(** Short numerals without leading zeros are those of [to_decimal]. *)
Definition digit_chars : str := "0123456789".
Lemma digit_char c : is_ascii_digit c = true -> In c digit_chars.
Proof. destruct c as [[] [] [] [] [] [] [] []]; vm_compute; intros H; try discriminate H; tauto. Qed.
Definition canonical (s : str) : bool := negb (byte_numeral s) || bool_decide (to_decimal (decimal s) = s).
Lemma short_numeral s : Forall (fun c => is_ascii_digit c = true) s -> byte_numeral s = true -> to_decimal (decimal s) = s.
Proof.
  intros Hd Hb. assert (Hc : canonical s = true).
  { assert (Hl : (length s <= 3)%nat) by (apply andb_true_iff in Hb as [Hl _]; by apply Nat.leb_le in Hl).
    assert (H1 : forallb (fun a => canonical [a]) digit_chars = true) by (vm_compute; reflexivity).
    assert (H2 : forallb (fun a => forallb (fun b => canonical [a; b]) digit_chars) digit_chars = true) by (vm_compute; reflexivity).
    assert (H3 : forallb (fun a => forallb (fun b => forallb (fun c => canonical [a; b; c]) digit_chars) digit_chars) digit_chars = true)
      by (vm_compute; reflexivity).
    rewrite forallb_forall in H1, H2, H3. destruct s as [|a [|b [|c [|]]]]; [done| | | |cbn in Hl; lia].
    - inversion Hd; subst. apply H1, digit_char; assumption.
    - inversion Hd as [|? ? Ha Hd1]; inversion Hd1; subst. specialize (H2 a (digit_char a Ha)). rewrite forallb_forall in H2. apply H2, digit_char; assumption.
    - inversion Hd as [|? ? Ha Hd1]; inversion Hd1 as [|? ? Hb' Hd2]; inversion Hd2; subst. specialize (H3 a (digit_char a Ha)).
      rewrite forallb_forall in H3. specialize (H3 b (digit_char b Hb')). rewrite forallb_forall in H3. apply H3, digit_char; assumption. }
  unfold canonical in Hc. rewrite Hb in Hc. by apply bool_decide_eq_true in Hc.
Qed.

Lemma read_byte_inv s n rest : read_number 10 3 false 256 s = Some (n, rest) ->
  0 <= n <= 255 /\ s = to_decimal (Z.to_N n) ++ rest.
Proof.
  intros H. pose proof (read_number_range 10 3 false 256 s n rest ltac:(lia) H) as Hn. split; [lia|].
  unfold read_number in H. destruct (read_digits 10 0 0 s) as [[v k] r] eqn:E. apply read_digits_inv in E as (ds & Hs & Hd & Hk & Hv).
  change 0 with (Z.of_N 0) in Hv; rewrite fold_digits in Hv. fold (decimal ds) in Hv. cbn [Nat.add] in Hk.
  destruct (Nat.ltb_spec 3 k) as [|H3]; [done|]. destruct (Nat.eqb_spec k 0) as [|H0]; [done|]. cbn [negb andb] in H.
  destruct (_ && (1 <? k)%nat) eqn:Hz; [done|]. destruct (v <? 256); [|done]. injection H as <- <-.
  rewrite Hs at 1. f_equal. rewrite Hv, N2Z.id. symmetry. apply short_numeral; [done|]. unfold byte_numeral. subst k s v.
  rewrite (proj2 (Nat.leb_le _ _)) by lia. destruct ds as [|c ds]; [done|]. cbn [app] in Hz. cbn [andb].
  apply andb_false_iff in Hz as [Hz|Hz]; [by rewrite Hz|]. apply Nat.ltb_ge in Hz. destruct ds; [apply orb_true_r|cbn in Hz; lia].
Qed.

Lemma read_dot_inv {A} i (inner : reader A) s a rest : read_separator "." (S i) inner s = Some (a, rest) ->
  exists s', s = "."%char :: s' /\ inner s' = Some (a, rest).
Proof.
  cbn [read_separator]. unfold read_given_char. destruct s as [|c s]; [done|]. case_bool_decide; [|done]. subst. cbn. eauto.
Qed.

Lemma parse_ipv4_inv s a : parse_ipv4 s = Some a -> dotted s a.
Proof.
  unfold parse_ipv4. destruct (read_ipv4_addr s) as [[a' [|c r]]|] eqn:E; [|done..]. intros [= ->]. unfold read_ipv4_addr in E.
  destruct (read_separator "." 0 _ s) as [[o0 s1]|] eqn:E0; [|done]. cbn [mbind option_bind] in E.
  destruct (read_separator "." 1 _ s1) as [[o1 s2]|] eqn:E1; [|done]. cbn [mbind option_bind] in E.
  destruct (read_separator "." 2 _ s2) as [[o2 s3]|] eqn:E2; [|done]. cbn [mbind option_bind] in E.
  destruct (read_separator "." 3 _ s3) as [[o3 s4]|] eqn:E3; [|done]. cbn [mbind option_bind] in E. injection E as <- ->.
  apply read_byte_inv in E0 as [B0 ->]. apply read_dot_inv in E1 as (t1 & -> & [B1 ->]%read_byte_inv).
  apply read_dot_inv in E2 as (t2 & -> & [B2 ->]%read_byte_inv). apply read_dot_inv in E3 as (t3 & -> & [B3 ->]%read_byte_inv).
  exists o0, o1, o2, o3. split_and!; [rewrite !Forall_cons; split_and!; try lia; constructor|done|]. by rewrite app_nil_r.
Qed.

Lemma join_split c s : join [c] (split c s) = s.
Proof.
  induction s as [|a s IH]; [done|]. cbn [split]. pose proof (split_nonempty c s) as Hn. destruct (Ascii.eqb_spec a c) as [->|_].
  - destruct (split c s) as [|x l] eqn:E; [done|]. cbn in *. by rewrite IH.
  - destruct (split c s) as [|x l]; [done|]. cbn in *. by rewrite IH.
Qed.
Lemma split_two c s a b : split c s = [a; b] -> s = a ++ c :: b.
Proof. intros E. rewrite <- (join_split c s), E. cbn. by rewrite app_nil_r. Qed.
Lemma split_three c s x a b : split c s = [x; a; b] -> s = x ++ c :: a ++ c :: b.
Proof. intros E. rewrite <- (join_split c s), E. cbn. by rewrite app_nil_r. Qed.

Lemma strip_suffix_inv pat s r : strip_suffix pat s = Some r -> s = r ++ pat.
Proof.
  unfold strip_suffix. destruct (strip_prefix (rev pat) (rev s)) as [t|] eqn:E; [|done]. cbn. intros [= <-]. apply strip_prefix_spec in E.
  rewrite <- (rev_involutive s), E, rev_app_distr, rev_involutive. done.
Qed.

Lemma strip_proto_inv s rest tcp : strip_proto s = (rest, tcp) ->
  exists proto, s = rest ++ proto /\ proto ∈ (if tcp then [[]; "/tcp" : str] else ["/udp" : str]).
Proof.
  unfold strip_proto. destruct (strip_suffix "/tcp" s) as [r|] eqn:E1; [|destruct (strip_suffix "/udp" s) as [r|] eqn:E2]; intros [= <- <-].
  - exists ("/tcp" : str). split; [by apply strip_suffix_inv|]. right. left.
  - exists ("/udp" : str). split; [by apply strip_suffix_inv|]. left.
  - exists []. split; [by rewrite app_nil_r|]. left.
Qed.

Lemma parse_port_forward_asked s pf : parse_port_forward s = Ok pf -> forward_asked s pf.
Proof.
  unfold parse_port_forward. destruct (strip_proto s) as [rest tcp] eqn:Ep. apply strip_proto_inv in Ep as (proto & -> & Hp).
  assert (Hend : forall bind addr host guest, match addr with None => bind = [] | Some a => exists b, bind = b ++ ":" /\ dotted b a end ->
    rest = bind ++ host ++ ":" ++ guest ->
    (host_port ← ok_or (parse_unsigned u16_max host) (CliRun_BadPortForward (rest ++ proto) BadPort_Host);
     guest_port ← ok_or (parse_unsigned u16_max guest) (CliRun_BadPortForward (rest ++ proto) BadPort_Guest);
     Ok {| Vmm.bind_addr := addr; Vmm.host_port := host_port; Vmm.guest_port := guest_port; Vmm.tcp := tcp |}) = Ok pf ->
    forward_asked (rest ++ proto) pf).
  { intros bind addr host guest Ha -> H. destruct (parse_unsigned u16_max host) as [h|] eqn:Eh; [|done]. cbn [ok_or mbind result_bind] in H.
    destruct (parse_unsigned u16_max guest) as [g|] eqn:Eg; [|done]. injection H as <-. exists bind, host, guest, proto.
    split_and!; [by rewrite <- !app_assoc|done|by apply parse_port_numeral|by apply parse_port_numeral|done]. }
  destruct (split ":" rest) as [|x [|y [|z [|]]]] eqn:Es; [done|done| | |done].
  - apply (Hend [] None x y); [done|]. by apply split_two.
  - destruct (parse_ipv4 x) as [a|] eqn:Ex; [|done]. apply (Hend (x ++ ":") (Some a) y z).
    + exists x. split; [done|]. by apply parse_ipv4_inv.
    + rewrite <- app_assoc. by apply split_three.
Qed.

Lemma parse_port_forwards_asked specs : forall pfs, parse_port_forwards specs = Ok pfs -> Forall2 forward_asked specs pfs.
Proof.
  induction specs as [|s specs IH]; intros pfs; cbn; [by intros [= <-]; constructor|].
  destruct (parse_port_forward s) as [pf|] eqn:E; [|done]. cbn. destruct (parse_port_forwards specs) as [l|]; [|done]. intros [= <-].
  constructor; [by apply parse_port_forward_asked|by apply IH].
Qed.

(** ** What is started *)

Section dispatch.
Context {V : Vmm} {TF : TempFiles} {PR : Processes} {RT : RecordText} {AH : AuthHost} {SV : RunServices} (env : RunEnv).

(** The firmware of a machine: the one the flags name; otherwise the one that is
    found on the host, all files of which are there, except that QEMU
    boots a disk ([own]) with its own. *)
Definition firmware_files (fw : Firmware) : list str :=
  match fw with Firmware_Bios p => [p] | Firmware_Pflash code vars => [code; vars] end.
Definition firmware_asked (args : RunArgs) (b : VmmKind) (own : bool) (fs : Fs) (fw : option Firmware) : Prop :=
  match ra_firmware args, own, b with
  | Some p, _, _ => fw = Some (Firmware_Bios p)
  | None, true, Vmm_Qemu => fw = None
  | None, _, _ => exists f, fw = Some f /\ find_uefi_firmware fs (e_host_arch env) b = Some f
                    /\ Forall (fun p => has_file fs p = true) (firmware_files f)
  end.

(** A machine as the flags ask for it, from the disk [disk]. *)
Definition as_asked (args : RunArgs) (disk : str) (own : bool) (fs : Fs) (b : VmmKind) (spec : Vmm.VmSpec) : Prop :=
  (exists fw, Vmm.boot spec = BootSource_Disk disk fw /\ firmware_asked args b own fs fw)
  /\ Forall2 forward_asked (ra_port_forwards args) (Vmm.port_forwards spec)
  /\ Vmm.arch spec = e_host_arch env /\ Vmm.memory_mib spec = default 1024%N (ra_memory args) /\ Vmm.cpus spec = default 2%N (ra_cpus args)
  /\ Vmm.display spec = (if ra_graphic args then DisplayMode_Window else DisplayMode_None) /\ Vmm.shares spec = []
  /\ match b with
     | Vmm_Qemu => Vmm.net spec = None
     | Vmm_CloudHypervisor => exists cfg, build_vm_config spec = Ok cfg /\ (cfg_tap cfg = None -> Vmm.port_forwards spec = [])
     end.

(** The options of a container as the flags ask for them. *)
Definition options_asked (args : RunArgs) (o : RunOptions) : Prop :=
  match ra_entrypoint args with Some e => entrypoint_override o = Some [e] | None => entrypoint_override o = None end
  /\ (ra_cmd args = [] -> cmd_override o = None) /\ (ra_cmd args <> [] -> cmd_override o = Some (ra_cmd args))
  /\ env_overrides o = ra_env_overrides args /\ interactive o = ra_interactive args /\ keep_bundle o = ra_keep_bundle args
  /\ opt_bind_mounts o = [].

(** The file system is as it was, or as the projector left it. *)
Definition projected (fs fs' : Fs) : Prop :=
  fs' = fs \/ exists L reference path, fs' = (sv_compile L reference path DiskGeometry_default fs).2.

(** What may be started for some flags, on a host with the files [fs]. *)
Definition allowed (args : RunArgs) (fs : Fs) (x : Started) : Prop :=
  match x with
  | Started_Container reference options =>
      ra_disk args = None /\ ra_vmm args = None
      /\ ra_firmware args = None /\ ra_memory args = None /\ ra_cpus args = None /\ ra_port_forwards args = []
      /\ ra_dhcp_command args = None /\ ra_graphic args = false
      /\ reference = ra_reference args /\ options_asked args options
      /\ exists L profile, resolve_image env args = Ok (L, profile)
           /\ Introspect.kind profile <> L0Kind_Bootable /\ forall p, Introspect.kind profile <> L0Kind_Payload p
  | Started_Machine b spec =>
      (exists disk backend, ra_disk args = Some disk /\ ra_vmm args = Some backend /\ parse_vmm_backend backend = Ok b
         /\ as_asked args disk true fs b spec)
      \/ (ra_disk args = None /\ exists L profile block fs', resolve_image env args = Ok (L, profile) /\ Introspect.kind profile = L0Kind_Bootable
           /\ parse_vmm_backend (default ("qemu" : str) (ra_vmm args)) = Ok b
           /\ block_cache_path (Introspect.manifest_digest profile) (cache_variant DiskGeometry_default None) = Ok block
           /\ projected fs fs' /\ as_asked args (sv_block_path block) false fs' b spec)
  end.

(** What is started ends: the container's engine returns, or every call to the machine is
    answered. *)
Definition answering (x : Started) : Prop :=
  match x with
  | Started_Container reference options => forall L, is_Some (sv_run_image L reference options)
  | Started_Machine _ _ => forall A (c : Call A) w, answers c w = true
  end.

(** The record of what was started. *)
Definition ended_record (st : RunState) (r : result CliRunError Z) (st' : RunState) : Prop :=
  e_registry_opened env = true -> e_id env <> [] -> faults (rs_reg st) = [] ->
  exists rec, files (rs_reg st') !! record_path (e_id env) = Some (to_json rec)
    /\ (pr_status rec, pr_exit_code rec)
       = match r with Ok code => (ProcessStatus_Exited, Some code) | Err _ => (ProcessStatus_Failed, None) end.

(** Nothing was started: it is an error, no machine was spoken to, the file
    system satisfies [fs_ok], and there is no record or one that says so. *)
Definition nothing_started (fs_ok : Fs -> Prop) (st : RunState) (r : result CliRunError Z) (st' : RunState) : Prop :=
  is_ok r = false /\ rs_world st' = rs_world st /\ fs_ok (rs_fs st') /\ (rs_reg st' = rs_reg st \/ ended_record st r st').

(** At most one thing was started, one that is [ok]; its end is recorded, and it
    is waited for. *)
Definition ran_well (fs_ok : Fs -> Prop) (ok : Started -> Prop) (st : RunState) (res : Ran) : Prop :=
  exists o xs st', res = (o, xs, st')
  /\ ((xs = [] /\ exists r, o = Val r /\ nothing_started fs_ok st r st')
      \/ (exists x, xs = [x] /\ ok x /\ (forall r, o = Val r -> ended_record st r st') /\ (answering x -> exists r, o = Val r))).

Lemma ran_nothing (fs_ok : Fs -> Prop) ok st r st' : nothing_started fs_ok st r st' -> ran_well fs_ok ok st (Val r, [], st').
Proof. intros H. eexists _, _, _. split; [reflexivity|]. left. eauto. Qed.
Lemma ran_ended (fs_ok : Fs -> Prop) ok st r x st' : ok x -> ended_record st r st' -> ran_well fs_ok ok st (Val r, [x], st').
Proof. intros Hx H. eexists _, _, _. split; [reflexivity|]. right. exists x. split_and!; [done|done|by intros ? [= <-]|eauto]. Qed.
Lemma ran_stuck (fs_ok : Fs -> Prop) ok st o x st' : ok x -> ~ answering x -> match o with Val _ => False | _ => True end -> ran_well fs_ok ok st (o, [x], st').
Proof. intros Hx Hn Ho. eexists _, _, _. split; [reflexivity|]. right. exists x. split_and!; [done|done|by intros ? ->|done]. Qed.

Lemma refused (fs_ok : Fs -> Prop) ok e st : fs_ok (rs_fs st) -> ran_well fs_ok ok st (refuse e st).
Proof. intros H. apply ran_nothing. split_and!; [done..|]. by left. Qed.

(** The projector comes first. *)
Lemma then_run_well fs_ok ok m st k : fs_ok m.2 ->
  (forall st1, rs_fs st1 = m.2 -> ran_well fs_ok ok st1 (k st1)) -> ran_well fs_ok ok st (then_run m st k).
Proof.
  intros Hm Hk. unfold then_run. set (st1 := {| rs_fs := m.2; rs_world := rs_world st; rs_reg := rs_reg st |}).
  destruct m.1; [apply (Hk st1); done|by apply (refused fs_ok ok _ st1)].
Qed.

Lemma project_block_projected L reference path fs : projected fs (project_block L reference path fs).2.
Proof.
  unfold project_block. destruct (has_file fs path); [by left|]. right. exists L, reference, path. by destruct (sv_compile _ _ _ _ _).
Qed.

Lemma guard_ended kind name process reference st (ending : option Z) fs w :
  ended_record st (match ending with Some code => Ok code | None => Err CliRun_DiskWithoutVmm end)
    {| rs_fs := fs; rs_world := w;
       rs_reg := let '(g, s) := guard env kind name process reference (rs_reg st) in
                 match ending with Some code => guard_exited code (e_finished env) g s | None => guard_drop (e_finished env) g s end |}.
Proof.
  intros Ho Hid Hq. cbn [rs_reg]. destruct (rs_reg st) as [m fl]. cbn in Hq. subst fl. unfold guard. rewrite Ho.
  pose proof (guard_recorded (e_id env) (e_pid env) (e_started env) kind name process reference None ending (e_finished env) m Hid) as H.
  destruct (guard_start _ _ _ _ _ _ _ _ _ _) as [g s]. destruct H as (rec & m' & _ & _ & E & H & _). rewrite E. cbn [files].
  eexists. split; [exact H|]. by destruct ending.
Qed.

Lemma ended_err st e e' st' : ended_record st (Err e) st' -> ended_record st (Err e') st'.
Proof. done. Qed.

Lemma vm_network_asked b args disk own fs fw pfs spec :
  parse_port_forwards (ra_port_forwards args) = Ok pfs -> (b = Vmm_CloudHypervisor -> is_Some fw) ->
  firmware_asked args b own fs fw ->
  vm_network b args (vm_spec_of args disk fw (e_host_arch env) pfs) = Ok spec -> as_asked args disk own fs b spec.
Proof.
  intros Hp%parse_port_forwards_asked Hfw Hf. unfold vm_network. destruct b.
  - intros [= <-]. split_and!; try done. by exists fw.
  - destruct (Hfw eq_refl) as [f ->]. case_bool_decide as He; cbn in He.
    + intros [= <-]. split_and!; try done; [by exists (Some f)|]. unfold build_vm_config. cbn. rewrite (bool_decide_true _ He). cbn. by eexists.
    + destruct (sv_vmnet _ _) as [t|]; [|done]. cbn. intros [= <-]. split_and!; try done; [by exists (Some f)|].
      unfold build_vm_config. cbn. rewrite andb_false_r. by eexists.
Qed.

Lemma run_vm_well (fs_ok : Fs -> Prop) b disk own fs fw args ok st : fs_ok (rs_fs st) ->
  (b = Vmm_CloudHypervisor -> is_Some fw) -> firmware_asked args b own fs fw ->
  (forall spec, as_asked args disk own fs b spec -> ok (Started_Machine b spec)) ->
  ran_well fs_ok ok st (run_vm env b disk fw (e_host_arch env) args st).
Proof.
  intros Hfs Hfw Hf Hok. unfold run_vm. destruct (parse_port_forwards (ra_port_forwards args)) as [pfs|e] eqn:Hp; [|by apply refused]. cbn [mbind result_bind].
  destruct (vm_network _ _ _) as [spec|e] eqn:Hn; [|by apply refused]. apply (vm_network_asked _ _ _ own fs) in Hn; [|done..].
  pose proof (guard_ended ProcessKind_Vm (default ("disk" : str) (file_name (components disk))) ("run --vmm " ++ VmmKind_label b) (Some disk) st) as Hg.
  destruct (guard _ _ _ _ _ _) as [g s]. destruct (e_runtime env) as [[]|e].
  2:{ apply ran_nothing. split_and!; [done..|]. right. eapply ended_err, (Hg None). }
  assert (Ht : answering (Started_Machine b spec) -> exists r fs w, run_machine env b spec (rs_fs st) (rs_world st) = (Val r, fs, w))
    by (intros Ha; by apply run_machine_total).
  destruct (run_machine env b spec (rs_fs st) (rs_world st)) as [[[[code|e]| |] fs'] w].
  - apply ran_ended; [by apply Hok|]. apply (Hg (Some code)).
  - apply ran_ended; [by apply Hok|]. rewrite guard_failed_drop. eapply ended_err, (Hg None).
  - apply ran_stuck; [by apply Hok| |done]. by intros (? & ? & ? & ?)%Ht.
  - apply ran_stuck; [by apply Hok| |done]. by intros (? & ? & ? & ?)%Ht.
Qed.

Lemma run_container_well fs_ok L args (ok : Started -> Prop) st :
  ok (Started_Container (ra_reference args) (options_of_args args)) -> ran_well fs_ok ok st (run_container env L args st).
Proof.
  intros Hok. unfold run_container. pose proof (guard_ended ProcessKind_Container (ra_reference args) "run" (Some (ra_reference args)) st) as Hg.
  destruct (guard _ _ _ _ _ _) as [g s]. destruct (sv_run_image _ _ _) as [[result|e]|] eqn:E.
  - apply ran_ended; [done|]. apply (Hg (Some (default 1 (Bundle.exit_code result)))).
  - apply ran_ended; [done|]. eapply ended_err, (Hg None).
  - apply ran_stuck; [done| |done]. intros Ha. destruct (Ha L) as [? Ha']. by rewrite E in Ha'.
Qed.

Lemma resolve_present fs root a b fw : resolve_uefi_firmware fs root a b = Some fw -> Forall (fun p => has_file fs p = true) (firmware_files fw).
Proof.
  assert (Hone : forall l fw, resolve_single fs root l = Some fw -> Forall (fun p => has_file fs p = true) (firmware_files fw)).
  { intros l f. unfold resolve_single. destruct (find _ _) as [p|] eqn:E; [|done]. intros [= <-]. apply find_some in E as [_ E]. by repeat constructor. }
  assert (Htwo : forall l fw, resolve_split fs root l = Some fw -> Forall (fun p => has_file fs p = true) (firmware_files fw)).
  { intros l f. unfold resolve_split. destruct (find _ _) as [[c v]|] eqn:E; [|done]. intros [= <-]. apply find_some in E as [_ E].
    apply andb_true_iff in E as [E1 E2]. by repeat constructor. }
  unfold resolve_uefi_firmware. intros H. repeat case_match; simplify_eq; eauto.
Qed.

Lemma found_asked args b fs fw :
  match ra_firmware args with Some p => fw = Firmware_Bios p | None => find_uefi_firmware fs (e_host_arch env) b = Some fw end ->
  firmware_asked args b false fs (Some fw).
Proof.
  unfold firmware_asked. destruct (ra_firmware args); [by intros ->|]. intros H. exists fw. split_and!; [done|done|]. by eapply resolve_present.
Qed.

Lemma disk_firmware_asked args b fs fw : disk_firmware env args b fs = Ok fw -> firmware_asked args b true fs fw.
Proof.
  unfold disk_firmware, firmware_asked. destruct (ra_firmware args), b; try by intros [= <-].
  destruct (find_uefi_firmware _ _ _) as [f|] eqn:E; [|done]. intros [= <-]. exists f. do 2 (split; [done|]). exact (resolve_present _ _ _ _ _ E).
Qed.

Lemma no_vm_flag args : vm_only_flag_set args = None ->
  ra_firmware args = None /\ ra_memory args = None /\ ra_cpus args = None /\ ra_port_forwards args = []
  /\ ra_dhcp_command args = None /\ ra_graphic args = false.
Proof.
  unfold vm_only_flag_set. intros H. repeat case_bool_decide; try done. destruct (ra_graphic args); [done|].
  repeat match goal with H : ~ is_Some _ |- _ => apply eq_None_not_Some in H end. by split_and!.
Qed.

Lemma options_of_args_asked args : options_asked args (options_of_args args).
Proof. unfold options_asked, options_of_args. cbn. destruct (ra_entrypoint args), (ra_cmd args); by split_and!. Qed.

Lemma run_bootable_well L profile args st : ra_disk args = None -> resolve_image env args = Ok (L, profile) ->
  Introspect.kind profile = L0Kind_Bootable ->
  ran_well (projected (rs_fs st)) (allowed args (rs_fs st)) st (run_bootable env L (Introspect.manifest_digest profile) args st).
Proof.
  intros Hd Hr Hk. unfold run_bootable. destruct (block_cache_path _ _) as [block|e] eqn:Hb; [|apply refused; by left].
  apply then_run_well; [apply project_block_projected|]. intros st1 Hfs. assert (Hp : projected (rs_fs st) (rs_fs st1)) by (rewrite Hfs; apply project_block_projected).
  unfold boot_block. destruct (parse_vmm_backend _) as [b|e] eqn:Hv; [|by apply refused]. cbn [mbind result_bind].
  destruct (match ra_firmware args with Some _ => _ | None => _ end) as [fw|e] eqn:Hf; [|by apply refused]. cbn [mbind result_bind].
  apply (run_vm_well _ _ _ false (rs_fs st1)); [done|by intros _| |].
  - apply found_asked. destruct (ra_firmware args); [by injection Hf as <-|]. destruct (find_uefi_firmware _ _ _); [|done]. by injection Hf as <-.
  - intros spec Ha. right. split; [done|]. by exists L, profile, block, (rs_fs st1).
Qed.

Lemma run_resolved_well L profile args st : ra_disk args = None -> resolve_image env args = Ok (L, profile) ->
  ran_well (projected (rs_fs st)) (allowed args (rs_fs st)) st (run_resolved env L profile args st).
Proof.
  intros Hd Hr. assert (Hp : projected (rs_fs st) (rs_fs st)) by by left.
  unfold run_resolved. case_bool_decide as Hk; [by apply run_bootable_well|].
  case_bool_decide as Hv; [by apply refused|]. destruct (vm_only_flag_set args) as [flag|] eqn:Hf; [by apply refused|].
  assert (ra_vmm args = None) by (destruct (ra_vmm args); [by destruct Hv|done]).
  destruct (Introspect.kind profile) eqn:Ek; cbn [dispatch_runnable]; try done; [..|by apply refused|]; try apply run_container_well.
  all: apply no_vm_flag in Hf as (? & ? & ? & ? & ? & ?); split_and!; try done; try apply options_of_args_asked; exists L, profile; split_and!; [done|by rewrite Ek|intros ?; by rewrite Ek].
Qed.

(** C16 (safety): [umf run] starts at most one thing, and the right one.  When
    nothing is started the command returns an error, no machine was spoken to, and the
    file system is untouched, apart from what the projector did.  A container is started
    only from an image that is neither bootable nor a component, with
    exactly the options given, and only if none of the flags of virtual
    machines was given, so that none is silently dropped; a machine is started from the
    disk that was named or, for a bootable image, from its projected disk,
    with the memory, processors, display and port forwards the flags spell, with
    the firmware that is named or one that is there on the host (QEMU
    boots a disk with its own), and on Cloud Hypervisor with a configuration its backend
    accepts and a tap whenever ports are forwarded.  The command returns if the container or the
    machine it waits for answers, and then, if the registry of processes was
    opened, the id of the run is not empty and no operation on the registry
    fails, what was started is recorded as exited with its code, or as failed. *)
Theorem run_starts_as_asked (args : RunArgs) (st : RunState) :
  ran_well (projected (rs_fs st)) (allowed args (rs_fs st)) st (run_run env args st).
Proof.
  assert (Hp : projected (rs_fs st) (rs_fs st)) by by left. unfold run_run. destruct (ra_disk args) as [disk|] eqn:Hd.
  - destruct (ra_vmm args) as [backend|] eqn:Hv; [|by apply refused].
    destruct (parse_vmm_backend backend) as [b|e] eqn:Hb; [|by apply refused]. cbn [mbind result_bind].
    destruct (disk_firmware env args b (rs_fs st)) as [fw|e] eqn:Hf; [|by apply refused]. cbn [mbind result_bind]. apply (run_vm_well _ _ _ true (rs_fs st)); [done| |by apply disk_firmware_asked|].
    + intros ->. unfold disk_firmware in Hf. destruct (ra_firmware args); [by injection Hf as <-|].
      destruct (find_uefi_firmware _ _ _); [|done]. by injection Hf as <-.
    + intros spec Ha. left. by exists disk, backend.
  - destruct (resolve_image env args) as [[L profile]|e] eqn:Hr; [|by apply refused]. by apply run_resolved_well.
Qed.
End dispatch.

(** ** Where the code does not do what it says *)
Module RunExample.
(** A machine that is reachable until its process is killed. *)
Definition reply (dead : bool) {A} (c : Call A) : A :=
  match c with
  | OpenUds _ => if dead then Err ("connection refused" : str) else Ok tt
  | VmmPing _ => if dead then Err ("connection refused" : str) else Ok tt
  | Negotiate => Replied tt | SystemPowerdown => Replied tt | CreateVm _ => Replied tt | BootVm => Replied tt | PowerButton => Replied tt
  | QueryStatus => Replied running
  | Quit => Replied tt | ShutdownVmm => Replied tt
  | VmInfoGet => Replied Running
  | TryWait _ => Ok None
  | ChildWait _ => Ok (Some 0%Z)
  | StartKill _ => Ok tt
  | Sleep _ => tt
  end.
Definition kills {A} (c : Call A) : bool := match c with StartKill _ => true | _ => false end.
Definition takes {A} (c : Call A) : N := match c with Sleep ms => ms | _ => 1 end.

#[refine] Instance mortal : Vmm :=
  {| World := N * bool; now := fst; answers := fun _ _ _ => true; answer := fun A c w => (reply w.2 c, ((w.1 + takes c)%N, w.2 || kills c)) |}.
Proof. all: cbn; done || lia. Defined.

Definition vm : VmHandle := {| child := Some 7%N; control_socket := Some ("/q" : str); vm_id := "umf-vmm-17"; scratch := [] |}.

(** Interrupted, [umf run] means to shut the machine down gracefully; the machine has been
    killed by then, the guest is never asked, and after five seconds the
    command fails. *)
Example interrupt_kills :
  match vm_session Vmm_Qemu true vm (0%N, false) with
  | (Val (Err (VmError_Control msg)), tr, w) =>
      msg = ("couldn't connect to QMP socket /q: connection refused" : str)
      /\ head (drop 3 tr) = Some (Ev 3%N (StartKill 7%N) (Ok tt)) /\ (5000 <= now w)%N
      /\ forallb (fun e => match e with Ev _ SystemPowerdown _ => false | _ => true end) tr = true
  | _ => False
  end.
Proof. vm_compute. done. Qed.

(** An empty XDG_CACHE_HOME puts the layout into the working directory; the
    registry of processes takes an empty variable for one that is not set. *)
Example empty_cache_home :
  default_layout_dir (Some []) (Some ("/home/u" : str)) = Ok ("umf/oci-layout" : str)
  /\ registry_dir (Some []) (Some ("/home/u" : str)) = Ok ("/home/u/.local/state/umf/processes" : str).
Proof. done. Qed.

(** A forward of the documentation's form. *)
Example forward_parsed :
  parse_port_forward "127.0.0.1:8080:80/udp"
  = Ok {| Vmm.bind_addr := Some 2130706433; Vmm.host_port := 8080; Vmm.guest_port := 80; Vmm.tcp := false |}.
Proof. reflexivity. Qed.

(** [umf run --vmm qemu --disk /d -p 8080:80]: the machine that is started, and
    its exit code. *)
#[local] Existing Instance ModelTemp.model_temp.
#[local] Existing Instance RegistryExample.text.
#[local] Existing Instance AuthExample.host.
#[local] Instance processes : Processes := {| spawn := fun _ _ => Ok 7%N; process_id := 17; io_text := fun _ => "error" |}.
#[local] Instance services : RunServices :=
  {| sv_init := fun _ => Err (RegistryError_NotFound []); sv_parse := fun s => Ok s; sv_registry := fun s => s; sv_pull := fun L _ _ _ => Ok L;
     sv_introspect := fun _ r => Err (RegistryError_NotFound r); sv_block_path := fun b => b.1; sv_compile := fun _ _ _ _ fs => (Ok tt, fs);
     sv_vmnet := fun _ _ => Err ("none" : str); sv_run_image := fun _ r _ => Some (Err (EngineError_ImageNotInLayout r)) |}.
Definition env (interrupted : bool) : RunEnv :=
  {| e_host_arch := X86_64; e_xdg_cache_home := None; e_home := None; e_stdin := Ok []; e_registry_opened := true; e_id := "a1"; e_pid := 17;
     e_started := 5; e_finished := 9; e_interrupted := interrupted; e_runtime := Ok tt |}.
Definition disk_args : RunArgs :=
  {| ra_reference := "x"; ra_interactive := false; ra_env_overrides := []; ra_entrypoint := None; ra_keep_bundle := false; ra_layout_dir := None;
     ra_insecure_registry := false; ra_username := None; ra_password_stdin := false; ra_cmd := []; ra_vmm := Some ("qemu" : str);
     ra_disk := Some ("/d" : str); ra_firmware := None; ra_memory := Some 2048%N; ra_cpus := None; ra_port_forwards := ["8080:80" : str];
     ra_dhcp_command := None; ra_graphic := false |}.
Definition start : RunState :=
  {| rs_fs := list_to_map [([], NDir []); (["d" : str], NFile "disk")]; rs_world := (0%N, false); rs_reg := {| files := ∅; faults := [] |} |}.

Example disk_booted :
  let res := run_run (env false) disk_args start in
  res.1 = (Val (Ok 0), [Started_Machine Vmm_Qemu (vm_spec_of disk_args "/d" None X86_64
             [{| Vmm.bind_addr := None; Vmm.host_port := 8080; Vmm.guest_port := 80; Vmm.tcp := true |}])])
  /\ rs_fs res.2 = rs_fs start /\ is_Some (files (rs_reg res.2) !! ("a1.json" : str)).
Proof. split_and!; [reflexivity|reflexivity|by eexists]. Qed.
End RunExample.
